(* ===== verification/_CoqProject ===== *)
-Q . S2P
Prelude.v
Bits.v
Buffers.v
ByteSearch.v
Decimal.v
BoundedQueue.v
FlatMap.v
CharOps.v
FlatMapIterator.v
HpackTables.v
Huffman.v
HpackPrims.v
HpackIndexTable.v
HPacker.v
HpackSafety.v
CordBlocks.v
CordBuf.v
CordQueue.v
CordOps.v
CordSpec.v
CordFind.v
CordAppend.v
CordWorld.v
CordStream.v
Crc32c.v
SnappyFormat.v
SnappyStubs.v
SnappyFragment.v
SnappyEncode.v
SnappyFragmentSpec.v
SnappyIO.v
SnappyCompress.v
SnappyWriters.v
SnappyArrayWriter.v
SnappyValidator.v
SnappyIOVecWriter.v
SnappyScatteredWriter.v
SnappyDecompress.v
SnappyDecompressSpec.v
SnappyReference.v
Snappy.v
SnappyCord.v
Base64.v
RedisReply.v
RedisReplySpec.v
RedisCommand.v
RedisCommandSpec.v
RedisResponse.v
WorkStealing.v
DoublyBuffered.v
FiberSync.v
HttpParser.v
HttpSafety.v
HttpSplit.v
ExecqRef.v
ExecqTasks.v
CivilTime.v
Ascii.v
Numbers.v
StrCat.v
Escaping.v
EscapingBase64.v
