(* ===== verification/Prelude.v ===== *)
(** * flare: a verification of its containers, codecs, parsers and fibers

    flare is an RPC framework in C++.  A request arrives on a socket, is kept in
    a [cord_buf] (a queue of references to shared, counted blocks), parsed by
    the parser of its protocol and handed to the user on a fiber, a thread that
    workers schedule in user space.  This development models the parts of it
    that compute: the containers and buffers, the text and wire formats, and
    the concurrent structures under the fibers.  Paths below are under
    [src/flare/].

    ** Conventions

    Definitions are translations of the functions they are named after and can
    be evaluated.  Integers are [Z] with the wrap-around of their width written
    out ([u8] ... [s64] below), bytes are [Z] values in [0, 256), strings are
    [list Z].  Code that can fail returns [option] or the type [outcome], whose
    values are a result, a failed check that stops the process ([Abort]) and
    behaviour that C++ leaves undefined ([Undefined]: a read or write outside
    of a buffer, a signed overflow, a use after free); theorems that a function
    is safe say that its outcome is neither.  A failed [FLARE_CHECK] is taken to
    stop the process, as it does with the flag [flare_crash_on_fatal_log]; a
    FATAL message on the way to an ordinary return is only a message.  Objects that the source mutates
    are passed and returned.  Code that threads run at the same time is a step
    function with one step per shared access; schedules are arbitrary
    sequences of steps of any number of threads.

    ** Components

    Containers.
    - [BoundedQueue]: [container/bounded_queue.h].  A ring of slots refines a
      list; the class [FifoQueue] is what the HPACK table asks of it.
    - [FlatMap], [CharOps], [FlatMapIterator]: [container/flat_map.h],
      [flat_map_inl.h], [case_ignored_flat_map.h].  The hash table is a finite
      map through any rehashing, for every hasher and equality with the laws of
      [KeyOps]; the loop over its iterators ends and visits every key once.
    - [DoublyBuffered]: [container/doubly_buffered_data.h].  Readers never see
      the instance that is modified, the two instances refine one atomic value,
      and there is no deadlock unless a thread nests its calls.

    Buffers.  [CordBlocks], [CordBuf], [CordQueue], [CordOps], [CordSpec],
    [CordFind], [CordAppend], [CordWorld], [CordStream]: [io/cord_buf.h],
    [cord_buf_inl.h], [cord_buf.cc].  The heap of blocks with their counters, the
    thread's chain of blocks, the two views of a buffer, the output stream.  Any
    program over any number of buffers gives the results of the same program on
    byte strings and leaks nothing; what is written to the blocks that the stream
    lends is appended, and nothing else changes.

    HPACK.  [HpackTables], [Huffman], [HpackPrims], [HpackIndexTable],
    [HPacker], [HpackSafety]: [rpc/details/hpack.cc].  The table, built from a
    [FifoQueue] and two [FlatMap]s, refines the table of RFC 7541 until its slots
    run out, which only entries with an empty name or value can bring about; a
    stream of headers is decoded to itself; on arbitrary bytes the decoder ends,
    and the inputs on which it stops the process or is undefined are described.

    Protocol parsers.
    - [HttpParser], [HttpSafety], [HttpSplit]: [rpc/details/http_parser.cc].
      No assertion fails for any bytes and callbacks, and with callbacks that
      never stop the parser the result does not depend on how the stream is cut.
    - [RedisReply], [RedisReplySpec], [RedisCommand], [RedisCommandSpec],
      [RedisResponse], [Decimal], [ByteSearch]: [rpc/redis_reply.cc],
      [redis_command.cc], [redis.cc].  Replies, built by the setters, and
      commands are read back from what was written, whatever the pieces in which
      they arrive; on arbitrary bytes the reply parser is safe.

    Codecs.
    - [SnappyFormat], [SnappyStubs], [SnappyFragment], [SnappyEncode],
      [SnappyFragmentSpec], [SnappyIO], [SnappyCompress], [SnappyWriters], the
      four files of the writers, [SnappyDecompress], [SnappyDecompressSpec],
      [SnappyReference], [Snappy], [SnappyCord]: [io/snappy/], the adaptors of
      [io/cord_buf.cc] and [rpc/policy/snappy_compress.cc].  Sources, sinks and
      writers are classes with laws.  [SnappyFormat] describes the format, with
      unbounded numbers; decompression inverts compression and agrees with the
      description on arbitrary bytes, except on streams whose lengths exceed 32
      bits, which the code wraps ([wraps]).  [SnappyCord] has the [cord_buf] as
      source and as sink over the heap of blocks.
    - [Crc32c]: [base/crc32c.cc], equal to the checksum one bit at a time.
    - [Base64]: [base/base64.cc].

    Texts and times.
    - [Ascii], [Numbers], [StrCat]: [strings/ascii.h], [numbers.cc],
      [str_cat.cc].  The parsers accept exactly the numerals of their type and
      clamp the others, without overflow; the printers stay inside of their
      buffers and are read back.
    - [Escaping], [EscapingBase64]: [strings/escaping.cc].  Unescaping, also in
      place, returns what the sequences mean, hexadecimal ones of more than 32
      bits apart, and inverts escaping.
    - [CivilTime]: [times/internal/chrono_time_detail.h].  Normalization ends
      without overflow in the one valid date that stands for the same second;
      steps, differences, weekdays agree with the Gregorian calendar.

    Fibers.
    - [WorkStealing]: [fiber/internal/work_stealing_queue.h], linearizable to a
      sequential deque.
    - [FiberSync]: [fiber/internal/waitable_event.cc], [mutex.cc],
      [fiber_cond.cc], [fiber/fiber_latch.cc].  Mutual exclusion, and no wake-up
      is lost, with time-outs, interruptions and requeued waiters.
    - [ExecqRef], [ExecqTasks]: [fiber/internal/execution_queue*].  References
      keep a queue alive and every stopped queue is recycled; tasks run once and
      in order, and none is left behind.

    This file, [Bits] and [Buffers] hold what the components share: the machine
    integers, lists indexed by [Z], [outcome], the decision tactics, words and
    memory.

    ** Fuel and bounds

    Loops that are not structural take fuel.  A function with an [outcome] is
    [Undefined] when it runs out of it, so a theorem that gives its result also
    shows that the fuel was enough.  Loops over input (HTTP, redis, HPACK,
    Snappy, escaping, numbers) have the bytes left, or a number computed from
    them, as fuel, since every turn consumes a byte; [pop_while] of the HPACK
    table has the number of entries; loops over block chains and rings have
    their length; the loops of [CivilTime] have bounds of 4, 25, 4 and 12
    turns, which the theorem on normalization establishes.

    A few total functions return what they have instead.  [_mod] of
    [BoundedQueue] has one turn more than the quotient, the loops of [Crc32c]
    the length of the data, the Huffman encoder the bits of a code and
    [encode_int_loop] five turns for 32 bits; the lemmas on them show that the
    loop left by its own test.  [index_op] of [FlatMap] nests at most 64
    rehashings, each of which at least doubles the table, and then chains the
    element as the code does when [resize] fails.

    Bounds on data are hypotheses of the theorems and named in their comments:
    streams of 2^31 headers (the counter of the table is narrowed to [int]),
    strings of HPACK below 2^27 bytes, compressed data below 4 GB, blocks of a
    [cord_buf] below 2^30 bytes, queues of up to 2^31 slots, redis texts and
    buffers below 2^31 bytes, versions of an execution queue below 2^31, years
    within 8*10^18 (3*10^18 for steps, 10^15 for the calendar).

    ** Assumptions

    Atomic accesses are sequentially consistent: the memory orders and fences
    of the source are not examined.  Allocation may fail where the source
    checks it.  Functions of the C library that are modelled ([strtoll],
    [memcpy], [tolower]) have their standard meaning; [vsnprintf], the CRC
    instruction of the processor, hashers and callbacks are arguments, with
    what is relied on stated as a hypothesis or a class.

    ** Not modelled

    - Channels, servers, sockets, streams, naming services, load balancers,
      concurrency limiters, builtin pages ([rpc/] other than the parsers and
      codecs above): they call the operating system and classes that protobuf
      generates, which are not in the repository.  The wire protocols of
      [rpc/policy/] are glue between those and the parsers.
    - The scheduler of the fibers, its context switches in assembly, parking,
      timers and fiber-local keys.  What they do to a waiter is part of
      [FiberSync]; timers fire at any time there.
    - [waitable_event_wake_except], the contention profiler and the locks that
      sit directly on futexes; the sparse variant of [FlatMap]; the parts of
      [cord_buf] that read and write file descriptors and SSL; the printing of
      redis replies and the protobuf side of [RedisRequest].
    - Floating point: [numbers.cc] and [str_cat.cc] for [float] and [double],
      [metrics/], durations and time zones.
    - Libraries kept with the sources (rapidjson, the formatter, hash tables,
      B-trees), digests, [mcpack2pb/], [json2pb/], and the wrappers of files,
      pthreads, signals and logs ([files/], [system/], [thread/], [log/],
      [debugging/]). *)

From stdpp Require Export base list list_numbers numbers strings gmap.
From Stdlib Require Export ZArith Lia.

#[export] Set Default Proof Using "Type".
#[export] Set Default Goal Selector "!".

(** ** Machine integers *)

Definition wrap (w z : Z) : Z := (z `mod` 2 ^ w)%Z.
Definition u8 (z : Z) : Z := (z `mod` 256)%Z.
Definition u16 (z : Z) : Z := (z `mod` 65536)%Z.
Definition u32 (z : Z) : Z := (z `mod` 4294967296)%Z.
Definition u64 (z : Z) : Z := (z `mod` 18446744073709551616)%Z.
Definition s32 (z : Z) : Z := ((z + 2147483648) `mod` 4294967296 - 2147483648)%Z.
Definition s64 (z : Z) : Z :=
  ((z + 9223372036854775808) `mod` 18446744073709551616 - 9223372036854775808)%Z.

(** ** Bytes and byte strings *)

Definition byte_ok (b : Z) : Prop := (0 <= b < 256)%Z.
Definition bytes_ok (s : list Z) : Prop := Forall byte_ok s.

(** A string literal of the source as the bytes the compiler stores. *)
Fixpoint bs (s : string) : list Z :=
  match s with
  | EmptyString => []
  | String c r => Z.of_N (Ascii.N_of_ascii c) :: bs r
  end.

Declare Scope bytes_scope.
Delimit Scope bytes_scope with bytes.
Notation "'CR'" := 13%Z (only parsing) : bytes_scope.
Notation "'LF'" := 10%Z (only parsing) : bytes_scope.

(** [Z]-indexed length, take, drop and lookup. *)
Definition zlen {A} (l : list A) : Z := Z.of_nat (length l).
Definition ztake {A} (n : Z) (l : list A) : list A := take (Z.to_nat n) l.
Definition zdrop {A} (n : Z) (l : list A) : list A := drop (Z.to_nat n) l.
Definition zget {A} (l : list A) (i : Z) : option A :=
  if (i <? 0)%Z then None else l !! Z.to_nat i.
Definition zset {A} (i : Z) (x : A) (l : list A) : list A :=
  if (i <? 0)%Z then l else <[Z.to_nat i := x]> l.

Local Open Scope Z_scope.

(** ** Tactics *)

(** Turn the boolean comparisons of the context and the goal into
    propositions. *)
Ltac zbool :=
  repeat match goal with
  | H : (_ =? _) = true |- _ => apply Z.eqb_eq in H
  | H : (_ =? _) = false |- _ => apply Z.eqb_neq in H
  | H : (_ <? _) = true |- _ => apply Z.ltb_lt in H
  | H : (_ <? _) = false |- _ => apply Z.ltb_ge in H
  | H : (_ <=? _) = true |- _ => apply Z.leb_le in H
  | H : (_ <=? _) = false |- _ => apply Z.leb_gt in H
  | H : (_ && _) = true |- _ => apply andb_true_iff in H as [? ?]
  | H : (_ || _) = false |- _ => apply orb_false_iff in H as [? ?]
  | H : negb _ = true |- _ => apply negb_true_iff in H
  | H : negb _ = false |- _ => apply negb_false_iff in H
  end.

(** Case on the scrutinee of the first conditional of the goal. *)
Ltac case_if :=
  match goal with
  | |- context [if ?b then _ else _] => destruct b eqn:?
  end.

Ltac case_if_in H :=
  match type of H with
  | context [if ?b then _ else _] => destruct b eqn:?
  end.

(** Reduce a conditional whose test is decided by arithmetic. *)
Ltac decide_if :=
  match goal with
  | |- context [if (?a <? ?b) then _ else _] =>
      first [ rewrite (proj2 (Z.ltb_lt a b)) by lia
            | rewrite (proj2 (Z.ltb_ge a b)) by lia ]
  | |- context [if (?a <=? ?b) then _ else _] =>
      first [ rewrite (proj2 (Z.leb_le a b)) by lia
            | rewrite (proj2 (Z.leb_gt a b)) by lia ]
  | |- context [if (?a =? ?b) then _ else _] =>
      first [ rewrite (proj2 (Z.eqb_eq a b)) by lia
            | rewrite (proj2 (Z.eqb_neq a b)) by lia ]
  end.

Ltac unfold_words := unfold u8, u16, u32, u64, s32, s64, wrap, byte_ok in *.

Create HintDb words.
Create Rewrite HintDb words_rw.
Create Rewrite HintDb zlist.

(** ** Integers *)

Lemma u8_range z : 0 <= u8 z < 256.
Proof. unfold u8. apply Z.mod_pos_bound. lia. Qed.
Lemma u16_range z : 0 <= u16 z < 65536.
Proof. unfold u16. apply Z.mod_pos_bound. lia. Qed.
Lemma u32_range z : 0 <= u32 z < 4294967296.
Proof. unfold u32. apply Z.mod_pos_bound. lia. Qed.
Lemma u64_range z : 0 <= u64 z < 18446744073709551616.
Proof. unfold u64. apply Z.mod_pos_bound. lia. Qed.

Lemma u8_small z : 0 <= z < 256 -> u8 z = z.
Proof. intros. unfold u8. by apply Z.mod_small. Qed.
Lemma u16_small z : 0 <= z < 65536 -> u16 z = z.
Proof. intros. unfold u16. by apply Z.mod_small. Qed.
Lemma u32_small z : 0 <= z < 4294967296 -> u32 z = z.
Proof. intros. unfold u32. by apply Z.mod_small. Qed.
Lemma u64_small z : 0 <= z < 18446744073709551616 -> u64 z = z.
Proof. intros. unfold u64. by apply Z.mod_small. Qed.
Lemma s32_small z : -2147483648 <= z < 2147483648 -> s32 z = z.
Proof. intros. unfold s32. rewrite Z.mod_small; lia. Qed.
Lemma s64_small z :
  -9223372036854775808 <= z < 9223372036854775808 -> s64 z = z.
Proof. intros. unfold s64. rewrite Z.mod_small; lia. Qed.

#[export] Hint Resolve u8_range u16_range u32_range u64_range : words.
#[export] Hint Rewrite u8_small u16_small u32_small u64_small s32_small s64_small
  using lia : words_rw.

(** ** Lists *)

Lemma zlen_nonneg {A} (l : list A) : 0 <= zlen l.
Proof. unfold zlen. lia. Qed.
Lemma zlen_nil {A} : zlen (@nil A) = 0.
Proof. done. Qed.
Lemma zlen_cons {A} (x : A) l : zlen (x :: l) = zlen l + 1.
Proof. unfold zlen. simpl. lia. Qed.
Lemma zlen_app {A} (l1 l2 : list A) : zlen (l1 ++ l2) = zlen l1 + zlen l2.
Proof. unfold zlen. rewrite length_app. lia. Qed.

Lemma ztake_app_exact {A} n (l1 l2 : list A) : zlen l1 = n -> ztake n (l1 ++ l2) = l1.
Proof. unfold ztake, zlen. intros <-. rewrite Nat2Z.id. apply take_app_length. Qed.
Lemma zdrop_app_exact {A} n (l1 l2 : list A) : zlen l1 = n -> zdrop n (l1 ++ l2) = l2.
Proof. unfold zdrop, zlen. intros <-. rewrite Nat2Z.id. apply drop_app_length. Qed.
Lemma ztake_zdrop {A} n (l : list A) : ztake n l ++ zdrop n l = l.
Proof. apply take_drop. Qed.
Lemma zlen_ztake {A} n (l : list A) : 0 <= n <= zlen l -> zlen (ztake n l) = n.
Proof. unfold zlen, ztake. intros. rewrite length_take. lia. Qed.
Lemma zlen_zdrop {A} n (l : list A) : 0 <= n <= zlen l -> zlen (zdrop n l) = zlen l - n.
Proof. unfold zlen, zdrop. intros. rewrite length_drop. lia. Qed.

Lemma ztake_app_le {A} n (l1 l2 : list A) : n <= zlen l1 -> ztake n (l1 ++ l2) = ztake n l1.
Proof. unfold zlen, ztake. intros. apply take_app_le. lia. Qed.
Lemma zdrop_app_le {A} n (l1 l2 : list A) : n <= zlen l1 -> zdrop n (l1 ++ l2) = zdrop n l1 ++ l2.
Proof. unfold zlen, zdrop. intros. apply drop_app_le. lia. Qed.
Lemma ztake_app_ge {A} n (l1 l2 : list A) : zlen l1 <= n -> ztake n (l1 ++ l2) = l1 ++ ztake (n - zlen l1) l2.
Proof. unfold zlen, ztake. intros. rewrite take_app_ge by lia. do 2 f_equal. lia. Qed.
Lemma zdrop_app_ge {A} n (l1 l2 : list A) : zlen l1 <= n -> zdrop n (l1 ++ l2) = zdrop (n - zlen l1) l2.
Proof. unfold zlen, zdrop. intros. rewrite drop_app_ge by lia. f_equal. lia. Qed.
Lemma ztake_all {A} n (l : list A) : zlen l <= n -> ztake n l = l.
Proof. unfold zlen, ztake. intros. apply take_ge. lia. Qed.
Lemma zdrop_all {A} n (l : list A) : zlen l <= n -> zdrop n l = [].
Proof. unfold zlen, zdrop. intros. apply drop_ge. lia. Qed.
Lemma ztake_ztake {A} n k (l : list A) : n <= k -> ztake n (ztake k l) = ztake n l.
Proof. unfold ztake. intros. rewrite take_take. f_equal. lia. Qed.
Lemma zdrop_zdrop {A} n k (l : list A) : 0 <= n -> 0 <= k -> zdrop n (zdrop k l) = zdrop (k + n) l.
Proof. unfold zdrop. intros. rewrite drop_drop. f_equal. lia. Qed.
Lemma zdrop_ztake {A} n k (l : list A) : 0 <= n -> 0 <= k -> zdrop n (ztake k l) = ztake (k - n) (zdrop n l).
Proof. unfold zdrop, ztake. intros. rewrite skipn_firstn_comm. f_equal. lia. Qed.

Lemma zdrop_cons {A} (l : list A) i x : zget l i = Some x -> zdrop i l = x :: zdrop (i + 1) l.
Proof.
  unfold zget, zdrop. destruct (i <? 0) eqn:E; [done|]. intros Hx. rewrite (drop_S _ _ _ Hx). apply Z.ltb_ge in E. do 2 f_equal. lia.
Qed.

Lemma ztake_add {A} a b (l : list A) : 0 <= a -> 0 <= b -> ztake (a + b) l = ztake a l ++ ztake b (zdrop a l).
Proof. unfold ztake, zdrop. intros. rewrite Z2Nat.inj_add by lia. by rewrite take_take_drop. Qed.

Lemma zget_lt {A} (l : list A) i : 0 <= i < zlen l -> is_Some (zget l i).
Proof.
  unfold zget, zlen. intros. decide_if. apply lookup_lt_is_Some. lia.
Qed.
Lemma zget_Some_lt {A} (l : list A) i x : zget l i = Some x -> 0 <= i < zlen l.
Proof.
  unfold zget, zlen. case_if; [done|]. zbool. intros ?%lookup_lt_Some. lia.
Qed.
Lemma zget_ge {A} (l : list A) i : zlen l <= i -> zget l i = None.
Proof.
  unfold zget, zlen. intros. case_if; [done|]. apply lookup_ge_None. lia.
Qed.
Lemma zlen_zset {A} i (x : A) l : zlen (zset i x l) = zlen l.
Proof. unfold zset, zlen. case_if; [done|]. by rewrite length_insert. Qed.
Lemma zget_zset_eq {A} i (x : A) l : 0 <= i < zlen l -> zget (zset i x l) i = Some x.
Proof.
  unfold zget, zset, zlen. intros. repeat decide_if.
  apply list_lookup_insert_eq. lia.
Qed.
Lemma zget_zset_ne {A} i j (x : A) l : i <> j -> 0 <= i -> zget (zset i x l) j = zget l j.
Proof.
  unfold zget, zset. intros. decide_if. case_if; [done|]. zbool.
  apply list_lookup_insert_ne. lia.
Qed.
Lemma zget_app_l {A} (l1 l2 : list A) i : i < zlen l1 -> zget (l1 ++ l2) i = zget l1 i.
Proof.
  unfold zget, zlen. intros. case_if; [done|]. zbool.
  apply lookup_app_l. lia.
Qed.
Lemma zget_app_r {A} (l1 l2 : list A) i :
  zlen l1 <= i -> zget (l1 ++ l2) i = zget l2 (i - zlen l1).
Proof.
  unfold zget, zlen. intros. repeat decide_if.
  rewrite lookup_app_r by lia. f_equal. lia.
Qed.
Lemma zget_cons_0 {A} (x : A) l : zget (x :: l) 0 = Some x.
Proof. done. Qed.
Lemma zget_cons_S {A} (x : A) l i : 0 <= i -> zget (x :: l) (i + 1) = zget l i.
Proof.
  intros. change (x :: l) with ([x] ++ l). rewrite zget_app_r by (unfold zlen; simpl; lia).
  f_equal. unfold zlen. simpl. lia.
Qed.

(** Two lists with the same [Z]-indexed contents are equal. *)
Lemma zget_ext {A} (l1 l2 : list A) :
  (forall i, 0 <= i -> zget l1 i = zget l2 i) -> l1 = l2.
Proof.
  intros H. apply list_eq. intros i. specialize (H (Z.of_nat i) ltac:(lia)).
  unfold zget in H. rewrite !(proj2 (Z.ltb_ge _ _)) in H by lia. by rewrite Nat2Z.id in H.
Qed.

#[export] Hint Rewrite @zlen_nil @zlen_cons @zlen_app @zlen_zset : zlist.

Lemma bytes_ok_app s t : bytes_ok (s ++ t) <-> bytes_ok s /\ bytes_ok t.
Proof. apply Forall_app. Qed.

(** A decidable property of bytes, checked on all of them. *)
Lemma byte_check (P : Z -> bool) :
  forallb P (seqZ 0 256) = true -> forall c, 0 <= c < 256 -> P c = true.
Proof.
  intros H c Hc. rewrite forallb_forall in H. apply H. apply list_elem_of_In, elem_of_seqZ. lia.
Qed.

(** ** Outcomes of code that can stop the process *)

(** [Ok a]: the code returns [a].  [Abort]: a [FLARE_CHECK] fails, which
    terminates the process.  [Undefined]: the code executes an operation
    without defined behaviour (a null dereference, an oversized shift); a
    bounded loop of the model that runs out of fuel also ends here. *)
Inductive outcome (A : Type) : Type :=
| Ok (a : A)
| Abort
| Undefined.
Arguments Ok {A} a.
Arguments Abort {A}.
Arguments Undefined {A}.

#[export] Instance outcome_ret : MRet outcome := fun A a => Ok a.
#[export] Instance outcome_bind : MBind outcome := fun A B f m =>
  match m with Ok a => f a | Abort => Abort | Undefined => Undefined end.
#[export] Instance outcome_fmap : FMap outcome := fun A B f m =>
  match m with Ok a => Ok (f a) | Abort => Abort | Undefined => Undefined end.

Lemma outcome_bind_Ok {A B} (f : A -> outcome B) (m : outcome A) b :
  (m ≫= f) = Ok b -> exists a, m = Ok a /\ f a = Ok b.
Proof. destruct m as [a| |]; [|done..]. intros H. by exists a. Qed.

(** Equality of the results of decoders: return code, value, bytes left. *)
Lemma ok3 {A B C} (a a' : A) (b b' : B) (c c' : C) :
  a = a' -> b = b' -> c = c' -> Ok (a, b, c) = Ok (a', b', c').
Proof. congruence. Qed.

(** A pointer that is dereferenced. *)
Definition deref {A} (p : option A) : outcome A :=
  match p with Some a => Ok a | None => Undefined end.

(** [FLARE_CHECK(c)]. *)
Definition check (c : bool) : outcome unit := if c then Ok tt else Abort.

(** Position of the first element that satisfies [P]. *)
Fixpoint find_index {A} (P : A -> bool) (l : list A) : option Z :=
  match l with
  | [] => None
  | x :: l => if P x then Some 0 else (fun i => i + 1) <$> find_index P l
  end.

Lemma find_index_range {A} (P : A -> bool) l i :
  find_index P l = Some i -> 0 <= i < zlen l.
Proof.
  revert i. induction l as [|x l IH]; intros i; simpl; [done|]. rewrite zlen_cons.
  pose proof (zlen_nonneg l). case_if; [intros [= <-]; lia|].
  destruct (find_index P l) as [j|]; [|done]. intros [= <-]. specialize (IH j eq_refl). lia.
Qed.

Lemma find_index_get {A} (P : A -> bool) l i :
  find_index P l = Some i -> exists x, zget l i = Some x /\ P x = true.
Proof.
  revert i. induction l as [|x l IH]; intros i; simpl; [done|].
  destruct (P x) eqn:E; [intros [= <-]; by exists x|].
  destruct (find_index P l) as [j|] eqn:Ej; [|done]. intros [= <-].
  pose proof (find_index_range _ _ _ Ej). rewrite zget_cons_S by lia. by apply IH.
Qed.

Lemma find_index_app {A} (P : A -> bool) l1 l2 :
  find_index P (l1 ++ l2) =
  match find_index P l1 with
  | Some i => Some i
  | None => (fun i => i + zlen l1) <$> find_index P l2
  end.
Proof.
  induction l1 as [|x l1 IH]; simpl.
  - destruct (find_index P l2); [|done]. simpl. f_equal. unfold zlen; simpl. lia.
  - case_if; [done|]. rewrite IH. destruct (find_index P l1); [done|].
    destruct (find_index P l2); [|done]. simpl. rewrite zlen_cons. f_equal. lia.
Qed.

Lemma find_index_ext {A} (P Q : A -> bool) l :
  (forall x, x ∈ l -> P x = Q x) -> find_index P l = find_index Q l.
Proof.
  induction l as [|x l IH]; intros H; [done|]. simpl. rewrite (H x) by left.
  rewrite IH; [done|]. intros y Hy. apply H. by right.
Qed.
