(* ===== verification/Bits.v ===== *)
(** * Bit arithmetic shared by the checksum and codec components

    Ranges of bitwise operations at a width, shifts and masks as division and
    remainder, and words assembled from bytes. *)

From S2P Require Import Prelude.
Local Open Scope Z_scope.

(** Linear arithmetic with divisions and remainders by constants. *)
Ltac dlia := Z.to_euclidean_division_equations; lia.

(** Extensionality in the bits, with the equation of every bitwise operator. *)
Ltac by_bits i :=
  apply Z.bits_inj'; intros i ?;
  repeat first [ rewrite Z.lxor_spec | rewrite Z.land_spec | rewrite Z.lor_spec | rewrite Z.bits_0
               | rewrite Z.shiftl_spec by lia | rewrite Z.shiftr_spec by lia ].

Lemma testbit_high w a i : 0 <= a < 2 ^ w -> w <= i -> Z.testbit a i = false.
Proof.
  intros Ha Hi. destruct (decide (a = 0)) as [->|Hz]; [apply Z.bits_0|].
  apply Z.bits_above_log2; [lia|]. apply Z.log2_lt_pow2; [lia|].
  apply Z.lt_le_trans with (2 ^ w); [lia|]. apply Z.pow_le_mono_r; lia.
Qed.

Lemma range_of_bits w a : 0 <= w -> 0 <= a -> (forall i, w <= i -> Z.testbit a i = false) -> a < 2 ^ w.
Proof.
  intros Hw Ha Hi. destruct (Z.lt_ge_cases a (2 ^ w)) as [|Hge]; [done|].
  pose proof (Z.pow_pos_nonneg 2 w ltac:(lia) Hw).
  assert (w <= Z.log2 a) as Hl by (apply Z.log2_le_pow2; lia).
  pose proof (Z.bit_log2 a ltac:(lia)). rewrite Hi in H0 by done. done.
Qed.

Section range.
Context (w : Z) (Hw : 0 <= w).

Lemma lxor_range a b : 0 <= a < 2 ^ w -> 0 <= b < 2 ^ w -> 0 <= Z.lxor a b < 2 ^ w.
Proof using Hw.
  intros Ha Hb. assert (0 <= Z.lxor a b) by (apply Z.lxor_nonneg; lia). split; [done|].
  apply range_of_bits; [done|done|]. intros i Hi.
  rewrite Z.lxor_spec, !(testbit_high w) by done. done.
Qed.

Lemma lor_range a b : 0 <= a < 2 ^ w -> 0 <= b < 2 ^ w -> 0 <= Z.lor a b < 2 ^ w.
Proof using Hw.
  intros Ha Hb. assert (0 <= Z.lor a b) by (apply Z.lor_nonneg; lia). split; [done|].
  apply range_of_bits; [done|done|]. intros i Hi.
  rewrite Z.lor_spec, !(testbit_high w) by done. done.
Qed.

Lemma land_range a b : 0 <= a < 2 ^ w -> 0 <= Z.land a b < 2 ^ w.
Proof using Hw.
  intros Ha. assert (0 <= Z.land a b) by (apply Z.land_nonneg; lia). split; [done|].
  apply range_of_bits; [done|done|]. intros i Hi.
  rewrite Z.land_spec, (testbit_high w a) by done. done.
Qed.

(** Fields that do not overlap: [|] and [^] are addition. *)
Lemma lxor_fields a b : 0 <= a < 2 ^ w -> Z.lxor a (Z.shiftl b w) = a + b * 2 ^ w.
Proof using Hw.
  intros Ha. rewrite <- Z.shiftl_mul_pow2 by lia. symmetry. apply Z.add_nocarry_lxor.
  by_bits i. destruct (Z.lt_ge_cases i w).
  - rewrite (Z.testbit_neg_r b) by lia. apply andb_false_r.
  - rewrite (testbit_high w a) by done. done.
Qed.

Lemma lor_fields a b : 0 <= a < 2 ^ w -> Z.lor a (Z.shiftl b w) = a + b * 2 ^ w.
Proof using Hw.
  intros Ha. rewrite <- lxor_fields by done. symmetry. apply Z.lxor_lor.
  by_bits i. destruct (Z.lt_ge_cases i w).
  - rewrite (Z.testbit_neg_r b) by lia. apply andb_false_r.
  - rewrite (testbit_high w a) by done. done.
Qed.

Lemma split_fields a : a = Z.lxor (Z.land a (Z.ones w)) (Z.shiftl (Z.shiftr a w) w).
Proof using Hw.
  by_bits i. destruct (Z.lt_ge_cases i w).
  - rewrite Z.ones_spec_low, andb_true_r by lia.
    rewrite (Z.testbit_neg_r (Z.shiftr a w)) by lia. by rewrite xorb_false_r.
  - rewrite Z.ones_spec_high, andb_false_r by lia.
    rewrite Z.shiftr_spec by lia. replace (i - w + w) with i by lia. done.
Qed.
End range.

Lemma land_255 a : Z.land a 255 = a `mod` 256.
Proof. exact (Z.land_ones a 8 ltac:(lia)). Qed.

(** ** Words in byte order *)

(** Little-endian value of a byte string, as [DecodeFixed32]/[DecodeFixed64]
    and the loads of the hash functions read it. *)
Fixpoint le_word (s : list Z) : Z :=
  match s with
  | [] => 0
  | b :: r => Z.lxor b (Z.shiftl (le_word r) 8)
  end.

Lemma le_word_range s : bytes_ok s -> 0 <= le_word s < 256 ^ zlen s.
Proof.
  induction 1 as [|b s Hb Hs IH]; [vm_compute; split; congruence|]. cbn [le_word].
  rewrite (lxor_fields 8) by (unfold byte_ok in Hb; lia).
  rewrite zlen_cons, Z.pow_add_r by (pose proof (zlen_nonneg s); lia). unfold byte_ok in Hb. lia.
Qed.

Lemma le_word_cons b s : byte_ok b -> le_word (b :: s) = b + 256 * le_word s.
Proof. intros Hb. cbn [le_word]. rewrite (lxor_fields 8) by (unfold byte_ok in Hb; lia). lia. Qed.

Lemma le_word_app s1 s2 : bytes_ok s1 -> le_word (s1 ++ s2) = le_word s1 + 256 ^ zlen s1 * le_word s2.
Proof.
  induction 1 as [|b s Hb Hs IH]; [rewrite (@zlen_nil Z); cbn -[Z.mul]; lia|].
  cbn [app]. rewrite !le_word_cons, IH, zlen_cons, Z.pow_add_r by (done || pose proof (zlen_nonneg s); lia). lia.
Qed.
