(* ===== verification/Buffers.v ===== *)
(** * Buffers

    A buffer of the program is the list of its bytes and a pointer into it an
    offset.  Reads and writes outside of a buffer are undefined; [splice] is the
    effect of a write inside of it. *)

From S2P Require Import Prelude.
Local Open Scope Z_scope.

Definition mread (m : list Z) (i n : Z) : outcome (list Z) :=
  if (0 <=? i) && (0 <=? n) && (i + n <=? zlen m) then Ok (ztake n (zdrop i m)) else Undefined.

Definition splice (i : Z) (s m : list Z) : list Z := ztake i m ++ s ++ zdrop (i + zlen s) m.

Definition mwrite (i : Z) (s m : list Z) : outcome (list Z) :=
  if (0 <=? i) && (i + zlen s <=? zlen m) then Ok (splice i s m) else Undefined.

Definition mget (m : list Z) (i : Z) : outcome Z := deref (zget m i).

(** [part i n m]: the [n] bytes at offset [i]. *)
Definition part (i n : Z) (m : list Z) : list Z := ztake n (zdrop i m).

Lemma mread_ok m i n : 0 <= i -> 0 <= n -> i + n <= zlen m -> mread m i n = Ok (part i n m).
Proof.
  intros. unfold mread. by rewrite !(proj2 (Z.leb_le _ _)) by lia.
Qed.

Lemma mread_inv m i n s : mread m i n = Ok s -> 0 <= i /\ 0 <= n /\ i + n <= zlen m /\ s = part i n m.
Proof. unfold mread. case_if; [|done]. zbool. intros [= <-]. done. Qed.

Lemma mwrite_ok i s m : 0 <= i -> i + zlen s <= zlen m -> mwrite i s m = Ok (splice i s m).
Proof. intros. unfold mwrite. by rewrite !(proj2 (Z.leb_le _ _)) by lia. Qed.

Lemma mget_ok m i x : zget m i = Some x -> mget m i = Ok x.
Proof. unfold mget. by intros ->. Qed.

Lemma zlen_part i n m : 0 <= i -> 0 <= n -> i + n <= zlen m -> zlen (part i n m) = n.
Proof. intros. unfold part. rewrite zlen_ztake; [done|]. rewrite zlen_zdrop; lia. Qed.

Lemma zlen_splice i s m : 0 <= i -> i + zlen s <= zlen m -> zlen (splice i s m) = zlen m.
Proof.
  intros. pose proof (zlen_nonneg s). unfold splice. rewrite !zlen_app, zlen_ztake, zlen_zdrop; lia.
Qed.

(** ** Pointwise contents *)

Lemma zget_ztake {A} (m : list A) n i : i < n -> zget (ztake n m) i = zget m i.
Proof.
  unfold zget, ztake. intros. case_if; [done|]. zbool. apply lookup_take_lt. lia.
Qed.

Lemma zget_ztake_ge {A} (m : list A) n i : n <= i -> zget (ztake n m) i = None.
Proof.
  unfold zget, ztake. intros. case_if; [done|]. zbool. apply lookup_take_ge. lia.
Qed.

Lemma zget_zdrop {A} (m : list A) n i : 0 <= n -> 0 <= i -> zget (zdrop n m) i = zget m (n + i).
Proof.
  unfold zget, zdrop. intros. repeat decide_if. rewrite lookup_drop. f_equal. lia.
Qed.

Lemma zget_part m i n k : 0 <= i -> 0 <= k < n -> zget (part i n m) k = zget m (i + k).
Proof. intros. unfold part. rewrite zget_ztake, zget_zdrop by lia. done. Qed.

Lemma zget_splice_l i s m k : k < i -> i + zlen s <= zlen m -> zget (splice i s m) k = zget m k.
Proof.
  intros. pose proof (zlen_nonneg s). unfold splice. destruct (Z.lt_ge_cases k 0).
  - unfold zget. by rewrite !(proj2 (Z.ltb_lt _ _)).
  - rewrite zget_app_l by (rewrite zlen_ztake; lia). apply zget_ztake. lia.
Qed.

Lemma zget_splice_in i s m k : 0 <= i -> i <= k < i + zlen s -> i + zlen s <= zlen m -> zget (splice i s m) k = zget s (k - i).
Proof.
  intros. unfold splice. rewrite zget_app_r by (rewrite zlen_ztake; lia). rewrite zlen_ztake by lia.
  apply zget_app_l. lia.
Qed.

Lemma zget_splice_r i s m k : 0 <= i -> i + zlen s <= k -> i + zlen s <= zlen m -> zget (splice i s m) k = zget m k.
Proof.
  intros. pose proof (zlen_nonneg s). unfold splice. rewrite zget_app_r by (rewrite zlen_ztake; lia). rewrite zlen_ztake by lia.
  rewrite zget_app_r, zget_zdrop by lia. f_equal. lia.
Qed.

(** Lists of one length with the same contents. *)
Lemma zget_eq {A} (l1 l2 : list A) :
  zlen l1 = zlen l2 -> (forall i, 0 <= i < zlen l1 -> zget l1 i = zget l2 i) -> l1 = l2.
Proof.
  intros Hl H. apply zget_ext. intros i Hi. destruct (Z.lt_ge_cases i (zlen l1)); [by apply H|].
  by rewrite !zget_ge by lia.
Qed.

Lemma part_ext m m' i j n :
  0 <= i -> 0 <= j -> 0 <= n -> i + n <= zlen m -> j + n <= zlen m' ->
  (forall k, 0 <= k < n -> zget m (i + k) = zget m' (j + k)) -> part i n m = part j n m'.
Proof.
  intros ????? H. apply zget_eq; rewrite !zlen_part by lia; [done|]. intros k Hk. rewrite !zget_part by lia. by apply H.
Qed.

(** ** Prefixes *)

Lemma ztake_splice i s m : 0 <= i -> i + zlen s <= zlen m -> ztake (i + zlen s) (splice i s m) = ztake i m ++ s.
Proof.
  intros. pose proof (zlen_nonneg s). unfold splice. rewrite app_assoc. apply ztake_app_exact.
  rewrite zlen_app, zlen_ztake; lia.
Qed.

Lemma ztake_splice_le n i s m : n <= i <= zlen m -> ztake n (splice i s m) = ztake n m.
Proof.
  intros. unfold splice. destruct (Z.lt_ge_cases n 0).
  - unfold ztake. by rewrite Z2Nat.nonpos by lia.
  - rewrite ztake_app_le by (rewrite zlen_ztake; lia). apply ztake_ztake. lia.
Qed.

Lemma ztake_part i n (m : list Z) : 0 <= i -> 0 <= n -> ztake (i + n) m = ztake i m ++ part i n m.
Proof. apply ztake_add. Qed.

Lemma part_0 n (m : list Z) : part 0 n m = ztake n m.
Proof. done. Qed.

Lemma part_add i a b (m : list Z) : 0 <= i -> 0 <= a -> 0 <= b -> part i (a + b) m = part i a m ++ part (i + a) b m.
Proof. intros. unfold part. by rewrite ztake_add, zdrop_zdrop by lia. Qed.

Lemma part_nil i (m : list Z) : part i 0 m = [].
Proof. done. Qed.

Lemma bytes_ok_part i n m : bytes_ok m -> bytes_ok (part i n m).
Proof. intros. by apply Forall_take, Forall_drop. Qed.

Lemma bytes_ok_splice i s m : bytes_ok s -> bytes_ok m -> bytes_ok (splice i s m).
Proof. intros. apply Forall_app; split; [by apply Forall_take|]. apply Forall_app; split; [done|by apply Forall_drop]. Qed.

Lemma bytes_ok_get m i b : bytes_ok m -> zget m i = Some b -> byte_ok b.
Proof.
  unfold zget. intros Hm. case_if; [done|]. intros Hb. exact (Forall_lookup_1 _ _ _ _ Hm Hb).
Qed.

#[export] Hint Rewrite zlen_part zlen_splice using lia : zlist.
#[export] Hint Resolve bytes_ok_part bytes_ok_splice : words.
