(* ===== verification/ByteSearch.v ===== *)
(** * The first occurrence of a substring

    What [std::string_view::find], [cord_buf::cut_until] and the line readers
    of the protocol parsers look for. *)

From S2P Require Import Prelude.
Local Open Scope Z_scope.

(** ** The reference: the first occurrence of a substring *)

Fixpoint find_sub (d s : list Z) : option Z :=
  if bool_decide (d `prefix_of` s) then Some 0
  else match s with
       | [] => None
       | _ :: s' => (fun i => i + 1) <$> find_sub d s'
       end.

Definition occurs (d s : list Z) (i : Z) : Prop := exists s1 s2, s = s1 ++ d ++ s2 /\ zlen s1 = i.

Lemma occurs_cons d b s i : occurs d (b :: s) (i + 1) -> 0 <= i -> occurs d s i.
Proof.
  intros ([|b' s1] & s2 & E & Hl) Hi; [rewrite (@zlen_nil Z) in Hl; lia|]. injection E as _ ->.
  exists s1, s2. rewrite zlen_cons in Hl. split; [done|lia].
Qed.

Lemma find_sub_first d s i : occurs d s i -> (forall j, 0 <= j < i -> ~ occurs d s j) -> find_sub d s = Some i.
Proof.
  revert i. induction s as [|b s IH]; intros i Ho Hmin; cbn [find_sub]; case_bool_decide as Hp.
  1,3: destruct Hp as [t Hp]; destruct (decide (i = 0)) as [->|Hne]; [done|]; exfalso; apply (Hmin 0);
    [destruct Ho as (s1 & _ & _ & <-); pose proof (zlen_nonneg s1); lia|by exists [], t].
  all: destruct Ho as (s1 & s2 & E & Hl); destruct s1 as [|b' s1];
    [exfalso; apply Hp; rewrite E; by exists s2|]; try done.
  injection E as <- E. rewrite zlen_cons in Hl. rewrite (IH (i - 1)); [simpl; f_equal; lia| |].
  - exists s1, s2. split; [done|lia].
  - intros j Hj (u1 & u2 & E' & Hl'). apply (Hmin (j + 1)); [lia|]. exists (b :: u1), u2.
    rewrite zlen_cons. split; [by rewrite E'|lia].
Qed.

Lemma find_sub_none d s : (forall i, ~ occurs d s i) -> find_sub d s = None.
Proof.
  induction s as [|b s IH]; intros H; cbn [find_sub]; case_bool_decide as Hp;
    [destruct Hp as [t Hp]; exfalso; apply (H 0); by exists [], t|done| |].
  - destruct Hp as [t Hp]; exfalso; apply (H 0); by exists [], t.
  - rewrite IH; [done|]. intros i (s1 & s2 & E & Hl). apply (H (i + 1)). exists (b :: s1), s2.
    rewrite zlen_cons, Hl. split; [by rewrite E|done].
Qed.

Lemma find_sub_char c s : find_sub [c] s = find_index (fun b => b =? c) s.
Proof.
  induction s as [|b s IH]; [done|]. cbn [find_sub find_index]. rewrite IH.
  destruct (Z.eqb_spec b c) as [->|Hne].
  - rewrite bool_decide_eq_true_2; [done|]. by exists s.
  - rewrite bool_decide_eq_false_2; [done|]. intros [t Ht]. by injection Ht.
Qed.


(** ** Searching in a prefix *)

Lemma find_sub_occurs d s k : find_sub d s = Some k -> occurs d s k.
Proof.
  revert k. induction s as [|b s IH]; intros k; cbn [find_sub]; case_bool_decide as Hp; try done.
  - intros [= <-]. destruct Hp as [t Ht]. by exists [], t.
  - intros [= <-]. destruct Hp as [t Ht]. by exists [], t.
  - destruct (find_sub d s) as [i|] eqn:E; [|done]. intros [= <-].
    destruct (IH i eq_refl) as (s1 & s2 & -> & <-). exists (b :: s1), s2. by rewrite zlen_cons.
Qed.

Lemma find_sub_bound d s k : find_sub d s = Some k -> 0 <= k /\ k + zlen d <= zlen s.
Proof.
  intros (s1 & s2 & -> & <-)%find_sub_occurs. rewrite !zlen_app.
  pose proof (zlen_nonneg s1). pose proof (zlen_nonneg s2). lia.
Qed.

(** The first occurrence stays the first when bytes are added. *)
Lemma find_sub_app d s t k : find_sub d s = Some k -> find_sub d (s ++ t) = Some k.
Proof.
  revert k. induction s as [|b s IH]; intros k; cbn [find_sub app]; case_bool_decide as Hp; try done.
  - intros [= <-]. apply prefix_nil_inv in Hp as ->. destruct t; cbn [find_sub]; by rewrite bool_decide_eq_true_2 by apply prefix_nil.
  - intros [= <-]. rewrite bool_decide_eq_true_2; [done|]. by apply (prefix_app_r d (b :: s)).
  - destruct (find_sub d s) as [i|] eqn:E; [|done]. intros [= <-].
    rewrite (IH i eq_refl), bool_decide_eq_false_2; [done|]. intros Hp'. apply Hp.
    apply find_sub_bound in E. assert (b :: s `prefix_of` b :: s ++ t) as Hs by (by exists t).
    destruct (prefix_weak_total _ _ _ Hp' Hs) as [?|Hd]; [done|].
    exfalso. apply prefix_length in Hd. unfold zlen in E. cbn in Hd. lia.
Qed.

Lemma find_sub_short d s t k : find_sub d (s ++ t) = Some k -> zlen s < k + zlen d -> find_sub d s = None.
Proof.
  intros E Hl. destruct (find_sub d s) as [i|] eqn:E'; [|done]. exfalso.
  pose proof (find_sub_bound _ _ _ E'). apply (find_sub_app _ _ t) in E'. rewrite E' in E. injection E as ->. lia.
Qed.

Lemma find_sub_ztake d s k n : find_sub d s = Some k -> k + zlen d <= n -> find_sub d (ztake n s) = Some k.
Proof.
  intros E Hn. destruct (find_sub_bound _ _ _ E) as [Hk Hl].
  destruct (find_sub d (ztake n s)) as [i|] eqn:E'.
  - apply (find_sub_app _ _ (zdrop n s)) in E'. rewrite ztake_zdrop in E'. congruence.
  - exfalso. destruct (find_sub_occurs _ _ _ E) as (s1 & s2 & -> & <-).
    assert (find_sub d (s1 ++ d) = Some (zlen s1)) as Ef.
    { destruct (find_sub d (s1 ++ d)) as [j|] eqn:Ej.
      - apply (find_sub_app _ _ s2) in Ej. rewrite <- (assoc_L (++)) in Ej. congruence.
      - exfalso. revert Ej. clear. induction s1 as [|b s1 IH]; cbn [app].
        + destruct d; cbn [find_sub]; by rewrite bool_decide_eq_true_2 by done.
        + cbn [find_sub]. case_bool_decide; [done|]. destruct (find_sub d (s1 ++ d)); [done|tauto]. }
    rewrite (assoc_L (++)), ztake_app_ge in E' by (rewrite zlen_app; lia).
    apply (find_sub_app _ _ (ztake (n - zlen (s1 ++ d)) s2)) in Ef. congruence.
Qed.

(** A CRLF after a line that has none. *)
Lemma find_crlf_line s t : find_sub [13; 10] s = None -> find_sub [13; 10] (s ++ [13; 10] ++ t) = Some (zlen s).
Proof.
  induction s as [|b s IH]; intros Hn.
  - cbn [app find_sub]. rewrite bool_decide_eq_true_2; [done|]. by exists t.
  - cbn [find_sub] in Hn. case_bool_decide as Hp; [done|]. destruct (find_sub [13; 10] s) eqn:E; [done|].
    cbn [app find_sub]. rewrite bool_decide_eq_false_2.
    + change (13 :: 10 :: t) with ([13; 10] ++ t). rewrite IH by done. cbn. f_equal. rewrite zlen_cons. lia.
    + intros [u Hu]. injection Hu as -> Hu. apply Hp. destruct s as [|c s]; [by injection Hu|].
      injection Hu as -> Hu. by exists s.
Qed.
