(* ===== verification/Decimal.v ===== *)
(** * Decimal integers in text protocols

    [AppendDecimal] of [flare/rpc/redis_command.cc] and
    [cord_buf_appender::append_decimal] of [flare/io/cord_buf_inl.h] write a
    number into a 24-byte array from its end; [strtoll] of the C library reads
    one.  A number that is written is read back. *)

From S2P Require Import Prelude.
Local Open Scope Z_scope.

(** The loop [do { buf[--n] = d - q * 10 + '0'; d = q; } while (d)] with [n]
    places left in the array; a write before the array is undefined. *)
Fixpoint decimal_loop (n : nat) (d : Z) (tail : list Z) : outcome (list Z) :=
  match n with
  | O => Undefined
  | S n =>
      let q := d / 10 in
      let tail := (d - q * 10 + 48) :: tail in
      if q =? 0 then Ok tail else decimal_loop n q tail
  end.

(** [AppendDecimal(outbuf, d)], [d] an [unsigned long]: the bytes written. *)
Definition AppendDecimal (d : Z) : outcome (list Z) := decimal_loop 24 d [].

(** [append_decimal(d)], [d] a [long]: the bytes appended.  [-d] overflows on
    the least [long]. *)
Definition append_decimal (d : Z) : outcome (list Z) :=
  if d <? 0 then
    if d =? - 9223372036854775808 then Undefined
    else ds ← decimal_loop 24 (- d) []; Ok (45 :: ds)
  else decimal_loop 24 d [].

(** ** [strtoll(s, &endptr, 10)] *)

Definition LLONG_MAX : Z := 9223372036854775807.
Definition LLONG_MIN : Z := -9223372036854775808.

Definition isspace (c : Z) : bool := (c =? 32) || ((9 <=? c) && (c <=? 13)).
Definition isdigit (c : Z) : bool := (48 <=? c) && (c <=? 57).

Fixpoint span (p : Z -> bool) (s : list Z) : list Z * list Z :=
  match s with
  | [] => ([], [])
  | c :: r => if p c then let '(a, b) := span p r in (c :: a, b) else ([], s)
  end.

Definition digits_value (v : Z) (ds : list Z) : Z := fold_left (fun v c => 10 * v + (c - 48)) ds v.

(** The value and [endptr - s]; out of range values are clamped, and without
    digits nothing is consumed, not even the white space. *)
Definition strtoll (s : list Z) : Z * Z :=
  let '(sp, s) := span isspace s in
  let '(negative, nsign, s) :=
    match s with
    | c :: r => if c =? 45 then (true, 1, r) else if c =? 43 then (false, 1, r) else (false, 0, s)
    | [] => (false, 0, s)
    end in
  let '(ds, _) := span isdigit s in
  if zlen ds =? 0 then (0, 0)
  else let v := digits_value 0 ds in
       ((if negative : bool then Z.max LLONG_MIN (- v) else Z.min LLONG_MAX v), zlen sp + nsign + zlen ds).

(** ** Writing *)

Definition is_digits (ds : list Z) : Prop := Forall (fun c => isdigit c = true) ds.

Lemma digits_value_app v ds1 ds2 : digits_value v (ds1 ++ ds2) = digits_value (digits_value v ds1) ds2.
Proof. apply fold_left_app. Qed.

Lemma decimal_loop_ok n d tail :
  (0 < n)%nat -> 0 <= d < 10 ^ Z.of_nat n ->
  exists ds, decimal_loop n d tail = Ok (ds ++ tail) /\ is_digits ds /\ 0 < zlen ds <= Z.of_nat n /\
    digits_value 0 ds = d.
Proof.
  revert d tail. induction n as [|n IH]; intros d tail Hn Hd; [lia|]. cbn [decimal_loop].
  pose proof (Z.div_mod d 10 ltac:(lia)) as Hq. pose proof (Z.mod_pos_bound d 10 ltac:(lia)) as Hm.
  assert (isdigit (d - d / 10 * 10 + 48) = true) as Hdig.
  { unfold isdigit. apply andb_true_iff. rewrite !Z.leb_le. lia. }
  case_if.
  - exists [d - d / 10 * 10 + 48]. split; [done|]. split; [by apply Forall_singleton|].
    split; [rewrite zlen_cons, (@zlen_nil Z); lia|]. cbn. lia.
  - rewrite Nat2Z.inj_succ, Z.pow_succ_r in Hd by lia.
    assert (0 <= d / 10) by (apply Z.div_pos; lia).
    destruct (decide (n = 0%nat)) as [->|Hn0].
    { change (10 ^ Z.of_nat 0) with 1 in Hd. lia. }
    destruct (IH (d / 10) ((d - d / 10 * 10 + 48) :: tail)) as (ds & E & Hds & Hl & Hv); [lia|lia|].
    exists (ds ++ [d - d / 10 * 10 + 48]). rewrite E, <- (assoc_L (++)). split; [done|].
    split; [apply Forall_app; split; [done|by apply Forall_singleton]|].
    rewrite zlen_app, zlen_cons, (@zlen_nil Z). split; [lia|].
    rewrite digits_value_app, Hv. cbn. lia.
Qed.

(** Fewer digits for smaller numbers: the array is never full. *)
Lemma decimal_loop_enough n m d tail ds :
  decimal_loop n d tail = Ok ds -> (n <= m)%nat -> decimal_loop m d tail = Ok ds.
Proof.
  revert m d tail. induction n as [|n IH]; intros m d tail E Hm; [done|].
  destruct m as [|m]; [lia|]. cbn [decimal_loop] in *. case_if; [done|]. apply IH; [done|lia].
Qed.

(** [k] digits are enough below [10 ^ k]. *)
Lemma decimal_digits k d : (0 < k <= 24)%nat -> 0 <= d < 10 ^ Z.of_nat k ->
  exists ds, AppendDecimal d = Ok ds /\ is_digits ds /\ 0 < zlen ds <= Z.of_nat k /\ digits_value 0 ds = d.
Proof.
  intros Hk Hd. destruct (decimal_loop_ok k d [] ltac:(lia) Hd) as (ds & E & H). rewrite app_nil_r in E.
  exists ds. split; [|done]. apply (decimal_loop_enough k); [done|lia].
Qed.

Lemma append_decimal_digits d : - 2 ^ 63 < d < 2 ^ 63 ->
  exists ds, append_decimal d = Ok (if d <? 0 then 45 :: ds else ds) /\ is_digits ds /\ 0 < zlen ds <= 19 /\
    digits_value 0 ds = Z.abs d.
Proof.
  intros Hd. destruct (decimal_digits 19 (Z.abs d)) as (ds & E & H); [lia|lia|]. exists ds. split; [|done].
  unfold append_decimal, AppendDecimal in *. destruct (Z.ltb_spec d 0).
  - rewrite Z.abs_neq in E by lia. rewrite (proj2 (Z.eqb_neq _ _)), E by lia. done.
  - rewrite Z.abs_eq in E by lia. done.
Qed.

(** ** Reading back *)

Definition no_digit_first (s : list Z) : Prop := match s with c :: _ => isdigit c = false | [] => True end.

Lemma span_app p s1 s2 :
  Forall (fun c => p c = true) s1 -> match s2 with c :: _ => p c = false | [] => True end -> span p (s1 ++ s2) = (s1, s2).
Proof.
  intros H1 H2. induction H1 as [|c s1 Hc _ IH]; cbn [app span].
  - destruct s2 as [|c r]; [done|]. cbn. by rewrite H2.
  - by rewrite Hc, IH.
Qed.

Lemma digit_not_space c : isdigit c = true -> isspace c = false /\ (c =? 45) = false /\ (c =? 43) = false.
Proof.
  unfold isdigit, isspace. rewrite andb_true_iff, !Z.leb_le. intros Hc.
  rewrite orb_false_iff, andb_false_iff, !Z.eqb_neq, !Z.leb_gt. lia.
Qed.

Lemma strtoll_digits ds rest :
  is_digits ds -> 0 < zlen ds -> no_digit_first rest ->
  strtoll (ds ++ rest) = (Z.min LLONG_MAX (digits_value 0 ds), zlen ds).
Proof.
  intros Hd Hl Hr. destruct ds as [|c ds]; [rewrite (@zlen_nil Z) in Hl; lia|].
  pose proof (Forall_inv Hd) as Hc. cbn in Hc. destruct (digit_not_space c Hc) as (Hs & Hm & Hp).
  unfold strtoll. cbn [app span]. rewrite Hs, Hm, Hp. change (c :: ds ++ rest) with ((c :: ds) ++ rest).
  rewrite span_app by done. rewrite (proj2 (Z.eqb_neq _ _)) by lia. by rewrite (@zlen_nil Z).
Qed.

Lemma strtoll_minus ds rest :
  is_digits ds -> 0 < zlen ds -> no_digit_first rest ->
  strtoll (45 :: ds ++ rest) = (Z.max LLONG_MIN (- digits_value 0 ds), zlen ds + 1).
Proof.
  intros Hd Hl Hr. unfold strtoll. cbn [span isspace]. change (isspace 45) with false. cbn iota.
  change (45 =? 45) with true. cbn iota. rewrite span_app by done.
  rewrite (proj2 (Z.eqb_neq _ _)) by lia. rewrite (@zlen_nil Z). f_equal. lia.
Qed.

(** A [long] other than the least one that [append_decimal] wrote is what
    [strtoll] reads, whatever follows unless it is a digit. *)
Lemma strtoll_append_decimal d rest : - 2 ^ 63 < d < 2 ^ 63 -> no_digit_first rest ->
  exists s, append_decimal d = Ok s /\ 0 < zlen s <= 20 /\ strtoll (s ++ rest) = (d, zlen s) /\
    Forall (fun c => isdigit c = true \/ c = 45) s.
Proof.
  intros Hd Hr. destruct (append_decimal_digits d Hd) as (ds & E & Hds & Hl & Hv).
  assert (Forall (fun c => isdigit c = true \/ c = 45) ds) by (eapply Forall_impl; [done|]; by left).
  unfold LLONG_MIN, LLONG_MAX in *. eexists. split; [done|]. destruct (Z.ltb_spec d 0).
  - rewrite zlen_cons. split; [lia|]. cbn [app]. rewrite strtoll_minus by (done || lia). split; [f_equal|].
    + rewrite Hv. unfold LLONG_MIN. lia.
    + constructor; [by right|done].
  - split; [lia|]. rewrite strtoll_digits by (done || lia). split; [f_equal|done].
    rewrite Hv. unfold LLONG_MAX. lia.
Qed.

Lemma strtoll_AppendDecimal d rest : 0 <= d < 2 ^ 63 -> no_digit_first rest ->
  exists s, AppendDecimal d = Ok s /\ 0 < zlen s <= 19 /\ strtoll (s ++ rest) = (d, zlen s) /\ is_digits s.
Proof.
  intros Hd Hr. destruct (decimal_digits 19 d) as (ds & E & Hds & Hl & Hv); [lia|lia|].
  exists ds. split_and!; try done; try lia. rewrite strtoll_digits by (done || lia). f_equal. unfold LLONG_MAX. lia.
Qed.

(** The least [long] cannot be written. *)
Lemma append_decimal_min : append_decimal LLONG_MIN = Undefined.
Proof. reflexivity. Qed.

(** ** The range of what is read *)

Lemma span_all p s : Forall (fun c => p c = true) (fst (span p s)).
Proof.
  induction s as [|c s IH]; [constructor|]. cbn [span]. destruct (p c) eqn:E; [|constructor].
  destruct (span p s). by constructor.
Qed.

Lemma digits_value_nonneg ds v : is_digits ds -> 0 <= v -> 0 <= digits_value v ds.
Proof.
  intros Hd. revert v. induction Hd as [|c ds Hc _ IH]; intros v Hv; [done|]. cbn. apply IH.
  unfold isdigit in Hc. rewrite andb_true_iff, !Z.leb_le in Hc. lia.
Qed.

Lemma strtoll_range s : LLONG_MIN <= fst (strtoll s) <= LLONG_MAX.
Proof.
  unfold strtoll, LLONG_MIN, LLONG_MAX. destruct (span isspace s) as [sp s1].
  destruct (match s1 with [] => _ | _ :: _ => _ end) as [[neg nsign] s2].
  pose proof (span_all isdigit s2) as Hd. destruct (span isdigit s2) as [ds s3]. case_if; [cbn; lia|].
  pose proof (digits_value_nonneg ds 0 Hd ltac:(lia)). destruct neg; cbn [fst]; lia.
Qed.
