(* ===== verification/BoundedQueue.v ===== *)
(** * [flare/container/bounded_queue.h]: a fixed-capacity ring buffer

    The queue keeps [_count] live objects in a block of [_cap] slots, starting
    at [_start] and wrapping around.  A slot of the block is [Some x] when it
    holds a constructed object and [None] when it is raw memory, so placement
    [new] and the explicit destructor calls of the header are slot updates.
    All counters are [uint32_t].

    [bq_repr q l] says that [q] stores the sequence [l], top (oldest) item
    first, and that no other slot holds an object; every operation is proved
    to implement the corresponding operation on sequences.  The class
    [FifoQueue] is the part of that contract the HPACK index table uses. *)

From S2P Require Import Prelude.
Local Open Scope Z_scope.

Inductive storage_owner_ship := OWNS_STORAGE | NOT_OWN_STORAGE.

Record bounded_queue (T : Type) := mk_bounded_queue {
  _count : Z;
  _cap : Z;
  _start : Z;
  _ownership : storage_owner_ship;
  _items : option (list (option T));   (* [None] is the null pointer *)
}.
Arguments mk_bounded_queue {T} _ _ _ _ _.
Arguments _count {T} _.
Arguments _cap {T} _.
Arguments _start {T} _.
Arguments _ownership {T} _.
Arguments _items {T} _.

(** The loop of [_mod]: subtract [cap] until the offset is in range.  The
    fuel counts the subtractions; [_mod] provides one more than [off / cap],
    and [mod_loop_spec] shows that the loop then leaves by its own test. *)
Fixpoint mod_loop (fuel : nat) (off cap : Z) : Z :=
  match fuel with
  | O => off
  | S fuel => if cap <=? off then mod_loop fuel (u32 (off - cap)) cap else off
  end.

Definition _mod (off cap : Z) : Z := mod_loop (S (Z.to_nat (off / cap))) off cap.

Section operations.
Context {T : Type}.
Implicit Types (q : bounded_queue T) (item : T).

Definition slots q : list (option T) := default [] (_items q).

(** Construct ([Some item]) or destroy ([None]) the object of slot [i]. *)
Definition set_slot (i : Z) (v : option T) q : bounded_queue T :=
  mk_bounded_queue (_count q) (_cap q) (_start q) (_ownership q)
    (zset i v <$> _items q).

Definition set_count (c : Z) q : bounded_queue T :=
  mk_bounded_queue c (_cap q) (_start q) (_ownership q) (_items q).

Definition set_start (s : Z) q : bounded_queue T :=
  mk_bounded_queue (_count q) (_cap q) s (_ownership q) (_items q).

(** [bounded_queue(void *mem, size_t memsize, storage_owner_ship)]. *)
Definition of_mem (sizeof_T memsize : Z) (own : storage_owner_ship) : bounded_queue T :=
  mk_bounded_queue 0 (u32 (memsize / sizeof_T)) 0 own
    (Some (replicate (Z.to_nat (memsize / sizeof_T)) None)).

(** [bounded_queue(size_t capacity)]; [malloc_ok] is the outcome of [malloc]. *)
Definition of_capacity (malloc_ok : bool) (capacity : Z) : bounded_queue T :=
  mk_bounded_queue 0 (u32 capacity) 0 OWNS_STORAGE
    (if malloc_ok then Some (replicate (Z.to_nat capacity) None) else None).

(** [bounded_queue()]. *)
Definition default_queue : bounded_queue T :=
  mk_bounded_queue 0 0 0 NOT_OWN_STORAGE None.

Definition push item q : bool * bounded_queue T :=
  if _count q <? _cap q then
    let i := _mod (u32 (_start q + _count q)) (_cap q) in
    (true, set_count (u32 (_count q + 1)) (set_slot i (Some item) q))
  else (false, q).

(** [push()], with the value [item] of [T()]; the result is the slot of the new
    object, [None] for the null pointer. *)
Definition push_new item q : option Z * bounded_queue T :=
  if _count q <? _cap q then
    let i := _mod (u32 (_start q + _count q)) (_cap q) in
    let q := set_count (u32 (_count q + 1)) q in
    (Some i, set_slot i (Some item) q)
  else (None, q).

Definition elim_push item q : bounded_queue T :=
  if _count q <? _cap q then
    let i := _mod (u32 (_start q + _count q)) (_cap q) in
    set_count (u32 (_count q + 1)) (set_slot i (Some item) q)
  else
    let q := set_slot (_start q) (Some item) q in
    set_start (_mod (u32 (_start q + 1)) (_cap q)) q.

Definition push_top item q : bool * bounded_queue T :=
  if _count q <? _cap q then
    let q := set_start (if _start q =? 0 then u32 (_cap q - 1) else u32 (_start q - 1)) q in
    let q := set_count (u32 (_count q + 1)) q in
    (true, set_slot (_start q) (Some item) q)
  else (false, q).

(** [push_top()]. *)
Definition push_top_new item q : option Z * bounded_queue T :=
  if _count q <? _cap q then
    let q := set_start (if _start q =? 0 then u32 (_cap q - 1) else u32 (_start q - 1)) q in
    let q := set_count (u32 (_count q + 1)) q in
    (Some (_start q), set_slot (_start q) (Some item) q)
  else (None, q).

Definition pop q : bool * bounded_queue T :=
  if _count q =? 0 then (false, q)
  else
    let q := set_count (u32 (_count q - 1)) q in
    let q := set_slot (_start q) None q in
    (true, set_start (_mod (u32 (_start q + 1)) (_cap q)) q).

(** [pop(T *item)]: the popped object is the first component. *)
Definition pop_to q : option T * bounded_queue T :=
  if _count q =? 0 then (None, q)
  else
    let q := set_count (u32 (_count q - 1)) q in
    let item := mjoin (zget (slots q) (_start q)) in
    let q := set_slot (_start q) None q in
    (item, set_start (_mod (u32 (_start q + 1)) (_cap q)) q).

Definition pop_bottom q : bool * bounded_queue T :=
  if _count q =? 0 then (false, q)
  else
    let q := set_count (u32 (_count q - 1)) q in
    (true, set_slot (_mod (u32 (_start q + _count q)) (_cap q)) None q).

Definition pop_bottom_to q : option T * bounded_queue T :=
  if _count q =? 0 then (None, q)
  else
    let q := set_count (u32 (_count q - 1)) q in
    let i := _mod (u32 (_start q + _count q)) (_cap q) in
    (mjoin (zget (slots q) i), set_slot i None q).

(** The destructor loop of [clear], [i] from 0 to [_count - 1]. *)
Definition clear_loop (n : nat) q : bounded_queue T :=
  foldl (fun q i => set_slot (_mod (u32 (_start q + i)) (_cap q)) None q) q (seqZ 0 (Z.of_nat n)).

Definition clear q : bounded_queue T :=
  set_start 0 (set_count 0 (clear_loop (Z.to_nat (_count q)) q)).

Definition top q : option T :=
  if _count q =? 0 then None else mjoin (zget (slots q) (_start q)).

Definition top_at (index : Z) q : option T :=
  if index <? _count q
  then mjoin (zget (slots q) (_mod (u32 (_start q + index)) (_cap q))) else None.

Definition bottom q : option T :=
  if _count q =? 0 then None
  else mjoin (zget (slots q) (_mod (u32 (_start q + _count q - 1)) (_cap q))).

Definition bottom_at (index : Z) q : option T :=
  if index <? _count q
  then mjoin (zget (slots q) (_mod (u32 (_start q + _count q - index - 1)) (_cap q))) else None.

Definition empty q : bool := _count q =? 0.
Definition full q : bool := _cap q =? _count q.
Definition size q : Z := _count q.
Definition capacity q : Z := _cap q.
Definition initialized q : bool := bool_decide (is_Some (_items q)).

(** [swap] exchanges every field, that is, the two values. *)
Definition swap (q1 q2 : bounded_queue T) : bounded_queue T * bounded_queue T :=
  (mk_bounded_queue (_count q2) (_cap q2) (_start q2) (_ownership q2) (_items q2),
   mk_bounded_queue (_count q1) (_cap q1) (_start q1) (_ownership q1) (_items q1)).

(** ** The representation relation

    [u32] sums of two offsets do not wrap as long as the capacity is at most
    2^31, which is part of the relation. *)
Definition bq_repr q (l : list T) : Prop :=
  zlen l = _count q /\ _count q <= _cap q <= 2147483648 /\
  zlen (slots q) = _cap q /\
  0 <= _start q /\ (_start q < _cap q \/ _start q = 0 /\ _cap q = 0) /\
  forall i, 0 <= i < _cap q ->
    zget (slots q) ((_start q + i) `mod` _cap q) = Some (zget l i).

End operations.

(** ** Arithmetic of the ring *)

Lemma mod_loop_spec fuel off cap :
  0 < cap -> 0 <= off < 4294967296 -> off / cap < Z.of_nat fuel ->
  mod_loop fuel off cap = off `mod` cap.
Proof.
  revert off. induction fuel as [|fuel IH]; intros off Hc Ho Hf; simpl.
  { assert (0 <= off / cap) by (apply Z.div_pos; lia). lia. }
  case_if; zbool; [|by rewrite Z.mod_small by lia].
  rewrite u32_small by lia.
  assert (off / cap = (off - cap) / cap + 1) as Hd.
  { replace off with (off - cap + 1 * cap) at 1 by lia. rewrite Z.div_add by lia. lia. }
  rewrite IH by lia. rewrite <- (Z_mod_plus_full (off - cap) 1). f_equal. lia.
Qed.

(** On a non-empty block [_mod] is the remainder. *)
Lemma mod_spec off cap : 0 < cap -> 0 <= off < 4294967296 -> _mod off cap = off `mod` cap.
Proof.
  intros. apply mod_loop_spec; [done..|].
  assert (0 <= off / cap) by (apply Z.div_pos; lia). lia.
Qed.

Lemma ring_inj s cap i j :
  0 < cap -> 0 <= i < cap -> 0 <= j < cap ->
  (s + i) `mod` cap = (s + j) `mod` cap -> i = j.
Proof.
  intros Hc Hi Hj E.
  assert ((i - j) `mod` cap = 0) as E0.
  { replace (i - j) with ((s + i) - (s + j)) by lia.
    rewrite Zminus_mod, E, Z.sub_diag. by rewrite Zmod_0_l. }
  apply Z.mod_divide in E0 as [k Hk]; [|lia].
  assert (k = 0) by nia. lia.
Qed.

Lemma ring_shift s cap i :
  0 < cap -> ((s + 1) `mod` cap + i) `mod` cap = (s + (i + 1)) `mod` cap.
Proof. intros. rewrite Zplus_mod_idemp_l. f_equal. lia. Qed.

(** ** The operations implement the operations on sequences *)

Section proofs.
Context {T : Type}.
Implicit Types (q : bounded_queue T) (l : list T) (item : T).

Lemma slots_set_slot i v q : slots (set_slot i v q) = zset i v (slots q).
Proof.
  unfold slots, set_slot. simpl. destruct (_items q); [done|].
  simpl. unfold zset. by case_if.
Qed.

Lemma repr_count q l : bq_repr q l -> _count q = zlen l.
Proof. by intros (<- & _). Qed.

Lemma repr_bounds q l :
  bq_repr q l -> 0 <= _count q <= _cap q /\ _cap q <= 2147483648 /\ 0 <= _start q <= _cap q.
Proof. intros (H & ? & ? & ? & ? & ?). pose proof (zlen_nonneg l). lia. Qed.

(** The slot the code computes for the [i]-th object from the top. *)
Lemma mod_slot q l i :
  bq_repr q l -> 0 <= i < _cap q ->
  _mod (u32 (_start q + i)) (_cap q) = (_start q + i) `mod` _cap q.
Proof.
  intros Hr ?. pose proof (repr_bounds q l Hr).
  rewrite u32_small by lia. apply mod_spec; lia.
Qed.

Lemma repr_read q l i :
  bq_repr q l -> 0 <= i < _cap q ->
  mjoin (zget (slots q) (_mod (u32 (_start q + i)) (_cap q))) = zget l i.
Proof.
  intros Hr Hi. rewrite (mod_slot q l) by done.
  destruct Hr as (? & ? & ? & ? & ? & Hs). by rewrite Hs.
Qed.

Lemma slot_range q l i :
  bq_repr q l -> 0 <= i < _cap q -> 0 <= (_start q + i) `mod` _cap q < _cap q.
Proof. intros. apply Z.mod_pos_bound. lia. Qed.

(** Writing the slot of position [j] changes position [j] only. *)
Lemma repr_write q l j v i :
  bq_repr q l -> 0 <= j < _cap q -> 0 <= i < _cap q ->
  zget (zset ((_start q + j) `mod` _cap q) v (slots q)) ((_start q + i) `mod` _cap q)
  = if i =? j then Some v else Some (zget l i).
Proof.
  intros Hr Hj Hi. pose proof (slot_range q l j Hr Hj).
  pose proof Hr as (? & ? & Hlen & ? & ? & Hs).
  case_if; zbool; subst.
  - apply zget_zset_eq. lia.
  - rewrite zget_zset_ne; [by apply Hs| |lia].
    intros E%ring_inj; lia.
Qed.

Lemma repr_top_zero q l :
  bq_repr q l -> 0 < _cap q -> _start q = (_start q + 0) `mod` _cap q.
Proof. intros (? & ? & ? & ? & ? & _) ?. rewrite Z.add_0_r, Z.mod_small; lia. Qed.

(** A queue over fresh storage is empty. *)
Lemma of_mem_repr sizeof_T memsize own :
  0 < sizeof_T -> 0 <= memsize / sizeof_T <= 2147483648 ->
  bq_repr (@of_mem T sizeof_T memsize own) [].
Proof.
  intros Hs Hm. assert (zlen (slots (@of_mem T sizeof_T memsize own)) = memsize / sizeof_T) as Hl.
  { unfold zlen, slots; simpl. rewrite length_replicate. lia. }
  unfold bq_repr; simpl. rewrite u32_small by lia. rewrite zlen_nil, Hl.
  do 4 (split; [lia|]). split; [lia|].
  intros i Hi. rewrite Z.mod_small by lia.
  unfold zget. simpl. decide_if. unfold slots; simpl. rewrite lookup_replicate_2 by lia.
  f_equal. unfold zget. by decide_if.
Qed.

Lemma push_repr item q l :
  bq_repr q l ->
  if _count q <? _cap q
  then fst (push item q) = true /\ bq_repr (snd (push item q)) (l ++ [item])
  else push item q = (false, q).
Proof.
  intros Hr. unfold push. case_if; [|done]. zbool. split; [done|]. simpl.
  pose proof (repr_bounds q l Hr) as (? & ? & ?). pose proof (repr_count q l Hr) as Hcnt.
  rewrite (mod_slot q l) by (done || lia). rewrite u32_small by lia.
  pose proof Hr as (? & ? & Hlen & ? & ? & _).
  unfold bq_repr; simpl. rewrite zlen_app, zlen_cons, zlen_nil.
  change (slots (set_count _ ?x)) with (slots x). rewrite slots_set_slot, zlen_zset.
  split_and!; [lia..|]. intros i Hi. rewrite (repr_write q l) by (done || lia).
  case_if; zbool; subst.
  - rewrite zget_app_r by lia. rewrite Hcnt, Z.sub_diag. done.
  - destruct (decide (i < zlen l)); [by rewrite zget_app_l|].
    rewrite !zget_ge; rewrite ?zlen_app, ?zlen_cons, ?zlen_nil; done || lia.
Qed.

Lemma zget_tail (l : list T) i : 0 <= i -> zget (tail l) i = zget l (i + 1).
Proof.
  intros. destruct l; simpl; [|by rewrite zget_cons_S].
  rewrite !zget_ge; rewrite ?zlen_nil; done || lia.
Qed.

Lemma zlen_tail (l : list T) : 0 < zlen l -> zlen (tail l) = zlen l - 1.
Proof. unfold zlen. destruct l; simpl; lia. Qed.

(** Advancing [_start] after the slot of the top object was given [v]. *)
Lemma advance_repr q l l' v c :
  bq_repr q l -> 0 < _cap q -> zlen l' = c -> 0 <= c <= _cap q ->
  (forall i, 0 <= i < _cap q - 1 -> zget l (i + 1) = zget l' i) ->
  v = zget l' (_cap q - 1) ->
  bq_repr (mk_bounded_queue c (_cap q) (_mod (u32 (_start q + 1)) (_cap q)) (_ownership q)
             (zset (_start q) v <$> _items q)) l'.
Proof.
  intros Hr Hcap Hl Hc Htl ->. pose proof (repr_bounds q l Hr) as (? & ? & ?).
  pose proof Hr as (? & ? & Hlen & ? & ? & _).
  rewrite u32_small, mod_spec by lia.
  pose proof (Z.mod_pos_bound (_start q + 1) (_cap q) Hcap).
  unfold bq_repr; simpl.
  match goal with |- context [slots ?x] =>
    change (slots x) with (slots (set_slot (_start q) (zget l' (_cap q - 1)) q)) end.
  rewrite slots_set_slot, zlen_zset. split_and!; [lia..|].
  intros i Hi. rewrite ring_shift by lia.
  rewrite (repr_top_zero q l Hr Hcap) at 1.
  destruct (decide (i = _cap q - 1)) as [->|].
  - replace ((_start q + (_cap q - 1 + 1)) `mod` _cap q) with ((_start q + 0) `mod` _cap q).
    2:{ rewrite <- (Z_mod_plus_full (_start q + 0) 1). f_equal. lia. }
    rewrite (repr_write q l) by (done || lia). done.
  - rewrite (repr_write q l) by (done || lia). case_if; zbool; [lia|].
    f_equal. apply Htl. lia.
Qed.

Lemma pop_repr q l :
  bq_repr q l ->
  if _count q =? 0 then pop q = (false, q)
  else fst (pop q) = true /\ bq_repr (snd (pop q)) (tail l).
Proof.
  intros Hr. unfold pop. case_if; [done|]. zbool. split; [done|].
  pose proof (repr_bounds q l Hr) as (? & ? & ?). pose proof (repr_count q l Hr) as Hcnt.
  simpl. rewrite (u32_small (_count q - 1)) by lia.
  apply (advance_repr q l); simpl; [done|lia|rewrite zlen_tail; lia|lia| |].
  - intros. by rewrite zget_tail by lia.
  - rewrite zget_ge; [done|rewrite zlen_tail; lia].
Qed.

(** [pop] with an output argument returns the oldest object and otherwise acts as [pop()]. *)
Lemma pop_to_pop q l :
  bq_repr q l -> pop_to q = (head l, snd (pop q)).
Proof.
  intros Hr. unfold pop_to, pop. pose proof (repr_count q l Hr) as Hcnt.
  case_if; zbool; simpl.
  - destruct l; [done|]. rewrite zlen_cons in Hcnt. pose proof (zlen_nonneg l). lia.
  - f_equal. pose proof (repr_bounds q l Hr) as (? & ? & ?).
    change (slots (set_count _ q)) with (slots q).
    rewrite (repr_top_zero q l) by (done || lia).
    destruct Hr as (? & ? & ? & ? & ? & Hs). rewrite Hs by lia. by destruct l.
Qed.

Lemma elim_push_repr item q l :
  bq_repr q l -> 0 < _cap q ->
  bq_repr (elim_push item q) ((if full q then tail l else l) ++ [item]).
Proof.
  intros Hr Hcap. unfold elim_push, full.
  pose proof (push_repr item q l Hr) as Hp. unfold push in Hp.
  pose proof (repr_bounds q l Hr) as (? & ? & ?). pose proof (repr_count q l Hr) as Hcnt.
  destruct (_count q <? _cap q) eqn:E; zbool.
  - case_if; zbool; [lia|]. apply Hp.
  - decide_if. simpl.
    apply (advance_repr q l); simpl; [done..| | | |]; rewrite ?zlen_app, ?zlen_cons, ?zlen_nil, ?zlen_tail; [lia..| |].
    + intros. rewrite zget_app_l by (rewrite zlen_tail; lia). by rewrite zget_tail by lia.
    + rewrite zget_app_r by (rewrite zlen_tail; lia). rewrite zlen_tail by lia.
      by replace (_cap q - 1 - (zlen l - 1)) with 0 by lia.
Qed.

Lemma push_top_repr item q l :
  bq_repr q l ->
  if _count q <? _cap q
  then fst (push_top item q) = true /\ bq_repr (snd (push_top item q)) (item :: l)
  else push_top item q = (false, q).
Proof.
  intros Hr. unfold push_top. case_if; [|done]. zbool. split; [done|].
  pose proof (repr_bounds q l Hr) as (? & ? & ?). pose proof (repr_count q l Hr) as Hcnt.
  pose proof Hr as (? & ? & Hlen & ? & ? & Hs).
  set (s' := if _start q =? 0 then u32 (_cap q - 1) else u32 (_start q - 1)).
  assert (0 <= s' < _cap q /\ forall i, (s' + i) `mod` _cap q = (_start q + (i - 1)) `mod` _cap q)
    as [Hs' Hsh].
  { subst s'. case_if; zbool; rewrite u32_small by lia; (split; [lia|intros i]).
    - rewrite <- (Z_mod_plus_full (_start q + (i - 1)) 1). f_equal. lia.
    - f_equal. lia. }
  unfold bq_repr; simpl. rewrite zlen_cons, u32_small by lia.
  match goal with |- context [slots ?x] =>
    change (slots x) with (slots (set_slot s' (Some item) q)) end.
  rewrite slots_set_slot, zlen_zset. split_and!; [lia..|].
  assert (s' = (_start q + (_cap q - 1)) `mod` _cap q) as Hse.
  { pose proof (Hsh 0) as E. rewrite Z.add_0_r, Z.mod_small in E by lia. rewrite E.
    rewrite <- (Z_mod_plus_full (_start q + (0 - 1)) 1). f_equal. lia. }
  intros i Hi. rewrite Hsh. rewrite Hse at 1.
  destruct (decide (i = 0)) as [->|].
  - replace ((_start q + (0 - 1)) `mod` _cap q) with ((_start q + (_cap q - 1)) `mod` _cap q).
    2:{ rewrite <- (Z_mod_plus_full (_start q + (0 - 1)) 1). f_equal. lia. }
    rewrite (repr_write q l) by (done || lia). by decide_if.
  - rewrite (repr_write q l) by (done || lia). decide_if. f_equal.
    replace i with (i - 1 + 1) at 2 by lia. by rewrite zget_cons_S by lia.
Qed.

Lemma pop_bottom_repr q l x :
  bq_repr q (l ++ [x]) ->
  pop_bottom q = (true, snd (pop_bottom_to q)) /\
  fst (pop_bottom_to q) = Some x /\ bq_repr (snd (pop_bottom_to q)) l.
Proof.
  intros Hr. unfold pop_bottom, pop_bottom_to.
  pose proof (repr_bounds q _ Hr) as (? & ? & ?). pose proof (repr_count q _ Hr) as Hcnt.
  rewrite zlen_app, zlen_cons, zlen_nil in Hcnt. pose proof (zlen_nonneg l).
  decide_if. simpl. rewrite (u32_small (_count q - 1)) by lia.
  rewrite (mod_slot q _) by (done || lia).
  pose proof Hr as (? & ? & Hlen & ? & ? & Hs).
  change (slots (set_count _ q)) with (slots q). rewrite Hs by lia. split_and!; [done| |].
  - simpl. rewrite zget_app_r by lia. by replace (_count q - 1 - zlen l) with 0 by lia.
  - unfold bq_repr; simpl.
    match goal with |- context [slots ?x] => change (slots x) with
      (slots (set_slot ((_start q + (_count q - 1)) `mod` _cap q) None q)) end.
    rewrite slots_set_slot, zlen_zset. split_and!; [lia..|].
    intros i Hi. rewrite (repr_write q _) by (done || lia). case_if; zbool.
    + rewrite zget_ge; [done|lia].
    + destruct (decide (i < zlen l)); [by rewrite zget_app_l|].
      rewrite !zget_ge; rewrite ?zlen_app, ?zlen_cons, ?zlen_nil; done || lia.
Qed.

Lemma top_at_repr q l index : bq_repr q l -> 0 <= index -> top_at index q = zget l index.
Proof.
  intros Hr ?. unfold top_at. pose proof (repr_bounds q l Hr) as (? & ? & ?).
  pose proof (repr_count q l Hr). case_if; zbool.
  - apply (repr_read q l); [done|lia].
  - symmetry. apply zget_ge. lia.
Qed.

Lemma top_repr q l : bq_repr q l -> top q = head l.
Proof.
  intros Hr. pose proof (pop_to_pop q l Hr) as E. unfold pop_to in E. unfold top.
  destruct (_count q =? 0); by inversion E.
Qed.

Lemma bottom_at_repr q l index :
  bq_repr q l -> 0 <= index -> bottom_at index q = zget (reverse l) index.
Proof.
  intros Hr ?. unfold bottom_at. pose proof (repr_bounds q l Hr) as (? & ? & ?).
  pose proof (repr_count q l Hr) as Hc. case_if; zbool.
  - replace (_start q + _count q - index - 1) with (_start q + (_count q - index - 1)) by lia.
    rewrite (repr_read q l) by (done || lia). unfold zget, zlen in *. repeat decide_if.
    rewrite reverse_lookup by lia. f_equal. lia.
  - symmetry. apply zget_ge. unfold zlen in *. rewrite length_reverse. lia.
Qed.

Lemma bottom_repr q l : bq_repr q l -> bottom q = head (reverse l).
Proof.
  intros Hr. pose proof (bottom_at_repr q l 0 Hr ltac:(lia)) as E.
  pose proof (repr_bounds q l Hr) as (? & ? & ?).
  unfold bottom, bottom_at in *. rewrite Z.sub_0_r in E.
  destruct (_count q =? 0) eqn:E1; destruct (0 <? _count q) eqn:E2; zbool; try lia;
    rewrite E; by destruct (reverse l).
Qed.

Lemma full_repr q l : bq_repr q l -> full q = (_cap q =? zlen l).
Proof. intros Hr. unfold full. by rewrite (repr_count q l Hr). Qed.

(** Destroying the first [n] objects leaves the remaining ones in place. *)
Lemma clear_loop_slots n q l :
  bq_repr q l -> Z.of_nat n <= _count q ->
  let q' := clear_loop n q in
  (_count q', _cap q', _start q', _ownership q') = (_count q, _cap q, _start q, _ownership q) /\
  zlen (slots q') = zlen (slots q) /\
  forall i, 0 <= i < _cap q ->
    zget (slots q') ((_start q + i) `mod` _cap q) =
    if i <? Z.of_nat n then Some None else Some (zget l i).
Proof.
  intros Hr. pose proof (repr_bounds q l Hr) as (? & ? & ?).
  pose proof Hr as (? & ? & Hlen & ? & ? & Hs).
  induction n as [|n IH]; intros Hn.
  { split_and!; [done..|]. intros i Hi. simpl. decide_if. by apply Hs. }
  destruct IH as (Hf & Hl & Hi'); [lia|]. injection Hf as Hf1 Hf2 Hf3 Hf4.
  unfold clear_loop in *. rewrite seqZ_S, foldl_snoc; simpl.
  rewrite Hf2, Hf3, slots_set_slot, zlen_zset, (mod_slot q l) by (done || lia).
  split_and!; [by simpl; rewrite Hf1, Hf4|done|]. intros i Hi.
  destruct (decide (i = Z.of_nat n)) as [->|].
  - rewrite zget_zset_eq; [by decide_if|]. rewrite Hl, Hlen. apply (slot_range q l); [done|lia].
  - rewrite zget_zset_ne.
    + rewrite Hi' by lia. by repeat case_if; zbool; try lia.
    + intros E%ring_inj; lia.
    + apply (slot_range q l); [done|lia].
Qed.

(** [clear] destroys every object: no slot stays live. *)
Lemma clear_repr q l : bq_repr q l -> bq_repr (clear q) [].
Proof.
  intros Hr. pose proof (repr_bounds q l Hr) as (? & ? & ?).
  pose proof (clear_loop_slots (Z.to_nat (_count q)) q l Hr ltac:(lia)) as (Hf & Hl & Hs).
  injection Hf as Hf1 Hf2 Hf3 Hf4. pose proof Hr as (Hc & ? & Hlen & ? & ? & _).
  unfold clear, bq_repr; simpl. rewrite Hf2.
  change (slots (set_start _ (set_count _ ?x))) with (slots x). rewrite Hl, zlen_nil.
  split_and!; [lia..|]. intros i Hi.
  assert (exists j, 0 <= j < _cap q /\ i = (_start q + j) `mod` _cap q) as (j & Hj & ->).
  { exists ((i - _start q) `mod` _cap q). split; [apply Z.mod_pos_bound; lia|].
    rewrite Zplus_mod_idemp_r. replace (_start q + (i - _start q)) with i by lia.
    by rewrite Z.mod_small by lia. }
  rewrite Z.add_0_l, Z.mod_mod by lia. rewrite Hs by done.
  rewrite (zget_ge []) by (rewrite zlen_nil; lia). case_if; zbool; [done|].
  rewrite zget_ge; [done|lia].
Qed.
End proofs.

(** ** The contract towards clients *)

(** A bounded FIFO queue with random access from the newest end, over an
    abstract sequence (oldest item first). *)
Class FifoQueue (Q T : Type) := {
  fq_repr : Q -> list T -> Prop;
  fq_cap : Q -> Z;
  fq_push : T -> Q -> bool * Q;
  fq_pop : Q -> bool * Q;
  fq_top : Q -> option T;
  fq_bottom_at : Z -> Q -> option T;
  fq_size : Q -> Z;
  fq_full : Q -> bool;
  fq_size_spec q l : fq_repr q l -> fq_size q = zlen l;
  fq_full_spec q l : fq_repr q l -> fq_full q = (fq_cap q =? zlen l);
  fq_cap_spec q l : fq_repr q l -> zlen l <= fq_cap q;
  fq_top_spec q l : fq_repr q l -> fq_top q = head l;
  fq_bottom_at_spec q l i : fq_repr q l -> 0 <= i -> fq_bottom_at i q = zget (reverse l) i;
  fq_push_spec q l x :
    fq_repr q l -> zlen l < fq_cap q ->
    fst (fq_push x q) = true /\ fq_repr (snd (fq_push x q)) (l ++ [x]) /\
    fq_cap (snd (fq_push x q)) = fq_cap q;
  fq_pop_spec q l :
    fq_repr q l -> l <> [] ->
    fst (fq_pop q) = true /\ fq_repr (snd (fq_pop q)) (tail l) /\
    fq_cap (snd (fq_pop q)) = fq_cap q;
}.

#[export] Program Instance bounded_queue_fifo (T : Type) : FifoQueue (bounded_queue T) T := {
  fq_repr := bq_repr; fq_cap := _cap; fq_push := push; fq_pop := pop; fq_top := top;
  fq_bottom_at := bottom_at; fq_size := size; fq_full := full;
}.
Next Obligation. intros T q l Hr. by apply repr_count. Qed.
Next Obligation. intros T q l Hr. by apply full_repr. Qed.
Next Obligation. intros T q l Hr. rewrite <- (repr_count q l Hr). apply (repr_bounds q l Hr). Qed.
Next Obligation. intros T q l Hr. by apply top_repr. Qed.
Next Obligation. intros T q l i Hr Hi. by apply bottom_at_repr. Qed.
Next Obligation.
  intros T q l x Hr Hlt. pose proof (push_repr x q l Hr) as H.
  rewrite (repr_count q l Hr), (proj2 (Z.ltb_lt _ _) Hlt) in H.
  destruct H as [H1 H2]. split_and!; [done..|]. unfold push. by case_if.
Qed.
Next Obligation.
  intros T q l Hr Hne. pose proof (pop_repr q l Hr) as H.
  rewrite (repr_count q l Hr), (proj2 (Z.eqb_neq _ _)) in H
    by (destruct l; [done|rewrite zlen_cons; pose proof (zlen_nonneg l); lia]).
  destruct H as [H1 H2]. split_and!; [done..|]. unfold pop. by case_if.
Qed.

(** ** Refinement over sequences of operations *)

Section refinement.
Context {T : Type} (dflt : T).
Implicit Types (q : bounded_queue T) (l : list T).

(** [OPushNew] and [OPushTopNew] push [T()], [dflt] here; [OPopTo] and
    [OPopBottomTo] are the versions with an output argument. *)
Inductive bq_op :=
  | OPush (x : T) | OElimPush (x : T) | OPushNew | OPushTop (x : T) | OPushTopNew
  | OPop | OPopTo | OPopBottom | OPopBottomTo | OClear
  | OTop | OTopAt (i : nat) | OBottom | OBottomAt (i : nat)
  | OEmpty | OFull | OSize | OCapacity.

(** An operation of one of two queues, or [swap] of the two. *)
Inductive bq_call := On (first : bool) (o : bq_op) | OSwap.

Inductive bq_out := RBool (b : bool) | RItem (x : option T) | RNum (n : Z) | RNone.

(** What is read through the pointer to a new object. *)
Definition pointee (p : option Z) (q : bounded_queue T) : option T := i ← p; mjoin (zget (slots q) i).

Definition exec_impl (o : bq_op) (q : bounded_queue T) : bq_out * bounded_queue T :=
  match o with
  | OPush x => let (b, q) := push x q in (RBool b, q)
  | OElimPush x => (RNone, elim_push x q)
  | OPushNew => let (p, q) := push_new dflt q in (RItem (pointee p q), q)
  | OPushTop x => let (b, q) := push_top x q in (RBool b, q)
  | OPushTopNew => let (p, q) := push_top_new dflt q in (RItem (pointee p q), q)
  | OPop => let (b, q) := pop q in (RBool b, q)
  | OPopTo => let (x, q) := pop_to q in (RItem x, q)
  | OPopBottom => let (b, q) := pop_bottom q in (RBool b, q)
  | OPopBottomTo => let (x, q) := pop_bottom_to q in (RItem x, q)
  | OClear => (RNone, clear q)
  | OTop => (RItem (top q), q)
  | OTopAt i => (RItem (top_at (Z.of_nat i) q), q)
  | OBottom => (RItem (bottom q), q)
  | OBottomAt i => (RItem (bottom_at (Z.of_nat i) q), q)
  | OEmpty => (RBool (empty q), q)
  | OFull => (RBool (full q), q)
  | OSize => (RNum (size q), q)
  | OCapacity => (RNum (capacity q), q)
  end.

(** The same operations on a plain sequence that may hold [cap] items. *)
Definition exec_spec (cap : Z) (o : bq_op) (l : list T) : bq_out * list T :=
  let room := zlen l <? cap in
  match o with
  | OPush x => if room then (RBool true, l ++ [x]) else (RBool false, l)
  | OElimPush x => (RNone, (if room then l else tail l) ++ [x])
  | OPushNew => if room then (RItem (Some dflt), l ++ [dflt]) else (RItem None, l)
  | OPushTop x => if room then (RBool true, x :: l) else (RBool false, l)
  | OPushTopNew => if room then (RItem (Some dflt), dflt :: l) else (RItem None, l)
  | OPop => (RBool (negb (zlen l =? 0)), tail l)
  | OPopTo => (RItem (head l), tail l)
  | OPopBottom => (RBool (negb (zlen l =? 0)), removelast l)
  | OPopBottomTo => (RItem (last l), removelast l)
  | OClear => (RNone, [])
  | OTop => (RItem (head l), l)
  | OTopAt i => (RItem (l !! i), l)
  | OBottom => (RItem (last l), l)
  | OBottomAt i => (RItem (reverse l !! i), l)
  | OEmpty => (RBool (zlen l =? 0), l)
  | OFull => (RBool (zlen l =? cap), l)
  | OSize => (RNum (zlen l), l)
  | OCapacity => (RNum cap, l)
  end.

Definition call_impl (c : bq_call) (s : bounded_queue T * bounded_queue T) : bq_out * (bounded_queue T * bounded_queue T) :=
  match c with
  | On true o => let (r, q) := exec_impl o (fst s) in (r, (q, snd s))
  | On false o => let (r, q) := exec_impl o (snd s) in (r, (fst s, q))
  | OSwap => (RNone, swap (fst s) (snd s))
  end.

(** Two sequences, each with its capacity. *)
Definition call_spec (c : bq_call) (s : (Z * list T) * (Z * list T)) : bq_out * ((Z * list T) * (Z * list T)) :=
  match c with
  | On true o => let (r, l) := exec_spec (fst (fst s)) o (snd (fst s)) in (r, ((fst (fst s), l), snd s))
  | On false o => let (r, l) := exec_spec (fst (snd s)) o (snd (snd s)) in (r, (fst s, (fst (snd s), l)))
  | OSwap => (RNone, (snd s, fst s))
  end.

Fixpoint run {S : Type} (exec : bq_call -> S -> bq_out * S) (os : list bq_call) (s : S)
  : list bq_out * S :=
  match os with
  | [] => ([], s)
  | o :: os => let (r, s) := exec o s in let (rs, s) := run exec os s in (r :: rs, s)
  end.

Lemma zget_of_nat (l : list T) i : zget l (Z.of_nat i) = l !! i.
Proof. unfold zget. rewrite (proj2 (Z.ltb_ge _ _)) by lia. by rewrite Nat2Z.id. Qed.

Lemma head_reverse (l : list T) : head (reverse l) = last l.
Proof. destruct l as [|x l _] using rev_ind; [done|]. by rewrite reverse_snoc, last_snoc. Qed.

(** [push()] is [push(T())], and its pointer is to the new object. *)
Lemma push_new_push q l : bq_repr q l ->
  push_new dflt q = (if fst (push dflt q) then Some (_mod (u32 (_start q + _count q)) (_cap q)) else None, snd (push dflt q)) /\
  pointee (fst (push_new dflt q)) (snd (push_new dflt q)) = if zlen l <? _cap q then Some dflt else None.
Proof.
  intros Hr. unfold push_new, push. rewrite <- (repr_count q l Hr). case_if; [|done]. split; [done|]. zbool. cbn [fst snd].
  unfold pointee. cbn [mbind option_bind]. rewrite slots_set_slot. pose proof (repr_bounds q l Hr). rewrite (mod_slot q l) by (done || lia). pose proof Hr as (_ & _ & Hl & _).
  change (slots (set_count _ q)) with (slots q). rewrite zget_zset_eq; [done|]. rewrite Hl. apply (slot_range q l); [done|lia].
Qed.

Lemma push_top_new_push q l : bq_repr q l ->
  snd (push_top_new dflt q) = snd (push_top dflt q) /\
  pointee (fst (push_top_new dflt q)) (snd (push_top_new dflt q)) = if zlen l <? _cap q then Some dflt else None.
Proof.
  intros Hr. unfold push_top_new, push_top. rewrite <- (repr_count q l Hr). case_if; [|done]. split; [done|]. zbool. cbn [fst snd].
  unfold pointee. cbn [mbind option_bind]. rewrite slots_set_slot. pose proof (repr_bounds q l Hr). pose proof Hr as (_ & _ & Hl & _).
  match goal with |- context [zset ?i _ (slots ?x)] => change (slots x) with (slots q); rewrite zget_zset_eq end; [done|].
  rewrite Hl. cbn [_start set_count set_start]. case_if; zbool; rewrite u32_small; lia.
Qed.

Lemma pop_exec q l : bq_repr q l ->
  fst (pop q) = negb (zlen l =? 0) /\ bq_repr (snd (pop q)) (tail l) /\ _cap (snd (pop q)) = _cap q.
Proof.
  intros Hr. pose proof (pop_repr q l Hr) as H. pose proof (repr_count q l Hr) as Hc. rewrite <- Hc. unfold pop in *.
  case_if; simpl in *; [|by destruct H].
  zbool. assert (l = []) as ->; [|done]. apply length_zero_iff_nil. unfold zlen in *. lia.
Qed.

Lemma pop_bottom_exec q l : bq_repr q l ->
  pop_bottom q = (negb (zlen l =? 0), snd (pop_bottom_to q)) /\ fst (pop_bottom_to q) = last l /\
  bq_repr (snd (pop_bottom_to q)) (removelast l) /\ _cap (snd (pop_bottom_to q)) = _cap q.
Proof.
  intros Hr. destruct l as [|x l _] using rev_ind.
  - pose proof (repr_count q [] Hr) as Hc. rewrite zlen_nil in Hc. unfold pop_bottom, pop_bottom_to. by rewrite Hc.
  - destruct (pop_bottom_repr q l x Hr) as (H0 & H1 & H2). rewrite last_snoc, removelast_last, zlen_app, zlen_cons, zlen_nil.
    pose proof (zlen_nonneg l). rewrite (proj2 (Z.eqb_neq _ _)) by lia. split_and!; [done..|]. unfold pop_bottom_to. by case_if.
Qed.

Lemma exec_refines o q l :
  bq_repr q l -> 0 < _cap q ->
  fst (exec_impl o q) = fst (exec_spec (_cap q) o l) /\
  bq_repr (snd (exec_impl o q)) (snd (exec_spec (_cap q) o l)) /\
  _cap (snd (exec_impl o q)) = _cap q.
Proof.
  intros Hr Hcap. pose proof (repr_count q l Hr) as Hc. unfold exec_impl, exec_spec.
  assert (forall x, fst (push x q) = (zlen l <? _cap q) /\ bq_repr (snd (push x q)) (if zlen l <? _cap q then l ++ [x] else l) /\ _cap (snd (push x q)) = _cap q) as Hpush.
  { intros x. pose proof (push_repr x q l Hr) as H. unfold push in *. rewrite Hc in *. by case_if; simpl in *; [destruct H|]. }
  assert (forall x, fst (push_top x q) = (zlen l <? _cap q) /\ bq_repr (snd (push_top x q)) (if zlen l <? _cap q then x :: l else l) /\ _cap (snd (push_top x q)) = _cap q) as Htop.
  { intros x. pose proof (push_top_repr x q l Hr) as H. unfold push_top in *. rewrite Hc in *. by case_if; simpl in *; [destruct H|]. }
  destruct (pop_exec q l Hr) as (P1 & P2 & P3). destruct (pop_bottom_exec q l Hr) as (B0 & B1 & B2 & B3).
  destruct o as [x|x| |x| | | | | | | |i| |i| | | | ].
  - destruct (Hpush x) as (H1 & H2 & H3). destruct (push x q); simpl in *. subst b. by case_if.
  - pose proof (elim_push_repr x q l Hr Hcap) as H. rewrite (full_repr q l Hr) in H.
    pose proof (repr_bounds q l Hr). unfold elim_push in *. rewrite Hc in *.
    destruct (zlen l <? _cap q) eqn:?; zbool; simpl.
    + by rewrite (proj2 (Z.eqb_neq _ _)) in H by lia.
    + by rewrite (proj2 (Z.eqb_eq _ _)) in H by lia.
  - destruct (Hpush dflt) as (H1 & H2 & H3). destruct (push_new_push q l Hr) as (E & Ep). rewrite E in *. cbn [fst snd] in *. rewrite Ep. by case_if.
  - destruct (Htop x) as (H1 & H2 & H3). destruct (push_top x q); simpl in *. subst b. by case_if.
  - destruct (Htop dflt) as (H1 & H2 & H3). destruct (push_top_new_push q l Hr) as (E & Ep). rewrite <- E in *.
    destruct (push_top_new dflt q); cbn [fst snd] in *. rewrite Ep. by case_if.
  - destruct (pop q); simpl in *. by subst.
  - by rewrite (pop_to_pop q l Hr).
  - by rewrite B0.
  - destruct (pop_bottom_to q); simpl in *. by subst.
  - split_and!; [done|by eapply clear_repr|].
    pose proof (clear_loop_slots (Z.to_nat (_count q)) q l Hr) as [H _];
      [pose proof (repr_bounds q l Hr); lia|].
    by injection H.
  - simpl. by rewrite (top_repr q l).
  - simpl. rewrite (top_at_repr q l), zget_of_nat by (done || lia). done.
  - simpl. by rewrite (bottom_repr q l), head_reverse.
  - simpl. rewrite (bottom_at_repr q l), zget_of_nat by (done || lia). done.
  - simpl. unfold empty. by rewrite Hc.
  - simpl. rewrite (full_repr q l Hr), Z.eqb_sym. done.
  - simpl. unfold size. by rewrite Hc.
  - done.
Qed.

Definition both_repr (s : bounded_queue T * bounded_queue T) (t : (Z * list T) * (Z * list T)) : Prop :=
  (bq_repr (fst s) (snd (fst t)) /\ fst (fst t) = _cap (fst s)) /\ (bq_repr (snd s) (snd (snd t)) /\ fst (snd t) = _cap (snd s)).

Lemma call_refines c s t : both_repr s t -> 0 < _cap (fst s) -> 0 < _cap (snd s) ->
  fst (call_impl c s) = fst (call_spec c t) /\ both_repr (snd (call_impl c s)) (snd (call_spec c t)) /\
  0 < _cap (fst (snd (call_impl c s))) /\ 0 < _cap (snd (snd (call_impl c s))).
Proof.
  destruct s as [q1 q2], t as [[c1 l1] [c2 l2]]. unfold both_repr. cbn [fst snd]. intros ((R1 & ->) & (R2 & ->)) H1 H2.
  destruct c as [[] o|]; cbn [call_impl call_spec fst snd].
  - destruct (exec_refines o q1 l1 R1 H1) as (E & R & C). destruct (exec_impl o q1), (exec_spec _ o l1). cbn in *. rewrite C. by subst.
  - destruct (exec_refines o q2 l2 R2 H2) as (E & R & C). destruct (exec_impl o q2), (exec_spec _ o l2). cbn in *. rewrite C. by subst.
  - by destruct q1, q2.
Qed.

(** C33: the ring buffer is a bounded double-ended queue.  For two queues of any
    capacity from 1 to 2^31, any sequence of operations (pushes at both ends,
    of an item or of a new object, evicting or not; pops at both ends with and
    without an output argument; clears, swaps of the two, all accessors)
    returns exactly what the same sequence returns on two plain lists of at
    most [_cap] items, and leaves the buffers representing those lists. *)
Theorem bounded_queue_refines_list os q1 l1 q2 l2 :
  bq_repr q1 l1 -> bq_repr q2 l2 -> 0 < _cap q1 -> 0 < _cap q2 ->
  let (ri, s) := run call_impl os (q1, q2) in
  let (rs, t) := run call_spec os ((_cap q1, l1), (_cap q2, l2)) in
  ri = rs /\ both_repr s t.
Proof.
  intros R1 R2. assert (both_repr (q1, q2) ((_cap q1, l1), (_cap q2, l2))) as R by done. change (_cap q1) with (_cap (fst (q1, q2))) at 1.
  change (_cap q2) with (_cap (snd (q1, q2))) at 1. revert R. generalize (q1, q2) as s. generalize ((_cap q1, l1), (_cap q2, l2)) as t. clear.
  induction os as [|o os IH]; intros t s Hr H1 H2; [done|]. cbn [run].
  destruct (call_refines o s t Hr H1 H2) as (E & Hr' & H1' & H2').
  destruct (call_impl o s) as [r s1], (call_spec o t) as [r' t1]. cbn in *. subst r'.
  specialize (IH t1 s1 Hr' H1' H2'). destruct (run call_impl os s1), (run call_spec os t1). by destruct IH as [-> ?].
Qed.
End refinement.

(** Two queues, of capacity two and one; the first is wrapped around by
    evicting pushes, then they are swapped. *)
Lemma bounded_queue_refines_list_witness :
  let os := [On true (OElimPush 1); On true (OElimPush 2); On true (OElimPush 3); On true OPushNew; On true OBottom; On false OPushTopNew; OSwap; On false OPopTo] in
  let (ri, s) := run (call_impl 0) os (of_mem 8 16 OWNS_STORAGE, of_mem 8 8 OWNS_STORAGE) in
  let (rs, t) := run (call_spec 0) os ((2, []), (1, [])) in
  ri = rs /\ both_repr s t.
Proof.
  apply (bounded_queue_refines_list 0 _ (of_mem 8 16 OWNS_STORAGE) [] (of_mem 8 8 OWNS_STORAGE) []).
  - apply of_mem_repr; [lia|]. change (16 / 8) with 2. lia.
  - apply of_mem_repr; [lia|]. change (8 / 8) with 1. lia.
  - reflexivity.
  - reflexivity.
Defined.

(** With more than 2^31 slots the sum of two offsets wraps around: the object
    pushed to this queue, whose two objects are in the last slot and in slot 0,
    is put into slot 0 instead of slot 1, although [max_capacity()] is
    2^32 - 1. *)
Example large_capacity_wraps :
  let cap := 4294967295 in let start := 4294967294 in let count := 2 in
  _mod (u32 (start + count)) cap = 0 /\ (start + count) `mod` cap = 1.
Proof. vm_compute. by split. Qed.
