(* ===== verification/FlatMap.v ===== *)
(** * [flare/container/flat_map_inl.h]: an open hash table

    [FlatMap] hashes a key to one of [_nbucket] buckets (a power of two).  A
    bucket holds its first element in place and chains the others; an invalid
    bucket is the empty chain.  [operator[]] finds or appends an element and
    doubles the table when the bucket it would chain into is occupied and the
    load factor is exceeded; [resize] rehashes every element into a new table.

    The section is over an arbitrary hasher and key equality; the laws they
    have to satisfy are the class [KeyOps].  The theorems show that the table
    is a finite map up to that equality: lookups after insertion, erasure and
    rehashing, and the element count; [FlatMapIterator] is in the file of that
    name.
    The sparse variant (bucket thumbnails) and the failure of [malloc] are not
    modelled. *)

From S2P Require Import Prelude.
Local Open Scope Z_scope.

(** What [FlatMap] needs from its [_Hash] and [_Equal] parameters. *)
Class KeyOps (K : Type) := {
  hashfn : K -> Z;
  eql : K -> K -> bool;
  key_ok : K -> Prop;   (* the keys on which the two agree *)
  eql_refl k : eql k k = true;
  eql_sym k1 k2 : eql k1 k2 = eql k2 k1;
  eql_trans k1 k2 k3 : eql k1 k2 = true -> eql k2 k3 = true -> eql k1 k3 = true;
  hashfn_eql k1 k2 : key_ok k1 -> key_ok k2 -> eql k1 k2 = true -> hashfn k1 = hashfn k2;
  hashfn_range k : 0 <= hashfn k < 18446744073709551616;
}.

(** Round up to a power of two by smearing the top bit. *)
Definition find_power2 (b : Z) : Z :=
  let b := u64 (b - 1) in
  let b := Z.lor b (Z.shiftr b 1) in
  let b := Z.lor b (Z.shiftr b 2) in
  let b := Z.lor b (Z.shiftr b 4) in
  let b := Z.lor b (Z.shiftr b 8) in
  let b := Z.lor b (Z.shiftr b 16) in
  let b := Z.lor b (Z.shiftr b 32) in
  u64 (b + 1).

Definition flatmap_round (nbucket : Z) : Z := find_power2 nbucket.

Definition flatmap_mod (hash_code nbucket : Z) : Z := Z.land hash_code (u64 (nbucket - 1)).

Record FlatMap (K V : Type) := mk_flatmap {
  _size : Z;
  _nbucket : Z;
  _buckets : option (list (list (K * V)));   (* [None]: not initialized *)
  _load_factor : Z;
}.
Arguments mk_flatmap {K V} _ _ _ _.
Arguments _size {K V} _.
Arguments _nbucket {K V} _.
Arguments _buckets {K V} _.
Arguments _load_factor {K V} _.

Section flatmap.
Context {K V : Type} `{KeyOps K} (dflt : V).
Implicit Types (m : FlatMap K V) (k : K) (v : V) (c : list (K * V)).

Definition new_flatmap : FlatMap K V := mk_flatmap 0 0 None 0.

Definition initialized m : bool := match _buckets m with Some _ => true | None => false end.

Definition bucket_at (i : Z) m : list (K * V) :=
  default [] (zget (default [] (_buckets m)) i).

Definition set_bucket (i : Z) c m : FlatMap K V :=
  mk_flatmap (_size m) (_nbucket m) (zset i c <$> _buckets m) (_load_factor m).

Definition set_size (n : Z) m : FlatMap K V :=
  mk_flatmap n (_nbucket m) (_buckets m) (_load_factor m).

(** [None] is the return value -1. *)
Definition init (nbucket load_factor : Z) m : option (FlatMap K V) :=
  if initialized m then None
  else if (load_factor <? 10) || (100 <? load_factor) then None
  else let nb := flatmap_round nbucket in
       Some (mk_flatmap 0 nb (Some (replicate (Z.to_nat nb) [])) load_factor).

Definition is_too_crowded (size : Z) m : bool :=
  u64 (_nbucket m * _load_factor m) <=? u64 (size * 100).

(** Walk a bucket: the in-place element, then the chain. *)
Fixpoint chain_find k c : option V :=
  match c with
  | [] => None
  | (k', v) :: c => if eql k' k then Some v else chain_find k c
  end.

Fixpoint chain_erase k c : list (K * V) :=
  match c with
  | [] => []
  | (k', v) :: c => if eql k' k then c else (k', v) :: chain_erase k c
  end.

Fixpoint chain_set k v c : list (K * V) :=
  match c with
  | [] => []
  | (k', v') :: c => if eql k' k then (k', v) :: c else (k', v') :: chain_set k v c
  end.

Definition seek k m : option V :=
  if negb (initialized m) then None
  else chain_find k (bucket_at (flatmap_mod (hashfn k) (_nbucket m)) m).

(** [erase] returns the number of removed elements and the old value. *)
Definition erase k m : Z * option V * FlatMap K V :=
  if negb (initialized m) then (0, None, m)
  else
    let index := flatmap_mod (hashfn k) (_nbucket m) in
    let c := bucket_at index m in
    match chain_find k c with
    | Some v => (1, Some v, set_size (u64 (_size m - 1)) (set_bucket index (chain_erase k c) m))
    | None => (0, None, m)
    end.

Definition clear m : FlatMap K V :=
  if _size m =? 0 then m
  else mk_flatmap 0 (_nbucket m) (map (fun _ => []) <$> _buckets m) (_load_factor m).

(** The bindings, bucket by bucket, each from its in-place element: what the
    loop of [resize] over the iterator visits (shown in [FlatMapIterator]). *)
Definition elements m : list (K * V) := concat (default [] (_buckets m)).

(** The assignment through the reference [operator[]] returned for [k]. *)
Definition set_ref k v m : FlatMap K V :=
  let index := flatmap_mod (hashfn k) (_nbucket m) in
  set_bucket index (chain_set k v (bucket_at index m)) m.

(** [resize], over the [operator[]] that fills the new table. *)
Definition resize_with (index_new : K -> FlatMap K V -> FlatMap K V) (nbucket2 : Z) m
  : option (FlatMap K V) :=
  let nb := flatmap_round nbucket2 in
  if _nbucket m =? nb then None
  else match init nb (_load_factor m) new_flatmap with
       | None => None
       | Some new_map =>
           Some (foldl (fun nm kv => set_ref (fst kv) (snd kv) (index_new (fst kv) nm))
                   new_map (elements m))
       end.

(** [operator[]], as the table in which the returned reference lives.  The
    fuel bounds the nesting of rehashings (each one at least doubles the
    table); with no fuel left the element is chained without rehashing, as
    the code does when [resize] fails. *)
Fixpoint index_op (fuel : nat) k m : FlatMap K V :=
  let index := flatmap_mod (hashfn k) (_nbucket m) in
  let c := bucket_at index m in
  match chain_find k c with
  | Some _ => m
  | None =>
      let append := set_size (u64 (_size m + 1)) (set_bucket index (c ++ [(k, dflt)]) m) in
      match c with
      | [] => append
      | _ :: _ =>
          if is_too_crowded (_size m) m then
            match fuel with
            | O => append
            | S fuel =>
                match resize_with (index_op fuel) (u64 (_nbucket m + 1)) m with
                | Some m' => index_op fuel k m'
                | None => append
                end
            end
          else append
      end
  end.

(** Enough for every table that fits in memory: the nesting at depth [d]
    needs more than [2 ^ d / 10] elements. *)
Definition resize_depth : nat := 64.

Definition insert k v m : FlatMap K V := set_ref k v (index_op resize_depth k m).

Definition resize (nbucket2 : Z) m : bool * FlatMap K V :=
  match resize_with (index_op resize_depth) nbucket2 m with
  | Some m' => (true, m')
  | None => (false, m)
  end.

(** ** Invariant *)

(** No two elements of a list have equal keys. *)
Fixpoint keys_distinct c : Prop :=
  match c with
  | [] => True
  | (k, _) :: c => chain_find k c = None /\ keys_distinct c
  end.

Definition fm_wf m : Prop :=
  match _buckets m with
  | None => False
  | Some bl =>
      (exists e, 0 <= e <= 56 /\ _nbucket m = 2 ^ e) /\ zlen bl = _nbucket m /\
      _size m = zlen (concat bl) /\ 10 <= _load_factor m <= 100 /\
      (forall i c, zget bl i = Some c ->
         keys_distinct c /\
         Forall (fun kv => key_ok (fst kv) /\ flatmap_mod (hashfn (fst kv)) (_nbucket m) = i) c)
  end.

End flatmap.

(** ** Rounding to a power of two *)

(** [x] has all of its [n] topmost bits (from bit [t] down) set and none
    above. *)
Definition top_ones (t n x : Z) : Prop :=
  forall i, 0 <= i -> (t < i -> Z.testbit x i = false) /\
    (t - n < i <= t -> Z.testbit x i = true).

Lemma smear_step t n n2 x :
  0 <= n -> n2 = n + n -> top_ones t n x -> top_ones t n2 (Z.lor x (Z.shiftr x n)).
Proof.
  intros Hn -> Hx i Hi. rewrite Z.lor_spec, Z.shiftr_spec by lia.
  pose proof (Hx i Hi) as [H1 H2]. pose proof (Hx (i + n) ltac:(lia)) as [H3 H4].
  split; intros Ht.
  - rewrite H1, H3 by lia. done.
  - destruct (decide (t - n < i)); [rewrite H2 by lia; done|].
    rewrite H4 by lia. apply orb_true_r.
Qed.

Lemma find_power2_spec b n :
  0 <= n <= 62 -> 1 <= b <= 2 ^ n ->
  exists e, 0 <= e <= n /\ find_power2 b = 2 ^ e /\ b <= 2 ^ e /\ (1 < b -> 2 ^ e < 2 * b).
Proof.
  intros Hn Hb. assert (2 ^ n <= 2 ^ 62) by (apply Z.pow_le_mono_r; lia). unfold find_power2. rewrite (u64_small (b - 1)) by lia.
  destruct (decide (b = 1)) as [->|]; [exists 0; split_and!; done || lia|].
  set (t := Z.log2 (b - 1)).
  pose proof (Z.log2_spec (b - 1) ltac:(lia)) as Hlog. fold t in Hlog.
  assert (0 <= t) by apply Z.log2_nonneg.
  assert (t < n) by (apply Z.log2_lt_pow2; lia).
  assert (top_ones t 1 (b - 1)) as Hsm.
  { intros i Hi. split; intros Ht.
    - apply Z.bits_above_log2; [lia|]. fold t. lia.
    - replace i with t by lia. apply Z.bit_log2. lia. }
  apply (smear_step t 1 2), (smear_step t 2 4), (smear_step t 4 8), (smear_step t 8 16),
    (smear_step t 16 32), (smear_step t 32 64) in Hsm; try lia.
  cbv zeta.
  match type of Hsm with top_ones _ _ ?x => assert (x = Z.ones (t + 1)) as Hx end.
  { apply Z.bits_inj'. intros i Hi. destruct (decide (i <= t)).
    - rewrite Z.ones_spec_low by lia. apply Hsm; lia.
    - rewrite Z.ones_spec_high by lia. apply Hsm; lia. }
  rewrite Hx. exists (t + 1).
  rewrite Z.ones_equiv.
  assert (2 ^ (t + 1) = 2 * 2 ^ t) as Hp by (rewrite Z.pow_add_r by lia; lia).
  assert (2 ^ (t + 1) <= 2 ^ 62) by (apply Z.pow_le_mono_r; lia).
  replace (Z.pred (2 ^ (t + 1)) + 1) with (2 ^ (t + 1)) by lia.
  rewrite u64_small by lia. replace (Z.succ t) with (t + 1) in Hlog by lia.
  split_and!; [lia..|done|lia|lia].
Qed.

Lemma flatmap_mod_spec h e :
  0 <= h -> 0 <= e <= 62 -> flatmap_mod h (2 ^ e) = h `mod` 2 ^ e.
Proof.
  intros. unfold flatmap_mod.
  assert (1 <= 2 ^ e <= 2 ^ 62) by (split; [|apply Z.pow_le_mono_r; lia];
    pose proof (Z.pow_pos_nonneg 2 e); lia).
  rewrite u64_small by lia. replace (2 ^ e - 1) with (Z.ones e)
    by (rewrite Z.ones_equiv; lia).
  apply Z.land_ones. lia.
Qed.

(** ** Chains *)

Section chains.
Context {K V : Type} `{KeyOps K}.
Implicit Types (k : K) (v : V) (c : list (K * V)).

Lemma chain_find_eql k1 k2 c : eql k1 k2 = true -> chain_find k1 c = chain_find k2 c.
Proof.
  intros E. induction c as [|[k v] c IH]; [done|]. simpl. rewrite IH.
  destruct (eql k k1) eqn:E1, (eql k k2) eqn:E2; try done.
  - rewrite (eql_trans k k1 k2) in E2; done.
  - rewrite (eql_trans k k2 k1) in E1; [done..|]. by rewrite eql_sym.
Qed.

Lemma chain_find_app k c1 c2 :
  chain_find k (c1 ++ c2) =
  match chain_find k c1 with Some v => Some v | None => chain_find k c2 end.
Proof. induction c1 as [|[k' v] c1 IH]; [done|]. simpl. by destruct (eql k' k). Qed.

Lemma keys_distinct_app c1 c2 :
  keys_distinct c1 -> keys_distinct c2 ->
  (forall k v, (k, v) ∈ c1 -> chain_find k c2 = None) -> keys_distinct (c1 ++ c2).
Proof.
  induction c1 as [|[k v] c1 IH]; [done|]. simpl. intros [H1 H2] H3 H4. split.
  - rewrite chain_find_app, H1. eapply H4. by left.
  - apply IH; [done..|]. intros k' v' Hin. eapply H4. by right.
Qed.

Lemma keys_distinct_snoc c k v :
  keys_distinct c -> chain_find k c = None -> keys_distinct (c ++ [(k, v)]).
Proof.
  intros Hd Hn. apply keys_distinct_app; [done..|]. intros k' v' Hin. simpl.
  destruct (eql k k') eqn:E; [|done]. exfalso. rewrite (chain_find_eql _ _ _ E) in Hn.
  clear Hd E. induction c as [|[k2 v2] c IH]; [by apply not_elem_of_nil in Hin|].
  simpl in Hn. apply elem_of_cons in Hin as [Hin|Hin].
  - injection Hin as -> ->. by rewrite eql_refl in Hn.
  - destruct (eql k2 k'); [done|]. auto.
Qed.

Lemma chain_find_erase k k' c :
  keys_distinct c ->
  chain_find k' (chain_erase k c) = if eql k k' then None else chain_find k' c.
Proof.
  induction c as [|[k1 v1] c IH]; [by destruct (eql k k')|]. simpl. intros [H1 H2].
  destruct (eql k1 k) eqn:E1; simpl.
  - destruct (eql k k') eqn:E2.
    + rewrite <- (chain_find_eql k1); [done|]. by eapply eql_trans.
    + destruct (eql k1 k') eqn:E3; [|done]. exfalso.
      rewrite (eql_trans k k1 k') in E2; [done| |done]. by rewrite eql_sym.
  - rewrite IH by done. destruct (eql k1 k') eqn:E3; [|done].
    destruct (eql k k') eqn:E2; [|done]. exfalso.
    rewrite (eql_trans k1 k' k) in E1; [done..|]. by rewrite eql_sym.
Qed.

Lemma chain_find_set k k' v c :
  chain_find k' (chain_set k v c) =
  if eql k k' then (fun _ => v) <$> chain_find k' c else chain_find k' c.
Proof.
  induction c as [|[k1 v1] c IH]; [by destruct (eql k k')|]. simpl.
  destruct (eql k1 k) eqn:E1; simpl; [|rewrite IH];
    destruct (eql k1 k') eqn:E2, (eql k k') eqn:E3; try done; exfalso.
  - rewrite (eql_trans k k1 k') in E3; [done| |done]. by rewrite eql_sym.
  - rewrite (eql_trans k1 k k') in E2; done.
  - rewrite (eql_trans k1 k' k) in E1; [done..|]. by rewrite eql_sym.
Qed.

Lemma chain_erase_sublist k c kv : kv ∈ chain_erase k c -> kv ∈ c.
Proof.
  induction c as [|[k1 v1] c IH]; [done|]. simpl. case_if; rewrite ?elem_of_cons; tauto.
Qed.

Lemma keys_distinct_erase k c : keys_distinct c -> keys_distinct (chain_erase k c).
Proof.
  induction c as [|[k1 v1] c IH]; [done|]. simpl. intros [H1 H2].
  case_if; [done|]. simpl. split; [|by apply IH].
  rewrite chain_find_erase by done. by rewrite H1; case_if.
Qed.

Lemma keys_chain_set k v c : (chain_set k v c).*1 = c.*1.
Proof. induction c as [|[k1 v1] c IH]; [done|]. simpl. case_if; csimpl; congruence. Qed.

Lemma chain_find_keys k c1 c2 :
  c1.*1 = c2.*1 -> chain_find k c1 = None -> chain_find k c2 = None.
Proof.
  revert c2. induction c1 as [|[k1 v1] c1 IH]; intros [|[k2 v2] c2]; try done.
  simpl. intros [= -> E]. case_if; [done|]. by apply IH.
Qed.

Lemma keys_distinct_keys c1 c2 : c1.*1 = c2.*1 -> keys_distinct c1 -> keys_distinct c2.
Proof.
  revert c2. induction c1 as [|[k1 v1] c1 IH]; intros [|[k2 v2] c2]; try done.
  simpl. intros [= -> E] [H1 H2]. split; [by eapply chain_find_keys|]. by apply IH.
Qed.

Lemma Forall_keys (P : K -> Prop) c1 c2 :
  c1.*1 = c2.*1 -> Forall (fun kv => P (fst kv)) c1 -> Forall (fun kv => P (fst kv)) c2.
Proof.
  intros E Hf. apply (Forall_fmap fst P). rewrite <- E. by apply (Forall_fmap fst P).
Qed.

Lemma length_chain_erase k c v :
  chain_find k c = Some v -> zlen (chain_erase k c) = zlen c - 1.
Proof.
  induction c as [|[k1 v1] c IH]; [done|]. simpl. rewrite zlen_cons.
  case_if; [lia|]. intros E. rewrite zlen_cons, IH by done. lia.
Qed.

Lemma length_chain_set k v c : zlen (chain_set k v c) = zlen c.
Proof.
  unfold zlen. rewrite <- (length_fmap fst (chain_set k v c)), keys_chain_set.
  by rewrite length_fmap.
Qed.

(** A value is found by looking in its bucket only. *)
Lemma chain_find_concat k (bl : list (list (K * V))) i :
  (forall j c, zget bl j = Some c -> j <> i -> chain_find k c = None) -> 0 <= i ->
  chain_find k (concat bl) = chain_find k (default [] (zget bl i)).
Proof.
  revert i. induction bl as [|c bl IH]; intros i Hj Hi.
  { by rewrite zget_ge by (rewrite zlen_nil; lia). }
  simpl. rewrite chain_find_app. destruct (decide (i = 0)) as [->|Hne].
  - simpl. destruct (chain_find k c); [done|].
    assert (forall j c, zget bl j = Some c -> chain_find k c = None) as Hall.
    { intros j c' Hc'. pose proof (zget_Some_lt _ _ _ Hc').
      apply (Hj (j + 1)); [|lia]. by rewrite zget_cons_S by lia. }
    clear -Hall. induction bl as [|c bl IH]; [done|]. simpl. rewrite chain_find_app.
    rewrite (Hall 0 c) by done. apply IH. intros j c' Hc'. pose proof (zget_Some_lt _ _ _ Hc').
    apply (Hall (j + 1)). by rewrite zget_cons_S by lia.
  - rewrite (Hj 0 c) by (done || lia). rewrite (IH (i - 1)); [|intros j c' Hc' ?|lia].
    + by rewrite <- (zget_cons_S c) by lia; replace (i - 1 + 1) with i by lia.
    + pose proof (zget_Some_lt _ _ _ Hc'). apply (Hj (j + 1)); [|lia].
      by rewrite zget_cons_S by lia.
Qed.

Lemma zlen_concat_zset i c c0 (bl : list (list (K * V))) :
  zget bl i = Some c0 ->
  zlen (concat (zset i c bl)) = zlen (concat bl) - zlen c0 + zlen c.
Proof.
  revert i. induction bl as [|b bl IH]; intros i Hi.
  { apply zget_Some_lt in Hi. unfold zlen in Hi. simpl in Hi. lia. }
  pose proof (zget_Some_lt _ _ _ Hi). destruct (decide (i = 0)) as [->|].
  - injection Hi as ->. unfold zset. simpl. rewrite !zlen_app. lia.
  - assert (zset i c (b :: bl) = b :: zset (i - 1) c bl) as ->.
    { unfold zset. repeat decide_if. replace (Z.to_nat i) with (S (Z.to_nat (i - 1))) by lia. done. }
    simpl. rewrite !zlen_app, IH; [lia|].
    rewrite <- (zget_cons_S b) by lia. by replace (i - 1 + 1) with i by lia.
Qed.
End chains.

(** ** The table *)

Section table.
Context {K V : Type} `{KeyOps K} (dflt : V).
Implicit Types (m : FlatMap K V) (k : K) (v : V) (c : list (K * V)).

(** Bucket of a key. *)
Definition home k m : Z := flatmap_mod (hashfn k) (_nbucket m).

Lemma home_range k m : fm_wf m -> 0 <= home k m < _nbucket m.
Proof.
  unfold fm_wf, home. destruct (_buckets m); [|done]. intros ((e & He & ->) & _).
  rewrite flatmap_mod_spec; [|apply hashfn_range|lia].
  apply Z.mod_pos_bound. apply Z.pow_pos_nonneg; lia.
Qed.

Lemma home_eql k1 k2 m : key_ok k1 -> key_ok k2 -> eql k1 k2 = true -> home k1 m = home k2 m.
Proof. intros O1 O2 E. unfold home. by rewrite (hashfn_eql _ _ O1 O2 E). Qed.

Lemma wf_bucket i m :
  fm_wf m -> 0 <= i < _nbucket m ->
  keys_distinct (bucket_at i m) /\ 
  Forall (fun kv => key_ok (fst kv) /\ home (fst kv) m = i) (bucket_at i m).
Proof.
  unfold fm_wf, bucket_at. destruct (_buckets m) as [bl|]; [|done].
  intros (_ & Hl & _ & _ & Hb) Hi. simpl.
  destruct (zget_lt bl i) as [c Hc]; [lia|]. rewrite Hc. simpl. by apply Hb.
Qed.

Lemma seek_home k m : fm_wf m -> seek k m = chain_find k (bucket_at (home k m) m).
Proof. unfold fm_wf, seek, initialized. by destruct (_buckets m). Qed.

Lemma bucket_at_set i j c m :
  fm_wf m -> 0 <= i < _nbucket m ->
  bucket_at j (set_bucket i c m) = if j =? i then c else bucket_at j m.
Proof.
  unfold fm_wf, bucket_at. destruct m as [n nb [bl|] lf]; [|done]. simpl.
  intros (_ & Hl & _) Hi. case_if; zbool; subst.
  - by rewrite zget_zset_eq by lia.
  - by rewrite zget_zset_ne by lia.
Qed.

Lemma seek_set_bucket k i c n m :
  fm_wf m -> 0 <= i < _nbucket m ->
  seek k (set_size n (set_bucket i c m)) =
  if home k m =? i then chain_find k c else seek k m.
Proof.
  intros Hwf Hi. rewrite (seek_home k m Hwf).
  pose proof (bucket_at_set i (home k m) c m Hwf Hi) as Hb.
  unfold fm_wf, seek, initialized in *. destruct m as [? nb [bl|] lf]; [|done]. simpl in *.
  unfold bucket_at in *; simpl in *. unfold home in *; simpl in *. rewrite Hb. by case_if.
Qed.

(** Replacing the chain of one bucket by a well-formed one. *)
Lemma wf_set_bucket i c n m :
  fm_wf m -> 0 <= i < _nbucket m -> keys_distinct c ->
  Forall (fun kv => key_ok (fst kv) /\ home (fst kv) m = i) c ->
  n = _size m - zlen (bucket_at i m) + zlen c ->
  fm_wf (set_size n (set_bucket i c m)).
Proof.
  unfold fm_wf, home, bucket_at. destruct m as [sz nb [bl|] lf]; simpl; [|done].
  intros (He & Hl & Hs & Hlf & Hb) Hi Hd Hf ->.
  destruct (zget_lt bl i) as [c0 Hc0]; [lia|].
  split_and!; [done|by rewrite zlen_zset| |lia..|].
  - rewrite (zlen_concat_zset _ _ c0) by done. rewrite Hc0. simpl. lia.
  - intros j c' Hj. destruct (decide (i = j)) as [->|].
    + rewrite zget_zset_eq in Hj by lia. injection Hj as <-. done.
    + rewrite zget_zset_ne in Hj by lia. by apply Hb.
Qed.

Lemma find_elsewhere k i m :
  fm_wf m -> key_ok k -> 0 <= i < _nbucket m -> home k m <> i -> chain_find k (bucket_at i m) = None.
Proof.
  intros Hwf Hk Hi Hne. destruct (wf_bucket i m Hwf Hi) as [_ Hf].
  induction Hf as [|[k' v] c [Ho Hk'] Hf IH]; [done|]. simpl in *. case_if; [|done].
  exfalso. apply Hne. rewrite <- Hk'. symmetry. by apply home_eql.
Qed.

Lemma elements_find k m : fm_wf m -> key_ok k -> chain_find k (elements m) = seek k m.
Proof.
  intros Hwf Hk. rewrite (seek_home k m Hwf). unfold elements.
  pose proof (home_range k m Hwf). rewrite (chain_find_concat k _ (home k m)); [done| |lia].
  intros j c Hj Hne. pose proof (zget_Some_lt _ _ _ Hj).
  assert (bucket_at j m = c) as <- by (unfold bucket_at; by rewrite Hj).
  apply find_elsewhere; [done|done| |done].
  unfold fm_wf in Hwf. destruct (_buckets m); [simpl in *|done]. lia.
Qed.

Lemma wf_size m : fm_wf m -> _size m = zlen (elements m) /\ 10 <= _load_factor m <= 100.
Proof. unfold fm_wf, elements. destruct (_buckets m); [|done]. by intros (_ & _ & ? & ? & _). Qed.

Lemma elements_ok m : fm_wf m -> Forall (fun kv => key_ok (fst kv)) (elements m).
Proof.
  unfold fm_wf, elements. destruct (_buckets m) as [bl|]; [|done].
  intros (_ & _ & _ & _ & Hb). simpl. rewrite Forall_forall. intros kv Hin.
  apply list_elem_of_In, in_concat in Hin as (c & Hc & Hin%list_elem_of_In).
  apply list_elem_of_In, list_elem_of_lookup in Hc as [i Hi].
  destruct (Hb (Z.of_nat i) c) as [_ Hf].
  { unfold zget. rewrite (proj2 (Z.ltb_ge _ _)) by lia. by rewrite Nat2Z.id. }
  rewrite Forall_forall in Hf. by apply Hf.
Qed.

Lemma elements_distinct m : fm_wf m -> keys_distinct (elements m).
Proof.
  unfold fm_wf, elements. destruct m as [sz nb [bl|] lf]; simpl; [|done].
  intros (_ & _ & _ & _ & Hb). 
  assert (forall i0, (forall i c, zget bl i = Some c -> keys_distinct c /\
    Forall (fun kv => key_ok (fst kv) /\ flatmap_mod (hashfn (fst kv)) nb = i0 + i) c) -> keys_distinct (concat bl)) as Hgen.
  { clear Hb. induction bl as [|c bl IH]; intros i0 Hb; [done|]. simpl.
    destruct (Hb 0 c) as [Hd Hf]; [done|]. apply keys_distinct_app; [done| |].
    - apply (IH (i0 + 1)). intros i c' Hc'. pose proof (zget_Some_lt _ _ _ Hc').
      replace (i0 + 1 + i) with (i0 + (i + 1)) by lia. apply Hb. by rewrite zget_cons_S by lia.
    - intros k v Hin. rewrite Forall_forall in Hf. specialize (Hf _ Hin) as [Ho Hf]. simpl in Ho, Hf.
      rewrite (chain_find_concat k _ (zlen bl)); [by rewrite zget_ge by lia| |apply zlen_nonneg].
      intros j c' Hj _. pose proof (zget_Some_lt _ _ _ Hj).
      destruct (Hb (j + 1) c') as [_ Hf']; [by rewrite zget_cons_S by lia|].
      clear -Hf' Hf Ho H0. induction Hf' as [|[k' v'] c' [Ho' Hk'] Hf' IH]; [done|]. simpl in *.
      case_if; [|done]. rewrite (hashfn_eql _ _ Ho' Ho Heqb) in Hk'. lia. }
  apply (Hgen 0). intros i c Hc. by apply Hb.
Qed.

Lemma init_wf nbucket lf m :
  1 <= nbucket <= 2 ^ 56 -> 10 <= lf <= 100 -> initialized m = false ->
  exists m', init nbucket lf m = Some m' /\ fm_wf m' /\ _size m' = 0 /\
    _load_factor m' = lf /\ (forall k, seek k m' = None).
Proof.
  intros Hn Hlf Hm. unfold init. rewrite Hm.
  rewrite (proj2 (Z.ltb_ge lf 10)), (proj2 (Z.ltb_ge 100 lf)) by lia. simpl.
  destruct (find_power2_spec nbucket 56 ltac:(lia) Hn) as (e & He & Hp & _). unfold flatmap_round. rewrite Hp.
  assert (0 < 2 ^ e) by (apply Z.pow_pos_nonneg; lia).
  assert (concat (replicate (Z.to_nat (2 ^ e)) (@nil (K * V))) = []) as Hc.
  { generalize (Z.to_nat (2 ^ e)). intros n. by induction n. }
  eexists. split; [done|]. split_and!; [|done..|].
  - unfold fm_wf; simpl. rewrite Hc. split_and!; [by exists e| |done|lia..|].
    + unfold zlen. rewrite length_replicate. lia.
    + intros i c Hi. unfold zget in Hi. case_if_in Hi; [done|].
      apply lookup_replicate in Hi as [-> _]. split; [done|]. constructor.
  - intros k. unfold seek, bucket_at; simpl.
    destruct (zget _ _) as [c|] eqn:E; [|done]. simpl. unfold zget in E. case_if_in E; [done|].
    by apply lookup_replicate in E as [-> _].
Qed.

(** What [operator[]] guarantees; rehashing is proved from it, and it from
    rehashing with less fuel. *)
Definition index_ok (f : K -> FlatMap K V -> FlatMap K V) : Prop :=
  forall k m, fm_wf m -> key_ok k -> _size m < 2 ^ 50 ->
    fm_wf (f k m) /\
    (forall k', key_ok k' -> seek k' (f k m) =
       if eql k k' then Some (default dflt (seek k m)) else seek k' m) /\
    _size (f k m) = _size m + (match seek k m with Some _ => 0 | None => 1 end).

Lemma seek_eql k1 k2 m :
  fm_wf m -> key_ok k1 -> key_ok k2 -> eql k1 k2 = true -> seek k1 m = seek k2 m.
Proof.
  intros Hwf O1 O2 E. rewrite !seek_home, (home_eql k1 k2) by done. by apply chain_find_eql.
Qed.

Lemma set_ref_spec k v m :
  fm_wf m -> key_ok k ->
  fm_wf (set_ref k v m) /\ _size (set_ref k v m) = _size m /\
  forall k', key_ok k' -> seek k' (set_ref k v m) =
    if eql k k' then (fun _ => v) <$> seek k m else seek k' m.
Proof.
  intros Hwf Hk. pose proof (home_range k m Hwf) as Hh. fold (home k m).
  destruct (wf_bucket (home k m) m Hwf Hh) as [Hd Hf].
  set (c := bucket_at (home k m) m) in *.
  assert (set_ref k v m = set_size (_size m) (set_bucket (home k m) (chain_set k v c) m)) as ->.
  { by destruct m. }
  split_and!; [|done|].
  - apply wf_set_bucket; [done..| | |].
    + by eapply keys_distinct_keys; [symmetry; apply keys_chain_set|].
    + by apply (Forall_keys (fun k0 => key_ok k0 /\ home k0 m = home k m) c); [symmetry; apply keys_chain_set|].
    + rewrite length_chain_set. fold c. lia.
  - intros k' Hk'. rewrite seek_set_bucket by done. rewrite (seek_home k m Hwf). fold c.
    destruct (eql k k') eqn:E.
    + rewrite <- (home_eql _ _ m Hk Hk' E), Z.eqb_refl, chain_find_set, E.
      by rewrite (chain_find_eql _ _ _ E).
    + case_if; zbool; [|done]. rewrite chain_find_set, E. subst c.
      rewrite <- Heqb. by rewrite (seek_home k' m Hwf).
Qed.

(** Filling a table from a list of distinct keys. *)
Lemma fill_spec f l nm :
  index_ok f -> keys_distinct l -> Forall (fun kv => key_ok (fst kv)) l -> fm_wf nm ->
  (forall k v, (k, v) ∈ l -> seek k nm = None) -> _size nm + zlen l < 2 ^ 50 ->
  let nm' := foldl (fun nm kv => set_ref (fst kv) (snd kv) (f (fst kv) nm)) nm l in
  fm_wf nm' /\ _size nm' = _size nm + zlen l /\
  forall k, key_ok k -> seek k nm' = match chain_find k l with Some v => Some v | None => seek k nm end.
Proof.
  intros Hf. revert nm. induction l as [|[k v] l IH]; intros nm Hd Hok Hwf Hn Hsz; simpl.
  { rewrite zlen_nil. split_and!; [done|lia|done]. }
  apply Forall_cons in Hok as [Hk Hok]. simpl in Hk. destruct Hd as [Hd1 Hd2]. rewrite zlen_cons in *. pose proof (zlen_nonneg l).
  destruct (Hf k nm Hwf Hk) as (Hw1 & Hs1 & Hz1); [lia|].
  rewrite (Hn k v) in * by (by left). simpl in *.
  destruct (set_ref_spec k v (f k nm) Hw1 Hk) as (Hw2 & Hz2 & Hs2).
  assert (forall k', key_ok k' -> seek k' (set_ref k v (f k nm)) = if eql k k' then Some v else seek k' nm) as Hs3.
  { intros k' Hk'. rewrite Hs2, !Hs1, eql_refl by done. simpl. by destruct (eql k k'). }
  destruct (IH (set_ref k v (f k nm))) as (Hw & Hz & Hs); [done..| |lia|].
  - intros k' v' Hin. rewrite Forall_forall in Hok. pose proof (Hok _ Hin) as Hk'. simpl in Hk'.
    rewrite Hs3 by done. destruct (eql k k') eqn:E.
    + exfalso. clear -Hd1 Hin E H. induction l as [|[k2 v2] l IH].
      { by apply not_elem_of_nil in Hin. }
      simpl in Hd1. apply elem_of_cons in Hin as [Hin|Hin].
      * injection Hin as <- <-. by rewrite eql_sym, E in Hd1.
      * destruct (eql k2 k); [done|]. auto.
    + by apply (Hn k' v'); right.
  - split_and!; [done|lia|]. intros k' Hk'. rewrite Hs, Hs3 by done.
    destruct (eql k k') eqn:E; [|done]. by rewrite <- (chain_find_eql _ _ _ E), Hd1.
Qed.

Lemma resize_with_spec f nbucket2 m m' :
  index_ok f -> fm_wf m -> _size m < 2 ^ 50 -> 1 <= nbucket2 <= 2 ^ 56 ->
  resize_with f nbucket2 m = Some m' ->
  fm_wf m' /\ _size m' = _size m /\ forall k, key_ok k -> seek k m' = seek k m.
Proof.
  intros Hf Hwf Hsz Hn. unfold resize_with. case_if; [done|]. unfold flatmap_round.
  destruct (find_power2_spec nbucket2 56 ltac:(lia) Hn) as (e & He & -> & Hge & _).
  destruct (wf_size m Hwf) as [Hel Hlf].
  assert (2 ^ e <= 2 ^ 56) by (apply Z.pow_le_mono_r; lia).
  destruct (init_wf (2 ^ e) (_load_factor m) new_flatmap) as (nm & -> & Hnw & Hnz & _ & Hns);
    [lia..|done|]. intros [= <-].
  destruct (fill_spec f (elements m) nm Hf) as (Hw & Hz & Hs);
    [by apply elements_distinct|by apply elements_ok|done|intros; apply Hns|lia|].
  split_and!; [done|lia|]. intros k Hk. rewrite Hs, Hns, elements_find by done. by destruct (seek k m).
Qed.

Lemma append_spec k m :
  fm_wf m -> key_ok k -> _size m < 2 ^ 50 -> seek k m = None ->
  let m' := set_size (u64 (_size m + 1))
              (set_bucket (home k m) (bucket_at (home k m) m ++ [(k, dflt)]) m) in
  fm_wf m' /\ (forall k', key_ok k' -> seek k' m' = if eql k k' then Some dflt else seek k' m) /\
  _size m' = _size m + 1.
Proof.
  intros Hwf Hk Hsz Hnone. pose proof (home_range k m Hwf) as Hh.
  destruct (wf_bucket (home k m) m Hwf Hh) as [Hd Hf].
  assert (0 <= _size m) as Hpos.
  { unfold fm_wf in Hwf. destruct (_buckets m) as [bl|]; [|done].
    pose proof (zlen_nonneg (concat bl)). lia. }
  rewrite u64_small by lia. rewrite (seek_home k m Hwf) in Hnone. simpl. split_and!; [| |done].
  - apply wf_set_bucket; [done..| | |].
    + by apply keys_distinct_snoc.
    + apply Forall_app. split; [done|]. by repeat constructor.
    + rewrite zlen_app, zlen_cons, zlen_nil. lia.
  - intros k' Hk'. rewrite seek_set_bucket by done. destruct (eql k k') eqn:E.
    + rewrite <- (home_eql _ _ m Hk Hk' E), Z.eqb_refl, chain_find_app; simpl.
      by rewrite <- (chain_find_eql _ _ _ E), Hnone, E.
    + case_if; zbool; [|done]. rewrite chain_find_app; simpl. rewrite E.
      rewrite (seek_home k' m Hwf), Heqb. by case_match.
Qed.

Lemma crowded_bound m :
  fm_wf m -> _size m < 2 ^ 50 -> is_too_crowded (_size m) m = true -> 1 <= _nbucket m < 2 ^ 55.
Proof.
  unfold fm_wf, is_too_crowded. destruct m as [sz nb [bl|] lf]; simpl; [|done].
  intros ((e & He & ->) & _ & Hs & Hlf & _) Hsz. pose proof (zlen_nonneg (concat bl)).
  assert (1 <= 2 ^ e <= 2 ^ 56).
  { pose proof (Z.pow_pos_nonneg 2 e). split; [lia|]. apply Z.pow_le_mono_r; lia. }
  rewrite !u64_small by nia. intros Hle. zbool. nia.
Qed.

Lemma index_op_ok fuel : index_ok (index_op dflt fuel).
Proof.
  induction fuel as [|fuel IH]; intros k m Hwf Hk Hsz;
    pose proof (append_spec k m Hwf Hk Hsz) as Happ; simpl;
    fold (home k m); rewrite (seek_home k m Hwf) in *;
    (destruct (chain_find k (bucket_at (home k m) m)) as [v|] eqn:Ef;
     [split_and!; [done| |lia]; intros k' Hk'; rewrite <- (seek_home k m Hwf) in Ef;
      destruct (eql k k') eqn:E; [|done]; by rewrite <- (seek_eql _ _ m Hwf Hk Hk' E)|]);
    specialize (Happ eq_refl); simpl in Happ;
    destruct (bucket_at (home k m) m) as [|x c] eqn:Eb; [done| |done|];
    (destruct (is_too_crowded (_size m) m) eqn:Ec; [|done]); [done|].
  destruct (resize_with (index_op dflt fuel) (u64 (_nbucket m + 1)) m) as [m'|] eqn:Er; [|done].
  pose proof (crowded_bound m Hwf Hsz Ec). rewrite u64_small in Er by lia.
  apply resize_with_spec in Er as (Hw & Hz & Hs); [|done..|lia].
  rewrite <- Eb, <- (seek_home k m Hwf) in Ef.
  destruct (IH k m' Hw Hk) as (Hw' & Hs' & Hz'); [lia|]. rewrite Hs, Ef in * by done.
  split_and!; [done| |lia]. intros k' Hk'. rewrite Hs', Hs by done. done.
Qed.

Lemma insert_spec k v m :
  fm_wf m -> key_ok k -> _size m < 2 ^ 50 ->
  fm_wf (insert dflt k v m) /\
  (forall k', key_ok k' -> seek k' (insert dflt k v m) = if eql k k' then Some v else seek k' m) /\
  _size (insert dflt k v m) = _size m + (match seek k m with Some _ => 0 | None => 1 end).
Proof.
  intros Hwf Hk Hsz. unfold insert.
  destruct (index_op_ok resize_depth k m Hwf Hk Hsz) as (Hw & Hs & Hz).
  destruct (set_ref_spec k v _ Hw Hk) as (Hw' & Hz' & Hs').
  split_and!; [done| |lia]. intros k' Hk'. rewrite Hs', !Hs, eql_refl by done. simpl. by destruct (eql k k').
Qed.

Lemma erase_spec k m :
  fm_wf m -> key_ok k -> _size m < 2 ^ 50 ->
  let '(n, old, m') := erase k m in
  fm_wf m' /\ old = seek k m /\ n = (match seek k m with Some _ => 1 | None => 0 end) /\
  _size m' = _size m - n /\
  forall k', key_ok k' -> seek k' m' = if eql k k' then None else seek k' m.
Proof.
  intros Hwf Hk Hlt. pose proof (home_range k m Hwf) as Hh. unfold erase.
  assert (initialized m = true) as -> by (unfold fm_wf, initialized in *; by destruct (_buckets m)).
  simpl. fold (home k m). rewrite (seek_home k m Hwf).
  destruct (wf_bucket (home k m) m Hwf Hh) as [Hd Hf].
  destruct (wf_size m Hwf) as [Hsz _].
  destruct (chain_find k (bucket_at (home k m) m)) as [v|] eqn:Ef.
  - assert (1 <= _size m) as Hpos.
    { rewrite Hsz. pose proof (elements_find k m Hwf Hk) as E. rewrite (seek_home k m Hwf), Ef in E.
      destruct (elements m) as [|x l]; [done|]. rewrite zlen_cons. pose proof (zlen_nonneg l). lia. }
    rewrite u64_small by lia. split_and!; [|done..|].
    + apply wf_set_bucket; [done..|by apply keys_distinct_erase| |].
      * rewrite Forall_forall in *. intros kv Hin. apply Hf. by eapply chain_erase_sublist.
      * rewrite (length_chain_erase _ _ v) by done. lia.
    + intros k' Hk'. rewrite seek_set_bucket by done. rewrite chain_find_erase by done.
      destruct (eql k k') eqn:E; case_if; zbool; try done.
      * by rewrite (home_eql _ _ m Hk Hk' E) in Heqb.
      * by rewrite (seek_home k' m Hwf), Heqb.
  - split_and!; [done..|lia|]. intros k' Hk'. destruct (eql k k') eqn:E; [|done].
    by rewrite <- (seek_eql _ _ m Hwf Hk Hk' E), (seek_home k m Hwf).
Qed.

Lemma clear_spec m :
  fm_wf m -> fm_wf (clear m) /\ _size (clear m) = 0 /\ forall k, seek k (clear m) = None.
Proof.
  intros Hwf. unfold clear. case_if; zbool.
  - split_and!; [done..|]. intros k. destruct (wf_size m Hwf) as [Hsz _].
    assert (elements m = []) as Hnil by (apply length_zero_iff_nil; unfold zlen in Hsz; lia).
    unfold fm_wf, seek, bucket_at, elements in *. destruct (_buckets m) as [bl|]; [|done].
    simpl in *. case_if; [done|]. apply concat_nil_Forall in Hnil.
    destruct (zget bl _) as [c|] eqn:E; [|done]. unfold zget in E. case_if_in E; [done|].
    rewrite Forall_lookup in Hnil. by rewrite (Hnil _ _ E).
  - unfold fm_wf in *. destruct m as [sz nb [bl|] lf]; simpl in *; [|done].
    destruct Hwf as (He & Hl & Hs & Hlf & Hb).
    assert (concat (map (fun _ : list (K * V) => @nil (K * V)) bl) = []) as Hc by (clear; induction bl; by simpl).
    assert (forall i c, zget (map (fun _ : list (K * V) => @nil (K * V)) bl) i = Some c -> c = []) as Hn.
    { intros i c. unfold zget. case_if; [done|]. rewrite list_lookup_fmap.
      destruct (bl !! _); [|done]. by intros [= <-]. }
    split_and!; [done| |by rewrite Hc|lia|lia| |done|].
    + unfold zlen in *. by rewrite length_map.
    + intros i c Hi. apply Hn in Hi as ->. split; [done|constructor].
    + intros k. unfold seek, bucket_at. simpl. destruct (zget _ _) eqn:E; [|done].
      by apply Hn in E as ->.
Qed.

(** C11: a [FlatMap] is a finite map up to the key equality.  Starting from a
    well-formed table, an assignment through [operator[]] (with however many
    rehashings it triggers), an [erase], a [clear] and an explicit [resize]
    change the lookups of exactly the keys they name and keep the count
    exact; every resulting table is well formed. *)
Theorem flatmap_is_map m k :
  fm_wf m -> _size m < 2 ^ 50 -> key_ok k ->
  (forall v, fm_wf (insert dflt k v m) /\
     (forall k', key_ok k' ->
        seek k' (insert dflt k v m) = if eql k k' then Some v else seek k' m) /\
     _size (insert dflt k v m) = _size m + (match seek k m with Some _ => 0 | None => 1 end)) /\
  (let '(n, old, m') := erase k m in
     fm_wf m' /\ old = seek k m /\ _size m' = _size m - n /\
     forall k', key_ok k' -> seek k' m' = if eql k k' then None else seek k' m) /\
  (fm_wf (clear m) /\ seek k (clear m) = None) /\
  (forall nb, 1 <= nb <= 2 ^ 56 ->
     fm_wf (snd (resize dflt nb m)) /\ _size (snd (resize dflt nb m)) = _size m /\
     seek k (snd (resize dflt nb m)) = seek k m).
Proof.
  intros Hwf Hsz Hk. split; [|split; [|split]].
  - intros v. by apply insert_spec.
  - pose proof (erase_spec k m Hwf Hk Hsz) as E. destruct (erase k m) as [[n old] m'].
    by destruct E as (? & ? & ? & ? & ?).
  - destruct (clear_spec m Hwf) as (? & ? & ?). by split.
  - intros nb Hnb. unfold resize. destruct (resize_with _ nb m) as [m'|] eqn:E; [|done].
    apply resize_with_spec in E as (? & ? & Hs); [|apply index_op_ok|done..].
    split_and!; [done..|]. by apply Hs.
Qed.

End table.
