(* ===== verification/CharOps.v ===== *)
(** * Characters, case-insensitive keys and string hashers

    [ascii::to_lower] and its table ([flare/strings/ascii.h]), [tolower]
    ([flare/rpc/details/hpack.cc]), the case-insensitive and the exact hasher
    and equality that [FlatMap] is instantiated with
    ([flare/container/case_ignored_flat_map.h], [flare/container/flat_map.h]).
    A [char] is the byte it occupies; [schar] is its value as the signed
    integer that arithmetic promotes it to. *)

From S2P Require Import Prelude FlatMap.
Local Open Scope Z_scope.

Definition schar (c : Z) : Z := if c <? 128 then c else c - 256.

Definition kToLower : list Z :=
  [0; 1; 2; 3; 4; 5; 6; 7; 8; 9; 10; 11; 12; 13; 14; 15;
   16; 17; 18; 19; 20; 21; 22; 23; 24; 25; 26; 27; 28; 29; 30; 31;
   32; 33; 34; 35; 36; 37; 38; 39; 40; 41; 42; 43; 44; 45; 46; 47;
   48; 49; 50; 51; 52; 53; 54; 55; 56; 57; 58; 59; 60; 61; 62; 63;
   64; 97; 98; 99; 100; 101; 102; 103; 104; 105; 106; 107; 108; 109; 110; 111;
   112; 113; 114; 115; 116; 117; 118; 119; 120; 121; 122; 91; 92; 93; 94; 95;
   96; 97; 98; 99; 100; 101; 102; 103; 104; 105; 106; 107; 108; 109; 110; 111;
   112; 113; 114; 115; 116; 117; 118; 119; 120; 121; 122; 123; 124; 125; 126; 127;
   128; 129; 130; 131; 132; 133; 134; 135; 136; 137; 138; 139; 140; 141; 142; 143;
   144; 145; 146; 147; 148; 149; 150; 151; 152; 153; 154; 155; 156; 157; 158; 159;
   160; 161; 162; 163; 164; 165; 166; 167; 168; 169; 170; 171; 172; 173; 174; 175;
   176; 177; 178; 179; 180; 181; 182; 183; 184; 185; 186; 187; 188; 189; 190; 191;
   192; 193; 194; 195; 196; 197; 198; 199; 200; 201; 202; 203; 204; 205; 206; 207;
   208; 209; 210; 211; 212; 213; 214; 215; 216; 217; 218; 219; 220; 221; 222; 223;
   224; 225; 226; 227; 228; 229; 230; 231; 232; 233; 234; 235; 236; 237; 238; 239;
   240; 241; 242; 243; 244; 245; 246; 247; 248; 249; 250; 251; 252; 253; 254; 255].

(** The argument is an [unsigned char], so the index is always in range. *)
Definition to_lower (ch : Z) : Z := default ch (zget kToLower ch).

(** [tolower] on a string: the loop rewrites the bytes that change. *)
Definition tolower (s : list Z) : list Z :=
  map (fun c => let c2 := to_lower c in if c2 =? c then c else c2) s.

(** [strcasecmp(s1.c_str(), s2.c_str()) == 0] of the C library in the C
    locale: both strings end at their first zero byte. *)
Fixpoint strcaseeq (s t : list Z) : bool :=
  match s, t with
  | [], [] => true
  | [], y :: _ => y =? 0
  | x :: _, [] => x =? 0
  | x :: s, y :: t =>
      if to_lower x =? to_lower y then (if x =? 0 then true else strcaseeq s t) else false
  end.

(** [result = result * 101 + c] over [size_t], from 0. *)
Definition CaseIgnoredHasher (s : list Z) : Z :=
  foldl (fun result c => u64 (result * 101 + schar (to_lower c))) 0 s.

Definition CaseIgnoredEqual (s1 s2 : list Z) : bool :=
  (zlen s1 =? zlen s2) && strcaseeq s1 s2.

Definition DefaultHasher (s : list Z) : Z :=
  foldl (fun result c => u64 (result * 101 + schar c)) 0 s.

Definition DefaultEqualTo (s1 s2 : list Z) : bool := bool_decide (s1 = s2).

(** ** Lower case *)

Lemma to_lower_spec c : to_lower c = if (65 <=? c) && (c <=? 90) then c + 32 else c.
Proof.
  destruct (decide (0 <= c < 256)) as [Hc|Hc].
  - pose proof (byte_check (fun c => to_lower c =? if (65 <=? c) && (c <=? 90) then c + 32 else c)
      ltac:(vm_compute; reflexivity) c Hc) as E. simpl in E. by zbool.
  - unfold to_lower. destruct (zget kToLower c) eqn:E.
    + apply zget_Some_lt in E. change (zlen kToLower) with 256 in E. lia.
    + simpl. case_if; zbool; [lia|done].
Qed.

Lemma to_lower_byte c : 0 <= c < 256 -> 0 <= to_lower c < 256.
Proof. intros. rewrite to_lower_spec. case_if; zbool; lia. Qed.

Lemma to_lower_idem c : to_lower (to_lower c) = to_lower c.
Proof.
  rewrite !to_lower_spec. by repeat (case_if; zbool; try lia).
Qed.

Lemma tolower_map s : tolower s = map to_lower s.
Proof.
  unfold tolower. apply map_ext. intros c. simpl. case_if; [|done]. zbool. done.
Qed.

Lemma zlen_tolower s : zlen (tolower s) = zlen s.
Proof. rewrite tolower_map. unfold zlen. by rewrite length_map. Qed.

Lemma tolower_bytes s : bytes_ok s -> bytes_ok (tolower s).
Proof.
  rewrite tolower_map. intros Hs. apply Forall_fmap. eapply Forall_impl; [exact Hs|].
  intros c Hc. by apply to_lower_byte.
Qed.

Lemma tolower_idem s : tolower (tolower s) = tolower s.
Proof.
  rewrite !tolower_map, map_map. apply map_ext. intros c. apply to_lower_idem.
Qed.

(** ** The two key disciplines *)

(** Bytes of a C string without its terminator. *)
Definition no_nul (s : list Z) : Prop := bytes_ok s /\ 0 ∉ s.

Lemma hash_range (f : Z -> Z) s :
  0 <= foldl (fun result c => u64 (result * 101 + f c)) 0 s < 18446744073709551616.
Proof.
  destruct s as [|c s _] using rev_ind; [simpl; lia|]. rewrite foldl_snoc. apply u64_range.
Qed.

(** The C string part of [s], lowered. *)
Fixpoint lowered_cstr (s : list Z) : list Z :=
  match s with
  | [] => []
  | c :: s => if c =? 0 then [] else to_lower c :: lowered_cstr s
  end.

Lemma to_lower_0 c : to_lower c = 0 <-> c = 0.
Proof. rewrite to_lower_spec. case_if; zbool; lia. Qed.

Lemma strcaseeq_spec s t : strcaseeq s t = bool_decide (lowered_cstr s = lowered_cstr t).
Proof.
  revert t. induction s as [|x s IH]; intros [|y t]; simpl; [done|by destruct (y =? 0)|by destruct (x =? 0)|].
  rewrite IH. pose proof (to_lower_0 x) as H1. pose proof (to_lower_0 y) as H2.
  destruct (to_lower x =? to_lower y) eqn:E0, (x =? 0) eqn:E1, (y =? 0) eqn:E2;
    zbool; try done; try (exfalso; lia); try (symmetry; apply bool_decide_eq_false; congruence).
  apply bool_decide_ext. split; [congruence|]. by intros [= _ ?].
Qed.

Lemma lowered_cstr_no_nul s : no_nul s -> lowered_cstr s = tolower s.
Proof.
  rewrite tolower_map. intros [_ Hn]. induction s as [|c s IH]; [done|]. simpl.
  apply not_elem_of_cons in Hn as [Hc Hn]. decide_if. by rewrite IH.
Qed.

Lemma CaseIgnoredEqual_no_nul s t :
  no_nul s -> no_nul t -> CaseIgnoredEqual s t = bool_decide (tolower s = tolower t).
Proof.
  intros Hs Ht. unfold CaseIgnoredEqual.
  rewrite strcaseeq_spec, !lowered_cstr_no_nul by done.
  destruct (zlen s =? zlen t) eqn:E; [done|]. zbool. simpl. symmetry. apply bool_decide_eq_false.
  intros Heq. apply E. by rewrite <- (zlen_tolower s), Heq, zlen_tolower.
Qed.

Lemma CaseIgnoredHasher_lower s :
  CaseIgnoredHasher s = foldl (fun result c => u64 (result * 101 + schar c)) 0 (tolower s).
Proof.
  unfold CaseIgnoredHasher. rewrite tolower_map. generalize 0.
  induction s as [|c s IH]; intros r; [done|]. simpl. apply IH.
Qed.

Lemma CaseIgnoredHasher_eq s t :
  no_nul s -> no_nul t -> CaseIgnoredEqual s t = true ->
  CaseIgnoredHasher s = CaseIgnoredHasher t.
Proof.
  intros Hs Ht. rewrite CaseIgnoredEqual_no_nul by done. intros E%bool_decide_eq_true.
  by rewrite !CaseIgnoredHasher_lower, E.
Qed.

Lemma CaseIgnoredEqual_equiv s t :
  CaseIgnoredEqual s t = bool_decide (zlen s = zlen t /\ lowered_cstr s = lowered_cstr t).
Proof.
  unfold CaseIgnoredEqual. rewrite strcaseeq_spec, bool_decide_and. f_equal.
  destruct (zlen s =? zlen t) eqn:E; zbool; symmetry.
  - by apply bool_decide_eq_true.
  - by apply bool_decide_eq_false.
Qed.

(** Keys of [CaseIgnoredFlatMap].  The hasher reads the whole name, the
    equality only up to its first zero byte: they agree on the names without
    one. *)
Program Definition case_ignored_key : KeyOps (list Z) :=
  {| hashfn := CaseIgnoredHasher; eql := CaseIgnoredEqual; key_ok := no_nul |}.
Next Obligation. intros s. simpl. rewrite CaseIgnoredEqual_equiv. by apply bool_decide_eq_true. Qed.
Next Obligation.
  intros s t. simpl. rewrite !CaseIgnoredEqual_equiv. apply bool_decide_ext. firstorder congruence.
Qed.
Next Obligation.
  intros s t u. simpl. rewrite !CaseIgnoredEqual_equiv, !bool_decide_eq_true. firstorder congruence.
Qed.
Next Obligation. intros s t. apply CaseIgnoredHasher_eq. Qed.
Next Obligation. intros s. apply hash_range. Qed.

(** Keys of a [FlatMap] over [std::string] with the default parameters. *)
Program Definition string_key : KeyOps (list Z) :=
  {| hashfn := DefaultHasher; eql := DefaultEqualTo; key_ok := fun _ => True |}.
Next Obligation. intros s. by apply bool_decide_eq_true. Qed.
Next Obligation. intros s t. apply bool_decide_ext. firstorder congruence. Qed.
Next Obligation. intros s t u. unfold DefaultEqualTo. rewrite !bool_decide_eq_true. congruence. Qed.
Next Obligation. intros s t _ _. unfold DefaultEqualTo. rewrite bool_decide_eq_true. congruence. Qed.
Next Obligation. intros s. apply hash_range. Qed.

(** Two names the equality identifies and the hasher separates: a name with
    an embedded zero byte can be missed by a lookup that should find it. *)
Example nul_name_mismatch :
  CaseIgnoredEqual [97; 0; 98] [97; 0; 99] = true /\
  CaseIgnoredHasher [97; 0; 98] <> CaseIgnoredHasher [97; 0; 99].
Proof. split; [reflexivity|]. vm_compute. congruence. Qed.

(** A table with string keys that grows past its initial two buckets. *)
Definition demo_table : FlatMap (list Z) Z :=
  let ins := @insert _ _ string_key 0 in
  match init 2 80 new_flatmap with
  | Some m => ins (bs "c") 3 (ins (bs "a") 1 (ins (bs "e") 5 m))
  | None => new_flatmap
  end.

Lemma demo_table_wf : @fm_wf _ _ string_key demo_table.
Proof.
  unfold demo_table. destruct (@init_wf _ Z string_key 2 80 new_flatmap) as (m & E & Hm & Hs & _ & _);
    [lia..|done|]. rewrite E.
  assert (forall k v (m0 : FlatMap (list Z) Z) n, @fm_wf _ _ string_key m0 -> _size m0 <= n -> n < 2 ^ 50 ->
    @fm_wf _ _ string_key (@insert _ _ string_key 0 k v m0) /\
    _size (@insert _ _ string_key 0 k v m0) <= n + 1) as Hins.
  { intros k v m0 n Hw Hn Hlt.
    destruct (@insert_spec _ Z string_key 0 k v m0 Hw I ltac:(lia)) as (H1 & _ & ->).
    split; [done|]. case_match; lia. }
  destruct (Hins (bs "e") 5 m 0) as [W1 S1]; [done|lia..|].
  destruct (Hins (bs "a") 1 _ (0 + 1) W1 S1) as [W2 S2]; [lia|].
  apply (Hins (bs "c") 3 _ (0 + 1 + 1) W2 S2). lia.
Qed.

Lemma flatmap_is_map_witness :
  @fm_wf _ _ string_key demo_table /\ _size demo_table < 2 ^ 50 /\
  (@seek _ _ string_key (bs "a") (@clear (list Z) Z demo_table) = None).
Proof.
  assert (_size demo_table < 2 ^ 50) as Hsz by (vm_compute; reflexivity).
  destruct (@flatmap_is_map _ Z string_key 0 demo_table (bs "a") demo_table_wf Hsz I)
    as (_ & _ & [_ Hc] & _).
  split; [apply demo_table_wf|]. split; [exact Hsz|exact Hc].
Defined.
