(* ===== verification/FlatMapIterator.v ===== *)
(** * [FlatMapIterator] of [flare/container/flat_map_inl.h]

    The table has one bucket more than [_nbucket], whose [next] is null: the
    iterator stops there because it looks valid.  A node is the number of its
    bucket and the number of [next] links from the bucket to it.  Reading a
    bucket behind the extra one, or the element of a bucket that has none, is
    undefined.

    The theorem: the usual loop from [begin()] to [end()] ends, never reads such
    a bucket, and visits every binding of the table once. *)

From S2P Require Import Prelude FlatMap CharOps.
Local Open Scope Z_scope.

(** [None] is the null pointer. *)
Record FlatMapIterator := mk_iterator { _node : option (Z * nat); _entry : option Z }.

Section iterator.
Context {K V : Type} `{KeyOps K}.
Implicit Types (m : FlatMap K V) (k : K) (it : FlatMapIterator).

(** [_entry->is_valid()]; the extra bucket is valid. *)
Definition is_valid (entry : Z) m : outcome bool :=
  if entry =? _nbucket m then Ok true
  else c ← deref (zget (default [] (_buckets m)) entry); Ok (match c with [] => false | _ => true end).

(** [for (; !_entry->is_valid(); ++_entry);] *)
Fixpoint find_valid (fuel : nat) (entry : Z) m : outcome Z :=
  valid ← is_valid entry m;
  if (valid : bool) then Ok entry
  else match fuel with O => Undefined | S fuel => find_valid fuel (entry + 1) m end.

(** No run of invalid buckets is longer than the table. *)
Definition find_and_set_valid_node (entry : Z) m : outcome FlatMapIterator :=
  entry ← find_valid (Z.to_nat (_nbucket m)) entry m;
  Ok (mk_iterator (Some (entry, O)) (Some entry)).

Definition new_iterator m (pos : Z) : outcome FlatMapIterator :=
  if initialized m then find_and_set_valid_node pos m else Ok (mk_iterator None None).

Definition begin m : outcome FlatMapIterator := new_iterator m 0.
Definition end_ m : outcome FlatMapIterator := new_iterator m (_nbucket m).

(** [operator==] compares the nodes only. *)
Definition same_position it1 it2 : bool := bool_decide (_node it1 = _node it2).

(** [_node->next == NULL], of a node that is alive. *)
Definition is_last (node : Z * nat) m : outcome bool :=
  let '(b, i) := node in
  if (b =? _nbucket m) && (Nat.eqb i 0) then Ok true
  else
    c ← deref (zget (default [] (_buckets m)) b);
    if Nat.leb (length c) i then Undefined else Ok (Nat.eqb (S i) (length c)).

(** [operator++] *)
Definition increment it m : outcome FlatMapIterator :=
  node ← deref (_node it);
  last ← is_last node m;
  if (last : bool) then
    entry ← deref (_entry it); find_and_set_valid_node (entry + 1) m
  else Ok (mk_iterator (Some (fst node, S (snd node))) (_entry it)).

(** [operator*] *)
Definition element it m : outcome (K * V) :=
  node ← deref (_node it);
  c ← deref (zget (default [] (_buckets m)) (fst node));
  deref (c !! snd node).

(** [for (it = begin(); it != end(); ++it)], collecting [*it]. *)
Fixpoint visit (fuel : nat) it m : outcome (list (K * V)) :=
  e ← end_ m;
  if same_position it e then Ok []
  else
    kv ← element it m; it ← increment it m;
    match fuel with
    | O => Undefined
    | S fuel => l ← visit fuel it m; Ok (kv :: l)
    end.

(** One turn for each element. *)
Definition traverse m : outcome (list (K * V)) :=
  it ← begin m; visit (length (elements m)) it m.

(** ** The position of an iterator *)

(** What is left to visit at [it], which is at a bucket with an element or at
    the extra bucket. *)
Definition at_ it (bl : list (list (K * V))) (l : list (K * V)) : Prop :=
  exists b i, it = mk_iterator (Some (b, i)) (Some b) /\ 0 <= b /\
    ((b = zlen bl /\ i = O /\ l = []) \/
     exists c, zget bl b = Some c /\ (i < length c)%nat /\ l = drop i c ++ concat (zdrop (b + 1) bl)).

Lemma find_valid_at fuel b m bl : _buckets m = Some bl -> zlen bl = _nbucket m -> 0 <= b <= zlen bl -> zlen bl - b <= Z.of_nat fuel ->
  exists b', find_valid fuel b m = Ok b' /\ at_ (mk_iterator (Some (b', O)) (Some b')) bl (concat (zdrop b bl)).
Proof.
  intros Em En. revert b. induction fuel as [|fuel IH]; intros b Hb Hf; cbn [find_valid]; unfold is_valid; rewrite Em, <- En;
    (destruct (decide (b = zlen bl)) as [->|Hne];
     [rewrite Z.eqb_refl; exists (zlen bl); split; [done|]; exists (zlen bl), O; split_and!; [done|lia|left; split_and!; [done..|by rewrite zdrop_all]]|]);
    [lia|].
  rewrite (proj2 (Z.eqb_neq _ _) Hne). destruct (zget_lt bl b ltac:(lia)) as [c Hc]. cbn. rewrite Hc. cbn. destruct c as [|kv c].
  - destruct (IH (b + 1) ltac:(lia) ltac:(lia)) as (b' & E & Ha). exists b'. split; [done|]. by rewrite (zdrop_cons _ _ _ Hc).
  - exists b. split; [done|]. exists b, O. split_and!; [done|lia|]. right. exists (kv :: c). split_and!; [done|cbn; lia|]. by rewrite (zdrop_cons _ _ _ Hc).
Qed.

Lemma find_and_set_at b m bl : _buckets m = Some bl -> zlen bl = _nbucket m -> 0 <= b <= zlen bl ->
  exists it, find_and_set_valid_node b m = Ok it /\ at_ it bl (concat (zdrop b bl)).
Proof.
  intros Em En Hb. destruct (find_valid_at (Z.to_nat (_nbucket m)) b m bl) as (b' & E & Ha); [done..|lia|].
  eexists. unfold find_and_set_valid_node. rewrite E. by split.
Qed.

Lemma at_element it m bl kv l : _buckets m = Some bl -> at_ it bl (kv :: l) -> element it m = Ok kv.
Proof.
  intros Em (b & i & -> & Hb & [(_ & _ & E)|(c & Hc & Hi & E)]); [done|]. unfold element. rewrite Em. cbn. rewrite Hc. cbn.
  destruct (drop i c) as [|kv' r] eqn:Ed; [apply (f_equal length) in Ed; rewrite length_drop in Ed; cbn in Ed; lia|].
  injection E as <- _. apply (f_equal (fun x => x !! O)) in Ed. rewrite lookup_drop, Nat.add_0_r in Ed. by rewrite Ed.
Qed.

Lemma at_increment it m bl kv l : _buckets m = Some bl -> zlen bl = _nbucket m -> at_ it bl (kv :: l) ->
  exists it', increment it m = Ok it' /\ at_ it' bl l.
Proof.
  intros Em En (b & i & -> & Hb & [(_ & _ & E)|(c & Hc & Hi & E)]); [done|]. unfold increment, is_last. cbn -[Nat.eqb Nat.leb].
  pose proof (zget_Some_lt _ _ _ Hc). rewrite (proj2 (Z.eqb_neq b (_nbucket m)) ltac:(lia)), Em. cbn -[Nat.eqb Nat.leb]. rewrite Hc. cbn -[Nat.eqb Nat.leb].
  rewrite (proj2 (Nat.leb_gt _ _) Hi). destruct (lookup_lt_is_Some_2 c i Hi) as [x Hx]. rewrite (drop_S _ _ _ Hx) in E. injection E as _ ->.
  cbn -[Nat.eqb Nat.leb]. destruct (Nat.eqb_spec (S i) (length c)) as [El|El].
  - rewrite drop_ge by lia. apply (find_and_set_at (b + 1)); [done..|lia].
  - eexists. split; [done|]. exists b, (S i). split_and!; [done..|]. right. exists c. split_and!; [done|lia|done].
Qed.

Lemma at_end it m bl l : _buckets m = Some bl -> zlen bl = _nbucket m -> at_ it bl l ->
  exists e, end_ m = Ok e /\ same_position it e = bool_decide (l = []).
Proof.
  intros Em En (b & i & -> & Hb & Ha). unfold end_, new_iterator, initialized. rewrite Em. cbv beta iota. unfold find_and_set_valid_node.
  assert (find_valid (Z.to_nat (_nbucket m)) (_nbucket m) m = Ok (_nbucket m)) as ->.
  { destruct (Z.to_nat _); cbn [find_valid]; unfold is_valid; by rewrite Z.eqb_refl. }
  eexists. split; [done|]. unfold same_position. cbn. apply bool_decide_ext.
  destruct Ha as [(-> & -> & ->)|(c & Hc & Hi & ->)]; [by rewrite En|]. pose proof (zget_Some_lt _ _ _ Hc). split; [intros [= -> ->]; lia|].
  intros [E _]%app_eq_nil. apply (f_equal length) in E. rewrite length_drop in E. cbn in E. lia.
Qed.

Lemma visit_at fuel it m bl l : _buckets m = Some bl -> zlen bl = _nbucket m -> at_ it bl l -> (length l <= fuel)%nat -> visit fuel it m = Ok l.
Proof.
  intros Em En. revert it l. induction fuel as [|fuel IH]; intros it l Ha Hl; cbn [visit];
    destruct (at_end it m bl l Em En Ha) as (e & -> & Hs); cbn; rewrite Hs; destruct l as [|kv l]; try done; cbn in Hl; [lia|].
  rewrite (at_element it m bl kv l) by done. destruct (at_increment it m bl kv l Em En Ha) as (it' & E & Ha'). cbn. rewrite E. cbn.
  by rewrite (IH it' l Ha') by lia.
Qed.

Lemma traverse_elements m : fm_wf m -> traverse m = Ok (elements m).
Proof.
  unfold fm_wf. destruct (_buckets m) as [bl|] eqn:Em; [|done]. intros (_ & En & _). unfold traverse, begin, new_iterator, initialized, elements.
  rewrite Em. cbv beta iota. pose proof (zlen_nonneg bl). destruct (find_and_set_at 0 m bl Em En ltac:(lia)) as (it & -> & Ha).
  cbn in Ha |- *. by apply (visit_at _ it m bl).
Qed.

(** C34: iterating the table.  The loop from [begin()] to [end()] ends, reads
    no bucket behind the extra one and no element that does not exist, and
    visits a list in which no key comes twice, which has [size()] elements and
    in which looking up any key gives what [seek] gives; it is also the list
    that [resize] copies.  A table that is not initialized has nothing to
    visit. *)
Theorem flatmap_iteration m :
  traverse new_flatmap = Ok (@nil (K * V)) /\
  (fm_wf m -> exists l, traverse m = Ok l /\ l = elements m /\ keys_distinct l /\ zlen l = _size m /\ forall k, key_ok k -> chain_find k l = seek k m).
Proof.
  split; [done|]. intros Hwf. exists (elements m). split_and!; [by apply traverse_elements|done|by apply elements_distinct| |intros k Hk; by apply elements_find].
  symmetry. by apply wf_size.
Qed.
End iterator.

Lemma flatmap_iteration_witness :
  traverse demo_table = Ok [(bs "e", 5); (bs "a", 1); (bs "c", 3)] /\ zlen (elements demo_table) = _size demo_table.
Proof.
  destruct (proj2 (@flatmap_iteration _ Z string_key demo_table) demo_table_wf) as (l & _ & E & _ & Hn & _).
  split; [vm_compute; reflexivity|]. rewrite <- E. exact Hn.
Defined.
