(* ===== verification/Huffman.v ===== *)
(** * The Huffman coder of [flare/rpc/details/hpack.cc]

    [HuffmanTree] is a vector of nodes addressed by one-based ids,
    [HuffmanEncoder] packs codes into bytes with a partial byte and a count of
    free bits, [HuffmanDecoder] walks the tree bit by bit.  A failed
    [FLARE_CHECK] of the tree construction is the result [None].

    The theorems: the tree built from the table is a prefix code in which
    every code leads to its symbol, encoding followed by decoding is the
    identity on every byte string, and the encoder emits exactly the number of
    bytes that [EncodeString] announces in the length prefix. *)

From S2P Require Import Prelude HpackTables.
Local Open Scope Z_scope.

(** ** The tree *)

Record HuffmanNode := mk_node { left_child : Z; right_child : Z; value : Z }.

Definition NULL_NODE : Z := 0.
Definition ROOT_NODE : Z := 1.
Definition INVALID_VALUE : Z := 2147483647.

Definition fresh_node : HuffmanNode := mk_node NULL_NODE NULL_NODE INVALID_VALUE.

(** [_node_memory] *)
Definition HuffmanTree : Type := list HuffmanNode.

Definition new_tree : HuffmanTree := [fresh_node].

Definition node (id : Z) (t : HuffmanTree) : option HuffmanNode :=
  if id =? 0 then None
  else if zlen t <? id then None
  else zget t (id - 1).

(** [_node_memory[id - 1]], for the ids the construction uses. *)
Definition node_ref (id : Z) (t : HuffmanTree) : HuffmanNode :=
  default fresh_node (zget t (id - 1)).

Definition set_node (id : Z) (n : HuffmanNode) (t : HuffmanTree) : HuffmanTree :=
  zset (id - 1) n t.

Definition AllocNode (t : HuffmanTree) : Z * HuffmanTree :=
  (u16 (zlen t + 1), t ++ [fresh_node]).

(** One level of [AddLeafNode]: follow (allocating it if needed) the child
    that the bit selects. *)
Definition descend (bit : bool) (cur : Z) (t : HuffmanTree) : Z * HuffmanTree :=
  let n := node_ref cur t in
  if bit then
    if right_child n =? NULL_NODE then
      let (new_id, t) := AllocNode t in
      (new_id, set_node cur (mk_node (left_child n) new_id (value n)) t)
    else (right_child n, t)
  else
    if left_child n =? NULL_NODE then
      let (new_id, t) := AllocNode t in
      (new_id, set_node cur (mk_node new_id (right_child n) (value n)) t)
    else (left_child n, t).

(** The loop over the bits, most significant first; [i] bits are left. *)
Fixpoint add_leaf_loop (i : nat) (c : Z) (cur : Z) (t : HuffmanTree)
  : option (Z * HuffmanTree) :=
  match i with
  | O => Some (cur, t)
  | S i =>
      if value (node_ref cur t) =? INVALID_VALUE then
        let (cur, t) := descend (Z.testbit c (Z.of_nat i)) cur t in add_leaf_loop i c cur t
      else None
  end.

Definition AddLeafNode (v : Z) (c : HuffmanCode) (t : HuffmanTree) : option HuffmanTree :=
  match add_leaf_loop (Z.to_nat (bit_len c)) (code c) ROOT_NODE t with
  | None => None
  | Some (cur, t) =>
      let n := node_ref cur t in
      if (value n =? INVALID_VALUE) && (left_child n =? NULL_NODE) && (right_child n =? NULL_NODE)
      then Some (set_node cur (mk_node (left_child n) (right_child n) v) t)
      else None
  end.

(** The table loop of [CreateStaticTableOrDie]. *)
Fixpoint add_leaves (v : Z) (cs : list HuffmanCode) (t : HuffmanTree) : option HuffmanTree :=
  match cs with
  | [] => Some t
  | c :: cs => match AddLeafNode v c t with
               | None => None
               | Some t => add_leaves (v + 1) cs t
               end
  end.

Definition s_huffman_tree : HuffmanTree :=
  default [] (add_leaves 0 s_huffman_table new_tree).

(** ** The encoder *)

Record HuffmanEncoder := mk_enc {
  _out : list Z;
  _partial_byte : Z;
  _remain_bit : Z;
  _out_bytes : Z;
}.

Definition new_encoder (out : list Z) : HuffmanEncoder := mk_enc out 0 8 0.

(** The [while (bits_left)] loop; every round consumes at least one bit, so
    [bit_len] rounds are enough. *)
Fixpoint encode_loop (fuel : nat) (c : Z) (bits_left : Z) (e : HuffmanEncoder) : HuffmanEncoder :=
  match fuel with
  | O => e
  | S fuel =>
      if bits_left =? 0 then e
      else
        let adding_bits_len := Z.min (_remain_bit e) bits_left in
        let adding_bits :=
          u8 (Z.shiftr (Z.land c (u32 (Z.shiftl 1 bits_left - 1))) (bits_left - adding_bits_len)) in
        let partial := u8 (Z.lor (_partial_byte e)
                             (Z.shiftl adding_bits (_remain_bit e - adding_bits_len))) in
        let remain := _remain_bit e - adding_bits_len in
        let e := if remain =? 0
                 then mk_enc (_out e ++ [partial]) 0 8 (u32 (_out_bytes e + 1))
                 else mk_enc (_out e) partial remain (_out_bytes e) in
        encode_loop fuel c (bits_left - adding_bits_len) e
  end.

Definition Encode (byte : Z) (e : HuffmanEncoder) : HuffmanEncoder :=
  let c := default (mk_code 0 0) (zget s_huffman_table byte) in
  encode_loop (Z.to_nat (bit_len c)) (code c) (u16 (bit_len c)) e.

Definition EndStream (e : HuffmanEncoder) : HuffmanEncoder :=
  if _remain_bit e =? 8 then e
  else
    let partial := u8 (Z.lor (_partial_byte e) (Z.shiftl 1 (_remain_bit e) - 1)) in
    mk_enc (_out e ++ [partial]) 0 0 (u32 (_out_bytes e + 1)).

(** ** The decoder *)

Record HuffmanDecoder := mk_dec {
  d_out : list Z;
  _cur_node : HuffmanNode;
  _cur_depth : Z;
  _padding : bool;
}.

Definition new_decoder (t : HuffmanTree) : HuffmanDecoder :=
  mk_dec [] (default fresh_node (node ROOT_NODE t)) 0 true.

(** One iteration of the loop of [Decode]; [None] is [return -1]. *)
Definition decode_bit (t : HuffmanTree) (bit : bool) (d : HuffmanDecoder) : option HuffmanDecoder :=
  match node (if bit then right_child (_cur_node d) else left_child (_cur_node d)) t with
  | None => None
  | Some n =>
      if negb (value n =? INVALID_VALUE) then
        if value n =? HPACK_HUFFMAN_EOS then None
        else Some (mk_dec (d_out d ++ [u8 (value n)]) (default fresh_node (node ROOT_NODE t)) 0 true)
      else Some (mk_dec (d_out d) n (u16 (_cur_depth d + 1)) (_padding d && bit))
  end.

(** [for (int i = 7; i >= 0; --i)], [n] bits left. *)
Fixpoint decode_loop (t : HuffmanTree) (n : nat) (byte : Z) (d : HuffmanDecoder)
  : option HuffmanDecoder :=
  match n with
  | O => Some d
  | S i =>
      match decode_bit t (negb (Z.land byte (Z.shiftl 1 (Z.of_nat i)) =? 0)) d with
      | None => None
      | Some d => decode_loop t i byte d
      end
  end.

Definition Decode (t : HuffmanTree) (byte : Z) (d : HuffmanDecoder) : option HuffmanDecoder :=
  decode_loop t 8 byte d.

(** [true] is the return value 0. *)
Definition decoder_end (d : HuffmanDecoder) : bool :=
  if _cur_depth d =? 0 then true
  else (_cur_depth d <=? 7) && _padding d.

(** [Encode] over a string and [EndStream], as [EncodeString] does. *)
Definition huffman_encode (s : list Z) : HuffmanEncoder :=
  EndStream (foldl (fun e b => Encode b e) (new_encoder []) s).

(** [Decode] over the encoded bytes and [EndStream], as [DecodeString] does. *)
Fixpoint decode_bytes (t : HuffmanTree) (bytes : list Z) (d : HuffmanDecoder)
  : option HuffmanDecoder :=
  match bytes with
  | [] => Some d
  | b :: bytes => match Decode t b d with
                  | None => None
                  | Some d => decode_bytes t bytes d
                  end
  end.

Definition huffman_decode (bytes : list Z) : option (list Z) :=
  match decode_bytes s_huffman_tree bytes (new_decoder s_huffman_tree) with
  | None => None
  | Some d => if decoder_end d then Some (d_out d) else None
  end.

Example tree_nodes : zlen s_huffman_tree = 513.
Proof. vm_compute. reflexivity. Qed.

(** ** Bit strings, most significant bit first *)

Fixpoint bits (n : nat) (z : Z) : list bool :=
  match n with
  | O => []
  | S n => Z.testbit z (Z.of_nat n) :: bits n z
  end.

Lemma length_bits n z : length (bits n z) = n.
Proof. induction n; simpl; congruence. Qed.

Lemma bits_ext n x y :
  (forall i, 0 <= i < Z.of_nat n -> Z.testbit x i = Z.testbit y i) -> bits n x = bits n y.
Proof.
  induction n as [|n IH]; intros H; [done|]. simpl. f_equal; [apply H; lia|].
  apply IH. intros. apply H. lia.
Qed.

Lemma bits_app n m z :
  bits (n + m) z = bits n (Z.shiftr z (Z.of_nat m)) ++ bits m z.
Proof.
  induction n as [|n IH]; [done|]. simpl. rewrite IH. f_equal.
  rewrite Z.shiftr_spec by lia. f_equal. lia.
Qed.

Lemma bits_ones n : bits n (Z.ones (Z.of_nat n)) = replicate n true.
Proof.
  assert (forall k, (n <= k)%nat -> bits n (Z.ones (Z.of_nat k)) = replicate n true) as H; [|by apply H].
  induction n as [|n IH]; intros k Hk; [done|]. simpl. f_equal; [|apply IH; lia].
  apply Z.ones_spec_low. lia.
Qed.

Lemma land_shiftl_testbit b i : 0 <= i -> negb (Z.land b (Z.shiftl 1 i) =? 0) = Z.testbit b i.
Proof.
  intros Hi. destruct (Z.testbit b i) eqn:E.
  - apply negb_true_iff, Z.eqb_neq. intros H0.
    assert (Z.testbit (Z.land b (Z.shiftl 1 i)) i = true) as Ht.
    { rewrite Z.land_spec, E, Z.shiftl_spec, Z.sub_diag by lia. done. }
    by rewrite H0, Z.testbit_0_l in Ht.
  - apply negb_false_iff, Z.eqb_eq. apply Z.bits_inj'. intros j Hj.
    rewrite Z.land_spec, Z.shiftl_spec, Z.testbit_0_l by lia.
    destruct (decide (j = i)) as [->|]; [by rewrite E|].
    replace (Z.testbit 1 (j - i)) with false; [apply andb_false_r|].
    destruct (decide (j < i)); [by rewrite Z.testbit_neg_r by lia|].
    symmetry. apply (Z.bits_above_log2 1); simpl; lia.
Qed.

Lemma testbit_small x k i : 0 <= x < 2 ^ k -> 0 <= k <= i -> Z.testbit x i = false.
Proof.
  intros Hx Hi. rewrite <- (Z.mod_small x (2 ^ k)) by done. apply Z.mod_pow2_bits_high. lia.
Qed.

Lemma small_of_bits x k :
  0 <= x -> 0 <= k -> (forall i, k <= i -> Z.testbit x i = false) -> x < 2 ^ k.
Proof.
  intros Hx Hk Hb. assert (x = x `mod` 2 ^ k) as ->.
  { apply Z.bits_inj'. intros i Hi. destruct (decide (i < k)).
    - by rewrite Z.mod_pow2_bits_low by lia.
    - rewrite Z.mod_pow2_bits_high by lia. apply Hb. lia. }
  apply Z.mod_pos_bound. apply Z.pow_pos_nonneg; lia.
Qed.

(** ** Codes *)

Definition code_bits (b : Z) : list bool :=
  let c := default (mk_code 0 0) (zget s_huffman_table b) in
  bits (Z.to_nat (bit_len c)) (code c).

Definition string_bits (s : list Z) : list bool := concat (map code_bits s).
Definition flat_bytes (s : list Z) : list bool := concat (map (bits 8) s).

Fixpoint decode_bits (t : HuffmanTree) (bl : list bool) (d : HuffmanDecoder) : option HuffmanDecoder :=
  match bl with
  | [] => Some d
  | b :: bl => match decode_bit t b d with None => None | Some d => decode_bits t bl d end
  end.

Lemma decode_bits_app t b1 b2 d :
  decode_bits t (b1 ++ b2) d =
  match decode_bits t b1 d with None => None | Some d => decode_bits t b2 d end.
Proof. revert d. induction b1 as [|b b1 IH]; intros d; [done|]. simpl. by case_match. Qed.

(** The decoder reads the bits of the bytes in order. *)
Lemma decode_loop_bits t n byte d : decode_loop t n byte d = decode_bits t (bits n byte) d.
Proof.
  revert d. induction n as [|n IH]; intros d; [done|]. simpl.
  rewrite land_shiftl_testbit by lia. by case_match.
Qed.

Lemma decode_bytes_bits t bytes d : decode_bytes t bytes d = decode_bits t (flat_bytes bytes) d.
Proof.
  revert d. induction bytes as [|b bytes IH]; intros d; [done|]. unfold flat_bytes. 
  change (concat (map (bits 8) (b :: bytes))) with (bits 8 b ++ flat_bytes bytes).
  rewrite decode_bits_app. simpl decode_bytes. unfold Decode. rewrite decode_loop_bits.
  by case_match.
Qed.

(** What was decoded before does not influence the walk. *)
Definition with_out (o : list Z) (d : HuffmanDecoder) : HuffmanDecoder :=
  mk_dec (o ++ d_out d) (_cur_node d) (_cur_depth d) (_padding d).

Lemma decode_bit_frame t b o d : decode_bit t b (with_out o d) = with_out o <$> decode_bit t b d.
Proof.
  unfold decode_bit; cbn [with_out _cur_node d_out _cur_depth _padding].
  destruct (node _ t) as [n|]; [|done]. destruct (negb _); [|done]. destruct (_ =? _); [done|].
  unfold with_out; simpl. by rewrite app_assoc.
Qed.

Lemma decode_bits_frame t bl o d :
  decode_bits t bl (with_out o d) = with_out o <$> decode_bits t bl d.
Proof.
  revert d. induction bl as [|b bl IH]; intros d; [done|]. simpl. rewrite decode_bit_frame.
  destruct (decode_bit t b d); simpl; [apply IH|done].
Qed.

#[export] Instance HuffmanNode_eq_dec : EqDecision HuffmanNode.
Proof. solve_decision. Defined.
#[export] Instance HuffmanDecoder_eq_dec : EqDecision HuffmanDecoder.
Proof. solve_decision. Defined.

(** Every code leads from the root to its symbol, and no proper prefix of it
    to a symbol or out of the tree (checked on the 256 byte values). *)
Definition code_check (b : Z) : bool :=
  bool_decide (decode_bits s_huffman_tree (code_bits b) (new_decoder s_huffman_tree)
               = Some (with_out [b] (new_decoder s_huffman_tree))).

Lemma code_check_all : forallb code_check (seqZ 0 256) = true.
Proof. vm_compute. reflexivity. Qed.

Lemma code_walk b :
  0 <= b < 256 ->
  decode_bits s_huffman_tree (code_bits b) (new_decoder s_huffman_tree)
  = Some (with_out [b] (new_decoder s_huffman_tree)).
Proof.
  intros Hb. pose proof (byte_check code_check code_check_all b Hb) as H.
  by apply bool_decide_eq_true in H.
Qed.

(** Fewer than eight padding ones are accepted and decode to nothing. *)
Lemma padding_walk k :
  (k < 8)%nat ->
  exists d, decode_bits s_huffman_tree (replicate k true) (new_decoder s_huffman_tree) = Some d /\
    d_out d = [] /\ decoder_end d = true.
Proof.
  intros Hk. do 8 (destruct k as [|k]; [eexists; split; [vm_compute; reflexivity|done]|]). lia.
Qed.

(** From here on the tree is used through the three facts above only. *)
#[global] Opaque s_huffman_tree.

Lemma string_walk s :
  bytes_ok s ->
  decode_bits s_huffman_tree (string_bits s) (new_decoder s_huffman_tree)
  = Some (with_out s (new_decoder s_huffman_tree)).
Proof.
  induction s as [|b s IH] using rev_ind; intros Hs; [done|].
  apply bytes_ok_app in Hs as [Hs Hb]. unfold string_bits. rewrite map_app, concat_app.
  rewrite decode_bits_app. fold (string_bits s). rewrite IH by done. simpl. rewrite app_nil_r.
  rewrite decode_bits_frame, code_walk by (by inversion Hb).
  simpl. unfold with_out; simpl. by rewrite !app_nil_r.
Qed.

(** ** The encoder emits the code bits *)

(** [e] has emitted exactly the bits [B]: whole bytes in [_out], the rest in
    the high end of the partial byte, whose free low bits are zero. *)
Definition enc_inv (e : HuffmanEncoder) (B : list bool) : Prop :=
  0 < _remain_bit e <= 8 /\ 0 <= _partial_byte e < 256 /\
  (forall i, 0 <= i < _remain_bit e -> Z.testbit (_partial_byte e) i = false) /\
  flat_bytes (_out e) ++ bits (Z.to_nat (8 - _remain_bit e))
    (Z.shiftr (_partial_byte e) (_remain_bit e)) = B.

Lemma flat_bytes_app s t : flat_bytes (s ++ t) = flat_bytes s ++ flat_bytes t.
Proof. unfold flat_bytes. by rewrite map_app, concat_app. Qed.

Lemma flat_bytes_one x : flat_bytes [x] = bits 8 x.
Proof. apply app_nil_r. Qed.

(** The chunk of [a] bits that one round takes out of the code. *)
Lemma adding_bits_spec c l a :
  0 < a <= l -> l <= 31 -> a <= 8 ->
  let adding := u8 (Z.shiftr (Z.land c (u32 (Z.shiftl 1 l - 1))) (l - a)) in
  0 <= adding < 2 ^ a /\
  forall i, 0 <= i < a -> Z.testbit adding i = Z.testbit c (i + (l - a)).
Proof.
  intros Ha Hl H8. assert (2 ^ l <= 2 ^ 31) by (apply Z.pow_le_mono_r; lia).
  assert (0 < 2 ^ l) by (apply Z.pow_pos_nonneg; lia).
  rewrite Z.shiftl_1_l, u32_small by lia.
  replace (2 ^ l - 1) with (Z.ones l) by (rewrite Z.ones_equiv; lia).
  rewrite Z.land_ones by lia. set (x := Z.shiftr (c `mod` 2 ^ l) (l - a)).
  assert (0 <= x < 2 ^ a) as Hx.
  { subst x. pose proof (Z.mod_pos_bound c (2 ^ l) ltac:(lia)).
    rewrite Z.shiftr_div_pow2 by lia. assert (2 ^ l = 2 ^ (l - a) * 2 ^ a) as E
      by (rewrite <- Z.pow_add_r by lia; f_equal; lia).
    assert (0 < 2 ^ (l - a)) by (apply Z.pow_pos_nonneg; lia).
    split; [apply Z.div_pos; lia|]. apply Z.div_lt_upper_bound; lia. }
  assert (2 ^ a <= 2 ^ 8) by (apply Z.pow_le_mono_r; lia).
  simpl. rewrite u8_small by lia. split; [done|]. intros i Hi. subst x.
  rewrite Z.shiftr_spec by lia. rewrite Z.mod_pow2_bits_low by lia. done.
Qed.

(** Filling [a] of the [r] free bits of the partial byte. *)
Lemma partial_byte_spec p x r a :
  0 < a <= r -> r <= 8 -> 0 <= p < 256 -> 0 <= x < 2 ^ a ->
  (forall i, 0 <= i < r -> Z.testbit p i = false) ->
  let p' := u8 (Z.lor p (Z.shiftl x (r - a))) in
  0 <= p' < 256 /\
  (forall i, 0 <= i -> Z.testbit p' i =
     if i <? r - a then false else if i <? r then Z.testbit x (i - (r - a)) else Z.testbit p i).
Proof.
  intros Ha Hr Hp Hx Hz. set (y := Z.lor p (Z.shiftl x (r - a))).
  assert (forall i, 0 <= i -> Z.testbit y i =
     if i <? r - a then false else if i <? r then Z.testbit x (i - (r - a)) else Z.testbit p i) as Hy.
  { intros i Hi. subst y. rewrite Z.lor_spec, Z.shiftl_spec by lia.
    case_if; zbool; [rewrite Hz, Z.testbit_neg_r by lia; done|].
    case_if; zbool; [by rewrite Hz by lia|].
    rewrite (testbit_small x a) by lia. apply orb_false_r. }
  assert (0 <= y) as Hy0.
  { subst y. apply Z.lor_nonneg. split; [lia|]. apply Z.shiftl_nonneg. lia. }
  assert (y < 2 ^ 8) as Hy8.
  { apply small_of_bits; [done|lia|]. intros i Hi. rewrite Hy by lia. repeat decide_if.
    apply (testbit_small p 8); lia. }
  simpl. rewrite u8_small by lia. split; [lia|done].
Qed.

Lemma encode_loop_spec fuel c l e B :
  enc_inv e B -> 0 <= l <= 31 -> l <= Z.of_nat fuel ->
  enc_inv (encode_loop fuel c l e) (B ++ bits (Z.to_nat l) c).
Proof.
  revert l e B. induction fuel as [|fuel IH]; intros l e B He Hl Hf.
  { replace l with 0 by lia. simpl. by rewrite app_nil_r. }
  cbn [encode_loop]. case_if; zbool; [subst; simpl; by rewrite app_nil_r|].
  destruct He as (Hr & Hp & Hz & Hb). set (a := Z.min (_remain_bit e) l) in *.
  pose proof (adding_bits_spec c l a ltac:(lia) ltac:(lia) ltac:(lia)) as [Hx Hxb]. simpl in Hx, Hxb.
  set (x := u8 (Z.shiftr _ (l - a))) in *.
  pose proof (partial_byte_spec (_partial_byte e) x (_remain_bit e) a
    ltac:(lia) ltac:(lia) Hp Hx Hz) as [Hp' Hpb]. simpl in Hp', Hpb.
  set (p' := u8 (Z.lor _ (Z.shiftl x _))) in *.
  set (r := _remain_bit e) in *. set (r' := r - a).
  assert (flat_bytes (_out e) ++ bits (Z.to_nat (8 - r')) (Z.shiftr p' r')
          = B ++ bits (Z.to_nat a) (Z.shiftr c (l - a))) as Hnew.
  { rewrite <- Hb, <- app_assoc. f_equal.
    replace (Z.to_nat (8 - r')) with (Z.to_nat (8 - r) + Z.to_nat a)%nat by lia.
    rewrite bits_app, Z2Nat.id, Z.shiftr_shiftr by lia. replace (r' + a) with r by lia.
    f_equal; apply bits_ext; intros i Hi; rewrite !Z.shiftr_spec, Hpb by lia; repeat decide_if.
    - done.
    - replace (i + r' - (r - a)) with i by lia. by apply Hxb; lia. }
  assert (bits (Z.to_nat l) c = bits (Z.to_nat a) (Z.shiftr c (l - a)) ++ bits (Z.to_nat (l - a)) c) as Hl'.
  { replace (Z.to_nat l) with (Z.to_nat a + Z.to_nat (l - a))%nat by lia.
    by rewrite bits_app, Z2Nat.id by lia. }
  rewrite Hl', app_assoc. apply IH; [|lia..]. rewrite <- Hnew.
  case_if; zbool; unfold enc_inv; simpl; fold r'.
  - split_and!; [lia..| |]. { intros i Hi. apply Z.testbit_0_l. }
    rewrite flat_bytes_app, app_nil_r. f_equal.
    replace r' with 0 by lia. by rewrite Z.shiftr_0_r, flat_bytes_one.
  - split_and!; [lia..| |done]. intros i Hi. rewrite Hpb by lia. by repeat decide_if.
Qed.

(** All codes have at most 30 bits. *)
Lemma code_len_bound b :
  0 <= bit_len (default (mk_code 0 0) (zget s_huffman_table b)) <= 30.
Proof.
  destruct (zget s_huffman_table b) as [c|] eqn:E; simpl; [|lia].
  assert (forallb (fun c => (0 <=? bit_len c) && (bit_len c <=? 30)) s_huffman_table = true) as H
    by (vm_compute; reflexivity).
  rewrite forallb_forall in H. unfold zget in E. case_if_in E; [done|].
  apply list_elem_of_lookup_2, list_elem_of_In in E. specialize (H _ E). zbool. lia.
Qed.

Lemma Encode_spec b e B : enc_inv e B -> enc_inv (Encode b e) (B ++ code_bits b).
Proof.
  intros He. unfold Encode, code_bits. pose proof (code_len_bound b).
  rewrite u16_small by lia. apply encode_loop_spec; [done|lia..].
Qed.

Lemma encode_string_spec s e B :
  enc_inv e B -> enc_inv (foldl (fun e b => Encode b e) e s) (B ++ string_bits s).
Proof.
  revert e B. induction s as [|b s IH]; intros e B He; simpl; [by rewrite app_nil_r|].
  unfold string_bits. simpl. rewrite app_assoc. apply IH. by apply Encode_spec.
Qed.

(** The emitted bytes are the code bits padded with fewer than eight ones. *)
Lemma huffman_encode_bits s :
  exists k, (k < 8)%nat /\ flat_bytes (_out (huffman_encode s)) = string_bits s ++ replicate k true.
Proof.
  unfold huffman_encode. set (e := foldl _ _ s).
  assert (enc_inv e (string_bits s)) as He.
  { apply (encode_string_spec s (new_encoder []) []). unfold enc_inv; simpl.
    split_and!; [lia..| |done]. intros. apply Z.testbit_0_l. }
  destruct He as (Hr & Hp & Hz & Hb). unfold EndStream. case_if; zbool.
  - exists 0%nat. split; [lia|]. rewrite <- Hb, Heqb. simpl. by rewrite !app_nil_r.
  - exists (Z.to_nat (_remain_bit e)). split; [lia|]. simpl.
    rewrite flat_bytes_app, <- Hb, <- app_assoc. f_equal.
    rewrite flat_bytes_one. set (r := _remain_bit e) in *.
    pose proof (partial_byte_spec (_partial_byte e) (Z.ones r) r r ltac:(lia) ltac:(lia) Hp) as Hps.
    assert (0 < 2 ^ r) by (apply Z.pow_pos_nonneg; lia).
    rewrite Z.sub_diag, Z.shiftl_0_r, Z.ones_equiv in Hps.
    destruct Hps as [_ Hpb]; [lia|done|]. rewrite Z.shiftl_1_l.
    replace (2 ^ r - 1) with (Z.pred (2 ^ r)) by lia. set (p' := u8 _) in *.
    change 8%nat with (Z.to_nat 8).
    replace (Z.to_nat 8) with (Z.to_nat (8 - r) + Z.to_nat r)%nat by lia.
    rewrite bits_app, Z2Nat.id by lia. f_equal.
    + apply bits_ext. intros i Hi. rewrite !Z.shiftr_spec, Hpb by lia. by repeat decide_if.
    + rewrite <- bits_ones, Z2Nat.id by lia. apply bits_ext. intros i Hi. rewrite Hpb by lia.
      repeat decide_if. by rewrite Z.sub_0_r, <- Z.ones_equiv.
Qed.

Lemma huffman_decode_encode s :
  bytes_ok s -> huffman_decode (_out (huffman_encode s)) = Some s.
Proof.
  intros Hs. unfold huffman_decode. rewrite decode_bytes_bits.
  destruct (huffman_encode_bits s) as (k & Hk & ->).
  rewrite decode_bits_app, string_walk by done.
  destruct (padding_walk k Hk) as (d & Hd & Hout & Hend).
  rewrite decode_bits_frame, Hd. simpl. unfold decoder_end in *. simpl. rewrite Hend.
  by rewrite Hout, app_nil_r.
Qed.

Lemma length_flat_bytes s : length (flat_bytes s) = (8 * length s)%nat.
Proof.
  unfold flat_bytes. induction s as [|b s IH]; [done|].
  change (concat (map (bits 8) (b :: s))) with (bits 8 b ++ concat (map (bits 8) s)).
  rewrite length_app, length_bits, IH. simpl. lia.
Qed.

(** The number of bits [EncodeString] adds up, without the wrap-around. *)
Definition huffman_bit_len (s : list Z) : Z :=
  foldl (fun n b => n + bit_len (default (mk_code 0 0) (zget s_huffman_table b))) 0 s.

Lemma huffman_bit_len_bits s : huffman_bit_len s = zlen (string_bits s).
Proof.
  unfold huffman_bit_len, string_bits.
  enough (forall n, foldl (fun n b => n + bit_len (default (mk_code 0 0) (zget s_huffman_table b))) n s
    = n + zlen (concat (map code_bits s))) as H by (by rewrite H, Z.add_0_l).
  induction s as [|b s IH]; intros n; simpl; [by rewrite Z.add_0_r|].
  rewrite IH, zlen_app. unfold code_bits at 2, zlen. rewrite length_bits.
  pose proof (code_len_bound b). lia.
Qed.

(** The length prefix is the number of bytes emitted. *)
Lemma huffman_encode_len s :
  zlen (_out (huffman_encode s)) =
  Z.shiftr (huffman_bit_len s) 3 + (if Z.land (huffman_bit_len s) 7 =? 0 then 0 else 1).
Proof.
  destruct (huffman_encode_bits s) as (k & Hk & H). apply (f_equal length) in H.
  rewrite length_flat_bytes, length_app, length_replicate in H.
  rewrite huffman_bit_len_bits. unfold zlen.
  change 7 with (Z.ones 3). rewrite Z.land_ones, Z.shiftr_div_pow2 by lia. change (2 ^ 3) with 8.
  set (n := length (string_bits s)) in *. set (m := length (_out (huffman_encode s))) in *.
  pose proof (Z.div_mod (Z.of_nat n) 8 ltac:(lia)). pose proof (Z.mod_pos_bound (Z.of_nat n) 8 ltac:(lia)).
  case_if; zbool; lia.
Qed.

(** Huffman coding round trip.  Decoding the bytes that the encoder emits
    for a byte string gives the string back, and the padding is accepted; the
    emitted bytes are as many as the rounded-up number of code bits, which is
    what [EncodeString] announces before it emits them. *)
Theorem huffman_roundtrip s :
  bytes_ok s ->
  huffman_decode (_out (huffman_encode s)) = Some s /\
  zlen (_out (huffman_encode s)) =
    Z.shiftr (huffman_bit_len s) 3 + (if Z.land (huffman_bit_len s) 7 =? 0 then 0 else 1).
Proof. intros Hs. split; [by apply huffman_decode_encode|apply huffman_encode_len]. Qed.

Lemma huffman_roundtrip_witness :
  _out (huffman_encode (bs "302")) = [0x64; 0x02] /\
  huffman_decode (_out (huffman_encode (bs "302"))) = Some (bs "302").
Proof.
  split; [vm_compute; reflexivity|]. apply huffman_roundtrip.
  repeat constructor; vm_compute; congruence.
Defined.
