(* ===== verification/HpackPrims.v ===== *)
(** * Primitive representations of HPACK: integers and strings

    [EncodeInteger], [DecodeInteger], [EncodeString] and [DecodeString] of
    [flare/rpc/details/hpack.cc].  An encoder returns the bytes it pushes to
    its [cord_buf_appender]; a decoder takes the bytes its
    [cord_buf_bytes_iterator] has left and returns, with its return code, the
    value it stores and the bytes left afterwards.  [DecodeInteger] shifts a
    64-bit word by an amount the peer controls: a shift by 64 or more is
    undefined in C++ and is the outcome [Undefined] here. *)

From S2P Require Import Prelude CharOps HpackTables Huffman.
Local Open Scope Z_scope.

(** ** Definitions *)

(** [for (; value >= 128; ++out_bytes)].  A [uint32_t] needs at most four
    rounds. *)
Fixpoint encode_int_loop (fuel : nat) (value : Z) : list Z :=
  match fuel with
  | O => [u8 value]
  | S fuel =>
      if 128 <=? value
      then u8 (Z.lor (Z.land value 127) 128) :: encode_int_loop fuel (Z.shiftr value 7)
      else [u8 value]
  end.

Definition EncodeInteger (msb prefix_size value : Z) : list Z :=
  let max_prefix_value := u8 (Z.shiftl 1 prefix_size - 1) in
  if value <? max_prefix_value then [u8 (Z.lor msb value)]
  else
    let value := value - max_prefix_value in
    let msb := u8 (Z.lor msb max_prefix_value) in
    msb :: encode_int_loop 5 value.

Definition MAX_HPACK_INTEGER : Z := 10 * 1024 * 1024.

(** The [do ... while] loop: return code, value, bytes left. *)
Fixpoint decode_int_loop (iter : list Z) (tmp m in_bytes : Z) : outcome (Z * Z * list Z) :=
  match iter with
  | [] => Ok (0, 0, [])
  | cur_byte :: iter =>
      if 64 <=? m then Undefined
      else
        let in_bytes := in_bytes + 1 in
        let tmp := u64 (tmp + u64 (Z.shiftl (Z.land cur_byte 127) m)) in
        if negb (Z.land cur_byte 128 =? 0) && (tmp <? MAX_HPACK_INTEGER)
        then decode_int_loop iter tmp (m + 7) in_bytes
        else if MAX_HPACK_INTEGER <=? tmp then Ok (-1, 0, iter)
        else Ok (in_bytes, u32 tmp, iter)
  end.

Definition DecodeInteger (iter : list Z) (prefix_size : Z) : outcome (Z * Z * list Z) :=
  match iter with
  | [] => Ok (0, 0, [])
  | first_byte :: iter =>
      let tmp := Z.land first_byte (Z.shiftl 1 prefix_size - 1) in
      if tmp <? u32 (Z.shiftl 1 prefix_size - 1) then Ok (1, u32 tmp, iter)
      else decode_int_loop iter tmp 0 1
  end.

(** [bit_len] of [EncodeString], a [uint32_t] sum. *)
Definition encoded_bit_len (s : list Z) : Z :=
  foldl (fun n b => u32 (n + bit_len (default (mk_code 0 0) (zget s_huffman_table b)))) 0 s.

Definition EncodeString (lowercase : bool) (s : list Z) (huffman_encoding : bool) : list Z :=
  let s' := if lowercase then map to_lower s else s in
  if negb huffman_encoding then EncodeInteger 0 7 (u32 (zlen s)) ++ s'
  else
    let bit_len := encoded_bit_len s' in
    EncodeInteger 128 7 (u32 (Z.shiftr bit_len 3 + (if Z.land bit_len 7 =? 0 then 0 else 1)))
    ++ _out (huffman_encode s').

(** [for (; iter != NULL && length; ++iter, --length)]: the decoder, unless a
    byte is refused, and the bytes left. *)
Fixpoint decode_string_loop (length : nat) (iter : list Z) (d : HuffmanDecoder) :
    option HuffmanDecoder * list Z :=
  match length, iter with
  | S length, b :: iter' =>
      match Decode s_huffman_tree b d with
      | None => (None, iter)
      | Some d => decode_string_loop length iter' d
      end
  | _, _ => (Some d, iter)
  end.

(** Return code, decoded string, bytes left. *)
Definition DecodeString (iter : list Z) : outcome (Z * list Z * list Z) :=
  match iter with
  | [] => Ok (0, [], [])
  | b :: _ =>
      let huffman := negb (Z.land b 128 =? 0) in
      '(in_bytes, length, iter) ← DecodeInteger iter 7;
      if in_bytes <=? 0 then Ok (-1, [], iter)
      else if zlen iter <? length then Ok (0, [], iter)
      else
        let in_bytes := in_bytes + length in
        if negb huffman then Ok (in_bytes, ztake length iter, zdrop length iter)
        else
          match decode_string_loop (Z.to_nat length) iter (new_decoder s_huffman_tree) with
          | (None, iter) => Ok (-1, [], iter)
          | (Some d, iter) =>
              if decoder_end d then Ok (in_bytes, d_out d, iter) else Ok (-1, [], iter)
          end
  end.

(** ** Integers *)

Lemma land_127 x : Z.land x 127 = x `mod` 128.
Proof. change 127 with (Z.ones 7). apply Z.land_ones. lia. Qed.

(** A continuation byte carries its seven bits and the flag. *)
Lemma continuation_byte v :
  let c := u8 (Z.lor (Z.land v 127) 128) in
  Z.land c 127 = v `mod` 128 /\ Z.land c 128 <> 0.
Proof.
  rewrite land_127. set (x := v `mod` 128). assert (0 <= x < 128) as Hx by (apply Z.mod_pos_bound; lia).
  pose proof (byte_check (fun x => implb (x <? 128)
    ((Z.land (u8 (Z.lor x 128)) 127 =? x) && negb (Z.land (u8 (Z.lor x 128)) 128 =? 0)))
    ltac:(vm_compute; reflexivity) x ltac:(lia)) as H.
  cbv beta in H. rewrite (proj2 (Z.ltb_lt x 128)) in H by lia. simpl in H. zbool. split; done.
Qed.

Lemma final_byte v : 0 <= v < 128 -> Z.land (u8 v) 127 = v /\ Z.land (u8 v) 128 = 0.
Proof.
  intros Hv. pose proof (byte_check (fun x => implb (x <? 128)
    ((Z.land (u8 x) 127 =? x) && (Z.land (u8 x) 128 =? 0)))
    ltac:(vm_compute; reflexivity) v ltac:(lia)) as H.
  cbv beta in H. rewrite (proj2 (Z.ltb_lt v 128)) in H by lia. simpl in H. zbool. split; done.
Qed.

Lemma decode_encode_int_loop fuel v tmp m n rest :
  0 <= v < 128 * 2 ^ (7 * Z.of_nat fuel) -> 0 <= tmp -> 0 <= m -> m + 7 * Z.of_nat fuel < 64 ->
  tmp + v * 2 ^ m < MAX_HPACK_INTEGER ->
  decode_int_loop (encode_int_loop fuel v ++ rest) tmp m n
  = Ok (n + zlen (encode_int_loop fuel v), tmp + v * 2 ^ m, rest).
Proof.
  unfold MAX_HPACK_INTEGER.
  revert v tmp m n. induction fuel as [|fuel IH]; intros v tmp m n Hv Ht Hm Hf Hmax;
    assert (0 < 2 ^ m) by (apply Z.pow_pos_nonneg; lia); cbn [encode_int_loop].
  2: destruct (128 <=? v) eqn:E; zbool.
  - simpl in Hv. destruct (final_byte v ltac:(lia)) as [H1 H2].
    cbn [app decode_int_loop]. decide_if. rewrite H1, H2. simpl.
    rewrite Z.shiftl_mul_pow2 by lia. rewrite (u64_small (v * 2 ^ m)), (u64_small (tmp + _)) by nia.
    unfold MAX_HPACK_INTEGER. decide_if. by rewrite u32_small by nia.
  - destruct (continuation_byte v) as [H1 H2].
    cbn [app decode_int_loop]. decide_if. rewrite H1, (proj2 (Z.eqb_neq _ 0) H2). cbn [negb andb].
    pose proof (Z.mod_pos_bound v 128 ltac:(lia)). pose proof (Z.div_mod v 128 ltac:(lia)).
    rewrite Z.shiftl_mul_pow2 by lia.
    rewrite (u64_small (v `mod` 128 * 2 ^ m)), (u64_small (tmp + _)) by nia.
    unfold MAX_HPACK_INTEGER. rewrite (proj2 (Z.ltb_lt _ _)) by nia.
    rewrite Z.shiftr_div_pow2 by lia. change (2 ^ 7) with 128.
    assert (2 ^ (m + 7) = 128 * 2 ^ m) as E7 by (rewrite Z.pow_add_r by lia; lia).
    rewrite IH; [|split; [apply Z.div_pos; lia|]|nia|lia|lia|].
    + rewrite zlen_cons, E7. apply ok3; [lia|nia|done].
    + apply Z.div_lt_upper_bound; [lia|].
      replace (7 * Z.of_nat (S fuel)) with (7 + 7 * Z.of_nat fuel) in Hv by lia.
      rewrite Z.pow_add_r in Hv by lia. lia.
    + rewrite E7. nia.
  - destruct (final_byte v ltac:(lia)) as [H1 H2].
    cbn [app decode_int_loop]. decide_if. rewrite H1, H2. simpl.
    rewrite Z.shiftl_mul_pow2 by lia. rewrite (u64_small (v * 2 ^ m)), (u64_small (tmp + _)) by nia.
    unfold MAX_HPACK_INTEGER. decide_if. by rewrite u32_small by nia.
Qed.

(** First byte of an encoded integer: flag bits above, prefix below. *)
Lemma prefix_byte msb p x :
  1 <= p <= 8 -> 0 <= msb < 256 -> msb `mod` 2 ^ p = 0 -> 0 <= x < 2 ^ p ->
  u8 (Z.lor msb x) = msb + x /\ Z.land (msb + x) (Z.shiftl 1 p - 1) = x.
Proof.
  intros Hp Hm H0 Hx. assert (2 ^ p <= 2 ^ 8) by (apply Z.pow_le_mono_r; lia).
  assert (Z.land msb x = 0) as Hl.
  { apply Z.bits_inj'. intros i Hi. rewrite Z.land_spec, Z.testbit_0_l.
    destruct (decide (i < p)).
    - rewrite <- (Z.mod_pow2_bits_low msb p) by lia. rewrite H0. by rewrite Z.testbit_0_l.
    - rewrite (testbit_small x p) by lia. apply andb_false_r. }
  assert (Z.lor msb x = msb + x) as E.
  { pose proof (Z.add_lor_land msb x). lia. }
  pose proof (Z.div_mod msb (2 ^ p) ltac:(lia)) as Hd. rewrite H0 in Hd.
  rewrite Z.shiftl_1_l. replace (2 ^ p - 1) with (Z.ones p) by (rewrite Z.ones_equiv; lia).
  rewrite Z.land_ones by lia. split.
  - rewrite E. apply u8_small. split; [lia|].
    assert (2 ^ 8 = 2 ^ p * 2 ^ (8 - p)) as E8 by (rewrite <- Z.pow_add_r by lia; f_equal; lia).
    assert (msb / 2 ^ p < 2 ^ (8 - p)) by (apply Z.div_lt_upper_bound; lia). nia.
  - rewrite Hd, Z.add_0_r, Z.mul_comm, Z.add_comm, Z_mod_plus_full. by apply Z.mod_small.
Qed.

Definition int_flags_ok (msb p : Z) : Prop :=
  1 <= p <= 8 /\ 0 <= msb < 256 /\ msb `mod` 2 ^ p = 0.

Lemma decode_encode_integer msb p v rest :
  int_flags_ok msb p -> 0 <= v < MAX_HPACK_INTEGER ->
  DecodeInteger (EncodeInteger msb p v ++ rest) p
  = Ok (zlen (EncodeInteger msb p v), v, rest).
Proof.
  intros (Hp & Hm & H0) Hv. unfold EncodeInteger.
  assert (2 ^ p <= 2 ^ 8) by (apply Z.pow_le_mono_r; lia).
  assert (2 ^ 1 <= 2 ^ p) by (apply Z.pow_le_mono_r; lia).
  assert (Z.shiftl 1 p - 1 = 2 ^ p - 1) as Es by (rewrite Z.shiftl_1_l; lia).
  rewrite Es, u8_small by lia. unfold MAX_HPACK_INTEGER in Hv.
  destruct (v <? 2 ^ p - 1) eqn:E; zbool.
  - destruct (prefix_byte msb p v Hp Hm H0 ltac:(lia)) as [Hb1 Hb2].
    cbn [app DecodeInteger]. rewrite Hb1, Hb2, Es, (u32_small (2 ^ p - 1)) by lia.
    decide_if. by rewrite u32_small by lia.
  - destruct (prefix_byte msb p (2 ^ p - 1) Hp Hm H0 ltac:(lia)) as [Hb1 Hb2].
    cbn [app DecodeInteger]. rewrite Hb1, Hb2, Es, (u32_small (2 ^ p - 1)) by lia.
    decide_if. rewrite decode_encode_int_loop.
    + rewrite zlen_cons. apply ok3; [lia|lia|done].
    + simpl Z.of_nat. change (2 ^ (7 * 5)) with 34359738368. lia.
    + lia.
    + lia.
    + lia.
    + unfold MAX_HPACK_INTEGER. lia.
Qed.

(** Past the limit the loop stops with the error code. *)
Lemma decode_large_int_loop fuel v tmp m n rest :
  0 <= v < 128 * 2 ^ (7 * Z.of_nat fuel) -> 0 <= tmp < MAX_HPACK_INTEGER -> 0 <= m ->
  m + 7 * Z.of_nat fuel < 64 ->
  MAX_HPACK_INTEGER <= tmp + v * 2 ^ m < 2 ^ 64 ->
  exists l, decode_int_loop (encode_int_loop fuel v ++ rest) tmp m n = Ok (-1, 0, l).
Proof.
  change (2 ^ 64) with 18446744073709551616.
  revert v tmp m n. induction fuel as [|fuel IH]; intros v tmp m n Hv Ht Hm Hf Hmax;
    assert (0 < 2 ^ m) by (apply Z.pow_pos_nonneg; lia); cbn [encode_int_loop].
  2: destruct (128 <=? v) eqn:E; zbool.
  - simpl in Hv. destruct (final_byte v ltac:(lia)) as [Hb1 Hb2].
    cbn [app decode_int_loop]. decide_if. rewrite Hb1, Hb2. simpl.
    rewrite Z.shiftl_mul_pow2 by lia. rewrite (u64_small (v * 2 ^ m)), (u64_small (tmp + _)) by nia.
    decide_if. by eexists.
  - destruct (continuation_byte v) as [Hb1 Hb2].
    cbn [app decode_int_loop]. decide_if. rewrite Hb1, (proj2 (Z.eqb_neq _ 0) Hb2). cbn [negb andb].
    pose proof (Z.mod_pos_bound v 128 ltac:(lia)). pose proof (Z.div_mod v 128 ltac:(lia)).
    rewrite Z.shiftl_mul_pow2 by lia.
    rewrite (u64_small (v `mod` 128 * 2 ^ m)), (u64_small (tmp + _)) by (unfold MAX_HPACK_INTEGER in *; nia).
    destruct (_ <? MAX_HPACK_INTEGER) eqn:El; zbool; [|decide_if; by eexists].
    rewrite Z.shiftr_div_pow2 by lia. change (2 ^ 7) with 128.
    assert (2 ^ (m + 7) = 128 * 2 ^ m) as E7 by (rewrite Z.pow_add_r by lia; lia).
    apply IH; [split; [apply Z.div_pos; lia|]|nia|lia|lia|rewrite E7; nia].
    apply Z.div_lt_upper_bound; [lia|].
    replace (7 * Z.of_nat (S fuel)) with (7 + 7 * Z.of_nat fuel) in Hv by lia.
    rewrite Z.pow_add_r in Hv by lia. lia.
  - destruct (final_byte v ltac:(lia)) as [Hb1 Hb2].
    cbn [app decode_int_loop]. decide_if. rewrite Hb1, Hb2. simpl.
    rewrite Z.shiftl_mul_pow2 by lia. rewrite (u64_small (v * 2 ^ m)), (u64_small (tmp + _)) by nia.
    decide_if. by eexists.
Qed.

Lemma decode_large_integer msb p v rest :
  int_flags_ok msb p -> MAX_HPACK_INTEGER <= v < 2 ^ 32 ->
  exists l, DecodeInteger (EncodeInteger msb p v ++ rest) p = Ok (-1, 0, l).
Proof.
  intros (Hp & Hm & H0) Hv. unfold EncodeInteger. change (2 ^ 32) with 4294967296 in Hv.
  assert (2 ^ p <= 2 ^ 8) by (apply Z.pow_le_mono_r; lia).
  assert (2 ^ 1 <= 2 ^ p) by (apply Z.pow_le_mono_r; lia).
  assert (Z.shiftl 1 p - 1 = 2 ^ p - 1) as Es by (rewrite Z.shiftl_1_l; lia).
  rewrite Es, u8_small by lia. unfold MAX_HPACK_INTEGER in Hv. decide_if.
  destruct (prefix_byte msb p (2 ^ p - 1) Hp Hm H0 ltac:(lia)) as [Hb1 Hb2].
  cbn [app DecodeInteger]. rewrite Hb1, Hb2, Es, (u32_small (2 ^ p - 1)) by lia. decide_if.
  apply decode_large_int_loop; unfold MAX_HPACK_INTEGER; lia.
Qed.

(** HPACK integers round trip.  For every prefix size and flag bits, an
    integer below the decoder's limit of 10 MB is decoded to itself, consuming
    exactly the bytes that were produced, whatever follows them; every other
    32-bit integer is refused with the error code. *)
Theorem hpack_integer_roundtrip msb p v rest :
  int_flags_ok msb p -> 0 <= v < 2 ^ 32 ->
  if v <? MAX_HPACK_INTEGER
  then DecodeInteger (EncodeInteger msb p v ++ rest) p = Ok (zlen (EncodeInteger msb p v), v, rest)
  else exists l, DecodeInteger (EncodeInteger msb p v ++ rest) p = Ok (-1, 0, l).
Proof.
  intros Hf Hv. case_if; zbool; [apply decode_encode_integer|apply decode_large_integer]; (done || lia).
Qed.

(** The encodings of RFC 7541, appendix C.1. *)
Lemma hpack_integer_roundtrip_witness :
  EncodeInteger 0 5 1337 = [31; 154; 10] /\
  DecodeInteger (EncodeInteger 0 5 1337 ++ [7]) 5 = Ok (3, 1337, [7]).
Proof.
  split; [reflexivity|]. apply (hpack_integer_roundtrip 0 5 1337 [7]).
  - repeat split; vm_compute; congruence.
  - split; vm_compute; congruence.
Defined.

(** Ten continuation bytes without payload drive the shift count past the
    width of the accumulator: the limit is tested on the value, not on the
    number of bytes. *)
Lemma hpack_integer_shift_overflow :
  DecodeInteger ([127] ++ replicate 11 128) 7 = Undefined.
Proof. reflexivity. Qed.

(** ** Strings *)

(** The Huffman flag is readable in the first byte of the length. *)
Lemma string_flag msb v :
  msb = 0 \/ msb = 128 -> 0 <= v ->
  exists b l, EncodeInteger msb 7 v = b :: l /\ negb (Z.land b 128 =? 0) = (msb =? 128).
Proof.
  intros Hm Hv. unfold EncodeInteger. change (u8 (Z.shiftl 1 7 - 1)) with 127.
  assert (forall x, 0 <= x < 128 -> negb (Z.land (u8 (Z.lor msb x)) 128 =? 0) = (msb =? 128)) as Hf.
  { intros x Hx. pose proof (byte_check (fun x => implb (x <? 128)
      (Bool.eqb (negb (Z.land (u8 (Z.lor 0 x)) 128 =? 0)) false &&
       Bool.eqb (negb (Z.land (u8 (Z.lor 128 x)) 128 =? 0)) true))
      ltac:(vm_compute; reflexivity) x ltac:(lia)) as H.
    cbv beta in H. rewrite (proj2 (Z.ltb_lt x 128)) in H by lia. cbn [implb] in H.
    apply andb_true_iff in H as [H1%eqb_prop H2%eqb_prop]. destruct Hm as [-> | ->]; [by rewrite H1|by rewrite H2]. }
  case_if; zbool; do 2 eexists; (split; [reflexivity|]); apply Hf; lia.
Qed.

(** [s] as the decoder returns it: names are lowered by the encoder. *)
Definition sent (lowercase : bool) (s : list Z) : list Z := if lowercase then tolower s else s.

(** The length that the encoding of [s] announces. *)
Definition announced (s : list Z) (huffman : bool) : Z :=
  if huffman then zlen (_out (huffman_encode s)) else zlen s.

Lemma encoded_bit_len_small s :
  zlen s < 134217728 -> encoded_bit_len s = huffman_bit_len s /\ 0 <= huffman_bit_len s <= 30 * zlen s.
Proof.
  unfold encoded_bit_len, huffman_bit_len.
  induction s as [|b s IH] using rev_ind; intros Hlen; [done|].
  rewrite zlen_app in *. change (zlen [b]) with 1 in *. rewrite !foldl_snoc.
  destruct IH as [-> Hb]; [lia|]. pose proof (code_len_bound b).
  split; [apply u32_small; lia|lia].
Qed.

(** A length prefix followed by its bytes: what [DecodeString] goes on with. *)
Lemma DecodeString_prefix msb l rest :
  msb = 0 \/ msb = 128 -> zlen l < MAX_HPACK_INTEGER ->
  DecodeString (EncodeInteger msb 7 (zlen l) ++ l ++ rest) =
  let n := zlen (EncodeInteger msb 7 (zlen l) ++ l) in
  if negb (msb =? 128) then Ok (n, l, rest)
  else
    match decode_string_loop (length l) (l ++ rest) (new_decoder s_huffman_tree) with
    | (None, iter) => Ok (-1, [], iter)
    | (Some d, iter) => if decoder_end d then Ok (n, d_out d, iter) else Ok (-1, [], iter)
    end.
Proof.
  intros Hm Hl. pose proof (zlen_nonneg l). pose proof (zlen_nonneg rest).
  pose proof (decode_encode_integer msb 7 (zlen l) (l ++ rest)) as Hi.
  destruct (string_flag msb (zlen l)) as (b & bl & Eb & Hf); [done|lia|].
  rewrite Eb in *. cbn [app DecodeString] in *.
  rewrite Hi; [|destruct Hm as [-> | ->]; repeat split; vm_compute; congruence|lia].
  unfold mbind, outcome_bind. rewrite Hf, zlen_cons. pose proof (zlen_nonneg bl). decide_if. rewrite zlen_app. decide_if.
  rewrite ztake_app_exact, zdrop_app_exact by done. rewrite zlen_cons, zlen_app.
  replace (zlen bl + 1 + zlen l) with (zlen bl + zlen l + 1) by lia.
  unfold zlen at 3. by rewrite Nat2Z.id.
Qed.

Lemma decode_string_loop_bytes l rest d d' :
  decode_bytes s_huffman_tree l d = Some d' ->
  decode_string_loop (length l) (l ++ rest) d = (Some d', rest).
Proof.
  revert d. induction l as [|b l IH]; intros d; simpl; [by intros [= ->]; destruct rest|].
  destruct (Decode _ _ _); [|done]. apply IH.
Qed.

Lemma DecodeString_encoded lowercase s huffman rest :
  bytes_ok s -> zlen s < 134217728 -> announced (sent lowercase s) huffman < MAX_HPACK_INTEGER ->
  DecodeString (EncodeString lowercase s huffman ++ rest)
  = Ok (zlen (EncodeString lowercase s huffman), sent lowercase s, rest).
Proof.
  intros Hs Hlen Hann. unfold EncodeString.
  assert ((if lowercase then map to_lower s else s) = sent lowercase s) as ->
    by (destruct lowercase; simpl; [by rewrite tolower_map|done]).
  set (s' := sent lowercase s) in *.
  assert (zlen s = zlen s') as Hlen' by (subst s'; destruct lowercase; simpl; by rewrite ?zlen_tolower).
  assert (bytes_ok s') as Hs' by (subst s'; destruct lowercase; simpl; auto using tolower_bytes).
  rewrite Hlen' in *. pose proof (zlen_nonneg s'). unfold announced in Hann.
  destruct huffman; cbn [negb].
  - destruct (encoded_bit_len_small s' ltac:(lia)) as [-> Hb].
    rewrite <- huffman_encode_len. set (h := _out (huffman_encode s')) in *.
    pose proof (zlen_nonneg h). unfold MAX_HPACK_INTEGER in Hann. rewrite u32_small by lia.
    rewrite <- app_assoc, DecodeString_prefix by (unfold MAX_HPACK_INTEGER; auto).
    pose proof (huffman_decode_encode s' Hs') as Hr. unfold huffman_decode in Hr. fold h in Hr.
    destruct (decode_bytes _ h _) as [d|] eqn:Ed; [|done].
    rewrite (decode_string_loop_bytes _ _ _ _ Ed). simpl.
    destruct (decoder_end d); [|done]. by injection Hr as ->.
  - unfold MAX_HPACK_INTEGER in Hann. rewrite u32_small by lia.
    rewrite <- app_assoc, DecodeString_prefix by (unfold MAX_HPACK_INTEGER; auto). done.
Qed.
