(* ===== verification/HpackIndexTable.v ===== *)
(** * [IndexTable] of [flare/rpc/details/hpack.cc]

    The dynamic (and static) table of HPACK: a bounded FIFO of headers, and
    for the encoder two hash tables from a header and from a name to the time
    the latest entry with it was added.  The queue is used through the
    interface [FifoQueue], the hash tables are the [FlatMap]s of the source.

    The abstract table is the list of entries of RFC 7541, newest first;
    [fit] is the eviction rule of its section 4.  [table_repr] relates the two
    and every operation is proved to keep it, including the cases in which a
    [FLARE_CHECK] stops the process. *)

From S2P Require Import Prelude BoundedQueue FlatMap CharOps HpackTables.
Local Open Scope Z_scope.

Record Header := mk_header { name : list Z; value : list Z }.

#[export] Instance Header_eq_dec : EqDecision Header.
Proof. solve_decision. Defined.

Definition HeaderHasher (h : Header) : Z :=
  u64 (CaseIgnoredHasher (name h) * 101 + DefaultHasher (value h)).

Definition HeaderEqualTo (h1 h2 : Header) : bool :=
  CaseIgnoredEqual (name h1) (name h2) && DefaultEqualTo (value h1) (value h2).

Definition name_key : KeyOps (list Z) := case_ignored_key.

Lemma HeaderEqualTo_true h1 h2 :
  HeaderEqualTo h1 h2 = true <->
  CaseIgnoredEqual (name h1) (name h2) = true /\ value h1 = value h2.
Proof. unfold HeaderEqualTo, DefaultEqualTo. by rewrite andb_true_iff, bool_decide_eq_true. Qed.

(** The pair of functors is a key discipline on names without a zero byte. *)
Program Definition header_key : KeyOps Header :=
  {| hashfn := HeaderHasher; eql := HeaderEqualTo; key_ok := fun h => no_nul (name h) |}.
Next Obligation. intros h. apply HeaderEqualTo_true. split; [apply (@eql_refl _ name_key)|done]. Qed.
Next Obligation.
  intros h1 h2. simpl. apply eq_true_iff_eq. rewrite !HeaderEqualTo_true.
  pose proof (@eql_sym _ name_key (name h1) (name h2)) as E. simpl in E. rewrite E. firstorder congruence.
Qed.
Next Obligation.
  intros h1 h2 h3. simpl. rewrite !HeaderEqualTo_true. intros [E1 ->] [E2 ->].
  split; [|done]. by apply (@eql_trans _ name_key (name h1) (name h2)).
Qed.
Next Obligation.
  intros h1 h2 O1 O2. simpl. rewrite HeaderEqualTo_true. intros [E1 E2]. unfold HeaderHasher.
  by rewrite E2, (CaseIgnoredHasher_eq (name h1) (name h2) O1 O2 E1).
Qed.
Next Obligation. intros h. apply u64_range. Qed.

Record IndexTable (Q : Type) := mk_table {
  _start_index : Z;
  _need_indexes : bool;
  _add_times : Z;
  _max_size : Z;
  _size : Z;
  _header_queue : Q;
  _header_index : FlatMap Header Z;
  _name_index : FlatMap (list Z) Z;
}.
Arguments mk_table {Q} _ _ _ _ _ _ _ _.
Arguments _start_index {Q} _.
Arguments _need_indexes {Q} _.
Arguments _add_times {Q} _.
Arguments _max_size {Q} _.
Arguments _size {Q} _.
Arguments _header_queue {Q} _.
Arguments _header_index {Q} _.
Arguments _name_index {Q} _.

(** Size of an entry, RFC 7541 section 4.1. *)
Definition HeaderSize (h : Header) : Z := u64 (zlen (name h) + zlen (value h) + 32).

Definition str_empty (s : list Z) : bool := match s with [] => true | _ :: _ => false end.

Section operations.
Context {Q : Type} `{FifoQueue Q Header}.
Implicit Types (t : IndexTable Q) (h : Header).

Definition set_indexes hi ni t : IndexTable Q :=
  mk_table (_start_index t) (_need_indexes t) (_add_times t) (_max_size t) (_size t)
    (_header_queue t) hi ni.

Definition set_queue q size times t : IndexTable Q :=
  mk_table (_start_index t) (_need_indexes t) times (_max_size t) size q
    (_header_index t) (_name_index t).

Definition set_max_size n t : IndexTable Q :=
  mk_table (_start_index t) (_need_indexes t) (_add_times t) n (_size t)
    (_header_queue t) (_header_index t) (_name_index t).

Definition HeaderAt (index : Z) t : option Header :=
  if index <? _start_index t then None
  else fq_bottom_at (index - _start_index t) (_header_queue t).

(** The sum is computed as [uint64_t] and returned as [int]. *)
Definition index_of_id (v : Z) t : Z :=
  s32 (u64 (_start_index t + u64 (_add_times t - v) - 1)).

(** The hash code that the argument carries is [HeaderHasher()(h)]. *)
Definition GetIndexOfHeader h t : Z :=
  match @seek _ _ header_key h (_header_index t) with
  | None => 0
  | Some v => index_of_id v t
  end.

Definition GetIndexOfName (n : list Z) t : Z :=
  match @seek _ _ name_key n (_name_index t) with
  | None => 0
  | Some v => index_of_id v t
  end.

Definition empty t : bool := _size t =? 0.
Definition start_index t : Z := _start_index t.
Definition end_index t : Z := s32 (start_index t + fq_size (_header_queue t)).

Definition RemoveHeaderFromIndexes h (expected_id : Z) t : outcome (IndexTable Q) :=
  hi ← (if negb (str_empty (value h)) then
          v ← deref (@seek _ _ header_key h (_header_index t));
          Ok (if v =? expected_id then snd (@erase _ _ header_key h (_header_index t))
              else _header_index t)
        else Ok (_header_index t));
  v ← deref (@seek _ _ name_key (name h) (_name_index t));
  let ni := if v =? expected_id then snd (@erase _ _ name_key (name h) (_name_index t))
            else _name_index t in
  Ok (set_indexes hi ni t).

Definition PopHeader t : outcome (IndexTable Q) :=
  h ← deref (fq_top (_header_queue t));
  let entry_size := HeaderSize h in
  let id := u64 (_add_times t - fq_size (_header_queue t)) in
  t ← (if _need_indexes t then RemoveHeaderFromIndexes h id t else Ok t);
  Ok (set_queue (snd (fq_pop (_header_queue t))) (u64 (_size t - entry_size)) (_add_times t) t).

(** [while (c(this)) PopHeader();] with at most [fuel] rounds. *)
Fixpoint pop_while (fuel : nat) (c : IndexTable Q -> bool) t : outcome (IndexTable Q) :=
  if c t then
    match fuel with
    | O => Undefined
    | S fuel => t ← PopHeader t; pop_while fuel c t
    end
  else Ok t.

(** One round per entry empties the queue. *)
Definition pops t : nat := Z.to_nat (fq_size (_header_queue t)).

Definition AddHeader h t : outcome (IndexTable Q) :=
  _ ← check (negb (str_empty (name h)));
  let entry_size := HeaderSize h in
  t ← pop_while (pops t) (fun t => negb (empty t) && (_max_size t <? u64 (_size t + entry_size))) t;
  if _max_size t <? entry_size then Ok t
  else
    _ ← check (negb (fq_full (_header_queue t)));
    let id := s32 (_add_times t) in
    let t := set_queue (snd (fq_push h (_header_queue t))) (u64 (_size t + entry_size))
               (u64 (_add_times t + 1)) t in
    if _need_indexes t then
      let hi := if negb (str_empty (value h))
                then @insert _ _ header_key 0 h (u64 id) (_header_index t) else _header_index t in
      Ok (set_indexes hi (@insert _ _ name_key 0 (name h) (u64 id) (_name_index t)) t)
    else Ok t.

Definition ResetMaxSize (new_max_size : Z) t : outcome (IndexTable Q) :=
  if _max_size t <? new_max_size then Ok (set_max_size new_max_size t)
  else if new_max_size <? _max_size t then
    let t := set_max_size new_max_size t in
    pop_while (pops t) (fun t => _max_size t <? _size t) t
  else Ok t.

End operations.

Record IndexTableOptions := mk_options {
  max_size : Z;
  start_index_opt : Z;
  static_table : list (list Z * list Z);
  need_indexes : bool;
}.

Definition sizeof_Header : Z := 64.

Definition uint_max : Z := 4294967295.

(** [Init] of a table just constructed; [None] is the return value -1. *)
Definition Init (options : IndexTableOptions) : outcome (option (IndexTable (bounded_queue Header))) :=
  let static_table_size := zlen (static_table options) in
  let num_headers := if 0 <? static_table_size then static_table_size else max_size options / (32 + 2) in
  let limit := if 0 <? static_table_size then uint_max else max_size options in
  let q := of_mem sizeof_Header (num_headers * sizeof_Header) OWNS_STORAGE in
  let t ni hi := mk_table (s32 (start_index_opt options)) (need_indexes options) 0 limit 0 q hi ni in
  let add_static t :=
    foldl (fun r hv => t ← r; AddHeader (mk_header (fst hv) (snd hv)) t) (Ok t)
      (reverse (static_table options)) in
  if need_indexes options then
    match init (num_headers * 2) 80 new_flatmap, init (num_headers * 2) 80 new_flatmap with
    | Some ni, Some hi => Some <$> add_static (t ni hi)
    | _, _ => Ok None
    end
  else Some <$> add_static (t new_flatmap new_flatmap).

(** ** The abstract table *)

Definition total (tbl : list Header) : Z := foldr (fun h n => HeaderSize h + n) 0 tbl.

(** The newest entries that fit in [budget]. *)
Fixpoint fit (budget : Z) (tbl : list Header) : list Header :=
  match tbl with
  | [] => []
  | h :: tbl => if HeaderSize h <=? budget then h :: fit (budget - HeaderSize h) tbl else []
  end.

(** RFC 7541 section 4.4: evict, then add unless the entry alone is too large. *)
Definition table_add (limit : Z) (h : Header) (tbl : list Header) : list Header :=
  if limit <? HeaderSize h then [] else h :: fit (limit - HeaderSize h) tbl.

(** What the decoder lets into its table ... *)
Definition entry_ok (h : Header) : Prop :=
  name h <> [] /\ zlen (name h) < 2 ^ 27 /\ zlen (value h) < 2 ^ 27.

(** ... and what the encoder is given: C++ strings of bytes, the name without
    a zero byte. *)
Definition header_ok (h : Header) : Prop :=
  entry_ok h /\ no_nul (name h) /\ bytes_ok (value h).

Lemma HeaderSize_nonneg h : 0 <= HeaderSize h.
Proof. apply u64_range. Qed.

Lemma HeaderSize_ok h : entry_ok h -> HeaderSize h = zlen (name h) + zlen (value h) + 32.
Proof.
  intros (_ & Hn & Hv). pose proof (zlen_nonneg (name h)). pose proof (zlen_nonneg (value h)).
  apply u64_small. lia.
Qed.

Lemma HeaderSize_bounds h : entry_ok h -> 33 <= HeaderSize h <= 2 ^ 28 + 32.
Proof.
  intros Hok. rewrite HeaderSize_ok by done. destruct Hok as (Hne & Hn & Hv).
  pose proof (zlen_nonneg (value h)). destruct (name h) as [|c n]; [done|].
  rewrite zlen_cons in *. pose proof (zlen_nonneg n). lia.
Qed.

Lemma total_app l1 l2 : total (l1 ++ l2) = total l1 + total l2.
Proof. induction l1 as [|h l1 IH]; simpl; [done|]. rewrite IH. lia. Qed.

Lemma total_nonneg tbl : 0 <= total tbl.
Proof. induction tbl as [|h tbl IH]; simpl; [lia|]. pose proof (HeaderSize_nonneg h). lia. Qed.

Lemma total_bounds tbl : Forall entry_ok tbl -> 33 * zlen tbl <= total tbl <= (2 ^ 28 + 32) * zlen tbl.
Proof.
  induction 1 as [|h tbl Hh _ IH]; [done|]. apply HeaderSize_bounds in Hh.
  rewrite zlen_cons. simpl. lia.
Qed.

Lemma fit_all budget tbl : total tbl <= budget -> fit budget tbl = tbl.
Proof.
  revert budget. induction tbl as [|h tbl IH]; intros budget Hb; [done|]. simpl in *.
  pose proof (total_nonneg tbl). decide_if. by rewrite IH by lia.
Qed.

Lemma fit_snoc budget tbl h : budget < total (tbl ++ [h]) -> fit budget (tbl ++ [h]) = fit budget tbl.
Proof.
  revert budget. induction tbl as [|h' tbl IH]; intros budget Hb; simpl in *.
  - by decide_if.
  - case_if; [|done]. by rewrite IH by lia.
Qed.

Lemma fit_total budget tbl : 0 <= budget -> total (fit budget tbl) <= budget.
Proof.
  revert budget. induction tbl as [|h tbl IH]; intros budget Hb; simpl; [done|].
  case_if; zbool; simpl; [|done]. specialize (IH (budget - HeaderSize h)). lia.
Qed.

Lemma fit_prefix budget tbl : exists l, tbl = fit budget tbl ++ l.
Proof.
  revert budget. induction tbl as [|h tbl IH]; intros budget; simpl; [by exists []|].
  case_if; [|by exists (h :: tbl)]. destruct (IH (budget - HeaderSize h)) as [l E].
  exists l. simpl. by f_equal.
Qed.

Lemma fit_negative budget tbl : budget < 0 -> fit budget tbl = [].
Proof. intros Hb. destruct tbl as [|h tbl]; [done|]. simpl. pose proof (HeaderSize_nonneg h). by decide_if. Qed.

Lemma Forall_fit (P : Header -> Prop) budget tbl : Forall P tbl -> Forall P (fit budget tbl).
Proof. intros Hf. destruct (fit_prefix budget tbl) as [l E]. rewrite E in Hf. by apply Forall_app in Hf as [? _]. Qed.

(** ** Indexes of the latest entry *)

Section latest.
Context {K : Type} `{KeyOps K} (live : Header -> bool) (key : Header -> K).

Definition indexed (k : K) (h : Header) : bool := live h && eql (key h) k.

(** [m] maps the key of every live entry to the time the newest entry with
    that key was added. *)
Definition latest (m : FlatMap K Z) (times : Z) (tbl : list Header) : Prop :=
  fm_wf m /\ FlatMap._size m <= times /\
  forall k, key_ok k -> seek k m = (fun i => times - 1 - i) <$> find_index (indexed k) tbl.

Lemma latest_pop_dead m times tbl h :
  live h = false -> latest m times (tbl ++ [h]) -> latest m times tbl.
Proof.
  intros Hl (Hw & Hs & Hk). split_and!; [done..|]. intros k Hok. rewrite Hk, find_index_app by done.
  cbn [find_index]. change (indexed k h) with (live h && eql (key h) k). rewrite Hl.
  by destruct (find_index (indexed k) tbl).
Qed.

Lemma indexed_eql k1 k2 h : eql k1 k2 = true -> indexed k1 h = indexed k2 h.
Proof.
  intros E. unfold indexed. f_equal. apply eq_true_iff_eq.
  assert (eql k2 k1 = true) by (by rewrite eql_sym). split; intros; by eapply eql_trans.
Qed.

Lemma latest_pop m times tbl h :
  live h = true -> key_ok (key h) -> times < 2 ^ 50 -> latest m times (tbl ++ [h]) ->
  exists v, seek (key h) m = Some v /\
    latest (if v =? times - 1 - zlen tbl then snd (erase (key h) m) else m) times tbl.
Proof.
  intros Hl Hok Ht (Hw & Hs & Hk). pose proof (Hk _ Hok) as Hv.
  assert (forall k, find_index (indexed k) (tbl ++ [h]) = match find_index (indexed k) tbl with
    | Some i => Some i | None => if eql (key h) k then Some (zlen tbl) else None end) as Hsnoc.
  { intros k. rewrite find_index_app. cbn [find_index].
    change (indexed k h) with (live h && eql (key h) k). rewrite Hl. cbn [andb].
    by destruct (find_index (indexed k) tbl), (eql (key h) k). }
  rewrite Hsnoc, eql_refl in Hv.
  destruct (find_index (indexed (key h)) tbl) as [i|] eqn:Ei; eexists; (split; [exact Hv|]).
  - apply find_index_range in Ei as Hi. decide_if. split_and!; [done..|]. intros k Hok'.
    rewrite Hk, Hsnoc by done. destruct (find_index (indexed k) tbl) eqn:Ej; [done|].
    destruct (eql (key h) k) eqn:E; [|done].
    rewrite (find_index_ext _ (indexed (key h))) in Ej; [congruence|].
    intros h' _. symmetry. by apply indexed_eql.
  - decide_if. pose proof (erase_spec (key h) m Hw Hok) as He.
    destruct (erase (key h) m) as [[n old] m']. simpl.
    destruct He as (Hw' & _ & Hn & Hsz & Hseek); [lia|]. rewrite Hv in Hn. simpl in Hn.
    split_and!; [done|lia|]. intros k Hok'. rewrite Hseek, Hk, Hsnoc by done.
    destruct (eql (key h) k) eqn:E; [|by destruct (find_index (indexed k) tbl)].
    rewrite (find_index_ext _ (indexed (key h))), Ei; [done|].
    intros h' _. symmetry. by apply indexed_eql.
Qed.

Lemma latest_add_dead m times tbl h :
  live h = false -> latest m times tbl -> latest m (times + 1) (h :: tbl).
Proof.
  intros Hl (Hw & Hs & Hk). split_and!; [done|lia|]. intros k Hok. rewrite Hk by done.
  cbn [find_index]. change (indexed k h) with (live h && eql (key h) k). rewrite Hl.
  destruct (find_index (indexed k) tbl); [|done]. simpl. f_equal. lia.
Qed.

Lemma latest_add m times tbl h :
  live h = true -> key_ok (key h) -> times < 2 ^ 50 -> latest m times tbl ->
  latest (insert 0 (key h) times m) (times + 1) (h :: tbl).
Proof.
  intros Hl Hok Ht (Hw & Hs & Hk).
  destruct (insert_spec 0 (key h) times m Hw Hok) as (Hw' & Hseek & Hsz); [lia|].
  split_and!; [done|case_match; lia|]. intros k Hok'. rewrite Hseek by done.
  cbn [find_index]. change (indexed k h) with (live h && eql (key h) k). rewrite Hl. cbn [andb].
  destruct (eql (key h) k); [simpl; f_equal; lia|].
  rewrite Hk by done. destruct (find_index _ tbl); [|done]. simpl. f_equal. lia.
Qed.

Lemma latest_init nbucket m :
  1 <= nbucket <= 2 ^ 56 -> init nbucket 80 new_flatmap = Some m -> latest m 0 [].
Proof.
  intros Hn Hi. destruct (init_wf nbucket 80 (@new_flatmap K Z)) as (m' & E & Hw & Hs & _ & Hk); [lia..|done|].
  assert (m' = m) as -> by congruence. split_and!; [done|lia|]. intros k _. by rewrite Hk.
Qed.

End latest.

(** ** The representation *)

Section table.
Context {Q : Type} `{FifoQueue Q Header}.
Implicit Types (t : IndexTable Q) (h : Header) (tbl : list Header).

Definition has_value h : bool := negb (str_empty (value h)).

Definition indexes_ok t tbl : Prop :=
  Forall (fun h => no_nul (name h)) tbl /\
  @latest _ header_key has_value id (_header_index t) (_add_times t) tbl /\
  @latest _ name_key (fun _ => true) name (_name_index t) (_add_times t) tbl.

(** [t] stores the entries [tbl]; its size may exceed the limit while the
    limit is being lowered. *)
Definition table_inv t tbl : Prop :=
  fq_repr (_header_queue t) (reverse tbl) /\ fq_cap (_header_queue t) <= 2 ^ 23 /\
  Forall entry_ok tbl /\ _size t = total tbl /\ 0 <= _max_size t < 2 ^ 60 /\
  0 <= _start_index t < 2 ^ 20 /\ zlen tbl <= _add_times t <= 2 ^ 31 /\
  (_need_indexes t = true -> indexes_ok t tbl).

Definition table_repr t tbl : Prop := table_inv t tbl /\ total tbl <= _max_size t.

(** What the operations on entries leave alone. *)
Definition same_params t t' : Prop :=
  _start_index t' = _start_index t /\ _need_indexes t' = _need_indexes t /\
  _max_size t' = _max_size t /\ fq_cap (_header_queue t') = fq_cap (_header_queue t).

Lemma table_len t tbl : table_inv t tbl -> zlen tbl <= fq_cap (_header_queue t).
Proof.
  intros (Hq & _). apply fq_cap_spec in Hq. unfold zlen in *. by rewrite length_reverse in Hq.
Qed.

Lemma table_total t tbl : table_inv t tbl -> 0 <= total tbl < 2 ^ 60.
Proof.
  intros Hi. apply table_len in Hi as Hl. destruct Hi as (_ & Hc & Hf & _). apply total_bounds in Hf.
  pose proof (zlen_nonneg tbl). lia.
Qed.

Lemma RemoveHeaderFromIndexes_spec t tbl h :
  _add_times t <= 2 ^ 31 -> indexes_ok t (tbl ++ [h]) ->
  exists hi ni, RemoveHeaderFromIndexes h (_add_times t - 1 - zlen tbl) t = Ok (set_indexes hi ni t) /\
    indexes_ok (set_indexes hi ni t) tbl.
Proof.
  intros Ht (Hall & Hh & Hnm). unfold RemoveHeaderFromIndexes.
  apply Forall_app in Hall as [Hall Hn]. apply Forall_cons_1 in Hn as [Hn _].
  assert (_add_times t < 2 ^ 50) as Ht' by lia.
  destruct (@latest_pop _ name_key (fun _ => true) name _ _ tbl h eq_refl Hn Ht' Hnm) as (v & Ev & Hv).
  destruct (has_value h) eqn:El; unfold has_value in El; rewrite El.
  - destruct (@latest_pop _ header_key has_value id _ _ tbl h El Hn Ht' Hh) as (v' & Ev' & Hv').
    unfold id in Ev'. rewrite Ev'. simpl. rewrite Ev. simpl. do 2 eexists. split; [done|]. split; [done|]. by split.
  - simpl. rewrite Ev. simpl. do 2 eexists. split; [done|]. split; [done|]. split; [|done].
    by apply (@latest_pop_dead _ header_key _ _ _ _ _ h).
Qed.

Lemma PopHeader_spec t tbl h :
  table_inv t (tbl ++ [h]) ->
  exists t', PopHeader t = Ok t' /\ table_inv t' tbl /\ same_params t t' /\ _add_times t' = _add_times t.
Proof.
  intros Hinv. pose proof (table_total _ _ Hinv) as Htot.
  destruct Hinv as (Hq & Hc & Hf & Hs & Hm & Hst & Ht & Hi).
  apply Forall_app in Hf as [Hf Hh]. apply Forall_cons_1 in Hh as [Hh _].
  rewrite reverse_app in Hq. simpl in Hq. rewrite total_app in *. simpl in *. rewrite Z.add_0_r in *.
  rewrite zlen_app in Ht. change (zlen [h]) with 1 in Ht. pose proof (HeaderSize_nonneg h). pose proof (total_nonneg tbl).
  pose proof (zlen_nonneg tbl).
  unfold PopHeader. rewrite (fq_top_spec _ _ Hq), (fq_size_spec _ _ Hq). simpl.
  rewrite zlen_cons. unfold zlen. rewrite length_reverse. fold (zlen tbl).
  destruct (fq_pop_spec _ _ Hq) as (_ & Hp & Hpc); [done|]. simpl in Hp.
  assert (0 <= _add_times t - (zlen tbl + 1) < 18446744073709551616) by lia.
  assert (forall hi ni, let t' := set_queue (snd (fq_pop (_header_queue t)))
      (u64 (_size t - HeaderSize h)) (_add_times t) (set_indexes hi ni t) in
    (_need_indexes t = true -> indexes_ok (set_indexes hi ni t) tbl) ->
    table_inv t' tbl /\ same_params t t') as Hdone.
  { intros hi ni t' Hidx. split; [|done]. subst t'.
    split_and!; simpl; [done|by rewrite Hpc|done|rewrite u64_small; lia|lia..|done]. }
  destruct (_need_indexes t) eqn:En.
  - destruct (RemoveHeaderFromIndexes_spec t tbl h) as (hi & ni & E & Hidx); [lia|by apply Hi|].
    rewrite u64_small by lia. replace (_add_times t - (zlen tbl + 1)) with (_add_times t - 1 - zlen tbl) by lia.
    rewrite E. eexists. split; [done|]. destruct (Hdone hi ni) as [? ?]; [done|]. done.
  - eexists. split; [done|]. destruct (Hdone (_header_index t) (_name_index t)) as [? ?]; [done|].
    by destruct t.
Qed.

Lemma same_params_trans t1 t2 t3 : same_params t1 t2 -> same_params t2 t3 -> same_params t1 t3.
Proof. unfold same_params. intuition congruence. Qed.

(** Popping while the entries exceed a budget leaves the ones that fit. *)
Lemma pop_while_spec budget c fuel t tbl :
  (length tbl <= fuel)%nat -> table_inv t tbl ->
  (forall t' tbl', same_params t t' -> table_inv t' tbl' ->
     c t' = negb (bool_decide (tbl' = [])) && (budget <? total tbl')) ->
  exists t', pop_while fuel c t = Ok t' /\ table_inv t' (fit budget tbl) /\ same_params t t' /\
    _add_times t' = _add_times t.
Proof.
  revert t tbl. induction fuel as [|fuel IH]; intros t tbl Hl Hinv Hc; simpl;
    rewrite (Hc t tbl) by done;
    (destruct tbl as [|h tbl _] using rev_ind; [simpl; by exists t|]);
    rewrite length_app in Hl; simpl in Hl; [lia|].
  rewrite bool_decide_eq_false_2 by (by destruct tbl). simpl. case_if; zbool.
  - destruct (PopHeader_spec t tbl h Hinv) as (t1 & -> & Hinv1 & Hsp & Ht). simpl.
    destruct (IH t1 tbl) as (t' & -> & Hinv' & Hsp' & Ht'); [lia|done| |].
    + intros t2 tbl2 Hsp2. apply Hc. by apply (same_params_trans _ t1).
    + exists t'. rewrite fit_snoc by done. split_and!; [done..| |congruence]. by apply (same_params_trans _ t1).
  - exists t. by rewrite fit_all.
Qed.

Lemma pops_length t tbl : table_inv t tbl -> pops t = length tbl.
Proof.
  intros (Hq & _). unfold pops. rewrite (fq_size_spec _ _ Hq). unfold zlen.
  by rewrite length_reverse, Nat2Z.id.
Qed.

(** Behaviour of [AddHeader] on every branch. *)
Lemma AddHeader_spec t tbl h :
  table_repr t tbl -> entry_ok h -> (_need_indexes t = true -> no_nul (name h)) ->
  _add_times t < 2 ^ 31 ->
  (if negb (_max_size t <? HeaderSize h)
      && (zlen (fit (_max_size t - HeaderSize h) tbl) =? fq_cap (_header_queue t))
   then AddHeader h t = Abort
   else exists t', AddHeader h t = Ok t' /\ table_repr t' (table_add (_max_size t) h tbl) /\
     same_params t t' /\ _add_times t <= _add_times t' <= _add_times t + 1).
Proof.
  intros [Hinv Htot] Hh Hnul Ht. unfold AddHeader.
  assert (str_empty (name h) = false) as -> by (destruct Hh as [Hne _]; by destruct (name h)).
  simpl. pose proof (HeaderSize_bounds h Hh) as Hhs. set (es := HeaderSize h) in *.
  destruct (pop_while_spec (_max_size t - es) (fun t0 => negb (empty t0) && (_max_size t0 <? u64 (_size t0 + es)))
    (pops t) t tbl) as (t1 & -> & Hinv1 & Hsp & Ht1); [by rewrite (pops_length t tbl)|done| |].
  { intros t' tbl' (_ & _ & Hm & _) Hinv'. pose proof (table_total _ _ Hinv').
    destruct Hinv' as (_ & _ & Hf & Hs & _). rewrite Hm, Hs, u64_small by lia. unfold empty. rewrite Hs.
    destruct tbl' as [|h' tbl']; [done|]. apply total_bounds in Hf. rewrite zlen_cons in Hf.
    pose proof (zlen_nonneg tbl'). rewrite (proj2 (Z.eqb_neq _ 0)) by lia. simpl. apply eq_true_iff_eq. rewrite !Z.ltb_lt. simpl in *. lia. }
  simpl. destruct Hsp as (Hsp1 & Hsp2 & Hsp3 & Hsp4). rewrite Hsp3. unfold table_add. fold es.
  destruct (_max_size t <? es) eqn:Ebig; zbool; simpl.
  - rewrite fit_negative in Hinv1 by lia. exists t1. split; [done|].
    assert (0 <= _max_size t1) by (destruct Hinv1 as (_ & _ & _ & _ & ? & _); lia).
    split; [by split|]. split; [done|lia].
  - destruct Hinv1 as (Hq & Hcap & Hf & Hs & Hm & Hst & Hat & Hi).
    set (tb := fit (_max_size t - es) tbl) in *.
    assert (zlen (reverse tb) = zlen tb) as Hrl by (unfold zlen; by rewrite length_reverse).
    rewrite (fq_full_spec _ _ Hq), Hsp4, Hrl, (Z.eqb_sym (fq_cap _)).
    case_if; [done|]. simpl. zbool.
    pose proof (fq_cap_spec _ _ Hq) as Hle. pose proof (zlen_nonneg tb) as Hnn.
    destruct (fq_push_spec (_header_queue t1) (reverse tb) h Hq) as (_ & Hp & Hpc); [lia|].
    pose proof (fit_total (_max_size t - es) tbl ltac:(lia)) as Hft. fold tb in Hft.
    pose proof (total_nonneg tb).
    rewrite s32_small, !(u64_small (_add_times t1)), (u64_small (_add_times t1 + 1)), Hs, u64_small by lia.
    assert (forall hi ni, let t' := set_indexes hi ni
         (set_queue (snd (fq_push h (_header_queue t1))) (total tb + es) (_add_times t1 + 1) t1) in
       (_need_indexes t1 = true -> indexes_ok t' (h :: tb)) ->
       table_repr t' (h :: tb) /\ same_params t t' /\ _add_times t <= _add_times t' <= _add_times t + 1) as Hdone.
    { intros hi ni t' Hidx. subst t'. unfold table_repr, table_inv, same_params; cbn [total foldr].
      rewrite zlen_cons, reverse_cons. fold (total tb). fold es. simpl.
      split_and!; try lia; try done; try congruence. by constructor. }
    destruct (_need_indexes t1) eqn:En; simpl.
    + eexists. split; [done|]. apply Hdone. intros _. destruct (Hi eq_refl) as (Hall & Hhi & Hni).
      assert (_add_times t1 < 2 ^ 50) as Ht' by lia. specialize (Hnul ltac:(congruence)).
      split; [by constructor|]. split; simpl.
      * destruct (str_empty (value h)) eqn:Ev; simpl.
        -- apply (@latest_add_dead _ header_key); [|done]. unfold has_value. by rewrite Ev.
        -- apply (@latest_add _ header_key has_value id); [|done..]. unfold has_value. by rewrite Ev.
      * by apply (@latest_add _ name_key (fun _ => true) name).
    + eexists. split; [done|]. by apply (Hdone (_header_index t1) (_name_index t1)).
Qed.

Lemma ResetMaxSize_spec t tbl n :
  table_repr t tbl -> 0 <= n < 2 ^ 60 ->
  exists t', ResetMaxSize n t = Ok t' /\ table_repr t' (fit n tbl) /\ _max_size t' = n /\
    _start_index t' = _start_index t /\ _need_indexes t' = _need_indexes t /\
    fq_cap (_header_queue t') = fq_cap (_header_queue t) /\ _add_times t' = _add_times t.
Proof.
  intros [Hinv Htot] Hn. unfold ResetMaxSize.
  assert (table_inv (set_max_size n t) tbl) as Hset.
  { unfold table_inv, indexes_ok in *. simpl. intuition lia. }
  case_if; zbool; [|case_if; zbool].
  - eexists. split; [done|]. rewrite fit_all by lia. split_and!; try done. split; [done|]. simpl. lia.
  - destruct (pop_while_spec n (fun t => _max_size t <? _size t) (pops (set_max_size n t)) (set_max_size n t) tbl)
      as (t1 & E & Hinv1 & (H1 & H2 & H3 & H4) & H5); [by rewrite (pops_length _ tbl)|done| |].
    { intros t' tbl' (_ & _ & Hm & _) (_ & _ & _ & Hs & _). simpl in Hm. rewrite Hm, Hs.
      destruct tbl'; [apply Z.ltb_ge; simpl; lia|done]. }
    exists t1. simpl in *. split_and!; try done. split; [done|]. rewrite H3. apply fit_total. lia.
  - assert (n = _max_size t) as -> by lia. exists t. by rewrite fit_all.
Qed.

(** ** Lookups *)

Lemma HeaderAt_spec t tbl i :
  table_inv t tbl -> HeaderAt i t = if i <? _start_index t then None else zget tbl (i - _start_index t).
Proof.
  intros (Hq & _). unfold HeaderAt. case_if; zbool; [done|].
  rewrite (fq_bottom_at_spec _ _ _ Hq), reverse_involutive by lia. done.
Qed.

Lemma index_of_id_spec t tbl i :
  table_inv t tbl -> 0 <= i < zlen tbl -> index_of_id (_add_times t - 1 - i) t = _start_index t + i.
Proof.
  intros Hinv Hi. apply table_len in Hinv as Hlen.
  destruct Hinv as (_ & Hcap & _ & _ & _ & Hst & Hat & _). unfold index_of_id.
  rewrite (u64_small (_add_times t - _)), u64_small, s32_small by lia. lia.
Qed.

Definition same_name (n : list Z) h : bool := CaseIgnoredEqual (name h) n.
Definition same_header h h' : bool := has_value h' && HeaderEqualTo h' h.

Definition index_in t tbl (P : Header -> bool) : Z :=
  match find_index P tbl with Some i => _start_index t + i | None => 0 end.

Lemma GetIndexOfName_spec t tbl n :
  table_inv t tbl -> _need_indexes t = true -> no_nul n ->
  GetIndexOfName n t = index_in t tbl (same_name n).
Proof.
  intros Hinv Hn Hok. unfold GetIndexOfName, index_in.
  destruct Hinv as (?&?&?&?&?&?&?& Hi) eqn:Ei. destruct (Hi Hn) as (_ & _ & (_ & _ & Hs)).
  rewrite Hs by done. change (find_index (indexed _ _ n) tbl) with (find_index (same_name n) tbl).
  destruct (find_index (same_name n) tbl) as [i|] eqn:E; [|done]. simpl.
  apply (index_of_id_spec _ tbl); [done|by apply find_index_range in E].
Qed.

Lemma GetIndexOfHeader_spec t tbl h :
  table_inv t tbl -> _need_indexes t = true -> no_nul (name h) ->
  GetIndexOfHeader h t = index_in t tbl (same_header h).
Proof.
  intros Hinv Hn Hok. unfold GetIndexOfHeader, index_in.
  destruct Hinv as (?&?&?&?&?&?&?& Hi) eqn:Ei. destruct (Hi Hn) as (_ & (_ & _ & Hs) & _).
  rewrite Hs by done. change (find_index (indexed _ _ h) tbl) with (find_index (same_header h) tbl).
  destruct (find_index (same_header h) tbl) as [i|] eqn:E; [|done]. simpl.
  apply (index_of_id_spec _ tbl); [done|by apply find_index_range in E].
Qed.

(** An index that a lookup returns designates an entry that matches. *)
Lemma index_in_found t tbl P :
  table_inv t tbl -> 0 < _start_index t -> 0 < index_in t tbl P ->
  exists h, HeaderAt (index_in t tbl P) t = Some h /\ P h = true /\ h ∈ tbl /\
    _start_index t <= index_in t tbl P < _start_index t + zlen tbl.
Proof.
  intros Hinv Hst. unfold index_in. destruct (find_index P tbl) as [i|] eqn:E; [|lia]. intros _.
  apply find_index_range in E as Hi. apply find_index_get in E as (h & Hg & Hp). exists h.
  rewrite (HeaderAt_spec _ tbl) by done. decide_if. replace (_start_index t + i - _start_index t) with i by lia.
  split_and!; try done; [|lia..]. unfold zget in Hg. case_if_in Hg; [done|]. by eapply list_elem_of_lookup_2.
Qed.

(** ** Sequences of operations *)

Inductive table_op :=
| OpAdd (h : Header)
| OpResize (n : Z).

Definition table_op_ok (o : table_op) : Prop :=
  match o with OpAdd h => header_ok h | OpResize n => 0 <= n < 2 ^ 60 end.

Definition exec_table (o : table_op) t : outcome (IndexTable Q) :=
  match o with OpAdd h => AddHeader h t | OpResize n => ResetMaxSize n t end.

Definition run_table (ops : list table_op) t : outcome (IndexTable Q) :=
  foldl (fun r o => t ← r; exec_table o t) (Ok t) ops.

(** The table of the RFC: its limit and its entries. *)
Definition rfc_op (o : table_op) (st : Z * list Header) : Z * list Header :=
  match o with OpAdd h => (st.1, table_add st.1 h st.2) | OpResize n => (n, fit n st.2) end.

Definition rfc_run (ops : list table_op) (st : Z * list Header) : Z * list Header := foldl (fun st o => rfc_op o st) st ops.

(** At some point the RFC keeps more than [cap] entries. *)
Fixpoint out_of_slots (cap : Z) (ops : list table_op) (st : Z * list Header) : bool :=
  match ops with
  | [] => false
  | o :: ops => (cap <? zlen (rfc_op o st).2) || out_of_slots cap ops (rfc_op o st)
  end.

(** Both at once: [None] when an entry that the size limit admits finds no
    slot. *)
Definition exec_rfc (cap : Z) (o : table_op) (st : Z * list Header) : option (Z * list Header) :=
  let '(limit, tbl) := st in
  match o with
  | OpAdd h =>
      if negb (limit <? HeaderSize h) && (zlen (fit (limit - HeaderSize h) tbl) =? cap) then None
      else Some (limit, table_add limit h tbl)
  | OpResize n => Some (n, fit n tbl)
  end.

Definition run_rfc (cap : Z) (ops : list table_op) (st : Z * list Header) : option (Z * list Header) :=
  foldl (fun r o => st ← r; exec_rfc cap o st) (Some st) ops.

Lemma run_table_abort ops : foldl (fun r o => t ← r; exec_table o t) Abort ops = Abort.
Proof. induction ops as [|o ops IH]; [done|]. apply IH. Qed.

Lemma run_rfc_none cap ops : foldl (fun r o => st ← r; exec_rfc cap o st) None ops = None.
Proof. induction ops as [|o ops IH]; [done|]. apply IH. Qed.

Lemma zlen_fit budget tbl : zlen (fit budget tbl) <= zlen tbl.
Proof. destruct (fit_prefix budget tbl) as [l E]. rewrite E at 2. rewrite zlen_app. pose proof (zlen_nonneg l). lia. Qed.

Lemma exec_rfc_slots cap o limit tbl : zlen tbl <= cap ->
  exec_rfc cap o (limit, tbl) = if cap <? zlen (rfc_op o (limit, tbl)).2 then None else Some (rfc_op o (limit, tbl)).
Proof.
  intros Hc. destruct o as [h|n]; cbn [exec_rfc rfc_op fst snd].
  - unfold table_add. destruct (limit <? HeaderSize h); cbn [negb andb].
    + pose proof (zlen_nonneg tbl). change (zlen []) with 0. by decide_if.
    + pose proof (zlen_fit (limit - HeaderSize h) tbl). rewrite zlen_cons. repeat case_if; zbool; (done || lia).
  - pose proof (zlen_fit n tbl). by decide_if.
Qed.

Lemma run_rfc_slots cap ops : forall limit tbl, zlen tbl <= cap ->
  run_rfc cap ops (limit, tbl) = if out_of_slots cap ops (limit, tbl) then None else Some (rfc_run ops (limit, tbl)).
Proof.
  unfold run_rfc, rfc_run. induction ops as [|o ops IH]; intros limit tbl Hc; cbn [foldl out_of_slots]; [done|].
  change (Some (limit, tbl) ≫= fun st => exec_rfc cap o st) with (exec_rfc cap o (limit, tbl)). rewrite exec_rfc_slots by done.
  destruct (rfc_op o (limit, tbl)) as [limit' tbl']. cbn [snd]. case_if; zbool; cbn [orb]; [by rewrite run_rfc_none|]. by apply IH.
Qed.

Lemma exec_table_spec t tbl o :
  table_repr t tbl -> table_op_ok o -> _add_times t < 2 ^ 31 ->
  match exec_rfc (fq_cap (_header_queue t)) o (_max_size t, tbl) with
  | None => exec_table o t = Abort
  | Some (limit, tbl') =>
      exists t', exec_table o t = Ok t' /\ table_repr t' tbl' /\ _max_size t' = limit /\
        _start_index t' = _start_index t /\ _need_indexes t' = _need_indexes t /\
        fq_cap (_header_queue t') = fq_cap (_header_queue t) /\
        _add_times t <= _add_times t' <= _add_times t + 1
  end.
Proof.
  intros Hr Ho Ht. destruct o as [h|n]; simpl in *.
  - pose proof Ho as (He & Hnul & _).
    pose proof (AddHeader_spec t tbl h Hr He (fun _ => Hnul) Ht) as Hs. case_if; [done|].
    destruct Hs as (t' & -> & Hr' & (? & ? & ? & ?) & ?). exists t'. split_and!; (done || lia).
  - destruct (ResetMaxSize_spec t tbl n Hr Ho) as (t' & -> & Hr' & ? & ? & ? & ? & ?).
    exists t'. split_and!; (done || lia).
Qed.

Lemma run_table_spec t tbl ops :
  table_repr t tbl -> Forall table_op_ok ops -> _add_times t + zlen ops <= 2 ^ 31 ->
  match run_rfc (fq_cap (_header_queue t)) ops (_max_size t, tbl) with
  | None => run_table ops t = Abort
  | Some (limit, tbl') =>
      exists t', run_table ops t = Ok t' /\ table_repr t' tbl' /\ _max_size t' = limit /\
        _start_index t' = _start_index t /\ _need_indexes t' = _need_indexes t
  end.
Proof.
  unfold run_rfc, run_table. revert t tbl.
  induction ops as [|o ops IH]; intros t tbl Hr Hf Ht; cbn [foldl]; [by exists t|].
  apply Forall_cons_1 in Hf as [Ho Hf]. rewrite zlen_cons in Ht. pose proof (zlen_nonneg ops).
  pose proof (exec_table_spec t tbl o Hr Ho ltac:(lia)) as Hs.
  change (Some (_max_size t, tbl) ≫= fun st => exec_rfc (fq_cap (_header_queue t)) o st)
    with (exec_rfc (fq_cap (_header_queue t)) o (_max_size t, tbl)).
  change (Ok t ≫= fun t0 => exec_table o t0) with (exec_table o t).
  destruct (exec_rfc (fq_cap (_header_queue t)) o (_max_size t, tbl)) as [[limit tbl']|].
  - destruct Hs as (t' & -> & Hr' & Hm & Hst & Hn & Hc & Hat).
    specialize (IH t' tbl' Hr' Hf ltac:(lia)). rewrite Hm, Hc, Hst, Hn in IH. exact IH.
  - by rewrite Hs, run_table_abort, run_rfc_none.
Qed.

(** Entries with the header [h], names compared without regard to case. *)
Definition matches h h' : bool := HeaderEqualTo h' h.

Lemma index_in_same_header t tbl h :
  index_in t tbl (same_header h) = if str_empty (value h) then 0 else index_in t tbl (matches h).
Proof.
  assert (forall h', same_header h h' = negb (str_empty (value h)) && matches h h') as E.
  { intros h'. unfold same_header, matches, has_value. destruct (HeaderEqualTo h' h) eqn:Eq; [|by rewrite !andb_false_r].
    apply HeaderEqualTo_true in Eq as [_ ->]. done. }
  unfold index_in. rewrite (find_index_ext _ (fun h' => negb (str_empty (value h)) && matches h h')) by auto.
  destruct (str_empty (value h)); cbn [negb andb]; [|done].
  assert (forall l, find_index (fun _ : Header => false) l = None) as ->; [|done]. intros l. by induction l as [|h' l IH]; cbn [find_index]; [|rewrite IH].
Qed.


(** ** Storage *)

Definition full_entry h : Prop := header_ok h /\ value h <> [].

Definition storage_op_ok (limit : Z) (o : table_op) : Prop :=
  match o with OpAdd h => full_entry h | OpResize n => 0 <= n <= limit end.

Lemma full_entry_total tbl : Forall full_entry tbl -> 34 * zlen tbl <= total tbl.
Proof.
  induction 1 as [|h tbl [Hh Hv] _ IH]; [done|]. rewrite zlen_cons. simpl. destruct Hh as [Hh _].
  rewrite HeaderSize_ok by done. destruct Hh as (Hn & _). destruct (name h) as [|c n]; [done|]. destruct (value h) as [|d v]; [done|].
  rewrite !zlen_cons. pose proof (zlen_nonneg n). pose proof (zlen_nonneg v). lia.
Qed.

(** With the capacity [Init] chooses and no empty value a slot is left. *)
Lemma storage_slot limit0 limit tbl h :
  limit <= limit0 -> Forall full_entry tbl -> full_entry h -> HeaderSize h <= limit ->
  zlen (fit (limit - HeaderSize h) tbl) < limit0 / 34.
Proof.
  intros Hl Hf Hh Hs. pose proof (fit_total (limit - HeaderSize h) tbl ltac:(lia)) as Ht.
  pose proof (Forall_fit _ (limit - HeaderSize h) tbl Hf) as Hff. apply full_entry_total in Hff as H34.
  pose proof (full_entry_total [h] ltac:(by constructor)) as H1. unfold zlen in H1. simpl in H1.
  assert (zlen (fit (limit - HeaderSize h) tbl) + 1 <= limit0 / 34) by (apply Z.div_le_lower_bound; lia). lia.
Qed.

Lemma full_entry_add limit h tbl :
  Forall full_entry tbl -> full_entry h -> Forall full_entry (table_add limit h tbl).
Proof.
  intros Hf Hh. unfold table_add. case_if; [constructor|]. constructor; [done|]. by apply Forall_fit.
Qed.

Lemma run_rfc_storage limit0 ops limit tbl :
  limit <= limit0 -> Forall full_entry tbl -> Forall (storage_op_ok limit0) ops ->
  run_rfc (limit0 / 34) ops (limit, tbl) <> None.
Proof.
  unfold run_rfc. revert limit tbl.
  induction ops as [|o ops IH]; intros limit tbl Hl Hf Ho; cbn [foldl]; [done|].
  apply Forall_cons_1 in Ho as [Ho Hos].
  change (Some (limit, tbl) ≫= fun st => exec_rfc (limit0 / 34) o st) with (exec_rfc (limit0 / 34) o (limit, tbl)).
  destruct o as [h|n]; simpl.
  - destruct (limit <? HeaderSize h) eqn:E; zbool; simpl.
    + apply IH; [done|by apply full_entry_add|done].
    + pose proof (storage_slot limit0 limit tbl h Hl Hf Ho E). rewrite (proj2 (Z.eqb_neq _ _)) by lia.
      apply IH; [done|by apply full_entry_add|done].
  - simpl in Ho. apply IH; [lia|by apply Forall_fit|done].
Qed.

Lemma run_rfc_limit limit0 cap ops limit tbl limit' tbl' :
  limit <= limit0 -> Forall (storage_op_ok limit0) ops ->
  run_rfc cap ops (limit, tbl) = Some (limit', tbl') -> limit' <= limit0.
Proof.
  unfold run_rfc. intros Hl Ho. revert limit tbl Hl.
  induction Ho as [|o ops Ho Hos IH]; intros limit tbl Hl; cbn [foldl]; [intros [= <- _]; done|].
  change (Some (limit, tbl) ≫= fun st => exec_rfc cap o st) with (exec_rfc cap o (limit, tbl)).
  destruct (exec_rfc cap o (limit, tbl)) as [[l1 tbl1]|] eqn:E1; [|by rewrite run_rfc_none].
  apply IH. destruct o as [h|n]; simpl in *; [case_if_in E1; [done|]|]; injection E1 as <- _; lia.
Qed.
End table.

(** ** Initialization *)

Abbreviation Table := (IndexTable (bounded_queue Header)).

Lemma new_queue_repr n :
  0 <= n <= 2 ^ 23 ->
  bq_repr (@of_mem Header sizeof_Header (n * sizeof_Header) OWNS_STORAGE) [] /\
  _cap (@of_mem Header sizeof_Header (n * sizeof_Header) OWNS_STORAGE) = n.
Proof.
  intros Hn. assert (n * sizeof_Header / sizeof_Header = n) as E by (apply Z.div_mul; done).
  split; [apply of_mem_repr; rewrite ?E; unfold sizeof_Header; lia|].
  unfold of_mem; simpl. rewrite E. apply u32_small. lia.
Qed.

(** A table before its static entries are added. *)
Lemma fresh_table_repr start need limit n (hi : FlatMap Header Z) (ni : FlatMap (list Z) Z) :
  0 <= n <= 2 ^ 23 -> 0 <= start < 2 ^ 20 -> 0 <= limit < 2 ^ 60 ->
  (need = true -> @latest _ header_key has_value id hi 0 [] /\
                  @latest _ name_key (fun _ => true) name ni 0 []) ->
  let t : Table := mk_table start need 0 limit 0
             (of_mem sizeof_Header (n * sizeof_Header) OWNS_STORAGE) hi ni in
  table_repr t [] /\ fq_cap (_header_queue t) = n.
Proof.
  intros Hn Hs Hl Hi. destruct (new_queue_repr n Hn) as [Hq Hc]. cbn zeta. split; [|exact Hc].
  split; [|simpl; lia]. unfold table_inv. revert Hq Hc. generalize (@of_mem Header sizeof_Header (n * sizeof_Header) OWNS_STORAGE).
  intros q Hq Hc. simpl. rewrite Hc.
  split_and!; try done; try lia. intros Hneed. split; [constructor|by apply Hi].
Qed.

(** What [Init] promises of a dynamic table. *)
Lemma Init_dynamic limit start need :
  34 <= limit -> limit / 34 <= 2 ^ 23 -> 0 <= start < 2 ^ 20 ->
  exists t, Init (mk_options limit start [] need) = Ok (Some t) /\ table_repr t [] /\
    _start_index t = start /\ _need_indexes t = need /\ _max_size t = limit /\
    fq_cap (_header_queue t) = limit / 34 /\ _add_times t = 0.
Proof.
  intros Hl Hc Hs. unfold Init. cbn [static_table max_size start_index_opt need_indexes].
  change (0 <? zlen []) with false. cbv iota zeta. change (32 + 2) with 34. rewrite s32_small by lia.
  assert (1 <= limit / 34) by (apply Z.div_le_lower_bound; lia).
  assert (limit < 2 ^ 60) by (pose proof (Z.div_mod limit 34); pose proof (Z.mod_pos_bound limit 34); lia).
  destruct (@init_wf _ Z header_key (limit / 34 * 2) 80 new_flatmap) as (hi & Eh & _); [lia..|done|].
  destruct (@init_wf _ Z name_key (limit / 34 * 2) 80 new_flatmap) as (ni & En & _); [lia..|done|].
  destruct need.
  - rewrite Eh, En. simpl. eexists. split; [done|]. destruct (fresh_table_repr start true limit (limit / 34) hi ni)
      as [Hr Hcap]; [lia..| |by split_and!]. intros _. split.
    + apply (@latest_init _ header_key _ _ (limit / 34 * 2)); [lia|done].
    + apply (@latest_init _ name_key _ _ (limit / 34 * 2)); [lia|done].
  - simpl. eexists. split; [done|].
    destruct (fresh_table_repr start false limit (limit / 34) new_flatmap new_flatmap) as [Hr Hcap];
      [lia..|done|by split_and!].
Qed.

(** Adding entries that all fit keeps them all. *)
Lemma add_all_spec (l : list (list Z * list Z)) (t : Table) tbl :
  let hs := map (fun hv => mk_header (fst hv) (snd hv)) l in
  table_repr t tbl -> Forall header_ok hs -> zlen tbl + zlen l <= fq_cap (_header_queue t) ->
  total tbl + total hs <= _max_size t -> _add_times t + zlen l <= 2 ^ 31 ->
  exists t', foldl (fun r hv => t ← r; AddHeader (mk_header (fst hv) (snd hv)) t) (Ok t) l = Ok t' /\
    table_repr t' (reverse hs ++ tbl) /\ same_params t t'.
Proof.
  revert t tbl. induction l as [|hv l IH]; intros t tbl hs Hr Hf Hc Hm Ht; cbn [foldl].
  - by exists t.
  - subst hs. cbn [map] in *. apply Forall_cons_1 in Hf as [Hh Hf]. rewrite zlen_cons in *. cbn [total foldr] in Hm.
    set (h := mk_header (fst hv) (snd hv)) in *. set (hs := map _ l) in *. fold (total hs) in Hm.
    pose proof (total_nonneg hs). pose proof (total_nonneg tbl). pose proof (zlen_nonneg l).
    pose proof Hh as (He & Hnul & _).
    pose proof (AddHeader_spec t tbl h Hr He (fun _ => Hnul) ltac:(lia)) as Hs. rewrite fit_all in Hs by lia.
    rewrite (proj2 (Z.eqb_neq (zlen tbl) _)), andb_false_r in Hs by lia.
    destruct Hs as (t1 & E & Hr1 & Hsp & Ht1). unfold table_add in Hr1. rewrite fit_all in Hr1 by lia.
    case_if_in Hr1; zbool; [lia|].
    change (Ok t ≫= fun t0 => AddHeader h t0) with (AddHeader h t). rewrite E.
    pose proof Hsp as (_ & _ & Hsp3 & Hsp4).
    destruct (IH t1 (h :: tbl) Hr1 Hf) as (t' & E' & Hr' & Hsp');
      [rewrite zlen_cons; lia|cbn [total foldr]; fold (total tbl); fold hs; lia|lia|].
    exists t'. split; [exact E'|]. rewrite reverse_cons, <- app_assoc. split; [done|].
    by apply (same_params_trans _ t1).
Qed.

Definition static_options : IndexTableOptions := mk_options uint_max 1 s_static_headers true.

(** [s_static_table] of [CreateStaticTableOrDie]; the default is never taken
    ([static_table_repr]). *)
Definition s_static_table : Table :=
  match Init static_options with
  | Ok (Some t) => t
  | _ => mk_table 0 false 0 0 0 default_queue new_flatmap new_flatmap
  end.

Definition static_headers : list Header := map (fun hv => mk_header (fst hv) (snd hv)) s_static_headers.

Definition header_okb (h : Header) : bool :=
  forallb (fun c => (0 <? c) && (c <? 256)) (name h) && negb (str_empty (name h)) &&
  forallb (fun c => (0 <=? c) && (c <? 256)) (value h) &&
  (zlen (name h) <? 2 ^ 27) && (zlen (value h) <? 2 ^ 27).

Lemma header_okb_ok h : header_okb h = true -> header_ok h.
Proof.
  unfold header_okb. rewrite !andb_true_iff, !forallb_forall.
  intros ((((Hn & He) & Hv) & Hl1) & Hl2). zbool.
  split_and!; [split_and!; [by destruct (name h)|done|done]|split|].
  - apply Forall_forall. intros c Hc. apply list_elem_of_In, Hn in Hc. unfold byte_ok. zbool. lia.
  - intros Hc. apply list_elem_of_In, Hn in Hc. zbool. lia.
  - apply Forall_forall. intros c Hc. apply list_elem_of_In, Hv in Hc. unfold byte_ok. zbool. lia.
Qed.

Lemma headers_okb_ok hs : forallb header_okb hs = true -> Forall header_ok hs.
Proof.
  rewrite forallb_forall. intros H. apply Forall_forall. intros h Hh.
  apply header_okb_ok, H. by apply list_elem_of_In.
Qed.

Lemma static_table_repr :
  Init static_options = Ok (Some s_static_table) /\ table_repr s_static_table static_headers /\
  _start_index s_static_table = 1 /\ _need_indexes s_static_table = true /\
  end_index s_static_table = 62.
Proof.
  assert (exists t, Init static_options = Ok (Some t) /\ table_repr t static_headers /\
    _start_index t = 1 /\ _need_indexes t = true /\ end_index t = 62) as (t & E & Hr & H1 & H2 & H3).
  2: { assert (s_static_table = t) as -> by (unfold s_static_table; rewrite E; reflexivity).
       split; [exact E|]. split; [exact Hr|]. split; [exact H1|]. split; [exact H2|exact H3]. }
  unfold Init. cbn [static_table max_size start_index_opt need_indexes static_options].
  change (zlen s_static_headers) with 61. cbv zeta. change (0 <? 61) with true. cbv iota.
  destruct (@init_wf _ Z header_key (61 * 2) 80 new_flatmap) as (hi & Eh & _); [lia..|done|].
  destruct (@init_wf _ Z name_key (61 * 2) 80 new_flatmap) as (ni & En & _); [lia..|done|].
  rewrite Eh, En. change (s32 1) with 1.
  destruct (fresh_table_repr 1 true uint_max 61 hi ni) as [Hr Hcap]; [lia..|unfold uint_max; lia| |].
  { intros _. split.
    - apply (@latest_init _ header_key _ _ (61 * 2)); [lia|done].
    - apply (@latest_init _ name_key _ _ (61 * 2)); [lia|done]. }
  match type of Hr with table_repr ?t _ => set (t0 := t) in * end.
  destruct (add_all_spec (reverse s_static_headers) t0 [] Hr) as (t' & -> & Hr' & (Hs1 & Hs2 & Hs3 & Hs4)).
  - apply headers_okb_ok. vm_compute. reflexivity.
  - rewrite Hcap. vm_compute. congruence.
  - vm_compute. congruence.
  - vm_compute. congruence.
  - exists t'. split; [done|]. rewrite app_nil_r in Hr'.
    replace (reverse (map _ (reverse s_static_headers))) with static_headers in Hr'
      by (vm_compute; reflexivity).
    split_and!; [done..|]. destruct Hr' as [(Hq & _) _]. unfold end_index, start_index.
    by rewrite Hs1, (fq_size_spec _ _ Hq).
Qed.

#[global] Opaque s_static_table.

Definition hdr (n v : string) : Header := mk_header (bs n) (bs v).

(** The tables of a connection with the default settings. *)
Lemma Init_default need :
  exists t, Init (mk_options 4096 62 [] need) = Ok (Some t) /\ table_repr t [] /\
    _start_index t = 62 /\ _need_indexes t = need /\ _max_size t = 4096 /\
    fq_cap (_header_queue t) = 120 /\ _add_times t = 0.
Proof. apply (Init_dynamic 4096 62 need); [lia|vm_compute; congruence|lia]. Qed.




(** With empty values it is not: the default table of 4096 bytes has 120
    slots, but 121 entries of 33 bytes fit in the limit; the peer that sends
    them stops the process. *)
Lemma empty_values_overflow :
  exists t, Init (mk_options 4096 62 [] false) = Ok (Some t) /\
    run_table (replicate 121 (OpAdd (hdr "x" ""))) t = Abort.
Proof.
  destruct (Init_default false) as (t & E & Hr & H1 & H2 & H3 & H4 & H5).
  exists t. split; [done|].
  pose proof (run_table_spec t [] (replicate 121 (OpAdd (hdr "x" ""))) Hr) as Hs.
  rewrite H3, H4, H5 in Hs. replace (run_rfc _ _ _) with (@None (Z * list Header)) in Hs by (vm_compute; reflexivity).
  apply Hs; [|vm_compute; congruence]. apply Forall_replicate, header_okb_ok. vm_compute. reflexivity.
Qed.
