(* ===== verification/HPacker.v ===== *)
(** * [HPacker] of [flare/rpc/details/hpack.cc]: HPACK encoder and decoder

    One [HPacker] belongs to one end of an HTTP/2 connection: [Encode] writes
    a header with the help of its [_encode_table], [Decode] reads one with its
    [_decode_table].  The theorems are about two ends: while the decoder's
    dynamic table mirrors the encoder's ([in_sync]) every header is decoded to
    itself (with a lower-case name), exactly the bytes that were written are
    consumed, and the tables stay in sync. *)

From S2P Require Import Prelude BoundedQueue FlatMap CharOps HpackTables Huffman HpackPrims.
From S2P Require Import HpackIndexTable.
Local Open Scope Z_scope.

Inductive HeaderIndexPolicy :=
| HPACK_INDEX_HEADER
| HPACK_NOT_INDEX_HEADER
| HPACK_NEVER_INDEX_HEADER.

#[export] Instance HeaderIndexPolicy_eq_dec : EqDecision HeaderIndexPolicy.
Proof. solve_decision. Defined.

Record HPackOptions := mk_hpack_options {
  index_policy : HeaderIndexPolicy;
  encode_name : bool;
  encode_value : bool;
}.

Definition default_hpack_options : HPackOptions := mk_hpack_options HPACK_INDEX_HEADER false false.

Record HPacker := mk_hpacker {
  _encode_table : Table;
  _decode_table : Table;
}.

Definition DEFAULT_HEADER_TABLE_SIZE : Z := 4096.

(** [None] is the return value -1. *)
Definition HPacker_Init (max_table_size : Z) : outcome (option HPacker) :=
  let start := end_index s_static_table in
  e ← Init (mk_options max_table_size start [] true);
  d ← Init (mk_options max_table_size start [] false);
  Ok (match e, d with Some e, Some d => Some (mk_hpacker e d) | _, _ => None end).

Definition FindHeaderFromIndexTable (h : Header) (p : HPacker) : Z :=
  let index := GetIndexOfHeader h s_static_table in
  if 0 <? index then index else GetIndexOfHeader h (_encode_table p).

Definition FindNameFromIndexTable (n : list Z) (p : HPacker) : Z :=
  let index := GetIndexOfName n s_static_table in
  if 0 <? index then index else GetIndexOfName n (_encode_table p).

(** The bytes appended to [out], and the packer afterwards. *)
Definition Encode (header : Header) (options : HPackOptions) (p : HPacker) : outcome (list Z * HPacker) :=
  let index := if decide (index_policy options = HPACK_NEVER_INDEX_HEADER) then 0
               else FindHeaderFromIndexTable header p in
  if 0 <? index then Ok (EncodeInteger 128 7 (u32 index), p)
  else
    let name_index := FindNameFromIndexTable (name header) p in
    p ← (if decide (index_policy options = HPACK_INDEX_HEADER)
         then t ← AddHeader header (_encode_table p); Ok (mk_hpacker t (_decode_table p))
         else Ok p);
    let prefix :=
      match index_policy options with
      | HPACK_INDEX_HEADER => EncodeInteger 64 6 (u32 name_index)
      | HPACK_NOT_INDEX_HEADER => EncodeInteger 0 4 (u32 name_index)
      | HPACK_NEVER_INDEX_HEADER => EncodeInteger 16 4 (u32 name_index)
      end in
    let name_part := if name_index =? 0 then EncodeString true (name header) (encode_name options) else [] in
    Ok (prefix ++ name_part ++ EncodeString false (value header) (encode_value options), p).

Definition HPacker_HeaderAt (index : Z) (p : HPacker) : option Header :=
  if start_index (_decode_table p) <=? index then HeaderAt index (_decode_table p)
  else HeaderAt index s_static_table.

(** Return code, header and bytes left.  On a return code that is not
    positive the header has no meaning; the model leaves it as it was. *)
Definition DecodeWithKnownPrefix (iter : list Z) (h : Header) (prefix_size : Z) (p : HPacker)
  : outcome (Z * Header * list Z) :=
  '(index_bytes, index, iter) ← DecodeInteger iter prefix_size;
  let index := s32 index in
  if index_bytes <=? 0 then Ok (-1, h, iter)
  else
    let decode_value name_bytes n iter :=
      '(value_bytes, v, iter) ← DecodeString iter;
      if value_bytes <=? 0 then Ok (-1, h, iter)
      else Ok (index_bytes + name_bytes + value_bytes, mk_header n v, iter) in
    if negb (index =? 0) then
      match HPacker_HeaderAt index p with
      | None => Ok (-1, h, iter)
      | Some indexed_header => decode_value 0 (name indexed_header) iter
      end
    else
      '(name_bytes, n, iter) ← DecodeString iter;
      if name_bytes <=? 0 then Ok (-1, h, iter)
      else decode_value name_bytes (tolower n) iter.

(** [Decode] calls itself after a dynamic table size update, which consumes a
    byte at least; [decode_fuel_enough] shows that one level per byte is
    enough. *)
Fixpoint decode_rec (fuel : nat) (iter : list Z) (h : Header) (p : HPacker)
  : outcome (Z * Header * list Z * HPacker) :=
  match iter with
  | [] => Ok (0, h, [], p)
  | first_byte :: _ =>
      let kind := Z.shiftr first_byte 4 in
      if 8 <=? kind then
        '(index_bytes, index, iter) ← DecodeInteger iter 7;
        let index := s32 index in
        if index_bytes <=? 0 then Ok (index_bytes, h, iter, p)
        else
          match HPacker_HeaderAt index p with
          | None => Ok (-1, h, iter, p)
          | Some indexed_header => Ok (index_bytes, indexed_header, iter, p)
          end
      else if 4 <=? kind then
        '(bytes_consumed, h', iter) ← DecodeWithKnownPrefix iter h 6 p;
        if bytes_consumed <=? 0 then Ok (-1, h, iter, p)
        else
          t ← AddHeader h' (_decode_table p);
          Ok (bytes_consumed, h', iter, mk_hpacker (_encode_table p) t)
      else if 2 <=? kind then
        '(read_bytes, max_size, iter) ← DecodeInteger iter 5;
        if read_bytes <=? 0 then Ok (read_bytes, h, iter, p)
        else if DEFAULT_HEADER_TABLE_SIZE <? max_size then Ok (-1, h, iter, p)
        else
          t ← ResetMaxSize max_size (_decode_table p);
          match fuel with
          | O => Undefined
          | S fuel => decode_rec fuel iter h (mk_hpacker (_encode_table p) t)
          end
      else
        '(n, h, iter) ← DecodeWithKnownPrefix iter h 4 p;
        Ok (n, h, iter, p)
  end.

Definition Decode (iter : list Z) (h : Header) (p : HPacker) : outcome (Z * Header * list Z * HPacker) :=
  decode_rec (length iter) iter h p.

(** [Decode(flare::cord_buf *source, Header *h)]: the return code, the header
    and what is left in [source]. *)
Definition Decode_cord (source : list Z) (h : Header) (p : HPacker)
  : outcome (Z * Header * list Z * HPacker) :=
  '(nc, h, _, p) ← Decode source h p;
  Ok (nc, h, if 0 <? nc then zdrop nc source else source, p).

(** ** Two tables in sync *)

(** What the decoder returns for [h]: names travel in lower case. *)
Definition lower (h : Header) : Header := mk_header (tolower (name h)) (value h).

Lemma HeaderSize_lower h : HeaderSize (lower h) = HeaderSize h.
Proof. unfold HeaderSize, lower; simpl. by rewrite zlen_tolower. Qed.

Lemma tolower_no_nul s : no_nul s -> no_nul (tolower s).
Proof.
  intros [Hb Hn]. split; [by apply tolower_bytes|]. rewrite tolower_map. intros Hin.
  apply list_elem_of_fmap in Hin as (c & E & Hc). symmetry in E. apply (proj1 (to_lower_0 c)) in E. rewrite E in Hc. exact (Hn Hc).
Qed.

Lemma header_ok_lower h : header_ok h -> header_ok (lower h).
Proof.
  intros ((H1 & H2 & H3) & H4 & H5). unfold header_ok, entry_ok, lower; simpl. rewrite zlen_tolower.
  split_and!; try done; [|by apply tolower_no_nul]. rewrite tolower_map. by destruct (name h).
Qed.

Lemma total_lower tbl : total (map lower tbl) = total tbl.
Proof. induction tbl as [|h tbl IH]; simpl; [done|]. by rewrite IH, HeaderSize_lower. Qed.

Lemma fit_lower budget tbl : fit budget (map lower tbl) = map lower (fit budget tbl).
Proof.
  revert budget. induction tbl as [|h tbl IH]; intros budget; simpl; [done|].
  rewrite HeaderSize_lower, IH. by case_if.
Qed.

Lemma table_add_lower limit h tbl :
  table_add limit (lower h) (map lower tbl) = map lower (table_add limit h tbl).
Proof. unfold table_add. rewrite HeaderSize_lower, fit_lower. by case_if. Qed.

(** [d] is the decoder's image of the encoder's [e]; both hold [tbl]. *)
Definition in_sync (e d : Table) (tbl : list Header) : Prop :=
  table_repr e tbl /\ table_repr d (map lower tbl) /\ _need_indexes e = true /\
  _start_index e = 62 /\ _start_index d = 62 /\ _max_size d = _max_size e /\
  fq_cap (_header_queue d) = fq_cap (_header_queue e).

Lemma in_sync_add e d tbl h :
  in_sync e d tbl -> header_ok h -> _add_times e < 2 ^ 31 -> _add_times d < 2 ^ 31 ->
  match AddHeader h e with
  | Ok e' => exists d', AddHeader (lower h) d = Ok d' /\ in_sync e' d' (table_add (_max_size e) h tbl) /\
      _max_size e' = _max_size e /\ fq_cap (_header_queue e') = fq_cap (_header_queue e) /\
      _add_times e' <= _add_times e + 1 /\ _add_times d' <= _add_times d + 1
  | Abort => zlen (fit (_max_size e - HeaderSize h) tbl) = fq_cap (_header_queue e) /\ HeaderSize h <= _max_size e
  | Undefined => False
  end.
Proof.
  intros (He & Hd & Hn & Hs1 & Hs2 & Hm & Hc) Hh Ht1 Ht2.
  pose proof Hh as (Hent & Hnul & _). pose proof (header_ok_lower h Hh) as (Hent' & Hnul' & _).
  pose proof (AddHeader_spec e tbl h He Hent (fun _ => Hnul) Ht1) as Ae.
  pose proof (AddHeader_spec d _ (lower h) Hd Hent' (fun _ => Hnul') Ht2) as Ad.
  rewrite Hm, Hc, HeaderSize_lower, fit_lower, table_add_lower in Ad.
  assert (forall l, zlen (map lower l) = zlen l) as Hl by (intros l; unfold zlen; by rewrite length_map).
  rewrite Hl in Ad. destruct (negb _ && _) eqn:Heqb in Ae, Ad.
  - rewrite Ae. apply andb_true_iff in Heqb as [Hb1 Hb2]. apply negb_true_iff in Hb1. zbool. done.
  - destruct Ae as (e' & -> & He' & (Hp1 & Hp2 & Hp3 & Hp4) & Hat).
    destruct Ad as (d' & -> & Hd' & (Hq1 & Hq2 & Hq3 & Hq4) & Hbt).
    exists d'. split; [done|]. split; [|split_and!; (done || lia)].
    unfold in_sync. split_and!; (done || congruence).
Qed.

(** ** Lookups *)

(** Forget what the static table is, keeping the facts in the context. *)
Ltac hide_static st := set (st := s_static_table) in *; clearbody st.

Lemma static_lower h : h ∈ static_headers -> lower h = h.
Proof.
  assert (forallb (fun h => bool_decide (lower h = h)) static_headers = true) as H by (vm_compute; reflexivity).
  rewrite forallb_forall in H. intros Hin%list_elem_of_In. by apply H, bool_decide_eq_true in Hin.
Qed.

Lemma static_headers_len : zlen static_headers = 61.
Proof. vm_compute. reflexivity. Qed.

#[local] Opaque static_headers.

Definition two_level (e : Table) (tbl : list Header) (P : Header -> bool) : Z :=
  let index := index_in s_static_table static_headers P in
  if 0 <? index then index else index_in e tbl P.

Lemma two_level_range e tbl P : _start_index e = 62 -> 0 <= two_level e tbl P.
Proof.
  intros Hs. unfold two_level. case_if; zbool; [lia|]. unfold index_in.
  destruct (find_index P tbl) as [i|] eqn:E; [|done]. apply find_index_range in E. lia.
Qed.

(** An index the encoder finds designates, for the decoder, a header that
    matches. *)
Lemma two_level_found e d tbl P pe :
  in_sync e d tbl -> 0 < two_level e tbl P ->
  exists h, HPacker_HeaderAt (two_level e tbl P) (mk_hpacker pe d) = Some (lower h) /\
    P h = true /\ (h ∈ static_headers \/ h ∈ tbl) /\ two_level e tbl P < MAX_HPACK_INTEGER.
Proof.
  intros (He & Hd & Hn & Hs1 & Hs2 & Hm & Hc) Hpos.
  destruct static_table_repr as (_ & [Hsi _] & Hst & _). destruct He as [Hei _]. destruct Hd as [Hdi _].
  unfold HPacker_HeaderAt, start_index, two_level in *. hide_static st. simpl. rewrite Hs2.
  destruct (0 <? index_in st static_headers P) eqn:Heqb; zbool.
  - destruct (index_in_found _ _ P Hsi) as (h & Hat & HP & Hin & Hr); [lia|done|].
    rewrite Hst, static_headers_len in Hr. exists h.
    rewrite (static_lower h Hin). unfold MAX_HPACK_INTEGER.
    case_if; zbool; [lia|]. split; [exact Hat|]. split; [exact HP|]. split; [by left|lia].
  - destruct (index_in_found _ _ P Hei) as (h & Hat & HP & Hin & Hr); [lia|done|].
    rewrite Hs1 in Hr. exists h. decide_if. apply table_len in Hei as Hlen.
    assert (fq_cap (_header_queue e) <= 2 ^ 23) by (by destruct Hei as (_ & ? & _)).
    split; [|split; [exact HP|]; split; [by right|unfold MAX_HPACK_INTEGER; lia]].
    rewrite (HeaderAt_spec e tbl) in Hat by done. rewrite Hs1 in Hat. case_if_in Hat; [done|].
    rewrite (HeaderAt_spec d (map lower tbl)) by done. rewrite Hs2. decide_if.
    unfold zget in *. case_if_in Hat; [done|]. by rewrite list_lookup_fmap, Hat.
Qed.

Lemma FindName_spec p tbl d n :
  in_sync (_encode_table p) d tbl -> no_nul n ->
  FindNameFromIndexTable n p = two_level (_encode_table p) tbl (same_name n).
Proof.
  intros (He & _ & Hn & _) Hok. destruct static_table_repr as (_ & [Hsi _] & _ & Hsn & _).
  unfold FindNameFromIndexTable, two_level. hide_static st. rewrite (GetIndexOfName_spec _ static_headers) by done.
  destruct He as [Hei _]. by rewrite (GetIndexOfName_spec _ tbl) by done.
Qed.

Lemma FindHeader_spec p tbl d h :
  in_sync (_encode_table p) d tbl -> no_nul (name h) ->
  FindHeaderFromIndexTable h p = two_level (_encode_table p) tbl (same_header h).
Proof.
  intros (He & _ & Hn & _) Hok. destruct static_table_repr as (_ & [Hsi _] & _ & Hsn & _).
  unfold FindHeaderFromIndexTable, two_level. hide_static st. rewrite (GetIndexOfHeader_spec _ static_headers) by done.
  destruct He as [Hei _]. by rewrite (GetIndexOfHeader_spec _ tbl) by done.
Qed.

Lemma known_no_nul e d tbl h : in_sync e d tbl -> h ∈ static_headers \/ h ∈ tbl -> no_nul (name h).
Proof.
  intros (He & _ & Hn & _).
  assert (forall (t : Table) l, table_repr t l -> _need_indexes t = true -> h ∈ l -> no_nul (name h)) as Hgen.
  { intros t l [(_ & _ & _ & _ & _ & _ & _ & Hi) _] Hneed Hin. destruct (Hi Hneed) as [Hf _].
    rewrite Forall_forall in Hf. by apply Hf in Hin. }
  destruct static_table_repr as (_ & Hs & _ & Hsn & _). intros [Hin|Hin].
  - exact (Hgen _ _ Hs Hsn Hin).
  - exact (Hgen _ _ He Hn Hin).
Qed.

Lemma same_name_lower n h : no_nul (name h) -> no_nul n -> same_name n h = true -> tolower (name h) = tolower n.
Proof. intros H1 H2. unfold same_name. rewrite CaseIgnoredEqual_no_nul by done. apply bool_decide_eq_true. Qed.

Lemma same_header_lower h h' :
  no_nul (name h') -> no_nul (name h) -> same_header h h' = true -> lower h' = lower h.
Proof.
  intros H1 H2. unfold same_header. intros [_ [E1 E2]%HeaderEqualTo_true]%andb_true_iff.
  unfold lower. rewrite E2. f_equal. by apply same_name_lower.
Qed.

(** ** One header *)

Lemma EncodeInteger_head msb p v :
  int_flags_ok msb p -> 0 <= v -> exists x l, EncodeInteger msb p v = (msb + x) :: l /\ 0 <= x < 2 ^ p.
Proof.
  intros (Hp & Hm & H0) Hv. unfold EncodeInteger.
  assert (2 ^ p <= 2 ^ 8) by (apply Z.pow_le_mono_r; lia).
  assert (2 ^ 1 <= 2 ^ p) by (apply Z.pow_le_mono_r; lia).
  rewrite Z.shiftl_1_l, u8_small by lia. case_if; zbool.
  - exists v, []. destruct (prefix_byte msb p v) as [-> _]; [done..|lia|]. split; [done|lia].
  - eexists (2 ^ p - 1), _. destruct (prefix_byte msb p (2 ^ p - 1)) as [-> _]; [done..|lia|].
    split; [done|lia].
Qed.

(** The lengths that the encoding announces are within the decoder's limit. *)
Definition wire_ok (h : Header) (o : HPackOptions) : Prop :=
  announced (tolower (name h)) (encode_name o) < MAX_HPACK_INTEGER /\
  announced (value h) (encode_value o) < MAX_HPACK_INTEGER.

(** The strings of a header that can be sent; the name may be empty. *)
Definition text_ok (h : Header) : Prop :=
  zlen (name h) < 2 ^ 27 /\ zlen (value h) < 2 ^ 27 /\ no_nul (name h) /\ bytes_ok (value h).

Lemma text_ok_header h : text_ok h -> name h <> [] -> header_ok h.
Proof. intros (? & ? & ? & ?) ?. by split_and!. Qed.

Lemma header_ok_text h : header_ok h -> text_ok h.
Proof. intros ((_ & ? & ?) & ? & ?). by split_and!. Qed.

Definition literal (msb prefix ni : Z) (h : Header) (o : HPackOptions) : list Z :=
  EncodeInteger msb prefix ni ++
  (if ni =? 0 then EncodeString true (name h) (encode_name o) else []) ++
  EncodeString false (value h) (encode_value o).

Lemma EncodeString_nonempty b s huff : 0 < zlen (EncodeString b s huff).
Proof.
  unfold EncodeString, EncodeInteger. case_if; case_if; rewrite zlen_app, ?zlen_cons;
    match goal with |- context [zlen ?l + ?x] => pose proof (zlen_nonneg l) end;
    repeat match goal with |- context [zlen ?l] => pose proof (zlen_nonneg l); generalize dependent (zlen l); intros end; lia.
Qed.

Lemma decode_literal msb prefix ni h h0 o rest pe d :
  int_flags_ok msb prefix -> 0 <= ni < MAX_HPACK_INTEGER -> text_ok h -> wire_ok h o ->
  (ni <> 0 -> exists h', HPacker_HeaderAt ni (mk_hpacker pe d) = Some h' /\ name h' = tolower (name h)) ->
  DecodeWithKnownPrefix (literal msb prefix ni h o ++ rest) h0 prefix (mk_hpacker pe d)
  = Ok (zlen (literal msb prefix ni h o), lower h, rest).
Proof.
  intros Hf Hni (Hl1 & Hl2 & Hn & Hv) [Hw1 Hw2] Hk. unfold DecodeWithKnownPrefix, literal.
  rewrite <- !app_assoc, decode_encode_integer by done. unfold mbind at 1, outcome_bind at 1.
  destruct (EncodeInteger_head msb prefix ni Hf ltac:(lia)) as (x & l & E & _).
  rewrite s32_small by (unfold MAX_HPACK_INTEGER in *; lia).
  assert (0 < zlen (EncodeInteger msb prefix ni)) by (rewrite E, zlen_cons; pose proof (zlen_nonneg l); lia).
  rewrite !zlen_app. pose proof (EncodeString_nonempty false (value h) (encode_value o)).
  assert (forall r, DecodeString (EncodeString false (value h) (encode_value o) ++ r) =
    Ok (zlen (EncodeString false (value h) (encode_value o)), value h, r)) as Hval.
  { intros r. apply (DecodeString_encoded false); [done|lia|done]. }
  decide_if. destruct (ni =? 0) eqn:E0; zbool; cbn [negb].
  - rewrite DecodeString_encoded; [|by destruct Hn|lia|done]. unfold mbind, outcome_bind.
    pose proof (EncodeString_nonempty true (name h) (encode_name o)). decide_if.
    rewrite Hval. decide_if. simpl sent. rewrite tolower_idem. apply ok3; [lia|done..].
  - destruct (Hk E0) as (h' & -> & ->). cbn [app]. rewrite Hval. unfold mbind, outcome_bind. decide_if.
    rewrite (@zlen_nil Z). apply ok3; [lia|done..].
Qed.

(** The leading four bits, from which [Decode] tells the representations. *)
Lemma kind_range b lo hi : 16 * lo <= b < 16 * hi -> lo <= Z.shiftr b 4 < hi.
Proof.
  intros Hb. rewrite Z.shiftr_div_pow2 by lia. change (2 ^ 4) with 16.
  split; [apply Z.div_le_lower_bound; lia|apply Z.div_lt_upper_bound; lia].
Qed.

Definition counters_below (n : Z) (a b : HPacker) : Prop :=
  _add_times (_encode_table a) + n <= 2 ^ 31 /\ _add_times (_decode_table b) + n <= 2 ^ 31.

Lemma Decode_indexed i h h0 rest b :
  0 <= i < MAX_HPACK_INTEGER -> HPacker_HeaderAt i b = Some h ->
  Decode (EncodeInteger 128 7 i ++ rest) h0 b = Ok (zlen (EncodeInteger 128 7 i), h, rest, b).
Proof.
  intros Hi Hat. assert (int_flags_ok 128 7) as Hf by (repeat split; vm_compute; congruence).
  pose proof (decode_encode_integer 128 7 i rest Hf Hi) as Hd.
  destruct (EncodeInteger_head 128 7 i Hf ltac:(lia)) as (x & l & E & Hx). rewrite E in *. simpl in Hx.
  unfold Decode. cbn [app decode_rec length] in *. destruct (kind_range (128 + x) 8 16) as [? _]; [lia|].
  decide_if. rewrite Hd. unfold mbind, outcome_bind. rewrite zlen_cons. pose proof (zlen_nonneg l).
  decide_if. rewrite s32_small by (unfold MAX_HPACK_INTEGER in *; lia). by rewrite Hat.
Qed.

(** The two literals that leave the table alone differ in their flag only. *)
Lemma Decode_literal_plain msb ni h h0 o rest pe d :
  msb = 0 \/ msb = 16 -> 0 <= ni < MAX_HPACK_INTEGER -> text_ok h -> wire_ok h o ->
  (ni <> 0 -> exists h', HPacker_HeaderAt ni (mk_hpacker pe d) = Some h' /\ name h' = tolower (name h)) ->
  Decode (literal msb 4 ni h o ++ rest) h0 (mk_hpacker pe d)
  = Ok (zlen (literal msb 4 ni h o), lower h, rest, mk_hpacker pe d).
Proof.
  intros Hm Hi Hh Hw Hk.
  assert (int_flags_ok msb 4) as Hf by (destruct Hm as [-> | ->]; repeat split; vm_compute; congruence).
  pose proof (decode_literal msb 4 ni h h0 o rest pe d Hf Hi Hh Hw Hk) as Hd.
  destruct (EncodeInteger_head msb 4 ni Hf ltac:(lia)) as (x & l & E & Hx). simpl in Hx.
  unfold literal in *. rewrite E in *. cbn [app] in *. unfold Decode. cbn [decode_rec length].
  destruct (kind_range (msb + x) 0 2) as [_ ?]; [lia|]. do 3 decide_if. by rewrite Hd.
Qed.

Lemma Decode_literal_indexing ni h h0 o rest pe d :
  0 <= ni < MAX_HPACK_INTEGER -> text_ok h -> wire_ok h o ->
  (ni <> 0 -> exists h', HPacker_HeaderAt ni (mk_hpacker pe d) = Some h' /\ name h' = tolower (name h)) ->
  Decode (literal 64 6 ni h o ++ rest) h0 (mk_hpacker pe d)
  = t ← AddHeader (lower h) d; Ok (zlen (literal 64 6 ni h o), lower h, rest, mk_hpacker pe t).
Proof.
  intros Hi Hh Hw Hk. assert (int_flags_ok 64 6) as Hf by (repeat split; vm_compute; congruence).
  pose proof (decode_literal 64 6 ni h h0 o rest pe d Hf Hi Hh Hw Hk) as Hd.
  destruct (EncodeInteger_head 64 6 ni Hf ltac:(lia)) as (x & l & E & Hx). simpl in Hx.
  unfold literal in *. rewrite E in *. cbn [app] in *. unfold Decode. cbn [decode_rec length].
  destruct (kind_range (64 + x) 4 8); [lia|]. do 2 decide_if. rewrite Hd. unfold mbind at 1, outcome_bind at 1.
  rewrite zlen_cons. match goal with |- context [zlen ?r + 1 <=? 0] => pose proof (zlen_nonneg r) end. by decide_if.
Qed.

(** The table after [h] has been added with incremental indexing. *)
Definition added (a : HPacker) (h : Header) (o : HPackOptions) (tbl tbl' : list Header) : Prop :=
  index_policy o = HPACK_INDEX_HEADER /\ name h <> [] /\ tbl' = table_add (_max_size (_encode_table a)) h tbl.

(** A check fails on adding [h]: its name is empty, or there is no slot. *)
Definition stopped (a : HPacker) (h : Header) (o : HPackOptions) (tbl : list Header) : Prop :=
  index_policy o = HPACK_INDEX_HEADER /\
  (name h = [] \/
   zlen (fit (_max_size (_encode_table a) - HeaderSize h) tbl) = fq_cap (_header_queue (_encode_table a)) /\
   HeaderSize h <= _max_size (_encode_table a)).

(** Encoding and decoding one header, on every branch. *)
Lemma encode_decode_one a b tbl h o h0 rest n :
  in_sync (_encode_table a) (_decode_table b) tbl -> text_ok h -> wire_ok h o ->
  0 <= n -> counters_below (n + 1) a b ->
  match Encode h o a with
  | Ok (out, a') =>
      exists b' tbl', Decode (out ++ rest) h0 b = Ok (zlen out, lower h, rest, b') /\
        in_sync (_encode_table a') (_decode_table b') tbl' /\ counters_below n a' b' /\
        _max_size (_encode_table a') = _max_size (_encode_table a) /\
        fq_cap (_header_queue (_encode_table a')) = fq_cap (_header_queue (_encode_table a)) /\
        (tbl' = tbl \/ added a h o tbl tbl')
  | Abort => stopped a h o tbl
  | Undefined => False
  end.
Proof.
  intros Hsync Hh Hw Hn [Hc1 Hc2]. pose proof Hh as (_ & _ & Hnul & _). destruct b as [pe d]. simpl in *.
  pose proof Hsync as (_ & _ & _ & Hst & _).
  assert (forall out, (exists b', Decode (out ++ rest) h0 (mk_hpacker pe d) = Ok (zlen out, lower h, rest, b') /\
      b' = mk_hpacker pe d) ->
    exists b' tbl', Decode (out ++ rest) h0 (mk_hpacker pe d) = Ok (zlen out, lower h, rest, b') /\
      in_sync (_encode_table a) (_decode_table b') tbl' /\ counters_below n a b' /\
      _max_size (_encode_table a) = _max_size (_encode_table a) /\
      fq_cap (_header_queue (_encode_table a)) = fq_cap (_header_queue (_encode_table a)) /\
      (tbl' = tbl \/ added a h o tbl tbl')) as Hplain.
  { intros out (b' & Hd & ->). exists (mk_hpacker pe d), tbl. unfold counters_below. simpl.
    split_and!; try done; try lia. by left. }
  unfold Encode. set (index := if decide _ then _ else _).
  destruct (0 <? index) eqn:Ei; zbool.
  { assert (index = two_level (_encode_table a) tbl (same_header h)) as E.
    { subst index. destruct (decide _); [lia|]. by apply (FindHeader_spec a tbl d). }
    rewrite E in *. destruct (two_level_found _ _ _ _ pe Hsync Ei) as (h' & Hat & HP & Hin & Hlt).
    rewrite u32_small by (unfold MAX_HPACK_INTEGER in *; lia).
    apply Hplain. eexists. split; [|done]. rewrite (Decode_indexed _ (lower h')) by (done || lia).
    rewrite (same_header_lower h h'); [done| |done..]. by eapply known_no_nul. }
  rewrite (FindName_spec a tbl d) by done. set (ni := two_level _ tbl (same_name (name h))).
  assert (0 <= ni < MAX_HPACK_INTEGER /\ (ni <> 0 -> exists h', HPacker_HeaderAt ni (mk_hpacker pe d) = Some h' /\
    name h' = tolower (name h))) as [Hni Hk].
  { pose proof (two_level_range (_encode_table a) tbl (same_name (name h)) Hst) as H0. fold ni in H0.
    destruct (decide (ni = 0)) as [E0|Hne]; [split; [unfold MAX_HPACK_INTEGER; lia|done]|].
    destruct (two_level_found (_encode_table a) d tbl (same_name (name h)) pe Hsync) as (h' & Hat & HP & Hin & Hlt);
      [fold ni; lia|]. fold ni in Hat, Hlt. split; [lia|]. intros _. exists (lower h'). split; [done|]. simpl.
    apply same_name_lower; [|done..]. by eapply known_no_nul. }
  rewrite u32_small by (unfold MAX_HPACK_INTEGER in *; lia). clearbody ni index.
  destruct (index_policy o) eqn:Ep; cbn [decide].
  - rewrite decide_True by done. destruct (decide (name h = [])) as [Enil|Hne].
    { assert (AddHeader h (_encode_table a) = Abort) as -> by (unfold AddHeader; by rewrite Enil). split; [done|by left]. }
    apply text_ok_header in Hh as Hh'; [|done]. pose proof (in_sync_add _ _ _ h Hsync Hh' ltac:(lia) ltac:(lia)) as Hadd.
    destruct (AddHeader h (_encode_table a)) as [e'| |]; [|split; [done|by right]|done].
    destruct Hadd as (d' & Hd' & Hs' & Hm' & Hcap' & Ht1 & Ht2). unfold mbind, outcome_bind.
    exists (mk_hpacker pe d'), (table_add (_max_size (_encode_table a)) h tbl). fold (literal 64 6 ni h o).
    rewrite Decode_literal_indexing, Hd' by done. simpl. unfold counters_below; simpl.
    split_and!; try done; try lia. right. by split.
  - rewrite decide_False by done. unfold mbind, outcome_bind. fold (literal 0 4 ni h o).
    apply Hplain. eexists. split; [|done]. apply Decode_literal_plain; try done. by left.
  - rewrite decide_False by done. unfold mbind, outcome_bind. fold (literal 16 4 ni h o).
    apply Hplain. eexists. split; [|done]. apply Decode_literal_plain; try done. by right.
Qed.

(** ** Streams *)

Fixpoint encode_all (l : list (Header * HPackOptions)) (p : HPacker) : outcome (list Z * HPacker) :=
  match l with
  | [] => Ok ([], p)
  | (h, o) :: l =>
      '(out, p) ← Encode h o p;
      '(out', p) ← encode_all l p;
      Ok (out ++ out', p)
  end.

(** Decode [n] headers; stop at the first one that is incomplete or malformed. *)
Fixpoint decode_all (n : nat) (iter : list Z) (p : HPacker) : outcome (list Header * list Z * HPacker) :=
  match n with
  | O => Ok ([], iter, p)
  | S n =>
      '(rc, h, iter, p) ← Decode iter (mk_header [] []) p;
      if rc <=? 0 then Ok ([], iter, p)
      else
        '(hs, iter, p) ← decode_all n iter p;
        Ok (h :: hs, iter, p)
  end.

Definition stream_ok (l : list (Header * HPackOptions)) : Prop :=
  Forall (fun ho => text_ok (fst ho) /\ wire_ok (fst ho) (snd ho)) l.

(** A header that is to be added to the table and that has an empty name or an
    empty value. *)
Definition half_empty (ho : Header * HPackOptions) : Prop :=
  index_policy (snd ho) = HPACK_INDEX_HEADER /\ (name (fst ho) = [] \/ value (fst ho) = []).

Lemma Encode_nonempty h o p out p' : Encode h o p = Ok (out, p') -> 0 < zlen out.
Proof.
  unfold Encode. set (index := if decide _ then _ else _). case_if.
  - intros [= <- _]. unfold EncodeInteger. case_if; rewrite zlen_cons;
      match goal with |- context [zlen ?l] => pose proof (zlen_nonneg l) end; lia.
  - intros (p1 & _ & [= <- _])%outcome_bind_Ok. rewrite !zlen_app.
    pose proof (EncodeString_nonempty false (value h) (encode_value o)).
    match goal with |- context [zlen ?l + (zlen ?m + _)] => pose proof (zlen_nonneg l); pose proof (zlen_nonneg m) end. lia.
Qed.

Lemma half_empty_or_full h o : text_ok h -> half_empty (h, o) \/ (index_policy o = HPACK_INDEX_HEADER -> full_entry h).
Proof.
  intros Hh. unfold half_empty; simpl. destruct (decide (index_policy o = HPACK_INDEX_HEADER)); [|by right].
  destruct (decide (name h = [])); [by left; auto|]. destruct (decide (value h = [])); [by left; auto|].
  right. intros _. split; [by apply text_ok_header|done].
Qed.

Lemma stream_spec l rest a b tbl :
  in_sync (_encode_table a) (_decode_table b) tbl -> stream_ok l -> counters_below (zlen l) a b ->
  match encode_all l a with
  | Ok (out, a') =>
      exists b' tbl', decode_all (length l) (out ++ rest) b = Ok (map (fun ho => lower (fst ho)) l, rest, b') /\
        in_sync (_encode_table a') (_decode_table b') tbl'
  | Abort =>
      fq_cap (_header_queue (_encode_table a)) = _max_size (_encode_table a) / 34 ->
      Forall full_entry tbl -> exists ho, ho ∈ l /\ half_empty ho
  | Undefined => False
  end.
Proof.
  revert a b tbl. induction l as [|[h o] l IH]; intros a b tbl Hs Hok Hc; cbn [encode_all].
  { by exists b, tbl. }
  apply Forall_cons_1 in Hok as [[Hh Hw] Hok]. rewrite zlen_cons in Hc. simpl in Hh, Hw.
  pose proof (fun r => encode_decode_one a b tbl h o (mk_header [] []) r (zlen l) Hs Hh Hw (zlen_nonneg l) Hc) as Hone.
  destruct (Encode h o a) as [[out a']| |] eqn:E; unfold mbind at 1, outcome_bind at 1.
  - apply Encode_nonempty in E as Hpos.
    destruct (encode_all l a') as [[out' a'']| |] eqn:E'; unfold mbind, outcome_bind.
    + destruct (Hone (out' ++ rest)) as (b1 & tbl1 & Hd & Hs1 & Hc1 & _).
      specialize (IH a' b1 tbl1 Hs1 Hok Hc1). rewrite E' in IH. destruct IH as (b' & tbl' & Hd' & Hs').
      exists b', tbl'. split; [|done]. rewrite <- app_assoc. cbn [decode_all length]. rewrite Hd.
      unfold mbind, outcome_bind. decide_if. by rewrite Hd'.
    + destruct (Hone rest) as (b1 & tbl1 & _ & Hs1 & Hc1 & Hm & Hcap1 & Ht). intros Hcap Hf.
      destruct (half_empty_or_full h o Hh) as [He|Hfe]; [exists (h, o); split; [by left|done]|].
      specialize (IH a' b1 tbl1 Hs1 Hok Hc1). rewrite E', Hm, Hcap1 in IH.
      destruct (IH Hcap) as (ho & Hin & Hv); [|exists ho; split; [by right|done]].
      destruct Ht as [-> |(Hp & _ & ->)]; [done|]. apply full_entry_add; [done|by apply Hfe].
    + destruct (Hone rest) as (b1 & tbl1 & _ & Hs1 & Hc1 & _).
      specialize (IH a' b1 tbl1 Hs1 Hok Hc1). by rewrite E' in IH.
  - destruct (Hone rest) as [Hp Hstop]. intros Hcap Hf.
    destruct (half_empty_or_full h o Hh) as [He|Hfe]; [exists (h, o); split; [by left|done]|]. specialize (Hfe Hp).
    destruct Hstop as [Hnil|[Hfull Hfit]]; [by destruct Hfe as [((? & _) & _) _]|].
    pose proof (storage_slot (_max_size (_encode_table a)) _ tbl h (Z.le_refl _) Hf Hfe Hfit). lia.
  - by destruct (Hone rest).
Qed.

(** Both ends of a new connection. *)
Lemma HPacker_Init_spec limit :
  34 <= limit -> limit / 34 <= 2 ^ 23 ->
  exists p, HPacker_Init limit = Ok (Some p) /\ in_sync (_encode_table p) (_decode_table p) [] /\
    _max_size (_encode_table p) = limit /\
    fq_cap (_header_queue (_encode_table p)) = limit / 34 /\
    _add_times (_encode_table p) = 0 /\ _add_times (_decode_table p) = 0.
Proof.
  intros Hl Hc. unfold HPacker_Init. destruct static_table_repr as (_ & _ & _ & _ & ->).
  destruct (Init_dynamic limit 62 true Hl Hc ltac:(lia)) as (e & -> & He & He1 & He2 & He3 & He4 & He5).
  destruct (Init_dynamic limit 62 false Hl Hc ltac:(lia)) as (d & -> & Hd & Hd1 & Hd2 & Hd3 & Hd4 & Hd5).
  eexists. split; [done|]. simpl. unfold in_sync. split_and!; (done || congruence).
Qed.

(** C1: HPACK round trip.  Two ends that start with the same table size, of at
    least one entry of 34 bytes and at most 2^23 of them, exchange a stream of up
    to 2^31 headers, each sent with its own indexing and Huffman options.  Names
    have no zero byte, names and values are shorter than 2^27 bytes and, as they
    are sent, than the 10 MB to which the decoder limits its integers.  The
    receiver obtains exactly the headers that were sent, names in lower case, and
    consumes exactly their bytes.  The sender never runs into undefined behaviour,
    and it is stopped by a failed check only if some header with an empty name or
    an empty value is sent with incremental indexing. *)
Theorem hpack_stream_roundtrip limit l rest :
  34 <= limit -> limit / 34 <= 2 ^ 23 -> stream_ok l -> zlen l <= 2 ^ 31 ->
  exists p, HPacker_Init limit = Ok (Some p) /\
    match encode_all l p with
    | Ok (out, _) =>
        exists p', decode_all (length l) (out ++ rest) p = Ok (map (fun ho => lower (fst ho)) l, rest, p')
    | Abort => exists ho, ho ∈ l /\ half_empty ho
    | Undefined => False
    end.
Proof.
  intros Hl Hc Hok Hn. destruct (HPacker_Init_spec limit Hl Hc) as (p & E & Hs & H1 & H2 & H3 & H4).
  exists p. split; [done|]. pose proof (stream_spec l rest p p [] Hs Hok) as Hst.
  destruct (encode_all l p) as [[out a']| |].
  - destruct Hst as (b' & tbl' & Hd & _); [split; lia|]. by exists b'.
  - apply Hst; [split; lia|congruence|constructor].
  - apply Hst. split; lia.
Qed.

Definition demo_stream : list (Header * HPackOptions) :=
  [(hdr ":method" "GET", default_hpack_options);
   (hdr "User-Agent" "flare", default_hpack_options);
   (hdr "user-agent" "flare", default_hpack_options);
   (hdr "x-token" "secret", mk_hpack_options HPACK_NEVER_INDEX_HEADER true true)].

Lemma hpack_stream_roundtrip_witness :
  exists p out p' p'', HPacker_Init 4096 = Ok (Some p) /\ encode_all demo_stream p = Ok (out, p') /\
    decode_all 4 (out ++ [1; 2]) p =
    Ok ([hdr ":method" "GET"; hdr "user-agent" "flare"; hdr "user-agent" "flare"; hdr "x-token" "secret"],
        [1; 2], p'').
Proof.
  destruct (hpack_stream_roundtrip 4096 demo_stream [1; 2]) as (p & E & Hs);
    [lia|vm_compute; congruence| |vm_compute; congruence|].
  - repeat apply Forall_cons_2; [..|apply Forall_nil_2];
      (split; [apply header_ok_text, header_okb_ok; vm_compute; reflexivity|split; vm_compute; reflexivity]).
  - destruct (encode_all demo_stream p) as [[out p']| |] eqn:Ee.
    + destruct Hs as [p'' Hd]. exists p, out, p', p''. split; [exact E|]. split; [exact Ee|exact Hd].
    + exfalso. destruct Hs as (ho & Hin & Hv). revert ho Hin Hv.
      apply (proj1 (Forall_forall (fun ho => half_empty ho -> False) demo_stream)).
      repeat apply Forall_cons_2; [..|apply Forall_nil_2]; vm_compute; intros [? [?|?]]; discriminate.
    + destruct Hs.
Defined.
