(* ===== verification/HpackSafety.v ===== *)
(** * The HPACK decoder on arbitrary input

    [Decode] of [flare/rpc/details/hpack.cc] reads what a peer sent.  Whatever
    the bytes are, it consumes a prefix of them, keeps the decoder's table
    well formed and within its size limit, and ends: the recursion after a
    size update is bounded by the input.  The inputs that stop the process, or
    for which a shift is undefined, are characterized. *)

From S2P Require Import Prelude BoundedQueue FlatMap CharOps HpackTables Huffman HpackPrims.
From S2P Require Import HpackIndexTable HPacker.
Local Open Scope Z_scope.

(** [iter'] is what is left of [iter] after [n] bytes. *)
Definition consumed (n : Z) (iter iter' : list Z) : Prop := exists l, iter = l ++ iter' /\ zlen l = n.

Definition suffix_of (iter' iter : list Z) : Prop := exists n, consumed n iter iter'.

Lemma consumed_cons n b iter iter' : consumed n iter iter' -> consumed (n + 1) (b :: iter) iter'.
Proof. intros (l & -> & Hl). exists (b :: l). rewrite zlen_cons. split; [done|lia]. Qed.

Lemma consumed_trans n m i1 i2 i3 : consumed n i1 i2 -> consumed m i2 i3 -> consumed (n + m) i1 i3.
Proof.
  intros (l1 & -> & H1) (l2 & -> & H2). exists (l1 ++ l2). rewrite app_assoc, zlen_app. split; [done|lia].
Qed.

Lemma suffix_refl i : suffix_of i i.
Proof. exists 0, []. by rewrite zlen_nil. Qed.

Lemma suffix_trans i1 i2 i3 : suffix_of i1 i2 -> suffix_of i2 i3 -> suffix_of i1 i3.
Proof. intros [n H1] [m H2]. exists (m + n). by eapply consumed_trans. Qed.

Lemma consumed_suffix n i i' : consumed n i i' -> suffix_of i' i.
Proof. intros H. by exists n. Qed.

Lemma consumed_len n i i' : consumed n i i' -> zlen i = n + zlen i' /\ 0 <= n.
Proof. intros (l & -> & Hl). rewrite zlen_app. pose proof (zlen_nonneg l). lia. Qed.

Create HintDb hpack.
#[export] Hint Resolve consumed_cons consumed_trans suffix_refl suffix_trans consumed_suffix : hpack.

(** ** Primitives *)

(** [cont] are bytes with the bit that says that the integer goes on. *)
Definition continued (cont : list Z) : Prop := Forall (fun c => Z.land c 128 <> 0) cont.

(** At the front is an integer behind a prefix of [k] bits of which ten bytes say
    that it goes on, and it does. *)
Definition overlong (k : Z) (iter : list Z) : Prop :=
  exists b cont c r, iter = b :: cont ++ c :: r /\ Z.land b (2 ^ k - 1) = 2 ^ k - 1 /\ zlen cont = 10 /\ continued cont.

Lemma decode_int_loop_result iter tmp m n :
  0 <= m -> 0 <= n -> 0 <= tmp ->
  match decode_int_loop iter tmp m n with
  | Ok (rc, v, iter') => suffix_of iter' iter /\
      (0 < rc -> consumed (rc - n) iter iter' /\ n < rc /\ 0 <= v < MAX_HPACK_INTEGER)
  | Abort => False
  | Undefined => exists cont c r, iter = cont ++ c :: r /\ continued cont /\ 64 <= m + 7 * zlen cont < Z.max 71 (m + 1)
  end.
Proof.
  revert tmp m n. induction iter as [|b iter IH]; intros tmp m n Hm Hn Ht; cbn [decode_int_loop].
  { split; [apply suffix_refl|lia]. }
  destruct (64 <=? m) eqn:Em; zbool; [exists [], b, iter; rewrite (@zlen_nil Z); split_and!; [done|constructor|lia..]|].
  set (tmp' := u64 _). pose proof (u64_range (tmp + u64 (Z.shiftl (Z.land b 127) m))) as Hr. fold tmp' in Hr.
  case_if; [|case_if; zbool].
  - specialize (IH tmp' (m + 7) (n + 1) ltac:(lia) ltac:(lia) ltac:(lia)).
    apply andb_true_iff in Heqb0 as [Hb _]. apply negb_true_iff in Hb. zbool.
    destruct (decode_int_loop _ _ _ _) as [[[rc v] iter']| |]; [|done|].
    + destruct IH as [Hs Hc]. split; [destruct Hs as [k Hk]; exists (k + 1); by apply consumed_cons|].
      intros Hpos. destruct (Hc Hpos) as (Hcon & Hlt & Hv). split; [|lia].
      replace (rc - n) with (rc - (n + 1) + 1) by lia. by apply consumed_cons.
    + destruct IH as (cont & c & r & -> & Hcont & Hlen). exists (b :: cont), c, r. rewrite zlen_cons. split_and!; [done|by constructor|lia..].
  - split; [exists 1, [b]; done|lia].
  - split; [exists 1, [b]; done|]. intros _. unfold MAX_HPACK_INTEGER in *. rewrite u32_small by lia.
    split; [|lia]. exists [b]. split; [done|]. unfold zlen. simpl. lia.
Qed.

Lemma DecodeInteger_result iter p :
  1 <= p <= 8 ->
  match DecodeInteger iter p with
  | Ok (rc, v, iter') => suffix_of iter' iter /\
      (0 < rc -> consumed rc iter iter' /\ 0 <= v < MAX_HPACK_INTEGER)
  | Abort => False
  | Undefined => overlong p iter
  end.
Proof.
  intros Hp. unfold DecodeInteger. destruct iter as [|b iter]; [split; [apply suffix_refl|lia]|].
  assert (2 ^ p <= 2 ^ 8) by (apply Z.pow_le_mono_r; lia). assert (0 < 2 ^ p) by (apply Z.pow_pos_nonneg; lia).
  assert (0 <= Z.land b (Z.shiftl 1 p - 1) < 2 ^ p) as Ht.
  { assert (Z.shiftl 1 p - 1 = Z.ones p) as -> by (rewrite Z.shiftl_1_l, Z.ones_equiv; lia).
    rewrite Z.land_ones by lia. by apply Z.mod_pos_bound. }
  rewrite Z.shiftl_1_l, (u32_small (2 ^ p - 1)) in * by lia. case_if; zbool.
  - split; [exists 1, [b]; done|]. intros _. rewrite u32_small by lia. unfold MAX_HPACK_INTEGER.
    split; [|lia]. exists [b]. done.
  - pose proof (decode_int_loop_result iter (Z.land b (2 ^ p - 1)) 0 1 ltac:(lia) ltac:(lia) ltac:(lia)) as Hl.
    destruct (decode_int_loop _ _ _ _) as [[[rc v] iter']| |]; [|done|].
    + destruct Hl as [[k Hs] Hc]. split; [exists (k + 1); by apply consumed_cons|].
      intros Hpos. destruct (Hc Hpos) as (Hcon & _ & Hv). split; [|done].
      replace rc with (rc - 1 + 1) by lia. by apply consumed_cons.
    + destruct Hl as (cont & c & r & -> & Hcont & Hlen). exists b, cont, c, r. split_and!; [done|lia..|done].
Qed.

(** Such an integer is somewhere in the input, behind a prefix of four to seven
    bits. *)
Definition has_overlong (iter : list Z) : Prop := exists k iter', suffix_of iter' iter /\ 4 <= k <= 7 /\ overlong k iter'.

Lemma overlong_has k iter : 4 <= k <= 7 -> overlong k iter -> has_overlong iter.
Proof. intros Hk H. exists k, iter. split_and!; [apply suffix_refl|lia..|done]. Qed.

Lemma has_overlong_suffix iter' iter : suffix_of iter' iter -> has_overlong iter' -> has_overlong iter.
Proof. intros Hs (k & i & Hi & H). exists k, i. split; [by eapply suffix_trans|done]. Qed.

#[export] Hint Resolve has_overlong_suffix : hpack.

Lemma decode_bit_out t b d d' : decode_bit t b d = Some d' -> zlen (d_out d') <= zlen (d_out d) + 1.
Proof.
  unfold decode_bit. destruct (node _ t) as [n|]; [|done]. case_if; [case_if; [done|]|]; intros [= <-]; simpl.
  - rewrite zlen_app. unfold zlen at 2. simpl. lia.
  - lia.
Qed.

Lemma decode_loop_out t n byte d d' :
  decode_loop t n byte d = Some d' -> zlen (d_out d') <= zlen (d_out d) + Z.of_nat n.
Proof.
  revert d. induction n as [|n IH]; intros d; cbn [decode_loop]; [intros [= <-]; lia|].
  destruct (decode_bit _ _ d) as [d1|] eqn:E; [|done]. intros Hd. apply decode_bit_out in E. apply IH in Hd. lia.
Qed.

Lemma decode_string_loop_result n iter d :
  Z.of_nat n <= zlen iter ->
  let '(r, iter') := decode_string_loop n iter d in
  suffix_of iter' iter /\
  match r with
  | None => True
  | Some d' => consumed (Z.of_nat n) iter iter' /\ zlen (d_out d') <= zlen (d_out d) + 8 * Z.of_nat n
  end.
Proof.
  revert iter d. induction n as [|n IH]; intros iter d Hn; cbn [decode_string_loop].
  { split; [apply suffix_refl|]. split; [by exists []|lia]. }
  destruct iter as [|b iter]; [rewrite zlen_nil in Hn; lia|]. rewrite zlen_cons in Hn.
  destruct (Huffman.Decode s_huffman_tree b d) as [d1|] eqn:E; [|split; [apply suffix_refl|done]].
  specialize (IH iter d1 ltac:(lia)). destruct (decode_string_loop n iter d1) as [r iter'].
  destruct IH as [[k Hk] Hr]. split; [exists (k + 1); by apply consumed_cons|].
  destruct r as [d2|]; [|done]. destruct Hr as [Hc Ho]. apply decode_loop_out in E.
  split; [rewrite Nat2Z.inj_succ; unfold Z.succ; by apply consumed_cons|lia].
Qed.

Lemma DecodeString_result iter :
  match DecodeString iter with
  | Ok (rc, s, iter') => suffix_of iter' iter /\ (0 < rc -> consumed rc iter iter' /\ zlen s < 2 ^ 27)
  | Abort => False
  | Undefined => has_overlong iter
  end.
Proof.
  unfold DecodeString. destruct iter as [|b iter]; [split; [apply suffix_refl|lia]|].
  pose proof (DecodeInteger_result (b :: iter) 7 ltac:(lia)) as Hi.
  destruct (DecodeInteger (b :: iter) 7) as [[[n len] it]| |]; unfold mbind, outcome_bind; [|done|by eapply overlong_has; [|done]].
  destruct Hi as [Hs Hc]. destruct (n <=? 0) eqn:En; zbool; [split; [done|lia]|]. destruct (Hc En) as [Hcon Hv].
  unfold MAX_HPACK_INTEGER in Hv. case_if; zbool; [split; [done|lia]|]. case_if.
  - assert (consumed len it (zdrop len it)) as Hd.
    { exists (ztake len it). rewrite ztake_zdrop, zlen_ztake by lia. done. }
    split; [eauto with hpack|]. intros _. split; [by eapply consumed_trans|].
    rewrite zlen_ztake by lia. lia.
  - pose proof (decode_string_loop_result (Z.to_nat len) it (new_decoder s_huffman_tree) ltac:(lia)) as Hl.
    destruct (decode_string_loop _ it _) as [[d|] it'].
    + destruct Hl as [Hs' [Hc' Ho]]. rewrite Z2Nat.id in * by lia. simpl in Ho. rewrite zlen_nil in Ho.
      case_if; (split; [by eapply suffix_trans|]); intros Hpos; [|lia].
      split; [by eapply consumed_trans|lia].
    + destruct Hl as [Hs' _]. split; [by eapply suffix_trans|lia].
Qed.

(** ** The decoder *)

Definition short_header (h : Header) : Prop := zlen (name h) < 2 ^ 27 /\ zlen (HpackIndexTable.value h) < 2 ^ 27.

Lemma HeaderAt_short i p tbl h :
  table_repr (_decode_table p) tbl -> HPacker_HeaderAt i p = Some h -> short_header h.
Proof.
  intros [Hd _]. destruct static_table_repr as (_ & [Hs _] & _). unfold HPacker_HeaderAt. hide_static st.
  assert (forall (t : Table) l, table_inv t l -> HeaderAt i t = Some h -> short_header h) as Hgen.
  { intros t l Hi. rewrite (HeaderAt_spec t l) by done. case_if; [done|]. intros Hg.
    destruct Hi as (_ & _ & Hf & _). unfold zget in Hg. case_if_in Hg; [done|].
    rewrite Forall_lookup in Hf. by apply Hf in Hg as (_ & ? & ?). }
  case_if; [by apply (Hgen _ tbl)|by apply (Hgen _ static_headers)].
Qed.

Lemma DecodeWithKnownPrefix_result iter h k p tbl :
  4 <= k <= 6 -> table_repr (_decode_table p) tbl ->
  match DecodeWithKnownPrefix iter h k p with
  | Ok (rc, h', iter') => suffix_of iter' iter /\ (0 < rc -> consumed rc iter iter' /\ short_header h')
  | Abort => False
  | Undefined => has_overlong iter
  end.
Proof.
  intros Hk Hr. unfold DecodeWithKnownPrefix. pose proof (DecodeInteger_result iter k ltac:(lia)) as Hi.
  destruct (DecodeInteger iter k) as [[[n i] it]| |]; unfold mbind at 1, outcome_bind at 1; [|done|by apply (overlong_has k); [lia|]].
  destruct Hi as [Hs Hc]. destruct (n <=? 0) eqn:En; zbool; [split; [done|lia]|]. destruct (Hc En) as [Hcon _].
  assert (forall nb nm it', 0 <= nb -> consumed nb it it' -> zlen nm < 2 ^ 27 ->
    match '(value_bytes, v, iter) ← DecodeString it';
          if value_bytes <=? 0 then Ok (-1, h, iter) else Ok (n + nb + value_bytes, mk_header nm v, iter) with
    | Ok (rc, h', iter') => suffix_of iter' iter /\ (0 < rc -> consumed rc iter iter' /\ short_header h')
    | Abort => False
    | Undefined => has_overlong iter
    end) as Hval.
  { intros nb nm it' Hnb Hn Hl. pose proof (DecodeString_result it') as Hv. apply consumed_len in Hcon as ?, Hn as ?.
    destruct (DecodeString it') as [[[vb v] it'']| |]; unfold mbind, outcome_bind; [|done|eauto with hpack].
    destruct Hv as [Hs' Hc']. assert (suffix_of it'' iter) by eauto with hpack.
    destruct (vb <=? 0) eqn:Ev; zbool; (split; [done|]); [lia|]. intros _. destruct (Hc' Ev) as [Hc2 Hl2].
    split; [|done]. eapply consumed_trans; [|done]. by eapply consumed_trans. }
  case_if.
  - destruct (HPacker_HeaderAt (s32 i) p) as [h'|] eqn:Eh; [|split; [done|lia]].
    apply (HeaderAt_short _ _ tbl) in Eh as [Hl _]; [|done]. apply Hval; [lia|by exists []|done].
  - pose proof (DecodeString_result it) as Hn. apply consumed_len in Hcon as ?.
    destruct (DecodeString it) as [[[nb nm] it']| |]; unfold mbind at 1, outcome_bind at 1; [|done|eauto with hpack].
    destruct Hn as [Hs' Hc']. destruct (nb <=? 0) eqn:Eb; zbool; [split; [by eapply suffix_trans|lia]|].
    destruct (Hc' Eb) as [Hc2 Hl2]. apply Hval; [lia|done|by rewrite zlen_tolower].
Qed.

(** The dynamic table size updates that [Decode] has handled before it reads the
    representation of a header: from the input [iter] and the packer [p] to
    [iter'] and [p']. *)
Inductive size_updates : list Z -> HPacker -> list Z -> HPacker -> Prop :=
| no_update iter p : size_updates iter p iter p
| one_update b iter p n m it t iter' p' :
    2 <= Z.shiftr b 4 < 4 -> DecodeInteger (b :: iter) 5 = Ok (n, m, it) -> 0 < n -> m <= DEFAULT_HEADER_TABLE_SIZE ->
    ResetMaxSize m (_decode_table p) = Ok t -> size_updates it (mk_hpacker (_encode_table p) t) iter' p' ->
    size_updates (b :: iter) p iter' p'.

(** The header that the input gives with incremental indexing, after the size
    updates, has an empty name, or it fits into the limit of the table but finds
    no slot. *)
Definition bad_entry (iter : list Z) (h : Header) (p : HPacker) : Prop :=
  exists b iter1 p1 n h1 it tbl, size_updates iter p (b :: iter1) p1 /\ table_repr (_decode_table p1) tbl /\
    4 <= Z.shiftr b 4 < 8 /\ DecodeWithKnownPrefix (b :: iter1) h 6 p1 = Ok (n, h1, it) /\ 0 < n /\
    (name h1 = [] \/ HeaderSize h1 <= _max_size (_decode_table p1) /\
       zlen (fit (_max_size (_decode_table p1) - HeaderSize h1) tbl) = fq_cap (_header_queue (_decode_table p1))).

(** What a call returns.  The return value counts the bytes of the representation
    and not those of the size updates. *)
Definition decode_result (iter : list Z) (h : Header) (p : HPacker) (r : outcome (Z * Header * list Z * HPacker)) : Prop :=
  match r with
  | Ok (rc, h', iter', p') =>
      (exists iter1 p1, size_updates iter p iter1 p1 /\ suffix_of iter' iter1 /\
         (0 < rc -> consumed rc iter1 iter' /\ short_header h') /\
         (p' = p1 \/ 0 < rc /\ AddHeader h' (_decode_table p1) = Ok (_decode_table p'))) /\
      suffix_of iter' iter /\ _encode_table p' = _encode_table p /\
      (exists tbl', table_repr (_decode_table p') tbl') /\
      _max_size (_decode_table p') <= Z.max (_max_size (_decode_table p)) DEFAULT_HEADER_TABLE_SIZE
  | Abort => bad_entry iter h p
  | Undefined => has_overlong iter
  end.

Lemma add_decoded h p tbl :
  table_repr (_decode_table p) tbl -> _need_indexes (_decode_table p) = false ->
  _add_times (_decode_table p) < 2 ^ 31 -> short_header h ->
  match AddHeader h (_decode_table p) with
  | Ok t => (exists tbl', table_repr t tbl') /\ _max_size t = _max_size (_decode_table p)
  | Abort => name h = [] \/ HeaderSize h <= _max_size (_decode_table p) /\
       zlen (fit (_max_size (_decode_table p) - HeaderSize h) tbl) = fq_cap (_header_queue (_decode_table p))
  | Undefined => False
  end.
Proof.
  intros Hr Hn Ht Hs. destruct (name h) as [|c n] eqn:En.
  - assert (AddHeader h (_decode_table p) = Abort) as -> by (unfold AddHeader; by rewrite En). by left.
  - assert (entry_ok h) as Hok by (destruct Hs; split; [by rewrite En|done]).
    pose proof (AddHeader_spec _ tbl h Hr Hok ltac:(rewrite Hn; done) Ht) as Ha. case_if_in Ha.
    + rewrite Ha. apply andb_true_iff in Heqb as [H1 H2]. apply negb_true_iff in H1. zbool. by right.
    + destruct Ha as (t & -> & Hr' & (_ & _ & Hm & _) & Hat). split; [by eexists|done].
Qed.

Lemma decode_result_same iter iter' rc h h' p tbl :
  table_repr (_decode_table p) tbl -> suffix_of iter' iter -> (0 < rc -> consumed rc iter iter' /\ short_header h') ->
  decode_result iter h p (Ok (rc, h', iter', p)).
Proof.
  intros Hr Hs Hc. unfold decode_result. split_and!; [|done..|by eexists|lia].
  exists iter, p. split_and!; [constructor|done..|by left].
Qed.

Lemma decode_result_after b iter it n m h p t r :
  2 <= Z.shiftr b 4 < 4 -> DecodeInteger (b :: iter) 5 = Ok (n, m, it) -> 0 < n -> m <= DEFAULT_HEADER_TABLE_SIZE ->
  ResetMaxSize m (_decode_table p) = Ok t -> _max_size t = m -> consumed n (b :: iter) it ->
  decode_result it h (mk_hpacker (_encode_table p) t) r -> decode_result (b :: iter) h p r.
Proof.
  intros Hb Hd Hn Hm Hres Hmt Hc. assert (suffix_of it (b :: iter)) as Hsuf by (by exists n).
  destruct r as [[[[rc h'] iter'] p']| |]; simpl.
  - intros ((iter1 & p1 & Hu & Hrest) & Hs & He & Ht & Hlim). split_and!; [|by eapply suffix_trans|done..|simpl in *; lia].
    exists iter1, p1. split; [by econstructor|done].
  - intros (b1 & iter1 & p1 & n1 & h1 & it1 & tbl & Hu & Hrest). exists b1, iter1, p1, n1, h1, it1, tbl. split; [by econstructor|done].
  - eauto with hpack.
Qed.

Lemma decode_rec_result fuel iter h p tbl :
  (length iter <= fuel)%nat -> table_repr (_decode_table p) tbl -> _need_indexes (_decode_table p) = false ->
  _add_times (_decode_table p) < 2 ^ 31 -> decode_result iter h p (decode_rec fuel iter h p).
Proof.
  revert iter p tbl. induction fuel as [|fuel IH]; intros iter p tbl Hf Hr Hn Ht;
    (destruct iter as [|b iter]; [by eapply decode_result_same; [done|apply suffix_refl|lia]|]).
  { simpl in Hf. lia. }
  cbn [decode_rec]. case_if; [|case_if; [|case_if]]; zbool.
  - pose proof (DecodeInteger_result (b :: iter) 7 ltac:(lia)) as Hi.
    destruct (DecodeInteger (b :: iter) 7) as [[[n i] it]| |]; unfold mbind, outcome_bind; [|done|by eapply overlong_has; [|done]].
    destruct Hi as [Hs Hc]. case_if; zbool; [|case_match eqn:Eh]; apply (decode_result_same _ _ _ _ _ _ tbl); try done;
      intros Hpos; try lia. split; [by apply Hc|by eapply HeaderAt_short].
  - pose proof (DecodeWithKnownPrefix_result (b :: iter) h 6 p tbl ltac:(lia) Hr) as Hi.
    destruct (DecodeWithKnownPrefix (b :: iter) h 6 p) as [[[n h'] it]| |] eqn:Ed; unfold mbind, outcome_bind; [|done..].
    destruct Hi as [Hs Hc]. destruct (n <=? 0) eqn:En; zbool; [apply (decode_result_same _ _ _ _ _ _ tbl); try done; lia|].
    destruct (Hc En) as [Hcon Hsh]. pose proof (add_decoded h' p tbl Hr Hn Ht Hsh) as Ha.
    destruct (AddHeader h' (_decode_table p)) as [t| |] eqn:Eadd; [| |done].
    + destruct Ha as (Htb & Hm). split_and!; [|done..|simpl; lia]. exists (b :: iter), p. split_and!; [constructor|done..|by right].
    + exists b, iter, p, n, h', it, tbl. split_and!; [constructor|done|lia|lia|done..].
  - pose proof (DecodeInteger_result (b :: iter) 5 ltac:(lia)) as Hi.
    destruct (DecodeInteger (b :: iter) 5) as [[[n m] it]| |] eqn:Ed; unfold mbind, outcome_bind; [|done|by eapply overlong_has; [|done]].
    destruct Hi as [Hs Hc]. destruct (n <=? 0) eqn:En; zbool; [apply (decode_result_same _ _ _ _ _ _ tbl); try done; lia|].
    destruct (DEFAULT_HEADER_TABLE_SIZE <? m) eqn:Em; zbool; [apply (decode_result_same _ _ _ _ _ _ tbl); try done; lia|].
    destruct (Hc En) as [Hcon Hv]. unfold DEFAULT_HEADER_TABLE_SIZE in Em.
    destruct (ResetMaxSize_spec (_decode_table p) tbl m Hr ltac:(lia)) as (t & Eres & Hr' & Hm & _ & Hn' & Hcap & Hat). rewrite Eres.
    apply (decode_result_after _ _ it n m _ _ t); try done.
    apply (IH _ _ (fit m tbl)); simpl; [|done|congruence|congruence].
    apply consumed_len in Hcon. rewrite zlen_cons in Hcon. unfold zlen in Hcon. simpl in Hf. lia.
  - pose proof (DecodeWithKnownPrefix_result (b :: iter) h 4 p tbl ltac:(lia) Hr) as Hi.
    destruct (DecodeWithKnownPrefix (b :: iter) h 4 p) as [[[n h'] it]| |]; unfold mbind, outcome_bind; [|done..].
    destruct Hi as [Hs Hc]. by apply (decode_result_same _ _ _ _ _ _ tbl).
Qed.

(** C2: the HPACK decoder on arbitrary bytes, with a well-formed table to which
    fewer than 2^31 headers have been added.  [Decode] ends, after at most one
    level of recursion per byte.  When it returns, it has handled some size
    updates and then either failed or read the representation of a header behind
    them: a positive return value is the number of bytes of that representation,
    without those of the size updates, what is left is behind it, and the table
    is the one after the size updates, with the header added if it was to be
    indexed.  The table is well formed, with a limit that never exceeds the
    default 4096 or the one before, and the encoder's table is untouched.  A check
    stops the process only if the header that the input gives with incremental
    indexing has an empty name or finds no slot ([bad_entry]).  Behaviour is
    undefined only if an integer of the input goes on for more than ten bytes
    ([has_overlong]). *)
Theorem hpack_decode_safe iter h p tbl :
  table_repr (_decode_table p) tbl -> _need_indexes (_decode_table p) = false ->
  _add_times (_decode_table p) < 2 ^ 31 ->
  match Decode iter h p with
  | Ok (rc, h', iter', p') =>
      (exists iter1 p1, size_updates iter p iter1 p1 /\ suffix_of iter' iter1 /\
         (0 < rc -> consumed rc iter1 iter' /\ short_header h') /\
         (p' = p1 \/ 0 < rc /\ AddHeader h' (_decode_table p1) = Ok (_decode_table p'))) /\
      suffix_of iter' iter /\ _encode_table p' = _encode_table p /\
      (exists tbl', table_repr (_decode_table p') tbl') /\
      _max_size (_decode_table p') <= Z.max (_max_size (_decode_table p)) DEFAULT_HEADER_TABLE_SIZE
  | Abort => bad_entry iter h p
  | Undefined => has_overlong iter
  end.
Proof. intros Hr Hn Ht. exact (decode_rec_result (length iter) iter h p tbl (le_n _) Hr Hn Ht). Qed.

Lemma hpack_decode_safe_witness :
  exists p rc h' p', HPacker_Init 4096 = Ok (Some p) /\
    Decode [0x40; 1; 120; 1; 121; 7] (hdr "" "") p = Ok (rc, h', [7], p') /\
    exists tbl', table_repr (_decode_table p') tbl'.
Proof.
  destruct (HPacker_Init_spec 4096) as (p & E & (_ & Hr & _) & _ & _ & _ & Ht); [lia|vm_compute; congruence|].
  assert (_need_indexes (_decode_table p) = false /\
    exists rc h' p', Decode [0x40; 1; 120; 1; 121; 7] (hdr "" "") p = Ok (rc, h', [7], p')) as [Hn (rc & h' & p' & Hd)].
  { assert (HPacker_Init 4096 = Ok (Some p)) as E' by done. vm_compute in E'. injection E' as <-.
    split; [vm_compute; reflexivity|]. do 3 eexists. vm_compute. reflexivity. }
  exists p, rc, h', p'. split; [exact E|]. split; [exact Hd|].
  pose proof (hpack_decode_safe [0x40; 1; 120; 1; 121; 7] (hdr "" "") p [] Hr Hn ltac:(lia)) as Hs.
  rewrite Hd in Hs. destruct Hs as (_ & _ & _ & Htb & _). exact Htb.
Defined.

(** Inputs that stop the process: a literal with incremental indexing and an
    empty name (four bytes), and an index with a run of empty continuation
    bytes. *)
Lemma hpack_remote_abort :
  exists p, HPacker_Init 4096 = Ok (Some p) /\
    Decode [0x40; 0; 1; 121] (hdr "" "") p = Abort /\
    Decode ([0xff] ++ replicate 11 0x80) (hdr "" "") p = Undefined.
Proof.
  destruct (HPacker_Init_spec 4096) as (p & E & _); [lia|vm_compute; congruence|].
  exists p. split; [done|]. vm_compute in E. injection E as <-. split; vm_compute; reflexivity.
Qed.

(** A size update is not counted in the return value: [Decode] on a
    [cord_buf] then removes too few bytes, and the rest of the header is read
    again. *)
Lemma hpack_size_update_miscounted :
  exists p p', HPacker_Init 4096 = Ok (Some p) /\
    Decode_cord [0x20; 0x82] (hdr "" "") p = Ok (1, hdr ":method" "GET", [0x82], p').
Proof.
  destruct (HPacker_Init_spec 4096) as (p & E & _); [lia|vm_compute; congruence|].
  exists p. vm_compute in E. injection E as <-. eexists. split; vm_compute; reflexivity.
Qed.
