(* ===== verification/CordBlocks.v ===== *)
(** * Blocks of [flare/io/cord_buf.cc]

    The memory behind [cord_buf]: reference-counted blocks, the thread-local
    chain of blocks with room left that consecutive appends share, and the
    operations on both.  A pointer is an integer, 0 is null; the heap maps the
    pointers of the blocks that are alive, so a use after free is a failed
    lookup, the outcome [Undefined].  [avail] is the number of blocks that can
    still be allocated: [create_block] returns null when it is 0.

    [mem_ok m refs owners] is the invariant of the memory: the reference
    counter of every block is the number of [BlockRef]s ([refs], all those of
    all buffers) and of owners (the thread-local chain and blocks held by a
    writer) that point to it, every reference designates initialized bytes of
    a live block, and no block is owned twice.  The lemmas show that each
    primitive keeps it and never touches bytes that a reference can see. *)

From S2P Require Import Prelude.
Local Open Scope Z_scope.

Record Block := mk_block {
  nshared : Z;
  flags : Z;
  b_size : Z;
  cap : Z;
  portal_next : Z;
  data : list Z;
}.

Record BlockRef := mk_ref {
  offset : Z;
  r_length : Z;
  block : Z;
}.

#[export] Instance BlockRef_eq_dec : EqDecision BlockRef.
Proof. solve_decision. Defined.

Record mem := mk_mem {
  blocks : gmap Z Block;
  next_block : Z;        (* the address the next allocation returns *)
  avail : nat;
  block_head : Z;        (* TLSData *)
  num_blocks : Z;
}.

(** Code that reads and writes the memory. *)
Definition M (A : Type) : Type := mem -> outcome (A * mem).

#[export] Instance M_ret : MRet M := fun A a m => Ok (a, m).
#[export] Instance M_bind : MBind M := fun A B f x m =>
  match x m with Ok (a, m') => f a m' | Abort => Abort | Undefined => Undefined end.

(** Undefined behaviour and a failed check. *)
Definition undefined {A} : M A := fun _ => Undefined.
Definition aborted {A} : M A := fun _ => Abort.

Definition DEFAULT_BLOCK_SIZE : Z := 8192.
Definition sizeof_Block : Z := 32.
Definition CORD_BUF_BLOCK_FLAGS_USER_DATA : Z := 1.
Definition MAX_BLOCKS_PER_THREAD : Z := 8.

Definition get_mem : M mem := fun m => Ok (m, m).

Definition get_block (b : Z) : M Block := fun m =>
  match blocks m !! b with Some blk => Ok (blk, m) | None => Undefined end.

Definition set_block (b : Z) (blk : Block) : M unit := fun m =>
  Ok (tt, mk_mem (<[b := blk]> (blocks m)) (next_block m) (avail m) (block_head m) (num_blocks m)).

Definition free_block (b : Z) : M unit := fun m =>
  Ok (tt, mk_mem (delete b (blocks m)) (next_block m) (avail m) (block_head m) (num_blocks m)).

Definition set_tls (head num : Z) : M unit := fun m =>
  Ok (tt, mk_mem (blocks m) (next_block m) (avail m) head num).

Definition set_nshared (n : Z) (blk : Block) : Block :=
  mk_block n (flags blk) (b_size blk) (cap blk) (portal_next blk) (data blk).
Definition set_size (n : Z) (blk : Block) : Block :=
  mk_block (nshared blk) (flags blk) n (cap blk) (portal_next blk) (data blk).
Definition set_portal_next (n : Z) (blk : Block) : Block :=
  mk_block (nshared blk) (flags blk) (b_size blk) (cap blk) n (data blk).
Definition set_data (d : list Z) (blk : Block) : Block :=
  mk_block (nshared blk) (flags blk) (b_size blk) (cap blk) (portal_next blk) d.

Definition full (blk : Block) : bool := cap blk <=? b_size blk.
Definition left_space (blk : Block) : Z := cap blk - b_size blk.

(** The counter of the source is an [int], which 2^31 references would overflow. *)
Definition inc_ref (b : Z) : M unit :=
  blk ← get_block b;
  set_block b (set_nshared (nshared blk + 1) blk).

(** The last reference frees the block (and, for user data, runs the deleter). *)
Definition dec_ref (b : Z) : M unit :=
  blk ← get_block b;
  if nshared blk =? 1 then free_block b
  else set_block b (set_nshared (nshared blk - 1) blk).

Definition alloc_block (blk : Block) : M Z := fun m =>
  match avail m with
  | O => Ok (0, m)
  | S n => Ok (next_block m,
               mk_mem (<[next_block m := blk]> (blocks m)) (next_block m + 1) n (block_head m) (num_blocks m))
  end.

Definition create_block (block_size : Z) : M Z :=
  if 0xFFFFFFFF <? block_size then mret 0
  else alloc_block (mk_block 1 0 0 (block_size - sizeof_Block) 0
                      (replicate (Z.to_nat (block_size - sizeof_Block)) 0)).

(** [memcpy] into a block. *)
Definition write_at (off : Z) (s : list Z) (d : list Z) : list Z :=
  ztake off d ++ s ++ zdrop (off + zlen s) d.

Definition cp_into (b off : Z) (s : list Z) : M unit :=
  blk ← get_block b;
  if (0 <=? off) && (off + zlen s <=? cap blk) then set_block b (set_data (write_at off s (data blk)) blk)
  else undefined.

(** Drop the full blocks at the head of the chain; [fuel] bounds its length. *)
Fixpoint skip_full (fuel : nat) (b num : Z) : M (Z * Z) :=
  if b =? 0 then mret (b, num)
  else
    blk ← get_block b;
    if full blk then
      match fuel with
      | O => undefined
      | S fuel =>
          let saved_next := portal_next blk in
          _ ← dec_ref b;
          skip_full fuel saved_next (num - 1)
      end
    else mret (b, num).

Definition share_tls_block : M Z :=
  m ← get_mem;
  let b := block_head m in
  '(new_block, num) ← skip_full (Z.to_nat (num_blocks m)) b (num_blocks m);
  if new_block =? 0 then
    new_block ← create_block DEFAULT_BLOCK_SIZE;
    _ ← set_tls new_block (if new_block =? 0 then num else num + 1);
    mret new_block
  else
    _ ← set_tls new_block num;
    mret new_block.

Definition release_tls_block (b : Z) : M unit :=
  if b =? 0 then mret tt
  else
    m ← get_mem;
    blk ← get_block b;
    if full blk then dec_ref b
    else if MAX_BLOCKS_PER_THREAD <=? num_blocks m then dec_ref b
    else
      _ ← set_block b (set_portal_next (block_head m) blk);
      set_tls b (num_blocks m + 1).

Definition acquire_tls_block : M Z :=
  m ← get_mem;
  if block_head m =? 0 then create_block DEFAULT_BLOCK_SIZE
  else
    '(b, num) ← skip_full (Z.to_nat (num_blocks m)) (block_head m) (num_blocks m);
    if b =? 0 then
      _ ← set_tls 0 num;
      create_block DEFAULT_BLOCK_SIZE
    else
      blk ← get_block b;
      _ ← set_tls (portal_next blk) (num - 1);
      _ ← set_block b (set_portal_next 0 blk);
      mret b.

(** [remove_tls_block_chain], run at the exit of a thread. *)
Fixpoint dec_chain (fuel : nat) (b : Z) (n : Z) : M Z :=
  if b =? 0 then mret n
  else
    match fuel with
    | O => undefined
    | S fuel =>
        blk ← get_block b;
        let saved_next := portal_next blk in
        _ ← dec_ref b;
        dec_chain fuel saved_next (n + 1)
    end.

Definition remove_tls_block_chain : M unit :=
  m ← get_mem;
  if block_head m =? 0 then mret tt
  else
    _ ← set_tls 0 (num_blocks m);
    n ← dec_chain (Z.to_nat (num_blocks m)) (block_head m) 0;
    if n =? num_blocks m then set_tls 0 0 else aborted.

(** ** Contents of references *)

Definition slice (m : mem) (r : BlockRef) : list Z :=
  match blocks m !! block r with
  | Some b => ztake (r_length r) (zdrop (offset r) (data b))
  | None => []
  end.

Definition bytes (m : mem) (rs : list BlockRef) : list Z := concat (map (slice m) rs).

(** ** Counting references *)

Fixpoint occ (x : Z) (l : list Z) : Z :=
  match l with
  | [] => 0
  | y :: l => (if decide (y = x) then 1 else 0) + occ x l
  end.

Lemma occ_nonneg x l : 0 <= occ x l.
Proof. induction l as [|y l IH]; simpl; [lia|]. destruct (decide _); lia. Qed.

Lemma occ_app x l1 l2 : occ x (l1 ++ l2) = occ x l1 + occ x l2.
Proof. induction l1 as [|y l1 IH]; simpl; [lia|]. rewrite IH. lia. Qed.

Lemma occ_elem x l : x ∈ l <-> 0 < occ x l.
Proof.
  induction l as [|y l IH]; simpl.
  - split; [intros H; by apply not_elem_of_nil in H|lia].
  - rewrite elem_of_cons. pose proof (occ_nonneg x l). destruct (decide (y = x)) as [->|Hne].
    + split; [lia|by left].
    + rewrite IH. split; [intros [->|H0]; [done|lia]|right; lia].
Qed.

Lemma occ_perm x l1 l2 : l1 ≡ₚ l2 -> occ x l1 = occ x l2.
Proof. induction 1; simpl; lia. Qed.

Lemma occ_nodup x l : NoDup l -> x ∈ l -> occ x l = 1.
Proof.
  induction 1 as [|y l Hy _ IH]; simpl; [intros H; by apply not_elem_of_nil in H|].
  rewrite elem_of_cons. intros [->|Hx].
  - rewrite decide_True by done. assert (~ 0 < occ y l) by (by rewrite <- occ_elem).
    pose proof (occ_nonneg y l). lia.
  - rewrite decide_False by (intros ->; done). rewrite IH by done. lia.
Qed.

(** ** Invariant *)

Definition ref_ok (m : mem) (r : BlockRef) : Prop :=
  exists b, blocks m !! block r = Some b /\ 0 <= offset r /\ 0 < r_length r /\
    offset r + r_length r <= b_size b.

Definition block_ok (m : mem) (refs : list BlockRef) (owners : list Z) (id : Z) (b : Block) : Prop :=
  0 < id < next_block m /\ 0 <= b_size b <= cap b /\ cap b < 2 ^ 30 /\ zlen (data b) = cap b /\
  nshared b = occ id (map block refs) + occ id owners /\ 0 < nshared b.

Record blocks_ok (m : mem) (refs : list BlockRef) (owners : list Z) : Prop := {
  ok_block id b : blocks m !! id = Some b -> block_ok m refs owners id b;
  ok_refs : Forall (ref_ok m) refs;
  ok_owners : Forall (fun id => is_Some (blocks m !! id)) owners;
  ok_nodup : NoDup owners;
  ok_next : 0 < next_block m;
}.

(** The chain of blocks linked by [portal_next] from [h]. *)
Fixpoint chain (m : mem) (h : Z) (l : list Z) : Prop :=
  match l with
  | [] => h = 0
  | id :: l => h = id /\ exists b, blocks m !! id = Some b /\ chain m (portal_next b) l
  end.

(** [held]: the blocks owned by a writer rather than by the chain. *)
Definition mem_ok (m : mem) (refs : list BlockRef) (held : list Z) : Prop :=
  exists l, chain m (block_head m) l /\ num_blocks m = zlen l /\ blocks_ok m refs (l ++ held).

(** Bytes that [refs] can see are the same. *)
Definition unchanged (refs : list BlockRef) (m m' : mem) : Prop :=
  Forall (fun r => slice m' r = slice m r) refs.

Lemma unchanged_refl refs m : unchanged refs m m.
Proof. by apply Forall_forall. Qed.

Lemma unchanged_trans refs m1 m2 m3 : unchanged refs m1 m2 -> unchanged refs m2 m3 -> unchanged refs m1 m3.
Proof. unfold unchanged. rewrite !Forall_forall. intros H1 H2 r Hr. by rewrite H2, H1. Qed.

Lemma unchanged_app refs1 refs2 m m' :
  unchanged (refs1 ++ refs2) m m' <-> unchanged refs1 m m' /\ unchanged refs2 m m'.
Proof. apply Forall_app. Qed.

Lemma unchanged_bytes refs m m' : unchanged refs m m' -> bytes m' refs = bytes m refs.
Proof.
  unfold bytes. induction 1 as [|r refs Hr _ IH]; [done|]. simpl. by rewrite Hr, IH.
Qed.

Lemma blocks_ok_perm m refs refs' owners owners' :
  refs ≡ₚ refs' -> owners ≡ₚ owners' -> blocks_ok m refs owners -> blocks_ok m refs' owners'.
Proof.
  intros Hr Ho [H1 H2 H3 H4 H5]. constructor.
  - intros id b Hb. destruct (H1 id b Hb) as (? & ? & ? & ? & Hn & ?). unfold block_ok.
    rewrite <- (occ_perm id (map block refs) (map block refs')) by (by apply Permutation_map).
    by rewrite <- (occ_perm id owners owners').
  - by rewrite <- Hr.
  - by rewrite <- Ho.
  - by rewrite <- Ho.
  - done.
Qed.

Lemma mem_ok_perm m refs refs' held held' :
  refs ≡ₚ refs' -> held ≡ₚ held' -> mem_ok m refs held -> mem_ok m refs' held'.
Proof.
  intros Hr Hh (l & Hc & Hn & Hb). exists l. split_and!; [done..|].
  eapply blocks_ok_perm; [done| |done]. by apply Permutation_app.
Qed.

(** Two memories with blocks that differ only in what the chain ignores. *)
Lemma chain_same m m' h l :
  (forall id b, id ∈ l -> blocks m !! id = Some b ->
     exists b', blocks m' !! id = Some b' /\ portal_next b' = portal_next b) ->
  chain m h l -> chain m' h l.
Proof.
  revert h. induction l as [|id l IH]; intros h Hs; simpl; [done|].
  intros (-> & b & Hb & Hc). split; [done|]. destruct (Hs id b) as (b' & Hb' & Hp); [by left|done|].
  exists b'. split; [done|]. rewrite Hp. apply IH; [|done]. intros id' b0 Hin. apply Hs. by right.
Qed.

Lemma chain_elem m h l id : chain m h l -> id ∈ l -> is_Some (blocks m !! id).
Proof.
  revert h. induction l as [|id' l IH]; intros h; simpl; [intros _ H; by apply not_elem_of_nil in H|].
  intros (-> & b & Hb & Hc). rewrite elem_of_cons. intros [->|Hin]; [done|by eapply IH].
Qed.

(** ** Reference counters *)

Definition with_blocks (f : gmap Z Block -> gmap Z Block) (m : mem) : mem :=
  mk_mem (f (blocks m)) (next_block m) (avail m) (block_head m) (num_blocks m).

(** [m'] differs from [m] only in the counters of the blocks in [P] (and
    arbitrarily outside). *)
Definition keeps (P : Z -> Prop) (m m' : mem) : Prop :=
  block_head m' = block_head m /\ num_blocks m' = num_blocks m /\ next_block m' = next_block m /\
  avail m' = avail m /\
  forall id b, P id -> blocks m !! id = Some b -> exists n, blocks m' !! id = Some (set_nshared n b).

Definition held_by (refs : list BlockRef) (owners : list Z) (id : Z) : Prop :=
  id ∈ map block refs \/ id ∈ owners.

Lemma keeps_refl P m : keeps P m m.
Proof. split_and!; try done. intros id b _ Hb. exists (nshared b). rewrite Hb. by destruct b. Qed.

Lemma keeps_trans (P Q : Z -> Prop) m1 m2 m3 :
  (forall id, Q id -> P id) -> keeps P m1 m2 -> keeps Q m2 m3 -> keeps Q m1 m3.
Proof.
  intros HPQ (A1 & A2 & A3 & A4 & A5) (B1 & B2 & B3 & B4 & B5). split_and!; try congruence.
  intros id b Hq Hb. destruct (A5 id b) as [n Hn]; [auto|done|].
  destruct (B5 id _ Hq Hn) as [n' Hn']. exists n'. rewrite Hn'. done.
Qed.

Lemma keeps_impl (P Q : Z -> Prop) m m' : (forall id, Q id -> P id) -> keeps P m m' -> keeps Q m m'.
Proof. intros HPQ (A1 & A2 & A3 & A4 & A5). split_and!; try done. intros id b Hq. apply A5. auto. Qed.

Lemma keeps_slice P m m' r : keeps P m m' -> P (block r) -> ref_ok m r -> slice m' r = slice m r.
Proof.
  intros (_ & _ & _ & _ & Hk) HP (b & Hb & _). unfold slice. rewrite Hb.
  destruct (Hk _ b HP Hb) as [n ->]. done.
Qed.

Lemma keeps_ref_ok P m m' r : keeps P m m' -> P (block r) -> ref_ok m r -> ref_ok m' r.
Proof.
  intros (_ & _ & _ & _ & Hk) HP (b & Hb & Ho & Hl & Hs). destruct (Hk _ b HP Hb) as [n Hn].
  exists (set_nshared n b). done.
Qed.

Lemma keeps_chain P m m' l h : keeps P m m' -> Forall P l -> chain m h l -> chain m' h l.
Proof.
  intros (_ & _ & _ & _ & Hk) HP. apply chain_same. intros id b Hin Hb.
  rewrite Forall_forall in HP. destruct (Hk id b (HP id Hin) Hb) as [n Hn]. by exists (set_nshared n b).
Qed.

Lemma keeps_unchanged refs owners m m' :
  keeps (held_by refs owners) m m' -> Forall (ref_ok m) refs -> unchanged refs m m'.
Proof.
  intros Hk Hr. unfold unchanged. rewrite Forall_forall in *. intros r Hin.
  eapply keeps_slice; [done| |by apply Hr]. left. by apply list_elem_of_fmap_2.
Qed.

Lemma inc_ref_spec m refs owners r :
  blocks_ok m refs owners -> ref_ok m r ->
  exists m', inc_ref (block r) m = Ok (tt, m') /\ blocks_ok m' (r :: refs) owners /\ keeps (fun _ => True) m m'.
Proof.
  intros [H1 H2 H3 H4 H5] Hr. pose proof Hr as (b & Hb & Hrest).
  set (m' := with_blocks (<[block r := set_nshared (nshared b + 1) b]>) m).
  assert (keeps (fun _ => True) m m') as Hk.
  { split_and!; try done. intros id b' _ Hb'. simpl. destruct (decide (id = block r)) as [->|Hne].
    - rewrite lookup_insert. rewrite Hb in Hb'. injection Hb' as <-. rewrite decide_True by done. by eexists.
    - rewrite lookup_insert_ne by done. exists (nshared b'). rewrite Hb'. by destruct b'. }
  exists m'. split.
  { unfold inc_ref, mbind, M_bind, get_block, set_block. by rewrite Hb. }
  split; [|done]. constructor.
  - intros id b'. simpl. destruct (decide (id = block r)) as [->|Hne].
    + rewrite lookup_insert, decide_True by done. intros [= <-].
      destruct (H1 _ b Hb) as (? & ? & ? & ? & Hn & ?). unfold block_ok in *. simpl.
      rewrite decide_True by done. split_and!; try done; lia.
    + rewrite lookup_insert_ne by done. intros Hb'. destruct (H1 _ b' Hb') as (? & ? & ? & ? & Hn & ?).
      unfold block_ok in *. simpl. rewrite decide_False by congruence. split_and!; try done; lia.
  - constructor; [by eapply keeps_ref_ok|]. eapply Forall_impl; [done|]. intros r' Hr'. by eapply keeps_ref_ok.
  - eapply Forall_impl; [done|]. intros id [b' Hb']. destruct Hk as (_ & _ & _ & _ & Hk).
    destruct (Hk id b' I Hb') as [n Hn]. by eexists.
  - done.
  - done.
Qed.

(** Dropping one holder of a block. *)
Lemma dec_ref_core m refs owners refs' owners' id :
  blocks_ok m refs owners -> is_Some (blocks m !! id) ->
  (forall x, occ x (map block refs) + occ x owners =
     occ x (map block refs') + occ x owners' + (if decide (id = x) then 1 else 0)) ->
  (forall r, r ∈ refs' -> r ∈ refs) -> (forall x, x ∈ owners' -> x ∈ owners) -> NoDup owners' ->
  exists m', dec_ref id m = Ok (tt, m') /\ blocks_ok m' refs' owners' /\ keeps (held_by refs' owners') m m'.
Proof.
  intros [H1 H2 H3 H4 H5] [b Hb] Hocc Hr Ho Hnd. pose proof (H1 id b Hb) as (Hid & Hsz & Hcap & Hd & Hn & Hpos).
  pose proof (Hocc id) as Hoid. rewrite decide_True in Hoid by done.
  pose proof (occ_nonneg id (map block refs')). pose proof (occ_nonneg id owners').
  set (m' := if nshared b =? 1 then with_blocks (delete id) m
             else with_blocks (<[id := set_nshared (nshared b - 1) b]>) m).
  assert (forall x b', blocks m !! x = Some b' -> x <> id -> blocks m' !! x = Some b') as Hother.
  { intros x b' Hb' Hne. subst m'. case_if; simpl; [by rewrite lookup_delete_ne|by rewrite lookup_insert_ne]. }
  assert (forall x b', blocks m' !! x = Some b' -> x <> id /\ blocks m !! x = Some b' \/
            x = id /\ b' = set_nshared (nshared b - 1) b /\ 1 < nshared b) as Hinv.
  { intros x b'. subst m'. case_if; zbool; simpl; destruct (decide (x = id)) as [->|Hne].
    - by rewrite lookup_delete, decide_True by done.
    - rewrite lookup_delete_ne by done. by left.
    - rewrite lookup_insert, decide_True by done. intros [= <-]. right. split_and!; [done..|lia].
    - rewrite lookup_insert_ne by done. by left. }
  assert (next_block m' = next_block m /\ block_head m' = block_head m /\ num_blocks m' = num_blocks m /\
    avail m' = avail m) as (Hnx & Hbh & Hnb & Hav) by (subst m'; by case_if).
  assert (forall x, held_by refs' owners' x -> forall b', blocks m !! x = Some b' ->
    exists n, blocks m' !! x = Some (set_nshared n b')) as Hheld.
  { intros x Hx b' Hb'. destruct (decide (x = id)) as [->|Hne].
    - rewrite Hb in Hb'. injection Hb' as <-. assert (1 < nshared b) as Hlt.
      { destruct Hx as [Hx|Hx]; apply occ_elem in Hx; lia. }
      exists (nshared b - 1). subst m'. rewrite (proj2 (Z.eqb_neq _ 1)) by lia. simpl.
      by rewrite lookup_insert, decide_True by done.
    - exists (nshared b'). rewrite (Hother x b' Hb' Hne). by destruct b'. }
  assert (keeps (held_by refs' owners') m m') as Hk by (split_and!; try done; intros; by apply Hheld).
  exists m'. split.
  { unfold dec_ref, mbind, M_bind, get_block, set_block, free_block. rewrite Hb. subst m'. by case_if. }
  split; [|done]. constructor.
  - intros x b' Hb'. unfold block_ok. rewrite Hnx. destruct (Hinv x b' Hb') as [[Hne Hbx]|(-> & -> & Hlt)].
    + destruct (H1 x b' Hbx) as (? & ? & ? & ? & Hnx' & ?). specialize (Hocc x).
      rewrite decide_False in Hocc by congruence. split_and!; try done; lia.
    + simpl. split_and!; try done; lia.
  - apply Forall_forall. intros r Hin. rewrite Forall_forall in H2.
    eapply keeps_ref_ok; [done| |by apply H2, Hr]. left. by apply list_elem_of_fmap_2.
  - apply Forall_forall. intros x Hin. rewrite Forall_forall in H3. destruct (H3 x (Ho x Hin)) as [b' Hb'].
    destruct (Hheld x (or_intror Hin) b' Hb') as [n Hn']. by eexists.
  - done.
  - by rewrite Hnx.
Qed.

Lemma dec_ref_ref m r refs owners :
  blocks_ok m (r :: refs) owners ->
  exists m', dec_ref (block r) m = Ok (tt, m') /\ blocks_ok m' refs owners /\ keeps (held_by refs owners) m m'.
Proof.
  intros Hok. apply (dec_ref_core m (r :: refs) owners); try done.
  - destruct Hok as [_ H2 _ _ _]. apply Forall_cons_1 in H2 as [(b & Hb & _) _]. by eexists.
  - intros x. simpl. lia.
  - intros r' Hin. by right.
  - by destruct Hok.
Qed.

Lemma dec_ref_owner m id refs owners :
  blocks_ok m refs (id :: owners) ->
  exists m', dec_ref id m = Ok (tt, m') /\ blocks_ok m' refs owners /\ keeps (held_by refs owners) m m'.
Proof.
  intros Hok. apply (dec_ref_core m refs (id :: owners)); try done.
  - destruct Hok as [_ _ H3 _ _]. by apply Forall_cons_1 in H3 as [? _].
  - intros x. simpl. lia.
  - intros x Hin. by right.
  - destruct Hok as [_ _ _ H4 _]. by apply NoDup_cons in H4 as [_ ?].
Qed.

(** ** The thread-local chain *)

(** Blocks of the chain that survive are a suffix of it. *)
Lemma skip_full_spec fuel m refs l held h num :
  blocks_ok m refs (l ++ held) -> chain m h l -> (Datatypes.length l <= fuel)%nat ->
  exists m' l0 l' h', l = l0 ++ l' /\ skip_full fuel h num m = Ok (h', num - zlen l0, m') /\
    blocks_ok m' refs (l' ++ held) /\ chain m' h' l' /\ keeps (held_by refs (l' ++ held)) m m' /\
    (h' <> 0 -> exists blk, blocks m' !! h' = Some blk /\ full blk = false).
Proof.
  assert (forall m l h num, blocks_ok m refs (l ++ held) -> chain m h l ->
    (h <> 0 -> exists blk, blocks m !! h = Some blk /\ full blk = false) ->
    exists m' l0 l' h', l = l0 ++ l' /\ Ok (h, num, m) = Ok (h', num - zlen l0, m') /\
      blocks_ok m' refs (l' ++ held) /\ chain m' h' l' /\ keeps (held_by refs (l' ++ held)) m m' /\
      (h' <> 0 -> exists blk, blocks m' !! h' = Some blk /\ full blk = false)) as Hstop.
  { intros m0 l0 h0 num0 Hok Hc Hh. exists m0, [], l0, h0. rewrite (@zlen_nil Z), Z.sub_0_r.
    split_and!; try done. apply keeps_refl. }
  revert m l h num. induction fuel as [|fuel IH]; intros m l h num Hok Hc Hf.
  - destruct l as [|id l]; [|simpl in Hf; lia]. simpl in Hc. subst h. by apply Hstop.
  - destruct l as [|id l]; [simpl in Hc; subst h; by apply Hstop|].
    pose proof Hc as (-> & b & Hb & Hcl). simpl in Hf.
    assert (0 < id) as Hpos by (destruct (ok_block _ _ _ Hok id b Hb) as [? _]; lia).
    cbn [skip_full]. rewrite (proj2 (Z.eqb_neq id 0)) by lia.
    unfold mbind, M_bind, get_block. rewrite Hb. destruct (full b) eqn:Efull.
    + destruct (dec_ref_owner m id refs (l ++ held) Hok) as (m1 & Ed & Hok1 & Hk1). rewrite Ed.
      assert (chain m1 (portal_next b) l) as Hc1.
      { eapply keeps_chain; [done| |done]. apply Forall_forall. intros x Hx. right. apply elem_of_app. by left. }
      destruct (IH m1 l (portal_next b) (num - 1) Hok1 Hc1 ltac:(lia)) as (m' & l0 & l' & h' & -> & E & Hok' & Hc' & Hk' & Hh').
      exists m', (id :: l0), l', h'. rewrite E, zlen_cons. split_and!; try done.
      * by replace (num - (zlen l0 + 1)) with (num - 1 - zlen l0) by lia.
      * eapply keeps_trans; [|exact Hk1|exact Hk']. intros x [Hx|Hx]; [by left|right].
        rewrite <- app_assoc. apply elem_of_app. by right.
    + apply Hstop; [done..|]. intros _. by exists b.
Qed.

Definition fresh_block (blk : Block) : Prop :=
  nshared blk = 1 /\ 0 <= b_size blk <= cap blk /\ cap blk < 2 ^ 30 /\ zlen (data blk) = cap blk.

(** Allocation: null, or a new block owned by the caller. *)
Lemma alloc_block_spec m refs owners blk :
  blocks_ok m refs owners -> fresh_block blk ->
  exists m' b, alloc_block blk m = Ok (b, m') /\
    block_head m' = block_head m /\ num_blocks m' = num_blocks m /\
    (b = 0 /\ m' = m /\ avail m = O \/
     0 < b /\ blocks_ok m' refs (b :: owners) /\ blocks m' !! b = Some blk /\
     (forall id blk, blocks m !! id = Some blk -> blocks m' !! id = Some blk)).
Proof.
  intros Hok (Hf1 & Hf2 & Hf3 & Hf4). unfold alloc_block.
  destruct (avail m) as [|n] eqn:Ea; [exists m, 0; split_and!; try done; by left|].
  remember (next_block m) as id eqn:Eid. eexists _, id. split; [done|]. simpl. split_and!; try done. right.
  destruct Hok as [H1 H2 H3 H4 H5]. unfold block_ok in H1. rewrite <- Eid in H1, H5.
  assert (blocks m !! id = None) as Hnone.
  { destruct (blocks m !! id) as [b|] eqn:E; [|done]. destruct (H1 id b E) as [? _]. lia. }
  assert (forall x b, blocks m !! x = Some b -> <[id:=blk]> (blocks m) !! x = Some b) as Hext.
  { intros x b Hb. rewrite lookup_insert_ne; [done|]. intros <-. congruence. }
  assert (occ id (map block refs) = 0 /\ occ id owners = 0) as [Hoc1 Hoc2].
  { pose proof (occ_nonneg id (map block refs)). pose proof (occ_nonneg id owners).
    rewrite Forall_forall in H2. rewrite Forall_forall in H3. split.
    - destruct (decide (0 < occ id (map block refs))) as [Hlt|]; [|lia].
      apply occ_elem, list_elem_of_fmap in Hlt as (r & -> & Hr). destruct (H2 r Hr) as (b & Hb & _). congruence.
    - destruct (decide (0 < occ id owners)) as [Hlt|]; [|lia].
      apply occ_elem in Hlt. destruct (H3 id Hlt) as [b Hb]. congruence. }
  split_and!; [lia| |by rewrite lookup_insert, decide_True by done|done].
  constructor; simpl.
  - intros x b. unfold block_ok. simpl. destruct (decide (x = id)) as [->|Hne].
    + rewrite lookup_insert, decide_True by done. intros [= <-]. rewrite decide_True by done. split_and!; lia.
    + rewrite lookup_insert_ne by done. intros Hb. destruct (H1 x b Hb) as (? & ? & ? & ? & ? & ?).
      rewrite decide_False by done. split_and!; try done; lia.
  - eapply Forall_impl; [done|]. intros r (b & Hb & Hrest). exists b. split; [by apply Hext|done].
  - constructor; [by rewrite lookup_insert, decide_True by done|].
    eapply Forall_impl; [done|]. intros x [b Hb]. exists b. by apply Hext.
  - apply NoDup_cons. split; [|done]. rewrite occ_elem. lia.
  - lia.
Qed.

Definition default_block : Block := mk_block 1 0 0 8160 0 (replicate (Z.to_nat 8160) 0).

Lemma create_block_default : create_block DEFAULT_BLOCK_SIZE = alloc_block default_block.
Proof. done. Qed.

Lemma default_block_fresh : fresh_block default_block.
Proof.
  unfold fresh_block, default_block. cbn [nshared b_size cap data]. unfold zlen. rewrite length_replicate.
  split_and!; lia.
Qed.

#[global] Opaque default_block.

(** The blocks in [P] keep everything but their counter. *)
Definition keeps_blocks (P : Z -> Prop) (m m' : mem) : Prop :=
  forall id b, P id -> blocks m !! id = Some b -> exists n, blocks m' !! id = Some (set_nshared n b).

Lemma keeps_keeps_blocks P m m' : keeps P m m' -> keeps_blocks P m m'.
Proof. by intros (_ & _ & _ & _ & Hk). Qed.

Lemma keeps_blocks_trans (P Q : Z -> Prop) m1 m2 m3 :
  (forall id, Q id -> P id) -> keeps_blocks P m1 m2 -> keeps_blocks Q m2 m3 -> keeps_blocks Q m1 m3.
Proof.
  intros HPQ H1 H2 id b Hq Hb. destruct (H1 id b (HPQ id Hq) Hb) as [n Hn]. destruct (H2 id _ Hq Hn) as [n' Hn'].
  by exists n'.
Qed.

Lemma keeps_blocks_ext P m m' :
  (forall id b, blocks m !! id = Some b -> blocks m' !! id = Some b) -> keeps_blocks P m m'.
Proof. intros H id b _ Hb. exists (nshared b). rewrite (H _ _ Hb). by destruct b. Qed.

Lemma keeps_blocks_unchanged refs held m m' :
  keeps_blocks (held_by refs held) m m' -> Forall (ref_ok m) refs -> unchanged refs m m'.
Proof.
  intros Hk Hr. unfold unchanged. rewrite Forall_forall in *. intros r Hin.
  destruct (Hr r Hin) as (b & Hb & _). unfold slice. rewrite Hb.
  destruct (Hk (block r) b) as [n ->]; [left; by apply list_elem_of_fmap_2|done|done].
Qed.

Lemma mem_ok_refs m refs held : mem_ok m refs held -> Forall (ref_ok m) refs.
Proof. intros (l & _ & _ & Hok). by destruct Hok. Qed.

Lemma mem_ok_set_tls m refs held l head num :
  chain m head l -> num = zlen l -> blocks_ok m refs (l ++ held) ->
  mem_ok (mk_mem (blocks m) (next_block m) (avail m) head num) refs held.
Proof.
  intros Hc Hn [H1 H2 H3 H4 H5]. exists l. split_and!; try done.
  - eapply chain_same; [|exact Hc]. intros id b _ Hb. by exists b.
Qed.

Lemma share_tls_block_spec m refs held :
  mem_ok m refs held ->
  exists m' b, share_tls_block m = Ok (b, m') /\ mem_ok m' refs held /\
    keeps_blocks (held_by refs held) m m' /\
    (b = 0 /\ avail m' = O \/ 0 < b /\ exists blk, blocks m' !! b = Some blk /\ b_size blk < cap blk).
Proof.
  intros (l & Hc & Hn & Hok). unfold share_tls_block, mbind, M_bind, get_mem.
  destruct (skip_full_spec (Z.to_nat (num_blocks m)) m refs l held (block_head m) (num_blocks m) Hok Hc)
    as (m1 & l0 & l' & h' & -> & E & Hok1 & Hc1 & Hk1 & Hh1); [rewrite Hn; unfold zlen; lia|].
  rewrite E. rewrite zlen_app in Hn.
  assert (keeps_blocks (held_by refs held) m m1) as Hkb.
  { apply keeps_keeps_blocks. eapply keeps_impl; [|exact Hk1]. intros x [Hx|Hx]; [by left|right].
    apply elem_of_app. by right. }
  destruct (h' =? 0) eqn:Eh; zbool.
  - subst h'. rewrite create_block_default.
    destruct (alloc_block_spec m1 refs (l' ++ held) default_block Hok1 default_block_fresh)
      as (m2 & b & -> & Hbh & Hnb & Hcase).
    assert (l' = []) as ->.
    { destruct l' as [|id l']; [done|]. destruct Hc1 as (<- & b0 & Hb0 & _).
      destruct (ok_block _ _ _ Hok1 0 b0 Hb0) as [? _]. lia. }
    destruct Hcase as [(-> & -> & Hav)|(Hpos & Hok2 & Hb & Hext)]; unfold set_tls, mret, M_ret.
    + eexists _, 0. split; [done|]. split; [|split; [exact Hkb|by left]].
      apply (mem_ok_set_tls m1 refs held []); [done| |done].
      rewrite (@zlen_nil Z) in *. simpl. lia.
    + rewrite (proj2 (Z.eqb_neq b 0)) by lia. eexists _, b. split; [done|]. split; [|split].
      * apply (mem_ok_set_tls m2 refs held [b]); [|unfold zlen in *; simpl in *; lia|done].
        simpl. split; [done|]. exists default_block. split; [done|]. reflexivity.
      * eapply keeps_blocks_trans; [|exact Hkb|apply keeps_blocks_ext; exact Hext]. done.
      * right. split; [done|]. exists default_block. split; [done|]. by vm_compute.
  - unfold set_tls, mret, M_ret. eexists _, h'. split; [done|]. split; [|split; [exact Hkb|right]].
    + apply (mem_ok_set_tls m1 refs held l'); [done|lia|done].
    + destruct l' as [|id l']; [by simpl in Hc1|]. destruct Hc1 as (-> & b0 & Hb0 & _).
      destruct (ok_block _ _ _ Hok1 id b0 Hb0) as [? _].
      destruct (Hh1 Eh) as (blk & Hblk & Hfull). split; [lia|]. exists blk. split; [done|].
      unfold full in Hfull. zbool. done.
Qed.

(** ** Writing behind the used part of a block *)

Lemma zlen_write_at p s d : 0 <= p -> p + zlen s <= zlen d -> zlen (write_at p s d) = zlen d.
Proof.
  intros Hp Hl. pose proof (zlen_nonneg s). unfold write_at.
  rewrite !zlen_app, zlen_ztake, zlen_zdrop by lia. lia.
Qed.

Lemma write_at_self p s d : 0 <= p -> p + zlen s <= zlen d -> ztake (zlen s) (zdrop p (write_at p s d)) = s.
Proof.
  intros Hp Hl. pose proof (zlen_nonneg s). unfold write_at.
  rewrite zdrop_app_exact by (rewrite zlen_ztake; lia). by rewrite ztake_app_exact.
Qed.

Lemma write_at_below p s d off n :
  0 <= off -> 0 <= n -> off + n <= p -> p + zlen s <= zlen d ->
  ztake n (zdrop off (write_at p s d)) = ztake n (zdrop off d).
Proof.
  intros Ho Hn Hp Hl. pose proof (zlen_nonneg s). unfold write_at, ztake, zdrop.
  rewrite drop_app_le by (rewrite length_take; unfold zlen in *; lia).
  rewrite take_app_le by (rewrite length_drop, length_take; unfold zlen in *; lia).
  rewrite skipn_firstn_comm, take_take. f_equal. lia.
Qed.

Definition extended (s : list Z) (blk : Block) : Block :=
  set_size (b_size blk + zlen s) (set_data (write_at (b_size blk) s (data blk)) blk).

Definition extend_mem (b : Z) (s : list Z) (blk : Block) (m : mem) : mem :=
  with_blocks (<[b := extended s blk]>) m.

Lemma extend_mem_spec m refs held b blk s :
  mem_ok m refs held -> blocks m !! b = Some blk -> 0 < zlen s <= left_space blk ->
  let r := mk_ref (b_size blk) (zlen s) b in
  mem_ok (extend_mem b s blk m) refs held /\ unchanged refs m (extend_mem b s blk m) /\
  ref_ok (extend_mem b s blk m) r /\ slice (extend_mem b s blk m) r = s /\ zlen s < 2 ^ 30 /\
  0 <= b_size blk < 2 ^ 30.
Proof.
  intros (l & Hc & Hn & [H1 H2 H3 H4 H5]) Hb [Hs0 Hs] r. unfold left_space in Hs.
  pose proof (H1 b blk Hb) as (Hid & Hsz & Hcap & Hd & Hns & Hpos).
  assert (forall id b0, blocks m !! id = Some b0 -> exists b', blocks (extend_mem b s blk m) !! id = Some b' /\
    portal_next b' = portal_next b0 /\ nshared b' = nshared b0 /\ cap b' = cap b0 /\
    b_size b0 <= b_size b' <= cap b' /\ zlen (data b') = zlen (data b0) /\
    (forall off n, 0 <= off -> 0 <= n -> off + n <= b_size b0 ->
       ztake n (zdrop off (data b')) = ztake n (zdrop off (data b0)))) as Hext.
  { intros id b0 Hb0. simpl. destruct (decide (id = b)) as [->|Hne].
    - rewrite lookup_insert, decide_True by done. assert (b0 = blk) as -> by congruence.
      eexists. split; [done|]. simpl. rewrite zlen_write_at by lia. split_and!; try done; try lia.
      intros off n ? ? ?. apply write_at_below; lia.
    - rewrite lookup_insert_ne by done. exists b0. destruct (H1 id b0 Hb0) as (_ & ? & _). split_and!; try done; lia. }
  split_and!; try lia.
  - exists l. split_and!; try done.
    + eapply chain_same; [|exact Hc]. intros id b0 _ Hb0. destruct (Hext id b0 Hb0) as (b' & ? & ? & _). by exists b'.
    + constructor; try done.
      * intros id b' Hb'. simpl in Hb'. destruct (decide (id = b)) as [->|Hne].
        -- rewrite lookup_insert, decide_True in Hb' by done. injection Hb' as <-.
           unfold block_ok. simpl. rewrite zlen_write_at by lia. split_and!; try done; lia.
        -- rewrite lookup_insert_ne in Hb' by done. exact (H1 id b' Hb').
      * eapply Forall_impl; [exact H2|]. intros r' (b0 & Hb0 & ? & ? & ?).
        destruct (Hext _ b0 Hb0) as (b' & Hb' & _ & _ & _ & ? & _). exists b'. split_and!; try done. lia.
      * eapply Forall_impl; [exact H3|]. intros id [b0 Hb0]. destruct (Hext id b0 Hb0) as (b' & ? & _). by exists b'.
  - unfold unchanged. eapply Forall_impl; [exact H2|]. intros r' (b0 & Hb0 & ? & ? & ?). unfold slice. rewrite Hb0.
    destruct (Hext _ b0 Hb0) as (b' & -> & _ & _ & _ & _ & _ & Hw). apply Hw; lia.
  - exists (extended s blk). subst r. simpl. rewrite lookup_insert, decide_True by done. split_and!; try done; lia.
  - unfold slice. subst r. simpl. rewrite lookup_insert, decide_True by done. simpl. apply write_at_self; lia.
Qed.

(** ** Blocks held by a writer *)

Lemma blocks_ok_portal_next m refs owners b blk n :
  blocks m !! b = Some blk -> blocks_ok m refs owners ->
  blocks_ok (with_blocks (<[b := set_portal_next n blk]>) m) refs owners.
Proof.
  intros Hb [H1 H2 H3 H4 H5]. constructor; try done.
  - intros id b'. simpl. destruct (decide (id = b)) as [->|Hne].
    + rewrite lookup_insert, decide_True by done. intros [= <-]. exact (H1 b blk Hb).
    + rewrite lookup_insert_ne by done. apply H1.
  - eapply Forall_impl; [exact H2|]. intros r (b0 & Hb0 & ?). destruct (decide (block r = b)) as [Heq|Hne].
    + exists (set_portal_next n blk). simpl. rewrite Heq, lookup_insert, decide_True by done.
      split; [done|]. rewrite Heq in Hb0. assert (b0 = blk) as -> by congruence. done.
    + exists b0. simpl. by rewrite lookup_insert_ne.
  - eapply Forall_impl; [exact H3|]. intros id [b0 Hb0]. simpl. destruct (decide (id = b)) as [->|Hne].
    + rewrite lookup_insert, decide_True by done. by eexists.
    + rewrite lookup_insert_ne by done. by eexists.
Qed.

Lemma chain_portal_next m b blk n h l :
  b ∉ l -> blocks m !! b = Some blk -> chain m h l -> chain (with_blocks (<[b := set_portal_next n blk]>) m) h l.
Proof.
  intros Hnin Hb. apply chain_same. intros id b0 Hin Hb0. exists b0. simpl.
  rewrite lookup_insert_ne; [done|]. by intros <-.
Qed.

Lemma portal_next_unchanged m b blk n refs :
  blocks m !! b = Some blk -> Forall (ref_ok m) refs ->
  unchanged refs m (with_blocks (<[b := set_portal_next n blk]>) m).
Proof.
  intros Hb Hr. eapply Forall_impl; [exact Hr|]. intros r (b0 & Hb0 & _). unfold slice. rewrite Hb0. simpl.
  destruct (decide (block r = b)) as [Heq|Hne].
  - rewrite Heq, lookup_insert, decide_True by done. rewrite Heq in Hb0. by assert (b0 = blk) as -> by congruence.
  - by rewrite lookup_insert_ne, Hb0.
Qed.

(** Giving a block back: to the chain if it has room and the chain is short,
    otherwise the owner's reference is dropped. *)
Lemma release_tls_block_spec m refs held b :
  mem_ok m refs (b :: held) ->
  exists m', release_tls_block b m = Ok (tt, m') /\ mem_ok m' refs held /\ unchanged refs m m'.
Proof.
  intros (l & Hc & Hn & Hok).
  assert (is_Some (blocks m !! b)) as [blk Hb].
  { destruct Hok as [_ _ H3 _ _]. rewrite Forall_forall in H3. apply H3. apply elem_of_app. right. by left. }
  assert (0 < b) as Hpos by (destruct (ok_block _ _ _ Hok b blk Hb) as [? _]; lia).
  assert (b ∉ l) as Hnin.
  { destruct Hok as [_ _ _ H4 _]. apply NoDup_app in H4 as (_ & Hd & _). intros Hin. apply (Hd b Hin). by left. }
  unfold release_tls_block. rewrite (proj2 (Z.eqb_neq b 0)) by lia. unfold mbind, M_bind, get_mem, get_block. rewrite Hb.
  assert (blocks_ok m refs (b :: l ++ held)) as Hok'.
  { eapply blocks_ok_perm; [done| |exact Hok]. by rewrite Permutation_middle. }
  assert (exists m', dec_ref b m = Ok (tt, m') /\ mem_ok m' refs held /\ unchanged refs m m') as Hdec.
  { destruct (dec_ref_owner m b refs (l ++ held) Hok') as (m' & E & Hokm & Hk). exists m'. split; [done|]. split.
    - exists l. pose proof Hk as (Hbh & Hnb & _). rewrite Hbh, Hnb. split_and!; try done.
      eapply keeps_chain; [exact Hk| |done]. apply Forall_forall. intros x Hx. right. apply elem_of_app. by left.
    - eapply keeps_unchanged; [exact Hk|by destruct Hok]. }
  case_if; [done|]. case_if; [done|]. unfold set_block, set_tls. eexists. split; [done|]. split.
  - set (m1 := with_blocks (<[b := set_portal_next (block_head m) blk]>) m).
    apply (mem_ok_set_tls m1 refs held (b :: l)).
    + simpl. split; [done|]. exists (set_portal_next (block_head m) blk). rewrite lookup_insert, decide_True by done.
      split; [done|]. simpl. by apply chain_portal_next.
    + rewrite zlen_cons. lia.
    + by apply blocks_ok_portal_next.
  - apply portal_next_unchanged; [done|by destruct Hok].
Qed.

(** Taking a block out of the chain (or allocating one) for exclusive use. *)
Lemma acquire_tls_block_spec m refs held :
  mem_ok m refs held ->
  exists m' b, acquire_tls_block m = Ok (b, m') /\ unchanged refs m m' /\
    (b = 0 /\ mem_ok m' refs held \/
     0 < b /\ mem_ok m' refs (b :: held) /\ exists blk, blocks m' !! b = Some blk /\ b_size blk < cap blk).
Proof.
  intros (l & Hc & Hn & Hok). unfold acquire_tls_block, mbind, M_bind, get_mem.
  assert (forall m1, blocks_ok m1 refs held -> block_head m1 = 0 -> num_blocks m1 = 0 ->
    exists m' b, create_block DEFAULT_BLOCK_SIZE m1 = Ok (b, m') /\ unchanged refs m1 m' /\
    (b = 0 /\ mem_ok m' refs held \/
     0 < b /\ mem_ok m' refs (b :: held) /\ exists blk, blocks m' !! b = Some blk /\ b_size blk < cap blk)) as Hcreate.
  { intros m1 Hok1 Hh1 Hn1. rewrite create_block_default.
    destruct (alloc_block_spec m1 refs held default_block Hok1 default_block_fresh) as (m2 & b & E & Hbh & Hnb & Hcase).
    exists m2, b. split; [done|]. destruct Hcase as [(-> & -> & _)|(Hpos & Hok2 & Hb & Hext)].
    - split; [apply unchanged_refl|]. left. split; [done|]. by exists [].
    - split; [apply (keeps_blocks_unchanged refs held); [by apply keeps_blocks_ext|by destruct Hok1]|].
      right. split_and!; [done| |].
      + exists []. by rewrite Hbh, Hnb.
      + exists default_block. split; [done|]. by vm_compute. }
  destruct (block_head m =? 0) eqn:Eh; zbool.
  { assert (l = []) as ->.
    { destruct l as [|id l]; [done|]. rewrite Eh in Hc. destruct Hc as (<- & b0 & Hb0 & _).
      destruct (ok_block _ _ _ Hok 0 b0 Hb0) as [? _]. lia. }
    by apply Hcreate. }
  destruct (skip_full_spec (Z.to_nat (num_blocks m)) m refs l held (block_head m) (num_blocks m) Hok Hc)
    as (m1 & l0 & l' & h' & -> & E & Hok1 & Hc1 & Hk1 & Hh1); [rewrite Hn; unfold zlen; lia|].
  rewrite E. rewrite zlen_app in Hn.
  assert (unchanged refs m m1) as Hun.
  { apply (keeps_unchanged refs (l' ++ held)); [done|by destruct Hok]. }
  destruct (h' =? 0) eqn:Eh'; zbool.
  - subst h'. assert (l' = []) as ->.
    { destruct l' as [|id l']; [done|]. destruct Hc1 as (<- & b0 & Hb0 & _).
      destruct (ok_block _ _ _ Hok1 0 b0 Hb0) as [? _]. lia. }
    rewrite (@zlen_nil Z) in Hn. unfold set_tls.
    destruct (Hcreate (mk_mem (blocks m1) (next_block m1) (avail m1) 0 (num_blocks m - zlen l0)))
      as (m' & b & E' & Hun' & Hcase); [by destruct Hok1|done|simpl; lia|].
    exists m', b. split; [done|]. split; [|done]. eapply unchanged_trans; [exact Hun|exact Hun'].
  - destruct l' as [|id l']; [by simpl in Hc1|]. destruct Hc1 as (-> & b0 & Hb0 & Hc1).
    unfold get_block, set_tls, set_block, mret, M_ret. rewrite Hb0. simpl.
    assert (0 < id) by (destruct (ok_block _ _ _ Hok1 id b0 Hb0) as [? _]; lia).
    assert (id ∉ l') as Hnin.
    { destruct Hok1 as [_ _ _ H4 _]. simpl in H4. apply NoDup_cons in H4 as [H4 _]. intros Hin. apply H4.
      apply elem_of_app. by left. }
    eexists _, id. split; [done|]. split; [|right; split_and!; [done| |]].
    + eapply unchanged_trans; [exact Hun|]. apply portal_next_unchanged; [done|by destruct Hok1].
    + set (m2 := with_blocks (<[id := set_portal_next 0 b0]>) m1).
      apply (mem_ok_set_tls m2 refs (id :: held) l').
      * by apply chain_portal_next.
      * rewrite zlen_cons in Hn. lia.
      * apply blocks_ok_portal_next; [done|]. eapply blocks_ok_perm; [done| |exact Hok1].
        simpl. by rewrite Permutation_middle.
    + exists (set_portal_next 0 b0). cbn [blocks]. rewrite lookup_insert, decide_True by done. split; [done|]. simpl.
      destruct (Hh1 Eh') as (blk & Hblk & Hfull). assert (blk = b0) as -> by congruence. unfold full in Hfull. zbool. done.
Qed.

(** The end of a thread returns the chain: nothing is left that only it
    referred to. *)
Lemma dec_chain_spec l m refs held h n :
  blocks_ok m refs (l ++ held) -> chain m h l ->
  exists m', dec_chain (Datatypes.length l) h n m = Ok (n + zlen l, m') /\ blocks_ok m' refs held /\
    keeps (held_by refs held) m m'.
Proof.
  revert m h n. induction l as [|id l IH]; intros m h n Hok Hc.
  - simpl in Hc. subst h. exists m. simpl. rewrite Z.add_0_r. split_and!; try done. apply keeps_refl.
  - destruct Hc as (-> & b & Hb & Hc). cbn [dec_chain Datatypes.length].
    assert (0 < id) by (destruct (ok_block _ _ _ Hok id b Hb) as [? _]; lia).
    rewrite (proj2 (Z.eqb_neq id 0)) by lia. unfold mbind, M_bind, get_block. rewrite Hb.
    destruct (dec_ref_owner m id refs (l ++ held) Hok) as (m1 & -> & Hok1 & Hk1).
    destruct (IH m1 (portal_next b) (n + 1) Hok1) as (m' & E & Hok' & Hk').
    { eapply keeps_chain; [done| |done]. apply Forall_forall. intros x Hx. right. apply elem_of_app. by left. }
    exists m'. rewrite E, zlen_cons. split_and!; try done.
    + by replace (n + 1 + zlen l) with (n + (zlen l + 1)) by lia.
    + eapply keeps_trans; [|exact Hk1|exact Hk']. intros x [Hx|Hx]; [by left|right]. apply elem_of_app. by right.
Qed.

Lemma remove_tls_block_chain_spec m refs held :
  mem_ok m refs held ->
  exists m', remove_tls_block_chain m = Ok (tt, m') /\ mem_ok m' refs held /\ unchanged refs m m' /\
    block_head m' = 0 /\ num_blocks m' = 0.
Proof.
  intros (l & Hc & Hn & Hok). unfold remove_tls_block_chain, mbind, M_bind, get_mem.
  destruct (block_head m =? 0) eqn:Eh; zbool.
  { exists m. assert (l = []) as ->.
    { destruct l as [|id l]; [done|]. rewrite Eh in Hc. destruct Hc as (<- & b0 & Hb0 & _).
      destruct (ok_block _ _ _ Hok 0 b0 Hb0) as [? _]. lia. }
    split_and!; try done; [exists []; by rewrite Eh|apply unchanged_refl]. }
  unfold set_tls. set (m1 := mk_mem _ _ _ _ _).
  assert (blocks_ok m1 refs (l ++ held)) as Hok1 by (by destruct Hok).
  assert (chain m1 (block_head m) l) as Hc1.
  { eapply chain_same; [|exact Hc]. intros id b _ Hb. by exists b. }
  destruct (dec_chain_spec l m1 refs held (block_head m) 0 Hok1 Hc1) as (m2 & E & Hok2 & Hk).
  rewrite Hn. unfold zlen at 1. rewrite Nat2Z.id, E. simpl. rewrite Z.eqb_refl. eexists. split; [done|]. simpl.
  split_and!; try done.
  - apply (mem_ok_set_tls m2 refs held []); done.
  - pose proof (keeps_unchanged refs held m1 m2 Hk ltac:(by destruct Hok1)) as Hun. exact Hun.
Qed.
