(* ===== verification/CordBuf.v ===== *)
(** * [flare/io/cord_buf.h], [cord_buf_inl.h], [cord_buf.cc]: the buffer

    A [cord_buf] is a queue of block references: at most two of them in place
    ([SmallView]), or a ring in an array ([BigView], always three or more).
    The two views share their memory in the source, told apart by the sign of
    the first word, which the small view uses as the offset of its first
    reference; the blocks of the model are below 2^31 bytes, so the two cannot
    be confused, and the view is the constructor.

    Operations take the buffer and return it with their result, in the memory
    monad [M] of [CordBlocks]. *)

From S2P Require Import Prelude CordBlocks.
Local Open Scope Z_scope.

Inductive cord_buf :=
| SmallView (ref0 ref1 : BlockRef)
| BigView (start : Z) (refs : list BlockRef) (nref cap_mask nbytes : Z).

Definition INITIAL_CAP : Z := 32.

(** A reference that [reset_block_ref] leaves. *)
Definition null_ref : BlockRef := mk_ref 0 0 0.

Definition new_cord_buf : cord_buf := SmallView null_ref null_ref.

Definition is_null (r : BlockRef) : bool := block r =? 0.

(** Position of the [i]-th reference in the ring. *)
Definition ring_pos (start cap_mask i : Z) : Z := Z.land (u32 (start + i)) cap_mask.

Definition ring_at (start : Z) (refs : list BlockRef) (cap_mask i : Z) : BlockRef :=
  default null_ref (zget refs (ring_pos start cap_mask i)).

Definition _ref_num (c : cord_buf) : Z :=
  match c with
  | SmallView r0 r1 => (if is_null r0 then 0 else 1) + (if is_null r1 then 0 else 1)
  | BigView _ _ nref _ _ => nref
  end.

Definition _ref_at (i : Z) (c : cord_buf) : BlockRef :=
  match c with
  | SmallView r0 r1 => if i =? 0 then r0 else r1
  | BigView start refs _ cap_mask _ => ring_at start refs cap_mask i
  end.

Definition _pref_at (i : Z) (c : cord_buf) : option BlockRef :=
  if i <? _ref_num c then Some (_ref_at i c) else None.

Definition _front_ref (c : cord_buf) : BlockRef :=
  match c with
  | SmallView r0 _ => r0
  | BigView start refs _ _ _ => default null_ref (zget refs start)
  end.

Definition _back_ref (c : cord_buf) : BlockRef :=
  match c with
  | SmallView r0 r1 => if is_null r1 then r0 else r1
  | BigView start refs nref cap_mask _ => ring_at start refs cap_mask (nref - 1)
  end.

Definition empty (c : cord_buf) : bool :=
  match c with
  | SmallView r0 _ => is_null r0
  | BigView _ _ _ _ nbytes => nbytes =? 0
  end.

Definition length (c : cord_buf) : Z :=
  match c with
  | SmallView r0 r1 => u32 (r_length r0 + r_length r1)
  | BigView _ _ _ _ nbytes => nbytes
  end.

(** Two references to adjacent bytes of one block. *)
Definition mergeable (r1 r2 : BlockRef) : bool :=
  (block r1 =? block r2) && (u32 (offset r1 + r_length r1) =? offset r2).

Definition grow (r : BlockRef) (n : Z) : BlockRef := mk_ref (offset r) (u32 (r_length r + n)) (block r).

(** [if (MOVE) r.block->dec_ref()] after merging, [if (!MOVE)
    r.block->inc_ref()] after storing. *)
Definition merged (MOVE : bool) (r : BlockRef) : M unit := if MOVE then dec_ref (block r) else mret tt.
Definition stored (MOVE : bool) (r : BlockRef) : M unit := if MOVE then mret tt else inc_ref (block r).

Definition _push_or_move_back_ref_to_smallview (MOVE : bool) (r r0 r1 : BlockRef) : M cord_buf :=
  if is_null r0 then
    _ ← stored MOVE r;
    mret (SmallView r r1)
  else if is_null r1 then
    if mergeable r0 r then
      _ ← merged MOVE r;
      mret (SmallView (grow r0 (r_length r)) r1)
    else
      _ ← stored MOVE r;
      mret (SmallView r0 r)
  else if mergeable r1 r then
    _ ← merged MOVE r;
    mret (SmallView r0 (grow r1 (r_length r)))
  else
    let new_refs := [r0; r1; r] ++ replicate (Z.to_nat (INITIAL_CAP - 3)) null_ref in
    let new_nbytes := u32 (r_length r0 + r_length r1 + r_length r) in
    _ ← stored MOVE r;
    mret (BigView 0 new_refs 3 (INITIAL_CAP - 1) new_nbytes).

Definition _push_or_move_back_ref_to_bigview (MOVE : bool) (r : BlockRef)
    (start : Z) (refs : list BlockRef) (nref cap_mask nbytes : Z) : M cord_buf :=
  let back_pos := ring_pos start cap_mask (nref - 1) in
  let back := ring_at start refs cap_mask (nref - 1) in
  if mergeable back r then
    _ ← merged MOVE r;
    mret (BigView start (zset back_pos (grow back (r_length r)) refs) nref cap_mask (u64 (nbytes + r_length r)))
  else if negb (nref =? cap_mask + 1) then
    _ ← stored MOVE r;
    mret (BigView start (zset (ring_pos start cap_mask nref) r refs) (nref + 1) cap_mask (u64 (nbytes + r_length r)))
  else
    let new_cap := u32 ((cap_mask + 1) * 2) in
    let new_refs := map (ring_at start refs cap_mask) (seqZ 0 nref) ++ [r]
                    ++ replicate (Z.to_nat (new_cap - nref - 1)) null_ref in
    _ ← stored MOVE r;
    mret (BigView 0 new_refs (nref + 1) (new_cap - 1) (u64 (nbytes + r_length r))).

Definition push_or_move (MOVE : bool) (r : BlockRef) (c : cord_buf) : M cord_buf :=
  match c with
  | SmallView r0 r1 => _push_or_move_back_ref_to_smallview MOVE r r0 r1
  | BigView start refs nref cap_mask nbytes =>
      _push_or_move_back_ref_to_bigview MOVE r start refs nref cap_mask nbytes
  end.

Definition _push_back_ref : BlockRef -> cord_buf -> M cord_buf := push_or_move false.
Definition _move_back_ref : BlockRef -> cord_buf -> M cord_buf := push_or_move true.

(** The return value (0, or -1 on an empty buffer) and the buffer. *)
Definition _pop_or_moveout_front_ref (MOVEOUT : bool) (c : cord_buf) : M (Z * cord_buf) :=
  match c with
  | SmallView r0 r1 =>
      if negb (is_null r0) then
        _ ← (if MOVEOUT then mret tt else dec_ref (block r0));
        mret (0, SmallView r1 null_ref)
      else mret (-1, c)
  | BigView start refs nref cap_mask nbytes =>
      let front := default null_ref (zget refs start) in
      _ ← (if MOVEOUT then mret tt else dec_ref (block front));
      let nref := nref - 1 in
      if 2 <? nref then
        mret (0, BigView (ring_pos start cap_mask 1) refs nref cap_mask (u64 (nbytes - r_length front)))
      else mret (0, SmallView (ring_at start refs cap_mask 1) (ring_at start refs cap_mask 2))
  end.

Definition _pop_front_ref : cord_buf -> M (Z * cord_buf) := _pop_or_moveout_front_ref false.
Definition _moveout_front_ref : cord_buf -> M (Z * cord_buf) := _pop_or_moveout_front_ref true.

Definition _pop_back_ref (c : cord_buf) : M (Z * cord_buf) :=
  match c with
  | SmallView r0 r1 =>
      if negb (is_null r1) then
        _ ← dec_ref (block r1);
        mret (0, SmallView r0 null_ref)
      else if negb (is_null r0) then
        _ ← dec_ref (block r0);
        mret (0, SmallView null_ref r1)
      else mret (-1, c)
  | BigView start refs nref cap_mask nbytes =>
      let back := ring_at start refs cap_mask (nref - 1) in
      _ ← dec_ref (block back);
      let nref := nref - 1 in
      if 2 <? nref then mret (0, BigView start refs nref cap_mask (u64 (nbytes - r_length back)))
      else mret (0, SmallView (default null_ref (zget refs start)) (ring_at start refs cap_mask 1))
  end.

(** [for (i = 0; i < nref; ++i) ref_at(i).block->dec_ref()]. *)
Fixpoint dec_refs (rs : list BlockRef) : M unit :=
  match rs with
  | [] => mret tt
  | r :: rs => _ ← dec_ref (block r); dec_refs rs
  end.

Fixpoint inc_refs (rs : list BlockRef) : M unit :=
  match rs with
  | [] => mret tt
  | r :: rs => _ ← inc_ref (block r); inc_refs rs
  end.

Definition clear (c : cord_buf) : M cord_buf :=
  match c with
  | SmallView r0 r1 =>
      if negb (is_null r0) then
        _ ← dec_ref (block r0);
        if negb (is_null r1) then
          _ ← dec_ref (block r1);
          mret (SmallView null_ref null_ref)
        else mret (SmallView null_ref r1)
      else mret c
  | BigView start refs nref cap_mask _ =>
      _ ← dec_refs (map (ring_at start refs cap_mask) (seqZ 0 nref));
      mret new_cord_buf
  end.

(** [cord_buf(const cord_buf &rhs)]. *)
Definition copy_cord_buf (rhs : cord_buf) : M cord_buf :=
  match rhs with
  | SmallView r0 r1 =>
      _ ← (if negb (is_null r0) then inc_ref (block r0) else mret tt);
      _ ← (if negb (is_null r1) then inc_ref (block r1) else mret tt);
      mret rhs
  | BigView start refs nref cap_mask nbytes =>
      let live := map (ring_at start refs cap_mask) (seqZ 0 nref) in
      _ ← inc_refs live;
      mret (BigView 0 (live ++ replicate (Z.to_nat (cap_mask + 1 - nref)) null_ref) nref cap_mask nbytes)
  end.

(** [operator=(const cord_buf &rhs)] with [this != &rhs]. *)
Definition assign (c rhs : cord_buf) : M cord_buf :=
  match c, rhs with
  | BigView start refs nref cap_mask _, BigView start' refs' nref' cap_mask' nbytes' =>
      if cap_mask =? cap_mask' then
        _ ← dec_refs (map (ring_at start refs cap_mask) (seqZ 0 nref));
        let live := map (ring_at start' refs' cap_mask') (seqZ 0 nref') in
        _ ← inc_refs live;
        mret (BigView 0 (live ++ zdrop nref' refs) nref' cap_mask nbytes')
      else
        _ ← clear c;
        copy_cord_buf rhs
  | _, _ =>
      _ ← clear c;
      copy_cord_buf rhs
  end.

(** [r.offset += n; r.length -= n; if (!_small()) _bv.nbytes -= n;] on the
    front reference. *)
Definition advance_front (n : Z) (c : cord_buf) : cord_buf :=
  let adv r := mk_ref (u32 (offset r + n)) (u32 (r_length r - n)) (block r) in
  match c with
  | SmallView r0 r1 => SmallView (adv r0) r1
  | BigView start refs nref cap_mask nbytes =>
      BigView start (zset start (adv (default null_ref (zget refs start))) refs) nref cap_mask (u64 (nbytes - n))
  end.

(** [r.length -= n; if (!_small()) _bv.nbytes -= n;] on the back reference. *)
Definition shrink_back (n : Z) (c : cord_buf) : cord_buf :=
  let shr r := mk_ref (offset r) (u32 (r_length r - n)) (block r) in
  match c with
  | SmallView r0 r1 => if is_null r1 then SmallView (shr r0) r1 else SmallView r0 (shr r1)
  | BigView start refs nref cap_mask nbytes =>
      BigView start (zset (ring_pos start cap_mask (nref - 1)) (shr (ring_at start refs cap_mask (nref - 1))) refs)
        nref cap_mask (u64 (nbytes - n))
  end.

(** ** Operations

    A loop that consumes references runs at most once per reference; its fuel
    is their number. *)

Definition nrefs (c : cord_buf) : nat := Z.to_nat (_ref_num c).

Fixpoint pop_front_loop (fuel : nat) (n : Z) (c : cord_buf) : M cord_buf :=
  if n =? 0 then mret c
  else
    match fuel with
    | O => undefined
    | S fuel =>
        let r := _front_ref c in
        if n <? r_length r then mret (advance_front n c)
        else
          '(_, c) ← _pop_front_ref c;
          pop_front_loop fuel (n - r_length r) c
    end.

Definition pop_front (n : Z) (c : cord_buf) : M (Z * cord_buf) :=
  let len := length c in
  if len <=? n then
    c ← clear c;
    mret (len, c)
  else
    c ← pop_front_loop (nrefs c) n c;
    mret (n, c).

(** The byte at the front. *)
Definition front_byte (c : cord_buf) : M Z :=
  let r := _front_ref c in
  blk ← get_block (block r);
  match zget (data blk) (offset r) with
  | Some b => mret b
  | None => undefined
  end.

(** [None] is the return value false. *)
Definition cut1 (c : cord_buf) : M (option Z * cord_buf) :=
  if empty c then mret (None, c)
  else
    b ← front_byte c;
    if 1 <? r_length (_front_ref c) then mret (Some b, advance_front 1 c)
    else
      '(_, c) ← _pop_front_ref c;
      mret (Some b, c).

Fixpoint pop_back_loop (fuel : nat) (n : Z) (c : cord_buf) : M cord_buf :=
  if n =? 0 then mret c
  else
    match fuel with
    | O => undefined
    | S fuel =>
        let r := _back_ref c in
        if n <? r_length r then mret (shrink_back n c)
        else
          '(_, c) ← _pop_back_ref c;
          pop_back_loop fuel (n - r_length r) c
    end.

Definition pop_back (n : Z) (c : cord_buf) : M (Z * cord_buf) :=
  let len := length c in
  if len <=? n then
    c ← clear c;
    mret (len, c)
  else
    c ← pop_back_loop (nrefs c) n c;
    mret (n, c).

(** [cutn(cord_buf *out, size_t n)] with [out != this]: bytes cut, [this],
    [out]. *)
Fixpoint cutn_loop (fuel : nat) (n : Z) (c out : cord_buf) : M (cord_buf * cord_buf) :=
  if n =? 0 then mret (c, out)
  else
    match fuel with
    | O => undefined
    | S fuel =>
        let r := _front_ref c in
        if r_length r <=? n then
          out ← _move_back_ref r out;
          '(_, c) ← _moveout_front_ref c;
          cutn_loop fuel (n - r_length r) c out
        else
          out ← _push_back_ref (mk_ref (offset r) (u32 n) (block r)) out;
          mret (advance_front n c, out)
    end.

Definition cutn (n : Z) (c out : cord_buf) : M (Z * cord_buf * cord_buf) :=
  let n := Z.min n (length c) in
  '(c, out) ← cutn_loop (nrefs c) n c out;
  mret (n, c, out).

(** Bytes [offset, offset + n) of a block, from [memcpy]. *)
Definition cp_from (b off n : Z) : M (list Z) :=
  blk ← get_block b;
  if (0 <=? off) && (0 <=? n) && (off + n <=? cap blk) then mret (ztake n (zdrop off (data blk)))
  else undefined.

(** [cutn(void *out, size_t n)]: the bytes written to [out], and [this]. *)
Fixpoint cutn_mem_loop (fuel : nat) (n : Z) (c : cord_buf) : M (list Z * cord_buf) :=
  if n =? 0 then mret ([], c)
  else
    match fuel with
    | O => undefined
    | S fuel =>
        let r := _front_ref c in
        if r_length r <=? n then
          s ← cp_from (block r) (offset r) (r_length r);
          '(_, c) ← _pop_front_ref c;
          '(s', c) ← cutn_mem_loop fuel (n - r_length r) c;
          mret (s ++ s', c)
        else
          s ← cp_from (block r) (offset r) n;
          mret (s, advance_front n c)
    end.

Definition cutn_mem (n : Z) (c : cord_buf) : M (list Z * cord_buf) :=
  cutn_mem_loop (nrefs c) (Z.min n (length c)) c.

(** [cutn(std::string *out, size_t n)]: the new value of [*out]. *)
Definition cutn_string (n : Z) (out : list Z) (c : cord_buf) : M (list Z * cord_buf) :=
  if n =? 0 then mret (out, c)
  else
    '(s, c) ← cutn_mem (Z.min n (length c)) c;
    mret (out ++ s, c).

(** The references in order. *)
Definition ref_list (c : cord_buf) : list BlockRef := map (fun i => _ref_at i c) (seqZ 0 (_ref_num c)).

(** Offset of the first byte [d] in the references. *)
Fixpoint find_char (d : Z) (rs : list BlockRef) (n : Z) : M (option Z) :=
  match rs with
  | [] => mret None
  | r :: rs =>
      s ← cp_from (block r) (offset r) (r_length r);
      match find_index (fun b => b =? d) s with
      | Some j => mret (Some (n + j))
      | None => find_char d rs (n + r_length r)
      end
  end.

Definition _cut_by_char (d : Z) (c out : cord_buf) : M (Z * cord_buf * cord_buf) :=
  r ← find_char d (ref_list c) 0;
  match r with
  | None => mret (-1, c, out)
  | Some n =>
      '(_, c, out) ← cutn n c out;
      '(_, c) ← pop_front 1 c;
      mret (0, c, out)
  end.

(** [static_cast<SigType>(c)] of a [char]: the sign is extended to 64 bits. *)
Definition sig_of_char (b : Z) : Z := u64 (if b <? 128 then b else b - 256).

Definition delim_sig (delim : list Z) : Z :=
  foldl (fun dsig b => Z.lor (u64 (Z.shiftl dsig 8)) (sig_of_char b)) 0 delim.

(** The scan of one reference: the signature and, at a match, the number of
    bytes before the last one of the delimiter. *)
Fixpoint scan_delim (dsig SIGMASK : Z) (s : list Z) (sig n : Z) : Z * option Z :=
  match s with
  | [] => (sig, None)
  | b :: s =>
      let sig := Z.land (Z.lor (u64 (Z.shiftl sig 8)) (sig_of_char b)) SIGMASK in
      if sig =? dsig then (sig, Some n) else scan_delim dsig SIGMASK s sig (n + 1)
  end.

Fixpoint find_delim (dsig SIGMASK : Z) (rs : list BlockRef) (sig n : Z) : M (option Z) :=
  match rs with
  | [] => mret None
  | r :: rs =>
      s ← cp_from (block r) (offset r) (r_length r);
      match scan_delim dsig SIGMASK s sig n with
      | (_, Some n) => mret (Some n)
      | (sig, None) => find_delim dsig SIGMASK rs sig (n + r_length r)
      end
  end.

Definition _cut_by_delim (delim : list Z) (c out : cord_buf) : M (Z * cord_buf * cord_buf) :=
  let ndelim := zlen delim in
  if (8 <? ndelim) || (length c <? ndelim) then mret (-1, c, out)
  else
    let SIGMASK := if ndelim =? 8 then 18446744073709551615 else Z.shiftl 1 (ndelim * 8) - 1 in
    r ← find_delim (delim_sig delim) SIGMASK (ref_list c) 0 0;
    match r with
    | None => mret (-1, c, out)
    | Some n =>
        '(_, c, out) ← cutn (u64 (n + 1 - ndelim)) c out;
        '(_, c) ← pop_front ndelim c;
        mret (0, c, out)
    end.

(** [cut_until(cord_buf *out, const std::string &delim)]. *)
Definition cut_until (delim : list Z) (c out : cord_buf) : M (Z * cord_buf * cord_buf) :=
  match delim with
  | [] => mret (-1, c, out)
  | [d] => _cut_by_char d c out
  | _ => _cut_by_delim delim c out
  end.

(** [append(const cord_buf &other)] with [&other != this]. *)
Fixpoint push_refs (rs : list BlockRef) (c : cord_buf) : M cord_buf :=
  match rs with
  | [] => mret c
  | r :: rs => c ← _push_back_ref r c; push_refs rs c
  end.

Definition append_cord_buf (other c : cord_buf) : M cord_buf := push_refs (ref_list other) c.

Fixpoint move_refs (rs : list BlockRef) (c : cord_buf) : M cord_buf :=
  match rs with
  | [] => mret c
  | r :: rs => c ← _move_back_ref r c; move_refs rs c
  end.

(** [append(const Movable &other)]: [this] and [other]. *)
Definition append_movable (other c : cord_buf) : M (cord_buf * cord_buf) :=
  if empty c then mret (other, c)
  else
    c ← move_refs (ref_list other) c;
    mret (c, new_cord_buf).

(** Return value and buffer; -1 when no block can be allocated. *)
Definition push_back (ch : Z) (c : cord_buf) : M (Z * cord_buf) :=
  b ← share_tls_block;
  if b =? 0 then mret (-1, c)
  else
    blk ← get_block b;
    _ ← cp_into b (b_size blk) [ch];
    blk ← get_block b;
    _ ← set_block b (set_size (b_size blk + 1) blk);
    c ← _push_back_ref (mk_ref (b_size blk) 1 b) c;
    mret (0, c).

(** The loop shared by [append], [resize] and (without the copy) [reserve]:
    every round fills what the shared block has left; a new block has room,
    so [fuel] rounds, one per byte, are enough. *)
Fixpoint append_loop (fuel : nat) (s : list Z) (c : cord_buf) : M (Z * cord_buf) :=
  match s with
  | [] => mret (0, c)
  | _ :: _ =>
      match fuel with
      | O => undefined
      | S fuel =>
          b ← share_tls_block;
          if b =? 0 then mret (-1, c)
          else
            blk ← get_block b;
            let nc := Z.min (zlen s) (left_space blk) in
            _ ← cp_into b (b_size blk) (ztake nc s);
            c ← _push_back_ref (mk_ref (b_size blk) nc b) c;
            blk ← get_block b;
            _ ← set_block b (set_size (u32 (b_size blk + nc)) blk);
            append_loop fuel (zdrop nc s) c
      end
  end.

(** [append(void const *data, size_t count)] of a non-null [data]. *)
Definition append (s : list Z) (c : cord_buf) : M (Z * cord_buf) :=
  match s with
  | [ch] => push_back ch c
  | _ => append_loop (Datatypes.length s) s c
  end.

Definition append_user_data (s : list Z) (c : cord_buf) : M (Z * cord_buf) :=
  if 0xFFFFFFFF - 100 <? zlen s then mret (-1, c)
  else
    b ← alloc_block (mk_block 1 CORD_BUF_BLOCK_FLAGS_USER_DATA (zlen s) (zlen s) 0 s);
    if b =? 0 then mret (-1, c)
    else
      c ← _move_back_ref (mk_ref 0 (zlen s) b) c;
      mret (0, c).

Definition resize (n ch : Z) (c : cord_buf) : M (Z * cord_buf) :=
  let saved_len := length c in
  if n <? saved_len then
    '(_, c) ← pop_back (saved_len - n) c;
    mret (0, c)
  else append_loop (Z.to_nat (n - saved_len)) (replicate (Z.to_nat (n - saved_len)) ch) c.

(** The references from byte [pos] on, and the position in the first of them. *)
Fixpoint skip_refs (pos : Z) (rs : list BlockRef) : Z * list BlockRef :=
  if pos =? 0 then (0, rs)
  else
    match rs with
    | [] => (pos, [])
    | r :: rs' => if pos <? r_length r then (pos, rs) else skip_refs (pos - r_length r) rs'
    end.

Fixpoint append_refs (m offset' : Z) (rs : list BlockRef) (buf : cord_buf) : M (Z * cord_buf) :=
  if m =? 0 then mret (m, buf)
  else
    match rs with
    | [] => mret (m, buf)
    | r :: rs =>
        let nc := Z.min m (r_length r - offset') in
        buf ← _push_back_ref (mk_ref (u32 (offset r + offset')) (u32 nc) (block r)) buf;
        append_refs (m - nc) 0 rs buf
    end.

(** [append_to(cord_buf *buf, size_t n, size_t pos)]: bytes appended, [*buf]. *)
Definition append_to (n pos : Z) (c buf : cord_buf) : M (Z * cord_buf) :=
  let '(off, rs) := skip_refs pos (ref_list c) in
  '(m, buf) ← append_refs n off rs buf;
  mret (n - m, buf).

Fixpoint copy_refs (m offset' : Z) (rs : list BlockRef) : M (list Z) :=
  if m =? 0 then mret []
  else
    match rs with
    | [] => mret []
    | r :: rs =>
        let nc := Z.min m (r_length r - offset') in
        s ← cp_from (block r) (offset r + offset') nc;
        s' ← copy_refs (m - nc) 0 rs;
        mret (s ++ s')
    end.

(** [copy_to(void *d, size_t n, size_t pos)]: the bytes written to [d]. *)
Definition copy_to (n pos : Z) (c : cord_buf) : M (list Z) :=
  let '(off, rs) := skip_refs pos (ref_list c) in
  copy_refs n off rs.

Definition to_string (c : cord_buf) : M (list Z) :=
  if length c <=? 0 then mret [] else copy_to (length c) 0 c.

Definition fetch1 (c : cord_buf) : M (option Z) :=
  if empty c then mret None
  else
    b ← front_byte c;
    mret (Some b).

(** [equals(const std::string_view &s)]. *)
Fixpoint equal_refs (rs : list BlockRef) (s : list Z) : M bool :=
  match rs with
  | [] => mret true
  | r :: rs =>
      s1 ← cp_from (block r) (offset r) (r_length r);
      if bool_decide (s1 = ztake (r_length r) s) then equal_refs rs (zdrop (r_length r) s) else mret false
  end.

Definition equals (s : list Z) (c : cord_buf) : M bool :=
  if negb (length c =? zlen s) then mret false else equal_refs (ref_list c) s.

(** [swap(cord_buf &other)]. *)
Definition swap (c other : cord_buf) : cord_buf * cord_buf := (other, c).
