(* ===== verification/CordQueue.v ===== *)
(** * The reference queue of a [cord_buf] as a list

    [buf_wf c] is the invariant of the two views and [ref_list c] the
    references they hold, in order.  Every queue operation of [CordBuf] is the
    list operation one expects: push merges with the last reference when the
    two are adjacent, pops remove an end, the small view is used exactly for
    two references or fewer. *)

From S2P Require Import Prelude CordBlocks CordBuf.
Local Open Scope Z_scope.

(** The sizes for which 32-bit fields of the references do not wrap. *)
Definition ref_small (r : BlockRef) : Prop :=
  block r <> 0 /\ 0 <= offset r < 2 ^ 30 /\ 0 < r_length r < 2 ^ 30.

Definition total_len (rs : list BlockRef) : Z := foldr (fun r n => r_length r + n) 0 rs.

(** The buffers considered: fewer than 2^30 references, 2^62 bytes. *)
Definition list_bound (rs : list BlockRef) : Prop := zlen rs < 2 ^ 30 /\ total_len rs < 2 ^ 62.

Definition buf_wf (c : cord_buf) : Prop :=
  Forall ref_small (ref_list c) /\ list_bound (ref_list c) /\
  match c with
  | SmallView r0 r1 => (is_null r0 = true -> r0 = null_ref /\ r1 = null_ref) /\ (is_null r1 = true -> r1 = null_ref)
  | BigView start refs nref cap_mask nbytes =>
      (exists k, 5 <= k <= 31 /\ cap_mask + 1 = 2 ^ k) /\ zlen refs = cap_mask + 1 /\
      0 <= start <= cap_mask /\ 3 <= nref <= cap_mask + 1 /\ nbytes = total_len (ref_list c)
  end.

(** The list after a push: adjacent references are merged. *)
Definition snoc_merge (rs : list BlockRef) (r : BlockRef) : list BlockRef :=
  match reverse rs with
  | [] => [r]
  | l :: rs' => if mergeable l r then reverse (grow l (r_length r) :: rs') else rs ++ [r]
  end.

Definition merges (rs : list BlockRef) (r : BlockRef) : bool :=
  match reverse rs with [] => false | l :: _ => mergeable l r end.

Lemma snoc_merge_snoc rs l r :
  snoc_merge (rs ++ [l]) r = if mergeable l r then rs ++ [grow l (r_length r)] else rs ++ [l; r].
Proof.
  unfold snoc_merge. rewrite reverse_snoc. case_if; [by rewrite reverse_cons, reverse_involutive|].
  by rewrite <- app_assoc.
Qed.

Lemma merges_snoc rs l r : merges (rs ++ [l]) r = mergeable l r.
Proof. unfold merges. by rewrite reverse_snoc. Qed.

Lemma total_len_app l1 l2 : total_len (l1 ++ l2) = total_len l1 + total_len l2.
Proof. induction l1 as [|r l1 IH]; simpl; [done|]. rewrite IH. lia. Qed.

Lemma total_len_ge rs : Forall ref_small rs -> zlen rs <= total_len rs.
Proof.
  induction 1 as [|r rs (_ & _ & Hr) _ IH]; [done|]. rewrite zlen_cons. simpl. lia.
Qed.

(** ** The ring *)

Section ring.
Context (k start cap_mask : Z) (refs : list BlockRef).
Context (Hk : 5 <= k <= 31) (Hcap : cap_mask + 1 = 2 ^ k).
Context (Hlen : zlen refs = cap_mask + 1) (Hstart : 0 <= start <= cap_mask).

Lemma ring_pos_mod i : 0 <= i <= cap_mask + 1 -> ring_pos start cap_mask i = (start + i) `mod` (cap_mask + 1).
Proof using Hk Hcap Hstart.
  intros Hi. assert (2 ^ k <= 2 ^ 31) by (apply Z.pow_le_mono_r; lia).
  unfold ring_pos. rewrite u32_small by lia.
  replace cap_mask with (Z.ones k) at 1 by (rewrite Z.ones_equiv; lia).
  rewrite Z.land_ones by lia. by rewrite Hcap.
Qed.

Lemma ring_pos_range i : 0 <= i <= cap_mask + 1 -> 0 <= ring_pos start cap_mask i < cap_mask + 1.
Proof using Hk Hcap Hstart. intros Hi. rewrite ring_pos_mod by done. apply Z.mod_pos_bound. lia. Qed.

Lemma ring_pos_inj i j :
  0 <= i < cap_mask + 1 -> 0 <= j < cap_mask + 1 -> ring_pos start cap_mask i = ring_pos start cap_mask j -> i = j.
Proof using Hk Hcap Hstart.
  intros Hi Hj. rewrite !ring_pos_mod by lia. intros E. pose proof (Z.div_mod (start + i) (cap_mask + 1)).
  pose proof (Z.div_mod (start + j) (cap_mask + 1)).
  set (qi := (start + i) `div` (cap_mask + 1)) in *. set (qj := (start + j) `div` (cap_mask + 1)) in *.
  assert (qi = qj) by nia. nia.
Qed.

Lemma ring_pos_0 : ring_pos start cap_mask 0 = start.
Proof using Hk Hcap Hstart. rewrite ring_pos_mod by lia. rewrite Z.add_0_r. apply Z.mod_small. lia. Qed.

Lemma ring_at_0 : ring_at start refs cap_mask 0 = default null_ref (zget refs start).
Proof using Hk Hcap Hstart. unfold ring_at. by rewrite ring_pos_0. Qed.

Lemma ring_set_eq i r : 0 <= i < cap_mask + 1 ->
  ring_at start (zset (ring_pos start cap_mask i) r refs) cap_mask i = r.
Proof using Hk Hcap Hstart Hlen.
  intros Hi. unfold ring_at. pose proof (ring_pos_range i). by rewrite zget_zset_eq by lia.
Qed.

Lemma ring_set_ne i j r : 0 <= i < cap_mask + 1 -> 0 <= j < cap_mask + 1 -> i <> j ->
  ring_at start (zset (ring_pos start cap_mask i) r refs) cap_mask j = ring_at start refs cap_mask j.
Proof using Hk Hcap Hstart Hlen.
  intros Hi Hj Hne. unfold ring_at. pose proof (ring_pos_range i).
  rewrite zget_zset_ne; [done| |lia]. intros E. apply Hne. by apply ring_pos_inj.
Qed.

Lemma ring_at_shift i : 0 <= i < cap_mask + 1 ->
  ring_at (ring_pos start cap_mask 1) refs cap_mask i = ring_at start refs cap_mask (i + 1).
Proof using Hk Hcap Hstart.
  intros Hi. unfold ring_at. do 2 f_equal. assert (2 ^ k <= 2 ^ 31) by (apply Z.pow_le_mono_r; lia).
  pose proof (ring_pos_range 1) as Hr. unfold ring_pos at 1. rewrite u32_small by lia.
  rewrite !ring_pos_mod by lia.
  replace cap_mask with (Z.ones k) at 2 by (rewrite Z.ones_equiv; lia).
  rewrite Z.land_ones by lia. rewrite <- Hcap. rewrite Zplus_mod_idemp_l. f_equal. lia.
Qed.
End ring.

(** [map f (seqZ 0 n)] peeled from either end. *)
Lemma map_seqZ_snoc {A} (f : Z -> A) n : 0 <= n -> map f (seqZ 0 (n + 1)) = map f (seqZ 0 n) ++ [f n].
Proof.
  intros Hn. rewrite seqZ_app by lia. by rewrite map_app.
Qed.

Lemma map_seqZ_cons {A} (f : Z -> A) n : 0 <= n -> map f (seqZ 0 (n + 1)) = f 0 :: map (fun i => f (i + 1)) (seqZ 0 n).
Proof.
  intros Hn. rewrite seqZ_cons by lia. simpl. f_equal. replace (Z.pred (n + 1)) with n by lia.
  change (Z.succ 0) with 1. replace (seqZ 1 n) with (map (Z.add 1) (seqZ 0 n)) by (apply (fmap_add_seqZ 1 0 n)).
  rewrite map_map. apply map_ext. intros i. f_equal. lia.
Qed.

Lemma map_seqZ_ext {A} (f g : Z -> A) n : (forall i, 0 <= i < n -> f i = g i) -> map f (seqZ 0 n) = map g (seqZ 0 n).
Proof.
  intros H. apply map_ext_in. intros i Hi. apply H. apply list_elem_of_In in Hi. apply elem_of_seqZ in Hi. lia.
Qed.

Lemma zlen_map_seqZ {A} (f : Z -> A) n : 0 <= n -> zlen (map f (seqZ 0 n)) = n.
Proof. intros Hn. unfold zlen. rewrite length_map, length_seqZ. lia. Qed.

(** ** Reading the queue *)

Lemma ref_list_big start refs nref cap_mask nbytes :
  ref_list (BigView start refs nref cap_mask nbytes) = map (ring_at start refs cap_mask) (seqZ 0 nref).
Proof. done. Qed.

(** The three shapes of a small view. *)
Lemma small_cases r0 r1 :
  buf_wf (SmallView r0 r1) ->
  (r0 = null_ref /\ r1 = null_ref /\ ref_list (SmallView r0 r1) = []) \/
  (is_null r0 = false /\ r1 = null_ref /\ ref_list (SmallView r0 r1) = [r0]) \/
  (is_null r0 = false /\ is_null r1 = false /\ ref_list (SmallView r0 r1) = [r0; r1]).
Proof.
  intros (_ & _ & H0 & H1). unfold ref_list. cbn [_ref_num].
  destruct (is_null r0) eqn:E0.
  - left. by destruct H0 as [-> ->].
  - right. destruct (is_null r1) eqn:E1; [left; by rewrite H1|by right].
Qed.

Lemma ref_small_not_null r : ref_small r -> is_null r = false.
Proof. intros (H & _). unfold is_null. by apply Z.eqb_neq. Qed.

(** Building well-formed small views. *)
Lemma small_wf_nil : buf_wf (SmallView null_ref null_ref).
Proof. repeat split; done. Qed.

Lemma list_bound_2 rs : Forall ref_small rs -> zlen rs <= 2 -> list_bound rs.
Proof.
  intros H Hl. split; [lia|]. destruct rs as [|a [|b [|d rs]]]; [done|..|].
  - apply Forall_cons_1 in H as [(_ & _ & ?) _]. simpl. lia.
  - apply Forall_cons_1 in H as [(_ & _ & ?) H']. apply Forall_cons_1 in H' as [(_ & _ & ?) _]. simpl. lia.
  - rewrite !zlen_cons in Hl. pose proof (zlen_nonneg rs). lia.
Qed.

Lemma small_wf_one r : ref_small r ->
  buf_wf (SmallView r null_ref) /\ ref_list (SmallView r null_ref) = [r].
Proof.
  intros Hr. pose proof (ref_small_not_null r Hr) as E.
  assert (ref_list (SmallView r null_ref) = [r]) as El by (unfold ref_list; cbn [_ref_num]; by rewrite E).
  split; [|done]. unfold buf_wf. rewrite El. split_and!; [by repeat constructor; apply Hr| |by rewrite E|done].
  apply list_bound_2; [by repeat constructor; apply Hr|done].
Qed.

Lemma small_wf_two r0 r1 : ref_small r0 -> ref_small r1 ->
  buf_wf (SmallView r0 r1) /\ ref_list (SmallView r0 r1) = [r0; r1].
Proof.
  intros H0 H1. pose proof (ref_small_not_null r0 H0) as E0. pose proof (ref_small_not_null r1 H1) as E1.
  assert (ref_list (SmallView r0 r1) = [r0; r1]) as El by (unfold ref_list; cbn [_ref_num]; by rewrite E0, E1).
  assert (Forall ref_small [r0; r1]) by (by apply Forall_cons_2; [|apply Forall_cons_2]).
  split; [|done]. unfold buf_wf. rewrite El. split_and!; [done| |by rewrite E0|by rewrite E1].
  by apply list_bound_2.
Qed.

Lemma total_len_nonneg rs : Forall ref_small rs -> 0 <= total_len rs.
Proof. intros H. pose proof (total_len_ge rs H). pose proof (zlen_nonneg rs). lia. Qed.

(** [length()] is the number of bytes referred to, [empty()] its test. *)
Lemma length_spec c : buf_wf c -> length c = total_len (ref_list c).
Proof.
  intros Hw. destruct c as [r0 r1|start refs nref cap_mask nbytes]; [|by destruct Hw as (_ & _ & _ & _ & _ & _ & ->)].
  pose proof Hw as (Hs & _). unfold length. destruct (small_cases r0 r1 Hw) as [(-> & -> & E)|[(_ & -> & E)|(_ & _ & E)]];
    rewrite E in *; simpl.
  - done.
  - apply Forall_cons_1 in Hs as [(_ & _ & ?) _]. rewrite u32_small by lia. lia.
  - apply Forall_cons_1 in Hs as [(_ & _ & ?) Hs]. apply Forall_cons_1 in Hs as [(_ & _ & ?) _].
    rewrite u32_small by lia. lia.
Qed.

Lemma big_len start refs nref cap_mask nbytes :
  buf_wf (BigView start refs nref cap_mask nbytes) ->
  zlen (ref_list (BigView start refs nref cap_mask nbytes)) = nref.
Proof. intros (_ & _ & _ & _ & _ & ? & _). rewrite ref_list_big. apply zlen_map_seqZ. lia. Qed.

Lemma empty_spec c : buf_wf c -> empty c = match ref_list c with [] => true | _ => false end.
Proof.
  intros Hw. destruct c as [r0 r1|start refs nref cap_mask nbytes].
  - unfold empty. by destruct (small_cases r0 r1 Hw) as [(-> & -> & ->)|[(-> & -> & ->)|(-> & _ & ->)]].
  - pose proof (big_len _ _ _ _ _ Hw) as Hl. destruct Hw as (Hs & _ & _ & _ & _ & Hn & ->). unfold empty.
    pose proof (total_len_ge _ Hs) as Hge.
    destruct (ref_list (BigView start refs nref cap_mask _)); [rewrite (@zlen_nil BlockRef) in Hl; lia|].
    apply Z.eqb_neq. lia.
Qed.

Lemma nrefs_spec c : buf_wf c -> nrefs c = Datatypes.length (ref_list c).
Proof.
  intros Hw. unfold nrefs, ref_list. by rewrite length_map, length_seqZ.
Qed.

Lemma front_spec c r rs : buf_wf c -> ref_list c = r :: rs -> _front_ref c = r.
Proof.
  intros Hw. destruct c as [r0 r1|start refs nref cap_mask nbytes].
  - destruct (small_cases r0 r1 Hw) as [(-> & -> & ->)|[(_ & -> & ->)|(_ & _ & ->)]]; [done|by intros [= -> <-]..].
  - destruct Hw as (_ & _ & (k & Hk & Hcap) & Hlen & Hst & Hn & _). rewrite ref_list_big.
    replace (seqZ 0 nref) with (seqZ 0 (nref - 1 + 1)) by (f_equal; lia). rewrite map_seqZ_cons by lia. intros [= <- _].
    by rewrite (ring_at_0 k).
Qed.

Lemma back_spec c r rs : buf_wf c -> ref_list c = rs ++ [r] -> _back_ref c = r.
Proof.
  intros Hw. destruct c as [r0 r1|start refs nref cap_mask nbytes].
  - unfold _back_ref. destruct (small_cases r0 r1 Hw) as [(-> & -> & ->)|[(_ & -> & ->)|(_ & -> & ->)]].
    + intros E. by destruct rs.
    + change [r0] with ([] ++ [r0]). intros E. by apply app_inj_tail in E as [_ ->].
    + change [r0; r1] with ([r0] ++ [r1]). intros E. by apply app_inj_tail in E as [_ ->].
  - destruct Hw as (_ & _ & _ & _ & _ & Hn & _). rewrite ref_list_big.
    replace (seqZ 0 nref) with (seqZ 0 (nref - 1 + 1)) by (f_equal; lia). rewrite map_seqZ_snoc by lia.
    intros E. by apply app_inj_tail in E as [_ <-].
Qed.

(** ** Pushing *)

Lemma total_len_snoc_merge rs r :
  Forall ref_small rs -> ref_small r -> total_len (snoc_merge rs r) = total_len rs + r_length r.
Proof.
  intros Hs (_ & _ & Hr). destruct rs as [|l rs _] using rev_ind; [unfold snoc_merge; simpl; lia|].
  apply Forall_app in Hs as [_ Hl]. apply Forall_cons_1 in Hl as [(_ & _ & Hl) _].
  rewrite snoc_merge_snoc. case_if; rewrite !total_len_app; simpl; [|lia]. rewrite u32_small; lia.
Qed.

Lemma total_len_replicate n : total_len (replicate n null_ref) = 0.
Proof. by induction n as [|n IH]. Qed.

Lemma zlen_replicate_null n : 0 <= n -> zlen (replicate (Z.to_nat n) null_ref) = n.
Proof. intros Hn. unfold zlen. rewrite length_replicate. lia. Qed.

(** An array that starts with [rs] holds [rs] from position 0. *)
Lemma ring_from_0 k cap_mask rs rest :
  5 <= k <= 31 -> cap_mask + 1 = 2 ^ k -> zlen rs <= cap_mask + 1 ->
  map (ring_at 0 (rs ++ rest) cap_mask) (seqZ 0 (zlen rs)) = rs.
Proof.
  intros Hk Hcap Hl. apply zget_ext. intros i Hi. unfold zget at 1. rewrite (proj2 (Z.ltb_ge _ _)) by lia.
  rewrite list_lookup_fmap. destruct (decide (i < zlen rs)) as [Hlt|Hge].
  - rewrite lookup_seqZ_lt by lia. simpl. unfold ring_at. rewrite (ring_pos_mod k) by lia.
    rewrite Z.mod_small by lia. replace (0 + (0 + Z.of_nat (Z.to_nat i))) with i by lia.
    rewrite zget_app_l by lia. destruct (zget_lt rs i (conj Hi Hlt)) as [x Hx]. by rewrite Hx.
  - rewrite lookup_seqZ_ge by lia. symmetry. apply zget_ge. lia.
Qed.

Lemma big_intro k start refs nref cap_mask rs :
  5 <= k <= 31 -> cap_mask + 1 = 2 ^ k -> zlen refs = cap_mask + 1 -> 0 <= start <= cap_mask ->
  3 <= nref <= cap_mask + 1 -> map (ring_at start refs cap_mask) (seqZ 0 nref) = rs ->
  Forall ref_small rs -> list_bound rs ->
  let c := BigView start refs nref cap_mask (total_len rs) in buf_wf c /\ ref_list c = rs.
Proof.
  intros Hk Hcap Hlen Hst Hn Hm Hs Hb c. assert (ref_list c = rs) as El by done. split; [|done].
  unfold buf_wf. rewrite El. unfold c. split_and!; try done; try lia. by exists k.
Qed.

Section push.
Context (MOVE : bool) (r : BlockRef) (Hr : ref_small r).

Definition push_effect (rs : list BlockRef) (c' : cord_buf) : M cord_buf :=
  _ ← (if merges rs r then merged MOVE r else stored MOVE r); mret c'.

Definition push_ok (c : cord_buf) : Prop :=
  exists c', (buf_wf c' /\ ref_list c' = snoc_merge (ref_list c) r) /\
    forall m, push_or_move MOVE r c m = push_effect (ref_list c) c' m.

Lemma push_small r0 r1 :
  let c := SmallView r0 r1 in
  buf_wf c -> Forall ref_small (snoc_merge (ref_list c) r) -> list_bound (snoc_merge (ref_list c) r) -> push_ok c.
Proof using Hr.
  intros c Hw Hs Hb. pose proof Hw as (Hs0 & _). unfold push_ok, push_effect.
  unfold c in *. cbn [push_or_move]. unfold _push_or_move_back_ref_to_smallview.
  destruct (small_cases r0 r1 Hw) as [(-> & -> & E)|[(E0 & -> & E)|(E0 & E1 & E)]]; rewrite E in *.
  - exists (SmallView r null_ref). by destruct (small_wf_one r Hr) as [? ?].
  - change [r0] with ([] ++ [r0]) in *. rewrite snoc_merge_snoc, merges_snoc in *. rewrite E0.
    change (is_null null_ref) with true. cbv iota. destruct (mergeable r0 r).
    + apply Forall_cons_1 in Hs as [Hs _]. destruct (small_wf_one _ Hs) as [? ?]. by eexists (SmallView _ null_ref).
    + apply Forall_cons_1 in Hs as [Hs _]. destruct (small_wf_two _ r Hs Hr) as [? ?]. by eexists (SmallView _ _).
  - change [r0; r1] with ([r0] ++ [r1]) in *. rewrite snoc_merge_snoc, merges_snoc in *. rewrite E0, E1.
    destruct (mergeable r1 r).
    + apply Forall_cons_1 in Hs as [Hs Hs1]. apply Forall_cons_1 in Hs1 as [Hs1 _].
      destruct (small_wf_two _ _ Hs Hs1) as [? ?]. by eexists (SmallView _ _).
    + eexists. split; [|reflexivity].
      assert (u32 (r_length r0 + r_length r1 + r_length r) = total_len ([r0] ++ [r1; r])) as ->.
      { rewrite u32_small; [simpl; lia|]. apply Forall_app in Hs0 as [Ha Hc].
        apply Forall_cons_1 in Ha as [(_ & _ & ?) _]. apply Forall_cons_1 in Hc as [(_ & _ & ?) _].
        destruct Hr as (_ & _ & ?). lia. }
      by apply (big_intro 5).
Qed.

Lemma push_big start refs nref cap_mask nbytes :
  let c := BigView start refs nref cap_mask nbytes in
  buf_wf c -> Forall ref_small (snoc_merge (ref_list c) r) -> list_bound (snoc_merge (ref_list c) r) -> push_ok c.
Proof using Hr.
  intros c Hw Hs Hb. pose proof (big_len _ _ _ _ _ Hw) as Hl. fold c in Hl.
  pose proof (total_len_snoc_merge _ r (proj1 Hw) Hr) as Ht. fold c in Ht.
  pose proof Hw as (Hs0 & _ & (k & Hk & Hcap) & Hlen & Hst & Hn & Hnb). fold c in Hs0, Hnb.
  assert (u64 (nbytes + r_length r) = total_len (snoc_merge (ref_list c) r)) as Hu.
  { rewrite Ht, Hnb. apply u64_small. pose proof (total_len_nonneg _ Hs0). destruct Hr as (_ & _ & ?).
    destruct Hb as [_ Hb]. lia. }
  unfold push_ok, push_effect. 
  change (push_or_move MOVE r c) with (_push_or_move_back_ref_to_bigview MOVE r start refs nref cap_mask nbytes).
  unfold _push_or_move_back_ref_to_bigview. rewrite Hu.
  assert (ref_list c = map (ring_at start refs cap_mask) (seqZ 0 (nref - 1)) ++ [ring_at start refs cap_mask (nref - 1)]) as El.
  { unfold c. rewrite ref_list_big. replace (seqZ 0 nref) with (seqZ 0 (nref - 1 + 1)) by (f_equal; lia). apply map_seqZ_snoc. lia. }
  rewrite El in *. rewrite snoc_merge_snoc, merges_snoc in *.
  destruct (mergeable (ring_at start refs cap_mask (nref - 1)) r); [|destruct (Z.eqb_spec nref (cap_mask + 1))].
  - eexists. split; [|reflexivity].
    apply (big_intro k); try done; [by rewrite zlen_zset|].
    replace (seqZ 0 nref) with (seqZ 0 (nref - 1 + 1)) by (f_equal; lia). rewrite map_seqZ_snoc by lia.
    rewrite (ring_set_eq k) by lia. f_equal. apply map_seqZ_ext. intros i Hi. apply (ring_set_ne k); lia.
  - assert (2 ^ k <= 2 ^ 31) by (apply Z.pow_le_mono_r; lia).
    assert (k <= 30) as Hk30.
    { destruct Hb as [Hb _]. rewrite zlen_app, !zlen_cons, (@zlen_nil BlockRef), zlen_map_seqZ in Hb by lia.
      assert (~ 31 <= k); [|lia]. intros H31. assert (2 ^ 31 <= 2 ^ k) by (apply Z.pow_le_mono_r; lia). lia. }
    assert (2 ^ (k + 1) = 2 * 2 ^ k) by (rewrite Z.pow_add_r; lia).
    assert (2 ^ k <= 2 ^ 30) by (apply Z.pow_le_mono_r; lia).
    eexists. split; [|reflexivity]. rewrite u32_small by lia.
    apply (big_intro (k + 1)); try done; try lia.
    + rewrite !zlen_app, zlen_replicate_null, zlen_map_seqZ by lia. rewrite zlen_cons, (@zlen_nil BlockRef). lia.
    + rewrite app_assoc.
      assert (map (ring_at start refs cap_mask) (seqZ 0 nref) ++ [r] =
              map (ring_at start refs cap_mask) (seqZ 0 (nref - 1)) ++ [ring_at start refs cap_mask (nref - 1); r]) as <-.
      { replace (seqZ 0 nref) with (seqZ 0 (nref - 1 + 1)) by (f_equal; lia). rewrite map_seqZ_snoc by lia. by rewrite <- app_assoc. }
      set (l := map (ring_at start refs cap_mask) (seqZ 0 nref) ++ [r]).
      assert (zlen l = nref + 1) as <- by (unfold l; by rewrite zlen_app, zlen_map_seqZ by lia).
      apply (ring_from_0 (k + 1)); try lia. unfold l. rewrite zlen_app, zlen_map_seqZ by lia.
      rewrite zlen_cons, (@zlen_nil BlockRef). lia.
  - eexists. split; [|reflexivity].
    apply (big_intro k); try done; [by rewrite zlen_zset|lia|].
    rewrite map_seqZ_snoc by lia. rewrite (ring_set_eq k) by lia.
    replace (map (ring_at start refs cap_mask) (seqZ 0 (nref - 1)) ++ [ring_at start refs cap_mask (nref - 1); r])
      with (ref_list c ++ [r]) by (rewrite El, <- app_assoc; done).
    f_equal. apply map_seqZ_ext. intros i Hi. unfold c in Hi. cbn [_ref_num] in Hi. apply (ring_set_ne k); lia.
Qed.

Lemma push_spec c :
  buf_wf c -> Forall ref_small (snoc_merge (ref_list c) r) -> list_bound (snoc_merge (ref_list c) r) -> push_ok c.
Proof using Hr. destruct c; [apply push_small|apply push_big]. Qed.
End push.

(** ** Popping and trimming *)

Definition pop_ok (MOVEOUT : bool) (c : cord_buf) (r : BlockRef) (rs : list BlockRef)
    (op : cord_buf -> M (Z * cord_buf)) : Prop :=
  exists c', (buf_wf c' /\ ref_list c' = rs) /\
    forall m, op c m = ((if MOVEOUT then mret tt else dec_ref (block r)) ≫= fun _ => mret (0, c')) m.

Lemma list_bound_sub rs rs' : zlen rs' <= zlen rs -> total_len rs' <= total_len rs -> list_bound rs -> list_bound rs'.
Proof. intros ? ? [? ?]. split; lia. Qed.

Lemma list_bound_tail r rs : ref_small r -> list_bound (r :: rs) -> list_bound rs.
Proof. intros (_ & _ & ?). apply list_bound_sub; [rewrite zlen_cons; lia|simpl; lia]. Qed.

Lemma list_bound_init r rs : ref_small r -> list_bound (rs ++ [r]) -> list_bound rs.
Proof.
  intros (_ & _ & ?). apply list_bound_sub; [rewrite zlen_app, zlen_cons, (@zlen_nil BlockRef); lia|].
  rewrite total_len_app. simpl. lia.
Qed.

Lemma pop_front_spec MOVEOUT c r rs :
  buf_wf c -> ref_list c = r :: rs -> pop_ok MOVEOUT c r rs (_pop_or_moveout_front_ref MOVEOUT).
Proof.
  intros Hw El. pose proof (front_spec c r rs Hw El) as Hf. pose proof Hw as (Hs & Hb & _). rewrite El in Hs, Hb.
  apply Forall_cons_1 in Hs as [Hr Hs]. destruct c as [r0 r1|start refs nref cap_mask nbytes].
  - cbn [_front_ref] in Hf. subst r0. unfold pop_ok, _pop_or_moveout_front_ref.
    rewrite (ref_small_not_null r) by done. exists (SmallView r1 null_ref). split; [|done].
    destruct (small_cases r r1 Hw) as [(-> & -> & E)|[(E0 & -> & E)|(E0 & E1 & E)]]; rewrite El in E;
      simplify_eq; [by split; [apply small_wf_nil|]|].
    apply Forall_cons_1 in Hs as [Hs _]. by apply small_wf_one.
  - pose proof (big_len _ _ _ _ _ Hw) as Hl. rewrite El, zlen_cons in Hl.
    destruct Hw as (_ & _ & (k & Hk & Hcap) & Hlen & Hst & Hn & Hnb). unfold pop_ok, _pop_or_moveout_front_ref.
    cbn [_front_ref] in Hf. rewrite Hf. rewrite El in Hnb. rewrite ref_list_big in El.
    replace (seqZ 0 nref) with (seqZ 0 (nref - 1 + 1)) in El by (f_equal; lia).
    rewrite map_seqZ_cons in El by lia. injection El as E0 Ers.
    destruct (Z.ltb_spec 2 (nref - 1)).
    + eexists. split; [|reflexivity]. assert (u64 (nbytes - r_length r) = total_len rs) as ->.
      { rewrite Hnb. simpl. pose proof (total_len_nonneg rs Hs). destruct Hb as [_ Hb]. simpl in Hb.
        destruct Hr as (_ & _ & ?). rewrite u64_small; lia. }
      apply (big_intro k); try done; try lia.
      * pose proof (ring_pos_range k start cap_mask Hk Hcap Hst 1). lia.
      * rewrite <- Ers. apply map_seqZ_ext. intros i Hi. apply (ring_at_shift k); lia.
      * by eapply list_bound_tail.
    + assert (nref = 3) as -> by lia. eexists. split; [|reflexivity]. change (map _ _) with
        [ring_at start refs cap_mask 1; ring_at start refs cap_mask 2] in Ers. subst rs.
      apply Forall_cons_1 in Hs as [Hs1 Hs]. apply Forall_cons_1 in Hs as [Hs2 _]. by apply small_wf_two.
Qed.

Lemma pop_back_spec c r rs : buf_wf c -> ref_list c = rs ++ [r] -> pop_ok false c r rs _pop_back_ref.
Proof.
  intros Hw El. pose proof (back_spec c r rs Hw El) as Hf. pose proof Hw as (Hs & Hb & _). rewrite El in Hs, Hb.
  apply Forall_app in Hs as [Hs Hr]. apply Forall_cons_1 in Hr as [Hr _].
  destruct c as [r0 r1|start refs nref cap_mask nbytes].
  - unfold pop_ok, _pop_back_ref.
    destruct (small_cases r0 r1 Hw) as [(-> & -> & E)|[(E0 & -> & E)|(E0 & E1 & E)]]; rewrite El in E.
    + by destruct rs.
    + change [r0] with ([] ++ [r0]) in E. apply app_inj_tail in E as [-> ->]. change (is_null null_ref) with true.
      rewrite E0. exists new_cord_buf. split; [by split; [apply small_wf_nil|]|done].
    + change [r0; r1] with ([r0] ++ [r1]) in E. apply app_inj_tail in E as [-> ->]. rewrite E1.
      exists (SmallView r0 null_ref). split; [|done]. apply Forall_cons_1 in Hs as [Hs _]. by apply small_wf_one.
  - pose proof (big_len _ _ _ _ _ Hw) as Hl. rewrite El, zlen_app, zlen_cons, (@zlen_nil BlockRef) in Hl.
    destruct Hw as (_ & _ & (k & Hk & Hcap) & Hlen & Hst & Hn & Hnb). unfold pop_ok, _pop_back_ref.
    cbn [_back_ref] in Hf. rewrite Hf. rewrite El in Hnb. rewrite ref_list_big in El.
    replace (seqZ 0 nref) with (seqZ 0 (nref - 1 + 1)) in El by (f_equal; lia).
    rewrite map_seqZ_snoc in El by lia. apply app_inj_tail in El as [Ers _].
    destruct (Z.ltb_spec 2 (nref - 1)).
    + eexists. split; [|reflexivity]. assert (u64 (nbytes - r_length r) = total_len rs) as ->.
      { rewrite Hnb, total_len_app. simpl. pose proof (total_len_nonneg rs Hs). destruct Hb as [_ Hb].
        rewrite total_len_app in Hb. simpl in Hb. destruct Hr as (_ & _ & ?). rewrite u64_small; lia. }
      apply (big_intro k); try done; try lia. by eapply list_bound_init.
    + assert (nref = 3) as -> by lia. eexists. split; [|reflexivity]. change (map _ _) with
        [ring_at start refs cap_mask 0; ring_at start refs cap_mask 1] in Ers. subst rs.
      apply Forall_cons_1 in Hs as [Hs1 Hs]. apply Forall_cons_1 in Hs as [Hs2 _].
      rewrite (ring_at_0 k) in * by lia. by apply small_wf_two.
Qed.

Definition advanced (n : Z) (r : BlockRef) : BlockRef := mk_ref (offset r + n) (r_length r - n) (block r).
Definition shrunk (n : Z) (r : BlockRef) : BlockRef := mk_ref (offset r) (r_length r - n) (block r).

Lemma advance_spec n c r rs :
  buf_wf c -> ref_list c = r :: rs -> 0 <= n < r_length r -> offset r + r_length r < 2 ^ 30 ->
  buf_wf (advance_front n c) /\ ref_list (advance_front n c) = advanced n r :: rs.
Proof.
  intros Hw El Hn Ho. pose proof (front_spec c r rs Hw El) as Hf. pose proof Hw as (Hs & Hb & _). rewrite El in Hs, Hb.
  apply Forall_cons_1 in Hs as [Hr Hs]. pose proof Hr as (Hr1 & Hr2 & Hr3).
  assert (ref_small (advanced n r)) as Ha by (split_and!; simpl; [done|lia..]).
  assert (mk_ref (u32 (offset r + n)) (u32 (r_length r - n)) (block r) = advanced n r) as Ea.
  { unfold advanced. by rewrite !u32_small by lia. }
  destruct c as [r0 r1|start refs nref cap_mask nbytes].
  - cbn [_front_ref] in Hf. subst r0. cbn [advance_front]. rewrite Ea.
    destruct (small_cases r r1 Hw) as [(-> & -> & E)|[(E0 & -> & E)|(E0 & E1 & E)]]; rewrite El in E;
      simplify_eq; [by apply small_wf_one|]. apply Forall_cons_1 in Hs as [Hs _]. by apply small_wf_two.
  - cbn [_front_ref] in Hf. cbn [advance_front]. rewrite Hf, Ea.
    destruct Hw as (_ & _ & (k & Hk & Hcap) & Hlen & Hst & Hn' & Hnb). rewrite El in Hnb. rewrite ref_list_big in El.
    replace (seqZ 0 nref) with (seqZ 0 (nref - 1 + 1)) in El by (f_equal; lia).
    rewrite map_seqZ_cons in El by lia. injection El as _ Ers.
    assert (u64 (nbytes - n) = total_len (advanced n r :: rs)) as ->.
    { rewrite Hnb. simpl. pose proof (total_len_nonneg rs Hs). destruct Hb as [_ Hb]. simpl in Hb.
      rewrite u64_small; lia. }
    apply (big_intro k); try done; [by rewrite zlen_zset| |by apply Forall_cons_2|].
    + replace (seqZ 0 nref) with (seqZ 0 (nref - 1 + 1)) by (f_equal; lia). rewrite map_seqZ_cons by lia.
      replace (zset start (advanced n r) refs) with (zset (ring_pos start cap_mask 0) (advanced n r) refs)
        by (by rewrite (ring_pos_0 k)).
      rewrite (ring_set_eq k) by lia. f_equal.
      rewrite <- Ers. apply map_seqZ_ext. intros i Hi. apply (ring_set_ne k); lia.
    + eapply list_bound_sub; [| |exact Hb]; [rewrite !zlen_cons; lia|simpl; lia].
Qed.

Lemma shrink_spec n c r rs :
  buf_wf c -> ref_list c = rs ++ [r] -> 0 <= n < r_length r ->
  buf_wf (shrink_back n c) /\ ref_list (shrink_back n c) = rs ++ [shrunk n r].
Proof.
  intros Hw El Hn. pose proof (back_spec c r rs Hw El) as Hf. pose proof Hw as (Hs & Hb & _). rewrite El in Hs, Hb.
  apply Forall_app in Hs as [Hs Hr]. apply Forall_cons_1 in Hr as [Hr _]. pose proof Hr as (Hr1 & Hr2 & Hr3).
  assert (ref_small (shrunk n r)) as Ha by (split_and!; simpl; [done|lia..]).
  assert (mk_ref (offset r) (u32 (r_length r - n)) (block r) = shrunk n r) as Ea.
  { unfold shrunk. by rewrite !u32_small by lia. }
  destruct c as [r0 r1|start refs nref cap_mask nbytes].
  - cbn [shrink_back]. destruct (small_cases r0 r1 Hw) as [(-> & -> & E)|[(E0 & -> & E)|(E0 & E1 & E)]]; rewrite El in E.
    + by destruct rs.
    + change [r0] with ([] ++ [r0]) in E. apply app_inj_tail in E as [-> ->]. change (is_null null_ref) with true.
      cbv iota. rewrite Ea. by apply small_wf_one.
    + change [r0; r1] with ([r0] ++ [r1]) in E. apply app_inj_tail in E as [-> ->]. rewrite E1, Ea.
      apply Forall_cons_1 in Hs as [Hs _]. by apply small_wf_two.
  - cbn [_back_ref] in Hf. cbn [shrink_back]. rewrite Hf, Ea.
    destruct Hw as (_ & _ & (k & Hk & Hcap) & Hlen & Hst & Hn' & Hnb). rewrite El in Hnb. rewrite ref_list_big in El.
    replace (seqZ 0 nref) with (seqZ 0 (nref - 1 + 1)) in El by (f_equal; lia).
    rewrite map_seqZ_snoc in El by lia. apply app_inj_tail in El as [Ers _].
    assert (u64 (nbytes - n) = total_len (rs ++ [shrunk n r])) as ->.
    { rewrite Hnb, !total_len_app. simpl. pose proof (total_len_nonneg rs Hs). destruct Hb as [_ Hb].
      rewrite total_len_app in Hb. simpl in Hb. rewrite u64_small; lia. }
    apply (big_intro k); try done; [by rewrite zlen_zset| |apply Forall_app; split; [done|by apply Forall_cons_2]|].
    + replace (seqZ 0 nref) with (seqZ 0 (nref - 1 + 1)) by (f_equal; lia). rewrite map_seqZ_snoc by lia.
      rewrite (ring_set_eq k) by lia. f_equal.
      rewrite <- Ers. apply map_seqZ_ext. intros i Hi. apply (ring_set_ne k); lia.
    + eapply list_bound_sub; [| |exact Hb]; [by rewrite !zlen_app|rewrite !total_len_app; simpl; lia].
Qed.
