(* ===== verification/CordOps.v ===== *)
(** * The operations of [cord_buf] on byte strings

    [holds m R held c s]: in the memory [m] the buffer [c] holds the string
    [s], [R] are the references of everybody else and [held] the blocks that
    writers own.  Every operation is specified as a weakest precondition: it
    runs (no wild access, no failed check), leaves a buffer that holds the
    string the operation promises, with exact reference counters, and does not
    change what [R] can see. *)

From stdpp Require Import list_tactics.
From S2P Require Import Prelude CordBlocks CordBuf CordQueue.
Local Open Scope Z_scope.

(** ** Weakest preconditions *)

Definition wp {A} (x : M A) (m : mem) (Q : A -> mem -> Prop) : Prop :=
  exists a m', x m = Ok (a, m') /\ Q a m'.

Lemma wp_ret {A} (a : A) m (Q : A -> mem -> Prop) : Q a m -> wp (mret a) m Q.
Proof. intros H. by exists a, m. Qed.

Lemma wp_bind {A B} (x : M A) (f : A -> M B) m Q : wp x m (fun a m' => wp (f a) m' Q) -> wp (x ≫= f) m Q.
Proof.
  intros (a & m1 & E & b & m2 & E' & H). exists b, m2. split; [|done].
  unfold mbind, M_bind. by rewrite E.
Qed.

Lemma wp_mono {A} (x : M A) m (P Q : A -> mem -> Prop) : (forall a m', P a m' -> Q a m') -> wp x m P -> wp x m Q.
Proof. intros H (a & m' & E & Hp). exists a, m'. auto. Qed.

Lemma wp_eq {A} (x y : M A) m m' Q : x m = y m' -> wp y m' Q -> wp x m Q.
Proof. unfold wp. by intros ->. Qed.

Lemma wp_get_block b blk m (Q : Block -> mem -> Prop) : blocks m !! b = Some blk -> Q blk m -> wp (get_block b) m Q.
Proof. intros Hb H. exists blk, m. unfold get_block. by rewrite Hb. Qed.

(** ** References and memory *)

Lemma mem_ok_block m refs held r :
  mem_ok m refs held -> ref_ok m r ->
  exists b, blocks m !! block r = Some b /\ 0 <= offset r /\ 0 < r_length r /\ offset r + r_length r <= zlen (data b) /\
    offset r + r_length r <= cap b /\ offset r + r_length r < 2 ^ 30 /\ block r <> 0.
Proof.
  intros (l & _ & _ & Hok) (b & Hb & Ho & Hl & Hs). exists b.
  destruct (ok_block _ _ _ Hok _ _ Hb) as (? & ? & ? & ? & _). split_and!; try done; lia.
Qed.

Lemma ref_ok_small m refs held r : mem_ok m refs held -> ref_ok m r -> ref_small r.
Proof. intros Hm Hr. destruct (mem_ok_block m refs held r Hm Hr) as (b & _ & ? & ? & _ & _ & ? & ?). split_and!; [done|lia..]. Qed.

Lemma zlen_slice m refs held r : mem_ok m refs held -> ref_ok m r -> zlen (slice m r) = r_length r.
Proof.
  intros Hm Hr. destruct (mem_ok_block m refs held r Hm Hr) as (b & Hb & ? & ? & ? & _). unfold slice. rewrite Hb.
  rewrite zlen_ztake; [done|]. rewrite zlen_zdrop; lia.
Qed.

Lemma wp_cp_from m refs held r n (Q : list Z -> mem -> Prop) :
  mem_ok m refs held -> ref_ok m r -> 0 <= n <= r_length r -> Q (ztake n (slice m r)) m ->
  wp (cp_from (block r) (offset r) n) m Q.
Proof.
  intros Hm Hr Hn HQ. destruct (mem_ok_block m refs held r Hm Hr) as (b & Hb & ? & ? & ? & ? & _).
  unfold cp_from. apply wp_bind. eapply wp_get_block; [exact Hb|].
  rewrite !(proj2 (Z.leb_le _ _)) by lia. apply wp_ret. unfold slice in HQ. rewrite Hb in HQ.
  unfold ztake in *. rewrite take_take in HQ. by rewrite Nat.min_l in HQ by lia.
Qed.

Lemma bytes_app m rs1 rs2 : bytes m (rs1 ++ rs2) = bytes m rs1 ++ bytes m rs2.
Proof. unfold bytes. by rewrite map_app, concat_app. Qed.
Lemma bytes_one m r : bytes m [r] = slice m r.
Proof. unfold bytes. simpl. by rewrite app_nil_r. Qed.
Lemma bytes_cons m r rs : bytes m (r :: rs) = slice m r ++ bytes m rs.
Proof. done. Qed.

Lemma zlen_bytes m refs held rs : mem_ok m refs held -> Forall (ref_ok m) rs -> zlen (bytes m rs) = total_len rs.
Proof.
  intros Hm. induction 1 as [|r rs Hr _ IH]; [done|]. rewrite bytes_cons, zlen_app, IH. simpl.
  by rewrite (zlen_slice m refs held).
Qed.

(** Parts of a reference. *)
Lemma slice_advanced m r n : 0 <= n <= r_length r -> 0 <= offset r -> slice m (advanced n r) = zdrop n (slice m r).
Proof.
  intros Hn Ho. unfold slice. cbn [advanced block offset r_length].
  destruct (blocks m !! block r) as [b|]; [|by unfold zdrop; rewrite drop_nil].
  rewrite zdrop_ztake by lia. by rewrite zdrop_zdrop by lia.
Qed.

Lemma slice_take m r n : 0 <= n <= r_length r -> slice m (mk_ref (offset r) n (block r)) = ztake n (slice m r).
Proof.
  intros Hn. unfold slice. cbn [block offset r_length].
  destruct (blocks m !! block r) as [b|]; [|by unfold ztake; rewrite take_nil]. by rewrite ztake_ztake by lia.
Qed.

Lemma advanced_ok m r n : ref_ok m r -> 0 <= n < r_length r -> ref_ok m (advanced n r).
Proof. intros (b & Hb & ? & ? & ?) Hn. exists b. simpl. split_and!; [done|lia..]. Qed.

Lemma take_ok m r n : ref_ok m r -> 0 < n <= r_length r -> ref_ok m (mk_ref (offset r) n (block r)).
Proof. intros (b & Hb & ? & ? & ?) Hn. exists b. simpl. split_and!; [done|lia..]. Qed.

(** A reference replaced by another to the same block. *)
Lemma mem_ok_same_block m r r' refs held :
  mem_ok m (r :: refs) held -> ref_ok m r' -> block r' = block r -> mem_ok m (r' :: refs) held.
Proof.
  intros (l & Hc & Hn & [H1 H2 H3 H4 H5]) Hr' Eb. exists l. split_and!; [done..|]. constructor; try done.
  - intros id b Hb. destruct (H1 id b Hb) as (? & ? & ? & ? & Hsh & ?). unfold block_ok.
    cbn [map] in *. by rewrite Eb.
  - apply Forall_cons_1 in H2 as [_ H2]. by apply Forall_cons_2.
Qed.

(** Memories where every reference sees the same. *)
Definition same_view (m m' : mem) : Prop := forall r, ref_ok m r -> ref_ok m' r /\ slice m' r = slice m r.

Lemma same_view_refl m : same_view m m.
Proof. by intros r Hr. Qed.

Lemma same_view_trans m1 m2 m3 : same_view m1 m2 -> same_view m2 m3 -> same_view m1 m3.
Proof. intros H1 H2 r Hr. destruct (H1 r Hr) as [Hr2 E1]. destruct (H2 r Hr2) as [Hr3 E2]. split; [done|]. by rewrite E2. Qed.

Lemma same_view_unchanged m m' refs : same_view m m' -> Forall (ref_ok m) refs -> unchanged refs m m'.
Proof. intros H Hr. eapply Forall_impl; [exact Hr|]. intros r Hrr. by apply H. Qed.

Lemma wp_inc_ref m refs held r (Q : unit -> mem -> Prop) :
  mem_ok m refs held -> ref_ok m r ->
  (forall m', mem_ok m' (r :: refs) held -> same_view m m' -> Q tt m') -> wp (inc_ref (block r)) m Q.
Proof.
  intros (l & Hc & Hn & Hok) Hr HQ. destruct (inc_ref_spec m refs (l ++ held) r Hok Hr) as (m' & E & Hok' & Hk).
  exists tt, m'. split; [done|]. apply HQ.
  - exists l. pose proof Hk as (-> & -> & _). split_and!; [|done..]. eapply keeps_chain; [done|by apply Forall_true|done].
  - intros r' Hr'. split; [by eapply keeps_ref_ok|by eapply keeps_slice].
Qed.

Lemma wp_dec_ref m refs held r (Q : unit -> mem -> Prop) :
  mem_ok m (r :: refs) held ->
  (forall m', mem_ok m' refs held -> unchanged refs m m' -> Q tt m') -> wp (dec_ref (block r)) m Q.
Proof.
  intros (l & Hc & Hn & Hok) HQ. destruct (dec_ref_ref m r refs (l ++ held) Hok) as (m' & E & Hok' & Hk).
  exists tt, m'. split; [done|]. apply HQ.
  - exists l. pose proof Hk as (-> & -> & _). split_and!; [|done..]. eapply keeps_chain; [done| |done].
    apply Forall_forall. intros x Hx. right. apply elem_of_app. by left.
  - apply (keeps_unchanged _ (l ++ held)); [done|]. destruct Hok as [_ Hr _ _ _]. by apply Forall_cons_1 in Hr as [_ ?].
Qed.

(** ** Pushing a reference *)

(** Strings of less than 1 GiB: no size field of a buffer can wrap. *)
Definition fits (s : list Z) : Prop := zlen s < 2 ^ 30.

Definition holds (m : mem) (R : list BlockRef) (held : list Z) (c : cord_buf) (s : list Z) : Prop :=
  mem_ok m (ref_list c ++ R) held /\ buf_wf c /\ bytes m (ref_list c) = s.

Lemma mergeable_spec m refs held l r :
  mem_ok m refs held -> ref_ok m l -> ref_ok m r -> mergeable l r = true ->
  ref_ok m (grow l (r_length r)) /\ slice m (grow l (r_length r)) = slice m l ++ slice m r.
Proof.
  intros Hm Hl Hr. unfold mergeable. intros [Eb Eo]%andb_true_iff. zbool.
  destruct (mem_ok_block m refs held l Hm Hl) as (b & Hb & ? & ? & ? & ? & ? & _).
  destruct (mem_ok_block m refs held r Hm Hr) as (b' & Hb' & ? & ? & ? & ? & ? & _).
  rewrite u32_small in Eo by lia. assert (b' = b) as -> by congruence. unfold grow. rewrite u32_small by lia. split.
  - destruct Hr as (b0 & Hb0 & ? & ? & ?). exists b0. cbn [block offset r_length]. rewrite Eb. split_and!; [done|lia..].
  - unfold slice. cbn [block offset r_length]. rewrite Hb, <- Eb, Hb. rewrite ztake_add by lia.
    by rewrite zdrop_zdrop, Eo by lia.
Qed.

Lemma snoc_merge_ok m refs held rs r :
  mem_ok m refs held -> Forall (ref_ok m) rs -> ref_ok m r ->
  Forall (ref_ok m) (snoc_merge rs r) /\ bytes m (snoc_merge rs r) = bytes m rs ++ slice m r.
Proof.
  intros Hm Hrs Hr. destruct rs as [|l rs _] using rev_ind.
  { unfold snoc_merge. simpl. rewrite bytes_one. split; [by apply Forall_cons_2|done]. }
  apply Forall_app in Hrs as [Hrs Hl]. apply Forall_cons_1 in Hl as [Hl _].
  rewrite snoc_merge_snoc. destruct (mergeable l r) eqn:E.
  - destruct (mergeable_spec m refs held l r Hm Hl Hr E) as [Hg Eg].
    rewrite !bytes_app, !bytes_one, Eg, app_assoc. split; [|done].
    apply Forall_app. split; [done|by apply Forall_cons_2].
  - rewrite !bytes_app, bytes_cons, !bytes_one, app_assoc. split; [|done].
    apply Forall_app. split; [done|by apply Forall_cons_2; [|apply Forall_cons_2]].
Qed.

Lemma fits_bound m refs held rs :
  mem_ok m refs held -> Forall (ref_ok m) rs -> fits (bytes m rs) -> Forall ref_small rs /\ list_bound rs.
Proof.
  intros Hm Hrs Hf. unfold fits in Hf. rewrite (zlen_bytes m refs held) in Hf by done.
  assert (Forall ref_small rs) as Hs by (eapply Forall_impl; [exact Hrs|]; intros; by eapply ref_ok_small).
  split; [done|]. pose proof (total_len_ge rs Hs). split; lia.
Qed.

Lemma holds_refs m R held c s : holds m R held c s -> Forall (ref_ok m) (ref_list c) /\ Forall (ref_ok m) R.
Proof. intros (Hm & _). apply Forall_app. by eapply mem_ok_refs. Qed.

(** What a push does to the queue, the memory effect [eff] aside. *)
Lemma push_bounded MOVE m R held c s r :
  mem_ok m (ref_list c ++ R) held -> buf_wf c -> bytes m (ref_list c) = s -> ref_ok m r ->
  list_bound (snoc_merge (ref_list c) r) ->
  push_ok MOVE r c /\ Forall (ref_ok m) (snoc_merge (ref_list c) r) /\
  bytes m (snoc_merge (ref_list c) r) = s ++ slice m r.
Proof.
  intros Hm Hw Hs Hr Hbd. assert (Forall (ref_ok m) (ref_list c)) as Hrs.
  { apply mem_ok_refs in Hm. by apply Forall_app in Hm as [? _]. }
  destruct (snoc_merge_ok _ _ _ _ _ Hm Hrs Hr) as [Hok Eb]. rewrite Hs in Eb. split_and!; try done.
  apply push_spec; try done; [by eapply ref_ok_small|].
  eapply Forall_impl; [exact Hok|]. intros. by eapply ref_ok_small.
Qed.

Lemma fits_push m R held c s r :
  mem_ok m (ref_list c ++ R) held -> bytes m (ref_list c) = s -> ref_ok m r -> fits (s ++ slice m r) ->
  list_bound (snoc_merge (ref_list c) r).
Proof.
  intros Hm Hs Hr Hf. assert (Forall (ref_ok m) (ref_list c)) as Hrs.
  { apply mem_ok_refs in Hm. by apply Forall_app in Hm as [? _]. }
  destruct (snoc_merge_ok _ _ _ _ _ Hm Hrs Hr) as [Hok Eb]. rewrite Hs in Eb. rewrite <- Eb in Hf.
  by destruct (fits_bound _ _ _ _ Hm Hok Hf) as [_ ?].
Qed.

Lemma push_common MOVE m R held c s r :
  mem_ok m (ref_list c ++ R) held -> buf_wf c -> bytes m (ref_list c) = s -> ref_ok m r -> fits (s ++ slice m r) ->
  push_ok MOVE r c /\ Forall (ref_ok m) (snoc_merge (ref_list c) r) /\
  bytes m (snoc_merge (ref_list c) r) = s ++ slice m r.
Proof. intros Hm Hw Hs Hr Hf. eapply push_bounded; try done. by eapply fits_push. Qed.

Lemma wp_push_back_bounded m R held c s r (Q : cord_buf -> mem -> Prop) :
  holds m R held c s -> ref_ok m r -> list_bound (snoc_merge (ref_list c) r) ->
  (forall c' m', ref_list c' = snoc_merge (ref_list c) r -> holds m' R held c' (s ++ slice m r) -> same_view m m' -> Q c' m') ->
  wp (_push_back_ref r c) m Q.
Proof.
  intros (Hm & Hw & Hs) Hr Hf HQ.
  destruct (push_bounded false m R held c s r Hm Hw Hs Hr Hf) as ((c' & [Hw' El] & Hpush) & Hok & Eb).
  eapply wp_eq; [apply Hpush|]. unfold push_effect. apply wp_bind. destruct (merges (ref_list c) r) eqn:E.
  - apply wp_ret, wp_ret. apply HQ; [done| |apply same_view_refl]. split_and!; [|done|by rewrite El].
    rewrite El. destruct (ref_list c) as [|l rs _] using rev_ind; [done|].
    rewrite merges_snoc in E. rewrite snoc_merge_snoc, E in *.
    apply Forall_app in Hok as [_ Hg]. apply Forall_cons_1 in Hg as [Hg _].
    apply (mem_ok_perm _ (grow l (r_length r) :: rs ++ R) _ held held); [solve_Permutation|done|].
    apply (mem_ok_same_block m l); [|exact Hg|done].
    eapply mem_ok_perm; [|reflexivity|exact Hm]. solve_Permutation.
  - cbn [stored]. eapply wp_inc_ref; [exact Hm|done|]. intros m' Hm' Hsv. apply wp_ret. apply HQ; [done| |done].
    assert (snoc_merge (ref_list c) r = ref_list c ++ [r]) as Em.
    { destruct (ref_list c) as [|l rs _] using rev_ind; [done|]. rewrite merges_snoc in E.
      rewrite snoc_merge_snoc, E. by rewrite <- app_assoc. }
    split_and!; [|done|].
    + rewrite El, Em. eapply mem_ok_perm; [|reflexivity|exact Hm']. solve_Permutation.
    + rewrite El, <- Eb. by apply unchanged_bytes, same_view_unchanged.
Qed.

Lemma wp_push_back m R held c s r (Q : cord_buf -> mem -> Prop) :
  holds m R held c s -> ref_ok m r -> fits (s ++ slice m r) ->
  (forall c' m', holds m' R held c' (s ++ slice m r) -> same_view m m' -> Q c' m') -> wp (_push_back_ref r c) m Q.
Proof.
  intros Hh Hr Hf HQ. eapply wp_push_back_bounded; [exact Hh|done| |by eauto].
  destruct Hh as (Hm & _ & Hs). by eapply fits_push.
Qed.

Lemma wp_move_back m R held c s r (Q : cord_buf -> mem -> Prop) :
  holds m (r :: R) held c s -> fits (s ++ slice m r) ->
  (forall c' m', holds m' R held c' (s ++ slice m r) -> unchanged R m m' -> Q c' m') -> wp (_move_back_ref r c) m Q.
Proof.
  intros (Hm & Hw & Hs) Hf HQ. assert (ref_ok m r) as Hr.
  { apply mem_ok_refs in Hm. apply Forall_app in Hm as [_ Hm]. by apply Forall_cons_1 in Hm as [? _]. }
  destruct (push_common true m _ held c s r Hm Hw Hs Hr Hf) as ((c' & [Hw' El] & Hpush) & Hok & Eb).
  eapply wp_eq; [apply Hpush|]. unfold push_effect. apply wp_bind. destruct (merges (ref_list c) r) eqn:E.
  - destruct (ref_list c) as [|l rs _] using rev_ind; [done|].
    rewrite merges_snoc in E. rewrite snoc_merge_snoc, E in *.
    apply Forall_app in Hok as [_ Hg]. apply Forall_cons_1 in Hg as [Hg _].
    eapply (wp_dec_ref m (grow l (r_length r) :: rs ++ R) held).
    { apply (mem_ok_perm _ (grow l (r_length r) :: rs ++ r :: R) _ held held); [solve_Permutation|done|].
      apply (mem_ok_same_block m l); [|exact Hg|done]. eapply mem_ok_perm; [|reflexivity|exact Hm]. solve_Permutation. }
    intros m' Hm' Hun. apply wp_ret. apply Forall_cons_1 in Hun as [Hg' Hun]. apply unchanged_app in Hun as [Hun1 Hun2].
    apply HQ; [|done]. split_and!; [|done|].
    + rewrite El. eapply mem_ok_perm; [|reflexivity|exact Hm']. solve_Permutation.
    + rewrite El, <- Eb, !bytes_app, !bytes_one, Hg'. by rewrite (unchanged_bytes rs m m').
  - apply wp_ret, wp_ret. apply HQ; [|apply unchanged_refl]. split_and!; [|done|by rewrite El].
    assert (snoc_merge (ref_list c) r = ref_list c ++ [r]) as Em.
    { destruct (ref_list c) as [|l rs _] using rev_ind; [done|]. rewrite merges_snoc in E.
      rewrite snoc_merge_snoc, E. by rewrite <- app_assoc. }
    rewrite El, Em. eapply mem_ok_perm; [|reflexivity|exact Hm]. solve_Permutation.
Qed.

(** ** Consuming references *)

Lemma holds_perm m R R' held c s : R ≡ₚ R' -> holds m R held c s -> holds m R' held c s.
Proof.
  intros Hp (Hm & Hw & Hs). split_and!; [|done..]. eapply mem_ok_perm; [|reflexivity|exact Hm]. by rewrite Hp.
Qed.

(** Two buffers in one memory, seen from the other one. *)
Lemma holds_swap m R held c d s :
  buf_wf d -> holds m (ref_list d ++ R) held c s -> holds m (ref_list c ++ R) held d (bytes m (ref_list d)).
Proof.
  intros Hd (Hm & _). split_and!; [|done..]. eapply mem_ok_perm; [|reflexivity|exact Hm]. solve_Permutation.
Qed.

Lemma holds_length m R held c s : holds m R held c s -> length c = zlen s.
Proof.
  intros Hh. destruct (holds_refs _ _ _ _ _ Hh) as [Hr _]. destruct Hh as (Hm & Hw & <-).
  rewrite length_spec by done. by rewrite (zlen_bytes m _ held _ Hm).
Qed.

Lemma holds_front m R held c s r rs :
  holds m R held c s -> ref_list c = r :: rs ->
  ref_ok m r /\ zlen (slice m r) = r_length r /\ s = slice m r ++ bytes m rs /\ _front_ref c = r /\
  0 < r_length r < 2 ^ 30 /\ 0 <= offset r /\ offset r + r_length r < 2 ^ 30.
Proof.
  intros Hh El. destruct (holds_refs _ _ _ _ _ Hh) as [Hr _]. destruct Hh as (Hm & Hw & <-).
  rewrite El in *. apply Forall_cons_1 in Hr as [Hr _]. pose proof (mem_ok_block _ _ _ _ Hm Hr) as (b & _ & ? & ? & _ & _ & ? & _).
  split_and!; try done; try lia; [by eapply zlen_slice|by eapply front_spec].
Qed.

Lemma holds_back m R held c s r rs :
  holds m R held c s -> ref_list c = rs ++ [r] ->
  ref_ok m r /\ zlen (slice m r) = r_length r /\ s = bytes m rs ++ slice m r /\ _back_ref c = r /\
  0 < r_length r < 2 ^ 30.
Proof.
  intros Hh El. destruct (holds_refs _ _ _ _ _ Hh) as [Hr _]. destruct Hh as (Hm & Hw & <-).
  rewrite El in *. apply Forall_app in Hr as [_ Hr]. apply Forall_cons_1 in Hr as [Hr _].
  pose proof (mem_ok_block _ _ _ _ Hm Hr) as (b & _ & ? & ? & _ & _ & ? & _). rewrite bytes_app, bytes_one.
  split_and!; try done; try lia; [by eapply zlen_slice|by eapply back_spec].
Qed.

Lemma wp_pop_front_ref m R held c s r rs (Q : Z * cord_buf -> mem -> Prop) :
  holds m R held c s -> ref_list c = r :: rs ->
  (forall c' m', ref_list c' = rs -> holds m' R held c' (zdrop (r_length r) s) -> unchanged R m m' -> Q (0, c') m') ->
  wp (_pop_front_ref c) m Q.
Proof.
  intros Hh El HQ. destruct (holds_front _ _ _ _ _ _ _ Hh El) as (_ & Hl & Es & _).
  pose proof Hh as (Hm & Hw & _). rewrite El in Hm.
  destruct (pop_front_spec false c r rs Hw El) as (c' & [Hw' El'] & E). eapply wp_eq; [apply E|].
  apply wp_bind. eapply wp_dec_ref; [exact Hm|]. intros m' Hm' Hun. apply unchanged_app in Hun as [Hun1 Hun2].
  apply wp_ret. apply HQ; [done| |done]. split_and!; [by rewrite El'|done|].
  rewrite El', (unchanged_bytes rs m m') by done. by rewrite Es, zdrop_app_exact.
Qed.

Lemma wp_moveout_front_ref m c r rs (Q : Z * cord_buf -> mem -> Prop) :
  buf_wf c -> ref_list c = r :: rs ->
  (forall c', ref_list c' = rs -> buf_wf c' -> Q (0, c') m) ->
  wp (_moveout_front_ref c) m Q.
Proof.
  intros Hw El HQ. destruct (pop_front_spec true c r rs Hw El) as (c' & [Hw' El'] & E).
  eapply wp_eq; [apply E|]. apply wp_ret. by apply HQ.
Qed.

Lemma wp_pop_back_ref m R held c s r rs (Q : Z * cord_buf -> mem -> Prop) :
  holds m R held c s -> ref_list c = rs ++ [r] ->
  (forall c' m', ref_list c' = rs -> holds m' R held c' (ztake (zlen s - r_length r) s) -> unchanged R m m' -> Q (0, c') m') ->
  wp (_pop_back_ref c) m Q.
Proof.
  intros Hh El HQ. destruct (holds_back _ _ _ _ _ _ _ Hh El) as (_ & Hl & Es & _).
  pose proof Hh as (Hm & Hw & _). rewrite El in Hm.
  destruct (pop_back_spec c r rs Hw El) as (c' & [Hw' El'] & E). eapply wp_eq; [apply E|].
  apply wp_bind. eapply (wp_dec_ref m (rs ++ R)).
  { eapply mem_ok_perm; [|reflexivity|exact Hm]. solve_Permutation. }
  intros m' Hm' Hun. apply unchanged_app in Hun as [Hun1 Hun2].
  apply wp_ret. apply HQ; [done| |done]. split_and!; [by rewrite El'|done|].
  rewrite El', (unchanged_bytes rs m m') by done. rewrite Es, zlen_app, ztake_app_exact; [done|lia].
Qed.

Lemma holds_advance m R held c s r rs n :
  holds m R held c s -> ref_list c = r :: rs -> 0 <= n < r_length r -> holds m R held (advance_front n c) (zdrop n s).
Proof.
  intros Hh El Hn. destruct (holds_front _ _ _ _ _ _ _ Hh El) as (Hr & Hl & Es & _ & _ & Ho & Ho2).
  pose proof Hh as (Hm & Hw & _). destruct (advance_spec n c r rs Hw El Hn Ho2) as [Hw' El'].
  split_and!; [|done|].
  - rewrite El'. rewrite El in Hm. apply (mem_ok_same_block m r (advanced n r)); [done| |done]. by apply advanced_ok.
  - rewrite El', bytes_cons, slice_advanced by lia. rewrite Es. by rewrite zdrop_app_le by lia.
Qed.

Lemma holds_shrink m R held c s r rs n :
  holds m R held c s -> ref_list c = rs ++ [r] -> 0 <= n < r_length r ->
  holds m R held (shrink_back n c) (ztake (zlen s - n) s).
Proof.
  intros Hh El Hn. destruct (holds_back _ _ _ _ _ _ _ Hh El) as (Hr & Hl & Es & _).
  pose proof Hh as (Hm & Hw & _). destruct (shrink_spec n c r rs Hw El Hn) as [Hw' El'].
  split_and!; [|done|].
  - rewrite El'. rewrite El in Hm. apply (mem_ok_perm _ (shrunk n r :: rs ++ R) _ held held); [solve_Permutation|done|].
    apply (mem_ok_same_block m r (shrunk n r)); [|apply take_ok; [done|lia]|done].
    eapply mem_ok_perm; [|reflexivity|exact Hm]. solve_Permutation.
  - rewrite El', bytes_app, bytes_one. unfold shrunk. rewrite slice_take by lia. rewrite Es at 2.
    rewrite ztake_app_ge by (rewrite Es, zlen_app; lia). do 2 f_equal. rewrite Es, zlen_app. lia.
Qed.

Lemma wp_dec_refs m rs R held (Q : unit -> mem -> Prop) :
  mem_ok m (rs ++ R) held -> (forall m', mem_ok m' R held -> unchanged R m m' -> Q tt m') -> wp (dec_refs rs) m Q.
Proof.
  revert m Q. induction rs as [|r rs IH]; intros m Q Hm HQ; cbn [dec_refs].
  { apply wp_ret. apply HQ; [done|apply unchanged_refl]. }
  apply wp_bind. eapply wp_dec_ref; [exact Hm|]. intros m1 Hm1 Hun1. apply IH; [done|].
  intros m2 Hm2 Hun2. apply HQ; [done|]. apply unchanged_app in Hun1 as [_ Hun1]. by eapply unchanged_trans.
Qed.

Lemma wp_clear m R held c s (Q : cord_buf -> mem -> Prop) :
  holds m R held c s ->
  (forall c' m', holds m' R held c' [] -> unchanged R m m' -> Q c' m') -> wp (clear c) m Q.
Proof.
  intros (Hm & Hw & _) HQ. assert (forall m', mem_ok m' R held -> holds m' R held new_cord_buf []) as Hnew.
  { intros m' Hm'. split_and!; [done|apply small_wf_nil|done]. }
  destruct c as [r0 r1|start refs nref cap_mask nbytes]; cbn [clear].
  - destruct (small_cases r0 r1 Hw) as [(-> & -> & E)|[(E0 & -> & E)|(E0 & E1 & E)]]; rewrite E in Hm.
    + apply wp_ret. apply HQ; [by apply Hnew|apply unchanged_refl].
    + rewrite E0. apply wp_bind. eapply wp_dec_ref; [exact Hm|]. intros m' Hm' Hun. apply wp_ret.
      apply HQ; [by apply Hnew|done].
    + rewrite E0, E1. apply wp_bind. eapply wp_dec_ref; [exact Hm|]. intros m1 Hm1 Hun1. apply wp_bind.
      eapply wp_dec_ref; [exact Hm1|]. intros m2 Hm2 Hun2. apply wp_ret.
      apply HQ; [by apply Hnew|]. apply Forall_cons_1 in Hun1 as [_ Hun1]. by eapply unchanged_trans.
  - apply wp_bind. eapply wp_dec_refs; [exact Hm|]. intros m' Hm' Hun. apply wp_ret. apply HQ; [by apply Hnew|done].
Qed.
