(* ===== verification/CordSpec.v ===== *)
(** * What each operation of [cord_buf] does to the strings

    The weakest-precondition rules of the public operations: cutting,
    popping, copying out, searching, appending. *)

From stdpp Require Import list_tactics.
From S2P Require Import Prelude CordBlocks CordBuf CordQueue CordOps.
Local Open Scope Z_scope.

(** A nonempty string has a first and a last reference. *)
Lemma holds_nonempty m R held c s : holds m R held c s -> 0 < zlen s -> exists r rs, ref_list c = r :: rs.
Proof.
  intros (_ & _ & <-) Hl. destruct (ref_list c) as [|r rs]; [done|by exists r, rs].
Qed.

Lemma holds_nonempty_back m R held c s : holds m R held c s -> 0 < zlen s -> exists r rs, ref_list c = rs ++ [r].
Proof.
  intros (_ & _ & <-) Hl. destruct (ref_list c) as [|r rs _] using rev_ind; [done|by exists r, rs].
Qed.

Lemma holds_empty m R held c s : holds m R held c s -> empty c = (zlen s =? 0).
Proof.
  intros Hh. pose proof Hh as (_ & Hw & Hs). rewrite empty_spec by done.
  destruct (ref_list c) as [|r rs] eqn:El; [by subst s|].
  destruct (holds_front _ _ _ _ _ _ _ Hh El) as (_ & Hl & -> & _ & ? & _). symmetry. apply Z.eqb_neq.
  rewrite zlen_app. pose proof (zlen_nonneg (bytes m rs)). lia.
Qed.

Lemma zdrop_0 {A} (s : list A) : zdrop 0 s = s.
Proof. done. Qed.

Lemma ztake_min {A} n (s : list A) : ztake (Z.min n (zlen s)) s = ztake n s.
Proof. destruct (Z.min_spec n (zlen s)) as [[? ->]|[? ->]]; [done|]. by rewrite !ztake_all by lia. Qed.
Lemma zdrop_min {A} n (s : list A) : zdrop (Z.min n (zlen s)) s = zdrop n s.
Proof. destruct (Z.min_spec n (zlen s)) as [[? ->]|[? ->]]; [done|]. by rewrite !zdrop_all by lia. Qed.

(** ** Popping *)

Lemma wp_pop_front_loop fuel n m R held c s (Q : cord_buf -> mem -> Prop) :
  holds m R held c s -> 0 <= n <= zlen s -> fuel = Datatypes.length (ref_list c) ->
  (forall c' m', holds m' R held c' (zdrop n s) -> unchanged R m m' -> Q c' m') ->
  wp (pop_front_loop fuel n c) m Q.
Proof.
  revert n m c s Q. induction fuel as [|fuel IH]; intros n m c s Q Hh Hn Hf HQ; cbn [pop_front_loop].
  all: destruct (Z.eqb_spec n 0) as [->|Hne]; [apply wp_ret; apply HQ; [by rewrite zdrop_0|apply unchanged_refl]|].
  all: destruct (holds_nonempty _ _ _ _ _ Hh) as (r & rs & El); [lia|]; rewrite El in Hf; simpl in Hf; try lia.
  destruct (holds_front _ _ _ _ _ _ _ Hh El) as (_ & Hl & Es & -> & Hr & _).
  destruct (Z.ltb_spec n (r_length r)).
  - apply wp_ret. apply HQ; [|apply unchanged_refl]. eapply holds_advance; [done|done|lia].
  - apply wp_bind. eapply wp_pop_front_ref; [done|done|]. intros c1 m1 El1 Hh1 Hun1.
    eapply IH; [exact Hh1| | |].
    + rewrite zlen_zdrop; lia.
    + rewrite El1. by injection Hf.
    + intros c2 m2 Hh2 Hun2. rewrite zdrop_zdrop in Hh2 by lia. apply HQ; [|by eapply unchanged_trans].
      by replace n with (r_length r + (n - r_length r)) by lia.
Qed.

Lemma wp_pop_front n m R held c s (Q : Z * cord_buf -> mem -> Prop) :
  holds m R held c s -> 0 <= n ->
  (forall c' m', holds m' R held c' (zdrop n s) -> unchanged R m m' -> Q (Z.min n (zlen s), c') m') ->
  wp (pop_front n c) m Q.
Proof.
  intros Hh Hn HQ. unfold pop_front. rewrite (holds_length _ _ _ _ _ Hh). destruct (Z.leb_spec (zlen s) n).
  - apply wp_bind. eapply wp_clear; [done|]. intros c' m' Hh' Hun. apply wp_ret.
    rewrite Z.min_r in HQ by lia. apply HQ; [by rewrite zdrop_all by lia|done].
  - apply wp_bind. eapply wp_pop_front_loop; [done|lia|apply nrefs_spec; apply Hh|].
    intros c' m' Hh' Hun. apply wp_ret. rewrite Z.min_l in HQ by lia. by apply HQ.
Qed.

Lemma wp_pop_back_loop fuel n m R held c s (Q : cord_buf -> mem -> Prop) :
  holds m R held c s -> 0 <= n <= zlen s -> fuel = Datatypes.length (ref_list c) ->
  (forall c' m', holds m' R held c' (ztake (zlen s - n) s) -> unchanged R m m' -> Q c' m') ->
  wp (pop_back_loop fuel n c) m Q.
Proof.
  revert n m c s Q. induction fuel as [|fuel IH]; intros n m c s Q Hh Hn Hf HQ; cbn [pop_back_loop].
  all: destruct (Z.eqb_spec n 0) as [->|Hne];
    [apply wp_ret; apply HQ; [by rewrite ztake_all by lia|apply unchanged_refl]|].
  all: destruct (holds_nonempty_back _ _ _ _ _ Hh) as (r & rs & El); [lia|]; rewrite El, length_app in Hf; simpl in Hf;
    try lia.
  destruct (holds_back _ _ _ _ _ _ _ Hh El) as (_ & Hl & Es & -> & Hr).
  destruct (Z.ltb_spec n (r_length r)).
  - apply wp_ret. apply HQ; [|apply unchanged_refl]. eapply holds_shrink; [done|done|lia].
  - apply wp_bind. eapply wp_pop_back_ref; [done|done|]. intros c1 m1 El1 Hh1 Hun1.
    eapply IH; [exact Hh1| | |].
    + rewrite zlen_ztake; lia.
    + rewrite El1. lia.
    + intros c2 m2 Hh2 Hun2. rewrite zlen_ztake, ztake_ztake in Hh2 by lia. apply HQ; [|by eapply unchanged_trans].
      by replace (zlen s - n) with (zlen s - r_length r - (n - r_length r)) by lia.
Qed.

Lemma wp_pop_back n m R held c s (Q : Z * cord_buf -> mem -> Prop) :
  holds m R held c s -> 0 <= n ->
  (forall c' m', holds m' R held c' (ztake (zlen s - n) s) -> unchanged R m m' -> Q (Z.min n (zlen s), c') m') ->
  wp (pop_back n c) m Q.
Proof.
  intros Hh Hn HQ. unfold pop_back. rewrite (holds_length _ _ _ _ _ Hh). destruct (Z.leb_spec (zlen s) n).
  - apply wp_bind. eapply wp_clear; [done|]. intros c' m' Hh' Hun. apply wp_ret.
    rewrite Z.min_r in HQ by lia. apply HQ; [|done].
    assert (ztake (zlen s - n) s = []) as ->; [|done]. unfold ztake. by replace (Z.to_nat _) with O by lia.
  - apply wp_bind. eapply wp_pop_back_loop; [done|lia|apply nrefs_spec; apply Hh|].
    intros c' m' Hh' Hun. apply wp_ret. rewrite Z.min_l in HQ by lia. by apply HQ.
Qed.

Lemma wp_front_byte m R held c s b s' (Q : Z -> mem -> Prop) :
  holds m R held c s -> s = b :: s' -> Q b m -> wp (front_byte c) m Q.
Proof.
  intros Hh Es HQ. destruct (holds_nonempty _ _ _ _ _ Hh) as (r & rs & El).
  { rewrite Es, zlen_cons. pose proof (zlen_nonneg s'). lia. }
  destruct (holds_front _ _ _ _ _ _ _ Hh El) as (Hr & Hl & Es' & Ef & Hlr & _). pose proof Hh as (Hm & _).
  destruct (mem_ok_block _ _ _ _ Hm Hr) as (blk & Hb & ? & ? & ? & _).
  unfold front_byte. rewrite Ef. apply wp_bind. eapply wp_get_block; [exact Hb|].
  assert (zget (data blk) (offset r) = Some b) as ->; [|by apply wp_ret].
  destruct (slice m r) as [|b' t] eqn:Esl; [rewrite (@zlen_nil Z) in Hl; lia|]. rewrite Es in Es'. injection Es' as <- _.
  unfold slice in Esl. rewrite Hb in Esl. unfold zget. rewrite (proj2 (Z.ltb_ge _ _)) by lia.
  unfold ztake, zdrop in Esl. assert (take (Z.to_nat (r_length r)) (drop (Z.to_nat (offset r)) (data blk)) !! 0%nat = Some b) as E0 by (by rewrite Esl).
  rewrite lookup_take, decide_True, lookup_drop in E0 by lia. by rewrite Nat.add_0_r in E0.
Qed.

Lemma wp_cut1 m R held c s (Q : option Z * cord_buf -> mem -> Prop) :
  holds m R held c s ->
  (forall c' m', holds m' R held c' (zdrop 1 s) -> unchanged R m m' -> Q (head s, c') m') ->
  wp (cut1 c) m Q.
Proof.
  intros Hh HQ. unfold cut1. rewrite (holds_empty _ _ _ _ _ Hh). destruct s as [|b s'] eqn:Es.
  { apply wp_ret. apply HQ; [done|apply unchanged_refl]. }
  rewrite zlen_cons. pose proof (zlen_nonneg s'). rewrite (proj2 (Z.eqb_neq _ _)) by lia.
  apply wp_bind. eapply wp_front_byte; [done|done|].
  destruct (holds_nonempty _ _ _ _ _ Hh) as (r & rs & El); [rewrite zlen_cons; lia|].
  destruct (holds_front _ _ _ _ _ _ _ Hh El) as (_ & _ & _ & -> & Hr & _).
  destruct (Z.ltb_spec 1 (r_length r)).
  - apply wp_ret. apply HQ; [|apply unchanged_refl]. eapply holds_advance; [done|done|lia].
  - apply wp_bind. eapply wp_pop_front_ref; [done|done|]. intros c' m' _ Hh' Hun. apply wp_ret.
    replace (r_length r) with 1 in Hh' by lia. by apply HQ.
Qed.

(** ** Cutting into another buffer *)

Definition holds2 (m : mem) (R : list BlockRef) (held : list Z) (c : cord_buf) (s : list Z)
    (d : cord_buf) (t : list Z) : Prop :=
  holds m (ref_list d ++ R) held c s /\ buf_wf d /\ bytes m (ref_list d) = t.

Lemma holds2_sym m R held c s d t : holds2 m R held c s d t -> holds2 m R held d t c s.
Proof.
  intros (Hc & Hd & Et). pose proof Hc as (_ & Hw & Es). split_and!; [|done..]. rewrite <- Et. by eapply holds_swap.
Qed.

Lemma holds2_right m R held c s d t : holds2 m R held c s d t -> holds m (ref_list c ++ R) held d t.
Proof. by intros (H & _)%holds2_sym. Qed.

Lemma wp_cutn_loop fuel n m R held c s out t (Q : cord_buf * cord_buf -> mem -> Prop) :
  holds2 m R held c s out t -> 0 <= n <= zlen s -> fuel = Datatypes.length (ref_list c) -> fits (t ++ ztake n s) ->
  (forall c' out' m', holds2 m' R held c' (zdrop n s) out' (t ++ ztake n s) -> unchanged R m m' -> Q (c', out') m') ->
  wp (cutn_loop fuel n c out) m Q.
Proof.
  revert n m c s out t Q. induction fuel as [|fuel IH]; intros n m c s out t Q Hh Hn Hf Hfit HQ; cbn [cutn_loop].
  all: destruct (Z.eqb_spec n 0) as [->|Hne];
    [apply wp_ret; apply HQ; [by rewrite zdrop_0; change (ztake 0 s) with (@nil Z); rewrite app_nil_r|apply unchanged_refl]|].
  all: pose proof Hh as (Hc & Hwo & Et).
  all: destruct (holds_nonempty _ _ _ _ _ Hc) as (r & rs & El); [lia|]; rewrite El in Hf; simpl in Hf; try lia.
  destruct (holds_front _ _ _ _ _ _ _ Hc El) as (Hok & Hl & Es & -> & Hr & _).
  pose proof (holds2_right _ _ _ _ _ _ _ Hh) as Ho. rewrite El in Ho.
  destruct (Z.leb_spec (r_length r) n).
  - assert (ztake n s = slice m r ++ ztake (n - r_length r) (bytes m rs)) as Etk.
    { rewrite Es, ztake_app_ge by lia. by rewrite Hl. }
    assert (zdrop (r_length r) s = bytes m rs) as Edr by (by rewrite Es, zdrop_app_exact).
    apply wp_bind. eapply (wp_move_back m (rs ++ R)); [exact Ho| |].
    { unfold fits in *. rewrite Etk in Hfit. rewrite !zlen_app in *.
      pose proof (zlen_nonneg (ztake (n - r_length r) (bytes m rs))). lia. }
    intros out1 m1 Ho1 Hun1. apply unchanged_app in Hun1 as [Hunrs HunR].
    apply wp_bind. eapply wp_moveout_front_ref; [apply Hc|exact El|]. intros c1 El1 Hw1.
    assert (bytes m1 rs = bytes m rs) as Eb1 by (by apply unchanged_bytes).
    assert (holds2 m1 R held c1 (bytes m rs) out1 (t ++ slice m r)) as Hh1.
    { apply holds2_sym. split_and!; [by rewrite El1|done|by rewrite El1]. }
    eapply IH; [exact Hh1| | | |].
    + rewrite Es, zlen_app in Hn. lia.
    + rewrite El1. lia.
    + by rewrite <- app_assoc, <- Etk.
    + intros c2 out2 m2 Hh2 Hun2. apply HQ; [|by eapply unchanged_trans].
      rewrite <- app_assoc, <- Etk in Hh2. rewrite <- Edr, zdrop_zdrop in Hh2 by lia.
      by replace (r_length r + (n - r_length r)) with n in Hh2 by lia.
  - rewrite u32_small by lia. apply wp_bind. set (r' := mk_ref (offset r) n (block r)).
    assert (slice m r' = ztake n s) as Etk by (unfold r'; rewrite slice_take, Es, ztake_app_le by lia; done).
    eapply wp_push_back; [exact Ho|apply take_ok; [done|lia]|by fold r'; rewrite Etk|].
    fold r'. intros out1 m1 Ho1 Hsv. rewrite Etk in Ho1.
    destruct (holds_refs _ _ _ _ _ Ho) as [_ HrR]. pose proof (same_view_unchanged _ _ _ Hsv HrR) as Hun.
    apply (unchanged_app (r :: rs) R) in Hun as [Hunc HunR].
    assert (holds2 m1 R held c s out1 (t ++ ztake n s)) as Hh1.
    { apply holds2_sym. split_and!; [by rewrite El|apply Hc|]. rewrite El, (unchanged_bytes _ m m1) by done. by rewrite Es. }
    apply wp_ret. apply HQ; [|done]. destruct Hh1 as (Hc1 & Hwo1 & Et1). split_and!; [|done..].
    eapply holds_advance; [done|done|lia].
Qed.

Lemma wp_cutn n m R held c s out t (Q : Z * cord_buf * cord_buf -> mem -> Prop) :
  holds2 m R held c s out t -> 0 <= n -> fits (t ++ ztake n s) ->
  (forall c' out' m', holds2 m' R held c' (zdrop n s) out' (t ++ ztake n s) -> unchanged R m m' ->
     Q (Z.min n (zlen s), c', out') m') ->
  wp (cutn n c out) m Q.
Proof.
  intros Hh Hn Hf HQ. unfold cutn. pose proof Hh as (Hc & _). rewrite (holds_length _ _ _ _ _ Hc).
  pose proof (zlen_nonneg s).
  apply wp_bind. eapply wp_cutn_loop; [exact Hh|lia|apply nrefs_spec; apply Hc|by rewrite ztake_min|].
  intros c' out' m' Hh' Hun. rewrite ztake_min, zdrop_min in Hh'. apply wp_ret. by apply HQ.
Qed.

(** ** Cutting into memory *)

Lemma wp_cutn_mem_loop fuel n m R held c s (Q : list Z * cord_buf -> mem -> Prop) :
  holds m R held c s -> 0 <= n <= zlen s -> fuel = Datatypes.length (ref_list c) ->
  (forall c' m', holds m' R held c' (zdrop n s) -> unchanged R m m' -> Q (ztake n s, c') m') ->
  wp (cutn_mem_loop fuel n c) m Q.
Proof.
  revert n m c s Q. induction fuel as [|fuel IH]; intros n m c s Q Hh Hn Hf HQ; cbn [cutn_mem_loop].
  all: destruct (Z.eqb_spec n 0) as [->|Hne]; [apply wp_ret; apply HQ; [by rewrite zdrop_0|apply unchanged_refl]|].
  all: destruct (holds_nonempty _ _ _ _ _ Hh) as (r & rs & El); [lia|]; rewrite El in Hf; simpl in Hf; try lia.
  destruct (holds_front _ _ _ _ _ _ _ Hh El) as (Hok & Hl & Es & -> & Hr & _).
  destruct (Z.leb_spec (r_length r) n).
  - apply wp_bind. eapply wp_cp_from; [apply Hh|done|lia|]. rewrite ztake_all by lia.
    apply wp_bind. eapply wp_pop_front_ref; [done|done|]. intros c1 m1 El1 Hh1 Hun1. apply wp_bind.
    eapply IH; [exact Hh1| | |].
    + rewrite zlen_zdrop; lia.
    + rewrite El1. lia.
    + intros c2 m2 Hh2 Hun2. rewrite zdrop_zdrop in Hh2 by lia. apply wp_ret.
      replace (r_length r + (n - r_length r)) with n in Hh2 by lia.
      assert (slice m r ++ ztake (n - r_length r) (zdrop (r_length r) s) = ztake n s) as ->.
      { rewrite Es, zdrop_app_exact, ztake_app_ge by lia. by rewrite Hl. }
      apply HQ; [done|by eapply unchanged_trans].
  - apply wp_bind. eapply wp_cp_from; [apply Hh|done|lia|]. apply wp_ret.
    assert (ztake n (slice m r) = ztake n s) as -> by (rewrite Es, ztake_app_le by lia; done).
    apply HQ; [|apply unchanged_refl]. eapply holds_advance; [done|done|lia].
Qed.

Lemma wp_cutn_mem n m R held c s (Q : list Z * cord_buf -> mem -> Prop) :
  holds m R held c s -> 0 <= n ->
  (forall c' m', holds m' R held c' (zdrop n s) -> unchanged R m m' -> Q (ztake n s, c') m') ->
  wp (cutn_mem n c) m Q.
Proof.
  intros Hh Hn HQ. unfold cutn_mem. rewrite (holds_length _ _ _ _ _ Hh). pose proof (zlen_nonneg s).
  eapply wp_cutn_mem_loop; [done|lia|apply nrefs_spec; apply Hh|].
  intros c' m' Hh' Hun. rewrite zdrop_min in Hh'. rewrite ztake_min. by apply HQ.
Qed.

Lemma wp_cutn_string n out m R held c s (Q : list Z * cord_buf -> mem -> Prop) :
  holds m R held c s -> 0 <= n ->
  (forall c' m', holds m' R held c' (zdrop n s) -> unchanged R m m' -> Q (out ++ ztake n s, c') m') ->
  wp (cutn_string n out c) m Q.
Proof.
  intros Hh Hn HQ. unfold cutn_string. destruct (Z.eqb_spec n 0) as [->|].
  { apply wp_ret. specialize (HQ c m). change (ztake 0 s) with (@nil Z) in HQ. rewrite app_nil_r in HQ.
    apply HQ; [done|apply unchanged_refl]. }
  rewrite (holds_length _ _ _ _ _ Hh). pose proof (zlen_nonneg s). apply wp_bind. eapply wp_cutn_mem; [done|lia|].
  intros c' m' Hh' Hun. apply wp_ret. rewrite zdrop_min in Hh'. rewrite ztake_min. by apply HQ.
Qed.

(** ** Reading *)

Definition readable (m : mem) (r : BlockRef) : Prop := ref_ok m r /\ zlen (slice m r) = r_length r.

Lemma holds_readable m R held c s : holds m R held c s -> Forall (readable m) (ref_list c).
Proof.
  intros Hh. destruct (holds_refs _ _ _ _ _ Hh) as [Hr _]. destruct Hh as (Hm & _).
  eapply Forall_impl; [exact Hr|]. intros r Hok. split; [done|by eapply zlen_slice].
Qed.

Definition in_first (off : Z) (rs : list BlockRef) : Prop :=
  0 <= off /\ match rs with [] => True | r :: _ => off < r_length r end.

Lemma skip_refs_spec m pos rs off rs' :
  Forall (readable m) rs -> 0 <= pos -> skip_refs pos rs = (off, rs') ->
  in_first off rs' /\ zdrop off (bytes m rs') = zdrop pos (bytes m rs) /\ Forall (readable m) rs'.
Proof.
  intros Hr. revert pos. induction Hr as [|r rs [Hr Hl] Hrs IH]; intros pos Hp; cbn [skip_refs].
  { assert (skip_refs pos [] = (pos, [])) as E by (cbn; case_if; zbool; by subst).
    cbn [skip_refs] in E. rewrite E. intros [= <- <-]. split_and!; [by split|done|done]. }
  assert (0 < r_length r) by (by destruct Hr as (b & _ & _ & ? & _)).
  assert (Forall (readable m) (r :: rs)) by (by apply Forall_cons_2).
  case_if; zbool; [subst pos|case_if; zbool].
  - intros [= <- <-]. by split_and!; [split| |].
  - intros [= <- <-]. by split_and!; [split; lia| |].
  - intros E. destruct (IH (pos - r_length r)) as (H1 & H2 & H3); [lia|done|].
    split_and!; [done| |done]. rewrite H2, bytes_cons, zdrop_app_ge by lia. by rewrite Hl.
Qed.

(** Reading [n] bytes from [off] in the first reference on. *)
Lemma wp_copy_refs n off rs m refs held (Q : list Z -> mem -> Prop) :
  mem_ok m refs held -> Forall (readable m) rs -> in_first off rs -> 0 <= n ->
  Q (ztake n (zdrop off (bytes m rs))) m -> wp (copy_refs n off rs) m Q.
Proof.
  intros Hm Hr. revert n off Q. induction Hr as [|r rs [Hr Hl] Hrs IH]; intros n off Q [Ho Hf] Hn HQ; cbn [copy_refs].
  { assert (ztake n (zdrop off (bytes m [])) = []) as E.
    { unfold bytes, zdrop, ztake. simpl. by rewrite drop_nil, take_nil. }
    rewrite E in HQ. case_if; by apply wp_ret. }
  destruct (Z.eqb_spec n 0) as [->|Hne]; [by apply wp_ret|].
  apply wp_bind. set (nc := Z.min n (r_length r - off)).
  eapply (wp_cp_from m refs held (advanced off r)); [done|apply advanced_ok; [done|lia]|simpl; lia|].
  assert (0 <= offset r) by (by destruct Hr as (b & _ & ? & _)).
  rewrite slice_advanced by lia. rewrite bytes_cons, zdrop_app_le in HQ by lia. apply wp_bind.
  assert (zlen (zdrop off (slice m r)) = r_length r - off) as Hz by (rewrite zlen_zdrop; lia).
  destruct (Z.min_spec n (r_length r - off)) as [[? E]|[? E]]; fold nc in E; rewrite E.
  - replace (n - n) with 0 by lia. assert (copy_refs 0 0 rs = mret []) as -> by (by destruct rs).
    apply wp_ret, wp_ret. rewrite app_nil_r. by rewrite ztake_app_le in HQ by lia.
  - apply IH; [|lia|].
    + split; [done|]. destruct rs as [|r1 rs]; [done|]. apply Forall_cons_1 in Hrs as [[(b1 & _ & _ & ? & _) _] _]. done.
    + apply wp_ret. rewrite ztake_all by lia. rewrite ztake_app_ge, Hz in HQ by lia. done.
Qed.

Lemma wp_copy_to n pos m R held c s (Q : list Z -> mem -> Prop) :
  holds m R held c s -> 0 <= n -> 0 <= pos -> Q (ztake n (zdrop pos s)) m -> wp (copy_to n pos c) m Q.
Proof.
  intros Hh Hn Hp HQ. unfold copy_to. destruct (skip_refs pos (ref_list c)) as [off rs] eqn:E.
  destruct (skip_refs_spec m _ _ _ _ (holds_readable _ _ _ _ _ Hh) Hp E) as (Hin & Eb & Hr).
  destruct Hh as (Hm & _ & <-). eapply wp_copy_refs; try done. by rewrite Eb.
Qed.

Lemma wp_to_string m R held c s (Q : list Z -> mem -> Prop) : holds m R held c s -> Q s m -> wp (to_string c) m Q.
Proof.
  intros Hh HQ. unfold to_string. rewrite (holds_length _ _ _ _ _ Hh). pose proof (zlen_nonneg s).
  destruct (Z.leb_spec (zlen s) 0).
  - apply wp_ret. destruct s as [|b s]; [done|]. rewrite zlen_cons in *. pose proof (zlen_nonneg s). lia.
  - eapply wp_copy_to; [done|lia|done|]. by rewrite zdrop_0, ztake_all by lia.
Qed.

Lemma wp_fetch1 m R held c s (Q : option Z -> mem -> Prop) : holds m R held c s -> Q (head s) m -> wp (fetch1 c) m Q.
Proof.
  intros Hh HQ. unfold fetch1. rewrite (holds_empty _ _ _ _ _ Hh). destruct s as [|b s]; [by apply wp_ret|].
  rewrite zlen_cons. pose proof (zlen_nonneg s). rewrite (proj2 (Z.eqb_neq _ _)) by lia.
  apply wp_bind. eapply wp_front_byte; [done|done|]. by apply wp_ret.
Qed.

Lemma wp_equal_refs rs s m refs held (Q : bool -> mem -> Prop) :
  mem_ok m refs held -> Forall (readable m) rs -> zlen (bytes m rs) = zlen s ->
  Q (bool_decide (bytes m rs = s)) m -> wp (equal_refs rs s) m Q.
Proof.
  intros Hm Hr. revert s Q. induction Hr as [|r rs [Hr Hl] Hrs IH]; intros s Q Hs HQ; cbn [equal_refs].
  { apply wp_ret. destruct s; [done|]. rewrite zlen_cons in Hs. unfold zlen in Hs. simpl in Hs. lia. }
  rewrite bytes_cons, zlen_app in Hs. pose proof (zlen_nonneg (bytes m rs)).
  assert (0 < r_length r) by (by destruct Hr as (b & _ & _ & ? & _)).
  apply wp_bind. eapply wp_cp_from; [done|done|lia|]. rewrite ztake_all by lia. rewrite bytes_cons in HQ.
  assert (zlen (ztake (r_length r) s) = r_length r) as Hz by (rewrite zlen_ztake; lia).
  destruct (decide (slice m r = ztake (r_length r) s)) as [E|E];
    [rewrite bool_decide_eq_true_2 by done|rewrite bool_decide_eq_false_2 by done].
  - apply IH; [rewrite zlen_zdrop; lia|]. replace (bool_decide (bytes m rs = zdrop (r_length r) s)) with
      (bool_decide (slice m r ++ bytes m rs = s)); [done|]. apply bool_decide_ext.
    rewrite <- (ztake_zdrop (r_length r) s) at 1. rewrite E. split; [intros Ea; by apply app_inv_head in Ea|by intros ->].
  - apply wp_ret. rewrite bool_decide_eq_false_2 in HQ; [done|]. intros <-. apply E. by rewrite ztake_app_exact.
Qed.

Lemma wp_equals t m R held c s (Q : bool -> mem -> Prop) :
  holds m R held c s -> Q (bool_decide (s = t)) m -> wp (equals t c) m Q.
Proof.
  intros Hh HQ. unfold equals. rewrite (holds_length _ _ _ _ _ Hh). destruct (Z.eqb_spec (zlen s) (zlen t)) as [E|E]; simpl.
  - pose proof (holds_readable _ _ _ _ _ Hh). destruct Hh as (Hm & _ & <-). by eapply wp_equal_refs.
  - apply wp_ret. rewrite bool_decide_eq_false_2 in HQ; [done|]. by intros ->.
Qed.
