(* ===== verification/CordFind.v ===== *)
(** * Searching a [cord_buf] for a delimiter

    [_cut_by_char] and the rolling signature of [_cut_by_delim]: for
    delimiters of up to 8 bytes, each between 1 and 127, the scan stops at the
    end of the first occurrence. *)

From stdpp Require Import list_tactics.
From S2P Require Import Prelude ByteSearch CordBlocks CordBuf CordQueue CordOps CordSpec.
Local Open Scope Z_scope.

(** ** The rolling signature *)

Definition delim_ok (d : list Z) : Prop := 1 <= zlen d <= 8 /\ Forall (fun b => 0 < b < 128) d.

Lemma lor_ascii sig b : 0 <= b < 128 -> Z.lor (u64 (Z.shiftl sig 8)) (sig_of_char b) = u64 (256 * sig + b).
Proof.
  intros Hb. unfold sig_of_char. rewrite (proj2 (Z.ltb_lt b 128)), (u64_small b) by lia.
  rewrite Z.shiftl_mul_pow2 by lia. change (2 ^ 8) with 256. unfold u64. change 18446744073709551616 with (256 * 2 ^ 56).
  rewrite (Z.mul_comm sig 256), Z.mul_mod_distr_l by lia.
  rewrite Z.lor_comm. assert (Z.land b (256 * (sig `mod` 2 ^ 56)) = 0) as Hd.
  { change 256 with (2 ^ 8). rewrite Z.mul_comm, <- Z.shiftl_mul_pow2 by lia. apply Z.bits_inj'. intros i Hi.
    rewrite Z.land_spec, Z.bits_0, Z.shiftl_spec by lia. destruct (Z.ltb_spec i 8) as [H8|H8].
    - rewrite (Z.testbit_neg_r _ (i - 8)) by lia. by rewrite andb_false_r.
    - rewrite Z.bits_above_log2; [done|lia|]. destruct (decide (b = 0)) as [->|]; [simpl; lia|].
      apply Z.log2_lt_pow2; [lia|]. apply Z.lt_le_trans with (2 ^ 8); [lia|]. apply Z.pow_le_mono_r; lia. }
  rewrite <- Z.lxor_lor by done. rewrite <- Z.add_nocarry_lxor by done.
  rewrite (Z.rem_mul_r (256 * sig + b) 256 (2 ^ 56)) by lia.
  replace (256 * sig + b) with (b + sig * 256) by lia. rewrite Z.mod_add, Z.div_add by lia.
  by rewrite (Z.mod_small b), (Z.div_small b) by lia.
Qed.

Section signature.
Context (n : Z) (Hn : 1 <= n <= 8).

Definition sig_mask : Z := if n =? 8 then 18446744073709551615 else Z.shiftl 1 (n * 8) - 1.
Definition sig_step (sig b : Z) : Z := Z.land (Z.lor (u64 (Z.shiftl sig 8)) (sig_of_char b)) sig_mask.

(** The signature after the bytes [rp], last one first. *)
Fixpoint sigr (rp : list Z) : Z :=
  match rp with
  | [] => 0
  | b :: rp => sig_step (sigr rp) b
  end.

Fixpoint valr (rd : list Z) : Z :=
  match rd with
  | [] => 0
  | b :: rd => 256 * valr rd + b
  end.

Lemma land_sig_mask z : Z.land z sig_mask = z `mod` 256 ^ n.
Proof using Hn.
  assert (sig_mask = Z.ones (8 * n)) as ->.
  { unfold sig_mask. rewrite Z.ones_equiv, Z.shiftl_mul_pow2, Z.mul_1_l by lia. destruct (Z.eqb_spec n 8) as [->|]; [done|].
    by rewrite Z.mul_comm, Z.sub_1_r. }
  rewrite Z.land_ones by lia. f_equal. change 256 with (2 ^ 8). by rewrite Z.pow_mul_r by lia.
Qed.

Lemma u64_mod_pow z k : 0 <= k <= 8 -> u64 z `mod` 256 ^ k = z `mod` 256 ^ k.
Proof.
  intros Hk. unfold u64. change 18446744073709551616 with (256 ^ 8).
  replace 8 with (k + (8 - k)) by lia. rewrite Z.pow_add_r by lia.
  rewrite Z.rem_mul_r by (try apply Z.pow_nonzero; try apply Z.pow_pos_nonneg; lia).
  rewrite Z.mul_comm, Z.mod_add by (apply Z.pow_nonzero; lia). by rewrite Z.mod_mod by (apply Z.pow_nonzero; lia).
Qed.

(** An ASCII byte is shifted in; the low byte is the byte itself in any case. *)
Lemma sig_step_ascii sig b : 0 <= b < 128 -> sig_step sig b = (256 * sig + b) `mod` 256 ^ n.
Proof using Hn. intros Hb. unfold sig_step. rewrite land_sig_mask, lor_ascii by done. apply u64_mod_pow. lia. Qed.

Lemma sig_step_low sig b : 128 <= b < 256 -> sig_step sig b `mod` 256 = b.
Proof using Hn.
  intros Hb. unfold sig_step. rewrite land_sig_mask.
  replace n with (1 + (n - 1)) by lia. rewrite Z.pow_add_r by lia. change (256 ^ 1) with 256.
  rewrite Z.rem_mul_r by (try apply Z.pow_pos_nonneg; lia). rewrite Z.mul_comm, Z.mod_add, Z.mod_mod by lia.
  change 256 with (2 ^ 8) at 1. rewrite <- Z.land_ones, Z.land_lor_distr_l, !Z.land_ones by lia. change (2 ^ 8) with 256.
  rewrite (u64_mod_pow _ 1), Z.shiftl_mul_pow2 by lia. change (256 ^ 1) with (2 ^ 8). rewrite Z.mod_mul, Z.lor_0_l by lia.
  unfold sig_of_char. rewrite (proj2 (Z.ltb_ge b 128)) by lia.
  replace (u64 (b - 256) `mod` 256) with ((b - 256) `mod` 256) by (symmetry; apply (u64_mod_pow _ 1); lia). replace (b - 256) with (b + (-1) * 256) by lia.
  rewrite Z.mod_add by lia. apply Z.mod_small. lia.
Qed.
Lemma sigr_range rp : 0 <= sigr rp < 256 ^ n.
Proof using Hn.
  assert (0 < 256 ^ n) by (apply Z.pow_pos_nonneg; lia).
  destruct rp as [|b rp]; [simpl; lia|]. cbn [sigr]. unfold sig_step. rewrite land_sig_mask. by apply Z.mod_pos_bound.
Qed.

Lemma valr_pos b rd : Forall (fun b => 0 < b < 128) (b :: rd) -> 0 < valr (b :: rd).
Proof.
  revert b. induction rd as [|b' rd IH]; intros b H; apply Forall_cons_1 in H as [Hb H]; [simpl; lia|].
  specialize (IH b' H). cbn [valr] in *. lia.
Qed.

Lemma sigr_spec rp rd :
  bytes_ok rp -> Forall (fun b => 0 < b < 128) rd -> zlen rd <= n ->
  sigr rp `mod` 256 ^ zlen rd = valr rd <-> rd `prefix_of` rp.
Proof using Hn.
  intros Hp Hd. revert rp Hp. induction Hd as [|e rd He Hd IH]; intros rp Hp Hl.
  { change (zlen []) with 0. rewrite Z.mod_1_r. split; [intros _; by exists rp|done]. }
  assert (0 < 256 ^ zlen rd) by (apply Z.pow_pos_nonneg; [lia|apply zlen_nonneg]).
  rewrite zlen_cons in *. pose proof (zlen_nonneg rd). destruct rp as [|b rp].
  { cbn [sigr]. rewrite Z.mod_0_l by (apply Z.pow_nonzero; lia).
    assert (0 < valr (e :: rd)) by (apply valr_pos; by apply Forall_cons_2).
    split; [lia|]. intros [t Ht]. done. }
  apply Forall_cons_1 in Hp as [Hb Hp]. unfold byte_ok in Hb. cbn [sigr valr]. specialize (IH rp Hp ltac:(lia)).
  assert (256 ^ (zlen rd + 1) = 256 * 256 ^ zlen rd) as Epow by (rewrite Z.pow_add_r; lia).
  destruct (Z.ltb_spec b 128).
  - rewrite sig_step_ascii by lia.
    assert (((256 * sigr rp + b) `mod` 256 ^ n) `mod` 256 ^ (zlen rd + 1) = 256 * (sigr rp `mod` 256 ^ zlen rd) + b) as ->.
    { rewrite Z.mod_mod_divide.
      - rewrite Epow, Z.rem_mul_r by lia. replace (256 * sigr rp + b) with (b + sigr rp * 256) by lia.
        rewrite Z.mod_add, Z.div_add by lia. rewrite (Z.mod_small b), (Z.div_small b) by lia. rewrite Z.add_0_l. lia.
      - exists (256 ^ (n - (zlen rd + 1))). rewrite <- Z.pow_add_r by lia. f_equal. lia. }
    split.
    + intros E. assert (b = e) as -> by lia. assert (rd `prefix_of` rp) as [t ->] by (apply IH; lia). by exists t.
    + intros [t [= -> ->]]. assert (rd `prefix_of` rd ++ t) as Hpre by (by exists t). apply IH in Hpre. by rewrite Hpre.
  - split; [|intros [t [= -> _]]; lia]. intros E. exfalso. assert (sig_step (sigr rp) b `mod` 256 = e); [|rewrite sig_step_low in *; lia].
    assert ((256 * valr rd + e) `mod` 256 = e) as <-.
    { replace (256 * valr rd + e) with (e + valr rd * 256) by lia. rewrite Z.mod_add by lia. apply Z.mod_small. lia. }
    rewrite <- E, Epow. rewrite Z.rem_mul_r by lia. rewrite (Z.mul_comm 256), Z.mod_add by lia. by rewrite Z.mod_mod by lia.
Qed.

(** The signature equals the delimiter's when the bytes read end with it. *)
Lemma sigr_delim p d :
  bytes_ok p -> Forall (fun b => 0 < b < 128) d -> zlen d = n ->
  sigr (reverse p) = valr (reverse d) <-> d `suffix_of` p.
Proof using Hn.
  intros Hp Hd Hl. pose proof (sigr_spec (reverse p) (reverse d)) as H.
  assert (zlen (reverse d) = n) as Hr by (unfold zlen; rewrite length_reverse; done).
  rewrite Hr, Z.mod_small in H by apply sigr_range.
  rewrite H; [|by apply Forall_reverse|by apply Forall_reverse|lia].
  split; intros [t Ht].
  - exists (reverse t). rewrite <- (reverse_involutive p), Ht. by rewrite reverse_app, reverse_involutive.
  - exists (reverse t). by rewrite Ht, reverse_app.
Qed.
End signature.

Lemma valr_bound rd : Forall (fun b => 0 < b < 128) rd -> 0 <= valr rd < 256 ^ zlen rd.
Proof.
  induction 1 as [|b rd Hb _ IH]; [change (zlen []) with 0; simpl; lia|]. rewrite zlen_cons, Z.pow_add_r by (pose proof (zlen_nonneg rd); lia).
  cbn [valr]. lia.
Qed.

Lemma delim_sig_valr d : zlen d <= 8 -> Forall (fun b => 0 < b < 128) d -> delim_sig d = valr (reverse d).
Proof.
  unfold delim_sig. induction d as [|b d IH] using rev_ind; intros Hl Hd; [done|].
  rewrite foldl_app, reverse_snoc. cbn [foldl valr]. rewrite zlen_app in Hl. change (zlen [b]) with 1 in Hl.
  apply Forall_app in Hd as [Hd Hb]. apply Forall_cons_1 in Hb as [Hb _]. rewrite IH by (done || lia).
  pose proof (valr_bound (reverse d) ltac:(by apply Forall_reverse)) as Hv. unfold zlen in Hv, Hl.
  rewrite length_reverse in Hv. assert (256 ^ Z.of_nat (Datatypes.length d) <= 256 ^ 7) by (apply Z.pow_le_mono_r; lia).
  rewrite lor_ascii by lia. apply u64_small. lia.
Qed.

(** ** The scan *)

Lemma scan_delim_app dsig mask s1 s2 sig n :
  scan_delim dsig mask (s1 ++ s2) sig n =
  match scan_delim dsig mask s1 sig n with
  | (sig', Some k) => (sig', Some k)
  | (sig', None) => scan_delim dsig mask s2 sig' (n + zlen s1)
  end.
Proof.
  revert sig n. induction s1 as [|b s1 IH]; intros sig n; cbn [scan_delim app].
  - by rewrite (@zlen_nil Z), Z.add_0_r.
  - case_if; [done|]. rewrite IH, zlen_cons. by replace (n + 1 + zlen s1) with (n + (zlen s1 + 1)) by lia.
Qed.

Lemma wp_find_delim dsig mask rs sig n m refs held (Q : option Z -> mem -> Prop) :
  mem_ok m refs held -> Forall (readable m) rs ->
  Q (snd (scan_delim dsig mask (bytes m rs) sig n)) m -> wp (find_delim dsig mask rs sig n) m Q.
Proof.
  intros Hm Hr. revert sig n Q. induction Hr as [|r rs [Hr Hl] Hrs IH]; intros sig n Q HQ; cbn [find_delim]; [by apply wp_ret|].
  assert (0 < r_length r) by (by destruct Hr as (b & _ & _ & ? & _)).
  apply wp_bind. eapply wp_cp_from; [done|done|lia|]. rewrite ztake_all by lia.
  rewrite bytes_cons, scan_delim_app in HQ. destruct (scan_delim dsig mask (slice m r) sig n) as [sig' [k|]]; [by apply wp_ret|].
  apply IH. by rewrite Hl in HQ.
Qed.

Lemma wp_find_char d rs n m refs held (Q : option Z -> mem -> Prop) :
  mem_ok m refs held -> Forall (readable m) rs ->
  Q ((fun j => n + j) <$> find_index (fun b => b =? d) (bytes m rs)) m -> wp (find_char d rs n) m Q.
Proof.
  intros Hm Hr. revert n Q. induction Hr as [|r rs [Hr Hl] Hrs IH]; intros n Q HQ; cbn [find_char]; [by apply wp_ret|].
  assert (0 < r_length r) by (by destruct Hr as (b & _ & _ & ? & _)).
  apply wp_bind. eapply wp_cp_from; [done|done|lia|]. rewrite ztake_all by lia.
  rewrite bytes_cons, find_index_app in HQ. destruct (find_index _ (slice m r)); [by apply wp_ret|].
  apply IH. rewrite Hl in HQ. destruct (find_index _ (bytes m rs)); [|done]. simpl in *.
  by replace (n + r_length r + z) with (n + (z + r_length r)) by lia.
Qed.

(** The scan finds the end of the first occurrence. *)
Lemma scan_delim_first d s p :
  delim_ok d -> bytes_ok (p ++ s) -> (forall q, q `prefix_of` p -> ~ d `suffix_of` q) ->
  match snd (scan_delim (valr (reverse d)) (sig_mask (zlen d)) s (sigr (zlen d) (reverse p)) (zlen p)) with
  | Some k => exists i, k = i + zlen d - 1 /\ 0 <= i /\ occurs d (p ++ s) i /\ forall j, 0 <= j < i -> ~ occurs d (p ++ s) j
  | None => forall i, ~ occurs d (p ++ s) i
  end.
Proof.
  intros [Hl Hd]. revert p. induction s as [|b s IH]; intros p Hb Hno; cbn [scan_delim].
  { rewrite app_nil_r in *. intros i (s1 & s2 & E & _). apply (Hno (s1 ++ d)); [exists s2; by rewrite <- app_assoc|by exists s1]. }
  assert (sig_step (zlen d) (sigr (zlen d) (reverse p)) b = sigr (zlen d) (reverse (p ++ [b]))) as Es by (by rewrite reverse_snoc).
  unfold sig_step in Es. rewrite Es. replace (p ++ b :: s) with ((p ++ [b]) ++ s) in * by (by rewrite <- app_assoc).
  pose proof (sigr_delim (zlen d) Hl (p ++ [b]) d ltac:(by apply bytes_ok_app in Hb as [? _]) Hd eq_refl) as Hsig.
  destruct (Z.eqb_spec (sigr (zlen d) (reverse (p ++ [b]))) (valr (reverse d))) as [E|E].
  - apply Hsig in E as [s1 E]. exists (zlen s1). pose proof (f_equal zlen E) as El. rewrite !zlen_app in El.
    change (zlen [b]) with 1 in El. split_and!; [simpl; lia|apply zlen_nonneg|exists s1, s; by rewrite E, <- app_assoc|].
    intros j Hj (u1 & u2 & Eu & Hu). apply (Hno (u1 ++ d)); [|by exists u1].
    assert (u1 ++ d = ztake (j + zlen d) ((p ++ [b]) ++ s)) as ->.
    { rewrite Eu, app_assoc. symmetry. apply ztake_app_exact. rewrite zlen_app. lia. }
    rewrite <- app_assoc, ztake_app_le by lia. exists (zdrop (j + zlen d) p). by rewrite ztake_zdrop.
  - specialize (IH (p ++ [b]) Hb). rewrite zlen_app in IH. change (zlen [b]) with 1 in IH. apply IH.
    intros q [t Hq] Hs. destruct t as [|x t _] using rev_ind.
    + rewrite app_nil_r in Hq. subst q. apply E, Hsig. done.
    + rewrite app_assoc in Hq. apply app_inj_tail in Hq as [-> _]. apply (Hno q); [by exists t|done].
Qed.

(** ** Cutting at a delimiter *)

(** One byte of any value, or 2 to 8 bytes between 1 and 127. *)
Definition delim_supported (d : list Z) : Prop := zlen d = 1 \/ delim_ok d.

Lemma fits_take t s i : fits (t ++ s) -> fits (t ++ ztake i s).
Proof.
  unfold fits. rewrite !zlen_app. intros H. enough (zlen (ztake i s) <= zlen s) by lia.
  unfold zlen, ztake. rewrite length_take. lia.
Qed.

(** [cutn] up to the delimiter, [pop_front] of the delimiter. *)
Lemma wp_cut_at i n m R held c s out t (Q : Z * cord_buf * cord_buf -> mem -> Prop) :
  holds2 m R held c s out t -> fits (t ++ s) -> 0 <= i -> 0 <= n ->
  (forall c' out' m', holds2 m' R held c' (zdrop (i + n) s) out' (t ++ ztake i s) -> unchanged R m m' ->
     Q (0, c', out') m') ->
  wp ('(_, c, out) ← cutn i c out; '(_, c) ← pop_front n c; mret (0, c, out)) m Q.
Proof.
  intros Hh Hf Hi Hn HQ. apply wp_bind. eapply wp_cutn; [exact Hh|done|by apply fits_take|].
  intros c1 out1 m1 Hh1 Hun1. apply wp_bind. pose proof Hh1 as (Hc1 & Hw1 & Et1).
  eapply wp_pop_front; [exact Hc1|done|]. intros c2 m2 Hc2 Hun2. apply wp_ret.
  apply unchanged_app in Hun2 as [Huno Hun2]. apply HQ; [|by eapply unchanged_trans].
  rewrite zdrop_zdrop in Hc2 by done. split_and!; [done|done|]. by rewrite (unchanged_bytes _ m1 m2).
Qed.

Lemma wp_cut_by_delim d m R held c s out t (Q : Z * cord_buf * cord_buf -> mem -> Prop) :
  holds2 m R held c s out t -> delim_ok d -> bytes_ok s -> fits (t ++ s) -> 
  match find_sub d s with
  | Some i => forall c' out' m', holds2 m' R held c' (zdrop (i + zlen d) s) out' (t ++ ztake i s) ->
                unchanged R m m' -> Q (0, c', out') m'
  | None => Q (-1, c, out) m
  end -> wp (_cut_by_delim d c out) m Q.
Proof.
  intros Hh Hd Hb Hf HQ. pose proof Hh as (Hc & _). unfold _cut_by_delim. rewrite (holds_length _ _ _ _ _ Hc).
  pose proof Hd as [Hl Hd']. rewrite (proj2 (Z.ltb_ge 8 (zlen d))) by lia. cbn [orb].
  destruct (Z.ltb_spec (zlen s) (zlen d)).
  { apply wp_ret. rewrite find_sub_none in HQ; [done|]. intros i (s1 & s2 & E & _). rewrite E, !zlen_app in *.
    pose proof (zlen_nonneg s1). pose proof (zlen_nonneg s2). lia. }
  apply wp_bind. pose proof (holds_readable _ _ _ _ _ Hc) as Hr. eapply wp_find_delim; [apply Hc|exact Hr|].
  change (if zlen d =? 8 then _ else _) with (sig_mask (zlen d)). rewrite delim_sig_valr by (lia || done).
  pose proof (scan_delim_first d s [] Hd Hb) as Hscan. destruct Hc as (Hm & Hw & <-).
  destruct (snd _) as [k|].
  - destruct Hscan as (i & -> & Hi & Ho & Hmin).
    { intros q [t' Hq] [u Hu]. destruct q; [|done]. destruct d; [change (zlen []) with 0 in Hl; lia|by destruct u]. }
    simpl in Ho, Hmin. rewrite (find_sub_first d _ i) in HQ by done.
    assert (i + zlen d <= zlen (bytes m (ref_list c))) as Hle.
    { destruct Ho as (s1 & s2 & E & <-). rewrite E, !zlen_app. pose proof (zlen_nonneg s2). lia. }
    replace (i + zlen d - 1 + 1 - zlen d) with i by lia. unfold fits in Hf. rewrite zlen_app in Hf.
    pose proof (zlen_nonneg t). rewrite u64_small by lia.
    eapply wp_cut_at; [exact Hh|unfold fits; by rewrite zlen_app|done|lia|]. exact HQ.
  - apply wp_ret. rewrite find_sub_none in HQ; [done|]. simpl in Hscan. apply Hscan.
    intros q [t' Hq] [u Hu]. destruct q; [|done]. destruct d; [change (zlen []) with 0 in Hl; lia|by destruct u].
Qed.

Lemma wp_cut_by_char d m R held c s out t (Q : Z * cord_buf * cord_buf -> mem -> Prop) :
  holds2 m R held c s out t -> fits (t ++ s) -> 
  match find_sub [d] s with
  | Some i => forall c' out' m', holds2 m' R held c' (zdrop (i + 1) s) out' (t ++ ztake i s) ->
                unchanged R m m' -> Q (0, c', out') m'
  | None => Q (-1, c, out) m
  end -> wp (_cut_by_char d c out) m Q.
Proof.
  intros Hh Hf HQ. pose proof Hh as (Hc & _). unfold _cut_by_char. apply wp_bind.
  eapply wp_find_char; [apply Hc|by eapply holds_readable|]. rewrite find_sub_char in HQ. destruct Hc as (_ & _ & <-).
  destruct (find_index _ _) as [i|] eqn:E; simpl; [|by apply wp_ret].
  apply find_index_range in E. replace (0 + i) with i by lia.
  eapply wp_cut_at; [exact Hh|done|lia|done|]. exact HQ.
Qed.

Lemma wp_cut_until d m R held c s out t (Q : Z * cord_buf * cord_buf -> mem -> Prop) :
  holds2 m R held c s out t -> delim_supported d -> bytes_ok s -> fits (t ++ s) -> 
  match find_sub d s with
  | Some i => forall c' out' m', holds2 m' R held c' (zdrop (i + zlen d) s) out' (t ++ ztake i s) ->
                unchanged R m m' -> Q (0, c', out') m'
  | None => Q (-1, c, out) m
  end -> wp (cut_until d c out) m Q.
Proof.
  intros Hh Hd Hb Hf HQ. destruct d as [|b [|b' d]].
  - destruct Hd as [Hd|[Hd _]]; change (zlen []) with 0 in Hd; lia.
  - by eapply wp_cut_by_char.
  - cbn [cut_until]. destruct Hd as [Hd|Hd]; [rewrite !zlen_cons in Hd; pose proof (zlen_nonneg d); lia|].
    by eapply wp_cut_by_delim.
Qed.
