(* ===== verification/CordAppend.v ===== *)
(** * Appending to a [cord_buf]

    Appending bytes writes behind the used part of the thread's shared block,
    where no reference can see, and appending another buffer shares its
    blocks. *)

From stdpp Require Import list_tactics.
From S2P Require Import Prelude CordBlocks CordBuf CordQueue CordOps CordSpec.
Local Open Scope Z_scope.

(** ** Sharing the blocks of another buffer *)

Lemma fits_app_l s t : fits (s ++ t) -> fits s.
Proof. unfold fits. rewrite zlen_app. pose proof (zlen_nonneg t). lia. Qed.

Lemma wp_push_refs rs m R held c s (Q : cord_buf -> mem -> Prop) :
  holds m R held c s -> Forall (ref_ok m) rs -> fits (s ++ bytes m rs) ->
  (forall c' m', holds m' R held c' (s ++ bytes m rs) -> same_view m m' -> Q c' m') -> wp (push_refs rs c) m Q.
Proof.
  revert m c s Q. induction rs as [|r rs IH]; intros m c s Q Hh Hr Hf HQ; cbn [push_refs].
  { apply wp_ret. specialize (HQ c m). rewrite app_nil_r in HQ. apply HQ; [done|apply same_view_refl]. }
  apply Forall_cons_1 in Hr as [Hr Hrs]. rewrite bytes_cons, app_assoc in Hf, HQ. apply wp_bind.
  eapply wp_push_back; [done|done|by eapply fits_app_l|]. intros c1 m1 Hh1 Hsv.
  assert (bytes m1 rs = bytes m rs) as Eb by (by apply unchanged_bytes, same_view_unchanged).
  apply (IH m1 c1 (s ++ slice m r)); [done| |by rewrite Eb|].
  - eapply Forall_impl; [exact Hrs|]. intros r' Hr'. by apply Hsv.
  - rewrite Eb. intros c2 m2 Hh2 Hsv2. apply HQ; [done|by eapply same_view_trans].
Qed.

(** [append(other)]: [other] keeps its string. *)
Lemma wp_append_cord_buf m R held c s other t (Q : cord_buf -> mem -> Prop) :
  holds2 m R held c s other t -> fits (s ++ t) ->
  (forall c' m', holds2 m' R held c' (s ++ t) other t -> unchanged R m m' -> Q c' m') ->
  wp (append_cord_buf other c) m Q.
Proof.
  intros Hh Hf HQ. pose proof Hh as (Hc & Hw & Et). destruct (holds_refs _ _ _ _ _ Hc) as [_ Hr].
  pose proof Hr as Hr2. apply Forall_app in Hr2 as [Hro HrR].
  eapply wp_push_refs; [exact Hc|done|by rewrite Et|]. rewrite Et. intros c' m' Hc' Hsv.
  pose proof (same_view_unchanged _ _ _ Hsv Hr) as Hun. apply unchanged_app in Hun as [Huno HunR].
  apply HQ; [|done]. split_and!; [done|done|]. by rewrite (unchanged_bytes _ m m').
Qed.

Lemma wp_move_refs rs m R held c s (Q : cord_buf -> mem -> Prop) :
  holds m (rs ++ R) held c s -> fits (s ++ bytes m rs) ->
  (forall c' m', holds m' R held c' (s ++ bytes m rs) -> unchanged R m m' -> Q c' m') -> wp (move_refs rs c) m Q.
Proof.
  revert m c s Q. induction rs as [|r rs IH]; intros m c s Q Hh Hf HQ; cbn [move_refs].
  { apply wp_ret. specialize (HQ c m). rewrite app_nil_r in HQ. apply HQ; [done|apply unchanged_refl]. }
  rewrite bytes_cons, app_assoc in Hf, HQ. apply wp_bind.
  eapply wp_move_back; [exact Hh|by eapply fits_app_l|]. intros c1 m1 Hh1 Hun1.
  apply unchanged_app in Hun1 as [Hunrs HunR]. assert (bytes m1 rs = bytes m rs) as Eb by (by apply unchanged_bytes).
  apply (IH m1 c1 (s ++ slice m r)); [done|by rewrite Eb|].
  rewrite Eb. intros c2 m2 Hh2 Hun2. apply HQ; [done|by eapply unchanged_trans].
Qed.

(** [append(other.movable())] takes the string of [other]. *)
Lemma wp_append_movable m R held c s other t (Q : cord_buf * cord_buf -> mem -> Prop) :
  holds2 m R held c s other t -> fits (s ++ t) ->
  (forall c' other' m', holds2 m' R held c' (s ++ t) other' [] -> unchanged R m m' -> Q (c', other') m') ->
  wp (append_movable other c) m Q.
Proof.
  intros Hh Hf HQ. pose proof Hh as (Hc & Hw & Et). unfold append_movable. rewrite (holds_empty _ _ _ _ _ Hc).
  destruct (Z.eqb_spec (zlen s) 0) as [E|E].
  - destruct s as [|b s]; [|rewrite zlen_cons in E; pose proof (zlen_nonneg s); lia].
    apply wp_ret. apply HQ; [by apply holds2_sym|apply unchanged_refl].
  - apply wp_bind. eapply wp_move_refs; [exact Hc|by rewrite Et|]. rewrite Et. intros c' m' Hc' Hun.
    apply wp_ret. apply HQ; [|done]. split_and!; [done|apply small_wf_nil|done].
Qed.

(** Part of another buffer. *)
Lemma wp_append_refs n off rs m R held c s (Q : Z * cord_buf -> mem -> Prop) :
  holds m R held c s -> Forall (readable m) rs -> in_first off rs -> 0 <= n ->
  fits (s ++ ztake n (zdrop off (bytes m rs))) ->
  (forall c' m', holds m' R held c' (s ++ ztake n (zdrop off (bytes m rs))) -> same_view m m' ->
     Q (n - zlen (ztake n (zdrop off (bytes m rs))), c') m') ->
  wp (append_refs n off rs c) m Q.
Proof.
  revert n off m c s Q. induction rs as [|r rs IH]; intros n off m c s Q Hh Hr [Ho Hin] Hn Hf HQ; cbn [append_refs].
  { assert (ztake n (zdrop off (bytes m [])) = []) as E.
    { unfold bytes, zdrop, ztake. simpl. by rewrite drop_nil, take_nil. }
    rewrite E, app_nil_r in HQ. change (zlen []) with 0 in HQ. rewrite Z.sub_0_r in HQ.
    case_if; apply wp_ret; (apply HQ; [done|apply same_view_refl]). }
  destruct (Z.eqb_spec n 0) as [->|Hne].
  { apply wp_ret. change (ztake 0 _) with (@nil Z) in HQ. rewrite app_nil_r in HQ.
    apply HQ; [done|apply same_view_refl]. }
  apply Forall_cons_1 in Hr as [[Hr Hl] Hrs]. pose proof Hh as (Hm & _).
  destruct (mem_ok_block _ _ _ _ Hm Hr) as (b & _ & ? & ? & _ & _ & ? & _).
  rewrite bytes_cons, zdrop_app_le in HQ, Hf by lia. set (nc := Z.min n (r_length r - off)).
  rewrite !u32_small by lia. set (r' := mk_ref (offset r + off) nc (block r)).
  assert (zlen (zdrop off (slice m r)) = r_length r - off) as Hz by (rewrite zlen_zdrop; lia).
  assert (slice m r' = ztake nc (zdrop off (slice m r))) as Es.
  { unfold r'. rewrite (slice_take m (advanced off r)) by (simpl; lia). by rewrite slice_advanced by lia. }
  assert (ref_ok m r') as Hr' by (apply (take_ok m (advanced off r)); [apply advanced_ok; [done|lia]|simpl; lia]).
  apply wp_bind. destruct (Z.min_spec n (r_length r - off)) as [[? E]|[? E]]; fold nc in E; rewrite E in Es.
  - rewrite ztake_app_le in HQ, Hf by lia. eapply wp_push_back; [done|exact Hr'|by rewrite Es|].
    rewrite Es. intros c' m' Hh' Hsv. rewrite E, Z.sub_diag.
    assert (append_refs 0 0 rs c' = mret (0, c')) as -> by (by destruct rs). apply wp_ret.
    replace 0 with (n - zlen (ztake n (zdrop off (slice m r)))) by (rewrite zlen_ztake; lia). by apply HQ.
  - rewrite ztake_all in Es by lia. rewrite ztake_app_ge, Hz in HQ, Hf by lia. rewrite app_assoc in HQ, Hf.
    eapply wp_push_back; [done|exact Hr'|rewrite Es; by eapply fits_app_l|].
    rewrite Es. intros c1 m1 Hh1 Hsv1. rewrite E.
    assert (bytes m1 rs = bytes m rs) as Eb.
    { apply unchanged_bytes, same_view_unchanged; [done|]. eapply Forall_impl; [exact Hrs|]. by intros ? []. }
    eapply IH; [exact Hh1| | |lia|by rewrite Eb|].
    + eapply Forall_impl; [exact Hrs|]. intros x [Hx1 Hx2]. destruct (Hsv1 x Hx1) as [? Ex]. split; [done|by rewrite Ex].
    + split; [done|]. destruct rs as [|r1 rs]; [done|]. by apply Forall_cons_1 in Hrs as [[(b1 & _ & _ & ? & _) _] _].
    + rewrite Eb, zdrop_0. intros c2 m2 Hh2 Hsv2. rewrite zlen_app, Hz in HQ.
      replace (n - (r_length r - off) - zlen (ztake (n - (r_length r - off)) (bytes m rs))) with
        (n - (r_length r - off + zlen (ztake (n - (r_length r - off)) (bytes m rs)))) by lia.
      apply HQ; [done|by eapply same_view_trans].
Qed.

(** [append_to(buf, n, pos)] of [c]: [buf] gets bytes [pos, pos + n) of [c]. *)
Lemma wp_append_to n pos m R held c s buf t (Q : Z * cord_buf -> mem -> Prop) :
  holds2 m R held c s buf t -> 0 <= n -> 0 <= pos -> fits (t ++ ztake n (zdrop pos s)) ->
  (forall buf' m', holds2 m' R held c s buf' (t ++ ztake n (zdrop pos s)) -> unchanged R m m' ->
     Q (zlen (ztake n (zdrop pos s)), buf') m') ->
  wp (append_to n pos c buf) m Q.
Proof.
  intros Hh Hn Hp Hf HQ. pose proof Hh as (Hc & _). pose proof (holds2_right _ _ _ _ _ _ _ Hh) as Hb.
  destruct (holds_refs _ _ _ _ _ Hb) as [_ Hr]. unfold append_to.
  destruct (skip_refs pos (ref_list c)) as [off rs] eqn:E.
  destruct (skip_refs_spec m _ _ _ _ (holds_readable _ _ _ _ _ Hc) Hp E) as (Hin & Eb & Hrs).
  pose proof Hc as (_ & Hwc & Es). rewrite <- Es, <- Eb in Hf, HQ. apply wp_bind.
  eapply wp_append_refs; [exact Hb|done|done|done|done|]. intros buf' m' Hb' Hsv. apply wp_ret.
  pose proof (same_view_unchanged _ _ _ Hsv Hr) as Hun. apply unchanged_app in Hun as [Hunc HunR].
  replace (n - (n - zlen (ztake n (zdrop off (bytes m rs))))) with (zlen (ztake n (zdrop off (bytes m rs)))) by lia.
  apply HQ; [|done]. apply holds2_sym. split_and!; [done|done|]. rewrite (unchanged_bytes _ m m') by done. done.
Qed.

(** ** Appending bytes *)

Lemma wp_share_tls_block m refs held (Q : Z -> mem -> Prop) :
  mem_ok m refs held ->
  (forall m', mem_ok m' refs held -> unchanged refs m m' -> avail m' = O -> Q 0 m') ->
  (forall b blk m', mem_ok m' refs held -> unchanged refs m m' -> 0 < b -> blocks m' !! b = Some blk ->
     b_size blk < cap blk -> Q b m') ->
  wp share_tls_block m Q.
Proof.
  intros Hm HQ0 HQ. destruct (share_tls_block_spec m refs held Hm) as (m' & b & E & Hm' & Hk & Hcase).
  pose proof (keeps_blocks_unchanged _ _ _ _ Hk (mem_ok_refs _ _ _ Hm)) as Hun. exists b, m'. split; [done|].
  destruct Hcase as [[-> ?]|(? & blk & ? & ?)]; [by apply HQ0|by eapply HQ].
Qed.

(** One round of the loop: the bytes [ch] go behind the used part of block
    [b] and the reference to them is pushed before the block's size is
    updated. *)
Lemma wp_append_chunk b blk ch n m R held c s K (Q : Z * cord_buf -> mem -> Prop) :
  zlen ch = n -> holds m R held c s -> blocks m !! b = Some blk -> 0 < zlen ch <= left_space blk -> fits (s ++ ch) ->
  (forall c' m', holds m' R held c' (s ++ ch) -> unchanged R m m' -> wp (K c') m' Q) ->
  wp (_ ← cp_into b (b_size blk) ch;
      c ← _push_back_ref (mk_ref (b_size blk) n b) c;
      blk ← get_block b;
      _ ← set_block b (set_size (u32 (b_size blk + n)) blk);
      K c) m Q.
Proof.
  intros <- Hh Hb Hch Hf HQ. pose proof Hh as (Hm & Hw & Es).
  destruct (extend_mem_spec m _ held b blk ch Hm Hb Hch) as (Hme & Hun & Hr & Hs & ? & ?).
  set (r := mk_ref (b_size blk) (zlen ch) b) in *. apply unchanged_app in Hun as [Hunc HunR].
  assert (holds (extend_mem b ch blk m) R held c s) as Hhe.
  { split_and!; [done|done|]. by rewrite (unchanged_bytes _ m). }
  assert (exists c' m', _push_back_ref r c (extend_mem b ch blk m) = Ok (c', m') /\ holds m' R held c' (s ++ ch) /\
            same_view (extend_mem b ch blk m) m') as (c' & m' & Ep & Hh' & Hsv).
  { eapply wp_push_back; [exact Hhe|done|by rewrite Hs|]. rewrite Hs. eauto. }
  assert (unchanged R m m') as Hun'.
  { eapply unchanged_trans; [exact HunR|]. apply same_view_unchanged; [done|]. by apply (holds_refs _ _ _ _ _ Hhe). }
  specialize (HQ c' m' Hh' Hun').
  destruct (push_common false (extend_mem b ch blk m) R held c s r (proj1 Hhe) Hw (proj2 (proj2 Hhe)) Hr ltac:(by rewrite Hs))
    as ((c'' & _ & Hpush) & _).
  fold _push_back_ref in Hpush. rewrite Hpush in Ep.
  assert (u32 (b_size blk + zlen ch) = b_size blk + zlen ch) as Eu by (apply u32_small; lia).
  apply (wp_eq _ (K c') m m'); [|exact HQ]. unfold mbind at 1, M_bind at 1. unfold cp_into, mbind at 1, M_bind at 1, get_block at 1.
  rewrite Hb. unfold left_space in Hch. rewrite !(proj2 (Z.leb_le _ _)) by lia. cbn [andb]. unfold set_block at 1.
  unfold mbind at 1, M_bind at 1. rewrite Hpush. unfold push_effect in *.
  destruct (merges (ref_list c) r).
  - cbn [merged] in *. unfold mbind, M_bind, mret, M_ret in Ep |- *. injection Ep as -> <-.
    unfold get_block, set_block. cbn [blocks]. rewrite lookup_insert, decide_True by done.
    cbn [set_data b_size]. rewrite Eu. cbn [blocks next_block avail block_head num_blocks].
    rewrite insert_insert, decide_True by done. reflexivity.
  - cbn [stored] in *. unfold inc_ref, mbind, M_bind, mret, M_ret, get_block, set_block in Ep |- *.
    unfold extend_mem, with_blocks in Ep. cbn [blocks next_block avail block_head num_blocks block r] in *.
    rewrite lookup_insert, decide_True in Ep by done. rewrite lookup_insert, decide_True by done.
    injection Ep as -> <-. cbn [blocks next_block avail block_head num_blocks].
    rewrite insert_insert, decide_True by done. rewrite lookup_insert, decide_True by done.
    cbn [set_data set_nshared b_size nshared]. rewrite Eu. cbn [blocks next_block avail block_head num_blocks].
    do 2 rewrite insert_insert, decide_True by done. reflexivity.
Qed.

(** The result of an append: everything, or a proper prefix once the
    allocator has failed. *)
Definition append_post (R : list BlockRef) (held : list Z) (m : mem) (s d : list Z) (ret : Z) (c' : cord_buf) (m' : mem) : Prop :=
  unchanged R m m' /\
  (ret = 0 /\ holds m' R held c' (s ++ d) \/
   ret = -1 /\ avail m' = O /\ exists p, p `prefix_of` d /\ p <> d /\ holds m' R held c' (s ++ p)).

Lemma wp_append_loop fuel d m R held c s :
  holds m R held c s -> (Datatypes.length d <= fuel)%nat -> fits (s ++ d) ->
  wp (append_loop fuel d c) m (fun rc m' => append_post R held m s d (fst rc) (snd rc) m').
Proof.
  revert d m c s. induction fuel as [|fuel IH]; intros d m c s Hh Hfuel Hf; (destruct d as [|x d];
    [apply wp_ret; split; [apply unchanged_refl|left; by rewrite app_nil_r]|]); [simpl in Hfuel; lia|].
  cbn [append_loop]. apply wp_bind. eapply wp_share_tls_block; [apply Hh| |].
  - intros m1 Hm1 Hun Hav. apply unchanged_app in Hun as [Hunc HunR]. apply wp_ret. split; [done|right].
    split_and!; [done|done|]. exists []. split_and!; [by exists (x :: d)|done|]. rewrite app_nil_r.
    destruct Hh as (_ & Hw & Es). split_and!; [done|done|by rewrite (unchanged_bytes _ m)].
  - intros b blk m1 Hm1 Hun Hpos Hblk Hroom. apply unchanged_app in Hun as [Hunc HunR].
    rewrite (proj2 (Z.eqb_neq b 0)) by lia. apply wp_bind. eapply wp_get_block; [exact Hblk|].
    set (dd := x :: d) in *. set (nc := Z.min (zlen dd) (left_space blk)).
    assert (0 < zlen dd) by (unfold dd; rewrite zlen_cons; pose proof (zlen_nonneg d); lia).
    assert (zlen (ztake nc dd) = nc) as Hnc by (apply zlen_ztake; unfold left_space in *; lia).
    eapply (wp_append_chunk b blk (ztake nc dd) nc m1 R held c s); [done| |done| | |].
    + destruct Hh as (_ & Hw & Es). split_and!; [done|done|by rewrite (unchanged_bytes _ m)].
    + unfold left_space in *. lia.
    + unfold fits in *. rewrite zlen_app in *. lia.
    + intros c2 m2 Hh2 Hun2. eapply wp_mono; [|eapply (IH (zdrop nc dd) m2 c2 _ Hh2)].
      * intros [ret c3] m3 [Hun3 Hcase]. cbn [fst snd] in *. split; [eapply unchanged_trans; [|exact Hun3]; by eapply unchanged_trans|].
        rewrite <- !app_assoc, ztake_zdrop in Hcase. destruct Hcase as [?|(-> & Hav & p & [q Hq] & Hne & Hp)]; [by left|right].
        split_and!; [done|done|]. exists (ztake nc dd ++ p). rewrite app_assoc. split_and!.
        -- exists q. rewrite <- app_assoc, <- Hq. by rewrite ztake_zdrop.
        -- intros E. apply Hne. rewrite <- (ztake_zdrop nc dd) in E at 2. by apply app_inv_head in E.
        -- done.
      * unfold zdrop, left_space in *. rewrite length_drop. unfold zlen in *. lia.
      * by rewrite <- app_assoc, ztake_zdrop.
Qed.

Lemma wp_push_back_byte ch m R held c s :
  holds m R held c s -> fits (s ++ [ch]) ->
  wp (push_back ch c) m (fun rc m' => append_post R held m s [ch] (fst rc) (snd rc) m').
Proof.
  intros Hh Hf. unfold push_back. apply wp_bind. eapply wp_share_tls_block; [apply Hh| |].
  - intros m1 Hm1 Hun Hav. apply unchanged_app in Hun as [Hunc HunR]. apply wp_ret. split; [done|right].
    split_and!; [done|done|]. exists []. split_and!; [by exists [ch]|done|]. rewrite app_nil_r.
    destruct Hh as (_ & Hw & Es). split_and!; [done|done|by rewrite (unchanged_bytes _ m)].
  - intros b blk m1 Hm1 Hun Hpos Hblk Hroom. apply unchanged_app in Hun as [Hunc HunR].
    rewrite (proj2 (Z.eqb_neq b 0)) by lia. apply wp_bind. eapply wp_get_block; [exact Hblk|].
    assert (0 < zlen [ch] <= left_space blk) as Hch by (change (zlen [ch]) with 1; unfold left_space; lia).
    destruct (extend_mem_spec m1 _ held b blk [ch] Hm1 Hblk Hch) as (Hme & Hun1 & Hr & Hs & ? & ?).
    apply unchanged_app in Hun1 as [Hunc1 HunR1]. change (zlen [ch]) with 1 in Hr, Hs.
    assert (holds (extend_mem b [ch] blk m1) R held c s) as Hhe.
    { destruct Hh as (_ & Hw & Es). split_and!; [done|done|]. by rewrite (unchanged_bytes _ m1), (unchanged_bytes _ m). }
    unfold wp. unfold cp_into, get_block, set_block, mbind, M_bind. rewrite Hblk.
    change (zlen [ch]) with 1 in Hch. unfold left_space in Hch. change (zlen [ch]) with 1.
    rewrite !(proj2 (Z.leb_le _ _)) by lia. cbn [andb blocks next_block avail block_head num_blocks].
    rewrite lookup_insert, decide_True by done. cbn [blocks next_block avail block_head num_blocks].
    rewrite insert_insert, decide_True by done. cbn [set_data b_size].
    change (mk_mem (<[b := _]> (blocks m1)) _ _ _ _) with (extend_mem b [ch] blk m1).
    assert (wp (_push_back_ref (mk_ref (b_size blk) 1 b) c) (extend_mem b [ch] blk m1)
              (fun c' m' => holds m' R held c' (s ++ [ch]) /\ same_view (extend_mem b [ch] blk m1) m')) as (c' & m' & -> & Hh' & Hsv).
    { eapply wp_push_back; [exact Hhe|done|by rewrite Hs|]. by rewrite Hs. }
    eexists (0, c'), m'. split; [done|]. split; [|by left].
    eapply unchanged_trans; [exact HunR|]. eapply unchanged_trans; [exact HunR1|].
    apply same_view_unchanged; [done|]. by apply (holds_refs _ _ _ _ _ Hhe).
Qed.

Lemma wp_append d m R held c s :
  holds m R held c s -> fits (s ++ d) ->
  wp (append d c) m (fun rc m' => append_post R held m s d (fst rc) (snd rc) m').
Proof.
  intros Hh Hf. destruct d as [|x [|y d]]; [by apply wp_append_loop|by apply wp_push_back_byte|by apply wp_append_loop].
Qed.

Lemma wp_resize n ch m R held c s :
  holds m R held c s -> 0 <= n < 2 ^ 30 ->
  wp (resize n ch c) m (fun rc m' =>
    if n <? zlen s then fst rc = 0 /\ holds m' R held (snd rc) (ztake n s) /\ unchanged R m m'
    else append_post R held m s (replicate (Z.to_nat (n - zlen s)) ch) (fst rc) (snd rc) m').
Proof.
  intros Hh Hn. unfold resize. rewrite (holds_length _ _ _ _ _ Hh). destruct (Z.ltb_spec n (zlen s)).
  - apply wp_bind. eapply wp_pop_back; [exact Hh|lia|]. intros c' m' Hh' Hun. apply wp_ret.
    replace (zlen s - (zlen s - n)) with n in Hh' by lia. done.
  - eapply wp_append_loop; [exact Hh|by rewrite length_replicate|].
    unfold fits. rewrite zlen_app. unfold zlen at 2. rewrite length_replicate. lia.
Qed.

(** The reference of an owner becomes a reference of a buffer. *)
Lemma owner_to_ref m r refs owners :
  blocks_ok m refs (block r :: owners) -> ref_ok m r -> blocks_ok m (r :: refs) owners.
Proof.
  intros [H1 H2 H3 H4 H5] Hr. constructor; try done.
  - intros id b Hb. destruct (H1 id b Hb) as (? & ? & ? & ? & Hn & ?). unfold block_ok. cbn [map occ] in *.
    split_and!; try done; try lia.
  - by apply Forall_cons_2.
  - by apply Forall_cons_1 in H3 as [_ ?].
  - by apply NoDup_cons in H4 as [_ ?].
Qed.

Lemma wp_append_user_data d m R held c s :
  holds m R held c s -> d <> [] -> fits (s ++ d) ->
  wp (append_user_data d c) m (fun rc m' => append_post R held m s d (fst rc) (snd rc) m').
Proof.
  intros Hh Hd Hf. pose proof Hf as Hf'. unfold fits in Hf'. rewrite zlen_app in Hf'. pose proof (zlen_nonneg s).
  assert (0 < zlen d) by (destruct d as [|x d]; [done|rewrite zlen_cons; pose proof (zlen_nonneg d); lia]).
  unfold append_user_data. rewrite (proj2 (Z.ltb_ge _ _)) by lia.
  set (blk := mk_block 1 CORD_BUF_BLOCK_FLAGS_USER_DATA (zlen d) (zlen d) 0 d).
  pose proof Hh as (Hm & Hw & Es). destruct Hm as (l & Hc & Hn & Hok).
  destruct (alloc_block_spec m _ (l ++ held) blk Hok) as (m1 & b & E & Hbh & Hnb & Hcase).
  { unfold fresh_block, blk. simpl. split_and!; done || lia. }
  apply wp_bind. exists b, m1. split; [done|]. destruct Hcase as [(-> & -> & Hav)|(Hpos & Hok1 & Hb & Hext)].
  { apply wp_ret. split; [apply unchanged_refl|right]. split_and!; [done|done|]. exists []. rewrite app_nil_r.
    split_and!; [by exists d|by intros <-|done]. }
  rewrite (proj2 (Z.eqb_neq b 0)) by lia. set (r := mk_ref 0 (zlen d) b).
  assert (ref_ok m1 r) as Hr by (exists blk; simpl; split_and!; done || lia).
  assert (slice m1 r = d) as Esl by (unfold slice; cbn [r block]; rewrite Hb; cbn; by rewrite zdrop_0, ztake_all).
  assert (unchanged (ref_list c ++ R) m m1) as Hun.
  { apply (keeps_blocks_unchanged _ held); [by apply keeps_blocks_ext|by destruct Hok]. }
  apply unchanged_app in Hun as [Hunc HunR].
  assert (holds m1 (r :: R) held c s) as Hh1.
  { split_and!; [|done|by rewrite (unchanged_bytes _ m)].
    apply (mem_ok_perm _ (r :: ref_list c ++ R) _ held held); [solve_Permutation|done|].
    exists l. rewrite Hbh, Hnb. split_and!; [|done|by apply owner_to_ref].
    eapply chain_same; [|exact Hc]. intros id b0 _ Hb0. exists b0. split; [by apply Hext|done]. }
  apply wp_bind. eapply wp_move_back; [exact Hh1|by rewrite Esl|]. rewrite Esl. intros c2 m2 Hh2 Hun2. apply wp_ret.
  split; [by eapply unchanged_trans|by left].
Qed.

(** ** Copying a buffer *)

Lemma wp_inc_refs rs m refs held (Q : unit -> mem -> Prop) :
  mem_ok m refs held -> Forall (ref_ok m) rs ->
  (forall m', mem_ok m' (rs ++ refs) held -> same_view m m' -> Q tt m') -> wp (inc_refs rs) m Q.
Proof.
  revert m refs Q. induction rs as [|r rs IH]; intros m refs Q Hm Hr HQ; cbn [inc_refs].
  { apply wp_ret. apply HQ; [done|apply same_view_refl]. }
  apply Forall_cons_1 in Hr as [Hr Hrs]. apply wp_bind. eapply wp_inc_ref; [done|done|]. intros m1 Hm1 Hsv1.
  eapply IH; [exact Hm1| |].
  - eapply Forall_impl; [exact Hrs|]. intros r' Hr'. by apply Hsv1.
  - intros m2 Hm2 Hsv2. apply HQ; [|by eapply same_view_trans].
    eapply mem_ok_perm; [|reflexivity|exact Hm2]. solve_Permutation.
Qed.

(** The ring of a copy. *)
Lemma copied_ring start refs nref cap_mask nbytes rest :
  let c := BigView start refs nref cap_mask nbytes in
  let live := map (ring_at start refs cap_mask) (seqZ 0 nref) in
  buf_wf c -> zlen rest = cap_mask + 1 - nref ->
  buf_wf (BigView 0 (live ++ rest) nref cap_mask nbytes) /\
  ref_list (BigView 0 (live ++ rest) nref cap_mask nbytes) = ref_list c.
Proof.
  intros c live (Hs & Hb & (k & Hk & Hcap) & Hlen & Hst & Hn & Hnb) Hrest. rewrite Hnb.
  assert (zlen live = nref) as Hl by (unfold live; apply zlen_map_seqZ; lia).
  apply (big_intro k); try done; [rewrite zlen_app; lia|lia|].
  pose proof (ring_from_0 k cap_mask live rest Hk Hcap ltac:(lia)) as E. rewrite Hl in E. exact E.
Qed.

(** The copy shares the blocks and holds the same string. *)
Lemma wp_copy_cord_buf m R held rhs t (Q : cord_buf -> mem -> Prop) :
  holds m R held rhs t ->
  (forall c' m', holds2 m' R held c' t rhs t -> unchanged R m m' -> Q c' m') -> wp (copy_cord_buf rhs) m Q.
Proof.
  intros Hh HQ. destruct (holds_refs _ _ _ _ _ Hh) as [Hr HrR]. pose proof Hh as (Hm & Hw & Es).
  assert (forall c' m', buf_wf c' -> ref_list c' = ref_list rhs -> mem_ok m' (ref_list rhs ++ ref_list rhs ++ R) held ->
            same_view m m' -> Q c' m') as HQ'.
  { intros c' m' Hw' El Hm' Hsv. pose proof (unchanged_bytes _ m m' (same_view_unchanged _ _ _ Hsv Hr)) as Eb.
    apply HQ; [|by apply same_view_unchanged]. split_and!; [|done|by rewrite Eb].
    split_and!; [by rewrite El|done|by rewrite El, Eb]. }
  destruct rhs as [r0 r1|start refs nref cap_mask nbytes]; cbn [copy_cord_buf].
  - destruct (small_cases r0 r1 Hw) as [(-> & -> & E)|[(E0 & -> & E)|(E0 & E1 & E)]]; rewrite E in *.
    + apply wp_ret. by apply HQ'; [..|apply same_view_refl].
    + rewrite E0. apply Forall_cons_1 in Hr as [Hr _]. apply wp_bind. eapply wp_inc_ref; [exact Hm|done|].
      intros m' Hm' Hsv. apply wp_ret. by apply HQ'.
    + rewrite E0, E1. cbn [negb]. apply Forall_cons_1 in Hr as [Hr0 Hr]. apply Forall_cons_1 in Hr as [Hr1 _].
      apply wp_bind. eapply wp_inc_ref; [exact Hm|done|]. intros m1 Hm1 Hsv1.
      apply wp_bind. eapply wp_inc_ref; [exact Hm1|by apply Hsv1|]. intros m2 Hm2 Hsv2. apply wp_ret.
      apply HQ'; [done|done| |by eapply same_view_trans]. eapply mem_ok_perm; [|reflexivity|exact Hm2]. solve_Permutation.
  - destruct (copied_ring start refs nref cap_mask nbytes (replicate (Z.to_nat (cap_mask + 1 - nref)) null_ref) Hw) as [Hw' El].
    { apply zlen_replicate_null. destruct Hw as (_ & _ & _ & _ & _ & ? & _). lia. }
    apply wp_bind. eapply wp_inc_refs; [exact Hm|exact Hr|]. intros m' Hm' Hsv. apply wp_ret. by apply HQ'.
Qed.

Lemma holds_nil_refs m R held c : holds m R held c [] -> ref_list c = [].
Proof.
  intros Hh. destruct (ref_list c) as [|r rs] eqn:El; [done|].
  destruct (holds_front _ _ _ _ _ _ _ Hh El) as (_ & Hl & Es & _ & ? & _).
  apply (f_equal zlen) in Es. rewrite zlen_app, Hl in Es. change (zlen []) with 0 in Es.
  pose proof (zlen_nonneg (bytes m rs)). lia.
Qed.

(** [operator=]: whatever the buffer held is released. *)
Lemma wp_assign m R held c s rhs t (Q : cord_buf -> mem -> Prop) :
  holds2 m R held c s rhs t ->
  (forall c' m', holds2 m' R held c' t rhs t -> unchanged R m m' -> Q c' m') -> wp (assign c rhs) m Q.
Proof.
  intros Hh HQ. pose proof Hh as (Hc & Hwr & Et).
  assert (wp (_ ← clear c; copy_cord_buf rhs) m Q) as Hgen.
  { apply wp_bind. eapply wp_clear; [exact Hc|]. intros c1 m1 Hc1 Hun1.
    apply unchanged_app in Hun1 as [Hunr HunR].
    assert (holds m1 R held rhs t) as Hr1.
    { pose proof (holds_nil_refs _ _ _ _ Hc1) as El1. destruct Hc1 as (Hm1 & _). rewrite El1 in Hm1.
      split_and!; [done|done|by rewrite (unchanged_bytes _ m)]. }
    eapply wp_copy_cord_buf; [exact Hr1|]. intros c' m' Hh' Hun'. apply HQ; [done|by eapply unchanged_trans]. }
  destruct c as [|start refs nref cap_mask nbytes]; [done|]. destruct rhs as [|start' refs' nref' cap_mask' nbytes']; [done|].
  cbn [assign]. destruct (Z.eqb_spec cap_mask cap_mask') as [<-|]; [|done]. clear Hgen.
  apply wp_bind. eapply wp_dec_refs; [apply Hc|]. intros m1 Hm1 Hun1. apply unchanged_app in Hun1 as [Hunr HunR].
  pose proof (mem_ok_refs _ _ _ Hm1) as Hr1. apply Forall_app in Hr1 as [Hr1 HrR1].
  apply wp_bind. eapply wp_inc_refs; [exact Hm1|exact Hr1|]. intros m2 Hm2 Hsv. apply wp_ret.
  destruct (copied_ring start' refs' nref' cap_mask nbytes' (zdrop nref' refs) Hwr) as [Hw' El].
  { destruct Hwr as (_ & _ & _ & _ & _ & ? & _). destruct Hc as (_ & (_ & _ & _ & ? & _) & _). rewrite zlen_zdrop; lia. }
  assert (unchanged (ref_list (BigView start' refs' nref' cap_mask nbytes')) m m2) as Hunr2.
  { eapply unchanged_trans; [exact Hunr|by apply same_view_unchanged]. }
  apply HQ.
  - split_and!; [|done|by rewrite (unchanged_bytes _ m m2)].
    split_and!; [by rewrite El|done|]. by rewrite El, (unchanged_bytes _ m m2).
  - eapply unchanged_trans; [exact HunR|by apply same_view_unchanged].
Qed.
