(* ===== verification/CordWorld.v ===== *)
(** * Any number of [cord_buf]s, any sequence of operations

    A world is a memory and a set of named buffers.  The concrete step runs
    the operation of the class on the buffers; the abstract step says what it
    does to the strings they hold.  The development's theorem about
    [cord_buf]: the concrete run of any legal program is defined, refines the
    abstract one, and keeps every reference counter exact, so that no block
    is freed early or leaked. *)

From stdpp Require Import list_tactics.
From S2P Require Import Prelude ByteSearch CordBlocks CordBuf CordQueue CordOps CordSpec CordFind CordAppend.
Local Open Scope Z_scope.

Abbreviation bufs := (gmap Z cord_buf) (only parsing).
Abbreviation strings := (gmap Z (list Z)) (only parsing).

(** ** The programs *)

Inductive cmd :=
| Construct (i : Z)
| CopyConstruct (i j : Z)             (* cord_buf i(j) *)
| Destroy (i : Z)
| Assign (i j : Z)
| Swap (i j : Z)
| Clear (i : Z)
| PopFront (i n : Z)
| PopBack (i n : Z)
| Cut1 (i : Z)
| Cutn (i j n : Z)                    (* i.cutn(&j, n) *)
| CutnMem (i n : Z)
| CutnString (i n : Z) (out : list Z)
| CutUntil (i j : Z) (delim : list Z)
| PushBack (i ch : Z)
| Append (i : Z) (s : list Z)
| AppendUserData (i : Z) (s : list Z)
| AppendBuf (i j : Z)                 (* i.append(j) *)
| AppendMovable (i j : Z)
| Resize (i n ch : Z)
| AppendTo (i j n pos : Z)            (* i.append_to(&j, n, pos) *)
| CopyTo (i n pos : Z)
| ToString (i : Z)
| Fetch1 (i : Z)
| Equals (i : Z) (s : list Z)
| Length (i : Z)
| Empty (i : Z)
| ThreadExit.                         (* remove_tls_block_chain *)

Inductive result :=
| RVoid
| RInt (z : Z)
| RBool (b : bool)
| RByte (b : option Z)
| RBytes (s : list Z).

(** Access to a buffer that does not exist is undefined. *)
Definition buf_at (i : Z) (bs : bufs) : M cord_buf :=
  match bs !! i with Some c => mret c | None => undefined end.

Definition on1 {A} (i : Z) (f : cord_buf -> M (A * cord_buf)) (g : A -> result) (bs : bufs) : M (result * bufs) :=
  c ← buf_at i bs;
  '(a, c) ← f c;
  mret (g a, <[i := c]> bs).

Definition on2 {A} (i j : Z) (f : cord_buf -> cord_buf -> M (A * cord_buf * cord_buf)) (g : A -> result) (bs : bufs) :
    M (result * bufs) :=
  c ← buf_at i bs;
  d ← buf_at j bs;
  '(a, c, d) ← f c d;
  mret (g a, <[i := c]> (<[j := d]> bs)).

Definition void {A} (x : M A) : M (unit * A) := a ← x; mret (tt, a).

Definition step (c : cmd) (bs : bufs) : M (result * bufs) :=
  match c with
  | Construct i => mret (RVoid, <[i := new_cord_buf]> bs)
  | CopyConstruct i j => d ← buf_at j bs; c ← copy_cord_buf d; mret (RVoid, <[i := c]> bs)
  | Destroy i => c ← buf_at i bs; _ ← clear c; mret (RVoid, delete i bs)
  | Assign i j => on2 i j (fun c d => c ← assign c d; mret (tt, c, d)) (fun _ => RVoid) bs
  | Swap i j => on2 i j (fun c d => let '(c, d) := swap c d in mret (tt, c, d)) (fun _ => RVoid) bs
  | Clear i => on1 i (fun c => void (clear c)) (fun _ => RVoid) bs
  | PopFront i n => on1 i (pop_front n) RInt bs
  | PopBack i n => on1 i (pop_back n) RInt bs
  | Cut1 i => on1 i cut1 RByte bs
  | Cutn i j n => on2 i j (cutn n) RInt bs
  | CutnMem i n => on1 i (cutn_mem n) RBytes bs
  | CutnString i n out => on1 i (cutn_string n out) RBytes bs
  | CutUntil i j delim => on2 i j (cut_until delim) RInt bs
  | PushBack i ch => on1 i (push_back ch) RInt bs
  | Append i s => on1 i (append s) RInt bs
  | AppendUserData i s => on1 i (append_user_data s) RInt bs
  | AppendBuf i j => on2 i j (fun c d => c ← append_cord_buf d c; mret (tt, c, d)) (fun _ => RVoid) bs
  | AppendMovable i j => on2 i j (fun c d => '(c, d) ← append_movable d c; mret (tt, c, d)) (fun _ => RVoid) bs
  | Resize i n ch => on1 i (resize n ch) RInt bs
  | AppendTo i j n pos => on2 i j (fun c d => '(k, d) ← append_to n pos c d; mret (k, c, d)) RInt bs
  | CopyTo i n pos => on1 i (fun c => s ← copy_to n pos c; mret (s, c)) RBytes bs
  | ToString i => on1 i (fun c => s ← to_string c; mret (s, c)) RBytes bs
  | Fetch1 i => on1 i (fun c => b ← fetch1 c; mret (b, c)) RByte bs
  | Equals i s => on1 i (fun c => b ← equals s c; mret (b, c)) RBool bs
  | Length i => on1 i (fun c => mret (length c, c)) RInt bs
  | Empty i => on1 i (fun c => mret (empty c, c)) RBool bs
  | ThreadExit => _ ← remove_tls_block_chain; mret (RVoid, bs)
  end.

Fixpoint run (cs : list cmd) (bs : bufs) : M (list result * bufs) :=
  match cs with
  | [] => mret ([], bs)
  | c :: cs => '(r, bs) ← step c bs; '(rs, bs) ← run cs bs; mret (r :: rs, bs)
  end.

(** ** What the operations promise *)

(** An append appends everything, or returns -1 with a proper prefix appended
    when the allocator has failed ([oom]). *)
Definition appends (oom : bool) (i : Z) (s d : list Z) (ss : strings) (r : result) (ss' : strings) : Prop :=
  r = RInt 0 /\ ss' = <[i := s ++ d]> ss \/
  r = RInt (-1) /\ oom = true /\ exists p, p `prefix_of` d /\ p <> d /\ ss' = <[i := s ++ p]> ss.

Definition astep (oom : bool) (c : cmd) (ss : strings) (r : result) (ss' : strings) : Prop :=
  let at1 i f := exists s, ss !! i = Some s /\ f s in
  let at2 i j f := exists s t, ss !! i = Some s /\ ss !! j = Some t /\ f s t in
  match c with
  | Construct i => r = RVoid /\ ss' = <[i := []]> ss
  | CopyConstruct i j => at1 j (fun t => r = RVoid /\ ss' = <[i := t]> ss)
  | Destroy i => r = RVoid /\ ss' = delete i ss
  | Assign i j => at1 j (fun t => r = RVoid /\ ss' = <[i := t]> ss)
  | Swap i j => at2 i j (fun s t => r = RVoid /\ ss' = <[i := t]> (<[j := s]> ss))
  | Clear i => r = RVoid /\ ss' = <[i := []]> ss
  | PopFront i n => at1 i (fun s => r = RInt (Z.min n (zlen s)) /\ ss' = <[i := zdrop n s]> ss)
  | PopBack i n => at1 i (fun s => r = RInt (Z.min n (zlen s)) /\ ss' = <[i := ztake (zlen s - n) s]> ss)
  | Cut1 i => at1 i (fun s => r = RByte (head s) /\ ss' = <[i := zdrop 1 s]> ss)
  | Cutn i j n => at2 i j (fun s t => r = RInt (Z.min n (zlen s)) /\
                                      ss' = <[i := zdrop n s]> (<[j := t ++ ztake n s]> ss))
  | CutnMem i n => at1 i (fun s => r = RBytes (ztake n s) /\ ss' = <[i := zdrop n s]> ss)
  | CutnString i n out => at1 i (fun s => r = RBytes (out ++ ztake n s) /\ ss' = <[i := zdrop n s]> ss)
  | CutUntil i j d => at2 i j (fun s t =>
      match find_sub d s with
      | Some k => r = RInt 0 /\ ss' = <[i := zdrop (k + zlen d) s]> (<[j := t ++ ztake k s]> ss)
      | None => r = RInt (-1) /\ ss' = ss
      end)
  | PushBack i ch => at1 i (fun s => appends oom i s [ch] ss r ss')
  | Append i d | AppendUserData i d => at1 i (fun s => appends oom i s d ss r ss')
  | AppendBuf i j => at2 i j (fun s t => r = RVoid /\ ss' = <[i := s ++ t]> ss)
  | AppendMovable i j => at2 i j (fun s t => r = RVoid /\ ss' = <[i := s ++ t]> (<[j := []]> ss))
  | Resize i n ch => at1 i (fun s =>
      if n <? zlen s then r = RInt 0 /\ ss' = <[i := ztake n s]> ss
      else appends oom i s (replicate (Z.to_nat (n - zlen s)) ch) ss r ss')
  | AppendTo i j n pos => at2 i j (fun s t => r = RInt (zlen (ztake n (zdrop pos s))) /\
                                              ss' = <[j := t ++ ztake n (zdrop pos s)]> ss)
  | CopyTo i n pos => at1 i (fun s => r = RBytes (ztake n (zdrop pos s)) /\ ss' = ss)
  | ToString i => at1 i (fun s => r = RBytes s /\ ss' = ss)
  | Fetch1 i => at1 i (fun s => r = RByte (head s) /\ ss' = ss)
  | Equals i t => at1 i (fun s => r = RBool (bool_decide (s = t)) /\ ss' = ss)
  | Length i => at1 i (fun s => r = RInt (zlen s) /\ ss' = ss)
  | Empty i => at1 i (fun s => r = RBool (zlen s =? 0) /\ ss' = ss)
  | ThreadExit => r = RVoid /\ ss' = ss
  end.

(** Arguments the class accepts: existing buffers (two different ones where
    two are involved), counts that are not negative, strings below 1 GiB,
    supported delimiters. *)
Definition legal (c : cmd) (ss : strings) : Prop :=
  let at1 i f := exists s, ss !! i = Some s /\ f s in
  let at2 i j f := i <> j /\ exists s t, ss !! i = Some s /\ ss !! j = Some t /\ f s t in
  match c with
  | Construct i => ss !! i = None
  | CopyConstruct i j => ss !! i = None /\ is_Some (ss !! j)
  | Destroy i | Clear i | Cut1 i | ToString i | Fetch1 i | Length i | Empty i | Equals i _ => is_Some (ss !! i)
  | Assign i j | Swap i j => at2 i j (fun _ _ => True)
  | PopFront i n | PopBack i n | CutnMem i n | CutnString i n _ => 0 <= n /\ is_Some (ss !! i)
  | Cutn i j n => 0 <= n /\ at2 i j (fun s t => fits (t ++ ztake n s))
  | CutUntil i j d => delim_supported d /\ at2 i j (fun s t => bytes_ok s /\ fits (t ++ s))
  | PushBack i ch => at1 i (fun s => fits (s ++ [ch]))
  | Append i d => at1 i (fun s => fits (s ++ d))
  | AppendUserData i d => d <> [] /\ at1 i (fun s => fits (s ++ d))
  | AppendBuf i j | AppendMovable i j => at2 i j (fun s t => fits (s ++ t))
  | Resize i n _ => 0 <= n < 2 ^ 30 /\ is_Some (ss !! i)
  | AppendTo i j n pos => 0 <= n /\ 0 <= pos /\ at2 i j (fun s t => fits (t ++ ztake n (zdrop pos s)))
  | CopyTo i n pos => 0 <= n /\ 0 <= pos /\ is_Some (ss !! i)
  | ThreadExit => True
  end.

Inductive aruns : list cmd -> strings -> list result -> strings -> Prop :=
| aruns_nil ss : aruns [] ss [] ss
| aruns_cons oom c cs ss r ss1 rs ss2 :
    astep oom c ss r ss1 -> aruns cs ss1 rs ss2 -> aruns (c :: cs) ss (r :: rs) ss2.

(** Legal whatever the allocator does. *)
Fixpoint legal_run (cs : list cmd) (ss : strings) : Prop :=
  match cs with
  | [] => True
  | c :: cs => legal c ss /\ forall oom r ss', astep oom c ss r ss' -> legal_run cs ss'
  end.

(** ** The refinement *)

Definition refs_of (bs : bufs) : list BlockRef := concat (map (fun p => ref_list (snd p)) (map_to_list bs)).

Definition contents (m : mem) (bs : bufs) : strings := (fun c => bytes m (ref_list c)) <$> bs.

Definition world_ok (m : mem) (bs : bufs) (ss : strings) : Prop :=
  mem_ok m (refs_of bs) [] /\ map_Forall (fun _ c => buf_wf c) bs /\ ss = contents m bs.

Lemma concat_perm {A} (l1 l2 : list (list A)) : l1 ≡ₚ l2 -> concat l1 ≡ₚ concat l2.
Proof. induction 1; simpl; [done|by f_equiv|solve_Permutation|by etrans]. Qed.

Lemma refs_of_insert i c bs : bs !! i = None -> refs_of (<[i := c]> bs) ≡ₚ ref_list c ++ refs_of bs.
Proof.
  intros Hi. unfold refs_of. etrans; [apply concat_perm, Permutation_map, map_to_list_insert; exact Hi|]. done.
Qed.

Lemma refs_of_delete i c bs : bs !! i = Some c -> refs_of bs ≡ₚ ref_list c ++ refs_of (delete i bs).
Proof.
  intros Hi. rewrite <- (insert_delete_id bs i c) at 1 by done. apply refs_of_insert. by rewrite lookup_delete_eq.
Qed.

Lemma refs_of_elem i c bs r : bs !! i = Some c -> r ∈ ref_list c -> r ∈ refs_of bs.
Proof. intros Hi Hr. rewrite (refs_of_delete i c) by done. apply elem_of_app. by left. Qed.

Lemma contents_unchanged m m' bs : unchanged (refs_of bs) m m' -> contents m' bs = contents m bs.
Proof.
  intros Hun. apply map_fmap_ext. intros i c Hi. apply unchanged_bytes. unfold unchanged in *.
  rewrite Forall_forall in *. intros r Hr. apply Hun. by eapply refs_of_elem.
Qed.

Lemma contents_lookup m bs i s : contents m bs !! i = Some s -> exists c, bs !! i = Some c /\ bytes m (ref_list c) = s.
Proof. unfold contents. rewrite lookup_fmap. destruct (bs !! i) as [c|]; [|done]. intros [= <-]. by exists c. Qed.

Section focus.
Context (m : mem) (bs : bufs) (ss : strings) (Hw : world_ok m bs ss).

Lemma focus1 i s : ss !! i = Some s -> exists c, bs !! i = Some c /\ holds m (refs_of (delete i bs)) [] c s.
Proof using Hw.
  destruct Hw as (Hm & Hwf & ->). intros (c & Hi & <-)%contents_lookup. exists c. split; [done|].
  split_and!; [|exact (Hwf i c Hi)|done]. eapply mem_ok_perm; [|reflexivity|exact Hm]. by apply refs_of_delete.
Qed.

Lemma unfocus1 i c' s' m' :
  holds m' (refs_of (delete i bs)) [] c' s' -> unchanged (refs_of (delete i bs)) m m' ->
  world_ok m' (<[i := c']> bs) (<[i := s']> ss).
Proof using Hw.
  destruct Hw as (Hm & Hwf & ->). intros (Hm' & Hw' & <-) Hun. rewrite <- (insert_delete_eq bs).
  split_and!.
  - eapply mem_ok_perm; [|reflexivity|exact Hm']. symmetry. apply refs_of_insert. by rewrite lookup_delete_eq.
  - apply map_Forall_insert_2; [done|]. by apply map_Forall_delete.
  - unfold contents at 2. rewrite fmap_insert. fold (contents m' (delete i bs)). rewrite (contents_unchanged m m') by done.
    unfold contents. rewrite fmap_delete, insert_delete_eq. done.
Qed.

Lemma focus2 i j s t : i <> j -> ss !! i = Some s -> ss !! j = Some t ->
  exists c d, bs !! i = Some c /\ bs !! j = Some d /\ holds2 m (refs_of (delete j (delete i bs))) [] c s d t.
Proof using Hw.
  intros Hij Hi Hj. destruct (focus1 i s Hi) as (c & Hc & Hhc). destruct (focus1 j t Hj) as (d & Hd & (_ & Hwd & Ed)).
  exists c, d. split_and!; [done..|]. split_and!; [|done..]. eapply holds_perm; [|exact Hhc]. apply refs_of_delete.
  by rewrite lookup_delete_ne.
Qed.

Lemma unfocus2 i j c' s' d' t' m' : i <> j ->
  holds2 m' (refs_of (delete j (delete i bs))) [] c' s' d' t' ->
  unchanged (refs_of (delete j (delete i bs))) m m' ->
  world_ok m' (<[i := c']> (<[j := d']> bs)) (<[i := s']> (<[j := t']> ss)).
Proof using Hw.
  destruct Hw as (Hm & Hwf & ->). intros Hij ((Hm' & Hwc & <-) & Hwd & <-) Hun.
  assert (<[i := c']> (<[j := d']> bs) = <[i := c']> (<[j := d']> (delete j (delete i bs)))) as ->.
  { rewrite insert_delete_eq, <- (insert_delete_eq _ i), <- (insert_delete_eq (<[j := d']> (delete i bs)) i).
    by rewrite !delete_insert_ne, delete_delete_eq by done. }
  assert (delete j (delete i bs) !! j = None) as Hj by (by rewrite lookup_delete_eq).
  assert (<[j := d']> (delete j (delete i bs)) !! i = None) as Hi
    by (rewrite lookup_insert_ne, lookup_delete_ne by done; by rewrite lookup_delete_eq).
  split_and!.
  - eapply mem_ok_perm; [|reflexivity|exact Hm']. symmetry. rewrite refs_of_insert by done. by rewrite refs_of_insert.
  - repeat apply map_Forall_insert_2; try done. by do 2 apply map_Forall_delete.
  - unfold contents at 2. rewrite !fmap_insert. fold (contents m' (delete j (delete i bs))).
    rewrite (contents_unchanged m m') by done. unfold contents. rewrite !fmap_delete. symmetry.
    rewrite insert_delete_eq, <- (insert_delete_eq _ i), <- (insert_delete_eq (<[j := _]> (_ <$> bs)) i).
    by rewrite !delete_insert_ne, delete_delete_eq by done.
Qed.
End focus.

Section steps.
Context (m : mem) (bs : bufs) (ss : strings) (Hw : world_ok m bs ss).

Definition step_post (c : cmd) (rb : result * bufs) (m' : mem) : Prop :=
  exists ss', astep (Nat.eqb (avail m') 0) c ss (fst rb) ss' /\ world_ok m' (snd rb) ss'.

Lemma on1_ok {A} i (f : cord_buf -> M (A * cord_buf)) g s (P : A -> list Z -> mem -> Prop) (Q : result * bufs -> mem -> Prop) :
  ss !! i = Some s ->
  (forall R c, holds m R [] c s ->
     wp (f c) m (fun ac m' => exists s', holds m' R [] (snd ac) s' /\ unchanged R m m' /\ P (fst ac) s' m')) ->
  (forall a s' bs' m', P a s' m' -> world_ok m' bs' (<[i := s']> ss) -> Q (g a, bs') m') ->
  wp (on1 i f g bs) m Q.
Proof using Hw.
  intros Hs Hf HQ. destruct (focus1 m bs ss Hw i s Hs) as (c & Hc & Hh).
  unfold on1, buf_at. rewrite Hc. apply wp_bind, wp_ret, wp_bind. eapply wp_mono; [|by eapply Hf].
  intros [a c'] m' (s' & Hh' & Hun & HP). apply wp_ret. eapply HQ; [done|]. by apply (unfocus1 m).
Qed.

Lemma on2_ok {A} i j (f : cord_buf -> cord_buf -> M (A * cord_buf * cord_buf)) g s t
    (P : A -> list Z -> list Z -> mem -> Prop) (Q : result * bufs -> mem -> Prop) :
  i <> j -> ss !! i = Some s -> ss !! j = Some t ->
  (forall R c d, holds2 m R [] c s d t ->
     wp (f c d) m (fun acd m' => exists s' t', holds2 m' R [] (snd (fst acd)) s' (snd acd) t' /\ unchanged R m m' /\
                                    P (fst (fst acd)) s' t' m')) ->
  (forall a s' t' bs' m', P a s' t' m' -> world_ok m' bs' (<[i := s']> (<[j := t']> ss)) -> Q (g a, bs') m') ->
  wp (on2 i j f g bs) m Q.
Proof using Hw.
  intros Hij Hs Ht Hf HQ. destruct (focus2 m bs ss Hw i j s t Hij Hs Ht) as (c & d & Hc & Hd & Hh).
  unfold on2, buf_at. rewrite Hc, Hd. apply wp_bind, wp_ret, wp_bind, wp_ret, wp_bind. eapply wp_mono; [|by eapply Hf].
  intros [[a c'] d'] m' (s' & t' & Hh' & Hun & HP). apply wp_ret. eapply HQ; [done|]. by apply (unfocus2 m).
Qed.

(** An operation that only reads. *)
Lemma read_ok {A} i (f : cord_buf -> M A) g s a (Q : result * bufs -> mem -> Prop) :
  ss !! i = Some s -> (forall R c, holds m R [] c s -> wp (f c) m (fun a' m' => a' = a /\ m' = m)) ->
  (forall bs' m', world_ok m' bs' ss -> Q (g a, bs') m') ->
  wp (on1 i (fun c => a ← f c; mret (a, c)) g bs) m Q.
Proof using Hw.
  intros Hs Hf HQ. eapply (on1_ok i _ g s (fun a' s' _ => a' = a /\ s' = s)); [done| |].
  - intros R c Hh. apply wp_bind. eapply wp_mono; [|by eapply Hf]. intros a' m' [-> ->]. apply wp_ret.
    exists s. split_and!; [done|apply unchanged_refl|done|done].
  - intros a' s' bs' m' [-> ->]. rewrite insert_id by done. apply HQ.
Qed.

Lemma append_ok i f s d c :
  ss !! i = Some s ->
  (forall R b, holds m R [] b s -> wp (f b) m (fun rc m' => append_post R [] m s d (fst rc) (snd rc) m')) ->
  (forall oom r ss', appends oom i s d ss r ss' -> astep oom c ss r ss') ->
  wp (on1 i f RInt bs) m (step_post c).
Proof using Hw.
  intros Hs Hf Hc. eapply (on1_ok i f RInt s (fun ret s' m' =>
    ret = 0 /\ s' = s ++ d \/ ret = -1 /\ avail m' = O /\ exists p, p `prefix_of` d /\ p <> d /\ s' = s ++ p)); [done| |].
  - intros R b Hh. eapply wp_mono; [|by eapply Hf]. intros [ret b'] m' [Hun [[-> Hh']|(-> & Hav & p & Hp & Hne & Hh')]].
    + exists (s ++ d). split_and!; [done|done|by left].
    + exists (s ++ p). split_and!; [done|done|right]. split_and!; [done|done|by exists p].
  - intros ret s' bs' m' HP Hw'. exists (<[i := s']> ss). split; [|done]. apply Hc.
    destruct HP as [[-> ->]|(-> & Hav & p & Hp & Hne & ->)]; [by left|right].
    split_and!; [done|by rewrite Hav|by exists p].
Qed.
(** Operations whose result and effect are determined. *)
Lemma det1_ok {A} i (f : cord_buf -> M (A * cord_buf)) g s a s' c :
  ss !! i = Some s ->
  (forall R b Q, holds m R [] b s -> (forall b' m', holds m' R [] b' s' -> unchanged R m m' -> Q (a, b') m') -> wp (f b) m Q) ->
  (forall oom, astep oom c ss (g a) (<[i := s']> ss)) ->
  wp (on1 i f g bs) m (step_post c).
Proof using Hw.
  intros Hs Hf Hc. eapply (on1_ok i f g s (fun a' s1 _ => a' = a /\ s1 = s')); [done| |].
  - intros R b Hh. eapply Hf; [done|]. intros b' m' Hh' Hun. by exists s'.
  - intros a' s1 bs' m' [-> ->] Hw'. by exists (<[i := s']> ss).
Qed.

Lemma det2_ok {A} i j (f : cord_buf -> cord_buf -> M (A * cord_buf * cord_buf)) g s t a s' t' c :
  i <> j -> ss !! i = Some s -> ss !! j = Some t ->
  (forall R b d Q, holds2 m R [] b s d t ->
     (forall b' d' m', holds2 m' R [] b' s' d' t' -> unchanged R m m' -> Q (a, b', d') m') -> wp (f b d) m Q) ->
  (forall oom, astep oom c ss (g a) (<[i := s']> (<[j := t']> ss))) ->
  wp (on2 i j f g bs) m (step_post c).
Proof using Hw.
  intros Hij Hs Ht Hf Hc. eapply (on2_ok i j f g s t (fun a' s1 t1 _ => a' = a /\ s1 = s' /\ t1 = t')); [done..| |].
  - intros R b d Hh. eapply Hf; [done|]. intros b' d' m' Hh' Hun. by exists s', t'.
  - intros a' s1 t1 bs' m' (-> & -> & ->) Hw'. by exists (<[i := s']> (<[j := t']> ss)).
Qed.

Lemma read_step_ok {A} i (f : cord_buf -> M A) g s a c :
  ss !! i = Some s -> (forall R b (Q : A -> mem -> Prop), holds m R [] b s -> Q a m -> wp (f b) m Q) ->
  (forall oom, astep oom c ss (g a) ss) ->
  wp (on1 i (fun b => a ← f b; mret (a, b)) g bs) m (step_post c).
Proof using Hw.
  intros Hs Hf Hc. eapply read_ok; [done| |].
  - intros R b Hh. eapply Hf; [done|]. done.
  - intros bs' m' Hw'. by exists ss.
Qed.

Lemma step1_ok c i :
  legal c ss ->
  match c with
  | Clear k | PopFront k _ | PopBack k _ | Cut1 k | CutnMem k _ | CutnString k _ _ | PushBack k _ | Append k _
  | AppendUserData k _ | Resize k _ _ | CopyTo k _ _ | ToString k | Fetch1 k | Equals k _ | Length k | Empty k => k = i
  | _ => False
  end -> wp (step c bs) m (step_post c).
Proof using Hw.
  intros Hl Hc. destruct c; try done; subst; cbn [step legal] in *.
  - destruct Hl as [s Hs]. eapply (det1_ok _ _ _ s tt []); [done| |done].
    intros R b Q Hh HQ. apply wp_bind. eapply wp_clear; [done|]. intros b' m' Hh' Hun. apply wp_ret. by apply HQ.
  - destruct Hl as [Hn [s Hs]]. eapply (det1_ok _ _ _ s); [done|intros; by eapply wp_pop_front|intros; by exists s].
  - destruct Hl as [Hn [s Hs]]. eapply (det1_ok _ _ _ s); [done|intros; by eapply wp_pop_back|intros; by exists s].
  - destruct Hl as [s Hs]. eapply (det1_ok _ _ _ s); [done|intros; by eapply wp_cut1|intros; by exists s].
  - destruct Hl as [Hn [s Hs]]. eapply (det1_ok _ _ _ s); [done|intros; by eapply wp_cutn_mem|intros; by exists s].
  - destruct Hl as [Hn [s Hs]]. eapply (det1_ok _ _ _ s); [done|intros; by eapply wp_cutn_string|intros; by exists s].
  - destruct Hl as (s & Hs & Hf). eapply (append_ok _ _ s); [done|intros; by apply wp_push_back_byte|intros; by exists s].
  - destruct Hl as (s0 & Hs & Hf). eapply (append_ok _ _ s0); [done|intros; by apply wp_append|intros; by exists s0].
  - destruct Hl as (Hd & s0 & Hs & Hf).
    eapply (append_ok _ _ s0); [done|intros; by apply wp_append_user_data|intros; by exists s0].
  - destruct Hl as (Hn & s & Hs). destruct (Z.ltb_spec n (zlen s)) as [Hlt|Hge].
    + eapply (det1_ok _ _ _ s 0 (ztake n s)); [done| |].
      * intros R b Q Hh HQ. eapply wp_mono; [|by eapply wp_resize]. intros [r b'] m'. cbn [fst snd].
        rewrite (proj2 (Z.ltb_lt _ _)) by done. intros (-> & Hh' & Hun). by apply HQ.
      * intros oom. exists s. split; [done|]. by rewrite (proj2 (Z.ltb_lt _ _)).
    + eapply (append_ok _ _ s (replicate (Z.to_nat (n - zlen s)) ch)); [done| |].
      * intros R b Hh. eapply wp_mono; [|by eapply wp_resize]. intros [r b'] m'. cbn [fst snd].
        by rewrite (proj2 (Z.ltb_ge _ _)) by lia.
      * intros oom r ss' Ha. exists s. split; [done|]. by rewrite (proj2 (Z.ltb_ge _ _)) by lia.
  - destruct Hl as (Hn & Hp & s & Hs). eapply (read_step_ok _ _ _ s); [done|intros; by eapply wp_copy_to|intros; by exists s].
  - destruct Hl as [s Hs]. eapply (read_step_ok _ _ _ s); [done|intros; by eapply wp_to_string|intros; by exists s].
  - destruct Hl as [s Hs]. eapply (read_step_ok _ _ _ s); [done|intros; by eapply wp_fetch1|intros; by exists s].
  - destruct Hl as [s0 Hs]. eapply (read_step_ok _ _ _ s0); [done|intros; by eapply wp_equals|intros; by exists s0].
  - destruct Hl as [s Hs]. eapply (det1_ok _ _ _ s (zlen s) s); [done| |].
    + intros R b Q Hh HQ. apply wp_ret. rewrite (holds_length _ _ _ _ _ Hh). apply HQ; [done|apply unchanged_refl].
    + intros oom. exists s. by rewrite insert_id.
  - destruct Hl as [s Hs]. eapply (det1_ok _ _ _ s (zlen s =? 0) s); [done| |].
    + intros R b Q Hh HQ. apply wp_ret. rewrite (holds_empty _ _ _ _ _ Hh). apply HQ; [done|apply unchanged_refl].
    + intros oom. exists s. by rewrite insert_id.
Qed.

Lemma step2_ok c i j :
  legal c ss ->
  match c with
  | Assign k l | Swap k l | Cutn k l _ | CutUntil k l _ | AppendBuf k l | AppendMovable k l | AppendTo k l _ _ => k = i /\ l = j
  | _ => False
  end -> wp (step c bs) m (step_post c).
Proof using Hw.
  intros Hl Hc. destruct c; try done; destruct Hc as [-> ->]; cbn [step legal] in *.
  - destruct Hl as (Hij & s & t & Hs & Ht & _). eapply (det2_ok _ _ _ _ s t tt t t); [done..| |].
    + intros R b d Q Hh HQ. apply wp_bind. eapply wp_assign; [done|]. intros b' m' Hh' Hun. apply wp_ret. by apply HQ.
    + intros oom. exists t. split; [done|]. by rewrite (insert_id ss) by done.
  - destruct Hl as (Hij & s & t & Hs & Ht & _). eapply (det2_ok _ _ _ _ s t tt t s); [done..| |].
    + intros R b d Q Hh HQ. apply wp_ret. apply HQ; [by apply holds2_sym|apply unchanged_refl].
    + intros oom. by exists s, t.
  - destruct Hl as (Hn & Hij & s & t & Hs & Ht & Hf).
    eapply (det2_ok _ _ _ _ s t); [done..|intros; by eapply wp_cutn|]. intros oom. by exists s, t.
  - destruct Hl as (Hd & Hij & s & t & Hs & Ht & Hb & Hf). destruct (find_sub delim s) as [k|] eqn:E.
    + eapply (det2_ok _ _ _ _ s t 0 (zdrop (k + zlen delim) s) (t ++ ztake k s)); [done..| |].
      * intros R b d Q Hh HQ. eapply wp_cut_until; [done..|]. rewrite E. intros. by apply HQ.
      * intros oom. exists s, t. by rewrite E.
    + eapply (det2_ok _ _ _ _ s t (-1) s t); [done..| |].
      * intros R b d Q Hh HQ. eapply wp_cut_until; [done..|]. rewrite E. apply HQ; [done|apply unchanged_refl].
      * intros oom. exists s, t. rewrite E. by rewrite !insert_id by (rewrite ?lookup_insert_ne by done; done).
  - destruct Hl as (Hij & s & t & Hs & Ht & Hf). eapply (det2_ok _ _ _ _ s t tt (s ++ t) t); [done..| |].
    + intros R b d Q Hh HQ. apply wp_bind. eapply wp_append_cord_buf; [done..|]. intros b' m' Hh' Hun. apply wp_ret. by apply HQ.
    + intros oom. exists s, t. by rewrite (insert_id ss) by done.
  - destruct Hl as (Hij & s & t & Hs & Ht & Hf). eapply (det2_ok _ _ _ _ s t tt (s ++ t) []); [done..| |].
    + intros R b d Q Hh HQ. apply wp_bind. eapply wp_append_movable; [done..|]. intros b' d' m' Hh' Hun. apply wp_ret. by apply HQ.
    + intros oom. by exists s, t.
  - destruct Hl as (Hn & Hp & Hij & s & t & Hs & Ht & Hf).
    eapply (det2_ok _ _ _ _ s t _ s (t ++ ztake n (zdrop pos s))); [done..| |].
    + intros R b d Q Hh HQ. apply wp_bind. eapply wp_append_to; [done..|]. intros d' m' Hh' Hun. apply wp_ret. by apply HQ.
    + intros oom. exists s, t. split_and!; [done..|]. rewrite insert_id; [done|]. by rewrite lookup_insert_ne.
Qed.
End steps.

(** A program starts with no block, an empty chain and [k] allocations that
    will succeed. *)
Definition initial (k : nat) : mem := mk_mem ∅ 1 k 0 0.

Lemma initial_ok k : world_ok (initial k) ∅ ∅.
Proof.
  split_and!; [|apply map_Forall_empty|done]. exists []. split_and!; [done|done|]. constructor; try done.
  apply NoDup_nil_2.
Qed.

Lemma step_ok c m bs ss :
  world_ok m bs ss -> legal c ss -> wp (step c bs) m (step_post ss c).
Proof.
  intros Hw Hl. destruct c; try (eapply step1_ok; done); try (eapply step2_ok; done); cbn [step legal] in *.
  - apply wp_ret. exists (<[i := []]> ss). split; [done|]. cbn [snd]. destruct Hw as (Hm & Hwf & ->).
    unfold contents in Hl. rewrite lookup_fmap in Hl. apply fmap_None in Hl.
    split_and!; [|apply map_Forall_insert_2; [apply small_wf_nil|done]|by unfold contents; rewrite fmap_insert].
    eapply mem_ok_perm; [|reflexivity|exact Hm]. by rewrite refs_of_insert.
  - destruct Hl as [Hi [t Ht]]. destruct (focus1 m bs ss Hw j t Ht) as (d & Hd & Hh). unfold buf_at. rewrite Hd.
    apply wp_bind, wp_ret, wp_bind. eapply wp_copy_cord_buf; [exact Hh|]. intros c' m' Hh' Hun. apply wp_ret.
    exists (<[i := t]> ss). split; [by exists t|]. assert (bs !! i = None) as Hi'.
    { destruct Hw as (_ & _ & ->). unfold contents in Hi. rewrite lookup_fmap in Hi. by apply fmap_None in Hi. }
    assert (i <> j) as Hij by (intros ->; congruence).
    assert (delete j (delete i bs) = delete j bs) as Ed by (by rewrite (delete_id bs)).
    pose proof (unfocus2 m bs ss Hw i j c' t d t m' Hij) as Hun2. rewrite Ed in Hun2.
    specialize (Hun2 Hh' Hun). by rewrite (insert_id bs), (insert_id ss) in Hun2 by done.
  - destruct Hl as [s Hs]. destruct (focus1 m bs ss Hw i s Hs) as (c & Hc & Hh). unfold buf_at. rewrite Hc.
    apply wp_bind, wp_ret, wp_bind. eapply wp_clear; [exact Hh|]. intros c' m' Hh' Hun. apply wp_ret.
    exists (delete i ss). split; [done|]. pose proof (holds_nil_refs _ _ _ _ Hh') as El. destruct Hh' as (Hm' & _).
    rewrite El in Hm'. destruct Hw as (_ & Hwf & ->). split_and!; [done|by apply map_Forall_delete|].
    simpl. rewrite (contents_unchanged m m') by done. unfold contents. by rewrite fmap_delete.
  - destruct Hw as (Hm & Hwf & ->). apply wp_bind.
    destruct (remove_tls_block_chain_spec m _ _ Hm) as (m' & E & Hm' & Hun & _). exists tt, m'. split; [done|].
    apply wp_ret. exists (contents m bs). split; [done|]. split_and!; [done|done|]. by rewrite (contents_unchanged m m').
Qed.

Lemma run_ok cs m bs ss :
  world_ok m bs ss -> legal_run cs ss ->
  wp (run cs bs) m (fun rb m' => exists ss', aruns cs ss (fst rb) ss' /\ world_ok m' (snd rb) ss').
Proof.
  revert m bs ss. induction cs as [|c cs IH]; intros m bs ss Hw Hl; cbn [run].
  { apply wp_ret. exists ss. split; [constructor|done]. }
  destruct Hl as [Hl Hcs]. apply wp_bind. eapply wp_mono; [|by apply step_ok].
  intros [r bs1] m1 (ss1 & Ha & Hw1). apply wp_bind. eapply wp_mono; [|eapply IH; [exact Hw1|by eapply Hcs]].
  intros [rs bs2] m2 (ss2 & Hr & Hw2). apply wp_ret. exists ss2. split; [by econstructor|done].
Qed.

(** C5: the strings are refined: from the empty heap, every legal program
    over any number of buffers runs to its end without touching freed memory
    or failing a check, its results are those of the same program on plain
    byte strings (an append may fail, with a prefix appended, only when the
    allocator has run dry), and every buffer then holds its string, with
    exact reference counters. *)
Theorem cord_buf_refines_strings cs k :
  legal_run cs ∅ ->
  exists rs bs m ss, run cs ∅ (initial k) = Ok ((rs, bs), m) /\ aruns cs ∅ rs ss /\ world_ok m bs ss.
Proof.
  intros Hl. destruct (run_ok cs (initial k) ∅ ∅ (initial_ok k) Hl) as ([rs bs] & m & E & ss & Ha & Hw).
  by exists rs, bs, m, ss.
Qed.

(** No block is left when all buffers are gone and the thread has returned
    its chain. *)
Lemma no_block_left m : mem_ok m [] [] -> block_head m = 0 -> blocks m = ∅.
Proof.
  intros (l & Hc & _ & Hok) Hh. apply map_empty. intros id. destruct (blocks m !! id) as [b|] eqn:Hb; [|done]. exfalso.
  destruct (ok_block _ _ _ Hok id b Hb) as (Hid & _ & _ & _ & Hn & Hpos). rewrite Hh in Hc. destruct l as [|x l].
  - simpl in Hn. lia.
  - destruct Hc as (<- & b0 & Hb0 & _). destruct (ok_block _ _ _ Hok 0 b0 Hb0) as [? _]. lia.
Qed.

(** C17: no leak: when the strings of a legal program are all destroyed and
    the thread's chain of cached blocks is returned, every block the program
    allocated has been freed, whatever sharing happened in between. *)
Theorem cord_buf_no_leak cs k :
  legal_run cs ∅ -> (forall rs ss, aruns cs ∅ rs ss -> ss = ∅) ->
  exists rs m, run (cs ++ [ThreadExit]) ∅ (initial k) = Ok ((rs, ∅), m) /\ blocks m = ∅.
Proof.
  intros Hl Hend. destruct (run_ok cs (initial k) ∅ ∅ (initial_ok k) Hl) as ([rs bs] & m & E & ss & Ha & Hw). cbn [fst snd] in *.
  rewrite (Hend rs ss Ha) in Hw. destruct Hw as (Hm & Hwf & Es).
  assert (bs = ∅) as ->.
  { apply map_empty. intros i. apply (f_equal (fun x : strings => x !! i)) in Es. unfold contents in Es.
    rewrite lookup_fmap, lookup_empty in Es. by destruct (bs !! i). }
  destruct (remove_tls_block_chain_spec m _ _ Hm) as (m' & E' & Hm' & _ & Hh & _).
  exists (rs ++ [RVoid]), m'. split; [|by apply no_block_left]. clear Hm Hm' Hwf Es Hl Hend Ha.
  revert rs E. generalize (∅ : bufs) at 1 3. generalize (initial k). induction cs as [|c cs IH]; intros m0 bs0 rs; cbn [run app].
  - intros [= <- <- <-]. cbn. unfold mbind, M_bind. by rewrite E'.
  - unfold mbind, M_bind. destruct (step c bs0 m0) as [[[r bs1] m1]| |]; [|done..].
    destruct (run cs bs1 m1) as [[[rs1 bs2] m2]| |] eqn:Er; [|done..]. intros [= <- -> ->].
    specialize (IH m1 bs1 rs1 Er). unfold mbind, M_bind in IH. by rewrite IH.
Qed.

(** ** Runs of concrete programs *)

Definition results_of (cs : list cmd) (k : nat) : list result :=
  match run cs ∅ (initial k) with Ok ((rs, _), _) => rs | _ => [] end.

Definition cut_program : list cmd :=
  [Construct 1; Append 1 (bs "key: value"); Construct 2; CutUntil 1 2 (bs ": "); ToString 2; ToString 1].

Lemma bytes_ok_prefix p d : bytes_ok d -> p `prefix_of` d -> bytes_ok p.
Proof. intros Hd [q ->]. by apply bytes_ok_app in Hd as [? _]. Qed.

Lemma fits_prefix p d : fits d -> p `prefix_of` d -> fits p.
Proof. intros Hd [q ->]. by eapply fits_app_l. Qed.

Lemma appends_prefix oom i s d ss r ss' :
  appends oom i s d ss r ss' -> exists p, p `prefix_of` d /\ ss' = <[i := s ++ p]> ss.
Proof. intros [[_ ->]|(_ & _ & p & Hp & _ & ->)]; [by exists d|by exists p]. Qed.

Lemma cut_program_legal : legal_run cut_program ∅.
Proof.
  split; [done|]. intros _ _ _ [-> ->]. split; [exists []; split; [done|by vm_compute]|].
  intros oom r ss1 (s & [= <-] & Happ); apply appends_prefix in Happ as (p & Hp & ->).
  assert (bytes_ok p) by (eapply bytes_ok_prefix; [|exact Hp]; by repeat constructor).
  assert (fits p) by (eapply fits_prefix; [|exact Hp]; by vm_compute).
  split; [done|]. intros _ _ _ [-> ->]. split.
  { split; [right; split; [by vm_compute|by repeat constructor]|]. split; [done|]. exists p, []. by split_and!. }
  intros _ r1 ss1 (s & t & [= <-] & [= <-] & H1).
  assert (is_Some (ss1 !! 1) /\ is_Some (ss1 !! 2)) as [? ?].
  { destruct (find_sub _ _); destruct H1 as [_ ->]; split; by eexists. }
  split; [done|]. intros _ r2 ss2 (s2 & _ & _ & ->). split; [done|]. done.
Qed.

Lemma cord_buf_refines_strings_witness :
  legal_run cut_program ∅ /\
  (exists rs bs m ss, run cut_program ∅ (initial 3) = Ok ((rs, bs), m) /\ aruns cut_program ∅ rs ss /\ world_ok m bs ss) /\
  results_of cut_program 3 = [RVoid; RInt 0; RVoid; RInt 0; RBytes (bs "key"); RBytes (bs "value")] /\
  results_of cut_program 0 = [RVoid; RInt (-1); RVoid; RInt (-1); RBytes []; RBytes []].
Proof.
  split; [exact cut_program_legal|]. split; [exact (cord_buf_refines_strings cut_program 3 cut_program_legal)|].
  split; vm_compute; reflexivity.
Defined.

(** Two buffers that share a block. *)
Definition share_program : list cmd :=
  [Construct 1; Append 1 (bs "shared"); CopyConstruct 2 1; PopFront 1 2; Destroy 1; Destroy 2].

Lemma share_program_legal : legal_run share_program ∅.
Proof.
  split; [done|]. intros _ _ _ [-> ->]. split; [exists []; split; [done|by vm_compute]|].
  intros oom r ss1 (s & [= <-] & Happ); apply appends_prefix in Happ as (p & Hp & ->). split; [split; [done|by eexists]|].
  intros _ _ _ (s & [= <-] & -> & ->). split; [split; [done|by eexists]|].
  intros _ _ _ (s & [= <-] & -> & ->). split; [by eexists|]. intros _ _ _ [-> ->]. split; [by eexists|done].
Qed.

Lemma share_program_end rs ss : aruns share_program ∅ rs ss -> ss = ∅.
Proof.
  unfold share_program. intros H. repeat match goal with
  | H : aruns (_ :: _) _ _ _ |- _ => inversion H; clear H; subst
  | H : aruns [] _ _ _ |- _ => inversion H; clear H; subst
  | H : astep _ (Append _ _) _ _ _ |- _ => destruct H as (? & [= <-] & (? & _ & ->)%appends_prefix)
  | H : astep _ _ _ _ _ |- _ => destruct H as (? & [= <-] & -> & ->)
  | H : astep _ _ _ _ _ |- _ => destruct H as [-> ->]
  end; reflexivity.
Qed.

Lemma cord_buf_no_leak_witness :
  exists rs m, run (share_program ++ [ThreadExit]) ∅ (initial 1) = Ok ((rs, ∅), m) /\ blocks m = ∅.
Proof. exact (cord_buf_no_leak share_program 1 share_program_legal share_program_end). Defined.

(** A delimiter of two bytes above 127 is in the buffer and is not found: the
    signature of the delimiter is sign-extended and never masked. *)
Lemma cut_until_high_bytes :
  let cs := [Construct 1; Append 1 [1; 200; 201; 2]; Construct 2; CutUntil 1 2 [200; 201]] in
  find_sub [200; 201] [1; 200; 201; 2] = Some 1 /\ results_of cs 1 = [RVoid; RInt 0; RVoid; RInt (-1)].
Proof. split; vm_compute; reflexivity. Qed.

(** A delimiter that starts with NUL bytes matches before that many bytes are
    read; the length to cut wraps around and the whole buffer is cut. *)
Lemma cut_until_leading_nul :
  let cs := [Construct 1; Append 1 [5; 6; 7]; Construct 2; CutUntil 1 2 [0; 5]; ToString 2; Length 1] in
  find_sub [0; 5] [5; 6; 7] = None /\
  results_of cs 1 = [RVoid; RInt 0; RVoid; RInt 0; RBytes [5; 6; 7]; RInt 0].
Proof. split; vm_compute; reflexivity. Qed.

(** Zero bytes of user data: the buffer has a reference, is not [empty()], has
    [length()] 0 and [cut1] reads outside the data. *)
Lemma empty_user_data :
  results_of [Construct 1; AppendUserData 1 []; Empty 1; Length 1] 1 = [RVoid; RInt 0; RBool false; RInt 0] /\
  run [Construct 1; AppendUserData 1 []; Cut1 1] ∅ (initial 1) = Undefined.
Proof. split; vm_compute; reflexivity. Qed.
