(* ===== verification/CordStream.v ===== *)
(** * [cord_buf_as_zero_copy_output_stream] of [flare/io/cord_buf.cc]

    The stream lends a block of memory at a time to its user: [Next] takes a
    block out of the thread-local chain and makes all of its free space the end
    of the buffer, [BackUp] takes back what was not used and returns the block.
    Operations run in the memory monad of [CordBlocks]; a log of level FATAL is
    only a message, as it is unless [flare_crash_on_fatal_log] is set.

    The specifications say that [Next], bytes written to the place it lends, and
    [BackUp] of the rest append exactly these bytes, and nothing that any other
    reference sees changes.  [frugal] code never makes memory available again, so
    that an allocator that has failed keeps failing. *)

From S2P Require Import Prelude CordBlocks CordBuf CordQueue CordOps CordSpec CordAppend.
Local Open Scope Z_scope.

Record output_stream := mk_output { _block_size : Z; _cur_block : Z; _out_count : Z }.

Definition new_output : output_stream := mk_output 0 0 0.

(** The constructor with a block size: [None] is the exception.
    [offsetof(Block, data)] is 24. *)
Definition new_sized_output (block_size : Z) : option output_stream :=
  if block_size <=? 24 then None else Some (mk_output block_size 0 0).

Definition with_cur_block (b : Z) (st : output_stream) : output_stream := mk_output (_block_size st) b (_out_count st).
Definition with_count (n : Z) (st : output_stream) : output_stream := mk_output (_block_size st) (_cur_block st) (s64 n).

Definition _release_block (st : output_stream) : M output_stream :=
  _ ← (if 0 <? _block_size st then if _cur_block st =? 0 then mret tt else dec_ref (_cur_block st)
       else release_tls_block (_cur_block st));
  mret (with_cur_block 0 st).

(** The place as block and offset, and its size; [None] is the result [false]. *)
Definition output_Next (st : output_stream) (c : cord_buf) : M (option (Z * Z * Z) * output_stream * cord_buf) :=
  used_up ← (if _cur_block st =? 0 then mret true else blk ← get_block (_cur_block st); mret (full blk));
  st ← (if used_up : bool then
          st ← _release_block st;
          b ← (if 0 <? _block_size st then create_block (_block_size st) else acquire_tls_block);
          mret (with_cur_block b st)
        else mret st);
  if _cur_block st =? 0 then mret (None, st, c)
  else
    blk ← get_block (_cur_block st);
    let r := mk_ref (b_size blk) (u32 (left_space blk)) (_cur_block st) in
    _ ← set_block (_cur_block st) (set_size (cap blk) blk);
    c ← _push_back_ref r c;
    mret (Some (_cur_block st, offset r, s32 (r_length r)), with_count (_out_count st + r_length r) st, c).

(** The last reference ends where its block does. *)
Definition at_end (r : BlockRef) (blk : Block) : bool := u32 (offset r + r_length r) =? b_size blk.

(** What the loop of [BackUp] does with the last reference first: go on with the
    current block, or stop. *)
Inductive back_up_step := Continue (st : output_stream) | Stop (st : output_stream) (c : cord_buf).

Definition find_block (count : Z) (st : output_stream) (c : cord_buf) : M back_up_step :=
  let r := _back_ref c in
  if negb (_cur_block st =? 0) then
    if negb (block r =? _cur_block st) then mret (Stop st c)
    else
      blk ← get_block (_cur_block st);
      if negb (at_end r blk) then mret (Stop st c) else mret (Continue st)
  else
    blk ← get_block (block r);
    if nshared blk =? 1 then
      if negb (at_end r blk) then mret (Stop st c)
      else _ ← inc_ref (block r); mret (Continue (with_cur_block (block r) st))
    else if negb (at_end r blk) then
      '(n, c) ← pop_back (u64 count) c;
      mret (Stop (with_count (_out_count st - n) st) c)
    else _ ← inc_ref (block r); mret (Continue (with_cur_block (block r) st)).

(** [_cur_block->size -= n]. *)
Definition shrink_block (b n : Z) : M unit :=
  blk ← get_block b;
  set_block b (set_size (u32 (b_size blk - n)) blk).

(** Every round but the last pops a reference. *)
Fixpoint back_up_loop (fuel : nat) (count : Z) (st : output_stream) (c : cord_buf) : M (output_stream * cord_buf) :=
  if empty c then mret (st, c)
  else
    match fuel with
    | O => undefined
    | S fuel =>
        let r := _back_ref c in
        step ← find_block count st c;
        match step with
        | Stop st c => mret (st, c)
        | Continue st =>
            if u32 count <? r_length r then
              let c := shrink_back count c in
              _ ← shrink_block (_cur_block st) count;
              let st := with_count (_out_count st - count) st in
              if _block_size st =? 0 then
                _ ← release_tls_block (_cur_block st);
                mret (with_cur_block 0 st, c)
              else mret (st, c)
            else
              _ ← shrink_block (_cur_block st) (r_length r);
              let st := with_count (_out_count st - r_length r) st in
              let count := s32 (count - r_length r) in
              '(_, c) ← _pop_back_ref c;
              st ← _release_block st;
              if count =? 0 then mret (st, c) else back_up_loop fuel count st c
        end
    end.

Definition output_BackUp (count : Z) (st : output_stream) (c : cord_buf) : M (output_stream * cord_buf) :=
  back_up_loop (nrefs c) count st c.

(** ** Memory that has run out *)

Definition frugal {A} (x : M A) : Prop := forall m a m', x m = Ok (a, m') -> avail m = O -> avail m' = O.

Create HintDb frugal.

Lemma frugal_ret {A} (a : A) : frugal (mret a).
Proof. by intros m a' m' [= <- <-]. Qed.

Lemma frugal_bind {A B} (x : M A) (f : A -> M B) : frugal x -> (forall a, frugal (f a)) -> frugal (x ≫= f).
Proof.
  intros Hx Hf m b m' E Ha. unfold mbind, M_bind in E. destruct (x m) as [[a m1]| |] eqn:Ex; try done.
  by eapply Hf; [|eapply Hx].
Qed.

Lemma frugal_undefined {A} : frugal (@undefined A).
Proof. by intros m a m'. Qed.

Lemma frugal_aborted {A} : frugal (@aborted A).
Proof. by intros m a m'. Qed.

Lemma frugal_get_mem : frugal get_mem.
Proof. by intros m a m' [= <- <-]. Qed.

Lemma frugal_get_block b : frugal (get_block b).
Proof. intros m a m'. unfold get_block. destruct (blocks m !! b); [|done]. by intros [= <- <-]. Qed.

Lemma frugal_set_block b blk : frugal (set_block b blk).
Proof. by intros m a m' [= <- <-]. Qed.

Lemma frugal_free_block b : frugal (free_block b).
Proof. by intros m a m' [= <- <-]. Qed.

Lemma frugal_set_tls h n : frugal (set_tls h n).
Proof. by intros m a m' [= <- <-]. Qed.

Lemma frugal_alloc_block blk : frugal (alloc_block blk).
Proof. intros m a m' E Ha. unfold alloc_block in E. rewrite Ha in E. by injection E as <- <-. Qed.

#[export] Hint Resolve frugal_ret frugal_undefined frugal_aborted frugal_get_mem frugal_get_block frugal_set_block
  frugal_free_block frugal_set_tls frugal_alloc_block : frugal.

(** Follow the code. *)
Ltac frugal :=
  repeat first
    [ progress eauto 1 with frugal
    | apply frugal_bind; [|intros]
    | match goal with
      | |- frugal (if ?b then _ else _) => destruct b
      | |- frugal (match ?x with _ => _ end) => destruct x
      end ].

Lemma frugal_dec_ref b : frugal (dec_ref b).
Proof. unfold dec_ref. frugal. Qed.

Lemma frugal_inc_ref b : frugal (inc_ref b).
Proof. unfold inc_ref. frugal. Qed.

Lemma frugal_cp_into b off s : frugal (cp_into b off s).
Proof. unfold cp_into. frugal. Qed.

Lemma frugal_create_block n : frugal (create_block n).
Proof. unfold create_block. frugal. Qed.

#[export] Hint Resolve frugal_dec_ref frugal_inc_ref frugal_cp_into frugal_create_block : frugal.

Lemma frugal_skip_full fuel : forall b num, frugal (skip_full fuel b num).
Proof. induction fuel as [|fuel IH]; intros b num; cbn [skip_full]; frugal. Qed.

#[export] Hint Resolve frugal_skip_full : frugal.

Lemma frugal_share_tls_block : frugal share_tls_block.
Proof. unfold share_tls_block. frugal. Qed.

Lemma frugal_acquire_tls_block : frugal acquire_tls_block.
Proof. unfold acquire_tls_block. frugal. Qed.

Lemma frugal_release_tls_block b : frugal (release_tls_block b).
Proof. unfold release_tls_block. frugal. Qed.

Lemma frugal_push_back_ref r c : frugal (_push_back_ref r c).
Proof.
  unfold _push_back_ref, push_or_move, _push_or_move_back_ref_to_smallview, _push_or_move_back_ref_to_bigview, stored, merged.
  destruct c; frugal.
Qed.

Lemma frugal_pop_back_ref c : frugal (_pop_back_ref c).
Proof. unfold _pop_back_ref. destruct c; frugal. Qed.

#[export] Hint Resolve frugal_share_tls_block frugal_acquire_tls_block frugal_release_tls_block frugal_push_back_ref
  frugal_pop_back_ref : frugal.

Lemma frugal_append_loop fuel : forall s c, frugal (append_loop fuel s c).
Proof. induction fuel as [|fuel IH]; intros s c; cbn [append_loop]; frugal. Qed.

#[export] Hint Resolve frugal_append_loop : frugal.

Lemma frugal_append s c : frugal (append s c).
Proof. unfold append, push_back. frugal. Qed.

Lemma frugal_dec_refs rs : frugal (dec_refs rs).
Proof. induction rs; cbn [dec_refs]; frugal. Qed.

#[export] Hint Resolve frugal_append frugal_dec_refs : frugal.

Lemma frugal_pop_back_loop fuel : forall n c, frugal (pop_back_loop fuel n c).
Proof. induction fuel as [|fuel IH]; intros n c; cbn [pop_back_loop]; frugal. Qed.

Lemma frugal_clear c : frugal (clear c).
Proof. unfold clear. frugal. Qed.

#[export] Hint Resolve frugal_pop_back_loop frugal_clear : frugal.

Lemma frugal_find_block count st c : frugal (find_block count st c).
Proof. unfold find_block, pop_back. frugal. Qed.

Lemma frugal_release_block st : frugal (_release_block st).
Proof. unfold _release_block. frugal. Qed.

#[export] Hint Resolve frugal_find_block frugal_release_block : frugal.

Lemma frugal_output_Next st c : frugal (output_Next st c).
Proof. unfold output_Next. frugal. Qed.

Lemma frugal_back_up_loop fuel : forall count st c, frugal (back_up_loop fuel count st c).
Proof. induction fuel as [|fuel IH]; intros count st c; cbn [back_up_loop]; unfold shrink_block; frugal. Qed.

#[export] Hint Resolve frugal_output_Next frugal_back_up_loop : frugal.

(** ** Replacing a block *)

(** A block may be rewritten as long as no reference sees beyond its end. *)
Lemma mem_ok_update m refs held b blk blk' :
  mem_ok m refs held -> blocks m !! b = Some blk ->
  nshared blk' = nshared blk -> portal_next blk' = portal_next blk -> cap blk' = cap blk -> zlen (data blk') = zlen (data blk) ->
  0 <= b_size blk' <= cap blk -> Forall (fun r => block r = b -> offset r + r_length r <= b_size blk') refs ->
  mem_ok (with_blocks (<[b := blk']>) m) refs held.
Proof.
  intros (l & Hc & Hn & [H1 H2 H3 H4 H5]) Hb En Ep Ec Ed Hs Hr. exists l. split_and!; [|done|].
  - eapply chain_same; [|exact Hc]. intros id b0 _ Hb0. simpl. destruct (decide (id = b)) as [->|Hne].
    + rewrite lookup_insert, decide_True by done. exists blk'. split; [done|]. congruence.
    + rewrite lookup_insert_ne by done. by exists b0.
  - constructor; try done.
    + intros id b0. simpl. destruct (decide (id = b)) as [->|Hne].
      * rewrite lookup_insert, decide_True by done. intros [= <-]. destruct (H1 b blk Hb) as (? & ? & ? & ? & ? & ?).
        unfold block_ok. rewrite En, Ec, Ed. simpl. split_and!; done || lia.
      * rewrite lookup_insert_ne by done. apply H1.
    + rewrite Forall_forall in *. intros r Hin. destruct (H2 r Hin) as (b0 & Hb0 & ? & ? & ?). unfold ref_ok. simpl.
      destruct (decide (block r = b)) as [Heq|Hne].
      * rewrite Heq, lookup_insert, decide_True by done. exists blk'. split_and!; try done. by apply Hr.
      * rewrite lookup_insert_ne by done. by exists b0.
    + eapply Forall_impl; [exact H3|]. intros id [b0 Hb0]. simpl. destruct (decide (id = b)) as [->|Hne].
      * rewrite lookup_insert, decide_True by done. by eexists.
      * rewrite lookup_insert_ne by done. by eexists.
Qed.

(** A block of which a writer has a reference and a buffer another one. *)
Lemma nshared_two m refs held b blk r :
  mem_ok m refs (b :: held) -> blocks m !! b = Some blk -> r ∈ refs -> block r = b -> 1 < nshared blk.
Proof.
  intros (l & _ & _ & [H1 _ _ _ _]) Hb Hr Er. destruct (H1 b blk Hb) as (_ & _ & _ & _ & -> & _).
  assert (0 < occ b (map block refs)) by (apply occ_elem; rewrite <- Er; by apply list_elem_of_fmap_2).
  assert (0 < occ b (l ++ b :: held)) by (apply occ_elem, elem_of_app; right; by left). lia.
Qed.

(** The last reference after a push: the new one, or the old one that it prolongs. *)
Lemma snoc_merge_back rs r :
  Forall ref_small rs -> ref_small r ->
  exists rs1 o n, snoc_merge rs r = rs1 ++ [mk_ref o n (block r)] /\ o + n = offset r + r_length r /\ 0 <= o /\
    (n = r_length r /\ rs1 = rs \/ r_length r < n /\ rs = rs1 ++ [mk_ref o (n - r_length r) (block r)]).
Proof.
  intros Hrs (_ & Hr1 & Hr2). destruct rs as [|l rs _] using rev_ind.
  { exists [], (offset r), (r_length r). split_and!; [by destruct r|done|lia|by left]. }
  rewrite snoc_merge_snoc. apply Forall_app in Hrs as [_ Hl]. apply Forall_cons_1 in Hl as [(_ & Hl1 & Hl2) _]. destruct (mergeable l r) eqn:E.
  - unfold mergeable in E. apply andb_true_iff in E as [Eb Eo]. zbool.
    rewrite u32_small in Eo by lia. exists rs, (offset l), (r_length l + r_length r).
    unfold grow. rewrite u32_small, Eb by lia. split_and!; [done|lia|lia|]. right. split; [lia|].
    replace (r_length l + r_length r - r_length r) with (r_length l) by lia. destruct l. simpl in *. by rewrite Eb.
  - exists (rs ++ [l]), (offset r), (r_length r). split_and!; [|done|lia|by left]. rewrite <- app_assoc. by destruct r.
Qed.

Lemma push_back_block r c m c' m' blk :
  push_ok false r c -> _push_back_ref r c m = Ok (c', m') -> blocks m !! block r = Some blk ->
  exists n, blocks m' !! block r = Some (set_nshared n blk).
Proof.
  intros (c0 & _ & Hp) E Hb. unfold _push_back_ref in E. rewrite Hp in E. unfold push_effect in E.
  destruct (merges (ref_list c) r); cbn [merged stored] in E.
  - injection E as _ <-. exists (nshared blk). by destruct blk.
  - unfold inc_ref, mbind, M_bind, get_block, set_block, mret, M_ret in E. rewrite Hb in E. injection E as _ <-. simpl.
    exists (nshared blk + 1). by rewrite lookup_insert, decide_True by done.
Qed.

(** ** [Next] *)

(** The stream has lent [len] bytes at [off] of block [b]: they are the end of
    [c'], which was [c] with bytes [s] before. *)
Definition lent (R : list BlockRef) (held : list Z) (m0 : mem) (c : cord_buf) (s : list Z) (b off len : Z) (c' : cord_buf) (m' : mem) : Prop :=
  exists m1 blk n,
    holds m1 R (b :: held) c s /\ unchanged R m0 m1 /\ blocks m1 !! b = Some blk /\
    b_size blk = off /\ cap blk = off + len /\ 0 < len /\
    buf_wf c' /\ ref_list c' = snoc_merge (ref_list c) (mk_ref off len b) /\
    mem_ok m' (ref_list c' ++ R) (b :: held) /\ blocks m' !! b = Some (set_nshared n (set_size (cap blk) blk)) /\
    unchanged (ref_list c ++ R) m1 m'.

Lemma write_at_rest p d : 0 <= p <= zlen d -> write_at p (zdrop p d) d = d.
Proof.
  intros Hp. unfold write_at. rewrite zlen_zdrop by lia. rewrite (zdrop_all (p + _)) by lia. by rewrite app_nil_r, ztake_zdrop.
Qed.

Lemma snoc_merge_length rs r : zlen (snoc_merge rs r) <= zlen rs + 1.
Proof.
  destruct rs as [|l rs _] using rev_ind; [done|]. rewrite snoc_merge_snoc.
  case_if; rewrite !zlen_app, !zlen_cons, (@zlen_nil BlockRef); lia.
Qed.

Lemma bound_one_more m refs held rs r : mem_ok m refs held -> Forall (ref_ok m) rs -> ref_ok m r -> zlen (bytes m rs) + 1 < 2 ^ 30 ->
  list_bound (snoc_merge rs r).
Proof.
  intros Hm Hrs Hr Hlt. pose proof (snoc_merge_length rs r). rewrite (zlen_bytes m refs held) in Hlt by done.
  assert (Hs : Forall ref_small rs) by (eapply Forall_impl; [exact Hrs|]; intros; by eapply ref_ok_small).
  pose proof (total_len_ge rs Hs). split; [lia|].
  destruct (snoc_merge_ok _ _ _ _ _ Hm Hrs Hr) as [Hok Eb]. rewrite <- (zlen_bytes m refs held) by done.
  rewrite Eb, zlen_app, (zlen_bytes m refs held), (zlen_slice m refs held) by done.
  destruct (mem_ok_block m refs held r Hm Hr) as (b & _ & ? & ? & ? & ? & ? & _). lia.
Qed.

Lemma holds_unchanged m m' R held held' c s :
  holds m R held c s -> mem_ok m' (ref_list c ++ R) held' -> unchanged (ref_list c ++ R) m m' -> holds m' R held' c s /\ unchanged R m m'.
Proof.
  intros (_ & Hw & Es) Hm Hun. apply unchanged_app in Hun as [Hunc HunR]. split; [|done].
  split_and!; [done|done|by rewrite (unchanged_bytes _ m)].
Qed.

(** A block that is held becomes the end of the buffer. *)
Lemma wp_lend {A} m1 R held c s b blk (K : cord_buf -> M A) (Q : A -> mem -> Prop) :
  holds m1 R (b :: held) c s -> zlen s + 1 < 2 ^ 30 -> blocks m1 !! b = Some blk -> b_size blk < cap blk ->
  (forall c' m', lent R held m1 c s b (b_size blk) (left_space blk) c' m' -> wp (K c') m' Q) ->
  wp (_ ← set_block b (set_size (cap blk) blk); c ← _push_back_ref (mk_ref (b_size blk) (left_space blk) b) c; K c) m1 Q.
Proof.
  intros Hh Hlt Hb Hroom HQ. pose proof Hh as (Hm & Hw & Es). destruct Hm as (l & Hc & Hn & Hok).
  destruct (ok_block _ _ _ Hok b blk Hb) as (_ & Hsz & _ & Hd & _). assert (Hm : mem_ok m1 (ref_list c ++ R) (b :: held)) by by exists l.
  set (ch := zdrop (b_size blk) (data blk)). assert (Hch : zlen ch = left_space blk) by (unfold ch, left_space; rewrite zlen_zdrop; lia).
  assert (Ew : write_at (b_size blk) ch (data blk) = data blk) by (apply write_at_rest; lia).
  assert (Ee : set_block b (set_size (cap blk) blk) m1 = Ok (tt, extend_mem b ch blk m1)).
  { unfold set_block, extend_mem, with_blocks, extended. rewrite Ew, Hch.
    do 4 f_equal. destruct blk. unfold set_size, set_data, left_space. simpl. f_equal. lia. }
  destruct (extend_mem_spec m1 _ _ b blk ch Hm Hb ltac:(rewrite Hch; unfold left_space in *; lia)) as (Hm2 & Hun & Hr & Hs & _).
  rewrite Hch in *. destruct (holds_unchanged _ _ _ _ _ _ _ Hh Hm2 Hun) as [Hh2 HunR]. set (r := mk_ref (b_size blk) (left_space blk) b) in *.
  destruct (holds_refs _ _ _ _ _ Hh2) as [Hrs _]. assert (Hlb : list_bound (snoc_merge (ref_list c) r)).
  { eapply bound_one_more; [exact Hm2|done|done|]. by destruct Hh2 as (_ & _ & ->). }
  apply wp_bind. exists tt, (extend_mem b ch blk m1). split; [done|]. apply wp_bind.
  assert (wp (_push_back_ref r c) (extend_mem b ch blk m1) (fun c' m' => ref_list c' = snoc_merge (ref_list c) r /\
    holds m' R (b :: held) c' (s ++ slice (extend_mem b ch blk m1) r) /\ same_view (extend_mem b ch blk m1) m')) as (c' & m' & E & El & Hh' & Hsv).
  { eapply wp_push_back_bounded; [exact Hh2|done|done|]. by intros. }
  exists c', m'. split; [done|]. apply HQ.
  destruct (push_back_block r c (extend_mem b ch blk m1) c' m' (extended ch blk)) as [n Hblk'].
  { apply (push_bounded false (extend_mem b ch blk m1) R (b :: held) c s r); [by apply Hh2|done|by apply Hh2|done|done]. }
  { exact E. }
  { simpl. by rewrite lookup_insert, decide_True by done. }
  pose proof Hh' as (Hm' & Hw' & _). exists m1, blk, n. unfold left_space in *.
  split_and!; [done|apply unchanged_refl|done|done|lia|lia|done|done|done| |].
  - etrans; [exact Hblk'|]. f_equal. unfold extended. rewrite Ew, Hch. destruct blk. unfold set_nshared, set_size, set_data. simpl in *.
    f_equal. lia.
  - eapply unchanged_trans; [exact Hun|]. apply same_view_unchanged; [done|]. by eapply mem_ok_refs.
Qed.

Lemma lent_trans R held m0 m c s b off len c' m' : unchanged R m0 m -> lent R held m c s b off len c' m' -> lent R held m0 c s b off len c' m'.
Proof.
  intros Hun (m1 & blk & n & H1 & H2 & H3). exists m1, blk, n. split; [done|]. split; [by eapply unchanged_trans|done].
Qed.

(** A stream that holds no block: [Next] lends one, unless there is no memory. *)
Lemma wp_output_Next m R held c s st (Q : option (Z * Z * Z) * output_stream * cord_buf -> mem -> Prop) :
  holds m R held c s -> zlen s + 1 < 2 ^ 30 -> _block_size st = 0 -> _cur_block st = 0 ->
  (forall m', holds m' R held c s -> unchanged R m m' -> Q (None, st, c) m') ->
  (forall b off len n c' m', lent R held m c s b off len c' m' -> 0 < len < 2 ^ 30 ->
     Q (Some (b, off, len), mk_output 0 b n, c') m') ->
  wp (output_Next st c) m Q.
Proof.
  intros Hh Hlt Ebs Ecb HQ1 HQ2. unfold output_Next. rewrite Ecb. cbn [Z.eqb]. apply wp_bind, wp_ret.
  apply wp_bind. unfold _release_block. rewrite Ebs, Ecb. cbn [Z.ltb Z.compare with_cur_block _block_size _cur_block release_tls_block Z.eqb].
  apply wp_bind, wp_bind, wp_ret, wp_ret. cbn [with_cur_block _block_size]. rewrite Ebs. cbn [Z.ltb Z.compare]. apply wp_bind.
  destruct (acquire_tls_block_spec m (ref_list c ++ R) held ltac:(apply Hh)) as (m1 & b & E & Hun & Hcase). exists b, m1. split; [done|].
  apply wp_ret. cbn [with_cur_block _block_size _cur_block]. destruct Hcase as [(-> & Hm1)|(Hpos & Hm1 & blk & Hblk & Hroom)];
    destruct (holds_unchanged _ _ _ _ _ _ _ Hh Hm1 Hun) as [Hh1 HunR].
  { apply wp_ret. destruct st as [bs cb n]. cbn [_block_size _cur_block _out_count with_cur_block] in *. subst bs cb. by apply HQ1. }
  rewrite (proj2 (Z.eqb_neq b 0)) by lia. apply wp_bind. eapply wp_get_block; [exact Hblk|]. cbn zeta.
  assert (Hls : 0 < left_space blk < 2 ^ 30).
  { destruct Hm1 as (l & _ & _ & [H1 _ _ _ _]). destruct (H1 b blk Hblk) as (_ & ? & ? & _). unfold left_space. lia. }
  rewrite u32_small by lia. cbn [offset r_length]. eapply (wp_lend m1 R held c s b blk); [done..|]. intros c' m' Hl.
  apply wp_ret. rewrite s32_small by lia. unfold with_count, with_cur_block. cbn [_block_size _cur_block _out_count]. rewrite Ebs. apply HQ2; [by eapply lent_trans|lia].
Qed.

(** ** [BackUp] *)

(** The state in which [BackUp] is called: the user of the stream has left [d] in
    the block, with [t] written to the place that was lent. *)
Section back_up.
Context (R : list BlockRef) (held : list Z) (c : cord_buf) (s : list Z) (b off len : Z) (c' : cord_buf) (m' : mem).
Context (m1 : mem) (blk : Block) (n : Z) (t d : list Z).
Hypothesis (Hh : holds m1 R (b :: held) c s) (Hblk : blocks m1 !! b = Some blk).
Hypothesis (Hoff : b_size blk = off) (Hcap : cap blk = off + len) (Hlen : 0 < len).
Hypothesis (Hw' : buf_wf c') (El : ref_list c' = snoc_merge (ref_list c) (mk_ref off len b)).
Hypothesis (Hm' : mem_ok m' (ref_list c' ++ R) (b :: held)) (Hblk' : blocks m' !! b = Some (set_nshared n (set_size (cap blk) blk))).
Hypothesis (Hun : unchanged (ref_list c ++ R) m1 m').
Hypothesis (Hd : zlen d = zlen (data blk)) (Et : ztake (off + zlen t) d = ztake off (data blk) ++ t) (Ht : zlen t <= len).

Let blk2 : Block := set_data d (set_nshared n (set_size (cap blk) blk)).
Let m2 : mem := with_blocks (<[b := blk2]>) m'.

Lemma block_bounds : 0 <= off /\ off + len < 2 ^ 30 /\ zlen (data blk) = off + len /\ 0 < b.
Proof using All.
  destruct Hh as ((l & _ & _ & [H1 _ _ _ _]) & _). destruct (H1 b blk Hblk) as (? & ? & ? & ? & _). lia.
Qed.

(** The references there were before end where the place starts. *)
Lemma old_refs : Forall (fun r => ref_ok m1 r /\ (block r = b -> offset r + r_length r <= off)) (ref_list c ++ R).
Proof using All.
  destruct Hh as (Hm & _). apply mem_ok_refs in Hm. eapply Forall_impl; [exact Hm|]. intros r Hr. split; [done|]. intros E.
  destruct Hr as (b0 & Hb0 & _ & _ & ?). rewrite E in Hb0. assert (b0 = blk) as -> by congruence. lia.
Qed.

Lemma old_unchanged : unchanged (ref_list c ++ R) m1 m2.
Proof using All.
  pose proof block_bounds. pose proof (zlen_nonneg t). pose proof old_refs as Ho. unfold unchanged in *. rewrite Forall_forall in *. intros r Hin.
  destruct (Ho r Hin) as [(b0 & Hb0 & Hr1 & Hr2 & Hr3) He]. unfold slice. rewrite Hb0. simpl. destruct (decide (block r = b)) as [Eb|Hne].
  - rewrite Eb, lookup_insert, decide_True by done. rewrite Eb in Hb0. assert (b0 = blk) as -> by congruence. specialize (He Eb). simpl.
    assert (E : forall x : list Z, ztake (r_length r) (zdrop (offset r) x) = zdrop (offset r) (ztake (offset r + r_length r) (ztake off x))).
    { intros x. rewrite ztake_ztake by lia. rewrite zdrop_ztake by lia. f_equal. lia. }
    rewrite !E. do 2 f_equal. rewrite <- (ztake_ztake off (off + zlen t) d), Et by lia.
    rewrite ztake_app_exact; [done|]. rewrite zlen_ztake; lia.
  - rewrite lookup_insert_ne by done. specialize (Hun r Hin). simpl in Hun. unfold slice in Hun. by rewrite Hb0 in Hun.
Qed.

Lemma mem_ok_written : mem_ok m2 (ref_list c' ++ R) (b :: held).
Proof using All.
  pose proof block_bounds. eapply mem_ok_update; [exact Hm'|exact Hblk'|done|done|done|exact Hd|simpl; lia|].
  apply mem_ok_refs in Hm'. eapply Forall_impl; [exact Hm'|]. intros r (b0 & Hb0 & _ & _ & ?) E. rewrite E in Hb0. simpl.
  assert (b0 = set_nshared n (set_size (cap blk) blk)) as -> by congruence. done.
Qed.

Lemma back_shape : exists rs o k, ref_list c' = rs ++ [mk_ref o k b] /\ o + k = off + len /\ 0 <= o /\
  (k = len /\ rs = ref_list c \/ len < k /\ ref_list c = rs ++ [mk_ref o (k - len) b]).
Proof using All.
  pose proof block_bounds. rewrite El. destruct Hh as (_ & (Hs & _) & _).
  destruct (snoc_merge_back (ref_list c) (mk_ref off len b) Hs) as (rs & o & k & Hshape); [split_and!; simpl; lia|]. by exists rs, o, k.
Qed.

Lemma back_old rs o k : ref_list c' = rs ++ [mk_ref o k b] ->
  (k = len /\ rs = ref_list c \/ len < k /\ ref_list c = rs ++ [mk_ref o (k - len) b]) -> Forall (fun r => r ∈ ref_list c ++ R) (rs ++ R).
Proof using.
  intros _ Hk. apply Forall_forall. intros r Hr. apply elem_of_app in Hr as [Hr|Hr]; apply elem_of_app; [left|by right].
  destruct Hk as [[_ <-]|[_ ->]]; [done|]. apply elem_of_app. by left.
Qed.

Lemma place_bytes : ztake (zlen t) (zdrop off d) = t.
Proof using All.
  pose proof block_bounds. pose proof (zlen_nonneg t). replace (zlen t) with (off + zlen t - off) at 1 by lia. rewrite <- zdrop_ztake, Et by lia.
  apply zdrop_app_exact. rewrite zlen_ztake; lia.
Qed.

(** The bytes of the buffer once it ends behind [t]. *)
Lemma written_bytes rs o k : o + k = off + len -> 0 <= o ->
  (k = len /\ rs = ref_list c \/ len < k /\ ref_list c = rs ++ [mk_ref o (k - len) b]) ->
  bytes m2 (rs ++ [mk_ref o (k - (len - zlen t)) b]) = s ++ t.
Proof using All.
  intros Hok Ho Hk. pose proof block_bounds. pose proof (zlen_nonneg t). pose proof old_unchanged as Hold. apply unchanged_app in Hold as [Hold _].
  assert (Es : bytes m2 (ref_list c) = s) by (rewrite (unchanged_bytes _ m1) by done; apply Hh).
  assert (Hsl : forall o k, slice m2 (mk_ref o k b) = ztake k (zdrop o d)).
  { intros o0 k0. unfold slice, m2. simpl. by rewrite lookup_insert, decide_True by done. }
  rewrite bytes_app, bytes_one, Hsl. destruct Hk as [[-> ->]|[Hlt Hc]].
  - rewrite Es. f_equal. replace (len - (len - zlen t)) with (zlen t) by lia. assert (o = off) as -> by lia. apply place_bytes.
  - rewrite Hc, bytes_app, bytes_one, Hsl in Es. replace (k - (len - zlen t)) with (k - len + zlen t) by lia.
    rewrite ztake_add, zdrop_zdrop by lia. replace (o + (k - len)) with off by lia. by rewrite place_bytes, app_assoc, Es.
Qed.

Let shrunk_block (size : Z) : mem := with_blocks (<[b := set_size size blk2]>) m'.

Lemma shrink_block_eq n0 : shrink_block b n0 m2 = Ok (tt, shrunk_block (u32 (off + len - n0))).
Proof using All.
  unfold shrink_block, mbind, M_bind, get_block, set_block, m2. simpl. rewrite lookup_insert, decide_True by done. simpl.
  unfold shrunk_block, with_blocks. by rewrite insert_insert, decide_True, Hcap by done.
Qed.

(** The block ends where the last reference does. *)
Lemma shrunk_holds refs nsh size m3 held' :
  m3 = with_blocks (<[b := set_nshared nsh blk2]>) m' -> mem_ok m3 (refs ++ R) held' ->
  off <= size <= off + len -> Forall (fun r => block r = b -> offset r + r_length r <= size) refs ->
  mem_ok (with_blocks (<[b := set_size size (set_nshared nsh blk2)]>) m') (refs ++ R) held'.
Proof using All.
  intros -> Hm Hs Hr. pose proof block_bounds. eapply (mem_ok_update _ _ _ b (set_nshared nsh blk2)) in Hm; [|by simpl; rewrite lookup_insert, decide_True|..].
  - unfold with_blocks in *. simpl in Hm. rewrite insert_insert, decide_True in Hm by done. exact Hm.
  - done.
  - done.
  - done.
  - done.
  - simpl. lia.
  - apply Forall_app. split; [done|]. pose proof old_refs as Ho. apply Forall_app in Ho as [_ Ho]. eapply Forall_impl; [exact Ho|].
    intros r [_ He] Eb. specialize (He Eb). simpl. lia.
Qed.

Lemma slice_shrunk size nsh r : slice (with_blocks (<[b := set_size size (set_nshared nsh blk2)]>) m') r = slice m2 r.
Proof using.
  unfold slice, m2. simpl. destruct (decide (block r = b)) as [->|Hne]; [by rewrite !lookup_insert, !decide_True by done|].
  by rewrite !lookup_insert_ne by done.
Qed.

Lemma wp_return_block size nsh c'' (Q : unit -> mem -> Prop) :
  let m3 := with_blocks (<[b := set_size size (set_nshared nsh blk2)]>) m' in
  mem_ok m3 (ref_list c'' ++ R) (b :: held) -> buf_wf c'' -> bytes m2 (ref_list c'') = s ++ t ->
  (forall m4, holds m4 R held c'' (s ++ t) -> unchanged R m1 m4 -> Q tt m4) -> wp (release_tls_block b) m3 Q.
Proof using All.
  intros m3 Hm Hw Es HQ. destruct (release_tls_block_spec m3 (ref_list c'' ++ R) held b Hm) as (m4 & E & Hm4 & Hun4). exists tt, m4. split; [done|].
  assert (Hh3 : holds m3 R (b :: held) c'' (s ++ t)).
  { split_and!; [done..|]. rewrite <- Es. unfold bytes. f_equal. apply map_ext. intros r. apply slice_shrunk. }
  destruct (holds_unchanged _ _ _ _ _ _ _ Hh3 Hm4 Hun4) as [Hh4 HunR]. apply HQ; [done|].
  pose proof old_unchanged as Hold. apply unchanged_app in Hold as [_ Hold]. eapply unchanged_trans; [exact Hold|].
  eapply unchanged_trans; [|exact HunR]. apply Forall_forall. intros r _. apply slice_shrunk.
Qed.

Lemma find_block_lent count cnt rs o k :
  ref_list c' = rs ++ [mk_ref o k b] -> o + k = off + len -> find_block count (mk_output 0 b cnt) c' m2 = Ok (Continue (mk_output 0 b cnt), m2).
Proof using All.
  intros Er Hok. pose proof block_bounds. unfold find_block. rewrite (back_spec c' _ rs Hw' Er). cbn [_cur_block block].
  rewrite (proj2 (Z.eqb_neq b 0)), Z.eqb_refl by lia. unfold mbind, M_bind, get_block, m2. simpl. rewrite lookup_insert, decide_True by done.
  unfold at_end. simpl. rewrite u32_small by lia. by rewrite Hcap, Hok, Z.eqb_refl.
Qed.

(** The last reference loses its end. *)
Lemma shrink_last rs o k count : ref_list c' = rs ++ [mk_ref o k b] -> o + k = off + len -> 0 <= o ->
  (k = len /\ rs = ref_list c \/ len < k /\ ref_list c = rs ++ [mk_ref o (k - len) b]) -> 0 <= count <= len -> count < k ->
  buf_wf (shrink_back count c') /\ ref_list (shrink_back count c') = rs ++ [mk_ref o (k - count) b] /\
  mem_ok (shrunk_block (off + len - count)) (ref_list (shrink_back count c') ++ R) (b :: held).
Proof using All.
  intros Er Hok Ho Hk Hc Hlt. pose proof block_bounds. destruct (shrink_spec count c' _ rs Hw' Er ltac:(simpl; lia)) as [Hw2 El2].
  unfold shrunk in El2. cbn [offset r_length block] in El2. split_and!; [done..|]. rewrite El2.
  apply (shrunk_holds _ n _ m2); [done| |lia|].
  - pose proof mem_ok_written as Hm. rewrite Er in Hm. pose proof (mem_ok_refs _ _ _ Hm) as Hrs. rewrite <- app_assoc in Hrs.
    apply Forall_app in Hrs as [_ Hrs]. apply Forall_cons_1 in Hrs as [Hr _].
    apply (mem_ok_perm _ (mk_ref o (k - count) b :: rs ++ R) _ (b :: held) (b :: held)); [solve_Permutation|done|].
    apply (mem_ok_same_block m2 (mk_ref o k b)); [|apply (take_ok m2 (mk_ref o k b)); [done|simpl; lia]|done].
    eapply mem_ok_perm; [|reflexivity|exact Hm]. solve_Permutation.
  - apply Forall_app. split; [|apply Forall_cons_2; [simpl; lia|done]].
    pose proof (back_old rs o k Er Hk) as Hold. apply Forall_app in Hold as [Hold _]. pose proof old_refs as Hor. rewrite Forall_forall in *.
    intros r Hr Eb. destruct (Hor r (Hold r Hr)) as [_ He]. specialize (He Eb). lia.
Qed.

(** The last reference is dropped. *)
Lemma pop_last : ref_list c' = ref_list c ++ [mk_ref off len b] ->
  exists c'' nsh, let m3 := with_blocks (<[b := set_size off (set_nshared nsh blk2)]>) m' in
    _pop_back_ref c' (shrunk_block off) = Ok ((0, c''), m3) /\ buf_wf c'' /\ ref_list c'' = ref_list c /\ mem_ok m3 (ref_list c'' ++ R) (b :: held).
Proof using All.
  intros Er. pose proof block_bounds. destruct (pop_back_spec c' _ _ Hw' Er) as (c'' & [Hw2 El2] & Hpop). exists c'', (n - 1). cbv zeta. rewrite Hpop.
  pose proof mem_ok_written as Hm. assert (Hn : 1 < n).
  { apply (nshared_two m2 (ref_list c' ++ R) held b blk2 (mk_ref off len b)); [done|by simpl; rewrite lookup_insert, decide_True|rewrite Er, <- app_assoc|done].
    apply elem_of_app. right. by left. }
  assert (E1 : dec_ref b (shrunk_block off) = Ok (tt, with_blocks (<[b := set_size off (set_nshared (n - 1) blk2)]>) m')).
  { unfold dec_ref, mbind, M_bind, get_block, set_block, shrunk_block. simpl. rewrite lookup_insert, decide_True by done. cbn [set_size nshared blk2 set_data set_nshared].
    rewrite (proj2 (Z.eqb_neq n 1)) by lia. simpl. by rewrite insert_insert, decide_True by done. }
  assert (E2 : dec_ref b m2 = Ok (tt, with_blocks (<[b := set_nshared (n - 1) blk2]>) m')).
  { unfold dec_ref, mbind, M_bind, get_block, set_block, m2. simpl. rewrite lookup_insert, decide_True by done. cbn [nshared blk2 set_data set_nshared].
    rewrite (proj2 (Z.eqb_neq n 1)) by lia. simpl. by rewrite insert_insert, decide_True by done. }
  split_and!; [|done|done|].
  - unfold mbind, M_bind. cbn [block]. by rewrite E1.
  - rewrite El2. apply (shrunk_holds _ (n - 1) _ (with_blocks (<[b := set_nshared (n - 1) blk2]>) m')); [done| |lia|].
    + assert (wp (dec_ref (block (mk_ref off len b))) m2 (fun _ m4 => mem_ok m4 (ref_list c ++ R) (b :: held))) as ([] & m4 & E & Hm4).
      { eapply (wp_dec_ref m2 (ref_list c ++ R) (b :: held)); [|done]. rewrite Er in Hm. eapply mem_ok_perm; [|reflexivity|exact Hm]. solve_Permutation. }
      cbn [block] in E. rewrite E2 in E. by injection E as <-.
    + pose proof old_refs as Hor. apply Forall_app in Hor as [Hor _]. eapply Forall_impl; [exact Hor|]. by intros r [_ ?].
Qed.

(** [BackUp] of what was not written: the buffer has [t] at its end. *)
Lemma wp_output_BackUp cnt (Q : output_stream * cord_buf -> mem -> Prop) :
  (forall cnt' c'' m'', holds m'' R held c'' (s ++ t) -> unchanged R m1 m'' -> Q (mk_output 0 0 cnt', c'') m'') ->
  wp (output_BackUp (len - zlen t) (mk_output 0 b cnt) c') m2 Q.
Proof using All.
  intros HQ. pose proof block_bounds. pose proof (zlen_nonneg t). destruct back_shape as (rs & o & k & Er & Hok & Ho & Hk).
  unfold output_BackUp. rewrite nrefs_spec, Er, length_app, Nat.add_comm by done. cbn [Datatypes.length Nat.add back_up_loop].
  rewrite empty_spec, Er by done. assert (Hne : match rs ++ [mk_ref o k b] with [] => true | _ => false end = false) by by destruct rs.
  rewrite Hne. cbv zeta. apply wp_bind. eexists _, _. split; [by eapply find_block_lent|]. rewrite (back_spec c' _ rs Hw' Er). cbn [r_length].
  rewrite u32_small by lia. destruct (Z.ltb_spec (len - zlen t) k) as [Hlt|Hge].
  - destruct (shrink_last rs o k (len - zlen t) Er Hok Ho Hk ltac:(lia) Hlt) as (Hw2 & El2 & Hm2).
    apply wp_bind. eexists _, _. split; [apply shrink_block_eq|]. rewrite u32_small by lia. cbn [with_count _block_size _cur_block with_cur_block].
    rewrite Z.eqb_refl. apply wp_bind. eapply (wp_return_block _ n (shrink_back (len - zlen t) c')); [done|done|rewrite El2; by apply written_bytes|].
    intros m4 Hh4 Hun4. apply wp_ret. by apply HQ.
  - assert (k = len /\ rs = ref_list c) as [-> ->] by (destruct Hk as [?|[? _]]; [done|lia]). assert (o = off) as -> by lia.
    assert (t = []) as Et0 by (destruct t; [done|rewrite zlen_cons in *; pose proof (zlen_nonneg l); lia]).
    destruct (pop_last Er) as (c'' & nsh & Epop & Hw2 & El2 & Hm2). apply wp_bind. eexists _, _. split; [apply shrink_block_eq|].
    rewrite u32_small by lia. replace (off + len - len) with off by lia. apply wp_bind. eexists _, _. split; [exact Epop|].
    apply wp_bind. unfold _release_block. cbn [with_count _block_size _cur_block]. apply wp_bind.
    eapply (wp_return_block off nsh c''); [done|done| |].
    { rewrite El2, Et0, app_nil_r. pose proof old_unchanged as Hold. apply unchanged_app in Hold as [Hold _]. rewrite (unchanged_bytes _ m1) by done. apply Hh. }
    intros m4 Hh4 Hun4. apply wp_ret. replace (len - zlen t - len) with 0 by (rewrite Et0, (@zlen_nil Z); lia). apply wp_ret. by apply HQ.
Qed.
End back_up.

Lemma lent_block R held m0 c s b off len c' m' : lent R held m0 c s b off len c' m' ->
  exists blk, blocks m' !! b = Some blk /\ zlen (data blk) = off + len /\ 0 <= off.
Proof.
  intros (m1 & blk & n & Hh & _ & Hblk & <- & Hcap & Hlen & _ & _ & _ & Hblk' & _). eexists. split; [exact Hblk'|]. simpl.
  destruct Hh as ((l & _ & _ & [H1 _ _ _ _]) & _). destruct (H1 b blk Hblk) as (? & ? & ? & ? & _). lia.
Qed.

(** [Next], [t] written to the place, [BackUp] of the rest. *)
Lemma wp_lent_BackUp R held m0 c s b off len c' m' blk t d cnt (Q : output_stream * cord_buf -> mem -> Prop) :
  lent R held m0 c s b off len c' m' -> blocks m' !! b = Some blk ->
  zlen d = zlen (data blk) -> ztake (off + zlen t) d = ztake off (data blk) ++ t -> zlen t <= len ->
  (forall cnt' c'' m'', holds m'' R held c'' (s ++ t) -> unchanged R m0 m'' -> Q (mk_output 0 0 cnt', c'') m'') ->
  wp (output_BackUp (len - zlen t) (mk_output 0 b cnt) c') (with_blocks (<[b := set_data d blk]>) m') Q.
Proof.
  intros (m1 & blk1 & n & Hh & Hun0 & Hblk & Hoff & Hcap & Hlen & Hw & El & Hm & Hblk' & Hun) Hb Hd Et Ht HQ.
  assert (blk = set_nshared n (set_size (cap blk1) blk1)) as -> by congruence.
  eapply (wp_output_BackUp R held c s b off len c' m' m1 blk1 n t d); try done.
  intros cnt' c'' m'' Hh'' Hun''. apply HQ; [done|]. by eapply unchanged_trans.
Qed.
