(* ===== verification/SnappyFormat.v ===== *)
(** * The Snappy format

    The reference against which compressor and decompressor are verified: a
    stream is a length followed by elements, each a literal or a copy of bytes
    that were produced before ([flare/io/snappy/format_description.txt]). *)

From S2P Require Import Prelude Bits Buffers.
Local Open Scope Z_scope.

Inductive element :=
| Literal (s : list Z)
| Copy (offset len : Z).

(** [n] bytes and the rest. *)
Definition split_at (n : Z) (s : list Z) : option (list Z * list Z) :=
  if n <=? zlen s then Some (ztake n s, zdrop n s) else None.

(** [len] bytes, each the one [offset] before it: the copy may run into what it
    produces. *)
Fixpoint self_copy (offset : Z) (len : nat) (out : list Z) : list Z :=
  match len with
  | O => out
  | S len => self_copy offset len (out ++ [default 0 (zget out (zlen out - offset))])
  end.

Definition produce (e : element) (out : list Z) : option (list Z) :=
  match e with
  | Literal s => Some (out ++ s)
  | Copy offset len => if (1 <=? offset) && (offset <=? zlen out) then Some (self_copy offset (Z.to_nat len) out) else None
  end.

Section elements.
(** What a decoder makes of the length of a literal: the description takes it as
    it is ([id]), the decompressor of the code keeps 32 bits ([u32]). *)
Variable width : Z -> Z.

(** The element at the front of a stream, by the two low bits of its tag.  A
    literal stores its length less one: in the tag, or in one to four bytes
    behind it. *)
Definition next_element (s : list Z) : option (element * list Z) :=
  match s with
  | [] => None
  | c :: s =>
      let n := c / 4 in
      if c `mod` 4 =? 0 then
        '(k, s) ← (if n <? 60 then Some (n, s) else '(l, s) ← split_at (n - 59) s; Some (le_word l, s));
        '(l, s) ← split_at (width (k + 1)) s; Some (Literal l, s)
      else if c `mod` 4 =? 1 then '(o, s) ← split_at 1 s; Some (Copy (c / 32 * 256 + le_word o) (4 + n `mod` 8), s)
      else if c `mod` 4 =? 2 then '(o, s) ← split_at 2 s; Some (Copy (le_word o) (n + 1), s)
      else '(o, s) ← split_at 4 s; Some (Copy (le_word o) (n + 1), s)
  end.

Fixpoint run_elements (fuel : nat) (out s : list Z) : option (list Z) :=
  match s, fuel with
  | [], _ => Some out
  | _, O => None
  | _, S fuel => '(e, s) ← next_element s; out ← produce e out; run_elements fuel out s
  end.

(** What the elements of a stream add to the bytes [out]. *)
Definition elements (out s : list Z) : option (list Z) := run_elements (length s) out s.
End elements.

(** "Varints consist of a series of bytes, where the lower 7 bits are data and
    the upper bit is set iff there are more bytes to be read", little-endian. *)
Fixpoint varint (n : nat) (s : list Z) : option (Z * list Z) :=
  match n, s with
  | S n, c :: s => if c <? 128 then Some (c, s) else '(v, r) ← varint n s; Some (c `mod` 128 + 128 * v, r)
  | _, _ => None
  end.

(** The data of a valid stream: "the uncompressed length (up to a maximum of
    2^32 - 1), stored as a little-endian varint", for which five bytes are
    enough, and elements that produce as many bytes. *)
Definition snappy_decode (s : list Z) : option (list Z) :=
  '(len, r) ← varint 5 s;
  if 2 ^ 32 <=? len then None else out ← elements id [] r; if zlen out =? len then Some out else None.

(** ** The reference does not depend on its fuel *)

Lemma split_at_spec n s a b : split_at n s = Some (a, b) -> n <= zlen s /\ a = ztake n s /\ b = zdrop n s.
Proof. unfold split_at. case_if; [|done]. zbool. by intros [= <- <-]. Qed.

Lemma split_at_app n a b : zlen a = n -> split_at n (a ++ b) = Some (a, b).
Proof.
  intros H. unfold split_at. rewrite (proj2 (Z.leb_le _ _)) by (rewrite zlen_app; pose proof (zlen_nonneg b); lia).
  by rewrite ztake_app_exact, zdrop_app_exact.
Qed.

Lemma zdrop_length n (s : list Z) : (length (zdrop n s) <= length s)%nat.
Proof. unfold zdrop. rewrite length_drop. lia. Qed.

Lemma next_element_shorter width s e r : next_element width s = Some (e, r) -> (length r < length s)%nat.
Proof.
  assert (H : forall n s a b, split_at n s = Some (a, b) -> (length b <= length s)%nat).
  { intros n t a b (_ & _ & ->)%split_at_spec. apply zdrop_length. }
  destruct s as [|c s]; [done|]. cbn [next_element length]. intros E. cut ((length r <= length s)%nat); [lia|].
  repeat case_if_in E; repeat match type of E with
  | (split_at ?n ?s ≫= _) = _ => destruct (split_at n s) as [[? ?]|] eqn:Es; [|done]; apply H in Es; cbn [mbind option_bind] in E
  | (Some _ ≫= _) = _ => cbn [mbind option_bind] in E
  | ((?m ≫= _) ≫= _) = _ => destruct m as [[? ?]|] eqn:Em; [|done]; apply H in Em; cbn [mbind option_bind] in E
  end; injection E as <- <-; lia.
Qed.

Lemma run_elements_fuel width n : forall k out s, (length s <= n)%nat -> (length s <= k)%nat -> run_elements width n out s = run_elements width k out s.
Proof.
  induction n as [|n IH]; intros [|k] out [|c s] Hn Hk; cbn [length] in *; try done; try lia.
  cbn [run_elements]. destruct (next_element width (c :: s)) as [[e r]|] eqn:E; [|done].
  apply next_element_shorter in E. cbn [length mbind option_bind] in *. destruct (produce e out); [|done].
  cbn [mbind option_bind]. apply IH; lia.
Qed.

Lemma elements_nil width out : elements width out [] = Some out.
Proof. done. Qed.

Lemma elements_step width out s e r :
  next_element width s = Some (e, r) -> elements width out s = match produce e out with Some out => elements width out r | None => None end.
Proof.
  intros E. pose proof (next_element_shorter width s e r E) as Hl. destruct s as [|c s]; [done|]. unfold elements. cbn [length run_elements].
  rewrite E. cbn [mbind option_bind length] in *. destruct (produce e out); [|done]. cbn [mbind option_bind]. apply run_elements_fuel; lia.
Qed.

Lemma elements_stop width out s : s <> [] -> next_element width s = None -> elements width out s = None.
Proof. destruct s as [|c s]; [done|]. intros _ E. unfold elements. cbn [length run_elements]. by rewrite E. Qed.

(** ** Copies *)

Lemma self_copy_length o n : forall out, length (self_copy o n out) = (length out + n)%nat.
Proof. induction n as [|n IH]; intros out; cbn [self_copy]; [lia|]. rewrite IH, length_app. cbn. lia. Qed.

Lemma zlen_self_copy o n out : zlen (self_copy o n out) = zlen out + Z.of_nat n.
Proof. unfold zlen. rewrite self_copy_length. lia. Qed.

(** The produced bytes only grow. *)
Lemma self_copy_prefix o n : forall out, exists t, self_copy o n out = out ++ t.
Proof.
  induction n as [|n IH]; intros out; cbn [self_copy]; [exists []; by rewrite app_nil_r|].
  destruct (IH (out ++ [default 0 (zget out (zlen out - o))])) as [t ->]. rewrite <- app_assoc. by eexists.
Qed.

Lemma produce_prefix e out out' : produce e out = Some out' -> exists t, out' = out ++ t.
Proof.
  destruct e as [s|o n]; cbn [produce].
  - intros [= <-]. by exists s.
  - case_if; [|done]. intros [= <-]. apply self_copy_prefix.
Qed.

Lemma run_elements_prefix width n : forall out s out', run_elements width n out s = Some out' -> exists t, out' = out ++ t.
Proof.
  induction n as [|n IH]; intros out [|c s] out'; cbn [run_elements].
  - intros [= <-]. exists []. by rewrite app_nil_r.
  - done.
  - intros [= <-]. exists []. by rewrite app_nil_r.
  - destruct (next_element width (c :: s)) as [[e r]|]; [|done]. cbn [mbind option_bind]. destruct (produce e out) as [o|] eqn:E; [|done].
    cbn [mbind option_bind]. intros [t ->]%IH. destruct (produce_prefix _ _ _ E) as [u ->]. exists (u ++ t). by rewrite app_assoc.
Qed.

Lemma elements_grow width out s out' : elements width out s = Some out' -> zlen out <= zlen out'.
Proof. intros [t ->]%run_elements_prefix. rewrite zlen_app. pose proof (zlen_nonneg t). lia. Qed.

(** A buffer whose bytes repeat those [o] before them holds the copy. *)
Lemma self_copy_repeats o n : forall out m,
  1 <= o <= zlen out -> ztake (zlen out) m = out -> zlen out + Z.of_nat n <= zlen m ->
  (forall i, zlen out <= i < zlen out + Z.of_nat n -> zget m i = zget m (i - o)) ->
  ztake (zlen out + Z.of_nat n) m = self_copy o n out.
Proof.
  induction n as [|n IH]; intros out m Ho Hm Hl Hrep; cbn [self_copy].
  - by rewrite Z.add_0_r.
  - set (b := default 0 (zget out (zlen out - o))).
    assert (Hget : zget m (zlen out) = Some b).
    { rewrite Hrep by lia. rewrite <- (zget_ztake m (zlen out)) by lia. rewrite Hm. subst b.
      by destruct (zget_lt out (zlen out - o) ltac:(lia)) as [x ->]. }
    rewrite <- IH with (m := m).
    + rewrite zlen_app. f_equal. unfold zlen. cbn. lia.
    + rewrite zlen_app. unfold zlen in *. cbn. lia.
    + rewrite zlen_app, ztake_part by (pose proof (zlen_nonneg out); unfold zlen; cbn; lia). rewrite Hm. f_equal.
      apply zget_eq.
      * rewrite zlen_part; unfold zlen in *; cbn; lia.
      * intros i Hi. assert (i = 0) as ->.
        { rewrite zlen_part in Hi; unfold zlen in *; cbn in Hi |- *; lia. }
        rewrite zget_part by (unfold zlen; cbn; lia). by rewrite Z.add_0_r.
    + rewrite zlen_app. unfold zlen in *. cbn. lia.
    + rewrite zlen_app. intros i Hi. apply Hrep. unfold zlen in *. cbn in Hi. lia.
Qed.

Lemma self_copy_app o n p : forall x, 1 <= o <= zlen x -> self_copy o n (p ++ x) = p ++ self_copy o n x.
Proof.
  induction n as [|n IH]; intros x Ho; [done|]. cbn [self_copy]. rewrite zlen_app.
  rewrite zget_app_r by lia. replace (zlen p + zlen x - o - zlen p) with (zlen x - o) by lia. rewrite <- app_assoc. apply IH. rewrite zlen_app. change (zlen [_]) with 1. lia.
Qed.

Lemma self_copy_bytes o n : forall x, bytes_ok x -> bytes_ok (self_copy o n x).
Proof.
  induction n as [|n IH]; intros x Hx; [done|]. cbn [self_copy]. apply IH. apply Forall_app. split; [done|]. apply Forall_singleton.
  destruct (zget x (zlen x - o)) as [b|] eqn:E; [|done]. unfold zget in E. case_if_in E; [done|]. by eapply Forall_lookup_1.
Qed.

Lemma self_copy_add o a b : forall x, self_copy o (a + b) x = self_copy o b (self_copy o a x).
Proof. induction a as [|a IH]; intros x; [done|]. cbn [Nat.add self_copy]. apply IH. Qed.
