(* ===== verification/SnappyStubs.v ===== *)
(** * [flare/io/snappy/snappy-stubs-internal.h]

    Loads and copies of words, the logarithm and the lowest set bit, and the
    variable-length integers at the front of a compressed stream. *)

From S2P Require Import Prelude Bits Buffers.
Local Open Scope Z_scope.

(** ** Words in memory, little endian *)

Definition UNALIGNED_LOAD32 (m : list Z) (p : Z) : outcome Z := s ← mread m p 4; mret (le_word s).
Definition UNALIGNED_LOAD64 (m : list Z) (p : Z) : outcome Z := s ← mread m p 8; mret (le_word s).

(** [LittleEndian::Store16]: the two bytes of the value. *)
Definition Store16 (p v : Z) (m : list Z) : outcome (list Z) := mwrite p [u8 v; u8 (Z.shiftr v 8)] m.

(** [UnalignedCopy64]: eight bytes are loaded before any of them is stored. *)
Definition UnalignedCopy64 (src : list Z) (p : Z) (q : Z) (dst : list Z) : outcome (list Z) :=
  s ← mread src p 8; mwrite q s dst.

(** ** [Bits], the portable versions *)

Definition log2_turn (s : Z * Z) (i : Z) : Z * Z :=
  let '(value, log) := s in
  let shift := Z.shiftl 1 i in
  let x := Z.shiftr value shift in
  if x =? 0 then (value, log) else (x, log + shift).

Definition Log2Floor (n : Z) : outcome Z :=
  if n =? 0 then Ok (-1)
  else let '(value, log) := foldl log2_turn (n, 0) [4; 3; 2; 1; 0] in
       if value =? 1 then Ok log else Abort.

Definition lsb_turn (s : Z * Z * Z) (_ : Z) : Z * Z * Z :=
  let '(n, rc, shift) := s in
  let x := u32 (Z.shiftl n shift) in
  if x =? 0 then (n, rc, Z.shiftr shift 1) else (x, rc - shift, Z.shiftr shift 1).

Definition FindLSBSetNonZero (n : Z) : Z :=
  let '(_, rc, _) := foldl lsb_turn (n, 31, Z.shiftl 1 4) [4; 3; 2; 1; 0] in rc.

Definition FindLSBSetNonZero64 (n : Z) : Z :=
  let bottombits := u32 n in
  if bottombits =? 0 then 32 + FindLSBSetNonZero (u32 (Z.shiftr n 32)) else FindLSBSetNonZero bottombits.

(** ** [Varint] *)

Definition kMax32 : Z := 5.

(** The value and the bytes after it. *)
Definition Parse32WithLimit (s : list Z) : option (Z * list Z) :=
  match s with
  | [] => None
  | b :: s =>
      let result := Z.land b 127 in
      if b <? 128 then Some (result, s) else
      match s with
      | [] => None
      | b :: s =>
          let result := Z.lor result (Z.shiftl (Z.land b 127) 7) in
          if b <? 128 then Some (result, s) else
          match s with
          | [] => None
          | b :: s =>
              let result := Z.lor result (Z.shiftl (Z.land b 127) 14) in
              if b <? 128 then Some (result, s) else
              match s with
              | [] => None
              | b :: s =>
                  let result := Z.lor result (Z.shiftl (Z.land b 127) 21) in
                  if b <? 128 then Some (result, s) else
                  match s with
                  | [] => None
                  | b :: s =>
                      let result := Z.lor result (u32 (Z.shiftl (Z.land b 127) 28)) in
                      if b <? 16 then Some (result, s) else None
                  end
              end
          end
      end
  end.

(** The bytes written. *)
Definition Encode32 (v : Z) : list Z :=
  let B := 128 in
  if v <? Z.shiftl 1 7 then [u8 v]
  else if v <? Z.shiftl 1 14 then [u8 (Z.lor v B); u8 (Z.shiftr v 7)]
  else if v <? Z.shiftl 1 21 then [u8 (Z.lor v B); u8 (Z.lor (Z.shiftr v 7) B); u8 (Z.shiftr v 14)]
  else if v <? Z.shiftl 1 28 then
    [u8 (Z.lor v B); u8 (Z.lor (Z.shiftr v 7) B); u8 (Z.lor (Z.shiftr v 14) B); u8 (Z.shiftr v 21)]
  else
    [u8 (Z.lor v B); u8 (Z.lor (Z.shiftr v 7) B); u8 (Z.lor (Z.shiftr v 14) B); u8 (Z.lor (Z.shiftr v 21) B); u8 (Z.shiftr v 28)].

(** ** Loads *)

Lemma load32_ok m p : 0 <= p -> p + 4 <= zlen m -> UNALIGNED_LOAD32 m p = Ok (le_word (part p 4 m)).
Proof. intros. unfold UNALIGNED_LOAD32. by rewrite mread_ok by lia. Qed.

Lemma load64_ok m p : 0 <= p -> p + 8 <= zlen m -> UNALIGNED_LOAD64 m p = Ok (le_word (part p 8 m)).
Proof. intros. unfold UNALIGNED_LOAD64. by rewrite mread_ok by lia. Qed.

Lemma copy64_ok src p q dst :
  0 <= p -> p + 8 <= zlen src -> 0 <= q -> q + 8 <= zlen dst ->
  UnalignedCopy64 src p q dst = Ok (splice q (part p 8 src) dst).
Proof.
  intros. unfold UnalignedCopy64. rewrite mread_ok by lia. cbn [mbind outcome_bind]. apply mwrite_ok; [lia|]. rewrite zlen_part; lia.
Qed.

Lemma le_word_inj s : forall t, bytes_ok s -> bytes_ok t -> length s = length t -> le_word s = le_word t -> s = t.
Proof.
  induction s as [|a s IH]; intros [|b t] Hs Ht Hl E; try done.
  apply Forall_cons in Hs as [Ha Hs]. apply Forall_cons in Ht as [Hb Ht]. rewrite !le_word_cons in E by done. unfold byte_ok in *.
  f_equal; [|apply IH; auto]; lia.
Qed.

(** ** The lowest set bit *)

(** [n] is [2 ^ k] times an odd number. *)
Definition lsb (n k : Z) : Prop := 0 <= k /\ exists m, n = m * 2 ^ k /\ Z.odd m = true.

Lemma odd_shifted_zero m j : 0 <= j -> Z.odd m = true -> u32 (m * 2 ^ j) = 0 <-> 31 < j.
Proof.
  intros Hj Hodd. unfold u32. change 4294967296 with (2 ^ 32). split; intros H.
  - destruct (Z.lt_ge_cases 31 j) as [|Hge]; [done|]. replace (2 ^ 32) with (2 ^ j * (2 * 2 ^ (31 - j))) in H.
    + rewrite (Z.mul_comm m), Z.mul_mod_distr_l in H by lia.
      apply Z.mul_eq_0 in H as [H|H]; [pose proof (Z.pow_pos_nonneg 2 j); lia|].
      apply Z.mod_divide in H; [|pose proof (Z.pow_pos_nonneg 2 (31 - j)); lia]. destruct H as [q ->].
      rewrite !Z.odd_mul in Hodd. cbn in Hodd. by rewrite andb_false_r in Hodd.
    + rewrite <- Z.pow_succ_r, <- Z.pow_add_r by lia. f_equal. lia.
  - replace j with ((j - 32) + 32) by lia. rewrite Z.pow_add_r, Z.mul_assoc by lia. apply Z.mod_mul. lia.
Qed.

Lemma lsb_turn_spec n rc shift k i :
  lsb n k -> 0 <= n < 2 ^ 32 -> 0 <= shift -> k <= 31 ->
  lsb_turn (n, rc, shift) i = if k + shift <=? 31 then (u32 (n * 2 ^ shift), rc - shift, Z.shiftr shift 1) else (n, rc, Z.shiftr shift 1).
Proof.
  intros [Hk (m & -> & Hodd)] Hn Hs Hk31. unfold lsb_turn. rewrite Z.shiftl_mul_pow2 by lia.
  assert (E : u32 (m * 2 ^ k * 2 ^ shift) = 0 <-> 31 < k + shift).
  { rewrite <- Z.mul_assoc, <- Z.pow_add_r by lia. by apply odd_shifted_zero; [lia|]. }
  destruct (u32 (m * 2 ^ k * 2 ^ shift) =? 0) eqn:E0; zbool.
  - apply E in E0. by decide_if.
  - destruct (Z.lt_ge_cases 31 (k + shift)) as [H|H]; [by apply E in H|]. by decide_if.
Qed.

Lemma lsb_shift n k shift : lsb n k -> 0 <= shift -> k + shift <= 31 -> lsb (u32 (n * 2 ^ shift)) (k + shift).
Proof.
  intros [Hk (m & -> & Hodd)] Hs Hle. split; [lia|]. exists (m `mod` 2 ^ (32 - (k + shift))). split.
  - unfold u32. replace 4294967296 with (2 ^ (k + shift) * 2 ^ (32 - (k + shift))) by (rewrite <- Z.pow_add_r by lia; by replace (k + shift + (32 - (k + shift))) with 32 by lia).
    rewrite <- Z.mul_assoc, <- (Z.pow_add_r 2 k), (Z.mul_comm m) by lia. rewrite Z.mul_mod_distr_l by lia. lia.
  - rewrite <- Z.bit0_odd, Z.mod_pow2_bits_low, Z.bit0_odd by lia. done.
Qed.

(** The search has moved the bit up by [d] and has shifts below [2 * shift] left. *)
Definition lsb_state (k shift : Z) (s : Z * Z * Z) : Prop :=
  exists n d, s = (n, 31 - d, shift) /\ lsb n (k + d) /\ 0 <= n < 2 ^ 32 /\ k + d <= 31 < k + d + 2 * shift.

Lemma lsb_turn_half k half s i : 0 < half -> lsb_state k (2 * half) s -> lsb_state k half (lsb_turn s i).
Proof.
  intros Hs (n & d & -> & Hl & Hn & Hk). rewrite (lsb_turn_spec n _ _ (k + d)) by (done || lia).
  assert (E : Z.shiftr (2 * half) 1 = half) by (rewrite Z.shiftr_div_pow2 by lia; change (2 ^ 1) with 2; dlia). rewrite E.
  case_if; zbool.
  - exists (u32 (n * 2 ^ (2 * half))), (d + 2 * half). split; [f_equal; f_equal; lia|]. rewrite Z.add_assoc.
    split; [by apply lsb_shift; [|lia..]|]. split; [apply u32_range|lia].
  - exists n, d. split_and!; done || lia.
Qed.

Lemma FindLSBSetNonZero_spec n k : lsb n k -> 0 <= n < 2 ^ 32 -> k <= 31 -> FindLSBSetNonZero n = k.
Proof.
  intros H Hn Hk. assert (H0 : lsb_state k 16 (n, 31, 16)).
  { exists n, 0. rewrite Z.add_0_r. destruct H. split_and!; done || lia. }
  unfold FindLSBSetNonZero. cbn [foldl]. change (Z.shiftl 1 4) with 16.
  apply (lsb_turn_half k 8 _ 4), (lsb_turn_half k 4 _ 3), (lsb_turn_half k 2 _ 2), (lsb_turn_half k 1 _ 1) in H0; try lia.
  destruct H0 as (n' & d & -> & Hl & Hn' & Hd). rewrite (lsb_turn_spec n' _ _ (k + d)) by (done || lia). case_if; zbool; lia.
Qed.

Lemma lsb_unique n k j : lsb n k -> lsb n j -> k = j.
Proof.
  assert (H : forall a b, lsb n a -> lsb n b -> ~ a < b).
  { intros a b [Ha (m & E & Hm)] [Hb (m' & E' & _)] Hlt. rewrite E in E'. replace b with ((b - a - 1) + 1 + a) in E' by lia.
    rewrite !Z.pow_add_r, Z.mul_assoc in E' by lia. apply Z.mul_reg_r in E'; [|pose proof (Z.pow_pos_nonneg 2 a); lia].
    rewrite E', Z.odd_mul, Z.odd_mul in Hm. change (Z.odd (2 ^ 1)) with false in Hm. by rewrite !andb_false_r in Hm. }
  intros Hk Hj. pose proof (H _ _ Hk Hj). pose proof (H _ _ Hj Hk). lia.
Qed.

Lemma lsb_exists n : 0 < n -> exists k, lsb n k /\ 2 ^ k <= n.
Proof.
  induction (Z.lt_wf 0 n) as [n _ IH]. intros Hn. destruct (Z.odd n) eqn:E.
  - exists 0. split; [|lia]. split; [lia|]. exists n. split; [lia|done].
  - pose proof (Zodd_mod n). pose proof (Zmod_odd n) as Hm. rewrite E in Hm.
    destruct (IH (n / 2)) as (k & [Hk (m & Em & Hodd)] & Hle); [dlia..|]. exists (k + 1).
    assert (En : n = n / 2 * 2) by dlia. rewrite Z.pow_add_r by lia. change (2 ^ 1) with 2. split; [|lia]. split; [lia|].
    exists m. split; [|done]. rewrite Z.pow_add_r by lia. change (2 ^ 1) with 2. lia.
Qed.

Lemma FindLSBSetNonZero64_spec n k : lsb n k -> 0 <= n < 2 ^ 64 -> k <= 63 -> FindLSBSetNonZero64 n = k.
Proof.
  intros [Hk (m & -> & Hodd)] Hn Hle. unfold FindLSBSetNonZero64. pose proof (u32_range (m * 2 ^ k)) as Hr.
  destruct (u32 (m * 2 ^ k) =? 0) eqn:E; zbool.
  - apply odd_shifted_zero in E; [|done..]. assert (Em : m * 2 ^ k = m * 2 ^ (k - 32) * 2 ^ 32).
    { rewrite <- Z.mul_assoc, <- Z.pow_add_r by lia. do 2 f_equal. lia. }
    rewrite Em, Z.shiftr_div_pow2, Z.div_mul by lia. rewrite Em in Hn.
    rewrite (u32_small (m * 2 ^ (k - 32))) by lia. rewrite (FindLSBSetNonZero_spec _ (k - 32)); [lia| |lia..].
    split; [lia|]. by exists m.
  - assert (Hlt : k <= 31). { destruct (Z.lt_ge_cases 31 k) as [H|]; [|done]. apply (odd_shifted_zero m k) in H; done. }
    apply FindLSBSetNonZero_spec; [|done..]. pose proof (lsb_shift m 0 k) as H. apply H; [|lia..].
    split; [lia|]. exists m. split; [lia|done].
Qed.

(** ** The first byte in which two words differ *)

Fixpoint common {A} `{EqDecision A} (s t : list A) : Z :=
  match s, t with
  | a :: s, b :: t => if decide (a = b) then 1 + common s t else 0
  | _, _ => 0
  end.

Lemma common_bounds s : forall t : list Z, 0 <= common s t <= zlen s /\ common s t <= zlen t.
Proof.
  induction s as [|a s IH]; intros [|b t]; cbn [common]; rewrite ?zlen_cons, ?(@zlen_nil Z); pose proof (@zlen_nonneg Z); try (split; [split|]; (done || lia)).
  - pose proof (zlen_nonneg t). lia.
  - pose proof (zlen_nonneg s). lia.
  - specialize (IH t). destruct (decide (a = b)); pose proof (zlen_nonneg s); pose proof (zlen_nonneg t); lia.
Qed.

Lemma le_word_lxor_lsb s : forall t, bytes_ok s -> bytes_ok t -> length s = length t -> s <> t ->
  exists k, lsb (Z.lxor (le_word s) (le_word t)) k /\ k / 8 = common s t.
Proof.
  induction s as [|a s IH]; intros [|b t] Hs Ht Hl Hne; try done. cbn [common le_word].
  apply Forall_cons in Hs as [Ha Hs]. apply Forall_cons in Ht as [Hb Ht].
  assert (E : Z.lxor (Z.lxor a (Z.shiftl (le_word s) 8)) (Z.lxor b (Z.shiftl (le_word t) 8)) =
              Z.lxor a b + Z.lxor (le_word s) (le_word t) * 256).
  { rewrite <- (lxor_fields 8) by (lia || apply (lxor_range 8); unfold byte_ok in *; lia).
    rewrite Z.shiftl_lxor. by_bits i. by destruct (Z.testbit a i), (Z.testbit b i), (Z.testbit (le_word s) (i - 8)), (Z.testbit (le_word t) (i - 8)). }
  rewrite E. destruct (decide (a = b)) as [->|Hab].
  - rewrite Z.lxor_nilpotent. destruct (IH t) as (k & [Hk (m & Em & Hodd)] & Hc); [done..|auto|congruence|].
    exists (k + 8). split; [|rewrite <- Hc; dlia]. split; [lia|]. exists m. rewrite Z.pow_add_r by lia. split; [lia|done].
  - pose proof (lxor_range 8 ltac:(lia) a b Ha Hb) as Hr. change (2 ^ 8) with 256 in Hr.
    assert (Hx : 0 < Z.lxor a b) by (assert (Z.lxor a b <> 0) by (by rewrite Z.lxor_eq_0_iff); lia).
    destruct (lsb_exists _ Hx) as (k & [Hk (m & Em & Hodd)] & Hle). assert (Hk8 : k < 8).
    { destruct (Z.lt_ge_cases k 8) as [|Hge]; [done|]. pose proof (Z.pow_le_mono_r 2 8 k). lia. }
    exists k. split; [|dlia]. split; [lia|]. exists (m + Z.lxor (le_word s) (le_word t) * 2 ^ (8 - k)). rewrite Em. split.
    + rewrite Z.mul_add_distr_r, <- Z.mul_assoc, <- Z.pow_add_r by lia. by replace (8 - k + k) with 8 by lia.
    + rewrite Z.odd_add, Hodd, Z.odd_mul. replace (8 - k) with (1 + (7 - k)) by lia. rewrite Z.pow_add_r, Z.odd_mul by lia.
      change (Z.odd (2 ^ 1)) with false. by rewrite andb_false_l, andb_false_r.
Qed.

(** The bytes in which two different 64-bit words agree. *)
Lemma FindLSBSetNonZero64_common s t :
  bytes_ok s -> bytes_ok t -> zlen s = 8 -> zlen t = 8 -> s <> t ->
  Z.shiftr (FindLSBSetNonZero64 (Z.lxor (le_word s) (le_word t))) 3 = common s t.
Proof.
  intros Hs Ht Ls Lt Hne. pose proof (le_word_range s Hs). pose proof (le_word_range t Ht). rewrite Ls, Lt in *.
  destruct (le_word_lxor_lsb s t) as (k & Hk & Hc); [done..|unfold zlen in *; lia|done|].
  pose proof (common_bounds s t) as Hb. rewrite (FindLSBSetNonZero64_spec _ k); [by rewrite Z.shiftr_div_pow2 by lia|done| |].
  - apply (lxor_range 64); lia.
  - assert (common s t <> 8); [|dlia]. intros H8. apply Hne. clear -Ls Lt H8.
    destruct s as [|? [|? [|? [|? [|? [|? [|? [|? [|]]]]]]]]]; try (unfold zlen in Ls; cbn in Ls; lia).
    destruct t as [|? [|? [|? [|? [|? [|? [|? [|? [|]]]]]]]]]; try (unfold zlen in Lt; cbn in Lt; lia).
    cbn [common] in H8. repeat match type of H8 with context [decide ?P] => destruct (decide P); [subst|lia] end. done.
Qed.

(** ** Varints *)

Lemma u8_or_128 x : u8 (Z.lor x 128) = x `mod` 128 + 128.
Proof.
  assert (E : u8 (Z.lor x 128) = Z.lor (u8 x) 128).
  { unfold u8. rewrite <- !land_255. by_bits i. change 128 with (Z.land 128 255) at 2. rewrite Z.land_spec.
    by destruct (Z.testbit x i), (Z.testbit 128 i), (Z.testbit 255 i). }
  rewrite E. replace (x `mod` 128) with (u8 x `mod` 128) by (unfold u8; dlia).
  apply Z.eqb_eq. apply (byte_check (fun b => Z.lor b 128 =? b `mod` 128 + 128)); [vm_compute; reflexivity|apply u8_range].
Qed.

Lemma land_low7 b : Z.land b 127 = b `mod` 128.
Proof. exact (Z.land_ones b 7 ltac:(lia)). Qed.

Lemma Encode32_bytes v : bytes_ok (Encode32 v).
Proof. unfold Encode32. repeat case_if; repeat constructor; apply u8_range. Qed.

Lemma Encode32_length v : 1 <= zlen (Encode32 v) <= kMax32.
Proof. unfold Encode32, kMax32. repeat case_if; unfold zlen; cbn; lia. Qed.

(** What the bytes of a number are. *)
Lemma Encode32_cases v : 0 <= v < 4294967296 ->
  let d k := (v / 2 ^ k) `mod` 128 in
  v < 128 /\ Encode32 v = [v] \/
  128 <= v < 16384 /\ Encode32 v = [v `mod` 128 + 128; v / 2 ^ 7] \/
  16384 <= v < 2097152 /\ Encode32 v = [v `mod` 128 + 128; d 7 + 128; v / 2 ^ 14] \/
  2097152 <= v < 268435456 /\ Encode32 v = [v `mod` 128 + 128; d 7 + 128; d 14 + 128; v / 2 ^ 21] \/
  268435456 <= v /\ Encode32 v = [v `mod` 128 + 128; d 7 + 128; d 14 + 128; d 21 + 128; v / 2 ^ 28].
Proof.
  intros Hv d. unfold Encode32. rewrite !u8_or_128, !Z.shiftr_div_pow2 by lia.
  change (Z.shiftl 1 7) with 128. change (Z.shiftl 1 14) with 16384. change (Z.shiftl 1 21) with 2097152. change (Z.shiftl 1 28) with 268435456.
  repeat case_if; zbool; subst d; cbv beta.
  - left. rewrite u8_small by lia. done.
  - right; left. rewrite (u8_small (v / 2 ^ 7)) by dlia. done.
  - do 2 right; left. rewrite (u8_small (v / 2 ^ 14)) by dlia. done.
  - do 3 right; left. rewrite (u8_small (v / 2 ^ 21)) by dlia. done.
  - do 4 right. rewrite (u8_small (v / 2 ^ 28)) by dlia. done.
Qed.

Ltac digit := first [ rewrite (proj2 (Z.ltb_lt _ _)) by dlia | rewrite (proj2 (Z.ltb_ge _ _)) by dlia ].

Lemma Parse32_Encode32 v s : 0 <= v < 4294967296 -> Parse32WithLimit (Encode32 v ++ s) = Some (v, s).
Proof.
  intros Hv.
  assert (H7 : forall x y, 0 <= x < 2 ^ 7 -> Z.lor x (Z.shiftl y 7) = x + y * 2 ^ 7) by (intros; by apply lor_fields).
  assert (H14 : forall x y, 0 <= x < 2 ^ 14 -> Z.lor x (Z.shiftl y 14) = x + y * 2 ^ 14) by (intros; by apply lor_fields).
  assert (H21 : forall x y, 0 <= x < 2 ^ 21 -> Z.lor x (Z.shiftl y 21) = x + y * 2 ^ 21) by (intros; by apply lor_fields).
  assert (H28 : forall x y, 0 <= x < 2 ^ 28 -> Z.lor x (Z.shiftl y 28) = x + y * 2 ^ 28) by (intros; by apply lor_fields).
  destruct (Encode32_cases v Hv) as [[? E]|[[? E]|[[? E]|[[? E]|[? E]]]]]; rewrite E; cbn [app Parse32WithLimit]; rewrite !land_low7; repeat digit.
  - f_equal. f_equal. dlia.
  - rewrite H7 by dlia. f_equal. f_equal. dlia.
  - rewrite H7, H14 by dlia. f_equal. f_equal. dlia.
  - rewrite H7, H14, H21 by dlia. f_equal. f_equal. dlia.
  - rewrite u32_small by (rewrite Z.shiftl_mul_pow2 by lia; dlia). rewrite H7, H14, H21, H28 by dlia. f_equal. f_equal. dlia.
Qed.
