(* ===== verification/SnappyFragment.v ===== *)
(** * [flare/io/snappy]: compressing one block

    [CompressFragment] and what it calls ([snappy.cc], [snappy-internal.h]),
    on buffers with explicit offsets.  [input] is the block, [m] the memory that
    the output pointer [op] points into. *)

From S2P Require Import Prelude Bits Buffers SnappyStubs.
Local Open Scope Z_scope.

Definition kBlockLog : Z := 16.
Definition kBlockSize : Z := Z.shiftl 1 kBlockLog.
Definition kMaxHashTableBits : Z := 14.
Definition kMaxHashTableSize : Z := Z.shiftl 1 kMaxHashTableBits.

Definition LITERAL : Z := 0.
Definition COPY_1_BYTE_OFFSET : Z := 1.
Definition COPY_2_BYTE_OFFSET : Z := 2.
Definition COPY_4_BYTE_OFFSET : Z := 3.

Definition HashBytes (bytes shift : Z) : Z := Z.shiftr (u32 (bytes * 506832829)) shift.
Definition Hash (m : list Z) (p shift : Z) : outcome Z := v ← UNALIGNED_LOAD32 m p; mret (HashBytes v shift).

Definition MaxCompressedLength (source_len : Z) : Z := u64 (32 + source_len + source_len / 6).

(** ** Emitting *)

(** The loop that writes the length of a long literal: [*op++ = n & 0xff]. *)
Fixpoint emit_length (fuel : nat) (op n count : Z) (m : list Z) : outcome (Z * Z * list Z) :=
  match fuel with
  | O => Undefined
  | S fuel =>
      if 0 <? n then
        m ← mwrite op [u8 (Z.land n 255)] m; emit_length fuel (op + 1) (Z.shiftr n 8) (count + 1) m
      else Ok (op, count, m)
  end.

Definition EmitLiteral (op : Z) (input : list Z) (literal len : Z) (allow_fast_path : bool) (m : list Z) : outcome (Z * list Z) :=
  let n := len - 1 in
  let copy (op : Z) (m : list Z) := s ← mread input literal len; m ← mwrite op s m; Ok (op + len, m) in
  if n <? 60 then
    m ← mwrite op [u8 (Z.lor LITERAL (Z.shiftl n 2))] m;
    let op := op + 1 in
    if allow_fast_path && (len <=? 16) then
      m ← UnalignedCopy64 input literal op m;
      m ← UnalignedCopy64 input (literal + 8) (op + 8) m;
      Ok (op + len, m)
    else copy op m
  else
    let base := op in
    '(op, count, m) ← emit_length 6 (op + 1) n 0 m;
    _ ← check (1 <=? count);
    _ ← check (count <=? 4);
    m ← mwrite base [u8 (Z.lor LITERAL (Z.shiftl (59 + count) 2))] m;
    copy op m.

Definition EmitCopyLessThan64 (op offset len : Z) (m : list Z) : outcome (Z * list Z) :=
  _ ← check (len <=? 64);
  _ ← check (4 <=? len);
  _ ← check (offset <? 65536);
  if (len <? 12) && (offset <? 2048) then
    let len_minus_4 := len - 4 in
    _ ← check (len_minus_4 <? 8);
    m ← mwrite op [u8 (COPY_1_BYTE_OFFSET + Z.shiftl len_minus_4 2 + Z.shiftl (Z.shiftr offset 8) 5)] m;
    m ← mwrite (op + 1) [u8 (Z.land offset 255)] m;
    Ok (op + 2, m)
  else
    m ← mwrite op [u8 (COPY_2_BYTE_OFFSET + Z.shiftl (len - 1) 2)] m;
    m ← Store16 (op + 1) (u16 offset) m;
    Ok (op + 3, m).

(** [while (len >= 68)]. *)
Fixpoint emit_copies (fuel : nat) (op offset len : Z) (m : list Z) : outcome (Z * Z * list Z) :=
  match fuel with
  | O => Undefined
  | S fuel =>
      if 68 <=? len then
        '(op, m) ← EmitCopyLessThan64 op offset 64 m; emit_copies fuel op offset (len - 64) m
      else Ok (op, len, m)
  end.

Definition EmitCopy (op offset len : Z) (m : list Z) : outcome (Z * list Z) :=
  '(op, len, m) ← emit_copies (S (Z.to_nat len)) op offset len m;
  '(op, len, m) ← (if 64 <? len then '(op, m) ← EmitCopyLessThan64 op offset 60 m; Ok (op, len - 60, m) else Ok (op, len, m));
  EmitCopyLessThan64 op offset len m.

(** ** Matching *)

(** [s1], [s2] and [s2_limit] point into [input]; the loop over words, then the
    loop over bytes. *)
Fixpoint match_bytes (fuel : nat) (input : list Z) (s1 s2 s2_limit matched : Z) : outcome Z :=
  match fuel with
  | O => Undefined
  | S fuel =>
      if s2 <? s2_limit then
        a ← mget input (s1 + matched); b ← mget input s2;
        if a =? b then match_bytes fuel input s1 (s2 + 1) s2_limit (matched + 1) else Ok matched
      else Ok matched
  end.

Fixpoint match_words (fuel : nat) (input : list Z) (s1 s2 s2_limit matched : Z) : outcome Z :=
  match fuel with
  | O => Undefined
  | S fuel =>
      if s2 <=? s2_limit - 8 then
        a ← UNALIGNED_LOAD64 input s2; b ← UNALIGNED_LOAD64 input (s1 + matched);
        if a =? b then match_words fuel input s1 (s2 + 8) s2_limit (matched + 8)
        else
          let x := Z.lxor a b in
          let matching_bits := FindLSBSetNonZero64 x in
          Ok (matched + Z.shiftr matching_bits 3)
      else match_bytes fuel input s1 s2 s2_limit matched
  end.

Definition FindMatchLength (input : list Z) (s1 s2 s2_limit : Z) : outcome Z :=
  _ ← check (s2 <=? s2_limit);
  match_words (S (S (Z.to_nat (s2_limit - s2)))) input s1 s2 s2_limit 0.

(** ** The hash table *)

Fixpoint table_size_loop (fuel : nat) (htsize input_size : Z) : outcome Z :=
  match fuel with
  | O => Undefined
  | S fuel =>
      if (htsize <? kMaxHashTableSize) && (htsize <? input_size) then table_size_loop fuel (Z.shiftl htsize 1) input_size
      else Ok htsize
  end.

(** [WorkingMemory::GetHashTable]: the table, cleared; its length is the
    [table_size].  Whether it is the small or the large one does not show. *)
Definition GetHashTable (input_size : Z) : outcome (list Z) :=
  _ ← check (256 <=? kMaxHashTableSize);
  htsize ← table_size_loop 8 256 input_size;
  Ok (replicate (Z.to_nat htsize) 0).

Definition table_get (table : list Z) (h : Z) : outcome Z := mget table h.
Definition table_set (h v : Z) (table : list Z) : outcome (list Z) :=
  if (0 <=? h) && (h <? zlen table) then Ok (zset h (u16 v) table) else Undefined.

(** ** [CompressFragment] *)

Definition GetUint32AtOffset (v offset : Z) : outcome Z :=
  _ ← check (0 <=? offset); _ ← check (offset <=? 4); Ok (u32 (Z.shiftr v (8 * offset))).

Definition kInputMarginBytes : Z := 15.

Section fragment.
Context (input : list Z) (shift : Z).
Let ip_end : Z := zlen input.
Let ip_limit : Z := zlen input - kInputMarginBytes.

(** Step 1, the search for a match of four bytes: [None] is the [goto
    emit_remainder]; otherwise where it is, the candidate and the table. *)
Fixpoint scan (fuel : nat) (next_ip next_hash skip : Z) (table : list Z) : outcome (option (Z * Z * list Z)) :=
  match fuel with
  | O => Undefined
  | S fuel =>
      let ip := next_ip in
      let hash := next_hash in
      h ← Hash input ip shift; _ ← check (hash =? h);
      let bytes_between_hash_lookups := Z.shiftr skip 5 in
      let skip := u32 (skip + 1) in
      let next_ip := ip + bytes_between_hash_lookups in
      if ip_limit <? next_ip then Ok None
      else
        next_hash ← Hash input next_ip shift;
        candidate ← table_get table hash;
        _ ← check (0 <=? candidate);
        _ ← check (candidate <? ip);
        table ← table_set hash ip table;
        a ← UNALIGNED_LOAD32 input ip; b ← UNALIGNED_LOAD32 input candidate;
        if negb (a =? b) then scan fuel next_ip next_hash skip table
        else Ok (Some (ip, candidate, table))
  end.

(** Step 3, the copies: [None] is the [goto]; otherwise the eight bytes that
    were loaded and the table. *)
Fixpoint copies (fuel : nat) (ip candidate op : Z) (table m : list Z) : outcome (Z * Z * list Z * option (Z * list Z)) :=
  match fuel with
  | O => Undefined
  | S fuel =>
      let base := ip in
      len ← FindMatchLength input (candidate + 4) (ip + 4) ip_end;
      let matched := 4 + len in
      let ip := ip + matched in
      let offset := base - candidate in
      x ← mread input base matched; y ← mread input candidate matched; _ ← check (bool_decide (x = y));
      '(op, m) ← EmitCopy op offset matched m;
      let insert_tail := ip - 1 in
      if ip_limit <=? ip then Ok (ip, op, m, None)
      else
        input_bytes ← UNALIGNED_LOAD64 input insert_tail;
        w ← GetUint32AtOffset input_bytes 0;
        let prev_hash := HashBytes w shift in
        table ← table_set prev_hash (ip - 1) table;
        w ← GetUint32AtOffset input_bytes 1;
        let cur_hash := HashBytes w shift in
        candidate ← table_get table cur_hash;
        candidate_bytes ← UNALIGNED_LOAD32 input candidate;
        table ← table_set cur_hash ip table;
        if w =? candidate_bytes then copies fuel ip candidate op table m
        else Ok (ip, op, m, Some (input_bytes, table))
  end.

(** The main loop, until [emit_remainder]: the pointers [next_emit] and [op]. *)
Fixpoint fragment_loop (fuel : nat) (ip next_hash next_emit op : Z) (table m : list Z) : outcome (Z * Z * list Z) :=
  match fuel with
  | O => Undefined
  | S fuel =>
      _ ← check (next_emit <? ip);
      found ← scan (S (Z.to_nat ip_end)) ip next_hash 32 table;
      match found with
      | None => Ok (next_emit, op, m)
      | Some (ip, candidate, table) =>
          _ ← check (next_emit + 16 <=? ip_end);
          '(op, m) ← EmitLiteral op input next_emit (ip - next_emit) true m;
          '(ip, op, m, more) ← copies (S (Z.to_nat ip_end)) ip candidate op table m;
          let next_emit := ip in
          match more with
          | None => Ok (next_emit, op, m)
          | Some (input_bytes, table) =>
              w ← GetUint32AtOffset input_bytes 2;
              fragment_loop fuel (ip + 1) (HashBytes w shift) next_emit op table m
          end
      end
  end.

Definition emit_remainder (next_emit op : Z) (m : list Z) : outcome (Z * list Z) :=
  if next_emit <? ip_end then EmitLiteral op input next_emit (ip_end - next_emit) false m else Ok (op, m).
End fragment.

(** The end of the output and the memory. *)
Definition CompressFragment (input : list Z) (op : Z) (table m : list Z) : outcome (Z * list Z) :=
  let table_size := zlen table in
  _ ← check (zlen input <=? kBlockSize);
  _ ← check (Z.land table_size (table_size - 1) =? 0);
  log ← Log2Floor table_size;
  let shift := 32 - log in
  _ ← check (Z.shiftr 4294967295 shift =? table_size - 1);
  if kInputMarginBytes <=? zlen input then
    next_hash ← Hash input 1 shift;
    '(next_emit, op, m) ← fragment_loop input shift (S (Z.to_nat (zlen input))) 1 next_hash 0 op table m;
    emit_remainder input next_emit op m
  else emit_remainder input 0 op m.
