(* ===== verification/SnappyEncode.v ===== *)
(** * [flare/io/snappy]: what is emitted

    The bytes that [EmitLiteral] and [EmitCopy] write, their number, and the
    elements they stand for in the format. *)

From S2P Require Import Prelude Bits Buffers SnappyFormat SnappyStubs SnappyFragment.
Local Open Scope Z_scope.

(** ** Written bytes *)

(** From [m] to [m'] the bytes [s] have been written at [op]; what is behind
    them may have changed too. *)
Definition wrote (op : Z) (m s m' : list Z) : Prop :=
  0 <= op /\ zlen m' = zlen m /\ op + zlen s <= zlen m /\ ztake (op + zlen s) m' = ztake op m ++ s /\ bytes_ok s.

Lemma wrote_nil op m : 0 <= op <= zlen m -> wrote op m [] m.
Proof. intros. unfold wrote. rewrite (@zlen_nil Z), Z.add_0_r, app_nil_r. split_and!; [lia|done|lia|done|by constructor]. Qed.

Lemma wrote_splice op s m : bytes_ok s -> 0 <= op -> op + zlen s <= zlen m -> wrote op m s (splice op s m).
Proof. intros. split_and!; [done|by apply zlen_splice|done|by apply ztake_splice|done]. Qed.

Lemma wrote_app op m s m' t m'' : wrote op m s m' -> wrote (op + zlen s) m' t m'' -> wrote op m (s ++ t) m''.
Proof.
  intros (H0 & Hl & Hs & E & Hb) (_ & Hl' & Hs' & E' & Hb'). unfold wrote. rewrite zlen_app, Z.add_assoc.
  split_and!; [done|lia|lia| |by apply bytes_ok_app]. by rewrite E', E, app_assoc.
Qed.

(** Fewer bytes count than were written. *)
Lemma wrote_less op m s t m' : wrote op m (s ++ t) m' -> wrote op m s m'.
Proof.
  intros (H0 & Hl & Hs & E & Hb). apply bytes_ok_app in Hb as [Hb _]. rewrite zlen_app in *. pose proof (zlen_nonneg t). pose proof (zlen_nonneg s).
  split_and!; [done..|lia| |done]. rewrite <- (ztake_ztake _ (op + (zlen s + zlen t))) by lia. rewrite E, app_assoc.
  apply ztake_app_exact. rewrite zlen_app, zlen_ztake; lia.
Qed.

(** The first byte is written last. *)
Lemma wrote_base op m s m' b : byte_ok b -> 0 <= op -> wrote (op + 1) m s m' -> wrote op m (b :: s) (splice op [b] m').
Proof.
  intros Hb H0 (_ & Hl & Hs & E & Hbs). pose proof (zlen_nonneg s). assert (H1 : zlen [b] = 1) by done.
  unfold wrote. rewrite zlen_splice by lia. rewrite zlen_cons. split_and!; [done..|lia| |by constructor].
  unfold splice. rewrite H1. rewrite ztake_app_ge by (rewrite zlen_ztake; lia). rewrite zlen_ztake by lia.
  assert (Ep : ztake op m' = ztake op m).
  { rewrite <- (ztake_ztake op (op + 1 + zlen s)) by lia. rewrite E, ztake_app_le by (rewrite zlen_ztake; lia). apply ztake_ztake. lia. }
  rewrite Ep. f_equal. replace (op + (zlen s + 1) - op) with (1 + zlen s) by lia. rewrite ztake_app_ge by lia. rewrite H1. cbn [app]. f_equal.
  replace (1 + zlen s - 1) with (op + 1 + zlen s - (op + 1)) by lia. rewrite <- zdrop_ztake by lia. rewrite E.
  apply zdrop_app_exact. rewrite zlen_ztake; lia.
Qed.

Lemma wrote_prefix op m s m' : wrote op m s m' -> ztake op m' = ztake op m.
Proof.
  intros (H0 & Hl & Hs & E & _). pose proof (zlen_nonneg s). rewrite <- (ztake_ztake op (op + zlen s)) by lia.
  rewrite E, ztake_app_le by (rewrite zlen_ztake; lia). apply ztake_ztake. lia.
Qed.

(** ** What bytes stand for *)

(** Decoding [s] takes an output that ends in [a] to one that ends in [b]. *)
Definition denotes (s a b : list Z) : Prop :=
  forall out rest, elements id (out ++ a) (s ++ rest) = elements id (out ++ b) rest.

Lemma denotes_nil a : denotes [] a a.
Proof. done. Qed.

Lemma denotes_app s t a b c : denotes s a b -> denotes t b c -> denotes (s ++ t) a c.
Proof. intros Hs Ht out rest. by rewrite <- app_assoc, Hs, Ht. Qed.

Lemma denotes_step s a b e :
  (forall rest, next_element id (s ++ rest) = Some (e, rest)) -> (forall out, produce e (out ++ a) = Some (out ++ b)) -> denotes s a b.
Proof. intros Hn Hp out rest. by rewrite (elements_step _ _ _ _ _ (Hn rest)), Hp. Qed.

(** ** Literals *)

(** Bytes of tag and length. *)
Definition literal_overhead (len : Z) : Z := if len <=? 60 then 1 else if len <=? 256 then 2 else 3.

Definition literal_tag (len : Z) : list Z :=
  let n := len - 1 in
  if n <? 60 then [n * 4] else if n <? 256 then [240; n] else [244; n `mod` 256; n / 256].

Lemma literal_tag_length len : 1 <= len -> zlen (literal_tag len) = literal_overhead len.
Proof. intros. unfold literal_tag, literal_overhead. repeat case_if; zbool; (reflexivity || lia). Qed.

Lemma literal_tag_element len l rest :
  1 <= len <= 65536 -> zlen l = len -> next_element id (literal_tag len ++ l ++ rest) = Some (Literal l, rest).
Proof.
  intros Hlen Hl. unfold literal_tag. destruct (len - 1 <? 60) eqn:E60; [|destruct (len - 1 <? 256) eqn:E256]; zbool; cbn [app next_element].
  - rewrite Z.div_mul, Z.mod_mul by lia. cbn [Z.eqb]. decide_if. cbn [mbind option_bind]. unfold id; rewrite split_at_app by lia. done.
  - change (240 `mod` 4 =? 0) with true. change (240 / 4) with 60. cbv iota. change (60 <? 60) with false. cbv iota. change (60 - 59) with 1.
    change (len - 1 :: l ++ rest) with ([len - 1] ++ l ++ rest). rewrite (split_at_app 1) by done. cbn [mbind option_bind]. rewrite le_word_cons by (unfold byte_ok; lia). cbn [le_word].
    unfold id; rewrite split_at_app by lia. done.
  - change (244 `mod` 4 =? 0) with true. change (244 / 4) with 61. cbv iota. change (61 <? 60) with false. cbv iota. change (61 - 59) with 2.
    change ((len - 1) `mod` 256 :: (len - 1) / 256 :: l ++ rest) with ([(len - 1) `mod` 256; (len - 1) / 256] ++ l ++ rest).
    rewrite (split_at_app 2) by done. cbn [mbind option_bind]. rewrite !le_word_cons by (unfold byte_ok; dlia). cbn [le_word].
    unfold id; rewrite split_at_app by dlia. done.
Qed.

Lemma literal_denotes input p len :
  0 <= p -> 1 <= len <= 65536 -> p + len <= zlen input ->
  denotes (literal_tag len ++ part p len input) (ztake p input) (ztake (p + len) input).
Proof.
  intros Hp Hlen Hle. apply denotes_step with (Literal (part p len input)).
  - intros rest. rewrite <- app_assoc. apply literal_tag_element; [done|]. apply zlen_part; lia.
  - intros out. cbn [produce]. by rewrite ztake_part, app_assoc by lia.
Qed.

Lemma zlen_one (b : Z) : zlen [b] = 1.
Proof. done. Qed.

(** Lists of bytes that are known to be in range. *)
Ltac by_bytes := repeat constructor; unfold byte_ok; first [ apply u8_range | lia | dlia ].

(** A write, as a step of a program that goes on. *)
Lemma mwrite_wrote op s m : bytes_ok s -> 0 <= op -> op + zlen s <= zlen m -> exists m', mwrite op s m = Ok m' /\ wrote op m s m'.
Proof. intros. exists (splice op s m). split; [by apply mwrite_ok|by apply wrote_splice]. Qed.

Lemma emit_length_spec op n m :
  0 <= op -> 60 <= n < 65536 -> op + 2 <= zlen m ->
  exists s m', emit_length 6 op n 0 m = Ok (op + zlen s, zlen s, m') /\ wrote op m s m' /\
    s = (if n <? 256 then [n] else [n `mod` 256; n / 256]).
Proof.
  intros Hop Hn Hm. destruct (mwrite_wrote op [u8 (Z.land n 255)] m) as (m1 & E1 & W1); [by_bytes|done|rewrite zlen_one; lia|].
  assert (Eb : u8 (Z.land n 255) = n `mod` 256) by (rewrite land_255; apply u8_small; dlia). rewrite Eb in *.
  assert (Hs : Z.shiftr n 8 = n / 256) by (by rewrite Z.shiftr_div_pow2 by lia).
  remember 5%nat as five eqn:H5. cbn [emit_length]. decide_if. rewrite Eb, E1. cbn [mbind outcome_bind]. rewrite Hs.
  destruct (n <? 256) eqn:E; zbool.
  - exists [n], m1. rewrite (Z.mod_small n) in W1 by lia. split_and!; [|done..]. subst five. cbn [emit_length].
    rewrite (Z.div_small n) by lia. done.
  - assert (Hl1 : zlen m1 = zlen m) by apply W1. assert (Eq : u8 (Z.land (n / 256) 255) = n / 256).
    { rewrite land_255, Z.mod_small by dlia. apply u8_small. dlia. }
    destruct (mwrite_wrote (op + 1) [n / 256] m1) as (m2 & E2 & W2); [by_bytes|lia|rewrite zlen_one; lia|].
    exists ([n `mod` 256] ++ [n / 256]), m2. split_and!; [|by eapply wrote_app|done].
    subst five. remember 4%nat as four. cbn [emit_length]. rewrite (proj2 (Z.ltb_lt _ _)) by dlia. rewrite Eq, E2. cbn [mbind outcome_bind].
    subst four. cbn [emit_length]. rewrite Z.shiftr_div_pow2 by lia. replace (n / 256 / 2 ^ 8) with 0 by dlia. cbn [Z.ltb Z.compare]. f_equal. unfold zlen. cbn. f_equal. f_equal. lia.
Qed.

(** [memcpy] of the literal. *)
Lemma literal_copy_spec op input p len m :
  bytes_ok input -> 0 <= op -> 0 <= p -> 0 <= len -> p + len <= zlen input -> op + len <= zlen m ->
  exists m', (s ← mread input p len; m ← mwrite op s m; Ok (op + len, m)) = Ok (op + len, m') /\ wrote op m (part p len input) m'.
Proof.
  intros. rewrite mread_ok by lia. cbn [mbind outcome_bind].
  destruct (mwrite_wrote op (part p len input) m) as (m' & -> & W); [by apply bytes_ok_part|done|rewrite zlen_part; lia|]. by exists m'.
Qed.

(** The two copies of eight bytes of the fast path. *)
Lemma literal_fast_spec op input p len m :
  bytes_ok input -> 0 <= op -> 0 <= p -> 0 <= len <= 16 -> p + 16 <= zlen input -> op + 16 <= zlen m ->
  exists m', (m ← UnalignedCopy64 input p op m; m ← UnalignedCopy64 input (p + 8) (op + 8) m; Ok (op + len, m)) = Ok (op + len, m') /\
    wrote op m (part p len input) m'.
Proof.
  intros. rewrite copy64_ok by lia. cbn [mbind outcome_bind].
  assert (Hl : zlen (splice op (part p 8 input) m) = zlen m) by (apply zlen_splice; [lia|rewrite zlen_part; lia]).
  rewrite copy64_ok by lia. cbn [mbind outcome_bind]. eexists. split; [done|].
  apply wrote_less with (part (p + len) (16 - len) input). rewrite <- part_add by lia. replace (len + (16 - len)) with (8 + 8) by lia.
  rewrite part_add by lia. eapply wrote_app; [apply wrote_splice; [by apply bytes_ok_part|lia|rewrite zlen_part; lia]|].
  rewrite zlen_part by lia. apply wrote_splice; [by apply bytes_ok_part|lia|rewrite zlen_part; lia].
Qed.

Lemma EmitLiteral_spec op input p len fast m :
  bytes_ok input -> 0 <= op -> 0 <= p -> 1 <= len <= 65536 -> p + len <= zlen input -> (fast = true -> p + 16 <= zlen input) ->
  op + literal_overhead len + (if fast then Z.max 16 len else len) <= zlen m ->
  exists s m', EmitLiteral op input p len fast m = Ok (op + zlen s, m') /\ wrote op m s m' /\
    zlen s = literal_overhead len + len /\ denotes s (ztake p input) (ztake (p + len) input).
Proof.
  intros Hb Hop Hp Hlen Hin Hfast Hm. exists (literal_tag len ++ part p len input).
  assert (Hz : zlen (literal_tag len ++ part p len input) = literal_overhead len + len).
  { rewrite zlen_app, literal_tag_length, zlen_part by lia. done. }
  rewrite Hz. pose proof (literal_denotes input p len Hp Hlen Hin) as Hd.
  assert (Hk : op + literal_overhead len + len <= zlen m) by (destruct fast; lia).
  cut (exists m', EmitLiteral op input p len fast m = Ok (op + (literal_overhead len + len), m') /\
         wrote op m (literal_tag len ++ part p len input) m'); [intros (m' & ? & ?); by exists m'|].
  unfold EmitLiteral, literal_tag. unfold literal_overhead in *. destruct (len - 1 <? 60) eqn:E60; zbool.
  - replace (len <=? 60) with true in * by (symmetry; apply Z.leb_le; lia). assert (Eb : u8 (Z.lor LITERAL (Z.shiftl (len - 1) 2)) = (len - 1) * 4).
    { unfold LITERAL. rewrite Z.lor_0_l, Z.shiftl_mul_pow2 by lia. apply u8_small. lia. }
    rewrite Eb. destruct (mwrite_wrote op [(len - 1) * 4] m) as (m1 & -> & W1); [by_bytes|lia|rewrite zlen_one; lia|]. cbn [mbind outcome_bind].
    assert (Hl1 : zlen m1 = zlen m) by apply W1. replace (op + (1 + len)) with (op + 1 + len) by lia.
    destruct (fast && (len <=? 16)) eqn:Ef; zbool.
    + destruct fast; [|done]. destruct (literal_fast_spec (op + 1) input p len m1) as (m2 & E & W2); [done|lia..|]. exists m2. split; [exact E|by eapply wrote_app].
    + destruct (literal_copy_spec (op + 1) input p len m1) as (m2 & E & W2); [done|lia..|]. exists m2. split; [exact E|by eapply wrote_app].
  - replace (len <=? 60) with false in * by (symmetry; apply Z.leb_gt; lia).
    assert (H3 : op + 3 <= zlen m) by (clear -Hk E60 Hop; destruct (len <=? 256); lia).
    destruct (emit_length_spec (op + 1) (len - 1) m) as (s & m1 & -> & W1 & Es); [lia..|]. cbn [mbind outcome_bind].
    assert (Hc : 1 <= zlen s <= 2 /\ zlen s = (if len <=? 256 then 1 else 2)).
    { rewrite Es. destruct (len - 1 <? 256) eqn:?; zbool; [rewrite (proj2 (Z.leb_le _ _)) by lia|rewrite (proj2 (Z.leb_gt _ _)) by lia]; unfold zlen; cbn; lia. }
    unfold check. rewrite !(proj2 (Z.leb_le _ _)) by lia. cbn [mbind outcome_bind].
    set (tag := u8 (Z.lor LITERAL (Z.shiftl (59 + zlen s) 2))). assert (Hl1 : zlen m1 = zlen m) by apply W1.
    rewrite mwrite_ok by (rewrite ?zlen_one; lia). cbn [mbind outcome_bind]. pose proof (wrote_base op m s m1 tag ltac:(apply u8_range) Hop W1) as W2.
    assert (Hl2 : zlen (splice op [tag] m1) = zlen m) by apply W2.
    destruct (literal_copy_spec (op + 1 + zlen s) input p len (splice op [tag] m1)) as (m3 & E & W3); [done|lia..|destruct (len <=? 256); lia|].
    rewrite E. exists m3. split; [f_equal; f_equal; destruct (len <=? 256); lia|]. replace (op + 1 + zlen s) with (op + zlen (tag :: s)) in W3 by (rewrite zlen_cons; lia).
    pose proof (wrote_app _ _ _ _ _ _ W2 W3) as W. rewrite Es in W. unfold tag in W. rewrite Es in W. destruct (len - 1 <? 256); exact W.
Qed.

(** ** Copies *)

Lemma copy_denotes s offset len a :
  (forall rest, next_element id (s ++ rest) = Some (Copy offset len, rest)) -> 1 <= offset <= zlen a -> denotes s a (self_copy offset (Z.to_nat len) a).
Proof.
  intros Hn Ho. apply denotes_step with (Copy offset len); [done|]. intros out. cbn [produce].
  rewrite !(proj2 (Z.leb_le _ _)) by (rewrite ?zlen_app; pose proof (zlen_nonneg out); lia). cbn [andb]. f_equal. apply self_copy_app. lia.
Qed.

(** The tag of a copy with an offset of one byte more. *)
Lemma copy_1_element offset len rest : 4 <= len < 12 -> 0 <= offset < 2048 ->
  next_element id ([1 + (len - 4) * 4 + offset / 256 * 32; offset `mod` 256] ++ rest) = Some (Copy offset len, rest).
Proof.
  intros Hlen Ho. cbn [app next_element]. set (c := 1 + (len - 4) * 4 + offset / 256 * 32).
  assert (Hm : c `mod` 4 = 1) by (subst c; dlia). rewrite Hm. cbn [Z.eqb Pos.eqb].
  change (offset `mod` 256 :: rest) with ([offset `mod` 256] ++ rest). rewrite split_at_app by done. cbn [mbind option_bind].
  rewrite le_word_cons by (unfold byte_ok; dlia). cbn [le_word]. f_equal. f_equal. f_equal; subst c; dlia.
Qed.

Lemma copy_2_element offset len rest : 1 <= len <= 64 -> 0 <= offset < 65536 ->
  next_element id ([2 + (len - 1) * 4; offset `mod` 256; offset / 256] ++ rest) = Some (Copy offset len, rest).
Proof.
  intros Hlen Ho. cbn [app next_element]. set (c := 2 + (len - 1) * 4).
  assert (Hm : c `mod` 4 = 2) by (subst c; dlia). rewrite Hm. cbn [Z.eqb Pos.eqb].
  change (offset `mod` 256 :: offset / 256 :: rest) with ([offset `mod` 256; offset / 256] ++ rest). rewrite split_at_app by done. cbn [mbind option_bind].
  rewrite !le_word_cons by (unfold byte_ok; dlia). cbn [le_word]. f_equal. f_equal. f_equal; subst c; dlia.
Qed.

Lemma EmitCopyLessThan64_spec op offset len m :
  0 <= op -> 4 <= len <= 64 -> 1 <= offset < 65536 -> op + 3 <= zlen m ->
  exists s m', EmitCopyLessThan64 op offset len m = Ok (op + zlen s, m') /\ wrote op m s m' /\ zlen s <= 3 /\
    forall a, offset <= zlen a -> denotes s a (self_copy offset (Z.to_nat len) a).
Proof.
  intros Hop Hlen Ho Hm. unfold EmitCopyLessThan64, check. rewrite !(proj2 (Z.leb_le _ _)), (proj2 (Z.ltb_lt offset 65536)) by lia. cbn [mbind outcome_bind].
  destruct ((len <? 12) && (offset <? 2048)) eqn:E; zbool.
  - rewrite (proj2 (Z.ltb_lt _ _)) by lia. cbn [mbind outcome_bind]. set (t := [1 + (len - 4) * 4 + offset / 256 * 32; offset `mod` 256]).
    assert (Et : u8 (COPY_1_BYTE_OFFSET + (len - 4) ≪ 2 + (offset ≫ 8) ≪ 5) = 1 + (len - 4) * 4 + offset / 256 * 32).
    { unfold COPY_1_BYTE_OFFSET. rewrite !Z.shiftl_mul_pow2, Z.shiftr_div_pow2 by lia. apply u8_small. dlia. }
    rewrite Et, land_255, (u8_small (offset `mod` 256)) by dlia.
    destruct (mwrite_wrote op [1 + (len - 4) * 4 + offset / 256 * 32] m) as (m1 & -> & W1); [by_bytes|lia|rewrite zlen_one; lia|]. cbn [mbind outcome_bind].
    assert (Hl : zlen m1 = zlen m) by apply W1.
    destruct (mwrite_wrote (op + 1) [offset `mod` 256] m1) as (m2 & -> & W2); [by_bytes|lia|rewrite zlen_one; lia|]. cbn [mbind outcome_bind].
    exists t, m2. split_and!; [done|exact (wrote_app _ _ _ _ _ _ W1 W2)|done|].
    intros a Ha. apply copy_denotes; [|lia]. intros rest. apply copy_1_element; lia.
  - set (t := [2 + (len - 1) * 4; offset `mod` 256; offset / 256]).
    assert (Et : u8 (COPY_2_BYTE_OFFSET + (len - 1) ≪ 2) = 2 + (len - 1) * 4).
    { unfold COPY_2_BYTE_OFFSET. rewrite !Z.shiftl_mul_pow2 by lia. apply u8_small. lia. }
    rewrite Et. unfold Store16. rewrite (u16_small offset), Z.shiftr_div_pow2 by lia. change (2 ^ 8) with 256. rewrite (u8_small (offset / 256)) by dlia.
    destruct (mwrite_wrote op [2 + (len - 1) * 4] m) as (m1 & -> & W1); [by_bytes|lia|rewrite zlen_one; lia|]. cbn [mbind outcome_bind].
    assert (Hl : zlen m1 = zlen m) by apply W1.
    destruct (mwrite_wrote (op + 1) [u8 offset; offset / 256] m1) as (m2 & -> & W2); [by_bytes|lia|change (zlen [_; _]) with 2; lia|]. cbn [mbind outcome_bind].
    exists t, m2. split_and!; [done|exact (wrote_app _ _ _ _ _ _ W1 W2)|done|].
    intros a Ha. apply copy_denotes; [|lia]. intros rest. apply copy_2_element; lia.
Qed.

(** Two pieces of one copy. *)
Lemma copies_denote s t offset a b x :
  0 <= a -> 0 <= b -> offset <= zlen x ->
  (forall x, offset <= zlen x -> denotes s x (self_copy offset (Z.to_nat a) x)) ->
  (forall x, offset <= zlen x -> denotes t x (self_copy offset (Z.to_nat b) x)) ->
  denotes (s ++ t) x (self_copy offset (Z.to_nat (a + b)) x).
Proof.
  intros Ha Hb Hx Hs Ht. rewrite Z2Nat.inj_add, self_copy_add by lia. eapply denotes_app; [by apply Hs|]. apply Ht. rewrite zlen_self_copy. lia.
Qed.

Lemma emit_copies_spec fuel : forall op offset len m,
  0 <= op -> 4 <= len < Z.of_nat fuel -> 1 <= offset < 65536 -> op + len <= zlen m ->
  exists s m' len', emit_copies fuel op offset len m = Ok (op + zlen s, len', m') /\ wrote op m s m' /\ 4 <= len' < 68 /\ zlen s <= len - len' /\
    forall x, offset <= zlen x -> denotes s x (self_copy offset (Z.to_nat (len - len')) x).
Proof.
  induction fuel as [|fuel IH]; intros op offset len m Hop Hlen Ho Hm; [lia|]. cbn [emit_copies]. case_if; zbool.
  - destruct (EmitCopyLessThan64_spec op offset 64 m) as (s & m1 & -> & W1 & Hs & Hd); [lia..|]. cbn [mbind outcome_bind].
    assert (Hl : zlen m1 = zlen m) by apply W1. pose proof (zlen_nonneg s).
    destruct (IH (op + zlen s) offset (len - 64) m1) as (t & m2 & len' & -> & W2 & Hlen' & Ht & Hd'); [lia..|].
    exists (s ++ t), m2, len'. rewrite zlen_app. split_and!; [f_equal; f_equal; f_equal; lia|by eapply wrote_app|lia..|].
    intros x Hx. replace (len - len') with (64 + (len - 64 - len')) by lia. pose proof (zlen_nonneg t). apply copies_denote; (done || lia).
  - exists [], m, len. rewrite (@zlen_nil Z), Z.add_0_r, Z.sub_diag. split_and!; [done|apply wrote_nil; lia|lia..|]. intros x Hx. apply denotes_nil.
Qed.

Lemma EmitCopy_spec op offset len m :
  0 <= op -> 4 <= len -> 1 <= offset < 65536 -> op + len <= zlen m ->
  exists s m', EmitCopy op offset len m = Ok (op + zlen s, m') /\ wrote op m s m' /\ zlen s <= len - 1 /\
    forall x, offset <= zlen x -> denotes s x (self_copy offset (Z.to_nat len) x).
Proof.
  intros Hop Hlen Ho Hm. unfold EmitCopy.
  destruct (emit_copies_spec (S (Z.to_nat len)) op offset len m) as (s & m1 & len' & -> & W1 & Hlen' & Hs & Hd); [lia..|].
  cbn [mbind outcome_bind]. assert (Hl : zlen m1 = zlen m) by apply W1. pose proof (zlen_nonneg s). destruct (64 <? len') eqn:E; zbool.
  - destruct (EmitCopyLessThan64_spec (op + zlen s) offset 60 m1) as (t & m2 & -> & W2 & Ht & Hdt); [lia..|]. cbn [mbind outcome_bind].
    assert (Hl2 : zlen m2 = zlen m) by (rewrite <- Hl; apply W2). pose proof (zlen_nonneg t).
    destruct (EmitCopyLessThan64_spec (op + zlen s + zlen t) offset (len' - 60) m2) as (u & m3 & -> & W3 & Hu & Hdu); [lia..|].
    exists (s ++ t ++ u), m3. rewrite !zlen_app. split_and!; [f_equal; f_equal; lia| |lia|].
    + eapply wrote_app; [done|]. by eapply wrote_app.
    + intros x Hx. replace len with ((len - len') + (60 + (len' - 60))) by lia. apply copies_denote; [lia..|done|]. intros y Hy. apply copies_denote; (done || lia).
  - destruct (EmitCopyLessThan64_spec (op + zlen s) offset len' m1) as (t & m2 & E2 & W2 & Ht & Hdt); [lia..|]. cbn [mbind outcome_bind]. rewrite E2.
    exists (s ++ t), m2. rewrite zlen_app. split_and!; [f_equal; f_equal; lia|by eapply wrote_app|lia|].
    intros x Hx. replace len with ((len - len') + len') at 1 by lia. apply copies_denote; (done || lia).
Qed.
