(* ===== verification/SnappyFragmentSpec.v ===== *)
(** * [flare/io/snappy]: the compressed block

    [CompressFragment] stays inside its buffers, none of its assertions fails,
    its loops end, and the bytes it emits decode to the block. *)

From S2P Require Import Prelude Bits Buffers SnappyFormat SnappyStubs SnappyFragment SnappyEncode.
Local Open Scope Z_scope.

(** ** Matching *)

Lemma common_agree s : forall t : list Z, forall k, 0 <= k < common s t -> zget s k = zget t k.
Proof.
  induction s as [|a s IH]; intros [|b t] k Hk; cbn [common] in Hk; try lia. destruct (decide (a = b)) as [->|]; [|lia].
  destruct (decide (k = 0)) as [->|]; [done|]. replace k with (k - 1 + 1) by lia. rewrite !zget_cons_S by lia. apply IH. lia.
Qed.

Lemma common_differ s : forall t : list Z, common s t < zlen s -> common s t < zlen t -> zget s (common s t) <> zget t (common s t).
Proof.
  induction s as [|a s IH]; intros [|b t]; cbn [common]; rewrite ?zlen_cons, ?(@zlen_nil Z); intros H1 H2; try lia.
  destruct (decide (a = b)) as [->|Hne]; [|by intros [=]]. pose proof (common_bounds s t). rewrite (Z.add_comm 1), !zget_cons_S by lia. apply IH; lia.
Qed.

(** The [n] bytes at two places are the same. *)
Definition agree (input : list Z) (p q n : Z) : Prop := forall k, 0 <= k < n -> zget input (p + k) = zget input (q + k).

Lemma agree_app input p q a b : 0 <= a -> agree input p q a -> agree input (p + a) (q + a) b -> agree input p q (a + b).
Proof.
  intros Ha H1 H2 k Hk. destruct (Z.lt_ge_cases k a); [by apply H1; lia|].
  specialize (H2 (k - a) ltac:(lia)). by replace (p + a + (k - a)) with (p + k) in H2 by lia; replace (q + a + (k - a)) with (q + k) in H2 by lia.
Qed.

Lemma agree_part input p q n :
  0 <= p -> 0 <= q -> 0 <= n -> p + n <= zlen input -> q + n <= zlen input -> agree input p q n -> part p n input = part q n input.
Proof. intros. apply part_ext; auto. Qed.

Section input.
Context (input : list Z) (Hinput : bytes_ok input).

(** The longest match of two places below [limit]. *)
Definition longest (p q limit n : Z) : Prop :=
  0 <= n <= limit - q /\ agree input p q n /\ (n < limit - q -> zget input (p + n) <> zget input (q + n)).

Lemma match_bytes_spec fuel p q limit : forall matched,
  limit - q - matched < Z.of_nat fuel -> 0 <= p < q -> 0 <= matched <= limit - q -> limit <= zlen input -> agree input p q matched ->
  exists n, match_bytes fuel input p (q + matched) limit matched = Ok n /\ longest p q limit n.
Proof using Type.
  induction fuel as [|fuel IH]; intros matched Hf Hp Hm Hl Ha; [lia|]. cbn [match_bytes]. case_if; zbool.
  - destruct (zget_lt input (p + matched) ltac:(lia)) as [a Ea]. destruct (zget_lt input (q + matched) ltac:(lia)) as [b Eb].
    rewrite (mget_ok _ _ _ Ea), (mget_ok _ _ _ Eb). cbn [mbind outcome_bind]. case_if; zbool.
    + subst b. rewrite <- Z.add_assoc. apply IH; [lia..|]. apply agree_app; [lia|done|]. intros k Hk.
      assert (k = 0) as -> by lia. by rewrite !Z.add_0_r, Ea, Eb.
    + exists matched. split; [done|]. split_and!; [lia..|done|]. intros _. congruence.
  - exists matched. split; [done|]. split_and!; [lia..|done|lia].
Qed.

Lemma words_agree p q : 0 <= p -> 0 <= q -> p + 8 <= zlen input -> q + 8 <= zlen input ->
  le_word (part q 8 input) = le_word (part p 8 input) -> agree input p q 8.
Proof using Hinput.
  intros Hp Hq Hpl Hql E. apply le_word_inj in E; [|by apply bytes_ok_part..|].
  - intros k Hk. rewrite <- (zget_part _ p 8), <- (zget_part _ q 8) by lia. by rewrite E.
  - apply Nat2Z.inj. change (zlen (part q 8 input) = zlen (part p 8 input)). by rewrite !zlen_part by lia.
Qed.

Lemma words_differ p q : 0 <= p -> 0 <= q -> p + 8 <= zlen input -> q + 8 <= zlen input ->
  le_word (part q 8 input) <> le_word (part p 8 input) ->
  exists c, Z.shiftr (FindLSBSetNonZero64 (Z.lxor (le_word (part q 8 input)) (le_word (part p 8 input)))) 3 = c /\
    0 <= c < 8 /\ agree input p q c /\ zget input (p + c) <> zget input (q + c).
Proof using Hinput.
  intros Hp Hq Hpl Hql Hne. set (s := part q 8 input) in *. set (t := part p 8 input) in *.
  assert (Ls : zlen s = 8) by (apply zlen_part; lia). assert (Lt : zlen t = 8) by (apply zlen_part; lia).
  rewrite FindLSBSetNonZero64_common; [|by apply bytes_ok_part..|done|done|congruence]. exists (common s t). pose proof (common_bounds s t) as Hb.
  assert (H8 : common s t <> 8).
  { intros H8. apply Hne. f_equal. apply zget_eq; [congruence|]. intros i Hi. apply common_agree. lia. }
  split_and!; [done|lia..| |].
  - intros k Hk. pose proof (common_agree s t k Hk) as E. subst s t. rewrite !zget_part in E by lia. done.
  - pose proof (common_differ s t) as E. intros Heq. apply E; [lia..|]. unfold s at 1, t at 2. rewrite !zget_part by lia. done.
Qed.

Lemma match_words_spec fuel p q limit : forall matched,
  limit - q - matched + 1 < Z.of_nat fuel -> 0 <= p < q -> 0 <= matched <= limit - q -> limit <= zlen input -> agree input p q matched ->
  exists n, match_words fuel input p (q + matched) limit matched = Ok n /\ longest p q limit n.
Proof using Hinput.
  induction fuel as [|fuel IH]; intros matched Hf Hp Hm Hl Ha; [lia|]. cbn [match_words]. destruct (q + matched <=? limit - 8) eqn:E8; zbool.
  - rewrite !load64_ok by lia. cbn [mbind outcome_bind]. case_if; zbool.
    + rewrite <- Z.add_assoc. apply IH; [lia..|]. apply agree_app; [lia|done|]. apply words_agree; (done || lia).
    + destruct (words_differ (p + matched) (q + matched)) as (c & -> & Hc & Hac & Hne); [lia..|done|]. exists (matched + c).
      split; [done|]. split_and!; [lia..|by apply agree_app; [lia|..]|]. intros _. by rewrite !Z.add_assoc.
  - apply match_bytes_spec; (done || lia).
Qed.

(** [FindMatchLength] returns the largest [n] its comment promises. *)
Lemma FindMatchLength_spec p q limit :
  0 <= p < q -> q <= limit <= zlen input -> exists n, FindMatchLength input p q limit = Ok n /\ longest p q limit n.
Proof using Hinput.
  intros Hp Hq. unfold FindMatchLength, check. rewrite (proj2 (Z.leb_le _ _)) by lia. cbn [mbind outcome_bind].
  pose proof (match_words_spec (S (S (Z.to_nat (limit - q)))) p q limit 0) as H. rewrite Z.add_0_r in H. apply H; [lia..|]. intros k Hk. lia.
Qed.

(** ** Hashes and loaded words *)

(** The 32 bits at an offset in eight loaded bytes are those of a load there. *)
Lemma GetUint32AtOffset_spec p offset :
  0 <= p -> p + 8 <= zlen input -> 0 <= offset <= 4 ->
  GetUint32AtOffset (le_word (part p 8 input)) offset = Ok (le_word (part (p + offset) 4 input)).
Proof using Hinput.
  intros Hp Hl Ho. unfold GetUint32AtOffset, check. rewrite !(proj2 (Z.leb_le _ _)) by lia. cbn [mbind outcome_bind]. f_equal.
  replace 8 with (offset + (4 + (4 - offset))) at 1 by lia. rewrite !part_add by lia. rewrite !le_word_app by (by apply bytes_ok_part).
  rewrite !zlen_part by lia. rewrite Z.shiftr_div_pow2 by lia. change 256 with (2 ^ 8). rewrite <- !Z.pow_mul_r by lia.
  pose proof (le_word_range (part p offset input) ltac:(by apply bytes_ok_part)) as H1.
  pose proof (le_word_range (part (p + offset) 4 input) ltac:(by apply bytes_ok_part)) as H2. rewrite zlen_part in H1, H2 by lia.
  change 256 with (2 ^ 8) in H1. rewrite <- Z.pow_mul_r in H1 by lia. change (256 ^ 4) with (2 ^ (8 * 4)) in H2.
  rewrite Z.add_comm, Z.mul_comm, Z.div_add_l, (Z.div_small (le_word (part p offset input))), Z.add_0_r by lia.
  unfold u32. change 4294967296 with (2 ^ (8 * 4)). rewrite (Z.mul_comm (2 ^ (8 * 4))), Z.mod_add, Z.mod_small by lia. done.
Qed.
End input.

Lemma HashBytes_range w shift size : 0 <= shift <= 32 -> size = 2 ^ (32 - shift) -> 0 <= HashBytes w shift < size.
Proof.
  intros Hs ->. unfold HashBytes. rewrite Z.shiftr_div_pow2 by lia. pose proof (u32_range (w * 506832829)) as Hr.
  pose proof (Z.pow_pos_nonneg 2 shift ltac:(lia) ltac:(lia)). split; [apply Z.div_pos; lia|]. apply Z.div_lt_upper_bound; [lia|].
  rewrite <- Z.pow_add_r by lia. replace (shift + (32 - shift)) with 32 by lia. lia.
Qed.

Lemma Hash_ok m p shift : 0 <= p -> p + 4 <= zlen m -> Hash m p shift = Ok (HashBytes (le_word (part p 4 m)) shift).
Proof. intros. unfold Hash. by rewrite load32_ok by lia. Qed.

(** ** The loops *)

Section loops.
Context (input : list Z) (Hinput : bytes_ok input) (Hsize : zlen input <= 65536).
Context (shift size : Z) (Hshift : 0 <= shift <= 32) (Htable : size = 2 ^ (32 - shift)).

(** The positions in the table are below [ip]. *)
Definition table_ok (table : list Z) (ip : Z) : Prop :=
  zlen table = size /\ forall h v, zget table h = Some v -> 0 <= v < ip.

Lemma table_ok_le table ip ip' : ip <= ip' -> table_ok table ip -> table_ok table ip'.
Proof using All. intros Hle [Hl H]. split; [done|]. intros h v Hv. specialize (H h v Hv). lia. Qed.

Lemma table_get_spec table ip w :
  table_ok table ip -> exists v, table_get table (HashBytes w shift) = Ok v /\ 0 <= v < ip.
Proof using All.
  intros [Hl H]. pose proof (HashBytes_range w shift size Hshift Htable).
  destruct (zget_lt table (HashBytes w shift) ltac:(lia)) as [v Hv]. exists v. split; [by apply mget_ok|by eapply H].
Qed.

Lemma table_set_spec table ip w v :
  table_ok table ip -> 0 <= v < ip -> v < 65536 -> exists table', table_set (HashBytes w shift) v table = Ok table' /\ table_ok table' ip.
Proof using All.
  intros [Hl H] Hv H16. pose proof (HashBytes_range w shift size Hshift Htable) as Hr. unfold table_set.
  rewrite (proj2 (Z.leb_le _ _)), (proj2 (Z.ltb_lt _ _)) by lia. cbn [andb]. eexists. split; [done|]. rewrite u16_small by lia.
  split; [by rewrite zlen_zset|]. intros h x. destruct (decide (h = HashBytes w shift)) as [->|Hne].
  - rewrite zget_zset_eq by lia. intros [= <-]. done.
  - rewrite zget_zset_ne by (congruence || lia). apply H.
Qed.

Local Abbreviation ip_limit := (zlen input - kInputMarginBytes).

(** What the search finds. *)
Definition found_ok (ip : Z) (r : option (Z * Z * list Z)) : Prop :=
  match r with
  | None => True
  | Some (ip', candidate, table) =>
      ip <= ip' < ip_limit /\ 0 <= candidate < ip' /\ agree input candidate ip' 4 /\ table_ok table (ip' + 1)
  end.

Lemma load32_agree p q : 0 <= p -> 0 <= q -> p + 4 <= zlen input -> q + 4 <= zlen input ->
  le_word (part q 4 input) = le_word (part p 4 input) -> agree input p q 4.
Proof using All.
  intros Hp Hq Hpl Hql E. apply le_word_inj in E; [|by apply bytes_ok_part..|].
  - intros k Hk. rewrite <- (zget_part _ p 4), <- (zget_part _ q 4) by lia. by rewrite E.
  - apply Nat2Z.inj. change (zlen (part q 4 input) = zlen (part p 4 input)). by rewrite !zlen_part by lia.
Qed.

Lemma scan_spec fuel : forall ip skip table,
  zlen input - ip < Z.of_nat fuel -> 1 <= ip <= ip_limit + 1 -> 32 <= skip <= ip + 31 -> table_ok table ip ->
  exists r, scan input shift fuel ip (HashBytes (le_word (part ip 4 input)) shift) skip table = Ok r /\ found_ok ip r.
Proof using All.
  unfold kInputMarginBytes in *. induction fuel as [|fuel IH]; intros ip skip table Hf Hip Hskip Ht; [lia|].
  cbn [scan]. rewrite (Hash_ok input ip) by lia. cbn [mbind outcome_bind]. unfold check at 1. rewrite Z.eqb_refl. cbn [mbind outcome_bind].
  assert (Hb : 1 <= Z.shiftr skip 5) by (rewrite Z.shiftr_div_pow2 by lia; change (2 ^ 5) with 32; dlia).
  rewrite (u32_small (skip + 1)) by lia. unfold kInputMarginBytes in *. destruct (zlen input - 15 <? ip + skip ≫ 5) eqn:E; zbool; [by exists None|].
  rewrite Hash_ok by lia. cbn [mbind outcome_bind].
  destruct (table_get_spec table ip (le_word (part ip 4 input)) Ht) as (candidate & -> & Hc). cbn [mbind outcome_bind].
  unfold check. rewrite (proj2 (Z.leb_le 0 candidate)), (proj2 (Z.ltb_lt candidate ip)) by lia. cbn [mbind outcome_bind].
  destruct (table_set_spec table (ip + 1) (le_word (part ip 4 input)) ip) as (table' & -> & Ht'); [by apply (table_ok_le _ ip); [lia|]|lia..|].
  cbn [mbind outcome_bind]. rewrite !load32_ok by lia. cbn [mbind outcome_bind].
  destruct (le_word (part ip 4 input) =? le_word (part candidate 4 input)) eqn:Em; zbool; cbn [negb].
  - exists (Some (ip, candidate, table')). split; [done|]. cbn. unfold kInputMarginBytes. split_and!; [lia..| |done]. apply load32_agree; (done || lia).
  - destruct (IH (ip + skip ≫ 5) (skip + 1) table') as (r & E' & Hr); [lia..|by apply (table_ok_le _ (ip + 1)); [lia|]|].
    exists r. split; [done|]. destruct r as [[[ip' c] t]|]; [|done]. unfold found_ok, kInputMarginBytes in *. split_and!; try apply Hr. lia.
Qed.

(** A match of the block with itself is a copy. *)
Lemma match_self_copy candidate ip n :
  0 <= candidate < ip -> 0 <= n -> ip + n <= zlen input -> agree input candidate ip n ->
  self_copy (ip - candidate) (Z.to_nat n) (ztake ip input) = ztake (ip + n) input.
Proof using All.
  intros Hc Hn Hl Ha. assert (Hz : zlen (ztake ip input) = ip) by (apply zlen_ztake; lia).
  rewrite <- (self_copy_repeats _ _ (ztake ip input) input); rewrite ?Hz, ?Z2Nat.id by lia; [done|lia|done|lia|].
  intros i Hi. specialize (Ha (i - ip) ltac:(lia)). replace (ip + (i - ip)) with i in Ha by lia. rewrite <- Ha. f_equal. lia.
Qed.

(** After the copies: the loaded bytes and the table for another turn. *)
Definition more_ok (ip : Z) (more : option (Z * list Z)) : Prop :=
  match more with
  | None => True
  | Some (w, table) => ip < ip_limit /\ w = le_word (part (ip - 1) 8 input) /\ table_ok table (ip + 1)
  end.

Lemma copies_spec fuel : forall ip candidate op table m,
  zlen input - ip < Z.of_nat fuel -> 0 <= op -> 0 <= candidate < ip -> ip + 4 <= zlen input -> agree input candidate ip 4 ->
  table_ok table (ip + 1) -> op + (zlen input - ip) <= zlen m ->
  exists s m' ip' more, copies input shift fuel ip candidate op table m = Ok (ip', op + zlen s, m', more) /\ wrote op m s m' /\
    denotes s (ztake ip input) (ztake ip' input) /\ zlen s <= ip' - ip - 1 /\ ip + 4 <= ip' <= zlen input /\ more_ok ip' more.
Proof using All.
  induction fuel as [|fuel IH]; intros ip candidate op table m Hf Hop Hc Hip Ha Ht Hm; [lia|]. cbn [copies].
  destruct (FindMatchLength_spec input Hinput (candidate + 4) (ip + 4) (zlen input)) as (len & -> & Hlen & Hal & _); [lia..|]. cbn [mbind outcome_bind].
  assert (Hagree : agree input candidate ip (4 + len)) by (apply agree_app; [lia|done..]).
  rewrite !mread_ok by lia. cbn [mbind outcome_bind]. rewrite bool_decide_eq_true_2 by (symmetry; apply agree_part; (done || lia)). cbn [check mbind outcome_bind].
  destruct (EmitCopy_spec op (ip - candidate) (4 + len) m) as (s & m1 & -> & W1 & Hs & Hd); [lia..|]. cbn [mbind outcome_bind].
  assert (Hden : denotes s (ztake ip input) (ztake (ip + (4 + len)) input)).
  { rewrite <- (match_self_copy candidate ip (4 + len)) by (done || lia). apply Hd. rewrite zlen_ztake by lia. lia. }
  set (ip1 := ip + (4 + len)) in *. assert (Hl1 : zlen m1 = zlen m) by apply W1. pose proof (zlen_nonneg s).
  destruct (zlen input - kInputMarginBytes <=? ip1) eqn:E; unfold kInputMarginBytes in *; zbool.
  { exists s, m1, ip1, None. split_and!; try done; lia. }
  rewrite load64_ok by lia. cbn [mbind outcome_bind]. rewrite !GetUint32AtOffset_spec by (done || lia). cbn [mbind outcome_bind].
  destruct (table_set_spec table ip1 (le_word (part (ip1 - 1 + 0) 4 input)) (ip1 - 1)) as (t1 & -> & Ht1);
    [by apply (table_ok_le _ (ip + 1)); [lia|]|lia..|]. cbn [mbind outcome_bind].
  destruct (table_get_spec t1 ip1 (le_word (part (ip1 - 1 + 1) 4 input)) Ht1) as (c & -> & Hc1). cbn [mbind outcome_bind].
  rewrite load32_ok by lia. cbn [mbind outcome_bind].
  destruct (table_set_spec t1 (ip1 + 1) (le_word (part (ip1 - 1 + 1) 4 input)) ip1) as (t2 & -> & Ht2);
    [by apply (table_ok_le _ ip1); [lia|]|lia..|]. cbn [mbind outcome_bind]. replace (ip1 - 1 + 1) with ip1 by lia.
  destruct (le_word (part ip1 4 input) =? le_word (part c 4 input)) eqn:Em; zbool.
  - destruct (IH ip1 c (op + zlen s) t2 m1) as (u & m2 & ip2 & more & -> & W2 & Hd2 & Hu & Hip2 & Hmore); [lia..|by apply load32_agree; (done || lia)|done|lia|].
    exists (s ++ u), m2, ip2, more. rewrite zlen_app. split_and!; try done; [|by eapply wrote_app|by eapply denotes_app|lia..].
    f_equal. do 3 f_equal. lia.
  - exists s, m1, ip1, (Some (le_word (part (ip1 - 1) 8 input), t2)). split_and!; try done; unfold kInputMarginBytes; lia.
Qed.

Lemma fragment_loop_spec fuel : forall ip next_emit op table m,
  zlen input - ip < Z.of_nat fuel -> 0 <= op -> 0 <= next_emit < ip -> ip <= ip_limit + 1 -> table_ok table ip ->
  op + (zlen input - next_emit) + (zlen input - next_emit) / 32 + 17 <= zlen m ->
  exists s m' next_emit',
    fragment_loop input shift fuel ip (HashBytes (le_word (part ip 4 input)) shift) next_emit op table m = Ok (next_emit', op + zlen s, m') /\
    wrote op m s m' /\ denotes s (ztake next_emit input) (ztake next_emit' input) /\ next_emit <= next_emit' <= zlen input /\
    zlen s <= (next_emit' - next_emit) + (next_emit' - next_emit) / 32.
Proof using All.
  unfold kInputMarginBytes. induction fuel as [|fuel IH]; intros ip next_emit op table m Hf Hop Hne Hip Ht Hm; [lia|].
  cbn [fragment_loop]. unfold check. rewrite (proj2 (Z.ltb_lt _ _)) by lia. cbn [mbind outcome_bind].
  destruct (scan_spec (S (Z.to_nat (zlen input))) ip 32 table) as (r & -> & Hr); [lia|unfold kInputMarginBytes; lia|lia|done|]. cbn [mbind outcome_bind].
  destruct r as [[[ip1 candidate] t1]|].
  2: { exists [], m, next_emit. rewrite (@zlen_nil Z), Z.add_0_r, Z.sub_diag. split_and!; [done|apply wrote_nil; dlia|apply denotes_nil|lia|lia|done]. }
  unfold found_ok, kInputMarginBytes in Hr. destruct Hr as (Hip1 & Hc & Ha & Ht1).
  rewrite (proj2 (Z.leb_le _ _)) by lia. cbn [mbind outcome_bind].
  destruct (EmitLiteral_spec op input next_emit (ip1 - next_emit) true m) as (s & m1 & -> & W1 & Hs & Hd1);
    [done|lia..|unfold literal_overhead; repeat case_if; zbool; dlia|]. cbn [mbind outcome_bind].
  replace (next_emit + (ip1 - next_emit)) with ip1 in Hd1 by lia. assert (Hl1 : zlen m1 = zlen m) by apply W1. pose proof (zlen_nonneg s).
  assert (Hov : literal_overhead (ip1 - next_emit) <= 1 + (ip1 - next_emit) / 32 /\ 0 <= literal_overhead (ip1 - next_emit) <= 3).
  { unfold literal_overhead. repeat case_if; zbool; dlia. }
  destruct (copies_spec (S (Z.to_nat (zlen input))) ip1 candidate (op + zlen s) t1 m1) as (u & m2 & ip2 & more & -> & W2 & Hd2 & Hu & Hip2 & Hmore);
    [lia..|done|done|dlia|]. cbn [mbind outcome_bind]. pose proof (zlen_nonneg u).
  assert (Hsum : zlen (s ++ u) <= (ip2 - next_emit) + (ip2 - next_emit) / 32) by (rewrite zlen_app; dlia).
  pose proof (wrote_app _ _ _ _ _ _ W1 W2) as W. pose proof (denotes_app _ _ _ _ _ Hd1 Hd2) as Hd. rewrite <- Z.add_assoc, <- zlen_app.
  destruct more as [[w t2]|].
  2: { exists (s ++ u), m2, ip2. split_and!; (done || lia). }
  unfold more_ok, kInputMarginBytes in Hmore. destruct Hmore as (Hlim & -> & Ht2).
  rewrite GetUint32AtOffset_spec by (done || lia). cbn [mbind outcome_bind]. replace (ip2 - 1 + 2) with (ip2 + 1) by lia.
  assert (Hl2 : zlen m2 = zlen m) by apply W. pose proof (zlen_nonneg (s ++ u)).
  destruct (IH (ip2 + 1) ip2 (op + zlen (s ++ u)) t2 m2) as (v & m3 & ne & -> & W3 & Hd3 & Hne' & Hv); [lia|lia|lia|lia|done|rewrite Hl2; clear -Hm Hsum Hip2 Hne Hip1; dlia|].
  exists ((s ++ u) ++ v), m3, ne. rewrite (zlen_app (s ++ u)). split_and!; [do 3 f_equal; lia|by eapply wrote_app|by eapply denotes_app|lia..|dlia].
Qed.
End loops.

(** ** The block *)

(** The sizes of a hash table. *)
Definition table_bits (k : Z) : Prop := k ∈ [8; 9; 10; 11; 12; 13; 14].

Lemma GetHashTable_spec n : exists k, table_bits k /\ GetHashTable n = Ok (replicate (Z.to_nat (2 ^ k)) 0).
Proof.
  unfold GetHashTable. change (check (256 <=? kMaxHashTableSize)) with (Ok tt). cbn [mbind outcome_bind].
  cut (exists k, table_bits k /\ table_size_loop 8 256 n = Ok (2 ^ k)); [intros (k & Hk & ->); by exists k|].
  unfold table_bits. cbn [table_size_loop].
  repeat match goal with
  | |- context [(?a <? kMaxHashTableSize) && (?a <? n)] => let b := eval vm_compute in (a <? kMaxHashTableSize) in
      change (a <? kMaxHashTableSize) with b; cbn [andb]; try (destruct (a <? n))
  end; match goal with |- exists k, _ /\ Ok ?x = _ => let k := eval vm_compute in (Z.log2 x) in exists k end;
  (split; [by repeat first [left|right]|reflexivity]).
Qed.

Lemma table_start k ip : 0 <= k -> 0 < ip -> table_ok (2 ^ k) (replicate (Z.to_nat (2 ^ k)) 0) ip.
Proof.
  intros Hk Hip. split.
  - unfold zlen. rewrite length_replicate, Z2Nat.id; [done|]. apply Z.pow_nonneg. lia.
  - intros h v. unfold zget. case_if; [done|]. intros [-> _]%lookup_replicate. lia.
Qed.

Lemma CompressFragment_spec k input op m :
  table_bits k -> bytes_ok input -> zlen input <= 65536 -> 0 <= op -> op + zlen input + zlen input / 32 + 17 <= zlen m ->
  exists s m', CompressFragment input op (replicate (Z.to_nat (2 ^ k)) 0) m = Ok (op + zlen s, m') /\ wrote op m s m' /\
    denotes s [] input /\ zlen s <= zlen input + zlen input / 32 + 1.
Proof.
  intros Hk Hin Hsize Hop Hm. pose proof (zlen_nonneg input) as Hnn.
  assert (Hk14 : 8 <= k <= 14) by (unfold table_bits in Hk; set_unfold in Hk; lia).
  assert (Hz : zlen (replicate (Z.to_nat (2 ^ k)) 0) = 2 ^ k) by apply (table_start k 1 ltac:(lia) ltac:(lia)).
  assert (Hconst : Z.land (2 ^ k) (2 ^ k - 1) = 0 /\ Log2Floor (2 ^ k) = Ok k /\ Z.shiftr 4294967295 (32 - k) = 2 ^ k - 1).
  { clear -Hk. unfold table_bits in Hk. set_unfold in Hk. repeat destruct Hk as [->|Hk]; try done; vm_compute; auto. }
  destruct Hconst as (H1 & H2 & H3). unfold CompressFragment, check. rewrite Hz, H1, H2. cbn [Z.eqb mbind outcome_bind]. rewrite H3, Z.eqb_refl.
  rewrite (proj2 (Z.leb_le (zlen input) kBlockSize)) by (change kBlockSize with 65536; lia). cbn [mbind outcome_bind].
  assert (Hrem : forall ne op' m', 0 <= ne <= zlen input -> 0 <= op' -> op' + (zlen input - ne) + 3 <= zlen m' ->
    exists s m'', emit_remainder input ne op' m' = Ok (op' + zlen s, m'') /\ wrote op' m' s m'' /\ denotes s (ztake ne input) input /\
      zlen s <= (zlen input - ne) + (zlen input - ne) / 32 + 1).
  { intros ne op' m' Hne Hop' Hm'. unfold emit_remainder. case_if; zbool.
    - destruct (EmitLiteral_spec op' input ne (zlen input - ne) false m') as (s & m'' & E & W & Hs & Hd); [done|lia..|done|unfold literal_overhead; repeat case_if; zbool; lia|].
      exists s, m''. replace (ne + (zlen input - ne)) with (zlen input) in Hd by lia. rewrite (ztake_all (zlen input) input) in Hd by lia.
      split_and!; [done..|]. rewrite Hs. unfold literal_overhead. repeat case_if; zbool; dlia.
    - exists [], m'. rewrite (@zlen_nil Z), Z.add_0_r. split_and!; [done|apply wrote_nil; lia| |dlia].
      rewrite ztake_all by lia. apply denotes_nil. }
  destruct (kInputMarginBytes <=? zlen input) eqn:E; unfold kInputMarginBytes in E; zbool.
  - rewrite Hash_ok by lia. cbn [mbind outcome_bind].
    destruct (fragment_loop_spec input Hin Hsize (32 - k) (2 ^ k) ltac:(lia) ltac:(by replace (32 - (32 - k)) with k by lia)
      (S (Z.to_nat (zlen input))) 1 0 op (replicate (Z.to_nat (2 ^ k)) 0) m) as (s & m1 & ne & -> & W1 & Hd1 & Hne & Hs);
      [lia..|unfold kInputMarginBytes; lia|apply table_start; lia|rewrite Z.sub_0_r; lia|]. cbn [mbind outcome_bind].
    assert (Hl : zlen m1 = zlen m) by apply W1. pose proof (zlen_nonneg s). rewrite Z.sub_0_r in Hs.
    destruct (Hrem ne (op + zlen s) m1) as (t & m2 & -> & W2 & Hd2 & Ht); [lia..|dlia|]. exists (s ++ t), m2. rewrite zlen_app.
    split_and!; [do 2 f_equal; lia|by eapply wrote_app|by eapply denotes_app|dlia].
  - destruct (Hrem 0 op m) as (s & m1 & -> & W & Hd & Hs); [lia..|dlia|]. exists s, m1. rewrite Z.sub_0_r in Hs. by split_and!.
Qed.
