(* ===== verification/SnappyIO.v ===== *)
(** * [flare/io/snappy/snappy-sinksource]: where bytes come from and go to

    [Source] and [Sink] as the classes of the operations that compressor and
    decompressor call, and what they rely on as classes of laws.  Instances are
    the flat array and the [cord_buf] of [flare/io/cord_buf.h] as sources, and
    the unchecked array as sink; the [cord_buf] as sink is in [SnappyCord]. *)

From S2P Require Import Prelude Bits Buffers SnappyEncode.
Local Open Scope Z_scope.

(** ** Sources *)

Class Source (S : Type) := {
  Available : S -> Z;
  Peek : S -> outcome (list Z * S);
  Skip : Z -> S -> outcome S
}.

(** [left s l]: [l] are the bytes left.  [Peek] shows some of them, none only at
    the end. *)
Class SourceLaws (S : Type) `{Source S} := {
  left : S -> list Z -> Prop;
  left_available s l : left s l -> Available s = zlen l;
  left_peek s l : left s l -> exists p r s', Peek s = Ok (p, s') /\ left s' l /\ l = p ++ r /\ (p = [] -> l = []);
  left_skip s l n : left s l -> 0 <= n <= zlen l -> exists s', Skip n s = Ok s' /\ left s' (zdrop n l)
}.

(** [ByteArraySource]: the array, [ptr_] and [left_]. *)
Record ByteArraySource := mk_array_source { as_data : list Z; as_ptr : Z; as_left : Z }.

#[export] Instance ByteArraySource_source : Source ByteArraySource := {
  Available s := as_left s;
  Peek s := p ← mread (as_data s) (as_ptr s) (as_left s); Ok (p, s);
  Skip n s := Ok (mk_array_source (as_data s) (as_ptr s + n) (u64 (as_left s - n)))
}.

Definition array_source (data : list Z) : ByteArraySource := mk_array_source data 0 (zlen data).

Definition array_left (s : ByteArraySource) (l : list Z) : Prop :=
  0 <= as_ptr s /\ as_left s = zlen l /\ zdrop (as_ptr s) (as_data s) = l /\ as_ptr s + zlen l = zlen (as_data s) /\ zlen l < 2 ^ 64.

Lemma array_left_peek s l : array_left s l -> exists p r s', Peek s = Ok (p, s') /\ array_left s' l /\ l = p ++ r /\ (p = [] -> l = []).
Proof.
  intros (Hp & Hl & Hd & He & Hb). pose proof (zlen_nonneg l). exists l, [], s. cbn [Peek ByteArraySource_source].
  rewrite mread_ok by lia. cbn [mbind outcome_bind]. rewrite app_nil_r. unfold part. rewrite Hd, Hl, ztake_all by lia. done.
Qed.

Lemma array_left_skip s l n : array_left s l -> 0 <= n <= zlen l -> exists s', Skip n s = Ok s' /\ array_left s' (zdrop n l).
Proof.
  intros (Hp & Hl & Hd & He & Hb) Hn. eexists. split; [done|]. unfold array_left. cbn [as_data as_ptr as_left].
  rewrite zlen_zdrop by lia. rewrite Hl, u64_small by lia. split_and!; try lia. rewrite <- zdrop_zdrop by lia. by rewrite Hd.
Qed.

#[export] Instance ByteArraySource_laws : SourceLaws ByteArraySource := {
  left := array_left;
  left_available s l H := proj1 (proj2 H);
  left_peek := array_left_peek;
  left_skip := array_left_skip
}.

Lemma array_source_left data : zlen data < 2 ^ 64 -> left (array_source data) data.
Proof. intros. pose proof (zlen_nonneg data). unfold left, ByteArraySource_laws, array_left. cbn. split_and!; done || lia. Qed.

(** ** A [cord_buf] as source *)

(** [cord_buf_as_zero_copy_input_stream]: the bytes that the references of the
    buffer show, in order, and the position of the stream. *)
Record cord_source := mk_cord_source { _refs : list (list Z); _ref_index : Z; _add_offset : Z; _byte_count : Z }.

(** [Next]: [None] at the end. *)
Definition stream_Next (s : cord_source) : option (list Z) * cord_source :=
  match zget (_refs s) (_ref_index s) with
  | None => (None, s)
  | Some cur => (Some (zdrop (_add_offset s) cur),
                 mk_cord_source (_refs s) (_ref_index s + 1) 0 (_byte_count s + (zlen cur - _add_offset s)))
  end.

Definition stream_BackUp (count : Z) (s : cord_source) : outcome cord_source :=
  if 0 <? _ref_index s then
    cur ← deref (zget (_refs s) (_ref_index s - 1));
    _ ← check ((_add_offset s =? 0) && (u32 count <=? zlen cur));
    Ok (mk_cord_source (_refs s) (_ref_index s - 1) (zlen cur - count) (_byte_count s - count))
  else Abort.

Fixpoint stream_skip_loop (fuel : nat) (count : Z) (s : cord_source) : outcome cord_source :=
  match fuel with
  | O => Undefined
  | S fuel =>
      match zget (_refs s) (_ref_index s) with
      | None => Ok s
      | Some cur =>
          let left_bytes := zlen cur - _add_offset s in
          if count <? left_bytes then Ok (mk_cord_source (_refs s) (_ref_index s) (_add_offset s + count) (_byte_count s + count))
          else stream_skip_loop fuel (count - left_bytes) (mk_cord_source (_refs s) (_ref_index s + 1) 0 (_byte_count s + left_bytes))
      end
  end.

Definition stream_Skip (count : Z) (s : cord_source) : outcome cord_source := stream_skip_loop (S (length (_refs s))) (s32 count) s.

(** [cord_buf_as_snappy_source]. *)
#[export] Instance cord_source_source : Source cord_source := {
  Available s := u64 (zlen (concat (_refs s)) - _byte_count s);
  Peek s :=
    match stream_Next s with
    | (Some buffer, s) => s ← stream_BackUp (s32 (zlen buffer)) s; Ok (buffer, s)
    | (None, s) => Ok ([], s)
    end;
  Skip n s := stream_Skip n s
}.

Definition cord_source_of (refs : list (list Z)) : cord_source := mk_cord_source refs 0 0 0.

(** The bytes from the position on. *)
Definition cord_rest (s : cord_source) : list Z := zdrop (_add_offset s) (concat (zdrop (_ref_index s) (_refs s))).

(** References are not empty, and the position is inside of one or at the end. *)
Definition cord_left (s : cord_source) (l : list Z) : Prop :=
  l = cord_rest s /\ Forall (fun r => r <> []) (_refs s) /\ 0 <= _ref_index s <= zlen (_refs s) /\ 0 <= _add_offset s /\
  match zget (_refs s) (_ref_index s) with Some cur => _add_offset s < zlen cur | None => _add_offset s = 0 end /\
  _byte_count s = zlen (concat (_refs s)) - zlen l /\ zlen (concat (_refs s)) < 2 ^ 31.

Lemma cord_rest_split s l cur :
  cord_left s l -> zget (_refs s) (_ref_index s) = Some cur ->
  l = zdrop (_add_offset s) cur ++ concat (zdrop (_ref_index s + 1) (_refs s)).
Proof.
  intros (-> & _ & Hi & Ho & Hin & _) E. rewrite E in Hin. unfold cord_rest. rewrite <- zdrop_app_le by lia. f_equal.
  rewrite <- zdrop_zdrop by lia. assert (Ed : zdrop (_ref_index s) (_refs s) = cur :: zdrop 1 (zdrop (_ref_index s) (_refs s))); [|by rewrite Ed at 1].
  unfold zget in E. case_if_in E; [done|]. unfold zdrop at 1 3. rewrite (drop_S _ cur) by done. done.
Qed.

Lemma cord_left_end s l : cord_left s l -> zget (_refs s) (_ref_index s) = None -> l = [] /\ _ref_index s = zlen (_refs s).
Proof.
  intros (-> & _ & Hi & Ho & Hin & _) E. rewrite E in Hin. assert (Hz : _ref_index s = zlen (_refs s)).
  { destruct (Z.lt_ge_cases (_ref_index s) (zlen (_refs s))); [|lia]. destruct (zget_lt (_refs s) (_ref_index s)) as [? ?]; [lia|congruence]. }
  unfold cord_rest. rewrite Hin, (zdrop_all (_ref_index s)) by lia. done.
Qed.

Lemma zlen_concat_drop (refs : list (list Z)) i : zlen (concat (zdrop i refs)) <= zlen (concat refs).
Proof.
  rewrite <- (ztake_zdrop i refs) at 2. rewrite concat_app, zlen_app. pose proof (zlen_nonneg (concat (ztake i refs))). lia.
Qed.

Lemma cord_left_le s l : cord_left s l -> zlen l <= zlen (concat (_refs s)).
Proof.
  intros (-> & _ & Hi & Ho & _). unfold cord_rest. pose proof (zlen_concat_drop (_refs s) (_ref_index s)). unfold zlen, zdrop in *. rewrite length_drop. lia.
Qed.

Lemma cord_left_available s l : cord_left s l -> Available s = zlen l.
Proof.
  intros H. pose proof (cord_left_le s l H). pose proof (zlen_nonneg l). destruct H as (_ & _ & _ & _ & _ & Hb & Hlt). cbn. rewrite Hb, u64_small; lia.
Qed.

Lemma cord_left_peek s l : cord_left s l -> exists p r s', Peek s = Ok (p, s') /\ cord_left s' l /\ l = p ++ r /\ (p = [] -> l = []).
Proof.
  intros H. pose proof (cord_left_le s l H) as Hle. destruct (zget (_refs s) (_ref_index s)) as [cur|] eqn:E.
  - pose proof (cord_rest_split s l cur H E) as Hl. exists (zdrop (_add_offset s) cur), (concat (zdrop (_ref_index s + 1) (_refs s))), s.
    pose proof H as (_ & _ & Hi & Ho & Hin & Hb & Hlt). rewrite E in Hin. assert (Hz : zlen (zdrop (_add_offset s) cur) = zlen cur - _add_offset s) by (apply zlen_zdrop; lia).
    assert (Hcur : zlen cur - _add_offset s <= zlen l) by (rewrite <- Hz, Hl, zlen_app; pose proof (zlen_nonneg (concat (zdrop (_ref_index s + 1) (_refs s)))); lia).
    assert (Hfit : zlen cur < 2 ^ 31).
    { unfold zget in E. case_if_in E; [done|]. apply list_elem_of_lookup_2 in E. apply list_elem_of_split in E as (a & b & Er). rewrite Er in Hlt.
      rewrite concat_app, zlen_app in Hlt. cbn [concat] in Hlt. rewrite zlen_app in Hlt. pose proof (zlen_nonneg (concat a)). pose proof (zlen_nonneg (concat b)). lia. }
    split_and!; [|done..|].
    + cbn [Peek cord_source_source]. unfold stream_Next. rewrite E. unfold stream_BackUp. cbn [_refs _ref_index _add_offset _byte_count].
      rewrite (proj2 (Z.ltb_lt _ _)) by lia. replace (_ref_index s + 1 - 1) with (_ref_index s) by lia. rewrite E. cbn [deref mbind outcome_bind].
      rewrite Hz, s32_small, u32_small by lia. unfold check. rewrite (proj2 (Z.leb_le _ _)) by lia. cbn [Z.eqb andb mbind outcome_bind]. f_equal. f_equal.
      destruct s as [refs i o c]. cbn. f_equal; lia.
    + intros Hnil. rewrite Hnil in Hz. rewrite (@zlen_nil Z) in Hz. lia.
  - destruct (cord_left_end s l H E) as [-> _]. exists [], [], s. split_and!; try done. cbn. unfold stream_Next. by rewrite E.
Qed.

Lemma stream_skip_spec fuel : forall s l n,
  cord_left s l -> 0 <= n <= zlen l -> zlen (_refs s) - _ref_index s < Z.of_nat fuel ->
  exists s', stream_skip_loop fuel n s = Ok s' /\ cord_left s' (zdrop n l).
Proof.
  induction fuel as [|fuel IH]; intros s l n H Hn Hf; [pose proof H as (_ & _ & Hi & _); lia|]. cbn [stream_skip_loop].
  destruct (zget (_refs s) (_ref_index s)) as [cur|] eqn:E.
  - pose proof (cord_rest_split s l cur H E) as Hl. pose proof H as (Hr & Hne & Hi & Ho & Hin & Hb & Hlt). rewrite E in Hin.
    assert (Hz : zlen (zdrop (_add_offset s) cur) = zlen cur - _add_offset s) by (apply zlen_zdrop; lia).
    pose proof (zget_Some_lt _ _ _ E) as Hri. case_if; zbool.
    + eexists. split; [done|]. unfold cord_left. cbn [_refs _ref_index _add_offset _byte_count]. rewrite E, zlen_zdrop by lia.
      split_and!; try done; try lia. unfold cord_rest in *. cbn [_refs _ref_index _add_offset]. rewrite Hr, zdrop_zdrop by lia. done.
    + set (s1 := mk_cord_source (_refs s) (_ref_index s + 1) 0 (_byte_count s + (zlen cur - _add_offset s))).
      set (l1 := concat (zdrop (_ref_index s + 1) (_refs s))) in *.
      assert (Hlen : zlen l = zlen cur - _add_offset s + zlen l1) by (rewrite Hl, zlen_app; lia).
      assert (H1 : cord_left s1 l1).
      { unfold cord_left, cord_rest. cbn [s1 _refs _ref_index _add_offset _byte_count]. split_and!; try done; try lia.
        destruct (zget (_refs s) (_ref_index s + 1)) as [r|] eqn:E1; [|done]. unfold zget in E1. case_if_in E1; [done|].
        pose proof (Forall_lookup_1 _ _ _ _ Hne E1) as Hr1. destruct r; [done|]. rewrite zlen_cons. pose proof (zlen_nonneg r). lia. }
      destruct (IH s1 l1 (n - (zlen cur - _add_offset s)) H1) as (s2 & E2 & H2); [lia|cbn; lia|]. exists s2. split; [done|].
      replace (zdrop n l) with (zdrop (n - (zlen cur - _add_offset s)) l1); [done|]. rewrite Hl, zdrop_app_ge by lia. f_equal. lia.
  - destruct (cord_left_end s l H E) as [-> _]. exists s. split; [done|]. by destruct (Z.to_nat n) eqn:En; unfold zdrop; rewrite En.
Qed.

Lemma cord_left_skip s l n : cord_left s l -> 0 <= n <= zlen l -> exists s', Skip n s = Ok s' /\ cord_left s' (zdrop n l).
Proof.
  intros H Hn. pose proof (cord_left_le s l H). pose proof H as (_ & _ & Hi & _ & _ & _ & Hlt). cbn [Skip cord_source_source]. unfold stream_Skip.
  rewrite s32_small by lia. apply stream_skip_spec; [done..|]. unfold zlen in *. lia.
Qed.

#[export] Instance cord_source_laws : SourceLaws cord_source := {
  left := cord_left;
  left_available := cord_left_available;
  left_peek := cord_left_peek;
  left_skip := cord_left_skip
}.

Lemma cord_source_left refs : Forall (fun r => r <> []) refs -> zlen (concat refs) < 2 ^ 31 -> left (cord_source_of refs) (concat refs).
Proof.
  intros Hne Hlt. unfold left, cord_source_laws, cord_left, cord_rest. cbn [cord_source_of _refs _ref_index _add_offset _byte_count].
  change (zdrop 0 refs) with refs. change (zdrop 0 (concat refs)) with (concat refs). pose proof (zlen_nonneg refs). split_and!; try done; try lia.
  destruct (zget refs 0) as [r|] eqn:E; [|done]. destruct refs as [|r' refs]; [done|]. injection E as ->. apply Forall_cons in Hne as [Hr _].
  destruct r; [done|]. rewrite zlen_cons. pose proof (zlen_nonneg r). lia.
Qed.

(** ** Sinks *)

(** [GetAppendBuffer]: a place in the memory of the sink, or [None] for the
    scratch of the caller.  [AppendOwn mem n] is [Append] with that place, the
    memory being what the caller left; [Append s] copies other bytes. *)
Class Sink (K : Type) := {
  GetAppendBuffer : Z -> K -> outcome (option (list Z * Z) * K);
  GetAppendBufferVariable : Z -> Z -> K -> outcome (option (list Z * Z) * Z * K);
  AppendOwn : list Z -> Z -> K -> outcome K;
  Append : list Z -> K -> outcome K
}.

(** [AppendAndTakeOwnership]: the bytes are not those of [GetAppendBuffer]. *)
Definition AppendAndTakeOwnership {K} `{Sink K} (s : list Z) (k : K) : outcome K := Append s k.

(** [appended k out room]: [out] has been appended and there is room for [room]
    bytes. *)
Class SinkLaws (K : Type) `{Sink K} := {
  appended : K -> list Z -> Z -> Prop;
  append_law k out room s : appended k out room -> bytes_ok s -> zlen s <= room ->
    exists k', Append s k = Ok k' /\ appended k' (out ++ s) (room - zlen s);
  buffer_law k out room n : appended k out room -> 0 <= n ->
    exists place k', GetAppendBuffer n k = Ok (place, k') /\
      match place with
      | None => appended k' out room
      | Some (mem, off) =>
          0 <= off /\ off + Z.min n room <= zlen mem /\
          forall s mem', wrote off mem s mem' -> zlen s <= Z.min n room ->
            exists k'', AppendOwn mem' (zlen s) k' = Ok k'' /\ appended k'' (out ++ s) (room - zlen s)
      end;
  variable_law k out room desired : appended k out room -> 0 <= desired <= room ->
    exists place allocated k', GetAppendBufferVariable 1 desired k = Ok (place, allocated, k') /\
      match place with
      | None => allocated = 1 /\ appended k' out room
      | Some (mem, off) =>
          0 <= off /\ off + allocated <= zlen mem /\ allocated <= room /\ appended k' out room /\
          forall s mem', wrote off mem s mem' -> zlen s <= allocated ->
            exists k'', AppendOwn mem' (zlen s) k' = Ok k'' /\ appended k'' (out ++ s) (room - zlen s)
      end
}.

(** [UncheckedByteArraySink]: the array and [dest_]. *)
Record UncheckedByteArraySink := mk_array_sink { us_mem : list Z; us_dest : Z }.

#[export] Instance UncheckedByteArraySink_sink : Sink UncheckedByteArraySink := {
  GetAppendBuffer _ k := Ok (Some (us_mem k, us_dest k), k);
  GetAppendBufferVariable _ desired k := Ok (Some (us_mem k, us_dest k), desired, k);
  AppendOwn mem n k := Ok (mk_array_sink mem (us_dest k + n));
  Append s k := mem ← mwrite (us_dest k) s (us_mem k); Ok (mk_array_sink mem (us_dest k + zlen s))
}.

(** [out] is in the array from [base] on. *)
Definition array_appended (base : Z) (k : UncheckedByteArraySink) (out : list Z) (room : Z) : Prop :=
  0 <= base /\ us_dest k = base + zlen out /\ us_dest k + room <= zlen (us_mem k) /\ part base (zlen out) (us_mem k) = out.

Lemma array_wrote base k out room s mem :
  array_appended base k out room -> wrote (us_dest k) (us_mem k) s mem -> zlen s <= room ->
  array_appended base (mk_array_sink mem (us_dest k + zlen s)) (out ++ s) (room - zlen s).
Proof.
  intros (Hb & Hd & Hr & Hp) (H0 & Hl & Hs & E & _) Hle. pose proof (zlen_nonneg out). pose proof (zlen_nonneg s).
  unfold array_appended. cbn [us_mem us_dest]. rewrite zlen_app. split_and!; try lia.
  assert (Et : ztake (base + (zlen out + zlen s)) mem = ztake base (us_mem k) ++ out ++ s).
  { replace (base + (zlen out + zlen s)) with (us_dest k + zlen s) by lia. rewrite E, Hd, ztake_part, Hp, <- app_assoc by lia. done. }
  unfold part. replace (zlen out + zlen s) with (base + (zlen out + zlen s) - base) by lia. rewrite <- zdrop_ztake by lia. rewrite Et.
  apply zdrop_app_exact. rewrite zlen_ztake; lia.
Qed.

Lemma array_append_law base k out room s : array_appended base k out room -> bytes_ok s -> zlen s <= room ->
  exists k', Append s k = Ok k' /\ array_appended base k' (out ++ s) (room - zlen s).
Proof.
  intros H Hs Hr. pose proof H as (Hb & Hd & Hm & Hp). pose proof (zlen_nonneg out). cbn [Append UncheckedByteArraySink_sink].
  destruct (mwrite_wrote (us_dest k) s (us_mem k)) as (mem & -> & W); [done|lia..|]. eexists. split; [done|]. by apply array_wrote.
Qed.

Lemma array_buffer_law base k out room n : array_appended base k out room -> 0 <= n ->
  exists place k', GetAppendBuffer n k = Ok (place, k') /\
    match place with
    | None => array_appended base k' out room
    | Some (mem, off) =>
        0 <= off /\ off + Z.min n room <= zlen mem /\
        forall s mem', wrote off mem s mem' -> zlen s <= Z.min n room ->
          exists k'', AppendOwn mem' (zlen s) k' = Ok k'' /\ array_appended base k'' (out ++ s) (room - zlen s)
    end.
Proof.
  intros H Hn. pose proof H as (Hb & Hd & Hm & Hp). pose proof (zlen_nonneg out). eexists (Some (us_mem k, us_dest k)), k. split; [done|].
  split_and!; [lia..|]. intros s mem W Hr. eexists. split; [done|]. apply array_wrote; [done..|lia].
Qed.

Lemma array_variable_law base k out room desired : array_appended base k out room -> 0 <= desired <= room ->
  exists place allocated k', GetAppendBufferVariable 1 desired k = Ok (place, allocated, k') /\
    match place with
    | None => allocated = 1 /\ array_appended base k' out room
    | Some (mem, off) =>
        0 <= off /\ off + allocated <= zlen mem /\ allocated <= room /\ array_appended base k' out room /\
        forall s mem', wrote off mem s mem' -> zlen s <= allocated ->
          exists k'', AppendOwn mem' (zlen s) k' = Ok k'' /\ array_appended base k'' (out ++ s) (room - zlen s)
    end.
Proof.
  intros H Hn. pose proof H as (Hb & Hd & Hm & Hp). pose proof (zlen_nonneg out). eexists (Some (us_mem k, us_dest k)), _, k. split; [done|].
  split_and!; [lia..|done|]. intros s mem W Hr. eexists. split; [done|]. apply array_wrote; [done..|lia].
Qed.

(** The whole array belongs to the sink. *)
#[export] Instance UncheckedByteArraySink_laws : SinkLaws UncheckedByteArraySink := {
  appended := array_appended 0;
  append_law := array_append_law 0;
  buffer_law := array_buffer_law 0;
  variable_law := array_variable_law 0
}.
