(* ===== verification/SnappyCompress.v ===== *)
(** * [flare/io/snappy]: [Compress]

    The blocks of a source, compressed one after the other into a sink, and the
    entry points for flat arrays and strings. *)

From S2P Require Import Prelude Bits Buffers SnappyFormat SnappyStubs SnappyFragment SnappyEncode SnappyFragmentSpec SnappyIO.
Local Open Scope Z_scope.

Section compress.
Context {S K : Type} `{Source S} `{Sink K}.

(** [while (bytes_read < num_to_read)]: a block is put together in [scratch]. *)
Fixpoint fill_scratch (fuel : nat) (num_to_read : Z) (scratch : list Z) (reader : S) : outcome (list Z * S) :=
  match fuel with
  | O => Undefined
  | Datatypes.S fuel =>
      let bytes_read := zlen scratch in
      if bytes_read <? num_to_read then
        '(fragment, reader) ← Peek reader;
        let n := Z.min (zlen fragment) (num_to_read - bytes_read) in
        s ← mread fragment 0 n;
        reader ← Skip n reader;
        fill_scratch fuel num_to_read (scratch ++ s) reader
      else Ok (scratch, reader)
  end.

(** The next block, and how far the source is still to be advanced. *)
Definition next_block (num_to_read : Z) (reader : S) : outcome (list Z * Z * S) :=
  '(fragment, reader) ← Peek reader;
  let fragment_size := zlen fragment in
  _ ← check (negb (fragment_size =? 0));
  '(fragment, pending_advance, reader) ←
    (if num_to_read <=? fragment_size then
       s ← mread fragment 0 num_to_read; Ok (s, num_to_read, reader)
     else
       reader ← Skip fragment_size reader;
       '(scratch, reader) ← fill_scratch (Datatypes.S (Z.to_nat num_to_read)) num_to_read fragment reader;
       _ ← check (zlen scratch =? num_to_read);
       Ok (scratch, 0, reader));
  _ ← check (zlen fragment =? num_to_read);
  Ok (fragment, pending_advance, reader).

(** [CompressFragment] into the place of the sink or into [scratch_output], and
    [Append]: the number of bytes, the scratch and the sink. *)
Definition compress_block (fragment scratch_output : list Z) (max_output : Z) (writer : K) : outcome (Z * list Z * K) :=
  table ← GetHashTable (zlen fragment);
  '(place, writer) ← GetAppendBuffer max_output writer;
  match place with
  | Some (mem, dest) =>
      '(end_, mem) ← CompressFragment fragment dest table mem;
      writer ← AppendOwn mem (end_ - dest) writer;
      Ok (end_ - dest, scratch_output, writer)
  | None =>
      '(end_, scratch_output) ← CompressFragment fragment 0 table scratch_output;
      s ← mread scratch_output 0 end_;
      writer ← Append s writer;
      Ok (end_, scratch_output, writer)
  end.

(** [while (N > 0)].  [scratch_output] is allocated by the first turn. *)
Fixpoint compress_loop (fuel : nat) (N written : Z) (scratch_output : option (list Z)) (reader : S) (writer : K) : outcome (Z * S * K) :=
  match fuel with
  | O => Undefined
  | Datatypes.S fuel =>
      if 0 <? N then
        let num_to_read := Z.min N kBlockSize in
        '(fragment, pending_advance, reader) ← next_block num_to_read reader;
        let max_output := s32 (MaxCompressedLength num_to_read) in
        let scratch := match scratch_output with Some b => b | None => replicate (Z.to_nat max_output) 0 end in
        '(n, scratch, writer) ← compress_block fragment scratch max_output writer;
        reader ← Skip pending_advance reader;
        compress_loop fuel (N - num_to_read) (written + n) (Some scratch) reader writer
      else Ok (written, reader, writer)
  end.

Definition Compress (reader : S) (writer : K) : outcome (Z * S * K) :=
  let N := Available reader in
  let ulength := Encode32 (u32 N) in
  writer ← Append ulength writer;
  compress_loop (Datatypes.S (Z.to_nat N)) N (zlen ulength) None reader writer.
End compress.

(** [RawCompress]: the memory and [*compressed_length]. *)
Definition RawCompress (input compressed : list Z) : outcome (list Z * Z) :=
  '(_, _, writer) ← Compress (array_source input) (mk_array_sink compressed 0);
  Ok (us_mem writer, us_dest writer).

(** [Compress] of a string: resized to the largest length and cut afterwards. *)
Definition CompressString (input : list Z) : outcome (list Z) :=
  let compressed := replicate (Z.to_nat (MaxCompressedLength (zlen input))) 0 in
  '(compressed, compressed_length) ← RawCompress input compressed;
  mread compressed 0 compressed_length.

(** ** Blocks *)

Section compress_spec.
Context {S K : Type} `{SourceLaws S} `{SinkLaws K}.

Lemma fill_scratch_spec fuel : forall num scratch reader l,
  left reader l -> zlen scratch <= num -> num - zlen scratch <= zlen l -> num - zlen scratch < Z.of_nat fuel ->
  exists reader', fill_scratch fuel num scratch reader = Ok (scratch ++ ztake (num - zlen scratch) l, reader') /\
    left reader' (zdrop (num - zlen scratch) l).
Proof.
  induction fuel as [|fuel IH]; intros num scratch reader l Hl Hs Hn Hf; [lia|]. cbn [fill_scratch]. case_if; zbool.
  - destruct (left_peek reader l Hl) as (p & r & reader1 & -> & Hl1 & -> & Hnil). cbn [mbind outcome_bind].
    set (n := Z.min (zlen p) (num - zlen scratch)). pose proof (zlen_nonneg p). pose proof (zlen_nonneg r). rewrite zlen_app in Hn.
    assert (Hp : 0 < zlen p).
    { destruct p as [|x p]; [|rewrite zlen_cons; pose proof (zlen_nonneg p); lia]. specialize (Hnil eq_refl). cbn [app] in Hnil. subst r. rewrite (@zlen_nil Z) in *. lia. }
    rewrite mread_ok by lia. cbn [mbind outcome_bind]. destruct (left_skip reader1 (p ++ r) n Hl1) as (reader2 & -> & Hl2); [rewrite zlen_app; lia|].
    cbn [mbind outcome_bind]. assert (Hz : zlen (part 0 n p) = n) by (apply zlen_part; lia).
    destruct (IH num (scratch ++ part 0 n p) reader2 (zdrop n (p ++ r)) Hl2) as (reader3 & E & Hl3); rewrite ?zlen_app, ?Hz, ?zlen_zdrop, ?zlen_app; try lia.
    { rewrite zlen_app. lia. }
    exists reader3. rewrite zlen_app, Hz in E, Hl3. rewrite E. rewrite zdrop_zdrop in Hl3 by lia.
    replace (n + (num - (zlen scratch + n))) with (num - zlen scratch) in Hl3 by lia. split; [|done]. f_equal. f_equal. rewrite <- app_assoc. f_equal.
    replace (num - zlen scratch) with (n + (num - (zlen scratch + n))) by lia. rewrite ztake_add by lia. f_equal.
    rewrite part_0, ztake_app_le by lia. done.
  - assert (zlen scratch = num) as <- by lia. rewrite Z.sub_diag. exists reader. split; [|done]. change (ztake 0 l) with (@nil Z). by rewrite app_nil_r.
Qed.

Lemma next_block_spec num reader l :
  left reader l -> 0 < num <= zlen l ->
  exists pending reader', next_block num reader = Ok (ztake num l, pending, reader') /\
    exists reader'', Skip pending reader' = Ok reader'' /\ left reader'' (zdrop num l).
Proof.
  intros Hl Hn. unfold next_block. destruct (left_peek reader l Hl) as (p & r & reader1 & -> & Hl1 & El & Hnil). cbn [mbind outcome_bind].
  assert (Hp : 0 < zlen p).
  { destruct p as [|x p]; [|rewrite zlen_cons; pose proof (zlen_nonneg p); lia]. rewrite (Hnil eq_refl), (@zlen_nil Z) in Hn. lia. }
  assert (Hlen : zlen l = zlen p + zlen r) by (by rewrite El, zlen_app). pose proof (zlen_nonneg r).
  unfold check at 1. rewrite (proj2 (Z.eqb_neq _ _)) by lia. cbn [negb mbind outcome_bind]. destruct (num <=? zlen p) eqn:E; zbool.
  - rewrite mread_ok by lia. cbn [mbind outcome_bind]. rewrite zlen_part by lia. unfold check. rewrite Z.eqb_refl. cbn [mbind outcome_bind].
    exists num, reader1. split; [|by apply left_skip; [|lia]]. rewrite part_0, El, ztake_app_le by lia. done.
  - destruct (left_skip reader1 l (zlen p) Hl1) as (reader2 & -> & Hl2); [lia|]. cbn [mbind outcome_bind].
    destruct (fill_scratch_spec (Datatypes.S (Z.to_nat num)) num p reader2 (zdrop (zlen p) l) Hl2) as (reader3 & -> & Hl3); [lia|rewrite zlen_zdrop; lia|lia|].
    cbn [mbind outcome_bind]. rewrite El in Hl3. rewrite zdrop_app_exact in Hl3 by done. rewrite El, zdrop_app_exact by done.
    assert (Ez : zlen (p ++ ztake (num - zlen p) r) = num) by (rewrite zlen_app, zlen_ztake; lia). rewrite Ez. unfold check. rewrite Z.eqb_refl. cbn [mbind outcome_bind].
    rewrite Ez, Z.eqb_refl. cbn [mbind outcome_bind]. exists 0, reader3. rewrite ztake_app_ge by lia. split; [done|].
    destruct (left_skip reader3 _ 0 Hl3) as (reader4 & E4 & Hl4); [pose proof (zlen_nonneg (zdrop (num - zlen p) r)); lia|].
    exists reader4. split; [done|]. rewrite zdrop_app_ge by lia. exact Hl4.
Qed.

Lemma compress_block_spec x scratch max_output writer out room :
  bytes_ok x -> zlen x <= 65536 -> appended writer out room ->
  zlen x + zlen x / 32 + 17 <= Z.min room (Z.min max_output (zlen scratch)) ->
  exists s scratch' writer', compress_block x scratch max_output writer = Ok (zlen s, scratch', writer') /\ zlen scratch' = zlen scratch /\
    appended writer' (out ++ s) (room - zlen s) /\ bytes_ok s /\ denotes s [] x /\ zlen s <= zlen x + zlen x / 32 + 1.
Proof.
  intros Hx Hn Hw Hroom. pose proof (zlen_nonneg x). unfold compress_block. destruct (GetHashTable_spec (zlen x)) as (k & Hk & ->). cbn [mbind outcome_bind].
  destruct (buffer_law writer out room max_output Hw) as (place & writer1 & -> & Hplace); [dlia|]. cbn [mbind outcome_bind].
  destruct place as [[mem off]|].
  - destruct Hplace as (Hoff & Hmem & Hown). destruct (CompressFragment_spec k x off mem) as (s & mem' & -> & W & Hd & Hs); [done..|lia|]. cbn [mbind outcome_bind].
    replace (off + zlen s - off) with (zlen s) by lia. destruct (Hown s mem' W ltac:(lia)) as (writer2 & -> & Hw2). cbn [mbind outcome_bind].
    exists s, scratch, writer2. split_and!; try done. apply W.
  - destruct (CompressFragment_spec k x 0 scratch) as (s & scratch' & -> & W & Hd & Hs); [done..|lia|]. cbn [mbind outcome_bind].
    assert (Hlen : zlen scratch' = zlen scratch) by apply W. pose proof W as (_ & _ & Hfit & Es & Hb). pose proof (zlen_nonneg s).
    rewrite mread_ok by lia. cbn [mbind outcome_bind]. rewrite part_0, Es. change (ztake 0 scratch) with (@nil Z). cbn [app].
    destruct (append_law writer1 out room s Hplace Hb ltac:(lia)) as (writer2 & -> & Hw2). cbn [mbind outcome_bind]. exists s, scratch', writer2. by split_and!.
Qed.

Lemma MaxCompressedLength_small n : 0 <= n < 2 ^ 32 -> MaxCompressedLength n = 32 + n + n / 6.
Proof. intros. unfold MaxCompressedLength. apply u64_small. dlia. Qed.

(** The output buffer is allocated by the first block and no block is larger. *)
Definition scratch_fits (N : Z) (scratch : option (list Z)) : Prop :=
  match scratch with Some b => MaxCompressedLength (Z.min N kBlockSize) <= zlen b | None => True end.

Lemma compress_loop_spec fuel : forall l written scratch reader writer out room,
  left reader l -> bytes_ok l -> zlen l < Z.of_nat fuel -> scratch_fits (zlen l) scratch ->
  appended writer out room -> zlen l + zlen l / 6 + 17 <= room ->
  exists s reader' writer', compress_loop fuel (zlen l) written scratch reader writer = Ok (written + zlen s, reader', writer') /\
    left reader' [] /\ appended writer' (out ++ s) (room - zlen s) /\ bytes_ok s /\ denotes s [] l /\ zlen s <= zlen l + zlen l / 6 + 1.
Proof.
  change kBlockSize with 65536. unfold scratch_fits. change kBlockSize with 65536.
  induction fuel as [|fuel IH]; intros l written scratch reader writer out room Hl Hb Hf Hsc Hw Hroom; pose proof (zlen_nonneg l); [lia|]. cbn [compress_loop].
  case_if; zbool.
  2: { assert (l = []) as -> by (destruct l; [done|rewrite zlen_cons in *; pose proof (zlen_nonneg l); lia]).
       exists [], reader, writer. rewrite (@zlen_nil Z), Z.add_0_r, app_nil_r, Z.sub_0_r. split_and!; try done. }
  change kBlockSize with 65536. set (n := Z.min (zlen l) 65536) in *.
  destruct (next_block_spec n reader l Hl) as (pending & reader1 & -> & reader2 & Hskip & Hl2); [lia|]. cbn [mbind outcome_bind].
  assert (Hn : zlen (ztake n l) = n) by (apply zlen_ztake; lia). rewrite MaxCompressedLength_small in * by lia. rewrite s32_small by dlia.
  set (b := match scratch with Some b => b | None => replicate (Z.to_nat (32 + n + n / 6)) 0 end).
  assert (Hbz : 32 + n + n / 6 <= zlen b).
  { subst b. destruct scratch; [done|]. unfold zlen. rewrite length_replicate. dlia. }
  destruct (compress_block_spec (ztake n l) b (32 + n + n / 6) writer out room) as (s & b' & writer1 & -> & Hb' & Hw1 & Hbs & Hd & Hs);
    rewrite ?Hn; [by apply Forall_take|lia|done|dlia|]. cbn [mbind outcome_bind]. rewrite Hskip. cbn [mbind outcome_bind]. rewrite Hn in Hs.
  assert (Hz : zlen (zdrop n l) = zlen l - n) by (apply zlen_zdrop; lia). rewrite <- Hz. pose proof (zlen_nonneg s).
  assert (Hcost : zlen s <= zlen l + zlen l / 6 + 1 - ((zlen l - n) + (zlen l - n) / 6) /\ (n < zlen l -> zlen s <= zlen l + zlen l / 6 - ((zlen l - n) + (zlen l - n) / 6))) by dlia.
  destruct (decide (zlen l <= 65536)) as [Hlast|Hmore].
  - assert (Hnil : zdrop n l = []) by (apply zdrop_all; lia). rewrite Hnil in *. destruct fuel as [|fuel]; [lia|]. cbn [compress_loop]. rewrite (@zlen_nil Z) in *.
    cbn [Z.ltb Z.compare]. exists s, reader2, writer1. rewrite ztake_all in Hd by lia. split_and!; try done. dlia.
  - destruct (IH (zdrop n l) (written + zlen s) (Some b') reader2 writer1 (out ++ s) (room - zlen s)) as (t & reader3 & writer3 & -> & Hl3 & Hw3 & Hbt & Hdt & Ht);
      rewrite ?Hz; [done|by apply Forall_drop|lia| |done|dlia|].
    { rewrite Hb'. rewrite MaxCompressedLength_small by lia. dlia. }
    exists (s ++ t), reader3, writer3. rewrite zlen_app. rewrite Hz in Ht. split_and!.
    + do 3 f_equal. lia.
    + done.
    + rewrite app_assoc. by replace (room - (zlen s + zlen t)) with (room - zlen s - zlen t) by lia.
    + by apply bytes_ok_app.
    + intros o rest. rewrite <- app_assoc, Hd. rewrite <- (app_nil_r (o ++ ztake n l)), Hdt, <- app_assoc, ztake_zdrop. done.
    + dlia.
Qed.

(** What a stream is: the length of the data and elements that produce it. *)
Definition stream_of (c x : list Z) : Prop :=
  exists s, c = Encode32 (zlen x) ++ s /\ bytes_ok s /\ denotes s [] x.

Lemma Compress_spec reader writer x out room :
  left reader x -> bytes_ok x -> zlen x < 2 ^ 32 -> appended writer out room -> MaxCompressedLength (zlen x) <= room ->
  exists c reader' writer', Compress reader writer = Ok (zlen c, reader', writer') /\ left reader' [] /\
    appended writer' (out ++ c) (room - zlen c) /\ stream_of c x /\ zlen c <= MaxCompressedLength (zlen x).
Proof.
  intros Hl Hb Hx Hw Hroom. pose proof (zlen_nonneg x). rewrite MaxCompressedLength_small in * by lia. unfold Compress.
  rewrite (left_available reader x Hl), (u32_small (zlen x)) by lia. set (u := Encode32 (zlen x)).
  pose proof (Encode32_length (zlen x)) as Hu. fold u in Hu. unfold kMax32 in Hu.
  destruct (append_law writer out room u Hw (Encode32_bytes _)) as (writer1 & -> & Hw1); [dlia|]. cbn [mbind outcome_bind].
  destruct (compress_loop_spec (Datatypes.S (Z.to_nat (zlen x))) x (zlen u) None reader writer1 (out ++ u) (room - zlen u)) as (s & reader2 & writer2 & -> & Hl2 & Hw2 & Hs & Hd & Hlen);
    [done..|lia|done|done|dlia|].
  exists (u ++ s), reader2, writer2. rewrite zlen_app. split_and!; [done..| |by exists s|dlia].
  rewrite app_assoc. by replace (room - (zlen u + zlen s)) with (room - zlen u - zlen s) by lia.
Qed.
End compress_spec.
