(* ===== verification/SnappyWriters.v ===== *)
(** * [flare/io/snappy]: the writers of the decompressor

    The template argument [Writer] of [DecompressAllTags] as a class, what the
    decompressor relies on as its laws, and the copies inside of a buffer that
    the writers of [snappy.cc] share. *)

From S2P Require Import Prelude Bits Buffers SnappyFormat SnappyStubs.
Local Open Scope Z_scope.

Definition kMaximumTagLength : Z := 5.
Definition kMaxIncrementCopyOverflow : Z := 10.

(** ** Copies inside of a buffer *)

(** [src] and [op] are offsets into [m]. *)
Fixpoint incremental_copy (fuel : nat) (src op len : Z) (m : list Z) : outcome (list Z) :=
  match fuel with
  | O => Undefined
  | S fuel =>
      b ← mget m src; m ← mwrite op [b] m;
      if 0 <? len - 1 then incremental_copy fuel (src + 1) (op + 1) (len - 1) m else Ok m
  end.

Definition IncrementalCopy (src op len : Z) (m : list Z) : outcome (list Z) :=
  _ ← check (0 <? len); incremental_copy (Z.to_nat len) src op len m.

(** [while (op - src < 8)]: the pattern is doubled. *)
Fixpoint expand_pattern (fuel : nat) (src op len : Z) (m : list Z) : outcome (Z * Z * list Z) :=
  match fuel with
  | O => Undefined
  | S fuel =>
      if op - src <? 8 then
        m ← UnalignedCopy64 m src op m; expand_pattern fuel src (op + (op - src)) (len - (op - src)) m
      else Ok (op, len, m)
  end.

(** [while (len > 0)]. *)
Fixpoint copy_words (fuel : nat) (src op len : Z) (m : list Z) : outcome (list Z) :=
  match fuel with
  | O => Undefined
  | S fuel =>
      if 0 <? len then m ← UnalignedCopy64 m src op m; copy_words fuel (src + 8) (op + 8) (len - 8) m
      else Ok m
  end.

Definition IncrementalCopyFastPath (src op len : Z) (m : list Z) : outcome (list Z) :=
  '(op, len, m) ← expand_pattern 4 src op len m; copy_words (S (Z.to_nat len)) src op len m.

(** ** The class *)

(** Bytes come as a region of memory and an offset into it. *)
Class Writer (W : Type) := {
  SetExpectedLength : Z -> W -> outcome W;
  CheckLength : W -> bool;
  wAppend : list Z -> Z -> Z -> W -> outcome (bool * W);
  TryFastAppend : list Z -> Z -> Z -> Z -> W -> outcome (bool * W);
  AppendFromSelf : Z -> Z -> W -> outcome (bool * W);
  Flush : W -> outcome W
}.

(** [holds w e out]: [w] has produced [out] of the [e] bytes expected.  [Flush]
    is called after errors too, on a writer that is [flushable]. *)
Class WriterLaws (W : Type) `{Writer W} := {
  holds : W -> Z -> list Z -> Prop;
  flushable : W -> Z -> Prop;
  holds_length w e out : holds w e out -> zlen out <= e < 2 ^ 32;
  holds_flushable w e out : holds w e out -> flushable w e;
  holds_check w e out : holds w e out -> CheckLength w = (zlen out =? e);
  holds_append w e out src ip len :
    holds w e out -> bytes_ok src -> 0 <= ip -> 0 <= len < 2 ^ 33 -> ip + len <= zlen src ->
    exists w', wAppend src ip len w = Ok (zlen out + len <=? e, w') /\ flushable w' e /\ (zlen out + len <= e -> holds w' e (out ++ part ip len src));
  holds_fast w e out src ip available len :
    holds w e out -> bytes_ok src -> 0 <= ip -> 0 <= len < 2 ^ 33 -> 0 <= available -> ip + available <= zlen src ->
    exists b w', TryFastAppend src ip available len w = Ok (b, w') /\
      if b then len <= 16 /\ 16 + kMaximumTagLength <= available /\ zlen out + len <= e /\ holds w' e (out ++ part ip len src) else holds w' e out;
  holds_self w e out offset len :
    holds w e out -> 0 <= offset < 2 ^ 32 -> 1 <= len <= 64 ->
    exists w', AppendFromSelf offset len w = Ok ((1 <=? offset) && (offset <=? zlen out) && (zlen out + len <=? e), w') /\ flushable w' e /\
      (1 <= offset <= zlen out -> zlen out + len <= e -> holds w' e (self_copy offset (Z.to_nat len) out));
  flush_total w e : flushable w e -> exists w', Flush w = Ok w';
  holds_flush w e out w' : holds w e out -> Flush w = Ok w' -> CheckLength w' = (zlen out =? e)
}.

(** For the writers whose [Flush] does nothing. *)
Lemma always_flushable {W} (P Q : W -> Prop) : (exists w, P w /\ Q w) -> exists w, P w /\ True /\ Q w.
Proof. intros (w & HP & HQ). by exists w. Qed.

(** ** What the copies do *)

(** From [m] to [m'], the [len] bytes at [op] repeat those [offset] before them;
    what is behind them may have changed too. *)
Definition copied (offset op len : Z) (m m' : list Z) : Prop :=
  zlen m' = zlen m /\ ztake op m' = ztake op m /\ op + len <= zlen m /\ forall i, op <= i < op + len -> zget m' i = zget m' (i - offset).

Lemma copied_self_copy offset op len m m' :
  copied offset op len m m' -> 1 <= offset <= op -> 0 <= len -> ztake (op + len) m' = self_copy offset (Z.to_nat len) (ztake op m).
Proof.
  intros (Hl & Hp & Hm & Hr) Ho Hlen. assert (Hz : zlen (ztake op m) = op) by (apply zlen_ztake; lia).
  rewrite <- (self_copy_repeats offset _ (ztake op m) m'); rewrite ?Hz, ?Z2Nat.id by lia; done || lia.
Qed.

(** The bytes before [op] and a byte there. *)
Lemma copied_step offset op m b :
  1 <= offset <= op -> op + 1 <= zlen m -> zget m (op - offset) = Some b -> copied offset op 1 m (splice op [b] m).
Proof.
  intros Ho Hm Hb. assert (H1 : zlen [b] = 1) by done. split_and!; [apply zlen_splice; lia|apply ztake_splice_le; lia|lia|].
  intros i Hi. assert (i = op) as -> by lia. rewrite zget_splice_in, zget_splice_l, Hb, Z.sub_diag by lia. done.
Qed.

Lemma copied_app offset op a b m m1 m2 :
  1 <= offset <= op -> 0 <= a -> copied offset op a m m1 -> copied offset (op + a) b m1 m2 -> copied offset op (a + b) m m2.
Proof.
  intros Ho Ha (Hl & Hp & Hm & Hr) (Hl' & Hp' & Hm' & Hr'). split_and!; [lia| |lia|].
  - rewrite <- Hp, <- (ztake_ztake op (op + a) m2), Hp', ztake_ztake by lia. done.
  - intros i Hi. destruct (Z.lt_ge_cases i (op + a)) as [Hlt|Hge]; [|apply Hr'; lia].
    assert (H : forall k, k < op + a -> zget m2 k = zget m1 k) by (intros k Hk; by rewrite <- (zget_ztake m2 (op + a)), Hp', zget_ztake by lia).
    rewrite !H by lia. apply Hr. lia.
Qed.

Lemma copied_less offset op a b m m' : a <= b -> copied offset op b m m' -> copied offset op a m m'.
Proof. intros Hle (Hl & Hp & Hm & Hr). split_and!; [done|done|lia|]. intros i Hi. apply Hr. lia. Qed.

Lemma copied_nil offset op m : op <= zlen m -> copied offset op 0 m m.
Proof. intros. split_and!; [done|done|lia|]. intros i Hi. lia. Qed.

Lemma incremental_copy_spec fuel : forall src op len m,
  0 <= src < op -> 0 < len <= Z.of_nat fuel -> op + len <= zlen m ->
  exists m', incremental_copy fuel src op len m = Ok m' /\ copied (op - src) op len m m'.
Proof.
  induction fuel as [|fuel IH]; intros src op len m Hs Hl Hm; [lia|]. cbn [incremental_copy].
  destruct (zget_lt m src ltac:(lia)) as [b Hb]. rewrite (mget_ok _ _ _ Hb). cbn [mbind outcome_bind].
  rewrite mwrite_ok by (change (zlen [b]) with 1; lia). cbn [mbind outcome_bind].
  assert (Hc : copied (op - src) op 1 m (splice op [b] m)) by (apply copied_step; [lia..|]; by replace (op - (op - src)) with src by lia).
  assert (Hz : zlen (splice op [b] m) = zlen m) by apply Hc. case_if; zbool.
  - destruct (IH (src + 1) (op + 1) (len - 1) (splice op [b] m)) as (m' & -> & Hc'); [lia..|]. exists m'. split; [done|].
    replace len with (1 + (len - 1)) by lia. replace (op + 1 - (src + 1)) with (op - src) in Hc' by lia. eapply copied_app; [lia..|done|done].
  - assert (len = 1) as -> by lia. by eexists.
Qed.

Lemma IncrementalCopy_spec src op len m :
  0 <= src < op -> 0 < len -> op + len <= zlen m -> exists m', IncrementalCopy src op len m = Ok m' /\ copied (op - src) op len m m'.
Proof.
  intros. unfold IncrementalCopy, check. rewrite (proj2 (Z.ltb_lt _ _)) by lia. cbn [mbind outcome_bind]. apply incremental_copy_spec; lia.
Qed.

(** Bytes repeat those any multiple of [offset] before them. *)
Lemma repeats_multiple offset (m : list Z) lo hi :
  0 < offset -> (forall i, lo + offset <= i < hi -> zget m i = zget m (i - offset)) ->
  forall k i, 0 <= k -> lo <= i - k * offset -> i < hi -> zget m i = zget m (i - k * offset).
Proof.
  intros Ho Hr k i Hk. revert i. pattern k. apply natlike_ind; [intros i _ _; f_equal; lia| |done].
  intros x Hx IH i Hlo Hhi. rewrite Hr by nia. rewrite IH by nia. f_equal. lia.
Qed.

(** Eight bytes from a multiple of [offset] before extend the repetition. *)
Lemma copy64_copied offset k op n m :
  1 <= offset <= op -> 1 <= k -> 0 <= op - k * offset -> 0 <= n <= 8 -> n <= k * offset -> op + 8 <= zlen m ->
  (forall i, op - k * offset + offset <= i < op -> zget m i = zget m (i - offset)) ->
  exists m', UnalignedCopy64 m (op - k * offset) op m = Ok m' /\ copied offset op n m m'.
Proof.
  intros Ho Hk Hs Hn Hnk Hm Hr. set (src := op - k * offset) in *. rewrite copy64_ok by lia. eexists. split; [done|].
  assert (Hz : zlen (part src 8 m) = 8) by (apply zlen_part; lia). split_and!; [apply zlen_splice; lia|apply ztake_splice_le; lia|lia|].
  intros i Hi. rewrite zget_splice_in, zget_part by lia. replace (src + (i - op)) with (i - k * offset) by lia.
  destruct (Z.lt_ge_cases (i - offset) op) as [Hlt|Hge].
  - rewrite zget_splice_l by lia. replace (i - k * offset) with (i - offset - (k - 1) * offset) by lia. symmetry.
    apply (repeats_multiple offset m src op); [lia|done|lia..].
  - rewrite zget_splice_in, zget_part by lia. replace (src + (i - offset - op)) with (i - k * offset - offset) by lia. apply Hr. lia.
Qed.

(** The repetition reaches from the source of the copy up to [op]. *)
Definition repeats (offset lo op : Z) (m : list Z) : Prop := forall i, lo + offset <= i < op -> zget m i = zget m (i - offset).

Lemma copied_repeats offset lo op n m m' :
  0 <= n -> 0 < offset -> lo + offset <= op -> repeats offset lo op m -> copied offset op n m m' -> repeats offset lo (op + n) m'.
Proof.
  intros Hn Ho Hlo Hr (_ & Hp & _ & Hc) i Hi. destruct (Z.lt_ge_cases i op); [|apply Hc; lia].
  assert (H' : forall k, k < op -> zget m' k = zget m k) by (intros k Hk; by rewrite <- (zget_ztake m' op), Hp, zget_ztake by lia).
  rewrite !H' by lia. apply Hr. lia.
Qed.

Lemma copy_words_spec offset k fuel : forall op len m,
  1 <= offset <= op -> 1 <= k -> 8 <= k * offset <= op -> Z.max len 0 <= 8 * (Z.of_nat fuel - 1) -> op <= zlen m -> (0 < len -> op + len + 7 <= zlen m) ->
  repeats offset (op - k * offset) op m ->
  exists m', copy_words fuel (op - k * offset) op len m = Ok m' /\ copied offset op (Z.max len 0) m m'.
Proof.
  induction fuel as [|fuel IH]; intros op len m Ho Hk Hko Hf Hop Hm Hr; [lia|]. cbn [copy_words]. case_if; zbool.
  - specialize (Hm ltac:(lia)). destruct (copy64_copied offset k op 8 m) as (m1 & -> & Hc1); [lia..|done|]. cbn [mbind outcome_bind]. assert (Hl1 : zlen m1 = zlen m) by apply Hc1.
    pose proof (copied_repeats offset (op - k * offset) op 8 m m1 ltac:(lia) ltac:(lia) ltac:(nia) Hr Hc1) as Hr1.
    replace (op - k * offset + 8) with (op + 8 - k * offset) by lia. destruct (decide (len <= 8)) as [Hle|Hgt].
    + destruct fuel as [|fuel]; [lia|]. cbn [copy_words]. rewrite (proj2 (Z.ltb_ge _ _)) by lia. exists m1. split; [done|].
      apply (copied_less _ _ _ 8); [lia|done].
    + destruct (IH (op + 8) (len - 8) m1) as (m2 & -> & Hc2); [lia..| |].
      { intros i Hi. apply Hr1. lia. }
      exists m2. split; [done|]. replace (Z.max len 0) with (8 + Z.max (len - 8) 0) by lia. eapply copied_app; [lia..|done|done].
  - exists m. split; [done|]. replace (Z.max len 0) with 0 by lia. apply copied_nil. lia.
Qed.

(** The pattern is doubled until it is eight bytes long. *)
Lemma expand_pattern_spec offset op len m :
  1 <= offset <= op -> op + 11 <= zlen m ->
  exists k m', expand_pattern 4 (op - offset) op len m = Ok (op - offset + k * offset, len - (k - 1) * offset, m') /\
    1 <= k /\ 8 <= k * offset /\ copied offset op ((k - 1) * offset) m m'.
Proof.
  intros Ho Hm. set (src := op - offset).
  assert (Hturn : forall k m1, 1 <= k -> k * offset < 8 -> (k - 1) * offset <= 3 -> copied offset op ((k - 1) * offset) m m1 ->
    exists m2, UnalignedCopy64 m1 src (src + k * offset) m1 = Ok m2 /\ copied offset op ((2 * k - 1) * offset) m m2).
  { intros k m1 Hk Hk8 Hk3 Hc. assert (Hl : zlen m1 = zlen m) by apply Hc.
    assert (Hr : repeats offset src (op + (k - 1) * offset) m1) by (apply copied_repeats with m; [nia|lia|lia|intros i Hi; lia|done]).
    replace (op + (k - 1) * offset) with (src + k * offset) in Hr by lia.
    destruct (copy64_copied offset k (src + k * offset) (k * offset) m1) as (m2 & E & Hc2); [nia..|intros i Hi; apply Hr; lia|].
    replace (src + k * offset - k * offset) with src in E by lia. exists m2. split; [done|]. replace ((2 * k - 1) * offset) with ((k - 1) * offset + k * offset) by lia. eapply copied_app; [lia|nia|done|].
    by replace (op + (k - 1) * offset) with (src + k * offset) by lia. }
  assert (Hc0 : copied offset op ((1 - 1) * offset) m m) by (apply copied_nil; lia).
  replace (expand_pattern 4 src op len m) with (expand_pattern 4 src (src + 1 * offset) (len - (1 - 1) * offset) m) by (f_equal; lia).
  assert (Hnext : forall k, src + k * offset + (src + k * offset - src) = src + (2 * k) * offset /\
    len - (k - 1) * offset - (src + k * offset - src) = len - (2 * k - 1) * offset /\ src + k * offset - src = k * offset) by (intros; lia).
  cbn [expand_pattern]. destruct (Hnext 1) as (-> & -> & ->). destruct (1 * offset <? 8) eqn:E1; zbool; [|by exists 1, m].
  destruct (Hturn 1 m) as (m1 & -> & Hc1); [lia..|done|]. cbn [mbind outcome_bind].
  destruct (Hnext (2 * 1)) as (-> & -> & ->). destruct (2 * 1 * offset <? 8) eqn:E2; zbool; [|by exists 2, m1].
  destruct (Hturn (2 * 1) m1) as (m2 & -> & Hc2); [lia..|done|]. cbn [mbind outcome_bind].
  destruct (Hnext (2 * (2 * 1))) as (-> & -> & ->). destruct (2 * (2 * 1) * offset <? 8) eqn:E3; zbool; [|by exists 4, m2].
  destruct (Hturn (2 * (2 * 1)) m2) as (m3 & -> & Hc3); [lia..|done|]. cbn [mbind outcome_bind].
  rewrite (proj2 (Z.ltb_ge _ _)) by lia. exists 8, m3. split_and!; (done || lia).
Qed.

Lemma IncrementalCopyFastPath_spec src op len m :
  0 <= src < op -> 1 <= len -> op + len + kMaxIncrementCopyOverflow <= zlen m ->
  exists m', IncrementalCopyFastPath src op len m = Ok m' /\ copied (op - src) op len m m'.
Proof.
  unfold kMaxIncrementCopyOverflow. intros Hs Hl Hm. unfold IncrementalCopyFastPath. set (offset := op - src).
  destruct (expand_pattern_spec offset op len m) as (k & m1 & E & Hk & Hk8 & Hc1); [lia..|]. replace (op - offset) with src in E by lia. rewrite E. cbn [mbind outcome_bind].
  assert (Hl1 : zlen m1 = zlen m) by apply Hc1. assert (Hroom : op + (k - 1) * offset <= zlen m) by apply Hc1.
  set (op1 := src + k * offset). assert (Eop : op1 = op + (k - 1) * offset) by lia. set (len1 := len - (k - 1) * offset).
  assert (Hr : repeats offset src op1 m1) by (rewrite Eop; apply copied_repeats with m; [nia|lia|lia|intros i Hi; lia|done]).
  destruct (copy_words_spec offset k (S (Z.to_nat len1)) op1 len1 m1) as (m2 & E2 & Hc2); [nia|lia|lia|lia|lia|lia| |].
  { by replace (op1 - k * offset) with src by lia. }
  replace (op1 - k * offset) with src in E2 by lia. exists m2. split; [done|]. apply (copied_less _ _ _ ((k - 1) * offset + Z.max len1 0)); [lia|].
  eapply copied_app; [lia|nia|done|]. by rewrite <- Eop.
Qed.

(** ** Bytes in several buffers *)

(** What the buffers [pre] and the first [n] bytes of [cur] hold. *)
Definition produced (pre : list (list Z)) (cur : list Z) (n : Z) : list Z := concat pre ++ ztake n cur.

Lemma zlen_produced pre cur n : 0 <= n <= zlen cur -> zlen (produced pre cur n) = zlen (concat pre) + n.
Proof. intros. unfold produced. rewrite zlen_app, zlen_ztake by lia. done. Qed.

Lemma zget_middle {A} (pre : list A) cur post : zget (pre ++ cur :: post) (zlen pre) = Some cur.
Proof. rewrite zget_app_r, Z.sub_diag by lia. done. Qed.

Lemma zset_middle {A} (pre : list A) cur post x : zset (zlen pre) x (pre ++ cur :: post) = pre ++ x :: post.
Proof.
  pose proof (zlen_nonneg pre). unfold zset. rewrite (proj2 (Z.ltb_ge _ _)) by lia. unfold zlen. rewrite Nat2Z.id, insert_app_r_alt by lia.
  by rewrite Nat.sub_diag.
Qed.

(** The two copies of eight bytes of the fast paths for literals. *)
Lemma fast_copies src ip op len m :
  0 <= ip -> ip + 16 <= zlen src -> 0 <= op -> op + 16 <= zlen m -> 0 <= len <= 16 ->
  exists m1 m2, UnalignedCopy64 src ip op m = Ok m1 /\ UnalignedCopy64 src (ip + 8) (op + 8) m1 = Ok m2 /\
    zlen m2 = zlen m /\ ztake (op + len) m2 = ztake op m ++ part ip len src.
Proof.
  intros Hip Hsrc Hop Hm Hlen. assert (Hz1 : zlen (part ip 8 src) = 8) by (apply zlen_part; lia). assert (Hz2 : zlen (part (ip + 8) 8 src) = 8) by (apply zlen_part; lia).
  set (m1 := splice op (part ip 8 src) m). assert (Hm1 : zlen m1 = zlen m) by (apply zlen_splice; lia). set (m2 := splice (op + 8) (part (ip + 8) 8 src) m1).
  exists m1, m2. split_and!; [apply copy64_ok; lia..|unfold m2; rewrite zlen_splice; lia|].
  rewrite <- (ztake_ztake (op + len) (op + 8 + 8)) by lia. unfold m2. rewrite <- Hz2 at 2. rewrite ztake_splice by lia.
  unfold m1. rewrite <- Hz1 at 1. rewrite ztake_splice, <- app_assoc, <- part_add by lia. rewrite ztake_app_ge by (rewrite zlen_ztake; lia). rewrite zlen_ztake by lia. f_equal.
  unfold part. rewrite ztake_ztake by lia. f_equal. lia.
Qed.
