(* ===== verification/SnappyArrayWriter.v ===== *)
(** * [flare/io/snappy]: [SnappyArrayWriter]

    The writer into a flat array, with its fast paths that write past the bytes
    they append. *)

From S2P Require Import Prelude Bits Buffers SnappyFormat SnappyStubs SnappyWriters.
Local Open Scope Z_scope.

(** [base_] is offset 0 of the memory. *)
Record SnappyArrayWriter := mk_array { mem : list Z; op_ : Z; op_limit_ : Z }.

Definition new_array (dst : list Z) : SnappyArrayWriter := mk_array dst 0 0.

Definition Append (src : list Z) (ip len : Z) (w : SnappyArrayWriter) : outcome (bool * SnappyArrayWriter) :=
  let op := op_ w in
  let space_left := u64 (op_limit_ w - op) in
  if space_left <? len then Ok (false, w)
  else s ← mread src ip len; m ← mwrite op s (mem w); Ok (true, mk_array m (op + len) (op_limit_ w)).

Definition TryFastAppend (src : list Z) (ip available len : Z) (w : SnappyArrayWriter) : outcome (bool * SnappyArrayWriter) :=
  let op := op_ w in
  let space_left := u64 (op_limit_ w - op) in
  if (len <=? 16) && (16 + kMaximumTagLength <=? available) && (16 <=? space_left) then
    m ← UnalignedCopy64 src ip op (mem w);
    m ← UnalignedCopy64 src (ip + 8) (op + 8) m;
    Ok (true, mk_array m (op + len) (op_limit_ w))
  else Ok (false, w).

Definition AppendFromSelf (offset len : Z) (w : SnappyArrayWriter) : outcome (bool * SnappyArrayWriter) :=
  let op := op_ w in
  let space_left := u64 (op_limit_ w - op) in
  _ ← check (0 <=? op);
  let produced := op in
  if produced <=? u64 (offset - 1) then Ok (false, w)
  else if (len <=? 16) && (8 <=? offset) && (16 <=? space_left) then
    m ← UnalignedCopy64 (mem w) (op - offset) op (mem w);
    m ← UnalignedCopy64 m (op - offset + 8) (op + 8) m;
    Ok (true, mk_array m (op + len) (op_limit_ w))
  else if len + kMaxIncrementCopyOverflow <=? space_left then
    m ← IncrementalCopyFastPath (op - offset) op len (mem w); Ok (true, mk_array m (op + len) (op_limit_ w))
  else if space_left <? len then Ok (false, w)
  else m ← IncrementalCopy (op - offset) op len (mem w); Ok (true, mk_array m (op + len) (op_limit_ w)).

Definition Produced (w : SnappyArrayWriter) : Z := op_ w.

#[export] Instance SnappyArrayWriter_writer : Writer SnappyArrayWriter := {
  SetExpectedLength len w := Ok (mk_array (mem w) (op_ w) (op_ w + len));
  CheckLength w := op_ w =? op_limit_ w;
  wAppend := Append;
  SnappyWriters.TryFastAppend := TryFastAppend;
  SnappyWriters.AppendFromSelf := AppendFromSelf;
  Flush w := Ok w
}.


(** ** Laws *)

Section laws.
(** The length of the array. *)
Context (size : Z).

(** The array has room for what is expected. *)
Definition array_holds (w : SnappyArrayWriter) (e : Z) (out : list Z) : Prop :=
  op_ w = zlen out /\ op_limit_ w = e /\ zlen out <= e < 2 ^ 32 /\ e <= zlen (mem w) /\ ztake (zlen out) (mem w) = out /\ bytes_ok out /\ zlen (mem w) = size.

(** Bytes behind the produced ones have been written. *)
Lemma array_splice w e out s :
  array_holds w e out -> bytes_ok s -> zlen out + zlen s <= e -> array_holds (mk_array (splice (op_ w) s (mem w)) (op_ w + zlen s) (op_limit_ w)) e (out ++ s).
Proof.
  intros (Ho & Hl & He & Hm & Hp & Hby & Hsz) Hbs Hs. pose proof (zlen_nonneg out). pose proof (zlen_nonneg s). unfold array_holds. cbn [mem op_ op_limit_].
  rewrite zlen_app, zlen_splice, Ho by lia. split_and!; try lia; [|by apply Forall_app]. rewrite ztake_splice, Hp by lia. done.
Qed.

Lemma array_holds_append w e out src ip len :
  array_holds w e out -> bytes_ok src -> 0 <= ip -> 0 <= len < 2 ^ 33 -> ip + len <= zlen src ->
  exists w', Append src ip len w = Ok (zlen out + len <=? e, w') /\ (exists out', array_holds w' e out') /\ (zlen out + len <= e -> array_holds w' e (out ++ part ip len src)).
Proof.
  intros H Hb Hip Hlen Hsrc. pose proof H as (Ho & Hl & He & Hm & Hp & Hby & Hsz). pose proof (zlen_nonneg out). unfold Append. rewrite Ho, Hl, u64_small by lia.
  destruct (e - zlen out <? len) eqn:E; zbool.
  - rewrite (proj2 (Z.leb_gt _ _)) by lia. exists w. split_and!; [done|by exists out|lia].
  - rewrite (proj2 (Z.leb_le _ _)) by lia. rewrite mread_ok by lia. cbn [mbind outcome_bind].
    assert (Hz : zlen (part ip len src) = len) by (apply zlen_part; lia). rewrite mwrite_ok by lia. cbn [mbind outcome_bind].
    pose proof (array_splice w e out (part ip len src) H) as Ha. rewrite Hz, Ho, Hl in Ha. specialize (Ha ltac:(by apply bytes_ok_part) ltac:(lia)).
    eexists. split_and!; [done|by eexists|done].
Qed.

Lemma array_holds_fast w e out src ip available len :
  array_holds w e out -> bytes_ok src -> 0 <= ip -> 0 <= len < 2 ^ 33 -> 0 <= available -> ip + available <= zlen src ->
  exists b w', TryFastAppend src ip available len w = Ok (b, w') /\
    if b then len <= 16 /\ 16 + kMaximumTagLength <= available /\ zlen out + len <= e /\ array_holds w' e (out ++ part ip len src) else array_holds w' e out.
Proof.
  intros H Hb Hip Hlen Hav Hsrc. pose proof H as (Ho & Hl & He & Hm & Hp & Hby & Hsz). pose proof (zlen_nonneg out). unfold TryFastAppend. rewrite Ho, Hl, u64_small by lia.
  case_if; [|by exists false, w]. unfold kMaximumTagLength in *. zbool.
  destruct (fast_copies src ip (zlen out) len (mem w)) as (m1 & m2 & -> & E2 & Hm2 & Ht2); [lia..|]. cbn [mbind outcome_bind]. rewrite E2. cbn [mbind outcome_bind].
  eexists true, _. split; [done|]. split_and!; [lia..|]. unfold array_holds. cbn [mem op_ op_limit_]. rewrite zlen_app, zlen_part by lia.
  split_and!; try lia; [|by apply Forall_app; split; [|apply bytes_ok_part]]. by rewrite Ht2, Hp.
Qed.

Lemma array_copied w e out offset len m' :
  array_holds w e out -> 1 <= offset <= zlen out -> 0 <= len -> zlen out + len <= e -> copied offset (op_ w) len (mem w) m' ->
  array_holds (mk_array m' (op_ w + len) (op_limit_ w)) e (self_copy offset (Z.to_nat len) out).
Proof.
  intros (Ho & Hl & He & Hm & Hp & Hby & Hsz) Hoff Hlen Hfit Hc. pose proof Hc as (Hz & _). rewrite Ho in Hc.
  pose proof (copied_self_copy offset (zlen out) len (mem w) m' Hc Hoff Hlen) as E. rewrite Hp in E.
  unfold array_holds. cbn [mem op_ op_limit_]. rewrite zlen_self_copy, Z2Nat.id by lia. split_and!; [lia..| |by apply self_copy_bytes|lia]. rewrite <- E. f_equal.
Qed.

(** The two copies of eight bytes, from at least eight bytes before. *)
Lemma copy_16_copied offset op len m :
  8 <= offset <= op -> 0 <= len <= 16 -> op + 16 <= zlen m ->
  exists m1 m2, UnalignedCopy64 m (op - offset) op m = Ok m1 /\ UnalignedCopy64 m1 (op - offset + 8) (op + 8) m1 = Ok m2 /\ copied offset op len m m2.
Proof.
  intros Ho Hlen Hm. destruct (copy64_copied offset 1 op 8 m) as (m1 & E1 & Hc1); [lia..|intros i Hi; lia|]. assert (Hl1 : zlen m1 = zlen m) by apply Hc1.
  destruct (copy64_copied offset 1 (op + 8) 8 m1) as (m2 & E2 & Hc2); [lia..|intros i Hi; lia|].
  rewrite Z.mul_1_l in *. replace (op + 8 - offset) with (op - offset + 8) in E2 by lia. exists m1, m2. split_and!; [done..|].
  apply (copied_less _ _ _ (8 + 8)); [lia|]. eapply copied_app; [lia..|done|done].
Qed.

Lemma array_holds_self w e out offset len :
  array_holds w e out -> 0 <= offset < 2 ^ 32 -> 1 <= len <= 64 ->
  exists w', AppendFromSelf offset len w = Ok ((1 <=? offset) && (offset <=? zlen out) && (zlen out + len <=? e), w') /\ (exists out', array_holds w' e out') /\
    (1 <= offset <= zlen out -> zlen out + len <= e -> array_holds w' e (self_copy offset (Z.to_nat len) out)).
Proof.
  intros H Hoff Hlen. pose proof H as (Ho & Hl & He & Hm & Hp & Hby & Hsz). pose proof (zlen_nonneg out). unfold AppendFromSelf, check.
  rewrite (proj2 (Z.leb_le 0 (op_ w))) by lia. cbn [mbind outcome_bind]. rewrite Ho, Hl, (u64_small (e - zlen out)) by lia.
  destruct (decide (1 <= offset <= zlen out)) as [Hok|Hbad].
  2: { assert (Hle : zlen out <= u64 (offset - 1)).
       { destruct (decide (offset = 0)) as [->|]; [change (u64 (0 - 1)) with (2 ^ 64 - 1); lia|]. rewrite u64_small; lia. }
       rewrite (proj2 (Z.leb_le _ _)) by done. exists w. split_and!; [|by exists out|lia]. f_equal. f_equal. symmetry.
       destruct (1 <=? offset) eqn:E1, (offset <=? zlen out) eqn:E2; zbool; (done || lia). }
  rewrite u64_small by lia. rewrite (proj2 (Z.leb_gt _ _)) by lia. rewrite (proj2 (Z.leb_le 1 offset)), (proj2 (Z.leb_le offset (zlen out))) by lia. cbn [andb].
  assert (Hdone : forall r, zlen out + len <= e -> (exists m', r = Ok m' /\ copied offset (zlen out) len (mem w) m') ->
    exists w', (m ← r; Ok (true, mk_array m (zlen out + len) e)) = Ok (zlen out + len <=? e, w') /\ (exists out', array_holds w' e out') /\
      (1 <= offset <= zlen out -> zlen out + len <= e -> array_holds w' e (self_copy offset (Z.to_nat len) out))).
  { intros r Hfit (m' & -> & Hc). cbn [mbind outcome_bind]. rewrite (proj2 (Z.leb_le _ _)) by lia. rewrite <- Ho in Hc.
    pose proof (array_copied w e out offset len m' H Hok ltac:(lia) Hfit Hc) as Ha. rewrite Ho, Hl in Ha. eexists. split_and!; [done|by eexists|done]. }
  case_if; zbool.
  - destruct (copy_16_copied offset (zlen out) len (mem w)) as (m1 & m2 & E1 & E2 & Hc); [lia..|]. rewrite E1. cbn [mbind outcome_bind]. apply Hdone; [lia|by exists m2].
  - case_if; unfold kMaxIncrementCopyOverflow in *; zbool.
    + apply Hdone; [lia|]. destruct (IncrementalCopyFastPath_spec (zlen out - offset) (zlen out) len (mem w)) as (m' & E & Hc); [lia..|unfold kMaxIncrementCopyOverflow; lia|].
      exists m'. split; [done|]. by replace (zlen out - (zlen out - offset)) with offset in Hc by lia.
    + case_if; zbool.
      * rewrite (proj2 (Z.leb_gt _ _)) by lia. exists w. split_and!; [done|by exists out|lia].
      * apply Hdone; [lia|]. destruct (IncrementalCopy_spec (zlen out - offset) (zlen out) len (mem w)) as (m' & E & Hc); [lia..|].
        exists m'. split; [done|]. by replace (zlen out - (zlen out - offset)) with offset in Hc by lia.
Qed.

Lemma array_holds_check w e out : array_holds w e out -> CheckLength w = (zlen out =? e).
Proof. intros (Ho & Hl & _). cbn. by rewrite Ho, Hl. Qed.

Lemma array_holds_flush w e out w' : array_holds w e out -> Flush w = Ok w' -> CheckLength w' = (zlen out =? e).
Proof. intros H [= <-]. by apply array_holds_check. Qed.

Definition SnappyArrayWriter_laws : WriterLaws SnappyArrayWriter := {|
  holds := array_holds;
  flushable w e := exists out, array_holds w e out;
  holds_flushable w e out H := ex_intro _ out H;
  holds_length w e out H := proj1 (proj2 (proj2 H));
  holds_check := array_holds_check;
  holds_append := array_holds_append;
  holds_fast := array_holds_fast;
  holds_self := array_holds_self;
  flush_total w e _ := ex_intro _ w eq_refl;
  holds_flush w e out w' H E := array_holds_flush w e out w' H E
|}.
End laws.

Lemma new_array_holds dst e : 0 <= e < 2 ^ 32 -> e <= zlen dst -> exists w, SetExpectedLength e (new_array dst) = Ok w /\ array_holds (zlen dst) w e [].
Proof. intros He Hm. eexists. split; [done|]. unfold array_holds. cbn [new_array mem op_ op_limit_]. rewrite (@zlen_nil Z). split_and!; done || lia || constructor. Qed.
