(* ===== verification/SnappyValidator.v ===== *)
(** * [flare/io/snappy]: [SnappyDecompressionValidator]

    The writer that drops the bytes and counts them. *)

From S2P Require Import Prelude Bits Buffers SnappyFormat SnappyStubs SnappyWriters.
Local Open Scope Z_scope.

Record SnappyDecompressionValidator := mk_validator { expected_ : Z; produced_ : Z }.

Definition new_validator : SnappyDecompressionValidator := mk_validator 0 0.

Definition Append (src : list Z) (ip len : Z) (w : SnappyDecompressionValidator) : outcome (bool * SnappyDecompressionValidator) :=
  let produced := u64 (produced_ w + len) in
  Ok (produced <=? expected_ w, mk_validator (expected_ w) produced).

Definition AppendFromSelf (offset len : Z) (w : SnappyDecompressionValidator) : outcome (bool * SnappyDecompressionValidator) :=
  if produced_ w <=? u64 (offset - 1) then Ok (false, w)
  else
    let produced := u64 (produced_ w + len) in
    Ok (produced <=? expected_ w, mk_validator (expected_ w) produced).

#[export] Instance SnappyDecompressionValidator_writer : Writer SnappyDecompressionValidator := {
  SetExpectedLength len w := Ok (mk_validator len (produced_ w));
  CheckLength w := expected_ w =? produced_ w;
  wAppend := Append;
  TryFastAppend _ _ _ _ w := Ok (false, w);
  SnappyWriters.AppendFromSelf := AppendFromSelf;
  Flush w := Ok w
}.

(** ** Laws *)

Definition validator_holds (w : SnappyDecompressionValidator) (e : Z) (out : list Z) : Prop :=
  expected_ w = e /\ produced_ w = zlen out /\ zlen out <= e < 2 ^ 32.

Lemma validator_holds_check w e out : validator_holds w e out -> CheckLength w = (zlen out =? e).
Proof. intros (He & Hp & _). cbn. rewrite He, Hp. apply Z.eqb_sym. Qed.

Lemma validator_holds_append w e out src ip len :
  validator_holds w e out -> bytes_ok src -> 0 <= ip -> 0 <= len < 2 ^ 33 -> ip + len <= zlen src ->
  exists w', Append src ip len w = Ok (zlen out + len <=? e, w') /\ (zlen out + len <= e -> validator_holds w' e (out ++ part ip len src)).
Proof.
  intros (He & Hp & Hl) _ Hip Hlen Hsrc. pose proof (zlen_nonneg out). unfold Append. rewrite He, Hp, u64_small by lia. eexists. split; [done|].
  intros Hfit. unfold validator_holds. cbn. rewrite zlen_app, zlen_part by lia. split_and!; done || lia.
Qed.

Lemma validator_holds_fast w e out src ip available len :
  validator_holds w e out -> bytes_ok src -> 0 <= ip -> 0 <= len < 2 ^ 33 -> 0 <= available -> ip + available <= zlen src ->
  exists b w', TryFastAppend src ip available len w = Ok (b, w') /\
    if b then len <= 16 /\ 16 + kMaximumTagLength <= available /\ zlen out + len <= e /\ validator_holds w' e (out ++ part ip len src)
    else validator_holds w' e out.
Proof. intros. by exists false, w. Qed.

Lemma validator_holds_self w e out offset len :
  validator_holds w e out -> 0 <= offset < 2 ^ 32 -> 1 <= len <= 64 ->
  exists w', AppendFromSelf offset len w = Ok ((1 <=? offset) && (offset <=? zlen out) && (zlen out + len <=? e), w') /\
    (1 <= offset <= zlen out -> zlen out + len <= e -> validator_holds w' e (self_copy offset (Z.to_nat len) out)).
Proof.
  intros (He & Hp & Hl) Hoff Hlen. pose proof (zlen_nonneg out). unfold AppendFromSelf. rewrite He, Hp, (u64_small (zlen out + len)) by lia.
  destruct (decide (offset = 0)) as [->|Hnz].
  - rewrite (proj2 (Z.leb_le _ _)) by (change (u64 (0 - 1)) with (2 ^ 64 - 1); lia). exists w. split; [done|lia].
  - rewrite u64_small by lia. rewrite (proj2 (Z.leb_le 1 offset)) by lia. cbn [andb]. case_if; zbool.
    + rewrite (proj2 (Z.leb_gt offset _)) by lia. exists w. split; [done|lia].
    + rewrite (proj2 (Z.leb_le offset _)) by lia. eexists. split; [done|]. intros _ Hfit.
      unfold validator_holds. cbn. rewrite zlen_self_copy. split_and!; done || lia.
Qed.

Lemma validator_holds_flush w e out w' : validator_holds w e out -> Flush w = Ok w' -> CheckLength w' = (zlen out =? e).
Proof. intros H [= <-]. by apply validator_holds_check. Qed.

#[export] Instance SnappyDecompressionValidator_laws : WriterLaws SnappyDecompressionValidator := {
  holds := validator_holds;
  flushable _ _ := True;
  holds_flushable _ _ _ _ := I;
  holds_length w e out H := proj2 (proj2 H);
  holds_check := validator_holds_check;
  holds_append w e out src ip len H Hb Hip Hl Hs := always_flushable _ _ (validator_holds_append w e out src ip len H Hb Hip Hl Hs);
  holds_fast := validator_holds_fast;
  holds_self w e out offset len H Ho Hl := always_flushable _ _ (validator_holds_self w e out offset len H Ho Hl);
  flush_total w e _ := ex_intro _ w eq_refl;
  holds_flush w e out w' H E := validator_holds_flush w e out w' H E
}.

Lemma new_validator_holds e : 0 <= e < 2 ^ 32 -> exists w, SetExpectedLength e new_validator = Ok w /\ holds w e [].
Proof. intros He. eexists. split; [done|]. unfold holds, SnappyDecompressionValidator_laws, validator_holds. cbn. rewrite (@zlen_nil Z). split_and!; done || lia. Qed.
