(* ===== verification/SnappyIOVecWriter.v ===== *)
(** * [flare/io/snappy]: [SnappyIOVecWriter]

    The writer into an array of buffers.  A copy may start in an earlier buffer
    and run over several. *)

From S2P Require Import Prelude Bits Buffers SnappyFormat SnappyStubs SnappyWriters.
Local Open Scope Z_scope.

(** [output_iov_] are the buffers, whose lengths are the [iov_len]. *)
Record SnappyIOVecWriter := mk_iovec {
  output_iov_ : list (list Z);
  curr_iov_index_ : Z;
  curr_iov_written_ : Z;
  total_written_ : Z;
  output_limit_ : Z
}.

Definition new_iovec (iov : list (list Z)) : SnappyIOVecWriter := mk_iovec iov 0 0 0 18446744073709551615.

(** [memcpy] of [s] to the current place. *)
Definition put (s : list Z) (w : SnappyIOVecWriter) : outcome SnappyIOVecWriter :=
  cur ← deref (zget (output_iov_ w) (curr_iov_index_ w));
  cur ← mwrite (curr_iov_written_ w) s cur;
  Ok (mk_iovec (zset (curr_iov_index_ w) cur (output_iov_ w)) (curr_iov_index_ w)
        (curr_iov_written_ w + zlen s) (total_written_ w + zlen s) (output_limit_ w)).

(** [++curr_iov_index_] with nothing written to it. *)
Definition next_iov (w : SnappyIOVecWriter) : SnappyIOVecWriter :=
  mk_iovec (output_iov_ w) (curr_iov_index_ w + 1) 0 (total_written_ w) (output_limit_ w).

(** [while (len > 0)] of [Append]. *)
Fixpoint append_loop (fuel : nat) (src : list Z) (ip len : Z) (w : SnappyIOVecWriter) : outcome (bool * SnappyIOVecWriter) :=
  match fuel with
  | O => Undefined
  | S fuel =>
      if 0 <? len then
        cur ← deref (zget (output_iov_ w) (curr_iov_index_ w));
        _ ← check (curr_iov_written_ w <=? zlen cur);
        let full := zlen cur <=? curr_iov_written_ w in
        if full && (zlen (output_iov_ w) <=? curr_iov_index_ w + 1) then Ok (false, w)
        else
          let w := if full then next_iov w else w in
          cur ← deref (zget (output_iov_ w) (curr_iov_index_ w));
          let to_write := Z.min len (zlen cur - curr_iov_written_ w) in
          s ← mread src ip to_write; w ← put s w;
          append_loop fuel src (ip + to_write) (len - to_write) w
      else Ok (true, w)
  end.

Definition Append (src : list Z) (ip len : Z) (w : SnappyIOVecWriter) : outcome (bool * SnappyIOVecWriter) :=
  if output_limit_ w <? u64 (total_written_ w + len) then Ok (false, w)
  else append_loop (S (S (length (output_iov_ w)))) src ip len w.

Definition TryFastAppend (src : list Z) (ip available len : Z) (w : SnappyIOVecWriter) : outcome (bool * SnappyIOVecWriter) :=
  let space_left := u64 (output_limit_ w - total_written_ w) in
  if (len <=? 16) && (16 + kMaximumTagLength <=? available) && (16 <=? space_left) then
    cur ← deref (zget (output_iov_ w) (curr_iov_index_ w));
    if 16 <=? u64 (zlen cur - curr_iov_written_ w) then
      cur ← UnalignedCopy64 src ip (curr_iov_written_ w) cur;
      cur ← UnalignedCopy64 src (ip + 8) (curr_iov_written_ w + 8) cur;
      Ok (true, mk_iovec (zset (curr_iov_index_ w) cur (output_iov_ w)) (curr_iov_index_ w)
                  (curr_iov_written_ w + len) (total_written_ w + len) (output_limit_ w))
    else Ok (false, w)
  else Ok (false, w).

(** [while (offset > 0)]: the buffer in which the copy starts. *)
Fixpoint locate (fuel : nat) (offset from_iov_index from_iov_offset : Z) (w : SnappyIOVecWriter) : outcome (Z * Z) :=
  match fuel with
  | O => Undefined
  | S fuel =>
      if 0 <? offset then
        if offset <=? from_iov_offset then Ok (from_iov_index, from_iov_offset - offset)
        else
          let offset := offset - from_iov_offset in
          let from_iov_index := from_iov_index - 1 in
          _ ← check (0 <=? from_iov_index);
          from ← deref (zget (output_iov_ w) from_iov_index);
          locate fuel offset from_iov_index (zlen from) w
      else Ok (from_iov_index, from_iov_offset)
  end.

(** [while (len > 0)] of the copy. *)
Fixpoint copy_loop (fuel : nat) (from_iov_index from_iov_offset len : Z) (w : SnappyIOVecWriter) : outcome (bool * SnappyIOVecWriter) :=
  match fuel with
  | O => Undefined
  | S fuel =>
      if 0 <? len then
        _ ← check (from_iov_index <=? curr_iov_index_ w);
        if negb (from_iov_index =? curr_iov_index_ w) then
          from ← deref (zget (output_iov_ w) from_iov_index);
          let to_copy := Z.min (zlen from - from_iov_offset) len in
          '(_, w) ← Append from from_iov_offset to_copy w;
          let len := len - to_copy in
          if 0 <? len then copy_loop fuel (from_iov_index + 1) 0 len w else copy_loop fuel from_iov_index from_iov_offset len w
        else
          cur ← deref (zget (output_iov_ w) (curr_iov_index_ w));
          _ ← check (curr_iov_written_ w <=? zlen cur);
          let to_copy := Z.min (zlen cur - curr_iov_written_ w) len in
          if to_copy =? 0 then
            if zlen (output_iov_ w) <=? curr_iov_index_ w + 1 then Ok (false, w)
            else copy_loop fuel from_iov_index from_iov_offset len (next_iov w)
          else
            cur ← IncrementalCopy from_iov_offset (curr_iov_written_ w) to_copy cur;
            copy_loop fuel from_iov_index (from_iov_offset + to_copy) (len - to_copy)
              (mk_iovec (zset (curr_iov_index_ w) cur (output_iov_ w)) (curr_iov_index_ w)
                 (curr_iov_written_ w + to_copy) (total_written_ w + to_copy) (output_limit_ w))
      else Ok (true, w)
  end.

Definition AppendFromSelf (offset len : Z) (w : SnappyIOVecWriter) : outcome (bool * SnappyIOVecWriter) :=
  if (total_written_ w <? offset) || (offset =? 0) then Ok (false, w)
  else
    let space_left := u64 (output_limit_ w - total_written_ w) in
    if space_left <? len then Ok (false, w)
    else
      '(from_iov_index, from_iov_offset) ← locate (S (S (length (output_iov_ w)))) offset (curr_iov_index_ w) (curr_iov_written_ w) w;
      copy_loop (Z.to_nat len + 2 * length (output_iov_ w) + 2) from_iov_index from_iov_offset len w.

#[export] Instance SnappyIOVecWriter_writer : Writer SnappyIOVecWriter := {
  SetExpectedLength len w := Ok (mk_iovec (output_iov_ w) (curr_iov_index_ w) (curr_iov_written_ w) (total_written_ w) len);
  CheckLength w := total_written_ w =? output_limit_ w;
  wAppend := Append;
  SnappyWriters.TryFastAppend := TryFastAppend;
  SnappyWriters.AppendFromSelf := AppendFromSelf;
  Flush w := Ok w
}.

(** ** States *)

(** Buffers [pre] are full, [n] bytes of [cur] are written, [post] are free. *)
Definition st (pre : list (list Z)) (cur : list Z) (post : list (list Z)) (n e : Z) : SnappyIOVecWriter :=
  mk_iovec (pre ++ cur :: post) (zlen pre) n (zlen (concat pre) + n) e.

Ltac st_fields :=
  repeat match goal with
  | |- context [output_iov_ (st ?a ?b ?c ?n ?e)] => change (output_iov_ (st a b c n e)) with (a ++ b :: c)
  | |- context [curr_iov_index_ (st ?a ?b ?c ?n ?e)] => change (curr_iov_index_ (st a b c n e)) with (zlen a)
  | |- context [curr_iov_written_ (st ?a ?b ?c ?n ?e)] => change (curr_iov_written_ (st a b c n e)) with n
  | |- context [total_written_ (st ?a ?b ?c ?n ?e)] => change (total_written_ (st a b c n e)) with (zlen (concat a) + n)
  | |- context [output_limit_ (st ?a ?b ?c ?n ?e)] => change (output_limit_ (st a b c n e)) with e
  end.

Lemma put_st s pre cur post n e :
  0 <= n -> n + zlen s <= zlen cur -> put s (st pre cur post n e) = Ok (st pre (splice n s cur) post (n + zlen s) e).
Proof.
  intros. unfold put, st. cbn [output_iov_ curr_iov_index_ curr_iov_written_ total_written_ output_limit_]. rewrite zget_middle. cbn [deref mbind outcome_bind].
  rewrite mwrite_ok by lia. cbn [mbind outcome_bind]. rewrite zset_middle. f_equal. f_equal. lia.
Qed.

Lemma next_st pre cur c post e : next_iov (st pre cur (c :: post) (zlen cur) e) = st (pre ++ [cur]) c post 0 e.
Proof.
  unfold next_iov, st. cbn [output_iov_ curr_iov_index_ curr_iov_written_ total_written_ output_limit_]. rewrite <- app_assoc. cbn [app]. f_equal.
  - by rewrite zlen_app.
  - rewrite concat_app, zlen_app. cbn. rewrite app_nil_r. lia.
Qed.

(** The lengths of buffers do not change. *)
Definition same_lengths (a b : list (list Z)) : Prop := map zlen a = map zlen b.

Lemma same_lengths_concat a : forall b, same_lengths a b -> zlen (concat a) = zlen (concat b) /\ zlen a = zlen b.
Proof.
  unfold same_lengths. induction a as [|x a IH]; intros [|y b] E; try done. cbn in E. injection E as E1 E2. destruct (IH b E2) as [H1 H2].
  cbn [concat]. rewrite !zlen_app, !zlen_cons. lia.
Qed.

Lemma same_lengths_take n a b : same_lengths a b -> same_lengths (ztake n a) (ztake n b).
Proof. unfold same_lengths, ztake. intros E. by rewrite <- !firstn_map, E. Qed.

Lemma same_lengths_splice pre cur post n s : 0 <= n -> n + zlen s <= zlen cur -> same_lengths (pre ++ cur :: post) (pre ++ splice n s cur :: post).
Proof. intros. unfold same_lengths. rewrite !map_app. cbn. by rewrite zlen_splice by lia. Qed.

(** ** [Append] *)

(** Turns of the loop that are enough: one for each free buffer, one for the
    current one unless it is full, and one to see the end. *)
Definition append_turns (cur : list Z) (post : list (list Z)) (n len : Z) : nat :=
  if len =? 0 then 1%nat else Nat.add (length post) (if n <? zlen cur then 2 else 1).

(** The bytes for the current buffer. *)
Lemma append_piece pre cur post n e src ip len k :
  0 <= n <= zlen cur -> 0 <= ip -> 0 <= k <= len -> k <= zlen cur - n -> ip + len <= zlen src ->
  (s ← mread src ip k; put s (st pre cur post n e)) = Ok (st pre (splice n (part ip k src) cur) post (n + k) e) /\
  produced pre (splice n (part ip k src) cur) (n + k) = produced pre cur n ++ part ip k src /\
  zlen (splice n (part ip k src) cur) = zlen cur /\ same_lengths (pre ++ cur :: post) (pre ++ splice n (part ip k src) cur :: post).
Proof.
  intros Hn Hip Hk Hc Hsrc. assert (Hz : zlen (part ip k src) = k) by (apply zlen_part; lia). rewrite mread_ok by lia. cbn [mbind outcome_bind].
  rewrite put_st by lia. rewrite Hz. split_and!; [done| |apply zlen_splice; lia|apply same_lengths_splice; lia].
  unfold produced. rewrite <- app_assoc. f_equal. rewrite <- Hz at 1. apply ztake_splice; lia.
Qed.

Lemma append_loop_spec fuel : forall pre cur post n e src ip len,
  0 <= n <= zlen cur -> 0 <= ip -> 0 <= len -> ip + len <= zlen src -> len <= (zlen cur - n) + zlen (concat post) -> (append_turns cur post n len <= fuel)%nat ->
  exists pre' cur' post' n', append_loop fuel src ip len (st pre cur post n e) = Ok (true, st pre' cur' post' n' e) /\ 0 <= n' <= zlen cur' /\
    produced pre' cur' n' = produced pre cur n ++ part ip len src /\ same_lengths (pre ++ cur :: post) (pre' ++ cur' :: post') /\ zlen pre <= zlen pre'.
Proof.
  induction fuel as [|fuel IH]; intros pre cur post n e src ip len Hn Hip Hlen Hsrc Hcap Hf; unfold append_turns in Hf; [destruct (len =? 0), (n <? zlen cur); lia|].
  cbn [append_loop]. case_if; zbool.
  2: { exists pre, cur, post, n. assert (len = 0) as -> by lia. rewrite part_nil, app_nil_r. split_and!; (done || lia). }
  rewrite (proj2 (Z.eqb_neq _ _)) in Hf by lia.
  assert (Hstep : forall pre cur post n, 0 <= n <= zlen cur -> len <= (zlen cur - n) + zlen (concat post) -> (length post + 1 <= fuel)%nat ->
    exists pre' cur' post' n',
      (s ← mread src ip (Z.min len (zlen cur - n)); w ← put s (st pre cur post n e);
       append_loop fuel src (ip + Z.min len (zlen cur - n)) (len - Z.min len (zlen cur - n)) w) = Ok (true, st pre' cur' post' n' e) /\
      0 <= n' <= zlen cur' /\ produced pre' cur' n' = produced pre cur n ++ part ip len src /\
      same_lengths (pre ++ cur :: post) (pre' ++ cur' :: post') /\ zlen pre <= zlen pre').
  { clear pre cur post n Hn Hcap Hf. intros pre cur post n Hn Hcap Hf. set (k := Z.min len (zlen cur - n)).
    destruct (append_piece pre cur post n e src ip len k) as (E & Ep & Hz & Hsame); [lia..|]. destruct (mread src ip k) as [x| |]; try done. cbn [mbind outcome_bind] in E |- *. rewrite E. cbn [mbind outcome_bind].
    destruct (IH pre (splice n (part ip k src) cur) post (n + k) e src (ip + k) (len - k)) as (pre' & cur' & post' & n' & -> & Hn' & Ep' & Hs' & Hpre);
      [lia..| |].
    { unfold append_turns. rewrite Hz. destruct (len - k =? 0) eqn:E0; zbool; [lia|]. rewrite (proj2 (Z.ltb_ge _ _)) by lia. lia. }
    exists pre', cur', post', n'. split_and!; try done; try lia.
    - rewrite Ep', Ep, <- app_assoc. f_equal. rewrite <- part_add by lia. f_equal. lia.
    - unfold same_lengths in *. by rewrite Hsame. }
  st_fields. rewrite zget_middle. cbn [deref mbind outcome_bind].
  unfold check. rewrite (proj2 (Z.leb_le n _)) by lia. cbn [mbind outcome_bind]. destruct (zlen cur <=? n) eqn:Efull; zbool.
  - assert (n = zlen cur) as -> by lia. destruct post as [|c2 post]; [cbn [concat] in Hcap; rewrite (@zlen_nil Z) in Hcap; lia|].
    rewrite (proj2 (Z.leb_gt _ _)) by (rewrite zlen_app, !zlen_cons; pose proof (zlen_nonneg post); lia). cbn [andb]. rewrite next_st.
    st_fields. rewrite zget_middle. cbn [deref mbind outcome_bind].
    cbn [concat] in Hcap. rewrite zlen_app in Hcap. cbn [length] in Hf. rewrite (proj2 (Z.ltb_ge _ _)) in Hf by lia. pose proof (zlen_nonneg c2).
    destruct (Hstep (pre ++ [cur]) c2 post 0) as (pre' & cur' & post' & n' & E & Hn' & Ep' & Hs' & Hpre); [lia..|].
    exists pre', cur', post', n'. split_and!; try done; try lia.
    + rewrite Ep'. unfold produced. rewrite concat_app. cbn [concat]. rewrite app_nil_r. change (ztake 0 c2) with (@nil Z). by rewrite app_nil_r, (ztake_all (zlen cur)) by lia.
    + by rewrite <- app_assoc in Hs'.
    + rewrite zlen_app in Hpre. change (zlen [cur]) with 1 in Hpre. lia.
  - cbn [andb]. st_fields. rewrite zget_middle. cbn [deref mbind outcome_bind].
    rewrite (proj2 (Z.ltb_lt _ _)) in Hf by lia. apply Hstep; lia.
Qed.

Lemma append_turns_le (pre : list (list Z)) cur post n len : (append_turns cur post n len <= S (S (length (pre ++ cur :: post))))%nat.
Proof. unfold append_turns. rewrite length_app. cbn. destruct (len =? 0), (n <? zlen cur); lia. Qed.

Lemma zlen_buffers (pre : list (list Z)) cur post : zlen (concat (pre ++ cur :: post)) = zlen (concat pre) + zlen cur + zlen (concat post).
Proof. rewrite concat_app. cbn [concat]. rewrite !zlen_app. lia. Qed.

(** [Append], when there is room. *)
Lemma Append_st pre cur post n e src ip len :
  0 <= n <= zlen cur -> 0 <= ip -> 0 <= len -> ip + len <= zlen src -> e < 2 ^ 32 ->
  zlen (concat pre) + n + len <= e -> e <= zlen (concat (pre ++ cur :: post)) ->
  exists pre' cur' post' n', Append src ip len (st pre cur post n e) = Ok (true, st pre' cur' post' n' e) /\ 0 <= n' <= zlen cur' /\
    produced pre' cur' n' = produced pre cur n ++ part ip len src /\ same_lengths (pre ++ cur :: post) (pre' ++ cur' :: post') /\ zlen pre <= zlen pre'.
Proof.
  intros Hn Hip Hlen Hsrc He Hfit Hcap. pose proof (zlen_nonneg (concat pre)). unfold Append. st_fields. rewrite u64_small by lia. rewrite (proj2 (Z.ltb_ge _ _)) by lia.
  rewrite zlen_buffers in Hcap. apply append_loop_spec; [lia..|apply append_turns_le].
Qed.

(** ** Copies *)

(** Place [off] of buffer [i] holds byte [p] of the output. *)
Definition at_position (bufs : list (list Z)) (i off p : Z) : Prop :=
  0 <= i < zlen bufs /\ 0 <= off /\ (exists b, zget bufs i = Some b /\ off <= zlen b) /\ zlen (concat (ztake i bufs)) + off = p.

Lemma ztake_succ {A} (l : list A) i x : zget l i = Some x -> ztake (i + 1) l = ztake i l ++ [x].
Proof.
  intros E. pose proof (zget_Some_lt _ _ _ E). unfold zget in E. case_if_in E; [done|]. unfold ztake. replace (Z.to_nat (i + 1)) with (S (Z.to_nat i)) by lia.
  by apply take_S_r.
Qed.

Lemma locate_spec fuel : forall w bufs offset i off p,
  output_iov_ w = bufs -> 0 < offset -> 0 <= p -> at_position bufs i off (p + offset) -> i < Z.of_nat fuel ->
  exists i' off', locate fuel offset i off w = Ok (i', off') /\ i' <= i /\ at_position bufs i' off' p.
Proof.
  induction fuel as [|fuel IH]; intros w bufs offset i off p Hw Ho Hp (Hi & Hoff & (b & Hb & Hle) & Hpos) Hf; [lia|]. cbn [locate].
  rewrite (proj2 (Z.ltb_lt 0 offset)) by lia. case_if; zbool.
  - exists i, (off - offset). split; [done|]. split; [lia|]. split_and!; try lia. exists b. split; [done|lia].
  - destruct (decide (i = 0)) as [->|Hi0]; [change (ztake 0 bufs) with (@nil (list Z)) in Hpos; cbn [concat] in Hpos; rewrite (@zlen_nil Z) in Hpos; lia|].
    unfold check. rewrite (proj2 (Z.leb_le _ _)) by lia. cbn [mbind outcome_bind]. destruct (zget_lt bufs (i - 1)) as [b1 Hb1]; [lia|].
    rewrite Hw, Hb1. cbn [deref mbind outcome_bind]. destruct (IH w bufs (offset - off) (i - 1) (zlen b1) p Hw) as (i' & off' & E & Hi' & Hat); [lia..| |lia|].
    { pose proof (zlen_nonneg b1). split_and!; try lia; [exists b1; split; [done|lia]|].
      pose proof (ztake_succ bufs (i - 1) b1 Hb1) as Et. replace (i - 1 + 1) with i in Et by lia. rewrite Et, concat_app, zlen_app in Hpos. cbn [concat] in Hpos. rewrite app_nil_r in Hpos. lia. }
    exists i', off'. split; [done|]. split; [lia|done].
Qed.

(** Bytes that were all produced before the copy. *)
Lemma self_copy_part offset n : forall out, 1 <= offset <= zlen out -> Z.of_nat n <= offset -> self_copy offset n out = out ++ part (zlen out - offset) (Z.of_nat n) out.
Proof.
  induction n as [|n IH]; intros out Ho Hn; cbn [self_copy]; [by rewrite app_nil_r|]. destruct (zget_lt out (zlen out - offset) ltac:(lia)) as [b Hb].
  rewrite Hb. change (default 0 (Some b)) with b. assert (H1 : zlen (out ++ [b]) = zlen out + 1) by (by rewrite zlen_app). rewrite IH by (rewrite ?H1; lia). rewrite <- app_assoc. f_equal.
  replace (Z.of_nat (S n)) with (1 + Z.of_nat n) by lia. rewrite part_add by lia. f_equal.
  - apply zget_eq; [by rewrite zlen_part by lia|]. intros i Hi. change (zlen [b]) with 1 in Hi. assert (i = 0) as -> by lia. by rewrite zget_part, Z.add_0_r by lia.
  - rewrite H1. replace (zlen out + 1 - offset) with (zlen out - offset + 1) by lia. unfold part. rewrite zdrop_app_le by lia.
    apply ztake_app_le. rewrite zlen_zdrop; lia.
Qed.

(** A buffer before the current one, in the output. *)
Lemma produced_buffer pre cur post n i b off k p :
  0 <= n <= zlen cur -> 0 <= i < zlen pre -> zget (pre ++ cur :: post) i = Some b -> 0 <= off -> 0 <= k -> off + k <= zlen b ->
  zlen (concat (ztake i (pre ++ cur :: post))) + off = p -> part off k b = part p k (produced pre cur n) /\ p + k <= zlen (concat pre).
Proof.
  intros Hn Hi Hb Hoff Hk Hle Hp. rewrite zget_app_l in Hb by lia. rewrite ztake_app_le in Hp by lia. unfold produced.
  assert (Es : pre = ztake i pre ++ b :: zdrop (i + 1) pre).
  { rewrite <- (ztake_zdrop i pre) at 1. f_equal. unfold zget in Hb. case_if_in Hb; [done|]. zbool. unfold zdrop. rewrite (drop_S _ b) by done. f_equal. f_equal. lia. }
  assert (Ec : concat pre = concat (ztake i pre) ++ b ++ concat (zdrop (i + 1) pre)) by (rewrite Es at 1; by rewrite concat_app).
  pose proof (zlen_nonneg (concat (ztake i pre))). pose proof (zlen_nonneg (concat (zdrop (i + 1) pre))). split.
  - rewrite Ec. unfold part. rewrite <- !app_assoc, zdrop_app_ge by lia. replace (p - zlen (concat (ztake i pre))) with off by lia.
    rewrite zdrop_app_le by lia. rewrite ztake_app_le; [done|]. rewrite zlen_zdrop; lia.
  - rewrite Ec, !zlen_app. lia.
Qed.

Lemma at_position_same a b i off p : same_lengths a b -> at_position a i off p -> at_position b i off p.
Proof.
  intros Hs (Hi & Hoff & (x & Hx & Hle) & Hp). destruct (same_lengths_concat _ _ (same_lengths_take i a b Hs)) as [Hc _].
  destruct (same_lengths_concat _ _ Hs) as [_ Hl]. destruct (zget_lt b i ltac:(lia)) as [y Hy]. split_and!; try lia. exists y. split; [done|].
  cut (zlen x = zlen y); [lia|]. unfold zget in Hx, Hy. case_if_in Hx; [done|].
  assert (E : map zlen a !! Z.to_nat i = map zlen b !! Z.to_nat i) by (by rewrite Hs). rewrite !list_lookup_fmap, Hx, Hy in E. by injection E.
Qed.

Lemma same_lengths_trans a b c : same_lengths a b -> same_lengths b c -> same_lengths a c.
Proof. unfold same_lengths. congruence. Qed.

(** What a copy leaves. *)
Definition copied_to (bufs : list (list Z)) (e : Z) (out' : list Z) (r : outcome (bool * SnappyIOVecWriter)) : Prop :=
  exists pre cur post n, r = Ok (true, st pre cur post n e) /\ 0 <= n <= zlen cur /\ produced pre cur n = out' /\ same_lengths bufs (pre ++ cur :: post).

Lemma copied_to_same bufs bufs' e out r : same_lengths bufs bufs' -> copied_to bufs' e out r -> copied_to bufs e out r.
Proof. intros Hs (pre & cur & post & n & -> & Hn & Ho & Hs'). exists pre, cur, post, n. split_and!; try done; try lia. by eapply same_lengths_trans. Qed.

(** A copy inside of the current buffer. *)
Lemma copy_current pre cur post n e offset k :
  0 <= n <= zlen cur -> 1 <= offset <= n -> 0 < k <= zlen cur - n ->
  exists cur', IncrementalCopy (n - offset) n k cur = Ok cur' /\ zlen cur' = zlen cur /\
    mk_iovec (zset (zlen pre) cur' (pre ++ cur :: post)) (zlen pre) (n + k) (zlen (concat pre) + n + k) e = st pre cur' post (n + k) e /\
    produced pre cur' (n + k) = self_copy offset (Z.to_nat k) (produced pre cur n).
Proof.
  intros Hn Ho Hk. destruct (IncrementalCopy_spec (n - offset) n k cur) as (cur' & E & Hc); [lia..|]. replace (n - (n - offset)) with offset in Hc by lia.
  exists cur'. split_and!; [done|apply Hc| |].
  - rewrite zset_middle. unfold st. f_equal. lia.
  - unfold produced. rewrite (copied_self_copy offset n k cur cur' Hc) by lia. symmetry. apply self_copy_app. rewrite zlen_ztake; lia.
Qed.

Lemma copy_loop_spec offset e fuel : forall pre cur post n from foff len,
  let bufs := pre ++ cur :: post in
  let out := produced pre cur n in
  0 <= n <= zlen cur -> e < 2 ^ 32 -> 1 <= offset <= zlen out -> 0 <= len -> zlen out + len <= e -> e <= zlen (concat bufs) ->
  (0 < len -> at_position bufs from foff (zlen out - offset) /\ from <= zlen pre /\ len + (zlen bufs - zlen pre) + (zlen bufs - from) < Z.of_nat fuel) -> (0 < fuel)%nat ->
  copied_to bufs e (self_copy offset (Z.to_nat len) out) (copy_loop fuel from foff len (st pre cur post n e)).
Proof.
  induction fuel as [|fuel IH]; intros pre cur post n from foff len bufs out Hn He Ho Hlen Hfit Hcap Hpos Hfuel; [lia|]. cbn [copy_loop].
  assert (Hzo : zlen out = zlen (concat pre) + n) by (by apply zlen_produced). destruct (0 <? len) eqn:E0; zbool.
  2: { assert (len = 0) as -> by lia. exists pre, cur, post, n. split_and!; (done || lia). }
  destruct (Hpos ltac:(lia)) as ((Hi & Hoff & (b & Hb & Hle) & Hp) & Hfrom & Hf). clear Hpos. st_fields. fold bufs. unfold check. rewrite (proj2 (Z.leb_le from _)) by lia. cbn [mbind outcome_bind].
  assert (Hzb : zlen bufs = zlen pre + 1 + zlen post) by (unfold bufs; rewrite zlen_app, zlen_cons; lia). pose proof (zlen_nonneg post).
  destruct (from =? zlen pre) eqn:Ef; zbool; cbn [negb].
  - subst from. unfold bufs in Hb. rewrite zget_middle in Hb. injection Hb as <-. unfold bufs in Hp. rewrite ztake_app_exact in Hp by done.
    assert (Hcur : zget bufs (zlen pre) = Some cur) by apply zget_middle. rewrite Hcur. cbn [deref mbind outcome_bind]. rewrite (proj2 (Z.leb_le n _)) by lia. cbn [mbind outcome_bind].
    destruct (Z.min (zlen cur - n) len =? 0) eqn:Ek; zbool.
    + assert (n = zlen cur) as -> by lia. unfold bufs in Hcap. rewrite zlen_buffers in Hcap. destruct post as [|c2 post]; [cbn [concat] in Hcap; rewrite (@zlen_nil Z) in Hcap; lia|].
      rewrite zlen_cons in *. pose proof (zlen_nonneg post). rewrite (proj2 (Z.leb_gt _ _)) by lia. rewrite next_st.
      assert (Ep : produced (pre ++ [cur]) c2 0 = out).
      { unfold out, produced. rewrite concat_app. cbn [concat]. change (ztake 0 c2) with (@nil Z). by rewrite !app_nil_r, ztake_all by lia. }
      assert (Eb : (pre ++ [cur]) ++ c2 :: post = bufs) by (unfold bufs; by rewrite <- app_assoc).
      specialize (IH (pre ++ [cur]) c2 post 0 (zlen pre) foff len). cbv zeta in IH. rewrite Ep, Eb in IH. pose proof (zlen_nonneg c2).
      apply IH; try lia; try done.
      * unfold bufs. rewrite zlen_buffers. cbn [concat] in *. lia.
      * intros _. rewrite (zlen_app pre). change (zlen [cur]) with 1. split_and!; try lia. split_and!; try lia.
        -- exists cur. split; [|lia]. unfold bufs. by rewrite zget_middle.
        -- unfold bufs. by rewrite ztake_app_exact.
    + set (k := Z.min (zlen cur - n) len) in *. assert (Hoffset : foff = n - offset) by lia. rewrite Hoffset.
      destruct (copy_current pre cur post n e offset k) as (cur' & -> & Hzc & Est & Eprod); [lia..|]. cbn [mbind outcome_bind].
      change (zset (zlen pre) cur' bufs) with (zset (zlen pre) cur' (pre ++ cur :: post)). rewrite Est. fold out in Eprod.
      assert (Hsame : same_lengths bufs (pre ++ cur' :: post)) by (unfold same_lengths, bufs; rewrite !map_app; cbn; by rewrite Hzc).
      destruct (same_lengths_concat _ _ Hsame) as [Hsc Hsl].
      apply copied_to_same with (pre ++ cur' :: post); [done|]. specialize (IH pre cur' post (n + k) (zlen pre) (n - offset + k) (len - k)). cbv zeta in IH.
      rewrite Eprod, zlen_self_copy, Z2Nat.id in IH by lia. rewrite <- self_copy_add, <- Z2Nat.inj_add in IH by lia. replace (k + (len - k)) with len in IH by lia.
      apply IH; try lia. intros Hl. split_and!; try lia. eapply at_position_same; [done|]. split_and!; try lia.
      * exists cur. split; [unfold bufs; by rewrite zget_middle|lia].
      * unfold bufs. rewrite ztake_app_exact by done. lia.
  - rewrite Hb. cbn [deref mbind outcome_bind]. set (k := Z.min (zlen b - foff) len).
    destruct (produced_buffer pre cur post n from b foff k (zlen out - offset)) as [Epart Hend]; [done|lia|done|lia..|done|]. fold out in Epart.
    destruct (Append_st pre cur post n e b foff k) as (pre' & cur' & post' & n' & -> & Hn' & Eprod & Hsame & Hpre); [done|lia..|done|]. cbn [mbind outcome_bind]. fold bufs in Hsame. fold out in Eprod.
    assert (Ecopy : produced pre' cur' n' = self_copy offset (Z.to_nat k) out).
    { rewrite Eprod, Epart, self_copy_part by lia. by rewrite Z2Nat.id by lia. }
    destruct (same_lengths_concat _ _ Hsame) as [Hsc Hsl]. apply copied_to_same with (pre' ++ cur' :: post'); [done|].
    assert (Hsum : self_copy offset (Z.to_nat len) out = self_copy offset (Z.to_nat (len - k)) (self_copy offset (Z.to_nat k) out)).
    { rewrite <- self_copy_add, <- Z2Nat.inj_add by lia. f_equal. lia. }
    rewrite Hsum, <- Ecopy. assert (Hz' : zlen (produced pre' cur' n') = zlen out + k) by (rewrite Ecopy, zlen_self_copy, Z2Nat.id; lia).
    destruct (0 <? len - k) eqn:El; zbool.
    + apply IH; try lia. rewrite Hz'. intros _. split_and!; try lia. eapply at_position_same; [done|]. destruct (zget_lt bufs (from + 1) ltac:(lia)) as [b2 Hb2].
      pose proof (zlen_nonneg b2). split_and!; try lia; [exists b2; split; [done|lia]|]. rewrite (ztake_succ bufs from b Hb), concat_app, zlen_app. cbn [concat]. rewrite app_nil_r. lia.
    + apply IH; try lia.
Qed.

(** ** Laws *)

(** The buffers have room for what is expected; there may be none. *)
Definition iovec_holds (w : SnappyIOVecWriter) (e : Z) (out : list Z) : Prop :=
  zlen out <= e < 2 ^ 32 /\
  ((exists pre cur post n, w = st pre cur post n e /\ 0 <= n <= zlen cur /\ out = produced pre cur n /\ e <= zlen (concat (pre ++ cur :: post))) \/
   (w = mk_iovec [] 0 0 0 0 /\ out = [] /\ e = 0)).

Lemma iovec_holds_total w e out : iovec_holds w e out -> total_written_ w = zlen out /\ output_limit_ w = e.
Proof.
  intros [_ [(pre & cur & post & n & -> & Hn & -> & _)|(-> & -> & ->)]]; [|done]. by rewrite zlen_produced by done.
Qed.

Lemma iovec_holds_check w e out : iovec_holds w e out -> CheckLength w = (zlen out =? e).
Proof. intros [Ht Hl]%iovec_holds_total. cbn. by rewrite Ht, Hl. Qed.

Lemma iovec_holds_flush w e out w' : iovec_holds w e out -> Flush w = Ok w' -> CheckLength w' = (zlen out =? e).
Proof. intros H [= <-]. by apply iovec_holds_check. Qed.

Lemma iovec_holds_append w e out src ip len :
  iovec_holds w e out -> bytes_ok src -> 0 <= ip -> 0 <= len < 2 ^ 33 -> ip + len <= zlen src ->
  exists w', Append src ip len w = Ok (zlen out + len <=? e, w') /\ (zlen out + len <= e -> iovec_holds w' e (out ++ part ip len src)).
Proof.
  intros H _ Hip Hlen Hsrc. destruct (iovec_holds_total w e out H) as [Ht Hl]. pose proof H as [He Hcases]. pose proof (zlen_nonneg out).
  destruct (zlen out + len <=? e) eqn:E; zbool.
  2: { exists w. split; [|lia]. unfold Append. rewrite Ht, Hl, u64_small by lia. by rewrite (proj2 (Z.ltb_lt _ _)) by lia. }
  destruct Hcases as [(pre & cur & post & n & -> & Hn & -> & Hcap)|(-> & -> & ->)].
  - rewrite zlen_produced in * by done.
    destruct (Append_st pre cur post n e src ip len) as (pre' & cur' & post' & n' & -> & Hn' & Ep & Hs & _); [done|lia..|]. eexists. split; [done|]. intros _.
    split; [rewrite zlen_app, zlen_part, zlen_produced by lia; lia|]. left. exists pre', cur', post', n'. split_and!; try done; try lia.
    destruct (same_lengths_concat _ _ Hs). lia.
  - rewrite (@zlen_nil Z) in *. assert (len = 0) as -> by lia. exists (mk_iovec [] 0 0 0 0). split; [done|]. intros _. by split; [|right].
Qed.

Lemma iovec_holds_fast w e out src ip available len :
  iovec_holds w e out -> bytes_ok src -> 0 <= ip -> 0 <= len < 2 ^ 33 -> 0 <= available -> ip + available <= zlen src ->
  exists b w', TryFastAppend src ip available len w = Ok (b, w') /\
    if b then len <= 16 /\ 16 + kMaximumTagLength <= available /\ zlen out + len <= e /\ iovec_holds w' e (out ++ part ip len src) else iovec_holds w' e out.
Proof.
  intros H _ Hip Hlen Hav Hsrc. destruct (iovec_holds_total w e out H) as [Ht Hl]. pose proof H as [He Hcases]. pose proof (zlen_nonneg out). unfold TryFastAppend. rewrite Ht, Hl, u64_small by lia.
  unfold kMaximumTagLength in *. case_if; [|by exists false, w]. zbool. destruct Hcases as [(pre & cur & post & n & -> & Hn & Ho & Hcap)|(-> & -> & ->)]; [|rewrite (@zlen_nil Z) in *; lia].
  st_fields. rewrite zget_middle. cbn [deref mbind outcome_bind]. case_if; [|by exists false, (st pre cur post n e)]. zbool.
  assert (Hroom : 16 <= zlen cur - n).
  { unfold u64 in *. destruct (Z.lt_ge_cases (zlen cur - n) 16); [|done]. rewrite Z.mod_small in *; lia. }
  destruct (fast_copies src ip n len cur) as (m1 & cur2 & -> & E2 & Hc2 & Ht2); [lia..|]. cbn [mbind outcome_bind]. rewrite E2. cbn [mbind outcome_bind].
  eexists true, _. split; [done|]. split_and!; [lia..|]. split; [rewrite zlen_app, zlen_part by lia; lia|]. left. exists pre, cur2, post, (n + len).
  rewrite zset_middle. split_and!; [unfold st; f_equal; rewrite <- Ht; st_fields; lia|lia..| |].
  - rewrite Ho. unfold produced. by rewrite Ht2, <- app_assoc.
  - rewrite zlen_buffers in *. lia.
Qed.

Lemma iovec_holds_self w e out offset len :
  iovec_holds w e out -> 0 <= offset < 2 ^ 32 -> 1 <= len <= 64 ->
  exists w', AppendFromSelf offset len w = Ok ((1 <=? offset) && (offset <=? zlen out) && (zlen out + len <=? e), w') /\
    (1 <= offset <= zlen out -> zlen out + len <= e -> iovec_holds w' e (self_copy offset (Z.to_nat len) out)).
Proof.
  intros H Hoff Hlen. destruct (iovec_holds_total w e out H) as [Ht Hl]. pose proof H as [He Hcases]. pose proof (zlen_nonneg out). unfold AppendFromSelf. rewrite Ht, Hl, u64_small by lia.
  destruct ((zlen out <? offset) || (offset =? 0)) eqn:E.
  - exists w. split; [|intros; apply orb_true_iff in E as [E|E]; zbool; lia]. f_equal. f_equal. symmetry. apply orb_true_iff in E as [E|E]; zbool.
    + rewrite (proj2 (Z.leb_gt offset _)) by lia. by rewrite andb_false_r.
    + by subst offset.
  - zbool. rewrite (proj2 (Z.leb_le 1 offset)), (proj2 (Z.leb_le offset _)) by lia. cbn [andb]. destruct (e - zlen out <? len) eqn:Es; zbool.
    + rewrite (proj2 (Z.leb_gt _ e)) by lia. exists w. split; [done|lia].
    + rewrite (proj2 (Z.leb_le _ e)) by lia. destruct Hcases as [(pre & cur & post & n & -> & Hn & Ho & Hcap)|(-> & -> & ->)]; [|rewrite (@zlen_nil Z) in *; lia].
      assert (Hz : zlen out = zlen (concat pre) + n) by (rewrite Ho; by apply zlen_produced). st_fields. pose proof (zlen_nonneg pre). pose proof (zlen_nonneg post).
      assert (Hzb : zlen (pre ++ cur :: post) = zlen pre + 1 + zlen post) by (rewrite zlen_app, zlen_cons; lia).
      destruct (locate_spec (S (S (length (pre ++ cur :: post)))) (st pre cur post n e) (pre ++ cur :: post) offset (zlen pre) n (zlen out - offset)) as (from & foff & -> & Hf & Hat);
        [done|lia..| |unfold zlen in *; lia|].
      { split_and!; try lia; [exists cur; split; [apply zget_middle|lia]|]. rewrite ztake_app_exact by done. lia. }
      cbn [mbind outcome_bind]. pose proof Hat as ((Hf0 & _) & _).
      pose proof (copy_loop_spec offset e (Z.to_nat len + 2 * length (pre ++ cur :: post) + 2) pre cur post n from foff len) as Hloop. cbv zeta in Hloop. rewrite <- Ho in Hloop.
      destruct Hloop as (pre' & cur' & post' & n' & -> & Hn' & Ep & Hs); [lia..| |lia|].
      { intros _. split_and!; [done|lia|]. unfold zlen in *. lia. }
      eexists. split; [done|]. intros _ _. split; [rewrite zlen_self_copy, Z2Nat.id by lia; lia|]. left. exists pre', cur', post', n'. destruct (same_lengths_concat _ _ Hs). split_and!; done || lia.
Qed.

#[export] Instance SnappyIOVecWriter_laws : WriterLaws SnappyIOVecWriter := {
  holds := iovec_holds;
  flushable _ _ := True;
  holds_flushable _ _ _ _ := I;
  holds_length w e out H := proj1 H;
  holds_check := iovec_holds_check;
  holds_append w e out src ip len H Hb Hip Hl Hs := always_flushable _ _ (iovec_holds_append w e out src ip len H Hb Hip Hl Hs);
  holds_fast := iovec_holds_fast;
  holds_self w e out offset len H Ho Hl := always_flushable _ _ (iovec_holds_self w e out offset len H Ho Hl);
  flush_total w e _ := ex_intro _ w eq_refl;
  holds_flush := iovec_holds_flush
}.

Lemma new_iovec_holds iov e : 0 <= e < 2 ^ 32 -> e <= zlen (concat iov) -> exists w, SetExpectedLength e (new_iovec iov) = Ok w /\ holds w e [].
Proof.
  intros He Hcap. eexists. split; [done|]. unfold holds, SnappyIOVecWriter_laws, iovec_holds. rewrite (@zlen_nil Z). split; [lia|]. cbn [new_iovec output_iov_ curr_iov_index_ curr_iov_written_ total_written_].
  destruct iov as [|cur post].
  - cbn [concat] in Hcap. rewrite (@zlen_nil Z) in Hcap. right. assert (e = 0) as -> by lia. done.
  - left. exists [], cur, post, 0. pose proof (zlen_nonneg cur). split_and!; done || lia.
Qed.

(** The bytes are at the front of the buffers. *)
Lemma iovec_holds_front w e out : holds w e out -> ztake (zlen out) (concat (output_iov_ w)) = out.
Proof.
  intros [_ [(pre & cur & post & n & -> & Hn & -> & _)|(-> & -> & ->)]]; [|done]. st_fields. unfold produced. rewrite concat_app. cbn [concat].
  rewrite zlen_app, zlen_ztake by lia. rewrite ztake_app_ge by lia. f_equal. replace (zlen (concat pre) + n - zlen (concat pre)) with n by lia. by rewrite ztake_app_le by lia.
Qed.
