(* ===== verification/SnappyScatteredWriter.v ===== *)
(** * [flare/io/snappy]: [SnappyScatteredWriter]

    The writer into blocks of [kBlockSize] bytes that [SnappySinkAllocator]
    allocates, and hands to a sink at the end. *)

From S2P Require Import Prelude Bits Buffers SnappyFormat SnappyStubs SnappyFragment SnappyEncode SnappyIO SnappyWriters.
Local Open Scope Z_scope.

(** [blocks_] are the blocks of writer and allocator.  [op_base_] is the last of
    them, or null when there is none; [op_ptr_] and [op_limit_] are offsets from
    it. *)
Record SnappyScatteredWriter (K : Type) := mk_scattered {
  dest_ : K;
  blocks_ : list (list Z);
  expected_ : Z;
  full_size_ : Z;
  op_ptr_ : Z;
  op_limit_ : Z
}.
Arguments mk_scattered {K}.
Arguments dest_ {K}. Arguments blocks_ {K}. Arguments expected_ {K}. Arguments full_size_ {K}. Arguments op_ptr_ {K}. Arguments op_limit_ {K}.

Section writer.
Context {K : Type} `{Sink K}.
Implicit Type w : SnappyScatteredWriter K.

Definition new_scattered (dest : K) : SnappyScatteredWriter K := mk_scattered dest [] 0 0 0 0.

Definition Size w : Z := u64 (full_size_ w + op_ptr_ w).
Definition Produced w : Z := Size w.

(** [memcpy(op_ptr_, s, n); op_ptr_ += n]: no bytes may go to null. *)
Definition put (s : list Z) w : outcome (SnappyScatteredWriter K) :=
  match s with
  | [] => Ok w
  | _ =>
      let last := zlen (blocks_ w) - 1 in
      b ← deref (zget (blocks_ w) last); b ← mwrite (op_ptr_ w) s b;
      Ok (mk_scattered (dest_ w) (zset last b (blocks_ w)) (expected_ w) (full_size_ w) (op_ptr_ w + zlen s) (op_limit_ w))
  end.

(** [SnappySinkAllocator::Allocate]: a block whose bytes are not set yet. *)
Definition Allocate (size : Z) (blocks : list (list Z)) : list (list Z) := blocks ++ [replicate (Z.to_nat size) 0].

Fixpoint slow_append (fuel : nat) (src : list Z) (ip len : Z) w : outcome (bool * SnappyScatteredWriter K) :=
  match fuel with
  | O => Undefined
  | S fuel =>
      let avail := u64 (op_limit_ w - op_ptr_ w) in
      if avail <? len then
        s ← mread src ip avail; w ← put s w;
        _ ← check (op_limit_ w =? op_ptr_ w);
        let full_size := u64 (full_size_ w + op_ptr_ w) in
        let len := len - avail in
        let ip := ip + avail in
        if expected_ w <? u64 (full_size + len) then
          Ok (false, mk_scattered (dest_ w) (blocks_ w) (expected_ w) full_size (op_ptr_ w) (op_limit_ w))
        else
          let bsize := Z.min kBlockSize (u64 (expected_ w - full_size)) in
          slow_append fuel src ip len (mk_scattered (dest_ w) (Allocate bsize (blocks_ w)) (expected_ w) full_size 0 bsize)
      else s ← mread src ip len; w ← put s w; Ok (true, w)
  end.

Definition SlowAppend (src : list Z) (ip len : Z) w : outcome (bool * SnappyScatteredWriter K) :=
  slow_append (Z.to_nat (len / kBlockSize) + 3) src ip len w.

Definition Append (src : list Z) (ip len : Z) w : outcome (bool * SnappyScatteredWriter K) :=
  let avail := u64 (op_limit_ w - op_ptr_ w) in
  if len <=? avail then s ← mread src ip len; w ← put s w; Ok (true, w) else SlowAppend src ip len w.

(** A change of the last block. *)
Definition in_block (f : list Z -> outcome (list Z)) (n : Z) w : outcome (SnappyScatteredWriter K) :=
  let last := zlen (blocks_ w) - 1 in
  b ← deref (zget (blocks_ w) last); b ← f b;
  Ok (mk_scattered (dest_ w) (zset last b (blocks_ w)) (expected_ w) (full_size_ w) (op_ptr_ w + n) (op_limit_ w)).

Definition TryFastAppend (src : list Z) (ip available len : Z) w : outcome (bool * SnappyScatteredWriter K) :=
  let op := op_ptr_ w in
  let space_left := s32 (op_limit_ w - op) in
  if (len <=? 16) && (16 + kMaximumTagLength <=? available) && (16 <=? space_left) then
    w ← in_block (fun b => b ← UnalignedCopy64 src ip op b; UnalignedCopy64 src (ip + 8) (op + 8) b) len w; Ok (true, w)
  else Ok (false, w).

(** [while (len-- > 0)]. *)
Fixpoint slow_self (src : Z) (len : nat) w : outcome (SnappyScatteredWriter K) :=
  match len with
  | O => Ok w
  | S len =>
      b ← deref (zget (blocks_ w) (Z.shiftr src kBlockLog)); c ← mget b (Z.land src (kBlockSize - 1));
      '(_, w) ← Append [c] 0 1 w; slow_self (src + 1) len w
  end.

Definition SlowAppendFromSelf (offset len : Z) w : outcome (bool * SnappyScatteredWriter K) :=
  let cur := Size w in
  if cur <=? u64 (offset - 1) then Ok (false, w)
  else if u64 (expected_ w - cur) <? len then Ok (false, w)
  else w ← slow_self (cur - offset) (Z.to_nat len) w; Ok (true, w).

Definition AppendFromSelf (offset len : Z) w : outcome (bool * SnappyScatteredWriter K) :=
  if (u64 (offset - 1) <? op_ptr_ w) && (len + kMaxIncrementCopyOverflow <=? u64 (op_limit_ w - op_ptr_ w)) then
    w ← in_block (IncrementalCopyFastPath (op_ptr_ w - offset) (op_ptr_ w) len) len w; Ok (true, w)
  else SlowAppendFromSelf offset len w.

(** [SnappySinkAllocator::Flush]. *)
Fixpoint flush_blocks (size size_written : Z) (blocks : list (list Z)) (dest : K) : outcome K :=
  match blocks with
  | [] => Ok dest
  | b :: blocks =>
      let block_size := Z.min (zlen b) (u64 (size - size_written)) in
      s ← mread b 0 block_size; dest ← AppendAndTakeOwnership s dest;
      flush_blocks size (size_written + block_size) blocks dest
  end.

Definition flush w : outcome (SnappyScatteredWriter K) :=
  dest ← flush_blocks (Produced w) 0 (blocks_ w) (dest_ w);
  Ok (mk_scattered dest [] (expected_ w) (full_size_ w) (op_ptr_ w) (op_limit_ w)).

#[export] Instance SnappyScatteredWriter_writer : Writer (SnappyScatteredWriter K) := {
  SetExpectedLength len w :=
    _ ← check (zlen (blocks_ w) =? 0); Ok (mk_scattered (dest_ w) (blocks_ w) len (full_size_ w) (op_ptr_ w) (op_limit_ w));
  CheckLength w := Size w =? expected_ w;
  wAppend := Append;
  SnappyWriters.TryFastAppend := TryFastAppend;
  SnappyWriters.AppendFromSelf := AppendFromSelf;
  Flush := flush
}.
End writer.

(** ** States *)

Section laws.
Context {K : Type} `{SinkLaws K}.
(** What has been appended to the sink before, and its room. *)
Context (out0 : list Z) (room : Z).
Implicit Type w : SnappyScatteredWriter K.

(** [n] bytes of the last block are written. *)
Definition in_last (k : K) (e : Z) (pre : list (list Z)) (cur : list Z) (n : Z) : SnappyScatteredWriter K :=
  mk_scattered k (pre ++ [cur]) e (zlen (concat pre)) n (zlen cur).

Definition full_blocks (pre : list (list Z)) : Prop := Forall (fun b => zlen b = kBlockSize) pre.

Definition block_state (e : Z) (pre : list (list Z)) (cur : list Z) (n : Z) : Prop :=
  full_blocks pre /\ zlen cur = Z.min kBlockSize (e - zlen (concat pre)) /\ 0 <= n <= zlen cur.

Definition scattered_holds w (e : Z) (out : list Z) : Prop :=
  exists k, appended k out0 room /\ e <= room /\ zlen out <= e < 2 ^ 32 /\ bytes_ok out /\
    ((w = mk_scattered k [] e 0 0 0 /\ out = []) \/
     exists pre cur n, w = in_last k e pre cur n /\ block_state e pre cur n /\ out = produced pre cur n).

Definition scattered_flushable w (e : Z) : Prop :=
  appended (dest_ w) out0 room /\ bytes_ok (ztake (Size w) (concat (blocks_ w))) /\ zlen (ztake (Size w) (concat (blocks_ w))) <= room.

Lemma put_in_last s k e pre cur n :
  0 <= n -> n + zlen s <= zlen cur -> put s (in_last k e pre cur n) = Ok (in_last k e pre (splice n s cur) (n + zlen s)).
Proof.
  intros Hn Hle. pose proof (zlen_nonneg s) as Hs. unfold put. destruct s as [|c s'] eqn:E.
  - rewrite (@zlen_nil Z), Z.add_0_r. f_equal. f_equal. unfold splice. cbn [app]. rewrite (@zlen_nil Z), Z.add_0_r. by rewrite ztake_zdrop.
  - rewrite <- E in *. unfold in_last. cbn [dest_ blocks_ expected_ full_size_ op_ptr_ op_limit_].
    assert (Hz : zlen (pre ++ [cur]) - 1 = zlen pre) by (rewrite zlen_app; change (zlen [cur]) with 1; lia). rewrite Hz, zget_middle. cbn [deref mbind outcome_bind].
    rewrite mwrite_ok by lia. cbn [mbind outcome_bind]. rewrite zset_middle. f_equal. f_equal. by rewrite zlen_splice by lia.
Qed.

Lemma produced_splice pre cur n s :
  0 <= n -> n + zlen s <= zlen cur -> produced pre (splice n s cur) (n + zlen s) = produced pre cur n ++ s.
Proof. intros. unfold produced. by rewrite ztake_splice, app_assoc by lia. Qed.

Lemma block_state_splice e pre cur n s :
  block_state e pre cur n -> n + zlen s <= zlen cur -> block_state e pre (splice n s cur) (n + zlen s).
Proof. intros (Hf & Hc & Hn) Hle. pose proof (zlen_nonneg s). unfold block_state. rewrite zlen_splice by lia. split_and!; done || lia. Qed.

Lemma produced_full pre cur : produced pre cur (zlen cur) = concat (pre ++ [cur]).
Proof. unfold produced. by rewrite ztake_all, concat_app by lia; cbn [concat]; rewrite app_nil_r. Qed.

(** Bytes that fit into the last block. *)
Lemma put_part k e pre cur n src ip len :
  block_state e pre cur n -> 0 <= ip -> 0 <= len -> n + len <= zlen cur -> ip + len <= zlen src ->
  exists cur', (forall A (f : SnappyScatteredWriter K -> outcome A), (s ← mread src ip len; w ← put s (in_last k e pre cur n); f w) = f (in_last k e pre cur' (n + len))) /\
    block_state e pre cur' (n + len) /\ zlen cur' = zlen cur /\ produced pre cur' (n + len) = produced pre cur n ++ part ip len src.
Proof.
  intros Hst Hip Hlen Hn Hsrc. pose proof Hst as (_ & _ & Hn0). rewrite mread_ok by lia. cbn [mbind outcome_bind].
  assert (Hz : zlen (part ip len src) = len) by (apply zlen_part; lia). exists (splice n (part ip len src) cur).
  split_and!; [intros A f; by rewrite put_in_last, Hz by lia| |apply zlen_splice; lia|]; rewrite <- Hz at 2.
  - apply block_state_splice; [done|lia].
  - apply produced_splice; lia.
Qed.

(** ** [Append] *)

(** A new block, and the bytes that go into it and into those after it. *)
Lemma slow_fresh fuel : forall k e pre src ip len,
  full_blocks pre -> zlen (concat pre) + len <= e < 2 ^ 32 -> 0 < len -> 0 <= ip -> ip + len <= zlen src -> len / kBlockSize < Z.of_nat fuel ->
  let bsize := Z.min kBlockSize (e - zlen (concat pre)) in
  exists pre' cur n, slow_append fuel src ip len (mk_scattered k (Allocate bsize pre) e (zlen (concat pre)) 0 bsize) = Ok (true, in_last k e pre' cur n) /\
    block_state e pre' cur n /\ produced pre' cur n = concat pre ++ part ip len src.
Proof.
  induction fuel as [|fuel IH]; intros k e pre src ip len Hf He Hlen Hip Hsrc Hfuel bsize; [pose proof (Z.div_pos len kBlockSize ltac:(lia) ltac:(done)); lia|].
  assert (Hk : kBlockSize = 65536) by done. pose proof (zlen_nonneg (concat pre)). set (cur := replicate (Z.to_nat bsize) 0).
  assert (Hb : 0 < bsize <= kBlockSize) by (subst bsize; lia). assert (Hc : zlen cur = bsize) by (unfold cur, zlen; rewrite length_replicate; lia).
  change (mk_scattered k (Allocate bsize pre) e (zlen (concat pre)) 0 bsize) with (mk_scattered k (pre ++ [cur]) e (zlen (concat pre)) 0 bsize). rewrite <- Hc. fold (in_last k e pre cur 0).
  assert (Hst : block_state e pre cur 0) by (split_and!; done || lia). cbn [slow_append]. change (op_limit_ (in_last k e pre cur 0)) with (zlen cur). change (op_ptr_ (in_last k e pre cur 0)) with 0.
  rewrite u64_small by lia. rewrite Z.sub_0_r. case_if; zbool.
  - destruct (put_part k e pre cur 0 src ip (zlen cur) Hst) as (cur' & Eput & Hst' & Hc' & Hp); [lia..|]. rewrite Eput. cbn [in_last dest_ blocks_ expected_ full_size_ op_ptr_ op_limit_].
    rewrite Z.add_0_l in *. unfold check. rewrite Hc', Z.eqb_refl. cbn [mbind outcome_bind]. rewrite (u64_small (zlen (concat pre) + zlen cur)) by lia.
    assert (Hcc : concat (pre ++ [cur']) = concat pre ++ part ip (zlen cur) src).
    { rewrite <- produced_full, Hc', Hp. unfold produced. by rewrite app_nil_r. }
    assert (Hzc : zlen (concat (pre ++ [cur'])) = zlen (concat pre) + zlen cur) by (rewrite Hcc, zlen_app, zlen_part; lia).
    rewrite u64_small, (proj2 (Z.ltb_ge _ _)) by lia. rewrite (u64_small (e - _)) by lia. rewrite <- Hzc.
    destruct (IH k e (pre ++ [cur']) src (ip + zlen cur) (len - zlen cur)) as (pre2 & cur2 & n2 & E2 & Hst2 & Hp2); [|lia..| |].
    { apply Forall_app. split; [done|]. apply Forall_singleton. lia. }
    { rewrite Hk in *. assert (zlen cur = 65536) as -> by lia. dlia. }
    exists pre2, cur2, n2. split_and!; [done..|]. rewrite Hp2, Hcc, <- app_assoc, <- part_add by lia. f_equal. f_equal. lia.
  - destruct (put_part k e pre cur 0 src ip len Hst) as (cur' & Eput & Hst' & Hc' & Hp); [lia..|]. rewrite Eput. exists pre, cur', (0 + len). split_and!; [done..|].
    rewrite Hp. unfold produced. by rewrite app_nil_r.
Qed.

Lemma holds_size w e out : scattered_holds w e out -> Size w = zlen out /\ expected_ w = e /\ ztake (Size w) (concat (blocks_ w)) = out.
Proof.
  intros (k & _ & _ & He & _ & [(-> & ->)|(pre & cur & n & -> & (_ & _ & Hn) & Hout)]); [done|]. pose proof (zlen_produced pre cur n Hn) as Hz. pose proof (zlen_nonneg (concat pre)).
  assert (Hs : Size (in_last k e pre cur n) = zlen out) by (unfold Size; cbn; rewrite Hout in *; rewrite u64_small; lia). split_and!; [done..|].
  rewrite Hs, Hout, Hz. cbn [in_last blocks_]. rewrite concat_app. cbn [concat]. rewrite app_nil_r. unfold produced.
  rewrite ztake_app_ge by lia. do 2 f_equal. lia.
Qed.

Lemma scattered_holds_flushable w e out : scattered_holds w e out -> scattered_flushable w e.
Proof.
  intros Hw. destruct (holds_size w e out Hw) as (_ & _ & Ht). destruct Hw as (k & Hk & Hr & He & Hb & Hst). unfold scattered_flushable. rewrite Ht.
  split_and!; [|done|lia]. by destruct Hst as [(-> & _)|(pre & cur & n & -> & _)].
Qed.

(** Bytes after those of the blocks, when they do not fit into the last one:
    there are blocks for them, or they are too many. *)
Lemma slow_append_full k e pre src ip len fuel :
  appended k out0 room -> e <= room -> full_blocks pre \/ e = zlen (concat pre) -> zlen (concat pre) <= e < 2 ^ 32 -> bytes_ok (concat pre) -> bytes_ok src ->
  0 < len < 2 ^ 33 -> 0 <= ip -> ip + len <= zlen src -> len / kBlockSize < Z.of_nat fuel ->
  forall p l, 0 <= p ->
  exists w', (if e <? u64 (zlen (concat pre) + len) then Ok (false, mk_scattered k pre e (zlen (concat pre)) p l)
    else slow_append fuel src ip len (mk_scattered k (Allocate (Z.min kBlockSize (u64 (e - zlen (concat pre)))) pre) e (zlen (concat pre)) 0 (Z.min kBlockSize (u64 (e - zlen (concat pre)))))) = Ok (zlen (concat pre) + len <=? e, w') /\
    (p < 2 ^ 32 -> scattered_flushable w' e) /\ (zlen (concat pre) + len <= e -> scattered_holds w' e (concat pre ++ part ip len src)).
Proof.
  intros Hk Hr Hpre He Hb Hbs Hlen Hip Hsrc Hfuel p l Hp. pose proof (zlen_nonneg (concat pre)). rewrite !u64_small by lia. case_if; zbool.
  - rewrite (proj2 (Z.leb_gt _ _)) by lia. eexists. split_and!; [done| |lia]. intros Hp2. unfold scattered_flushable, Size. cbn [dest_ blocks_ full_size_ op_ptr_].
    rewrite u64_small by lia. rewrite ztake_all by lia. split_and!; [done..|lia].
  - rewrite (proj2 (Z.leb_le _ _)) by lia. destruct Hpre as [Hpre|]; [|lia].
    destruct (slow_fresh fuel k e pre src ip len) as (pre' & cur & n & -> & Hst & Hp'); [done|lia..|].
    assert (Hw : scattered_holds (in_last k e pre' cur n) e (concat pre ++ part ip len src)).
    { exists k. split_and!; try done; [rewrite zlen_app, zlen_part; lia|lia|apply Forall_app; split; [done|by apply bytes_ok_part]|]. right. by exists pre', cur, n. }
    eexists. split_and!; [done|intros _; by eapply scattered_holds_flushable|done].
Qed.

Lemma scattered_holds_append w e out src ip len :
  scattered_holds w e out -> bytes_ok src -> 0 <= ip -> 0 <= len < 2 ^ 33 -> ip + len <= zlen src ->
  exists w', Append src ip len w = Ok (zlen out + len <=? e, w') /\ scattered_flushable w' e /\ (zlen out + len <= e -> scattered_holds w' e (out ++ part ip len src)).
Proof.
  intros Hw Hbs Hip Hlen Hsrc. pose proof Hw as (k & Hk & Hr & He & Hb & [(-> & ->)|(pre & cur & n & -> & Hst & Hout)]); unfold Append.
  - cbn [op_limit_ op_ptr_]. rewrite (@zlen_nil Z) in *. change (u64 (0 - 0)) with 0. case_if; zbool.
    + assert (len = 0) as -> by lia. rewrite mread_ok, part_nil by lia. rewrite (proj2 (Z.leb_le _ _)) by lia. eexists. split_and!; [done|by eapply scattered_holds_flushable|done].
    + unfold SlowAppend. rewrite Nat.add_comm. change (3 + Z.to_nat (len / kBlockSize))%nat with (S (2 + Z.to_nat (len / kBlockSize))). cbn [slow_append op_limit_ op_ptr_]. change (u64 (0 - 0)) with 0. rewrite (proj2 (Z.ltb_lt 0 len)) by lia.
      rewrite mread_ok, part_nil by lia. cbn [mbind outcome_bind put check op_limit_ op_ptr_ Z.eqb full_size_ expected_ dest_ blocks_]. rewrite Z.sub_0_r, !Z.add_0_r. change (u64 0) with (zlen (@concat Z [])).
      destruct (slow_append_full k e [] src ip len (2 + Z.to_nat (len / kBlockSize))%nat) with (p := 0) (l := 0) as (w' & -> & Hfl & Hw'); try done; try lia.
      * left. constructor.
      * exists w'. split_and!; [done|by apply Hfl|done].
  - pose proof Hst as (Hf & Hc & Hn). pose proof (zlen_produced pre cur n Hn) as Hz. pose proof (zlen_nonneg (concat pre)). assert (Hk64 : kBlockSize = 65536) by done.
    cbn [in_last op_limit_ op_ptr_]. fold (in_last k e pre cur n). rewrite u64_small by lia. case_if; zbool.
    + destruct (put_part k e pre cur n src ip len Hst) as (cur' & Eput & Hst' & Hc' & Hp); [lia..|]. rewrite Eput. rewrite (proj2 (Z.leb_le _ _)) by (rewrite Hout; lia).
      assert (Hw' : scattered_holds (in_last k e pre cur' (n + len)) e (out ++ part ip len src)).
      { exists k. split_and!; try done; [rewrite zlen_app, zlen_part by lia; rewrite Hout; lia|lia|apply Forall_app; split; [done|by apply bytes_ok_part]|].
        right. exists pre, cur', (n + len). rewrite Hp, Hout. done. }
      eexists. split_and!; [done|by eapply scattered_holds_flushable|done].
    + unfold SlowAppend. rewrite Nat.add_comm. change (3 + Z.to_nat (len / kBlockSize))%nat with (S (2 + Z.to_nat (len / kBlockSize))). cbn [slow_append]. cbn [in_last op_limit_ op_ptr_]. fold (in_last k e pre cur n). rewrite u64_small by lia. rewrite (proj2 (Z.ltb_lt _ _)) by lia.
      destruct (put_part k e pre cur n src ip (zlen cur - n) Hst) as (cur' & Eput & Hst' & Hc' & Hp); [lia..|]. rewrite Eput. replace (n + (zlen cur - n)) with (zlen cur') in * by lia.
      cbn [in_last dest_ blocks_ expected_ full_size_ op_ptr_ op_limit_]. unfold check. rewrite Z.eqb_refl. cbn [mbind outcome_bind].
      assert (Hcc : concat (pre ++ [cur']) = out ++ part ip (zlen cur - n) src) by (rewrite <- produced_full, Hp; by rewrite Hout).
      assert (Hzc : zlen (concat (pre ++ [cur'])) = zlen (concat pre) + zlen cur') by (rewrite concat_app, zlen_app; cbn [concat]; by rewrite app_nil_r).
      rewrite (u64_small (zlen (concat pre) + zlen cur')) by lia. rewrite <- Hzc.
      destruct (slow_append_full k e (pre ++ [cur']) src (ip + (zlen cur - n)) (len - (zlen cur - n)) (2 + Z.to_nat (len / kBlockSize))%nat) with (p := zlen cur') (l := zlen cur') as (w' & -> & Hfl & Hw'); try done; try lia.
      * destruct (Z.lt_ge_cases (e - zlen (concat pre)) kBlockSize); [right; lia|left]. apply Forall_app. split; [done|]. apply Forall_singleton. lia.
      * rewrite Hcc. apply Forall_app. split; [done|]. by apply bytes_ok_part.
      * pose proof (Z.div_le_mono (len - (zlen cur - n)) len kBlockSize ltac:(lia) ltac:(lia)). lia.
      * assert (Hzo : zlen out = zlen (concat pre) + n) by (by rewrite Hout). rewrite Hzc in *. exists w'. split_and!; [do 3 f_equal; lia|apply Hfl; lia|].
        intros Hfit. specialize (Hw' ltac:(lia)). rewrite Hcc, <- app_assoc, <- part_add in Hw' by lia. by replace (zlen cur - n + (len - (zlen cur - n))) with len in Hw' by lia.
Qed.

(** ** Changes of the last block *)

Lemma in_block_holds k e pre cur n f len cur' t out :
  scattered_holds (in_last k e pre cur n) e out -> block_state e pre cur n -> f cur = Ok cur' -> zlen cur' = zlen cur -> 0 <= len -> n + len <= zlen cur ->
  produced pre cur' (n + len) = t -> bytes_ok t ->
  in_block f len (in_last k e pre cur n) = Ok (in_last k e pre cur' (n + len)) /\ scattered_holds (in_last k e pre cur' (n + len)) e t.
Proof.
  intros (k' & Hk & Hr & He & _ & Hcases) Hst Ef Hc Hlen Hle Ht Hb. split.
  - unfold in_block. assert (Hz : zlen (blocks_ (in_last k e pre cur n)) - 1 = zlen pre) by (cbn; rewrite zlen_app; change (zlen [cur]) with 1; lia). rewrite Hz.
    cbn [in_last dest_ blocks_ expected_ full_size_ op_ptr_ op_limit_]. rewrite zget_middle. cbn [deref mbind outcome_bind]. rewrite Ef. cbn [mbind outcome_bind].
    rewrite zset_middle. unfold in_last. by rewrite Hc.
  - assert (k' = k) as -> by (destruct Hcases as [([= -> Hnil] & _)|(? & ? & ? & [= -> _ _ _] & _)]; done). destruct Hst as (Hf & Hz & Hn).
    pose proof (zlen_produced pre cur' (n + len) ltac:(lia)) as Hzp. rewrite Ht in Hzp.
    exists k. split_and!; try done; try lia. right. exists pre, cur', (n + len). split_and!; [done| |done]. split_and!; done || lia.
Qed.

Lemma scattered_holds_fast w e out src ip available len :
  scattered_holds w e out -> bytes_ok src -> 0 <= ip -> 0 <= len < 2 ^ 33 -> 0 <= available -> ip + available <= zlen src ->
  exists b w', TryFastAppend src ip available len w = Ok (b, w') /\
    if b then len <= 16 /\ 16 + kMaximumTagLength <= available /\ zlen out + len <= e /\ scattered_holds w' e (out ++ part ip len src) else scattered_holds w' e out.
Proof.
  intros Hw Hbs Hip Hlen Hav Hsrc. unfold TryFastAppend, kMaximumTagLength. case_if; [|by exists false, w]. zbool.
  pose proof Hw as (k & Hk & Hr & He & Hb & [(-> & ->)|(pre & cur & n & -> & Hst & Hout)]); [done|].
  pose proof Hst as (Hf & Hc & Hn). pose proof (zlen_produced pre cur n Hn) as Hz. pose proof (zlen_nonneg (concat pre)). assert (Hk64 : kBlockSize = 65536) by done.
  change (op_ptr_ (in_last k e pre cur n)) with n in *. change (op_limit_ (in_last k e pre cur n)) with (zlen cur) in *.
  match goal with Hs : 16 <= s32 _ |- _ => rewrite s32_small in Hs by lia end.
  destruct (fast_copies src ip n len cur) as (m1 & m2 & E1 & E2 & Hm2 & Ht2); [lia..|].
  destruct (in_block_holds k e pre cur n (fun b => b ← UnalignedCopy64 src ip n b; UnalignedCopy64 src (ip + 8) (n + 8) b) len m2 (out ++ part ip len src) out) as [-> Hw']; try done; try lia.
  - rewrite E1. exact E2.
  - unfold produced. rewrite Ht2, Hout. by rewrite app_assoc.
  - apply Forall_app. split; [done|]. by apply bytes_ok_part.
  - eexists true, _. split; [done|]. split_and!; try lia; [|done]. rewrite Hout. lia.
Qed.

(** ** Copies of what is there *)

Lemma full_blocks_get pre p : full_blocks pre -> 0 <= p < zlen (concat pre) ->
  exists b, zget pre (p / kBlockSize) = Some b /\ zget b (p `mod` kBlockSize) = zget (concat pre) p.
Proof.
  intros Hf. revert p. assert (Hk : kBlockSize = 65536) by done. induction Hf as [|b pre Hb _ IH]; intros p Hp; cbn [concat] in *; [rewrite (@zlen_nil Z) in Hp; lia|].
  rewrite zlen_app in Hp. destruct (Z.lt_ge_cases p kBlockSize) as [Hlt|Hge].
  - exists b. rewrite Z.div_small, Z.mod_small by lia. split; [done|]. rewrite zget_app_l by lia. done.
  - destruct (IH (p - kBlockSize) ltac:(lia)) as (b' & Hb' & Hg). exists b'.
    assert (Ed : p / kBlockSize = 1 + (p - kBlockSize) / kBlockSize) by (rewrite Hk in *; dlia). assert (Em : p `mod` kBlockSize = (p - kBlockSize) `mod` kBlockSize) by (rewrite Hk in *; dlia).
    pose proof (Z.div_pos (p - kBlockSize) kBlockSize ltac:(lia) ltac:(lia)). rewrite Ed, Em, Hg. split.
    + change (b :: pre) with ([b] ++ pre). rewrite zget_app_r by (change (zlen [b]) with 1; lia). change (zlen [b]) with 1. replace (1 + (p - kBlockSize) / kBlockSize - 1) with ((p - kBlockSize) / kBlockSize) by lia. done.
    + rewrite zget_app_r by lia. by rewrite Hb.
Qed.

Lemma zlen_full_blocks pre : full_blocks pre -> zlen (concat pre) = kBlockSize * zlen pre.
Proof. induction 1 as [|b pre Hb _ IH]; [done|]. cbn [concat]. rewrite zlen_app, zlen_cons, IH. lia. Qed.

(** A byte of the output, in its block. *)
Lemma holds_byte w e out p : scattered_holds w e out -> 0 <= p < zlen out ->
  exists b, zget (blocks_ w) (Z.shiftr p kBlockLog) = Some b /\ zget b (Z.land p (kBlockSize - 1)) = zget out p.
Proof.
  intros (k & _ & _ & He & _ & [(-> & ->)|(pre & cur & n & -> & (Hf & Hc & Hn) & ->)]) Hp; [rewrite (@zlen_nil Z) in Hp; lia|].
  rewrite zlen_produced in Hp by done. assert (Hk : kBlockSize = 65536) by done. change (kBlockSize - 1) with (Z.ones 16). rewrite Z.land_ones by lia. change (2 ^ 16) with kBlockSize.
  rewrite Z.shiftr_div_pow2 by done. change (2 ^ kBlockLog) with kBlockSize. cbn [in_last blocks_]. pose proof (zlen_full_blocks pre Hf) as Hz. unfold produced.
  destruct (Z.lt_ge_cases p (zlen (concat pre))) as [Hlt|Hge].
  - destruct (full_blocks_get pre p Hf ltac:(lia)) as (b & Hb & Hg). exists b. rewrite zget_app_l by (apply (zget_Some_lt _ _ _ Hb)). split; [done|]. by rewrite Hg, zget_app_l by lia.
  - exists cur. assert (p / kBlockSize = zlen pre) as -> by (rewrite Hk in *; dlia). split; [apply zget_middle|].
    rewrite zget_app_r, zget_ztake by lia. f_equal. rewrite Hk in *. dlia.
Qed.

Lemma slow_self_spec offset len : forall w e out,
  scattered_holds w e out -> 1 <= offset <= zlen out -> zlen out + Z.of_nat len <= e ->
  exists w', slow_self (zlen out - offset) len w = Ok w' /\ scattered_holds w' e (self_copy offset len out).
Proof.
  induction len as [|len IH]; intros w e out Hw Hoff Hle; [by exists w|]. cbn [slow_self self_copy].
  destruct (zget_lt out (zlen out - offset) ltac:(lia)) as [c Hc]. destruct (holds_byte w e out (zlen out - offset) Hw ltac:(lia)) as (b & -> & Hb). cbn [deref mbind outcome_bind].
  rewrite (mget_ok b _ c) by (by rewrite Hb). cbn [mbind outcome_bind]. rewrite Hc. change (default 0 (Some c)) with c.
  assert (Hbc : byte_ok c) by (destruct Hw as (? & _ & _ & _ & Hbo & _); by eapply bytes_ok_get).
  destruct (scattered_holds_append w e out [c] 0 1 Hw) as (w1 & -> & _ & Hw1); [by constructor|done..|]. cbn [mbind outcome_bind]. specialize (Hw1 ltac:(lia)). change (part 0 1 [c]) with [c] in Hw1.
  assert (Hz : zlen (out ++ [c]) = zlen out + 1) by (by rewrite zlen_app). destruct (IH w1 e (out ++ [c]) Hw1) as (w2 & E2 & Hw2); [lia..|].
  exists w2. split; [|done]. rewrite <- E2. f_equal. lia.
Qed.

Lemma scattered_slow_self w e out offset len :
  scattered_holds w e out -> 0 <= offset < 2 ^ 32 -> 1 <= len <= 64 ->
  exists w', SlowAppendFromSelf offset len w = Ok ((1 <=? offset) && (offset <=? zlen out) && (zlen out + len <=? e), w') /\ scattered_flushable w' e /\
    (1 <= offset <= zlen out -> zlen out + len <= e -> scattered_holds w' e (self_copy offset (Z.to_nat len) out)).
Proof.
  intros Hw Hoff Hlen. destruct (holds_size w e out Hw) as (Hs & Hexp & _). assert (He : zlen out <= e < 2 ^ 32) by (by destruct Hw as (? & _ & _ & He & _)). pose proof (zlen_nonneg out).
  unfold SlowAppendFromSelf. rewrite Hs, Hexp, (u64_small (e - zlen out)) by lia. destruct (decide (1 <= offset <= zlen out)) as [Hok|Hbad].
  - rewrite u64_small, (proj2 (Z.leb_gt _ _)) by lia. rewrite (proj2 (Z.leb_le 1 offset)), (proj2 (Z.leb_le offset _)) by lia. cbn [andb]. case_if; zbool.
    + rewrite (proj2 (Z.leb_gt _ _)) by lia. exists w. split_and!; [done|by eapply scattered_holds_flushable|lia].
    + rewrite (proj2 (Z.leb_le _ _)) by lia. destruct (slow_self_spec offset (Z.to_nat len) w e out) as (w' & -> & Hw'); [done|lia..|].
      eexists. split_and!; [done|by eapply scattered_holds_flushable|done].
  - rewrite (proj2 (Z.leb_le _ _)); [|destruct (decide (offset = 0)) as [->|]; [change (u64 (0 - 1)) with (2 ^ 64 - 1)|rewrite u64_small]; lia].
    exists w. split_and!; [|by eapply scattered_holds_flushable|lia]. do 2 f_equal. symmetry. destruct (1 <=? offset) eqn:E1, (offset <=? zlen out) eqn:E2; zbool; (done || lia).
Qed.

Lemma scattered_holds_self w e out offset len :
  scattered_holds w e out -> 0 <= offset < 2 ^ 32 -> 1 <= len <= 64 ->
  exists w', AppendFromSelf offset len w = Ok ((1 <=? offset) && (offset <=? zlen out) && (zlen out + len <=? e), w') /\ scattered_flushable w' e /\
    (1 <= offset <= zlen out -> zlen out + len <= e -> scattered_holds w' e (self_copy offset (Z.to_nat len) out)).
Proof.
  intros Hw Hoff Hlen. unfold AppendFromSelf, kMaxIncrementCopyOverflow. destruct (_ && _) eqn:E; [|by apply scattered_slow_self]. zbool.
  pose proof Hw as (k & Hk & Hr & He & Hb & [(-> & ->)|(pre & cur & n & -> & Hst & Hout)]); [pose proof (u64_range (offset - 1)); cbn [op_ptr_] in *; lia|].
  pose proof Hst as (Hf & Hc & Hn). pose proof (zlen_produced pre cur n Hn) as Hz. pose proof (zlen_nonneg (concat pre)).
  change (op_ptr_ (in_last k e pre cur n)) with n in *. change (op_limit_ (in_last k e pre cur n)) with (zlen cur) in *.
  assert (Hk64 : kBlockSize = 65536) by done. rewrite (u64_small (zlen cur - n)) in * by lia.
  assert (Ho1 : 1 <= offset) by (destruct (decide (offset = 0)) as [->|]; [change (u64 (0 - 1)) with (2 ^ 64 - 1) in *|]; lia). rewrite (u64_small (offset - 1)) in * by lia.
  destruct (IncrementalCopyFastPath_spec (n - offset) n len cur) as (cur' & Ecp & Hcp); [lia..|unfold kMaxIncrementCopyOverflow; lia|]. replace (n - (n - offset)) with offset in Hcp by lia.
  pose proof (copied_self_copy offset n len cur cur' Hcp ltac:(lia) ltac:(lia)) as Hsc.
  destruct (in_block_holds k e pre cur n (IncrementalCopyFastPath (n - offset) n len) len cur' (self_copy offset (Z.to_nat len) out) out) as [-> Hw']; try done; try lia.
  - apply Hcp.
  - unfold produced. rewrite Hsc, Hout. unfold produced. symmetry. apply self_copy_app. rewrite zlen_ztake; lia.
  - by apply self_copy_bytes.
  - eexists. rewrite (proj2 (Z.leb_le 1 offset)), (proj2 (Z.leb_le offset (zlen out))), (proj2 (Z.leb_le (zlen out + len) e)) by (rewrite ?Hout; lia).
    split_and!; [done|by eapply scattered_holds_flushable|done].
Qed.

(** ** [Flush] *)

Lemma flush_blocks_spec blocks : forall size written k out r,
  0 <= written <= size -> size < 2 ^ 64 -> appended k out r ->
  bytes_ok (ztake (size - written) (concat blocks)) -> zlen (ztake (size - written) (concat blocks)) <= r ->
  exists k', flush_blocks size written blocks k = Ok k' /\
    appended k' (out ++ ztake (size - written) (concat blocks)) (r - zlen (ztake (size - written) (concat blocks))).
Proof.
  induction blocks as [|b blocks IH]; intros size written k out r Hw Hs Hk Hb Hr; cbn [flush_blocks concat].
  - exists k. split; [done|]. cbn [concat]. replace (ztake (size - written) []) with (@nil Z) by (unfold ztake; by rewrite take_nil).
    by rewrite app_nil_r, (@zlen_nil Z), Z.sub_0_r.
  - cbn [concat] in Hb, Hr. pose proof (zlen_nonneg b). rewrite u64_small by lia. set (n := Z.min (zlen b) (size - written)).
    assert (Et : ztake (size - written) (b ++ concat blocks) = ztake n b ++ ztake (size - (written + n)) (concat blocks)).
    { destruct (Z.le_gt_cases (zlen b) (size - written)).
      - rewrite ztake_app_ge by lia. replace n with (zlen b) by lia. rewrite (ztake_all (zlen b) b) by lia. do 2 f_equal. lia.
      - rewrite ztake_app_le by lia. replace n with (size - written) by lia. replace (size - (written + (size - written))) with 0 by lia. by rewrite app_nil_r. }
    rewrite Et in *. assert (Hzn : zlen (ztake n b) = n) by (apply zlen_ztake; lia). rewrite zlen_app in *. apply Forall_app in Hb as [Hb1 Hb2].
    pose proof (zlen_nonneg (ztake (size - (written + n)) (concat blocks))).
    rewrite mread_ok by lia. cbn [mbind outcome_bind]. change (part 0 n b) with (ztake n b). unfold AppendAndTakeOwnership.
    destruct (append_law k out r (ztake n b) Hk Hb1) as (k1 & -> & Hk1); [lia|]. cbn [mbind outcome_bind].
    destruct (IH size (written + n) k1 (out ++ ztake n b) (r - zlen (ztake n b))) as (k2 & -> & Hk2); [lia..|done|done|lia|].
    exists k2. split; [done|]. rewrite app_assoc. replace (r - (zlen (ztake n b) + zlen (ztake (size - (written + n)) (concat blocks)))) with (r - zlen (ztake n b) - zlen (ztake (size - (written + n)) (concat blocks))) by lia. done.
Qed.

Lemma scattered_flush w e : scattered_flushable w e ->
  exists w', flush w = Ok w' /\ Size w' = Size w /\ expected_ w' = expected_ w /\
    appended (dest_ w') (out0 ++ ztake (Size w) (concat (blocks_ w))) (room - zlen (ztake (Size w) (concat (blocks_ w)))).
Proof.
  intros (Hk & Hb & Hr). unfold flush. pose proof (u64_range (full_size_ w + op_ptr_ w)) as Hu. fold (Size w) in Hu.
  destruct (flush_blocks_spec (blocks_ w) (Produced w) 0 (dest_ w) out0 room) as (k & -> & Hk'); unfold Produced; rewrite ?Z.sub_0_r; [lia..|done|done|done|].
  rewrite Z.sub_0_r in Hk'. by eexists.
Qed.

Lemma scattered_flush_total w e : scattered_flushable w e -> exists w', Flush w = Ok w'.
Proof. intros Hf. destruct (scattered_flush w e Hf) as (w' & E & _). by exists w'. Qed.

Lemma scattered_holds_length w e out : scattered_holds w e out -> zlen out <= e < 2 ^ 32.
Proof. by intros (? & _ & _ & He & _). Qed.

Lemma scattered_holds_check w e out : scattered_holds w e out -> CheckLength w = (zlen out =? e).
Proof. intros Hw. destruct (holds_size w e out Hw) as (Hs & He & _). cbn. by rewrite Hs, He. Qed.

(** The sink has the output. *)
Lemma scattered_holds_sink w e out w' :
  scattered_holds w e out -> Flush w = Ok w' -> CheckLength w' = (zlen out =? e) /\ appended (dest_ w') (out0 ++ out) (room - zlen out).
Proof.
  intros Hw E. destruct (holds_size w e out Hw) as (Hs & He & Ht). destruct (scattered_flush w e (scattered_holds_flushable w e out Hw)) as (w1 & E1 & Hs1 & He1 & Hk).
  cbn [Flush SnappyScatteredWriter_writer] in E. rewrite E1 in E. injection E as <-. rewrite Ht in Hk. split; [|done]. cbn. by rewrite Hs1, He1, Hs, He.
Qed.

Definition SnappyScatteredWriter_laws : WriterLaws (SnappyScatteredWriter K) := {|
  holds := scattered_holds;
  flushable := scattered_flushable;
  holds_length := scattered_holds_length;
  holds_flushable := scattered_holds_flushable;
  holds_check := scattered_holds_check;
  holds_append := scattered_holds_append;
  holds_fast := scattered_holds_fast;
  holds_self := scattered_holds_self;
  flush_total := scattered_flush_total;
  holds_flush w e out w' H E := proj1 (scattered_holds_sink w e out w' H E)
|}.

Lemma new_scattered_holds k e : appended k out0 room -> 0 <= e < 2 ^ 32 -> e <= room ->
  exists w, SetExpectedLength e (new_scattered k) = Ok w /\ scattered_holds w e [].
Proof. intros Hk He Hr. eexists. split; [done|]. exists k. rewrite (@zlen_nil Z). split_and!; try done; try lia; [constructor|]. by left. Qed.
End laws.
