(* ===== verification/SnappyDecompress.v ===== *)
(** * [flare/io/snappy]: the decompressor

    [SnappyDecompressor] over any source and any writer: the tags of a stream,
    fetched across the pieces that the source shows. *)

From S2P Require Import Prelude Bits Buffers SnappyStubs SnappyFragment SnappyIO SnappyWriters.
Local Open Scope Z_scope.

Definition wordmask : list Z := [0; 255; 65535; 16777215; 4294967295].

Definition char_table : list Z :=
  [1; 2052; 4097; 8193; 2; 2053; 4098; 8194; 3; 2054; 4099; 8195; 4; 2055; 4100; 8196;
   5; 2056; 4101; 8197; 6; 2057; 4102; 8198; 7; 2058; 4103; 8199; 8; 2059; 4104; 8200;
   9; 2308; 4105; 8201; 10; 2309; 4106; 8202; 11; 2310; 4107; 8203; 12; 2311; 4108; 8204;
   13; 2312; 4109; 8205; 14; 2313; 4110; 8206; 15; 2314; 4111; 8207; 16; 2315; 4112; 8208;
   17; 2564; 4113; 8209; 18; 2565; 4114; 8210; 19; 2566; 4115; 8211; 20; 2567; 4116; 8212;
   21; 2568; 4117; 8213; 22; 2569; 4118; 8214; 23; 2570; 4119; 8215; 24; 2571; 4120; 8216;
   25; 2820; 4121; 8217; 26; 2821; 4122; 8218; 27; 2822; 4123; 8219; 28; 2823; 4124; 8220;
   29; 2824; 4125; 8221; 30; 2825; 4126; 8222; 31; 2826; 4127; 8223; 32; 2827; 4128; 8224;
   33; 3076; 4129; 8225; 34; 3077; 4130; 8226; 35; 3078; 4131; 8227; 36; 3079; 4132; 8228;
   37; 3080; 4133; 8229; 38; 3081; 4134; 8230; 39; 3082; 4135; 8231; 40; 3083; 4136; 8232;
   41; 3332; 4137; 8233; 42; 3333; 4138; 8234; 43; 3334; 4139; 8235; 44; 3335; 4140; 8236;
   45; 3336; 4141; 8237; 46; 3337; 4142; 8238; 47; 3338; 4143; 8239; 48; 3339; 4144; 8240;
   49; 3588; 4145; 8241; 50; 3589; 4146; 8242; 51; 3590; 4147; 8243; 52; 3591; 4148; 8244;
   53; 3592; 4149; 8245; 54; 3593; 4150; 8246; 55; 3594; 4151; 8247; 56; 3595; 4152; 8248;
   57; 3844; 4153; 8249; 58; 3845; 4154; 8250; 59; 3846; 4155; 8251; 60; 3847; 4156; 8252;
   2049; 3848; 4157; 8253; 4097; 3849; 4158; 8254; 6145; 3850; 4159; 8255; 8193; 3851; 4160; 8256].

(** The state: the source, whether [ip_] points into [scratch_] or into the piece
    that was peeked, and the offsets of [ip_] and [ip_limit_] there. *)
Record SnappyDecompressor (S : Type) := mk_decompressor {
  reader_ : S;
  piece : list Z;
  scratch_ : list Z;
  in_scratch : bool;
  ip_ : Z;
  ip_limit_ : Z;
  peeked_ : Z;
  eof_ : bool
}.
Arguments mk_decompressor {S}.
Arguments reader_ {S}.
Arguments piece {S}.
Arguments scratch_ {S}.
Arguments in_scratch {S}.
Arguments ip_ {S}.
Arguments ip_limit_ {S}.
Arguments peeked_ {S}.
Arguments eof_ {S}.

Section decompressor.
Context {S W : Type} `{Source S} `{Writer W}.
Implicit Type d : SnappyDecompressor S.

(** The memory that [ip_] points into. *)
Definition region d : list Z := if in_scratch d then scratch_ d else piece d.

Definition set_ip (ip : Z) d : SnappyDecompressor S :=
  mk_decompressor (reader_ d) (piece d) (scratch_ d) (in_scratch d) ip (ip_limit_ d) (peeked_ d) (eof_ d).

(** [scratch_] is not initialized. *)
Definition new_decompressor (reader : S) (scratch : list Z) : SnappyDecompressor S :=
  mk_decompressor reader [] scratch false 0 0 0 false.

(** [ReadUncompressedLength]: the loop, with the source. *)
Fixpoint read_length (fuel : nat) (result shift : Z) (reader : S) : outcome (option Z * S) :=
  match fuel with
  | O => Undefined
  | Datatypes.S fuel =>
      if 32 <=? shift then Ok (None, reader)
      else
        '(p, reader) ← Peek reader;
        match p with
        | [] => Ok (None, reader)
        | c :: _ =>
            reader ← Skip 1 reader;
            let result := Z.lor result (u32 (Z.shiftl (Z.land c 127) shift)) in
            if c <? 128 then Ok (Some result, reader) else read_length fuel result (shift + 7) reader
        end
  end.

Definition ReadUncompressedLength (reader : S) : outcome (option Z * S) := read_length 6 0 0 reader.

(** [reader_->Skip(peeked_)] and [Peek]: the next piece. *)
Definition next_piece d : outcome (SnappyDecompressor S) :=
  reader ← Skip (peeked_ d) (reader_ d);
  '(p, reader) ← Peek reader;
  Ok (mk_decompressor reader p (scratch_ d) false 0 (zlen p) (u32 (zlen p)) (eof_ d)).

(** [while (nbuf < needed)]: the bytes of a tag are put together in [scratch_]. *)
Fixpoint stitch (fuel : nat) (nbuf needed : Z) (scratch : list Z) (reader : S) : outcome (bool * list Z * S) :=
  match fuel with
  | O => Undefined
  | Datatypes.S fuel =>
      if nbuf <? needed then
        '(src, reader) ← Peek reader;
        if zlen src =? 0 then Ok (false, scratch, reader)
        else
          let to_add := Z.min (needed - nbuf) (u32 (zlen src)) in
          s ← mread src 0 to_add; scratch ← mwrite nbuf s scratch;
          reader ← Skip to_add reader;
          stitch fuel (nbuf + to_add) needed scratch reader
      else (_ ← check (nbuf =? needed); Ok (true, scratch, reader))
  end.

(** The second part of [RefillTag], with a piece that is not used up. *)
Definition refill_tag d : outcome (bool * SnappyDecompressor S) :=
  let ip := ip_ d in
  _ ← check (ip <? ip_limit_ d);
  c ← mget (region d) ip;
  entry ← mget char_table c;
  let needed := Z.shiftr entry 11 + 1 in
  _ ← check (needed <=? zlen (scratch_ d));
  let nbuf := u32 (ip_limit_ d - ip) in
  if nbuf <? needed then
    s ← mread (region d) ip nbuf; scratch ← mwrite 0 s (scratch_ d);
    reader ← Skip (peeked_ d) (reader_ d);
    '(ok, scratch, reader) ← stitch 6 nbuf needed scratch reader;
    if negb ok then Ok (false, mk_decompressor reader (piece d) scratch (in_scratch d) ip (ip_limit_ d) 0 (eof_ d))
    else Ok (true, mk_decompressor reader (piece d) scratch true 0 needed 0 (eof_ d))
  else if nbuf <? kMaximumTagLength then
    s ← mread (region d) ip nbuf; scratch ← mwrite 0 s (scratch_ d);
    reader ← Skip (peeked_ d) (reader_ d);
    Ok (true, mk_decompressor reader (piece d) scratch true 0 nbuf 0 (eof_ d))
  else Ok (true, d).

Definition RefillTag d : outcome (bool * SnappyDecompressor S) :=
  if ip_ d =? ip_limit_ d then
    d ← next_piece d;
    if zlen (piece d) =? 0 then
      Ok (false, mk_decompressor (reader_ d) (piece d) (scratch_ d) (in_scratch d) (ip_ d) (ip_limit_ d) (peeked_ d) true)
    else refill_tag d
  else refill_tag d.

(** [MAYBE_REFILL]; [false]: [DecompressAllTags] returns. *)
Definition MAYBE_REFILL d : outcome (bool * SnappyDecompressor S) :=
  if ip_limit_ d - ip_ d <? kMaximumTagLength then RefillTag d else Ok (true, d).

(** The end of a literal: [while (avail < literal_length)] and the last piece. *)
Fixpoint literal (fuel : nat) (literal_length : Z) d (writer : W) : outcome (bool * SnappyDecompressor S * W) :=
  match fuel with
  | O => Undefined
  | Datatypes.S fuel =>
      let ip := ip_ d in
      let avail := ip_limit_ d - ip in
      if avail <? literal_length then
        '(ok, writer) ← wAppend (region d) ip avail writer;
        if negb ok then Ok (false, d, writer)
        else
          let literal_length := literal_length - avail in
          d ← next_piece d;
          if zlen (piece d) =? 0 then Ok (false, d, writer) else literal fuel literal_length d writer
      else
        '(ok, writer) ← wAppend (region d) ip literal_length writer;
        if negb ok then Ok (false, d, writer) else Ok (true, set_ip (ip + literal_length) d, writer)
  end.

(** One turn of [for (;;)]: [false] is a [return]. *)
Definition decompress_tag (fuel : nat) d (writer : W) : outcome (bool * SnappyDecompressor S * W) :=
  c ← mget (region d) (ip_ d);
  let ip := ip_ d + 1 in
  if Z.land c 3 =? LITERAL then
    let literal_length := Z.shiftr c 2 + 1 in
    '(fast, writer) ← TryFastAppend (region d) ip (ip_limit_ d - ip) literal_length writer;
    if fast : bool then (_ ← check (literal_length <? 61); Ok (true, set_ip (ip + literal_length) d, writer))
    else
      '(literal_length, ip) ←
        (if 61 <=? literal_length then
           let literal_length_length := literal_length - 60 in
           w ← UNALIGNED_LOAD32 (region d) ip; mask ← mget wordmask literal_length_length;
           Ok (u32 (Z.land w mask + 1), ip + literal_length_length)
         else Ok (literal_length, ip));
      '(ok, d, writer) ← literal fuel literal_length (set_ip ip d) writer;
      if negb ok then Ok (false, d, writer)
      else '(ok, d) ← MAYBE_REFILL d; Ok (ok, d, writer)
  else
    entry ← mget char_table c;
    w ← UNALIGNED_LOAD32 (region d) ip; mask ← mget wordmask (Z.shiftr entry 11);
    let trailer := Z.land w mask in
    let length := Z.land entry 255 in
    let ip := ip + Z.shiftr entry 11 in
    let copy_offset := Z.land entry 1792 in
    '(ok, writer) ← AppendFromSelf (u32 (copy_offset + trailer)) length writer;
    if negb ok then Ok (false, set_ip ip d, writer)
    else '(ok, d) ← MAYBE_REFILL (set_ip ip d); Ok (ok, d, writer).

Fixpoint tags (fuel : nat) d (writer : W) : outcome (SnappyDecompressor S * W) :=
  match fuel with
  | O => Undefined
  | Datatypes.S fuel' =>
      '(ok, d, writer) ← decompress_tag fuel d writer;
      if negb ok then Ok (d, writer) else tags fuel' d writer
  end.

(** [fuel] bounds the bytes of the source. *)
Definition DecompressAllTags (fuel : nat) d (writer : W) : outcome (SnappyDecompressor S * W) :=
  '(ok, d) ← MAYBE_REFILL d;
  if negb ok then Ok (d, writer) else tags fuel d writer.

Definition InternalUncompressAllTags d (writer : W) (uncompressed_len : Z) : outcome (bool * SnappyDecompressor S * W) :=
  writer ← SetExpectedLength uncompressed_len writer;
  '(d, writer) ← DecompressAllTags (Datatypes.S (Z.to_nat (Available (reader_ d)))) d writer;
  writer ← Flush writer;
  Ok (eof_ d && CheckLength writer, d, writer).

(** [~SnappyDecompressor]. *)
Definition delete_decompressor d : outcome S := Skip (peeked_ d) (reader_ d).

Definition InternalUncompress (reader : S) (writer : W) (scratch : list Z) : outcome (bool * S * W) :=
  '(uncompressed_len, reader) ← ReadUncompressedLength reader;
  match uncompressed_len with
  | None => Ok (false, reader, writer)
  | Some len =>
      '(result, d, writer) ← InternalUncompressAllTags (new_decompressor reader scratch) writer len;
      reader ← delete_decompressor d;
      Ok (result, reader, writer)
  end.
End decompressor.
