(* ===== verification/SnappyDecompressSpec.v ===== *)
(** * [flare/io/snappy]: the decompressor implements the format

    For every source and every writer that keeps its laws, the decompressor
    returns, and it accepts exactly the streams of the format, however the source
    cuts them into pieces. *)

From S2P Require Import Prelude Bits Buffers SnappyFormat SnappyStubs SnappyFragment SnappyEncode SnappyIO SnappyWriters SnappyDecompress.
Local Open Scope Z_scope.

(** ** Tags *)

(** Bytes after the tag. *)
Definition tag_extra (c : Z) : Z :=
  if c `mod` 4 =? 0 then (if c / 4 <? 60 then 0 else c / 4 - 59)
  else if c `mod` 4 =? 1 then 1 else if c `mod` 4 =? 2 then 2 else 4.

Lemma tag_extra_range c : 0 <= c < 256 -> 0 <= tag_extra c <= 4.
Proof. intros Hc. unfold tag_extra. repeat case_if; zbool; dlia. Qed.

(** Length and high bits of the offset of a copy. *)
Definition tag_length (c : Z) : Z := if c `mod` 4 =? 1 then 4 + (c / 4) `mod` 8 else c / 4 + 1.
Definition tag_offset (c : Z) : Z := if c `mod` 4 =? 1 then c / 32 * 256 else 0.

(** The table of the source has these fields. *)
Lemma char_table_spec c : 0 <= c < 256 ->
  exists entry, mget char_table c = Ok entry /\ Z.shiftr entry 11 = tag_extra c /\
    (c `mod` 4 <> 0 -> Z.land entry 255 = tag_length c /\ Z.land entry 1792 = tag_offset c).
Proof.
  intros Hc. pose proof (byte_check (fun c => match zget char_table c with
    | Some e => (Z.shiftr e 11 =? tag_extra c) && ((c `mod` 4 =? 0) || (Z.land e 255 =? tag_length c) && (Z.land e 1792 =? tag_offset c))
    | None => false end)) as H. specialize (H ltac:(vm_compute; reflexivity) c Hc). cbv beta in H.
  destruct (zget char_table c) as [e|] eqn:E; [|done]. exists e. rewrite (mget_ok _ _ _ E). apply andb_true_iff in H as [H1 H2]. split; [done|]. zbool. split; [done|].
  intros Hne. apply orb_true_iff in H2 as [H2|H2]; zbool; done.
Qed.

Lemma next_element_tag c s : 0 <= c < 256 ->
  next_element u32 (c :: s) =
    if zlen s <? tag_extra c then None
    else
      let x := le_word (ztake (tag_extra c) s) in
      let s := zdrop (tag_extra c) s in
      if c `mod` 4 =? 0 then '(l, s) ← split_at (u32 ((if c / 4 <? 60 then c / 4 else x) + 1)) s; Some (Literal l, s)
      else Some (Copy (tag_offset c + x) (tag_length c), s).
Proof.
  intros Hc. pose proof (zlen_nonneg s). cbn [next_element]. unfold tag_extra, tag_offset, tag_length.
  assert (Hsplit : forall n, split_at n s = if zlen s <? n then None else Some (ztake n s, zdrop n s)).
  { intros n. unfold split_at. destruct (n <=? zlen s) eqn:E, (zlen s <? n) eqn:E'; zbool; (done || lia). }
  destruct (c `mod` 4 =? 0) eqn:E0.
  - destruct (c / 4 <? 60) eqn:E60; [rewrite (proj2 (Z.ltb_ge _ _)) by lia; done|]. rewrite Hsplit. by destruct (zlen s <? c / 4 - 59).
  - destruct (c `mod` 4 =? 1) eqn:E1.
    + rewrite Hsplit. by destruct (zlen s <? 1).
    + destruct (c `mod` 4 =? 2) eqn:E2; rewrite Hsplit; [by destruct (zlen s <? 2)|by destruct (zlen s <? 4)].
Qed.

(** The masked load gives the number in the bytes after the tag. *)
Lemma load32_masked m p k : bytes_ok m -> 0 <= p -> p + 4 <= zlen m -> 0 <= k <= 4 ->
  exists w mask, UNALIGNED_LOAD32 m p = Ok w /\ mget wordmask k = Ok mask /\ Z.land w mask = le_word (part p k m).
Proof.
  intros Hm Hp Hl Hk. exists (le_word (part p 4 m)), (Z.ones (8 * k)). split; [by apply load32_ok|].
  split; [assert (Hcases : k = 0 \/ k = 1 \/ k = 2 \/ k = 3 \/ k = 4) by lia; by repeat destruct Hcases as [->|Hcases]; [..|subst]|].
  rewrite Z.land_ones by lia. replace 4 with (k + (4 - k)) by lia. rewrite part_add, le_word_app by (lia || by apply bytes_ok_part).
  pose proof (le_word_range (part p k m) ltac:(by apply bytes_ok_part)) as Hr. rewrite zlen_part in * by lia.
  change 256 with (2 ^ 8) in *. rewrite <- Z.pow_mul_r in * by lia. rewrite (Z.mul_comm (2 ^ _)), Z.mod_add, Z.mod_small by lia. done.
Qed.

(** ** The bytes that are left *)

Section spec.
Context {S W : Type} `{SourceLaws S} `{WriterLaws W}.
Implicit Type d : SnappyDecompressor S.

(** The source can be advanced past what has been peeked. *)
Definition closable d : Prop := exists l, left (reader_ d) l /\ 0 <= peeked_ d <= zlen l.

(** [rest] are the bytes between [ip_] and [ip_limit_] and those of the source
    behind the peeked ones.  In [scratch_] nothing is peeked. *)
Record remains d (rest : list Z) : Prop := {
  rem_left : exists l, left (reader_ d) l /\ bytes_ok l /\ zlen l < 2 ^ 32 /\ 0 <= peeked_ d <= zlen l /\
    rest = part (ip_ d) (ip_limit_ d - ip_ d) (region d) ++ zdrop (peeked_ d) l /\
    (in_scratch d = false -> piece d = ztake (peeked_ d) l /\ ip_limit_ d = peeked_ d);
  rem_scratch : zlen (scratch_ d) = 5 /\ bytes_ok (scratch_ d) /\ (in_scratch d = true -> ip_limit_ d <= 5 /\ peeked_ d = 0);
  rem_ip : 0 <= ip_ d <= ip_limit_ d;
  rem_eof : eof_ d = false
}.

Lemma remains_closable d rest : remains d rest -> closable d.
Proof. intros [(l & Hl & _ & _ & Hp & _) _ _ _]. by exists l. Qed.

Lemma remains_region d rest : remains d rest -> ip_limit_ d <= zlen (region d) /\ bytes_ok (region d).
Proof.
  intros [(l & Hl & Hb & _ & Hp & _ & Hpiece) (Hs & Hbs & Hin) Hip _]. unfold region. destruct (in_scratch d).
  - specialize (Hin eq_refl). split; [lia|done].
  - destruct (Hpiece eq_refl) as [-> ->]. rewrite zlen_ztake by lia. split; [lia|by apply Forall_take].
Qed.

Lemma remains_bytes d rest : remains d rest -> bytes_ok rest.
Proof.
  intros Hr. pose proof (remains_region d rest Hr) as [_ Hb]. destruct Hr as [(l & _ & Hbl & _ & _ & -> & _) _ _ _].
  apply bytes_ok_app. split; [by apply bytes_ok_part|by apply Forall_drop].
Qed.

(** Bytes before [ip_limit_] are the first of the rest. *)
Lemma remains_front d rest n :
  remains d rest -> 0 <= n <= ip_limit_ d - ip_ d -> part (ip_ d) n (region d) = ztake n rest /\ n <= zlen rest.
Proof.
  intros Hr Hn. pose proof (remains_region d rest Hr) as [Hl _]. destruct Hr as [(l & _ & _ & _ & _ & -> & _) _ Hip _].
  assert (Hz : zlen (part (ip_ d) (ip_limit_ d - ip_ d) (region d)) = ip_limit_ d - ip_ d) by (apply zlen_part; lia).
  rewrite ztake_app_le, zlen_app by lia. split; [|pose proof (zlen_nonneg (zdrop (peeked_ d) l)); lia].
  unfold part. rewrite ztake_ztake by lia. done.
Qed.

(** [ip] moves over bytes that are there. *)
Lemma remains_advance d rest n :
  remains d rest -> 0 <= n <= ip_limit_ d - ip_ d -> remains (set_ip (ip_ d + n) d) (zdrop n rest).
Proof.
  intros Hr Hn. pose proof (remains_region d rest Hr) as [Hreg _]. destruct Hr as [(l & Hl & Hb & Hlt & Hp & -> & Hpiece) Hs Hip He].
  split; [|exact Hs|cbn; lia|exact He]. exists l. cbn [set_ip reader_ peeked_ piece in_scratch ip_ ip_limit_]. split_and!; try done; try lia.
  change (region (set_ip (ip_ d + n) d)) with (region d).
  assert (Hz : zlen (part (ip_ d) (ip_limit_ d - ip_ d) (region d)) = ip_limit_ d - ip_ d) by (apply zlen_part; lia).
  rewrite zdrop_app_le by lia. f_equal. replace (ip_limit_ d - ip_ d) with (n + (ip_limit_ d - (ip_ d + n))) by lia.
  rewrite part_add by lia. rewrite zdrop_app_exact by (apply zlen_part; lia). done.
Qed.

Lemma new_remains reader scratch l :
  left reader l -> bytes_ok l -> zlen l < 2 ^ 32 -> zlen scratch = 5 -> bytes_ok scratch -> remains (new_decompressor reader scratch) l.
Proof.
  intros Hl Hb Hlt Hs Hbs. pose proof (zlen_nonneg l). split; cbn; try done.
  exists l. split_and!; done || lia.
Qed.

(** The next piece of the source; the buffer is used up. *)
Lemma next_piece_spec d rest :
  remains d rest -> exists d', next_piece d = Ok d' /\ closable d' /\ eof_ d' = false /\ zlen (piece d') = ip_limit_ d' /\ ip_ d' = 0 /\
    let unread := zdrop (ip_limit_ d - ip_ d) rest in
    remains d' unread /\ (zlen (piece d') = 0 -> unread = [] /\ left (reader_ d') []) /\ (zlen (piece d') = 0 <-> peeked_ d' = 0).
Proof.
  intros Hr. pose proof (remains_front d rest (ip_limit_ d - ip_ d) Hr) as Hfront. pose proof (remains_region d rest Hr) as [Hreg _].
  destruct Hr as [(l & Hl & Hb & Hlt & Hp & Er & Hpiece) (Hs & Hbs & Hin) Hip He]. unfold next_piece.
  destruct (left_skip (reader_ d) l (peeked_ d) Hl Hp) as (reader1 & -> & Hl1). cbn [mbind outcome_bind].
  destruct (left_peek reader1 _ Hl1) as (p & r & reader2 & -> & Hl2 & Ep & Hnil). cbn [mbind outcome_bind].
  set (u := zdrop (peeked_ d) l) in *. assert (Hzu : zlen u = zlen l - peeked_ d) by (apply zlen_zdrop; lia).
  assert (Hpu : zlen p <= zlen u) by (rewrite Ep, zlen_app; pose proof (zlen_nonneg r); lia). pose proof (zlen_nonneg p).
  assert (Eu : zdrop (ip_limit_ d - ip_ d) rest = u).
  { rewrite Er, zdrop_app_exact; [done|]. apply zlen_part; lia. }
  rewrite Eu, u32_small by lia. eexists. split; [done|]. cbn [piece ip_limit_ ip_ peeked_ eof_ reader_].
  assert (Hrem : remains (mk_decompressor reader2 p (scratch_ d) false 0 (zlen p) (zlen p) (eof_ d)) u).
  { split; cbn; [|done|lia|done]. exists u. split_and!; [done|by apply Forall_drop|lia..| |].
    - unfold region. cbn. rewrite Z.sub_0_r, part_0, ztake_all by lia. rewrite Ep at 2. by rewrite zdrop_app_exact, <- Ep.
    - intros _. split; [|done]. by rewrite Ep, ztake_app_exact. }
  split_and!; try done.
  - by eapply remains_closable.
  - intros Hz. assert (p = []) as -> by (destruct p; [done|rewrite zlen_cons in Hz; pose proof (zlen_nonneg p); lia]). rewrite (Hnil eq_refl) in *. done.
Qed.

(** ** Refilling *)

(** The whole tag is buffered, and five bytes can be loaded. *)
Definition ready d (rest : list Z) : Prop :=
  remains d rest /\ ip_ d + kMaximumTagLength <= zlen (region d) /\
  exists c s, rest = c :: s /\ byte_ok c /\ zget (region d) (ip_ d) = Some c /\ 1 + tag_extra c <= ip_limit_ d - ip_ d.

(** What [RefillTag] leaves: a tag, or the end of the stream with or without an
    error. *)
Definition refilled (ok : bool) d (rest : list Z) : Prop :=
  if ok then ready d rest
  else closable d /\ (rest = [] /\ eof_ d = true /\ left (reader_ d) [] /\ peeked_ d = 0 \/ rest <> [] /\ next_element u32 rest = None /\ eof_ d = false).

Lemma stitch_spec needed fuel : forall nbuf scratch reader l,
  left reader l -> bytes_ok l -> zlen l < 2 ^ 32 -> zlen scratch = 5 -> bytes_ok scratch -> 0 <= nbuf <= needed -> needed <= 5 -> needed - nbuf < Z.of_nat fuel ->
  exists scratch' reader', stitch fuel nbuf needed scratch reader = Ok (needed - nbuf <=? zlen l, scratch', reader') /\
    (exists l', left reader' l') /\ zlen scratch' = 5 /\ bytes_ok scratch' /\
    (needed - nbuf <= zlen l -> ztake needed scratch' = ztake nbuf scratch ++ ztake (needed - nbuf) l /\ left reader' (zdrop (needed - nbuf) l)).
Proof.
  induction fuel as [|fuel IH]; intros nbuf scratch reader l Hl Hb Hlt Hs Hbs Hn H5 Hf; [lia|]. cbn [stitch]. case_if; zbool.
  - destruct (left_peek reader l Hl) as (p & r & reader1 & -> & Hl1 & El & Hnil). cbn [mbind outcome_bind].
    assert (Hlen : zlen l = zlen p + zlen r) by (by rewrite El, zlen_app). pose proof (zlen_nonneg p). pose proof (zlen_nonneg r).
    destruct (zlen p =? 0) eqn:E0; zbool.
    { assert (p = []) as -> by (destruct p; [done|rewrite zlen_cons in E0; pose proof (zlen_nonneg p); lia]). rewrite (Hnil eq_refl) in *. rewrite (@zlen_nil Z).
      rewrite (proj2 (Z.leb_gt _ _)) by lia. exists scratch, reader1. split_and!; try done; [by eexists|lia..]. }
    rewrite u32_small by lia. set (n := Z.min (needed - nbuf) (zlen p)). rewrite mread_ok by lia. cbn [mbind outcome_bind].
    assert (Hz : zlen (part 0 n p) = n) by (apply zlen_part; lia). rewrite mwrite_ok by lia. cbn [mbind outcome_bind].
    destruct (left_skip reader1 l n Hl1) as (reader2 & -> & Hl2); [lia|]. cbn [mbind outcome_bind].
    assert (Hbp : bytes_ok p) by (rewrite El in Hb; apply bytes_ok_app in Hb; tauto). assert (Hzd : zlen (zdrop n l) = zlen l - n) by (apply zlen_zdrop; lia).
    destruct (IH (nbuf + n) (splice nbuf (part 0 n p) scratch) reader2 (zdrop n l)) as (scratch' & reader' & -> & Hex & Hs' & Hbs' & Hok);
      [done|by apply Forall_drop|lia|by rewrite zlen_splice by lia|by apply bytes_ok_splice; [apply bytes_ok_part|]|lia..|].
    exists scratch', reader'. rewrite Hzd in *. replace (needed - (nbuf + n) <=? zlen l - n) with (needed - nbuf <=? zlen l).
    2: { destruct (needed - nbuf <=? zlen l) eqn:E1, (needed - (nbuf + n) <=? zlen l - n) eqn:E2; zbool; (done || lia). }
    split_and!; try done. intros Hfit. destruct (Hok ltac:(lia)) as [Et Hl']. rewrite zdrop_zdrop in Hl' by lia. replace (n + (needed - (nbuf + n))) with (needed - nbuf) in Hl' by lia.
    split; [|done]. assert (Esp : ztake (nbuf + n) (splice nbuf (part 0 n p) scratch) = ztake nbuf scratch ++ part 0 n p) by (rewrite <- Hz at 1; apply ztake_splice; lia).
    rewrite Et, Esp, <- app_assoc. f_equal. replace (needed - nbuf) with (n + (needed - (nbuf + n))) by lia.
    rewrite (ztake_add n) by lia. f_equal. rewrite part_0, El, ztake_app_le by lia. done.
  - assert (nbuf = needed) as -> by lia. unfold check. rewrite Z.eqb_refl, Z.sub_diag. cbn [mbind outcome_bind]. pose proof (zlen_nonneg l).
    rewrite (proj2 (Z.leb_le _ _)) by lia. exists scratch, reader. split_and!; try done; [by eexists|]. intros _. split; [|done].
    change (ztake 0 l) with (@nil Z). by rewrite app_nil_r.
Qed.

(** Buffered bytes are moved into [scratch_]. *)
Lemma scratch_ready d rest reader scratch n c s :
  remains d rest -> left reader (zdrop n rest) -> zlen scratch = 5 -> bytes_ok scratch -> 0 <= n <= 5 -> n <= zlen rest -> zlen rest < 2 ^ 32 -> ztake n scratch = ztake n rest ->
  rest = c :: s -> 1 + tag_extra c <= n -> ready (mk_decompressor reader (piece d) scratch true 0 n 0 (eof_ d)) rest.
Proof.
  intros Hr Hl Hs Hbs Hn Hle Hlt Et Ec Hx. pose proof (remains_bytes d rest Hr) as Hb. assert (Hc : byte_ok c) by (rewrite Ec in Hb; by apply Forall_cons in Hb as [? _]).
  pose proof (tag_extra_range c Hc). unfold ready, region, kMaximumTagLength. cbn [in_scratch scratch_ ip_ ip_limit_]. split; [|split; [lia|]].
  - destruct Hr as [_ _ _ He]. split; cbn; [|split_and!; (done || lia)|lia|done]. exists (zdrop n rest). pose proof (zlen_nonneg (zdrop n rest)).
    assert (Hzd : zlen (zdrop n rest) = zlen rest - n) by (apply zlen_zdrop; lia).
    split_and!; try done; [by apply Forall_drop|lia|]. unfold region. cbn. rewrite Z.sub_0_r, part_0, Et. change (zdrop 0 (zdrop n rest)) with (zdrop n rest). by rewrite ztake_zdrop.
  - exists c, s. split_and!; [done|done| |lia]. rewrite <- (zget_ztake scratch n), Et, zget_ztake, Ec by lia. done.
Qed.

Lemma refill_tag_spec d rest :
  remains d rest -> zlen rest < 2 ^ 32 -> ip_ d < ip_limit_ d -> exists ok d', refill_tag d = Ok (ok, d') /\ refilled ok d' rest.
Proof.
  intros Hr Hlt Hip. pose proof (remains_region d rest Hr) as [Hreg _]. pose proof (remains_bytes d rest Hr) as Hb. pose proof (rem_ip d rest Hr) as Hip0.
  destruct (remains_front d rest 1 Hr) as [E1 Hrest]; [lia|]. destruct rest as [|c s]; [rewrite (@zlen_nil Z) in Hrest; lia|]. set (rest := c :: s) in *.
  assert (Hc : byte_ok c) by (by apply Forall_cons in Hb as [? _]). assert (Eg : zget (region d) (ip_ d) = Some c).
  { pose proof (zget_part (region d) (ip_ d) 1 0) as Hg. rewrite Z.add_0_r, E1 in Hg. by rewrite <- Hg by lia. }
  unfold refill_tag, check. rewrite (proj2 (Z.ltb_lt (ip_ d) (ip_limit_ d))) by lia. cbn [mbind outcome_bind]. rewrite (mget_ok _ _ _ Eg). cbn [mbind outcome_bind].
  destruct (char_table_spec c Hc) as (entry & -> & Hx & _). cbn [mbind outcome_bind]. rewrite Hx. pose proof (tag_extra_range c Hc).
  destruct (rem_scratch d _ Hr) as (Hs & Hbs & Hin). rewrite Hs, (proj2 (Z.leb_le _ _)) by lia. cbn [mbind outcome_bind].
  set (nbuf := ip_limit_ d - ip_ d). destruct (remains_front d rest nbuf Hr) as [Ef Hnr]; [lia|].
  assert (Hu : u32 nbuf = nbuf) by (apply u32_small; lia). rewrite Hu.
  destruct (rem_left d _ Hr) as (l & Hl & Hbl & Hll & Hp & Er & Hpiece).
  assert (Hzn : zlen (part (ip_ d) nbuf (region d)) = nbuf) by (apply zlen_part; lia).
  assert (Eu : zdrop nbuf rest = zdrop (peeked_ d) l) by (rewrite Er; apply zdrop_app_exact; exact Hzn).
  assert (Hzu : zlen (zdrop nbuf rest) = zlen rest - nbuf) by (apply zlen_zdrop; lia).
  assert (Hmove : nbuf <= 5 -> exists scratch reader, (s ← mread (region d) (ip_ d) nbuf; mwrite 0 s (scratch_ d)) = Ok scratch /\ zlen scratch = 5 /\ bytes_ok scratch /\
    ztake nbuf scratch = ztake nbuf rest /\ Skip (peeked_ d) (reader_ d) = Ok reader /\ left reader (zdrop nbuf rest)).
  { intros Hn5. rewrite mread_ok by lia. cbn [mbind outcome_bind]. rewrite mwrite_ok by lia.
    destruct (left_skip (reader_ d) l (peeked_ d) Hl Hp) as (reader & -> & Hl1). rewrite <- Eu in Hl1. eexists _, reader. split_and!; try done.
    - by rewrite zlen_splice by lia.
    - apply bytes_ok_splice; [|done]. apply bytes_ok_part. by apply (remains_region d rest).
    - rewrite <- Ef. rewrite <- Hzn at 1. rewrite <- (Z.add_0_l (zlen _)), ztake_splice by lia. done. }
  destruct (nbuf <? tag_extra c + 1) eqn:E; zbool.
  - destruct Hmove as (scratch & reader & Em & Hs' & Hbs' & Et & Esk & Hl'); [lia|].
    destruct (mread (region d) (ip_ d) nbuf) as [x| |]; try done. cbn [mbind outcome_bind] in Em |- *. rewrite Em. cbn [mbind outcome_bind]. rewrite Esk. cbn [mbind outcome_bind].
    destruct (stitch_spec (tag_extra c + 1) 6 nbuf scratch reader (zdrop nbuf rest)) as (scratch2 & reader2 & -> & Hex & Hs2 & Hbs2 & Hok);
      [done|by apply Forall_drop|lia|done|done|lia..|]. cbn [mbind outcome_bind]. rewrite Hzu in *.
    destruct (tag_extra c + 1 - nbuf <=? zlen rest - nbuf) eqn:E2; zbool; cbn [negb].
    + destruct (Hok ltac:(lia)) as [Et2 Hl2]. eexists true, _. split; [done|]. rewrite zdrop_zdrop in Hl2 by lia. replace (nbuf + (tag_extra c + 1 - nbuf)) with (tag_extra c + 1) in Hl2 by lia.
      eapply scratch_ready; try done; try lia. rewrite Et2, Et. rewrite <- ztake_add by lia. f_equal. lia.
    + eexists false, _. split; [done|]. cbn [refilled]. split.
      * destruct Hex as [l' Hl2]. exists l'. cbn. pose proof (zlen_nonneg l'). split; [done|lia].
      * right. split; [done|]. split; [|by destruct Hr]. subst rest. rewrite next_element_tag by done. rewrite zlen_cons in *. by rewrite (proj2 (Z.ltb_lt _ _)) by lia.
  - destruct (nbuf <? kMaximumTagLength) eqn:E5; unfold kMaximumTagLength in E5; zbool.
    + destruct Hmove as (scratch & reader & Em & Hs' & Hbs' & Et & Esk & Hl'); [lia|].
      destruct (mread (region d) (ip_ d) nbuf) as [x| |]; try done. cbn [mbind outcome_bind] in Em |- *. rewrite Em. cbn [mbind outcome_bind]. rewrite Esk. cbn [mbind outcome_bind].
      eexists true, _. split; [done|]. eapply scratch_ready; try done; lia.
    + exists true, d. split; [done|]. cbn. unfold ready, kMaximumTagLength. split; [done|]. split; [lia|]. exists c, s. split_and!; done || lia.
Qed.

Lemma zdrop_zero {A} (l : list A) : zdrop 0 l = l.
Proof. done. Qed.

Lemma RefillTag_spec d rest : remains d rest -> zlen rest < 2 ^ 32 -> exists ok d', RefillTag d = Ok (ok, d') /\ refilled ok d' rest.
Proof.
  intros Hr Hlt. pose proof (rem_ip d rest Hr) as Hip. unfold RefillTag. case_if; zbool; [|apply refill_tag_spec; (done || lia)].
  destruct (next_piece_spec d rest Hr) as (d1 & -> & Hcl & He & Hz & Hi & Hr1 & Hend & Hpk). cbn [mbind outcome_bind]. rewrite Heqb, Z.sub_diag, zdrop_zero in *.
  case_if; zbool.
  - destruct (Hend Heqb0) as [-> Hl]. eexists false, _. split; [done|]. cbn [refilled]. split; [|left; cbn; split_and!; try done; by apply Hpk].
    destruct Hcl as (l & ? & ?). by exists l.
  - apply refill_tag_spec; [done..|]. pose proof (zlen_nonneg (piece d1)). lia.
Qed.

Lemma ready_long d rest : remains d rest -> kMaximumTagLength <= ip_limit_ d - ip_ d -> ready d rest.
Proof.
  intros Hr Hlen. unfold kMaximumTagLength in *. pose proof (rem_ip d rest Hr). destruct (remains_front d rest 1 Hr) as [E1 Hrest]; [lia|].
  destruct rest as [|c s]; [rewrite (@zlen_nil Z) in Hrest; lia|]. pose proof (remains_bytes _ _ Hr) as Hb. apply Forall_cons in Hb as [Hc _].
  pose proof (tag_extra_range c Hc). pose proof (remains_region _ _ Hr) as [Hreg _].
  unfold ready, kMaximumTagLength. split; [done|]. split; [lia|]. exists c, s. split_and!; [done|done| |lia].
  pose proof (zget_part (region d) (ip_ d) 1 0) as Hg. rewrite Z.add_0_r, E1 in Hg. by rewrite <- Hg by lia.
Qed.

Lemma MAYBE_REFILL_spec d rest : remains d rest -> zlen rest < 2 ^ 32 -> exists ok d', MAYBE_REFILL d = Ok (ok, d') /\ refilled ok d' rest.
Proof.
  intros Hr Hlt. unfold MAYBE_REFILL. case_if; zbool; [by apply RefillTag_spec|]. exists true, d. split; [done|]. by apply ready_long.
Qed.

(** ** Literals *)

(** The decompressor has stopped with an error. *)
Definition failed d : Prop := eof_ d = false /\ closable d.

Lemma remains_failed d rest : remains d rest -> failed d.
Proof. intros Hr. split; [by destruct Hr|by eapply remains_closable]. Qed.

Lemma literal_spec e fuel : forall len d w rest out,
  remains d rest -> holds w e out -> 0 <= len < 2 ^ 33 -> zlen (zdrop (ip_limit_ d - ip_ d) rest) < Z.of_nat fuel ->
  exists ok d' w', literal fuel len d w = Ok (ok, d', w') /\ ok = ((len <=? zlen rest) && (zlen out + len <=? e)) /\
    if ok then remains d' (zdrop len rest) /\ holds w' e (out ++ ztake len rest) else failed d' /\ flushable w' e.
Proof.
  induction fuel as [|fuel IH]; intros len d w rest out Hr Hw Hlen Hf; [pose proof (zlen_nonneg (zdrop (ip_limit_ d - ip_ d) rest)); lia|].
  cbn [literal]. pose proof (rem_ip d rest Hr) as Hip. pose proof (remains_region d rest Hr) as [Hreg Hbr]. pose proof (rem_eof d rest Hr) as He.
  pose proof (remains_closable d rest Hr) as Hcl. set (avail := ip_limit_ d - ip_ d) in *. destruct (remains_front d rest avail Hr) as [Ef Hav]; [lia|].
  assert (Hal : avail < 2 ^ 32).
  { destruct Hr as [(l & _ & _ & Hll & Hp & _ & Hpiece) (_ & _ & Hin) _ _]. destruct (in_scratch d); [destruct (Hin eq_refl); lia|destruct (Hpiece eq_refl); lia]. }
  destruct (avail <? len) eqn:E; zbool.
  - destruct (holds_append w e out (region d) (ip_ d) avail Hw Hbr) as (w1 & -> & Hfl & Hw1); [lia..|]. cbn [mbind outcome_bind].
    destruct (zlen out + avail <=? e) eqn:Ee; zbool; cbn [negb].
    2: { exists false, d, w1. split_and!; [done| |by split|done]. symmetry. apply andb_false_iff. right. apply Z.leb_gt. lia. }
    specialize (Hw1 Ee). rewrite Ef in Hw1. destruct (next_piece_spec d rest Hr) as (d1 & -> & Hcl1 & He1 & Hz1 & Hi1 & Hr1 & Hend & _). cbn [mbind outcome_bind]. fold avail in Hr1, Hend.
    assert (Hzr : zlen (zdrop avail rest) = zlen rest - avail) by (apply zlen_zdrop; lia). assert (Hzt : zlen (ztake avail rest) = avail) by (apply zlen_ztake; lia).
    destruct (zlen (piece d1) =? 0) eqn:E0; zbool.
    { destruct (Hend E0) as [Hnil _]. rewrite Hnil, (@zlen_nil Z) in Hzr. exists false, d1, w1. split_and!; [done| |by split|done]. symmetry. apply andb_false_iff. left. apply Z.leb_gt. lia. }
    pose proof (zlen_nonneg (piece d1)). assert (Ei : ip_limit_ d1 - ip_ d1 = zlen (piece d1)) by lia.
    destruct (remains_front d1 _ (zlen (piece d1)) Hr1) as [_ Hle1]; [lia|].
    destruct (IH (len - avail) d1 w1 (zdrop avail rest) (out ++ ztake avail rest) Hr1 Hw1) as (ok & d2 & w2 & -> & Hok & Hres);
      [lia|rewrite Ei, zlen_zdrop; lia|].
    rewrite zlen_app, Hzt, Hzr in Hok. exists ok, d2, w2. split; [done|]. split.
    { rewrite Hok. f_equal; [destruct (len - avail <=? zlen rest - avail) eqn:E1, (len <=? zlen rest) eqn:E2|destruct (zlen out + avail + (len - avail) <=? e) eqn:E1, (zlen out + len <=? e) eqn:E2]; zbool; (done || lia). }
    destruct ok; [|done]. destruct Hres as [Hr2 Hw2]. rewrite zdrop_zdrop in Hr2 by lia. replace (avail + (len - avail)) with len in Hr2 by lia. split; [done|].
    rewrite <- app_assoc, <- ztake_add in Hw2 by lia. by replace (avail + (len - avail)) with len in Hw2 by lia.
  - destruct (remains_front d rest len Hr) as [Efl Hle]; [lia|]. rewrite (proj2 (Z.leb_le len _)) by lia. cbn [andb].
    destruct (holds_append w e out (region d) (ip_ d) len Hw Hbr) as (w1 & -> & Hfl & Hw1); [lia..|]. cbn [mbind outcome_bind].
    destruct (zlen out + len <=? e) eqn:Ee; zbool; cbn [negb].
    + eexists true, _, w1. split_and!; [done|done| |by rewrite <- Efl; apply Hw1]. apply remains_advance; (done || lia).
    + exists false, d, w1. split_and!; try done.
Qed.

(** ** One tag *)

(** What a turn of the loop has done with the front of [rest]. *)
Definition tag_done (e : Z) (out rest : list Z) (ok : bool) d (w : W) : Prop :=
  match next_element u32 rest with
  | Some (el, r) =>
      match produce el out with
      | Some out' => if zlen out' <=? e then holds w e out' /\ refilled ok d r else ok = false /\ failed d /\ flushable w e
      | None => ok = false /\ failed d /\ flushable w e
      end
  | None => ok = false /\ failed d /\ flushable w e
  end.

Lemma zdrop_S (c : Z) s n : 0 <= n -> zdrop (1 + n) (c :: s) = zdrop n s.
Proof. intros. unfold zdrop. by replace (Z.to_nat (1 + n)) with (Datatypes.S (Z.to_nat n)) by lia. Qed.

(** The bytes after the tag, in memory and in the rest. *)
Lemma ready_extra d c s n :
  remains d (c :: s) -> 0 <= n -> 1 + n <= ip_limit_ d - ip_ d ->
  remains (set_ip (ip_ d + 1 + n) d) (zdrop n s) /\ part (ip_ d + 1) n (region d) = ztake n s /\ n <= zlen s.
Proof.
  intros Hr Hn Hle. pose proof (remains_advance d (c :: s) (1 + n) Hr ltac:(lia)) as Ha. rewrite zdrop_S, Z.add_assoc in Ha by lia. split; [done|].
  pose proof (remains_advance d (c :: s) 1 Hr ltac:(lia)) as Hadv. change (zdrop 1 (c :: s)) with s in Hadv.
  apply (remains_front _ _ n Hadv). cbn. lia.
Qed.

Lemma refill_after d r w e out' :
  remains d r -> zlen r < 2 ^ 32 -> holds w e out' -> zlen out' <= e ->
  exists ok d' w', ('(ok, d) ← MAYBE_REFILL d; Ok (ok, d, w)) = Ok (ok, d', w') /\ holds w' e out' /\ refilled ok d' r.
Proof. intros Hr Hlt Hw He. destruct (MAYBE_REFILL_spec d r Hr Hlt) as (ok & d' & -> & Hd). by exists ok, d', w. Qed.

(** The copy of a literal of [len] bytes, and the tag after it. *)
Lemma literal_tag_done e out c s len n fuel d w :
  remains d (c :: s) -> zlen s < 2 ^ 32 -> zlen s < Z.of_nat fuel -> holds w e out -> 0 <= len < 2 ^ 33 -> 0 <= n -> 1 + n <= ip_limit_ d - ip_ d ->
  next_element u32 (c :: s) = ('(l, s) ← split_at len (zdrop n s); Some (Literal l, s)) ->
  exists ok d' w', ('(ok, d, writer) ← literal fuel len (set_ip (ip_ d + 1 + n) d) w;
    if negb ok then Ok (false, d, writer) else '(ok, d) ← MAYBE_REFILL d; Ok (ok, d, writer)) = Ok (ok, d', w') /\ tag_done e out (c :: s) ok d' w'.
Proof.
  intros Hr Hlt Hf Hw Hlen Hn Hle Hnext. destruct (ready_extra d c s n Hr Hn Hle) as (Ha & _ & Hns). pose proof (rem_ip _ _ Ha).
  assert (Hz : zlen (zdrop n s) = zlen s - n) by (apply zlen_zdrop; lia).
  destruct (literal_spec e fuel len _ w (zdrop n s) out Ha Hw Hlen) as (ok & d1 & w1 & -> & Hok & Hres).
  { unfold zdrop at 1. unfold zlen in *. rewrite length_drop. lia. }
  cbn [mbind outcome_bind]. unfold tag_done. rewrite Hnext. unfold split_at. rewrite Hz in *. destruct ok; cbn [negb].
  - symmetry in Hok. zbool. rewrite (proj2 (Z.leb_le len _)) by lia. cbn [mbind option_bind produce]. destruct Hres as [Hr1 Hw1].
    assert (Hzt : zlen (ztake len (zdrop n s)) = len) by (apply zlen_ztake; lia). rewrite zlen_app, Hzt, (proj2 (Z.leb_le _ e)) by lia.
    apply refill_after; [done|rewrite zlen_zdrop; lia|done|rewrite zlen_app; lia].
  - exists false, d1, w1. split; [done|]. symmetry in Hok. apply andb_false_iff in Hok. destruct (len <=? zlen s - n) eqn:El; [|done]. cbn [mbind option_bind produce]. zbool.
    rewrite zlen_app, zlen_ztake by lia. destruct Hok as [|Hok]; [lia|]. rewrite (proj2 (Z.leb_gt _ e)) by lia. done.
Qed.

Lemma fast_literal_done e out c s len d w :
  remains d (c :: s) -> holds w e (out ++ part (ip_ d + 1) len (region d)) -> 0 <= len <= 16 -> 16 + kMaximumTagLength <= ip_limit_ d - (ip_ d + 1) -> zlen out + len <= e ->
  next_element u32 (c :: s) = ('(l, s) ← split_at len s; Some (Literal l, s)) ->
  tag_done e out (c :: s) true (set_ip (ip_ d + 1 + len) d) w.
Proof.
  unfold kMaximumTagLength. intros Hr Hw Hlen Hav He Hnext. destruct (ready_extra d c s len Hr) as (Ha & Ef & Hls); [lia..|]. unfold tag_done. rewrite Hnext.
  unfold split_at. rewrite (proj2 (Z.leb_le _ _)) by lia. cbn [mbind option_bind produce]. rewrite zlen_app, zlen_ztake by lia. rewrite (proj2 (Z.leb_le _ e)) by lia.
  rewrite Ef in Hw. split; [done|]. apply ready_long; [done|]. unfold kMaximumTagLength. cbn. lia.
Qed.

Lemma copy_tag_done e out c s fuel d w :
  ready d (c :: s) -> zlen s < 2 ^ 32 -> holds w e out -> c `mod` 4 <> 0 ->
  exists ok d' w', decompress_tag fuel d w = Ok (ok, d', w') /\ tag_done e out (c :: s) ok d' w'.
Proof.
  intros (Hr & H5 & c0 & s0 & [= <- <-] & Hc & Hg & Hx) Hlt Hw Hmod. unfold kMaximumTagLength in H5. pose proof (tag_extra_range c Hc) as Hxr.
  pose proof (remains_region _ _ Hr) as [Hreg Hbr]. pose proof (rem_ip _ _ Hr) as Hip. destruct (ready_extra d c s (tag_extra c) Hr) as (Ha & Ef & Hxs); [lia..|].
  unfold decompress_tag. rewrite (mget_ok _ _ _ Hg). cbn [mbind outcome_bind]. change 3 with (Z.ones 2). rewrite Z.land_ones by lia. change (2 ^ 2) with 4.
  unfold LITERAL. rewrite (proj2 (Z.eqb_neq _ _)) by done. destruct (char_table_spec c Hc) as (entry & -> & Hex & Hf). destruct (Hf Hmod) as [Hlen Hoff]. cbn [mbind outcome_bind].
  rewrite Hex, Hlen, Hoff. destruct (load32_masked (region d) (ip_ d + 1) (tag_extra c) Hbr) as (x & mask & -> & -> & Hmask); [lia..|]. cbn [mbind outcome_bind]. rewrite Hmask, Ef.
  set (o := le_word (ztake (tag_extra c) s)). assert (Ho : 0 <= o < 2 ^ 32 /\ (c `mod` 4 = 1 -> o < 256)).
  { pose proof (remains_bytes _ _ Hr) as Hb. apply Forall_cons in Hb as [_ Hb]. pose proof (le_word_range (ztake (tag_extra c) s) ltac:(by apply Forall_take)) as Hl.
    rewrite zlen_ztake in Hl by lia. fold o in Hl. split; [split; [lia|]|].
    - apply Z.lt_le_trans with (256 ^ tag_extra c); [lia|]. change (2 ^ 32) with (256 ^ 4). apply Z.pow_le_mono_r; lia.
    - intros E1. unfold tag_extra in Hl. rewrite E1 in Hl. cbn in Hl. lia. }
  assert (Htag : 1 <= tag_length c <= 64 /\ 0 <= tag_offset c + o < 2 ^ 32).
  { destruct Ho as [Ho Ho1]. unfold tag_length, tag_offset, byte_ok in *. destruct (c `mod` 4 =? 1) eqn:E1; zbool; [specialize (Ho1 E1)|]; clear -Ho Ho1 Hc; dlia. }
  rewrite u32_small by lia. destruct (holds_self w e out (tag_offset c + o) (tag_length c) Hw) as (w1 & -> & Hfl & Hw1); [lia..|]. cbn [mbind outcome_bind].
  assert (Hnext : next_element u32 (c :: s) = Some (Copy (tag_offset c + o) (tag_length c), zdrop (tag_extra c) s)).
  { rewrite next_element_tag by done. rewrite (proj2 (Z.ltb_ge _ _)) by lia. rewrite (proj2 (Z.eqb_neq _ _)) by done. done. }
  unfold tag_done. rewrite Hnext. cbn [produce].
  destruct ((1 <=? tag_offset c + o) && (tag_offset c + o <=? zlen out)) eqn:Eo; cbn [andb].
  - rewrite zlen_self_copy, Z2Nat.id by lia. destruct (zlen out + tag_length c <=? e) eqn:Ee; cbn [negb]; zbool.
    + apply refill_after; [done|rewrite zlen_zdrop; lia|by apply Hw1|rewrite zlen_self_copy, Z2Nat.id; lia].
    + eexists false, _, w1. split; [done|]. split; [done|]. split; [by eapply remains_failed|done].
  - eexists false, _, w1. split; [done|]. split; [done|]. split; [by eapply remains_failed|done].
Qed.

Lemma literal_tag_spec e out c s fuel d w :
  ready d (c :: s) -> zlen s < 2 ^ 32 -> zlen s < Z.of_nat fuel -> holds w e out -> c `mod` 4 = 0 ->
  exists ok d' w', decompress_tag fuel d w = Ok (ok, d', w') /\ tag_done e out (c :: s) ok d' w'.
Proof.
  intros (Hr & H5 & c0 & s0 & [= <- <-] & Hc & Hg & Hx) Hlt Hfuel Hw Hmod. unfold kMaximumTagLength in H5. pose proof (tag_extra_range c Hc) as Hxr.
  pose proof (remains_region _ _ Hr) as [Hreg Hbr]. pose proof (rem_ip _ _ Hr) as Hip. destruct (ready_extra d c s (tag_extra c) Hr) as (_ & Ef & Hxs); [lia..|].
  unfold decompress_tag. rewrite (mget_ok _ _ _ Hg). cbn [mbind outcome_bind]. change 3 with (Z.ones 2). rewrite Z.land_ones by lia. change (2 ^ 2) with 4. rewrite Hmod.
  unfold LITERAL. cbn [Z.eqb]. rewrite Z.shiftr_div_pow2 by lia. change (2 ^ 2) with 4. unfold byte_ok in Hc.
  destruct (holds_fast w e out (region d) (ip_ d + 1) (ip_limit_ d - (ip_ d + 1)) (c / 4 + 1) Hw Hbr) as (b & w1 & -> & Hb); [lia|dlia|lia..|]. cbn [mbind outcome_bind].
  assert (Hnext : next_element u32 (c :: s) =
    ('(l, s) ← split_at (u32 ((if c / 4 <? 60 then c / 4 else le_word (ztake (tag_extra c) s)) + 1)) (zdrop (tag_extra c) s); Some (Literal l, s))).
  { rewrite next_element_tag by done. rewrite (proj2 (Z.ltb_ge _ _)) by lia. rewrite Hmod. done. }
  destruct b.
  - destruct Hb as (H16 & Hav & He & Hw1). unfold check. rewrite (proj2 (Z.ltb_lt _ _)) by lia. cbn [mbind outcome_bind]. eexists true, _, w1. split; [done|].
    apply fast_literal_done; try done; [dlia|]. rewrite Hnext. unfold tag_extra. rewrite Hmod. cbn [Z.eqb]. rewrite (proj2 (Z.ltb_lt _ _)) by lia.
    rewrite u32_small by dlia. done.
  - destruct (61 <=? c / 4 + 1) eqn:E61; zbool.
    + assert (Ex : tag_extra c = c / 4 - 59) by (unfold tag_extra; rewrite Hmod; cbn [Z.eqb]; by rewrite (proj2 (Z.ltb_ge _ _)) by lia).
      replace (c / 4 + 1 - 60) with (tag_extra c) by lia. destruct (load32_masked (region d) (ip_ d + 1) (tag_extra c) Hbr) as (x & mask & -> & -> & Hmask); [lia..|].
      cbn [mbind outcome_bind]. rewrite Hmask, Ef. rewrite (proj2 (Z.ltb_ge _ _)) in Hnext by lia. apply literal_tag_done; try done; [|lia].
      pose proof (u32_range (le_word (ztake (tag_extra c) s) + 1)). lia.
    + cbn [mbind outcome_bind]. assert (Ex : tag_extra c = 0) by (unfold tag_extra; rewrite Hmod; cbn [Z.eqb]; by rewrite (proj2 (Z.ltb_lt _ _)) by lia).
      rewrite Ex, zdrop_zero, (proj2 (Z.ltb_lt _ _)), u32_small in Hnext by dlia. replace (ip_ d + 1) with (ip_ d + 1 + 0) by lia.
      apply literal_tag_done; try done; dlia.
Qed.

Lemma decompress_tag_spec e out rest fuel d w :
  ready d rest -> zlen rest < 2 ^ 32 -> zlen rest <= Z.of_nat fuel -> holds w e out ->
  exists ok d' w', decompress_tag fuel d w = Ok (ok, d', w') /\ tag_done e out rest ok d' w'.
Proof.
  intros Hr Hlt Hf Hw. pose proof Hr as (_ & _ & c & s & -> & _). rewrite zlen_cons in *. pose proof (zlen_nonneg s).
  destruct (decide (c `mod` 4 = 0)); [apply literal_tag_spec|apply copy_tag_done]; (done || lia).
Qed.

(** ** All tags *)

(** The decompressor has read the stream to its end, or has failed. *)
Definition all_done (e : Z) (out rest : list Z) d (w : W) : Prop :=
  closable d /\ flushable w e /\
  match elements u32 out rest with
  | Some out' => if zlen out' <=? e then eof_ d = true /\ holds w e out' /\ left (reader_ d) [] /\ peeked_ d = 0 else eof_ d = false
  | None => eof_ d = false
  end.

Lemma refilled_done e out rest d w : refilled false d rest -> holds w e out -> all_done e out rest d w.
Proof.
  intros [Hc [(-> & He & Hl & Hp)|(Hne & Hn & He)]] Hw; (split; [done|split; [by eapply holds_flushable|]]).
  - rewrite elements_nil. rewrite (proj2 (Z.leb_le _ e)) by (apply (holds_length w e out Hw)). done.
  - by rewrite elements_stop.
Qed.

Lemma tags_spec e fuel : forall out rest d w,
  ready d rest -> zlen rest < 2 ^ 32 -> zlen rest < Z.of_nat fuel -> holds w e out ->
  exists d' w', tags fuel d w = Ok (d', w') /\ all_done e out rest d' w'.
Proof.
  induction fuel as [|fuel IH]; intros out rest d w Hr Hlt Hf Hw; [pose proof (zlen_nonneg rest); lia|]. cbn [tags].
  destruct (decompress_tag_spec e out rest (Datatypes.S fuel) d w Hr Hlt ltac:(lia) Hw) as (ok & d1 & w1 & -> & Hd). cbn [mbind outcome_bind].
  assert (Hne : rest <> []) by (destruct Hr as (_ & _ & c & s & -> & _); done).
  unfold tag_done in Hd. destruct (next_element u32 rest) as [[el r]|] eqn:En.
  - pose proof (next_element_shorter u32 rest el r En). assert (Hs : zlen r < zlen rest) by (unfold zlen; lia).
    destruct (produce el out) as [out'|] eqn:Ep.
    + destruct (zlen out' <=? e) eqn:Ee; zbool.
      * destruct Hd as [Hw1 Hd]. destruct ok; cbn [negb].
        -- destruct (IH out' r d1 w1 Hd ltac:(lia) ltac:(lia) Hw1) as (d2 & w2 & -> & Hall). exists d2, w2. split; [done|].
           unfold all_done in *. by rewrite (elements_step u32 out rest el r En), Ep.
        -- exists d1, w1. split; [done|]. pose proof (refilled_done e out' r d1 w1 Hd Hw1) as Hall. unfold all_done in *. by rewrite (elements_step u32 out rest el r En), Ep.
      * destruct Hd as (-> & [He Hc] & Hfl). exists d1, w1. split; [done|]. split; [done|]. split; [done|]. rewrite (elements_step u32 out rest el r En), Ep.
        destruct (elements u32 out' r) as [out2|] eqn:E2; [|done]. pose proof (elements_grow _ _ _ _ E2). by rewrite (proj2 (Z.leb_gt _ e)) by lia.
    + destruct Hd as (-> & [He Hc] & Hfl). exists d1, w1. split; [done|]. split; [done|]. split; [done|]. by rewrite (elements_step u32 out rest el r En), Ep.
  - destruct Hd as (-> & [He Hc] & Hfl). exists d1, w1. split; [done|]. split; [done|]. split; [done|]. by rewrite elements_stop.
Qed.

(** ** The stream *)

(** The length at its front, as [ReadUncompressedLength] reads it: bits above 32
    are lost. *)
Fixpoint length_bytes (n : nat) (result shift : Z) (s : list Z) : option (Z * list Z) :=
  match n, s with
  | Datatypes.S n, c :: s =>
      let result := Z.lor result (u32 (Z.shiftl (Z.land c 127) shift)) in
      if c <? 128 then Some (result, s) else length_bytes n result (shift + 7) s
  | _, _ => None
  end.

Definition stream_length (s : list Z) : option (Z * list Z) := length_bytes 5 0 0 s.

(** The data that the decompressors make of a stream, if they accept it: the
    arithmetic of lengths is the 32-bit one of the code. *)
Definition code_decode (s : list Z) : option (list Z) :=
  '(e, r) ← stream_length s; out ← elements u32 [] r; if zlen out =? e then Some out else None.

Lemma length_bytes_range n : forall result shift s e r,
  0 <= result < 2 ^ 32 -> length_bytes n result shift s = Some (e, r) -> 0 <= e < 2 ^ 32 /\ (length r < length s)%nat /\ (bytes_ok s -> bytes_ok r).
Proof.
  induction n as [|n IH]; intros result shift [|c s] e r Hr E; cbn [length_bytes] in E; try done. pose proof (u32_range (Z.land c 127 ≪ shift)) as Hu.
  assert (Hl : 0 <= Z.lor result (u32 (Z.land c 127 ≪ shift)) < 2 ^ 32) by (apply (lor_range 32); lia). case_if_in E.
  - injection E as <- <-. split_and!; [lia..|cbn; lia|]. by intros [_ ?]%Forall_cons.
  - destruct (IH _ _ _ _ _ Hl E) as (? & ? & Hb). split_and!; [lia..|cbn; lia|]. intros [_ Hs]%Forall_cons. by apply Hb.
Qed.

Lemma read_length_spec n fuel : forall result shift reader s,
  left reader s -> (n < fuel)%nat -> shift = 7 * (5 - Z.of_nat n) -> (n <= 5)%nat ->
  exists o reader', read_length fuel result shift reader = Ok (o, reader') /\
    match length_bytes n result shift s with
    | Some (e, r) => o = Some e /\ left reader' r
    | None => o = None
    end.
Proof.
  revert fuel. induction n as [|n IH]; intros [|fuel] result shift reader s Hl Hf Hsh Hn5; try lia; cbn [read_length length_bytes].
  - rewrite (proj2 (Z.leb_le _ _)) by lia. by exists None, reader.
  - rewrite (proj2 (Z.leb_gt _ _)) by lia. destruct (left_peek reader s Hl) as (p & r & reader1 & -> & Hl1 & -> & Hnil). cbn [mbind outcome_bind].
    destruct p as [|c p]; [rewrite (Hnil eq_refl); by exists None, reader1|]. cbn [app].
    destruct (left_skip reader1 (c :: p ++ r) 1) as (reader2 & -> & Hl2); [done|rewrite zlen_cons; pose proof (zlen_nonneg (p ++ r)); lia|].
    cbn [mbind outcome_bind]. change (zdrop 1 (c :: p ++ r)) with (p ++ r) in Hl2. case_if; [by eexists _, reader2|].
    apply IH; [done|lia..].
Qed.

(** The elements after the length.  The writer is flushed whether they are right
    or not. *)
Lemma InternalUncompressAllTags_spec reader w w1 scratch e r :
  left reader r -> bytes_ok r -> zlen r < 2 ^ 32 -> zlen scratch = 5 -> bytes_ok scratch ->
  SetExpectedLength e w = Ok w1 -> holds w1 e [] ->
  exists result d w2 w', InternalUncompressAllTags (new_decompressor reader scratch) w e = Ok (result, d, w') /\
    closable d /\ flushable w2 e /\ Flush w2 = Ok w' /\
    result = (match elements u32 [] r with Some out => zlen out =? e | None => false end) /\
    (forall out, elements u32 [] r = Some out -> zlen out = e -> holds w2 e out /\ left (reader_ d) [] /\ peeked_ d = 0).
Proof.
  intros Hl Hb Hrl Hs Hbs Ew Hw1. unfold InternalUncompressAllTags, DecompressAllTags. rewrite Ew. cbn [mbind outcome_bind].
  pose proof (new_remains reader scratch r Hl Hb Hrl Hs Hbs) as Hrem. destruct (MAYBE_REFILL_spec _ r Hrem Hrl) as (ok & d & -> & Hd). cbn [mbind outcome_bind].
  change (reader_ (new_decompressor reader scratch)) with reader. rewrite (left_available reader r Hl).
  assert (Hall : exists d' w', (if negb ok then Ok (d, w1) else tags (Datatypes.S (Z.to_nat (zlen r))) d w1) = Ok (d', w') /\ all_done e [] r d' w').
  { destruct ok; cbn [negb]; [|exists d, w1; split; [done|by apply refilled_done]]. apply tags_spec; (done || lia). }
  destruct Hall as (d' & w2 & -> & Hcl & Hfl & Hall). cbn [mbind outcome_bind]. destruct (flush_total w2 e Hfl) as [w3 Ef]. rewrite Ef. cbn [mbind outcome_bind].
  eexists _, d', w2, w3. split_and!; [done..| |].
  - destruct (elements u32 [] r) as [out|]; [|by rewrite Hall]. destruct (zlen out <=? e) eqn:Ele; zbool.
    + destruct Hall as (-> & Hw2 & _). by rewrite (holds_flush w2 e out w3 Hw2 Ef).
    + rewrite Hall. cbn [andb]. symmetry. apply Z.eqb_neq. lia.
  - intros out Eo Hz. rewrite Eo in Hall. rewrite (proj2 (Z.leb_le _ e)) in Hall by lia. tauto.
Qed.

(** The whole decompression: the writer holds what the format says, or the
    stream is refused. *)
Lemma InternalUncompress_spec reader w scratch s :
  left reader s -> bytes_ok s -> zlen s < 2 ^ 32 -> zlen scratch = 5 -> bytes_ok scratch ->
  (forall e r, stream_length s = Some (e, r) -> exists w', SetExpectedLength e w = Ok w' /\ holds w' e []) ->
  exists result reader' w', InternalUncompress reader w scratch = Ok (result, reader', w') /\
    match code_decode s with
    | Some out => result = true /\ left reader' [] /\ exists w1, holds w1 (zlen out) out /\ Flush w1 = Ok w'
    | None => result = false
    end.
Proof.
  intros Hl Hb Hlt Hs Hbs Hnew. unfold InternalUncompress, ReadUncompressedLength, code_decode.
  destruct (read_length_spec 5 6 0 0 reader s Hl) as (o & reader1 & -> & Ho); [lia..|]. cbn [mbind outcome_bind]. fold (stream_length s) in Ho.
  destruct (stream_length s) as [[e r]|] eqn:El; [|subst o; by exists false, reader1, w]. destruct Ho as [-> Hl1].
  destruct (length_bytes_range 5 0 0 s e r ltac:(lia) El) as (He & Hlen & Hbr). specialize (Hbr Hb). assert (Hrl : zlen r < 2 ^ 32) by (unfold zlen in *; lia).
  destruct (Hnew e r eq_refl) as (w1 & Ew & Hw1).
  destruct (InternalUncompressAllTags_spec reader1 w w1 scratch e r) as (result & d & w2 & w3 & -> & (l & Hl2 & Hpk) & _ & Ef & -> & Hok); [done..|]. cbn [mbind outcome_bind option_bind].
  unfold delete_decompressor. destruct (left_skip _ l _ Hl2 Hpk) as (reader2 & Esk & Hl3). rewrite Esk. cbn [mbind outcome_bind]. eexists _, reader2, w3. split; [done|].
  destruct (elements u32 [] r) as [out|]; cbn [mbind option_bind]; [|done]. destruct (zlen out =? e) eqn:Ee; zbool; [|done]. subst e.
  destruct (Hok out eq_refl eq_refl) as (Hw2 & Hl4 & Hp0). split_and!; [done| |by exists w2].
  destruct (left_skip _ [] 0 Hl4) as (reader3 & Esk3 & Hl5); [done|]. rewrite Hp0, Esk3 in Esk. injection Esk as <-. done.
Qed.
End spec.
