(* ===== verification/SnappyReference.v ===== *)
(** * The decompressors of the code and the Snappy format

    The decoder of the format ([SnappyFormat.snappy_decode]) counts without
    bounds, the decompressors with 32 bits.  The lemmas say where this makes a
    difference. *)

From S2P Require Import Prelude Bits Buffers SnappyFormat SnappyStubs SnappyFragment SnappyEncode SnappyIO SnappyCompress SnappyWriters.
From S2P Require Import SnappyArrayWriter SnappyValidator SnappyIOVecWriter SnappyScatteredWriter SnappyDecompress SnappyDecompressSpec.
Local Open Scope Z_scope.

(** ** Where 32 bits are not enough *)

(** The elements have a literal whose length field is 2^32 - 1. *)
Inductive long_literal : list Z -> Prop :=
| long_here r : long_literal ([252; 255; 255; 255; 255] ++ r)
| long_later s e r : next_element id s = Some (e, r) -> long_literal r -> long_literal s.

(** The two kinds of streams whose numbers do not fit into the variables of the
    code: the announced length is 2^32 or more, or there is such a literal. *)
Definition wraps (s : list Z) : Prop := exists len r, varint 5 s = Some (len, r) /\ (2 ^ 32 <= len \/ long_literal r).

(** ** The comparison *)

Lemma u32_shiftl x k : 0 <= x -> 0 <= k <= 32 -> u32 (Z.shiftl x k) = Z.shiftl (x `mod` 2 ^ (32 - k)) k.
Proof.
  intros Hx Hk. unfold u32. rewrite !Z.shiftl_mul_pow2 by lia. change 4294967296 with (2 ^ 32).
  replace (2 ^ 32) with (2 ^ (32 - k) * 2 ^ k) by (rewrite <- Z.pow_add_r by lia; f_equal; lia).
  by rewrite Z.mul_mod_distr_r by (apply Z.pow_nonzero; lia).
Qed.

Lemma varint_range n : forall s v r, bytes_ok s -> varint n s = Some (v, r) -> 0 <= v /\ (length r < length s)%nat /\ bytes_ok r.
Proof.
  induction n as [|n IH]; intros [|c s] v r Hb E; cbn [varint] in E; try done. apply Forall_cons in Hb as [Hc Hb]. unfold byte_ok in Hc.
  case_if_in E; zbool; [injection E as <- <-; split_and!; [lia|cbn; lia|done]|].
  destruct (varint n s) as [[v' r']|] eqn:Ev; [|done]. injection E as <- <-. destruct (IH _ _ _ Hb Ev) as (? & ? & ?). split_and!; [dlia|cbn; lia|done].
Qed.

(** The length that the code reads is the announced one, without the bits above 32. *)
Lemma length_bytes_varint n : forall k result s,
  bytes_ok s -> k = 7 * (5 - Z.of_nat n) -> (n <= 5)%nat -> 0 <= result < 2 ^ k ->
  length_bytes n result k s = (fun '(v, r) => (u32 (result + v * 2 ^ k), r)) <$> varint n s.
Proof.
  induction n as [|n IH]; intros k result [|c s] Hb Hk Hn Hr; cbn [length_bytes varint]; try done.
  apply Forall_cons in Hb as [Hc Hb]. unfold byte_ok in Hc. rewrite land_low7. set (d := c `mod` 128) in *. assert (0 <= d < 128) by (subst d; dlia).
  assert (E : Z.lor result (u32 (Z.shiftl d k)) = u32 (result + d * 2 ^ k)).
  { rewrite u32_shiftl, (lor_fields k) by lia. unfold u32. change 4294967296 with (2 ^ 32).
    pose proof (Z.mod_pos_bound d (2 ^ (32 - k)) ltac:(apply Z.pow_pos_nonneg; lia)) as Hm. pose proof (Z.div_mod d (2 ^ (32 - k)) ltac:(apply Z.pow_nonzero; lia)) as Hd.
    assert (Hp : 2 ^ 32 = 2 ^ (32 - k) * 2 ^ k) by (rewrite <- Z.pow_add_r by lia; f_equal; lia). set (q := d / 2 ^ (32 - k)) in *.
    replace (result + d * 2 ^ k) with (result + d `mod` 2 ^ (32 - k) * 2 ^ k + q * 2 ^ 32) by (rewrite Hp; rewrite Hd at 2; ring).
    rewrite Z.mod_add by lia. symmetry. apply Z.mod_small. rewrite Hp. nia. }
  rewrite E. case_if; zbool; [cbn [fmap option_fmap option_map]; do 3 f_equal; subst d; rewrite Z.mod_small by lia; done|].
  destruct n as [|n]; [done|]. assert (Hk7 : 2 ^ (k + 7) = 128 * 2 ^ k) by (rewrite Z.pow_add_r by lia; lia).
  assert (2 ^ (k + 7) <= 2 ^ 28) by (apply Z.pow_le_mono_r; lia). rewrite u32_small by nia.
  rewrite IH by (done || lia || nia). destruct (varint (Datatypes.S n) s) as [[v r]|]; [|done]. cbn [fmap option_fmap option_map mbind option_bind]. do 3 f_equal. rewrite Hk7. ring.
Qed.

Lemma stream_length_varint s : bytes_ok s -> stream_length s = (fun '(v, r) => (u32 v, r)) <$> varint 5 s.
Proof.
  intros Hb. unfold stream_length. rewrite (length_bytes_varint 5 0 0 s) by (done || lia). destruct (varint 5 s) as [[v r]|]; [|done].
  cbn [fmap option_fmap option_map]. do 3 f_equal. lia.
Qed.

(** The two readings of an element. *)
Lemma next_element_format s : bytes_ok s -> zlen s < 2 ^ 32 ->
  next_element u32 s = next_element id s \/
  exists r, s = [252; 255; 255; 255; 255] ++ r /\ next_element u32 s = Some (Literal [], r) /\ next_element id s = None.
Proof.
  intros Hb Hlt. destruct s as [|c s]; [by left|]. apply Forall_cons in Hb as [Hc Hb]. unfold byte_ok in Hc. rewrite zlen_cons in Hlt. cbn [next_element].
  case_if; zbool; [|by left].
  case_if; zbool; cbn [mbind option_bind]; [left; by rewrite u32_small by dlia|].
  destruct (split_at (c / 4 - 59) s) as [[l r]|] eqn:Es; [|by left]. cbn [mbind option_bind]. apply split_at_spec in Es as (Hz & El & Er).
  assert (Hl : zlen l = c / 4 - 59) by (rewrite El; apply zlen_ztake; dlia). assert (Hbl : bytes_ok l) by (rewrite El; by apply Forall_take).
  pose proof (le_word_range l Hbl) as Hw. assert (c / 4 - 59 <= 4) by dlia. assert (256 ^ zlen l <= 2 ^ 32) by (change (2 ^ 32) with (256 ^ 4); apply Z.pow_le_mono_r; lia).
  destruct (Z.eq_dec (le_word l) (2 ^ 32 - 1)) as [Emax|]; [right|left; by rewrite u32_small by lia].
  assert (l = [255; 255; 255; 255] /\ c = 252) as [-> ->].
  { assert (zlen l = 4) as H4. { destruct (Z.le_gt_cases (zlen l) 3) as [H3|]; [|lia]. assert (256 ^ zlen l <= 256 ^ 3) by (apply Z.pow_le_mono_r; lia). lia. }
    split; [|dlia]. destruct l as [|b0 [|b1 [|b2 [|b3 [|b4 l]]]]]; unfold zlen in H4; cbn [length] in H4; try lia.
    unfold bytes_ok in Hbl. repeat match goal with H : Forall _ (_ :: _) |- _ => apply Forall_cons in H as [? H] end. rewrite !le_word_cons in Emax by done. unfold byte_ok in *.
    change (le_word []) with 0 in Emax. repeat f_equal; lia. }
  exists r. rewrite Emax. split_and!.
  - assert (s = [255; 255; 255; 255] ++ r) as -> by (rewrite El, Er; symmetry; apply ztake_zdrop). done.
  - change (u32 (2 ^ 32 - 1 + 1)) with 0. unfold split_at. pose proof (zlen_nonneg r). rewrite (proj2 (Z.leb_le 0 _)) by lia. done.
  - unfold split_at, id. assert (zlen r <= zlen s) by (rewrite Er; unfold zlen; pose proof (zdrop_length (252 / 4 - 59) s); lia). rewrite (proj2 (Z.leb_gt _ _)) by lia. done.
Qed.

Lemma next_element_bytes s e r : bytes_ok s -> next_element u32 s = Some (e, r) -> bytes_ok r.
Proof.
  assert (H : forall n s a b, bytes_ok s -> split_at n s = Some (a, b) -> bytes_ok b).
  { intros n t a b Ht (_ & _ & ->)%split_at_spec. by apply Forall_drop. }
  destruct s as [|c s]; [done|]. intros [_ Hs]%Forall_cons E. cbn [next_element] in E.
  repeat case_if_in E; repeat match type of E with
  | (split_at ?n ?s ≫= _) = _ => destruct (split_at n s) as [[? ?]|] eqn:Es; [|done]; apply H in Es; [|done]; cbn [mbind option_bind] in E
  | (Some _ ≫= _) = _ => cbn [mbind option_bind] in E
  | ((?m ≫= _) ≫= _) = _ => destruct m as [[? ?]|] eqn:Em; [|done]; apply H in Em; [|done]; cbn [mbind option_bind] in E
  end; injection E as <- <-; done.
Qed.

Lemma run_elements_format fuel : forall out s, bytes_ok s -> zlen s < 2 ^ 32 ->
  run_elements u32 fuel out s = run_elements id fuel out s \/ run_elements id fuel out s = None /\ long_literal s.
Proof.
  induction fuel as [|fuel IH]; intros out [|c s] Hb Hlt; try by left. cbn [run_elements].
  destruct (next_element_format (c :: s) Hb Hlt) as [E|(r & Es & _ & E)]; [|right; rewrite E; split; [done|rewrite Es; constructor]].
  rewrite E. destruct (next_element id (c :: s)) as [[e r]|] eqn:Ef; [|by left]. cbn [mbind option_bind]. destruct (produce e out) as [out'|]; [|by left]. cbn [mbind option_bind].
  pose proof (next_element_shorter _ _ _ _ E) as Hl. destruct (IH out' r) as [IHe|[IHe Hlong]]; [by eapply next_element_bytes|unfold zlen in *; lia|by left|right].
  split; [done|]. by eapply long_later.
Qed.

(** The decompressors accept the valid streams with their data, and of the others
    at most those whose numbers wrap. *)
Lemma code_decode_format s : bytes_ok s -> zlen s < 2 ^ 32 -> code_decode s = snappy_decode s \/ snappy_decode s = None /\ wraps s.
Proof.
  intros Hb Hlt. unfold code_decode, snappy_decode. rewrite stream_length_varint by done. destruct (varint 5 s) as [[len r]|] eqn:Ev; [|by left].
  destruct (varint_range 5 s len r Hb Ev) as (H0 & Hl & Hbr). cbn [fmap option_fmap option_map mbind option_bind].
  case_if; zbool; [right; split; [done|]; exists len, r; auto|]. rewrite u32_small by lia.
  destruct (run_elements_format (length r) [] r Hbr) as [E|[E Hlong]]; [unfold zlen in *; lia| |].
  - left. unfold elements. by rewrite E.
  - right. unfold elements. rewrite E. split; [done|]. exists len, r. auto.
Qed.
