(* ===== verification/Snappy.v ===== *)
(** * [flare/io/snappy]: the interface

    The functions of [snappy.h] and of [rpc/policy/snappy_compress.cc], and what
    they promise. *)

From S2P Require Import Prelude Bits Buffers SnappyFormat SnappyStubs SnappyFragment SnappyEncode SnappyIO SnappyCompress SnappyWriters.
From S2P Require Import SnappyArrayWriter SnappyValidator SnappyIOVecWriter SnappyScatteredWriter SnappyDecompress SnappyDecompressSpec SnappyReference.
Local Open Scope Z_scope.

(** ** Operations *)

Definition GetUncompressedLength (s : list Z) : option Z := fst <$> Parse32WithLimit s.

(** [scratch] are the bytes of the decompressor that are not set. *)
Section sources.
Context {S : Type} `{Source S}.

Definition SourceGetUncompressedLength (source : S) : outcome (option Z * S) := ReadUncompressedLength source.

Definition RawUncompress (compressed : S) (uncompressed scratch : list Z) : outcome (bool * S * list Z) :=
  '(ok, compressed, w) ← InternalUncompress compressed (new_array uncompressed) scratch; Ok (ok, compressed, mem w).

Definition RawUncompressToIOVec (compressed : S) (iov : list (list Z)) (scratch : list Z) : outcome (bool * S * list (list Z)) :=
  '(ok, compressed, w) ← InternalUncompress compressed (new_iovec iov) scratch; Ok (ok, compressed, output_iov_ w).

Definition IsValidCompressed (compressed : S) (scratch : list Z) : outcome (bool * S) :=
  '(ok, compressed, _) ← InternalUncompress compressed new_validator scratch; Ok (ok, compressed).

Context {K : Type} `{Sink K}.

Definition UncompressAsMuchAsPossible (compressed : S) (uncompressed : K) (scratch : list Z) : outcome (Z * S * K) :=
  '(_, compressed, w) ← InternalUncompress compressed (new_scattered uncompressed) scratch; Ok (SnappyScatteredWriter.Produced w, compressed, dest_ w).

(** [c] is the one byte that a sink without a flat buffer gives back. *)
Definition Uncompress (compressed : S) (uncompressed : K) (scratch c : list Z) : outcome (bool * S * K) :=
  '(len, compressed) ← ReadUncompressedLength compressed;
  match len with
  | None => Ok (false, compressed, uncompressed)
  | Some uncompressed_len =>
      let decompressor := new_decompressor compressed scratch in
      '(place, allocated_size, uncompressed) ← GetAppendBufferVariable 1 uncompressed_len uncompressed;
      if uncompressed_len <=? allocated_size then
        let '(m, buf) := match place with Some p => p | None => (c, 0) end in
        '(result, decompressor, w) ← InternalUncompressAllTags decompressor (new_array (zdrop buf m)) uncompressed_len;
        uncompressed ←
          (match place with
           | Some _ => AppendOwn (ztake buf m ++ mem w) (SnappyArrayWriter.Produced w) uncompressed
           | None => s ← mread (mem w) 0 (SnappyArrayWriter.Produced w); SnappyIO.Append s uncompressed
           end);
        compressed ← delete_decompressor decompressor;
        Ok (result, compressed, uncompressed)
      else
        '(result, decompressor, w) ← InternalUncompressAllTags decompressor (new_scattered uncompressed) uncompressed_len;
        compressed ← delete_decompressor decompressor;
        Ok (result, compressed, dest_ w)
  end.
End sources.

Definition IsValidCompressedBuffer (compressed scratch : list Z) : outcome bool :=
  '(ok, _) ← IsValidCompressed (array_source compressed) scratch; Ok ok.

(** [Uncompress] into a string: resized, then filled. *)
Definition UncompressString (compressed uncompressed scratch : list Z) : outcome (bool * list Z) :=
  match GetUncompressedLength compressed with
  | None => Ok (false, uncompressed)
  | Some ulength =>
      let uncompressed := ztake ulength (uncompressed ++ replicate (Z.to_nat ulength) 0) in
      '(ok, _, uncompressed) ← RawUncompress (array_source compressed) uncompressed scratch; Ok (ok, uncompressed)
  end.

(** ** Lengths *)

(** [Parse32WithLimit] reads the varint of the format. *)
Lemma Parse32_varint s e r : bytes_ok s -> Parse32WithLimit s = Some (e, r) -> varint 5 s = Some (e, r) /\ e < 2 ^ 32.
Proof.
  intros Hb. assert (Hf : forall w x y, 0 <= w -> 0 <= x < 2 ^ w -> Z.lor x (Z.shiftl y w) = x + y * 2 ^ w) by (intros; by apply lor_fields).
  assert (Hd : forall b : Z, 0 <= b `mod` 128 < 128) by (intros; dlia).
  do 5 (destruct s as [|? s]; [done|]; apply Forall_cons in Hb as [? Hb]; unfold byte_ok in *; cbn [Parse32WithLimit varint]; rewrite ?land_low7;
    case_if; zbool; [intros [= <- <-]; rewrite ?(u32_small (Z.shiftl _ 28)) by (rewrite Z.shiftl_mul_pow2 by lia; dlia); rewrite ?(Hf 7) by dlia; rewrite ?(Hf 14) by dlia; rewrite ?(Hf 21) by dlia; rewrite ?(Hf 28) by dlia;
      repeat (rewrite (proj2 (Z.ltb_lt _ 128)) by lia); cbn [mbind option_bind]; (split; [do 2 f_equal|]; dlia)|]; cbn [Parse32WithLimit varint]).
  done.
Qed.

(** ** Decompression into each writer *)

Section spec.
Context {S : Type} `{SourceLaws S}.
Variables (reader : S) (s scratch : list Z).
Hypothesis reader_left : left reader s.
Hypothesis s_bytes : bytes_ok s.
Hypothesis s_length : zlen s < 2 ^ 32.
Hypothesis scratch_length : zlen scratch = 5.
Hypothesis scratch_bytes : bytes_ok scratch.

(** There is room for the length that the stream announces, a 32-bit number in
    the code. *)
Definition room_for (room : Z) : Prop := forall len r, varint 5 s = Some (len, r) -> u32 len <= room.

Lemma room_for_length room e r : room_for room -> stream_length s = Some (e, r) -> e <= room.
Proof using s_bytes.
  intros Hr E. rewrite stream_length_varint in E by done. destruct (varint 5 s) as [[len r']|] eqn:Ev; [|done]. injection E as <- <-. by eapply Hr.
Qed.

Lemma stream_length_range e r : stream_length s = Some (e, r) -> 0 <= e < 2 ^ 32 /\ bytes_ok r /\ zlen r < 2 ^ 32.
Proof using All.
  intros El. destruct (length_bytes_range 5 0 0 s e r ltac:(lia) El) as (He & Hlen & Hbr). specialize (Hbr s_bytes). split_and!; [lia..|done|]. unfold zlen in *. lia.
Qed.

Lemma RawUncompress_spec dst : room_for (zlen dst) ->
  exists ok reader' dst', RawUncompress reader dst scratch = Ok (ok, reader', dst') /\
    match code_decode s with
    | Some out => ok = true /\ left reader' [] /\ ztake (zlen out) dst' = out /\ zlen dst' = zlen dst
    | None => ok = false
    end.
Proof using All.
  intros Hroom. destruct (InternalUncompress_spec (H2 := SnappyArrayWriter_laws (zlen dst)) reader (new_array dst) scratch s) as (ok & reader' & w & E & Hok); [done..| |].
  { intros e r El. destruct (stream_length_range e r El) as (He & _). apply new_array_holds; [done|by eapply room_for_length]. }
  unfold RawUncompress. rewrite E. cbn [mbind outcome_bind]. exists ok, reader', (mem w). split; [done|]. destruct (code_decode s) as [out|]; [|done].
  destruct Hok as (-> & Hl & w1 & (_ & _ & _ & _ & Ht & _ & Hz) & [= <-]). by split_and!.
Qed.

Lemma IsValidCompressed_spec :
  exists reader', IsValidCompressed reader scratch = Ok (match code_decode s with Some _ => true | None => false end, reader').
Proof using All.
  destruct (InternalUncompress_spec reader new_validator scratch s) as (ok & reader' & w & E & Hok); [done..| |].
  { intros e r El. destruct (stream_length_range e r El) as (He & _). by apply new_validator_holds. }
  unfold IsValidCompressed. rewrite E. cbn [mbind outcome_bind]. exists reader'. do 2 f_equal. destruct (code_decode s); [apply Hok|done].
Qed.

Lemma RawUncompressToIOVec_spec iov : room_for (zlen (concat iov)) ->
  exists ok reader' iov', RawUncompressToIOVec reader iov scratch = Ok (ok, reader', iov') /\
    match code_decode s with
    | Some out => ok = true /\ left reader' [] /\ ztake (zlen out) (concat iov') = out
    | None => ok = false
    end.
Proof using All.
  intros Hroom. destruct (InternalUncompress_spec reader (new_iovec iov) scratch s) as (ok & reader' & w & E & Hok); [done..| |].
  { intros e r El. destruct (stream_length_range e r El) as (He & _). apply new_iovec_holds; [done|by eapply room_for_length]. }
  unfold RawUncompressToIOVec. rewrite E. cbn [mbind outcome_bind]. exists ok, reader', (output_iov_ w). split; [done|]. destruct (code_decode s) as [out|]; [|done].
  destruct Hok as (-> & Hl & w1 & Hw1 & [= <-]). split_and!; [done..|]. by eapply iovec_holds_front.
Qed.

Context {K : Type} `{SinkLaws K}.

(** The flat buffer of the sink, or the byte of the caller. *)
Lemma uncompress_flat (k : K) out0 room e r place c m buf (reader1 : S) :
  left reader1 r -> bytes_ok r -> zlen r < 2 ^ 32 -> 0 <= e < 2 ^ 32 -> e <= room -> appended k out0 room ->
  (m, buf) = match place with Some p => p | None => (c, 0) end ->
  0 <= buf -> buf + e <= zlen m ->
  (place <> None -> forall t m', wrote buf m t m' -> zlen t <= e -> exists k2, AppendOwn m' (zlen t) k = Ok k2 /\ appended k2 (out0 ++ t) (room - zlen t)) ->
  exists ok reader' k2,
    ('(result, decompressor, w) ← InternalUncompressAllTags (new_decompressor reader1 scratch) (new_array (zdrop buf m)) e;
     uncompressed ←
       (match place with
        | Some _ => AppendOwn (ztake buf m ++ mem w) (SnappyArrayWriter.Produced w) k
        | None => s ← mread (mem w) 0 (SnappyArrayWriter.Produced w); SnappyIO.Append s k
        end);
     compressed ← delete_decompressor decompressor;
     Ok (result, compressed, uncompressed)) = Ok (ok, reader', k2) /\
    match elements u32 [] r with
    | Some out => if zlen out =? e then ok = true /\ left reader' [] /\ appended k2 (out0 ++ out) (room - zlen out) else ok = false
    | None => ok = false
    end.
Proof using All.
  intros Hl Hb Hlt He Hroom Hk Hmb Hbuf Hfit Hown. destruct (new_array_holds (zdrop buf m) e He) as (w0 & Ew & Hw0); [rewrite zlen_zdrop; lia|].
  destruct (InternalUncompressAllTags_spec (H2 := SnappyArrayWriter_laws (zlen (zdrop buf m))) reader1 _ w0 scratch e r Hl Hb Hlt scratch_length scratch_bytes Ew Hw0) as (ok & d & w & w' & -> & (l & Hl2 & Hpk) & (t & Ht) & [= <-] & -> & Hdone).
  cbn [mbind outcome_bind]. pose proof Ht as (Ho & Hlim & Hte & Hm & Htk & Hbt & Hsz). unfold SnappyArrayWriter.Produced. rewrite Ho.
  assert (Happ : exists k2, (match place with Some _ => AppendOwn (ztake buf m ++ mem w) (zlen t) k | None => s ← mread (mem w) 0 (zlen t); SnappyIO.Append s k end) = Ok k2 /\
    appended k2 (out0 ++ t) (room - zlen t)).
  { pose proof (zlen_nonneg t). destruct place as [p|].
    - apply Hown; [done| |lia]. rewrite zlen_zdrop in Hsz by lia. assert (Hz : zlen (ztake buf m) = buf) by (apply zlen_ztake; lia).
      split_and!; [lia|rewrite zlen_app; lia|lia| |done]. rewrite ztake_app_ge by lia. by replace (buf + zlen t - zlen (ztake buf m)) with (zlen t) by lia; rewrite Htk.
    - rewrite mread_ok by lia. cbn [mbind outcome_bind]. rewrite part_0, Htk. apply append_law; [done..|lia]. }
  destruct Happ as (k2 & -> & Hk2). cbn [mbind outcome_bind]. unfold delete_decompressor. destruct (left_skip _ l _ Hl2 Hpk) as (reader2 & Esk & Hl3). rewrite Esk. cbn [mbind outcome_bind].
  eexists _, reader2, k2. split; [done|]. destruct (elements u32 [] r) as [out|]; [|done]. destruct (zlen out =? e) eqn:Ee; zbool; [|done].
  destruct (Hdone out eq_refl Ee) as (Hw2 & Hl4 & Hp0). destruct Hw2 as (Ho2 & _ & _ & _ & Htk2 & _). assert (t = out) as <- by (rewrite <- Htk, <- Htk2; congruence).
  split_and!; [done| |done]. destruct (left_skip _ [] 0 Hl4) as (reader3 & Esk3 & Hl5); [done|]. rewrite Hp0, Esk3 in Esk. injection Esk as <-. done.
Qed.

(** Block by block. *)
Lemma uncompress_scattered (k : K) out0 room e r (reader1 : S) :
  left reader1 r -> bytes_ok r -> zlen r < 2 ^ 32 -> 0 <= e < 2 ^ 32 -> e <= room -> appended k out0 room ->
  exists ok reader' k2,
    ('(result, decompressor, w) ← InternalUncompressAllTags (new_decompressor reader1 scratch) (new_scattered k) e;
     compressed ← delete_decompressor decompressor;
     Ok (result, compressed, dest_ w)) = Ok (ok, reader', k2) /\
    match elements u32 [] r with
    | Some out => if zlen out =? e then ok = true /\ left reader' [] /\ appended k2 (out0 ++ out) (room - zlen out) else ok = false
    | None => ok = false
    end.
Proof using All.
  intros Hl Hb Hlt He Hroom Hk. destruct (new_scattered_holds out0 room k e Hk He Hroom) as (w0 & Ew & Hw0).
  destruct (InternalUncompressAllTags_spec (H2 := SnappyScatteredWriter_laws out0 room) reader1 _ w0 scratch e r Hl Hb Hlt scratch_length scratch_bytes Ew Hw0)
    as (ok & d & w & w' & -> & (l & Hl2 & Hpk) & _ & Ef & -> & Hdone).
  cbn [mbind outcome_bind]. unfold delete_decompressor. destruct (left_skip _ l _ Hl2 Hpk) as (reader2 & Esk & Hl3). rewrite Esk. cbn [mbind outcome_bind].
  eexists _, reader2, _. split; [done|]. destruct (elements u32 [] r) as [out|]; [|done]. destruct (zlen out =? e) eqn:Ee; zbool; [|done].
  destruct (Hdone out eq_refl Ee) as (Hw2 & Hl4 & Hp0). split_and!; [done| |apply (scattered_holds_sink out0 room w e out w' Hw2 Ef)].
  destruct (left_skip _ [] 0 Hl4) as (reader3 & Esk3 & Hl5); [done|]. rewrite Hp0, Esk3 in Esk. injection Esk as <-. done.
Qed.

Lemma Uncompress_spec (k : K) out0 room c : appended k out0 room -> room_for room -> 0 <= room -> zlen c = 1 ->
  exists ok reader' k', Uncompress reader k scratch c = Ok (ok, reader', k') /\
    match code_decode s with
    | Some out => ok = true /\ left reader' [] /\ appended k' (out0 ++ out) (room - zlen out)
    | None => ok = false
    end.
Proof using All.
  intros Hk Hroom H0r Hc. unfold Uncompress, ReadUncompressedLength, code_decode.
  destruct (read_length_spec 5 6 0 0 reader s reader_left) as (o & reader1 & -> & Ho); [lia..|]. cbn [mbind outcome_bind]. fold (stream_length s) in Ho.
  destruct (stream_length s) as [[e r]|] eqn:El; [|subst o; by exists false, reader1, k]. destruct Ho as [-> Hl1]. destruct (stream_length_range e r El) as (He & Hbr & Hrl).
  apply (room_for_length _ e r) in Hroom; [|done]. destruct (variable_law k out0 room e Hk ltac:(lia)) as (place & allocated & k1 & -> & Hplace). cbn [mbind outcome_bind option_bind].
  match goal with |- exists _ _ _, ?X = _ /\ _ => enough (exists ok reader' k', X = Ok (ok, reader', k') /\
    match elements u32 [] r with
    | Some out => if zlen out =? e then ok = true /\ left reader' [] /\ appended k' (out0 ++ out) (room - zlen out) else ok = false
    | None => ok = false
    end) as (ok & reader' & k' & E & Hres) end.
  { exists ok, reader', k'. split; [exact E|]. destruct (elements u32 [] r) as [out|]; cbn [mbind option_bind]; [|done]. by destruct (zlen out =? e). }
  destruct place as [[m buf]|]; [destruct Hplace as (Hbuf & Hm & Har & Hk1 & Hown)|destruct Hplace as [-> Hk1]]; (case_if; zbool; [|by apply uncompress_scattered]).
  - apply (uncompress_flat k1 out0 room e r (Some (m, buf)) c m buf); try done; [lia|]. intros _ t m' W Ht. apply Hown; [done|lia].
  - apply (uncompress_flat k1 out0 room e r None c c 0); try done; lia.
Qed.
End spec.

(** ** Compression *)

Lemma stream_of_nonempty c x : stream_of c x -> 0 < zlen c.
Proof. intros (s & -> & _). rewrite zlen_app. pose proof (Encode32_length (zlen x)). pose proof (zlen_nonneg s). lia. Qed.

(** What is compressed is a stream of the format, and decompressed. *)
Lemma stream_of_decode c x : stream_of c x -> zlen x < 2 ^ 32 -> zlen c < 2 ^ 32 ->
  bytes_ok c /\ snappy_decode c = Some x /\ code_decode c = Some x /\ GetUncompressedLength c = Some (zlen x) /\ room_for c (zlen x).
Proof.
  intros (s & -> & Hs & Hd) Hx Hc. pose proof (zlen_nonneg x). assert (Hb : bytes_ok (Encode32 (zlen x) ++ s)) by (apply Forall_app; split; [apply Encode32_bytes|done]).
  pose proof (Parse32_Encode32 (zlen x) s ltac:(lia)) as Hp. destruct (Parse32_varint _ _ _ Hb Hp) as [Hv _].
  assert (Hdec : snappy_decode (Encode32 (zlen x) ++ s) = Some x).
  { pose proof (Hd [] []) as E. rewrite !app_nil_r, elements_nil in E. cbn [app] in E. unfold snappy_decode. rewrite Hv. cbn [mbind option_bind].
    rewrite (proj2 (Z.leb_gt _ _)), E by lia. cbn [mbind option_bind]. by rewrite Z.eqb_refl. }
  split_and!; [done..| | |].
  - destruct (code_decode_format _ Hb Hc) as [->|[E _]]; congruence.
  - unfold GetUncompressedLength. by rewrite Hp.
  - intros len r El. rewrite El in Hv. injection Hv as -> _. rewrite u32_small; lia.
Qed.

Lemma RawCompress_spec x buf : bytes_ok x -> zlen x < 2 ^ 32 -> MaxCompressedLength (zlen x) <= zlen buf ->
  exists buf' c, RawCompress x buf = Ok (buf', zlen c) /\ ztake (zlen c) buf' = c /\ stream_of c x /\ zlen c <= MaxCompressedLength (zlen x).
Proof.
  intros Hx Hlt Hbuf. unfold RawCompress. pose proof (zlen_nonneg x).
  destruct (Compress_spec (array_source x) (mk_array_sink buf 0) x [] (zlen buf)) as (c & r & w & -> & _ & (_ & Hd & _ & Hp) & Hst & Hc); [apply array_source_left; lia|done|lia| |done|].
  { unfold appended, UncheckedByteArraySink_laws, array_appended. cbn [us_mem us_dest]. rewrite (@zlen_nil Z). split_and!; done || lia. }
  cbn [mbind outcome_bind app] in *. exists (us_mem w), c. split_and!; try done. do 2 f_equal. lia.
Qed.

Lemma UncompressString_spec c x old scratch :
  bytes_ok c -> zlen c < 2 ^ 32 -> zlen scratch = 5 -> bytes_ok scratch -> code_decode c = Some x -> GetUncompressedLength c = Some (zlen x) -> room_for c (zlen x) ->
  UncompressString c old scratch = Ok (true, x).
Proof.
  intros Hb Hlt Hs Hbs Hdec Hlen Hroom. unfold UncompressString. rewrite Hlen. pose proof (zlen_nonneg x). pose proof (zlen_nonneg old).
  set (dst := ztake (zlen x) (old ++ replicate (Z.to_nat (zlen x)) 0)).
  assert (Hz : zlen dst = zlen x) by (apply zlen_ztake; rewrite zlen_app; unfold zlen at 4; rewrite length_replicate; lia).
  destruct (RawUncompress_spec (array_source c) c scratch ltac:(apply array_source_left; lia) Hb Hlt Hs Hbs dst) as (ok & r & dst' & -> & Hok); [by rewrite Hz|].
  rewrite Hdec in Hok. destruct Hok as (-> & _ & Ht & Hz'). cbn [mbind outcome_bind]. rewrite <- Ht. do 2 f_equal. rewrite ztake_all; [done|lia].
Qed.

Lemma IsValidCompressedBuffer_spec c scratch : bytes_ok c -> zlen c < 2 ^ 32 -> zlen scratch = 5 -> bytes_ok scratch ->
  IsValidCompressedBuffer c scratch = Ok (match code_decode c with Some _ => true | None => false end).
Proof.
  intros Hb Hlt Hs Hbs. unfold IsValidCompressedBuffer. destruct (IsValidCompressed_spec (array_source c) c scratch) as (r & ->); try done. apply array_source_left. lia.
Qed.

(** ** Properties *)

(** C6: data of at most 3,681,400,511 bytes, for which [MaxCompressedLength] is
    less than 2^32, that [RawCompress] compresses into a buffer of as many bytes
    is given back by every decompressor: the result is a stream of the described
    format that stands for the data, the length at its front is that of the data,
    the validator accepts it, and decompression into a string and into scattered
    buffers yields the data. *)
Theorem snappy_roundtrip (x buf old scratch : list Z) :
  bytes_ok x -> 32 + zlen x + zlen x / 6 < 2 ^ 32 -> MaxCompressedLength (zlen x) <= zlen buf -> zlen scratch = 5 -> bytes_ok scratch ->
  exists buf' n, RawCompress x buf = Ok (buf', n) /\ n <= MaxCompressedLength (zlen x) /\
    let c := ztake n buf' in
    zlen c = n /\ snappy_decode c = Some x /\ GetUncompressedLength c = Some (zlen x) /\
    IsValidCompressedBuffer c scratch = Ok true /\ UncompressString c old scratch = Ok (true, x) /\
    forall iov, zlen x <= zlen (concat iov) -> exists r iov', RawUncompressToIOVec (array_source c) iov scratch = Ok (true, r, iov') /\ ztake (zlen x) (concat iov') = x.
Proof.
  intros Hx Hmax Hbuf Hs Hbs. pose proof (zlen_nonneg x). assert (Hlt : zlen x < 2 ^ 32) by dlia.
  destruct (RawCompress_spec x buf Hx Hlt Hbuf) as (buf' & c & E & Ec & Hst & Hle). pose proof (MaxCompressedLength_small (zlen x) ltac:(lia)) as Hm.
  destruct (stream_of_decode c x Hst Hlt ltac:(lia)) as (Hb & Hfmt & Hdec & Hlen & Hroom).
  exists buf', (zlen c). split_and!; [done..|]. rewrite Ec. cbv zeta. split_and!; [done..| | |].
  - by rewrite IsValidCompressedBuffer_spec, Hdec by (done || lia).
  - apply UncompressString_spec; done || lia.
  - intros iov Hiov. destruct (RawUncompressToIOVec_spec (array_source c) c scratch) with (iov := iov) as (ok & r & iov' & E' & Hok); try done; [apply array_source_left; lia|lia| |].
    { intros e r El. specialize (Hroom e r El). lia. }
    rewrite Hdec in Hok. destruct Hok as (-> & _ & Ht). by exists r, iov'.
Qed.

Lemma snappy_roundtrip_witness :
  exists buf' n, RawCompress (bs "wikiwikiwikiwikiwikiwikiwiki") (replicate 64 7) = Ok (buf', n) /\ n <= 64 /\
    UncompressString (ztake n buf') (bs "old") [1; 2; 3; 4; 5] = Ok (true, bs "wikiwikiwikiwikiwikiwikiwiki").
Proof.
  destruct (snappy_roundtrip (bs "wikiwikiwikiwikiwikiwikiwiki") (replicate 64 7) (bs "old") [1; 2; 3; 4; 5]) as (buf' & n & E & Hn & Hc);
    [by repeat constructor|done|done|done|by repeat constructor|].
  exists buf', n. split_and!; [exact E|exact Hn|apply Hc].
Defined.

(** A decompressor that has ended with [ok]: with the data of a valid stream for
    which [P] holds, and with an error on any other stream whose numbers fit into
    32 bits. *)
Definition decodes_to (s : list Z) (ok : bool) (P : list Z -> Prop) : Prop :=
  match snappy_decode s with Some out => ok = true /\ P out | None => wraps s \/ ok = false end.

Lemma decodes_to_intro s ok (P : list Z -> Prop) : bytes_ok s -> zlen s < 2 ^ 32 ->
  match code_decode s with Some out => ok = true /\ P out | None => ok = false end -> decodes_to s ok P.
Proof.
  intros Hb Hlt H. unfold decodes_to. destruct (code_decode_format s Hb Hlt) as [E|[E Hw]]; rewrite E in *; [|by left].
  destruct (snappy_decode s); [done|by right].
Qed.

(** C13: on arbitrary bytes, less than 4 GB of them, from any source that keeps
    the contract of [Source], with room for the length that the stream announces
    (modulo 2^32), the decompressors end, never leave their buffers and never run
    past the input.  On a valid stream of the described format the validator
    accepts and the flat, the scattered and the sink version yield its data.  On
    any other stream they report an error, unless the stream announces 2^32 bytes
    or more or has a literal of 2^32 bytes ([wraps]). *)
Theorem snappy_decompress_reference {S K : Type} `{SourceLaws S} `{SinkLaws K} (reader : S) (s scratch c1 : list Z) :
  left reader s -> bytes_ok s -> zlen s < 2 ^ 32 -> zlen scratch = 5 -> bytes_ok scratch -> zlen c1 = 1 ->
  (exists ok reader', IsValidCompressed reader scratch = Ok (ok, reader') /\ decodes_to s ok (fun _ => True)) /\
  (forall dst, room_for s (zlen dst) -> exists ok reader' dst', RawUncompress reader dst scratch = Ok (ok, reader', dst') /\
     decodes_to s ok (fun out => left reader' [] /\ ztake (zlen out) dst' = out /\ zlen dst' = zlen dst)) /\
  (forall iov, room_for s (zlen (concat iov)) -> exists ok reader' iov', RawUncompressToIOVec reader iov scratch = Ok (ok, reader', iov') /\
     decodes_to s ok (fun out => left reader' [] /\ ztake (zlen out) (concat iov') = out)) /\
  (forall (k : K) out0 room, appended k out0 room -> 0 <= room -> room_for s room -> exists ok reader' k', Uncompress reader k scratch c1 = Ok (ok, reader', k') /\
     decodes_to s ok (fun out => left reader' [] /\ appended k' (out0 ++ out) (room - zlen out))).
Proof.
  intros Hl Hb Hlt Hs Hbs Hc1. split_and!.
  - destruct (IsValidCompressed_spec reader s scratch) as (reader' & E); [done..|]. eexists _, reader'. split; [exact E|].
    apply decodes_to_intro; [done..|]. by destruct (code_decode s).
  - intros dst Hroom. destruct (RawUncompress_spec reader s scratch Hl Hb Hlt Hs Hbs dst Hroom) as (ok & reader' & dst' & E & Hok).
    exists ok, reader', dst'. split; [done|]. by apply decodes_to_intro.
  - intros iov Hroom. destruct (RawUncompressToIOVec_spec reader s scratch Hl Hb Hlt Hs Hbs iov Hroom) as (ok & reader' & iov' & E & Hok).
    exists ok, reader', iov'. split; [done|]. by apply decodes_to_intro.
  - intros k out0 room Hk H0r Hroom. destruct (Uncompress_spec reader s scratch Hl Hb Hlt Hs Hbs k out0 room c1 Hk Hroom H0r Hc1) as (ok & reader' & k' & E & Hok).
    exists ok, reader', k'. split; [done|]. by apply decodes_to_intro.
Qed.

(** A copy that reaches before the data, in a stream from a [cord_buf]. *)
Lemma snappy_decompress_reference_witness :
  exists r iov', RawUncompressToIOVec (cord_source_of [[4; 4; 97]; [98; 5]; [3]]) [[0; 0; 0]; [0; 0; 0]] [0; 0; 0; 0; 0] = Ok (false, r, iov').
Proof.
  destruct (snappy_decompress_reference (K := UncheckedByteArraySink) (cord_source_of [[4; 4; 97]; [98; 5]; [3]]) [4; 4; 97; 98; 5; 3] [0; 0; 0; 0; 0] [0]) as (_ & _ & Hiov & _);
    [by apply (cord_source_left [[4; 4; 97]; [98; 5]; [3]]); [repeat constructor|]|by repeat constructor|done|done|by repeat constructor|done|].
  destruct (Hiov [[0; 0; 0]; [0; 0; 0]]) as (ok & r & iov' & E & Hok); [by intros len r [= <- _]|].
  exists r, iov'. destruct Hok as [(len & t & [= <- <-] & [Hlen|Hlong])| ->]; [lia| |exact E].
  exfalso. inversion_clear Hlong as [|? e t En Hlong2]. vm_compute in En. injection En as _ <-.
  inversion_clear Hlong2 as [|? e2 t En Hlong3]. vm_compute in En. injection En as _ <-. inversion Hlong3 as [|? ? ? En]. done.
Defined.

(** ** What the code does beyond its documentation *)

(** A length that does not fit into 32 bits: the validator accepts what
    decompression into a string refuses. *)
Example validator_is_lenient :
  IsValidCompressedBuffer [128; 128; 128; 128; 16] [0; 0; 0; 0; 0] = Ok true /\
  UncompressString [128; 128; 128; 128; 16] [] [0; 0; 0; 0; 0] = Ok (false, []).
Proof. split; vm_compute; reflexivity. Qed.

(** A literal of 2^32 bytes of which none is there is taken as one of no bytes. *)
Example literal_length_wraps : UncompressString [0; 252; 255; 255; 255; 255] [] [0; 0; 0; 0; 0] = Ok (true, []).
Proof. vm_compute. reflexivity. Qed.

(** Three bytes are added to the sink, and six are reported. *)
Example as_much_as_possible_overcounts :
  exists r k, UncompressAsMuchAsPossible (array_source [3; 4; 97; 98; 16; 99; 100; 101; 102; 103]) (mk_array_sink [0; 0; 0; 0; 0; 0] 0) [0; 0; 0; 0; 0] = Ok (6, r, k) /\ k = mk_array_sink [97; 98; 99; 0; 0; 0] 3.
Proof. eexists _, _. split; vm_compute; reflexivity. Qed.
