(* ===== verification/SnappyCord.v ===== *)
(** * Compression of [cord_buf]s: [rpc/policy/snappy_compress.cc]

    [cord_buf_as_snappy_sink] of [flare/io/cord_buf.cc], a sink over the buffer,
    its stream and the memory of [CordBlocks], with the laws that compressor and
    decompressor rely on; and the two functions of the policy that put them
    between [cord_buf]s. *)

From S2P Require Import Prelude Bits Buffers SnappyFormat SnappyStubs SnappyFragment SnappyEncode SnappyIO SnappyCompress SnappyWriters.
From S2P Require Import SnappyDecompress SnappyDecompressSpec SnappyReference Snappy.
From S2P Require Import CordBlocks CordBuf CordQueue CordOps CordSpec CordAppend CordStream.
Local Open Scope Z_scope.

(** The memory, [*_buf], [_buf_stream], [_cur_buf] (block and offset) and
    [_cur_len]. *)
Record cord_sink := mk_cord_sink { k_mem : CordBlocks.mem; _buf : cord_buf; _buf_stream : output_stream; _cur_buf : Z * Z; _cur_len : Z }.

Definition new_cord_sink (m : CordBlocks.mem) (buf : cord_buf) : cord_sink := mk_cord_sink m buf new_output (0, 0) 0.

(** [_buf->append(bytes, n)]; the result is not looked at. *)
Definition sink_append (s : list Z) (k : cord_sink) : outcome cord_sink :=
  '(_, buf, m) ← append s (_buf k) (k_mem k);
  Ok (mk_cord_sink m buf (_buf_stream k) (_cur_buf k) (_cur_len k)).

(** [_buf_stream.BackUp(count); _cur_len = 0;]. *)
Definition sink_BackUp (count : Z) (k : cord_sink) : outcome cord_sink :=
  '(st, buf, m) ← output_BackUp (s32 count) (_buf_stream k) (_buf k) (k_mem k);
  Ok (mk_cord_sink m buf st (_cur_buf k) 0).

(** [AppendOwn]: the caller has written to the block of [_cur_buf]. *)
#[export] Instance cord_sink_sink : Sink cord_sink := {
  GetAppendBuffer length k :=
    if length <=? 8000 then
      '(place, st, buf, m) ← output_Next (_buf_stream k) (_buf k) (k_mem k);
      match place with
      | Some (b, off, cur_len) =>
          let k := mk_cord_sink m buf st (b, off) cur_len in
          if s32 length <=? cur_len then blk ← deref (blocks m !! b); Ok (Some (data blk, off), k)
          else k ← sink_BackUp cur_len k; Ok (None, mk_cord_sink (k_mem k) (_buf k) (_buf_stream k) (0, 0) 0)
      | None => Ok (None, mk_cord_sink m buf st (0, 0) 0)
      end
    else Ok (None, mk_cord_sink (k_mem k) (_buf k) (_buf_stream k) (0, 0) 0);
  GetAppendBufferVariable _ _ k := Ok (None, 1, k);
  AppendOwn d n k :=
    let '(b, off) := _cur_buf k in
    blk ← deref (blocks (k_mem k) !! b);
    let k := mk_cord_sink (with_blocks (<[b := set_data d blk]>) (k_mem k)) (_buf k) (_buf_stream k) (_cur_buf k) (_cur_len k) in
    if 0 <? _cur_len k then
      _ ← check (s32 n <=? _cur_len k);
      sink_BackUp (_cur_len k - n) k
    else sink_append (part off n d) k;
  Append s k :=
    if 0 <? _cur_len k then Abort
    else sink_append s k
}.

(** The destructor, which destroys the stream. *)
Definition delete_cord_sink (k : cord_sink) : outcome (cord_buf * CordBlocks.mem) :=
  '(_, m) ← _release_block (_buf_stream k) (k_mem k); Ok (_buf k, m).

(** The references of a [cord_buf] as the source that reads it. *)
Definition cord_source_in (m : CordBlocks.mem) (c : cord_buf) : cord_source := cord_source_of (map (slice m) (ref_list c)).

(** [policy::SnappyCompress] and [policy::SnappyDecompress] from one [cord_buf]
    to another.  [scratch] and [c] are memory of the decompressor that is not
    set. *)
Definition SnappyCompress (input out : cord_buf) (m : CordBlocks.mem) : outcome (bool * cord_buf * CordBlocks.mem) :=
  '(n, _, sink) ← Compress (cord_source_in m input) (new_cord_sink m out);
  '(out, m) ← delete_cord_sink sink;
  Ok (negb (n =? 0), out, m).

Definition SnappyDecompress (scratch c : list Z) (input out : cord_buf) (m : CordBlocks.mem) : outcome (bool * cord_buf * CordBlocks.mem) :=
  '(ok, _, sink) ← Uncompress (cord_source_in m input) (new_cord_sink m out) scratch c;
  '(out, m) ← delete_cord_sink sink;
  Ok (ok, out, m).

(** ** The laws of the sink *)

Section laws.
Context (R : list BlockRef) (held : list Z) (m0 : CordBlocks.mem) (s0 : list Z).

(** Nothing is lent; [s0 ++ out] is in the buffer, unless memory has run out. *)
Definition cord_appended (k : cord_sink) (out : list Z) (room : Z) : Prop :=
  _block_size (_buf_stream k) = 0 /\ _cur_block (_buf_stream k) = 0 /\ _cur_len k = 0 /\ unchanged R m0 (k_mem k) /\
  0 <= room /\ zlen (s0 ++ out) + room + 1 < 2 ^ 30 /\
  exists s, holds (k_mem k) R held (_buf k) s /\ zlen s <= zlen (s0 ++ out) /\ (avail (k_mem k) = O \/ s = s0 ++ out).

Lemma cord_append_law k out room s : cord_appended k out room -> bytes_ok s -> zlen s <= room ->
  exists k', Append s k = Ok k' /\ cord_appended k' (out ++ s) (room - zlen s).
Proof.
  intros (Hbs & Hcb & Hcl & Hun & Hr & Hlt & s1 & Hh & Hle & Hs1) _ Hs. cbn [Append cord_sink_sink]. rewrite Hcl. cbn [Z.ltb Z.compare]. unfold sink_append.
  rewrite zlen_app in *. destruct (wp_append s (k_mem k) R held (_buf k) s1 Hh) as ([ret buf] & m' & E & Hun' & Hcase); [unfold fits; rewrite zlen_app; lia|].
  rewrite E. cbn [mbind outcome_bind]. eexists. split; [done|]. unfold cord_appended. cbn [_buf_stream _cur_len k_mem _buf fst snd] in *.
  pose proof (zlen_nonneg s). rewrite !zlen_app. split_and!; [done..|by eapply unchanged_trans|lia|lia|].
  destruct Hcase as [(-> & Hh')|(-> & Hav & p & Hp & _ & Hh')].
  - exists (s1 ++ s). rewrite zlen_app. split_and!; [done|lia|]. destruct Hs1 as [Hav| ->]; [left|right; by rewrite app_assoc].
    eapply frugal_append; [exact E|done].
  - exists (s1 ++ p). destruct Hp as [q ->]. rewrite !zlen_app in *. pose proof (zlen_nonneg q). split_and!; [done|lia|by left].
Qed.

(** The place that [Next] lends, filled with [s]. *)
Lemma cord_own_law (k : cord_sink) out room s1 c b off len buf m1 n blk s d cl :
  cord_appended k out room -> zlen s <= room -> (avail (k_mem k) = O -> avail m1 = O) -> (avail (k_mem k) = O \/ s1 = s0 ++ out) -> zlen s1 <= zlen (s0 ++ out) ->
  lent R held (k_mem k) c s1 b off len buf m1 -> 0 < len < 2 ^ 30 -> blocks m1 !! b = Some blk ->
  zlen d = zlen (data blk) -> ztake (off + zlen s) d = ztake off (data blk) ++ s -> zlen s <= len ->
  exists k', sink_BackUp (len - zlen s) (mk_cord_sink (with_blocks (<[b := set_data d blk]>) m1) buf (mk_output 0 b n) (b, off) cl) = Ok k' /\
    cord_appended k' (out ++ s) (room - zlen s).
Proof.
  intros (_ & _ & _ & Hun & Hr & Hlt & _) Hs Hav Hs1 Hle Hl Hlen Hblk Hd Et Hsl. pose proof (zlen_nonneg s). unfold sink_BackUp. cbn [_buf_stream _buf k_mem].
  rewrite s32_small by lia.
  assert (wp (output_BackUp (len - zlen s) (mk_output 0 b n) buf) (with_blocks (<[b := set_data d blk]>) m1)
    (fun '(st, buf') m' => _block_size st = 0 /\ _cur_block st = 0 /\ holds m' R held buf' (s1 ++ s) /\ unchanged R (k_mem k) m')) as ([st buf'] & m' & E & Hbs & Hcb & Hh' & Hun').
  { eapply wp_lent_BackUp; [done..|]. by intros. }
  rewrite E. cbn [mbind outcome_bind]. eexists. split; [done|]. unfold cord_appended. cbn [_buf_stream _cur_len k_mem _buf].
  rewrite !zlen_app in *. split_and!; [done..|by eapply unchanged_trans|lia|lia|]. exists (s1 ++ s). rewrite zlen_app. split_and!; [done|lia|].
  destruct Hs1 as [Hav0| ->]; [left|right; by rewrite app_assoc]. eapply frugal_back_up_loop; [exact E|]. exact (Hav Hav0).
Qed.

Lemma cord_buffer_law k out room n : cord_appended k out room -> 0 <= n ->
  exists place k', GetAppendBuffer n k = Ok (place, k') /\
    match place with
    | None => cord_appended k' out room
    | Some (mem, off) =>
        0 <= off /\ off + Z.min n room <= zlen mem /\
        forall s mem', wrote off mem s mem' -> zlen s <= Z.min n room ->
          exists k'', AppendOwn mem' (zlen s) k' = Ok k'' /\ cord_appended k'' (out ++ s) (room - zlen s)
    end.
Proof.
  intros Hk Hn. pose proof Hk as (Hbs & Hcb & Hcl & Hun & Hr & Hlt & s1 & Hh & Hle & Hs1). cbn [GetAppendBuffer cord_sink_sink].
  case_if; zbool; [|eexists None, _; split; [done|]; split_and!; [done..|by exists s1]]. rewrite zlen_app in Hlt, Hle.
  assert (wp (output_Next (_buf_stream k) (_buf k)) (k_mem k) (fun '(place, st, c') m' =>
    match place with
    | None => st = _buf_stream k /\ c' = _buf k /\ holds m' R held (_buf k) s1 /\ unchanged R (k_mem k) m'
    | Some (b, off, len) => lent R held (k_mem k) (_buf k) s1 b off len c' m' /\ 0 < len < 2 ^ 30 /\ exists cnt, st = mk_output 0 b cnt
    end)) as ([[place st] c'] & m' & E & Hpost).
  { eapply wp_output_Next; [exact Hh|lia|done|done|by intros|]. intros. split_and!; [done|lia|lia|by eexists]. }
  pose proof (frugal_output_Next _ _ _ _ _ E) as Hfr. rewrite E. cbn [mbind outcome_bind]. destruct place as [[[b off] len]|].
  - destruct Hpost as (Hl & Hlen & cnt & ->). destruct (lent_block _ _ _ _ _ _ _ _ _ _ Hl) as (blk & Hblk & Hd & Hoff). rewrite s32_small by lia. case_if; zbool.
    + rewrite Hblk. cbn [deref mbind outcome_bind]. eexists (Some (data blk, off)), _. split; [done|]. split_and!; [lia..|]. intros s d (_ & Hd' & _ & Et & _) Hs.
      cbn [AppendOwn cord_sink_sink _cur_buf k_mem]. rewrite Hblk. cbn [deref mbind outcome_bind _cur_len]. pose proof (zlen_nonneg s).
      rewrite (proj2 (Z.ltb_lt 0 len)), s32_small by lia. unfold check. rewrite (proj2 (Z.leb_le _ _)) by lia. cbn [mbind outcome_bind].
      eapply cord_own_law; try done; try lia. by rewrite zlen_app.
    + destruct (cord_own_law k out room s1 (_buf k) b off len c' m' cnt blk [] (data blk) len) as (k' & E' & Hk'); try done; rewrite ?zlen_app, ?(@zlen_nil Z); try lia.
      { by rewrite Z.add_0_r, app_nil_r. }
      rewrite (@zlen_nil Z), Z.sub_0_r in *. rewrite app_nil_r in Hk'.
      assert (Em : with_blocks (<[b := set_data (data blk) blk]>) m' = m').
      { unfold with_blocks. rewrite insert_id; [by destruct m'|]. rewrite Hblk. by destruct blk. }
      rewrite Em in E'. rewrite E'. cbn [mbind outcome_bind]. eexists None, _. split; [done|]. destruct Hk' as (? & ? & _ & Hk'). by do 3 (split; [done|]).
  - destruct Hpost as (-> & -> & Hh' & Hun'). eexists None, _. split; [done|]. unfold cord_appended. cbn [_buf_stream _cur_len k_mem _buf].
    rewrite zlen_app. split_and!; [done..|by eapply unchanged_trans|lia|lia|]. exists s1. split_and!; [done|lia|]. destruct Hs1 as [Hav| ->]; [left; by apply Hfr|by right].
Qed.

Lemma cord_variable_law k out room desired : cord_appended k out room -> 0 <= desired <= room ->
  exists place allocated k', GetAppendBufferVariable 1 desired k = Ok (place, allocated, k') /\
    match place with
    | None => allocated = 1 /\ cord_appended k' out room
    | Some (mem, off) =>
        0 <= off /\ off + allocated <= zlen mem /\ allocated <= room /\ cord_appended k' out room /\
        forall s mem', wrote off mem s mem' -> zlen s <= allocated ->
          exists k'', AppendOwn mem' (zlen s) k' = Ok k'' /\ cord_appended k'' (out ++ s) (room - zlen s)
    end.
Proof. intros H _. by exists None, 1, k. Qed.

Definition cord_sink_laws : SinkLaws cord_sink := {|
  appended := cord_appended;
  append_law := cord_append_law;
  buffer_law := cord_buffer_law;
  variable_law := cord_variable_law
|}.
End laws.

(** ** From a [cord_buf] to another one *)

Lemma cord_source_in_left m refs held c : mem_ok m refs held -> Forall (ref_ok m) (ref_list c) -> zlen (bytes m (ref_list c)) < 2 ^ 31 ->
  SnappyIO.left (cord_source_in m c) (bytes m (ref_list c)).
Proof.
  intros Hm Hr Hlt. apply cord_source_left; [|done]. apply Forall_map. eapply Forall_impl; [exact Hr|]. intros r Hok E. simpl in E.
  pose proof (zlen_slice m refs held r Hm Hok) as Hz. rewrite E in Hz. destruct Hok as (_ & _ & _ & ? & _). rewrite (@zlen_nil Z) in Hz. lia.
Qed.

Lemma new_cord_sink_appended R held m s0 out room : holds m R held out s0 -> 0 <= room -> zlen s0 + room + 1 < 2 ^ 30 ->
  cord_appended R held m s0 (new_cord_sink m out) [] room.
Proof.
  intros Hh Hr Hlt. unfold cord_appended. cbn. rewrite app_nil_r. split_and!; try done; [apply unchanged_refl|]. exists s0. split_and!; [done..|by right].
Qed.

(** What a buffer has once its sink is gone. *)
Definition received (R : list BlockRef) (held : list Z) (m : CordBlocks.mem) (s : list Z) (out' : cord_buf) (m' : CordBlocks.mem) : Prop :=
  unchanged R m m' /\ exists s', holds m' R held out' s' /\ (avail m' = O \/ s' = s).

Lemma delete_cord_sink_spec R held m s0 k c room : cord_appended R held m s0 k c room ->
  exists out' m', delete_cord_sink k = Ok (out', m') /\ received R held m (s0 ++ c) out' m'.
Proof.
  intros (Hbs & Hcb & _ & Hun & _ & _ & s & Hh & _ & Hs). exists (_buf k), (k_mem k). unfold delete_cord_sink, _release_block. rewrite Hbs, Hcb.
  split; [done|]. split; [done|]. by exists s.
Qed.

Lemma SnappyCompress_spec m R held input out s0 x :
  holds m (ref_list input ++ R) held out s0 -> bytes m (ref_list input) = x -> bytes_ok x -> zlen s0 + zlen x + zlen x / 6 + 33 < 2 ^ 30 ->
  exists c out' m', SnappyCompress input out m = Ok (true, out', m') /\ received (ref_list input ++ R) held m (s0 ++ c) out' m' /\
    stream_of c x /\ zlen c <= MaxCompressedLength (zlen x).
Proof.
  intros Hh Ex Hb Hlt. pose proof (zlen_nonneg x). pose proof (zlen_nonneg s0). assert (Hx : 0 <= zlen x < 2 ^ 30) by dlia.
  destruct (holds_refs _ _ _ _ _ Hh) as [_ Hr]. apply Forall_app in Hr as [Hr _]. pose (laws := cord_sink_laws (ref_list input ++ R) held m s0).
  pose proof (MaxCompressedLength_small (zlen x) ltac:(lia)) as Hmax. unfold SnappyCompress.
  destruct (Compress_spec (H2 := laws) (cord_source_in m input) (new_cord_sink m out) x [] (MaxCompressedLength (zlen x))) as (c & r & k' & -> & _ & Hk' & Hst & Hle);
    [subst x; eapply cord_source_in_left; [apply Hh|done|lia]|done|lia|apply new_cord_sink_appended; [done|dlia|lia]|lia|].
  cbn [mbind outcome_bind]. destruct (delete_cord_sink_spec _ _ _ _ _ _ _ Hk') as (out' & m' & -> & Hrec). cbn [mbind outcome_bind].
  pose proof (stream_of_nonempty c x Hst). rewrite (proj2 (Z.eqb_neq _ _)) by lia. by exists c, out', m'.
Qed.

Lemma SnappyDecompress_spec m R held input out s0 c x scratch c1 :
  holds m (ref_list input ++ R) held out s0 -> bytes m (ref_list input) = c -> stream_of c x -> zlen c < 2 ^ 31 -> zlen s0 + zlen x + 1 < 2 ^ 30 ->
  zlen scratch = 5 -> bytes_ok scratch -> zlen c1 = 1 ->
  exists out' m', SnappyDecompress scratch c1 input out m = Ok (true, out', m') /\ received (ref_list input ++ R) held m (s0 ++ x) out' m'.
Proof.
  intros Hh Ec Hst Hc Hlt Hs Hbs Hc1. pose proof (zlen_nonneg x). pose proof (zlen_nonneg s0).
  destruct (holds_refs _ _ _ _ _ Hh) as [_ Hr]. apply Forall_app in Hr as [Hr _]. pose (laws := cord_sink_laws (ref_list input ++ R) held m s0).
  destruct (stream_of_decode _ _ Hst ltac:(lia) ltac:(lia)) as (Hbc & _ & Hdec & _ & Hroom). unfold SnappyDecompress.
  destruct (Uncompress_spec (H2 := laws) (cord_source_in m input) c scratch ltac:(subst c; eapply cord_source_in_left; [apply Hh|done|lia]) Hbc ltac:(lia) Hs Hbs
    (new_cord_sink m out) [] (zlen x) c1) as (ok & r & k' & -> & Hok); [apply new_cord_sink_appended; [done|lia|lia]|done|lia|done|].
  rewrite Hdec in Hok. destruct Hok as (-> & _ & Hk'). cbn [mbind outcome_bind]. destruct (delete_cord_sink_spec _ _ _ _ _ _ _ Hk') as (out' & m' & -> & Hrec).
  by exists out', m'.
Qed.

(** ** Property *)

(** C20: [policy::SnappyCompress] and [policy::SnappyDecompress] are inverses on
    [cord_buf]s over the memory of reference-counted blocks, whatever blocks the
    thread keeps, when the output with [MaxCompressedLength] of the data, and the
    second output with the data, stay below 1 GiB (for an empty output: data of up
    to some 920 million bytes).  The stream is appended to the output, unless
    memory has run out; it is a valid stream of the format, no longer than
    [MaxCompressedLength]; and from any [cord_buf] with its bytes, in any memory,
    the data is appended to another one, unless memory has run out.  Input and
    output are different buffers; neither the bytes of the input nor of any other
    buffer change, and the reference counters stay right. *)
Theorem snappy_cord_roundtrip (m : CordBlocks.mem) (R : list BlockRef) (held : list Z) (input out : cord_buf) (s0 x scratch c1 : list Z) :
  holds m (ref_list input ++ R) held out s0 -> bytes m (ref_list input) = x -> bytes_ok x -> zlen s0 + zlen x + zlen x / 6 + 33 < 2 ^ 30 ->
  zlen scratch = 5 -> bytes_ok scratch -> zlen c1 = 1 ->
  exists c out' m', SnappyCompress input out m = Ok (true, out', m') /\ received (ref_list input ++ R) held m (s0 ++ c) out' m' /\
    snappy_decode c = Some x /\ zlen c <= MaxCompressedLength (zlen x) /\
    forall m2 R2 held2 input2 out2 s2, holds m2 (ref_list input2 ++ R2) held2 out2 s2 -> bytes m2 (ref_list input2) = c -> zlen s2 + zlen x + 1 < 2 ^ 30 ->
      exists out2' m2', SnappyDecompress scratch c1 input2 out2 m2 = Ok (true, out2', m2') /\ received (ref_list input2 ++ R2) held2 m2 (s2 ++ x) out2' m2'.
Proof.
  intros Hh Ex Hb Hlt Hs Hbs Hc1. pose proof (zlen_nonneg x). pose proof (zlen_nonneg s0).
  destruct (SnappyCompress_spec m R held input out s0 x Hh Ex Hb Hlt) as (c & out' & m' & E & Hrec & Hst & Hle).
  assert (Hx : 0 <= zlen x < 2 ^ 30) by dlia. pose proof (MaxCompressedLength_small (zlen x) ltac:(lia)) as Hmax.
  destruct (stream_of_decode _ _ Hst ltac:(lia) ltac:(lia)) as (_ & Hdec & _). exists c, out', m'. split_and!; [done..|].
  intros m2 R2 held2 input2 out2 s2 Hh2 Ec Hlt2. eapply SnappyDecompress_spec; done || lia.
Qed.

(** A block with the text of the input and some room, which the thread keeps. *)
Definition sample_text : list Z := bs "abcabcabcabcabcabcabcabc".
Definition sample_input : cord_buf := SmallView (mk_ref 0 24 1) null_ref.
Definition sample_mem : CordBlocks.mem :=
  mk_mem {[1 := mk_block 2 0 24 64 0 (sample_text ++ replicate 40 0)]} 2 3 1 1.

Lemma sample_holds : holds sample_mem (ref_list sample_input ++ []) [] new_cord_buf [].
Proof.
  split_and!; [|apply small_wf_nil|done]. exists [1]. split_and!; [simpl; split; [done|]; by eexists|done|]. constructor.
  - intros id b. simpl. rewrite lookup_singleton_Some. intros [<- <-]. unfold block_ok. simpl. split_and!; done || lia.
  - change (ref_list new_cord_buf ++ ref_list sample_input ++ []) with [mk_ref 0 24 1]. apply Forall_cons_2; [|done].
    eexists. split_and!; [by simpl; rewrite lookup_singleton_eq|simpl; lia..].
  - apply Forall_cons_2; [|done]. by eexists.
  - apply NoDup_singleton.
  - done.
Qed.

(** There and back, with memory left. *)
Definition memory_left (r : outcome (bool * cord_buf * CordBlocks.mem)) : nat := match r with Ok (_, _, m) => avail m | _ => O end.
Definition then_decompress (r : outcome (bool * cord_buf * CordBlocks.mem)) : outcome (bool * cord_buf * CordBlocks.mem) :=
  '(_, out, m) ← r; SnappyDecompress [0; 0; 0; 0; 0] [0] out new_cord_buf m.

Lemma snappy_cord_roundtrip_witness :
  exists out' m', SnappyCompress sample_input new_cord_buf sample_mem = Ok (true, out', m') /\
    exists out2' m2', SnappyDecompress [0; 0; 0; 0; 0] [0] out' new_cord_buf m' = Ok (true, out2', m2') /\ bytes m2' (ref_list out2') = sample_text.
Proof.
  destruct (snappy_cord_roundtrip sample_mem [] [] sample_input new_cord_buf [] sample_text [0; 0; 0; 0; 0] [0]) as (c & out' & m' & E & (_ & s' & Hh & Hs') & _ & _ & Hd);
    [exact sample_holds|done|by repeat constructor|done|done|by repeat constructor|done|].
  exists out', m'. split; [exact E|]. assert (s' = c) as ->.
  { destruct Hs' as [Ha|Hs']; [|exact Hs']. change (avail m') with (memory_left (Ok (true, out', m'))) in Ha. rewrite <- E in Ha. vm_compute in Ha. discriminate. }
  destruct Hh as (Hm & Hw & Hb). destruct (Hd m' (ref_list sample_input ++ []) [] out' new_cord_buf []) as (out2' & m2' & E2 & (_ & s2 & (_ & _ & Hb2) & Hs2)).
  - split; [exact Hm|]. split; [apply small_wf_nil|reflexivity].
  - exact Hb.
  - reflexivity.
  - exists out2', m2'. split; [exact E2|]. rewrite Hb2. destruct Hs2 as [Ha|Hs2]; [|exact Hs2].
    change (avail m2') with (memory_left (Ok (true, out2', m2'))) in Ha. rewrite <- E2 in Ha.
    change (SnappyDecompress _ _ _ _ _) with (then_decompress (Ok (true, out', m'))) in Ha. rewrite <- E in Ha. vm_compute in Ha. discriminate.
Defined.
