(* ===== verification/Base64.v ===== *)
(** * [flare/base/base64.cc]

    [base64_encode] with optional line breaks and [base64_decode] in strict and
    lenient mode.  Both append to the string they are given.  The theorems are
    the round trip, for every line width and in both modes, and what decoding
    returns for any text, by the alphabet of RFC 2045; the example at the end
    shows that a string that is not empty shortens the first line. *)

From S2P Require Import Prelude Bits.
Local Open Scope Z_scope.

Definition encoding64 : list Z :=
  bs "ABCDEFGHIJKLMNOPQRSTUVWXYZabcdefghijklmnopqrstuvwxyz0123456789+/".

(** [encoding64[result]]; [result] has six bits. *)
Definition letter (result : Z) : Z := default 0 (zget encoding64 result).

(** The loop of [base64_encode]: one turn per three bytes. *)
Fixpoint encode_loop (line_break line_begin : Z) (inp out : list Z) : list Z :=
  match inp with
  | [] => out
  | f0 :: inp =>
      let out := out ++ [letter (Z.shiftr (Z.land f0 0xFC) 2)] in
      let result := u8 (Z.shiftl (Z.land f0 0x03) 4) in
      match inp with
      | [] => ((out ++ [letter result]) ++ bs "=") ++ bs "="
      | f1 :: inp =>
          let result := Z.lor result (Z.shiftr (Z.land f1 0xF0) 4) in
          let out := out ++ [letter result] in
          let result := u8 (Z.shiftl (Z.land f1 0x0F) 2) in
          match inp with
          | [] => (out ++ [letter result]) ++ bs "="
          | f2 :: inp =>
              let result := Z.lor result (Z.shiftr (Z.land f2 0xC0) 6) in
              let out := out ++ [letter result] in
              let result := Z.shiftr (Z.land f2 0x3F) 0 in
              let out := out ++ [letter result] in
              if (0 <? line_break) && (line_break <=? u64 (zlen out - line_begin))
              then let out := out ++ [10%Z] in encode_loop line_break (zlen out) inp out
              else encode_loop line_break line_begin inp out
          end
      end
  end.

Definition base64_encode (str out : list Z) (line_break : Z) : bool * list Z :=
  if zlen str =? 0 then (true, out) else (true, encode_loop line_break 0 str out).

Definition ex : Z := 255.
Definition ws : Z := 254.

Definition decoding64 : list Z := [
  ex; ex; ex; ex; ex; ex; ex; ex; ex; ws; ws; ex; ex; ws; ex; ex;
  ex; ex; ex; ex; ex; ex; ex; ex; ex; ex; ex; ex; ex; ex; ex; ex;
  ws; ex; ex; ex; ex; ex; ex; ex; ex; ex; ex; 62; ex; ex; ex; 63;
  52; 53; 54; 55; 56; 57; 58; 59; 60; 61; ex; ex; ex; ws; ex; ex;
  ex; 0; 1; 2; 3; 4; 5; 6; 7; 8; 9; 10; 11; 12; 13; 14;
  15; 16; 17; 18; 19; 20; 21; 22; 23; 24; 25; ex; ex; ex; ex; ex;
  ex; 26; 27; 28; 29; 30; 31; 32; 33; 34; 35; 36; 37; 38; 39; 40;
  41; 42; 43; 44; 45; 46; 47; 48; 49; 50; 51; ex; ex; ex; ex; ex;
  ex; ex; ex; ex; ex; ex; ex; ex; ex; ex; ex; ex; ex; ex; ex; ex;
  ex; ex; ex; ex; ex; ex; ex; ex; ex; ex; ex; ex; ex; ex; ex; ex;
  ex; ex; ex; ex; ex; ex; ex; ex; ex; ex; ex; ex; ex; ex; ex; ex;
  ex; ex; ex; ex; ex; ex; ex; ex; ex; ex; ex; ex; ex; ex; ex; ex;
  ex; ex; ex; ex; ex; ex; ex; ex; ex; ex; ex; ex; ex; ex; ex; ex;
  ex; ex; ex; ex; ex; ex; ex; ex; ex; ex; ex; ex; ex; ex; ex; ex;
  ex; ex; ex; ex; ex; ex; ex; ex; ex; ex; ex; ex; ex; ex; ex; ex;
  ex; ex; ex; ex; ex; ex; ex; ex; ex; ex; ex; ex; ex; ex; ex; ex].

(** [decoding64[*in++]]; the index is a byte. *)
Definition fragment_of (c : Z) : Z := default ex (zget decoding64 c).

(** Which of the four letters of a block the code waits for. *)
Inductive dstep := Step0 | Step1 | Step2 | Step3.

(** The code after a valid letter of the step: the byte written, if any, the
    bits carried in [outchar] and the next step. *)
Definition on_letter (st : dstep) (outchar fragment : Z) : list Z * Z * dstep :=
  match st with
  | Step0 => ([], u8 (Z.shiftl (Z.land fragment 0x3F) 2), Step1)
  | Step1 => ([u8 (Z.lor outchar (Z.shiftr (Z.land fragment 0x30) 4))], u8 (Z.shiftl (Z.land fragment 0x0F) 4), Step2)
  | Step2 => ([u8 (Z.lor outchar (Z.shiftr (Z.land fragment 0x3C) 2))], u8 (Z.shiftl (Z.land fragment 0x03) 6), Step3)
  | Step3 => ([u8 (Z.lor outchar (Z.shiftr (Z.land fragment 0x3F) 0))], 0, Step0)
  end.

(** The four [do ... while (fragment >= ws)] loops read a letter each; the
    step says which of them is running. *)
Fixpoint decode_loop (strict : bool) (st : dstep) (outchar : Z) (inp out : list Z) : bool * list Z :=
  match inp with
  | [] => (true, out)
  | c :: inp =>
      let fragment := fragment_of c in
      if (fragment =? ex) && strict then (false, out)
      else if ws <=? fragment then decode_loop strict st outchar inp out
      else let '(o, outchar, st) := on_letter st outchar fragment in
           decode_loop strict st outchar inp (out ++ o)
  end.

Definition base64_decode (str out : list Z) (strict : bool) : bool * list Z := decode_loop strict Step0 0 str out.

(** ** Letters *)

(** The first, second, third and fourth six bits of three bytes. *)
Definition e0 (a : Z) : Z := Z.shiftr (Z.land a 0xFC) 2.
Definition e1 (a b : Z) : Z := Z.lor (u8 (Z.shiftl (Z.land a 0x03) 4)) (Z.shiftr (Z.land b 0xF0) 4).
Definition e2 (b c : Z) : Z := Z.lor (u8 (Z.shiftl (Z.land b 0x0F) 2)) (Z.shiftr (Z.land c 0xC0) 6).
Definition e3 (c : Z) : Z := Z.shiftr (Z.land c 0x3F) 0.

(** What the decoder reads from the letter of a six-bit value. *)
Definition reads (e : Z) : bool := (fragment_of (letter e) =? e) && (e <? 64) && (0 <=? e).

Lemma reads_ok e : 0 <= e < 64 -> reads e = true.
Proof.
  intros He. pose proof (byte_check (fun e => (64 <=? e) || reads e) ltac:(vm_compute; reflexivity) e ltac:(lia)) as H.
  cbn beta in H. rewrite (proj2 (Z.leb_gt _ _)) in H by lia. done.
Qed.

(** The masks and shifts as arithmetic on fields. *)
Definition field_check (a : Z) : bool :=
  (Z.shiftr (Z.land a 0xFC) 2 =? a / 4) && (u8 (Z.shiftl (Z.land a 0x03) 4) =? Z.shiftl (a mod 4) 4) &&
  (Z.shiftr (Z.land a 0xF0) 4 =? a / 16) && (u8 (Z.shiftl (Z.land a 0x0F) 2) =? Z.shiftl (a mod 16) 2) &&
  (Z.shiftr (Z.land a 0xC0) 6 =? a / 64) && (Z.shiftr (Z.land a 0x3F) 0 =? a mod 64) &&
  (u8 (Z.shiftl (Z.land a 0x3F) 2) =? Z.shiftl (a mod 64) 2) && (Z.shiftr (Z.land a 0x30) 4 =? a mod 64 / 16) &&
  (u8 (Z.shiftl (Z.land a 0x0F) 4) =? Z.shiftl (a mod 16) 4) && (Z.shiftr (Z.land a 0x3C) 2 =? a mod 64 / 4) &&
  (u8 (Z.shiftl (Z.land a 0x03) 6) =? Z.shiftl (a mod 4) 6).

Lemma fields a : byte_ok a ->
  Z.shiftr (Z.land a 0xFC) 2 = a / 4 /\ u8 (Z.shiftl (Z.land a 0x03) 4) = Z.shiftl (a mod 4) 4 /\
  Z.shiftr (Z.land a 0xF0) 4 = a / 16 /\ u8 (Z.shiftl (Z.land a 0x0F) 2) = Z.shiftl (a mod 16) 2 /\
  Z.shiftr (Z.land a 0xC0) 6 = a / 64 /\ Z.shiftr (Z.land a 0x3F) 0 = a mod 64 /\
  u8 (Z.shiftl (Z.land a 0x3F) 2) = Z.shiftl (a mod 64) 2 /\ Z.shiftr (Z.land a 0x30) 4 = a mod 64 / 16 /\
  u8 (Z.shiftl (Z.land a 0x0F) 4) = Z.shiftl (a mod 16) 4 /\ Z.shiftr (Z.land a 0x3C) 2 = a mod 64 / 4 /\
  u8 (Z.shiftl (Z.land a 0x03) 6) = Z.shiftl (a mod 4) 6.
Proof.
  intros Ha. pose proof (byte_check field_check ltac:(vm_compute; reflexivity) a Ha) as H. unfold field_check in H.
  rewrite !andb_true_iff, !Z.eqb_eq in H. tauto.
Qed.

Lemma lor_field k x y : 0 <= k -> 0 <= y < 2 ^ k -> Z.lor (Z.shiftl x k) y = y + x * 2 ^ k.
Proof. intros Hk Hy. rewrite Z.lor_comm. by apply lor_fields. Qed.

Lemma letters a b : byte_ok a -> byte_ok b ->
  e0 a = a / 4 /\ e1 a b = b / 16 + a mod 4 * 16 /\ e2 a b = b / 64 + a mod 16 * 4 /\ e3 a = a mod 64.
Proof.
  intros Ha Hb. unfold e0, e1, e2, e3.
  destruct (fields a Ha) as (-> & -> & _ & -> & _ & -> & _). destruct (fields b Hb) as (_ & _ & -> & _ & -> & _).
  unfold byte_ok in *. rewrite (lor_field 4), (lor_field 2) by (lia || dlia). done.
Qed.

Lemma block_facts a b : byte_ok a -> byte_ok b ->
  (reads (e0 a) = true /\ reads (e1 a b) = true /\ reads (e2 a b) = true /\ reads (e3 a) = true) /\
  u8 (Z.lor (u8 (Z.shiftl (Z.land (e0 a) 0x3F) 2)) (Z.shiftr (Z.land (e1 a b) 0x30) 4)) = a /\
  u8 (Z.shiftl (Z.land (e1 a b) 0x0F) 4) = Z.shiftl (b / 16) 4 /\
  u8 (Z.lor (Z.shiftl (a / 16) 4) (Z.shiftr (Z.land (e2 a b) 0x3C) 2)) = a /\
  u8 (Z.shiftl (Z.land (e2 a b) 0x03) 6) = Z.shiftl (b / 64) 6 /\
  u8 (Z.lor (Z.shiftl (a / 64) 6) (Z.shiftr (Z.land (e3 a) 0x3F) 0)) = a.
Proof.
  intros Ha Hb. destruct (letters a b Ha Hb) as (-> & -> & -> & ->). unfold byte_ok in *.
  assert (0 <= a / 4 < 64 /\ 0 <= b / 16 + a mod 4 * 16 < 64 /\ 0 <= b / 64 + a mod 16 * 4 < 64 /\ 0 <= a mod 64 < 64)
    as (H0 & H1 & H2 & H3) by dlia.
  split; [split_and!; by apply reads_ok|].
  destruct (fields (a / 4)) as (_ & _ & _ & _ & _ & _ & -> & _); [unfold byte_ok; lia|].
  destruct (fields (b / 16 + a mod 4 * 16)) as (_ & _ & _ & _ & _ & _ & _ & -> & -> & _); [unfold byte_ok; lia|].
  destruct (fields (b / 64 + a mod 16 * 4)) as (_ & _ & _ & _ & _ & _ & _ & _ & _ & -> & ->); [unfold byte_ok; lia|].
  destruct (fields (a mod 64)) as (_ & _ & _ & _ & _ & -> & _); [unfold byte_ok; lia|].
  rewrite (lor_field 2), (lor_field 4), (lor_field 6) by (lia || dlia).
  split_and!; try (rewrite u8_small by dlia; dlia); do 2 f_equal; dlia.
Qed.

Section decode.
Context (strict : bool).

Lemma decode_letter st oc e inp out :
  reads e = true ->
  decode_loop strict st oc (letter e :: inp) out =
    let '(o, oc, st) := on_letter st oc e in decode_loop strict st oc inp (out ++ o).
Proof.
  unfold reads. rewrite !andb_true_iff, Z.eqb_eq, Z.ltb_lt, Z.leb_le. intros [[E Hl] _].
  cbn [decode_loop]. rewrite E. unfold ex, ws.
  rewrite (proj2 (Z.eqb_neq _ _)), (proj2 (Z.leb_gt _ _)) by lia. done.
Qed.

Lemma decode_pad st oc inp out : decode_loop strict st oc (61 :: inp) out = decode_loop strict st oc inp out.
Proof. done. Qed.

Lemma decode_newline st oc inp out : decode_loop strict st oc (10 :: inp) out = decode_loop strict st oc inp out.
Proof. done. Qed.

(** A block of four letters decodes to its three bytes. *)
Lemma decode_block a b c oc inp out :
  byte_ok a -> byte_ok b -> byte_ok c ->
  decode_loop strict Step0 oc (letter (e0 a) :: letter (e1 a b) :: letter (e2 b c) :: letter (e3 c) :: inp) out =
    decode_loop strict Step0 0 inp (out ++ [a; b; c]).
Proof.
  intros Ha Hb Hc.
  destruct (block_facts a b Ha Hb) as ((R0 & R1 & _ & _) & F1 & F2 & _).
  destruct (block_facts b c Hb Hc) as ((_ & _ & R2 & _) & _ & _ & F3 & F4 & _).
  destruct (block_facts c c Hc Hc) as ((_ & _ & _ & R3) & _ & _ & _ & _ & F5).
  rewrite !decode_letter by done. cbn [on_letter].
  rewrite !decode_letter by done. cbn [on_letter]. rewrite F1, F2.
  rewrite !decode_letter by done. cbn [on_letter]. rewrite F3, F4.
  rewrite !decode_letter by done. cbn [on_letter]. rewrite F5.
  by rewrite <- !(assoc_L (++)), app_nil_l.
Qed.

End decode.

(** ** Round trip *)

(** What the loop adds to [out] decodes to its input. *)
Lemma encode_loop_body lb n : forall s lbeg out, (length s <= n)%nat -> bytes_ok s ->
  exists body, encode_loop lb lbeg s out = out ++ body /\
    forall strict oc o, decode_loop strict Step0 oc body o = (true, o ++ s).
Proof.
  induction n as [|n IH]; intros s lbeg out Hn Hs.
  { destruct s; [|cbn in Hn; lia]. exists []. rewrite app_nil_r. split; [done|]. intros. cbn. by rewrite app_nil_r. }
  destruct s as [|a [|b [|c s]]].
  - exists []. rewrite app_nil_r. split; [done|]. intros. cbn. by rewrite app_nil_r.
  - apply Forall_cons in Hs as [Ha _]. assert (byte_ok 0) as H0 by (unfold byte_ok; lia).
    destruct (block_facts a 0 Ha H0) as ((R0 & R1 & _ & _) & F1 & _).
    assert (e1 a 0 = u8 (Z.shiftl (Z.land a 0x03) 4)) as E1 by apply Z.lor_0_r.
    exists [letter (e0 a); letter (e1 a 0); 61; 61]. split; [rewrite E1; cbn [encode_loop]; by rewrite <- !(assoc_L (++))|].
    intros. rewrite decode_letter by done. cbn [on_letter]. rewrite decode_letter by done. cbn [on_letter].
    rewrite F1, !decode_pad. cbn [decode_loop]. by rewrite app_nil_r.
  - apply Forall_cons in Hs as [Ha Hs]. apply Forall_cons in Hs as [Hb _].
    assert (byte_ok 0) as H0 by (unfold byte_ok; lia).
    destruct (block_facts a b Ha Hb) as ((R0 & R1 & _ & _) & F1 & F2 & _).
    destruct (block_facts b 0 Hb H0) as ((_ & _ & R2 & _) & _ & _ & F3 & _).
    assert (e2 b 0 = u8 (Z.shiftl (Z.land b 0x0F) 2)) as E2 by apply Z.lor_0_r.
    exists [letter (e0 a); letter (e1 a b); letter (e2 b 0); 61].
    split; [rewrite E2; cbn [encode_loop]; by rewrite <- !(assoc_L (++))|].
    intros. rewrite decode_letter by done. cbn [on_letter]. rewrite decode_letter by done. cbn [on_letter].
    rewrite F1, F2, decode_letter by done. cbn [on_letter]. rewrite F3, decode_pad. cbn [decode_loop].
    by rewrite <- !(assoc_L (++)), app_nil_l.
  - apply Forall_cons in Hs as [Ha Hs]. apply Forall_cons in Hs as [Hb Hs]. apply Forall_cons in Hs as [Hc Hs].
    cbn in Hn. cbn [encode_loop]. rewrite <- !(assoc_L (++)). cbn [app].
    case_if.
    + match goal with |- context [encode_loop lb ?lbg s ?o] => destruct (IH s lbg o ltac:(lia) Hs) as (body & -> & Hd) end.
      exists ([letter (e0 a); letter (e1 a b); letter (e2 b c); letter (e3 c); 10] ++ body).
      rewrite <- !(assoc_L (++)). split; [done|]. intros. cbn [app].
      rewrite decode_block, decode_newline, Hd, <- (assoc_L (++)) by done. done.
    + match goal with |- context [encode_loop lb ?lbg s ?o] => destruct (IH s lbg o ltac:(lia) Hs) as (body & -> & Hd) end.
      exists ([letter (e0 a); letter (e1 a b); letter (e2 b c); letter (e3 c)] ++ body).
      rewrite <- !(assoc_L (++)). split; [done|]. intros. cbn [app].
      rewrite decode_block, Hd, <- (assoc_L (++)) by done. done.
Qed.

(** C39: decoding what [base64_encode] appended to a string gives the input
    back, for every width of the lines and in strict mode as in lenient mode;
    both functions append to the string of the caller. *)
Theorem base64_roundtrip str out line_break :
  bytes_ok str ->
  exists body, base64_encode str out line_break = (true, out ++ body) /\
    forall strict dst, base64_decode body dst strict = (true, dst ++ str).
Proof.
  intros Hs. unfold base64_encode, base64_decode. case_if.
  - destruct str; [|rewrite zlen_cons in *; pose proof (zlen_nonneg str); lia].
    exists []. rewrite app_nil_r. split; [done|]. intros. cbn. by rewrite app_nil_r.
  - destruct (encode_loop_body line_break (length str) str 0 out) as (body & -> & Hd); [done|done|].
    exists body. split; [done|]. intros. apply Hd.
Qed.

Lemma base64_roundtrip_witness :
  base64_encode (bs "foobar!!") [] 4 = (true, bs "Zm9v" ++ [10] ++ bs "YmFy" ++ [10] ++ bs "ISE=") /\
  exists body, base64_encode [0; 255; 16] (bs "x") 0 = (true, bs "x" ++ body) /\
    forall strict dst, base64_decode body dst strict = (true, dst ++ [0; 255; 16]).
Proof.
  split; [vm_compute; reflexivity|]. apply base64_roundtrip.
  repeat constructor; vm_compute; congruence.
Defined.

(** ** What a text stands for

    RFC 2045: the letters of the alphabet [A-Za-z0-9+/] stand for six bits each,
    and four of them for three bytes.  Tabs, line ends and blanks are white
    space. *)

Definition sextet (c : Z) : option Z :=
  if (65 <=? c) && (c <=? 90) then Some (c - 65)             (* A-Z *)
  else if (97 <=? c) && (c <=? 122) then Some (c - 97 + 26)  (* a-z *)
  else if (48 <=? c) && (c <=? 57) then Some (c - 48 + 52)   (* 0-9 *)
  else if c =? 43 then Some 62                               (* + *)
  else if c =? 47 then Some 63                               (* / *)
  else None.

Definition skipped (c : Z) : bool := (c =? 61) || (c =? 32) || (c =? 9) || (c =? 10) || (c =? 13).

Definition invalid (c : Z) : bool := match sextet c with Some _ => false | None => negb (skipped c) end.

(** The bytes of a sequence of six-bit values; bits that do not fill a byte are
    padding. *)
Fixpoint bytes_of (l : list Z) : list Z :=
  match l with
  | a :: b :: c :: d :: l => (a * 4 + b / 16) :: (b mod 16 * 16 + c / 4) :: (c mod 4 * 64 + d) :: bytes_of l
  | [a; b; c] => [a * 4 + b / 16; b mod 16 * 16 + c / 4]
  | [a; b] => [a * 4 + b / 16]
  | _ => []
  end.

(** The part of a text before its first invalid character. *)
Fixpoint valid_prefix (str : list Z) : list Z :=
  match str with [] => [] | c :: str => if invalid c then [] else c :: valid_prefix str end.

(** The table says the same of every byte. *)
Definition table_check (c : Z) : bool :=
  fragment_of c =? match sextet c with Some v => v | None => if skipped c then ws else ex end.

Lemma fragment_sextet c : byte_ok c -> fragment_of c = match sextet c with Some v => v | None => if skipped c then ws else ex end.
Proof. intros Hc. pose proof (byte_check table_check ltac:(vm_compute; reflexivity) c Hc) as H. by apply Z.eqb_eq in H. Qed.

Lemma sextet_range c v : sextet c = Some v -> 0 <= v < 64.
Proof. unfold sextet. repeat case_if; intros [= <-]; repeat match goal with H : (_ && _) = true |- _ => apply andb_true_iff in H as [? ?] end; zbool; lia. Qed.

(** The values read in the current block and the bits carried from them. *)
Definition pending (st : dstep) (outchar : Z) (p : list Z) : Prop :=
  Forall (fun v => 0 <= v < 64) p /\
  match st, p with
  | Step0, [] => True
  | Step1, [a] => outchar = a * 4
  | Step2, [_; b] => outchar = b mod 16 * 16
  | Step3, [_; _; c] => outchar = c mod 4 * 64
  | _, _ => False
  end.

Lemma on_letter_pending st oc p v : pending st oc p -> 0 <= v < 64 ->
  exists o oc' st' p', on_letter st oc v = (o, oc', st') /\ pending st' oc' p' /\
    forall l, drop (length p - 1) (bytes_of (p ++ v :: l)) = o ++ drop (length p' - 1) (bytes_of (p' ++ l)).
Proof.
  intros (Hp & Hs) Hv. destruct (fields v ltac:(unfold byte_ok; lia)) as (_ & _ & _ & _ & _ & F6 & F7 & F8 & F9 & F10 & F11).
  rewrite (Z.mod_small v 64) in F6, F7, F8, F10 by lia. unfold on_letter.
  assert (forall k m x y, m = 2 ^ k -> 0 <= k -> 0 <= y < m -> 0 <= x * m + y < 256 -> u8 (Z.lor (x * m) y) = x * m + y) as Hlor.
  { intros k m x y -> Hk Hy Hr. rewrite <- Z.shiftl_mul_pow2, lor_field, Z.shiftl_mul_pow2 by done. rewrite Z.add_comm. by apply u8_small. }
  destruct st, p as [|a [|b [|c [|]]]]; try done; cbn in Hs; subst; rewrite ?F6, ?F7, ?F8, ?F9, ?F10, ?F11;
    repeat match goal with H : Forall _ (_ :: _) |- _ => apply Forall_cons in H as [? H] end.
  - eexists _, _, _, [v]. split_and!; [done| |done]. split; [by rewrite !Forall_cons|]. by rewrite Z.shiftl_mul_pow2.
  - eexists _, _, _, [a; v]. split_and!; [done| |].
    + split; [by rewrite !Forall_cons|]. cbn. by rewrite Z.shiftl_mul_pow2.
    + rewrite (Hlor 2 4 a (v / 16)); [|done|lia|..]. 2,3: pose proof (Z.div_mod v 16); pose proof (Z.mod_pos_bound v 16); lia.
      intros [|x [|y l]]; done.
  - eexists _, _, _, [a; b; v]. split_and!; [done| |].
    + split; [by rewrite !Forall_cons|]. cbn. by rewrite Z.shiftl_mul_pow2.
    + pose proof (Z.mod_pos_bound b 16). rewrite (Hlor 4 16 (b mod 16) (v / 4)); [|done|lia|..]. 2,3: pose proof (Z.div_mod v 4); pose proof (Z.mod_pos_bound v 4); lia.
      intros [|x l]; done.
  - eexists _, _, _, []. split_and!; [done|done|].
    pose proof (Z.mod_pos_bound c 4). rewrite (Hlor 6 64 (c mod 4) v) by (done || lia). done.
Qed.

Lemma decode_meaning strict str : bytes_ok str -> forall st oc p out, pending st oc p ->
  let read := if (strict : bool) then valid_prefix str else str in
  decode_loop strict st oc str out = (negb (strict && existsb invalid str), out ++ drop (length p - 1) (bytes_of (p ++ omap sextet read))).
Proof.
  assert (forall st oc p, pending st oc p -> drop (length p - 1) (bytes_of (p ++ [])) = []) as Hnil.
  { intros st oc p (_ & Hp). by destruct st, p as [|? [|? [|? [|]]]]. }
  induction 1 as [|c str Hc Hs IH]; intros st oc p out Hp read; subst read.
  { cbn. rewrite andb_false_r. destruct strict; cbn; by rewrite (Hnil st oc), app_nil_r. }
  cbn [decode_loop existsb valid_prefix]. rewrite (fragment_sextet c Hc).
  assert (invalid c = match sextet c with Some _ => false | None => negb (skipped c) end) as -> by done.
  destruct (sextet c) as [v|] eqn:E; [|destruct (skipped c)].
  - pose proof (sextet_range c v E). rewrite (proj2 (Z.eqb_neq v ex)), (proj2 (Z.leb_gt ws v)) by (unfold ex, ws; lia). cbn [andb orb negb].
    destruct (on_letter_pending st oc p v Hp ltac:(lia)) as (o & oc' & st' & p' & -> & Hp' & Hb). cbv zeta in IH. rewrite (IH st' oc' p' _ Hp'). f_equal.
    rewrite <- app_assoc, <- Hb. do 2 f_equal. destruct strict; cbn; by rewrite E.
  - cbn -[ws ex]. cbv zeta in IH. rewrite (IH st oc p out Hp). do 2 f_equal. destruct strict; cbn; by rewrite E.
  - cbn -[ws ex]. change (ex =? ex) with true. change (ws <=? ex) with true. destruct strict; cbn.
    + by rewrite (Hnil st oc), app_nil_r.
    + cbv zeta in IH. rewrite (IH st oc p out Hp). by rewrite E.
Qed.



(** The width of the first line counts what the string held before. *)
Lemma first_line_short :
  base64_encode (bs "foobar") [] 8 = (true, bs "Zm9vYmFy" ++ [10]) /\
  base64_encode (bs "foobar") (bs "0123") 8 = (true, bs "0123Zm9v" ++ [10] ++ bs "YmFy").
Proof. split; vm_compute; reflexivity. Qed.
