(* ===== verification/RedisReply.v ===== *)
(** * [flare/rpc/redis_reply.h], [redis_reply.cc]: replies of a redis server

    A [RedisReply] is a tag, a length and a union.  [ConsumePartialCordBuf]
    parses from a buffer that may end anywhere and can be called again when
    more bytes have arrived; [SerializeTo] writes a reply on the server side.
    The buffer is represented by its contents (the operations of [cord_buf]
    that are used here are shown to act on them as on byte strings in
    [CordWorld]).  Memory comes from an arena: [allocates n] says whether it
    hands out [n] bytes. *)

From S2P Require Import Prelude ByteSearch Decimal.
Local Open Scope Z_scope.

Inductive ParseError :=
  PARSE_OK | PARSE_ERROR_TRY_OTHERS | PARSE_ERROR_NOT_ENOUGH_DATA | PARSE_ERROR_TOO_BIG_DATA
| PARSE_ERROR_NO_RESOURCE | PARSE_ERROR_ABSOLUTELY_WRONG.

#[export] Instance ParseError_eq_dec : EqDecision ParseError.
Proof. solve_decision. Defined.

Inductive redis_reply_type :=
  REDIS_REPLY_STRING | REDIS_REPLY_ARRAY | REDIS_REPLY_INTEGER | REDIS_REPLY_NIL | REDIS_REPLY_STATUS | REDIS_REPLY_ERROR.

#[export] Instance redis_reply_type_eq_dec : EqDecision redis_reply_type.
Proof. solve_decision. Defined.

(** The union [_data] by its active member; the strings without the final NUL.
    [last_index] is [None] when the array member became active without it
    having been written. *)
Inductive reply_data (R : Type) :=
| Integer (integer : Z)
| Short (short_str : list Z)
| Long (long_str : list Z)
| Array (last_index : option Z) (replies : list R).
Arguments Integer {R} _.
Arguments Short {R} _.
Arguments Long {R} _.
Arguments Array {R} _ _.

Inductive RedisReply := mk_reply (_type : redis_reply_type) (_length : Z) (_data : reply_data RedisReply).

Definition _type (r : RedisReply) : redis_reply_type := let '(mk_reply t _ _) := r in t.
Definition _length (r : RedisReply) : Z := let '(mk_reply _ n _) := r in n.
Definition _data (r : RedisReply) : reply_data RedisReply := let '(mk_reply _ _ d) := r in d.

Definition npos : Z := -1.

(** [sizeof(_data.short_str)] and [sizeof(RedisReply)]. *)
Definition short_size : Z := 16.
Definition reply_size_of : Z := 32.
Definition UINT32_MAX : Z := 4294967295.

(** [Reset] and the constructor. *)
Definition Reset : RedisReply := mk_reply REDIS_REPLY_NIL 0 (Array (Some (-1)) []).

Definition CRLF : list Z := [13; 10].

(** ** [ConsumePartialCordBuf] *)

(** The header of integers, bulk strings and arrays: the 31 bytes copied to
    [intbuf] must hold a CRLF, and what [strtoll] reads after the first
    character must end there.  The value and the position of the CRLF. *)
Definition read_header (buf : list Z) : ParseError + Z * Z :=
  let intbuf := ztake 31 buf in
  match find_sub CRLF intbuf with
  | None => inl PARSE_ERROR_NOT_ENOUGH_DATA
  | Some crlf_pos =>
      let '(value, n) := strtoll (zdrop 1 intbuf) in
      if negb (1 + n =? crlf_pos) then inl PARSE_ERROR_ABSOLUTELY_WRONG else inr (value, crlf_pos)
  end.

Section consume.
Context (allocates : Z -> bool).

Definition parsed : Type := ParseError * RedisReply * list Z.

(** Errors and simple strings. *)
Definition consume_line (fc : Z) (r : RedisReply) (buf : list Z) : parsed :=
  match find_sub CRLF buf with
  | None =>
      if UINT32_MAX <? zlen buf then (PARSE_ERROR_ABSOLUTELY_WRONG, r, buf)
      else (PARSE_ERROR_NOT_ENOUGH_DATA, r, buf)
  | Some k =>
      let str := ztake k buf in
      let buf := zdrop (k + 2) buf in
      let len := zlen str - 1 in
      let type := if fc =? 45 then REDIS_REPLY_ERROR else REDIS_REPLY_STATUS in
      if len <? short_size then (PARSE_OK, mk_reply type (s32 len) (Short (zdrop 1 str)), buf)
      else if negb (allocates ((len / 8 + 1) * 8)) then (PARSE_ERROR_ABSOLUTELY_WRONG, r, buf)
      else (PARSE_OK, mk_reply type (s32 len) (Long (zdrop 1 str)), buf)
  end.

(** A bulk string of [len] bytes after the header. *)
Definition consume_bulk (len crlf_pos : Z) (r : RedisReply) (buf : list Z) : parsed :=
  if len <? 0 then (PARSE_OK, mk_reply REDIS_REPLY_NIL 0 (Integer 0), zdrop (crlf_pos + 2) buf)
  else if UINT32_MAX <? len then (PARSE_ERROR_ABSOLUTELY_WRONG, r, buf)
  else if zlen buf <? crlf_pos + 2 + len + 2 then (PARSE_ERROR_NOT_ENOUGH_DATA, r, buf)
  else if (short_size <=? len) && negb (allocates ((len / 8 + 1) * 8)) then (PARSE_ERROR_ABSOLUTELY_WRONG, r, buf)
  else
    let buf := zdrop (crlf_pos + 2) buf in
    let str := ztake len buf in
    let buf := zdrop len buf in
    let r := mk_reply REDIS_REPLY_STRING (s32 len) (if len <? short_size then Short str else Long str) in
    let crlf := ztake 2 buf in
    let buf := zdrop 2 buf in
    if bool_decide (crlf = CRLF) then (PARSE_OK, r, buf) else (PARSE_ERROR_ABSOLUTELY_WRONG, r, buf).

(** The loops over sub replies: [n] turns from index [i], which
    [_data.array.last_index] follows. *)
Fixpoint sub_loop (consume : RedisReply -> list Z -> outcome parsed) (n : nat) (i : Z)
    (subs : list RedisReply) (buf : list Z) : outcome (ParseError * Z * list RedisReply * list Z) :=
  match n with
  | O => Ok (PARSE_OK, i, subs, buf)
  | S n =>
      match zget subs i with
      | None => Undefined
      | Some r =>
          '(err, r, buf) ← consume r buf;
          let subs := zset i r subs in
          if negb (bool_decide (err = PARSE_OK)) then Ok (err, i, subs, buf)
          else if i =? 2147483647 then Undefined (* ++last_index overflows *)
          else sub_loop consume n (i + 1) subs buf
      end
  end.

(** The rest of a parse whose sub replies were visited from [i] on: on success
    [last_index] is reset. *)
Definition after_subs (length : Z) (res : ParseError * Z * list RedisReply * list Z) : parsed :=
  let '(err, i, subs, buf) := res in
  (err, mk_reply REDIS_REPLY_ARRAY length (Array (Some (if decide (err = PARSE_OK) then -1 else i)) subs), buf).

Definition consume_array (consume : RedisReply -> list Z -> outcome parsed) (count crlf_pos : Z)
    (r : RedisReply) (buf : list Z) : outcome parsed :=
  if count <? 0 then Ok (PARSE_OK, mk_reply REDIS_REPLY_NIL 0 (Integer 0), zdrop (crlf_pos + 2) buf)
  else if count =? 0 then Ok (PARSE_OK, mk_reply REDIS_REPLY_ARRAY 0 (Array (Some (-1)) []), zdrop (crlf_pos + 2) buf)
  else if UINT32_MAX <? count then Ok (PARSE_ERROR_ABSOLUTELY_WRONG, r, buf)
  else if negb (allocates (reply_size_of * count)) then Ok (PARSE_ERROR_ABSOLUTELY_WRONG, r, buf)
  else
    let subs := replicate (Z.to_nat count) Reset in
    let buf := zdrop (crlf_pos + 2) buf in
    res ← sub_loop consume (Z.to_nat count) 0 subs buf;
    Ok (after_subs (s32 count) res).

(** A reply of which nothing was parsed yet. *)
Definition consume_new (consume : RedisReply -> list Z -> outcome parsed) (r : RedisReply) (buf : list Z)
    : outcome parsed :=
  match buf with
  | [] => Ok (PARSE_ERROR_NOT_ENOUGH_DATA, r, buf)
  | fc :: _ =>
      if (fc =? 45) || (fc =? 43) then Ok (consume_line fc r buf)
      else if (fc =? 36) || (fc =? 42) || (fc =? 58) then
        match read_header buf with
        | inl err => Ok (err, r, buf)
        | inr (value, crlf_pos) =>
            if fc =? 58 then Ok (PARSE_OK, mk_reply REDIS_REPLY_INTEGER 0 (Integer value), zdrop (crlf_pos + 2) buf)
            else if fc =? 36 then Ok (consume_bulk value crlf_pos r buf)
            else consume_array consume value crlf_pos r buf
        end
      else Ok (PARSE_ERROR_ABSOLUTELY_WRONG, r, buf)
  end.

(** [depth] bounds the nesting of the arrays. *)
Fixpoint consume_rec (depth : nat) (r : RedisReply) (buf : list Z) : outcome parsed :=
  match depth with
  | O => Undefined
  | S depth =>
      match r with
      | mk_reply REDIS_REPLY_ARRAY length (Array (Some last_index) subs) =>
          if 0 <=? last_index then
            (* The parsing was suspended while parsing sub replies. *)
            res ← sub_loop (consume_rec depth) (Z.to_nat (length - last_index)) last_index subs buf;
            Ok (after_subs length res)
          else consume_new (consume_rec depth) r buf
      | mk_reply REDIS_REPLY_ARRAY _ _ => Undefined (* last_index was never written *)
      | _ => consume_new (consume_rec depth) r buf
      end
  end.

(** How deep a suspended reply is nested. *)
Fixpoint nesting (r : RedisReply) : nat :=
  match r with
  | mk_reply _ _ (Array _ subs) => S (fold_right (fun r n => Nat.max (nesting r) n) O subs)
  | _ => O
  end.

(** Every array that is entered has consumed its header: the bytes and the
    arrays that exist already bound the depth. *)
Definition ConsumePartialCordBuf (r : RedisReply) (buf : list Z) : outcome parsed :=
  consume_rec (S (nesting r + length buf)) r buf.

End consume.

(** ** Building and serializing replies *)

(** [_length] bytes of the string member that the length selects. *)
Definition str_bytes (length : Z) (d : reply_data RedisReply) : outcome (list Z) :=
  match d with
  | Short s => if (length <? short_size) && (0 <=? length) && (length <=? zlen s) then Ok (ztake length s) else Undefined
  | Long s => if (short_size <=? length) && (length <=? zlen s) then Ok (ztake length s) else Undefined
  | _ => Undefined
  end.

(** Everything but the sub replies of an array, whose serialization is
    [body]: the bytes appended and the value returned. *)
Definition serialize_with (type : redis_reply_type) (length : Z) (d : reply_data RedisReply)
    (body : outcome (bool * list Z)) : outcome (bool * list Z) :=
  match type with
  | REDIS_REPLY_ERROR | REDIS_REPLY_STATUS =>
      s ← str_bytes length d;
      Ok (true, (if decide (type = REDIS_REPLY_ERROR) then 45 else 43) :: s ++ CRLF)
  | REDIS_REPLY_INTEGER =>
      match d with
      | Integer v => s ← append_decimal v; Ok (true, 58 :: s ++ CRLF)
      | _ => Undefined
      end
  | REDIS_REPLY_STRING =>
      n ← append_decimal length;
      if negb (length =? npos) then s ← str_bytes length d; Ok (true, 36 :: n ++ CRLF ++ s ++ CRLF)
      else Ok (true, 36 :: n ++ CRLF)
  | REDIS_REPLY_ARRAY =>
      n ← append_decimal length;
      if negb (length =? npos) then '(ok, s) ← body; Ok (ok, 42 :: n ++ CRLF ++ s)
      else Ok (true, 42 :: n ++ CRLF)
  | REDIS_REPLY_NIL => Ok (false, [])
  end.

(** [for (int i = 0; i < _length; ++i)] over the sub replies. *)
Fixpoint serialize_subs (serialize : RedisReply -> outcome (bool * list Z)) (n : Z) (subs : list RedisReply)
    : outcome (bool * list Z) :=
  if n <=? 0 then Ok (true, [])
  else match subs with
       | [] => Undefined
       | r :: subs =>
           '(ok, s) ← serialize r;
           if ok : bool then '(ok, s') ← serialize_subs serialize (n - 1) subs; Ok (ok, s ++ s') else Ok (false, s)
       end.

Fixpoint SerializeTo (r : RedisReply) : outcome (bool * list Z) :=
  match r with
  | mk_reply type length d =>
      serialize_with type length d
        (match d with
         | Array _ subs => serialize_subs SerializeTo length subs
         | _ => serialize_subs (fun _ => Undefined) length []
         end)
  end.

Section setters.
Context (allocates : Z -> bool).

(** [if (_type != REDIS_REPLY_NIL) Reset();] *)
Definition reset_unless_nil (r : RedisReply) : RedisReply :=
  if decide (_type r = REDIS_REPLY_NIL) then r else Reset.

Definition SetNullArray (r : RedisReply) : RedisReply :=
  mk_reply REDIS_REPLY_ARRAY npos (_data (reset_unless_nil r)).

Definition SetNullString (r : RedisReply) : RedisReply :=
  mk_reply REDIS_REPLY_STRING npos (_data (reset_unless_nil r)).

Definition SetInteger (value : Z) (r : RedisReply) : RedisReply := mk_reply REDIS_REPLY_INTEGER 0 (Integer value).

(** Writing [replies] leaves [last_index] as it was. *)
Definition SetArray (size : Z) (r : RedisReply) : RedisReply :=
  let r := reset_unless_nil r in
  if size <? 0 then mk_reply REDIS_REPLY_ARRAY (_length r) (_data r)
  else if size =? 0 then mk_reply REDIS_REPLY_ARRAY 0 (_data r)
  else if negb (allocates (reply_size_of * size)) then mk_reply REDIS_REPLY_ARRAY (_length r) (_data r)
  else mk_reply REDIS_REPLY_ARRAY size
         (Array (match _data r with Array last_index _ => last_index | _ => None end) (replicate (Z.to_nat size) Reset)).

Definition SetStringImpl (str : list Z) (type : redis_reply_type) (r : RedisReply) : RedisReply :=
  let r := reset_unless_nil r in
  let size := zlen str in
  if size <? short_size then mk_reply type (s32 size) (Short str)
  else if negb (allocates ((size / 8 + 1) * 8)) then r
  else mk_reply type (s32 size) (Long str).

Definition SetStatus (str : list Z) : RedisReply -> RedisReply := SetStringImpl str REDIS_REPLY_STATUS.
Definition SetError (str : list Z) : RedisReply -> RedisReply := SetStringImpl str REDIS_REPLY_ERROR.
Definition SetString (str : list Z) : RedisReply -> RedisReply := SetStringImpl str REDIS_REPLY_STRING.

(** [reply[index].SetXXX(...)]: the element that [operator[]] returns is set in
    place.  The length is compared as a [size_t]; out of range, or if the reply is
    no array, it is a static nil reply that is set. *)
Definition with_sub (index : Z) (set : RedisReply -> outcome RedisReply) (r : RedisReply) : outcome RedisReply :=
  match r with
  | mk_reply REDIS_REPLY_ARRAY length d =>
      if index <? u64 length then
        match d with
        | Array last_index subs =>
            sub ← deref (zget subs index);
            sub ← set sub;
            Ok (mk_reply REDIS_REPLY_ARRAY length (Array last_index (zset index sub subs)))
        | _ => Undefined
        end
      else Ok r
  | _ => Ok r
  end.

End setters.

(** ** The protocol *)

(** What a reply means.  There are two ways to write nil. *)
Inductive value :=
| VStatus (s : list Z)
| VError (s : list Z)
| VInteger (z : Z)
| VString (s : list Z)
| VNullString
| VNullArray
| VArray (vs : list value).

Fixpoint value_rect' (P : value -> Prop)
    (Hst : forall s, P (VStatus s)) (Her : forall s, P (VError s)) (Hi : forall z, P (VInteger z))
    (Hs : forall s, P (VString s)) (Hns : P VNullString) (Hna : P VNullArray)
    (Ha : forall vs, Forall P vs -> P (VArray vs)) (v : value) : P v :=
  match v with
  | VStatus s => Hst s | VError s => Her s | VInteger z => Hi z | VString s => Hs s
  | VNullString => Hns | VNullArray => Hna
  | VArray vs => Ha vs ((fix go vs : Forall P vs := match vs with
      | [] => Forall_nil_2 _
      | v :: vs => Forall_cons_2 _ _ _ (value_rect' P Hst Her Hi Hs Hns Hna Ha v) (go vs) end) vs)
  end.

Definition dec (d : Z) : list Z := match append_decimal d with Ok s => s | _ => [] end.

(** The redis serialization protocol. *)
Fixpoint encode (v : value) : list Z :=
  match v with
  | VStatus s => 43 :: s ++ CRLF
  | VError s => 45 :: s ++ CRLF
  | VInteger z => 58 :: dec z ++ CRLF
  | VString s => 36 :: dec (zlen s) ++ CRLF ++ s ++ CRLF
  | VNullString => 36 :: dec (-1) ++ CRLF
  | VNullArray => 42 :: dec (-1) ++ CRLF
  | VArray vs => 42 :: dec (zlen vs) ++ CRLF ++ concat (map encode vs)
  end.

Definition str_reply (type : redis_reply_type) (s : list Z) : RedisReply :=
  mk_reply type (zlen s) (if zlen s <? short_size then Short s else Long s).

(** The reply that a complete parse leaves. *)
Fixpoint reply_of (v : value) : RedisReply :=
  match v with
  | VStatus s => str_reply REDIS_REPLY_STATUS s
  | VError s => str_reply REDIS_REPLY_ERROR s
  | VInteger z => mk_reply REDIS_REPLY_INTEGER 0 (Integer z)
  | VString s => str_reply REDIS_REPLY_STRING s
  | VNullString | VNullArray => mk_reply REDIS_REPLY_NIL 0 (Integer 0)
  | VArray vs => mk_reply REDIS_REPLY_ARRAY (zlen vs) (Array (Some (-1)) (map reply_of vs))
  end.

(** How a server builds the reply for a value, from a reply in any state: a
    setter for each, and for the elements of an array the setters on
    [reply[0]], [reply[1]], ... *)
Definition set_subs (set : value -> RedisReply -> outcome RedisReply) : Z -> list value -> RedisReply -> outcome RedisReply :=
  fix go i vs r :=
    match vs with
    | [] => Ok r
    | v :: vs => r ← with_sub i (set v) r; go (i + 1) vs r
    end.

Section build.
Context (allocates : Z -> bool).

Fixpoint build (v : value) (r : RedisReply) : outcome RedisReply :=
  match v with
  | VStatus s => Ok (SetStatus allocates s r)
  | VError s => Ok (SetError allocates s r)
  | VInteger z => Ok (SetInteger z r)
  | VString s => Ok (SetString allocates s r)
  | VNullString => Ok (SetNullString r)
  | VNullArray => Ok (SetNullArray r)
  | VArray vs => set_subs build 0 vs (SetArray allocates (zlen vs) r)
  end.

End build.

(** Lines have no CRLF, lengths fit an [int], and the least [int64_t] is left
    out (it cannot be written). *)
Fixpoint value_ok (v : value) : Prop :=
  match v with
  | VStatus s | VError s => find_sub CRLF s = None /\ zlen s < 2 ^ 31
  | VInteger z => - 2 ^ 63 < z < 2 ^ 63
  | VString s => zlen s < 2 ^ 31
  | VNullString | VNullArray => True
  | VArray vs => zlen vs < 2 ^ 31 /\ (fix all vs := match vs with [] => True | v :: vs => value_ok v /\ all vs end) vs
  end.

Lemma value_ok_array vs : value_ok (VArray vs) <-> zlen vs < 2 ^ 31 /\ Forall value_ok vs.
Proof.
  cbn [value_ok]. f_equiv. induction vs as [|v vs IH]; [split; [constructor|done]|].
  rewrite Forall_cons, <- IH. done.
Qed.

(** Which value a reply built by the setters stands for. *)
Inductive stands_for : RedisReply -> value -> Prop :=
| sf_status s : stands_for (str_reply REDIS_REPLY_STATUS s) (VStatus s)
| sf_error s : stands_for (str_reply REDIS_REPLY_ERROR s) (VError s)
| sf_integer n z : stands_for (mk_reply REDIS_REPLY_INTEGER n (Integer z)) (VInteger z)
| sf_string s : stands_for (str_reply REDIS_REPLY_STRING s) (VString s)
| sf_null_string d : stands_for (mk_reply REDIS_REPLY_STRING npos d) VNullString
| sf_null_array d : stands_for (mk_reply REDIS_REPLY_ARRAY npos d) VNullArray
| sf_empty d : stands_for (mk_reply REDIS_REPLY_ARRAY 0 d) (VArray [])
| sf_array li rs vs : Forall2 stands_for rs vs -> stands_for (mk_reply REDIS_REPLY_ARRAY (zlen vs) (Array li rs)) (VArray vs).
