(* ===== verification/RedisReplySpec.v ===== *)
(** * Parsing redis replies: round trip and safety

    A reply that the server side serialized is parsed back, whatever the pieces
    in which its bytes arrive; on arbitrary bytes the parser returns, consumes
    a prefix, and leaves a complete reply or a state from which it goes on. *)

From S2P Require Import Prelude ByteSearch Decimal RedisReply.
Local Open Scope Z_scope.

(** ** Headers *)

Lemma find_crlf_none s : Forall (fun c => c <> 13) s -> find_sub CRLF s = None.
Proof.
  induction 1 as [|c s Hc _ IH]; [done|]. cbn [find_sub]. rewrite bool_decide_eq_false_2; [by rewrite IH|].
  intros [t Ht]. injection Ht as -> _. done.
Qed.

Lemma dec_ok z rest : - 2 ^ 63 < z < 2 ^ 63 -> no_digit_first rest ->
  append_decimal z = Ok (dec z) /\ 0 < zlen (dec z) <= 20 /\ strtoll (dec z ++ rest) = (z, zlen (dec z)) /\
  Forall (fun c => c <> 13) (dec z).
Proof.
  intros Hz Hr. destruct (strtoll_append_decimal z rest Hz Hr) as (s & E & Hl & Hs & Hd).
  unfold dec. rewrite E. split_and!; try done; try lia.
  eapply Forall_impl; [done|]. intros c [Hc| ->]; [|done]. unfold isdigit in Hc. intros ->. done.
Qed.

Section header.
Context (fc z : Z) (Hfc : fc <> 13) (Hz : - 2 ^ 63 < z < 2 ^ 63).

Lemma dec_len : 0 < zlen (dec z) <= 20.
Proof using Hz. by destruct (dec_ok z [] Hz I) as (_ & ? & _). Qed.

Lemma header_crlf rest : find_sub CRLF (fc :: dec z ++ CRLF ++ rest) = Some (zlen (dec z) + 1).
Proof using All.
  destruct (dec_ok z [] Hz I) as (_ & _ & _ & Hd).
  rewrite <- (zlen_cons fc). apply (find_crlf_line (fc :: dec z)), find_crlf_none. by constructor.
Qed.

Lemma read_header_ok rest : read_header (fc :: dec z ++ CRLF ++ rest) = inr (z, zlen (dec z) + 1).
Proof using All.
  pose proof dec_len as Hl. unfold read_header.
  rewrite (find_sub_ztake _ _ _ 31 (header_crlf rest)) by (change (zlen CRLF) with 2; lia).
  assert (zdrop 1 (ztake 31 (fc :: dec z ++ CRLF ++ rest)) = dec z ++ ztake (30 - zlen (dec z)) (CRLF ++ rest)) as ->.
  { rewrite zdrop_ztake by lia. change (zdrop 1 (fc :: ?s)) with s. by rewrite ztake_app_ge by lia. }
  destruct (dec_ok z (ztake (30 - zlen (dec z)) (CRLF ++ rest)) Hz) as (_ & _ & -> & _).
  { unfold ztake. destruct (Z.to_nat (30 - zlen (dec z))) eqn:E; [lia|]. done. }
  rewrite (proj2 (Z.eqb_eq _ _)) by lia. done.
Qed.

(** A part of the header is not enough. *)
Lemma read_header_part a b :
  fc :: dec z ++ CRLF = a ++ b -> b <> [] -> read_header a = inl PARSE_ERROR_NOT_ENOUGH_DATA.
Proof using All.
  intros E Hb. pose proof dec_len. pose proof (header_crlf []) as Hf. rewrite app_nil_r, E in Hf.
  assert (zlen (a ++ b) = zlen (dec z) + 3) as Hlen by (rewrite <- E, zlen_cons, zlen_app; change (zlen CRLF) with 2; lia).
  assert (0 < zlen b) by (destruct b; [done|rewrite zlen_cons; pose proof (zlen_nonneg b); lia]).
  rewrite zlen_app in Hlen. unfold read_header. rewrite ztake_all by lia.
  rewrite (find_sub_short _ _ _ _ Hf); [done|]. change (zlen CRLF) with 2. lia.
Qed.

Lemma drop_header rest : zdrop (zlen (dec z) + 1 + 2) (fc :: dec z ++ CRLF ++ rest) = rest.
Proof.
  change (fc :: dec z ++ CRLF ++ rest) with ((fc :: dec z) ++ CRLF ++ rest). rewrite (assoc_L (++)).
  apply zdrop_app_exact. rewrite zlen_app, zlen_cons. done.
Qed.

(** A prefix ends in the header or after it. *)
Lemma header_split body a b :
  fc :: dec z ++ CRLF ++ body = a ++ b ->
  (exists b1, fc :: dec z ++ CRLF = a ++ b1 /\ b1 <> []) \/
  (exists a2, a = fc :: dec z ++ CRLF ++ a2 /\ body = a2 ++ b).
Proof.
  intros E. replace (fc :: dec z ++ CRLF ++ body) with ((fc :: dec z ++ CRLF) ++ body) in E
    by (cbn [app]; by rewrite <- (assoc_L (++))).
  apply app_eq_app in E as [l [[E1 E2]|[E1 E2]]].
  - destruct l as [|c l].
    + right. exists []. rewrite app_nil_r in E1. by rewrite app_nil_r, E2.
    + left. by exists (c :: l).
  - right. exists l. rewrite E1. cbn [app]. by rewrite <- (assoc_L (++)).
Qed.

End header.

(** ** Values in parts *)

(** A reply whose parsing is not suspended. *)
Definition fresh (r : RedisReply) : Prop :=
  match r with
  | mk_reply REDIS_REPLY_ARRAY _ (Array (Some last_index) _) => last_index < 0
  | mk_reply REDIS_REPLY_ARRAY _ _ => False
  | _ => True
  end.

(** [awaits r v t]: [r] is a state of the parse of [v] that still needs the
    bytes [t]. *)
Inductive awaits : RedisReply -> value -> list Z -> Prop :=
| aw_new r v : fresh r -> awaits r v (encode v)
| aw_sub vs1 r v t vs2 :
    awaits r v t ->
    awaits (mk_reply REDIS_REPLY_ARRAY (zlen (vs1 ++ v :: vs2))
              (Array (Some (zlen vs1)) (map reply_of vs1 ++ r :: replicate (length vs2) Reset)))
           (VArray (vs1 ++ v :: vs2)) (t ++ concat (map encode vs2)).

Lemma fresh_reply_of v : fresh (reply_of v).
Proof. destruct v; cbn; try done; unfold str_reply; destruct (_ <? _); done. Qed.

Section parses.
Context (f : RedisReply -> list Z -> outcome parsed).

(** [f] parses [v] from every state: all of the bytes that are missing give
    the reply, a proper prefix of them gives a state that awaits the rest. *)
Definition parses (v : value) : Prop :=
  forall r t, awaits r v t ->
    (forall rest, f r (t ++ rest) = Ok (PARSE_OK, reply_of v, rest)) /\
    (forall a b, t = a ++ b -> b <> [] ->
       exists r' a', f r a = Ok (PARSE_ERROR_NOT_ENOUGH_DATA, r', a') /\ awaits r' v (a' ++ b)).

Lemma sub_at (ds : list RedisReply) r l : zget (ds ++ r :: l) (zlen ds) = Some r.
Proof. rewrite zget_app_r by lia. rewrite Z.sub_diag. apply zget_cons_0. Qed.

Lemma sub_set (ds : list RedisReply) r r' l : zset (zlen ds) r' (ds ++ r :: l) = ds ++ r' :: l.
Proof.
  unfold zset. rewrite (proj2 (Z.ltb_ge _ _)) by apply zlen_nonneg. unfold zlen. rewrite Nat2Z.id.
  by rewrite insert_app_r_alt, Nat.sub_diag by lia.
Qed.

(** One sub reply that is complete. *)
Lemma sub_loop_next ds r n buf d buf' l :
  f r buf = Ok (PARSE_OK, d, buf') -> zlen ds + 1 < 2 ^ 31 ->
  sub_loop f (S n) (zlen ds) (ds ++ r :: l) buf = sub_loop f n (zlen (ds ++ [d])) ((ds ++ [d]) ++ l) buf'.
Proof.
  intros E Hn. cbn [sub_loop]. rewrite sub_at, E. cbn [mbind outcome_bind].
  rewrite bool_decide_eq_true_2 by done. cbn [negb]. rewrite (proj2 (Z.eqb_neq _ _)) by lia.
  by rewrite sub_set, zlen_app, <- (assoc_L (++)).
Qed.

(** One that is not. *)
Lemma sub_loop_end ds r n buf e r' buf' l :
  f r buf = Ok (e, r', buf') -> e <> PARSE_OK ->
  sub_loop f (S n) (zlen ds) (ds ++ r :: l) buf = Ok (e, zlen ds, ds ++ r' :: l, buf').
Proof.
  intros E He. cbn [sub_loop]. rewrite sub_at, E. cbn [mbind outcome_bind].
  rewrite bool_decide_eq_false_2 by done. cbn [negb]. by rewrite sub_set.
Qed.

Lemma zlen_map_reply_of vs : zlen (map reply_of vs) = zlen vs.
Proof. unfold zlen. by rewrite length_map. Qed.

Lemma sub_loop_step vs1 v r n buf buf' k :
  f r buf = Ok (PARSE_OK, reply_of v, buf') -> zlen vs1 + 1 < 2 ^ 31 ->
  sub_loop f (S n) (zlen vs1) (map reply_of vs1 ++ r :: replicate k Reset) buf =
  sub_loop f n (zlen (vs1 ++ [v])) (map reply_of (vs1 ++ [v]) ++ replicate k Reset) buf'.
Proof.
  intros E Hn. rewrite <- (zlen_map_reply_of vs1), (sub_loop_next _ _ _ _ _ _ _ E) by (by rewrite zlen_map_reply_of).
  by rewrite map_app, !zlen_app, zlen_map_reply_of.
Qed.

Lemma sub_loop_stop vs1 r n buf e r' buf' k :
  f r buf = Ok (e, r', buf') -> e <> PARSE_OK ->
  sub_loop f (S n) (zlen vs1) (map reply_of vs1 ++ r :: replicate k Reset) buf =
  Ok (e, zlen vs1, map reply_of vs1 ++ r' :: replicate k Reset, buf').
Proof. intros E He. rewrite <- (zlen_map_reply_of vs1). by apply sub_loop_end. Qed.

(** The sub replies from the one that is being parsed on. *)
Lemma sub_loop_all vs2 : forall vs1 v r t rest,
  Forall parses (v :: vs2) -> awaits r v t -> zlen (vs1 ++ v :: vs2) < 2 ^ 31 ->
  sub_loop f (S (length vs2)) (zlen vs1) (map reply_of vs1 ++ r :: replicate (length vs2) Reset)
    (t ++ concat (map encode vs2) ++ rest) =
  Ok (PARSE_OK, zlen (vs1 ++ v :: vs2), map reply_of (vs1 ++ v :: vs2), rest).
Proof.
  induction vs2 as [|v2 vs2 IH]; intros vs1 v r t rest [Hv Hp]%Forall_cons Hr Hn;
    destruct (Hv r t Hr) as [Hall _]; pose proof Hn as Hn'; rewrite zlen_app, !zlen_cons in Hn'.
  - rewrite (sub_loop_step vs1 v _ _ _ rest) by (apply Hall || (rewrite (@zlen_nil value) in Hn'; lia)).
    cbn [sub_loop length replicate]. by rewrite app_nil_r.
  - pose proof (zlen_nonneg vs2).
    rewrite (sub_loop_step vs1 v _ _ _ (concat (map encode (v2 :: vs2)) ++ rest)) by (apply Hall || lia).
    cbn [map concat length replicate]. rewrite <- (assoc_L (++) (encode v2)).
    change (v :: v2 :: vs2) with ([v] ++ v2 :: vs2) in *. rewrite (assoc_L (++) vs1 [v] (v2 :: vs2)) in *.
    by apply IH; [|constructor|].
Qed.

Lemma sub_loop_part vs2 : forall vs1 v r t a b,
  Forall parses (v :: vs2) -> awaits r v t -> zlen (vs1 ++ v :: vs2) < 2 ^ 31 ->
  t ++ concat (map encode vs2) = a ++ b -> b <> [] ->
  exists vs1' v' vs2' r' t' a', vs1 ++ v :: vs2 = vs1' ++ v' :: vs2' /\ awaits r' v' t' /\
    a' ++ b = t' ++ concat (map encode vs2') /\
    sub_loop f (S (length vs2)) (zlen vs1) (map reply_of vs1 ++ r :: replicate (length vs2) Reset) a =
      Ok (PARSE_ERROR_NOT_ENOUGH_DATA, zlen vs1', map reply_of vs1' ++ r' :: replicate (length vs2') Reset, a').
Proof.
  induction vs2 as [|v2 vs2 IH]; intros vs1 v r t a b [Hv Hp]%Forall_cons Hr Hn E Hb;
    destruct (Hv r t Hr) as [Hall Hpart]; pose proof Hn as Hn'; rewrite zlen_app, !zlen_cons in Hn'.
  - cbn [map concat] in E. rewrite app_nil_r in E. destruct (Hpart a b E Hb) as (r' & a' & Ef & Ha').
    exists vs1, v, [], r', (a' ++ b), a'. split_and!; [done|done|by rewrite app_nil_r|]. by apply sub_loop_stop.
  - pose proof (zlen_nonneg vs2).
    assert ((exists l, t = a ++ l /\ b = l ++ concat (map encode (v2 :: vs2)) /\ l <> []) \/
            (exists l, a = t ++ l /\ concat (map encode (v2 :: vs2)) = l ++ b)) as [(l & Et & Eb & Hl)|(l & Ea & Ec)].
    { apply app_eq_app in E as [l [[E1 E2]|[E1 E2]]]; [|right; by exists l].
      destruct l as [|c l]; [right; exists []; rewrite app_nil_r in *; by rewrite E1, E2|left; by exists (c :: l)]. }
    + destruct (Hpart a l Et Hl) as (r' & a' & Ef & Ha').
      exists vs1, v, (v2 :: vs2), r', (a' ++ l), a'. split_and!; [done|done|by rewrite Eb, (assoc_L (++))|].
      by apply sub_loop_stop.
    + change (v :: v2 :: vs2) with ([v] ++ v2 :: vs2) in *. rewrite (assoc_L (++) vs1 [v] (v2 :: vs2)) in *.
      destruct (IH (vs1 ++ [v]) v2 Reset (encode v2) l b) as (vs1' & v' & vs2' & r' & t' & a' & E1 & E2 & E3 & E4);
        [done|by constructor|done|done|done|].
      exists vs1', v', vs2', r', t', a'. split_and!; [done..|]. rewrite <- E4, Ea.
      by rewrite (sub_loop_step vs1 v _ _ _ l) by (apply Hall || lia).
Qed.

End parses.

(** ** Each kind of value *)

Section kinds.
Context (allocates : Z -> bool).
Context (Halloc : forall n, 0 <= n < 2 ^ 37 -> allocates n = true).

Lemma fresh_consume d r buf :
  fresh r -> consume_rec allocates (S d) r buf = consume_new allocates (consume_rec allocates d) r buf.
Proof.
  destruct r as [[] n [| | |[li|] subs]]; cbn [fresh consume_rec]; try done.
  intros Hli. by rewrite (proj2 (Z.leb_gt _ _)).
Qed.

Lemma string_fits (s : list Z) : zlen s < 2 ^ 31 -> s32 (zlen s) = zlen s /\ allocates ((zlen s / 8 + 1) * 8) = true.
Proof using Halloc.
  intros Hs. pose proof (zlen_nonneg s). split; [apply s32_small; lia|]. apply Halloc.
  pose proof (Z.div_pos (zlen s) 8 ltac:(lia) ltac:(lia)). pose proof (Z.mul_div_le (zlen s) 8 ltac:(lia)). lia.
Qed.

Lemma consume_line_ok fc s r rest :
  fc <> 13 -> find_sub CRLF s = None -> zlen s < 2 ^ 31 ->
  consume_line allocates fc r (fc :: s ++ CRLF ++ rest) =
    (PARSE_OK, str_reply (if fc =? 45 then REDIS_REPLY_ERROR else REDIS_REPLY_STATUS) s, rest).
Proof using Halloc.
  intros Hfc Hn Hs. destruct (string_fits s Hs) as [E1 E2]. unfold consume_line.
  assert (find_sub CRLF (fc :: s) = None) as Hn'.
  { cbn [find_sub]. rewrite bool_decide_eq_false_2, Hn; [done|]. intros [t Ht]. by injection Ht. }
  change (fc :: s ++ CRLF ++ rest) with ((fc :: s) ++ CRLF ++ rest). unfold CRLF.
  rewrite (find_crlf_line (fc :: s)), ztake_app_exact by done.
  rewrite (assoc_L (++)), zdrop_app_exact by (by rewrite zlen_app).
  rewrite zlen_cons. replace (zlen s + 1 - 1) with (zlen s) by lia.
  change (zdrop 1 (fc :: s)) with s. rewrite E1, E2. unfold str_reply. by destruct (zlen s <? short_size).
Qed.

Lemma consume_line_part fc s r a b :
  fc <> 13 -> find_sub CRLF s = None -> zlen s < 2 ^ 31 ->
  fc :: s ++ CRLF = a ++ b -> b <> [] ->
  consume_line allocates fc r a = (PARSE_ERROR_NOT_ENOUGH_DATA, r, a).
Proof.
  intros Hfc Hn Hs E Hb. unfold consume_line.
  assert (find_sub CRLF (fc :: s) = None) as Hn'.
  { cbn [find_sub]. rewrite bool_decide_eq_false_2, Hn; [done|]. intros [t Ht]. by injection Ht. }
  pose proof (find_crlf_line (fc :: s) [] Hn') as Hf. rewrite app_nil_r in Hf. unfold CRLF in E. cbn [app] in Hf.
  rewrite E in Hf. assert (zlen (a ++ b) = zlen s + 3) as Hl by (rewrite <- E, zlen_cons, zlen_app; change (zlen [13; 10]) with 2; lia).
  rewrite zlen_cons in Hf. assert (0 < zlen b) by (destruct b; [done|rewrite zlen_cons; pose proof (zlen_nonneg b); lia]).
  rewrite zlen_app in Hl. unfold CRLF.
  rewrite (find_sub_short _ _ _ _ Hf) by (change (zlen [13; 10]) with 2; lia).
  rewrite (proj2 (Z.ltb_ge _ _)) by (unfold UINT32_MAX; lia). done.
Qed.

Lemma consume_bulk_ok s r rest :
  zlen s < 2 ^ 31 ->
  consume_bulk allocates (zlen s) (zlen (dec (zlen s)) + 1) r (36 :: dec (zlen s) ++ CRLF ++ s ++ CRLF ++ rest) =
    (PARSE_OK, str_reply REDIS_REPLY_STRING s, rest).
Proof using Halloc.
  intros Hs. destruct (string_fits s Hs) as [E1 E2]. pose proof (zlen_nonneg s). unfold consume_bulk, UINT32_MAX.
  rewrite (proj2 (Z.ltb_ge (zlen s) 0)), (proj2 (Z.ltb_ge 4294967295 (zlen s))), (proj2 (Z.ltb_ge (zlen (36 :: _)) _)), E2, andb_false_r.
  - rewrite drop_header, ztake_app_exact, zdrop_app_exact by done.
    rewrite ztake_app_exact, zdrop_app_exact by done. rewrite bool_decide_eq_true_2, E1 by done. done.
  - rewrite !zlen_cons, !zlen_app. change (zlen CRLF) with 2. pose proof (zlen_nonneg rest). lia.
  - lia.
  - lia.
Qed.

Lemma consume_bulk_part s r a b :
  zlen s < 2 ^ 31 -> 36 :: dec (zlen s) ++ CRLF ++ s ++ CRLF = a ++ b -> b <> [] ->
  consume_bulk allocates (zlen s) (zlen (dec (zlen s)) + 1) r a = (PARSE_ERROR_NOT_ENOUGH_DATA, r, a).
Proof.
  intros Hs E Hb. pose proof (zlen_nonneg s). unfold consume_bulk, UINT32_MAX.
  rewrite (proj2 (Z.ltb_ge (zlen s) 0)), (proj2 (Z.ltb_ge 4294967295 (zlen s))) by lia.
  rewrite (proj2 (Z.ltb_lt _ _)); [done|].
  assert (0 < zlen b) by (destruct b; [done|rewrite zlen_cons; pose proof (zlen_nonneg b); lia]).
  assert (zlen (a ++ b) = zlen (dec (zlen s)) + 1 + 2 + zlen s + 2) as Hl.
  { rewrite <- E, !zlen_cons, !zlen_app. change (zlen CRLF) with 2. lia. }
  rewrite zlen_app in Hl. lia.
Qed.

(** How deep the arrays of a value are nested. *)
Fixpoint vdepth (v : value) : nat :=
  match v with
  | VArray vs => S (fold_right (fun v n => Nat.max (vdepth v) n) O vs)
  | _ => O
  end.

Lemma vdepth_sub v vs : v ∈ vs -> (vdepth v < vdepth (VArray vs))%nat.
Proof.
  intros Hv. cbn [vdepth]. induction Hv as [v vs|v v' vs _ IH]; cbn [fold_right]; lia.
Qed.

(** A value whose parse is all or nothing. *)
Lemma whole_parses d v r :
  fresh r ->
  (forall rest, consume_new allocates (consume_rec allocates d) r (encode v ++ rest) = Ok (PARSE_OK, reply_of v, rest)) ->
  (forall c a b, encode v = (c :: a) ++ b -> b <> [] ->
     exists r' a', consume_new allocates (consume_rec allocates d) r (c :: a) = Ok (PARSE_ERROR_NOT_ENOUGH_DATA, r', a') /\
       awaits r' v (a' ++ b)) ->
  (forall rest, consume_rec allocates (S d) r (encode v ++ rest) = Ok (PARSE_OK, reply_of v, rest)) /\
  (forall a b, encode v = a ++ b -> b <> [] ->
     exists r' a', consume_rec allocates (S d) r a = Ok (PARSE_ERROR_NOT_ENOUGH_DATA, r', a') /\ awaits r' v (a' ++ b)).
Proof.
  intros Hr H1 H2. split; [intros rest; by rewrite fresh_consume|].
  intros [|c a] b E Hb; [|rewrite fresh_consume by done; by apply H2].
  exists r, []. rewrite fresh_consume by done. split; [done|]. rewrite <- E. by constructor.
Qed.

Lemma line_parses d fc s v r :
  (fc = 43 /\ v = VStatus s) \/ (fc = 45 /\ v = VError s) -> value_ok v -> fresh r ->
  (forall rest, consume_new allocates (consume_rec allocates d) r (encode v ++ rest) = Ok (PARSE_OK, reply_of v, rest)) /\
  (forall c a b, encode v = (c :: a) ++ b -> b <> [] ->
     exists r' a', consume_new allocates (consume_rec allocates d) r (c :: a) = Ok (PARSE_ERROR_NOT_ENOUGH_DATA, r', a') /\
       awaits r' v (a' ++ b)).
Proof using Halloc.
  intros Hv Hok Hr.
  assert (find_sub CRLF s = None /\ zlen s < 2 ^ 31) as [Hn Hs] by (destruct Hv as [[_ ->]|[_ ->]]; done).
  assert (encode v = fc :: s ++ CRLF) as Ev by (destruct Hv as [[-> ->]|[-> ->]]; done).
  assert ((fc =? 45) || (fc =? 43) = true) as Hfc by (destruct Hv as [[-> _]|[-> _]]; done).
  assert (fc <> 13) as H13 by (destruct Hv as [[-> _]|[-> _]]; done). split.
  - intros rest. rewrite Ev. cbn [app consume_new]. rewrite Hfc, <- (assoc_L (++)), consume_line_ok by done.
    destruct Hv as [[-> ->]|[-> ->]]; done.
  - intros c a b E Hb. exists r, (c :: a). split; [|rewrite <- E; by constructor].
    rewrite Ev in E. injection E as <- E. cbn [consume_new]. rewrite Hfc.
    rewrite (consume_line_part fc s r (fc :: a) b); [done..|by rewrite E|done].
Qed.

(** The values that start with a header. *)
Lemma header_parses d fc z body v r :
  encode v = fc :: dec z ++ CRLF ++ body -> - 2 ^ 63 < z < 2 ^ 63 -> fc = 36 \/ fc = 42 \/ fc = 58 -> fresh r ->
  let after buf :=
    if fc =? 58 then Ok (PARSE_OK, mk_reply REDIS_REPLY_INTEGER 0 (Integer z), zdrop (zlen (dec z) + 1 + 2) buf)
    else if fc =? 36 then Ok (consume_bulk allocates z (zlen (dec z) + 1) r buf)
    else consume_array allocates (consume_rec allocates d) z (zlen (dec z) + 1) r buf in
  (forall rest, after (fc :: dec z ++ CRLF ++ body ++ rest) = Ok (PARSE_OK, reply_of v, rest)) ->
  (forall a2 b, body = a2 ++ b -> b <> [] ->
     exists r' a', after (fc :: dec z ++ CRLF ++ a2) = Ok (PARSE_ERROR_NOT_ENOUGH_DATA, r', a') /\ awaits r' v (a' ++ b)) ->
  (forall rest, consume_rec allocates (S d) r (encode v ++ rest) = Ok (PARSE_OK, reply_of v, rest)) /\
  (forall a b, encode v = a ++ b -> b <> [] ->
     exists r' a', consume_rec allocates (S d) r a = Ok (PARSE_ERROR_NOT_ENOUGH_DATA, r', a') /\ awaits r' v (a' ++ b)).
Proof.
  intros Ev Hz Hfc Hr after H1 H2.
  assert ((fc =? 45) || (fc =? 43) = false /\ (fc =? 36) || (fc =? 42) || (fc =? 58) = true /\ fc <> 13) as Hc
    by (destruct Hfc as [->|[->| ->]]; done).
  destruct Hc as (Hc1 & Hc2 & H13).
  apply whole_parses; [done|..].
  - intros rest. rewrite Ev. cbn [app consume_new]. rewrite Hc1, Hc2, <- !(assoc_L (++)), read_header_ok by done. apply H1.
  - intros c a b E Hb. pose proof E as E'. rewrite Ev in E'.
    assert (c = fc) as -> by (by injection E'). cbn [consume_new]. rewrite Hc1, Hc2.
    destruct (header_split fc z body (fc :: a) b) as [(b1 & Ea & Hb1)|(a2 & Ea & Eb)]; [done|..].
    + exists r, (fc :: a). rewrite (read_header_part fc z H13 Hz _ b1) by done. split; [done|]. rewrite <- E. by constructor.
    + rewrite Ea, read_header_ok by done. by apply H2.
Qed.

Lemma array_parses d vs r :
  zlen vs < 2 ^ 31 -> Forall (parses (consume_rec allocates d)) vs -> fresh r ->
  (forall rest, consume_rec allocates (S d) r (encode (VArray vs) ++ rest) = Ok (PARSE_OK, reply_of (VArray vs), rest)) /\
  (forall a b, encode (VArray vs) = a ++ b -> b <> [] ->
     exists r' a', consume_rec allocates (S d) r a = Ok (PARSE_ERROR_NOT_ENOUGH_DATA, r', a') /\ awaits r' (VArray vs) (a' ++ b)).
Proof using Halloc.
  intros Hn Hp Hr. pose proof (zlen_nonneg vs). destruct vs as [|v vs].
  - apply (header_parses d 42 0 []); [done|lia|by right; left|done|..].
    + intros rest. change (42 =? 58) with false. change (42 =? 36) with false. cbv iota. unfold consume_array.
      change (0 <? 0) with false. change (0 =? 0) with true. cbv iota. by rewrite drop_header.
    + intros a2 b E Hb. by destruct a2, b.
  - assert (0 < zlen (v :: vs)) as H0 by (rewrite zlen_cons; pose proof (zlen_nonneg vs); lia).
    apply (header_parses d 42 (zlen (v :: vs)) (concat (map encode (v :: vs)))); [done|lia|by right; left|done|..].
    all: change (42 =? 58) with false; change (42 =? 36) with false; cbv iota; unfold consume_array, UINT32_MAX;
      rewrite !(proj2 (Z.ltb_ge _ _)), (proj2 (Z.eqb_neq _ _)), Halloc by (unfold reply_size_of; lia); cbn [negb].
    all: replace (Z.to_nat (zlen (v :: vs))) with (S (length vs)) by (unfold zlen; cbn [length]; lia).
    + intros rest. rewrite drop_header. cbn [map concat replicate]. rewrite <- (assoc_L (++) (encode v)).
      pose proof (sub_loop_all (consume_rec allocates d) vs [] v Reset (encode v) rest Hp ltac:(by constructor) Hn) as Es.
      cbn [map app] in Es. change (zlen []) with 0 in Es. rewrite Es. cbn [mbind outcome_bind after_subs].
      rewrite decide_True, s32_small by (done || lia). done.
    + intros a2 b E Hb. rewrite drop_header. cbn [map concat] in E.
      destruct (sub_loop_part (consume_rec allocates d) vs [] v Reset (encode v) a2 b Hp ltac:(by constructor) Hn E Hb)
        as (vs1 & v' & vs2 & r' & t' & a' & E1 & E2 & E3 & Es).
      cbn [map app] in Es, E1. change (zlen []) with 0 in Es. cbn [replicate]. rewrite Es.
      cbn [mbind outcome_bind after_subs]. rewrite decide_False, s32_small by (done || lia).
      eexists _, _. split; [done|]. rewrite E1, E3. by constructor.
Qed.

Lemma resume_parses d vs1 v vs2 r t :
  zlen (vs1 ++ v :: vs2) < 2 ^ 31 -> Forall (parses (consume_rec allocates d)) (v :: vs2) -> awaits r v t ->
  let st := mk_reply REDIS_REPLY_ARRAY (zlen (vs1 ++ v :: vs2))
              (Array (Some (zlen vs1)) (map reply_of vs1 ++ r :: replicate (length vs2) Reset)) in
  let t' := t ++ concat (map encode vs2) in
  (forall rest, consume_rec allocates (S d) st (t' ++ rest) = Ok (PARSE_OK, reply_of (VArray (vs1 ++ v :: vs2)), rest)) /\
  (forall a b, t' = a ++ b -> b <> [] ->
     exists r' a', consume_rec allocates (S d) st a = Ok (PARSE_ERROR_NOT_ENOUGH_DATA, r', a') /\
       awaits r' (VArray (vs1 ++ v :: vs2)) (a' ++ b)).
Proof.
  intros Hn Hp Hr st t'. subst st t'. cbn [consume_rec]. pose proof (zlen_nonneg vs1).
  rewrite (proj2 (Z.leb_le _ _)) by lia.
  replace (Z.to_nat (zlen (vs1 ++ v :: vs2) - zlen vs1)) with (S (length vs2)) by (rewrite zlen_app; unfold zlen; cbn [length]; lia).
  split.
  - intros rest. rewrite <- (assoc_L (++)), (sub_loop_all (consume_rec allocates d) vs2 vs1 v) by done. cbn [mbind outcome_bind after_subs].
    by rewrite decide_True.
  - intros a b E Hb. destruct (sub_loop_part (consume_rec allocates d) vs2 vs1 v r t a b Hp Hr Hn E Hb) as (vs1' & v' & vs2' & r' & t' & a' & E1 & E2 & E3 & Es).
    rewrite Es. cbn [mbind outcome_bind after_subs]. rewrite decide_False by done.
    eexists _, _. split; [done|]. rewrite E1, E3. by constructor.
Qed.

Lemma value_parses v : value_ok v -> forall d, (vdepth v < d)%nat -> parses (consume_rec allocates d) v.
Proof using Halloc.
  induction v as [s|s|z|s| | |vs IH] using value_rect'; intros Hok d Hd r t Ha;
    (destruct d as [|d]; [lia|]).
  1-6: inversion Ha as [? ? Hr|]; subst; clear Ha.
  - destruct (line_parses d 43 s (VStatus s) r) as [H1 H2]; [by left|done|done|]. by apply whole_parses.
  - destruct (line_parses d 45 s (VError s) r) as [H1 H2]; [by right|done|done|]. by apply whole_parses.
  - apply (header_parses d 58 z []); [done|done|by right; right|done|..].
    + intros rest. change (58 =? 58) with true. cbv iota. by rewrite drop_header.
    + intros a2 b E Hb. by destruct a2, b.
  - cbn in Hok. pose proof (zlen_nonneg s).
    apply (header_parses d 36 (zlen s) (s ++ CRLF)); [done|lia|by left|done|..].
    + intros rest. change (36 =? 58) with false. change (36 =? 36) with true. cbv iota.
      rewrite <- (assoc_L (++)). by rewrite consume_bulk_ok.
    + intros a2 b E Hb. change (36 =? 58) with false. change (36 =? 36) with true. cbv iota.
      assert (36 :: dec (zlen s) ++ CRLF ++ s ++ CRLF = (36 :: dec (zlen s) ++ CRLF ++ a2) ++ b) as E'
        by (rewrite E; cbn [app]; by rewrite <- !(assoc_L (++))).
      rewrite (consume_bulk_part s r _ b) by done. eexists _, _. split; [done|]. rewrite <- E'. by constructor.
  - apply (header_parses d 36 (-1) []); [done|lia|by left|done|..].
    + intros rest. change (36 =? 58) with false. change (36 =? 36) with true. cbv iota. unfold consume_bulk.
      change (-1 <? 0) with true. cbv iota. by rewrite drop_header.
    + intros a2 b E Hb. by destruct a2, b.
  - apply (header_parses d 42 (-1) []); [done|lia|by right; left|done|..].
    + intros rest. change (42 =? 58) with false. change (42 =? 36) with false. cbv iota. unfold consume_array.
      change (-1 <? 0) with true. cbv iota. by rewrite drop_header.
    + intros a2 b E Hb. by destruct a2, b.
  - apply value_ok_array in Hok as [Hn Hok].
    assert (Forall (parses (consume_rec allocates d)) vs) as Hp.
    { apply Forall_forall. intros v Hv. rewrite Forall_forall in IH, Hok.
      apply IH; [done|by apply Hok|]. pose proof (vdepth_sub v vs Hv). lia. }
    inversion Ha as [? ? Hr|vs1 r' v t' vs2 Hr]; subst; [by apply array_parses|].
    apply resume_parses; [done| |done]. by apply Forall_app in Hp as [_ ?].
Qed.

End kinds.

(** ** The depth bound *)

Section depth.
Context (allocates : Z -> bool).

Lemma read_header_inv buf :
  match read_header buf with
  | inl e => e = PARSE_ERROR_NOT_ENOUGH_DATA \/ e = PARSE_ERROR_ABSOLUTELY_WRONG
  | inr (z, k) => 0 <= k /\ k + 2 <= zlen buf /\ - 2 ^ 63 <= z < 2 ^ 63
  end.
Proof.
  unfold read_header. destruct (find_sub CRLF (ztake 31 buf)) as [k|] eqn:E; [|by left].
  apply find_sub_bound in E as [Hk Hl]. change (zlen CRLF) with 2 in Hl.
  pose proof (strtoll_range (zdrop 1 (ztake 31 buf))) as Hz. destruct (strtoll _) as [z n]. case_if; [by right|].
  unfold LLONG_MIN, LLONG_MAX in Hz. cbn in Hz. unfold zlen, ztake in *. rewrite length_take in Hl. lia.
Qed.

Lemma nesting_sub li n subs r : r ∈ subs -> (nesting r < nesting (mk_reply REDIS_REPLY_ARRAY n (Array li subs)))%nat.
Proof. intros Hr. cbn [nesting]. induction Hr as [r subs|r r' subs _ IH]; cbn [fold_right]; lia. Qed.

(** The buffer never grows. *)
Definition shrinks (f : RedisReply -> list Z -> outcome parsed) : Prop :=
  forall r buf e r' buf', f r buf = Ok (e, r', buf') -> (length buf' <= length buf)%nat.

Lemma zdrop_shrinks n (buf : list Z) : (length (zdrop n buf) <= length buf)%nat.
Proof. unfold zdrop. rewrite length_drop. lia. Qed.

Lemma sub_loop_shrinks f n : shrinks f -> forall i subs buf e i' subs' buf',
  sub_loop f n i subs buf = Ok (e, i', subs', buf') -> (length buf' <= length buf)%nat.
Proof.
  intros Hf. induction n as [|n IH]; intros i subs buf e i' subs' buf'; cbn [sub_loop]; [by intros [= <- <- <- <-]|].
  destruct (zget subs i) as [r|]; [|done]. destruct (f r buf) as [[[e1 r1] buf1]| |] eqn:E; [|done|done].
  cbn [mbind outcome_bind]. apply Hf in E. case_if; [by intros [= <- <- <- <-]|]. case_if; [done|].
  intros E'. apply IH in E'. lia.
Qed.

Lemma consume_new_shrinks f : shrinks f -> shrinks (consume_new allocates f).
Proof.
  intros Hf r buf e r' buf'. unfold consume_new. pose proof (fun n => zdrop_shrinks n buf) as Hd.
  destruct buf as [|fc buf]; [by intros [= <- <- <-]|]. case_if.
  { unfold consume_line. destruct (find_sub CRLF _); repeat case_if; intros [= <- <- <-]; done. }
  case_if; [|by intros [= <- <- <-]]. destruct (read_header _) as [e1|[z k]]; [by intros [= <- <- <-]|].
  case_if; [by intros [= <- <- <-]|]. case_if.
  { unfold consume_bulk. pose proof (zdrop_shrinks z (zdrop (k + 2) (fc :: buf))).
    pose proof (zdrop_shrinks 2 (zdrop z (zdrop (k + 2) (fc :: buf)))). specialize (Hd (k + 2)).
    repeat case_if; intros [= <- <- <-]; try done; lia. }
  unfold consume_array. repeat (case_if; [by intros [= <- <- <-]|]).
  destruct (sub_loop f _ _ _ _) as [[[[e1 i] subs] b]| |] eqn:E; [|done|done].
  apply (sub_loop_shrinks f) in E; [|done]. specialize (Hd (k + 2)). intros [= <- <- <-]. lia.
Qed.

Lemma consume_rec_shrinks d : shrinks (consume_rec allocates d).
Proof.
  induction d as [|d IH]; intros r buf e r' buf'; [done|]. cbn [consume_rec].
  destruct r as [[] n [| | |[li|] subs]]; try done; try (by apply consume_new_shrinks).
  case_if; [|by apply consume_new_shrinks].
  destruct (sub_loop _ _ _ _ _) as [[[[e1 i] subs1] b]| |] eqn:E; [|done|done].
  apply (sub_loop_shrinks _ _ IH) in E. by intros [= <- <- <-].
Qed.

Lemma sub_loop_ext f g n N : shrinks f ->
  forall i subs buf, 0 <= i ->
  (forall j r, i <= j -> zget subs j = Some r -> (nesting r <= N)%nat) ->
  (forall r b, (nesting r <= N)%nat -> (length b <= length buf)%nat -> g r b = f r b) ->
  sub_loop g n i subs buf = sub_loop f n i subs buf.
Proof.
  intros Hf. induction n as [|n IH]; intros i subs buf Hi Hn Hgf; cbn [sub_loop]; [done|].
  destruct (zget subs i) as [r|] eqn:Er; [|done]. rewrite Hgf by (lia || exact (Hn i r ltac:(lia) Er)).
  destruct (f r buf) as [[[e1 r1] buf1]| |] eqn:E; [|done|done]. cbn [mbind outcome_bind]. apply Hf in E.
  case_if; [done|]. case_if; [done|]. apply IH; [lia|..].
  - intros j r2 Hj Hr2. apply (Hn j); [lia|]. by rewrite zget_zset_ne in Hr2 by lia.
  - intros r2 b H1 H2. apply Hgf; [done|lia].
Qed.

Lemma zget_In {A} (l : list A) i x : zget l i = Some x -> x ∈ l.
Proof. unfold zget. destruct (i <? 0); [done|]. apply list_elem_of_lookup_2. Qed.

Lemma consume_new_ext f g r buf : shrinks f ->
  (forall r b, (nesting r <= 1)%nat -> (length b + 2 <= length buf)%nat -> g r b = f r b) ->
  consume_new allocates g r buf = consume_new allocates f r buf.
Proof.
  intros Hf Hgf. unfold consume_new. destruct buf as [|fc buf]; [done|]. case_if; [done|]. case_if; [|done].
  pose proof (read_header_inv (fc :: buf)) as Hh. destruct (read_header _) as [e1|[z k]]; [done|].
  destruct Hh as (Hk & Hl & _). case_if; [done|]. case_if; [done|]. unfold consume_array.
  repeat (case_if; [done|]). rewrite (sub_loop_ext f g _ 1); [done|done|lia| |].
  - intros j r0 _ Hr0. apply zget_In, elem_of_replicate in Hr0 as [-> _]. done.
  - intros r0 b H1 H2. apply Hgf; [done|]. unfold zdrop in H2. rewrite length_drop in H2. unfold zlen in Hl. lia.
Qed.

(** Above [nesting r + length buf] the bound does not matter. *)
Lemma consume_rec_stable d r buf :
  (nesting r + length buf < d)%nat -> consume_rec allocates (S d) r buf = consume_rec allocates d r buf.
Proof.
  revert r buf. induction d as [|d IH]; intros r buf Hd; [lia|].
  assert (consume_new allocates (consume_rec allocates (S d)) r buf = consume_new allocates (consume_rec allocates d) r buf) as Hnew.
  { apply consume_new_ext; [apply consume_rec_shrinks|]. intros r0 b H1 H2. apply IH. lia. }
  change (consume_rec allocates (S (S d)) r buf) with
    (match r with
     | mk_reply REDIS_REPLY_ARRAY length (Array (Some last_index) subs) =>
         if 0 <=? last_index then
           res ← sub_loop (consume_rec allocates (S d)) (Z.to_nat (length - last_index)) last_index subs buf;
           Ok (after_subs length res)
         else consume_new allocates (consume_rec allocates (S d)) r buf
     | mk_reply REDIS_REPLY_ARRAY _ _ => Undefined
     | _ => consume_new allocates (consume_rec allocates (S d)) r buf
     end).
  cbn [consume_rec]. destruct r as [[] n [| | |[li|] subs]]; try done. case_if; [|done].
  rewrite (sub_loop_ext (consume_rec allocates d) (consume_rec allocates (S d)) _
    (nesting (mk_reply REDIS_REPLY_ARRAY n (Array (Some li) subs)) - 1)); [done|apply consume_rec_shrinks|lia| |].
  - intros j r _ Hr. apply zget_In, (nesting_sub (Some li) n) in Hr. lia.
  - intros r b H1 H2. apply IH. cbn [nesting] in Hd, H1. lia.
Qed.

Lemma consume_rec_enough d r buf :
  (nesting r + length buf < d)%nat -> consume_rec allocates d r buf = ConsumePartialCordBuf allocates r buf.
Proof.
  intros Hd. unfold ConsumePartialCordBuf. induction d as [|d IH]; [lia|].
  destruct (decide (S d = S (nesting r + length buf))) as [->|]; [done|]. rewrite consume_rec_stable by lia. apply IH. lia.
Qed.

(** Sizes that fit the fields of a reply. *)
Fixpoint sized (v : value) : Prop :=
  match v with
  | VStatus s | VError s | VString s => zlen s < 2 ^ 31
  | VInteger z => - 2 ^ 63 <= z < 2 ^ 63
  | VNullString | VNullArray => True
  | VArray vs => zlen vs < 2 ^ 31 /\ (fix all vs := match vs with [] => True | v :: vs => sized v /\ all vs end) vs
  end.

Lemma sized_array vs : sized (VArray vs) <-> zlen vs < 2 ^ 31 /\ Forall sized vs.
Proof.
  cbn [sized]. f_equiv. induction vs as [|v vs IH]; [split; [constructor|done]|].
  rewrite Forall_cons, <- IH. done.
Qed.

(** An array of 2^31 or more elements: [_length], an [int], is negative.  [r] has
    one. *)
Inductive wrapped : RedisReply -> Prop :=
| wrapped_here n d : n < 0 -> wrapped (mk_reply REDIS_REPLY_ARRAY n d)
| wrapped_sub n li subs r : r ∈ subs -> wrapped r -> wrapped (mk_reply REDIS_REPLY_ARRAY n (Array li subs)).

(** A reply that is complete: it has one, or it stands for a value. *)
Definition complete (r : RedisReply) : Prop := wrapped r \/ exists v, sized v /\ r = reply_of v.

Lemma complete_list ds : Forall complete ds -> Exists wrapped ds \/ exists vs, Forall sized vs /\ ds = map reply_of vs.
Proof.
  induction 1 as [|d ds [Hw|(v & Hv & ->)] _ IH]; [right; by exists []|left; by constructor|].
  destruct IH as [IH|(vs & Hvs & ->)]; [left; by apply Exists_cons_tl|right]. exists (v :: vs). split; [by constructor|done].
Qed.

Lemma complete_array ds : Forall complete ds -> zlen ds < 2 ^ 31 -> complete (mk_reply REDIS_REPLY_ARRAY (zlen ds) (Array (Some (-1)) ds)).
Proof.
  intros [Hw|(vs & Hvs & ->)]%complete_list Hn; [left|right].
  - apply Exists_exists in Hw as (r & Hr & Hw). by eapply wrapped_sub.
  - exists (VArray vs). rewrite zlen_map_reply_of in *. by rewrite sized_array.
Qed.

(** A state in which a parse can be suspended. *)
Inductive partial : RedisReply -> Prop :=
| partial_new r : fresh r -> partial r
| partial_sub ds r k :
    Forall complete ds -> partial r -> zlen ds + 1 + Z.of_nat k < 2 ^ 31 ->
    partial (mk_reply REDIS_REPLY_ARRAY (zlen ds + 1 + Z.of_nat k) (Array (Some (zlen ds)) (ds ++ r :: replicate k Reset)))
| partial_wrapped n i subs : n < 0 -> 0 <= i -> partial (mk_reply REDIS_REPLY_ARRAY n (Array (Some i) subs)).

Lemma partial_nesting r : partial r -> ~ fresh r -> (1 <= nesting r)%nat.
Proof. intros [] Hf; [done|cbn [nesting]; lia..]. Qed.

(** A call that returns: a prefix of the buffer is consumed; on success the reply
    is complete, and something was consumed unless a length has wrapped in an
    earlier call; a suspended parse can go on. *)
Definition returns (r : RedisReply) (buf : list Z) (res : outcome parsed) : Prop :=
  exists e r' buf', res = Ok (e, r', buf') /\ (exists pre, buf = pre ++ buf') /\
    (e = PARSE_OK -> complete r' /\ (zlen buf' < zlen buf \/ ~ fresh r /\ wrapped r')) /\
    (e = PARSE_ERROR_NOT_ENOUGH_DATA -> partial r').

Lemma returns_error r0 buf e r : e <> PARSE_OK -> e <> PARSE_ERROR_NOT_ENOUGH_DATA -> returns r0 buf (Ok (e, r, buf)).
Proof. intros He1 He2. exists e, r, buf. split_and!; try done. by exists []. Qed.

Lemma returns_wrong r0 buf pre buf' r : buf = pre ++ buf' -> returns r0 buf (Ok (PARSE_ERROR_ABSOLUTELY_WRONG, r, buf')).
Proof. intros ->. eexists _, _, _. split_and!; try done. by exists pre. Qed.

Lemma returns_wait r0 buf r : partial r -> returns r0 buf (Ok (PARSE_ERROR_NOT_ENOUGH_DATA, r, buf)).
Proof. intros Hr. eexists _, _, _. split_and!; try done. by exists []. Qed.

Lemma returns_ok r0 buf pre buf' v :
  buf = pre ++ buf' -> 0 < zlen pre -> sized v -> returns r0 buf (Ok (PARSE_OK, reply_of v, buf')).
Proof.
  intros -> Hp Hv. eexists _, _, _. split_and!; try done; [by exists pre|]. intros _. split; [right; by exists v|].
  left. rewrite zlen_app. lia.
Qed.

Lemma returns_after_header r0 buf k v : 0 <= k -> k + 2 <= zlen buf -> sized v -> returns r0 buf (Ok (PARSE_OK, reply_of v, zdrop (k + 2) buf)).
Proof.
  intros Hk Hl Hv. apply (returns_ok _ _ (ztake (k + 2) buf)); [by rewrite ztake_zdrop| |done].
  rewrite zlen_ztake by lia. lia.
Qed.

Lemma line_returns fc r buf : partial r -> fc <> 13 -> zlen (fc :: buf) < 2 ^ 31 -> returns r (fc :: buf) (Ok (consume_line allocates fc r (fc :: buf))).
Proof.
  intros Hr Hfc Hbuf. unfold consume_line. destruct (find_sub CRLF (fc :: buf)) as [k|] eqn:E.
  - pose proof (find_sub_bound _ _ _ E) as [Hk Hl]. change (zlen CRLF) with 2 in Hl.
    assert (k <> 0) as Hk0.
    { intros ->. apply find_sub_occurs in E as (s1 & s2 & E & Hs). destruct s1; [by injection E|].
      rewrite zlen_cons in Hs. pose proof (zlen_nonneg s1). lia. }
    assert (zlen (ztake k (fc :: buf)) = k) as Ek by (apply zlen_ztake; lia).
    set (str := ztake k (fc :: buf)) in *. assert (zlen (zdrop 1 str) = k - 1) as Es by (rewrite zlen_zdrop; lia).
    assert (forall ty d, (ty = REDIS_REPLY_ERROR \/ ty = REDIS_REPLY_STATUS) ->
      d = (if k - 1 <? short_size then Short (zdrop 1 str) else Long (zdrop 1 str)) ->
      returns r (fc :: buf) (Ok (PARSE_OK, mk_reply ty (s32 (k - 1)) d, zdrop (k + 2) (fc :: buf)))) as Hret.
    { intros ty d Hty ->. rewrite s32_small, <- Es by lia.
      destruct Hty as [->| ->]; [apply (returns_after_header _ _ _ (VError (zdrop 1 str)))|apply (returns_after_header _ _ _ (VStatus (zdrop 1 str)))];
        cbn [sized]; lia. }
    rewrite Ek. case_if; [apply Hret; [destruct (fc =? 45); auto|done]|].
    case_if; [by eapply returns_wrong; rewrite ztake_zdrop|]. apply Hret; [destruct (fc =? 45); auto|done].
  - case_if; [by apply returns_error|by apply returns_wait].
Qed.

Lemma bulk_returns len k r buf :
  partial r -> 0 <= k -> k + 2 <= zlen buf < 2 ^ 31 -> returns r buf (Ok (consume_bulk allocates len k r buf)).
Proof.
  intros Hr Hk [Hl Hbuf]. unfold consume_bulk. case_if; [by apply (returns_after_header _ _ _ VNullString)|].
  case_if; [by apply returns_error|]. case_if; [by apply returns_wait|]. case_if; [by apply returns_error|]. zbool.
  assert (zlen (ztake len (zdrop (k + 2) buf)) = len) as El by (rewrite zlen_ztake; rewrite ?zlen_zdrop; lia).
  rewrite !zdrop_zdrop by lia. case_if; [|by eapply returns_wrong; rewrite ztake_zdrop].
  replace (s32 len) with (zlen (ztake len (zdrop (k + 2) buf))) by (rewrite El, s32_small; lia).
  assert ((len <? short_size) = (zlen (ztake len (zdrop (k + 2) buf)) <? short_size)) as -> by (by rewrite El).
  apply (returns_ok _ _ (ztake (k + 2 + len + 2) buf) _ (VString (ztake len (zdrop (k + 2) buf)))); [by rewrite ztake_zdrop| |].
  - rewrite zlen_ztake by lia. lia.
  - cbn [sized]. lia.
Qed.

(** The loop over sub replies returns if the parses of the sub replies do.  The
    index stays below 2^31 because the array has fewer elements, or because each
    element takes a byte. *)
Lemma sub_loop_returns f D :
  (forall r buf, partial r -> zlen buf < 2 ^ 31 -> (nesting r + length buf < D)%nat -> returns r buf (f r buf)) ->
  forall k ds r buf, Forall complete ds -> partial r -> zlen buf < 2 ^ 31 -> (nesting r + length buf < D)%nat ->
  zlen ds + 1 + Z.of_nat k < 2 ^ 31 \/ fresh r /\ zlen ds + zlen buf < 2 ^ 31 ->
  exists e i subs buf', sub_loop f (S k) (zlen ds) (ds ++ r :: replicate k Reset) buf = Ok (e, i, subs, buf') /\
    (exists pre, buf = pre ++ buf') /\
    (e = PARSE_OK -> Forall complete subs /\ zlen subs = zlen ds + 1 + Z.of_nat k /\
       (zlen buf' < zlen buf \/ Exists wrapped subs) /\ (fresh r -> zlen subs + zlen buf' <= zlen ds + zlen buf)) /\
    (e = PARSE_ERROR_NOT_ENOUGH_DATA ->
       exists ds' r' k', i = zlen ds' /\ subs = ds' ++ r' :: replicate k' Reset /\
         Forall complete ds' /\ partial r' /\ zlen ds' + 1 + Z.of_nat k' = zlen ds + 1 + Z.of_nat k).
Proof.
  intros Hf. induction k as [|k IH]; intros ds r buf Hs Hr Hb HD Hn;
    destruct (Hf r buf Hr Hb HD) as (e & r' & buf' & E & [pre Hpre] & Hok & Hwait);
    (destruct (decide (e = PARSE_OK)) as [->|He];
      [destruct Hok as [Hc Hlt]; [done|];
       assert (zlen ds + 1 < 2 ^ 31) by (pose proof (zlen_nonneg buf'); destruct Hn as [Hn|[Hfr Hn]]; [lia|destruct Hlt as [Hlt|[? _]]; [lia|done]]);
       rewrite (sub_loop_next f ds r _ _ _ _ _ E) by lia
      |rewrite (sub_loop_end f ds r _ _ _ _ _ _ E He); eexists _, _, _, _; split; [done|]; split; [by exists pre|];
       split; [done|]; intros ->; eexists _, _, _; split_and!; [done|done|done|by apply Hwait|done]]);
    assert (Forall complete (ds ++ [r'])) by (by apply Forall_app_2; [|constructor]);
    assert (zlen (ds ++ [r']) = zlen ds + 1) as Hz by (by rewrite zlen_app);
    assert (Hw : zlen buf' < zlen buf \/ Exists wrapped (ds ++ [r'])) by (destruct Hlt as [?|[_ ?]]; [by left|right; apply Exists_app; right; by constructor]);
    assert (Hle : zlen buf' <= zlen buf) by (rewrite Hpre, zlen_app; pose proof (zlen_nonneg pre); lia);
    assert (Hfr : fresh r -> zlen buf' + 1 <= zlen buf) by (intros ?; destruct Hlt as [?|[? _]]; [lia|done]).
  - eexists _, _, _, _. split; [done|]. split; [by exists pre|]. split; [|done]. intros _. cbn [replicate]. rewrite app_nil_r.
    split_and!; [done|lia|done|]. intros Hf0. specialize (Hfr Hf0). lia.
  - cbn [replicate]. destruct (IH (ds ++ [r']) Reset buf') as (e' & i & subs & buf'' & E2 & [pre' Hpre'] & Hok' & Hwait').
    + done.
    + by constructor.
    + lia.
    + change (nesting Reset) with 1%nat. unfold zlen in *. destruct Hlt as [Hlt|[Hnf _]]; [lia|]. pose proof (partial_nesting r Hr Hnf). lia.
    + destruct Hn as [Hn|[Hf0 Hn]]; [left; lia|right]. split; [done|]. specialize (Hfr Hf0). lia.
    + exists e', i, subs, buf''. split; [done|]. split; [exists (pre ++ pre'); by rewrite Hpre, Hpre', (assoc_L (++))|]. split.
      * intros Ee. destruct (Hok' Ee) as (Hcs & Hlen & _ & Hbound). specialize (Hbound ltac:(done)).
        split_and!; [done|lia|left; lia|]. intros Hf0. specialize (Hfr Hf0). lia.
      * intros Ee. destruct (Hwait' Ee) as (ds' & r2 & k' & E1 & Es & E3 & E4 & E5). exists ds', r2, k'. split_and!; [done|done|done|done|lia].
Qed.

Lemma after_subs_returns f D k ds r buf buf0 pre0 r0 n :
  (forall r buf, partial r -> zlen buf < 2 ^ 31 -> (nesting r + length buf < D)%nat -> returns r buf (f r buf)) ->
  Forall complete ds -> partial r -> zlen buf < 2 ^ 31 -> (nesting r + length buf < D)%nat -> buf0 = pre0 ++ buf ->
  zlen ds + 1 + Z.of_nat k < 2 ^ 31 /\ n = zlen ds + 1 + Z.of_nat k \/
  fresh r /\ zlen ds + zlen buf < 2 ^ 31 /\ 2 ^ 31 <= zlen ds + 1 + Z.of_nat k /\ n < 0 ->
  0 < zlen pre0 \/ ~ fresh r0 ->
  returns r0 buf0
    (res ← sub_loop f (S k) (zlen ds) (ds ++ r :: replicate k Reset) buf; Ok (after_subs n res)).
Proof.
  intros Hf Hs Hr Hb HD -> Hn H0.
  destruct (sub_loop_returns f D Hf k ds r buf Hs Hr Hb HD ltac:(destruct Hn as [[? _]|(? & ? & _)]; auto)) as (e & i & subs & buf' & -> & [pre Hpre] & Hok & Hwait).
  cbn [mbind outcome_bind after_subs]. eexists _, _, _. split; [done|]. split; [exists (pre0 ++ pre); by rewrite Hpre, (assoc_L (++))|].
  rewrite zlen_app. pose proof (zlen_nonneg pre0). pose proof (zlen_nonneg buf').
  assert (zlen buf' <= zlen buf) by (rewrite Hpre, zlen_app; pose proof (zlen_nonneg pre); lia). split.
  - intros ->. destruct (Hok eq_refl) as (Hcs & Hlen & Hw & Hbound). rewrite decide_True by done.
    destruct Hn as [[Hn ->]|(Hfr & Hlt & Hge & _)]; [|specialize (Hbound Hfr); lia].
    rewrite <- Hlen. split; [apply complete_array; [done|lia]|]. destruct H0 as [?|Hnf]; [left; lia|].
    destruct Hw as [?|Hw]; [left; lia|right]. split; [done|]. apply Exists_exists in Hw as (x & Hx & Hw). by eapply wrapped_sub.
  - intros ->. destruct (Hwait eq_refl) as (ds' & r' & k' & -> & -> & Hcs & Hr' & Hz). rewrite decide_False by done.
    destruct Hn as [[Hn ->]|(_ & _ & _ & Hneg)]; [rewrite <- Hz; constructor; [done|done|lia]|].
    apply partial_wrapped; [done|apply zlen_nonneg].
Qed.

Lemma array_returns d z k r buf :
  (forall r buf, partial r -> zlen buf < 2 ^ 31 -> (nesting r + length buf < d)%nat -> returns r buf (consume_rec allocates d r buf)) ->
  0 <= k -> k + 2 <= zlen buf < 2 ^ 31 -> (length buf <= d)%nat ->
  returns r buf (consume_array allocates (consume_rec allocates d) z k r buf).
Proof.
  intros Hf Hk [Hl Hb] Hd. unfold consume_array, UINT32_MAX. case_if; [by apply (returns_after_header _ _ _ VNullArray)|].
  case_if; [by apply (returns_after_header _ _ _ (VArray []))|]. case_if; [by apply returns_error|]. case_if; [by apply returns_error|]. zbool.
  assert (exists n, z = 1 + Z.of_nat n) as [n ->] by (exists (Z.to_nat (z - 1)); lia).
  replace (Z.to_nat (1 + Z.of_nat n)) with (S n) by lia. cbn [replicate].
  assert (Hz : zlen (zdrop (k + 2) buf) = zlen buf - (k + 2)) by (apply zlen_zdrop; lia).
  apply (after_subs_returns _ d n [] Reset (zdrop (k + 2) buf) buf (ztake (k + 2) buf) r _ Hf); try done; try lia.
  - by constructor.
  - change (nesting Reset) with 1%nat. unfold zlen in *. lia.
  - by rewrite ztake_zdrop.
  - rewrite (@zlen_nil RedisReply). destruct (Z.lt_ge_cases (1 + Z.of_nat n) (2 ^ 31)); [left; rewrite s32_small by lia; lia|right].
    split_and!; [done|lia|lia|]. unfold s32. replace (1 + Z.of_nat n + 2147483648) with (Z.of_nat n - 2147483647 + 1 * 4294967296) by lia.
    rewrite Z.mod_add, Z.mod_small; lia.
  - left. rewrite zlen_ztake; lia.
Qed.

Lemma consume_rec_returns d : forall r buf,
  partial r -> zlen buf < 2 ^ 31 -> (nesting r + length buf < d)%nat -> returns r buf (consume_rec allocates d r buf).
Proof.
  induction d as [|d IH]; intros r buf Hr Hb Hd; [lia|].
  inversion Hr as [? Hfresh|ds r1 k Hs Hr1 Hk|n i subs Hn Hi]; subst.
  - rewrite fresh_consume by done. unfold consume_new. destruct buf as [|fc buf]; [by apply returns_wait|]. case_if.
    { apply line_returns; [done| |done]. intros ->. done. }
    case_if; [|by apply returns_error]. pose proof (read_header_inv (fc :: buf)) as Hh.
    destruct (read_header _) as [e|[z k]].
    { destruct Hh as [->| ->]; [by apply returns_wait|by apply returns_error]. }
    destruct Hh as (Hk & Hl & Hz). case_if; [by apply (returns_after_header _ _ _ (VInteger z))|].
    case_if; [by apply bulk_returns|]. apply array_returns; [done|done|done|lia].
  - cbn [consume_rec]. pose proof (zlen_nonneg ds). rewrite (proj2 (Z.leb_le _ _)) by lia.
    replace (Z.to_nat (zlen ds + 1 + Z.of_nat k - zlen ds)) with (S k) by lia.
    apply (after_subs_returns _ d k ds r1 buf buf []); [done|done|done|done| |done|by left|right; cbn [fresh]; lia].
    assert (nesting r1 < nesting (mk_reply REDIS_REPLY_ARRAY (zlen ds + 1 + Z.of_nat k)
      (Array (Some (zlen ds)) (ds ++ r1 :: replicate k Reset))))%nat; [|lia].
    apply nesting_sub. apply elem_of_app. right. by left.
  - cbn [consume_rec]. rewrite (proj2 (Z.leb_le 0 i)) by lia. replace (Z.to_nat (n - i)) with O by lia. cbn [sub_loop mbind outcome_bind after_subs].
    eexists _, _, _. split; [done|]. split; [by exists []|]. split; [|done]. intros _. rewrite decide_True by done.
    assert (wrapped (mk_reply REDIS_REPLY_ARRAY n (Array (Some (-1)) subs))) by (by constructor).
    split; [by left|right]. split; [cbn [fresh]; lia|done].
Qed.

End depth.

(** ** Serialization *)

Lemma str_bytes_reply s : str_bytes (zlen s) (if zlen s <? short_size then Short s else Long s) = Ok s.
Proof.
  pose proof (zlen_nonneg s). destruct (Z.ltb_spec (zlen s) short_size); cbn [str_bytes].
  - rewrite (proj2 (Z.ltb_lt _ _)), !(proj2 (Z.leb_le _ _)) by lia. cbn [andb]. by rewrite ztake_all by lia.
  - rewrite !(proj2 (Z.leb_le _ _)) by lia. cbn [andb]. by rewrite ztake_all by lia.
Qed.

Lemma serialize_subs_ok f rs vs :
  Forall2 (fun r v => f r = Ok (true, encode v)) rs vs ->
  serialize_subs f (zlen vs) rs = Ok (true, concat (map encode vs)).
Proof.
  induction 1 as [|r v rs vs E _ IH]; [done|]. cbn [serialize_subs]. rewrite zlen_cons. pose proof (zlen_nonneg vs).
  rewrite (proj2 (Z.leb_gt _ _)), E by lia. cbn [mbind outcome_bind].
  replace (zlen vs + 1 - 1) with (zlen vs) by lia. by rewrite IH.
Qed.

Lemma SerializeTo_encode v : forall r, stands_for r v -> value_ok v -> SerializeTo r = Ok (true, encode v).
Proof.
  induction v as [s|s|z|s| | |vs IH] using value_rect'; intros r Hr Hok; inversion Hr; subst; cbn [SerializeTo encode].
  - unfold str_reply. cbn [SerializeTo serialize_with]. by rewrite str_bytes_reply.
  - unfold str_reply. cbn [SerializeTo serialize_with]. by rewrite str_bytes_reply.
  - cbn [serialize_with]. destruct (dec_ok z [] Hok I) as (-> & _). done.
  - unfold str_reply. cbn [SerializeTo serialize_with]. cbn in Hok. pose proof (zlen_nonneg s).
    destruct (dec_ok (zlen s) [] ltac:(lia) I) as (-> & _). cbn [mbind outcome_bind].
    rewrite (proj2 (Z.eqb_neq _ _)) by (unfold npos; lia). cbn [negb]. by rewrite str_bytes_reply.
  - done.
  - done.
  - destruct d as [| | |li []]; done.
  - apply value_ok_array in Hok as [Hn Hok]. pose proof (zlen_nonneg vs). cbn [serialize_with].
    destruct (dec_ok (zlen vs) [] ltac:(lia) I) as (-> & _). cbn [mbind outcome_bind].
    rewrite (proj2 (Z.eqb_neq _ _)) by (unfold npos; lia). cbn [negb]. rewrite (serialize_subs_ok SerializeTo rs vs); [done|].
    eapply Forall2_impl; [|intros r v H'; exact H']. clear Hr.
    match goal with H : Forall2 stands_for rs vs |- _ => revert H IH Hok end. clear. intros H IH Hok.
    induction H as [|r v rs vs Hrv _ IH2]; [constructor|]. apply Forall_cons in IH as [Hv IH], Hok as [Hok Hoks].
    constructor; [by apply Hv|by apply IH2].
Qed.

(** ** What the setters build *)

Lemma set_subs_ok set li n vs : forall rs1 vs1,
  Forall (fun v => forall r, exists r', set v r = Ok r' /\ stands_for r' v) vs ->
  Forall2 stands_for rs1 vs1 -> n = zlen rs1 + zlen vs -> n < 2 ^ 31 ->
  exists rs, set_subs set (zlen rs1) vs (mk_reply REDIS_REPLY_ARRAY n (Array li (rs1 ++ replicate (length vs) Reset))) =
      Ok (mk_reply REDIS_REPLY_ARRAY n (Array li rs)) /\ Forall2 stands_for rs (vs1 ++ vs).
Proof.
  induction vs as [|v vs IH]; intros rs1 vs1 Hset Hrs Hn Hlt; cbn [set_subs length replicate].
  { exists rs1. by rewrite !app_nil_r. }
  apply Forall_cons in Hset as [Hv Hset]. rewrite zlen_cons in Hn. pose proof (zlen_nonneg rs1). pose proof (zlen_nonneg vs).
  destruct (Hv Reset) as (r' & Er & Hr). cbn [with_sub]. rewrite u64_small, (proj2 (Z.ltb_lt _ _)) by lia.
  rewrite zget_app_r, Z.sub_diag, zget_cons_0 by lia. cbn [deref mbind outcome_bind]. rewrite Er. cbn [mbind outcome_bind].
  replace (zset (zlen rs1) r' (rs1 ++ Reset :: replicate (length vs) Reset)) with ((rs1 ++ [r']) ++ replicate (length vs) Reset).
  2: { unfold zset. rewrite (proj2 (Z.ltb_ge _ _)) by lia. unfold zlen. rewrite Nat2Z.id, insert_app_r_alt, Nat.sub_diag by lia. by rewrite <- (assoc_L (++)). }
  assert (Hz : zlen (rs1 ++ [r']) = zlen rs1 + 1) by (rewrite zlen_app; done). rewrite <- Hz.
  destruct (IH (rs1 ++ [r']) (vs1 ++ [v]) Hset) as (rs & E & Hf); [by apply Forall2_app; [|constructor]|lia|done|].
  exists rs. split; [done|]. by rewrite <- (assoc_L (++)) in Hf.
Qed.

Section build.
Context (allocates : Z -> bool).
Context (Halloc : forall n, 0 <= n < 2 ^ 37 -> allocates n = true).

Lemma SetStringImpl_ok s type r : zlen s < 2 ^ 31 -> SetStringImpl allocates s type r = str_reply type s.
Proof using Halloc.
  intros Hs. destruct (string_fits allocates Halloc s Hs) as [E1 E2]. unfold SetStringImpl, str_reply. rewrite E1, E2. by case_if.
Qed.

Lemma build_stands_for v : value_ok v -> forall r, exists r', build allocates v r = Ok r' /\ stands_for r' v.
Proof using Halloc.
  induction v as [s|s|z|s| | |vs IH] using value_rect'; intros Hok r; cbn [build].
  1,2,4: eexists; split; [done|]; unfold SetStatus, SetError, SetString; rewrite SetStringImpl_ok by apply Hok; constructor.
  1-3: eexists; split; [done|]; constructor.
  apply value_ok_array in Hok as [Hn Hok]. pose proof (zlen_nonneg vs). unfold SetArray. rewrite (proj2 (Z.ltb_ge _ _)) by lia.
  destruct (Z.eqb_spec (zlen vs) 0) as [E0|E0].
  { destruct vs; [|rewrite zlen_cons in E0; pose proof (zlen_nonneg vs); lia]. eexists. split; [done|]. constructor. }
  rewrite Halloc by (unfold reply_size_of; lia). cbn [negb].
  set (li := match _data (reset_unless_nil r) with Array _ _ => _ | _ => _ end).
  assert (Hset : Forall (fun v => forall r, exists r', build allocates v r = Ok r' /\ stands_for r' v) vs).
  { rewrite Forall_forall in IH, Hok |- *. intros v Hv. apply IH; [done|by apply Hok]. }
  destruct (set_subs_ok (build allocates) li (zlen vs) vs [] [] Hset ltac:(constructor) ltac:(done) Hn) as (rs & E & Hf).
  assert (Z.to_nat (zlen vs) = length vs) as -> by (unfold zlen; lia). exists (mk_reply REDIS_REPLY_ARRAY (zlen vs) (Array li rs)). split; [exact E|by constructor].
Qed.
End build.

(** ** The theorems *)

(** A connection: the bytes arrive in chunks, and the parser is called after
    each of them until it stops asking for more. *)
Fixpoint feed (allocates : Z -> bool) (r : RedisReply) (buf : list Z) (chunks : list (list Z)) : outcome parsed :=
  match chunks with
  | [] => Ok (PARSE_ERROR_NOT_ENOUGH_DATA, r, buf)
  | c :: chunks =>
      '(e, r, buf) ← ConsumePartialCordBuf allocates r (buf ++ c);
      if decide (e = PARSE_ERROR_NOT_ENOUGH_DATA) then feed allocates r buf chunks
      else Ok (e, r, buf ++ concat chunks)
  end.

Lemma feed_parses allocates v chunks rest :
  (forall n, 0 <= n < 2 ^ 37 -> allocates n = true) -> value_ok v ->
  forall r t buf, awaits r v (buf ++ t) -> t <> [] -> concat chunks = t ++ rest ->
  feed allocates r buf chunks = Ok (PARSE_OK, reply_of v, rest).
Proof.
  intros Halloc Hok. induction chunks as [|c chunks IH]; intros r t buf Ha Ht E; [by destruct t|].
  cbn [feed]. cbn [concat] in E.
  set (D := S (Nat.max (vdepth v) (nesting r + length (buf ++ c)))).
  rewrite <- (consume_rec_enough allocates D) by lia.
  destruct (value_parses allocates Halloc v Hok D ltac:(lia) r _ Ha) as [Hall Hpart].
  assert ((exists l, t = c ++ l /\ concat chunks = l ++ rest /\ l <> []) \/ (exists l, c = t ++ l /\ rest = l ++ concat chunks))
    as [(l & -> & El & Hl)|(l & -> & ->)].
  { apply app_eq_app in E as [l [[E1 E2]|[E1 E2]]]; [right; by exists l|].
    destruct l as [|x l]; [right; exists []; rewrite app_nil_r in *; by rewrite E1, E2|left; by exists (x :: l)]. }
  - destruct (Hpart (buf ++ c) l) as (r' & a' & -> & Ha'); [by rewrite (assoc_L (++))|done|].
    cbn [mbind outcome_bind]. rewrite decide_True by done. by apply (IH r' l a').
  - rewrite (assoc_L (++)), Hall. cbn [mbind outcome_bind]. by rewrite decide_False.
Qed.

(** C12: the reply that the setters build for a value, from a reply object in any
    state, is serialized as the redis protocol prescribes, and the peer's parser
    reads the reply for the same value from it (nil for both null forms), whatever
    the chunks in which the bytes arrive; what follows the reply is left in the
    buffer.  This holds for values whose texts and arrays have less than 2^31
    elements, whose status and error texts have no CRLF, and whose integers are not
    -2^63, if the arena provides memory. *)
Theorem redis_reply_roundtrip allocates v r chunks rest :
  (forall n, 0 <= n < 2 ^ 37 -> allocates n = true) -> value_ok v -> concat chunks = encode v ++ rest ->
  exists r', build allocates v r = Ok r' /\ SerializeTo r' = Ok (true, encode v) /\
    feed allocates Reset [] chunks = Ok (PARSE_OK, reply_of v, rest).
Proof.
  intros Halloc Hok E. destruct (build_stands_for allocates Halloc v Hok r) as (r' & Eb & Hr). exists r'.
  split_and!; [done|by apply SerializeTo_encode|].
  apply (feed_parses allocates v chunks rest Halloc Hok Reset (encode v)); [by constructor| |done].
  by destruct v.
Qed.

Lemma redis_reply_roundtrip_witness :
  let allocates n := n <? 2 ^ 40 in
  let v := VArray [VStatus (bs "OK"); VArray [VInteger (-7); VString (bs "a longer bulk string")]] in
  exists r', build allocates v (SetStatus allocates (bs "old") Reset) = Ok r' /\ SerializeTo r' = Ok (true, encode v) /\
    feed allocates Reset [] [ztake 3 (encode v); ztake 20 (zdrop 3 (encode v)); zdrop 23 (encode v) ++ bs "+next"] =
      Ok (PARSE_OK, reply_of v, bs "+next").
Proof.
  cbv zeta. apply (redis_reply_roundtrip (fun n => n <? 2 ^ 40)).
  - intros n Hn. apply Z.ltb_lt. lia.
  - split_and!; vm_compute; done.
  - vm_compute. reflexivity.
Defined.

(** C22: on any buffer of less than 2 GiB, from the initial state or any state in
    which an earlier call asked for more, and whatever allocations of the arena
    succeed, the parser returns without undefined behaviour and consumes a prefix
    of the buffer.  On success it has consumed something and the reply is a
    complete value whose sizes fit its fields, unless an array has announced 2^31
    elements or more and its [_length] has become negative ([wrapped]).  When it
    asks for more, the state is again one it can continue from. *)
Theorem redis_reply_safe allocates r buf :
  partial r -> zlen buf < 2 ^ 31 ->
  exists e r' buf', ConsumePartialCordBuf allocates r buf = Ok (e, r', buf') /\
    (exists pre, buf = pre ++ buf') /\
    (e = PARSE_OK -> wrapped r' \/ (exists v, sized v /\ r' = reply_of v) /\ zlen buf' < zlen buf) /\
    (e = PARSE_ERROR_NOT_ENOUGH_DATA -> partial r').
Proof.
  intros Hr Hb. destruct (consume_rec_returns allocates (S (nesting r + length buf)) r buf Hr Hb ltac:(lia)) as (e & r' & buf' & E & Hpre & Hok & Hw).
  exists e, r', buf'. split_and!; [done|done| |done]. intros He. destruct (Hok He) as [[?|Hv] [?|[_ ?]]]; auto.
Qed.

Lemma redis_reply_safe_witness :
  exists e r' buf', ConsumePartialCordBuf (fun n => n <? 2 ^ 31) Reset (bs "*2" ++ CRLF ++ bs ":12") = Ok (e, r', buf') /\
    (exists pre, bs "*2" ++ CRLF ++ bs ":12" = pre ++ buf') /\
    (e = PARSE_OK -> wrapped r' \/ (exists v, sized v /\ r' = reply_of v) /\ zlen buf' < zlen (bs "*2" ++ CRLF ++ bs ":12")) /\
    (e = PARSE_ERROR_NOT_ENOUGH_DATA -> partial r').
Proof. apply redis_reply_safe; [by constructor|done]. Defined.

(** ** Behaviour on malformed input *)

(** A request for more data has removed the header of the array. *)
Lemma array_header_popped :
  exists r', ConsumePartialCordBuf (fun _ => true) Reset (bs "*2" ++ CRLF ++ bs ":12") =
    Ok (PARSE_ERROR_NOT_ENOUGH_DATA, r', bs ":12").
Proof. eexists. vm_compute. reflexivity. Qed.

(** An integer without digits is 0, unless a number happens to follow. *)
Lemma empty_integer :
  ConsumePartialCordBuf (fun _ => true) Reset (bs ":" ++ CRLF) =
    Ok (PARSE_OK, mk_reply REDIS_REPLY_INTEGER 0 (Integer 0), []) /\
  ConsumePartialCordBuf (fun _ => true) Reset (bs ":" ++ CRLF ++ bs "+5" ++ CRLF) =
    Ok (PARSE_ERROR_ABSOLUTELY_WRONG, Reset, bs ":" ++ CRLF ++ bs "+5" ++ CRLF).
Proof. split; vm_compute; reflexivity. Qed.

(** A header that does not end within 31 bytes is waited for forever. *)
Lemma long_header tail :
  ConsumePartialCordBuf (fun _ => true) Reset (bs ":0000000000000000000000000000000" ++ tail) =
    Ok (PARSE_ERROR_NOT_ENOUGH_DATA, Reset, bs ":0000000000000000000000000000000" ++ tail).
Proof. reflexivity. Qed.

(** The length of a null array is -1, which [operator[]] takes for the largest
    [size_t]. *)
Lemma null_array_index index set : 0 <= index < 2 ^ 63 -> with_sub index set (SetNullArray Reset) = Undefined.
Proof.
  intros H. cbn -[u64]. change (u64 npos) with (2 ^ 64 - 1). rewrite (proj2 (Z.ltb_lt _ _)) by lia. unfold zget. rewrite (proj2 (Z.ltb_ge _ _)) by lia. done.
Qed.

(** The header of an array of 2^31 or more elements is accepted; the array has a
    negative length and is complete when the parser is called again. *)
Lemma array_length_wraps t z k buf :
  read_header (42 :: t) = inr (z, k) -> zdrop (k + 2) (42 :: t) = [] -> 2 ^ 31 <= z < 2 ^ 32 ->
  exists r1 r2, ConsumePartialCordBuf (fun _ => true) Reset (42 :: t) = Ok (PARSE_ERROR_NOT_ENOUGH_DATA, r1, []) /\
    ConsumePartialCordBuf (fun _ => true) r1 buf = Ok (PARSE_OK, r2, buf) /\ _length r2 < 0.
Proof.
  intros Eh Ed Hz. assert (exists n, z = 1 + Z.of_nat n) as [n ->] by (exists (Z.to_nat (z - 1)); lia).
  assert (Hneg : s32 (1 + Z.of_nat n) < 0).
  { unfold s32. replace (1 + Z.of_nat n + 2147483648) with (Z.of_nat n - 2147483647 + 1 * 4294967296) by lia. rewrite Z.mod_add, Z.mod_small; lia. }
  eexists _, _. split_and!.
  - unfold ConsumePartialCordBuf. rewrite fresh_consume by done. unfold consume_new. cbn [Z.eqb Pos.eqb orb]. rewrite Eh. unfold consume_array, UINT32_MAX.
    rewrite !(proj2 (Z.ltb_ge _ _)), (proj2 (Z.eqb_neq _ _)), Ed by lia. cbn [negb]. replace (Z.to_nat (1 + Z.of_nat n)) with (S n) by lia. cbn [replicate].
    pose proof (sub_loop_end (consume_rec (fun _ => true) (nesting Reset + length (42 :: t))) [] Reset n [] PARSE_ERROR_NOT_ENOUGH_DATA Reset [] (replicate n Reset)) as Es.
    cbn [app] in Es. change (zlen []) with 0 in Es. rewrite Es by (done || by rewrite Nat.add_1_l, fresh_consume). cbn [mbind outcome_bind after_subs]. by rewrite decide_False.
  - unfold ConsumePartialCordBuf. cbn [consume_rec Z.leb Z.compare]. replace (Z.to_nat (s32 (1 + Z.of_nat n) - 0)) with O by lia.
    cbn [sub_loop mbind outcome_bind after_subs]. by rewrite decide_True.
  - done.
Qed.

Lemma array_length_wraps_header :
  read_header (bs "*2147483648" ++ CRLF) = inr (2147483648, 11) /\ zdrop (11 + 2) (bs "*2147483648" ++ CRLF) = [].
Proof. split; vm_compute; reflexivity. Qed.
