(* ===== verification/RedisCommand.v ===== *)
(** * [flare/rpc/redis_command.h], [redis_command.cc]: redis commands

    [RedisCommandNoFormat], [RedisCommandFormatV] and
    [RedisCommandByComponents] write a command as an array of bulk strings;
    [RedisCommandParser] reads one on the server side, from a buffer that may
    end anywhere.

    The arguments of the formatting function are a list of values ([va_list]);
    [vsnprintf] is a function of the conversion specification and the
    argument. *)

From S2P Require Import Prelude ByteSearch Decimal RedisReply.
Local Open Scope Z_scope.

(** ** Writing *)

(** [AppendHeader(buf, fc, value)]: what is appended. *)
Definition AppendHeader (fc value : Z) : outcome (list Z) :=
  ds ← AppendDecimal value; Ok (fc :: ds ++ CRLF).

Definition CTX_WIDTH : Z := 5.

(** Failures of the formatting functions ([EINVAL]). *)
Inductive format_error :=
| NullParam
| InvalidFormat
| UnmatchedQuote (context : list Z) (offset : Z).

(** The local variables of the loops: [nocount_buf], [compbuf], [ncomponent],
    [quote_char] (0 outside quotes) and [quote_pos] as an offset. *)
Record fmt_state := mk_fmt {
  nocount_buf : list Z;
  compbuf : list Z;
  ncomponent : Z;
  quote_char : Z;
  quote_pos : Z
}.

Definition fmt_init : fmt_state := mk_fmt [] [] 0 0 0.

Definition push_comp (s : list Z) (st : fmt_state) : fmt_state :=
  mk_fmt (nocount_buf st) (compbuf st ++ s) (ncomponent st) (quote_char st) (quote_pos st).

Definition FlushComponent (st : fmt_state) : outcome fmt_state :=
  h ← AppendHeader 36 (zlen (compbuf st));
  Ok (mk_fmt (nocount_buf st ++ h ++ compbuf st ++ CRLF) [] (ncomponent st + 1) (quote_char st) (quote_pos st)).

Definition flush_nonempty (st : fmt_state) : outcome fmt_state :=
  match compbuf st with [] => Ok st | _ => FlushComponent st end.

Definition set_quote (q : Z) (st : fmt_state) : fmt_state :=
  mk_fmt (nocount_buf st) (compbuf st) (ncomponent st) q (quote_pos st).

(** The text of the loop body that both functions share: the character [c] at
    offset [pos]. *)
Definition plain_char (c pos : Z) (st : fmt_state) : outcome fmt_state :=
  if c =? 32 then
    if negb (quote_char st =? 0) then Ok (push_comp [c] st) else flush_nonempty st
  else if (c =? 34) || (c =? 39) then
    if quote_char st =? 0 then
      flush_nonempty (mk_fmt (nocount_buf st) (compbuf st) (ncomponent st) c pos)
    else if quote_char st =? c then
      if default 0 (last (compbuf st)) =? 92 then
        Ok (mk_fmt (nocount_buf st) (removelast (compbuf st) ++ [c]) (ncomponent st) (quote_char st) (quote_pos st))
      else FlushComponent (set_quote 0 st)
    else Ok (push_comp [c] st)
  else Ok (push_comp [c] st).

(** After the loop: an open quote is an error with its neighbourhood, otherwise
    the count and the components are appended to the output. *)
Definition finish_format (text : list Z) (st : fmt_state) (outbuf : list Z) : outcome (format_error + list Z) :=
  if negb (quote_char st =? 0) then
    let ctx_begin := quote_pos st - Z.min (quote_pos st) CTX_WIDTH in
    let ctx_size := Z.min (zlen text - ctx_begin) (CTX_WIDTH * 2 + 1) in
    Ok (inl (UnmatchedQuote (ztake ctx_size (zdrop ctx_begin text)) (quote_pos st)))
  else
    st ← flush_nonempty st;
    h ← AppendHeader 42 (ncomponent st);
    Ok (inr (outbuf ++ h ++ nocount_buf st)).

Fixpoint noformat_loop (pos : Z) (cmd : list Z) (st : fmt_state) : outcome fmt_state :=
  match cmd with
  | [] => Ok st
  | c :: cmd => st ← plain_char c pos st; noformat_loop (pos + 1) cmd st
  end.

(** [outbuf] is the content of the buffer that is appended to; the result is
    its new content. *)
Definition RedisCommandNoFormat (outbuf cmd : list Z) : outcome (format_error + list Z) :=
  match cmd with
  | [] => Ok (inl NullParam)
  | _ => st ← noformat_loop 0 cmd fmt_init; finish_format cmd st outbuf
  end.

(** *** Format strings *)

Inductive va_value :=
| VaString (s : list Z)             (* char*, up to its NUL *)
| VaBinary (s : list Z)             (* char* and size_t, for %b *)
| VaNumber (z : Z).                 (* int, long, long long or double *)

Definition intfmts : list Z := bs "diouxX".
Definition doublefmts : list Z := bs "eEfFgGaA".
Definition flags : list Z := bs "#0-+ ".

(** [strchr(set, c) != nullptr]: the terminator is found, too. *)
Definition strchr (set : list Z) (c : Z) : bool := (c =? 0) || existsb (Z.eqb c) set.

(** [*p]: the NUL at the end of a string. *)
Definition at_ (p : list Z) : Z := match p with c :: _ => c | [] => 0 end.

Fixpoint skip_while (f : Z -> bool) (p : list Z) : list Z :=
  match p with
  | c :: r => if f c then skip_while f r else p
  | [] => []
  end.

(** The conversion specification after the [%]: [_p] at its last character if
    it is valid. *)
Definition conversion (p : list Z) : option (list Z) :=
  let _p := skip_while (strchr flags) p in
  let _p := skip_while isdigit _p in
  let _p := if at_ _p =? 46 then skip_while isdigit (zdrop 1 _p) else _p in
  let modified (n : Z) :=
    let _p := zdrop n _p in
    if negb (at_ _p =? 0) && strchr intfmts (at_ _p) then Some _p else None in
  if strchr intfmts (at_ _p) then Some _p
  else if strchr doublefmts (at_ _p) then Some _p
  else if (at_ _p =? 104) && (at_ (zdrop 1 _p) =? 104) then modified 2
  else if at_ _p =? 104 then modified 1
  else if (at_ _p =? 108) && (at_ (zdrop 1 _p) =? 108) then modified 2
  else if at_ _p =? 108 then modified 1
  else None.

Section formatv.
(** [vsnprintf] with room for everything: what one conversion prints. *)
Context (vsnprintf : list Z -> Z -> list Z).

(** The [default] case: [fmt] starts with the [%].  The new state, the rest of
    the format and of the arguments; [None] is [fmt_invalid].  Printing more
    than fits [_printed] reads past it, and a specification that ends with the
    format makes the loop step over the terminator. *)
Definition convert (fmt : list Z) (args : list va_value) (st : fmt_state)
    : outcome (option (fmt_state * list Z * list va_value)) :=
  match conversion (zdrop 1 fmt) with
  | None => Ok None
  | Some _p =>
      match args with
      | VaNumber z :: args =>
          let _l := zlen fmt - zlen _p + 1 in
          if _l <? 22 then
            if at_ _p =? 0 then Undefined
            else
              let printed := vsnprintf (ztake _l fmt) z in
              let plen := zlen printed in
              if 40 <? plen then Undefined
              else
                (* _printed has 40 bytes, the last one for the NUL *)
                let _printed := if plen =? 40 then ztake 39 printed ++ [0] else printed in
                Ok (Some (push_comp _printed st, zdrop 1 _p, args))
          else Ok (Some (st, zdrop 2 fmt, args))
      | _ => Undefined
      end
  end.

Fixpoint formatv_loop (fuel : nat) (len : Z) (fmt : list Z) (args : list va_value) (st : fmt_state)
    : outcome (format_error + fmt_state) :=
  match fuel with
  | O => Undefined
  | S fuel =>
      match fmt with
      | [] => Ok (inr st)
      | c :: rest =>
          if negb (c =? 37) || (at_ rest =? 0) then
            st ← plain_char c (len - zlen fmt) st; formatv_loop fuel len rest args st
          else if at_ rest =? 115 then
            match args with
            | VaString s :: args => formatv_loop fuel len (zdrop 1 rest) args (push_comp s st)
            | _ => Undefined
            end
          else if at_ rest =? 98 then
            match args with
            | VaBinary s :: args => formatv_loop fuel len (zdrop 1 rest) args (push_comp s st)
            | _ => Undefined
            end
          else if at_ rest =? 37 then formatv_loop fuel len (zdrop 1 rest) args (push_comp [37] st)
          else
            r ← convert fmt args st;
            match r with
            | None => Ok (inl InvalidFormat)
            | Some (st, rest, args) => formatv_loop fuel len rest args st
            end
      end
  end.

(** A turn consumes a character of the format: its length is enough fuel. *)
Definition RedisCommandFormatV (outbuf fmt : list Z) (args : list va_value) : outcome (format_error + list Z) :=
  r ← formatv_loop (S (length fmt)) (zlen fmt) fmt args fmt_init;
  match r with
  | inl e => Ok (inl e)
  | inr st => finish_format fmt st outbuf
  end.

End formatv.

Fixpoint append_components (components : list (list Z)) : outcome (list Z) :=
  match components with
  | [] => Ok []
  | c :: components =>
      h ← AppendHeader 36 (zlen c);
      r ← append_components components;
      Ok (h ++ c ++ CRLF ++ r)
  end.

Definition RedisCommandByComponents (output : list Z) (components : list (list Z)) : outcome (list Z) :=
  h ← AppendHeader 42 (zlen components);
  body ← append_components components;
  Ok (output ++ h ++ body).

(** ** Parsing *)

Record RedisCommandParser := mk_parser {
  _parsing_array : bool;
  _length : Z;
  _index : Z;
  _args : list (list Z)
}.

Definition parser_reset : RedisCommandParser := mk_parser false 0 0 [].

Definition tolower (c : Z) : Z := if (65 <=? c) && (c <=? 90) then c + 32 else c.

Section parser.
(** [allocates n]: whether [n] bytes can be had, from the arena or the heap;
    [std::vector::resize] throws otherwise, and the arena's answer is used
    without a check. *)
Context (allocates : Z -> bool).

(** The error, the parser, the rest of the buffer and [*args]. *)
Definition command_result : Type := ParseError * RedisCommandParser * list Z * list (list Z).

Fixpoint consume_command (fuel : nat) (p : RedisCommandParser) (buf : list Z) : outcome command_result :=
  match fuel with
  | O => Undefined
  | S fuel =>
      match buf with
      | [] => Ok (PARSE_ERROR_NOT_ENOUGH_DATA, p, buf, [])
      | fc :: _ =>
          if negb (_parsing_array p) && negb (fc =? 42) then Ok (PARSE_ERROR_TRY_OTHERS, p, buf, [])
          else if _parsing_array p && negb (fc =? 36) then Ok (PARSE_ERROR_ABSOLUTELY_WRONG, p, buf, [])
          else
            match read_header buf with
            | inl e => Ok (e, p, buf, [])
            | inr (value, crlf_pos) =>
                if value <? 0 then Ok (PARSE_ERROR_ABSOLUTELY_WRONG, p, buf, [])
                else if negb (_parsing_array p) then
                  let buf := zdrop (crlf_pos + 2) buf in
                  if negb (allocates (16 * value)) then Abort
                  else consume_command fuel (mk_parser true (s32 value) 0 (replicate (Z.to_nat value) [])) buf
                else
                  _ ← check (_index p <? _length p);
                  let len := value in
                  if UINT32_MAX <? len then Ok (PARSE_ERROR_ABSOLUTELY_WRONG, p, buf, [])
                  else if zlen buf <? crlf_pos + 2 + len + 2 then Ok (PARSE_ERROR_NOT_ENOUGH_DATA, p, buf, [])
                  else
                    let buf := zdrop (crlf_pos + 2) buf in
                    if negb (allocates ((len / 8 + 1) * 8)) then Undefined
                    else
                      let d := ztake len buf in
                      let buf := zdrop len buf in
                      (* the counter of the loop is an int *)
                      if (_index p =? 0) && (2147483647 <? len) then Undefined
                      else
                        let d := if _index p =? 0 then map tolower d else d in
                        let args := zset (_index p) d (_args p) in
                        let crlf := ztake 2 buf in
                        let buf := zdrop 2 buf in
                        if negb (bool_decide (crlf = CRLF)) then
                          Ok (PARSE_ERROR_ABSOLUTELY_WRONG, mk_parser true (_length p) (_index p) args, buf, [])
                        else if _index p + 1 <? _length p then
                          consume_command fuel (mk_parser true (_length p) (_index p + 1) args) buf
                        else Ok (PARSE_OK, parser_reset, buf, args)
            end
      end
  end.

(** Every recursive call has consumed a header. *)
Definition Consume (p : RedisCommandParser) (buf : list Z) : outcome command_result :=
  consume_command (S (length buf)) p buf.

End parser.
