(* ===== verification/RedisCommandSpec.v ===== *)
(** * Redis commands: formatting and parsing

    Commands given by components come back from the parser whatever the chunks
    in which they arrive, with the name in lower case; the text functions
    produce the components of a reference tokenizer; formatting adds the
    arguments as they are. *)

From S2P Require Import Prelude ByteSearch Decimal RedisReply RedisReplySpec RedisCommand.
Local Open Scope Z_scope.

(** The bytes of a command. *)
Definition command (components : list (list Z)) : list Z := encode (VArray (map VString components)).

Lemma AppendHeader_ok fc d : 0 <= d < 2 ^ 63 -> AppendHeader fc d = Ok (fc :: dec d ++ CRLF).
Proof.
  intros Hd. destruct (dec_ok d [] ltac:(lia) I) as (E & _). unfold AppendHeader, append_decimal, AppendDecimal in *.
  rewrite (proj2 (Z.ltb_ge _ _)) in E by lia. by rewrite E.
Qed.

Lemma append_components_ok cs : Forall (fun c => zlen c < 2 ^ 63) cs ->
  append_components cs = Ok (concat (map encode (map VString cs))).
Proof.
  induction 1 as [|c cs Hc _ IH]; [done|]. cbn [append_components map concat encode].
  rewrite AppendHeader_ok by (pose proof (zlen_nonneg c); lia). cbn [mbind outcome_bind]. rewrite IH. cbn [mbind outcome_bind].
  cbn [app]. by rewrite <- !(assoc_L (++)).
Qed.

Lemma zlen_map {A B} (f : A -> B) l : zlen (map f l) = zlen l.
Proof. unfold zlen. by rewrite length_map. Qed.

Lemma by_components_ok output cs : Forall (fun c => zlen c < 2 ^ 63) cs -> zlen cs < 2 ^ 63 ->
  RedisCommandByComponents output cs = Ok (output ++ command cs).
Proof.
  intros Hc Hn. unfold RedisCommandByComponents, command. cbn [encode]. rewrite zlen_map.
  rewrite AppendHeader_ok by (pose proof (zlen_nonneg cs); lia). cbn [mbind outcome_bind].
  rewrite append_components_ok by done. cbn [mbind outcome_bind app]. by rewrite <- !(assoc_L (++)).
Qed.

(** ** The parser *)

Definition lower_first (cs : list (list Z)) : list (list Z) :=
  match cs with [] => [] | c :: cs => map tolower c :: cs end.

(** The state after the components [past], with [todo] to come. *)
Definition parser_at (past todo : list (list Z)) : RedisCommandParser :=
  mk_parser true (zlen (past ++ todo)) (zlen past) (lower_first past ++ replicate (length todo) []).

Definition bulks (cs : list (list Z)) : list Z := concat (map encode (map VString cs)).

Lemma lower_first_snoc past c :
  lower_first (past ++ [c]) = lower_first past ++ [if zlen past =? 0 then map tolower c else c].
Proof.
  destruct past as [|d past]; [done|]. rewrite zlen_cons, (proj2 (Z.eqb_neq _ _)) by (pose proof (zlen_nonneg past); lia). done.
Qed.

Lemma set_component past c (k : nat) :
  zset (zlen past) (if zlen past =? 0 then map tolower c else c) (lower_first past ++ replicate (S k) []) =
  lower_first (past ++ [c]) ++ replicate k [].
Proof.
  rewrite lower_first_snoc, <- (assoc_L (++)). assert (length (lower_first past) = length past) as Hl by (by destruct past).
  unfold zset. rewrite (proj2 (Z.ltb_ge _ _)) by apply zlen_nonneg. unfold zlen at 1. rewrite Nat2Z.id, <- Hl.
  by rewrite insert_app_r_alt, Nat.sub_diag by lia.
Qed.

Section parse.
Context (allocates : Z -> bool).
Context (Halloc : forall n, 0 <= n < 2 ^ 37 -> allocates n = true).

(** One component. *)
Lemma consume_component fuel past c todo rest :
  zlen c < 2 ^ 31 -> zlen (past ++ c :: todo) < 2 ^ 31 ->
  consume_command allocates (S fuel) (parser_at past (c :: todo)) (encode (VString c) ++ rest) =
  match todo with
  | [] => Ok (PARSE_OK, parser_reset, rest, lower_first (past ++ [c]))
  | _ => consume_command allocates fuel (parser_at (past ++ [c]) todo) rest
  end.
Proof using Halloc.
  intros Hc Hn. pose proof (zlen_nonneg c) as Hc0. pose proof (zlen_nonneg past). cbn [encode app]. rewrite <- !(assoc_L (++)).
  cbn [consume_command parser_at _parsing_array _index RedisCommand._length _args negb andb Z.eqb Pos.eqb].
  rewrite read_header_ok by lia. rewrite (proj2 (Z.ltb_ge _ 0)) by lia. cbn [negb].
  assert (zlen (past ++ c :: todo) = zlen past + zlen todo + 1) as En by (rewrite zlen_app, zlen_cons; lia).
  rewrite En in *. pose proof (zlen_nonneg todo).
  rewrite (proj2 (Z.ltb_lt (zlen past) _)) by lia. cbn [check mbind outcome_bind]. unfold UINT32_MAX.
  rewrite (proj2 (Z.ltb_ge 4294967295 _)), (proj2 (Z.ltb_ge (zlen (_ :: _)) _))
    by (rewrite ?zlen_cons, ?zlen_app; change (zlen CRLF) with 2; pose proof (zlen_nonneg rest); lia).
  rewrite drop_header, ztake_app_exact, zdrop_app_exact by done.
  destruct (string_fits allocates Halloc c Hc) as [_ ->]. cbn [negb].
  rewrite (proj2 (Z.ltb_ge 2147483647 _)), andb_false_r by lia.
  rewrite ztake_app_exact, zdrop_app_exact by done. rewrite bool_decide_eq_true_2 by done. cbn [negb length].
  rewrite set_component. destruct todo as [|c2 todo].
  - rewrite (@zlen_nil (list Z)), (proj2 (Z.ltb_ge _ _)) by lia. by rewrite app_nil_r.
  - rewrite zlen_cons in *. pose proof (zlen_nonneg todo). rewrite (proj2 (Z.ltb_lt _ _)) by lia.
    unfold parser_at. rewrite !zlen_app, !zlen_cons, (@zlen_nil (list Z)). do 2 f_equal; lia.
Qed.

(** A part of a component changes nothing. *)
Lemma consume_component_part fuel past c todo a b :
  zlen c < 2 ^ 31 -> encode (VString c) = a ++ b -> b <> [] ->
  consume_command allocates (S fuel) (parser_at past (c :: todo)) a =
    Ok (PARSE_ERROR_NOT_ENOUGH_DATA, parser_at past (c :: todo), a, []).
Proof.
  intros Hc E Hb. destruct a as [|fc a]; [done|]. pose proof (zlen_nonneg c). cbn [encode] in E. pose proof E as E0.
  injection E as <- E.
  cbn [consume_command parser_at _parsing_array _index RedisCommand._length _args negb andb Z.eqb Pos.eqb].
  destruct (header_split 36 (zlen c) (c ++ CRLF) (36 :: a) b) as [(b1 & Ea & Hb1)|(a2 & Ea & Eb)]; [done|..].
  - by rewrite (read_header_part 36 (zlen c) ltac:(lia) ltac:(lia) _ b1).
  - rewrite Ea, read_header_ok by lia. rewrite (proj2 (Z.ltb_ge _ 0)) by lia. cbn [negb].
    assert (zlen (past ++ c :: todo) = zlen past + zlen todo + 1) as -> by (rewrite zlen_app, zlen_cons; lia).
    pose proof (zlen_nonneg todo).
    rewrite (proj2 (Z.ltb_lt (zlen past) _)) by lia. cbn [check mbind outcome_bind]. unfold UINT32_MAX.
    assert (0 < zlen b) by (destruct b; [done|rewrite zlen_cons; pose proof (zlen_nonneg b); lia]).
    apply (f_equal zlen) in Eb. rewrite !zlen_app in Eb. change (zlen CRLF) with 2 in Eb.
    rewrite (proj2 (Z.ltb_ge 4294967295 _)), (proj2 (Z.ltb_lt (zlen (_ :: _)) _))
      by (rewrite ?zlen_cons, ?zlen_app; change (zlen CRLF) with 2; lia). done.
Qed.

Definition short (c : list Z) : Prop := zlen c < 2 ^ 31.

Lemma consume_bulks todo : forall past fuel rest,
  todo <> [] -> Forall short todo -> zlen (past ++ todo) < 2 ^ 31 -> (length (bulks todo ++ rest) < fuel)%nat ->
  consume_command allocates fuel (parser_at past todo) (bulks todo ++ rest) =
    Ok (PARSE_OK, parser_reset, rest, lower_first (past ++ todo)).
Proof using Halloc.
  induction todo as [|c todo IH]; intros past fuel rest Hne Hs Hn Hf; [done|]. apply Forall_cons in Hs as [Hc Ht].
  destruct fuel as [|fuel]; [lia|]. unfold bulks in *. cbn [map concat] in *. rewrite <- (assoc_L (++)) in *.
  rewrite consume_component by done. destruct todo as [|c2 todo]; [done|].
  replace (past ++ c :: c2 :: todo) with ((past ++ [c]) ++ c2 :: todo) in * by (by rewrite <- (assoc_L (++))).
  apply IH; [done|done|done|]. rewrite length_app in Hf. cbn [encode length] in Hf. lia.
Qed.

Lemma consume_bulks_part todo : forall past fuel a b,
  Forall short todo -> zlen (past ++ todo) < 2 ^ 31 -> (length a < fuel)%nat -> bulks todo = a ++ b -> b <> [] ->
  exists past' todo' a', past ++ todo = past' ++ todo' /\ todo' <> [] /\ bulks todo' = a' ++ b /\
    consume_command allocates fuel (parser_at past todo) a = Ok (PARSE_ERROR_NOT_ENOUGH_DATA, parser_at past' todo', a', []).
Proof using Halloc.
  induction todo as [|c todo IH]; intros past fuel a b Hs Hn Hf E Hb.
  { destruct a, b; done. }
  apply Forall_cons in Hs as [Hc Hs]. destruct fuel as [|fuel]; [lia|].
  assert ((exists l, encode (VString c) = a ++ l /\ b = l ++ bulks todo /\ l <> []) \/
          (exists l, a = encode (VString c) ++ l /\ bulks todo = l ++ b)) as [(l & Ec & Eb & Hl)|(l & Ea & Et)].
  { unfold bulks in E. cbn [map concat] in E. apply app_eq_app in E as [l [[E1 E2]|[E1 E2]]]; [|right; by exists l].
    destruct l as [|x l]; [right; exists []; rewrite app_nil_r in *; by rewrite E1, E2|left; by exists (x :: l)]. }
  - exists past, (c :: todo), a. rewrite (consume_component_part fuel past c todo a l) by done. by split_and!.
  - rewrite Ea, consume_component by done. destruct todo as [|c2 todo]; [by destruct l, b|].
    replace (past ++ c :: c2 :: todo) with ((past ++ [c]) ++ c2 :: todo) in * by (by rewrite <- (assoc_L (++))).
    apply IH; [done|done| |done|done]. rewrite Ea, length_app in Hf. cbn [encode length] in Hf. lia.
Qed.

(** The header of the array. *)
Lemma consume_start fuel cs buf :
  0 < zlen cs < 2 ^ 31 ->
  consume_command allocates (S fuel) parser_reset (42 :: dec (zlen cs) ++ CRLF ++ buf) =
  consume_command allocates fuel (parser_at [] cs) buf.
Proof using Halloc.
  intros Hn. cbn [consume_command parser_reset _parsing_array negb andb Z.eqb Pos.eqb].
  rewrite read_header_ok by lia. rewrite (proj2 (Z.ltb_ge _ 0)) by lia. rewrite Halloc by lia. cbn [negb].
  rewrite drop_header, s32_small by lia. unfold parser_at. cbn [app lower_first]. rewrite (@zlen_nil (list Z)).
  unfold zlen. by rewrite Nat2Z.id.
Qed.

Lemma command_eq cs rest : command cs ++ rest = 42 :: dec (zlen cs) ++ CRLF ++ bulks cs ++ rest.
Proof. unfold command, bulks. cbn [encode app]. by rewrite zlen_map, <- !(assoc_L (++)). Qed.

Lemma consume_start_part fuel (cs : list (list Z)) a b :
  0 < zlen cs < 2 ^ 31 -> 42 :: dec (zlen cs) ++ CRLF = a ++ b -> b <> [] ->
  consume_command allocates (S fuel) parser_reset a = Ok (PARSE_ERROR_NOT_ENOUGH_DATA, parser_reset, a, []).
Proof.
  intros Hn E Hb. destruct a as [|fc a]; [done|]. pose proof E as E0. injection E as <- E.
  cbn [consume_command parser_reset _parsing_array negb andb Z.eqb Pos.eqb].
  by rewrite (read_header_part 42 (zlen cs) ltac:(lia) ltac:(lia) _ b).
Qed.

(** The parser in the middle of the command [cs], with [t] to come. *)
Inductive cawaits (cs : list (list Z)) : RedisCommandParser -> list Z -> Prop :=
| ca_start : cawaits cs parser_reset (command cs)
| ca_middle past todo : cs = past ++ todo -> todo <> [] -> cawaits cs (parser_at past todo) (bulks todo).

Lemma Consume_all cs p t rest :
  cs <> [] -> Forall short cs -> zlen cs < 2 ^ 31 -> cawaits cs p t ->
  Consume allocates p (t ++ rest) = Ok (PARSE_OK, parser_reset, rest, lower_first cs).
Proof using Halloc.
  intros Hne Hs Hn Hp. unfold Consume. destruct Hp as [|past todo -> Ht].
  - assert (0 < zlen cs) by (destruct cs; [done|rewrite zlen_cons; pose proof (zlen_nonneg cs); lia]).
    rewrite command_eq, consume_start by lia. apply (consume_bulks cs []); [done|done|done|].
    cbn [length]. rewrite (length_app (dec _)), (length_app CRLF). cbn [CRLF length]. lia.
  - apply Forall_app in Hs as [_ Hs]. apply consume_bulks; [done|done|done|lia].
Qed.

Lemma Consume_part cs p t a b :
  cs <> [] -> Forall short cs -> zlen cs < 2 ^ 31 -> cawaits cs p t -> t = a ++ b -> b <> [] ->
  exists p' a', Consume allocates p a = Ok (PARSE_ERROR_NOT_ENOUGH_DATA, p', a', []) /\ cawaits cs p' (a' ++ b).
Proof using Halloc.
  intros Hne Hs Hn Hp E Hb. unfold Consume. destruct Hp as [|past todo -> Ht].
  - assert (0 < zlen cs) by (destruct cs; [done|rewrite zlen_cons; pose proof (zlen_nonneg cs); lia]).
    pose proof (command_eq cs []) as Ec. rewrite !app_nil_r in Ec. rewrite Ec in E.
    destruct (header_split 42 (zlen cs) (bulks cs) a b E) as [(b1 & Ea & Hb1)|(a2 & Ea & Eb)].
    + rewrite (consume_start_part _ cs a b1) by (done || lia). eexists _, _. split; [done|].
      rewrite <- E, <- Ec. constructor.
    + destruct (consume_bulks_part cs [] (length a) a2 b) as (past' & todo' & a' & E1 & E2 & E3 & E4); [done|done| |done|done|].
      { rewrite Ea. cbn [length]. rewrite !length_app. lia. }
      exists (parser_at past' todo'), a'. rewrite <- E3. split; [|by constructor].
      rewrite <- E4. rewrite Ea at 2. apply consume_start. lia.
  - apply Forall_app in Hs as [_ Hs].
    destruct (consume_bulks_part todo past (S (length a)) a b) as (past' & todo' & a' & E1 & E2 & E3 & E4); [done|done|lia|done|done|].
    exists (parser_at past' todo'), a'. rewrite E4, <- E3. split; [done|]. by constructor.
Qed.

End parse.

(** ** Formatting text *)

(** The local variables when the components [cs] are complete, [cur] is being
    collected and [q] is the open quote. *)
Definition collected (cs : list (list Z)) (cur : list Z) (q : Z) (st : fmt_state) : Prop :=
  nocount_buf st = bulks cs /\ compbuf st = cur /\ ncomponent st = zlen cs /\ quote_char st = q.

Lemma bulks_snoc cs c : bulks (cs ++ [c]) = bulks cs ++ encode (VString c).
Proof. unfold bulks. rewrite !map_app, concat_app. cbn. by rewrite app_nil_r. Qed.

Lemma FlushComponent_ok cs cur q st : collected cs cur q st -> zlen cur < 2 ^ 63 ->
  exists st', FlushComponent st = Ok st' /\ collected (cs ++ [cur]) [] q st'.
Proof.
  intros (E1 & E2 & E3 & E4) Hl. unfold FlushComponent. rewrite E2, AppendHeader_ok by (pose proof (zlen_nonneg cur); lia).
  eexists. split; [done|]. split_and!; cbn; [|done| |done].
  - rewrite bulks_snoc, E1. cbn [encode app]. by rewrite <- !(assoc_L (++)).
  - rewrite E3, zlen_app, zlen_cons, (@zlen_nil (list Z)). lia.
Qed.

(** The components with what is being collected, unless it is empty. *)
Definition with_current (cs : list (list Z)) (cur : list Z) : list (list Z) :=
  match cur with [] => cs | _ => cs ++ [cur] end.

Lemma flush_nonempty_ok cs cur q st : collected cs cur q st -> zlen cur < 2 ^ 63 ->
  exists st', flush_nonempty st = Ok st' /\ collected (with_current cs cur) [] q st'.
Proof.
  intros Hst Hl. pose proof Hst as (E1 & E2 & E3 & E4). unfold flush_nonempty, with_current. rewrite E2.
  destruct cur; [by exists st|]. by apply FlushComponent_ok.
Qed.

Lemma finish_ok text cs cur st outbuf : collected cs cur 0 st -> zlen cur < 2 ^ 63 -> zlen (with_current cs cur) < 2 ^ 63 ->
  finish_format text st outbuf = Ok (inr (outbuf ++ command (with_current cs cur))).
Proof.
  intros Hst Hl Hn. unfold finish_format. rewrite (proj2 (proj2 (proj2 Hst))). cbn [Z.eqb negb].
  destruct (flush_nonempty_ok _ _ _ _ Hst Hl) as (st' & -> & E1 & _ & E3 & _). cbn [mbind outcome_bind].
  rewrite E1, E3, AppendHeader_ok by (split; [apply zlen_nonneg|done]). cbn [mbind outcome_bind app].
  pose proof (command_eq (with_current cs cur) []) as Ec. rewrite !app_nil_r in Ec. rewrite Ec. by rewrite <- !(assoc_L (++)).
Qed.

Lemma noformat_loop_app s1 s2 pos st :
  noformat_loop pos (s1 ++ s2) st = (st ← noformat_loop pos s1 st; noformat_loop (pos + zlen s1) s2 st).
Proof.
  revert pos st. induction s1 as [|c s1 IH]; intros pos st; cbn [app noformat_loop mbind outcome_bind].
  - by rewrite (@zlen_nil Z), Z.add_0_r.
  - destruct (plain_char c pos st) as [st'| |]; [|done|done]. cbn [mbind outcome_bind]. rewrite IH, zlen_cons.
    destruct (noformat_loop (pos + 1) s1 st') as [st2| |]; [|done|done]. cbn [mbind outcome_bind]. f_equal. lia.
Qed.

(** A component between double quotes. *)
Definition escape (c : list Z) : list Z := concat (map (fun b => if b =? 34 then [92; 34] else [b]) c).
Definition quote (c : list Z) : list Z := 34 :: escape c ++ [34].

Lemma push_ok cs cur q s st : collected cs cur q st -> collected cs (cur ++ s) q (push_comp s st).
Proof. intros (E1 & E2 & E3 & E4). unfold push_comp. split_and!; cbn; try done. by rewrite E2. Qed.

Lemma quoted_text c : forall pos cs cur st, collected cs cur 34 st ->
  exists st', noformat_loop pos (escape c) st = Ok st' /\ collected cs (cur ++ c) 34 st'.
Proof.
  induction c as [|b c IH]; intros pos cs cur st Hst; [exists st; by rewrite app_nil_r|].
  unfold escape. cbn [map concat]. fold (escape c).
  assert (quote_char st = 34) as Eq by apply Hst.
  assert (exists pos' st', noformat_loop pos ((if b =? 34 then [92; 34] else [b]) ++ escape c) st = noformat_loop pos' (escape c) st' /\
    collected cs (cur ++ [b]) 34 st') as (pos' & st' & -> & Hst').
  { destruct (Z.eqb_spec b 34) as [->|Hb]; cbn [app noformat_loop]; unfold plain_char.
    - change (92 =? 32) with false. change ((92 =? 34) || (92 =? 39)) with false. cbn iota. cbn [mbind outcome_bind noformat_loop].
      change (34 =? 32) with false. change ((34 =? 34) || (34 =? 39)) with true. cbn iota. cbn [push_comp quote_char compbuf].
      rewrite Eq. change (34 =? 0) with false. change (34 =? 34) with true. cbn iota.
      rewrite last_snoc. cbn [default]. change (92 =? 92) with true. cbn iota. cbn [mbind outcome_bind].
      eexists _, _. split; [done|]. destruct Hst as (E1 & E2 & E3 & E4). split_and!; cbn; try done.
      by rewrite removelast_last, E2.
    - exists (pos + 1), (push_comp [b] st). split; [|by apply push_ok]. rewrite Eq, (proj2 (Z.eqb_neq b 34)) by done.
      change (34 =? 0) with false. cbn [negb orb].
      destruct (b =? 32); [done|]. destruct (b =? 39) eqn:E39; [|done]. apply Z.eqb_eq in E39 as ->.
      change (34 =? 39) with false. done. }
  destruct (IH pos' cs (cur ++ [b]) st' Hst') as (st2 & -> & Hst2). exists st2. split; [done|].
  by rewrite <- (assoc_L (++)) in Hst2.
Qed.

Lemma quoted_component c pos cs st : collected cs [] 0 st -> last c <> Some 92 -> zlen c < 2 ^ 63 ->
  exists st', noformat_loop pos (quote c) st = Ok st' /\ collected (cs ++ [c]) [] 0 st'.
Proof.
  intros Hst Hlast Hl. pose proof Hst as (E1 & E2 & E3 & E4). unfold quote. cbn [noformat_loop].
  unfold plain_char at 1. change (34 =? 32) with false. change ((34 =? 34) || (34 =? 39)) with true. cbn iota.
  rewrite E4. change (0 =? 0) with true. cbn iota. unfold flush_nonempty at 1. cbn [compbuf]. rewrite E2. cbn [mbind outcome_bind].
  set (st1 := mk_fmt _ _ _ _ _). assert (collected cs [] 34 st1) as H1 by (by split_and!).
  rewrite noformat_loop_app. destruct (quoted_text c (pos + 1) cs [] st1 H1) as (st2 & -> & H2). cbn [mbind outcome_bind app noformat_loop].
  unfold plain_char. change (34 =? 32) with false. change ((34 =? 34) || (34 =? 39)) with true. cbn iota.
  destruct H2 as (F1 & F2 & F3 & F4). rewrite F4. change (34 =? 0) with false. change (34 =? 34) with true. cbn iota.
  assert ((default 0 (last (compbuf st2)) =? 92) = false) as ->.
  { apply Z.eqb_neq. rewrite F2. cbn [app]. destruct (last c) as [x|]; [|done]. cbn. congruence. }
  destruct (FlushComponent_ok cs c 0 (set_quote 0 st2)) as (st3 & -> & H3); [by split_and!|done|]. by exists st3.
Qed.

(** Words separated by spaces. *)
Fixpoint spaced (ws : list (list Z)) : list Z :=
  match ws with
  | [] => []
  | [w] => w
  | w :: ws => w ++ 32 :: spaced ws
  end.

Lemma quoted_components todo : forall pos cs st,
  collected cs [] 0 st -> Forall (fun c => last c <> Some 92 /\ zlen c < 2 ^ 63) todo ->
  exists st', noformat_loop pos (spaced (map quote todo)) st = Ok st' /\ collected (cs ++ todo) [] 0 st'.
Proof.
  induction todo as [|c todo IH]; intros pos cs st Hst Ht; [exists st; by rewrite app_nil_r|].
  apply Forall_cons in Ht as [[Hc Hl] Ht].
  destruct (quoted_component c pos cs st Hst Hc Hl) as (st1 & E & H1).
  destruct todo as [|c2 todo]; [by exists st1|]. cbn [map spaced] in *. rewrite noformat_loop_app, E. cbn [mbind outcome_bind noformat_loop].
  assert (plain_char 32 (pos + zlen (quote c)) st1 = Ok st1) as ->.
  { unfold plain_char, flush_nonempty. destruct H1 as (_ & -> & _ & ->). done. }
  cbn [mbind outcome_bind]. destruct (IH (pos + zlen (quote c) + 1) _ _ H1 Ht) as (st' & -> & H'). exists st'. by rewrite <- (assoc_L (++)) in H'.
Qed.

(** ** Format strings *)

Section formatv.
Context (vsnprintf : list Z -> Z -> list Z) (len : Z).

(** Text without [%] is handled as [RedisCommandNoFormat] handles it. *)
Lemma formatv_plain fmt args : Forall (fun c => c <> 37) fmt -> forall fuel st, (length fmt < fuel)%nat ->
  formatv_loop vsnprintf fuel len fmt args st = (st ← noformat_loop (len - zlen fmt) fmt st; Ok (inr st)).
Proof.
  induction 1 as [|c fmt Hc _ IH]; intros fuel st Hf; (destruct fuel as [|fuel]; [cbn in Hf; lia|]); [done|].
  cbn [formatv_loop noformat_loop]. rewrite (proj2 (Z.eqb_neq c 37)) by done. cbn [negb orb].
  destruct (plain_char c _ st) as [st'| |]; [|done|done]. cbn [mbind outcome_bind length] in *. rewrite IH by lia.
  rewrite zlen_cons. by replace (len - (zlen fmt + 1) + 1) with (len - zlen fmt) by lia.
Qed.

(** A word of the format or a binary argument. *)
Inductive item := Word (w : list Z) | Binary (s : list Z).

Definition item_fmt (i : item) : list Z := match i with Word w => w | Binary _ => [37; 98] end.
Definition item_arg (i : item) : list va_value := match i with Word _ => [] | Binary s => [VaBinary s] end.
Definition item_bytes (i : item) : list Z := match i with Word w => w | Binary s => s end.

Definition word_char (c : Z) : Prop := c <> 32 /\ c <> 34 /\ c <> 39 /\ c <> 37.
Definition item_ok (i : item) : Prop :=
  item_bytes i <> [] /\ zlen (item_bytes i) < 2 ^ 63 /\ match i with Word w => Forall word_char w | Binary _ => True end.

Lemma formatv_word w rest args : Forall word_char w -> forall fuel cs cur st,
  (length (w ++ rest) < fuel)%nat -> collected cs cur 0 st ->
  exists fuel' st', formatv_loop vsnprintf fuel len (w ++ rest) args st = formatv_loop vsnprintf fuel' len rest args st' /\
    (length rest < fuel')%nat /\ collected cs (cur ++ w) 0 st'.
Proof.
  induction 1 as [|c w (H1 & H2 & H3 & H4) _ IH]; intros fuel cs cur st Hf Hst.
  - exists fuel, st. by rewrite app_nil_r.
  - destruct fuel as [|fuel]; [lia|]. cbn [app formatv_loop]. rewrite (proj2 (Z.eqb_neq c 37)) by done. cbn [negb orb].
    unfold plain_char. rewrite (proj2 (Z.eqb_neq c 32)), (proj2 (Z.eqb_neq c 34)), (proj2 (Z.eqb_neq c 39)) by done.
    cbn [orb mbind outcome_bind].
    destruct (IH fuel cs (cur ++ [c]) (push_comp [c] st)) as (fuel' & st' & -> & Hf' & H');
      [cbn in Hf; lia|by apply push_ok|]. exists fuel', st'. by rewrite <- (assoc_L (++)) in H'.
Qed.

Lemma formatv_item i rest args fuel cs st : item_ok i ->
  (length (item_fmt i ++ rest) < fuel)%nat -> collected cs [] 0 st ->
  exists fuel' st', formatv_loop vsnprintf fuel len (item_fmt i ++ rest) (item_arg i ++ args) st =
      formatv_loop vsnprintf fuel' len rest args st' /\
    (length rest < fuel')%nat /\ collected cs (item_bytes i) 0 st'.
Proof.
  intros (_ & _ & Hi) Hf Hst. destruct i as [w|s]; [by apply (formatv_word w rest args Hi fuel cs [] st)|].
  destruct fuel as [|fuel]; [cbn in Hf; lia|]. cbn [item_fmt item_arg app formatv_loop].
  exists fuel, (push_comp s st). split; [done|]. split; [cbn in Hf; lia|]. by apply (push_ok cs [] 0 s st).
Qed.

Lemma formatv_items items : forall fuel cs st,
  items <> [] -> Forall item_ok items -> collected cs [] 0 st ->
  (length (spaced (map item_fmt items)) < fuel)%nat ->
  exists st' cs' cur, formatv_loop vsnprintf fuel len (spaced (map item_fmt items)) (concat (map item_arg items)) st = Ok (inr st') /\
    collected cs' cur 0 st' /\ zlen cur < 2 ^ 63 /\ with_current cs' cur = cs ++ map item_bytes items.
Proof.
  induction items as [|i items IH]; intros fuel cs st Hne Hok Hst Hf; [done|]. apply Forall_cons in Hok as [Hi Hok].
  pose proof Hi as (Hb & Hz & _).
  assert (with_current cs (item_bytes i) = cs ++ [item_bytes i]) as Ew by (by destruct (item_bytes i)).
  destruct items as [|i2 items].
  - destruct (formatv_item i [] [] fuel cs st Hi) as (fuel' & st' & E & Hf' & H'); [by rewrite app_nil_r|done|].
    cbn [map spaced concat]. rewrite app_nil_r in E. rewrite E. destruct fuel' as [|fuel']; [cbn in Hf'; lia|].
    exists st', cs, (item_bytes i). by split_and!.
  - change (spaced (map item_fmt (i :: i2 :: items))) with (item_fmt i ++ 32 :: spaced (map item_fmt (i2 :: items))) in *.
    change (concat (map item_arg (i :: i2 :: items))) with (item_arg i ++ concat (map item_arg (i2 :: items))).
    destruct (formatv_item i (32 :: spaced (map item_fmt (i2 :: items))) (concat (map item_arg (i2 :: items))) fuel cs st Hi Hf Hst)
      as (fuel' & st' & -> & Hf' & H').
    destruct fuel' as [|fuel']; [cbn in Hf'; lia|]. cbn [length] in Hf'. cbn [formatv_loop]. change (32 =? 37) with false. cbn [negb orb].
    assert (forall pos, exists st2, plain_char 32 pos st' = Ok st2 /\ collected (cs ++ [item_bytes i]) [] 0 st2) as Hsp.
    { intros pos. unfold plain_char. change (32 =? 32) with true. rewrite (proj2 (proj2 (proj2 H'))). cbn [Z.eqb negb].
      rewrite <- Ew. by apply flush_nonempty_ok. }
    edestruct Hsp as (st2 & -> & H2). cbn [mbind outcome_bind].
    destruct (IH fuel' _ _ ltac:(done) Hok H2) as (st3 & cs' & cur & -> & H3 & Hl & Hw); [lia|].
    exists st3, cs', cur. split_and!; [done|done|done|]. rewrite Hw. by rewrite <- (assoc_L (++)).
Qed.

End formatv.

(** ** The theorems *)

Fixpoint feed_command (allocates : Z -> bool) (p : RedisCommandParser) (buf : list Z) (chunks : list (list Z)) : outcome command_result :=
  match chunks with
  | [] => Ok (PARSE_ERROR_NOT_ENOUGH_DATA, p, buf, [])
  | c :: chunks =>
      '(e, p, buf, args) ← Consume allocates p (buf ++ c);
      if decide (e = PARSE_ERROR_NOT_ENOUGH_DATA) then feed_command allocates p buf chunks
      else Ok (e, p, buf ++ concat chunks, args)
  end.

Lemma feed_command_ok allocates cs chunks rest :
  (forall n, 0 <= n < 2 ^ 37 -> allocates n = true) -> cs <> [] -> Forall short cs -> zlen cs < 2 ^ 31 ->
  forall p t buf, cawaits cs p (buf ++ t) -> t <> [] -> concat chunks = t ++ rest ->
  feed_command allocates p buf chunks = Ok (PARSE_OK, parser_reset, rest, lower_first cs).
Proof.
  intros Halloc Hne Hs Hn. induction chunks as [|c chunks IH]; intros p t buf Hp Ht E; [by destruct t|].
  cbn [feed_command concat] in *.
  assert ((exists l, t = c ++ l /\ concat chunks = l ++ rest /\ l <> []) \/ (exists l, c = t ++ l /\ rest = l ++ concat chunks))
    as [(l & -> & El & Hl)|(l & -> & ->)].
  { apply app_eq_app in E as [l [[E1 E2]|[E1 E2]]]; [right; by exists l|].
    destruct l as [|x l]; [right; exists []; rewrite app_nil_r in *; by rewrite E1, E2|left; by exists (x :: l)]. }
  - destruct (Consume_part allocates Halloc cs p _ (buf ++ c) l Hne Hs Hn Hp) as (p' & a' & -> & Hp'); [by rewrite (assoc_L (++))|done|].
    cbn [mbind outcome_bind]. rewrite decide_True by done. by apply (IH p' l a').
  - rewrite (assoc_L (++)), (Consume_all allocates Halloc cs) by done. cbn [mbind outcome_bind]. by rewrite decide_False.
Qed.

(** C23: a command written from its components (arbitrary bytes, at least one)
    is read back by the server's parser whatever the chunks in which it
    arrives, with the first component in lower case; the parser is then ready
    for the next command, whose bytes are left in the buffer. *)
Theorem redis_command_roundtrip allocates output cs chunks rest :
  (forall n, 0 <= n < 2 ^ 37 -> allocates n = true) -> cs <> [] -> Forall short cs -> zlen cs < 2 ^ 31 ->
  concat chunks = command cs ++ rest ->
  RedisCommandByComponents output cs = Ok (output ++ command cs) /\
  feed_command allocates parser_reset [] chunks = Ok (PARSE_OK, parser_reset, rest, lower_first cs).
Proof.
  intros Halloc Hne Hs Hn E. split.
  - apply by_components_ok; [|lia]. eapply Forall_impl; [done|]. unfold short. intros c Hc. lia.
  - apply (feed_command_ok allocates cs chunks rest Halloc Hne Hs Hn parser_reset (command cs)); [constructor|done|done].
Qed.

Lemma redis_command_roundtrip_witness :
  RedisCommandByComponents [] [bs "SET"; [0; 13; 10]] = Ok (command [bs "SET"; [0; 13; 10]]) /\
  feed_command (fun n => n <? 2 ^ 40) parser_reset []
    [bs "*2"; CRLF ++ bs "$3" ++ CRLF ++ bs "SE"; bs "T" ++ CRLF ++ bs "$3" ++ CRLF ++ [0; 13]; 10 :: CRLF ++ bs "*1"] =
    Ok (PARSE_OK, parser_reset, bs "*1", [bs "set"; [0; 13; 10]]).
Proof.
  apply (redis_command_roundtrip (fun n => n <? 2 ^ 40) [] [bs "SET"; [0; 13; 10]]).
  - intros n Hn. apply Z.ltb_lt. lia.
  - done.
  - repeat constructor; vm_compute; done.
  - vm_compute. done.
  - vm_compute. reflexivity.
Defined.

(** Any components can be written in the text of
    [RedisCommandNoFormat]: each between double quotes, with a backslash before
    the double quotes inside.  Spaces, single quotes, empty components and
    backslashes are kept; only a component that ends in a backslash cannot be
    quoted. *)
Theorem redis_command_quoting outbuf cs :
  cs <> [] -> Forall (fun c => last c <> Some 92 /\ zlen c < 2 ^ 63) cs -> zlen cs < 2 ^ 63 ->
  RedisCommandNoFormat outbuf (spaced (map quote cs)) = Ok (inr (outbuf ++ command cs)).
Proof.
  intros Hne Hcs Hn. unfold RedisCommandNoFormat. destruct (spaced (map quote cs)) eqn:E.
  { destruct cs as [|c [|]]; done. }
  rewrite <- E. destruct (quoted_components cs 0 [] fmt_init) as (st & -> & Hst); [done|done|]. cbn [mbind outcome_bind].
  by rewrite (finish_ok _ cs [] st outbuf Hst).
Qed.

Lemma redis_command_quoting_witness :
  RedisCommandNoFormat [] ([34] ++ bs "SET" ++ [34; 32; 34] ++ bs "a b" ++ [92; 34; 39] ++ [34; 32; 34; 34]) =
  Ok (inr ([] ++ command [bs "SET"; bs "a b" ++ [34; 39]; []])).
Proof.
  apply (redis_command_quoting [] [bs "SET"; bs "a b" ++ [34; 39]; []]); [done| |vm_compute; done].
  repeat constructor; vm_compute; congruence.
Defined.

(** [RedisCommandFormatV] on a format without [%] does what
    [RedisCommandNoFormat] does with the same text, errors included. *)
Theorem redis_format_without_conversions vsnprintf outbuf fmt args :
  fmt <> [] -> Forall (fun c => c <> 37) fmt ->
  RedisCommandFormatV vsnprintf outbuf fmt args = RedisCommandNoFormat outbuf fmt.
Proof.
  intros Hne Hf. unfold RedisCommandFormatV, RedisCommandNoFormat. rewrite formatv_plain by (done || lia).
  rewrite Z.sub_diag. destruct fmt; [done|]. by destruct (noformat_loop 0 _ fmt_init).
Qed.

Lemma redis_format_without_conversions_witness :
  RedisCommandFormatV (fun _ _ => []) [] (bs "GET 'a") [] = RedisCommandNoFormat [] (bs "GET 'a") /\
  RedisCommandNoFormat [] (bs "GET 'a") = Ok (inl (UnmatchedQuote (bs "GET 'a") 4)).
Proof.
  split; [|vm_compute; reflexivity]. apply redis_format_without_conversions; [done|].
  repeat constructor; vm_compute; congruence.
Defined.

(** [%b] is binary safe: a format of words and [%b] separated by spaces
    gives one component per word and per argument, with the bytes of the
    argument unchanged, whatever they are; the format itself must not contain
    quotes, and empty arguments are excluded. *)
Theorem redis_format_binary_safe vsnprintf outbuf items :
  items <> [] -> Forall item_ok items -> zlen items < 2 ^ 63 ->
  RedisCommandFormatV vsnprintf outbuf (spaced (map item_fmt items)) (concat (map item_arg items)) =
    Ok (inr (outbuf ++ command (map item_bytes items))).
Proof.
  intros Hne Hok Hn. unfold RedisCommandFormatV.
  destruct (formatv_items vsnprintf (zlen (spaced (map item_fmt items))) items (S (length (spaced (map item_fmt items)))) [] fmt_init Hne Hok)
    as (st & cs & cur & -> & Hst & Hl & Ew); [done|lia|]. cbn [mbind outcome_bind].
  rewrite (finish_ok _ _ _ _ _ Hst Hl), Ew; [done|]. by rewrite Ew, app_nil_l, zlen_map.
Qed.

Lemma redis_format_binary_safe_witness :
  RedisCommandFormatV (fun _ _ => []) [] (bs "SET key %b") [VaBinary [32; 34; 0; 37]] =
  Ok (inr (command [bs "SET"; bs "key"; [32; 34; 0; 37]])).
Proof.
  apply (redis_format_binary_safe (fun _ _ => []) [] [Word (bs "SET"); Word (bs "key"); Binary [32; 34; 0; 37]]); [done| |vm_compute; done].
  repeat constructor; vm_compute; congruence.
Defined.

(** ** Corner cases *)

(** An empty argument disappears instead of becoming an empty component. *)
Lemma empty_argument_dropped :
  RedisCommandFormatV (fun _ _ => []) [] (bs "SET key %s") [VaString []] = Ok (inr (command [bs "SET"; bs "key"])).
Proof. vm_compute. reflexivity. Qed.

(** After an empty array the parser waits for an element that cannot come: the
    next command is rejected, and a bulk string stops the process. *)
Lemma empty_command :
  Consume (fun _ => true) parser_reset (bs "*0" ++ CRLF ++ bs "*1" ++ CRLF) =
    Ok (PARSE_ERROR_ABSOLUTELY_WRONG, mk_parser true 0 0 [], bs "*1" ++ CRLF, []) /\
  Consume (fun _ => true) parser_reset (bs "*0" ++ CRLF ++ bs "$1" ++ CRLF ++ bs "x" ++ CRLF) = Abort.
Proof. split; vm_compute; reflexivity. Qed.

(** A format that ends inside a conversion is accepted and stepped over. *)
Lemma unfinished_conversion : RedisCommandFormatV (fun _ _ => []) [] (bs "GET %5") [VaNumber 1] = Undefined.
Proof. vm_compute. reflexivity. Qed.

(** More than 40 characters of one conversion are read past the array. *)
Lemma long_conversion :
  RedisCommandFormatV (fun _ _ => replicate 41 48) [] (bs "GET %041d") [VaNumber 1] = Undefined.
Proof. vm_compute. reflexivity. Qed.
