(* ===== verification/RedisResponse.v ===== *)
(** * [flare/rpc/redis.cc]: pipelined responses, and printing of strings

    [RedisResponse::ConsumePartialCordBuf] collects the replies to a pipeline
    of commands over any number of calls.  [RedisStringPrinter::Print] writes
    runs of characters that need no escape at once; it is compared with the
    function that escapes one character at a time. *)

From S2P Require Import Prelude ByteSearch Decimal RedisReply RedisReplySpec.
Local Open Scope Z_scope.

(** ** Responses *)

Record RedisResponse := mk_response {
  _first_reply : RedisReply;
  _other_replies : option (list RedisReply);
  _nreply : Z;
  _cached_size_ : Z
}.

(** [SharedCtor] and [Clear]. *)
Definition response_clear : RedisResponse := mk_response Reset None 0 0.

Section consume.
Context (allocates : Z -> bool).

(** The loop over the replies after the first: [n] turns, the reply [i] of the
    pipeline is [_other_replies[i - 1]]. *)
Fixpoint others_loop (n : nat) (i cached : Z) (others : list RedisReply) (buf : list Z)
    : outcome (ParseError * Z * Z * list RedisReply * list Z) :=
  match n with
  | O => Ok (PARSE_OK, i, cached, others, buf)
  | S n =>
      let oldsize := zlen buf in
      match zget others (i - 1) with
      | None => Undefined
      | Some r =>
          '(err, r, buf) ← ConsumePartialCordBuf allocates r buf;
          let others := zset (i - 1) r others in
          if negb (bool_decide (err = PARSE_OK)) then Ok (err, i, cached, others, buf)
          else others_loop n (i + 1) (s32 (cached + (oldsize - zlen buf))) others buf
      end
  end.

Definition consume_others (reply_count : Z) (resp : RedisResponse) (buf : list Z)
    : outcome (ParseError * RedisResponse * list Z) :=
  if 1 <? reply_count then
    match (match _other_replies resp with
           | Some others => Some others
           | None => if allocates (reply_size_of * (reply_count - 1)) then Some (replicate (Z.to_nat (reply_count - 1)) Reset) else None
           end) with
    | None => Ok (PARSE_ERROR_ABSOLUTELY_WRONG, resp, buf)
    | Some others =>
        '(err, i, cached, others, buf) ←
          others_loop (Z.to_nat (reply_count - _nreply resp)) (_nreply resp) (_cached_size_ resp) others buf;
        Ok (err, mk_response (_first_reply resp) (Some others) i cached, buf)
    end
  else Ok (PARSE_OK, resp, buf).

Definition response_consume (reply_count : Z) (resp : RedisResponse) (buf : list Z)
    : outcome (ParseError * RedisResponse * list Z) :=
  if _nreply resp =? 0 then
    let oldsize := zlen buf in
    '(err, first, buf) ← ConsumePartialCordBuf allocates (_first_reply resp) buf;
    if negb (bool_decide (err = PARSE_OK)) then
      Ok (err, mk_response first (_other_replies resp) (_nreply resp) (_cached_size_ resp), buf)
    else
      consume_others reply_count
        (mk_response first (_other_replies resp) (_nreply resp + 1) (s32 (_cached_size_ resp + (oldsize - zlen buf)))) buf
  else consume_others reply_count resp buf.

End consume.

(** [reply(index)]. *)
Definition reply (index : Z) (resp : RedisResponse) : option RedisReply :=
  if index <? _nreply resp then
    if index =? 0 then Some (_first_reply resp) else others ← _other_replies resp; zget others (index - 1)
  else Some Reset.

(** ** Printing strings *)

Definition hex (d : Z) : Z := if d <? 10 then d + 48 else d - 10 + 65.

(** The six characters for an unprintable one: the low digit comes first. *)
Definition unprintable (c : Z) : list Z :=
  let d1 := Z.land c 0xF in
  let d2 := Z.shiftr c 4 in
  bs "\u00" ++ [hex d1; hex d2].

(** [RedisStringPrinter::Print]: [i] counts up, [flush_start] is the start of
    the characters that are not written yet; [c <= 0] holds for NUL and for
    bytes above 127, [char] being signed. *)
Fixpoint print_loop (str : list Z) (i flush_start : Z) (rest os : list Z) : list Z * Z :=
  match rest with
  | [] => (os, flush_start)
  | c :: rest =>
      let flushed := if negb (i =? flush_start) then os ++ ztake (i - flush_start) (zdrop flush_start str) else os in
      if (c =? 0) || (128 <=? c) then print_loop str (i + 1) (i + 1) rest (flushed ++ unprintable c)
      else if (c =? 34) || (c =? 92) then print_loop str (i + 1) (i + 1) rest (flushed ++ [92; c])
      else print_loop str (i + 1) flush_start rest os
  end.

Definition print_string (str os : list Z) : list Z :=
  let '(os, flush_start) := print_loop str 0 0 str os in
  if negb (flush_start =? zlen str) then os ++ zdrop flush_start str else os.

(** One character at a time. *)
Definition print_char (c : Z) : list Z :=
  if (c =? 0) || (128 <=? c) then unprintable c else if (c =? 34) || (c =? 92) then [92; c] else [c].

(** ** The pipeline *)

(** The state in the middle of the replies to a pipeline of [vs]. *)
Inductive rawaits (vs : list value) : RedisResponse -> list Z -> Prop :=
| ra_first r v vs2 t n : vs = v :: vs2 -> awaits r v t ->
    rawaits vs (mk_response r None 0 n) (t ++ concat (map encode vs2))
| ra_other v0 vs1 v vs2 r t n : vs = v0 :: vs1 ++ v :: vs2 -> awaits r v t ->
    rawaits vs (mk_response (reply_of v0) (Some (map reply_of vs1 ++ r :: replicate (length vs2) Reset)) (zlen vs1 + 1) n)
      (t ++ concat (map encode vs2)).

(** The complete response, up to the byte count. *)
Definition holds (vs : list value) (resp : RedisResponse) : Prop :=
  exists n, resp = mk_response (reply_of (default VNullString (head vs)))
    (match vs with _ :: (_ :: _) as l => Some (map reply_of l) | _ => None end) (zlen vs) n.

Section pipeline.
Context (allocates : Z -> bool).
Context (Halloc : forall n, 0 <= n < 2 ^ 37 -> allocates n = true).

Lemma value_consume v : value_ok v -> parses (ConsumePartialCordBuf allocates) v.
Proof using Halloc.
  intros Hok r t Ha.
  assert (forall D buf, (vdepth v < D)%nat -> (nesting r + length buf < D)%nat ->
    consume_rec allocates D r buf = ConsumePartialCordBuf allocates r buf) as Hc
    by (intros D buf _ HD; by apply consume_rec_enough).
  split.
  - intros rest. set (D := S (Nat.max (vdepth v) (nesting r + length (t ++ rest)))).
    rewrite <- (Hc D) by lia. exact (proj1 (value_parses allocates Halloc v Hok D ltac:(lia) r t Ha) rest).
  - intros a b E Hb. set (D := S (Nat.max (vdepth v) (nesting r + length a))). rewrite <- (Hc D) by lia.
    exact (proj2 (value_parses allocates Halloc v Hok D ltac:(lia) r t Ha) a b E Hb).
Qed.

(** The loop is the one over the elements of an array, but for the count of
    bytes. *)
Lemma others_loop_subs n : forall i cached others buf err i' subs buf',
  0 < i -> i + Z.of_nat n < 2 ^ 31 ->
  sub_loop (ConsumePartialCordBuf allocates) n (i - 1) others buf = Ok (err, i', subs, buf') ->
  exists cached', others_loop allocates n i cached others buf = Ok (err, i' + 1, cached', subs, buf').
Proof.
  induction n as [|n IH]; intros i cached others buf err i' subs buf' Hi Hn; cbn [sub_loop others_loop].
  - intros [= <- <- <- <-]. exists cached. by replace (i - 1 + 1) with i by lia.
  - destruct (zget others (i - 1)) as [r|]; [|done].
    destruct (ConsumePartialCordBuf allocates r buf) as [[[e r'] b]| |]; [|done|done]. cbn [mbind outcome_bind].
    destruct (negb (bool_decide (e = PARSE_OK))).
    + intros [= <- <- <- <-]. exists cached. by replace (i - 1 + 1) with i by lia.
    + case_if; [done|]. replace (i - 1 + 1) with (i + 1 - 1) by lia. apply IH; lia.
Qed.

Lemma consume_others_all v0 vs1 v vs2 r t n rest :
  let vs := v0 :: vs1 ++ v :: vs2 in
  Forall value_ok vs -> zlen vs < 2 ^ 31 -> awaits r v t ->
  exists resp, consume_others allocates (zlen vs)
      (mk_response (reply_of v0) (Some (map reply_of vs1 ++ r :: replicate (length vs2) Reset)) (zlen vs1 + 1) n)
      (t ++ concat (map encode vs2) ++ rest) = Ok (PARSE_OK, resp, rest) /\ holds vs resp.
Proof using Halloc.
  intros vs Hok Hn Ha. subst vs. rewrite zlen_cons in *. unfold consume_others.
  assert (zlen (vs1 ++ v :: vs2) = zlen vs1 + zlen vs2 + 1) as El by (rewrite zlen_app, zlen_cons; lia).
  pose proof (zlen_nonneg vs1). pose proof (zlen_nonneg vs2).
  rewrite (proj2 (Z.ltb_lt _ _)) by lia. cbn [_other_replies _nreply _cached_size_ _first_reply].
  replace (Z.to_nat (zlen (vs1 ++ v :: vs2) + 1 - (zlen vs1 + 1))) with (S (length vs2)) by (unfold zlen in *; lia).
  assert (Forall (parses (ConsumePartialCordBuf allocates)) (v :: vs2)) as Hp.
  { apply Forall_cons in Hok as [_ Hok]. apply Forall_app in Hok as [_ Hok].
    eapply Forall_impl; [done|]. apply value_consume. }
  pose proof (sub_loop_all _ vs2 vs1 v r t rest Hp Ha ltac:(lia)) as Es.
  replace (zlen vs1) with (zlen vs1 + 1 - 1) in Es by lia.
  destruct (others_loop_subs (S (length vs2)) (zlen vs1 + 1) n _ _ _ _ _ _ ltac:(lia) ltac:(unfold zlen in *; lia) Es) as [cached ->].
  cbn [mbind outcome_bind]. eexists. split; [done|]. exists cached. rewrite zlen_cons. cbn [head default].
  destruct (vs1 ++ v :: vs2) eqn:E; [by destruct vs1|]. done.
Qed.

Lemma consume_others_part v0 vs1 v vs2 r t n a b :
  let vs := v0 :: vs1 ++ v :: vs2 in
  Forall value_ok vs -> zlen vs < 2 ^ 31 -> awaits r v t -> t ++ concat (map encode vs2) = a ++ b -> b <> [] ->
  exists resp a', consume_others allocates (zlen vs)
      (mk_response (reply_of v0) (Some (map reply_of vs1 ++ r :: replicate (length vs2) Reset)) (zlen vs1 + 1) n) a =
    Ok (PARSE_ERROR_NOT_ENOUGH_DATA, resp, a') /\ rawaits vs resp (a' ++ b).
Proof using Halloc.
  intros vs Hok Hn Ha E Hb. subst vs. rewrite zlen_cons in *. unfold consume_others.
  assert (zlen (vs1 ++ v :: vs2) = zlen vs1 + zlen vs2 + 1) as El by (rewrite zlen_app, zlen_cons; lia).
  pose proof (zlen_nonneg vs1). pose proof (zlen_nonneg vs2).
  rewrite (proj2 (Z.ltb_lt _ _)) by lia. cbn [_other_replies _nreply _cached_size_ _first_reply].
  replace (Z.to_nat (zlen (vs1 ++ v :: vs2) + 1 - (zlen vs1 + 1))) with (S (length vs2)) by (unfold zlen in *; lia).
  assert (Forall (parses (ConsumePartialCordBuf allocates)) (v :: vs2)) as Hp.
  { apply Forall_cons in Hok as [_ Hok]. apply Forall_app in Hok as [_ Hok].
    eapply Forall_impl; [done|]. apply value_consume. }
  destruct (sub_loop_part _ vs2 vs1 v r t a b Hp Ha ltac:(lia) E Hb) as (vs1' & v' & vs2' & r' & t' & a' & E1 & E2 & E3 & Es).
  replace (zlen vs1) with (zlen vs1 + 1 - 1) in Es by lia.
  destruct (others_loop_subs (S (length vs2)) (zlen vs1 + 1) n _ _ _ _ _ _ ltac:(lia) ltac:(unfold zlen in *; lia) Es) as [cached ->].
  cbn [mbind outcome_bind]. eexists _, _. split; [done|]. rewrite E3. econstructor; [by rewrite E1|done].
Qed.

(** The replies after the first are allocated when they are needed. *)
Lemma consume_others_alloc v0 v vs n buf :
  zlen (v0 :: v :: vs) < 2 ^ 31 ->
  consume_others allocates (zlen (v0 :: v :: vs)) (mk_response (reply_of v0) None 1 n) buf =
  consume_others allocates (zlen (v0 :: v :: vs))
    (mk_response (reply_of v0) (Some (map reply_of [] ++ Reset :: replicate (length vs) Reset)) (zlen (@nil value) + 1) n) buf.
Proof using Halloc.
  intros Hn. rewrite !zlen_cons in *. pose proof (zlen_nonneg vs). unfold consume_others. cbn [_other_replies].
  rewrite (proj2 (Z.ltb_lt 1 _)) by lia. rewrite Halloc by (unfold reply_size_of; lia).
  replace (Z.to_nat (zlen vs + 1 + 1 - 1)) with (S (length vs)) by (unfold zlen; lia). done.
Qed.

Lemma response_all vs resp t rest : Forall value_ok vs -> zlen vs < 2 ^ 31 -> rawaits vs resp t ->
  exists resp', response_consume allocates (zlen vs) resp (t ++ rest) = Ok (PARSE_OK, resp', rest) /\ holds vs resp'.
Proof using Halloc.
  intros Hok Hn Hr. unfold response_consume. destruct Hr as [r v vs2 t n -> Ha|v0 vs1 v vs2 r t n -> Ha].
  - cbn [_nreply _first_reply _other_replies _cached_size_]. change (0 =? 0) with true. cbv iota.
    pose proof (Forall_inv Hok) as Hv. destruct (value_consume v Hv r t Ha) as [Hall _].
    rewrite <- (assoc_L (++)), Hall. cbn [mbind outcome_bind]. rewrite bool_decide_eq_true_2 by done. cbn [negb].
    change (0 + 1) with 1. destruct vs2 as [|v2 vs2].
    + eexists. split; [done|]. by eexists.
    + rewrite consume_others_alloc by done. cbn [map concat]. rewrite <- (assoc_L (++)).
      apply (consume_others_all v [] v2 vs2 Reset (encode v2)); [done|done|by constructor].
  - cbn [_nreply]. rewrite (proj2 (Z.eqb_neq _ _)) by (pose proof (zlen_nonneg vs1); lia). rewrite <- (assoc_L (++)).
    by apply consume_others_all.
Qed.

Lemma response_part vs resp t a b : Forall value_ok vs -> zlen vs < 2 ^ 31 -> rawaits vs resp t -> t = a ++ b -> b <> [] ->
  exists resp' a', response_consume allocates (zlen vs) resp a = Ok (PARSE_ERROR_NOT_ENOUGH_DATA, resp', a') /\
    rawaits vs resp' (a' ++ b).
Proof using Halloc.
  intros Hok Hn Hr E Hb. unfold response_consume. destruct Hr as [r v vs2 t n -> Ha|v0 vs1 v vs2 r t n -> Ha].
  - cbn [_nreply _first_reply _other_replies _cached_size_]. change (0 =? 0) with true. cbv iota.
    pose proof (Forall_inv Hok) as Hv. destruct (value_consume v Hv r t Ha) as [Hall Hpart].
    assert ((exists l, t = a ++ l /\ b = l ++ concat (map encode vs2) /\ l <> []) \/
            (exists l, a = t ++ l /\ concat (map encode vs2) = l ++ b)) as [(l & Et & Eb & Hl)|(l & Ea & Ec)].
    { apply app_eq_app in E as [l [[E1 E2]|[E1 E2]]]; [|right; by exists l].
      destruct l as [|c l]; [right; exists []; rewrite app_nil_r in *; by rewrite E1, E2|left; by exists (c :: l)]. }
    + destruct (Hpart a l Et Hl) as (r' & a' & -> & Ha'). cbn [mbind outcome_bind].
      rewrite bool_decide_eq_false_2 by done. cbn [negb]. eexists _, _. split; [done|].
      rewrite Eb, (assoc_L (++)). by econstructor.
    + rewrite Ea, Hall. cbn [mbind outcome_bind]. rewrite bool_decide_eq_true_2 by done. cbn [negb].
      change (0 + 1) with 1. destruct vs2 as [|v2 vs2]; [by destruct l, b|]. rewrite consume_others_alloc by done.
      apply (consume_others_part v [] v2 vs2 Reset (encode v2)); [done|done|by constructor|done|done].
  - cbn [_nreply]. rewrite (proj2 (Z.eqb_neq _ _)) by (pose proof (zlen_nonneg vs1); lia).
    by apply (consume_others_part v0 vs1 v vs2 r t).
Qed.

End pipeline.

Fixpoint feed_response (allocates : Z -> bool) (reply_count : Z) (resp : RedisResponse) (buf : list Z) (chunks : list (list Z))
    : outcome (ParseError * RedisResponse * list Z) :=
  match chunks with
  | [] => Ok (PARSE_ERROR_NOT_ENOUGH_DATA, resp, buf)
  | c :: chunks =>
      '(e, resp, buf) ← response_consume allocates reply_count resp (buf ++ c);
      if decide (e = PARSE_ERROR_NOT_ENOUGH_DATA) then feed_response allocates reply_count resp buf chunks
      else Ok (e, resp, buf ++ concat chunks)
  end.

Lemma feed_response_ok allocates vs chunks rest :
  (forall n, 0 <= n < 2 ^ 37 -> allocates n = true) -> Forall value_ok vs -> zlen vs < 2 ^ 31 ->
  forall resp t buf, rawaits vs resp (buf ++ t) -> t <> [] -> concat chunks = t ++ rest ->
  exists resp', feed_response allocates (zlen vs) resp buf chunks = Ok (PARSE_OK, resp', rest) /\ holds vs resp'.
Proof.
  intros Halloc Hok Hn. induction chunks as [|c chunks IH]; intros resp t buf Hr Ht E; [by destruct t|].
  cbn [feed_response concat] in *.
  assert ((exists l, t = c ++ l /\ concat chunks = l ++ rest /\ l <> []) \/ (exists l, c = t ++ l /\ rest = l ++ concat chunks))
    as [(l & -> & El & Hl)|(l & -> & ->)].
  { apply app_eq_app in E as [l [[E1 E2]|[E1 E2]]]; [right; by exists l|].
    destruct l as [|x l]; [right; exists []; rewrite app_nil_r in *; by rewrite E1, E2|left; by exists (x :: l)]. }
  - destruct (response_part allocates Halloc vs resp _ (buf ++ c) l Hok Hn Hr) as (resp' & a' & -> & Hr'); [by rewrite (assoc_L (++))|done|].
    cbn [mbind outcome_bind]. rewrite decide_True by done. by apply (IH resp' l a').
  - destruct (response_all allocates Halloc vs resp (buf ++ t) l Hok Hn Hr) as (resp' & E' & H').
    rewrite (assoc_L (++)), E'. cbn [mbind outcome_bind]. rewrite decide_False by done. by exists resp'.
Qed.

(** C24: the replies to a pipeline of [n] commands are collected in order,
    whatever the chunks in which they arrive (a chunk may end inside any of
    them and contain several), and nothing of what follows is consumed:
    [reply(i)] is the [i]-th reply. *)
Theorem redis_pipeline allocates vs chunks rest :
  (forall n, 0 <= n < 2 ^ 37 -> allocates n = true) -> vs <> [] -> Forall value_ok vs -> zlen vs < 2 ^ 31 ->
  concat chunks = concat (map encode vs) ++ rest ->
  exists resp, feed_response allocates (zlen vs) response_clear [] chunks = Ok (PARSE_OK, resp, rest) /\
    _nreply resp = zlen vs /\
    forall i v, zget vs i = Some v -> reply i resp = Some (reply_of v).
Proof.
  intros Halloc Hne Hok Hn E. destruct vs as [|v vs]; [done|].
  destruct (feed_response_ok allocates (v :: vs) chunks rest Halloc Hok Hn response_clear (concat (map encode (v :: vs))) [])
    as (resp & Ef & n & ->); [by apply (ra_first _ Reset v vs (encode v) 0); [|constructor]|by destruct v|done|].
  eexists. split; [done|]. split; [done|]. intros i w Hw. pose proof (zget_Some_lt _ _ _ Hw) as Hi. unfold reply. cbn [_nreply].
  rewrite (proj2 (Z.ltb_lt _ _)) by lia. destruct (Z.eqb_spec i 0) as [->|Hi0].
  - rewrite zget_cons_0 in Hw. by injection Hw as ->.
  - replace i with (i - 1 + 1) in Hw by lia. rewrite zget_cons_S in Hw by lia. destruct vs as [|v2 vs]; [by rewrite zget_ge in Hw by (rewrite (@zlen_nil value); lia)|].
    cbn [_other_replies mbind option_bind]. unfold zget in *. rewrite (proj2 (Z.ltb_ge _ _)) in * by lia.
    rewrite list_lookup_fmap. by rewrite Hw.
Qed.

Lemma redis_pipeline_witness :
  exists resp, feed_response (fun n => n <? 2 ^ 40) 2 response_clear []
      [bs "+O"; bs "K" ++ CRLF ++ bs "*1"; CRLF ++ bs ":5" ++ CRLF] = Ok (PARSE_OK, resp, []) /\
    _nreply resp = 2 /\
    forall i v, zget [VStatus (bs "OK"); VArray [VInteger 5]] i = Some v -> reply i resp = Some (reply_of v).
Proof.
  apply (redis_pipeline (fun n => n <? 2 ^ 40) [VStatus (bs "OK"); VArray [VInteger 5]]).
  - intros n Hn. apply Z.ltb_lt. lia.
  - done.
  - repeat constructor; vm_compute; congruence.
  - vm_compute. done.
  - vm_compute. reflexivity.
Defined.

(** ** Printing *)

Lemma print_loop_ok str : forall pre run rest os,
  str = pre ++ run ++ rest ->
  Forall (fun c => print_char c = [c]) run ->
  let '(os', start) := print_loop str (zlen pre + zlen run) (zlen pre) rest os in
  (if negb (start =? zlen str) then os' ++ zdrop start str else os') = os ++ run ++ concat (map print_char rest).
Proof.
  intros pre run rest. revert pre run. induction rest as [|c rest IH]; intros pre run os E Hrun; cbn [print_loop map concat].
  - rewrite app_nil_r in *. subst str. rewrite zlen_app. destruct (Z.eqb_spec (zlen pre) (zlen pre + zlen run)); cbn [negb].
    + assert (run = []) as -> by (destruct run; [done|rewrite zlen_cons in *; pose proof (zlen_nonneg run); lia]). by rewrite app_nil_r.
    + by rewrite zdrop_app_exact.
  - assert ((if negb (zlen pre + zlen run =? zlen pre)
        then os ++ ztake (zlen pre + zlen run - zlen pre) (zdrop (zlen pre) str) else os) = os ++ run) as Efl.
    { subst str. rewrite zdrop_app_exact by done. rewrite ztake_app_exact by lia.
      destruct (Z.eqb_spec (zlen pre + zlen run) (zlen pre)); cbn [negb]; [|done].
      assert (run = []) as -> by (destruct run; [done|rewrite zlen_cons in *; pose proof (zlen_nonneg run); lia]). by rewrite app_nil_r. }
    rewrite Efl.
    assert (zlen pre + zlen run + 1 = zlen (pre ++ run ++ [c])) as El by (rewrite !zlen_app, zlen_cons, (@zlen_nil Z); lia).
    assert (str = (pre ++ run ++ [c]) ++ [] ++ rest) as E' by (rewrite E; by rewrite <- !(assoc_L (++))).
    pose proof (fun os => IH (pre ++ run ++ [c]) [] os E' ltac:(constructor)) as IH1. rewrite (@zlen_nil Z), Z.add_0_r, <- El in IH1.
    unfold print_char at 1. destruct ((c =? 0) || (128 <=? c)) eqn:Ec.
    { specialize (IH1 ((os ++ run) ++ unprintable c)). destruct (print_loop _ _ _ _ _). rewrite IH1. cbn [app]. by rewrite <- !(assoc_L (++)). }
    destruct ((c =? 34) || (c =? 92)) eqn:Ee.
    { specialize (IH1 ((os ++ run) ++ [92; c])). destruct (print_loop _ _ _ _ _). rewrite IH1. cbn [app]. by rewrite <- !(assoc_L (++)). }
    assert (str = pre ++ (run ++ [c]) ++ rest) as E2 by (rewrite E; by rewrite <- !(assoc_L (++))).
    assert (Forall (fun c => print_char c = [c]) (run ++ [c])) as H2.
    { apply Forall_app_2; [done|]. constructor; [|constructor]. unfold print_char. by rewrite Ec, Ee. }
    pose proof (IH pre (run ++ [c]) os E2 H2) as IH2. rewrite zlen_app, zlen_cons, (@zlen_nil Z) in IH2.
    replace (zlen pre + (zlen run + (0 + 1))) with (zlen pre + zlen run + 1) in IH2 by lia.
    destruct (print_loop _ _ _ _ _). rewrite IH2. by rewrite <- !(assoc_L (++)).
Qed.

(** Printing a string by runs is escaping it character by character: no
    character is lost, repeated or left unescaped at the ends of the runs. *)
Theorem redis_string_printer str os : print_string str os = os ++ concat (map print_char str).
Proof. unfold print_string. pose proof (print_loop_ok str [] [] str os eq_refl ltac:(constructor)) as H. by destruct (print_loop _ _ _ _ _). Qed.

(** The digits of an escape are swapped: 0xB1 prints as the escape of 0x1B. *)
Lemma swapped_digits : print_string [0xB1] [] = bs "\u001B".
Proof. reflexivity. Qed.
