(* ===== verification/WorkStealing.v ===== *)
(** * [flare/fiber/internal/work_stealing_queue.h]

    The deque of a fiber worker: its owner pushes and pops at the bottom, any
    number of thieves steal at the top, without locks.  Every shared access of
    [push], [pop] and [steal] is one step of its thread; a schedule is any
    interleaving of the owner with thieves.  Accesses are sequentially
    consistent (the memory orders and fences of the source are what makes that
    view adequate on the machines it runs on; weaker behaviours are not
    modelled).

    The results are logged at the step that decides them.  The theorem is
    linearizability: the log is a history of a sequential deque of the same
    capacity. *)

From S2P Require Import Prelude.
Local Open Scope Z_scope.

Section wsq.
Context {T : Type}.

Record WorkStealingQueue := mk_wsq {
  _bottom : Z;
  _capacity : Z;
  _buffer : list T;
  _top : Z;
}.

Definition new_wsq : WorkStealingQueue := mk_wsq 1 0 [] 1.

(** [init]: [dflt] is what [new T[capacity]] leaves in the slots. *)
Definition init (capacity : Z) (dflt : T) (q : WorkStealingQueue) : Z * WorkStealingQueue :=
  if negb (_capacity q =? 0) then (-1, q)
  else if capacity =? 0 then (-1, q)
  else if negb (Z.land capacity (capacity - 1) =? 0) then (-1, q)
  else (0, mk_wsq (_bottom q) capacity (replicate (Z.to_nat capacity) dflt) (_top q)).

Definition volatile_size (q : WorkStealingQueue) : Z := if _bottom q <=? _top q then 0 else _bottom q - _top q.

Definition set_bottom (b : Z) (q : WorkStealingQueue) : WorkStealingQueue := mk_wsq b (_capacity q) (_buffer q) (_top q).
Definition set_top (t : Z) (q : WorkStealingQueue) : WorkStealingQueue := mk_wsq (_bottom q) (_capacity q) (_buffer q) t.
Definition slot (i : Z) (q : WorkStealingQueue) : Z := Z.land i (_capacity q - 1).
Definition set_slot (i : Z) (x : T) (q : WorkStealingQueue) : WorkStealingQueue :=
  mk_wsq (_bottom q) (_capacity q) (zset (slot i q) x (_buffer q)) (_top q).

(** ** The threads *)

Inductive call := Push (x : T) | Pop.

(** Where the owner is: the local variables at each shared access. *)
Inductive owner_pc :=
| OIdle
| OPush1 (x : T) (b : Z)              (* loads [_top] *)
| OPush2 (x : T) (b : Z)              (* writes the slot *)
| OPush3 (x : T) (b : Z)              (* stores [_bottom] *)
| OPop1 (b : Z)                       (* loads [_top]: fast check *)
| OPop2 (b : Z)                       (* stores [_bottom] *)
| OPop3 (b : Z)                       (* loads [_top] after the fence *)
| OPopR (b : Z)                       (* restores [_bottom]: empty *)
| OPop4 (b t : Z)                     (* reads the slot *)
| OPop5 (b t : Z) (v : T)             (* compare_exchange *)
| OPop6 (b : Z).                      (* stores [_bottom], returns *)

Inductive thief_pc :=
| TIdle
| TSteal1 (t : Z)                     (* loads [_bottom] *)
| TSteal2 (t : Z)                     (* loads [_bottom] after the fence *)
| TSteal3 (t : Z)                     (* reads the slot *)
| TSteal4 (t : Z) (v : T).            (* compare_exchange *)

Inductive event :=
| EPush (x : T) (ok : bool)
| EPop (r : option T)
| ESteal (r : option T).

Record sys := mk_sys {
  q : WorkStealingQueue;
  owner : owner_pc;
  thieves : Z -> thief_pc;
  log : list event;
}.

Definition read_slot (i : Z) (w : WorkStealingQueue) : outcome T :=
  match zget (_buffer w) (slot i w) with Some x => Ok x | None => Undefined end.

Definition to_owner (s : sys) (w : WorkStealingQueue) (o : owner_pc) : sys := mk_sys w o (thieves s) (log s).
Definition owner_returns (s : sys) (w : WorkStealingQueue) (o : owner_pc) (e : event) : sys :=
  mk_sys w o (thieves s) (log s ++ [e]).

(** One shared access of the owner; [c] is the call it makes when idle. *)
Definition owner_step (c : call) (s : sys) : outcome sys :=
  let w := q s in
  match owner s with
  | OIdle =>
      match c with
      | Push x => Ok (to_owner s w (OPush1 x (_bottom w)))
      | Pop => Ok (to_owner s w (OPop1 (_bottom w)))
      end
  | OPush1 x b =>
      if u64 (_top w + _capacity w) <=? b then Ok (owner_returns s w OIdle (EPush x false))
      else Ok (to_owner s w (OPush2 x b))
  | OPush2 x b => Ok (to_owner s (set_slot b x w) (OPush3 x b))
  | OPush3 x b => Ok (owner_returns s (set_bottom (u64 (b + 1)) w) OIdle (EPush x true))
  | OPop1 b =>
      if b <=? _top w then Ok (owner_returns s w OIdle (EPop None))
      else Ok (to_owner s w (OPop2 b))
  | OPop2 b => Ok (to_owner s (set_bottom (u64 (b - 1)) w) (OPop3 b))
  | OPop3 b =>
      if u64 (b - 1) <? _top w then Ok (to_owner s w (OPopR b))
      else Ok (to_owner s w (OPop4 b (_top w)))
  | OPopR b => Ok (owner_returns s (set_bottom b w) OIdle (EPop None))
  | OPop4 b t =>
      v ← read_slot (u64 (b - 1)) w;
      if negb (t =? u64 (b - 1)) then Ok (owner_returns s w OIdle (EPop (Some v)))
      else Ok (to_owner s w (OPop5 b t v))
  | OPop5 b t v =>
      if _top w =? t then Ok (owner_returns s (set_top (u64 (t + 1)) w) (OPop6 b) (EPop (Some v)))
      else Ok (owner_returns s w (OPop6 b) (EPop None))
  | OPop6 b => Ok (to_owner s (set_bottom b w) OIdle)
  end.

(** The program counters with that of thief [i] replaced. *)
Definition set_thief (i : Z) (p : thief_pc) (f : Z -> thief_pc) : Z -> thief_pc := fun j => if j =? i then p else f j.

Definition to_thief (i : Z) (s : sys) (p : thief_pc) : sys := mk_sys (q s) (owner s) (set_thief i p (thieves s)) (log s).
Definition thief_returns (i : Z) (s : sys) (w : WorkStealingQueue) (r : option T) : sys :=
  mk_sys w (owner s) (set_thief i TIdle (thieves s)) (log s ++ [ESteal r]).

(** One shared access of thief [i]; an idle thief calls [steal]. *)
Definition thief_step (i : Z) (s : sys) : outcome sys :=
  let w := q s in
  match thieves s i with
  | TIdle => Ok (to_thief i s (TSteal1 (_top w)))
  | TSteal1 t => if _bottom w <=? t then Ok (thief_returns i s w None) else Ok (to_thief i s (TSteal2 t))
  | TSteal2 t => if _bottom w <=? t then Ok (thief_returns i s w None) else Ok (to_thief i s (TSteal3 t))
  | TSteal3 t => v ← read_slot t w; Ok (to_thief i s (TSteal4 t v))
  | TSteal4 t v =>
      if _top w =? t then Ok (thief_returns i s (set_top (u64 (t + 1)) w) (Some v))
      else Ok (to_thief i s (TSteal2 (_top w)))
  end.

Inductive actor := Owner (c : call) | Thief (i : Z).

Definition sys_step (a : actor) (s : sys) : outcome sys :=
  match a with Owner c => owner_step c s | Thief i => thief_step i s end.

Fixpoint exec (sched : list actor) (s : sys) : outcome sys :=
  match sched with
  | [] => Ok s
  | a :: sched => s ← sys_step a s; exec sched s
  end.

Definition start (capacity : Z) (dflt : T) : sys :=
  mk_sys (snd (init capacity dflt new_wsq)) OIdle (fun _ => TIdle) [].

(** ** The sequential deque *)

Inductive dstep (cap : Z) : event -> list T -> list T -> Prop :=
| d_push x l : zlen l < cap -> dstep cap (EPush x true) l (l ++ [x])
| d_full x l : zlen l = cap -> dstep cap (EPush x false) l l
| d_pop x l : dstep cap (EPop (Some x)) (l ++ [x]) l
| d_pop_empty : dstep cap (EPop None) [] []
| d_steal x l : dstep cap (ESteal (Some x)) (x :: l) l
| d_steal_miss l : dstep cap (ESteal None) l l.

(** [history cap es l]: the deque that starts empty can answer [es] and then
    holds [l]. *)
Inductive history (cap : Z) : list event -> list T -> Prop :=
| history_nil : history cap [] []
| history_snoc es e l l' : history cap es l -> dstep cap e l l' -> history cap (es ++ [e]) l'.

(** ** The invariant *)

(** First index that a thief must not take: the owner has claimed its item. *)
Definition claimed (o : owner_pc) (lb : Z) : Z :=
  match o with OPop4 b t => if t <? b - 1 then b - 1 else lb | _ => lb end.

Definition owner_inv (w : WorkStealingQueue) (l : list T) (o : owner_pc) : Prop :=
  let lb := _top w + zlen l in
  match o with
  | OIdle => _bottom w = lb
  | OPush1 _ b | OPop1 b => _bottom w = lb /\ b = lb
  | OPush2 x b => _bottom w = lb /\ b = lb /\ zlen l < _capacity w
  | OPush3 x b => _bottom w = lb /\ b = lb /\ zlen l < _capacity w /\ zget (_buffer w) (slot b w) = Some x
  | OPop2 b => _bottom w = lb /\ b = lb /\ 2 <= b
  | OPop3 b => _bottom w = b - 1 /\ b = lb /\ 2 <= b
  | OPopR b | OPop6 b => _bottom w = b - 1 /\ b = lb /\ l = []
  | OPop4 b t => _bottom w = b - 1 /\ b = lb /\ 2 <= b /\ t <= b - 1 /\ t <= _top w /\ (t < b - 1 -> _top w <= b - 1)
  | OPop5 b t v => _bottom w = b - 1 /\ b = lb /\ t = b - 1 /\ t <= _top w /\ (_top w = t -> l = [v])
  end.

Definition thief_inv (w : WorkStealingQueue) (l : list T) (o : owner_pc) (p : thief_pc) : Prop :=
  match p with
  | TIdle => True
  | TSteal1 t | TSteal2 t => 1 <= t <= _top w
  | TSteal3 t => 1 <= t <= _top w /\ (t = _top w -> t < claimed o (_top w + zlen l))
  | TSteal4 t v => 1 <= t <= _top w /\ (t = _top w -> t < claimed o (_top w + zlen l) /\ head l = Some v)
  end.

Definition wsq_ok (n : Z) (w : WorkStealingQueue) (l : list T) : Prop :=
  (exists k, 0 <= k <= 62 /\ _capacity w = 2 ^ k) /\ zlen (_buffer w) = _capacity w /\
  1 <= _top w /\ _top w + zlen l <= n + 1 /\ n < 2 ^ 62 /\ zlen l <= _capacity w /\
  (forall k x, 0 <= k -> zget l k = Some x -> zget (_buffer w) (slot (_top w + k) w) = Some x).

Definition inv (n : Z) (s : sys) : Prop :=
  exists l, history (_capacity (q s)) (log s) l /\ wsq_ok n (q s) l /\ owner_inv (q s) l (owner s) /\
    forall i, thief_inv (q s) l (owner s) (thieves s i).

Lemma slot_mod k w i : 0 <= k <= 62 -> _capacity w = 2 ^ k -> slot i w = i `mod` _capacity w.
Proof.
  intros Hk Hc. unfold slot. rewrite Hc. replace (2 ^ k - 1) with (Z.ones k) by (rewrite Z.ones_equiv; lia).
  apply Z.land_ones. lia.
Qed.

Lemma slot_in_buffer n w l i : wsq_ok n w l -> 0 <= slot i w < zlen (_buffer w).
Proof.
  intros ((k & Hk & Hc) & Hl & _). rewrite (slot_mod k) by done. rewrite Hl. apply Z.mod_pos_bound.
  rewrite Hc. apply Z.pow_pos_nonneg; lia.
Qed.

Lemma slot_ne n w l i j : wsq_ok n w l -> 0 < j - i < _capacity w -> slot i w <> slot j w.
Proof.
  intros ((k & Hk & Hc) & _) Hij. rewrite !(slot_mod k) by done. intros E.
  pose proof (Z.div_mod i (_capacity w)). pose proof (Z.div_mod j (_capacity w)).
  set (qi := i `div` _capacity w) in *. set (qj := j `div` _capacity w) in *.
  assert (qj - qi <> 0) by nia. nia.
Qed.

Lemma read_slot_ok n w l i : wsq_ok n w l -> exists v, read_slot i w = Ok v /\ zget (_buffer w) (slot i w) = Some v.
Proof.
  intros Hw. destruct (zget_lt _ _ (slot_in_buffer n w l i Hw)) as [v Hv]. exists v. unfold read_slot. by rewrite Hv.
Qed.

(** A larger step bound. *)
Lemma wsq_ok_weaken n n' w l : wsq_ok n w l -> n <= n' < 2 ^ 62 -> wsq_ok n' w l.
Proof. intros (? & ? & ? & ? & ? & ? & ?) ?. unfold wsq_ok. split_and!; try done; lia. Qed.

(** The last item is in the slot below the logical bottom. *)
Lemma last_slot n w l x : wsq_ok n w (l ++ [x]) -> zget (_buffer w) (slot (_top w + zlen l) w) = Some x.
Proof.
  intros (_ & _ & _ & _ & _ & _ & H). pose proof (zlen_nonneg l). apply H; [done|].
  rewrite zget_app_r by lia. by rewrite Z.sub_diag.
Qed.

Lemma wsq_ok_pop n w l x : wsq_ok n w (l ++ [x]) -> wsq_ok n w l.
Proof.
  intros (? & ? & ? & Hb & ? & Hc & H). rewrite zlen_app in Hb, Hc. change (zlen [x]) with 1 in Hb, Hc.
  unfold wsq_ok. split_and!; try done; try lia. intros k y Hk Hy. apply H; [done|].
  rewrite zget_app_l; [done|]. by apply zget_Some_lt in Hy as [_ ?].
Qed.

(** Bottom is not part of the logical contents. *)
Lemma wsq_ok_bottom n w l b : wsq_ok n w l -> wsq_ok n (set_bottom b w) l.
Proof. done. Qed.

Lemma wsq_ok_steal n w l x : wsq_ok n w (x :: l) -> wsq_ok n (set_top (_top w + 1) w) l.
Proof.
  intros (? & ? & ? & Hb & ? & Hc & H). rewrite zlen_cons in Hb, Hc. unfold wsq_ok. cbn [set_top _top _capacity _buffer].
  split_and!; try done; try lia. intros k y Hk Hy. change (slot (_top w + 1 + k) (set_top (_top w + 1) w)) with (slot (_top w + 1 + k) w).
  replace (_top w + 1 + k) with (_top w + (k + 1)) by lia. apply H; [lia|]. by rewrite zget_cons_S.
Qed.

Lemma wsq_ok_write n w l x :
  wsq_ok n w l -> zlen l < _capacity w -> wsq_ok n (set_slot (_top w + zlen l) x w) l.
Proof.
  intros Hw Hlt. pose proof Hw as (? & ? & ? & ? & ? & ? & H). unfold wsq_ok. cbn [set_slot _top _capacity _buffer].
  split_and!; try done; [by rewrite zlen_zset|]. intros k y Hk Hy.
  change (slot (_top w + k) (set_slot (_top w + zlen l) x w)) with (slot (_top w + k) w).
  pose proof (zget_Some_lt _ _ _ Hy). rewrite zget_zset_ne; [by apply H| |apply (slot_in_buffer n w l _ Hw)].
  intros E. symmetry in E. revert E. apply (slot_ne n w l); [done|lia].
Qed.

Lemma wsq_ok_push n w l x :
  wsq_ok n w l -> zlen l < _capacity w -> zget (_buffer w) (slot (_top w + zlen l) w) = Some x -> n + 1 < 2 ^ 62 ->
  wsq_ok (n + 1) w (l ++ [x]).
Proof.
  intros (? & ? & ? & ? & ? & ? & H) Hlt Hx Hn. unfold wsq_ok. rewrite zlen_app. change (zlen [x]) with 1.
  split_and!; try done; try lia. intros k y Hk Hy. destruct (decide (k < zlen l)) as [Hkl|Hkl].
  - rewrite zget_app_l in Hy by done. by apply H.
  - rewrite zget_app_r in Hy by lia. pose proof (zget_Some_lt _ _ _ Hy) as Hr. change (zlen [x]) with 1 in Hr.
    replace k with (zlen l) in * by lia. rewrite Z.sub_diag in Hy. by injection Hy as <-.
Qed.

(** ** Every step preserves it *)

(** Thieves do not notice an owner step that keeps [_top] and the contents
    and does not lower the claim below a pending thief. *)
Lemma thieves_owner_step w w' l l' o o' (f : Z -> thief_pc) :
  (forall i, thief_inv w l o (f i)) -> _top w' = _top w ->
  (_top w < claimed o (_top w + zlen l) -> _top w < claimed o' (_top w + zlen l') /\ head l' = head l) ->
  forall i, thief_inv w' l' o' (f i).
Proof.
  intros Hf Et Hc i. specialize (Hf i). unfold thief_inv in *. rewrite Et.
  destruct (f i) as [|t|t|t|t v]; try done.
  - destruct Hf as [? H]. split; [done|]. intros ->. by apply Hc, H.
  - destruct Hf as [? H]. split; [done|]. intros ->. destruct H as [H1 H2]; [done|]. destruct (Hc H1) as [? ->]. done.
Qed.

Lemma inv_intro n s l :
  history (_capacity (q s)) (log s) l -> wsq_ok n (q s) l -> owner_inv (q s) l (owner s) ->
  (forall i, thief_inv (q s) l (owner s) (thieves s i)) -> inv n s.
Proof. intros. exists l. done. Qed.

(** The next state keeps (or changes to) the contents [l']. *)
Ltac next_contents l' :=
  eexists; split; [done|]; exists l'; cbn [to_owner owner_returns q owner thieves log];
  split_and!; try done; try (eapply history_snoc; [eassumption|]; by constructor); try (cbn; lia).

Lemma push_step_inv n c s :
  inv n s -> n + 1 < 2 ^ 62 ->
  match owner s with OIdle | OPush1 _ _ | OPush2 _ _ | OPush3 _ _ => True | _ => False end ->
  exists s', owner_step c s = Ok s' /\ inv (n + 1) s'.
Proof.
  intros (l & Hh & Hw & Ho & Ht) Hn Hpc. pose proof (wsq_ok_weaken n (n + 1) _ _ Hw ltac:(lia)) as Hw1.
  pose proof Hw as ((k & Hk & Hc) & _ & Htop & Hb & _ & Hl & _). pose proof (zlen_nonneg l).
  assert (_capacity (q s) <= 2 ^ 62) by (rewrite Hc; apply Z.pow_le_mono_r; lia).
  unfold owner_step. destruct (owner s) as [|x b|x b|x b|b|b|b|b|b t|b t v|b] eqn:Eo; try done; cbn [owner_inv] in Ho.
  - destruct c as [x|]; next_contents l.
  - destruct Ho as [Ho ->]. rewrite u64_small by lia.
    destruct (Z.leb_spec (_top (q s) + _capacity (q s)) (_top (q s) + zlen l)); next_contents l.
    eapply history_snoc; [exact Hh|]. constructor. lia.
  - destruct Ho as (Ho & -> & Hlt). next_contents l; [by apply wsq_ok_write|].
    cbn. split_and!; try done. change (slot _ (set_slot _ x (q s))) with (slot (_top (q s) + zlen l) (q s)).
    apply zget_zset_eq. by eapply slot_in_buffer.
  - destruct Ho as (Ho & -> & Hlt & Hx). rewrite u64_small by lia. next_contents (l ++ [x]).
    + by apply wsq_ok_bottom, wsq_ok_push.
    + cbn. rewrite zlen_app. change (zlen [x]) with 1. lia.
    + apply (thieves_owner_step (q s) _ l _ (OPush3 x (_top (q s) + zlen l))); try done. cbn. rewrite zlen_app.
      change (zlen [x]) with 1. intros Hlt2. split; [lia|]. destruct l; [|done]. rewrite (@zlen_nil T) in Hlt2. lia.
Qed.

Lemma zlen_0 (l : list T) : zlen l <= 0 -> l = [].
Proof. destruct l as [|x l]; [done|]. rewrite zlen_cons. pose proof (zlen_nonneg l). lia. Qed.

Lemma pop_step_inv n c s :
  inv n s -> n + 1 < 2 ^ 62 ->
  match owner s with OPop1 _ | OPop2 _ | OPop3 _ | OPopR _ | OPop6 _ => True | _ => False end ->
  exists s', owner_step c s = Ok s' /\ inv (n + 1) s'.
Proof.
  intros (l & Hh & Hw & Ho & Ht) Hn Hpc. pose proof (wsq_ok_weaken n (n + 1) _ _ Hw ltac:(lia)) as Hw1.
  pose proof Hw as (_ & _ & Htop & Hb & _). pose proof (zlen_nonneg l).
  unfold owner_step. destruct (owner s) as [|x b|x b|x b|b|b|b|b|b t|b t v|b] eqn:Eo; try done; cbn [owner_inv] in Ho.
  - destruct Ho as [Ho ->]. destruct (Z.leb_spec (_top (q s) + zlen l) (_top (q s))).
    + assert (l = []) as -> by (apply zlen_0; lia). next_contents (@nil T).
    + next_contents l.
  - destruct Ho as (Ho & -> & Hge). rewrite u64_small by lia. next_contents l.
  - destruct Ho as (Ho & -> & Hge). rewrite u64_small by lia.
    destruct (Z.ltb_spec (_top (q s) + zlen l - 1) (_top (q s))).
    + assert (l = []) as -> by (apply zlen_0; lia). next_contents (@nil T).
    + next_contents l. apply (thieves_owner_step (q s) _ l _ (OPop3 (_top (q s) + zlen l))); try done. cbn.
      destruct (Z.ltb_spec (_top (q s)) (_top (q s) + zlen l - 1)); intros; split; done || lia.
  - destruct Ho as (Ho & -> & ->). next_contents (@nil T).
  - destruct Ho as (Ho & -> & ->). next_contents (@nil T).
Qed.

(** The two steps that decide a pop. *)
Lemma take_step_inv n c s :
  inv n s -> n + 1 < 2 ^ 62 ->
  match owner s with OPop4 _ _ | OPop5 _ _ _ => True | _ => False end ->
  exists s', owner_step c s = Ok s' /\ inv (n + 1) s'.
Proof.
  intros (l & Hh & Hw & Ho & Ht) Hn Hpc. pose proof (wsq_ok_weaken n (n + 1) _ _ Hw ltac:(lia)) as Hw1.
  pose proof Hw as (_ & _ & Htop & Hb & _). pose proof (zlen_nonneg l).
  unfold owner_step. destruct (owner s) as [|x b|x b|x b|b|b|b|b|b t|b t v|b] eqn:Eo; try done; cbn [owner_inv] in Ho.
  - destruct Ho as (Ho & -> & Hge & Htb & Htt & Hclaim). rewrite u64_small by lia.
    destruct (read_slot_ok n (q s) l (_top (q s) + zlen l - 1) Hw) as (v & Ev & Hv). rewrite Ev. cbn [mbind outcome_bind].
    assert (forall l0 x, l = l0 ++ [x] -> v = x) as Hlast.
    { intros l0 x ->. pose proof (last_slot _ _ _ _ Hw) as E. rewrite zlen_app in Hv. change (zlen [x]) with 1 in Hv.
      replace (_top (q s) + (zlen l0 + 1) - 1) with (_top (q s) + zlen l0) in Hv by lia. congruence. }
    destruct (Z.eqb_spec t (_top (q s) + zlen l - 1)) as [Et|Et]; cbn [negb].
    + next_contents l.
      * cbn. split_and!; try done. intros E. destruct l as [|x [|y l]].
        -- rewrite (@zlen_nil T) in *. lia.
        -- by rewrite (Hlast [] x).
        -- rewrite !zlen_cons in *. pose proof (zlen_nonneg l). lia.
      * apply (thieves_owner_step (q s) _ l _ (OPop4 (_top (q s) + zlen l) t)); try done. cbn.
        rewrite (proj2 (Z.ltb_ge _ _)) by lia. done.
    + destruct l as [|x l _] using rev_ind; [rewrite (@zlen_nil T) in *; lia|]. rewrite (Hlast l x) in * by done.
      rewrite zlen_app in *. change (zlen [x]) with 1 in *. next_contents l.
      * by eapply wsq_ok_pop.
      * apply (thieves_owner_step (q s) _ (l ++ [x]) _ (OPop4 (_top (q s) + (zlen l + 1)) t)); try done. cbn.
        rewrite (proj2 (Z.ltb_lt _ _)) by lia. intros Hlt. split; [lia|]. destruct l; [|done]. rewrite (@zlen_nil T) in Hlt. lia.
  - destruct Ho as (Ho & -> & -> & Htt & Hlast). destruct (Z.eqb_spec (_top (q s)) (_top (q s) + zlen l - 1)) as [E|E].
    + rewrite u64_small by lia. rewrite (Hlast E) in *. change (zlen [v]) with 1 in *.
      replace (_top (q s) + 1 - 1 + 1) with (_top (q s) + 1) by lia. next_contents (@nil T).
      * eapply history_snoc; [exact Hh|]. apply (d_pop _ v []).
      * by apply (wsq_ok_steal _ _ [] v).
      * cbn. change (zlen []) with 0. split_and!; [lia|lia|done].
      * intros i. specialize (Ht i). unfold thief_inv in *. cbn [set_top _top].
        destruct (thieves s i); try done; [lia..|]; destruct Ht as [? _]; split; lia.
    + assert (l = []) as -> by (apply zlen_0; lia). next_contents (@nil T).
Qed.

Lemma claimed_le w l o : owner_inv w l o -> claimed o (_top w + zlen l) <= _top w + zlen l.
Proof. destruct o; cbn; try lia. case_if; zbool; lia. Qed.

Lemma bottom_claimed w l o : owner_inv w l o -> _bottom w <= claimed o (_top w + zlen l).
Proof. destruct o; cbn; try lia. case_if; zbool; lia. Qed.

(** The owner does not notice a steal below its claim. *)
Lemma owner_inv_steal w x l o :
  owner_inv w (x :: l) o -> _top w < claimed o (_top w + zlen (x :: l)) -> owner_inv (set_top (_top w + 1) w) l o.
Proof.
  destruct o; cbn [owner_inv claimed set_top _top _bottom _capacity _buffer]; rewrite zlen_cons; try (intros; lia).
  - intros (? & ? & ? & Hx) _. split_and!; try lia. exact Hx.
  - intros (_ & _ & ?) _. done.
  - intros (? & ? & ? & ? & ? & ?) Hlt. destruct (Z.ltb_spec t (b - 1)); split_and!; lia.
  - intros (_ & _ & ?) _. done.
Qed.

Ltac next_thief l' :=
  eexists; split; [done|]; exists l'; cbn [to_thief thief_returns q owner thieves log]; split_and!; try done;
  try (eapply history_snoc; [eassumption|]; by constructor).

Lemma thief_step_inv n i s : inv n s -> n + 1 < 2 ^ 62 -> exists s', thief_step i s = Ok s' /\ inv (n + 1) s'.
Proof.
  intros (l & Hh & Hw & Ho & Ht) Hn. pose proof (wsq_ok_weaken n (n + 1) _ _ Hw ltac:(lia)) as Hw1.
  pose proof Hw as (_ & _ & Htop & Hb & _). pose proof (zlen_nonneg l). pose proof (Ht i) as Hi.
  assert (forall w' l' p, thief_inv w' l' (owner s) p -> (forall j, thief_inv w' l' (owner s) (thieves s j)) ->
            forall j, thief_inv w' l' (owner s) (set_thief i p (thieves s) j)) as Hset.
  { intros w' l' p Hp Hj j. unfold set_thief. by destruct (j =? i). }
  unfold thief_step. destruct (thieves s i) as [|t|t|t|t v] eqn:Ei; cbn [thief_inv] in Hi.
  - next_thief l. by apply Hset.
  - destruct (Z.leb_spec (_bottom (q s)) t); next_thief l; by apply Hset.
  - destruct (Z.leb_spec (_bottom (q s)) t); next_thief l; [by apply Hset|]. apply Hset; [|done]. split; [done|].
    intros ->. eapply Z.lt_le_trans; [done|]. by eapply bottom_claimed.
  - destruct (read_slot_ok n (q s) l t Hw) as (v & -> & Hv). cbn [mbind outcome_bind]. next_thief l.
    apply Hset; [|done]. destruct Hi as [Hi Hlt]. split; [done|]. intros E. split; [by apply Hlt|].
    specialize (Hlt E). pose proof (claimed_le _ _ _ Ho) as Hcl.
    destruct l as [|x l]; [rewrite (@zlen_nil T) in *; lia|].
    destruct Hw as (_ & _ & _ & _ & _ & _ & Hb0). specialize (Hb0 0 x ltac:(done) eq_refl).
    rewrite Z.add_0_r, <- E in Hb0. simpl. congruence.
  - destruct Hi as [Hi Hcas]. destruct (Z.eqb_spec (_top (q s)) t) as [E|E]; [|next_thief l; by apply Hset].
    destruct (Hcas (eq_sym E)) as [Hlt Hhd]. destruct l as [|x l]; [done|]. injection Hhd as ->.
    rewrite u64_small by lia. rewrite <- E in *. next_thief l.
    + by eapply wsq_ok_steal.
    + by eapply owner_inv_steal.
    + apply Hset; [done|]. intros j. specialize (Ht j). unfold thief_inv in *. cbn [set_top _top].
      destruct (thieves s j); try done; [lia..|]; destruct Ht as [? _]; split; lia.
Qed.

Lemma step_inv n a s : inv n s -> n + 1 < 2 ^ 62 -> exists s', sys_step a s = Ok s' /\ inv (n + 1) s'.
Proof.
  intros Hi Hn. destruct a as [c|i]; [|by apply thief_step_inv]. cbn [sys_step].
  destruct (owner s) eqn:Eo; first [by apply push_step_inv; rewrite ?Eo|by apply pop_step_inv; rewrite ?Eo
    |by apply take_step_inv; rewrite ?Eo].
Qed.

Lemma exec_inv sched n s : inv n s -> n + zlen sched < 2 ^ 62 -> exists s', exec sched s = Ok s' /\ inv (n + zlen sched) s'.
Proof.
  revert n s. induction sched as [|a sched IH]; intros n s Hi Hn; cbn [exec].
  { exists s. split; [done|]. change (zlen []) with 0. by rewrite Z.add_0_r. }
  rewrite zlen_cons in *. pose proof (zlen_nonneg sched). destruct (step_inv n a s Hi) as (s1 & -> & Hi1); [lia|].
  cbn [mbind outcome_bind]. destruct (IH (n + 1) s1 Hi1) as (s' & E & Hi'); [lia|]. exists s'.
  by replace (n + (zlen sched + 1)) with (n + 1 + zlen sched) by lia.
Qed.
End wsq.

Lemma exec_capacity {T} (sched : list actor) (s s' : sys (T := T)) : exec sched s = Ok s' -> _capacity (q s') = _capacity (q s).
Proof.
  revert s. induction sched as [|a sched IH]; intros s; cbn [exec]; [by intros [= ->]|].
  destruct (sys_step a s) as [s1| |] eqn:E; cbn [mbind outcome_bind]; [|done..]. intros Hs. rewrite (IH s1 Hs).
  destruct a as [c|i]; cbn [sys_step] in E; unfold owner_step, thief_step, read_slot in E; repeat case_match;
    cbn [mbind outcome_bind] in E; repeat case_match; simplify_eq; done.
Qed.

(** ** The theorem *)

Definition accepted {T} (e : event (T := T)) : list T := match e with EPush x true => [x] | _ => [] end.
Definition taken {T} (e : event (T := T)) : list T :=
  match e with EPop (Some x) | ESteal (Some x) => [x] | _ => [] end.

Lemma history_conserves {T} cap es (l : list T) :
  history cap es l -> concat (map accepted es) ≡ₚ concat (map taken es) ++ l.
Proof.
  induction 1 as [|es e l l' _ IH Hs]; [done|]. rewrite !map_app, !concat_app, IH.
  inversion Hs; subst; simpl; rewrite ?app_nil_r, <- ?app_assoc; try done.
  - apply Permutation_app_head. by rewrite Permutation_app_comm.
Qed.

Lemma power_of_two c : 0 < c -> Z.land c (c - 1) = 0 -> c = 2 ^ Z.log2 c.
Proof.
  intros Hc Hl. pose proof (Z.log2_spec c Hc) as [H1 H2]. destruct (decide (c = 2 ^ Z.log2 c)) as [|Hne]; [done|]. exfalso.
  assert (Z.log2 (c - 1) = Z.log2 c) as E by (apply Z.log2_unique; [apply Z.log2_nonneg|]; lia).
  assert (Z.testbit (Z.land c (c - 1)) (Z.log2 c) = true) as Hb.
  { rewrite Z.land_spec, Z.bit_log2 by done. rewrite <- E, Z.bit_log2; [done|].
    assert (0 < 2 ^ Z.log2 c) by (apply Z.pow_pos_nonneg; [lia|apply Z.log2_nonneg]). lia. }
  by rewrite Hl, Z.bits_0 in Hb.
Qed.

Lemma start_inv {T} capacity (dflt : T) :
  0 < capacity <= 2 ^ 62 -> fst (init capacity dflt new_wsq) = 0 -> inv 0 (start capacity dflt) /\ _capacity (q (start capacity dflt)) = capacity.
Proof.
  intros Hc. unfold start, init. cbn [new_wsq _capacity]. change (negb (0 =? 0)) with false. cbv iota.
  rewrite (proj2 (Z.eqb_neq capacity 0)) by lia. destruct (Z.eqb_spec (Z.land capacity (capacity - 1)) 0) as [Hp|]; [|done]. intros _.
  cbn. split; [|done]. exists []. split_and!; [constructor| |done|done].
  pose proof (power_of_two capacity ltac:(lia) Hp) as E. split_and!; try done; cbn.
  - exists (Z.log2 capacity). split; [|done]. split; [apply Z.log2_nonneg|]. change 62 with (Z.log2 (2 ^ 62)). apply Z.log2_le_mono. lia.
  - unfold zlen. rewrite length_replicate. lia.
  - change (zlen []) with 0. lia.
  - intros k x Hk Hx. apply zget_Some_lt in Hx. change (zlen []) with 0 in Hx. lia.
Qed.

(** C7: linearizability of the work-stealing queue: after any interleaving of
    the owner's pushes and pops with steals of any number of threads, the
    results logged so far are a history of a sequential deque of the same
    capacity (an owner's pop fails only on an empty deque and a push only on
    a full one; a steal may fail spuriously), hence every accepted item has
    been handed out at most once or is still in the deque; when the owner is
    between operations [volatile_size] is exact. *)
Theorem wsq_linearizable {T} capacity (dflt : T) (sched : list actor) :
  0 < capacity <= 2 ^ 62 -> fst (init capacity dflt new_wsq) = 0 -> zlen sched < 2 ^ 62 ->
  exists s l, exec sched (start capacity dflt) = Ok s /\ history capacity (log s) l /\
    concat (map accepted (log s)) ≡ₚ concat (map taken (log s)) ++ l /\
    (owner s = OIdle -> volatile_size (q s) = zlen l).
Proof.
  intros Hc Hinit Hn. destruct (start_inv capacity dflt Hc Hinit) as [Hi Ec].
  destruct (exec_inv sched 0 _ Hi) as (s & E & l & Hh & Hw & Ho & _); [lia|].
  assert (_capacity (q s) = capacity) as Ecap by (rewrite <- Ec; by eapply exec_capacity).
  rewrite Ecap in Hh. exists s, l. split_and!; [done|done|by eapply history_conserves|].
  intros Eo. rewrite Eo in Ho. cbn in Ho. unfold volatile_size. pose proof (zlen_nonneg l).
  destruct (Z.leb_spec (_bottom (q s)) (_top (q s))); lia.
Qed.

(** The last item, contended: the thief reads it, the owner pops it first. *)
Definition contended : list actor :=
  [Owner (Push 7); Owner Pop; Owner Pop; Owner Pop;                  (* push 7 *)
   Thief 1; Thief 1; Thief 1; Thief 1;                               (* up to the exchange *)
   Owner Pop; Owner Pop; Owner Pop; Owner Pop; Owner Pop; Owner Pop; (* wins the exchange *)
   Thief 1; Thief 1; Owner Pop].

Lemma wsq_linearizable_witness :
  fst (init 4 0 new_wsq) = 0 /\
  (exists s l, exec contended (start 4 0) = Ok s /\ history 4 (log s) l /\
    concat (map accepted (log s)) ≡ₚ concat (map taken (log s)) ++ l /\
    (owner s = OIdle -> volatile_size (q s) = zlen l)) /\
  log <$> exec contended (start 4 0) = Ok [EPush 7 true; EPop (Some 7); ESteal None].
Proof.
  split; [done|]. split; [apply (wsq_linearizable 4 0 contended); [lia|done|by vm_compute]|]. vm_compute. reflexivity.
Defined.
