(* ===== verification/DoublyBuffered.v ===== *)
(** * [flare/container/doubly_buffered_data.h]

    [DoublyBufferedData]: many threads read the foreground instance under a
    mutex of their own while one thread at a time modifies the background
    instance, flips the two, waits for the readers of the old foreground and
    modifies it too.  A thread is at a program counter; every lock, unlock and
    access to shared data is one step, and a schedule is any interleaving of
    any number of threads.  Atomic accesses are sequentially consistent.

    The callback runs from the moment its program counter is reached until the
    step that leaves it; a pointer of [Read] is held until [EndRead].  Memory
    for the wrappers, [push_back] and [pthread_setspecific] may fail.  Mutexes
    are not recursive: a thread that locks one it holds is blocked for ever.

    The index, an [int] that is 0 or 1, is a [bool].  [Modify] with arguments
    passes a closure to [Modify(fn)]; a callback gets the other instance, as
    in [ModifyWithForeground], and may ignore it. *)

From stdpp Require Import functions.
From S2P Require Import Prelude.
Local Open Scope Z_scope.

Section dbd.
Context {T : Type}.

(** [fn(bg, fg)]: the new value of the background and what it returns. *)
Definition callback : Type := T -> T -> T * Z.

Inductive pc :=
| Idle
| Exited
| AddLock (w : Z)                                          (* locks [_wrappers_mutex] *)
| AddPush (w : Z)                                          (* [_wrappers.push_back] *)
| AddUnlock (w : Z) (pushed : bool)
| SetSpecific (w : Z)                                      (* [pthread_setspecific] *)
| BeginRead (w : Z)                                        (* locks the wrapper *)
| LoadIndex (w : Z)                                        (* [UnsafeRead] *)
| RemoveLock (w : Z) (exits : bool)
| RemoveErase (w : Z) (exits : bool)
| RemoveUnlock (w : Z) (exits : bool)
| Destroy (w : Z) (exits : bool)                           (* the end of [~Wrapper] *)
| ModifyLock (fn : callback)
| LoadBackground (fn : callback)
| FirstCall (fn : callback) (bg : bool)                    (* inside of [fn] *)
| StoreIndex (fn : callback) (bg : bool) (ret : Z)
| WrappersLock (fn : callback) (bg : bool) (ret : Z)
| WaitLock (fn : callback) (bg : bool) (ret : Z) (i : nat)
| WaitUnlock (fn : callback) (bg : bool) (ret : Z) (i : nat) (w : Z)
| WrappersUnlock (fn : callback) (bg : bool) (ret : Z)
| SecondCall (fn : callback) (bg : bool) (ret : Z)         (* inside of [fn] *)
| ModifyUnlock (ret : Z).

Inductive event :=
| ERead (t : Z) (x : T)                      (* [Read] got an instance with this value *)
| ELook (t : Z) (x : T)                      (* the value behind the pointer *)
| EEnd (t : Z)                               (* the pointer is gone *)
| EFail (t : Z)                              (* [Read] returns -1 *)
| EPublish (t : Z) (fn : callback) (ret : Z) (* the flip *)
| ERefuse (t : Z) (fn : callback)            (* [fn] returned 0 *)
| EReturn (t : Z) (ret : Z).                 (* [Modify] returns *)

(** The object, the wrappers that are allocated with the owners of their
    mutexes, the thread-local wrapper, the program counter and the pointer of
    each thread. *)
Record sys := mk_sys {
  _data : bool -> T;
  _index : bool;
  _created_key : bool;
  _wrappers : list Z;
  _wrappers_mutex : option Z;
  _modify_mutex : option Z;
  heap : gmap Z (option Z);
  next_wrapper : Z;
  tls : Z -> option Z;
  pcs : Z -> pc;
  ptrs : Z -> option (Z * bool);
  log : list event;
}.

Definition set_data (i : bool) (x : T) (s : sys) : sys :=
  mk_sys (<[i := x]> (_data s)) (_index s) (_created_key s) (_wrappers s) (_wrappers_mutex s) (_modify_mutex s) (heap s) (next_wrapper s) (tls s) (pcs s) (ptrs s) (log s).
Definition set_index (i : bool) (s : sys) : sys :=
  mk_sys (_data s) i (_created_key s) (_wrappers s) (_wrappers_mutex s) (_modify_mutex s) (heap s) (next_wrapper s) (tls s) (pcs s) (ptrs s) (log s).
Definition set_wrappers (l : list Z) (s : sys) : sys :=
  mk_sys (_data s) (_index s) (_created_key s) l (_wrappers_mutex s) (_modify_mutex s) (heap s) (next_wrapper s) (tls s) (pcs s) (ptrs s) (log s).
Definition set_wrappers_mutex (m : option Z) (s : sys) : sys :=
  mk_sys (_data s) (_index s) (_created_key s) (_wrappers s) m (_modify_mutex s) (heap s) (next_wrapper s) (tls s) (pcs s) (ptrs s) (log s).
Definition set_modify_mutex (m : option Z) (s : sys) : sys :=
  mk_sys (_data s) (_index s) (_created_key s) (_wrappers s) (_wrappers_mutex s) m (heap s) (next_wrapper s) (tls s) (pcs s) (ptrs s) (log s).
Definition set_heap (h : gmap Z (option Z)) (s : sys) : sys :=
  mk_sys (_data s) (_index s) (_created_key s) (_wrappers s) (_wrappers_mutex s) (_modify_mutex s) h (next_wrapper s) (tls s) (pcs s) (ptrs s) (log s).
Definition set_tls (t : Z) (w : option Z) (s : sys) : sys :=
  mk_sys (_data s) (_index s) (_created_key s) (_wrappers s) (_wrappers_mutex s) (_modify_mutex s) (heap s) (next_wrapper s) (<[t := w]> (tls s)) (pcs s) (ptrs s) (log s).
Definition set_pc (t : Z) (p : pc) (s : sys) : sys :=
  mk_sys (_data s) (_index s) (_created_key s) (_wrappers s) (_wrappers_mutex s) (_modify_mutex s) (heap s) (next_wrapper s) (tls s) (<[t := p]> (pcs s)) (ptrs s) (log s).
Definition set_ptr (t : Z) (p : option (Z * bool)) (s : sys) : sys :=
  mk_sys (_data s) (_index s) (_created_key s) (_wrappers s) (_wrappers_mutex s) (_modify_mutex s) (heap s) (next_wrapper s) (tls s) (pcs s) (<[t := p]> (ptrs s)) (log s).
Definition emit (e : event) (s : sys) : sys :=
  mk_sys (_data s) (_index s) (_created_key s) (_wrappers s) (_wrappers_mutex s) (_modify_mutex s) (heap s) (next_wrapper s) (tls s) (pcs s) (ptrs s) (log s ++ [e]).

(** [new Wrapper(this)]: an unlocked mutex at a new address. *)
Definition new_wrapper (s : sys) : sys :=
  mk_sys (_data s) (_index s) (_created_key s) (_wrappers s) (_wrappers_mutex s) (_modify_mutex s) (<[next_wrapper s := None]> (heap s)) (next_wrapper s + 1)
    (tls s) (pcs s) (ptrs s) (log s).

(** ** Mutexes; [None]: the thread is blocked *)

Definition lock_wrappers (t : Z) (s : sys) : option (outcome sys) :=
  match _wrappers_mutex s with None => Some (Ok (set_wrappers_mutex (Some t) s)) | Some _ => None end.
Definition unlock_wrappers (t : Z) (s : sys) : outcome sys :=
  if bool_decide (_wrappers_mutex s = Some t) then Ok (set_wrappers_mutex None s) else Undefined.

Definition lock_modify (t : Z) (s : sys) : option (outcome sys) :=
  match _modify_mutex s with None => Some (Ok (set_modify_mutex (Some t) s)) | Some _ => None end.
Definition unlock_modify (t : Z) (s : sys) : outcome sys :=
  if bool_decide (_modify_mutex s = Some t) then Ok (set_modify_mutex None s) else Undefined.

Definition lock_wrapper (t w : Z) (s : sys) : option (outcome sys) :=
  match heap s !! w with
  | Some None => Some (Ok (set_heap (<[w := Some t]> (heap s)) s))
  | Some (Some _) => None
  | None => Some Undefined
  end.
Definition unlock_wrapper (t w : Z) (s : sys) : outcome sys :=
  if bool_decide (heap s !! w = Some (Some t)) then Ok (set_heap (<[w := None]> (heap s)) s) else Undefined.

(** [pthread_mutex_destroy] and the release of the memory. *)
Definition free_wrapper (w : Z) (s : sys) : outcome sys :=
  if bool_decide (heap s !! w = Some None) then Ok (set_heap (delete w (heap s)) s) else Undefined.

(** ** The operations *)

(** The loop of [RemoveWrapper]: the last element takes the place of [w]. *)
Fixpoint erase_at (w : Z) (l : list Z) (i : nat) (rest : list Z) : list Z :=
  match rest with
  | [] => l
  | x :: rest =>
      if x =? w then match last l with Some b => take (length l - 1) (<[i := b]> l) | None => l end
      else erase_at w l (S i) rest
  end.
Definition erase_wrapper (w : Z) (l : list Z) : list Z := erase_at w l 0 l.

(** What a thread does next: a call when it is idle, or the next step of its
    call, whose allocation, [push_back] or [pthread_setspecific] succeeds or
    not. *)
Inductive choice :=
| Read (allocated : bool)
| Look
| EndRead
| Modify (fn : callback)
| Exit
| Go (succeeds : bool).

Definition begin_read (t : Z) (allocated : bool) (s : sys) : sys :=
  if negb (_created_key s) then emit (EFail t) s
  else
    match tls s t with
    | Some w => set_pc t (BeginRead w) s
    | None =>
        if allocated then set_pc t (AddLock (next_wrapper s)) (new_wrapper s) else emit (EFail t) s
    end.

(** The end of a thread runs the destructor of its wrapper, if it has one. *)
Definition exit_thread (t : Z) (s : sys) : sys :=
  match tls s t with
  | Some w => set_pc t (RemoveLock w true) (set_tls t None s)
  | None => set_pc t Exited s
  end.

Definition destroyed (t : Z) (exits : bool) (s : sys) : sys :=
  if exits then set_pc t Exited s else emit (EFail t) (set_pc t Idle s).

(** The call of [fn] for the instance [bg]. *)
Definition call (fn : callback) (bg : bool) (s : sys) : sys * Z :=
  let '(x, ret) := fn (_data s bg) (_data s (negb bg)) in (set_data bg x s, ret).

(** One step of thread [t]; [None]: it is blocked or does not have this
    choice. *)
Definition step (t : Z) (c : choice) (s : sys) : option (outcome sys) :=
  match pcs s t, c with
  | Idle, Read allocated => Some (Ok (begin_read t allocated s))
  | Idle, Look => '(_, i) ← ptrs s t; Some (Ok (emit (ELook t (_data s i)) s))
  | Idle, EndRead => '(w, _) ← ptrs s t; Some (s ← unlock_wrapper t w s; Ok (emit (EEnd t) (set_ptr t None s)))
  | Idle, Modify fn => Some (Ok (set_pc t (ModifyLock fn) s))
  | Idle, Exit => match ptrs s t with None => Some (Ok (exit_thread t s)) | Some _ => None end
  | AddLock w, Go _ => r ← lock_wrappers t s; Some (s ← r; Ok (set_pc t (AddPush w) s))
  | AddPush w, Go ok =>
      Some (Ok (set_pc t (AddUnlock w ok) (if ok then set_wrappers (_wrappers s ++ [w]) s else s)))
  | AddUnlock w pushed, Go _ =>
      Some (s ← unlock_wrappers t s; Ok (set_pc t (if pushed then SetSpecific w else RemoveLock w false) s))
  | SetSpecific w, Go ok =>
      Some (Ok (if ok then set_pc t (BeginRead w) (set_tls t (Some w) s) else emit (EFail t) (set_pc t Idle s)))
  | BeginRead w, Go _ => r ← lock_wrapper t w s; Some (s ← r; Ok (set_pc t (LoadIndex w) s))
  | LoadIndex w, Go _ =>
      Some (Ok (emit (ERead t (_data s (_index s))) (set_pc t Idle (set_ptr t (Some (w, _index s)) s))))
  | RemoveLock w exits, Go _ => r ← lock_wrappers t s; Some (s ← r; Ok (set_pc t (RemoveErase w exits) s))
  | RemoveErase w exits, Go _ => Some (Ok (set_pc t (RemoveUnlock w exits) (set_wrappers (erase_wrapper w (_wrappers s)) s)))
  | RemoveUnlock w exits, Go _ => Some (s ← unlock_wrappers t s; Ok (set_pc t (Destroy w exits) s))
  | Destroy w exits, Go _ => Some (s ← free_wrapper w s; Ok (destroyed t exits s))
  | ModifyLock fn, Go _ => r ← lock_modify t s; Some (s ← r; Ok (set_pc t (LoadBackground fn) s))
  | LoadBackground fn, Go _ => Some (Ok (set_pc t (FirstCall fn (negb (_index s))) s))
  | FirstCall fn bg, Go _ =>
      let '(s, ret) := call fn bg s in
      Some (Ok (if ret =? 0 then emit (ERefuse t fn) (set_pc t (ModifyUnlock 0) s) else set_pc t (StoreIndex fn bg ret) s))
  | StoreIndex fn bg ret, Go _ =>
      Some (Ok (emit (EPublish t fn ret) (set_pc t (WrappersLock fn (negb bg) ret) (set_index bg s))))
  | WrappersLock fn bg ret, Go _ => r ← lock_wrappers t s; Some (s ← r; Ok (set_pc t (WaitLock fn bg ret 0) s))
  | WaitLock fn bg ret i, Go _ =>
      match _wrappers s !! i with
      | Some w => r ← lock_wrapper t w s; Some (s ← r; Ok (set_pc t (WaitUnlock fn bg ret i w) s))
      | None => Some (Ok (set_pc t (WrappersUnlock fn bg ret) s))
      end
  | WaitUnlock fn bg ret i w, Go _ => Some (s ← unlock_wrapper t w s; Ok (set_pc t (WaitLock fn bg ret (S i)) s))
  | WrappersUnlock fn bg ret, Go _ => Some (s ← unlock_wrappers t s; Ok (set_pc t (SecondCall fn bg ret) s))
  | SecondCall fn bg ret, Go _ =>
      let '(s, ret2) := call fn bg s in
      Some (_ ← check (ret2 =? ret); Ok (set_pc t (ModifyUnlock ret2) s))
  | ModifyUnlock ret, Go _ => Some (s ← unlock_modify t s; Ok (emit (EReturn t ret) (set_pc t Idle s)))
  | _, _ => None
  end.

(** The constructor; [created_key]: [pthread_key_create] succeeded. *)
Definition start (created_key : bool) (data : bool -> T) : sys :=
  mk_sys data false created_key [] None None ∅ 0 (fun _ => None) (fun _ => Idle) (fun _ => None) [].

(** The destructor: every wrapper of the list is deleted. *)
Fixpoint free_all (l : list Z) (s : sys) : outcome sys :=
  match l with
  | [] => Ok s
  | w :: l => s ← free_wrapper w s; free_all l s
  end.
Definition destroy (s : sys) : outcome sys := s ← free_all (_wrappers s) s; Ok (set_wrappers [] s).

(** States that schedules reach whose callbacks satisfy [allowed]. *)
Definition allows (allowed : callback -> Prop) (c : choice) : Prop := match c with Modify fn => allowed fn | _ => True end.
Definition moves (allowed : callback -> Prop) (s s' : sys) : Prop :=
  exists t c, allows allowed c /\ step t c s = Some (Ok s').
Definition reachable (allowed : callback -> Prop) (created_key : bool) (data : bool -> T) : sys -> Prop :=
  rtc (moves allowed) (start created_key data).

Fixpoint exec (sched : list (Z * choice)) (s : sys) : option (outcome sys) :=
  match sched with
  | [] => Some (Ok s)
  | (t, c) :: sched =>
      match step t c s with
      | Some (Ok s) => exec sched s
      | r => r
      end
  end.

(** ** The invariant *)

Definition in_modify (p : pc) : bool :=
  match p with
  | LoadBackground _ | FirstCall _ _ | StoreIndex _ _ _ | WrappersLock _ _ _ | WaitLock _ _ _ _ | WaitUnlock _ _ _ _ _
  | WrappersUnlock _ _ _ | SecondCall _ _ _ | ModifyUnlock _ => true
  | _ => false
  end.

Definition in_wrappers (p : pc) : bool :=
  match p with
  | AddPush _ | AddUnlock _ _ | RemoveErase _ _ | RemoveUnlock _ _ | WaitLock _ _ _ _ | WaitUnlock _ _ _ _ _ | WrappersUnlock _ _ _ => true
  | _ => false
  end.

(** The wrapper whose mutex the program counter has locked. *)
Definition locked (p : pc) : option Z :=
  match p with LoadIndex w | WaitUnlock _ _ _ _ w => Some w | _ => None end.

(** The wrapper that is not, or no longer, thread-local. *)
Definition private (p : pc) : option Z :=
  match p with
  | AddLock w | AddPush w | AddUnlock w _ | SetSpecific w | RemoveLock w _ | RemoveErase w _ | RemoveUnlock w _ | Destroy w _ => Some w
  | _ => None
  end.

Definition owns (s : sys) (t w : Z) : Prop := tls s t = Some w \/ private (pcs s t) = Some w.

Definition pc_ok (s : sys) (t : Z) : Prop :=
  match pcs s t with
  | AddLock w | AddPush w | AddUnlock w false | RemoveLock w false | RemoveErase w false | RemoveUnlock w _ | Destroy w _ =>
      w ∉ _wrappers s /\ tls s t = None
  | AddUnlock w true | SetSpecific w | RemoveLock w true | RemoveErase w true => w ∈ _wrappers s /\ tls s t = None
  | BeginRead w => tls s t = Some w
  | LoadIndex w => tls s t = Some w /\ ptrs s t = None
  | FirstCall _ bg | StoreIndex _ bg _ | WrappersLock _ bg _ | WaitLock _ bg _ _ | WrappersUnlock _ bg _ | SecondCall _ bg _ => bg = negb (_index s)
  | WaitUnlock _ bg _ i w => bg = negb (_index s) /\ _wrappers s !! i = Some w /\ forall j, ptrs s t <> Some (w, j)
  | _ => True
  end.

(** A modification that still waits for the wrapper [w]. *)
Definition awaits (l : list Z) (p : pc) (w : Z) : Prop :=
  match p with
  | WrappersLock _ _ _ => True
  | WaitLock _ _ _ i => exists k, (i <= k)%nat /\ l !! k = Some w
  | WaitUnlock _ _ _ i _ => exists k, (i < k)%nat /\ l !! k = Some w
  | _ => False
  end.

Record inv (s : sys) : Prop := {
  inv_modify : forall t, in_modify (pcs s t) = true <-> _modify_mutex s = Some t;
  inv_wrappers : forall t, in_wrappers (pcs s t) = true <-> _wrappers_mutex s = Some t;
  inv_mutex : forall t w, (locked (pcs s t) = Some w \/ exists i, ptrs s t = Some (w, i)) <-> heap s !! w = Some (Some t);
  inv_nodup : NoDup (_wrappers s);
  inv_listed : forall w, w ∈ _wrappers s -> is_Some (heap s !! w);
  inv_owned : forall t w, owns s t w -> is_Some (heap s !! w);
  inv_unique : forall t t' w, owns s t w -> owns s t' w -> t = t';
  inv_tls : forall t w, tls s t = Some w -> w ∈ _wrappers s;
  inv_ptr : forall t w i, ptrs s t = Some (w, i) -> tls s t = Some w;
  inv_pc : forall t, pc_ok s t;
  inv_stale : forall t w i, ptrs s t = Some (w, i) -> i = _index s \/ exists m, awaits (_wrappers s) (pcs s m) w;
  inv_known : forall w, is_Some (heap s !! w) -> w ∈ _wrappers s \/ exists t, private (pcs s t) = Some w;
  inv_fresh : forall w, is_Some (heap s !! w) -> w < next_wrapper s;
}.

Lemma inv_start created_key data : inv (start created_key data).
Proof.
  constructor; cbn; intros; try naive_solver.
  - constructor.
  - set_solver.
  - by destruct H.
  - by destruct H.
  - by destruct H.
  - by destruct H.
Qed.

(** Case analysis on the updates of the functions of threads. *)
Ltac upd :=
  repeat match goal with
  | H : context [@insert ?K ?V (?K -> ?V) (@fn_insert _ _ _) ?a ?x ?f ?b] |- _ =>
      destruct (decide (a = b)); [subst; rewrite !fn_lookup_insert in H|rewrite !fn_lookup_insert_ne in H by done]
  | |- context [@insert ?K ?V (?K -> ?V) (@fn_insert _ _ _) ?a ?x ?f ?b] =>
      destruct (decide (a = b)); [subst; rewrite !fn_lookup_insert|rewrite !fn_lookup_insert_ne by done]
  end.

(** A mutex that [t] may lock or unlock when it changes from [b] to [b']. *)
Definition mutex_moves (t : Z) (b b' : bool) (m m' : option Z) : Prop :=
  (b' = b /\ m' = m) \/ (b = false /\ b' = true /\ m = None /\ m' = Some t) \/ (b = true /\ b' = false /\ m' = None).

Lemma mutex_moves_ok (f : pc -> bool) (g : Z -> pc) t p m m' :
  (forall t', f (g t') = true <-> m = Some t') -> mutex_moves t (f (g t)) (f p) m m' ->
  forall t', f (<[t := p]> g t') = true <-> m' = Some t'.
Proof.
  intros Hf [(Hb & ->)|[(Hb & Hb' & -> & ->)|(Hb & Hb' & ->)]] t'.
  - upd; [rewrite Hb|]; apply Hf.
  - upd; [split; congruence|]. split; [intros H; by apply Hf in H|congruence].
  - apply Hf in Hb. subst m. upd; [split; congruence|]. split; [intros H; apply Hf in H; congruence|done].
Qed.

(** A step of [t] that changes its program counter, the instances, the log and
    the two mutexes of the object. *)
Lemma inv_frame s s' t p : inv s -> pcs s' = <[t := p]> (pcs s) ->
  _index s' = _index s -> _wrappers s' = _wrappers s -> heap s' = heap s -> next_wrapper s' = next_wrapper s -> tls s' = tls s -> ptrs s' = ptrs s ->
  mutex_moves t (in_modify (pcs s t)) (in_modify p) (_modify_mutex s) (_modify_mutex s') ->
  mutex_moves t (in_wrappers (pcs s t)) (in_wrappers p) (_wrappers_mutex s) (_wrappers_mutex s') ->
  locked p = locked (pcs s t) ->
  (forall w, private p = Some w -> private (pcs s t) = Some w) ->
  (forall w, private (pcs s t) = Some w -> private p = Some w \/ w ∈ _wrappers s) ->
  (pc_ok s t -> pc_ok s' t) ->
  (forall w, awaits (_wrappers s) (pcs s t) w -> awaits (_wrappers s) p w \/ forall t' i, ptrs s t' <> Some (w, i)) ->
  inv s'.
Proof.
  intros I Epc Ei Ew Eh En Et Ep Hm Hw Hl Hp Hq Hok Ha. specialize (Hok (inv_pc s I t)).
  unfold pc_ok in Hok. rewrite Epc, fn_lookup_insert, ?Ei, ?Ew, ?Et, ?Ep in Hok.
  constructor; unfold owns, pc_ok; rewrite ?Epc, ?Ei, ?Ew, ?Eh, ?En, ?Et, ?Ep.
  - by apply (mutex_moves_ok in_modify _ _ _ (_modify_mutex s)); [apply (inv_modify s I)|].
  - by apply (mutex_moves_ok in_wrappers _ _ _ (_wrappers_mutex s)); [apply (inv_wrappers s I)|].
  - intros t' w. upd; [rewrite Hl|]; apply (inv_mutex s I).
  - apply (inv_nodup s I).
  - apply (inv_listed s I).
  - intros t' w Ho. apply (inv_owned s I t'). upd; [|done]. destruct Ho; [by left|right; auto].
  - intros t' t'' w Ho Ho'. apply (inv_unique s I _ _ w); [clear Ho'|clear Ho]; unfold owns; upd; naive_solver.
  - apply (inv_tls s I).
  - apply (inv_ptr s I).
  - intros t'. destruct (decide (t = t')) as [<-|Hne]; [by rewrite fn_lookup_insert|]. rewrite fn_lookup_insert_ne by done. apply (inv_pc s I t').
  - intros t' w i Hi. destruct (inv_stale s I t' w i Hi) as [|(m & Hm')]; [by left|]. right.
    destruct (decide (t = m)) as [<-|Hne]; [|exists m; by rewrite fn_lookup_insert_ne].
    destruct (Ha w Hm') as [Ha'|Hn]; [exists t; by rewrite fn_lookup_insert|]. by destruct (Hn t' i).
  - intros w Hh. destruct (inv_known s I w Hh) as [|(m & Hm')]; [by left|].
    destruct (decide (t = m)) as [<-|Hne]; [|right; exists m; by rewrite fn_lookup_insert_ne].
    destruct (Hq w Hm'); [right; exists t; by rewrite fn_lookup_insert|by left].
  - apply (inv_fresh s I).
Qed.

Lemma inv_unchanged s s' : inv s -> pcs s' = pcs s -> _index s' = _index s -> _wrappers s' = _wrappers s -> heap s' = heap s ->
  next_wrapper s' = next_wrapper s -> tls s' = tls s -> ptrs s' = ptrs s -> _modify_mutex s' = _modify_mutex s ->
  _wrappers_mutex s' = _wrappers_mutex s -> inv s'.
Proof.
  intros [] Epc Ei Ew Eh En Et Ep Em Ewm. unfold owns, pc_ok in *.
  constructor; unfold owns, pc_ok; rewrite ?Epc, ?Ei, ?Ew, ?Eh, ?En, ?Et, ?Ep, ?Em, ?Ewm; done.
Qed.

(** The loop of [RemoveWrapper] removes the wrapper and nothing else. *)
Lemma erase_found w (a b : list Z) :
  match last (a ++ w :: b) with Some z => take (length (a ++ w :: b) - 1) (<[length a := z]> (a ++ w :: b)) | None => a ++ w :: b end ≡ₚ a ++ b.
Proof.
  destruct b as [|z b _] using rev_ind.
  - rewrite last_snoc, insert_app_r_alt, Nat.sub_diag, length_app by lia. cbn [insert list_insert length]. rewrite take_app_length' by lia. by rewrite app_nil_r.
  - replace (a ++ w :: b ++ [z]) with ((a ++ w :: b) ++ [z]) by (by rewrite <- app_assoc). rewrite last_snoc.
    rewrite insert_app_l, insert_app_r_alt, Nat.sub_diag by (rewrite ?length_app; cbn; lia). cbn [insert list_insert].
    rewrite take_app_length' by (rewrite !length_app; cbn; lia). apply Permutation_app_head. by rewrite Permutation_app_comm.
Qed.

Lemma erase_at_ok w a b : w ∉ a -> NoDup (a ++ b) ->
  NoDup (erase_at w (a ++ b) (length a) b) /\ forall x, x ∈ erase_at w (a ++ b) (length a) b <-> x ∈ a ++ b /\ x <> w.
Proof.
  revert a. induction b as [|x b IH]; intros a Ha Hn; cbn [erase_at].
  { split; [done|]. intros x. rewrite app_nil_r. split; [intros Hx; split; [done|set_solver]|tauto]. }
  case_if; zbool; cycle 1.
  { replace (a ++ x :: b) with ((a ++ [x]) ++ b) in * by (by rewrite <- app_assoc). replace (S (length a)) with (length (a ++ [x])) by (rewrite length_app; cbn; lia).
    apply IH; [set_solver|done]. }
  subst x. pose proof (erase_found w a b) as Hp. apply NoDup_app in Hn as (Hna & Hd & [Hw Hnb]%NoDup_cons). split.
  - rewrite Hp. apply NoDup_app. set_solver.
  - intros x. rewrite Hp. set_solver.
Qed.

Lemma erase_wrapper_ok w l : NoDup l -> NoDup (erase_wrapper w l) /\ forall x, x ∈ erase_wrapper w l <-> x ∈ l /\ x <> w.
Proof. intros Hn. apply (erase_at_ok w []); [set_solver|done]. Qed.

(** ** Every step keeps the invariant *)

Lemma modify_kept s t p : inv s -> in_modify p = in_modify (pcs s t) ->
  forall t', in_modify (<[t := p]> (pcs s) t') = true <-> _modify_mutex s = Some t'.
Proof. intros I E. apply (mutex_moves_ok in_modify _ _ _ (_modify_mutex s)); [apply (inv_modify s I)|by left]. Qed.

Lemma wrappers_kept s t p : inv s -> in_wrappers p = in_wrappers (pcs s t) ->
  forall t', in_wrappers (<[t := p]> (pcs s) t') = true <-> _wrappers_mutex s = Some t'.
Proof. intros I E. apply (mutex_moves_ok in_wrappers _ _ _ (_wrappers_mutex s)); [apply (inv_wrappers s I)|by left]. Qed.

(** The program counters of the other threads. *)
Lemma pc_others s s' t p : inv s -> pcs s' = <[t := p]> (pcs s) -> pc_ok s' t ->
  (forall t', t <> t' -> pcs s' t' = pcs s t' -> pc_ok s t' -> pc_ok s' t') -> forall t', pc_ok s' t'.
Proof.
  intros I E Ht Ho t'. destruct (decide (t = t')) as [<-|Hne]; [done|]. apply Ho; [done| |apply (inv_pc s I)].
  by rewrite E, fn_lookup_insert_ne.
Qed.

Lemma stale_kept s t p w i : inv s -> (forall l, ~ awaits l (pcs s t) w) ->
  i = _index s \/ (exists m, awaits (_wrappers s) (pcs s m) w) -> i = _index s \/ exists m, awaits (_wrappers s) (<[t := p]> (pcs s) m) w.
Proof. intros I Hn [H|(m & Hm)]; [by left|]. right. exists m. upd; [by destruct (Hn _ Hm)|done]. Qed.

Lemma inv_new_wrapper s t : inv s -> pcs s t = Idle -> tls s t = None -> inv (set_pc t (AddLock (next_wrapper s)) (new_wrapper s)).
Proof.
  intros I Et El.
  assert (heap s !! (next_wrapper s) = None) as Hn by (apply eq_None_not_Some; intros H; apply (inv_fresh s I) in H; lia).
  constructor; cbn.
  - apply modify_kept; [done|by rewrite Et].
  - apply wrappers_kept; [done|by rewrite Et].
  - intros t' w. trans (heap s !! w = Some (Some t')).
    + rewrite <- (inv_mutex s I). upd; [by rewrite Et|done].
    + destruct (decide ((next_wrapper s) = w)) as [<-|Hne]; [rewrite lookup_insert_eq|rewrite lookup_insert_ne by done]; naive_solver.
  - apply (inv_nodup s I).
  - intros w Hw%(inv_listed s I). apply lookup_insert_is_Some'. by right.
  - intros t' w Ho. apply lookup_insert_is_Some'. unfold owns in Ho. cbn in Ho. upd; cbn in Ho.
    + destruct Ho as [Ho|Ho]; [right; apply (inv_owned s I t'); by left|left; congruence].
    + right. by apply (inv_owned s I t').
  - assert (forall t' w, t <> t' -> owns s t' w -> w <> (next_wrapper s)) as Hown.
    { intros t' w _ Ho ->. apply (inv_owned s I) in Ho as [? ?]. congruence. }
    intros t1 t2 w Ho1 Ho2. unfold owns in Ho1, Ho2. cbn in Ho1, Ho2. upd; cbn in *; try done.
    + destruct Ho2 as [?|[= <-]]; [congruence|]. by destruct (Hown t1 (next_wrapper s)).
    + destruct Ho1 as [?|[= <-]]; [congruence|]. by destruct (Hown t2 (next_wrapper s)).
    + by apply (inv_unique s I t1 t2 w).
  - apply (inv_tls s I).
  - apply (inv_ptr s I).
  - apply (pc_others s _ t (AddLock (next_wrapper s))); [done|done| |].
    + unfold pc_ok. cbn. rewrite fn_lookup_insert. split; [|done]. intros Hw%(inv_listed s I). destruct Hw. congruence.
    + intros t' _ E. unfold pc_ok. by rewrite E.
  - intros t' w i Hp. apply stale_kept; [done|rewrite Et; cbn; tauto|by apply (inv_stale s I t')].
  - intros w [<-|Hw]%lookup_insert_is_Some'; [right; exists t; by rewrite fn_lookup_insert|].
    destruct (inv_known s I w Hw) as [|(m & Hm)]; [by left|]. right. exists m. upd; [by rewrite Et in Hm|done].
  - intros w [<-|Hw]%lookup_insert_is_Some'; [lia|]. apply (inv_fresh s I) in Hw. lia.
Qed.

Lemma sole_in_wrappers s t m : inv s -> in_wrappers (pcs s t) = true -> t <> m -> in_wrappers (pcs s m) = false.
Proof.
  intros I Ht Hne. destruct (in_wrappers (pcs s m)) eqn:E; [|done]. apply (inv_wrappers s I) in Ht, E. congruence.
Qed.

Lemma sole_in_modify s t m : inv s -> in_modify (pcs s t) = true -> in_modify (pcs s m) = true -> t = m.
Proof. intros I Ht E. apply (inv_modify s I) in Ht, E. congruence. Qed.

Lemma awaits_in_modify l p w : awaits l p w -> in_modify p = true.
Proof. by destruct p. Qed.

(** A modification that does not hold the list waits for every wrapper. *)
Lemma awaits_any l l' p w : in_wrappers p = false -> awaits l p w -> awaits l' p w.
Proof. by destruct p. Qed.

Lemma stale_list s t p l w i : inv s -> in_wrappers (pcs s t) = true -> (forall l, ~ awaits l (pcs s t) w) ->
  i = _index s \/ (exists m, awaits (_wrappers s) (pcs s m) w) -> i = _index s \/ exists m, awaits l (<[t := p]> (pcs s) m) w.
Proof.
  intros I Ht Hn [H|(m & Hm)]; [by left|]. right. exists m. upd; [by destruct (Hn _ Hm)|].
  by apply (awaits_any (_wrappers s)); [apply (sole_in_wrappers s t)|].
Qed.

Lemma inv_push s t w : inv s -> pcs s t = AddPush w -> inv (set_pc t (AddUnlock w true) (set_wrappers (_wrappers s ++ [w]) s)).
Proof.
  intros I Et. pose proof (inv_pc s I t) as Hok. unfold pc_ok in Hok. rewrite Et in Hok. destruct Hok as (Hw & Hl).
  assert (owns s t w) as Ho by (right; by rewrite Et). assert (Hin : in_wrappers (pcs s t) = true) by (by rewrite Et).
  constructor; cbn.
  - apply modify_kept; [done|by rewrite Et].
  - apply wrappers_kept; [done|by rewrite Et].
  - intros t' w'. rewrite <- (inv_mutex s I). upd; [by rewrite Et|done].
  - apply NoDup_app. split_and!; [apply (inv_nodup s I)|set_solver|apply NoDup_singleton].
  - intros w' [Hw'| ->%list_elem_of_singleton]%elem_of_app; [by apply (inv_listed s I)|by apply (inv_owned s I t)].
  - intros t' w' Ho'. apply (inv_owned s I t'). unfold owns in *. cbn in Ho'. upd; [by rewrite Et|done].
  - intros t1 t2 w' Ho1 Ho2. apply (inv_unique s I t1 t2 w'); unfold owns in *; cbn in *; [clear Ho2|clear Ho1]; upd; [by rewrite Et|done..|by rewrite Et|done].
  - intros t' w' Hw'%(inv_tls s I). set_solver.
  - apply (inv_ptr s I).
  - apply (pc_others s _ t (AddUnlock w true)); [done|done|unfold pc_ok; cbn; rewrite fn_lookup_insert; set_solver|].
    intros t' Hne E. unfold pc_ok. rewrite E. pose proof (sole_in_wrappers s t t' I Hin Hne) as Hin'.
    assert (forall w', private (pcs s t') = Some w' -> w' <> w) as Hu by (intros w' Hp ->; apply Hne, (inv_unique s I t t' w); [done|by right]).
    cbn. destruct (pcs s t') as [| | | |? []| | | |? []|? []| | | | | | | | | | | |]; cbn in *; try done; naive_solver set_solver.
  - intros t' w' i Hp. apply stale_list; [done|done|rewrite Et; cbn; tauto|by apply (inv_stale s I t')].
  - intros w' Hw'. destruct (inv_known s I w' Hw') as [|(m & Hm)]; [left; set_solver|]. right. exists m. upd; [by rewrite Et in Hm|done].
  - apply (inv_fresh s I).
Qed.

Lemma inv_erase s t w exits : inv s -> pcs s t = RemoveErase w exits ->
  inv (set_pc t (RemoveUnlock w exits) (set_wrappers (erase_wrapper w (_wrappers s)) s)).
Proof.
  intros I Et. assert (tls s t = None) as Hl by (generalize (inv_pc s I t); unfold pc_ok; rewrite Et; destruct exits; tauto).
  assert (owns s t w) as Ho by (right; by rewrite Et). assert (Hin : in_wrappers (pcs s t) = true) by (by rewrite Et).
  destruct (erase_wrapper_ok w (_wrappers s) (inv_nodup s I)) as (Hn & Hel).
  constructor; cbn.
  - apply modify_kept; [done|by rewrite Et].
  - apply wrappers_kept; [done|by rewrite Et].
  - intros t' w'. rewrite <- (inv_mutex s I). upd; [by rewrite Et|done].
  - done.
  - intros w' [Hw' _]%Hel. by apply (inv_listed s I).
  - intros t' w' Ho'. apply (inv_owned s I t'). unfold owns in *. cbn in Ho'. upd; [by rewrite Et|done].
  - intros t1 t2 w' Ho1 Ho2. apply (inv_unique s I t1 t2 w'); unfold owns in *; cbn in *; [clear Ho2|clear Ho1]; upd; [by rewrite Et|done..|by rewrite Et|done].
  - intros t' w' Ht'. apply Hel. split; [by apply (inv_tls s I t')|]. intros ->.
    assert (t' = t) as -> by (apply (inv_unique s I t' t w); [by left|done]). congruence.
  - apply (inv_ptr s I).
  - apply (pc_others s _ t (RemoveUnlock w exits)); [done|done|unfold pc_ok; cbn; rewrite fn_lookup_insert; rewrite Hel; tauto|].
    intros t' Hne E. unfold pc_ok. rewrite E. pose proof (sole_in_wrappers s t t' I Hin Hne) as Hin'.
    assert (forall w', private (pcs s t') = Some w' -> w' <> w) as Hu by (intros w' Hp ->; apply Hne, (inv_unique s I t t' w); [done|by right]).
    cbn. destruct (pcs s t') as [| | | |? []| | | |? []|? []| | | | | | | | | | | |]; cbn in *; rewrite ?Hel; try done; naive_solver.
  - intros t' w' i Hp. apply stale_list; [done|done|rewrite Et; cbn; tauto|by apply (inv_stale s I t')].
  - intros w' Hw'. destruct (decide (w' = w)) as [->|Hne]; [right; exists t; by rewrite fn_lookup_insert|].
    destruct (inv_known s I w' Hw') as [|(m & Hm)]; [left; by apply Hel|]. right. exists m. upd; [by rewrite Et in Hm|done].
  - apply (inv_fresh s I).
Qed.

(** The thread-local wrapper is set, or taken by the destructor. *)
Lemma inv_set_tls s t w p o : inv s -> owns s t w -> (forall w', owns s t w' -> w' = w) -> w ∈ _wrappers s -> ptrs s t = None ->
  in_modify p = in_modify (pcs s t) -> in_wrappers p = in_wrappers (pcs s t) -> locked p = locked (pcs s t) ->
  (forall l w', ~ awaits l (pcs s t) w') -> (o = Some w /\ p = BeginRead w) \/ (o = None /\ p = RemoveLock w true) ->
  inv (set_pc t p (set_tls t o s)).
Proof.
  intros I Ho Hown Hw Hptr Hm Hwm Hlk Ha Hp.
  assert (forall t' w', owns (set_pc t p (set_tls t o s)) t' w' -> owns s t' w') as Hsub.
  { intros t' w' Ho'. unfold owns in Ho'. cbn in Ho'. upd; [|done]. destruct Hp as [(-> & ->)|(-> & ->)]; cbn in Ho'; naive_solver. }
  constructor; cbn.
  - by apply modify_kept.
  - by apply wrappers_kept.
  - intros t' w'. rewrite <- (inv_mutex s I). upd; [by rewrite Hlk|done].
  - apply (inv_nodup s I).
  - apply (inv_listed s I).
  - intros t' w' Ho'%Hsub. by apply (inv_owned s I t').
  - intros t1 t2 w' Ho1%Hsub Ho2%Hsub. by apply (inv_unique s I t1 t2 w').
  - intros t' w' Ht'. upd; [destruct Hp as [(-> & _)|(-> & _)]; naive_solver|by apply (inv_tls s I t')].
  - intros t' w' i Hi. upd; [congruence|by apply (inv_ptr s I t' w' i)].
  - apply (pc_others s _ t p); [done|done|unfold pc_ok; cbn; rewrite !fn_lookup_insert; destruct Hp as [(-> & ->)|(-> & ->)]; done|].
    intros t' Hne E. unfold pc_ok. rewrite E. cbn. by rewrite fn_lookup_insert_ne.
  - intros t' w' i Hi. apply stale_kept; [done|done|by apply (inv_stale s I t')].
  - intros w' Hw'. destruct (decide (w' = w)) as [->|Hne]; [by left|].
    destruct (inv_known s I w' Hw') as [|(m & Hm')]; [by left|]. right. exists m. upd; [|done]. destruct Hne. apply Hown. by right.
  - apply (inv_fresh s I).
Qed.

Lemma inv_lock_wrapper s t w p : inv s -> heap s !! w = Some None -> locked p = Some w -> locked (pcs s t) = None ->
  in_modify p = in_modify (pcs s t) -> in_wrappers p = in_wrappers (pcs s t) -> private p = None -> private (pcs s t) = None ->
  (pc_ok s t -> (forall j, ptrs s t <> Some (w, j)) -> pc_ok (set_pc t p s) t) ->
  (forall w', awaits (_wrappers s) (pcs s t) w' -> awaits (_wrappers s) p w' \/ w' = w) ->
  inv (set_pc t p (set_heap (<[w := Some t]> (heap s)) s)).
Proof.
  intros I Hh Hl Hl0 Hm Hwm Hp Hp0 Hok Ha.
  assert (forall t' i, ptrs s t' <> Some (w, i)) as Hno.
  { intros t' i Hi. assert (heap s !! w = Some (Some t')) by (apply (inv_mutex s I); eauto). congruence. }
  assert (forall w', is_Some (heap s !! w') <-> is_Some (<[w := Some t]> (heap s) !! w')) as Hdom.
  { intros w'. rewrite lookup_insert_is_Some'. split; [tauto|]. intros [<-|?]; [|done]. by rewrite Hh. }
  constructor; cbn.
  - by apply modify_kept.
  - by apply wrappers_kept.
  - intros t' w'. pose proof (inv_mutex s I t' w') as Hmx. destruct (decide (w = w')) as [<-|Hne].
    + rewrite lookup_insert_eq. rewrite Hh in Hmx. upd; [naive_solver|]. split; [intros H; apply Hmx in H|]; congruence.
    + rewrite lookup_insert_ne by done. rewrite <- Hmx. upd; [|done]. rewrite Hl, Hl0. naive_solver.
  - apply (inv_nodup s I).
  - intros w' Hw'. by apply Hdom, (inv_listed s I).
  - intros t' w' Ho. apply Hdom, (inv_owned s I t'). unfold owns in *. cbn in Ho. upd; [rewrite Hp in Ho; naive_solver|done].
  - intros t1 t2 w' Ho1 Ho2. apply (inv_unique s I t1 t2 w'); unfold owns in *; cbn in *; [clear Ho2|clear Ho1]; upd; rewrite ?Hp in *; naive_solver.
  - apply (inv_tls s I).
  - apply (inv_ptr s I).
  - apply (pc_others s _ t p); [done|done|by apply Hok; [apply (inv_pc s I)|]|]. intros t' Hne E. unfold pc_ok. by rewrite E.
  - intros t' w' i Hi. destruct (inv_stale s I t' w' i Hi) as [|(m & Hm')]; [by left|]. right.
    destruct (decide (t = m)) as [<-|Hne]; [|exists m; by rewrite fn_lookup_insert_ne].
    destruct (Ha w' Hm') as [Ha'| ->]; [exists t; by rewrite fn_lookup_insert|]. by destruct (Hno t' i).
  - intros w' Hw'%Hdom. destruct (inv_known s I w' Hw') as [|(m & Hm')]; [by left|]. right. exists m. upd; [congruence|done].
  - intros w' Hw'%Hdom. by apply (inv_fresh s I).
Qed.

(** The end of the wait for one reader, or of a read. *)
Lemma inv_unlock_wrapper s s' t w : inv s -> heap s !! w = Some (Some t) -> heap s' = <[w := None]> (heap s) ->
  _index s' = _index s -> _wrappers s' = _wrappers s -> next_wrapper s' = next_wrapper s -> tls s' = tls s ->
  _modify_mutex s' = _modify_mutex s -> _wrappers_mutex s' = _wrappers_mutex s ->
  (forall t', t' <> t -> pcs s' t' = pcs s t' /\ ptrs s' t' = ptrs s t') ->
  in_modify (pcs s' t) = in_modify (pcs s t) -> in_wrappers (pcs s' t) = in_wrappers (pcs s t) -> private (pcs s' t) = private (pcs s t) ->
  (forall w', locked (pcs s' t) = Some w' \/ (exists i, ptrs s' t = Some (w', i)) <->
              (locked (pcs s t) = Some w' \/ exists i, ptrs s t = Some (w', i)) /\ w' <> w) ->
  (forall w' i, ptrs s' t = Some (w', i) -> ptrs s t = Some (w', i)) ->
  pc_ok s' t -> (forall w', awaits (_wrappers s) (pcs s t) w' -> awaits (_wrappers s) (pcs s' t) w') -> inv s'.
Proof.
  intros I Hh Eh Ei Ew En Et Em Ewm Ho Hm Hwm Hp Hl Hptr Hok Ha.
  assert (forall w', is_Some (heap s !! w') <-> is_Some (<[w := None]> (heap s) !! w')) as Hdom.
  { intros w'. rewrite lookup_insert_is_Some'. split; [tauto|]. intros [<-|?]; [|done]. by rewrite Hh. }
  assert (forall t', in_modify (pcs s' t') = in_modify (pcs s t') /\ in_wrappers (pcs s' t') = in_wrappers (pcs s t') /\ private (pcs s' t') = private (pcs s t')) as Hsame.
  { intros t'. destruct (decide (t' = t)) as [->|Hne]; [done|]. by destruct (Ho t' Hne) as (-> & _). }
  constructor; unfold owns; rewrite ?Eh, ?Ei, ?Ew, ?En, ?Et, ?Em, ?Ewm.
  - intros t'. destruct (Hsame t') as (-> & _). apply (inv_modify s I).
  - intros t'. destruct (Hsame t') as (_ & -> & _). apply (inv_wrappers s I).
  - intros t' w'. destruct (decide (t' = t)) as [->|Hne].
    + rewrite Hl, (inv_mutex s I). destruct (decide (w = w')) as [<-|]; [rewrite lookup_insert_eq|rewrite lookup_insert_ne by done]; naive_solver.
    + destruct (Ho t' Hne) as (-> & ->). rewrite (inv_mutex s I). destruct (decide (w = w')) as [<-|]; [rewrite lookup_insert_eq|rewrite lookup_insert_ne by done]; naive_solver.
  - apply (inv_nodup s I).
  - intros w' Hw'. by apply Hdom, (inv_listed s I).
  - intros t' w'. destruct (Hsame t') as (_ & _ & ->). rewrite <- Hdom. apply (inv_owned s I t').
  - intros t1 t2 w'. destruct (Hsame t1) as (_ & _ & ->), (Hsame t2) as (_ & _ & ->). apply (inv_unique s I).
  - apply (inv_tls s I).
  - intros t' w' i Hi. apply (inv_ptr s I t' w' i). destruct (decide (t' = t)) as [->|Hne]; [by apply Hptr|]. by destruct (Ho t' Hne) as (_ & <-).
  - intros t'. destruct (decide (t' = t)) as [->|Hne]; [done|]. generalize (inv_pc s I t'). unfold pc_ok. destruct (Ho t' Hne) as (-> & ->). by rewrite Ei, Ew, Et.
  - intros t' w' i Hi. assert (ptrs s t' = Some (w', i)) as Hi0.
    { destruct (decide (t' = t)) as [->|Hne]; [by apply Hptr|]. by destruct (Ho t' Hne) as (_ & <-). }
    destruct (inv_stale s I t' w' i Hi0) as [|(m & Hm')]; [by left|]. right. exists m.
    destruct (decide (m = t)) as [->|Hne]; [by apply Ha|]. by destruct (Ho m Hne) as (-> & _).
  - intros w' Hw'%Hdom. destruct (inv_known s I w' Hw') as [|(m & Hm')]; [by left|]. right. exists m. by destruct (Hsame m) as (_ & _ & ->).
  - intros w' Hw'%Hdom. by apply (inv_fresh s I).
Qed.

Lemma inv_load_index s t w : inv s -> pcs s t = LoadIndex w -> inv (set_pc t Idle (set_ptr t (Some (w, _index s)) s)).
Proof.
  intros I Et. pose proof (inv_pc s I t) as Hok. unfold pc_ok in Hok. rewrite Et in Hok. destruct Hok as (Hl & Hp).
  constructor; cbn.
  - apply modify_kept; [done|by rewrite Et].
  - apply wrappers_kept; [done|by rewrite Et].
  - intros t' w'. rewrite <- (inv_mutex s I). upd; [|done]. rewrite Et, Hp. cbn. naive_solver.
  - apply (inv_nodup s I).
  - apply (inv_listed s I).
  - intros t' w' Ho. apply (inv_owned s I t'). unfold owns in *. cbn in Ho. upd; [rewrite Et; cbn in *; naive_solver|done].
  - intros t1 t2 w' Ho1 Ho2. apply (inv_unique s I t1 t2 w'); unfold owns in *; cbn in *; [clear Ho2|clear Ho1]; upd; cbn in *; naive_solver.
  - apply (inv_tls s I).
  - intros t' w' i Hi. upd; [congruence|by apply (inv_ptr s I t' w' i)].
  - apply (pc_others s _ t Idle); [done|done|unfold pc_ok; cbn; by rewrite fn_lookup_insert|].
    intros t' Hne E. unfold pc_ok. rewrite E. cbn. by rewrite fn_lookup_insert_ne.
  - intros t' w' i Hi. upd; [left; congruence|]. apply stale_kept; [done|rewrite Et; cbn; tauto|by apply (inv_stale s I t')].
  - intros w' Hw'. destruct (inv_known s I w' Hw') as [|(m & Hm)]; [by left|]. right. exists m. upd; [by rewrite Et in Hm|done].
  - apply (inv_fresh s I).
Qed.

Lemma inv_free s t w exits p : inv s -> pcs s t = Destroy w exits -> p = Idle \/ p = Exited -> heap s !! w = Some None /\
  inv (set_pc t p (set_heap (delete w (heap s)) s)).
Proof.
  intros I Et Hp. pose proof (inv_pc s I t) as Hok. unfold pc_ok in Hok. rewrite Et in Hok. destruct Hok as (Hw & Hl).
  assert (owns s t w) as Ho by (right; by rewrite Et).
  assert (forall t' w', owns (set_pc t p (set_heap (delete w (heap s)) s)) t' w' -> owns s t' w' /\ w' <> w) as Hown.
  { intros t' w' Ho'. unfold owns in *. cbn in Ho'. destruct (decide (t = t')) as [<-|Hne].
    - rewrite fn_lookup_insert in Ho'. destruct Hp as [-> | ->]; cbn in Ho'; naive_solver.
    - rewrite fn_lookup_insert_ne in Ho' by done. split; [done|]. intros ->. by apply Hne, (inv_unique s I t t' w). }
  assert (heap s !! w = Some None) as Hh.
  { destruct (inv_owned s I t w Ho) as (o & Eh). rewrite Eh. f_equal. destruct o as [t'|]; [|done]. exfalso. apply (inv_mutex s I) in Eh as [Eh|(i & Eh)].
    - pose proof (inv_pc s I t') as Hok. unfold pc_ok in Hok. destruct (pcs s t') eqn:Et'; try done; injection Eh as ->.
      + destruct Hok as (Hok & _). by apply (inv_tls s I) in Hok.
      + destruct Hok as (_ & Hok & _). by apply list_elem_of_lookup_2 in Hok.
    - by apply (inv_ptr s I), (inv_tls s I) in Eh. }
  split; [done|]. constructor; cbn.
  - apply modify_kept; [done|rewrite Et; by destruct Hp as [-> | ->]].
  - apply wrappers_kept; [done|rewrite Et; by destruct Hp as [-> | ->]].
  - intros t' w'. trans (heap s !! w' = Some (Some t')).
    + rewrite <- (inv_mutex s I). upd; [rewrite Et; by destruct Hp as [-> | ->]|done].
    + rewrite lookup_delete_Some. naive_solver.
  - apply (inv_nodup s I).
  - intros w' Hw'. rewrite lookup_delete_ne by (by intros ->). by apply (inv_listed s I).
  - intros t' w' (Ho' & Hne)%Hown. rewrite lookup_delete_ne by done. by apply (inv_owned s I t').
  - intros t1 t2 w' (Ho1 & _)%Hown (Ho2 & _)%Hown. by apply (inv_unique s I t1 t2 w').
  - apply (inv_tls s I).
  - apply (inv_ptr s I).
  - apply (pc_others s _ t p); [done|done|unfold pc_ok; cbn; rewrite fn_lookup_insert; by destruct Hp as [-> | ->]|].
    intros t' Hne E. unfold pc_ok. by rewrite E.
  - intros t' w' i Hi. apply stale_kept; [done|rewrite Et; cbn; tauto|by apply (inv_stale s I t')].
  - intros w' (Hne & Hw')%lookup_delete_is_Some. destruct (inv_known s I w' Hw') as [|(m & Hm)]; [by left|].
    right. exists m. upd; [|done]. rewrite Et in Hm. cbn in Hm. congruence.
  - intros w' (_ & Hw')%lookup_delete_is_Some. by apply (inv_fresh s I).
Qed.

Lemma inv_store_index s t fn bg ret : inv s -> pcs s t = StoreIndex fn bg ret -> inv (set_pc t (WrappersLock fn (negb bg) ret) (set_index bg s)).
Proof.
  intros I Et. assert (Hin : in_modify (pcs s t) = true) by (by rewrite Et).
  constructor; cbn.
  - apply modify_kept; [done|by rewrite Et].
  - apply wrappers_kept; [done|by rewrite Et].
  - intros t' w'. rewrite <- (inv_mutex s I). upd; [by rewrite Et|done].
  - apply (inv_nodup s I).
  - apply (inv_listed s I).
  - intros t' w' Ho. apply (inv_owned s I t'). unfold owns in *. cbn in Ho. upd; [rewrite Et; cbn in *; naive_solver|done].
  - intros t1 t2 w' Ho1 Ho2. apply (inv_unique s I t1 t2 w'); unfold owns in *; cbn in *; [clear Ho2|clear Ho1]; upd; cbn in *; naive_solver.
  - apply (inv_tls s I).
  - apply (inv_ptr s I).
  - apply (pc_others s _ t (WrappersLock fn (negb bg) ret)); [done|done|unfold pc_ok; cbn; by rewrite fn_lookup_insert|].
    intros t' Hne E. unfold pc_ok. rewrite E. cbn. assert (in_modify (pcs s t') = true -> False) by (intros H; by apply Hne, (sole_in_modify s)).
    by destruct (pcs s t'); cbn in *.
  - intros t' w' i Hi. right. exists t. by rewrite fn_lookup_insert.
  - intros w' Hw'. destruct (inv_known s I w' Hw') as [|(m & Hm)]; [by left|]. right. exists m. upd; [by rewrite Et in Hm|done].
  - apply (inv_fresh s I).
Qed.

Lemma unlock_wrappers_ok s t : inv s -> in_wrappers (pcs s t) = true -> unlock_wrappers t s = Ok (set_wrappers_mutex None s).
Proof. intros I H%(inv_wrappers s I). unfold unlock_wrappers. by rewrite bool_decide_true. Qed.

Lemma unlock_modify_ok s t : inv s -> in_modify (pcs s t) = true -> unlock_modify t s = Ok (set_modify_mutex None s).
Proof. intros I H%(inv_modify s I). unfold unlock_modify. by rewrite bool_decide_true. Qed.

Lemma unlock_wrapper_ok s t w : inv s -> locked (pcs s t) = Some w \/ (exists i, ptrs s t = Some (w, i)) ->
  heap s !! w = Some (Some t) /\ unlock_wrapper t w s = Ok (set_heap (<[w := None]> (heap s)) s).
Proof. intros I H%(inv_mutex s I). unfold unlock_wrapper. by rewrite bool_decide_true. Qed.

(** A step that [inv_frame] covers. *)
Ltac frame I Et :=
  eapply (inv_frame _ _ _ _ I); [cbn; reflexivity|done..| | | | | | |]; rewrite ?Et; unfold mutex_moves; cbn; try done;
  try (naive_solver; fail).

Lemma inv_begin_read s t allocated : inv s -> pcs s t = Idle -> inv (begin_read t allocated s).
Proof.
  intros I Et. unfold begin_read. destruct (negb _); [by apply (inv_unchanged s)|]. destruct (tls s t) as [w|] eqn:El.
  - frame I Et. intros _. unfold pc_ok. cbn. by rewrite fn_lookup_insert.
  - destruct allocated; [by apply inv_new_wrapper|by apply (inv_unchanged s)].
Qed.

Lemma inv_exit s t : inv s -> pcs s t = Idle -> ptrs s t = None -> inv (exit_thread t s).
Proof.
  intros I Et Hp. unfold exit_thread. destruct (tls s t) as [w|] eqn:El.
  - apply (inv_set_tls s t w); rewrite ?Et; (done || tauto || (by right) || idtac).
    + by left.
    + unfold owns. rewrite Et. naive_solver.
    + by apply (inv_tls s I t).
  - frame I Et. intros _. unfold pc_ok. cbn. by rewrite fn_lookup_insert.
Qed.

Lemma inv_idle_step s t c r : inv s -> pcs s t = Idle -> step t c s = Some r -> exists s', r = Ok s' /\ inv s'.
Proof.
  intros I Et. unfold step. rewrite Et. destruct c as [a| | |fn| |b]; intros Hr.
  - injection Hr as <-. eexists. split; [done|by apply inv_begin_read].
  - destruct (ptrs s t) as [[w i]|]; [|done]. injection Hr as <-. eexists. split; [done|by apply (inv_unchanged s)].
  - destruct (ptrs s t) as [[w i]|] eqn:Ep; [|done]. destruct (unlock_wrapper_ok s t w I ltac:(eauto)) as (Hh & Eu).
    cbn in Hr. rewrite Eu in Hr. injection Hr as <-. eexists. split; [done|].
    eapply (inv_unlock_wrapper s _ t w); try done; cbn; rewrite ?Et.
    + intros t' Hne. by rewrite fn_lookup_insert_ne.
    + intros w'. rewrite fn_lookup_insert, Ep. cbn. naive_solver.
    + intros w' i'. by rewrite fn_lookup_insert.
    + unfold pc_ok. cbn. by rewrite Et.
  - injection Hr as <-. eexists. split; [done|]. frame I Et. intros _. unfold pc_ok. cbn. by rewrite fn_lookup_insert.
  - destruct (ptrs s t) eqn:Ep; [done|]. injection Hr as <-. eexists. split; [done|by apply inv_exit].
  - done.
Qed.

(** The program counter after a step of [inv_frame]. *)
Ltac next_pc Et := intros Hok; unfold pc_ok in *; cbn in *; rewrite ?fn_lookup_insert, ?Et in *; naive_solver.

Lemma inv_read_step s t b r : inv s -> in_modify (pcs s t) = false -> pcs s t <> Idle -> step t (Go b) s = Some r -> exists s', r = Ok s' /\ inv s'.
Proof.
  intros I Hm Hi. unfold step. destruct (pcs s t) eqn:Et; try done; intros Hr; clear Hm Hi.
  - unfold lock_wrappers in Hr. destruct (_wrappers_mutex s) eqn:Ew; [done|]. injection Hr as <-. eexists. split; [done|]. frame I Et. next_pc Et.
  - injection Hr as <-. eexists. split; [done|]. destruct b; [by apply inv_push|]. frame I Et. next_pc Et.
  - rewrite unlock_wrappers_ok in Hr by (by rewrite ?Et). injection Hr as <-. eexists. split; [done|]. destruct pushed; frame I Et; next_pc Et.
  - injection Hr as <-. eexists. split; [done|]. pose proof (inv_pc s I t) as Hok. unfold pc_ok in Hok. rewrite Et in Hok. destruct Hok as (Hw & Hl). destruct b.
    + apply (inv_set_tls s t w); unfold owns; rewrite ?Et; cbn; (done || tauto || naive_solver || idtac).
      destruct (ptrs s t) as [[w' i]|] eqn:Ep; [|done]. apply (inv_ptr s I) in Ep. congruence.
    + eapply (inv_unchanged (set_pc t Idle s)); try done. frame I Et. next_pc Et.
  - unfold lock_wrapper in Hr. pose proof (inv_pc s I t) as Hok. unfold pc_ok in Hok. rewrite Et in Hok.
    destruct (inv_owned s I t w) as (o & Eh); [by left|]. rewrite Eh in Hr. destruct o; [done|]. injection Hr as <-. eexists. split; [done|].
    apply inv_lock_wrapper; rewrite ?Et; try done. intros _ Hno. unfold pc_ok. cbn. rewrite fn_lookup_insert. split; [done|].
    destruct (ptrs s t) as [[w' i]|] eqn:Ep; [|done]. pose proof (inv_ptr s I _ _ _ Ep). exfalso. apply (Hno i). congruence.
  - injection Hr as <-. eexists. split; [done|]. eapply (inv_unchanged (set_pc t Idle (set_ptr t (Some (w, _index s)) s))); try done. by apply inv_load_index.
  - unfold lock_wrappers in Hr. destruct (_wrappers_mutex s) eqn:Ew; [done|]. injection Hr as <-. eexists. split; [done|]. frame I Et. destruct exits; next_pc Et.
  - injection Hr as <-. eexists. split; [done|by apply inv_erase].
  - rewrite unlock_wrappers_ok in Hr by (by rewrite ?Et). injection Hr as <-. eexists. split; [done|]. frame I Et; next_pc Et.
  - destruct (inv_free s t w exits (if exits then Exited else Idle) I Et) as (Hh & I'); [destruct exits; tauto|].
    unfold free_wrapper in Hr. rewrite bool_decide_true in Hr by done. injection Hr as <-. eexists. split; [done|].
    by destruct exits; (done || eapply (inv_unchanged _ _ I')).
  - unfold lock_modify in Hr. destruct (_modify_mutex s) eqn:Ew; [done|]. injection Hr as <-. eexists. split; [done|]. frame I Et; next_pc Et.
Qed.

Lemma inv_modify_step s t b r : inv s -> in_modify (pcs s t) = true -> step t (Go b) s = Some r ->
  (exists s', r = Ok s' /\ inv s') \/ (exists fn bg ret, r = Abort /\ pcs s t = SecondCall fn bg ret /\ snd (call fn bg s) <> ret).
Proof.
  intros I Hm. unfold step. destruct (pcs s t) eqn:Et; try done; intros Hr; clear Hm.
  - left. injection Hr as <-. eexists. split; [done|]. frame I Et; next_pc Et.
  - left. destruct (call fn bg s) as [s1 ret] eqn:Ec. injection Hr as <-. eexists. split; [done|].
    assert (exists x, s1 = set_data bg x s) as (x & ->) by (unfold call in Ec; destruct (fn _ _); injection Ec; eauto).
    destruct (ret =? 0); frame I Et; next_pc Et.
  - left. injection Hr as <-. eexists. split; [done|]. eapply (inv_unchanged (set_pc t (WrappersLock fn (negb bg) ret) (set_index bg s))); try done.
    by apply inv_store_index.
  - left. unfold lock_wrappers in Hr. destruct (_wrappers_mutex s) eqn:Ew; [done|]. injection Hr as <-. eexists. split; [done|]. frame I Et; [next_pc Et|].
    intros w _. destruct (decide (w ∈ _wrappers s)) as [Hw|Hw].
    + left. apply list_elem_of_lookup_1 in Hw as (k & Hk). exists k. split; [lia|done].
    + right. intros t' j Hj. by apply Hw, (inv_tls s I t'), (inv_ptr s I t' w j).
  - left. destruct (_wrappers s !! i) as [w|] eqn:Ew.
    + unfold lock_wrapper in Hr. destruct (inv_listed s I w) as (o & Eh); [by apply list_elem_of_lookup_2 in Ew|].
      rewrite Eh in Hr. destruct o; [done|]. injection Hr as <-. eexists. split; [done|]. apply inv_lock_wrapper; rewrite ?Et; try done.
      * intros Hok Hno. unfold pc_ok in *. cbn. rewrite fn_lookup_insert. rewrite Et in Hok. done.
      * intros w' (k & Hk & Hl). destruct (decide (k = i)) as [->|Hne]; [right; congruence|]. left. exists k. split; [lia|done].
    + injection Hr as <-. eexists. split; [done|]. frame I Et; [next_pc Et|].
      intros w (k & Hk & Hl). apply lookup_lt_Some in Hl. apply lookup_ge_None in Ew. lia.
  - left. destruct (unlock_wrapper_ok s t w I) as (Hh & Eu); [left; by rewrite Et|]. rewrite Eu in Hr. injection Hr as <-. eexists. split; [done|].
    pose proof (inv_pc s I t) as Hok. unfold pc_ok in Hok. rewrite Et in Hok. destruct Hok as (Hbg & Hw & Hno).
    eapply (inv_unlock_wrapper s _ t w); try done; cbn; rewrite ?fn_lookup_insert, ?Et; try done.
    + intros t' Hne. by rewrite fn_lookup_insert_ne.
    + intros w'. cbn. naive_solver.
    + unfold pc_ok. cbn. by rewrite fn_lookup_insert.
  - left. rewrite unlock_wrappers_ok in Hr by (by rewrite ?Et). injection Hr as <-. eexists. split; [done|]. frame I Et; next_pc Et.
  - destruct (call fn bg s) as [s1 ret2] eqn:Ec.
    assert (exists x, s1 = set_data bg x s) as (x & ->) by (unfold call in Ec; destruct (fn _ _); injection Ec; eauto).
    unfold check in Hr. destruct (ret2 =? ret) eqn:E.
    + left. injection Hr as <-. eexists. split; [done|]. frame I Et; next_pc Et.
    + right. zbool. injection Hr as <-. exists fn, bg, ret. by rewrite Ec.
  - left. rewrite unlock_modify_ok in Hr by (by rewrite ?Et). injection Hr as <-. eexists. split; [done|].
    eapply (inv_unchanged (set_pc t Idle (set_modify_mutex None s))); try done. frame I Et; next_pc Et.
Qed.

Theorem inv_step s t c r : inv s -> step t c s = Some r ->
  (exists s', r = Ok s' /\ inv s') \/ (exists fn bg ret, r = Abort /\ pcs s t = SecondCall fn bg ret /\ snd (call fn bg s) <> ret).
Proof.
  intros I Hr. destruct c as [a| | |fn| |b]; cycle 5.
  { destruct (in_modify (pcs s t)) eqn:Em; [by apply (inv_modify_step s t b)|]. left. apply (inv_read_step s t b r); try done.
    intros Et. unfold step in Hr. by rewrite Et in Hr. }
  all: left; assert (pcs s t = Idle) as Et by (unfold step in Hr; by destruct (pcs s t)); by eapply inv_idle_step.
Qed.

Lemma reachable_invariant allowed created_key data s : reachable allowed created_key data s -> inv s.
Proof.
  intros H. unfold reachable in H. remember (start created_key data) as s0 eqn:E.
  assert (inv s0) as I by (subst; apply inv_start). clear E. induction H as [|s1 s2 s3 (t & c & _ & Hs) _ IH]; [done|].
  apply IH. destruct (inv_step s1 t c _ I Hs) as [(s' & [= <-] & I')|(? & ? & ? & ? & _)]; done.
Qed.

(** ** No races, no leaks *)

(** The instance that the thread's callback works on. *)
Definition calling (p : pc) : option bool :=
  match p with FirstCall _ bg | SecondCall _ bg _ => Some bg | _ => None end.

Lemma calling_alone s t bg : inv s -> calling (pcs s t) = Some bg ->
  bg = negb (_index s) /\ (forall t' w i, ptrs s t' = Some (w, i) -> i = negb bg) /\ (forall t', is_Some (calling (pcs s t')) -> t' = t).
Proof.
  intros I Hc. assert (forall p b, calling p = Some b -> in_modify p = true) as Hin by (by intros [] b).
  assert (bg = negb (_index s)) as -> by (generalize (inv_pc s I t); unfold pc_ok; destruct (pcs s t); try done; by injection Hc as ->).
  split_and!; [done| |].
  - intros t' w i Hi. rewrite negb_involutive. destruct (inv_stale s I t' w i Hi) as [|(m & Hm)]; [done|].
    assert (t = m) as <- by (apply (sole_in_modify s); [done|by eapply Hin|by eapply awaits_in_modify]). by destruct (pcs s t).
  - intros t' (b & Hb). symmetry. by apply (sole_in_modify s); [done|eapply Hin..].
Qed.

Lemma free_all_ok l s : NoDup l -> (forall w, is_Some (heap s !! w) <-> w ∈ l) -> (forall w t, heap s !! w <> Some (Some t)) ->
  exists s', free_all l s = Ok s' /\ heap s' = ∅.
Proof.
  revert s. induction l as [|w l IH]; intros s Hn Hd Hu; cbn [free_all].
  - exists s. split; [done|]. apply map_empty. intros w. apply eq_None_not_Some. intros Hw%Hd. set_solver.
  - apply NoDup_cons in Hn as (Hw & Hn). destruct (proj2 (Hd w)) as (o & Eo); [set_solver|]. destruct o as [t|]; [by destruct (Hu w t)|].
    unfold free_wrapper. rewrite bool_decide_true by done. cbn [mbind outcome_bind].
    destruct (IH (set_heap (delete w (heap s)) s)) as (s' & E & Hs'); [done| | |by exists s'].
    + intros w'. cbn. rewrite lookup_delete_is_Some, Hd. set_solver.
    + intros w' t'. cbn. rewrite lookup_delete_Some. naive_solver.
Qed.

(** No thread is inside of a call and no pointer is left. *)
Definition quiet (s : sys) : Prop := forall t, (pcs s t = Idle \/ pcs s t = Exited) /\ ptrs s t = None.

Lemma destroy_ok s : inv s -> quiet s -> exists s', destroy s = Ok s' /\ heap s' = ∅.
Proof.
  intros I Hq. destruct (free_all_ok (_wrappers s) s) as (s' & E & Hs'); [apply (inv_nodup s I)| | |].
  - intros w. split; [|apply (inv_listed s I)]. intros Hw. destruct (inv_known s I w Hw) as [|(t & Ht)]; [done|].
    destruct (Hq t) as ([E|E] & _); by rewrite E in Ht.
  - intros w t [Ht|(i & Ht)]%(inv_mutex s I); destruct (Hq t) as ([E|E] & Hp); (by rewrite E in Ht) || congruence.
  - exists (set_wrappers [] s'). unfold destroy. by rewrite E.
Qed.

(** C16: whatever the threads do and whatever the callbacks compute, no step
    touches a wrapper that was freed, unlocks a mutex it does not hold or
    destroys a locked one; a callback works on the background instance, alone,
    and no pointer of [Read] is to that instance; and when all calls have
    ended the destructor frees every wrapper. *)
Theorem doubly_buffered_safe created_key data s : reachable (fun _ => True) created_key data s ->
  (forall t c, step t c s <> Some Undefined) /\
  (forall t bg, calling (pcs s t) = Some bg ->
     bg = negb (_index s) /\ (forall t' w i, ptrs s t' = Some (w, i) -> i = negb bg) /\
     (forall t', is_Some (calling (pcs s t')) -> t' = t)) /\
  (quiet s -> exists s', destroy s = Ok s' /\ heap s' = ∅).
Proof.
  intros H%reachable_invariant. split_and!.
  - intros t c Hs. by destruct (inv_step s t c _ H Hs) as [(? & ? & _)|(? & ? & ? & ? & _)].
  - intros t bg. by apply calling_alone.
  - by apply destroy_ok.
Qed.

(** ** One value that is read and modified atomically *)

(** What the threads see: the value, the value that each pointer keeps, and
    what each [Modify] that has taken effect will return. *)
Record spec := mk_spec { value : T; kept : Z -> option T; owed : Z -> option Z }.

Inductive spec_step : event -> spec -> spec -> Prop :=
| spec_read t v k o : k t = None -> spec_step (ERead t v) (mk_spec v k o) (mk_spec v (<[t := Some v]> k) o)
| spec_look t x v k o : k t = Some x -> spec_step (ELook t x) (mk_spec v k o) (mk_spec v k o)
| spec_end t v k o : is_Some (k t) -> spec_step (EEnd t) (mk_spec v k o) (mk_spec v (<[t := None]> k) o)
| spec_fail t sp : spec_step (EFail t) sp sp
| spec_publish t fn ret v v' k o : o t = None -> fn v v = (v', ret) -> ret <> 0 ->
    spec_step (EPublish t fn ret) (mk_spec v k o) (mk_spec v' k (<[t := Some ret]> o))
| spec_refuse t fn v k o : o t = None -> fn v v = (v, 0) -> spec_step (ERefuse t fn) (mk_spec v k o) (mk_spec v k (<[t := Some 0]> o))
| spec_return t ret v k o : o t = Some ret -> spec_step (EReturn t ret) (mk_spec v k o) (mk_spec v k (<[t := None]> o)).

Inductive spec_run (sp : spec) : list event -> spec -> Prop :=
| spec_run_nil : spec_run sp [] sp
| spec_run_snoc es e sp' sp'' : spec_run sp es sp' -> spec_step e sp' sp'' -> spec_run sp (es ++ [e]) sp''.

(** A callback that leaves the instance alone when it returns 0, and that does
    to the second instance, with the first one as foreground, what it did to
    the first one; a callback of [Modify] satisfies the latter always. *)
Definition well_behaved (fn : callback) : Prop :=
  forall v v' ret, fn v v = (v', ret) -> if ret =? 0 then v' = v else fn v v' = (v', ret).

Lemma modify_well_behaved (f : T -> T * Z) : (forall v v', f v = (v', 0) -> v' = v) -> well_behaved (fun bg _ => f bg).
Proof. intros H v v' ret E. case_if; zbool; [subst; by apply H|done]. Qed.

Definition debt (p : pc) : option Z :=
  match p with
  | WrappersLock _ _ ret | WaitLock _ _ ret _ | WaitUnlock _ _ ret _ _ | WrappersUnlock _ _ ret | SecondCall _ _ ret | ModifyUnlock ret => Some ret
  | _ => None
  end.

(** How the instances differ while a modification is under way. *)
Definition phase (d : bool -> T) (p : pc) : Prop :=
  match p with
  | LoadBackground _ | FirstCall _ _ | ModifyUnlock _ => d false = d true
  | StoreIndex fn bg ret => fn (d (negb bg)) (d (negb bg)) = (d bg, ret) /\ ret <> 0
  | WrappersLock fn bg ret | WaitLock fn bg ret _ | WaitUnlock fn bg ret _ _ | WrappersUnlock fn bg ret | SecondCall fn bg ret =>
      fn (d bg) (d bg) = (d (negb bg), ret) /\ ret <> 0
  | _ => True
  end.

Definition callback_of (p : pc) : option callback :=
  match p with
  | ModifyLock fn | LoadBackground fn | FirstCall fn _ | StoreIndex fn _ _ | WrappersLock fn _ _ | WaitLock fn _ _ _ | WaitUnlock fn _ _ _ _
  | WrappersUnlock fn _ _ | SecondCall fn _ _ => Some fn
  | _ => None
  end.

Record sim (s : sys) (sp : spec) : Prop := {
  sim_value : value sp = _data s (_index s);
  sim_kept : forall t, kept sp t = (fun p => _data s (snd p)) <$> ptrs s t;
  sim_owed : forall t, owed sp t = debt (pcs s t);
  sim_phase : forall t, phase (_data s) (pcs s t);
  sim_free : _modify_mutex s = None -> _data s false = _data s true;
  sim_callback : forall t fn, callback_of (pcs s t) = Some fn -> well_behaved fn;
}.

Lemma sim_start created_key v : sim (start created_key (fun _ => v)) (mk_spec v (fun _ => None) (fun _ => None)).
Proof. by constructor. Qed.

(** A step that leaves the instances, the index and the pointers. *)
Lemma sim_frame s s' sp t p : sim s sp -> pcs s' = <[t := p]> (pcs s) -> _data s' = _data s -> _index s' = _index s -> ptrs s' = ptrs s ->
  debt p = debt (pcs s t) -> (phase (_data s) (pcs s t) -> phase (_data s) p) -> (_modify_mutex s' = None -> _data s false = _data s true) ->
  (forall fn, callback_of p = Some fn -> well_behaved fn) -> sim s' sp.
Proof.
  intros S Ep Ed Ei Er Hd Hp Hf Hc. constructor; rewrite ?Ep, ?Ed, ?Ei, ?Er.
  - apply (sim_value s sp S).
  - apply (sim_kept s sp S).
  - intros t'. rewrite (sim_owed s sp S). by upd.
  - intros t'. upd; [apply Hp, (sim_phase s sp S)|apply (sim_phase s sp S)].
  - done.
  - intros t' fn Ht. upd; [by apply Hc|by apply (sim_callback s sp S t')].
Qed.

Definition follows (s s' : sys) (sp : spec) : Prop :=
  exists sp', (log s' = log s /\ sp' = sp \/ exists e, log s' = log s ++ [e] /\ spec_step e sp sp') /\ sim s' sp'.

(** Steps of [sim_frame], silent or with [EFail]. *)
Ltac silent S Et :=
  eexists; split; [by left|]; eapply (sim_frame _ _ _ _ _ S); [cbn; reflexivity|done..| | | |]; rewrite ?Et; cbn;
  try done; try (intros; by apply (sim_free _ _ S)); try (naive_solver; fail).

Lemma sim_same s s' sp : sim s sp -> pcs s' = pcs s -> _data s' = _data s -> _index s' = _index s -> ptrs s' = ptrs s ->
  _modify_mutex s' = _modify_mutex s -> sim s' sp.
Proof. intros [] Ep Ed Ei Er Em. constructor; by rewrite ?Ep, ?Ed, ?Ei, ?Er, ?Em. Qed.

Lemma fails_follows s sp t : sim s sp -> follows s (emit (EFail t) s) sp.
Proof. intros S. exists sp. split; [right; eexists; split; [done|constructor]|by apply (sim_same s)]. Qed.

Lemma follows_fail s s' sp t : follows s s' sp -> log s' = log s -> follows s (emit (EFail t) s') sp.
Proof.
  intros (sp' & Hl & S) E. destruct Hl as [(_ & ->)|(e & El & _)]; [|rewrite E in El; apply (f_equal length) in El; rewrite length_app in El; cbn in El; lia].
  exists sp. split; [right; eexists; split; [by cbn; rewrite E|constructor]|by apply (sim_same s')].
Qed.

Lemma sim_idle_step s s' sp t c : inv s -> sim s sp -> allows well_behaved c -> pcs s t = Idle -> step t c s = Some (Ok s') -> follows s s' sp.
Proof.
  intros I S Hc Et. unfold step. rewrite Et. destruct c as [a| | |fn| |b]; intros Hr; cbn in Hr.
  - injection Hr as <-. unfold begin_read. destruct (negb _); [by apply fails_follows|]. destruct (tls s t); [silent S Et|].
    destruct a; [silent S Et|by apply fails_follows].
  - destruct (ptrs s t) as [[w i]|] eqn:Ep; [|done]. injection Hr as <-. exists sp. split; [|by apply (sim_same s)].
    right. eexists. split; [done|]. destruct sp as [v k o]. constructor. pose proof (sim_kept _ _ S t) as Hk. cbn in Hk. by rewrite Hk, Ep.
  - destruct (ptrs s t) as [[w i]|] eqn:Ep; [|done]. destruct (unlock_wrapper_ok s t w I ltac:(eauto)) as (Hh & Eu).
    cbn in Hr. rewrite Eu in Hr. injection Hr as <-. destruct sp as [v k o]. pose proof (sim_kept _ _ S t) as Hk. cbn in Hk. rewrite Ep in Hk.
    eexists. split; [right; eexists; split; [done|by constructor; rewrite Hk]|].
    constructor; cbn; [apply (sim_value _ _ S)| |apply (sim_owed _ _ S)|apply (sim_phase _ _ S)|apply (sim_free _ _ S)|apply (sim_callback _ _ S)].
    intros t'. upd; [done|apply (sim_kept _ _ S)].
  - injection Hr as <-. silent S Et.
  - destruct (ptrs s t) eqn:Ep; [done|]. injection Hr as <-. unfold exit_thread. destruct (tls s t); silent S Et.
  - done.
Qed.

Lemma sim_read_step s s' sp t b : inv s -> sim s sp -> in_modify (pcs s t) = false -> pcs s t <> Idle -> step t (Go b) s = Some (Ok s') -> follows s s' sp.
Proof.
  intros I S Hm Hi. unfold step. destruct (pcs s t) eqn:Et; try done; intros Hr; clear Hm Hi.
  - unfold lock_wrappers in Hr. destruct (_wrappers_mutex s) eqn:Ew; [done|]. injection Hr as <-. silent S Et.
  - injection Hr as <-. destruct b; silent S Et.
  - rewrite unlock_wrappers_ok in Hr by (by rewrite ?Et). injection Hr as <-. destruct pushed; silent S Et.
  - injection Hr as <-. destruct b; [silent S Et|]. apply follows_fail; [silent S Et|done].
  - unfold lock_wrapper in Hr. destruct (heap s !! w) as [[?|]|]; [done| |done]. injection Hr as <-. silent S Et.
  - injection Hr as <-. pose proof (inv_pc s I t) as Hok. unfold pc_ok in Hok. rewrite Et in Hok. destruct Hok as (_ & Hp).
    destruct sp as [v k o]. pose proof (sim_kept _ _ S) as Hk. pose proof (sim_value _ _ S) as Hv. cbn in Hk, Hv. rewrite <- Hv.
    eexists. split; [right; eexists; split; [done|constructor; by rewrite Hk, Hp]|]. constructor; cbn.
    + done.
    + intros t'. upd; [done|apply Hk].
    + intros t'. pose proof (sim_owed _ _ S t') as Ho. cbn in Ho. rewrite Ho. upd; [by rewrite Et|done].
    + intros t'. upd; [done|apply (sim_phase _ _ S)].
    + apply (sim_free _ _ S).
    + intros t' fn Hc. upd; [done|by apply (sim_callback _ _ S t')].
  - unfold lock_wrappers in Hr. destruct (_wrappers_mutex s) eqn:Ew; [done|]. injection Hr as <-. silent S Et.
  - injection Hr as <-. silent S Et.
  - rewrite unlock_wrappers_ok in Hr by (by rewrite ?Et). injection Hr as <-. silent S Et.
  - unfold free_wrapper in Hr. case_bool_decide; [|done]. injection Hr as <-. destruct exits; cbn; [silent S Et|].
    apply follows_fail; [silent S Et|done].
  - unfold lock_modify in Hr. destruct (_modify_mutex s) eqn:Ew; [done|]. injection Hr as <-. silent S Et.
    intros fn' [= <-]. apply (sim_callback _ _ S t). by rewrite Et.
Qed.

(** A callback changes the background instance, to which no pointer is. *)
Lemma kept_others s t bg x : inv s -> calling (pcs s t) = Some bg ->
  forall t', (fun p : Z * bool => <[bg := x]> (_data s) (snd p)) <$> ptrs s t' = (fun p => _data s (snd p)) <$> ptrs s t'.
Proof.
  intros I Hc t'. destruct (calling_alone s t bg I Hc) as (_ & Hp & _). destruct (ptrs s t') as [[w i]|] eqn:Ep; [|done].
  cbn. rewrite (Hp t' w i Ep). rewrite fn_lookup_insert_ne; [done|by destruct bg].
Qed.

Lemma phase_others s t d : inv s -> in_modify (pcs s t) = true -> forall t', t <> t' -> phase d (pcs s t').
Proof.
  intros I Ht t' Hne. destruct (in_modify (pcs s t')) eqn:E; [by destruct Hne; apply (sole_in_modify s)|]. by destruct (pcs s t').
Qed.

(** A step of the modification that changes the instances, the index or the
    value. *)
Lemma sim_modify s s' t p v v' k o o' : inv s -> sim s (mk_spec v k o) -> in_modify (pcs s t) = true -> pcs s' = <[t := p]> (pcs s) -> ptrs s' = ptrs s ->
  v' = _data s' (_index s') ->
  (forall t', (fun p => _data s' (snd p)) <$> ptrs s t' = (fun p => _data s (snd p)) <$> ptrs s t') ->
  (forall t', o' t' = debt (<[t := p]> (pcs s) t')) -> phase (_data s') p -> (_modify_mutex s' = None -> _data s' false = _data s' true) ->
  (forall fn, callback_of p = Some fn -> callback_of (pcs s t) = Some fn) -> sim s' (mk_spec v' k o').
Proof.
  intros I S Hin Ep Er Hv Hk Ho Hp Hf Hc. constructor; cbn; rewrite ?Ep, ?Er; try done.
  - intros t'. rewrite Hk. apply (sim_kept _ _ S).
  - intros t'. destruct (decide (t = t')) as [<-|Hne]; [by rewrite fn_lookup_insert|]. rewrite fn_lookup_insert_ne by done.
    by apply (phase_others s t).
  - intros t' fn. upd; intros Hfn; [apply (sim_callback _ _ S t'); by apply Hc|by apply (sim_callback _ _ S t')].
Qed.

Lemma owed_kept s t p v k o : sim s (mk_spec v k o) -> debt p = debt (pcs s t) -> forall t', o t' = debt (<[t := p]> (pcs s) t').
Proof. intros S E t'. pose proof (sim_owed _ _ S t') as Ho. cbn in Ho. rewrite Ho. by upd. Qed.

Lemma owed_set s t p v k o : sim s (mk_spec v k o) -> forall t', <[t := debt p]> o t' = debt (<[t := p]> (pcs s) t').
Proof. intros S t'. upd; [done|apply (sim_owed _ _ S)]. Qed.

Lemma sim_modify_step s s' sp t b : inv s -> sim s sp -> in_modify (pcs s t) = true -> step t (Go b) s = Some (Ok s') -> follows s s' sp.
Proof.
  intros I S Hin. pose proof (proj1 (inv_modify s I t) Hin) as Hmx. pose proof (sim_phase _ _ S t) as Hph. pose proof (sim_callback _ _ S t) as Hwb. pose proof (inv_pc s I t) as Hok. unfold pc_ok in Hok.
  unfold step. destruct (pcs s t) eqn:Et; try done; intros Hr; cbn [callback_of] in Hwb.
  - injection Hr as <-. silent S Et.
  - destruct (call fn bg s) as [s1 ret] eqn:Ec. injection Hr as <-. unfold call in Ec. cbn in Hph.
    assert (_data s (negb bg) = _data s bg) as Ed by (by destruct bg). rewrite Ed in Ec.
    destruct (fn (_data s bg) (_data s bg)) as [x r] eqn:Ef. injection Ec as <- ->. pose proof (Hwb fn eq_refl _ _ _ Ef) as Hx.
    destruct sp as [v k o]. pose proof (sim_value _ _ S) as Hv. cbn in Hv. subst bg. rewrite negb_involutive in Ed.
    assert (o t = None) as Hot by (pose proof (sim_owed _ _ S t) as Ho; cbn in Ho; by rewrite Ho, Et).
    pose proof (kept_others s t (negb (_index s)) x I) as Hk. rewrite Et in Hk. specialize (Hk eq_refl).
    destruct (ret =? 0) eqn:Er; zbool.
    + subst ret x. eexists. split; [right; eexists; split; [done|apply spec_refuse; [done|by rewrite Hv, Ed]]|].
      eapply (sim_modify s _ t (ModifyUnlock 0) v); cbn; rewrite ?Et; try done.
      * rewrite fn_lookup_insert_ne; [done|by destruct (_index s)].
      * by apply (owed_set s t (ModifyUnlock 0) v k).
      * destruct (_index s); cbn; by rewrite fn_lookup_insert, fn_lookup_insert_ne.
      * intros _. destruct (_index s); cbn; by rewrite fn_lookup_insert, fn_lookup_insert_ne.
    + eexists. split; [by left|]. eapply (sim_modify s _ t (StoreIndex fn (negb (_index s)) ret) v); cbn; rewrite ?Et; try done.
      * rewrite fn_lookup_insert_ne; [done|by destruct (_index s)].
      * apply (owed_kept s t _ v k); [done|by rewrite Et].
      * rewrite fn_lookup_insert, fn_lookup_insert_ne, negb_involutive by (by destruct (_index s)). by rewrite <- Ed in Ef.
      * congruence.
  - injection Hr as <-. cbn in Hph. destruct Hph as (Ef & Hret). destruct sp as [v k o]. pose proof (sim_value _ _ S) as Hv. cbn in Hv.
    assert (o t = None) as Hot by (pose proof (sim_owed _ _ S t) as Ho; cbn in Ho; by rewrite Ho, Et).
    subst bg. rewrite negb_involutive, <- Hv in Ef. eexists. split; [right; eexists; split; [done|by apply (spec_publish _ _ _ _ (_data s (negb (_index s))))]|].
    eapply (sim_modify s _ t (WrappersLock fn (negb (negb (_index s))) ret) v); cbn; rewrite ?Et; try done.
    + by apply (owed_set s t (WrappersLock fn (negb (negb (_index s))) ret) v k).
    + by rewrite negb_involutive, <- Hv.
    + congruence.
  - unfold lock_wrappers in Hr. destruct (_wrappers_mutex s) eqn:Ew; [done|]. injection Hr as <-. silent S Et.
  - destruct (_wrappers s !! i) as [w|]; [|injection Hr as <-; silent S Et]. unfold lock_wrapper in Hr. destruct (heap s !! w) as [[?|]|]; [done| |done].
    injection Hr as <-. silent S Et.
  - unfold unlock_wrapper in Hr. case_bool_decide; [|done]. injection Hr as <-. silent S Et.
  - unfold unlock_wrappers in Hr. case_bool_decide; [|done]. injection Hr as <-. silent S Et.
  - destruct (call fn bg s) as [s1 ret2] eqn:Ec. unfold call in Ec. cbn in Hph. destruct Hph as (Ef & Hret).
    pose proof (Hwb fn eq_refl _ _ _ Ef) as Hx. rewrite (proj2 (Z.eqb_neq _ _)) in Hx by done. rewrite Hx in Ec. injection Ec as <- <-.
    unfold check in Hr. rewrite Z.eqb_refl in Hr. injection Hr as <-. destruct sp as [v k o]. pose proof (sim_value _ _ S) as Hv. cbn in Hv. subst bg.
    rewrite negb_involutive in *. eexists. split; [by left|].
    pose proof (kept_others s t (negb (_index s)) (_data s (_index s)) I) as Hk. rewrite Et in Hk. specialize (Hk eq_refl).
    eapply (sim_modify s _ t (ModifyUnlock ret) v); cbn; rewrite ?Et; try done.
    + rewrite fn_lookup_insert_ne; [done|by destruct (_index s)].
    + apply (owed_kept s t _ v k); [done|by rewrite Et].
    + destruct (_index s); cbn; by rewrite fn_lookup_insert, fn_lookup_insert_ne.
    + congruence.
  - unfold unlock_modify in Hr. case_bool_decide; [|done]. injection Hr as <-. destruct sp as [v k o]. pose proof (sim_owed _ _ S t) as Ho. cbn in Ho. rewrite Et in Ho.
    eexists. split; [right; eexists; split; [done|by apply spec_return]|]. eapply (sim_modify s _ t Idle v); cbn; rewrite ?Et; try done.
    + apply (sim_value _ _ S).
    + by apply (owed_set s t Idle v k).
Qed.

Lemma sim_step s s' sp t c : inv s -> sim s sp -> allows well_behaved c -> step t c s = Some (Ok s') -> follows s s' sp.
Proof.
  intros I S Ha Hr. destruct c as [a| | |fn| |b]; cycle 5.
  { destruct (in_modify (pcs s t)) eqn:Em; [by apply (sim_modify_step s s' sp t b)|]. apply (sim_read_step s s' sp t b); try done.
    intros Et. unfold step in Hr. by rewrite Et in Hr. }
  all: assert (pcs s t = Idle) as Et by (unfold step in Hr; by destruct (pcs s t)); by eapply sim_idle_step.
Qed.

Lemma reachable_sim created_key v s : reachable well_behaved created_key (fun _ => v) s ->
  exists sp, spec_run (mk_spec v (fun _ => None) (fun _ => None)) (log s) sp /\ sim s sp.
Proof.
  intros H. unfold reachable in H. apply rtc_ind_r with (P := fun s => inv s /\ exists sp, spec_run (mk_spec v (fun _ => None) (fun _ => None)) (log s) sp /\ sim s sp) in H;
    [by destruct H| |].
  - split; [apply inv_start|]. eexists. split; [constructor|apply sim_start].
  - intros s1 s2 _ (t & c & Ha & Hs) (I & sp & Hrun & S). split.
    + destruct (inv_step s1 t c _ I Hs) as [(s' & [= <-] & I')|(? & ? & ? & ? & _)]; done.
    + destruct (sim_step s1 s2 sp t c I S Ha Hs) as (sp' & Hl & S'). exists sp'. split; [|done].
      destruct Hl as [(-> & ->)|(e & -> & He)]; [done|by eapply spec_run_snoc].
Qed.

(** C9: with callbacks that treat both instances alike, the two instances
    refine one value: [Read] gets the value of the moment it loads the index
    and keeps it until the pointer is gone, [Modify] applies its callback
    once, at the flip, in one indivisible step, and returns what the callback
    returned there; the check of the second result never fails. *)
Theorem doubly_buffered_refines created_key v s : reachable well_behaved created_key (fun _ => v) s ->
  exists sp, spec_run (mk_spec v (fun _ => None) (fun _ => None)) (log s) sp /\ value sp = _data s (_index s) /\
    (forall t, kept sp t = (fun p => _data s (snd p)) <$> ptrs s t) /\
    (_modify_mutex s = None -> _data s false = _data s true) /\ forall t c, step t c s <> Some Abort.
Proof.
  intros H. pose proof (reachable_invariant _ _ _ _ H) as I. destruct (reachable_sim created_key v s H) as (sp & Hrun & S). exists sp.
  split_and!; [done|apply (sim_value _ _ S)|apply (sim_kept _ _ S)|apply (sim_free _ _ S)|].
  intros t c Hs. destruct (inv_step s t c _ I Hs) as [(? & ? & _)|(fn & bg & ret & _ & Et & Hne)]; [done|]. apply Hne.
  pose proof (sim_phase _ _ S t) as Hph. pose proof (sim_callback _ _ S t fn) as Hwb. rewrite Et in Hph, Hwb. destruct Hph as (Ef & Hret).
  pose proof (Hwb eq_refl _ _ _ Ef) as Hx. rewrite (proj2 (Z.eqb_neq _ _)) in Hx by done. unfold call. by rewrite Hx.
Qed.

(** ** No deadlock *)

(** Some call, or the destructor of some pointer, can take its next step. *)
Definition runs (s : sys) : Prop := exists t c r, (pcs s t <> Idle \/ c = EndRead) /\ step t c s = Some r.

Section progress.
Context (s : sys) (I : inv s) (no_nesting : forall t, is_Some (ptrs s t) -> pcs s t = Idle).

Lemma runs_go t r : pcs s t <> Idle -> step t (Go true) s = Some r -> runs s.
Proof. intros Ht Hr. exists t, (Go true), r. tauto. Qed.

Ltac advance t Et := eapply (runs_go t); [by rewrite Et|]; unfold step, lock_wrappers, lock_modify, lock_wrapper; rewrite Et.

Lemma wrapper_progress w : is_Some (heap s !! w) -> heap s !! w = Some None \/ runs s.
Proof using All.
  intros ([h|] & Eh); [|by left]. right. apply (inv_mutex s I) in Eh as [El|(i & Ep)].
  - destruct (pcs s h) eqn:Et; try done; by advance h Et.
  - pose proof (no_nesting h ltac:(by rewrite Ep)) as Et. eexists h, EndRead, _. split; [by right|]. unfold step. rewrite Et, Ep. reflexivity.
Qed.

Lemma wait_progress t fn bg ret i : pcs s t = WaitLock fn bg ret i -> runs s.
Proof using All.
  intros Et. destruct (_wrappers s !! i) as [w|] eqn:Ew.
  - destruct (wrapper_progress w) as [Eh|]; [apply (inv_listed s I); by apply list_elem_of_lookup_2 in Ew| |done].
    advance t Et. by rewrite Ew, Eh.
  - advance t Et. by rewrite Ew.
Qed.

Lemma list_progress : _wrappers_mutex s = None \/ runs s.
Proof using All.
  destruct (_wrappers_mutex s) as [h|] eqn:Em; [|by left]. right. apply (inv_wrappers s I) in Em.
  destruct (pcs s h) eqn:Et; try done; try (by eapply wait_progress); by advance h Et.
Qed.

Lemma modify_progress : _modify_mutex s = None \/ runs s.
Proof using All.
  destruct (_modify_mutex s) as [h|] eqn:Em; [|by left]. right. apply (inv_modify s I) in Em.
  destruct (pcs s h) eqn:Et; try done; try (by eapply wait_progress).
  all: try (advance h Et; reflexivity).
  all: try (advance h Et; rewrite (surjective_pairing (call fn bg s)); reflexivity).
  destruct list_progress as [El|]; [|done]. advance h Et. by rewrite El.
Qed.

Lemma call_progress t : pcs s t <> Idle -> pcs s t <> Exited -> runs s.
Proof using All.
  intros Hi He. pose proof (inv_pc s I t) as Hok. unfold pc_ok in Hok. destruct (pcs s t) eqn:Et; try done; try (by eapply wait_progress).
  all: try (advance t Et; reflexivity).
  all: try (advance t Et; rewrite (surjective_pairing (call fn bg s)); reflexivity).
  - destruct list_progress as [El|]; [|done]. advance t Et. by rewrite El.
  - destruct (wrapper_progress w) as [Eh|]; [apply (inv_owned s I t); by left| |done].
    advance t Et. by rewrite Eh.
  - destruct list_progress as [El|]; [|done]. advance t Et. by rewrite El.
  - destruct modify_progress as [El|]; [|done]. advance t Et. by rewrite El.
  - destruct list_progress as [El|]; [|done]. advance t Et. by rewrite El.
Qed.

End progress.

(** C36: as long as no thread calls [Read] or [Modify] while it holds a
    pointer, the threads never block each other for good: when some thread is
    inside of a call, a thread inside of a call or the end of a read can take
    its next step. *)
Theorem doubly_buffered_progress created_key data s t : reachable (fun _ => True) created_key data s ->
  (forall t, is_Some (ptrs s t) -> pcs s t = Idle) -> pcs s t <> Idle -> pcs s t <> Exited ->
  exists t' c r, (pcs s t' <> Idle \/ c = EndRead) /\ step t' c s = Some r.
Proof. intros I%reachable_invariant Hn. by apply call_progress. Qed.

Lemma exec_reachable allowed created_key data sched s : Forall (fun x => allows allowed (snd x)) sched ->
  exec sched (start created_key data) = Some (Ok s) -> reachable allowed created_key data s.
Proof.
  unfold reachable. generalize (start created_key data). induction sched as [|[t c] sched IH]; intros s0 Ha Hs; cbn [exec] in Hs.
  - injection Hs as <-. done.
  - apply Forall_cons in Ha as (Hc & Ha). destruct (step t c s0) as [[s1| |]|] eqn:E; try done.
    apply rtc_l with s1; [by exists t, c|by apply IH].
Qed.

End dbd.

(** Thread 1 reads for the first time; thread 2 adds 7 while it reads. *)
Definition add7 : callback (T := Z) := fun bg _ => (bg + 7, 1).
Definition first_read : list (Z * choice (T := Z)) := (1, Read true) :: replicate 6 (1, Go true).
Definition overlap : list (Z * choice (T := Z)) := first_read ++ [(2, Modify add7); (2, Go true); (2, Go true)].
Definition flipped : list (Z * choice (T := Z)) := overlap ++ replicate 3 (2, Go true).
Definition finished : list (Z * choice (T := Z)) := flipped ++ [(1, Look); (1, EndRead)] ++ replicate 6 (2, Go true) ++ [(1, Read true); (1, Go true); (1, Go true); (1, Look)].

Definition after (sched : list (Z * choice (T := Z))) : sys (T := Z) :=
  match exec sched (start true (fun _ => 5)) with Some (Ok s) => s | _ => start true (fun _ => 5) end.

Lemma after_exec sched : match exec sched (start true (fun _ => 5)) with Some (Ok _) => true | _ => false end = true ->
  exec sched (start true (fun _ => 5)) = Some (Ok (after sched)).
Proof. unfold after. by destruct (exec _ _) as [[]|]. Qed.

Lemma add7_well_behaved : well_behaved add7.
Proof. apply modify_well_behaved. by intros v v' [=]. Qed.

Lemma doubly_buffered_safe_witness :
  ptrs (after overlap) 1 = Some (0, false) /\ calling (pcs (after overlap) 2) = Some true /\
  (forall t c, step t c (after overlap) <> Some Undefined).
Proof.
  split; [vm_compute; reflexivity|]. split; [vm_compute; reflexivity|].
  apply (doubly_buffered_safe true (fun _ => 5)). apply (exec_reachable _ _ _ overlap); [repeat constructor|].
  apply after_exec. vm_compute. reflexivity.
Defined.

Lemma doubly_buffered_refines_witness :
  log (after finished) =
    [ERead 1 5; EPublish 2 add7 1; ELook 1 5; EEnd 1; EReturn 2 1; ERead 1 12; ELook 1 12] /\
  exists sp, spec_run (mk_spec 5 (fun _ => None) (fun _ => None)) (log (after finished)) sp /\ value sp = _data (after finished) (_index (after finished)).
Proof.
  split; [vm_compute; reflexivity|].
  destruct (doubly_buffered_refines true 5 (after finished)) as (sp & Hr & Hv & _); [|by exists sp].
  apply (exec_reachable _ _ _ finished); [repeat constructor; apply add7_well_behaved|]. apply after_exec. vm_compute. reflexivity.
Defined.

(** Thread 2 waits for the wrapper of thread 1, which can end its read. *)
Lemma doubly_buffered_progress_witness :
  step 2 (Go true) (after flipped) = None /\
  exists t' c r, (pcs (after flipped) t' <> Idle \/ c = EndRead) /\ step t' c (after flipped) = Some r.
Proof.
  split; [vm_compute; reflexivity|]. apply (doubly_buffered_progress true (fun _ => 5) _ 2).
  - apply (exec_reachable _ _ _ flipped); [repeat constructor|]. apply after_exec. vm_compute. reflexivity.
  - assert (ptrs (after flipped) = <[1 := Some (0, false)]> (fun _ => None)) as -> by (vm_compute; reflexivity).
    intros t Ht. destruct (decide (1 = t)) as [<-|Hne]; [vm_compute; reflexivity|]. rewrite fn_lookup_insert_ne in Ht by done. by destruct Ht.
  - vm_compute. discriminate.
  - vm_compute. discriminate.
Defined.

(** The first [Read] of a thread needs the list of wrappers, which [Modify]
    holds while it waits for the readers: a read in another thread blocks
    it. *)
Example first_read_blocked : step 3 (Go true) (after (flipped ++ [(3, Read true)])) = None.
Proof. vm_compute. reflexivity. Qed.

(** [Modify] in a thread that holds a pointer waits for itself. *)
Example nested_modify_blocked : step 1 (Go true) (after (first_read ++ (1, Modify add7) :: replicate 5 (1, Go true))) = None /\
  pcs (after (first_read ++ (1, Modify add7) :: replicate 5 (1, Go true))) 1 = WaitLock add7 false 1 0.
Proof. split; vm_compute; reflexivity. Qed.
