(* ===== verification/FiberSync.v ===== *)
(** * Waiting fibers: [flare/fiber/internal/waitable_event.cc], [mutex.cc],
      [fiber_cond.cc] and [flare/fiber/fiber_latch.cc]

    A waitable event is a number with a queue of waiters; fibers and pthreads
    wait as long as it has an expected value.  The file models one fiber mutex,
    one condition variable that is used with it and one latch, each on its own
    event, and any number of threads that lock, try to lock, lock with a
    deadline, unlock, wait, signal, broadcast and count down in any
    interleaving.  Every atomic access and every critical section of a
    [waiter_lock] is one step; timers fire and threads are interrupted at any
    time.  Atomic accesses are sequentially consistent.

    The contention profiler, the choice of a worker for a fiber that is made
    ready and the handshake on [current_waiter], which keeps the memory of a
    waiter alive, are left out. *)

From stdpp Require Import functions.
From S2P Require Import Prelude.
Local Open Scope Z_scope.

(** The events: [m->event], [c->seq] and the [_event] of the latch. *)
Inductive event := Mutex | Cond | Latch.
#[global] Instance event_eq_dec : EqDecision event.
Proof. solve_decision. Defined.

Record waitable_event := mk_event { value : Z; waiters : list Z }.

Inductive WaiterState := READY | TIMEDOUT | UNMATCHEDVALUE | INTERRUPTED.
#[global] Instance waiter_state_eq_dec : EqDecision WaiterState.
Proof. solve_decision. Defined.

Inductive errno := EWOULDBLOCK | EINTR | ETIMEDOUT | ESTOP.

(** The words of [MUTEX_LOCKED_RAW] and [MUTEX_CONTENDED_RAW]: [locked] is the
    low byte, [contended] the next one. *)
Definition FIBER_MUTEX_LOCKED : Z := 1.
Definition FIBER_MUTEX_CONTENDED : Z := 257.

(** What a call of [waitable_event_wait] is for: [mutex_lock_contended] of
    [fiber_mutex_lock] or, timed, of [fiber_mutex_timedlock]; the wait of
    [fiber_cond_wait] and its [fiber_mutex_lock_contended], which keeps [rc1];
    the wait of the latch. *)
Inductive why :=
| ForLock (timed : bool)
| ForCond (timed : bool)
| ForRelock (rc1 : option errno)
| ForLatch (timed : bool).

Definition timed_of (w : why) : bool :=
  match w with ForLock b | ForCond b | ForLatch b => b | ForRelock _ => false end.

(** What follows a wake-up: nothing, or the wait of [fiber_cond_wait]. *)
Inductive after := Done | WaitCond (expected_seq : Z) (timed : bool).

Inductive pc :=
| Idle
| FastLock (timed : bool)                    (* [split->locked.exchange(1)] *)
| Exchange (w : why)                         (* [whole->exchange(FIBER_MUTEX_CONTENDED)] *)
| Check (e : event) (expected : Z) (w : why) (* the first load of [waitable_event_wait] *)
| Prepare (e : event) (expected : Z) (w : why) (* the deadline and the timer *)
| Enqueue (e : event) (expected : Z) (w : why) (* under [waiter_lock] *)
| Asleep (w : why) (can_time_out : bool)     (* descheduled, or in [futex_wait_private] *)
| FutexTimedOut (w : why)                    (* of a pthread: before [sig] is loaded *)
| Awake (w : why)                            (* runs again *)
| UnlockExchange (k : after)                 (* [whole->exchange(0)] *)
| Dequeue (e : event) (k : after)            (* [waitable_event_wake], under [waiter_lock] *)
| DequeueAll (e : event)                     (* [waitable_event_wake_all] *)
| Requeue                                    (* [waitable_event_requeue] *)
| MakeReady (ts : list Z) (k : after)        (* the dequeued waiters *)
| CondLoad (timed : bool)                    (* loads [seq] *)
| CondBind (expected_seq : Z) (timed : bool) (* loads [m] *)
| CondExchange (expected_seq : Z) (timed : bool) (* [compare_exchange_strong] *)
| SignalAdd
| BroadcastLoad
| BroadcastAdd
| LatchLoad (timed : bool)
| LatchSub (sig : Z)
| LatchAdd (v : Z)
| LatchReset (v : Z).

Section sync.
(** Whether a thread waits as a pthread (a thread without workers, or a fiber
    on a pthread's stack) or as a fiber.  A thread without workers is never
    interrupted in the program; here it can be. *)
Context (is_pthread : Z -> bool).
#[local] Set Default Proof Using "is_pthread".

(** [bound]: the condition variable knows its mutex.  Of a thread: the program
    counter, whether it holds the mutex, and its waiter ([container],
    [waiter_state], whether its timer is scheduled, [sig] of a pthread) and
    [interrupted]. *)
Record sys := mk_sys {
  ev : event -> waitable_event;
  bound : bool;
  pcs : Z -> pc;
  holds : Z -> bool;
  container : Z -> option event;
  state : Z -> WaiterState;
  armed : Z -> bool;
  signalled : Z -> bool;
  interrupted : Z -> bool;
}.

Definition set_ev (e : event) (x : waitable_event) (s : sys) : sys :=
  mk_sys (<[e := x]> (ev s)) (bound s) (pcs s) (holds s) (container s) (state s) (armed s) (signalled s) (interrupted s).
Definition set_value (e : event) (v : Z) (s : sys) : sys := set_ev e (mk_event v (waiters (ev s e))) s.
Definition set_waiters (e : event) (l : list Z) (s : sys) : sys := set_ev e (mk_event (value (ev s e)) l) s.
Definition set_bound (s : sys) : sys :=
  mk_sys (ev s) true (pcs s) (holds s) (container s) (state s) (armed s) (signalled s) (interrupted s).
Definition set_pc (t : Z) (p : pc) (s : sys) : sys :=
  mk_sys (ev s) (bound s) (<[t := p]> (pcs s)) (holds s) (container s) (state s) (armed s) (signalled s) (interrupted s).
Definition set_holds (t : Z) (b : bool) (s : sys) : sys :=
  mk_sys (ev s) (bound s) (pcs s) (<[t := b]> (holds s)) (container s) (state s) (armed s) (signalled s) (interrupted s).
Definition set_container (t : Z) (c : option event) (s : sys) : sys :=
  mk_sys (ev s) (bound s) (pcs s) (holds s) (<[t := c]> (container s)) (state s) (armed s) (signalled s) (interrupted s).
Definition set_state (t : Z) (x : WaiterState) (s : sys) : sys :=
  mk_sys (ev s) (bound s) (pcs s) (holds s) (container s) (<[t := x]> (state s)) (armed s) (signalled s) (interrupted s).
Definition set_armed (t : Z) (b : bool) (s : sys) : sys :=
  mk_sys (ev s) (bound s) (pcs s) (holds s) (container s) (state s) (<[t := b]> (armed s)) (signalled s) (interrupted s).
Definition set_signalled (t : Z) (b : bool) (s : sys) : sys :=
  mk_sys (ev s) (bound s) (pcs s) (holds s) (container s) (state s) (armed s) (<[t := b]> (signalled s)) (interrupted s).
Definition set_interrupted (t : Z) (b : bool) (s : sys) : sys :=
  mk_sys (ev s) (bound s) (pcs s) (holds s) (container s) (state s) (armed s) (signalled s) (<[t := b]> (interrupted s)).

(** ** Waiting *)

(** A waiter that [waitable_event_wait] puts on its stack. *)
Definition new_waiter (t : Z) (s : sys) : sys := set_container t None (set_state t READY (set_armed t false (set_signalled t false s))).

(** The return of [waitable_event_wait]: 0 ([None]) or an error, and what the
    caller does with it. *)
Definition returned (t : Z) (w : why) (r : option errno) (s : sys) : sys :=
  let failed := match r with Some ETIMEDOUT | Some ESTOP => true | _ => false end in
  set_pc t (match w with
            | ForLock b => if failed then Idle else Exchange (ForLock b)
            | ForCond _ => Exchange (ForRelock (if failed then r else None))
            | ForRelock rc1 => if failed then Idle else Exchange (ForRelock rc1)
            | ForLatch b => if failed then Idle else LatchLoad b
            end) s.

Definition check_value (t : Z) (e : event) (expected : Z) (w : why) (s : sys) : sys :=
  if negb (value (ev s e) =? expected) then returned t w (Some EWOULDBLOCK) s
  else set_pc t (if timed_of w then Prepare e expected w else Enqueue e expected w) (new_waiter t s).

(** How the timer of a timed wait is prepared: the deadline is over, the timer
    thread has stopped, or the timer is scheduled. *)
Inductive deadline := Over | Stopped | Scheduled.

Definition prepare (t : Z) (d : deadline) (e : event) (expected : Z) (w : why) (s : sys) : sys :=
  match d with
  | Over => returned t w (Some ETIMEDOUT) s
  | Stopped => if is_pthread t then set_pc t (Enqueue e expected w) s else returned t w (Some ESTOP) s
  | Scheduled => set_pc t (Enqueue e expected w) (if is_pthread t then s else set_armed t true s)
  end.

Definition append (t : Z) (e : event) (s : sys) : sys := set_container t (Some e) (set_waiters e (waiters (ev s e) ++ [t]) s).

(** [wait_for_event], and the same of [event_wait_from_pthread]. *)
Definition enqueue (t : Z) (e : event) (expected : Z) (w : why) (s : sys) : sys :=
  if is_pthread t then
    if negb (value (ev s e) =? expected) then returned t w (Some EWOULDBLOCK) (set_interrupted t false s)
    else if interrupted s t then returned t w (Some EINTR) (set_interrupted t false s)
    else set_pc t (Asleep w (timed_of w)) (append t e s)
  else
    if negb (value (ev s e) =? expected) then set_pc t (Awake w) (set_state t UNMATCHEDVALUE s)
    else if bool_decide (state s t = READY) && negb (interrupted s t) then set_pc t (Asleep w (timed_of w)) (append t e s)
    else set_pc t (Awake w) s.

(** The waiter runs again: the end of [waitable_event_wait]. *)
Definition awake (t : Z) (w : why) (s : sys) : sys :=
  let r := if is_pthread t then (if interrupted s t then Some EINTR else None)
           else match state s t with
                | TIMEDOUT => Some ETIMEDOUT
                | UNMATCHEDVALUE => Some EWOULDBLOCK
                | _ => if interrupted s t then Some EINTR else None
                end in
  returned t w r (set_interrupted t false (set_armed t false s)).

(** [erase_from_event] for a waiter that is queued. *)
Definition erase (t : Z) (e : event) (s : sys) : sys := set_container t None (set_waiters e (filter (fun x => x <> t) (waiters (ev s e))) s).

(** The waiter is made ready: [wakeup_pthread], or a worker gets the fiber. *)
Definition make_ready (t : Z) (s : sys) : sys :=
  if is_pthread t then set_signalled t true s
  else match pcs s t with Asleep w _ => set_pc t (Awake w) s | _ => s end.

(** [erase_from_event(bw, true, x)], no-op when [container] is null. *)
Definition erase_and_wakeup (t : Z) (x : WaiterState) (s : sys) : sys :=
  match container s t with
  | None => s
  | Some e => make_ready t ((if is_pthread t then fun s => s else set_state t x) (erase t e s))
  end.

(** [wait_pthread] after a time-out of the futex. *)
Definition futex_timed_out (t : Z) (w : why) (s : sys) : sys :=
  let return_rc := returned t w (Some ETIMEDOUT) (set_interrupted t false s) in
  if signalled s t then return_rc
  else
    match container s t with
    | Some e => returned t w (Some ETIMEDOUT) (set_interrupted t false (erase t e s))
    | None => set_pc t (Asleep w false) s
    end.

(** ** Waking *)

Definition dequeue (t : Z) (e : event) (k : after) (s : sys) : sys :=
  match waiters (ev s e) with
  | [] => set_pc t (MakeReady [] k) s
  | front :: l => set_pc t (MakeReady [front] k) (set_container front None (set_waiters e l s))
  end.

(** [container.store(NULL)] for each of a list of waiters. *)
Definition dequeued (ts : list Z) (s : sys) : sys := foldr (fun t => set_container t None) s ts.
Definition requeued (ts : list Z) (e : event) (s : sys) : sys := foldr (fun t => set_container t (Some e)) s ts.

(** Pthreads first; of the fibers, the first one last and the others from the
    end. *)
Definition wake_order (l : list Z) : list Z :=
  let fibers := filter (fun t => is_pthread t = false) l in
  filter (fun t => is_pthread t = true) l ++ reverse (tail fibers) ++ take 1 fibers.

Definition dequeue_all (t : Z) (e : event) (s : sys) : sys :=
  set_pc t (MakeReady (wake_order (waiters (ev s e))) Done) (dequeued (waiters (ev s e)) (set_waiters e [] s)).

(** The first waiter of the condition variable is woken, the others wait for
    the mutex. *)
Definition requeue (t : Z) (s : sys) : sys :=
  match waiters (ev s Cond) with
  | [] => set_pc t Idle s
  | front :: l =>
      set_pc t (MakeReady [front] Done)
        (requeued l Mutex (set_container front None (set_waiters Mutex (waiters (ev s Mutex) ++ l) (set_waiters Cond [] s))))
  end.

(** The next call of an idle thread, or the next step of its call. *)
Inductive choice :=
| Lock (timed : bool)
| TryLock
| Unlock
| CondWait (timed : bool)
| Signal
| Broadcast
| LatchWait (timed : bool)
| LatchSignal (sig : Z)
| AddCount (v : Z)
| ResetLatch (v : Z)
| Go (d : deadline)
| TimeOut                                     (* the futex of a pthread times out *)
| Timer                                       (* the timer of the waiter fires *)
| Interrupt.                                  (* [fiber_worker::interrupt] *)

(** [split->locked.exchange(1)]: the previous byte and the new word. *)
Definition exchange_locked (v : Z) : Z * Z := (u8 v, Z.lor (Z.shiftl (Z.shiftr v 8) 8) 1).

Definition call (t : Z) (c : choice) (s : sys) : option sys :=
  match c with
  | Lock timed => Some (set_pc t (FastLock timed) s)
  | TryLock =>
      let '(prev, v) := exchange_locked (value (ev s Mutex)) in
      Some (if prev =? 0 then set_holds t true (set_value Mutex v s) else set_value Mutex v s)
  | Unlock => if holds s t then Some (set_pc t (UnlockExchange Done) s) else None
  | CondWait timed => if holds s t then Some (set_pc t (CondLoad timed) s) else None
  | Signal => Some (set_pc t SignalAdd s)
  | Broadcast => Some (set_pc t BroadcastLoad s)
  | LatchWait timed => Some (set_pc t (LatchLoad timed) s)
  | LatchSignal sig => Some (set_pc t (LatchSub sig) s)
  | AddCount v => Some (if v <=? 0 then s else set_pc t (LatchAdd v) s)
  | ResetLatch v => Some (if v <? 0 then s else set_pc t (LatchReset v) s)
  | _ => None
  end.

(** [whole->exchange(FIBER_MUTEX_CONTENDED) & FIBER_MUTEX_LOCKED] *)
Definition lock_contended (t : Z) (w : why) (s : sys) : sys :=
  let prev := value (ev s Mutex) in
  let s := set_value Mutex FIBER_MUTEX_CONTENDED s in
  if negb (Z.land prev FIBER_MUTEX_LOCKED =? 0) then set_pc t (Check Mutex FIBER_MUTEX_CONTENDED w) s
  else set_pc t Idle (set_holds t true s).

Definition unlock_exchange (t : Z) (k : after) (s : sys) : sys :=
  let prev := value (ev s Mutex) in
  let s := set_holds t false (set_value Mutex 0 s) in
  set_pc t (if prev =? FIBER_MUTEX_LOCKED then MakeReady [] k else Dequeue Mutex k) s.

(** ** [fiber_cond] and [fiber_latch], between two accesses *)

(** [compare_exchange_strong(expected_m, m)]; a failure returns EINVAL. *)
Definition cond_exchange (t expected : Z) (timed : bool) (s : sys) : sys :=
  if bound s then set_pc t Idle s else set_pc t (UnlockExchange (WaitCond expected timed)) (set_bound s).
Definition cond_bind (t expected : Z) (timed : bool) (s : sys) : sys :=
  set_pc t (if bound s then UnlockExchange (WaitCond expected timed) else CondExchange expected timed) s.
Definition cond_signal (t : Z) (s : sys) : sys := set_pc t (Dequeue Cond Done) (set_value Cond (s32 (value (ev s Cond) + 1)) s).
Definition cond_broadcast (t : Z) (s : sys) : sys := set_pc t Requeue (set_value Cond (s32 (value (ev s Cond) + 1)) s).

Definition latch_wait (t : Z) (timed : bool) (s : sys) : sys :=
  let seen_counter := value (ev s Latch) in
  set_pc t (if seen_counter <=? 0 then Idle else Check Latch seen_counter (ForLatch timed)) s.
Definition latch_signal (t sig : Z) (s : sys) : sys :=
  let prev := value (ev s Latch) in
  set_pc t (if sig <? prev then Idle else DequeueAll Latch) (set_value Latch (s32 (prev - sig)) s).
Definition latch_add_count (t v : Z) (s : sys) : sys := set_pc t Idle (set_value Latch (s32 (value (ev s Latch) + v)) s).
Definition latch_reset (t v : Z) (s : sys) : sys := set_pc t Idle (set_value Latch v s).

(** The step of a thread inside of a call. *)
Definition go (t : Z) (d : deadline) (s : sys) : option sys :=
  match pcs s t with
  | FastLock timed =>
      let '(prev, v) := exchange_locked (value (ev s Mutex)) in
      let s := set_value Mutex v s in
      Some (if prev =? 0 then set_pc t Idle (set_holds t true s) else set_pc t (Exchange (ForLock timed)) s)
  | Exchange w => Some (lock_contended t w s)
  | Check e expected w => Some (check_value t e expected w s)
  | Prepare e expected w => Some (prepare t d e expected w s)
  | Enqueue e expected w => Some (enqueue t e expected w s)
  | Asleep w _ => if signalled s t then Some (set_pc t (Awake w) s) else None
  | FutexTimedOut w => Some (futex_timed_out t w s)
  | Awake w => Some (awake t w s)
  | UnlockExchange k => Some (unlock_exchange t k s)
  | Dequeue e k => Some (dequeue t e k s)
  | DequeueAll e => Some (dequeue_all t e s)
  | Requeue => Some (requeue t s)
  | MakeReady (w :: ts) k => Some (set_pc t (MakeReady ts k) (make_ready w s))
  | MakeReady [] Done => Some (set_pc t Idle s)
  | MakeReady [] (WaitCond expected timed) => Some (set_pc t (Check Cond expected (ForCond timed)) s)
  | CondLoad timed => Some (set_pc t (CondBind (value (ev s Cond)) timed) s)
  | CondBind expected timed => Some (cond_bind t expected timed s)
  | CondExchange expected timed => Some (cond_exchange t expected timed s)
  | SignalAdd => Some (cond_signal t s)
  | BroadcastLoad => Some (set_pc t (if bound s then BroadcastAdd else Idle) s)
  | BroadcastAdd => Some (cond_broadcast t s)
  | LatchLoad timed => Some (latch_wait t timed s)
  | LatchSub sig => Some (latch_signal t sig s)
  | LatchAdd v => Some (latch_add_count t v s)
  | LatchReset v => Some (latch_reset t v s)
  | Idle => None
  end.

Ltac unfold_go := unfold go, cond_bind, cond_exchange, cond_signal, cond_broadcast, latch_wait, latch_signal, latch_add_count, latch_reset.
Tactic Notation "unfold_go" "in" hyp(H) := unfold go, cond_bind, cond_exchange, cond_signal, cond_broadcast, latch_wait, latch_signal, latch_add_count, latch_reset in H.

(** One step of, or for, thread [t]. *)
Definition step (t : Z) (c : choice) (s : sys) : option sys :=
  match c with
  | Go d => go t d s
  | TimeOut =>
      match pcs s t with
      | Asleep w true => if is_pthread t then Some (set_pc t (FutexTimedOut w) s) else None
      | _ => None
      end
  | Timer => if armed s t then Some (erase_and_wakeup t TIMEDOUT (set_armed t false s)) else None
  | Interrupt => Some (erase_and_wakeup t INTERRUPTED (set_interrupted t true s))
  | _ => match pcs s t with Idle => call t c s | _ => None end
  end.

(** [fiber_mutex_init], [fiber_cond_init] and the constructor of the latch. *)
Definition start (initial_count : Z) : sys :=
  mk_sys (fun e => mk_event (match e with Latch => initial_count | _ => 0 end) []) false (fun _ => Idle) (fun _ => false)
    (fun _ => None) (fun _ => READY) (fun _ => false) (fun _ => false) (fun _ => false).

(** ** The invariant *)

Definition home (w : why) : event :=
  match w with ForLock _ | ForRelock _ => Mutex | ForCond _ => Cond | ForLatch _ => Latch end.

(** A waiter of the condition variable can be moved to the mutex. *)
Definition may_wait (w : why) (e : event) : Prop := e = home w \/ (e = Mutex /\ home w = Cond).

Definition expects (e : event) (v : Z) : Prop :=
  match e with Mutex => v = FIBER_MUTEX_CONTENDED | Cond => True | Latch => 0 < v end.

Definition sleeping (p : pc) : bool := match p with Asleep _ _ | FutexTimedOut _ => true | _ => false end.
Definition ready_list (p : pc) : list Z := match p with MakeReady ts _ => ts | _ => [] end.

(** What a thread knows of itself: its program counter, whether it holds the
    mutex, and its waiter. *)
Definition local (t : Z) (bd : bool) (p : pc) (h : bool) (c : option event) (x : WaiterState) (a g : bool) : Prop :=
  (sleeping p = false -> c = None) /\ (is_Some c -> g = false) /\
  match p with
  | UnlockExchange _ | CondLoad _ | CondBind _ _ => h = true /\ a = false
  | CondExchange _ _ => h = true /\ bd = false /\ a = false
  | Exchange w => home w = Mutex /\ a = false
  | Check e v w => e = home w /\ expects e v /\ a = false
  | Prepare e v w => e = home w /\ expects e v /\ x = READY /\ g = false /\ timed_of w = true /\ a = false
  | Enqueue e v w => e = home w /\ expects e v /\ x = READY /\ g = false /\ (a = true -> is_pthread t = false /\ timed_of w = true)
  | Asleep w b =>
      (forall e, c = Some e -> may_wait w e) /\ x = READY /\ (b = true -> timed_of w = true) /\ (a = true -> is_pthread t = false /\ timed_of w = true) /\
      (is_pthread t = false -> g = false)
  | FutexTimedOut w => (forall e, c = Some e -> may_wait w e) /\ x = READY /\ timed_of w = true /\ is_pthread t = true /\ a = false
  | Awake w => (x = TIMEDOUT -> timed_of w = true /\ is_pthread t = false) /\ (a = true -> is_pthread t = false /\ timed_of w = true)
  | _ => a = false
  end.

Definition mutex_ok (s : sys) : Prop :=
  (value (ev s Mutex) = 0 \/ value (ev s Mutex) = FIBER_MUTEX_LOCKED \/ value (ev s Mutex) = FIBER_MUTEX_CONTENDED) /\
  (value (ev s Mutex) <> 0 <-> exists t, holds s t = true) /\
  (forall t t', holds s t = true -> holds s t' = true -> t = t').

Definition queues_ok (s : sys) : Prop :=
  (forall e, NoDup (waiters (ev s e))) /\ (forall t e, container s t = Some e <-> t ∈ waiters (ev s e)).

(** Every waiter that was taken from a queue is about to be made ready, once. *)
Definition ready_ok (s : sys) : Prop :=
  (forall t', NoDup (ready_list (pcs s t'))) /\
  (forall t' t, t ∈ ready_list (pcs s t') -> container s t = None /\ sleeping (pcs s t) = true /\ signalled s t = false) /\
  (forall t1 t2 t, t ∈ ready_list (pcs s t1) -> t ∈ ready_list (pcs s t2) -> t1 = t2) /\
  (forall t, sleeping (pcs s t) = true -> container s t = None -> signalled s t = true \/ exists t', t ∈ ready_list (pcs s t')).

Definition local_ok (s : sys) (t : Z) : Prop :=
  local t (bound s) (pcs s t) (holds s t) (container s t) (state s t) (armed s t) (signalled s t).

Record inv (s : sys) : Prop := {
  inv_mutex : mutex_ok s;
  inv_queues : queues_ok s;
  inv_ready : ready_ok s;
  inv_local : forall t, local_ok s t;
}.

Lemma sync_start_inv n : inv (start n).
Proof.
  constructor.
  - split_and!; cbn; [by left|naive_solver|done].
  - split; cbn; [intros e; constructor|]. intros t e. set_solver.
  - split_and!; cbn; [intros; constructor|set_solver|set_solver|done].
  - intros t. unfold local_ok, local. cbn. split_and!; [done|by intros [? ?]|done].
Qed.

Ltac upd :=
  repeat match goal with
  | H : context [@insert ?K ?V (?K -> ?V) (@fn_insert _ _ _) ?a ?x ?f ?b] |- _ =>
      destruct (decide (a = b)); [subst; rewrite !fn_lookup_insert in H|rewrite !fn_lookup_insert_ne in H by done]
  | |- context [@insert ?K ?V (?K -> ?V) (@fn_insert _ _ _) ?a ?x ?f ?b] =>
      destruct (decide (a = b)); [subst; rewrite !fn_lookup_insert|rewrite !fn_lookup_insert_ne by done]
  end.

(** A step of [t] that leaves the queues and the waiters of the others: the
    thread sleeps neither before nor after it and has nobody to make ready. *)
Lemma ready_frame s s' t p : ready_ok s -> (forall t', pcs s' t' = <[t := p]> (pcs s) t') -> (forall t', container s' t' = container s t') ->
  (forall t', t <> t' -> signalled s' t' = signalled s t') ->
  sleeping (pcs s t) = false -> sleeping p = false -> ready_list (pcs s t) = [] -> ready_list p = [] -> ready_ok s'.
Proof.
  intros (Hn & Hl & Hu & Hs) Ep Ec Eg H1 H2 H3 H4.
  assert (forall t', ready_list (pcs s' t') = ready_list (pcs s t')) as Er by (intros t'; rewrite Ep; upd; congruence).
  assert (forall t', sleeping (pcs s' t') = sleeping (pcs s t')) as Es by (intros t'; rewrite Ep; upd; congruence).
  split_and!.
  - intros t'. rewrite Er. apply Hn.
  - intros t' x Hx. rewrite Er in Hx. destruct (Hl t' x Hx) as (A & B & C). rewrite Es, Ec. split_and!; [done|done|].
    rewrite Eg; [done|]. intros ->. congruence.
  - intros t1 t2 x. rewrite !Er. apply Hu.
  - intros x Hx Hc. rewrite Es in Hx. rewrite Ec in Hc. destruct (Hs x Hx Hc) as [H|(t' & Ht')].
    + left. rewrite Eg; [done|]. intros ->. congruence.
    + right. exists t'. by rewrite Er.
Qed.

Lemma queues_frame s s' : queues_ok s -> (forall e, waiters (ev s' e) = waiters (ev s e)) -> (forall t, container s' t = container s t) -> queues_ok s'.
Proof. intros (Hn & Hq) Ew Ec. split; [intros e; by rewrite Ew|]. intros t e. by rewrite Ew, Ec. Qed.

Lemma mutex_frame s s' : mutex_ok s -> value (ev s' Mutex) = value (ev s Mutex) -> holds s' = holds s -> mutex_ok s'.
Proof. intros (Hv & Hh & Hu) Ev Eh. unfold mutex_ok. by rewrite Ev, Eh. Qed.

(** The threads that a step leaves as they are. *)
Definition same_thread (s s' : sys) (t : Z) : Prop :=
  pcs s' t = pcs s t /\ holds s' t = holds s t /\ container s' t = container s t /\ state s' t = state s t /\ armed s' t = armed s t /\
  signalled s' t = signalled s t.

Lemma local_same s s' t : local_ok s t -> bound s' = bound s -> same_thread s s' t -> local_ok s' t.
Proof. intros H Eb (E1 & E2 & E3 & E4 & E5 & E6). unfold local_ok. by rewrite Eb, E1, E2, E3, E4, E5, E6. Qed.

Lemma sync_frame s s' t p : inv s -> (forall t', pcs s' t' = <[t := p]> (pcs s) t') ->
  sleeping (pcs s t) = false -> ready_list (pcs s t) = [] -> sleeping p = false -> ready_list p = [] ->
  (forall e, waiters (ev s' e) = waiters (ev s e)) -> (forall t', container s' t' = container s t') -> bound s' = bound s ->
  (forall t', t <> t' -> holds s' t' = holds s t' /\ state s' t' = state s t' /\ armed s' t' = armed s t' /\ signalled s' t' = signalled s t') ->
  mutex_ok s' -> (local_ok s t -> local_ok s' t) -> inv s'.
Proof.
  intros I Ep H1 H2 H3 H4 Ew Ec Eb Eo Hm Hl. constructor.
  - done.
  - by apply (queues_frame s); [apply (inv_queues s I)|..].
  - apply (ready_frame s _ t p); try done; [apply (inv_ready s I)|]. intros t' Hne. by destruct (Eo t' Hne) as (_ & _ & _ & E).
  - intros t'. destruct (decide (t = t')) as [<-|Hne]; [apply Hl, (inv_local s I)|]. destruct (Eo t' Hne) as (E1 & E2 & E3 & E4).
    apply (local_same s); [apply (inv_local s I)|done|]. repeat split; try done. by rewrite Ep, fn_lookup_insert_ne.
Qed.

(** ** The mutex word *)

Lemma exchange_locked_ok v : v = 0 \/ v = FIBER_MUTEX_LOCKED \/ v = FIBER_MUTEX_CONTENDED ->
  exchange_locked v = if v =? 0 then (0, FIBER_MUTEX_LOCKED) else (1, v).
Proof. by intros [-> | [-> | ->]]. Qed.

Lemma locked_bit v : v = 0 \/ v = FIBER_MUTEX_LOCKED \/ v = FIBER_MUTEX_CONTENDED -> (Z.land v FIBER_MUTEX_LOCKED =? 0) = (v =? 0).
Proof. by intros [-> | [-> | ->]]. Qed.

(** A free mutex is taken. *)
Lemma mutex_take s s' t v : mutex_ok s -> value (ev s Mutex) = 0 -> value (ev s' Mutex) = v -> holds s' = <[t := true]> (holds s) ->
  v = FIBER_MUTEX_LOCKED \/ v = FIBER_MUTEX_CONTENDED -> mutex_ok s'.
Proof.
  intros (_ & Hh & _) H0 Ev Eh Hv. assert (forall t', holds s t' = false) as Hf.
  { intros t'. destruct (holds s t') eqn:E; [|done]. exfalso. apply (proj2 Hh); eauto. }
  unfold mutex_ok. rewrite Ev, Eh. split_and!; [by right| |].
  - split; [|by destruct Hv as [-> | ->]]. intros _. exists t. apply fn_lookup_insert.
  - intros t1 t2 H1 H2. upd; rewrite ?Hf in *; done.
Qed.

(** The word of a mutex that is held is replaced. *)
Lemma mutex_mark s s' v : mutex_ok s -> value (ev s Mutex) <> 0 -> value (ev s' Mutex) = v -> holds s' = holds s ->
  v = FIBER_MUTEX_LOCKED \/ v = FIBER_MUTEX_CONTENDED -> mutex_ok s'.
Proof.
  intros (_ & Hh & Hu) H0 Ev Eh Hv. unfold mutex_ok. rewrite Ev, Eh, <- Hh. split_and!; [by right| |done].
  split; [done|]. by destruct Hv as [-> | ->].
Qed.

Lemma mutex_release s s' t : mutex_ok s -> holds s t = true -> value (ev s' Mutex) = 0 -> holds s' = <[t := false]> (holds s) -> mutex_ok s'.
Proof.
  intros (_ & _ & Hu) Ht Ev Eh. unfold mutex_ok. rewrite Ev, Eh. assert (forall t', <[t := false]> (holds s) t' = false) as Hf.
  { intros t'. upd; [done|]. destruct (holds s t') eqn:E; [|done]. by destruct (Hu t t'). }
  split_and!; [by left| |].
  - split; [done|]. intros (t' & Ht'). by rewrite Hf in Ht'.
  - intros t1 t2 H1. by rewrite Hf in H1.
Qed.

(** ** Steps outside of the queues *)

Lemma local_simple t bd p h x g : match p with
  | Idle | FastLock _ | Dequeue _ _ | DequeueAll _ | Requeue | MakeReady _ _ | SignalAdd | BroadcastLoad | BroadcastAdd | LatchLoad _
  | LatchSub _ | LatchAdd _ | LatchReset _ => True
  | Exchange w => home w = Mutex
  | UnlockExchange _ | CondLoad _ | CondBind _ _ => h = true
  | CondExchange _ _ => h = true /\ bd = false
  | Check e v w => e = home w /\ expects e v
  | _ => False
  end -> local t bd p h None x false g.
Proof. intros H. unfold local. split; [done|]. split; [by intros [? ?]|]. destruct p; try done; naive_solver. Qed.

Lemma returned_ok t w r s : exists p, returned t w r s = set_pc t p s /\ sleeping p = false /\ ready_list p = [] /\
  forall bd h x g, local t bd p h None x false g.
Proof.
  eexists. split; [done|]. set (failed := match r with Some ETIMEDOUT | Some ESTOP => true | _ => false end).
  destruct w as [b|b|rc|b]; destruct failed; split_and!; try done; intros; by apply local_simple.
Qed.

Lemma local_container s t : inv s -> sleeping (pcs s t) = false -> container s t = None.
Proof. intros I H. destruct (inv_local s I t) as (Hc & _). by apply Hc. Qed.

(** A wait returns: the thread's own flags may change. *)
Lemma returned_inv s s1 t w r : inv s -> sleeping (pcs s t) = false -> ready_list (pcs s t) = [] ->
  pcs s1 = pcs s -> ev s1 = ev s -> (forall t', container s1 t' = container s t') -> bound s1 = bound s -> holds s1 = holds s ->
  (forall t', t <> t' -> state s1 t' = state s t' /\ armed s1 t' = armed s t' /\ signalled s1 t' = signalled s t') ->
  armed s1 t = false -> inv (returned t w r s1).
Proof.
  intros I Hs Hr Ep Ee Ec Eb Eh Eo Ea. destruct (returned_ok t w r s1) as (p & -> & H3 & H4 & Hl).
  apply (sync_frame s _ t p I); cbn; rewrite ?Ep, ?Ee, ?Eh; try done.
  - intros t' Hne. split; [done|by apply Eo].
  - apply (mutex_frame s); [apply (inv_mutex s I)|by cbn; rewrite ?Ee..].
  - intros _. unfold local_ok. cbn. rewrite fn_lookup_insert, Ea, Ec, (local_container s) by done. apply Hl.
Qed.

(** The new local state after a step that [sync_frame] covers. *)
Ltac own I Et :=
  intros Hl; unfold local_ok in *; cbn in *; rewrite ?fn_lookup_insert in *; rewrite ?Et in *;
  rewrite ?(local_container _ _ I) in * by (by rewrite Et);
  destruct Hl as (_ & _ & Hl).

Ltac frame I Et :=
  eapply (sync_frame _ _ _ _ I); [cbn; reflexivity|by rewrite Et|by rewrite Et|done|done|cbn; intros []; cbn; done|cbn; done|cbn; done
    |cbn; intros t' Hne; rewrite ?fn_lookup_insert_ne by done; done|try (by apply (mutex_frame _ _ (inv_mutex _ I)))|try (own I Et)].

(** Where a thread that neither sleeps nor wakes others can be. *)
Definition outside (s : sys) (t : Z) : Prop := sleeping (pcs s t) = false /\ ready_list (pcs s t) = [] /\ armed s t = false.

Lemma inv_take s s' t v : inv s -> outside s t -> value (ev s Mutex) = 0 -> v = FIBER_MUTEX_LOCKED \/ v = FIBER_MUTEX_CONTENDED ->
  s' = set_holds t true (set_value Mutex v s) -> inv (set_pc t Idle s') /\ (pcs s t = Idle -> inv s').
Proof.
  intros I (Hs & Hr & Ha) H0 Hv ->.
  assert (forall s', ev s' = ev (set_value Mutex v s) -> holds s' = <[t := true]> (holds s) -> (forall t', pcs s' t' = <[t := Idle]> (pcs s) t') ->
    container s' = container s -> bound s' = bound s -> state s' = state s -> armed s' = armed s -> signalled s' = signalled s -> inv s') as H.
  { intros s' Ee Eh Ep Ec Eb Es Ea Eg. apply (sync_frame s _ t Idle I); rewrite ?Ee, ?Eh, ?Ec, ?Eb, ?Es, ?Ea, ?Eg; try done.
    - intros e. cbn. by upd.
    - intros t' Hne. by rewrite fn_lookup_insert_ne.
    - by apply (mutex_take s s' t v); [apply (inv_mutex s I)|done|rewrite Ee; cbn; by rewrite fn_lookup_insert|done|done].
    - intros _. unfold local_ok. rewrite Ep, fn_lookup_insert, Ec, Ea, Ha, (local_container s) by done. by apply local_simple. }
  split; [by apply H|]. intros Et. apply H; try done. intros t'. cbn. by upd.
Qed.

Lemma mark_inv s s' t v p : inv s -> outside s t -> value (ev s Mutex) <> 0 -> v = FIBER_MUTEX_LOCKED \/ v = FIBER_MUTEX_CONTENDED ->
  sleeping p = false -> ready_list p = [] -> local t (bound s) p (holds s t) None (state s t) false (signalled s t) ->
  s' = set_value Mutex v s -> inv (set_pc t p s') /\ (pcs s t = Idle -> inv s').
Proof.
  intros I (Hs & Hr & Ha) H0 Hv H3 H4 Hl ->.
  assert (forall s' p, sleeping p = false -> ready_list p = [] -> local t (bound s) p (holds s t) None (state s t) false (signalled s t) ->
    ev s' = ev (set_value Mutex v s) -> holds s' = holds s -> (forall t', pcs s' t' = <[t := p]> (pcs s) t') ->
    container s' = container s -> bound s' = bound s -> state s' = state s -> armed s' = armed s -> signalled s' = signalled s -> inv s') as H.
  { intros s' p' H5 H6 Hl' Ee Eh Ep Ec Eb Es Ea Eg. apply (sync_frame s _ t p' I); rewrite ?Ee, ?Eh, ?Ec, ?Eb, ?Es, ?Ea, ?Eg; try done.
    - intros e. cbn. by upd.
    - by apply (mutex_mark s s' v); [apply (inv_mutex s I)|done|rewrite Ee; cbn; by rewrite fn_lookup_insert|done|done].
    - intros _. unfold local_ok. rewrite Ep, fn_lookup_insert, Ec, Ea, Ha, Eb, Eh, Es, Eg, (local_container s) by done. done. }
  split; [by apply (H _ p)|]. intros Et. apply (H _ Idle); try done. intros t'. cbn. by upd.
Qed.

(** Program counters at which the thread has no waiter. *)
Definition plain (p : pc) : bool :=
  match p with Enqueue _ _ _ | Asleep _ _ | FutexTimedOut _ | Awake _ | MakeReady (_ :: _) _ => false | _ => true end.

Lemma outside_plain s t : inv s -> plain (pcs s t) = true -> outside s t.
Proof.
  intros I Hp. destruct (inv_local s I t) as (_ & _ & Hl). unfold outside. destruct (pcs s t) as [| | | | | | | | | | | | |[|? ts] k| | | | | | | | | |]; cbn in *; naive_solver.
Qed.

(** A step that changes the program counter, and a value other than that of
    the mutex. *)
Lemma inv_goto s s' t p : inv s -> plain (pcs s t) = true -> (forall t', pcs s' t' = <[t := p]> (pcs s) t') -> sleeping p = false -> ready_list p = [] ->
  (forall e, waiters (ev s' e) = waiters (ev s e)) -> value (ev s' Mutex) = value (ev s Mutex) ->
  container s' = container s -> bound s' = bound s -> holds s' = holds s -> state s' = state s -> armed s' = armed s -> signalled s' = signalled s ->
  (local_ok s t -> local t (bound s) p (holds s t) None (state s t) false (signalled s t)) -> inv s'.
Proof.
  intros I Hp Ep H3 H4 Ew Ev Ec Eb Eh Es Ea Eg Hl. destruct (outside_plain s t I Hp) as (H1 & H2 & Ha).
  apply (sync_frame s _ t p I); rewrite ?Ec, ?Eb, ?Eh, ?Es, ?Ea, ?Eg; try done.
  - by apply (mutex_frame s); [apply (inv_mutex s I)|..].
  - intros Hl0. unfold local_ok. rewrite Ep, fn_lookup_insert, Ec, Ea, Ha, Eb, Eh, Es, Eg, (local_container s) by done. by apply Hl.
Qed.

Lemma inv_lock_step s t b s' p : inv s -> pcs s t = Idle \/ (exists timed, pcs s t = FastLock timed) ->
  p = Exchange (ForLock b) \/ p = Idle -> forall prev v, exchange_locked (value (ev s Mutex)) = (prev, v) ->
  s' = (if prev =? 0 then set_holds t true (set_value Mutex v s) else set_value Mutex v s) ->
  inv (set_pc t (if prev =? 0 then Idle else p) s') /\ (pcs s t = Idle -> inv s').
Proof.
  intros I Hp Hq prev v Ex ->. assert (outside s t) as Ho by (apply outside_plain; [done|by destruct Hp as [-> | (? & ->)]]).
  pose proof (inv_mutex s I) as (Hv & _ & _). rewrite exchange_locked_ok in Ex by done.
  destruct (value (ev s Mutex) =? 0) eqn:E0; zbool; injection Ex as <- <-; cbn.
  - by apply (inv_take s _ t FIBER_MUTEX_LOCKED); [..|left|].
  - apply (mark_inv s _ t (value (ev s Mutex)) p); try done; [by destruct Hv as [|[]]; [|left|right]|by destruct Hq as [-> | ->]..|].
    destruct Hq as [-> | ->]; by apply local_simple.
Qed.

Lemma inv_call s t c s' : inv s -> pcs s t = Idle -> call t c s = Some s' -> inv s'.
Proof.
  intros I Et. unfold call.
  assert (forall p, match p with FastLock _ | SignalAdd | BroadcastLoad | LatchLoad _ | LatchSub _ | LatchAdd _ | LatchReset _ => True
                            | UnlockExchange _ | CondLoad _ => holds s t = true | _ => False end -> inv (set_pc t p s)) as Hgo.
  { intros p Hp. apply (inv_goto s _ t p I); try done; [by rewrite Et|by destruct p..|]. intros _. apply local_simple. by destruct p. }
  destruct c; intros Hc; try done.
  - injection Hc as <-. by apply Hgo.
  - destruct (exchange_locked (value (ev s Mutex))) as [prev v] eqn:Ex. injection Hc as <-.
    by apply (inv_lock_step s t false _ Idle I (or_introl Et) (or_intror eq_refl) prev v Ex eq_refl).
  - destruct (holds s t) eqn:Eh; [|done]. injection Hc as <-. by apply Hgo.
  - destruct (holds s t) eqn:Eh; [|done]. injection Hc as <-. by apply Hgo.
  - injection Hc as <-. by apply Hgo.
  - injection Hc as <-. by apply Hgo.
  - injection Hc as <-. by apply Hgo.
  - injection Hc as <-. by apply Hgo.
  - injection Hc as <-. destruct (v <=? 0); [done|by apply Hgo].
  - injection Hc as <-. destruct (v <? 0); [done|by apply Hgo].
Qed.

Lemma inv_exchange s t w : inv s -> pcs s t = Exchange w -> inv (lock_contended t w s).
Proof.
  intros I Et. pose proof (inv_local s I t) as (_ & _ & Hl). rewrite Et in Hl. destruct Hl as (Hw & _).
  assert (outside s t) as Ho by (apply outside_plain; [done|by rewrite Et]).
  pose proof (inv_mutex s I) as (Hv & _ & _). unfold lock_contended. rewrite locked_bit by done. destruct (value (ev s Mutex) =? 0) eqn:E0; zbool; cbn [negb].
  - apply (inv_take s _ t FIBER_MUTEX_CONTENDED I Ho E0 (or_intror eq_refl) eq_refl).
  - apply (mark_inv s _ t FIBER_MUTEX_CONTENDED); try done; first [by right|by apply local_simple].
Qed.

Lemma inv_unlock s t k : inv s -> pcs s t = UnlockExchange k -> inv (unlock_exchange t k s).
Proof.
  intros I Et. pose proof (inv_local s I t) as (_ & _ & Hl). rewrite Et in Hl. destruct Hl as (Hh & _).
  destruct (outside_plain s t I) as (H1 & H2 & Ha); [by rewrite Et|]. unfold unlock_exchange.
  eapply (sync_frame s _ t _ I); try done; cbn.
  - by destruct (_ =? _).
  - by destruct (_ =? _).
  - intros e. by upd.
  - intros t' Hne. by rewrite fn_lookup_insert_ne.
  - apply (mutex_release s _ t); [apply (inv_mutex s I)|done|cbn; by rewrite fn_lookup_insert|done].
  - intros _. unfold local_ok. cbn. rewrite !fn_lookup_insert, Ha, (local_container s) by done. apply local_simple. by destruct (_ =? _).
Qed.

(** A new waiter on the thread's stack. *)
Lemma inv_new_waiter s t p : inv s -> plain (pcs s t) = true -> sleeping p = false -> ready_list p = [] ->
  (forall bd h, local t bd p h None READY false false) -> inv (set_pc t p (new_waiter t s)).
Proof.
  intros I Hp H3 H4 Hl. destruct (outside_plain s t I Hp) as (H1 & H2 & Ha).
  apply (sync_frame s _ t p I); try done; cbn.
  - intros t'. upd; [by rewrite (local_container s)|done].
  - intros t' Hne. by rewrite !fn_lookup_insert_ne.
  - by apply (mutex_frame s); [apply (inv_mutex s I)|..].
  - intros _. unfold local_ok. cbn. rewrite !fn_lookup_insert. apply Hl.
Qed.

Lemma inv_check s t e expected w : inv s -> pcs s t = Check e expected w -> inv (check_value t e expected w s).
Proof.
  intros I Et. pose proof (inv_local s I t) as (_ & _ & Hl). rewrite Et in Hl. destruct Hl as (-> & Hx & Ha). unfold check_value.
  destruct (negb _); [apply (returned_inv s); rewrite ?Et; done|].
  apply inv_new_waiter; [done|by rewrite Et|by destruct (timed_of w)..|].
  intros bd h. unfold local. split; [done|]. split; [by intros [? ?]|]. destruct (timed_of w) eqn:Ew; naive_solver.
Qed.

Lemma inv_prepare s t d e expected w : inv s -> pcs s t = Prepare e expected w -> inv (prepare t d e expected w s).
Proof.
  intros I Et. pose proof (inv_local s I t) as (_ & _ & Hl). rewrite Et in Hl. destruct Hl as (-> & Hx & Hr & Hg & Ht & Ha).
  destruct (outside_plain s t I) as (H1 & H2 & _); [by rewrite Et|].
  assert (forall a s', (a = true -> is_pthread t = false) -> s' = set_pc t (Enqueue (home w) expected w) s \/ s' = set_pc t (Enqueue (home w) expected w) (set_armed t true s) ->
    armed s' t = a -> inv s') as H.
  { intros a s' Hp Es' Ea. apply (sync_frame s _ t (Enqueue (home w) expected w) I); destruct Es' as [-> | ->]; try done; cbn in *.
    - intros t' Hne. by rewrite fn_lookup_insert_ne.
    - by apply (mutex_frame s); [apply (inv_mutex s I)|..].
    - by apply (mutex_frame s); [apply (inv_mutex s I)|..].
    - intros _. unfold local_ok. cbn. rewrite fn_lookup_insert, Ea, (local_container s), Hr, Hg by done. unfold local. naive_solver.
    - intros _. unfold local_ok. cbn. rewrite fn_lookup_insert, (local_container s), Hr, Hg by done. rewrite Ea. unfold local. naive_solver. }
  destruct d; cbn.
  - apply (returned_inv s); rewrite ?Et; done.
  - destruct (is_pthread t) eqn:Ep; [|apply (returned_inv s); rewrite ?Et; done]. apply (H false); [done|by left|done].
  - destruct (is_pthread t) eqn:Ep; [apply (H false); [done|by left|done]|]. apply (H true); [done|by right|]. cbn. by rewrite fn_lookup_insert.
Qed.

(** ** Steps on the queues *)

(** The threads other than [t] are left as they are. *)
Definition only (s s' : sys) (t : Z) : Prop := bound s' = bound s /\ forall t', t <> t' -> same_thread s s' t'.

Lemma local_only s s' t : inv s -> only s s' t -> local_ok s' t -> forall t', local_ok s' t'.
Proof.
  intros I (Eb & Ho) Hl t'. destruct (decide (t = t')) as [<-|Hne]; [done|]. by apply (local_same s); [apply (inv_local s I)|..|apply Ho].
Qed.

(** The thread [t] changes from sleep to work or back, while no list has it. *)
Lemma ready_only s s' t : ready_ok s -> only s s' t -> (forall t', t ∉ ready_list (pcs s t')) -> ready_list (pcs s t) = [] -> ready_list (pcs s' t) = [] ->
  (sleeping (pcs s' t) = true -> container s' t = None -> signalled s' t = true) -> ready_ok s'.
Proof.
  intros (Hn & Hl & Hu & Hs) (_ & Ho) Hno H1 H2 H3.
  assert (forall t', ready_list (pcs s' t') = ready_list (pcs s t')) as Er.
  { intros t'. destruct (decide (t = t')) as [<-|Hne]; [congruence|]. by destruct (Ho t' Hne) as (-> & _). }
  split_and!.
  - intros t'. rewrite Er. apply Hn.
  - intros t' x Hx. rewrite Er in Hx. assert (t <> x) as Hne by (intros ->; by apply (Hno t')).
    destruct (Ho x Hne) as (-> & _ & -> & _ & _ & ->). by apply (Hl t').
  - intros t1 t2 x. rewrite !Er. apply Hu.
  - intros x Hx Hc. destruct (decide (t = x)) as [<-|Hne]; [left; by apply H3|].
    destruct (Ho x Hne) as (E1 & _ & E3 & _ & _ & E6). rewrite E1 in Hx. rewrite E3 in Hc. rewrite E6.
    destruct (Hs x Hx Hc) as [|(t' & Ht')]; [by left|right; exists t'; by rewrite Er].
Qed.

Lemma not_listed s t : inv s -> sleeping (pcs s t) = false \/ is_Some (container s t) \/ signalled s t = true -> forall t', t ∉ ready_list (pcs s t').
Proof.
  intros I H t' Ht. destruct (inv_ready s I) as (_ & Hl & _). destruct (Hl t' t Ht) as (Hc & Hs & Hg). destruct H as [H|[[? H]|H]]; congruence.
Qed.

Lemma sleeping_no_list p : sleeping p = true -> ready_list p = [].
Proof. by destruct p. Qed.

Lemma inv_append s t e v w : inv s -> pcs s t = Enqueue e v w -> inv (set_pc t (Asleep w (timed_of w)) (append t e s)).
Proof.
  intros I Et. pose proof (inv_local s I t) as (_ & _ & Hl). rewrite Et in Hl. destruct Hl as (He & _ & Hr & Hg & Ha).
  assert (may_wait w e) as Hmay by (by left). clear He.
  pose proof (local_container s t I) as Hc. rewrite Et in Hc. specialize (Hc eq_refl). destruct (inv_queues s I) as (Hnd & Hq).
  assert (forall e', t ∉ waiters (ev s e')) as Hnot by (intros e' Hin; apply Hq in Hin; congruence).
  assert (only s (set_pc t (Asleep w (timed_of w)) (append t e s)) t) as Ho.
  { split; [done|]. intros t' Hne. repeat split; cbn; by rewrite fn_lookup_insert_ne. }
  constructor.
  - apply (mutex_frame s); [apply (inv_mutex s I)|cbn; by upd|done].
  - split; cbn.
    + intros e'. upd; cbn; [|done]. apply NoDup_app. split_and!; [done| |apply NoDup_singleton]. set_solver.
    + intros t' e'. destruct (decide (t = t')) as [<-|Hne].
      * rewrite fn_lookup_insert. split; [intros [= <-]; rewrite fn_lookup_insert; cbn; set_solver|]. upd; cbn; [done|]. intros Hin. by apply Hnot in Hin.
      * rewrite fn_lookup_insert_ne by done. rewrite Hq. upd; cbn; [|done]. set_solver.
  - apply (ready_only s _ t); [apply (inv_ready s I)|done|apply not_listed; [done|left; by rewrite Et]|by rewrite Et|cbn; by rewrite fn_lookup_insert|].
    cbn. by rewrite !fn_lookup_insert.
  - apply (local_only s _ t I Ho). unfold local_ok. cbn. rewrite !fn_lookup_insert, Hr, Hg. unfold local. cbn. split_and!; try done.
    by intros e' [= <-].
Qed.

Lemma local_awake t bd w h x a g : (x = TIMEDOUT -> timed_of w = true /\ is_pthread t = false) ->
  (a = true -> is_pthread t = false /\ timed_of w = true) -> local t bd (Awake w) h None x a g.
Proof. intros Hx Ha. unfold local. split; [done|]. split; [by intros [? ?]|]. done. Qed.

Lemma inv_enqueue s t e v w : inv s -> pcs s t = Enqueue e v w -> inv (enqueue t e v w s).
Proof.
  intros I Et. pose proof (inv_local s I t) as (_ & _ & Hl). rewrite Et in Hl. destruct Hl as (He & _ & Hr & Hg & Ha).
  assert (sleeping (pcs s t) = false /\ ready_list (pcs s t) = []) as (H1 & H2) by (by rewrite Et). unfold enqueue. destruct (is_pthread t) eqn:Ep.
  - assert (armed s t = false) as Ha' by (destruct (armed s t); [by destruct Ha|done]).
    destruct (negb _); [by apply (returned_inv s)|]. destruct (interrupted s t); [by apply (returned_inv s)|]. by apply (inv_append s t e v).
  - assert (forall s', (s' = s \/ s' = set_state t UNMATCHEDVALUE s) -> inv (set_pc t (Awake w) s')) as H.
    { intros s' Hs'. apply (sync_frame s _ t (Awake w) I); destruct Hs' as [-> | ->]; try done; cbn.
      - intros t' Hne. by rewrite fn_lookup_insert_ne.
      - by apply (mutex_frame s); [apply (inv_mutex s I)|..].
      - by apply (mutex_frame s); [apply (inv_mutex s I)|..].
      - intros _. unfold local_ok. cbn. rewrite fn_lookup_insert, (local_container s), Hr by done. by apply local_awake; rewrite ?Ep.
      - intros _. unfold local_ok. cbn. rewrite !fn_lookup_insert, (local_container s) by done. by apply local_awake; rewrite ?Ep. }
    destruct (negb _); [apply H; by right|]. destruct (_ && _); [by apply (inv_append s t e v)|apply H; by left].
Qed.

Lemma inv_awake s t w : inv s -> pcs s t = Awake w -> inv (awake t w s).
Proof.
  intros I Et. unfold awake. apply (returned_inv s); rewrite ?Et; try done; cbn.
  - intros t' Hne. by rewrite !fn_lookup_insert_ne.
  - by rewrite fn_lookup_insert.
Qed.

(** A step of [t] alone that leaves the queues. *)
Lemma inv_only s s' t : inv s -> only s s' t -> ev s' = ev s -> holds s' = holds s -> container s' t = container s t ->
  (forall t', t ∉ ready_list (pcs s t')) -> ready_list (pcs s t) = [] -> ready_list (pcs s' t) = [] ->
  (sleeping (pcs s' t) = true -> container s t = None -> signalled s' t = true) -> local_ok s' t -> inv s'.
Proof.
  intros I Ho Ee Eh Ec Hno H1 H2 H3 Hl. constructor.
  - by apply (mutex_frame s); [apply (inv_mutex s I)|by rewrite Ee|].
  - apply (queues_frame s); [apply (inv_queues s I)|by rewrite Ee|]. intros t'. destruct (decide (t = t')) as [<-|Hne]; [done|].
    by destruct (proj2 Ho t' Hne) as (_ & _ & E & _).
  - apply (ready_only s _ t); try done; [apply (inv_ready s I)|]. by rewrite Ec.
  - by apply (local_only s _ t).
Qed.

Lemma inv_signalled s t w b : inv s -> pcs s t = Asleep w b -> signalled s t = true -> inv (set_pc t (Awake w) s).
Proof.
  intros I Et Hg. pose proof (inv_local s I t) as (_ & Hc & Hl). rewrite Et, Hg in Hl. destruct Hl as (_ & Hr & _ & Ha & _).
  assert (container s t = None) as Hcn by (apply eq_None_not_Some; intros H; apply Hc in H; congruence).
  apply (inv_only s _ t I); cbn; rewrite ?fn_lookup_insert, ?Et; try done.
  - split; [done|]. intros t' Hne. repeat split; cbn; by rewrite ?fn_lookup_insert_ne.
  - apply not_listed; [done|by right; right].
  - unfold local_ok. cbn. rewrite fn_lookup_insert, Hcn, Hr. by apply local_awake.
Qed.

Lemma inv_sleeps_on s t p : inv s -> sleeping (pcs s t) = true -> sleeping p = true ->
  (local_ok s t -> local_ok (set_pc t p s) t) -> inv (set_pc t p s).
Proof.
  intros I Hs Hp Hl. assert (forall t', ready_list (<[t := p]> (pcs s) t') = ready_list (pcs s t')) as Er.
  { intros t'. upd; [|done]. by rewrite !sleeping_no_list. }
  assert (forall t', sleeping (<[t := p]> (pcs s) t') = sleeping (pcs s t')) as Es by (intros t'; upd; congruence).
  destruct (inv_ready s I) as (Rn & Rl & Ru & Rs). constructor.
  - by apply (mutex_frame s); [apply (inv_mutex s I)|..].
  - by apply (queues_frame s); [apply (inv_queues s I)|..].
  - split_and!; cbn.
    + intros t'. by rewrite Er.
    + intros t' x. rewrite Er, Es. apply Rl.
    + intros t1 t2 x. rewrite !Er. apply Ru.
    + intros x. rewrite Es. intros Hx Hc. destruct (Rs x Hx Hc) as [|(t' & Ht')]; [by left|right; exists t'; by rewrite Er].
  - apply (local_only s _ t I); [|apply Hl, (inv_local s I)]. split; [done|]. intros t' Hne. repeat split; cbn; by rewrite ?fn_lookup_insert_ne.
Qed.

Lemma inv_time_out s t w : inv s -> pcs s t = Asleep w true -> is_pthread t = true -> inv (set_pc t (FutexTimedOut w) s).
Proof.
  intros I Et Hp. apply inv_sleeps_on; rewrite ?Et; try done. unfold local_ok. cbn. rewrite fn_lookup_insert, Et. intros (Hc & Hg & Hl). split; [done|].
  split; [done|]. destruct Hl as (Hm & Hr & Ht & Ha & _). split_and!; try done; [by apply Ht|]. destruct (armed s t); [|done]. destruct Ha; congruence.
Qed.

(** A queued waiter is erased. *)
Lemma queues_erase s t e : queues_ok s -> container s t = Some e -> queues_ok (erase t e s).
Proof.
  intros (Hn & Hq) Hc. split; cbn.
  - intros e'. upd; cbn; [apply NoDup_filter, Hn|apply Hn].
  - intros t' e'. destruct (decide (t = t')) as [<-|Hne].
    + rewrite fn_lookup_insert. split; [done|]. destruct (decide (e = e')) as [<-|He]; [rewrite fn_lookup_insert|rewrite fn_lookup_insert_ne by done].
      * cbn. rewrite list_elem_of_filter. naive_solver.
      * intros Hin. apply Hq in Hin. congruence.
    + rewrite fn_lookup_insert_ne by done. rewrite Hq. destruct (decide (e = e')) as [<-|He]; [rewrite fn_lookup_insert|by rewrite fn_lookup_insert_ne].
      cbn. rewrite list_elem_of_filter. naive_solver.
Qed.

(** The waiter of [t] leaves its queue and [t] does not sleep any more, or has
    been signalled. *)
Lemma inv_erased s s' t e : inv s -> container s t = Some e -> only s s' t -> (forall e', waiters (ev s' e') = waiters (ev (erase t e s) e')) ->
  value (ev s' Mutex) = value (ev s Mutex) -> holds s' = holds s -> container s' t = None -> ready_list (pcs s' t) = [] ->
  (sleeping (pcs s' t) = true -> signalled s' t = true) -> local_ok s' t -> inv s'.
Proof.
  intros I Hc Ho Ew Ev Eh Ec H2 H3 Hl. assert (sleeping (pcs s t) = true) as Hs.
  { destruct (sleeping (pcs s t)) eqn:E; [done|]. apply (local_container s) in E; [congruence|done]. }
  constructor.
  - by apply (mutex_frame s); [apply (inv_mutex s I)|..].
  - apply (queues_frame (erase t e s)); [apply queues_erase; [apply (inv_queues s I)|done]|done|].
    intros t'. cbn. destruct (decide (t = t')) as [<-|Hne]; [by rewrite fn_lookup_insert|]. rewrite fn_lookup_insert_ne by done.
    by destruct (proj2 Ho t' Hne) as (_ & _ & E & _).
  - apply (ready_only s _ t); try done; [apply (inv_ready s I)|apply not_listed; [done|right; left; by rewrite Hc]|by apply sleeping_no_list|]. intros Hs' _. by apply H3.
  - by apply (local_only s _ t).
Qed.

Lemma returned_only s s1 t w r : only s s1 t -> only s (returned t w r s1) t.
Proof.
  intros (Eb & Ho). split; [done|]. intros t' Hne. destruct (Ho t' Hne) as (E1 & E2 & E3 & E4 & E5 & E6).
  repeat split; try done. cbn. by rewrite fn_lookup_insert_ne.
Qed.

Lemma inv_futex_timed_out s t w : inv s -> pcs s t = FutexTimedOut w -> inv (futex_timed_out t w s).
Proof.
  intros I Et. pose proof (inv_local s I t) as (_ & Hcg & Hl). rewrite Et in Hl. destruct Hl as (Hm & Hr & Ht & Hp & Ha). unfold futex_timed_out.
  assert (only s (set_interrupted t false s) t) as Ho by (split; [done|by intros t' Hne]).
  destruct (signalled s t) eqn:Eg.
  - assert (container s t = None) as Hcn by (apply eq_None_not_Some; intros H; apply Hcg in H; congruence).
    apply (inv_only s _ t I); try done; [by apply returned_only|by apply not_listed; [|right; right]|by rewrite Et|..];
      destruct (returned_ok t w (Some ETIMEDOUT) (set_interrupted t false s)) as (p & -> & H3 & H4 & Hl); cbn; rewrite ?fn_lookup_insert; try done.
    unfold local_ok. cbn. by rewrite fn_lookup_insert, Ha, Hcn.
  - destruct (container s t) as [e|] eqn:Ec.
    + apply (inv_erased s _ t e I); try done; cbn; rewrite ?fn_lookup_insert; try done.
      * apply returned_only. split; [done|]. intros t' Hne. repeat split; cbn; by rewrite ?fn_lookup_insert_ne.
      * by upd.
      * destruct w as [[]|[]| |[]]; done.
      * destruct w as [[]|[]| |[]]; done.
      * destruct (returned_ok t w (Some ETIMEDOUT) (set_interrupted t false (erase t e s))) as (p & -> & H3 & H4 & Hl). unfold local_ok. cbn. by rewrite !fn_lookup_insert, Ha.
    + apply inv_sleeps_on; rewrite ?Et; try done. unfold local_ok. cbn. rewrite fn_lookup_insert, Et, Ec, Ha, Hr. intros _.
      unfold local. cbn. split_and!; try done.
Qed.

Lemma inv_flags s s' t : inv s -> ev s' = ev s -> bound s' = bound s -> pcs s' = pcs s -> holds s' = holds s -> container s' = container s ->
  state s' = state s -> signalled s' = signalled s -> (forall t', t <> t' -> armed s' t' = armed s t') -> armed s' t = armed s t \/ armed s' t = false -> inv s'.
Proof.
  intros I Ee Eb Ep Eh Ec Es Eg Ea Ha. constructor.
  - by apply (mutex_frame s); [apply (inv_mutex s I)|by rewrite Ee|].
  - apply (queues_frame s); [apply (inv_queues s I)|by rewrite Ee|by rewrite Ec].
  - generalize (inv_ready s I). unfold ready_ok. by rewrite Ep, Ec, Eg.
  - intros t'. pose proof (inv_local s I t') as Hl. unfold local_ok in *. rewrite Eb, Ep, Eh, Ec, Es, Eg.
    destruct (decide (t = t')) as [<-|Hne]; [|by rewrite Ea]. destruct Ha as [-> | ->]; [done|]. destruct Hl as (H1 & H2 & Hl). split; [done|]. split; [done|].
    destruct (pcs s t); naive_solver.
Qed.

Lemma inv_erase_wakeup s t x : inv s -> (x = TIMEDOUT -> is_pthread t = false /\ forall w b, pcs s t = Asleep w b -> timed_of w = true) ->
  inv (erase_and_wakeup t x s).
Proof.
  intros I Hx. unfold erase_and_wakeup. destruct (container s t) as [e|] eqn:Ec; [|done].
  pose proof (inv_local s I t) as (Hs & Hcg & Hl). rewrite Ec in Hs, Hcg, Hl. specialize (Hcg ltac:(done)). unfold make_ready. destruct (is_pthread t) eqn:Ep.
  - apply (inv_erased s _ t e I); try done; cbn; rewrite ?fn_lookup_insert; try done.
    + split; [done|]. intros t' Hne. repeat split; cbn; by rewrite ?fn_lookup_insert_ne.
    + by upd.
    + apply sleeping_no_list. destruct (sleeping (pcs s t)); [done|by specialize (Hs eq_refl)].
    + unfold local_ok. cbn. rewrite !fn_lookup_insert. unfold local. split; [done|]. split; [by intros [? ?]|].
      destruct (pcs s t); cbn in Hs; try (by specialize (Hs eq_refl)); naive_solver.
  - cbn. destruct (pcs s t) as [| | | | | |w b|w| | | | | | | | | | | | | | | |] eqn:Et; cbn in Hs; try (by specialize (Hs eq_refl)); [|by destruct Hl as (_ & _ & _ & ? & _)].
    apply (inv_erased s _ t e I); try done; cbn; rewrite ?fn_lookup_insert; try done.
    + split; [done|]. intros t' Hne. repeat split; cbn; by rewrite ?fn_lookup_insert_ne.
    + by upd.
    + unfold local_ok. cbn. rewrite !fn_lookup_insert. destruct Hl as (_ & _ & _ & Ha & _). apply local_awake; rewrite Ep; [|done].
      intros ->. destruct Hx as (_ & Hx); [done|]. split; [by apply (Hx w b)|done].
Qed.

(** ** Waking *)

(** A waiter that leaves its queue, or moves from the condition variable to the
    mutex, sleeps on. *)
Lemma local_dequeued t bd p h e x a g : local t bd p h (Some e) x a g -> local t bd p h None x a g.
Proof.
  intros (Hs & Hg & Hl). split; [done|]. split; [by intros [? ?]|]. destruct p; cbn in Hs; try (by specialize (Hs eq_refl)); naive_solver.
Qed.

Lemma local_requeued t bd p h x a g : local t bd p h (Some Cond) x a g -> local t bd p h (Some Mutex) x a g.
Proof.
  intros (Hs & Hg & Hl). assert (forall w, (forall e, Some Cond = Some e -> may_wait w e) -> forall e, Some Mutex = Some e -> may_wait w e) as Hm.
  { intros w H e [= <-]. right. split; [done|]. by destruct (H Cond eq_refl) as [Hh|(Hh & _)]. }
  split; [intros Hs'; by apply Hs in Hs'|]. split; [intros _; by apply Hg|].
  destruct p; cbn in Hs; try (by specialize (Hs eq_refl)); destruct Hl as (H & Hl); split; (done || by apply Hm).
Qed.

(** [t] has taken the waiters [ts] from their queue; others may have moved to
    the mutex. *)
Lemma inv_taken s s' t ts k : inv s -> plain (pcs s t) = true -> pcs s' = <[t := MakeReady ts k]> (pcs s) -> NoDup ts ->
  (forall x, x ∈ ts -> is_Some (container s x) /\ container s' x = None) ->
  (forall x, x ∉ ts -> container s' x = container s x \/ (container s x = Some Cond /\ container s' x = Some Mutex)) ->
  queues_ok s' -> value (ev s' Mutex) = value (ev s Mutex) -> bound s' = bound s -> holds s' = holds s -> state s' = state s -> armed s' = armed s ->
  signalled s' = signalled s -> inv s'.
Proof.
  intros I Hp Ep Hn Hts Hother Hq Ev Eb Eh Es Ea Eg. destruct (outside_plain s t I Hp) as (H1 & H2 & Hat). destruct (inv_ready s I) as (Rn & Rl & Ru & Rs).
  assert (t ∉ ts) as Ht by (intros Hin; destruct (Hts t Hin) as ((e & He) & _); by rewrite (local_container s) in He).
  assert (forall x, sleeping (pcs s' x) = sleeping (pcs s x)) as Esl by (intros x; rewrite Ep; upd; [by rewrite H1|done]).
  assert (forall x y, x ∈ ready_list (pcs s y) -> x ∉ ts /\ y <> t) as Hold.
  { intros x y Hx. split; [|intros ->; by rewrite H2 in Hx; set_solver]. intros Hin. destruct (Rl y x Hx) as (Hc & _). destruct (Hts x Hin) as ((? & ?) & _). congruence. }
  constructor.
  - by apply (mutex_frame s); [apply (inv_mutex s I)|..].
  - done.
  - unfold ready_ok. rewrite Ep. split_and!.
    + intros y. by upd.
    + intros y x Hx. rewrite <- Ep, Esl, Eg. upd; cbn in Hx.
      * destruct (Hts x Hx) as ((e & He) & Hc). pose proof (inv_local s I x) as (Hs & Hg & _). rewrite He in Hs, Hg.
        split_and!; [done| |by apply Hg]. destruct (sleeping (pcs s x)); [done|by specialize (Hs eq_refl)].
      * destruct (Hold x y Hx) as (Hxn & _). destruct (Rl y x Hx) as (Hc & Hs & Hg). split_and!; try done. destruct (Hother x Hxn) as [-> | (? & _)]; congruence.
    + intros y1 y2 x Hx1 Hx2. upd; cbn in *; first [done|by destruct (Hold x y1 Hx1)|by destruct (Hold x y2 Hx2)|by apply (Ru y1 y2 x)].
    + intros x Hx Hc. rewrite <- Ep, Esl in Hx. rewrite Eg. destruct (decide (x ∈ ts)) as [Hin|Hnin]; [right; exists t; by rewrite fn_lookup_insert|].
      destruct (Hother x Hnin) as [E|(_ & E)]; [|congruence]. rewrite E in Hc. destruct (Rs x Hx Hc) as [|(y & Hy)]; [by left|].
      right. exists y. destruct (Hold x y Hy) as (_ & Hne). by rewrite fn_lookup_insert_ne.
  - intros x. unfold local_ok. rewrite Ep, Eb, Eh, Es, Ea, Eg. destruct (decide (t = x)) as [<-|Hne].
    + rewrite fn_lookup_insert, Hat. assert (container s' t = None) as ->; [|by apply local_simple].
      destruct (Hother t Ht) as [-> | (E & _)]; [by apply (local_container s)|]. by rewrite (local_container s) in E.
    + rewrite fn_lookup_insert_ne by done. pose proof (inv_local s I x) as Hl. destruct (decide (x ∈ ts)) as [Hin|Hnin].
      * destruct (Hts x Hin) as ((e & He) & ->). by apply (local_dequeued _ _ _ _ e); rewrite <- He.
      * destruct (Hother x Hnin) as [-> | (E & ->)]; [done|]. apply local_requeued. by rewrite <- E.
Qed.

Lemma fold_container ts c s : let s' := foldr (fun t => set_container t c) s ts in
  (forall x, container s' x = if bool_decide (x ∈ ts) then c else container s x) /\ ev s' = ev s /\ bound s' = bound s /\ pcs s' = pcs s /\
  holds s' = holds s /\ state s' = state s /\ armed s' = armed s /\ signalled s' = signalled s.
Proof.
  induction ts as [|t ts IH]; cbn; [done|]. destruct IH as (Hc & IH). split; [|done]. intros x. destruct (decide (t = x)) as [<-|Hne].
  - rewrite fn_lookup_insert, bool_decide_true; [done|set_solver].
  - rewrite fn_lookup_insert_ne, Hc by done.
    destruct (decide (x ∈ ts)); [rewrite !bool_decide_true; [done|set_solver..]|rewrite !bool_decide_false; [done|set_solver..]].
Qed.

Lemma inv_dequeue s t e k : inv s -> pcs s t = Dequeue e k -> inv (dequeue t e k s).
Proof.
  intros I Et. destruct (inv_queues s I) as (Hn & Hq). unfold dequeue. destruct (waiters (ev s e)) as [|front l] eqn:El.
  - apply (inv_goto s _ t (MakeReady [] k) I); try done; first [by rewrite Et|intros _; by apply local_simple].
  - assert (container s front = Some e) as Hf by (apply Hq; rewrite El; set_solver).
    pose proof (Hn e) as Hne. rewrite El in Hne. apply NoDup_cons in Hne as (Hfl & Hnl).
    apply (inv_taken s _ t [front] k I); try done; cbn.
    + by rewrite Et.
    + apply NoDup_singleton.
    + intros x ->%list_elem_of_singleton. by rewrite fn_lookup_insert, Hf.
    + intros x Hx. left. rewrite fn_lookup_insert_ne; [done|set_solver].
    + split; cbn.
      * intros e'. upd; cbn; done.
      * intros x e'. destruct (decide (front = x)) as [<-|Hx].
        -- rewrite fn_lookup_insert. split; [done|]. upd; cbn; [done|]. intros Hin%Hq. congruence.
        -- rewrite fn_lookup_insert_ne, Hq by done. upd; cbn; [rewrite El; set_solver|done].
    + by upd.
Qed.

Lemma wake_order_perm l : wake_order l ≡ₚ l.
Proof.
  unfold wake_order. set (fibers := filter (fun t => is_pthread t = false) l).
  trans (filter (fun t => is_pthread t = true) l ++ fibers).
  - apply Permutation_app_head. rewrite reverse_Permutation. destruct fibers as [|f fs]; cbn; [done|]. by rewrite take_0, Permutation_app_comm.
  - subst fibers. induction l as [|x l IH]; [done|]. rewrite !filter_cons. destruct (is_pthread x) eqn:E; cbn.
    + rewrite decide_True by done. rewrite decide_False by done. cbn. by constructor.
    + rewrite decide_False by done. rewrite decide_True by done. rewrite <- Permutation_middle. by constructor.
Qed.

Lemma inv_dequeue_all s t e : inv s -> pcs s t = DequeueAll e -> inv (dequeue_all t e s).
Proof.
  intros I Et. destruct (inv_queues s I) as (Hn & Hq). unfold dequeue_all, dequeued.
  destruct (fold_container (waiters (ev s e)) None (set_waiters e [] s)) as (Hc & Ee & Eb & Ep & Eh & Es & Ea & Eg).
  apply (inv_taken s _ t (wake_order (waiters (ev s e))) Done I); cbn; rewrite ?Ee, ?Eb, ?Ep, ?Eh, ?Es, ?Ea, ?Eg; try done.
  - by rewrite Et.
  - by rewrite wake_order_perm.
  - intros x Hx. rewrite wake_order_perm in Hx. rewrite Hc, bool_decide_true by done. apply Hq in Hx. by rewrite Hx.
  - intros x Hx. rewrite wake_order_perm in Hx. left. by rewrite Hc, bool_decide_false.
  - split; cbn; rewrite ?Ee; cbn.
    + intros e'. upd; cbn; [constructor|done].
    + intros x e'. rewrite Hc. case_bool_decide as Hx; cbn.
      * split; [done|]. upd; cbn; [set_solver|]. intros Hin%Hq. apply Hq in Hx. congruence.
      * rewrite Hq. upd; cbn; [set_solver|done].
  - cbn. by upd.
Qed.

Lemma inv_requeue s t : inv s -> pcs s t = Requeue -> inv (requeue t s).
Proof.
  intros I Et. destruct (inv_queues s I) as (Hn & Hq). unfold requeue, requeued. destruct (waiters (ev s Cond)) as [|front l] eqn:El.
  { apply (inv_goto s _ t Idle I); try done; first [by rewrite Et|intros _; by apply local_simple]. }
  assert (forall x, x ∈ front :: l -> container s x = Some Cond) as Hin by (intros x Hx; apply Hq; by rewrite El).
  pose proof (Hn Cond) as Hnc. rewrite El in Hnc. apply NoDup_cons in Hnc as (Hfl & Hnl).
  set (s1 := set_container front None (set_waiters Mutex (waiters (ev s Mutex) ++ l) (set_waiters Cond [] s))).
  destruct (fold_container l (Some Mutex) s1) as (Hc & Ee & Eb & Ep & Eh & Es & Ea & Eg).
  assert (forall x, container (foldr (fun t => set_container t (Some Mutex)) s1 l) x =
    if bool_decide (x ∈ l) then Some Mutex else if decide (front = x) then None else container s x) as Hc'.
  { intros x. rewrite Hc. case_bool_decide; [done|]. cbn. case_decide; subst; [by rewrite fn_lookup_insert|by rewrite fn_lookup_insert_ne]. }
  apply (inv_taken s _ t [front] Done I); cbn; rewrite ?Ee, ?Eb, ?Ep, ?Eh, ?Es, ?Ea, ?Eg; try done.
  - by rewrite Et.
  - apply NoDup_singleton.
  - intros x ->%list_elem_of_singleton. rewrite Hc', bool_decide_false, decide_True by done. by rewrite Hin by set_solver.
  - intros x Hx. rewrite Hc'. case_bool_decide as Hxl; [right; split; [apply Hin; set_solver|done]|]. rewrite decide_False by set_solver. by left.
  - split; cbn; rewrite ?Ee; cbn.
    + intros []; cbn; [|constructor|apply Hn]. apply NoDup_app. split_and!; [apply Hn| |done].
      intros x Hx Hxl. apply Hq in Hx. rewrite Hin in Hx by set_solver. done.
    + intros x e'. rewrite Hc'. pose proof (Hq x e') as Hqx. pose proof (Hin x) as Hx.
      case_bool_decide as Hxl; [|case_decide as Hf]; destruct e'; cbn; rewrite ?elem_of_app; try rewrite Hqx, ?El; set_solver.
Qed.

Lemma make_ready_self s x : local_ok s x -> container s x = None -> sleeping (pcs s x) = true ->
  local_ok (make_ready x s) x /\ ready_list (pcs (make_ready x s) x) = [] /\ (sleeping (pcs (make_ready x s) x) = false \/ signalled (make_ready x s) x = true).
Proof.
  intros (_ & _ & Hlx) Hc Hs. unfold make_ready. destruct (is_pthread x) eqn:Epx.
  - split_and!; [|by apply sleeping_no_list|right; cbn; by rewrite fn_lookup_insert]. unfold local_ok. cbn. rewrite fn_lookup_insert, Hc.
    unfold local. split; [done|]. split; [by intros [? ?]|]. rewrite Hc in Hlx. destruct (pcs s x); try done; rewrite Epx in *; naive_solver.
  - destruct (pcs s x) as [| | | | | |w b|w| | | | | | | | | | | | | | | |] eqn:Ex; try done; [|by destruct Hlx as (_ & _ & _ & ? & _); congruence].
    destruct Hlx as (_ & Hr & _ & Ha & _). split_and!; cbn; rewrite ?fn_lookup_insert; [|done|by left].
    unfold local_ok. cbn. rewrite fn_lookup_insert, Hc, Hr. by apply local_awake; rewrite ?Epx.
Qed.

(** The waiter [x] at the head of the list of [t] is made ready. *)
Lemma inv_make_ready s t x ts k : inv s -> pcs s t = MakeReady (x :: ts) k -> inv (set_pc t (MakeReady ts k) (make_ready x s)).
Proof.
  intros I Et. destruct (inv_ready s I) as (Rn & Rl & Ru & Rs). pose proof (Rn t) as Hn. rewrite Et in Hn. apply NoDup_cons in Hn as (Hx & Hn).
  destruct (Rl t x) as (Hc & Hs & Hg); [rewrite Et; set_solver|]. assert (t <> x) as Hne by (intros ->; by rewrite Et in Hs).
  pose proof (inv_local s I t) as (_ & _ & Hlt). rewrite Et in Hlt. cbn in Hlt.
  assert (container s t = None) as Hct by (apply (local_container s); [done|by rewrite Et]).
  set (s1 := make_ready x s). assert (forall y, y <> x -> same_thread s s1 y) as Hsame.
  { intros y Hy. subst s1. unfold make_ready. destruct (is_pthread x); [|destruct (pcs s x)]; repeat split; cbn; by rewrite ?fn_lookup_insert_ne. }
  assert (ev s1 = ev s /\ bound s1 = bound s /\ holds s1 = holds s /\ container s1 = container s) as (Ee & Eb & Eh & Ec).
  { subst s1. unfold make_ready. destruct (is_pthread x); [|destruct (pcs s x)]; done. }
  destruct (make_ready_self s x (inv_local s I x) Hc Hs) as (Hl1 & Hr1 & Hs1). fold s1 in Hl1, Hr1, Hs1.
  assert (forall y, y <> x -> y <> t -> pcs (set_pc t (MakeReady ts k) s1) y = pcs s y) as Ho.
  { intros y H1 H2. cbn. rewrite fn_lookup_insert_ne by done. by destruct (Hsame y H1). }
  assert (forall y, ready_list (pcs (set_pc t (MakeReady ts k) s1) y) = if decide (y = t) then ts else ready_list (pcs s y)) as Er.
  { intros y. case_decide; subst; [cbn; by rewrite fn_lookup_insert|]. destruct (decide (y = x)) as [->|]; [|by rewrite Ho].
    cbn. rewrite fn_lookup_insert_ne, Hr1 by done. by rewrite (sleeping_no_list (pcs s x)). }
  assert (forall z y, z ∈ ready_list (pcs (set_pc t (MakeReady ts k) s1) y) -> z ∈ ready_list (pcs s y) /\ z <> x) as Hold.
  { intros z y. rewrite Er. case_decide; subst.
    - intros Hz. rewrite Et. cbn. set_solver.
    - intros Hz. split; [done|]. intros ->. destruct (Ru y t x); [done|rewrite Et; set_solver|done]. }
  constructor.
  - by apply (mutex_frame s); [apply (inv_mutex s I)|cbn; rewrite ?Ee..].
  - apply (queues_frame s); [apply (inv_queues s I)|cbn; by rewrite Ee|cbn; by rewrite Ec].
  - split_and!.
    + intros y. rewrite Er. by case_decide.
    + intros y z Hz. destruct (Hold z y Hz) as (Hz0 & Hzx). destruct (Rl y z Hz0) as (A & B & C).
      assert (z <> t) as Hzt by (intros ->; by rewrite Et in B). destruct (Hsame z Hzx) as (_ & _ & E3 & _ & _ & E6). rewrite Ho by done. cbn. by rewrite E3, E6.
    + intros y1 y2 z Hz1 Hz2. apply (Ru y1 y2 z); by apply Hold.
    + intros z Hz Hcz. destruct (decide (z = x)) as [->|Hzx].
      { left. cbn in *. rewrite fn_lookup_insert_ne in Hz by done. destruct Hs1; congruence. }
      assert (z <> t) as Hzt by (intros ->; cbn in Hz; by rewrite fn_lookup_insert in Hz). rewrite Ho in Hz by done. cbn in Hcz.
      destruct (Hsame z Hzx) as (_ & _ & E3 & _ & _ & E6). rewrite E3 in Hcz. destruct (Rs z Hz Hcz) as [Hg'|(y & Hy)]; [left; cbn; by rewrite E6|].
      right. exists y. rewrite Er. case_decide; subst; [|done]. rewrite Et in Hy. cbn in Hy. set_solver.
  - intros y. destruct (decide (t = y)) as [<-|Hty].
    + unfold local_ok. cbn. rewrite fn_lookup_insert. destruct (Hsame t Hne) as (_ & -> & -> & -> & -> & ->). rewrite Hct, Hlt. by apply local_simple.
    + apply (local_same s1); [|done|repeat split; cbn; by rewrite fn_lookup_insert_ne]. destruct (decide (y = x)) as [->|Hyx]; [done|].
      by apply (local_same s); [apply (inv_local s I)|..|apply Hsame].
Qed.

Lemma inv_cond_exchange s t v timed : inv s -> pcs s t = CondExchange v timed -> inv (set_pc t (UnlockExchange (WaitCond v timed)) (set_bound s)).
Proof.
  intros I Et. pose proof (inv_local s I t) as (_ & _ & Hl). rewrite Et in Hl. destruct Hl as (Hh & _ & Ha).
  destruct (inv_mutex s I) as (_ & _ & Hu). destruct (outside_plain s t I) as (H1 & H2 & _); [by rewrite Et|]. constructor.
  - by apply (mutex_frame s); [apply (inv_mutex s I)|..].
  - by apply (queues_frame s); [apply (inv_queues s I)|..].
  - by apply (ready_frame s _ t (UnlockExchange (WaitCond v timed))); [apply (inv_ready s I)|..].
  - intros t'. unfold local_ok. cbn. destruct (decide (t = t')) as [<-|Hne].
    + rewrite fn_lookup_insert, (local_container s), Ha by done. by apply local_simple.
    + rewrite fn_lookup_insert_ne by done. pose proof (inv_local s I t') as (L1 & L2 & L3). split; [done|]. split; [done|].
      destruct (pcs s t') eqn:Et'; try done. destruct L3 as (Hh' & _). by destruct Hne; apply Hu.
Qed.

Lemma inv_go s t d s' : inv s -> go t d s = Some s' -> inv s'.
Proof.
  intros I. pose proof (inv_local s I t) as (_ & _ & Hl).
  unfold_go.
  assert (forall p s', plain (pcs s t) = true -> sleeping p = false -> ready_list p = [] -> (forall e, waiters (ev s' e) = waiters (ev s e)) ->
    value (ev s' Mutex) = value (ev s Mutex) -> pcs s' = <[t := p]> (pcs s) -> container s' = container s -> bound s' = bound s -> holds s' = holds s ->
    state s' = state s -> armed s' = armed s -> signalled s' = signalled s -> local t (bound s) p (holds s t) None (state s t) false (signalled s t) -> inv s') as Hgo.
  { intros p s2 Hp H3 H4 Ew Ev Ep Ec Eb Eh Es Ea Eg Hl'. apply (inv_goto s s2 t p I); try done. by rewrite Ep. }
  destruct (pcs s t) as [|timed|w|e v w|e v w|e v w|w b|w|w|k|e k|e| |[|x ts] k|timed|v timed|v timed| | | |timed|sig|v|v] eqn:Et; intros Hr; try done.
  - destruct (exchange_locked (value (ev s Mutex))) as [prev v] eqn:Ex. injection Hr as <-.
    destruct (inv_lock_step s t timed _ (Exchange (ForLock timed)) I (or_intror (ex_intro _ timed Et)) (or_introl eq_refl) prev v Ex eq_refl) as (H & _).
    by destruct (prev =? 0).
  - injection Hr as <-. by apply inv_exchange.
  - injection Hr as <-. by apply inv_check.
  - injection Hr as <-. by apply inv_prepare.
  - injection Hr as <-. by apply inv_enqueue.
  - destruct (signalled s t) eqn:Eg; [|done]. injection Hr as <-. by apply (inv_signalled s t w b).
  - injection Hr as <-. by apply inv_futex_timed_out.
  - injection Hr as <-. by apply inv_awake.
  - injection Hr as <-. by apply inv_unlock.
  - injection Hr as <-. by apply inv_dequeue.
  - injection Hr as <-. by apply inv_dequeue_all.
  - injection Hr as <-. by apply inv_requeue.
  - destruct k as [|v timed]; injection Hr as <-; [apply (Hgo Idle)|apply (Hgo (Check Cond v (ForCond timed)))]; try done; by apply local_simple.
  - injection Hr as <-. by apply inv_make_ready.
  - injection Hr as <-. apply (Hgo (CondBind (value (ev s Cond)) timed)); try done. apply local_simple. by destruct Hl.
  - injection Hr as <-. destruct Hl as (Hh & _). eapply Hgo; try done; destruct (bound s) eqn:Eb; try done; by apply local_simple.
  - injection Hr as <-. destruct Hl as (Hh & Hb & _). rewrite Hb. by apply inv_cond_exchange.
  - injection Hr as <-. apply (Hgo (Dequeue Cond Done)); try done; first [by apply local_simple|cbn; intros e; by upd].
  - injection Hr as <-. eapply Hgo; try done; destruct (bound s) eqn:Eb; try done; by apply local_simple.
  - injection Hr as <-. apply (Hgo Requeue); try done; first [by apply local_simple|cbn; intros e; by upd].
  - injection Hr as <-. eapply Hgo; try done; case_if; try done; zbool; by apply local_simple.
  - injection Hr as <-. eapply Hgo; try done; first [cbn; intros e; by upd|case_if; (done || by apply local_simple)].
  - injection Hr as <-. apply (Hgo Idle); try done; first [by apply local_simple|cbn; intros e; by upd].
  - injection Hr as <-. apply (Hgo Idle); try done; first [by apply local_simple|cbn; intros e; by upd].
Qed.

Lemma sync_step_inv s t c s' : inv s -> step t c s = Some s' -> inv s'.
Proof.
  intros I Hs. destruct c as [| | | | | | | | | |d| | |]; cbn [step] in Hs.
  all: try (destruct (pcs s t) eqn:Et; try done; by eapply inv_call).
  - by eapply inv_go.
  - destruct (pcs s t) as [| | | | | |w []| | | | | | | | | | | | | | | | |] eqn:Et; try done. destruct (is_pthread t) eqn:Ep; [|done].
    injection Hs as <-. by apply inv_time_out.
  - destruct (armed s t) eqn:Ea; [|done]. injection Hs as <-. pose proof (inv_local s I t) as (_ & _ & Hl). rewrite Ea in Hl. apply inv_erase_wakeup.
    + apply (inv_flags s _ t I); try done; cbn; [intros t' Hne; by rewrite fn_lookup_insert_ne|right; by rewrite fn_lookup_insert].
    + intros _. cbn. destruct (pcs s t); try naive_solver.
  - injection Hs as <-. apply inv_erase_wakeup; [|done]. apply (inv_flags s _ t I); try done. by left.
Qed.

Definition reachable (n : Z) : sys -> Prop := rtc (fun s s' => exists t c, step t c s = Some s') (start n).

Lemma sync_reachable n s : reachable n s -> inv s.
Proof.
  intros H. unfold reachable in H. apply rtc_ind_r with (P := inv) in H; [done|apply sync_start_inv|].
  intros s1 s2 _ (t & c & Hs) I. by eapply sync_step_inv.
Qed.

(** ** What a step does to the other threads *)

Definition undisturbed (s s' : sys) (t : Z) : Prop :=
  (pcs s' t = pcs s t \/ exists w b, pcs s t = Asleep w b /\ pcs s' t = Awake w) /\
  (container s t = None -> container s' t = None) /\ state s' t = state s t /\ holds s' t = holds s t.

Lemma undisturbed_same s s' t : same_thread s s' t -> undisturbed s s' t.
Proof. intros (E1 & E2 & E3 & E4 & E5 & E6). unfold undisturbed. rewrite E1, E2, E3, E4. split; [by left|done]. Qed.

Lemma make_ready_others s x t : undisturbed s (make_ready x s) t /\ ev (make_ready x s) = ev s.
Proof.
  unfold make_ready, undisturbed. destruct (is_pthread x); [split; [split; [by left|done]|done]|].
  destruct (pcs s x) as [| | | | | |w b|w| | | | | | | | | | | | | | | |] eqn:Ex; try (split; [split; [by left|done]|done]).
  split; [|done]. split; [|done]. cbn. upd; [right; eauto|by left].
Qed.

Lemma returned_others s s1 u t w r : u <> t -> undisturbed s s1 t -> undisturbed s (returned u w r s1) t.
Proof. intros Hne H. unfold undisturbed in *. cbn. by rewrite fn_lookup_insert_ne. Qed.

Lemma set_pc_others s s1 u t p : u <> t -> undisturbed s s1 t -> undisturbed s (set_pc u p s1) t.
Proof. intros Hne H. unfold undisturbed in *. cbn. by rewrite fn_lookup_insert_ne. Qed.

Lemma self_others s s' u t : u <> t -> pcs s' t = pcs s t -> container s' t = container s t -> state s' t = state s t -> holds s' t = holds s t -> undisturbed s s' t.
Proof. intros _ E1 E2 E3 E4. unfold undisturbed. rewrite E1, E2, E3, E4. split; [by left|done]. Qed.

Ltac self Hne := apply (self_others _ _ _ _ Hne); cbn; rewrite ?fn_lookup_insert_ne by done; done.

Lemma dequeued_others s s' (ts : list Z) c t : (forall x, container s' x = if bool_decide (x ∈ ts) then c else container s x) -> (c = None \/ t ∉ ts) ->
  container s t = None -> container s' t = None.
Proof. intros Hc Ht Hn. rewrite Hc. case_bool_decide; [|done]. by destruct Ht. Qed.

Lemma go_others s u d s' t : inv s -> u <> t -> go u d s = Some s' -> undisturbed s s' t.
Proof.
  intros I Hne. destruct (inv_queues s I) as (_ & Hq). unfold_go.
  destruct (pcs s u) as [|timed|w|e v w|e v w|e v w|w b|w|w|k|e k|e| |[|x ts] k|timed|v timed|v timed| | | |timed|sig|v|v] eqn:Et; intros Hr; try done.
  - destruct (exchange_locked (value (ev s Mutex))) as [prev v]. injection Hr as <-. destruct (prev =? 0); self Hne.
  - injection Hr as <-. unfold lock_contended. destruct (negb _); self Hne.
  - injection Hr as <-. unfold check_value. destruct (negb _); self Hne.
  - injection Hr as <-. unfold prepare. destruct d; [self Hne|destruct (is_pthread u); self Hne..].
  - injection Hr as <-. unfold enqueue. destruct (is_pthread u), (negb _); [self Hne|destruct (interrupted s u); self Hne|self Hne|destruct (_ && _); self Hne].
  - destruct (signalled s u); [|done]. injection Hr as <-. self Hne.
  - injection Hr as <-. unfold futex_timed_out. destruct (signalled s u); [self Hne|]. destruct (container s u); self Hne.
  - injection Hr as <-. self Hne.
  - injection Hr as <-. self Hne.
  - injection Hr as <-. unfold dequeue. destruct (waiters (ev s e)) as [|front l] eqn:El; [self Hne|]. apply set_pc_others; [done|].
    unfold undisturbed. cbn. split; [by left|]. split; [|done]. intros Hn. by upd.
  - injection Hr as <-. unfold dequeue_all, dequeued. apply set_pc_others; [done|].
    destruct (fold_container (waiters (ev s e)) None (set_waiters e [] s)) as (Hc & Ee & Eb & Ep & Eh & Es & Ea & Eg).
    unfold undisturbed. rewrite Ep, Es, Eh. split; [by left|]. split; [|done]. apply (dequeued_others _ _ _ _ _ Hc). by left.
  - injection Hr as <-. unfold requeue, requeued. destruct (waiters (ev s Cond)) as [|front l] eqn:El; [self Hne|]. apply set_pc_others; [done|].
    set (s1 := set_container front None (set_waiters Mutex (waiters (ev s Mutex) ++ l) (set_waiters Cond [] s))).
    destruct (fold_container l (Some Mutex) s1) as (Hc & Ee & Eb & Ep & Eh & Es & Ea & Eg).
    unfold undisturbed. rewrite Ep, Es, Eh. split; [by left|]. split; [|done]. intros Hn.
    apply (dequeued_others _ _ _ _ _ Hc); [right|cbn; by upd]. intros Hin. assert (container s t = Some Cond) by (apply Hq; rewrite El; set_solver). congruence.
  - destruct k; injection Hr as <-; self Hne.
  - injection Hr as <-. apply set_pc_others; [done|]. apply make_ready_others.
  - injection Hr as <-. self Hne.
  - injection Hr as <-. self Hne.
  - injection Hr as <-. destruct (bound s); self Hne.
  - injection Hr as <-. self Hne.
  - injection Hr as <-. self Hne.
  - injection Hr as <-. self Hne.
  - injection Hr as <-. self Hne.
  - injection Hr as <-. self Hne.
  - injection Hr as <-. self Hne.
  - injection Hr as <-. self Hne.
Qed.

Lemma erase_wakeup_others s u x t : u <> t -> undisturbed s (erase_and_wakeup u x s) t.
Proof.
  intros Hne. unfold erase_and_wakeup, make_ready. destruct (container s u) as [e|]; [|by apply undisturbed_same]. destruct (is_pthread u); [self Hne|].
  cbn. destruct (pcs s u); self Hne.
Qed.

Lemma call_others s u c s' t : u <> t -> call u c s = Some s' -> undisturbed s s' t.
Proof.
  intros Hne Hs. destruct c; cbn [call] in Hs; try done.
  2: { destruct (exchange_locked (value (ev s Mutex))) as [prev v]. injection Hs as <-. destruct (prev =? 0); self Hne. }
  2,3: destruct (holds s u); [|done].
  all: injection Hs as <-; try self Hne; case_if; self Hne.
Qed.

Lemma step_others s u c s' t : inv s -> u <> t -> step u c s = Some s' -> undisturbed s s' t.
Proof.
  intros I Hne Hs. destruct c as [| | | | | | | | | |d| | |]; cbn [step] in Hs.
  all: try (destruct (pcs s u) eqn:Et; try done; by eapply call_others).
  - by eapply go_others.
  - destruct (pcs s u) as [| | | | | |w []| | | | | | | | | | | | | | | | |]; try done. destruct (is_pthread u); [|done]. injection Hs as <-. self Hne.
  - destruct (armed s u); [|done]. injection Hs as <-. pose proof (erase_wakeup_others (set_armed u false s) u TIMEDOUT t Hne) as H. exact H.
  - injection Hs as <-. pose proof (erase_wakeup_others (set_interrupted u true s) u INTERRUPTED t Hne) as H. exact H.
Qed.

(** ** Mutual exclusion *)

(** Inside of [fiber_cond_wait] or [fiber_cond_timedwait]. *)
Definition why_cond (w : why) : bool := match w with ForCond _ | ForRelock _ => true | _ => false end.
Definition in_cond_wait (p : pc) : bool :=
  match p with
  | CondLoad _ | CondBind _ _ | CondExchange _ _ | UnlockExchange (WaitCond _ _) | Dequeue _ (WaitCond _ _) | MakeReady _ (WaitCond _ _) => true
  | Exchange w | Check _ _ w | Prepare _ _ w | Enqueue _ _ w | Asleep w _ | FutexTimedOut w | Awake w => why_cond w
  | _ => false
  end.

(** The return of a wait inside of [fiber_cond_wait]: it fails only when it is
    timed, which the second one is not. *)
Lemma returned_in_cond t w r s : why_cond w = true -> (r = Some ETIMEDOUT \/ r = Some ESTOP -> timed_of w = true) ->
  in_cond_wait (pcs (returned t w r s) t) = true.
Proof.
  intros Hw Hr. cbn. rewrite fn_lookup_insert. destruct w as [b|b|rc|b]; try done. destruct r as [[]|]; try done; by destruct Hr; auto.
Qed.

Lemma go_in_cond s t d s' : inv s -> in_cond_wait (pcs s t) = true -> go t d s = Some s' ->
  in_cond_wait (pcs s' t) = true \/ (pcs s' t = Idle /\ holds s' t = true).
Proof.
  intros I Hin. pose proof (inv_local s I t) as (_ & _ & Hl).
  unfold_go.
  destruct (pcs s t) as [|timed|w|e v w|e v w|e v w|w b|w|w|[|v timed]|e [|v timed]|e| |[|x ts] [|v timed]|timed|v timed|v timed| | | |timed|sig|v|v] eqn:Et;
    intros Hr; try done; cbn in Hin.
  - injection Hr as <-. unfold lock_contended. destruct (negb _); cbn; rewrite !fn_lookup_insert; [by left|by right].
  - injection Hr as <-. left. unfold check_value. destruct (negb _); [apply returned_in_cond; naive_solver|]. cbn. rewrite fn_lookup_insert. by destruct (timed_of w).
  - injection Hr as <-. left. destruct Hl as (_ & _ & _ & _ & Ht & _). unfold prepare. destruct d; [by apply returned_in_cond| |].
    + destruct (is_pthread t); [cbn; by rewrite fn_lookup_insert|by apply returned_in_cond].
    + cbn. by rewrite fn_lookup_insert.
  - injection Hr as <-. left. unfold enqueue. destruct (is_pthread t), (negb _); try (apply returned_in_cond; naive_solver).
    + destruct (interrupted s t); [apply returned_in_cond; naive_solver|]. cbn. by rewrite fn_lookup_insert.
    + cbn. by rewrite fn_lookup_insert.
    + destruct (_ && _); cbn; by rewrite fn_lookup_insert.
  - destruct (signalled s t); [|done]. injection Hr as <-. left. cbn. by rewrite fn_lookup_insert.
  - injection Hr as <-. left. destruct Hl as (_ & _ & Ht & _). unfold futex_timed_out. destruct (signalled s t); [by apply returned_in_cond|].
    destruct (container s t); [by apply returned_in_cond|]. cbn. by rewrite fn_lookup_insert.
  - injection Hr as <-. left. unfold awake. apply returned_in_cond; [done|]. destruct Hl as (Hx & _).
    destruct (is_pthread t); [destruct (interrupted s t); naive_solver|]. destruct (state s t), (interrupted s t); naive_solver.
  - injection Hr as <-. left. cbn. rewrite fn_lookup_insert. by destruct (_ =? _).
  - injection Hr as <-. left. unfold dequeue. destruct (waiters (ev s e)); cbn; by rewrite fn_lookup_insert.
  - injection Hr as <-. left. cbn. by rewrite fn_lookup_insert.
  - injection Hr as <-. left. cbn. by rewrite fn_lookup_insert.
  - injection Hr as <-. left. cbn. by rewrite fn_lookup_insert.
  - injection Hr as <-. left. cbn. rewrite fn_lookup_insert. by destruct (bound s).
  - injection Hr as <-. destruct Hl as (Hh & Hb & _). rewrite Hb. left. cbn. by rewrite fn_lookup_insert.
Qed.

Lemma erase_wakeup_in_cond s t x : in_cond_wait (pcs s t) = true -> in_cond_wait (pcs (erase_and_wakeup t x s) t) = true.
Proof.
  intros H. unfold erase_and_wakeup, make_ready. destruct (container s t); [|done]. destruct (is_pthread t); [done|]. cbn.
  destruct (pcs s t) eqn:Et; cbn in *; rewrite ?fn_lookup_insert, ?Et; done.
Qed.

Lemma step_in_cond s u c s' t : inv s -> in_cond_wait (pcs s t) = true -> step u c s = Some s' ->
  in_cond_wait (pcs s' t) = true \/ (pcs s' t = Idle /\ holds s' t = true).
Proof.
  intros I Hin Hs. destruct (decide (u = t)) as [->|Hne]; cycle 1.
  { left. destruct (step_others s u c s' t I Hne Hs) as ([-> | (w & b & E1 & E2)] & _); [done|]. rewrite E2. by rewrite E1 in Hin. }
  destruct c as [| | | | | | | | | |d| | |]; cbn [step] in Hs.
  all: try (by destruct (pcs s t); cbn in Hin).
  - by eapply go_in_cond.
  - left. destruct (pcs s t) as [| | | | | |w []| | | | | | | | | | | | | | | | |]; try done. destruct (is_pthread t); [|done]. injection Hs as <-.
    cbn. by rewrite fn_lookup_insert.
  - left. destruct (armed s t); [|done]. injection Hs as <-. by apply erase_wakeup_in_cond.
  - left. injection Hs as <-. by apply erase_wakeup_in_cond.
Qed.

(** C15: in every interleaving of locks with and without deadlines, unlocks,
    waits, signals and broadcasts, time-outs and interruptions, at most one
    thread holds the fiber mutex, the word of the mutex says whether one does,
    and [fiber_cond_wait] returns to a caller that holds it again. *)
Theorem fiber_mutex_exclusion n s : reachable n s ->
  (forall t t', holds s t = true -> holds s t' = true -> t = t') /\
  (value (ev s Mutex) = 0 <-> forall t, holds s t = false) /\
  (forall u c s' t, step u c s = Some s' -> in_cond_wait (pcs s t) = true ->
     in_cond_wait (pcs s' t) = true \/ (pcs s' t = Idle /\ holds s' t = true)).
Proof.
  intros I%sync_reachable. destruct (inv_mutex s I) as (_ & Hh & Hu). split_and!; [done| |].
  - split.
    + intros E t. destruct (holds s t) eqn:Et; [|done]. exfalso. apply (proj2 Hh); eauto.
    + intros Hf. destruct (decide (value (ev s Mutex) = 0)) as [|Hne]; [done|]. apply Hh in Hne as (t & Ht). by rewrite Hf in Ht.
  - intros u c s' t Hs Hin. by eapply step_in_cond.
Qed.

(** ** No wake-up is lost *)

Definition int_ok (v : Z) : Prop := - 2 ^ 31 <= v < 2 ^ 31.

(** What is asked of the callers: no pthread locks with a deadline, and the
    latch counts down in [int]s, neither overflows nor is reset to 0. *)
Definition fair (s : sys) (t : Z) (c : choice) : Prop :=
  match c with
  | Lock true => is_pthread t = false
  | ResetLatch v => int_ok v /\ v <> 0
  | LatchSignal sig => 0 <= sig
  | AddCount v => int_ok v
  | Go _ => match pcs s t with LatchAdd v => int_ok (value (ev s Latch) + v) | _ => True end
  | _ => True
  end.

Definition fair_reachable (n : Z) : sys -> Prop := rtc (fun s s' => exists t c, fair s t c /\ step t c s = Some s') (start n).

Definition timed_lock (p : pc) : bool :=
  match p with
  | FastLock b => b
  | Exchange (ForLock b) | Check _ _ (ForLock b) | Prepare _ _ (ForLock b) | Enqueue _ _ (ForLock b) | Asleep (ForLock b) _ | FutexTimedOut (ForLock b)
  | Awake (ForLock b) => b
  | _ => false
  end.

Definition latch_arg (p : pc) : Prop :=
  match p with LatchSub sig => 0 <= sig | LatchReset v | LatchAdd v => 0 < v /\ int_ok v | _ => True end.

(** A waiter that was taken from its queue and will try to lock the mutex. *)
Definition comes_back (t : Z) (w : why) (x : WaiterState) : Prop :=
  match w with
  | ForCond _ => True
  | ForLatch _ => False
  | _ => x <> TIMEDOUT /\ (is_pthread t = true -> timed_of w = false)
  end.

(** A thread that will mark the mutex as contended, lock it or wake a waiter
    of it. *)
Definition rescues (s : sys) (t : Z) : Prop :=
  match pcs s t with
  | Dequeue Mutex _ | Exchange _ => True
  | Asleep w _ | FutexTimedOut w | Awake w => container s t = None /\ comes_back t w (state s t)
  | _ => False
  end.

Record alive (s : sys) : Prop := {
  alive_timed : forall t, timed_lock (pcs s t) = true -> is_pthread t = false;
  alive_args : forall t, latch_arg (pcs s t);
  alive_range : int_ok (value (ev s Latch));
  alive_mutex : waiters (ev s Mutex) = [] \/ value (ev s Mutex) = FIBER_MUTEX_CONTENDED \/ exists t, rescues s t;
  alive_latch : waiters (ev s Latch) = [] \/ 0 < value (ev s Latch) \/ exists t, pcs s t = DequeueAll Latch;
}.

Lemma alive_start n : int_ok n -> alive (start n).
Proof. intros Hn. constructor; cbn; try done; by left. Qed.

Lemma rescues_undisturbed s s' t : undisturbed s s' t -> rescues s t -> rescues s' t.
Proof.
  intros (Hp & Hc & Hs & _). unfold rescues. rewrite Hs. destruct Hp as [-> | (w & b & E1 & E2)].
  - destruct (pcs s t); try done; naive_solver.
  - rewrite E1, E2. naive_solver.
Qed.

(** The return of a wait of a thread that comes back. *)
Lemma returned_rescues s s1 t w r : comes_back t w (state s t) -> (r = Some ETIMEDOUT \/ r = Some ESTOP -> exists b, w = ForCond b) ->
  rescues (returned t w r s1) t.
Proof.
  intros Hc Hr. unfold rescues. cbn. rewrite fn_lookup_insert. destruct w as [b|b|rc|b]; cbn in Hc; try done.
  - destruct r as [[]|]; try done; by destruct Hr as (? & ?); auto.
  - destruct r as [[]|]; try done; by destruct Hr as (? & ?); auto.
Qed.

(** The first waiter of the mutex comes back. *)
Lemma queued_comes_back s t : inv s -> alive s -> container s t = Some Mutex -> exists w, (pcs s t = FutexTimedOut w \/ exists b, pcs s t = Asleep w b) /\ comes_back t w (state s t).
Proof.
  intros I A Hc. pose proof (inv_local s I t) as (Hs & _ & Hl). pose proof (alive_timed s A t) as Ht. rewrite Hc in Hs, Hl.
  destruct (pcs s t) as [| | | | | |w b|w| | | | | | | | | | | | | | | |] eqn:Et; cbn in Hs; try (by specialize (Hs eq_refl)).
  - destruct Hl as (Hm & Hr & _). exists w. split; [right; eauto|]. rewrite Hr. destruct (Hm Mutex eq_refl) as [Hh|(_ & Hh)]; destruct w as [[]|[]| |[]]; cbn in *; try done.
    split; [done|]. intros Hp. by rewrite Ht in Hp.
  - destruct Hl as (Hm & Hr & _). exists w. split; [by left|]. rewrite Hr. destruct (Hm Mutex eq_refl) as [Hh|(_ & Hh)]; destruct w as [[]|[]| |[]]; cbn in *; try done.
    split; [done|]. intros Hp. by rewrite Ht in Hp.
Qed.

(** The queue of the mutex is empty, the mutex is marked, or somebody will see
    to it. *)
Definition looked_after (s : sys) : Prop :=
  waiters (ev s Mutex) = [] \/ value (ev s Mutex) = FIBER_MUTEX_CONTENDED \/ exists t, rescues s t.

Lemma go_rescues s t d s' : inv s -> alive s -> rescues s t -> go t d s = Some s' -> looked_after s'.
Proof.
  intros I A Hr. pose proof (inv_local s I t) as (_ & _ & Hl). unfold rescues in Hr. unfold_go.
  destruct (pcs s t) as [| |w| | | |w b|w|w| |[] k| | | | | | | | | | | | |] eqn:Et; try done; intros Hs.
  - right; left. injection Hs as <-. unfold lock_contended. destruct (negb _); cbn; by rewrite fn_lookup_insert.
  - destruct (signalled s t); [|done]. injection Hs as <-. right; right. exists t. unfold rescues. cbn. by rewrite fn_lookup_insert.
  - destruct Hr as (Hc & Hb). destruct Hl as (_ & _ & Ht & Hp & _). injection Hs as <-. right; right. exists t. unfold futex_timed_out. rewrite Hc.
    assert (exists b, w = ForCond b) as (b & ->) by (destruct w; cbn in *; try done; [destruct Hb as (_ & Hb); rewrite Hb in Ht by done; done|eauto]).
    destruct (signalled s t); [apply (returned_rescues s); [done|eauto]|]. unfold rescues. cbn. by rewrite fn_lookup_insert.
  - destruct Hr as (Hc & Hb). injection Hs as <-. right; right. exists t. apply (returned_rescues s); [done|].
    destruct w as [b|b|rc|b]; cbn in Hb; [|eauto| |done]; destruct Hb as (Hx & _).
    + destruct (is_pthread t); [destruct (interrupted s t); naive_solver|]. destruct (state s t), (interrupted s t); naive_solver.
    + destruct (is_pthread t); [destruct (interrupted s t); naive_solver|]. destruct (state s t), (interrupted s t); naive_solver.
  - injection Hs as <-. destruct (inv_queues s I) as (_ & Hq). unfold dequeue. destruct (waiters (ev s Mutex)) as [|front l] eqn:El; [left; by cbn|].
    right; right. exists front. assert (container s front = Some Mutex) as Hf by (apply Hq; rewrite El; set_solver).
    assert (t <> front) as Hne by (intros ->; rewrite (local_container s) in Hf; [done|done|by rewrite Et]).
    destruct (queued_comes_back s front I A Hf) as (w & Hw & Hb). unfold rescues. cbn. rewrite fn_lookup_insert_ne, fn_lookup_insert by done.
    by destruct Hw as [-> | (b & ->)].
Qed.

Lemma step_rescues s u c s' t : inv s -> alive s -> rescues s t -> step u c s = Some s' -> looked_after s'.
Proof.
  intros I A Hr Hs. destruct (decide (u = t)) as [->|Hne]; [|right; right; exists t; apply (rescues_undisturbed s); [by eapply step_others|done]].
  assert (forall s1, container s1 = container s -> pcs s1 = pcs s -> state s1 = state s -> container s t = None -> forall x, rescues (erase_and_wakeup t x s1) t) as Herase.
  { intros s1 Ec Ep Es Hc x. unfold erase_and_wakeup. rewrite Ec, Hc. unfold rescues. by rewrite Ep, Ec, Es. }
  assert (container s t = None) as Hc.
  { unfold rescues in Hr. destruct (pcs s t) as [| |w| | | |w b|w|w| |[] k| | | | | | | | | | | | |] eqn:Et; try done; try (apply (local_container s); [done|by rewrite Et]); by destruct Hr. }
  destruct c as [| | | | | | | | | |d| | |]; cbn [step] in Hs.
  all: try (unfold rescues in Hr; by destruct (pcs s t)).
  - by eapply go_rescues.
  - right; right. exists t. unfold rescues in Hr. destruct (pcs s t) as [| | | | | |w []| | | | | | | | | | | | | | | | |]; try done.
    destruct (is_pthread t); [|done]. injection Hs as <-. unfold rescues. cbn. by rewrite fn_lookup_insert.
  - right; right. exists t. destruct (armed s t); [|done]. injection Hs as <-. by apply Herase.
  - right; right. exists t. injection Hs as <-. by apply Herase.
Qed.

(** The waiters of the mutex and of the latch after a step that is not one of
    the queues. *)
Definition no_queue_step (p : pc) : bool :=
  match p with Enqueue _ _ _ | FutexTimedOut _ | Dequeue _ _ | DequeueAll _ | Requeue | MakeReady (_ :: _) _ => false | _ => true end.

Lemma go_waiters s u d s' e : no_queue_step (pcs s u) = true -> go u d s = Some s' -> waiters (ev s' e) = waiters (ev s e).
Proof.
  unfold_go. destruct (pcs s u) as [|timed|w|e' v w|e' v w|e' v w|w b|w|w|k|e' k|e'| |[|x ts] k|timed|v timed|v timed| | | |timed|sig|v|v]; try done; intros _ Hr.
  - destruct (exchange_locked (value (ev s Mutex))) as [prev v]. injection Hr as <-. destruct (prev =? 0); cbn; by upd.
  - injection Hr as <-. unfold lock_contended. destruct (negb _); cbn; by upd.
  - injection Hr as <-. unfold check_value. by destruct (negb _).
  - injection Hr as <-. unfold prepare. destruct d; [done|by destruct (is_pthread u)..].
  - destruct (signalled s u); [|done]. by injection Hr as <-.
  - by injection Hr as <-.
  - injection Hr as <-. cbn. by upd.
  - by destruct k; injection Hr as <-.
  - by injection Hr as <-.
  - by injection Hr as <-.
  - injection Hr as <-. by destruct (bound s).
  - injection Hr as <-. cbn. by upd.
  - by injection Hr as <-.
  - injection Hr as <-. cbn. by upd.
  - by injection Hr as <-.
  - injection Hr as <-. cbn. by upd.
  - injection Hr as <-. cbn. by upd.
  - injection Hr as <-. cbn. by upd.
Qed.

Lemma call_events s u c s' : call u c s = Some s' -> (forall e, waiters (ev s' e) = waiters (ev s e)) /\ value (ev s' Latch) = value (ev s Latch) /\
  (value (ev s Mutex) = FIBER_MUTEX_CONTENDED -> value (ev s' Mutex) = FIBER_MUTEX_CONTENDED).
Proof.
  intros Hs. destruct c; cbn [call] in Hs; try done.
  2: { destruct (exchange_locked (value (ev s Mutex))) as [prev v] eqn:Ex. injection Hs as <-.
       assert (value (ev s Mutex) = FIBER_MUTEX_CONTENDED -> v = FIBER_MUTEX_CONTENDED) as Hv.
       { intros E. rewrite E, exchange_locked_ok in Ex by auto. by injection Ex as <- <-. }
       destruct (prev =? 0); (split_and!; [intros e; cbn; by upd|cbn; by upd|intros E; cbn; rewrite fn_lookup_insert; by apply Hv]). }
  2,3: destruct (holds s u); [|done].
  all: injection Hs as <-; try done; by case_if.
Qed.

Lemma erase_wakeup_events s u x e : (waiters (ev s e) = [] -> waiters (ev (erase_and_wakeup u x s) e) = []) /\
  value (ev (erase_and_wakeup u x s) e) = value (ev s e).
Proof.
  unfold erase_and_wakeup, make_ready. destruct (container s u) as [e'|]; [|done].
  assert ((waiters (ev s e) = [] -> waiters (ev (erase u e' s) e) = []) /\ value (ev (erase u e' s) e) = value (ev s e)) as H.
  { cbn. destruct (decide (e' = e)) as [->|Hne]; [rewrite fn_lookup_insert|by rewrite fn_lookup_insert_ne]. cbn. split; [|done]. by intros ->. }
  destruct (is_pthread u); [exact H|]. cbn in *. destruct (pcs s u); exact H.
Qed.

(** A waiter joins the queue only while the event has the value it expects. *)
Lemma enqueue_events s u e v w e' : inv s -> pcs s u = Enqueue e v w ->
  value (ev (enqueue u e v w s) e') = value (ev s e') /\
  (waiters (ev (enqueue u e v w s) e') = waiters (ev s e') \/ (e' = e /\ value (ev s e) = v /\ expects e v)).
Proof.
  intros I Et. pose proof (inv_local s I u) as (_ & _ & Hl). rewrite Et in Hl. destruct Hl as (_ & Hx & _).
  assert (forall b, (value (ev s e) =? v) = true -> value (ev (set_pc u (Asleep w b) (append u e s)) e') = value (ev s e') /\
    (waiters (ev (set_pc u (Asleep w b) (append u e s)) e') = waiters (ev s e') \/ (e' = e /\ value (ev s e) = v /\ expects e v))) as Ha.
  { intros b E. zbool. cbn. destruct (decide (e = e')) as [<-|Hne]; [rewrite fn_lookup_insert|rewrite fn_lookup_insert_ne by done; by split; [|left]].
    split; [done|by right]. }
  unfold enqueue. destruct (is_pthread u), (value (ev s e) =? v) eqn:E; cbn [negb].
  - destruct (interrupted s u); [by split; [|left]|by apply Ha].
  - by split; [|left].
  - destruct (_ && _); [by apply Ha|by split; [|left]].
  - by split; [|left].
Qed.

Lemma futex_timed_out_events s u w e : (waiters (ev s e) = [] -> waiters (ev (futex_timed_out u w s) e) = []) /\
  value (ev (futex_timed_out u w s) e) = value (ev s e).
Proof.
  unfold futex_timed_out. destruct (signalled s u); [done|]. destruct (container s u) as [e'|]; [|done]. cbn.
  destruct (decide (e' = e)) as [->|Hne]; [rewrite fn_lookup_insert|by rewrite fn_lookup_insert_ne]. cbn. split; [|done]. by intros ->.
Qed.

Lemma wake_events s u e : 
  (forall e' k, (waiters (ev s e) = [] -> waiters (ev (dequeue u e' k s) e) = []) /\ value (ev (dequeue u e' k s) e) = value (ev s e)) /\
  (forall e', (waiters (ev s e) = [] -> waiters (ev (dequeue_all u e' s) e) = []) /\ value (ev (dequeue_all u e' s) e) = value (ev s e) /\ waiters (ev (dequeue_all u e' s) e') = []) /\
  value (ev (requeue u s) e) = value (ev s e) /\ (e = Latch -> waiters (ev (requeue u s) e) = waiters (ev s e)).
Proof.
  split_and!.
  - intros e' k. unfold dequeue. destruct (waiters (ev s e')) as [|front l] eqn:El; [done|]. cbn.
    destruct (decide (e' = e)) as [->|Hne]; [rewrite fn_lookup_insert|by rewrite fn_lookup_insert_ne]. cbn. split; [|done]. congruence.
  - intros e'. unfold dequeue_all, dequeued. destruct (fold_container (waiters (ev s e')) None (set_waiters e' [] s)) as (_ & Ee & _). cbn. rewrite Ee. cbn.
    rewrite fn_lookup_insert. destruct (decide (e' = e)) as [->|Hne]; [by rewrite fn_lookup_insert|by rewrite fn_lookup_insert_ne].
  - unfold requeue, requeued. destruct (waiters (ev s Cond)) as [|front l] eqn:El; [done|].
    destruct (fold_container l (Some Mutex) (set_container front None (set_waiters Mutex (waiters (ev s Mutex) ++ l) (set_waiters Cond [] s)))) as (_ & Ee & _).
    cbn. rewrite Ee. by destruct e.
  - intros ->. unfold requeue, requeued. destruct (waiters (ev s Cond)) as [|front l] eqn:El; [done|].
    destruct (fold_container l (Some Mutex) (set_container front None (set_waiters Mutex (waiters (ev s Mutex) ++ l) (set_waiters Cond [] s)))) as (_ & Ee & _).
    cbn. by rewrite Ee.
Qed.

(** After a broadcast the first waiter comes back. *)
Lemma requeue_rescues s u : inv s -> pcs s u = Requeue -> looked_after s -> looked_after (requeue u s).
Proof.
  intros I Et Hl. destruct (inv_queues s I) as (_ & Hq). unfold requeue. destruct (waiters (ev s Cond)) as [|front l] eqn:El.
  - destruct Hl as [H|[H|(t & Ht)]]; [by left|by right; left|]. right; right. exists t. unfold rescues in *. cbn.
    rewrite fn_lookup_insert_ne; [done|]. intros ->. by rewrite Et in Ht.
  - right; right. exists front. assert (container s front = Some Cond) as Hf by (apply Hq; rewrite El; set_solver).
    assert (u <> front) as Hne by (intros ->; rewrite (local_container s) in Hf; [done|done|by rewrite Et]).
    pose proof (inv_local s I front) as (Hs & _ & Hlf). rewrite Hf in Hs, Hlf. unfold requeued.
    set (s1 := set_container front None (set_waiters Mutex (waiters (ev s Mutex) ++ l) (set_waiters Cond [] s))).
    destruct (fold_container l (Some Mutex) s1) as (Hc & _ & _ & Ep & _ & Es & _). unfold rescues. cbn. rewrite fn_lookup_insert_ne, Ep, Es by done. cbn.
    assert (container (foldr (fun t => set_container t (Some Mutex)) s1 l) front = None) as ->.
    { rewrite Hc, bool_decide_false; [cbn; by rewrite fn_lookup_insert|]. destruct (inv_queues s I) as (Hn & _). specialize (Hn Cond). rewrite El in Hn. by apply NoDup_cons in Hn as (? & _). }
    assert (forall w, may_wait w Cond -> comes_back front w (state s front)) as Hm by (intros w [H|(H & _)]; [by destruct w|done]).
    destruct (pcs s front) as [| | | | | |w b|w| | | | | | | | | | | | | | | |]; cbn in Hs; try (by specialize (Hs eq_refl)); (split; [done|]); apply Hm; by apply Hlf.
Qed.

Lemma returned_self t w r s : (timed_lock (pcs (returned t w r s) t) = true -> timed_lock (Awake w) = true) /\ latch_arg (pcs (returned t w r s) t).
Proof.
  cbn. rewrite fn_lookup_insert. destruct w as [b|b|rc|b]; destruct (match r with Some ETIMEDOUT | Some ESTOP => true | _ => false end); done.
Qed.

(** Where a step can lead: to a lock with a deadline only from one. *)
Lemma go_self s u d s' : go u d s = Some s' -> (timed_lock (pcs s' u) = true -> timed_lock (pcs s u) = true) /\ latch_arg (pcs s' u).
Proof.
  unfold_go. destruct (pcs s u) as [|timed|w|e' v w|e' v w|e' v w|w b|w|w|k|e' k|e'| |[|x ts] k|timed|v timed|v timed| | | |timed|sig|v|v] eqn:Et; try done; intros Hr.
  - destruct (exchange_locked (value (ev s Mutex))) as [prev v]. injection Hr as <-. destruct (prev =? 0); cbn; by rewrite fn_lookup_insert.
  - injection Hr as <-. unfold lock_contended. destruct (negb _); cbn; by rewrite fn_lookup_insert.
  - injection Hr as <-. unfold check_value. destruct (negb _); [apply returned_self|]. cbn. rewrite fn_lookup_insert. by destruct (timed_of w).
  - injection Hr as <-. unfold prepare. destruct d; [apply returned_self|destruct (is_pthread u); [cbn; by rewrite fn_lookup_insert|apply returned_self]|].
    cbn. by rewrite fn_lookup_insert.
  - injection Hr as <-. unfold enqueue.
    destruct (is_pthread u), (negb _), (interrupted s u), (bool_decide (state s u = READY)); (apply returned_self || (cbn; by rewrite fn_lookup_insert)).
  - destruct (signalled s u); [|done]. injection Hr as <-. cbn. by rewrite fn_lookup_insert.
  - injection Hr as <-. unfold futex_timed_out. destruct (signalled s u); [apply returned_self|]. destruct (container s u); [apply returned_self|].
    cbn. by rewrite fn_lookup_insert.
  - injection Hr as <-. apply returned_self.
  - injection Hr as <-. cbn. rewrite fn_lookup_insert. by destruct (_ =? _).
  - injection Hr as <-. unfold dequeue. destruct (waiters (ev s e')); cbn; by rewrite fn_lookup_insert.
  - injection Hr as <-. cbn. by rewrite fn_lookup_insert.
  - injection Hr as <-. unfold requeue. destruct (waiters (ev s Cond)); cbn; by rewrite fn_lookup_insert.
  - destruct k; injection Hr as <-; cbn; by rewrite fn_lookup_insert.
  - injection Hr as <-. cbn. by rewrite fn_lookup_insert.
  - injection Hr as <-. cbn. by rewrite fn_lookup_insert.
  - injection Hr as <-. cbn. rewrite fn_lookup_insert. by destruct (bound s).
  - injection Hr as <-. destruct (bound s); cbn; by rewrite fn_lookup_insert.
  - injection Hr as <-. cbn. by rewrite fn_lookup_insert.
  - injection Hr as <-. cbn. rewrite fn_lookup_insert. by destruct (bound s).
  - injection Hr as <-. cbn. by rewrite fn_lookup_insert.
  - injection Hr as <-. cbn. rewrite fn_lookup_insert. by case_if.
  - injection Hr as <-. cbn. rewrite fn_lookup_insert. by case_if.
  - injection Hr as <-. cbn. by rewrite fn_lookup_insert.
  - injection Hr as <-. cbn. by rewrite fn_lookup_insert.
Qed.

Lemma go_marked s u d s' : inv s -> go u d s = Some s' -> value (ev s Mutex) = FIBER_MUTEX_CONTENDED ->
  value (ev s' Mutex) = FIBER_MUTEX_CONTENDED \/ rescues s' u.
Proof.
  intros I Hr Hv. unfold_go in Hr. destruct (wake_events s u Mutex) as (W1 & W2 & W3 & _).
  destruct (pcs s u) as [|timed|w|e' v w|e' v w|e' v w|w b|w|w|k|e' k|e'| |[|x ts] k|timed|v timed|v timed| | | |timed|sig|v|v] eqn:Et; try done.
  - rewrite Hv, exchange_locked_ok in Hr by auto. injection Hr as <-. left. cbn. by rewrite fn_lookup_insert.
  - injection Hr as <-. left. unfold lock_contended. destruct (negb _); cbn; by rewrite fn_lookup_insert.
  - injection Hr as <-. left. unfold check_value. by destruct (negb _).
  - injection Hr as <-. left. unfold prepare. destruct d; [done|by destruct (is_pthread u)..].
  - injection Hr as <-. left. by rewrite (proj1 (enqueue_events s u e' v w Mutex I Et)).
  - destruct (signalled s u); [|done]. injection Hr as <-. by left.
  - injection Hr as <-. left. by rewrite (proj2 (futex_timed_out_events s u w Mutex)).
  - injection Hr as <-. by left.
  - injection Hr as <-. right. unfold rescues, unlock_exchange. rewrite Hv. cbn. by rewrite fn_lookup_insert.
  - injection Hr as <-. left. by rewrite (proj2 (W1 e' k)).
  - injection Hr as <-. left. destruct (W2 e') as (_ & -> & _). done.
  - injection Hr as <-. left. by rewrite W3.
  - destruct k; injection Hr as <-; by left.
  - injection Hr as <-. left. cbn. by rewrite (proj2 (make_ready_others s x u)).
  - injection Hr as <-. by left.
  - injection Hr as <-. by left.
  - injection Hr as <-. left. by destruct (bound s).
  - injection Hr as <-. by left.
  - injection Hr as <-. by left.
  - injection Hr as <-. by left.
  - injection Hr as <-. by left.
  - injection Hr as <-. by left.
  - injection Hr as <-. by left.
  - injection Hr as <-. by left.
Qed.

Lemma go_empty s u d s' : inv s -> go u d s = Some s' -> waiters (ev s Mutex) = [] -> looked_after s'.
Proof.
  intros I Hr Hw. destruct (no_queue_step (pcs s u)) eqn:En; [left; by rewrite (go_waiters s u d s')|].
  unfold_go in Hr. destruct (wake_events s u Mutex) as (W1 & W2 & _ & _).
  destruct (pcs s u) as [|timed|w|e' v w|e' v w|e' v w|w b|w|w|k|e' k|e'| |[|x ts] k|timed|v timed|v timed| | | |timed|sig|v|v] eqn:Et; try done; injection Hr as <-.
  - destruct (enqueue_events s u e' v w Mutex I Et) as (Ev & [Ew|(<- & Hv & Hx)]); [left; congruence|]. right; left. rewrite Ev, Hv. exact Hx.
  - left. by apply futex_timed_out_events.
  - left. by apply W1.
  - left. by apply W2.
  - apply requeue_rescues; [done|done|by left].
  - left. cbn. by rewrite (proj2 (make_ready_others s x u)).
Qed.

Lemma step_looked_after s u c s' : inv s -> alive s -> step u c s = Some s' -> looked_after s'.
Proof.
  intros I A Hs. destruct (alive_mutex s A) as [Hw|[Hv|(t & Ht)]]; [| |by eapply step_rescues].
  - destruct c as [| | | | | | | | | |d| | |]; cbn [step] in Hs.
    all: try (destruct (pcs s u); try done; left; by rewrite (proj1 (call_events _ _ _ _ Hs))).
    + by eapply go_empty.
    + left. destruct (pcs s u) as [| | | | | |w []| | | | | | | | | | | | | | | | |]; try done. destruct (is_pthread u); [|done]. by injection Hs as <-.
    + left. destruct (armed s u); [|done]. injection Hs as <-. by apply erase_wakeup_events.
    + left. injection Hs as <-. by apply erase_wakeup_events.
  - destruct c as [| | | | | | | | | |d| | |]; cbn [step] in Hs.
    all: try (destruct (pcs s u); try done; right; left; by apply (call_events _ _ _ _ Hs)).
    + destruct (go_marked s u d s' I Hs Hv); [by right; left|right; right; eauto].
    + right; left. destruct (pcs s u) as [| | | | | |w []| | | | | | | | | | | | | | | | |]; try done. destruct (is_pthread u); [|done]. by injection Hs as <-.
    + right; left. destruct (armed s u); [|done]. injection Hs as <-. by rewrite (proj2 (erase_wakeup_events _ _ _ _)).
    + right; left. injection Hs as <-. by rewrite (proj2 (erase_wakeup_events _ _ _ _)).
Qed.

(** ** The latch *)

Definition latch_ok (s : sys) : Prop :=
  int_ok (value (ev s Latch)) /\
  (waiters (ev s Latch) = [] \/ 0 < value (ev s Latch) \/ exists t, pcs s t = DequeueAll Latch).

Lemma s32_int v : int_ok (s32 v).
Proof. unfold int_ok, s32. change (2 ^ 31) with 2147483648. pose proof (Z.mod_pos_bound (v + 2147483648) 4294967296 ltac:(lia)). lia. Qed.

Lemma s32_id v : int_ok v -> s32 v = v.
Proof. unfold int_ok. intros H. apply s32_small. lia. Qed.

(** A step that leaves the counter and adds no waiter. *)
Lemma latch_kept s s' u : latch_ok s -> value (ev s' Latch) = value (ev s Latch) -> (waiters (ev s Latch) = [] -> waiters (ev s' Latch) = []) ->
  (forall t, u <> t -> undisturbed s s' t) -> pcs s u <> DequeueAll Latch -> latch_ok s'.
Proof.
  intros (Hr & Hl) Ev Ew Ho Hu. split; [by rewrite Ev|]. rewrite Ev. destruct Hl as [H|[H|(t & Ht)]]; [left; by apply Ew|by right; left|].
  right; right. exists t. destruct (Ho t) as ([-> | (w & b & E & _)] & _); [intros ->; by apply Hu|done|congruence].
Qed.

Lemma go_latch s u d s' : inv s -> latch_ok s -> latch_arg (pcs s u) -> fair s u (Go d) -> go u d s = Some s' -> latch_ok s'.
Proof.
  intros I L Ha Hf Hr. pose proof (fun t Hne => go_others s u d s' t I Hne Hr) as Ho. cbn in Hf.
  destruct (wake_events s u Latch) as (W1 & W2 & W3 & W4).
  assert (no_queue_step (pcs s u) = true -> value (ev s' Latch) = value (ev s Latch) -> latch_ok s') as Hno.
  { intros Hn Hv. apply (latch_kept s _ u L); [done|by rewrite (go_waiters s u d s')|done|]. intros E. by rewrite E in Hn. }
  unfold_go in Hr. destruct (pcs s u) as [|timed|w|e' v w|e' v w|e' v w|w b|w|w|k|e' k|e'| |[|x ts] k|timed|v timed|v timed| | | |timed|sig|v|v] eqn:Et; try done.
  - destruct (exchange_locked (value (ev s Mutex))) as [prev v]. injection Hr as <-. apply Hno; [done|]. by destruct (prev =? 0).
  - injection Hr as <-. apply Hno; [done|]. unfold lock_contended. by destruct (negb _).
  - injection Hr as <-. apply Hno; [done|]. unfold check_value. by destruct (negb _).
  - injection Hr as <-. apply Hno; [done|]. unfold prepare. destruct d; [done|by destruct (is_pthread u)..].
  - injection Hr as <-. destruct (enqueue_events s u e' v w Latch I Et) as (Ev & [Ew|(<- & Hv & Hx)]).
    + apply (latch_kept s _ u L); [done|by rewrite Ew|done|by rewrite Et].
    + split; rewrite Ev; [apply L|]. right; left. rewrite Hv. exact Hx.
  - destruct (signalled s u); [|done]. injection Hr as <-. by apply Hno.
  - injection Hr as <-. destruct (futex_timed_out_events s u w Latch) as (Ew & Ev). apply (latch_kept s _ u L); try done. by rewrite Et.
  - injection Hr as <-. by apply Hno.
  - injection Hr as <-. by apply Hno.
  - injection Hr as <-. destruct (W1 e' k) as (Ew & Ev). apply (latch_kept s _ u L); try done. by rewrite Et.
  - injection Hr as <-. destruct (W2 e') as (Ew & Ev & Hnil). destruct (decide (e' = Latch)) as [->|Hne].
    + split; [by rewrite Ev; apply L|]. by left.
    + apply (latch_kept s _ u L); try done. rewrite Et. congruence.
  - injection Hr as <-. apply (latch_kept s _ u L); [done|by rewrite W4|done|by rewrite Et].
  - destruct k; injection Hr as <-; by apply Hno.
  - injection Hr as <-. apply (latch_kept s _ u L); cbn; rewrite ?(proj2 (make_ready_others s x u)); try done. by rewrite Et.
  - injection Hr as <-. by apply Hno.
  - injection Hr as <-. by apply Hno.
  - injection Hr as <-. apply Hno; [done|]. by destruct (bound s).
  - injection Hr as <-. by apply Hno.
  - injection Hr as <-. by apply Hno.
  - injection Hr as <-. by apply Hno.
  - injection Hr as <-. by apply Hno.
  - injection Hr as <-. destruct L as (Hi & _). cbn in Ha. split; cbn; rewrite (fn_lookup_insert (ev s)); cbn; [apply s32_int|]. case_if; zbool.
    + right; left. rewrite s32_id; [lia|]. unfold int_ok in *. lia.
    + right; right. exists u. by rewrite fn_lookup_insert.
  - injection Hr as <-. destruct L as (Hi & Hl). cbn in Ha. split; cbn; rewrite (fn_lookup_insert (ev s)); cbn; [apply s32_int|]. rewrite s32_id by done.
    destruct Hl as [H|[H|(t & Ht)]]; [by left|right; left; lia|]. right; right. exists t. rewrite fn_lookup_insert_ne; [done|]. intros ->. congruence.
  - injection Hr as <-. cbn in Ha. split; cbn; rewrite (fn_lookup_insert (ev s)); cbn; [apply Ha|]. right; left. apply Ha.
Qed.

Lemma call_self s u c s' : fair s u c -> pcs s u = Idle -> call u c s = Some s' -> (timed_lock (pcs s' u) = true -> is_pthread u = false) /\ latch_arg (pcs s' u).
Proof.
  intros Hf Et Hs. destruct c as [[]| | | | | | | | | | | | |]; cbn [call] in Hs; try done.
  3: { destruct (exchange_locked (value (ev s Mutex))) as [prev v]. injection Hs as <-. destruct (prev =? 0); cbn; by rewrite Et. }
  3,4: destruct (holds s u); [|done].
  all: injection Hs as <-; cbn; rewrite ?fn_lookup_insert; try done.
  - case_if; zbool; [by rewrite Et|]. cbn. rewrite fn_lookup_insert. cbn in *. split; [done|]. split; [lia|done].
  - case_if; zbool; [by rewrite Et|]. cbn. rewrite fn_lookup_insert. cbn in *. destruct Hf. split; [done|]. split; [lia|done].
Qed.

Lemma call_latch s u c s' : inv s -> latch_ok s -> pcs s u = Idle -> call u c s = Some s' -> latch_ok s'.
Proof.
  intros I L Et Hs. destruct (call_events s u c s' Hs) as (Ew & Ev & _).
  apply (latch_kept s _ u L); [done|by rewrite Ew|intros t Hne; by eapply call_others|by rewrite Et].
Qed.

Lemma erase_wakeup_self s u x : (timed_lock (pcs (erase_and_wakeup u x s) u) = true -> timed_lock (pcs s u) = true) /\
  (latch_arg (pcs s u) -> latch_arg (pcs (erase_and_wakeup u x s) u)) /\ (pcs (erase_and_wakeup u x s) u = pcs s u \/ exists w b, pcs s u = Asleep w b).
Proof.
  unfold erase_and_wakeup, make_ready. destruct (container s u); [|by split_and!; [..|left]]. destruct (is_pthread u); [by split_and!; [..|left]|].
  cbn. destruct (pcs s u) eqn:Et; cbn; rewrite ?fn_lookup_insert, ?Et; split_and!; try done; first [by left|right; eauto].
Qed.

(** The thread that steps, and the latch. *)
Lemma step_self s u c s' : inv s -> alive s -> fair s u c -> step u c s = Some s' ->
  (timed_lock (pcs s' u) = true -> is_pthread u = false) /\ latch_arg (pcs s' u) /\ latch_ok s'.
Proof.
  intros I A Hf Hs. pose proof (alive_timed s A u) as Ht. pose proof (alive_args s A u) as Ha.
  assert (latch_ok s) as L by (split; [apply (alive_range s A)|apply (alive_latch s A)]).
  assert (forall s1 x, pcs s1 = pcs s -> ev s1 = ev s -> (forall t, u <> t -> undisturbed s (erase_and_wakeup u x s1) t) -> latch_ok (erase_and_wakeup u x s1)) as Herase.
  { intros s1 x Ep Ee Ho. destruct (erase_wakeup_events s1 u x Latch) as (Ew & Ev). rewrite Ee in Ew, Ev.
    assert (pcs s u = DequeueAll Latch \/ pcs s u <> DequeueAll Latch) as [E|E] by (destruct (pcs s u) as [| | | | | | | | | | |[]| | | | | | | | | | | |]; tauto || by right);
      [|by apply (latch_kept s _ u L)].
    split; [rewrite Ev; apply L|]. right; right. exists u. destruct (erase_wakeup_self s1 u x) as (_ & _ & [-> | (w & b & H)]); congruence. }
  destruct c as [| | | | | | | | | |d| | |]; cbn [step] in Hs.
  all: try (destruct (pcs s u) eqn:Et; try done; destruct (call_self _ _ _ _ Hf Et Hs); split_and!; [done|done|by eapply call_latch]).
  - destruct (go_self s u d s' Hs) as (H1 & H2). split_and!; [auto|done|by eapply go_latch].
  - destruct (pcs s u) as [| | | | | |w []| | | | | | | | | | | | | | | | |] eqn:Et; try done. destruct (is_pthread u) eqn:Ep; [|done]. injection Hs as <-. cbn.
    rewrite fn_lookup_insert. split_and!; [destruct w; cbn in *; auto|done|].
    apply (latch_kept s _ u L); try done; [|by rewrite Et]. intros t Hne. self Hne.
  - destruct (armed s u); [|done]. injection Hs as <-. destruct (erase_wakeup_self (set_armed u false s) u TIMEDOUT) as (H1 & H2 & _).
    split_and!; [auto|auto|]. apply Herase; [done..|]. intros t Hne. exact (erase_wakeup_others (set_armed u false s) u TIMEDOUT t Hne).
  - injection Hs as <-. destruct (erase_wakeup_self (set_interrupted u true s) u INTERRUPTED) as (H1 & H2 & _).
    split_and!; [auto|auto|]. apply Herase; [done..|]. intros t Hne. exact (erase_wakeup_others (set_interrupted u true s) u INTERRUPTED t Hne).
Qed.

Lemma alive_step s u c s' : inv s -> alive s -> fair s u c -> step u c s = Some s' -> alive s'.
Proof.
  intros I A Hf Hs. destruct (step_self s u c s' I A Hf Hs) as (H1 & H2 & L1 & L2).
  assert (forall t, u <> t -> pcs s' t = pcs s t \/ exists w b, pcs s t = Asleep w b /\ pcs s' t = Awake w) as Ho by (intros t Hne; by apply (step_others s u c)).
  constructor; [| |done|by eapply step_looked_after|done].
  - intros t. destruct (decide (u = t)) as [<-|Hne]; [done|]. pose proof (alive_timed s A t) as H. destruct (Ho t Hne) as [-> | (w & b & E1 & ->)]; [done|]. by rewrite E1 in H.
  - intros t. destruct (decide (u = t)) as [<-|Hne]; [done|]. pose proof (alive_args s A t) as H. by destruct (Ho t Hne) as [-> | (w & b & E1 & ->)].
Qed.

Lemma fair_reachable_alive n s : int_ok n -> fair_reachable n s -> inv s /\ alive s.
Proof.
  intros Hn H. unfold fair_reachable in H. apply rtc_ind_r with (P := fun s => inv s /\ alive s) in H; [done| |].
  - split; [apply sync_start_inv|by apply alive_start].
  - intros s1 s2 _ (t & c & Hf & Hs) (I & A). split; [by eapply sync_step_inv|by eapply alive_step].
Qed.

(** A thread that rescues can go on, or another one makes it ready. *)
Lemma rescuer_runs s t : inv s -> rescues s t ->
  is_Some (step t (Go Scheduled) s) \/ exists t', t ∈ ready_list (pcs s t') /\ is_Some (step t' (Go Scheduled) s).
Proof.
  intros I Hr. destruct (inv_ready s I) as (_ & _ & _ & Rs). unfold rescues in Hr. cbn [step].
  destruct (pcs s t) as [| | | | | |w b|w| | |[] k| | | | | | | | | | | | |] eqn:Et; try done; try (left; unfold go; rewrite Et; eauto; fail).
  destruct Hr as (Hc & _). destruct (Rs t) as [Hg|(t' & Ht')]; [by rewrite Et|done|left; unfold go; rewrite Et, Hg; eauto|].
  right. exists t'. split; [done|]. destruct (pcs s t') as [| | | | | | | | | | | | |[|x ts] k| | | | | | | | | |] eqn:Et'; cbn in Ht'; try (by set_solver).
  unfold go. rewrite Et'. eauto.
Qed.

(** C14: no wake-up is lost.  While somebody waits for a mutex that nobody
    holds there is a thread that will wake a waiter or try to lock and mark
    the mutex, and this thread can take its next step or is being made ready
    by one that can; while somebody waits for a latch whose counter has
    reached 0 there is a thread about to wake all.  The callers are [fair]: no
    pthread locks with a deadline, the latch neither overflows nor is reset to
    0.  This holds with interruptions, time-outs of fibers, and waiters that a broadcast moved
    from the condition variable to the mutex. *)
Theorem fiber_no_lost_wakeup n s : int_ok n -> fair_reachable n s ->
  (forall t, t ∈ waiters (ev s Mutex) -> (forall t', holds s t' = false) ->
     exists t', rescues s t' /\ (is_Some (step t' (Go Scheduled) s) \/ exists t'', t' ∈ ready_list (pcs s t'') /\ is_Some (step t'' (Go Scheduled) s))) /\
  (forall t, t ∈ waiters (ev s Latch) -> value (ev s Latch) <= 0 -> exists t', pcs s t' = DequeueAll Latch /\ is_Some (step t' (Go Scheduled) s)).
Proof.
  intros Hn H. destruct (fair_reachable_alive n s Hn H) as (I & A). split.
  - intros t Ht Hfree. destruct (alive_mutex s A) as [E|[E|(t' & Hr)]]; [rewrite E in Ht; set_solver| |exists t'; split; [done|by apply rescuer_runs]].
    destruct (inv_mutex s I) as (_ & Hh & _). destruct (proj1 Hh) as (t' & Ht'); [by rewrite E|]. by rewrite Hfree in Ht'.
  - intros t Ht Hv. destruct (alive_latch s A) as [E|[E|(t' & E)]]; [rewrite E in Ht; set_solver|lia|]. exists t'. split; [done|]. cbn. unfold go. rewrite E. eauto.
Qed.

Fixpoint exec (sched : list (Z * choice)) (s : sys) : option sys :=
  match sched with
  | [] => Some s
  | (t, c) :: sched => s ← step t c s; exec sched s
  end.

Lemma sync_exec n sched s : exec sched (start n) = Some s -> reachable n s.
Proof.
  unfold reachable. generalize (start n). induction sched as [|[t c] sched IH]; intros s0 Hs; cbn [exec] in Hs; [by injection Hs as <-|].
  destruct (step t c s0) as [s1|] eqn:E; [|done]. apply rtc_l with s1; [by exists t, c|by apply IH].
Qed.

Fixpoint all_fair (sched : list (Z * choice)) (s : sys) : Prop :=
  match sched with
  | [] => True
  | (t, c) :: sched => fair s t c /\ match step t c s with Some s => all_fair sched s | None => True end
  end.

Lemma exec_fair n sched s : all_fair sched (start n) -> exec sched (start n) = Some s -> fair_reachable n s.
Proof.
  unfold fair_reachable. generalize (start n). induction sched as [|[t c] sched IH]; intros s0 Hf Hs; cbn [exec] in Hs; [by injection Hs as <-|].
  cbn in Hf. destruct Hf as (Hf & Hrest). destruct (step t c s0) as [s1|] eqn:E; [|done]. apply rtc_l with s1; [by exists t, c|by apply IH].
Qed.

Definition run (sched : list (Z * choice)) : sys := default (start 0) (exec sched (start 0)).

Lemma run_exec sched : match exec sched (start 0) with Some _ => true | None => false end = true -> exec sched (start 0) = Some (run sched).
Proof. unfold run. by destruct (exec _ _). Qed.

End sync.

Definition gos (n : nat) (t : Z) : list (Z * choice) := replicate n (t, Go Scheduled).

(** Thread 1 locks the mutex, waits on the condition variable together with
    thread 2, and thread 3 broadcasts: thread 2 moves to the queue of the
    mutex. *)
Definition broadcast_run : list (Z * choice) :=
  (1, Lock false) :: gos 1 1 ++ (1, CondWait false) :: gos 7 1 ++ (2, Lock false) :: gos 1 2 ++ (2, CondWait false) :: gos 6 2 ++ (3, Broadcast) :: gos 3 3.

Lemma fiber_mutex_exclusion_witness :
  waiters (ev (run (fun _ => false) broadcast_run) Mutex) = [2] /\ value (ev (run (fun _ => false) broadcast_run) Mutex) = 0 /\
  (forall t, holds (run (fun _ => false) broadcast_run) t = false).
Proof.
  split; [vm_compute; reflexivity|]. split; [vm_compute; reflexivity|].
  apply (fiber_mutex_exclusion (fun _ => false) 0 (run (fun _ => false) broadcast_run)); [|vm_compute; reflexivity].
  apply (sync_exec _ 0 broadcast_run), run_exec. vm_compute. reflexivity.
Defined.

Lemma fiber_no_lost_wakeup_witness :
  exists t', rescues (fun _ => false) (run (fun _ => false) broadcast_run) t' /\
    (is_Some (step (fun _ => false) t' (Go Scheduled) (run (fun _ => false) broadcast_run)) \/
     exists t'', t' ∈ ready_list (pcs (run (fun _ => false) broadcast_run) t'') /\ is_Some (step (fun _ => false) t'' (Go Scheduled) (run (fun _ => false) broadcast_run))).
Proof.
  apply (fiber_no_lost_wakeup (fun _ => false) 0) with (t := 2).
  - unfold int_ok. lia.
  - apply (exec_fair _ 0 broadcast_run); [vm_compute; repeat split|]. apply run_exec. vm_compute. reflexivity.
  - vm_compute. constructor.
  - intros t. destruct (decide (t = 1)) as [->|H1]; [vm_compute; reflexivity|]. destruct (decide (t = 2)) as [->|H2]; [vm_compute; reflexivity|].
    assert (holds (run (fun _ => false) broadcast_run) = <[2 := false]> (<[2 := true]> (<[1 := false]> (<[1 := true]> (fun _ => false))))) as -> by (vm_compute; reflexivity).
    by rewrite !fn_lookup_insert_ne.
Defined.

(** The timer of a fiber that fires before the fiber is queued does nothing,
    since [erase_from_event] returns when [container] is null: the fiber then
    waits without a deadline. *)
Definition early_timer : list (Z * choice) :=
  (1, Lock false) :: gos 1 1 ++ (2, Lock true) :: gos 4 2 ++ (2, Timer) :: gos 1 2.

Example early_timer_lost :
  pcs (run (fun _ => false) early_timer) 2 = Asleep (ForLock true) true /\
  step (fun _ => false) 2 Timer (run (fun _ => false) early_timer) = None /\
  step (fun _ => false) 2 TimeOut (run (fun _ => false) early_timer) = None.
Proof. split_and!; vm_compute; reflexivity. Qed.

(** A pthread in [fiber_mutex_timedlock] that is woken when its futex has
    timed out returns ETIMEDOUT and drops the wake-up: the mutex is free, the
    next waiter sleeps on and nobody will wake it. *)
Definition dropped_run : list (Z * choice) :=
  (1, Lock false) :: gos 1 1 ++ (2, Lock true) :: gos 5 2 ++ (3, Lock false) :: gos 4 3 ++ (1, Unlock) :: gos 2 1 ++ (2, TimeOut) :: gos 2 1 ++ gos 1 2.

Example timedlock_drops_wakeup :
  let s := run (fun t => t =? 2) dropped_run in
  value (ev s Mutex) = 0 /\ waiters (ev s Mutex) = [3] /\ pcs s 1 = Idle /\ pcs s 2 = Idle /\ pcs s 3 = Asleep (ForLock false) false /\
  step (fun t => t =? 2) 3 (Go Scheduled) s = None.
Proof. cbv zeta. split_and!; vm_compute; reflexivity. Qed.
