(* ===== verification/HttpParser.v ===== *)
(** * [flare/rpc/details/http_parser.h], [http_parser.cc]: the HTTP/1 parser

    The parser is a state machine over bytes.  [switch] is the body of the
    [switch (parser->state)] of [http_parser_execute], one function per group
    of states; its result says which fields changed, which mark was set, which
    callback is run and how control continues.  [execute] is the loop around
    it, with the marks into the buffer, the [reexecute_byte] jumps and the
    callbacks at the end of the buffer.  A failing [assert] is a result of its
    own.

    The model is of the strict mode ([FLARE_RPC_HTTP_PARSER_STRICT] is 1 by
    default). *)

From Stdlib Require Import Ascii.
From S2P Require Import Prelude.
Local Open Scope Z_scope.

(** ** Data *)

Inductive http_parser_type := HTTP_REQUEST | HTTP_RESPONSE | HTTP_BOTH.

Inductive http_method :=
  HTTP_DELETE | HTTP_GET | HTTP_HEAD | HTTP_POST | HTTP_PUT | HTTP_CONNECT | HTTP_OPTIONS | HTTP_TRACE
| HTTP_COPY | HTTP_LOCK | HTTP_MKCOL | HTTP_MOVE | HTTP_PROPFIND | HTTP_PROPPATCH | HTTP_SEARCH | HTTP_UNLOCK
| HTTP_REPORT | HTTP_MKACTIVITY | HTTP_CHECKOUT | HTTP_MERGE | HTTP_MSEARCH | HTTP_NOTIFY | HTTP_SUBSCRIBE
| HTTP_UNSUBSCRIBE | HTTP_PATCH | HTTP_PURGE | HTTP_MKCALENDAR.

#[export] Instance http_method_eq_dec : EqDecision http_method.
Proof. solve_decision. Defined.

Definition method_strings (m : http_method) : list Z :=
  match m with
  | HTTP_DELETE => bs "DELETE" | HTTP_GET => bs "GET" | HTTP_HEAD => bs "HEAD" | HTTP_POST => bs "POST"
  | HTTP_PUT => bs "PUT" | HTTP_CONNECT => bs "CONNECT" | HTTP_OPTIONS => bs "OPTIONS" | HTTP_TRACE => bs "TRACE"
  | HTTP_COPY => bs "COPY" | HTTP_LOCK => bs "LOCK" | HTTP_MKCOL => bs "MKCOL" | HTTP_MOVE => bs "MOVE"
  | HTTP_PROPFIND => bs "PROPFIND" | HTTP_PROPPATCH => bs "PROPPATCH" | HTTP_SEARCH => bs "SEARCH"
  | HTTP_UNLOCK => bs "UNLOCK" | HTTP_REPORT => bs "REPORT" | HTTP_MKACTIVITY => bs "MKACTIVITY"
  | HTTP_CHECKOUT => bs "CHECKOUT" | HTTP_MERGE => bs "MERGE" | HTTP_MSEARCH => bs "M-SEARCH"
  | HTTP_NOTIFY => bs "NOTIFY" | HTTP_SUBSCRIBE => bs "SUBSCRIBE" | HTTP_UNSUBSCRIBE => bs "UNSUBSCRIBE"
  | HTTP_PATCH => bs "PATCH" | HTTP_PURGE => bs "PURGE" | HTTP_MKCALENDAR => bs "MKCALENDAR"
  end.

Definition F_CHUNKED : Z := 1.
Definition F_CONNECTION_KEEP_ALIVE : Z := 2.
Definition F_CONNECTION_CLOSE : Z := 4.
Definition F_TRAILING : Z := 8.
Definition F_UPGRADE : Z := 16.
Definition F_SKIPBODY : Z := 32.

Inductive http_errno :=
  HPE_OK
| HPE_CB_message_begin | HPE_CB_url | HPE_CB_header_field | HPE_CB_header_value | HPE_CB_headers_complete
| HPE_CB_body | HPE_CB_message_complete | HPE_CB_status
| HPE_INVALID_EOF_STATE | HPE_HEADER_OVERFLOW | HPE_CLOSED_CONNECTION | HPE_INVALID_VERSION | HPE_INVALID_STATUS
| HPE_INVALID_METHOD | HPE_INVALID_URL | HPE_LF_EXPECTED | HPE_INVALID_HEADER_TOKEN | HPE_INVALID_CONTENT_LENGTH
| HPE_INVALID_CHUNK_SIZE | HPE_INVALID_CONSTANT | HPE_STRICT | HPE_PAUSED | HPE_UNKNOWN.

#[export] Instance http_errno_eq_dec : EqDecision http_errno.
Proof. solve_decision. Defined.

Inductive state :=
  s_dead | s_start_req_or_res | s_res_or_resp_H | s_start_res | s_res_H | s_res_HT | s_res_HTT | s_res_HTTP
| s_res_first_http_major | s_res_http_major | s_res_first_http_minor | s_res_http_minor
| s_res_first_status_code | s_res_status_code | s_res_status_start | s_res_status | s_res_line_almost_done
| s_start_req | s_req_method | s_req_spaces_before_url | s_req_scheme | s_req_scheme_slash
| s_req_scheme_slash_slash | s_req_server_start | s_req_server | s_req_server_with_at | s_req_path
| s_req_query_string_start | s_req_query_string | s_req_fragment_start | s_req_fragment | s_req_http_start
| s_req_http_H | s_req_http_HT | s_req_http_HTT | s_req_http_HTTP | s_req_first_http_major | s_req_http_major
| s_req_first_http_minor | s_req_http_minor | s_req_line_almost_done | s_header_field_start | s_header_field
| s_header_value_discard_ws | s_header_value_discard_ws_almost_done | s_header_value_discard_lws
| s_header_value_start | s_header_value | s_header_value_lws | s_header_almost_done | s_chunk_size_start
| s_chunk_size | s_chunk_parameters | s_chunk_size_almost_done | s_headers_almost_done | s_headers_done
| s_chunk_data | s_chunk_data_almost_done | s_chunk_data_done | s_body_identity | s_body_identity_eof
| s_message_done.

#[export] Instance state_eq_dec : EqDecision state.
Proof. solve_decision. Defined.

(** [PARSING_HEADER(state)]: [state <= s_headers_done]. *)
Definition PARSING_HEADER (s : state) : bool :=
  match s with
  | s_chunk_data | s_chunk_data_almost_done | s_chunk_data_done | s_body_identity | s_body_identity_eof | s_message_done => false
  | _ => true
  end.

Inductive header_states :=
  h_general | h_C | h_CO | h_CON
| h_matching_connection | h_matching_proxy_connection | h_matching_content_length | h_matching_transfer_encoding
| h_matching_upgrade
| h_connection | h_content_length | h_transfer_encoding | h_upgrade
| h_matching_transfer_encoding_chunked | h_matching_connection_keep_alive | h_matching_connection_close
| h_transfer_encoding_chunked | h_connection_keep_alive | h_connection_close.

#[export] Instance header_states_eq_dec : EqDecision header_states.
Proof. solve_decision. Defined.

Record http_parser := mk_http {
  type : http_parser_type;
  flags : Z;
  st : state;
  header_state : header_states;
  index : Z;
  nread : Z;
  content_length : Z;
  http_major : Z;
  http_minor : Z;
  status_code : Z;
  method : http_method;
  errno : http_errno
}.

Definition ULLONG_MAX : Z := 18446744073709551615.
Definition HTTP_MAX_HEADER_SIZE : Z := 80 * 1024.

Definition set_type (x : http_parser_type) (p : http_parser) : http_parser :=
  mk_http x (flags p) (st p) (header_state p) (index p) (nread p) (content_length p) (http_major p) (http_minor p) (status_code p) (method p) (errno p).
Definition set_flags (x : Z) (p : http_parser) : http_parser :=
  mk_http (type p) x (st p) (header_state p) (index p) (nread p) (content_length p) (http_major p) (http_minor p) (status_code p) (method p) (errno p).
Definition set_state (x : state) (p : http_parser) : http_parser :=
  mk_http (type p) (flags p) x (header_state p) (index p) (nread p) (content_length p) (http_major p) (http_minor p) (status_code p) (method p) (errno p).
Definition set_header_state (x : header_states) (p : http_parser) : http_parser :=
  mk_http (type p) (flags p) (st p) x (index p) (nread p) (content_length p) (http_major p) (http_minor p) (status_code p) (method p) (errno p).
Definition set_index (x : Z) (p : http_parser) : http_parser :=
  mk_http (type p) (flags p) (st p) (header_state p) (u8 x) (nread p) (content_length p) (http_major p) (http_minor p) (status_code p) (method p) (errno p).
Definition set_nread (x : Z) (p : http_parser) : http_parser :=
  mk_http (type p) (flags p) (st p) (header_state p) (index p) (u32 x) (content_length p) (http_major p) (http_minor p) (status_code p) (method p) (errno p).
Definition set_content_length (x : Z) (p : http_parser) : http_parser :=
  mk_http (type p) (flags p) (st p) (header_state p) (index p) (nread p) (u64 x) (http_major p) (http_minor p) (status_code p) (method p) (errno p).
Definition set_http_major (x : Z) (p : http_parser) : http_parser :=
  mk_http (type p) (flags p) (st p) (header_state p) (index p) (nread p) (content_length p) (u16 x) (http_minor p) (status_code p) (method p) (errno p).
Definition set_http_minor (x : Z) (p : http_parser) : http_parser :=
  mk_http (type p) (flags p) (st p) (header_state p) (index p) (nread p) (content_length p) (http_major p) (u16 x) (status_code p) (method p) (errno p).
Definition set_status_code (x : Z) (p : http_parser) : http_parser :=
  mk_http (type p) (flags p) (st p) (header_state p) (index p) (nread p) (content_length p) (http_major p) (http_minor p) (u16 x) (method p) (errno p).
Definition set_method (x : http_method) (p : http_parser) : http_parser :=
  mk_http (type p) (flags p) (st p) (header_state p) (index p) (nread p) (content_length p) (http_major p) (http_minor p) (status_code p) x (errno p).
Definition SET_ERRNO (x : http_errno) (p : http_parser) : http_parser :=
  mk_http (type p) (flags p) (st p) (header_state p) (index p) (nread p) (content_length p) (http_major p) (http_minor p) (status_code p) (method p) x.

Definition has (f : Z) (p : http_parser) : bool := negb (Z.land (flags p) f =? 0).
Definition add_flag (f : Z) (p : http_parser) : http_parser := set_flags (Z.lor (flags p) f) p.

(** ** Characters *)

Definition tokens : list Z := [
  0; 0; 0; 0; 0; 0; 0; 0; 0; 0; 0; 0; 0; 0; 0; 0;
  0; 0; 0; 0; 0; 0; 0; 0; 0; 0; 0; 0; 0; 0; 0; 0;
  0; 33; 0; 35; 36; 37; 38; 39; 0; 0; 42; 43; 0; 45; 46; 0;
  48; 49; 50; 51; 52; 53; 54; 55; 56; 57; 0; 0; 0; 0; 0; 0;
  0; 97; 98; 99; 100; 101; 102; 103; 104; 105; 106; 107; 108; 109; 110; 111;
  112; 113; 114; 115; 116; 117; 118; 119; 120; 121; 122; 0; 0; 0; 94; 95;
  96; 97; 98; 99; 100; 101; 102; 103; 104; 105; 106; 107; 108; 109; 110; 111;
  112; 113; 114; 115; 116; 117; 118; 119; 120; 121; 122; 0; 124; 0; 126; 0].

Definition unhex_table : list Z := [
  -1; -1; -1; -1; -1; -1; -1; -1; -1; -1; -1; -1; -1; -1; -1; -1;
  -1; -1; -1; -1; -1; -1; -1; -1; -1; -1; -1; -1; -1; -1; -1; -1;
  -1; -1; -1; -1; -1; -1; -1; -1; -1; -1; -1; -1; -1; -1; -1; -1;
  0; 1; 2; 3; 4; 5; 6; 7; 8; 9; -1; -1; -1; -1; -1; -1;
  -1; 10; 11; 12; 13; 14; 15; -1; -1; -1; -1; -1; -1; -1; -1; -1;
  -1; -1; -1; -1; -1; -1; -1; -1; -1; -1; -1; -1; -1; -1; -1; -1;
  -1; 10; 11; 12; 13; 14; 15; -1; -1; -1; -1; -1; -1; -1; -1; -1;
  -1; -1; -1; -1; -1; -1; -1; -1; -1; -1; -1; -1; -1; -1; -1; -1].

(** The arrays have 256 elements; the missing initializers are 0. *)
Definition table_at (t : list Z) (c : Z) : Z := default 0 (zget t c).
Definition unhex (c : Z) : Z := table_at unhex_table c.

(** Eight characters per byte: tab and form feed are in the table, which
    tests [HTTP_PARSER_STRICT], a macro that is never defined. *)
Definition normal_url_char : list Z := [0; 18; 0; 0; 246; 255; 255; 127; 255; 255; 255; 255; 255; 255; 255; 127].

Definition BIT_AT (a : list Z) (i : Z) : bool := negb (Z.land (table_at a (Z.shiftr i 3)) (Z.shiftl 1 (Z.land i 7)) =? 0).

Definition LOWER (c : Z) : Z := Z.lor c 0x20.
Definition IS_ALPHA (c : Z) : bool := (97 <=? LOWER c) && (LOWER c <=? 122).
Definition IS_NUM (c : Z) : bool := (48 <=? c) && (c <=? 57).
Definition IS_ALPHANUM (c : Z) : bool := IS_ALPHA c || IS_NUM c.
Definition IS_HEX (c : Z) : bool := IS_NUM c || ((97 <=? LOWER c) && (LOWER c <=? 102)).
Definition IS_MARK (c : Z) : bool :=
  (c =? 45) || (c =? 95) || (c =? 46) || (c =? 33) || (c =? 126) || (c =? 42) || (c =? 39) || (c =? 40) || (c =? 41).
Definition IS_USERINFO_CHAR (c : Z) : bool :=
  IS_ALPHANUM c || IS_MARK c || (c =? 37) || (c =? 59) || (c =? 58) || (c =? 38) || (c =? 61) || (c =? 43) ||
  (c =? 36) || (c =? 44).
Definition IS_HOST_CHAR (c : Z) : bool := IS_ALPHANUM c || (c =? 46) || (c =? 45) || (c =? 95).
Definition TOKEN (c : Z) : Z := if c =? 32 then 32 else table_at tokens c.
Definition IS_URL_CHAR (c : Z) : bool := BIT_AT normal_url_char c || negb (Z.land c 0x80 =? 0).

Definition chr (a : Ascii.ascii) : Z := Z.of_N (Ascii.N_of_ascii a).
Arguments chr _%_char.
Definition CR_ : Z := 13.
Definition LF_ : Z := 10.
Definition TAB_ : Z := 9.
Definition FF_ : Z := 12.

(** ** Whole messages *)

Definition http_message_needs_eof (p : http_parser) : bool :=
  match type p with
  | HTTP_REQUEST => false
  | _ =>
      if (status_code p / 100 =? 1) || (status_code p =? 204) || (status_code p =? 304) || has F_SKIPBODY p then false
      else if has F_CHUNKED p || negb (content_length p =? ULLONG_MAX) then false
      else true
  end.

Definition http_should_keep_alive (p : http_parser) : bool :=
  if (0 <? http_major p) && (0 <? http_minor p) then
    if has F_CONNECTION_CLOSE p then false else negb (http_message_needs_eof p)
  else
    if negb (has F_CONNECTION_KEEP_ALIVE p) then false else negb (http_message_needs_eof p).

Definition start_state (p : http_parser) : state :=
  match type p with HTTP_REQUEST => s_start_req | _ => s_start_res end.

Definition NEW_MESSAGE (p : http_parser) : state := if http_should_keep_alive p then start_state p else s_dead.

(** ** URLs *)

Definition parse_url_server (ch : Z) : state :=
  if ch =? chr "/" then s_req_path
  else if ch =? chr "?" then s_req_query_string_start
  else if ch =? chr "@" then s_req_server_with_at
  else if IS_USERINFO_CHAR ch || (ch =? chr "[") || (ch =? chr "]") then s_req_server
  else s_dead.

Definition parse_url_char (s : state) (ch : Z) : state :=
  if (ch =? 32) || (ch =? CR_) || (ch =? LF_) then s_dead
  else if (ch =? TAB_) || (ch =? FF_) then s_dead
  else match s with
  | s_req_spaces_before_url =>
      if (ch =? chr "/") || (ch =? chr "*") then s_req_path
      else if IS_ALPHA ch then s_req_scheme else s_dead
  | s_req_scheme =>
      if IS_ALPHA ch then s else if ch =? chr ":" then s_req_scheme_slash else s_dead
  | s_req_scheme_slash => if ch =? chr "/" then s_req_scheme_slash_slash else s_dead
  | s_req_scheme_slash_slash => if ch =? chr "/" then s_req_server_start else s_dead
  | s_req_server_with_at => if ch =? chr "@" then s_dead else parse_url_server ch
  | s_req_server_start | s_req_server => parse_url_server ch
  | s_req_path =>
      if IS_URL_CHAR ch then s
      else if ch =? chr "?" then s_req_query_string_start
      else if ch =? chr "#" then s_req_fragment_start else s_dead
  | s_req_query_string_start | s_req_query_string =>
      if IS_URL_CHAR ch then s_req_query_string
      else if ch =? chr "?" then s_req_query_string
      else if ch =? chr "#" then s_req_fragment_start else s_dead
  | s_req_fragment_start =>
      if IS_URL_CHAR ch then s_req_fragment
      else if ch =? chr "?" then s_req_fragment
      else if ch =? chr "#" then s else s_dead
  | s_req_fragment =>
      if IS_URL_CHAR ch then s else if (ch =? chr "?") || (ch =? chr "#") then s else s_dead
  | _ => s_dead
  end.

(** ** One turn of the switch *)

Inductive data_kind := Url | Status | HeaderField | HeaderValue | Body.
#[export] Instance data_kind_eq_dec : EqDecision data_kind.
Proof. solve_decision. Defined.

Inductive notification := MessageBegin | HeadersComplete | MessageComplete.

(** The callback of a turn: [CALLBACK_NOTIFY], [on_headers_complete], or a data
    callback up to [extra] bytes beyond the current one, which returns
    [p - data + advance] if it fails. *)
Inductive call :=
| CallNotify (n : notification)
| CallHeadersComplete
| CallData (k : data_kind) (extra advance : Z).

(** How the turn ends: [break], [goto reexecute_byte], or
    [return p - data + 1]. *)
Inductive control := Break | Reexecute | ReturnAfter.

Inductive turn :=
| Fail (e : http_errno) (p : http_parser)              (* SET_ERRNO(e); goto error *)
| AssertFails                                          (* or a read outside an array *)
| Turn (p : http_parser) (mark : option data_kind) (skip : Z) (c : option call) (ctl : control).

(** The common shapes. *)
Definition next (p : http_parser) : turn := Turn p None 0 None Break.
Definition again (p : http_parser) : turn := Turn p None 0 None Reexecute.
Definition notify (n : notification) (p : http_parser) : turn := Turn p None 0 (Some (CallNotify n)) Break.
Definition STRICT_CHECK (bad : bool) (p : http_parser) (k : turn) : turn := if bad then Fail HPE_STRICT p else k.
Definition check_that (c : bool) (k : turn) : turn := if c then k else AssertFails.

Definition digit (ch : Z) : Z := ch - 48.

Definition switch_start (p : http_parser) (ch : Z) : turn :=
  match st p with
  | s_dead => if (ch =? CR_) || (ch =? LF_) then next p else Fail HPE_CLOSED_CONNECTION p
  | s_start_req_or_res =>
      if (ch =? CR_) || (ch =? LF_) then next p
      else
        let p := set_content_length ULLONG_MAX (set_flags 0 p) in
        if ch =? chr "H" then notify MessageBegin (set_state s_res_or_resp_H p)
        else again (set_state s_start_req (set_type HTTP_REQUEST p))
  | s_res_or_resp_H =>
      if ch =? chr "T" then next (set_state s_res_HT (set_type HTTP_RESPONSE p))
      else if negb (ch =? chr "E") then Fail HPE_INVALID_CONSTANT p
      else next (set_state s_req_method (set_index 2 (set_method HTTP_HEAD (set_type HTTP_REQUEST p))))
  | s_start_res =>
      let p := set_content_length ULLONG_MAX (set_flags 0 p) in
      if ch =? chr "H" then notify MessageBegin (set_state s_res_H p)
      else if (ch =? CR_) || (ch =? LF_) then notify MessageBegin p
      else Fail HPE_INVALID_CONSTANT p
  | _ => (* s_start_req *)
      if (ch =? CR_) || (ch =? LF_) then next p
      else
        let p := set_content_length ULLONG_MAX (set_flags 0 p) in
        if negb (IS_ALPHA ch) then Fail HPE_INVALID_METHOD p
        else
          let p := set_index 1 (set_method HTTP_DELETE p) in
          let go m := notify MessageBegin (set_state s_req_method (set_method m p)) in
          if ch =? chr "C" then go HTTP_CONNECT
          else if ch =? chr "D" then go HTTP_DELETE
          else if ch =? chr "G" then go HTTP_GET
          else if ch =? chr "H" then go HTTP_HEAD
          else if ch =? chr "L" then go HTTP_LOCK
          else if ch =? chr "M" then go HTTP_MKCOL
          else if ch =? chr "N" then go HTTP_NOTIFY
          else if ch =? chr "O" then go HTTP_OPTIONS
          else if ch =? chr "P" then go HTTP_POST
          else if ch =? chr "R" then go HTTP_REPORT
          else if ch =? chr "S" then go HTTP_SUBSCRIBE
          else if ch =? chr "T" then go HTTP_TRACE
          else if ch =? chr "U" then go HTTP_UNLOCK
          else Fail HPE_INVALID_METHOD p
  end.

(** A further digit of a version or status number, at most 999. *)
Definition more_digits (e : http_errno) (get : http_parser -> Z) (set : Z -> http_parser -> http_parser) (p : http_parser) (ch : Z) : turn :=
  if negb (IS_NUM ch) then Fail e p
  else
    let p := set (get p * 10) p in
    let p := set (get p + digit ch) p in
    if 999 <? get p then Fail e p else next p.

Definition switch_response (p : http_parser) (ch : Z) : turn :=
  match st p with
  | s_res_H => STRICT_CHECK (negb (ch =? chr "T")) p (next (set_state s_res_HT p))
  | s_res_HT => STRICT_CHECK (negb (ch =? chr "T")) p (next (set_state s_res_HTT p))
  | s_res_HTT => STRICT_CHECK (negb (ch =? chr "P")) p (next (set_state s_res_HTTP p))
  | s_res_HTTP => STRICT_CHECK (negb (ch =? chr "/")) p (next (set_state s_res_first_http_major p))
  | s_res_first_http_major =>
      if (ch <? 48) || (57 <? ch) then Fail HPE_INVALID_VERSION p
      else next (set_state s_res_http_major (set_http_major (digit ch) p))
  | s_res_http_major =>
      if ch =? chr "." then next (set_state s_res_first_http_minor p)
      else more_digits HPE_INVALID_VERSION http_major set_http_major p ch
  | s_res_first_http_minor =>
      if negb (IS_NUM ch) then Fail HPE_INVALID_VERSION p
      else next (set_state s_res_http_minor (set_http_minor (digit ch) p))
  | s_res_http_minor =>
      if ch =? 32 then next (set_state s_res_first_status_code p)
      else more_digits HPE_INVALID_VERSION http_minor set_http_minor p ch
  | s_res_first_status_code =>
      if negb (IS_NUM ch) then if ch =? 32 then next p else Fail HPE_INVALID_STATUS p
      else next (set_state s_res_status_code (set_status_code (digit ch) p))
  | s_res_status_code =>
      if negb (IS_NUM ch) then
        if ch =? 32 then next (set_state s_res_status_start p)
        else if ch =? CR_ then next (set_state s_res_line_almost_done p)
        else if ch =? LF_ then next (set_state s_header_field_start p)
        else Fail HPE_INVALID_STATUS p
      else more_digits HPE_INVALID_STATUS status_code set_status_code p ch
  | s_res_status_start =>
      if ch =? CR_ then next (set_state s_res_line_almost_done p)
      else if ch =? LF_ then next (set_state s_header_field_start p)
      else Turn (set_index 0 (set_state s_res_status p)) (Some Status) 0 None Break
  | s_res_status =>
      if ch =? CR_ then Turn (set_state s_res_line_almost_done p) None 0 (Some (CallData Status 0 1)) Break
      else if ch =? LF_ then Turn (set_state s_header_field_start p) None 0 (Some (CallData Status 0 1)) Break
      else next p
  | _ => (* s_res_line_almost_done *)
      STRICT_CHECK (negb (ch =? LF_)) p (next (set_state s_header_field_start p))
  end.

(** The method that the letters read so far can still become, if [ch] does not
    continue the present one. *)
Definition other_method (m : http_method) (i ch : Z) : option http_method :=
  match m with
  | HTTP_CONNECT =>
      if (i =? 1) && (ch =? chr "H") then Some HTTP_CHECKOUT
      else if (i =? 2) && (ch =? chr "P") then Some HTTP_COPY else None
  | HTTP_MKCOL =>
      if (i =? 1) && (ch =? chr "O") then Some HTTP_MOVE
      else if (i =? 1) && (ch =? chr "E") then Some HTTP_MERGE
      else if (i =? 1) && (ch =? chr "-") then Some HTTP_MSEARCH
      else if (i =? 2) && (ch =? chr "A") then Some HTTP_MKACTIVITY
      else if (i =? 3) && (ch =? chr "A") then Some HTTP_MKCALENDAR else None
  | HTTP_SUBSCRIBE => if (i =? 1) && (ch =? chr "E") then Some HTTP_SEARCH else None
  | _ =>
      if (i =? 1) && bool_decide (m = HTTP_POST) then
        if ch =? chr "R" then Some HTTP_PROPFIND
        else if ch =? chr "U" then Some HTTP_PUT
        else if ch =? chr "A" then Some HTTP_PATCH else None
      else if i =? 2 then
        if bool_decide (m = HTTP_PUT) then if ch =? chr "R" then Some HTTP_PURGE else None
        else if bool_decide (m = HTTP_UNLOCK) then if ch =? chr "S" then Some HTTP_UNSUBSCRIBE else None
        else None
      else if (i =? 4) && bool_decide (m = HTTP_PROPFIND) && (ch =? chr "P") then Some HTTP_PROPPATCH
      else None
  end.

(** [matcher[parser->index]], the terminator included; an index beyond it is
    outside the string. *)
Definition switch_method (p : http_parser) (ch : Z) : turn :=
  if ch =? 0 then Fail HPE_INVALID_METHOD p
  else
    let matcher := method_strings (method p) in
    match zget (matcher ++ [0]) (index p) with
    | None => AssertFails
    | Some m =>
        if (ch =? 32) && (m =? 0) then next (set_index (index p + 1) (set_state s_req_spaces_before_url p))
        else if ch =? m then next (set_index (index p + 1) p)
        else match other_method (method p) (index p) ch with
             | Some m => next (set_index (index p + 1) (set_method m p))
             | None => Fail HPE_INVALID_METHOD p
             end
    end.

Definition switch_url (p : http_parser) (ch : Z) : turn :=
  let follow (mark : option data_kind) (p : http_parser) :=
    let new_state := parse_url_char (st p) ch in
    if decide (new_state = s_dead) then Fail HPE_INVALID_URL p else Turn (set_state new_state p) mark 0 None Break in
  match st p with
  | s_req_spaces_before_url =>
      if ch =? 32 then next p
      else follow (Some Url) (if decide (method p = HTTP_CONNECT) then set_state s_req_server_start p else p)
  | s_req_scheme | s_req_scheme_slash | s_req_scheme_slash_slash | s_req_server_start =>
      if (ch =? 32) || (ch =? CR_) || (ch =? LF_) then Fail HPE_INVALID_URL p else follow None p
  | _ => (* s_req_server, s_req_server_with_at, s_req_path, s_req_query_string*, s_req_fragment* *)
      if (ch =? CR_) || (ch =? LF_) then
        Turn (set_state (if ch =? CR_ then s_req_line_almost_done else s_header_field_start) (set_http_minor 9 (set_http_major 0 p)))
          None 0 (Some (CallData Url 0 1)) Break
      else if ch =? 32 then Turn (set_state s_req_http_start p) None 0 (Some (CallData Url 0 1)) Break
      else follow None p
  end.

Definition switch_request_line (p : http_parser) (ch : Z) : turn :=
  match st p with
  | s_req_http_start =>
      if ch =? chr "H" then next (set_state s_req_http_H p)
      else if ch =? 32 then next p else Fail HPE_INVALID_CONSTANT p
  | s_req_http_H => STRICT_CHECK (negb (ch =? chr "T")) p (next (set_state s_req_http_HT p))
  | s_req_http_HT => STRICT_CHECK (negb (ch =? chr "T")) p (next (set_state s_req_http_HTT p))
  | s_req_http_HTT => STRICT_CHECK (negb (ch =? chr "P")) p (next (set_state s_req_http_HTTP p))
  | s_req_http_HTTP => STRICT_CHECK (negb (ch =? chr "/")) p (next (set_state s_req_first_http_major p))
  | s_req_first_http_major =>
      if (ch <? 49) || (57 <? ch) then Fail HPE_INVALID_VERSION p
      else next (set_state s_req_http_major (set_http_major (digit ch) p))
  | s_req_http_major =>
      if ch =? chr "." then next (set_state s_req_first_http_minor p)
      else more_digits HPE_INVALID_VERSION http_major set_http_major p ch
  | s_req_first_http_minor =>
      if negb (IS_NUM ch) then Fail HPE_INVALID_VERSION p
      else next (set_state s_req_http_minor (set_http_minor (digit ch) p))
  | s_req_http_minor =>
      if ch =? CR_ then next (set_state s_req_line_almost_done p)
      else if ch =? LF_ then next (set_state s_header_field_start p)
      else more_digits HPE_INVALID_VERSION http_minor set_http_minor p ch
  | _ => (* s_req_line_almost_done *)
      if negb (ch =? LF_) then Fail HPE_LF_EXPECTED p else next (set_state s_header_field_start p)
  end.

Definition CONNECTION : list Z := bs "connection".
Definition PROXY_CONNECTION : list Z := bs "proxy-connection".
Definition CONTENT_LENGTH : list Z := bs "content-length".
Definition TRANSFER_ENCODING : list Z := bs "transfer-encoding".
Definition UPGRADE : list Z := bs "upgrade".
Definition CHUNKED : list Z := bs "chunked".
Definition KEEP_ALIVE : list Z := bs "keep-alive".
Definition CLOSE : list Z := bs "close".

(** [index++] and the comparison of [c] with the next letter of [s]; on the
    last one the header state becomes [found]. *)
Definition matching (s : list Z) (found : header_states) (c : Z) (p : http_parser) : http_parser :=
  let p := set_index (index p + 1) p in
  if (zlen s <? index p) || negb (c =? default 0 (zget s (index p))) then set_header_state h_general p
  else if index p =? zlen s - 1 then set_header_state found p
  else p.

(** The header state after a character [c] of a name. *)
Definition header_field_char (c ch : Z) (p : http_parser) : option http_parser :=
  match header_state p with
  | h_general => Some p
  | h_C => Some (set_header_state (if c =? chr "o" then h_CO else h_general) (set_index (index p + 1) p))
  | h_CO => Some (set_header_state (if c =? chr "n" then h_CON else h_general) (set_index (index p + 1) p))
  | h_CON =>
      Some (set_header_state (if c =? chr "n" then h_matching_connection
                              else if c =? chr "t" then h_matching_content_length else h_general)
              (set_index (index p + 1) p))
  | h_matching_connection => Some (matching CONNECTION h_connection c p)
  | h_matching_proxy_connection => Some (matching PROXY_CONNECTION h_connection c p)
  | h_matching_content_length => Some (matching CONTENT_LENGTH h_content_length c p)
  | h_matching_transfer_encoding => Some (matching TRANSFER_ENCODING h_transfer_encoding c p)
  | h_matching_upgrade => Some (matching UPGRADE h_upgrade c p)
  | h_connection | h_content_length | h_transfer_encoding | h_upgrade =>
      Some (if negb (ch =? 32) then set_header_state h_general p else p)
  | _ => None
  end.

Definition switch_header_field (p : http_parser) (ch : Z) : turn :=
  match st p with
  | s_header_field_start =>
      if ch =? CR_ then next (set_state s_headers_almost_done p)
      else if ch =? LF_ then again (set_state s_headers_almost_done p)
      else
        let c := TOKEN ch in
        if c =? 0 then Fail HPE_INVALID_HEADER_TOKEN p
        else
          let p := set_state s_header_field (set_index 0 p) in
          let hs := if c =? chr "c" then h_C
                    else if c =? chr "p" then h_matching_proxy_connection
                    else if c =? chr "t" then h_matching_transfer_encoding
                    else if c =? chr "u" then h_matching_upgrade else h_general in
          Turn (set_header_state hs p) (Some HeaderField) 0 None Break
  | _ => (* s_header_field *)
      let c := TOKEN ch in
      if negb (c =? 0) then
        match header_field_char c ch p with
        | Some p => next p
        | None => AssertFails
        end
      else if ch =? chr ":" then
        Turn (set_state s_header_value_discard_ws p) None 0 (Some (CallData HeaderField 0 1)) Break
      else Fail HPE_INVALID_HEADER_TOKEN p
  end.

(** [s_header_value_start], into which [s_header_value_discard_ws] falls. *)
Definition header_value_start (p : http_parser) (ch : Z) : turn :=
  let p := set_index 0 (set_state s_header_value p) in
  let c := LOWER ch in
  let go p := Turn p (Some HeaderValue) 0 None Break in
  match header_state p with
  | h_upgrade => go (set_header_state h_general (add_flag F_UPGRADE p))
  | h_transfer_encoding =>
      go (set_header_state (if c =? chr "c" then h_matching_transfer_encoding_chunked else h_general) p)
  | h_content_length =>
      if negb (IS_NUM ch) then Fail HPE_INVALID_CONTENT_LENGTH p else go (set_content_length (digit ch) p)
  | h_connection =>
      go (set_header_state (if c =? chr "k" then h_matching_connection_keep_alive
                            else if c =? chr "c" then h_matching_connection_close else h_general) p)
  | _ => go (set_header_state h_general p)
  end.

(** A character of a value. *)
Definition header_value_char (p : http_parser) (ch : Z) : turn :=
  let c := LOWER ch in
  match header_state p with
  | h_general => next p
  | h_connection | h_transfer_encoding => AssertFails
  | h_content_length =>
      if ch =? 32 then next p
      else if negb (IS_NUM ch) then Fail HPE_INVALID_CONTENT_LENGTH p
      else
        let t := u64 (u64 (content_length p * 10) + digit ch) in
        if (ULLONG_MAX - 10) / 10 <? content_length p then Fail HPE_INVALID_CONTENT_LENGTH p
        else next (set_content_length t p)
  | h_matching_transfer_encoding_chunked => next (matching CHUNKED h_transfer_encoding_chunked c p)
  | h_matching_connection_keep_alive => next (matching KEEP_ALIVE h_connection_keep_alive c p)
  | h_matching_connection_close => next (matching CLOSE h_connection_close c p)
  | h_transfer_encoding_chunked | h_connection_keep_alive | h_connection_close =>
      next (if negb (ch =? 32) then set_header_state h_general p else p)
  | _ => next (set_header_state h_general (set_state s_header_value p))
  end.

Definition switch_header_value (p : http_parser) (ch : Z) : turn :=
  match st p with
  | s_header_value_discard_ws =>
      if (ch =? 32) || (ch =? TAB_) then next p
      else if ch =? CR_ then next (set_state s_header_value_discard_ws_almost_done p)
      else if ch =? LF_ then next (set_state s_header_value_discard_lws p)
      else header_value_start p ch
  | s_header_value_start => header_value_start p ch
  | s_header_value =>
      if ch =? CR_ then Turn (set_state s_header_almost_done p) None 0 (Some (CallData HeaderValue 0 1)) Break
      else if ch =? LF_ then Turn (set_state s_header_almost_done p) None 0 (Some (CallData HeaderValue 0 0)) Reexecute
      else header_value_char p ch
  | s_header_almost_done => STRICT_CHECK (negb (ch =? LF_)) p (next (set_state s_header_value_lws p))
  | s_header_value_lws =>
      if (ch =? 32) || (ch =? TAB_) then again (set_state s_header_value_start p)
      else
        let p := match header_state p with
                 | h_connection_keep_alive => add_flag F_CONNECTION_KEEP_ALIVE p
                 | h_connection_close => add_flag F_CONNECTION_CLOSE p
                 | h_transfer_encoding_chunked => add_flag F_CHUNKED p
                 | _ => p
                 end in
        again (set_state s_header_field_start p)
  | s_header_value_discard_ws_almost_done =>
      STRICT_CHECK (negb (ch =? LF_)) p (next (set_state s_header_value_discard_lws p))
  | _ => (* s_header_value_discard_lws *)
      if (ch =? 32) || (ch =? TAB_) then next (set_state s_header_value_discard_ws p)
      else Turn (set_state s_header_field_start p) (Some HeaderValue) 0 (Some (CallData HeaderValue 0 0)) Reexecute
  end.

Definition switch_headers_done (p : http_parser) (ch : Z) : turn :=
  match st p with
  | s_headers_almost_done =>
      STRICT_CHECK (negb (ch =? LF_)) p
        (if has F_TRAILING p then notify MessageComplete (set_state (NEW_MESSAGE p) p)
         else Turn (set_state s_headers_done p) None 0 (Some CallHeadersComplete) Reexecute)
  | _ => (* s_headers_done *)
      STRICT_CHECK (negb (ch =? LF_)) p
        (let p := set_nread 0 p in
         if decide (method p = HTTP_CONNECT) then
           Turn (set_state (NEW_MESSAGE p) p) None 0 (Some (CallNotify MessageComplete)) ReturnAfter
         else if has F_SKIPBODY p then notify MessageComplete (set_state (NEW_MESSAGE p) p)
         else if has F_CHUNKED p then next (set_state s_chunk_size_start p)
         else if content_length p =? 0 then notify MessageComplete (set_state (NEW_MESSAGE p) p)
         else if negb (content_length p =? ULLONG_MAX) then next (set_state s_body_identity p)
         else match type p with
              | HTTP_REQUEST => notify MessageComplete (set_state (NEW_MESSAGE p) p)
              | _ => if negb (http_message_needs_eof p) then notify MessageComplete (set_state (NEW_MESSAGE p) p)
                     else next (set_state s_body_identity_eof p)
              end)
  end.

(** [avail] is [(data + len) - p]. *)
Definition switch_body (p : http_parser) (ch avail : Z) : turn :=
  match st p with
  | s_body_identity =>
      let to_read := Z.min (content_length p) avail in
      check_that (negb (content_length p =? 0) && negb (content_length p =? ULLONG_MAX))
        (let p := set_content_length (content_length p - to_read) p in
         if content_length p =? 0 then
           Turn (set_state s_message_done p) (Some Body) (to_read - 1) (Some (CallData Body 1 0)) Reexecute
         else Turn p (Some Body) (to_read - 1) None Break)
  | s_body_identity_eof => Turn p (Some Body) (avail - 1) None Break
  | s_message_done => notify MessageComplete (set_state (NEW_MESSAGE p) p)
  | s_chunk_size_start =>
      check_that (nread p =? 1)
        (check_that (has F_CHUNKED p)
           (let unhex_val := unhex ch in
            if unhex_val =? -1 then Fail HPE_INVALID_CHUNK_SIZE p
            else next (set_state s_chunk_size (set_content_length unhex_val p))))
  | s_chunk_size =>
      check_that (has F_CHUNKED p)
        (if ch =? CR_ then next (set_state s_chunk_size_almost_done p)
         else
           let unhex_val := unhex ch in
           if unhex_val =? -1 then
             if (ch =? chr ";") || (ch =? 32) then next (set_state s_chunk_parameters p)
             else Fail HPE_INVALID_CHUNK_SIZE p
           else
             let t := u64 (u64 (content_length p * 16) + unhex_val) in
             if (ULLONG_MAX - 16) / 16 <? content_length p then Fail HPE_INVALID_CONTENT_LENGTH p
             else next (set_content_length t p))
  | s_chunk_parameters =>
      check_that (has F_CHUNKED p)
        (if ch =? CR_ then next (set_state s_chunk_size_almost_done p) else next p)
  | s_chunk_size_almost_done =>
      check_that (has F_CHUNKED p)
        (STRICT_CHECK (negb (ch =? LF_)) p
           (let p := set_nread 0 p in
            if content_length p =? 0 then next (set_state s_header_field_start (add_flag F_TRAILING p))
            else next (set_state s_chunk_data p)))
  | s_chunk_data =>
      let to_read := Z.min (content_length p) avail in
      check_that (has F_CHUNKED p && negb (content_length p =? 0) && negb (content_length p =? ULLONG_MAX))
        (let p := set_content_length (content_length p - to_read) p in
         Turn (if content_length p =? 0 then set_state s_chunk_data_almost_done p else p) (Some Body) (to_read - 1) None Break)
  | s_chunk_data_almost_done =>
      check_that (has F_CHUNKED p && (content_length p =? 0))
        (STRICT_CHECK (negb (ch =? CR_)) p
           (Turn (set_state s_chunk_data_done p) None 0 (Some (CallData Body 0 1)) Break))
  | _ => (* s_chunk_data_done *)
      check_that (has F_CHUNKED p)
        (STRICT_CHECK (negb (ch =? LF_)) p (next (set_state s_chunk_size_start (set_nread 0 p))))
  end.

(** [switch (parser->state)] *)
Definition switch (p : http_parser) (ch avail : Z) : turn :=
  match st p with
  | s_dead | s_start_req_or_res | s_res_or_resp_H | s_start_res | s_start_req => switch_start p ch
  | s_res_H | s_res_HT | s_res_HTT | s_res_HTTP | s_res_first_http_major | s_res_http_major | s_res_first_http_minor
  | s_res_http_minor | s_res_first_status_code | s_res_status_code | s_res_status_start | s_res_status
  | s_res_line_almost_done => switch_response p ch
  | s_req_method => switch_method p ch
  | s_req_spaces_before_url | s_req_scheme | s_req_scheme_slash | s_req_scheme_slash_slash | s_req_server_start
  | s_req_server | s_req_server_with_at | s_req_path | s_req_query_string_start | s_req_query_string
  | s_req_fragment_start | s_req_fragment => switch_url p ch
  | s_req_http_start | s_req_http_H | s_req_http_HT | s_req_http_HTT | s_req_http_HTTP | s_req_first_http_major
  | s_req_http_major | s_req_first_http_minor | s_req_http_minor | s_req_line_almost_done => switch_request_line p ch
  | s_header_field_start | s_header_field => switch_header_field p ch
  | s_header_value_discard_ws | s_header_value_start | s_header_value | s_header_almost_done | s_header_value_lws
  | s_header_value_discard_ws_almost_done | s_header_value_discard_lws => switch_header_value p ch
  | s_headers_almost_done | s_headers_done => switch_headers_done p ch
  | s_body_identity | s_body_identity_eof | s_message_done | s_chunk_size_start | s_chunk_size | s_chunk_parameters
  | s_chunk_size_almost_done | s_chunk_data | s_chunk_data_almost_done | s_chunk_data_done => switch_body p ch avail
  end.

(** ** [http_parser_execute] *)

Inductive event :=
| Notify (n : notification)
| Data (k : data_kind) (bytes : list Z).

(** The error of a failing callback. *)
Definition cb_errno (e : event) : http_errno :=
  match e with
  | Notify MessageBegin => HPE_CB_message_begin
  | Notify HeadersComplete => HPE_CB_headers_complete
  | Notify MessageComplete => HPE_CB_message_complete
  | Data Url _ => HPE_CB_url
  | Data Status _ => HPE_CB_status
  | Data HeaderField _ => HPE_CB_header_field
  | Data HeaderValue _ => HPE_CB_header_value
  | Data Body _ => HPE_CB_body
  end.

(** The mark that a state implies at the start of a buffer. *)
Definition initial_mark (s : state) : option data_kind :=
  match s with
  | s_header_field => Some HeaderField
  | s_header_value => Some HeaderValue
  | s_req_path | s_req_scheme | s_req_scheme_slash | s_req_scheme_slash_slash | s_req_server_start | s_req_server
  | s_req_server_with_at | s_req_query_string_start | s_req_query_string | s_req_fragment_start | s_req_fragment => Some Url
  | s_res_status => Some Status
  | _ => None
  end.

(** The local variables: the parser, the five marks as offsets into the buffer,
    and what the callbacks have been given so far. *)
Record frame := mk_frame {
  parser : http_parser;
  marks : data_kind -> option Z;
  out : list event
}.

Definition set_parser (p : http_parser) (f : frame) : frame := mk_frame p (marks f) (out f).
Definition set_mark (k : data_kind) (m : option Z) (f : frame) : frame :=
  mk_frame (parser f) (fun k' => if decide (k' = k) then m else marks f k') (out f).

(** [MARK(FOR)]: does nothing if the mark is set. *)
Definition MARK (k : data_kind) (p : Z) (f : frame) : frame :=
  match marks f k with Some _ => f | None => set_mark k (Some p) f end.

Section execute.
(** The callbacks: the value returned and whether [http_parser_pause] was
    called, which may depend on everything that happened before. *)
Context (on : list event -> http_parser -> event -> Z * bool).
Context (data : list Z).

(** Run a callback: a failure or a pause is left in [http_errno]. *)
Definition callback (e : event) (f : frame) : frame :=
  let '(rc, paused) := on (out f) (parser f) e in
  let p := if paused : bool then SET_ERRNO HPE_PAUSED (parser f) else parser f in
  let p := if negb (rc =? 0) then SET_ERRNO (cb_errno e) p else p in
  mk_frame p (marks f) (out f ++ [e]).

(** Either the function returns a value, or it goes on. *)
Definition step_result : Type := (http_parser * list event * Z) + frame.

Definition stop (f : frame) (ret : Z) : step_result := inl (parser f, out f, ret).

(** [CALLBACK_NOTIFY_(FOR, ER)] *)
Definition CALLBACK_NOTIFY_ (n : notification) (er : Z) (f : frame) : step_result :=
  let f := callback (Notify n) f in
  if decide (errno (parser f) = HPE_OK) then inr f else stop f er.

(** [CALLBACK_DATA_(FOR, LEN, ER)] with [end_ = FOR##_mark + LEN]. *)
Definition CALLBACK_DATA_ (k : data_kind) (end_ er : Z) (f : frame) : step_result :=
  match marks f k with
  | None => inr f
  | Some m =>
      let f := callback (Data k (ztake (end_ - m) (zdrop m data))) f in
      if decide (errno (parser f) = HPE_OK) then inr (set_mark k None f) else stop f er
  end.

(** [on_headers_complete]: 1 means that there is no body. *)
Definition headers_complete (p : Z) (f : frame) : step_result :=
  let '(rc, paused) := on (out f) (parser f) (Notify HeadersComplete) in
  let ps := if paused : bool then SET_ERRNO HPE_PAUSED (parser f) else parser f in
  let f := mk_frame ps (marks f) (out f ++ [Notify HeadersComplete]) in
  if rc =? 0 then if decide (errno ps = HPE_OK) then inr f else stop f p
  else if rc =? 1 then
    let f := set_parser (add_flag F_SKIPBODY ps) f in
    if decide (errno ps = HPE_OK) then inr f else stop f p
  else stop (set_parser (SET_ERRNO HPE_CB_headers_complete ps) f) p.

Definition run_call (c : option call) (p : Z) (f : frame) : step_result :=
  match c with
  | None => inr f
  | Some (CallNotify n) => CALLBACK_NOTIFY_ n (p + 1) f
  | Some CallHeadersComplete => headers_complete p f
  | Some (CallData k extra advance) => CALLBACK_DATA_ k (p + extra) (p + advance) f
  end.

(** The callback macros begin with an assertion that no error is pending. *)
Definition call_allowed (c : option call) (f : frame) : bool :=
  match c with
  | None | Some CallHeadersComplete => true
  | _ => bool_decide (errno (parser f) = HPE_OK)
  end.

(** [goto error] *)
Definition fail_at (e : http_errno) (ps : http_parser) (p : Z) (f : frame) : step_result :=
  stop (set_parser (SET_ERRNO e ps) f) p.

(** The switch for the byte [ch] read at some offset, the present offset being
    [p], with the [reexecute_byte] jumps: the offset after the [break].  At
    most four turns handle one byte. *)
Fixpoint exec_byte (turns : nat) (ch p : Z) (f : frame) : outcome (step_result * Z) :=
  match turns with
  | O => Undefined
  | S turns =>
      match switch (parser f) ch (zlen data - p) with
      | AssertFails => Abort
      | Fail e ps => Ok (fail_at e ps p f, p)
      | Turn ps mark skip c ctl =>
          let f := set_parser ps f in
          let f := match mark with Some k => MARK k p f | None => f end in
          let p := p + skip in
          if negb (call_allowed c f) then Abort
          else match run_call c p f with
          | inl r => Ok (inl r, p)
          | inr f =>
              match ctl with
              | Break => Ok (inr f, p)
              | Reexecute => exec_byte turns ch p f
              | ReturnAfter => Ok (stop f (p + 1), p)
              end
          end
      end
  end.

(** After the loop: at most one mark is left, and its data is delivered. *)
Definition count_marks (f : frame) : nat :=
  length (filter (fun k => is_Some (marks f k)) [HeaderField; HeaderValue; Url; Body; Status]).

Definition flush_marks (f : frame) : step_result :=
  let flush k (r : step_result) :=
    match r with inl _ => r | inr f => CALLBACK_DATA_ k (zlen data) (zlen data) f end in
  flush Status (flush Body (flush Url (flush HeaderValue (flush HeaderField (inr f))))).

Definition after_loop (f : frame) : outcome (http_parser * list event * Z) :=
  if (count_marks f <=? 1)%nat && bool_decide (errno (parser f) = HPE_OK) then
    match flush_marks f with
    | inl r => Ok r
    | inr f => Ok (parser f, out f, zlen data)
    end
  else Abort.

(** [if (PARSING_HEADER(parser->state)) ++parser->nread;] *)
Definition count_byte (p : http_parser) : http_parser :=
  if PARSING_HEADER (st p) then set_nread (nread p + 1) p else p.

(** [for (p = data; p != data + len; p++)] *)
Fixpoint loop (fuel : nat) (p : Z) (f : frame) : outcome (http_parser * list event * Z) :=
  match fuel with
  | O => Undefined
  | S fuel =>
      match zget data p with
      | None => after_loop f
      | Some ch =>
          let ps := count_byte (parser f) in
          let f := set_parser ps f in
          if PARSING_HEADER (st ps) && (HTTP_MAX_HEADER_SIZE <? nread ps) then
            Ok (parser (set_parser (SET_ERRNO HPE_HEADER_OVERFLOW ps) f), out f, p)
          else
            '(r, p) ← exec_byte 5 ch p f;
            match r with
            | inl r => Ok r
            | inr f => loop fuel (p + 1) f
            end
      end
  end.

(** The parser, the calls made so far and the number of bytes parsed. *)
Definition execute (ps : http_parser) (h : list event) : outcome (http_parser * list event * Z) :=
  if negb (bool_decide (errno ps = HPE_OK)) then Ok (ps, h, 0)
  else if zlen data =? 0 then
    match st ps with
    | s_body_identity_eof =>
        match CALLBACK_NOTIFY_ MessageComplete 0 (mk_frame ps (fun _ => None) h) with
        | inl r => Ok r
        | inr f => Ok (parser f, out f, 0)
        end
    | s_dead | s_start_req_or_res | s_start_res | s_start_req => Ok (ps, h, 0)
    | _ => Ok (SET_ERRNO HPE_INVALID_EOF_STATE ps, h, 1)
    end
  else
    loop (S (length data)) 0
      (mk_frame ps (fun k => if decide (Some k = initial_mark (st ps)) then Some 0 else None) h).

End execute.

Definition http_parser_init (t : http_parser_type) : http_parser :=
  mk_http t 0 (match t with HTTP_REQUEST => s_start_req | HTTP_RESPONSE => s_start_res | HTTP_BOTH => s_start_req_or_res end)
    h_general 0 0 0 0 0 0 HTTP_DELETE HPE_OK.

Definition http_parser_pause (paused : bool) (ps : http_parser) : outcome http_parser :=
  if bool_decide (errno ps = HPE_OK) || bool_decide (errno ps = HPE_PAUSED)
  then Ok (SET_ERRNO (if paused then HPE_PAUSED else HPE_OK) ps) else Abort.

Definition http_body_is_final (ps : http_parser) : bool := bool_decide (st ps = s_message_done).

Definition quiet : list event -> http_parser -> event -> Z * bool := fun _ _ _ => (0, false).

Example execute_get :
  execute quiet (bs "GET /a?b HTTP/1.1" ++ [13; 10] ++ bs "Host: h" ++ [13; 10; 13; 10]) (http_parser_init HTTP_REQUEST) [] =
  Ok (set_state s_start_req (set_nread 0 (set_index 0 (set_http_minor 1 (set_http_major 1 (set_method HTTP_GET (set_content_length ULLONG_MAX (http_parser_init HTTP_REQUEST))))))),
      [Notify MessageBegin; Data Url (bs "/a?b"); Data HeaderField (bs "Host"); Data HeaderValue (bs "h");
       Notify HeadersComplete; Notify MessageComplete], 30).
Proof. vm_compute. reflexivity. Qed.
