(* ===== verification/HttpSafety.v ===== *)
(** * The HTTP parser never fails an assertion

    For every sequence of bytes and every behaviour of the callbacks,
    [http_parser_execute] returns: the invariant of the parser excludes the
    failing assertions, the reads outside the method names and the endless
    jumps. *)

From S2P Require Import Prelude Bits HttpParser.
Local Open Scope Z_scope.

(** ** The invariant *)

(** Header states while a name is read. *)
Definition field_state (h : header_states) : bool :=
  match h with
  | h_general | h_C | h_CO | h_CON | h_matching_connection | h_matching_proxy_connection | h_matching_content_length
  | h_matching_transfer_encoding | h_matching_upgrade | h_connection | h_content_length | h_transfer_encoding | h_upgrade => true
  | _ => false
  end.

(** Header states while a value is read. *)
Definition value_state (h : header_states) : bool :=
  match h with h_connection | h_transfer_encoding => false | _ => true end.

Definition state_ok (p : http_parser) : Prop :=
  match st p with
  | s_req_method => 0 <= index p <= zlen (method_strings (method p))
  | s_header_field => field_state (header_state p) = true
  | s_header_value => value_state (header_state p) = true
  | s_body_identity => 0 < content_length p < ULLONG_MAX
  | s_chunk_size_start => has F_CHUNKED p = true /\ nread p = 0
  | s_chunk_size | s_chunk_parameters | s_chunk_size_almost_done => has F_CHUNKED p = true /\ 0 <= content_length p < ULLONG_MAX
  | s_chunk_data => has F_CHUNKED p = true /\ 0 < content_length p < ULLONG_MAX
  | s_chunk_data_almost_done => has F_CHUNKED p = true /\ content_length p = 0
  | s_chunk_data_done => has F_CHUNKED p = true
  | _ => True
  end.

Definition parser_inv (p : http_parser) : Prop := state_ok p /\ 0 <= content_length p <= ULLONG_MAX.

(** The same while a byte is handled: it has been counted. *)
Definition counted (p : http_parser) : Prop :=
  match st p with
  | s_chunk_size_start => has F_CHUNKED p = true /\ nread p = 1
  | _ => state_ok p
  end /\ 0 <= content_length p <= ULLONG_MAX.

(** How many turns a state can still take. *)
Definition rank (s : state) : nat :=
  match s with
  | s_header_value_lws | s_header_value_discard_lws => 4
  | s_header_field_start => 3
  | s_headers_almost_done | s_header_value | s_body_identity | s_start_req_or_res => 2
  | _ => 1
  end.

(** Which states keep the mark of [k]. *)
Definition keeps (k : data_kind) (s : state) : bool :=
  match k with
  | Body => match s with s_body_identity | s_body_identity_eof | s_chunk_data | s_chunk_data_almost_done => true | _ => false end
  | _ => bool_decide (initial_mark s = Some k)
  end.

(** A mark that a state keeps was opened by the turn or kept before; that of
    the body is opened again for every byte.  A turn that calls back leaves none
    open. *)
Definition marks_follow (p p' : http_parser) (mark : option data_kind) (c : option call) : Prop :=
  (forall k, keeps k (st p') = true -> mark = Some k \/ keeps k (st p) = match k with Body => false | _ => true end) /\
  (forall k, c <> None -> keeps k (st p') = false) /\
  match c with
  | None => True
  | Some (CallData k x a) => mark = None /\ x = 0 \/ mark = Some k /\ (x = 0 \/ x = 1)
  | Some (CallNotify n) => mark = None /\ n <> HeadersComplete
  | Some CallHeadersComplete => mark = None
  end.

(** States whose handling depends neither on the rest of the buffer nor on the
    count of bytes. *)
Definition plain (s : state) : bool :=
  match s with s_chunk_size_start | s_body_identity | s_body_identity_eof | s_chunk_data => false | _ => true end.

(** What a turn has to guarantee. *)
Definition turn_ok (p : http_parser) (avail : Z) (t : turn) : Prop :=
  match t with
  | AssertFails => False
  | Fail e _ => e <> HPE_OK /\ e <> HPE_PAUSED
  | Turn p' mark skip c ctl =>
      errno p' = errno p /\
      parser_inv p' /\
      0 <= skip < avail /\
      (ctl = Reexecute -> plain (st p') = true /\ (rank (st p') < rank (st p))%nat) /\
      (forall k, (keeps k (st p) = true \/ mark = Some k) -> keeps k (st p') = true \/ exists x a, c = Some (CallData k x a)) /\
      (c = Some CallHeadersComplete -> st p' = s_headers_done) /\
      (ctl = ReturnAfter -> method p' = HTTP_CONNECT /\ c = Some (CallNotify MessageComplete)) /\
      (forall k x a, c = Some (CallData k x a) -> 0 <= a <= 1) /\
      marks_follow p p' mark c
  end.

(** ** The turns *)

(** At most one mark is kept. *)
Lemma keeps_one k k' s : keeps k s = true -> keeps k' s = true -> k = k'.
Proof. by destruct k, k', s. Qed.

Lemma has_lor f g p : has f (set_flags (Z.lor (flags p) g) p) = has f p || negb (Z.land g f =? 0).
Proof.
  unfold has, set_flags. cbn [flags]. rewrite Z.land_lor_distr_l.
  destruct (Z.eqb_spec (Z.land (flags p) f) 0) as [->|H1]; [by rewrite Z.lor_0_l|]. cbn [negb orb].
  apply negb_true_iff, Z.eqb_neq. intros H%Z.lor_eq_0_iff. tauto.
Qed.

Lemma NEW_MESSAGE_cases p : NEW_MESSAGE p = s_start_req \/ NEW_MESSAGE p = s_start_res \/ NEW_MESSAGE p = s_dead.
Proof. unfold NEW_MESSAGE, start_state. destruct (http_should_keep_alive p), (type p); auto. Qed.

(** Proves [turn_ok] of a turn between known states. *)
Ltac by_keeps :=
  let H := fresh in
  intros [] [H|H];
  first [ left; vm_compute; reflexivity
        | right; eexists _, _; reflexivity
        | exfalso; vm_compute in H; discriminate H ].
Ltac by_follow :=
  let H := fresh in
  split; [intros [] H|split; [intros [] H|]];
  first [ exact I | reflexivity | contradiction H; reflexivity | discriminate H
        | left; reflexivity | right; vm_compute; reflexivity
        | exfalso; vm_compute in H; discriminate H
        | split; [reflexivity|discriminate] | left; split; reflexivity | right; split; [reflexivity|]; (left + right); reflexivity ].

Lemma u64_ULLONG x : 0 <= u64 x <= ULLONG_MAX.
Proof. pose proof (u64_range x). unfold ULLONG_MAX. lia. Qed.

Ltac by_inv :=
  unfold parser_inv, counted, state_ok;
  cbn [st content_length nread index method header_state flags set_type set_flags set_state set_header_state set_index
       set_nread set_content_length set_http_major set_http_minor set_status_code set_method SET_ERRNO];
  repeat match goal with |- _ /\ (_ <= _ <= _) => split end;
  first [ exact I | assumption | apply u64_ULLONG | reflexivity | lia
        | lazymatch goal with |- _ <= _ <= zlen (method_strings _) => vm_compute; split; discriminate end | idtac ].
Ltac leaf :=
  unfold turn_ok;
  first [ split; discriminate
        | refine (conj _ (conj _ (conj _ (conj _ (conj _ (conj _ (conj _ (conj _ _))))))));
          [ reflexivity
          | by_inv
          | first [lia | idtac]
          | first [discriminate | intros _; cbn; split; [reflexivity|lia] | idtac ]
          | first [ by_keeps | idtac ]
          | first [ discriminate | intros _; reflexivity | idtac ]
          | first [ discriminate | idtac ]
          | first [ discriminate | intros ? ? ? [= <- <- <-]; lia | idtac ]
          | first [ by_follow | idtac ] ] ].

Definition good (p : http_parser) : Prop :=
  forall ch avail, 0 < avail -> turn_ok p avail (switch p ch avail).

Ltac good_intros p :=
  intros [Hc Hr] Hs ch avail Ha; destruct p as [ty fl s hs ix nr cl mj mn sc me er];
  cbn -[ULLONG_MAX method_strings] in Hc, Hr, Hs; unfold switch; cbn [st];
  destruct s; try (exfalso; exact Hs); cbn [st];
  cbn -[ULLONG_MAX method_strings] in Hc.
Ltac turn_unfold := unfold next, notify, again, STRICT_CHECK, check_that, more_digits; cbn [st].

Lemma good_start p :
  counted p -> match st p with s_dead | s_start_req_or_res | s_res_or_resp_H | s_start_res | s_start_req => True | _ => False end ->
  good p.
Proof.
  good_intros p; unfold switch_start; turn_unfold.
  all: repeat case_if; leaf.
Qed.

Lemma good_response p :
  counted p ->
  match st p with
  | s_res_H | s_res_HT | s_res_HTT | s_res_HTTP | s_res_first_http_major | s_res_http_major | s_res_first_http_minor
  | s_res_http_minor | s_res_first_status_code | s_res_status_code | s_res_status_start | s_res_status
  | s_res_line_almost_done => True
  | _ => False
  end -> good p.
Proof.
  good_intros p; unfold switch_response; turn_unfold.
  all: repeat case_if; leaf.
Qed.

Lemma good_request_line p :
  counted p ->
  match st p with
  | s_req_http_start | s_req_http_H | s_req_http_HT | s_req_http_HTT | s_req_http_HTTP | s_req_first_http_major
  | s_req_http_major | s_req_first_http_minor | s_req_http_minor | s_req_line_almost_done => True
  | _ => False
  end -> good p.
Proof.
  good_intros p; unfold switch_request_line; turn_unfold.
  all: repeat case_if; leaf.
Qed.

Lemma zlen_method m : 1 <= zlen (method_strings m) < 255.
Proof. destruct m; vm_compute; split; done. Qed.

Lemma other_method_longer m i ch m' : other_method m i ch = Some m' -> 0 <= i -> i + 1 <= zlen (method_strings m').
Proof.
  unfold other_method. intros H Hi. destruct m; cbn in H; repeat case_if_in H; simplify_eq; zbool; subst; vm_compute; done.
Qed.

Lemma good_method p : counted p -> match st p with s_req_method => True | _ => False end -> good p.
Proof.
  good_intros p. unfold switch_method. cbn [st method index]. turn_unfold.
  case_if; [leaf|]. pose proof (zlen_method me).
  destruct (zget_lt (method_strings me ++ [0]) ix) as [m Hm]; [rewrite zlen_app, zlen_cons, (@zlen_nil Z); lia|]. rewrite Hm. case_if; [leaf|].
  destruct (ch =? m) eqn:E.
  - leaf. zbool. subst. rewrite u8_small by lia. split; [lia|].
    destruct (decide (ix = zlen (method_strings me))) as [->|]; [|lia].
    rewrite zget_app_r, Z.sub_diag, zget_cons_0 in Hm by lia. congruence.
  - destruct (other_method me ix ch) as [m'|] eqn:Eo; [|leaf].
    pose proof (other_method_longer _ _ _ _ Eo). leaf. rewrite u8_small by lia. lia.
Qed.

(** A character of a URL that is not refused leads to a state inside it. *)
Lemma parse_url_server_cases ch :
  parse_url_server ch = s_dead \/ keeps Url (parse_url_server ch) = true.
Proof. unfold parse_url_server. repeat case_if; auto. Qed.

Lemma parse_url_char_cases s ch : parse_url_char s ch = s_dead \/ keeps Url (parse_url_char s ch) = true.
Proof.
  unfold parse_url_char. case_if; [auto|].
  destruct s; auto; repeat case_if; auto using parse_url_server_cases.
Qed.

Lemma url_turn s p p0 mark ch avail :
  parser_inv p -> 0 < avail -> errno p = errno p0 ->
  (forall k, keeps k (st p0) = true \/ mark = Some k -> k = Url) -> keeps Url (st p0) = true \/ mark = Some Url ->
  turn_ok p0 avail (let new_state := parse_url_char s ch in
    if decide (new_state = s_dead) then Fail HPE_INVALID_URL p else Turn (set_state new_state p) mark 0 None Break).
Proof.
  intros [_ Hr] Ha He Hk Hu0. cbn zeta. case_decide as Hd; [split; discriminate|].
  destruct (parse_url_char_cases s ch) as [|Hu]; [done|].
  refine (conj He (conj _ (conj _ (conj _ (conj _ (conj _ (conj _ (conj _ _)))))))); try done.
  - split; [|exact Hr]. unfold state_ok. cbn [st set_state]. by destruct (parse_url_char s ch).
  - intros k H. left. by rewrite (Hk k H).
  - split_and!; try done. intros k H. rewrite (keeps_one _ _ _ H Hu). clear k H. destruct Hu0; [by right|by left].
Qed.

Lemma good_url p :
  counted p ->
  match st p with
  | s_req_spaces_before_url | s_req_scheme | s_req_scheme_slash | s_req_scheme_slash_slash | s_req_server_start
  | s_req_server | s_req_server_with_at | s_req_path | s_req_query_string_start | s_req_query_string
  | s_req_fragment_start | s_req_fragment => True
  | _ => False
  end -> good p.
Proof.
  good_intros p; unfold switch_url; cbn [st].
  1: case_if; [leaf|]; destruct (decide (method _ = _)); apply url_turn; first [done | by intros [] [?|?] | by left | by right].
  all: case_if; [first [split; discriminate | case_if; leaf]|].
  all: try (destruct (ch =? 32); [leaf|]).
  all: apply url_turn; first [done | by intros [] [?|?] | by left | by right].
Qed.

Lemma matching_cases s found c p :
  exists i h, matching s found c p = set_header_state h (set_index i p) /\ (h = h_general \/ h = found \/ h = header_state p).
Proof.
  unfold matching. destruct p. repeat case_if; eexists _, _; (split; [reflexivity|]); cbn; auto.
Qed.

Ltac by_matching :=
  match goal with
  | |- context [matching ?s ?f ?c ?p] =>
      destruct (matching_cases s f c p) as (i & h & -> & [-> | [-> | ->]]); leaf
  end.

Lemma good_header_field p :
  counted p -> match st p with s_header_field_start | s_header_field => True | _ => False end -> good p.
Proof.
  good_intros p; unfold switch_header_field; cbn [st]; generalize (TOKEN ch) as c; intros c.
  - repeat (case_if; turn_unfold); leaf.
  - case_if; [|repeat (case_if; turn_unfold); leaf].
    unfold header_field_char. cbn [header_state]. destruct hs; try discriminate Hc; turn_unfold; try by_matching.
    all: repeat case_if; leaf.
Qed.

Lemma header_value_start_ok p ch avail s :
  0 <= content_length p <= ULLONG_MAX -> 0 < avail -> st p = s -> s = s_header_value_discard_ws \/ s = s_header_value_start ->
  turn_ok p avail (header_value_start p ch).
Proof.
  intros Hr Ha Es Hs. destruct p as [ty fl s' hs ix nr cl mj mn sc me er]. cbn in Es, Hr. subst s'.
  unfold header_value_start, add_flag. cbn [header_state set_index set_state]. generalize (LOWER ch) as c. intros c. destruct Hs as [-> | ->].
  all: destruct hs; repeat case_if; leaf.
Qed.

Lemma header_value_char_ok p ch avail :
  counted p -> 0 < avail -> st p = s_header_value -> turn_ok p avail (header_value_char p ch).
Proof.
  intros [Hc Hr] Ha Es. destruct p as [ty fl s hs ix nr cl mj mn sc me er]. cbn in Es. subst s. cbn in Hc, Hr.
  unfold header_value_char. cbn [header_state content_length]. generalize (LOWER ch) as c. intros c. destruct hs; try discriminate Hc; turn_unfold; try by_matching.
  all: repeat case_if; leaf.
Qed.

Lemma good_header_value p :
  counted p ->
  match st p with
  | s_header_value_discard_ws | s_header_value_start | s_header_value | s_header_almost_done | s_header_value_lws
  | s_header_value_discard_ws_almost_done | s_header_value_discard_lws => True
  | _ => False
  end -> good p.
Proof.
  good_intros p; unfold switch_header_value, add_flag; turn_unfold; repeat (case_if; turn_unfold); try leaf.
  - eapply header_value_start_ok; eauto.
  - eapply header_value_start_ok; eauto.
  - apply header_value_char_ok; done.
  - destruct hs; leaf.
Qed.

(** The end of a message. *)
Lemma message_complete_turn p q avail ctl :
  ctl = Break \/ ctl = ReturnAfter /\ method q = HTTP_CONNECT -> 0 < avail -> 0 <= content_length q <= ULLONG_MAX -> errno q = errno p -> (forall k, keeps k (st p) = false) ->
  turn_ok p avail (Turn (set_state (NEW_MESSAGE q) q) None 0 (Some (CallNotify MessageComplete)) ctl).
Proof.
  intros Hctl Ha Hr He Hk. refine (conj He (conj _ (conj _ (conj _ (conj _ (conj _ (conj _ (conj _ _)))))))); try done.
  - split; [|exact Hr]. unfold state_ok. cbn [st set_state]. by destruct (NEW_MESSAGE_cases q) as [->|[->| ->]].
  - destruct Hctl as [->|[-> _]]; discriminate.
  - intros k [H|H]; [by rewrite Hk in H|done].
  - destruct Hctl as [->|[-> Hm]]; [discriminate|done].
  - assert (Hno : forall k, keeps k (NEW_MESSAGE q) = false) by (intros []; by destruct (NEW_MESSAGE_cases q) as [->|[->| ->]]).
    split_and!; try done. intros k H. exfalso. cbn [st set_state] in H. by rewrite Hno in H.
Qed.

Lemma good_headers_done p :
  counted p -> match st p with s_headers_almost_done | s_headers_done => True | _ => False end -> good p.
Proof.
  good_intros p; unfold switch_headers_done; turn_unfold; cbn [flags method type content_length].
  all: repeat first [case_if | progress cbn [type set_nread] | destruct ty].
  all: lazymatch goal with
       | |- turn_ok _ _ (Turn (set_state (NEW_MESSAGE _) _) _ _ _ _) =>
           apply message_complete_turn; [auto|done|exact Hr|done|by intros []]
       | _ => leaf
       end.
  all: first [by split | zbool; cbn [content_length set_nread] in *; lia].
Qed.

Lemma unhex_range ch : -1 <= unhex ch <= 15.
Proof.
  destruct (decide (0 <= ch < 256)) as [H|H].
  2: { unfold unhex, table_at. destruct (zget unhex_table ch) eqn:E; [|cbn; lia].
       apply zget_Some_lt in E. change (zlen unhex_table) with 128 in E. lia. }
  assert (E : ((-1 <=? unhex ch) && (unhex ch <=? 15)) = true); [|zbool; lia].
  revert ch H. apply (byte_check (fun ch => (-1 <=? unhex ch) && (unhex ch <=? 15))). vm_compute. reflexivity.
Qed.

(** The next digit of a chunk size neither wraps nor makes the largest number. *)
Lemma chunk_size_digit c d :
  0 <= c -> 0 <= d <= 15 -> ((ULLONG_MAX - 16) / 16 <? c) = false -> u64 (u64 (u64 (c * 16) + d)) < ULLONG_MAX.
Proof.
  intros Hc Hd H%Z.ltb_ge. unfold ULLONG_MAX in *. rewrite (u64_small (c * 16)) by dlia.
  rewrite !u64_small by (rewrite ?u64_small; dlia). dlia.
Qed.

Lemma body_rest c a : 0 <= c <= ULLONG_MAX -> 0 < a -> u64 (c - Z.min c a) = c - Z.min c a.
Proof. unfold ULLONG_MAX. intros. apply u64_small. lia. Qed.

Lemma good_body p :
  counted p ->
  match st p with
  | s_body_identity | s_body_identity_eof | s_message_done | s_chunk_size_start | s_chunk_size | s_chunk_parameters
  | s_chunk_size_almost_done | s_chunk_data | s_chunk_data_almost_done | s_chunk_data_done => True
  | _ => False
  end -> good p.
Proof.
  good_intros p; unfold switch_body; turn_unfold; cbn [content_length nread]; pose proof (unhex_range ch) as Hu; revert Hu;
    generalize (unhex ch) as u; intros u Hu.
  all: try (rewrite (proj1 Hc); cbn [andb]). all: try rewrite Hc.
  all: repeat case_if.
  all: lazymatch goal with
       | |- turn_ok _ _ (Turn (set_state (NEW_MESSAGE _) _) _ _ _ _) =>
           apply message_complete_turn; [auto|done|exact Hr|done|by intros []]
       | |- turn_ok _ _ AssertFails => exfalso; zbool; lia
       | _ => leaf
       end.
  all: try exact (proj1 Hc); try exact Hc; try (split; [first [exact (proj1 Hc) | exact Hc]|]); try reflexivity.
  all: zbool; cbn [content_length set_nread set_content_length] in *; rewrite ?body_rest in * by (try done; lia); try lia.
  - rewrite u64_small by lia. unfold ULLONG_MAX. lia.
  - split; [apply u64_ULLONG|]. apply chunk_size_digit; [lia|lia|by apply Z.ltb_ge].
Qed.

(** Every turn keeps the invariant, opens and closes the marks in order, moves
    inside the buffer and, if it stays at the byte, lowers the rank. *)
Lemma switch_ok p : counted p -> good p.
Proof.
  intros Hc. pose proof (good_start p Hc). pose proof (good_response p Hc). pose proof (good_method p Hc).
  pose proof (good_url p Hc). pose proof (good_request_line p Hc). pose proof (good_header_field p Hc).
  pose proof (good_header_value p Hc). pose proof (good_headers_done p Hc). pose proof (good_body p Hc).
  destruct (st p); auto.
Qed.

(** ** The loop *)

(** A parser that can go on: an error other than a pause is final. *)
Definition resumable (p : http_parser) : Prop := errno p = HPE_OK \/ errno p = HPE_PAUSED -> parser_inv p.

Lemma counting p : parser_inv p -> counted (count_byte p) /\ st (count_byte p) = st p /\ errno (count_byte p) = errno p.
Proof.
  intros [Hi Hr]. unfold state_ok in Hi. destruct p as [ty fl s hs ix nr cl mj mn sc me er]. cbn -[ULLONG_MAX] in *.
  split; [|by destruct s]. destruct s; try (split; [exact I || exact Hi|exact Hr]). destruct Hi as [Hi ->]. by split.
Qed.

Section frames.
Context (on : list event -> http_parser -> event -> Z * bool) (data : list Z).

(** Why the parser stopped before the end of the buffer. *)
Definition result_ok (h : list event) (r : http_parser * list event * Z) : Prop :=
  let '(p, h', n) := r in
  resumable p /\ h `prefix_of` h' /\ 0 <= n <= zlen data /\
  (errno p = HPE_OK -> n = zlen data \/ method p = HTTP_CONNECT /\ last h' = Some (Notify MessageComplete)).

Definition marks_ok (f : frame) : Prop := forall k, is_Some (marks f k) -> keeps k (st (parser f)) = true.

Definition frame_inv (f : frame) : Prop := errno (parser f) = HPE_OK /\ parser_inv (parser f) /\ marks_ok f.

(** A callback changes nothing but the error. *)
Lemma callback_parser e f : exists x, parser (callback on e f) = SET_ERRNO x (parser f).
Proof.
  unfold callback. destruct (on _ _ _) as [rc []]; case_if; cbn [parser]; eexists; try reflexivity.
  instantiate (1 := errno (parser f)). by destruct (parser f).
Qed.

Lemma stop_ok h f n :
  parser_inv (parser f) -> h `prefix_of` out f -> 0 <= n <= zlen data -> errno (parser f) <> HPE_OK ->
  result_ok h (parser f, out f, n).
Proof. intros Hi Hp Hn He. split_and!; try done; try lia. by intros _. Qed.

(** What a call leaves when it does not stop the parser. *)
Definition called (c : option call) (h : list event) (f f' : frame) : Prop :=
  errno (parser f') = HPE_OK /\ parser_inv (parser f') /\ st (parser f') = st (parser f) /\
  method (parser f') = method (parser f) /\ h `prefix_of` out f' /\
  (forall k, is_Some (marks f' k) -> is_Some (marks f k) /\ forall x a, c <> Some (CallData k x a)) /\
  (forall n, c = Some (CallNotify n) -> last (out f') = Some (Notify n)).

Lemma callback_out e f : out (callback on e f) = out f ++ [e].
Proof. unfold callback. by destruct (on _ _ _). Qed.
Lemma callback_marks e f : marks (callback on e f) = marks f.
Proof. unfold callback. by destruct (on _ _ _). Qed.

Lemma callback_stop h e f n :
  parser_inv (parser f) -> h `prefix_of` out f -> 0 <= n <= zlen data -> errno (parser (callback on e f)) <> HPE_OK ->
  result_ok h (parser (callback on e f), out (callback on e f), n).
Proof.
  intros Hi Hp Hn He. apply stop_ok; try done.
  - destruct (callback_parser e f) as [x ->]. exact Hi.
  - rewrite callback_out. by apply prefix_app_r.
Qed.

Lemma notify_ok n h f er :
  parser_inv (parser f) -> h `prefix_of` out f -> 0 <= er <= zlen data ->
  match CALLBACK_NOTIFY_ on n er f with
  | inl r => result_ok h r
  | inr f' => called (Some (CallNotify n)) h f f'
  end.
Proof.
  intros Hi Hp Hn. unfold CALLBACK_NOTIFY_. case_decide as Hd; [|by apply callback_stop].
  destruct (callback_parser (Notify n) f) as [x Ex].
  split_and!; rewrite ?Ex, ?callback_out, ?callback_marks; try done; [congruence|by apply prefix_app_r|].
  intros n' [= ->]. by rewrite last_snoc.
Qed.

Lemma data_ok k end_ er x a h f :
  errno (parser f) = HPE_OK -> parser_inv (parser f) -> h `prefix_of` out f -> 0 <= er <= zlen data ->
  match CALLBACK_DATA_ on data k end_ er f with
  | inl r => result_ok h r
  | inr f' => called (Some (CallData k x a)) h f f'
  end.
Proof.
  intros He Hi Hp Hn. unfold CALLBACK_DATA_. destruct (marks f k) as [m|] eqn:Em.
  - case_decide as Hd; [|by apply callback_stop]. generalize dependent (Data k (ztake (end_ - m) (zdrop m data))). intros ev Hd.
    destruct (callback_parser ev f) as [y Ey].
    split_and!; cbn [parser set_mark marks out]; rewrite ?Ey, ?callback_out, ?callback_marks; try done; [congruence|by apply prefix_app_r|].
    intros k'. case_decide; [by intros []|]. split; [done|congruence].
  - split_and!; try done. intros k' Hk. split; [done|]. intros x' a' [= -> _ _]. rewrite Em in Hk. by destruct Hk.
Qed.

Lemma headers_complete_ok p h f :
  errno (parser f) = HPE_OK -> parser_inv (parser f) -> h `prefix_of` out f -> 0 <= p < zlen data ->
  st (parser f) = s_headers_done ->
  match headers_complete on p f with
  | inl r => result_ok h r
  | inr f' => called (Some CallHeadersComplete) h f f'
  end.
Proof.
  intros He Hi Hp Hb Hh.
  assert (Hskip : forall q, st q = s_headers_done -> parser_inv q -> parser_inv (add_flag F_SKIPBODY q)).
  { intros q Hq [_ Hr]. split; [|exact Hr]. unfold state_ok, add_flag. cbn [st set_flags]. by rewrite Hq. }
  assert (Ho : h `prefix_of` out f ++ [Notify HeadersComplete]) by by apply prefix_app_r.
  unfold headers_complete. destruct (on _ _ _) as [rc paused]. cbn zeta.
  set (q := if paused then SET_ERRNO HPE_PAUSED (parser f) else parser f).
  assert (Hq : parser_inv q /\ st q = s_headers_done /\ method q = method (parser f)) by (subst q; by destruct paused).
  destruct Hq as (Hq & Hs & Hm). clearbody q. repeat first [case_if | case_decide as Hd].
  all: try (split_and!; first [done | exact Hd | by apply Hskip | rewrite Hh; exact Hs | exact Hm]).
  all: unfold stop; apply stop_ok; cbn [parser set_parser out]; auto; lia.
Qed.

Lemma run_call_ok c p h f :
  errno (parser f) = HPE_OK -> parser_inv (parser f) -> h `prefix_of` out f -> 0 <= p < zlen data ->
  (c = Some CallHeadersComplete -> st (parser f) = s_headers_done) ->
  (forall k x a, c = Some (CallData k x a) -> 0 <= a <= 1) ->
  match run_call on data c p f with
  | inl r => result_ok h r
  | inr f' => called c h f f'
  end.
Proof.
  intros He Hi Hp Hb Hh Ha. destruct c as [[n| |k x a]|]; cbn [run_call].
  - apply notify_ok; try done. lia.
  - by apply headers_complete_ok; auto.
  - apply data_ok; try done. specialize (Ha _ _ _ eq_refl). lia.
  - by split_and!.
Qed.

Lemma MARK_frame (mark : option data_kind) p f :
  let f' := match mark with Some k => MARK k p f | None => f end in
  parser f' = parser f /\ out f' = out f /\ forall k, is_Some (marks f' k) -> is_Some (marks f k) \/ mark = Some k.
Proof.
  destruct mark as [k|]; cbn zeta; [|by auto]. unfold MARK. destruct (marks f k) eqn:E; [by auto|].
  split_and!; try done. intros k'. cbn. case_decide; [subst; auto|auto].
Qed.

Lemma inv_counted p : parser_inv p -> plain (st p) = true -> counted p.
Proof. intros [Hs Hr] Hne. split; [|done]. unfold state_ok in *. by destruct (st p). Qed.

Lemma exec_byte_ok turns ch h : forall p f,
  (rank (st (parser f)) <= turns)%nat -> counted (parser f) -> errno (parser f) = HPE_OK -> marks_ok f ->
  h `prefix_of` out f -> 0 <= p < zlen data ->
  exists r p', exec_byte on data turns ch p f = Ok (r, p') /\ p <= p' < zlen data /\
    match r with
    | inl r => result_ok h r
    | inr f' => frame_inv f' /\ h `prefix_of` out f'
    end.
Proof.
  induction turns as [|turns IH]; intros p f Hrk Hc He Hm Hp Hb.
  { exfalso. revert Hrk. destruct (st (parser f)); cbn; lia. }
  cbn [exec_byte]. pose proof (switch_ok _ Hc ch (zlen data - p) ltac:(lia)) as Ht.
  destruct (switch (parser f) ch (zlen data - p)) as [e q| |q mark skip c ctl]; [|done|].
  { destruct Ht as [He1 He2]. eexists _, _. split; [reflexivity|]. split; [lia|]. unfold fail_at, stop.
    split_and!; cbn; try done; try lia. by intros [|]. }
  destruct Ht as (Hq & Hi & Hs & Hre & Hk & Hhc & Hret & Ha & _).
  destruct (MARK_frame mark p (set_parser q f)) as (Ep & Eo & Em). cbn zeta in Ep, Eo, Em.
  set (f1 := match mark with Some k => MARK k p (set_parser q f) | None => set_parser q f end) in *. cbn in Ep, Eo, Em.
  assert (He1 : errno (parser f1) = HPE_OK) by congruence.
  replace (call_allowed c f1) with true; [cbn [negb]|].
  2: { unfold call_allowed. destruct c as [[]|]; try done; by rewrite bool_decide_eq_true_2. }
  pose proof (run_call_ok c (p + skip) h f1 He1 ltac:(by rewrite Ep) ltac:(by rewrite Eo) ltac:(lia) ltac:(by rewrite Ep) Ha) as Hr.
  destruct (run_call on data c (p + skip) f1) as [r|f2].
  { eexists _, _. split; [reflexivity|]. split; [lia|done]. }
  destruct Hr as (He2 & Hi2 & Hs2 & Hm2 & Hp2 & Hk2 & Hn2).
  assert (Hmk : marks_ok f2).
  { intros k Hsm. destruct (Hk2 _ Hsm) as [[H|H]%Em Hno]; rewrite Hs2, Ep; (destruct (Hk k) as [?|(x & a & ->)]; [auto|done|]).
    all: by destruct (Hno x a). }
  destruct ctl.
  - eexists _, _. split; [reflexivity|]. split; [lia|]. by split_and!.
  - destruct (Hre eq_refl) as [Hne Hrk2]. destruct (IH (p + skip) f2) as (r & p' & E & Hb' & Hr'); try done; [| |lia|].
    + rewrite Hs2, Ep. lia.
    + apply inv_counted; [done|]. by rewrite Hs2, Ep.
    + eexists _, _. split; [exact E|]. split; [lia|done].
  - eexists _, _. split; [reflexivity|]. split; [lia|]. destruct (Hret eq_refl) as [Hco ->].
    split_and!; try done; try lia; [by intros _|]. right. split; [by rewrite Hm2, Ep|by apply Hn2].
Qed.

Lemma count_marks_one f : marks_ok f -> (count_marks f <= 1)%nat.
Proof.
  intros Hm. unfold count_marks, marks_ok in *.
  assert (Hone : forall k k', is_Some (marks f k) -> is_Some (marks f k') -> k = k') by eauto using keeps_one.
  repeat (rewrite filter_cons; case_decide); cbn; try lia.
  all: exfalso; match goal with H1 : is_Some (_ ?a), H2 : is_Some (_ ?b) |- _ => discriminate (Hone _ _ H1 H2) end.
Qed.

Lemma after_loop_ok h f : frame_inv f -> h `prefix_of` out f -> exists r, after_loop on data f = Ok r /\ result_ok h r.
Proof.
  intros (He & Hi & Hm) Hp. unfold after_loop. rewrite bool_decide_eq_true_2 by done.
  rewrite (proj2 (Nat.leb_le _ _)) by by apply count_marks_one. cbn [andb].
  assert (Hf : match flush_marks on data f with inl r => result_ok h r | inr f' => frame_inv f' /\ h `prefix_of` out f' end).
  { unfold flush_marks.
    assert (Hstep : forall k (r : step_result),
      match r with inl r => result_ok h r | inr f' => frame_inv f' /\ h `prefix_of` out f' end ->
      match match r with inl _ => r | inr f => CALLBACK_DATA_ on data k (zlen data) (zlen data) f end with
      | inl r => result_ok h r | inr f' => frame_inv f' /\ h `prefix_of` out f' end).
    { intros k [r|f']; [done|]. intros [(He' & Hi' & Hm') Hp']. pose proof (zlen_nonneg data).
      pose proof (data_ok k (zlen data) (zlen data) 0 0 h f' He' Hi' Hp' ltac:(lia)) as Hd.
      destruct (CALLBACK_DATA_ on data k _ _ f') as [r|f2]; [done|].
      destruct Hd as (? & ? & Hs & _ & ? & Hk & _). split; [|done]. split_and!; try done.
      intros k' [Hk' _]%Hk. rewrite Hs. by apply Hm'. }
    do 4 apply Hstep. apply (Hstep HeaderField (inr f)). split; [by split_and!|done]. }
  destruct (flush_marks on data f) as [r|f']; [by eauto|]. destruct Hf as [(He' & Hi' & _) Hp'].
  eexists. split; [reflexivity|]. pose proof (zlen_nonneg data). split_and!; try done; try lia. by intros _.
Qed.

Lemma loop_ok h fuel : forall p f,
  frame_inv f -> h `prefix_of` out f -> 0 <= p <= zlen data -> zlen data - p < Z.of_nat fuel ->
  exists r, loop on data fuel p f = Ok r /\ result_ok h r.
Proof.
  induction fuel as [|fuel IH]; intros p f (He & Hi & Hm) Hp Hb Hf; [lia|]. cbn [loop].
  destruct (zget data p) as [ch|] eqn:Ech; [|by apply after_loop_ok].
  apply zget_Some_lt in Ech.
  destruct (counting _ Hi) as (Hc & Hs & Heq). rewrite He in Heq. set (q := count_byte (parser f)) in *. case_if.
  { eexists. split; [reflexivity|]. split_and!; cbn; try done; try lia. by intros [|]. }
  destruct (exec_byte_ok 5 ch h p (set_parser q f)) as (r & p' & -> & Hb' & Hr); try done.
  - cbn [set_parser parser]. destruct (st q); cbn; lia.
  - intros k Hk. cbn [set_parser parser]. rewrite Hs. by apply Hm.
  - cbn [mbind outcome_bind]. destruct r as [r|f']; [by eauto|]. destruct Hr as [Hr Hp'].
    apply IH; try done; lia.
Qed.

End frames.

(** ** Every call of [http_parser_execute] *)

Ltac returns := eexists _, _, _; split; [reflexivity|]; split_and!; try done; try lia; try (by intros _).

Lemma execute_ok on data ps h :
  resumable ps ->
  exists ps' h' n, execute on data ps h = Ok (ps', h', n) /\ resumable ps' /\ h `prefix_of` h' /\ 0 <= n <= Z.max 1 (zlen data) /\
    (errno ps' = HPE_OK -> n = zlen data \/ method ps' = HTTP_CONNECT /\ last h' = Some (Notify MessageComplete)).
Proof.
  intros Hres. unfold execute. case_bool_decide as He; cbn [negb].
  2: { returns. }
  specialize (Hres (or_introl He)). case_if; zbool.
  - assert (Hstay : forall e n, e <> HPE_OK -> e <> HPE_PAUSED -> 0 <= n <= 1 -> exists ps' h' n', Ok (SET_ERRNO e ps, h, n) = Ok (ps', h', n') /\
      resumable ps' /\ h `prefix_of` h' /\ 0 <= n' <= Z.max 1 (zlen data) /\
      (errno ps' = HPE_OK -> n' = zlen data \/ method ps' = HTTP_CONNECT /\ last h' = Some (Notify MessageComplete))).
    { intros e n ? ? ?. returns. }
    pose proof (notify_ok on data MessageComplete h (mk_frame ps (fun _ => None) h) 0 Hres ltac:(done) ltac:(lia)) as Hn.
    destruct (st ps); try (apply Hstay; [done|done|lia]);
      try solve [returns].
    destruct (CALLBACK_NOTIFY_ on MessageComplete 0 _) as [[[p' h'] n]|f].
    + destruct Hn as (? & ? & ? & ?). returns.
    + destruct Hn as (He' & Hi' & _ & _ & Hp' & _). returns.
  - pose proof (zlen_nonneg data). edestruct (loop_ok on data h (S (length data)) 0) as (r & -> & Hr).
    + split_and!; [exact He|exact Hres|]. intros k. cbn. case_decide as Hd; [|by intros []]. intros _.
      revert Hd. by destruct (st ps), k.
    + done.
    + lia.
    + unfold zlen. lia.
    + destruct r as [[p' h'] n]. destruct Hr as (? & ? & ? & ?). returns.
Qed.

(** The parsers that a program can have: initialized, given data, paused and
    resumed. *)
Inductive reachable (on : list event -> http_parser -> event -> Z * bool) : http_parser -> list event -> Prop :=
| reachable_init t : reachable on (http_parser_init t) []
| reachable_execute data ps h ps' h' n :
    reachable on ps h -> execute on data ps h = Ok (ps', h', n) -> reachable on ps' h'
| reachable_pause paused ps h ps' :
    reachable on ps h -> http_parser_pause paused ps = Ok ps' -> reachable on ps' h.

Lemma reachable_resumable on ps h : reachable on ps h -> resumable ps.
Proof.
  induction 1 as [t|data ps h ps' h' n _ IH E|paused ps h ps' _ IH E].
  - intros _. destruct t; (split; [exact I|cbn; unfold ULLONG_MAX; lia]).
  - destruct (execute_ok on data ps h IH) as (? & ? & ? & E' & Hr & _). rewrite E in E'. by injection E' as <- <- <-.
  - unfold http_parser_pause in E. case_if_in E; [|done]. injection E as <-. intros _. apply IH.
    apply orb_true_iff in Heqb as [?%bool_decide_eq_true|?%bool_decide_eq_true]; auto.
Qed.

(** C19: for every reachable parser, every buffer and every behaviour of the
    callbacks (their results and pauses may depend on everything that happened
    before), [http_parser_execute] returns: no assertion of the parser fails, no
    method name is read beyond its end and no byte is handled more than five
    times.  The calls made so far stay as they are, the number of bytes returned
    is within the buffer (1 for an unexpected end of the stream), and a parser
    without error has read the whole buffer, unless it stopped after a CONNECT
    request. *)
Theorem http_parser_safe on data ps h :
  reachable on ps h ->
  exists ps' h' n, execute on data ps h = Ok (ps', h', n) /\ h `prefix_of` h' /\ 0 <= n <= Z.max 1 (zlen data) /\
    (errno ps' = HPE_OK -> n = zlen data \/ method ps' = HTTP_CONNECT /\ last h' = Some (Notify MessageComplete)).
Proof.
  intros Hr%reachable_resumable. destruct (execute_ok on data ps h Hr) as (ps' & h' & n & E & _ & H). by exists ps', h', n.
Qed.

(** A request in two buffers, paused when its headers are complete. *)
Definition pausing : list event -> http_parser -> event -> Z * bool :=
  fun _ _ e => match e with Notify HeadersComplete => (0, true) | _ => (0, false) end.

Lemma http_parser_safe_witness :
  exists ps h, reachable pausing ps h /\ errno ps = HPE_PAUSED /\
  exists ps' h' n, execute pausing [10] ps h = Ok (ps', h', n) /\ h `prefix_of` h' /\ 0 <= n <= Z.max 1 (zlen [10]) /\
    (errno ps' = HPE_OK -> n = zlen [10] \/ method ps' = HTTP_CONNECT /\ last h' = Some (Notify MessageComplete)).
Proof.
  set (r := execute pausing (bs "GET / HTTP/1.1" ++ [13; 10; 13; 10]) (http_parser_init HTTP_REQUEST) []).
  assert (Hr : exists p h n, r = Ok (p, h, n) /\ errno p = HPE_PAUSED) by (eexists _, _, _; split; vm_compute; reflexivity).
  destruct Hr as (p & h & n & E & Hp). exists p, h.
  assert (Hreach : reachable pausing p h) by (eapply reachable_execute; [apply (reachable_init _ HTTP_REQUEST)|exact E]).
  split; [exact Hreach|]. split; [exact Hp|]. exact (http_parser_safe pausing [10] p h Hreach).
Defined.

(** ** Behaviours worth knowing *)

(** The table of hexadecimal digits is only half initialized: a byte above 127
    is a digit 0 of a chunk size. *)
Lemma high_bytes_are_hex_zero ch : 128 <= ch < 256 -> unhex ch = 0.
Proof. intros H. unfold unhex, table_at. by rewrite zget_ge by (change (zlen unhex_table) with 128; lia). Qed.

(** Empty lines before a response begin messages of their own. *)
Lemma empty_lines_begin_messages :
  exists ps, execute quiet ([13; 10] ++ bs "HTTP") (http_parser_init HTTP_RESPONSE) [] =
    Ok (ps, [Notify MessageBegin; Notify MessageBegin; Notify MessageBegin], 6) /\ st ps = s_res_HTTP.
Proof. eexists. vm_compute. split; reflexivity. Qed.

(** Spaces inside a length are skipped. *)
Lemma content_length_skips_spaces :
  exists ps h, execute quiet (bs "GET / HTTP/1.1" ++ [13; 10] ++ bs "Content-Length: 1 2" ++ [13; 10; 13; 10]) (http_parser_init HTTP_REQUEST) [] =
    Ok (ps, h, 39) /\ st ps = s_body_identity /\ content_length ps = 12.
Proof. eexists _, _. vm_compute. split; [reflexivity|]. split; reflexivity. Qed.
