(* ===== verification/HttpSplit.v ===== *)
(** * The HTTP parser does not depend on how the stream is cut

    The parser keeps all its state between the buffers: fed with a stream in
    pieces of any size it ends in the same state, after the same number of
    bytes, and has told the program the same things, a text that crosses the
    end of a buffer in several parts. *)

From S2P Require Import Prelude Bits HttpParser HttpSafety.
Local Open Scope Z_scope.

(** ** What the program has been told *)

(** Consecutive parts of one text are put together; the latest call first. *)
Definition add_event (acc : list event) (e : event) : list event :=
  match acc, e with
  | Data k x :: rest, Data k' y => if decide (k = k') then Data k (x ++ y) :: rest else e :: acc
  | _, _ => e :: acc
  end.

Definition calls (h : list event) : list event := rev (fold_left add_event h []).

Definition same_calls (h1 h2 : list event) : Prop := calls h1 = calls h2.
Local Infix "≈" := same_calls (at level 70).

#[export] Instance same_calls_equivalence : Equivalence same_calls.
Proof. unfold same_calls. split; [by intros x|by intros x y|by intros x y z -> ->]. Qed.

#[export] Instance app_same_calls : Proper (same_calls ==> eq ==> same_calls) (@app event).
Proof.
  intros h1 h2 H t ? <-. unfold same_calls, calls in *. rewrite !fold_left_app.
  by rewrite <- (rev_involutive (fold_left add_event h1 [])), H, rev_involutive.
Qed.

Lemma same_calls_merge h k x y : (h ++ [Data k x]) ++ [Data k y] ≈ h ++ [Data k (x ++ y)].
Proof.
  unfold same_calls, calls. rewrite !fold_left_app. cbn. f_equal.
  destruct (fold_left add_event h []) as [|[n|k' z] r]; cbn; rewrite ?decide_True by done; try done.
  case_decide; cbn; rewrite decide_True by done; [by rewrite app_assoc|done].
Qed.

(** The last call was a part of a [k]. *)
Definition ended (k : data_kind) (h : list event) : Prop := h ++ [Data k []] ≈ h.

#[export] Instance ended_same_calls k : Proper (same_calls ==> iff) (ended k).
Proof. intros h1 h2 H. unfold ended. by rewrite H. Qed.

Lemma ended_snoc k h x : ended k (h ++ [Data k x]).
Proof. unfold ended. rewrite same_calls_merge. by rewrite app_nil_r. Qed.

(** ** Callbacks that accept everything *)

(** The callbacks succeed and do not pause; [skip] says for which messages
    [on_headers_complete] answers that there is no body. *)
Definition obliging (skip : http_parser -> bool) : list event -> http_parser -> event -> Z * bool :=
  fun _ p e => match e with Notify HeadersComplete => (if skip p then 1 else 0, false) | _ => (0, false) end.

Section split.
Context (skip : http_parser -> bool).
Local Abbreviation on := (obliging skip).

Definition after_headers (p : http_parser) : http_parser := if skip p then add_flag F_SKIPBODY p else p.

(** What a call of the program leaves. *)
Definition made (data : list Z) (c : option call) (p : Z) (f : frame) : frame :=
  match c with
  | None => f
  | Some (CallNotify n) => mk_frame (parser f) (marks f) (out f ++ [Notify n])
  | Some CallHeadersComplete => mk_frame (after_headers (parser f)) (marks f) (out f ++ [Notify HeadersComplete])
  | Some (CallData k x a) =>
      match marks f k with
      | None => f
      | Some m => set_mark k None (mk_frame (parser f) (marks f) (out f ++ [Data k (ztake (p + x - m) (zdrop m data))]))
      end
  end.

Lemma callback_obliging e f : e <> Notify HeadersComplete -> callback on e f = mk_frame (parser f) (marks f) (out f ++ [e]).
Proof. intros He. unfold callback, obliging. destruct e as [[]|]; try done. Qed.

Lemma run_call_made data c p f :
  errno (parser f) = HPE_OK -> c <> Some (CallNotify HeadersComplete) -> run_call on data c p f = inr (made data c p f).
Proof.
  intros He Hn. destruct c as [[n| |k x a]|]; cbn [run_call made]; [| | |done].
  - unfold CALLBACK_NOTIFY_. rewrite callback_obliging by congruence. by rewrite decide_True.
  - unfold headers_complete, obliging, after_headers. destruct (skip (parser f)); cbn -[decide]; by rewrite decide_True.
  - unfold CALLBACK_DATA_. destruct (marks f k); [|done]. rewrite callback_obliging by done. by rewrite decide_True.
Qed.

(** ** One byte in a long buffer and in a buffer of its own *)

Definition slice (data : list Z) (m q : Z) : list Z := ztake (q - m) (zdrop m data).

Lemma slice_empty data m : slice data m m = [].
Proof. unfold slice. by rewrite Z.sub_diag. Qed.

Lemma slice_extend data m p ch : 0 <= m <= p -> zget data p = Some ch -> slice data m (p + 1) = slice data m p ++ [ch].
Proof.
  intros Hm Hp. pose proof (zget_Some_lt _ _ _ Hp). unfold slice. replace (p + 1 - m) with ((p - m) + 1) by lia.
  rewrite ztake_add, zdrop_zdrop by lia. f_equal. replace (m + (p - m)) with p by lia.
  rewrite (zdrop_cons _ _ _ Hp). by apply (ztake_app_exact 1 [ch]).
Qed.

(** The part of a text that a mark has open. *)
Definition pending (data : list Z) (k : data_kind) (o : option Z) (q : Z) : list event :=
  match o with Some m => [Data k (slice data m q)] | None => [] end.

(** The frame [F] of a buffer [data] at [p] and the frame [f] of the byte alone. *)
Record sim (data : list Z) (ch p : Z) (F f : frame) : Prop := {
  sim_parser : parser F = parser f;
  sim_errno : errno (parser F) = HPE_OK;
  sim_marks : forall k, is_Some (marks f k) -> is_Some (marks F k);
  sim_at : forall k m, marks F k = Some m -> 0 <= m <= p;
  sim_zero : forall k m, marks f k = Some m -> m = 0;
  sim_keeps : marks_ok F;
  sim_kept : forall k, k <> Body -> keeps k (st (parser F)) = true -> is_Some (marks f k);
  sim_out : forall k, (forall k', k' <> k -> marks F k' = None) ->
    out F ++ pending data k (marks F k) p ≈ out f ++ pending [ch] k (marks f k) 0
}.

(** Opening a mark. *)
Lemma MARK_marks k p f k' :
  marks (MARK k p f) k' = if decide (k' = k) then (match marks f k with Some m => Some m | None => Some p end) else marks f k'.
Proof. unfold MARK. destruct (marks f k) eqn:E; cbn; case_decide; by subst. Qed.

Definition opened (mark : option data_kind) (p : Z) (q : http_parser) (f : frame) : frame :=
  match mark with Some k => MARK k p (set_parser q f) | None => set_parser q f end.

Lemma opened_fields mark p q f :
  parser (opened mark p q f) = q /\ out (opened mark p q f) = out f /\
  forall k, marks (opened mark p q f) k = if decide (mark = Some k) then Some (default p (marks f k)) else marks f k.
Proof.
  destruct mark as [j|]; cbn [opened]; [|by split_and!].
  destruct (MARK_frame (Some j) p (set_parser q f)) as (H1 & H2 & _). split_and!; [exact H1|exact H2|].
  intros k. rewrite MARK_marks. cbn. repeat case_decide; try congruence. simplify_eq. by destruct (marks f _).
Qed.

Lemma opened_out data ch p F f mark q :
  sim data ch p F f ->
  forall k, (forall k', k' <> k -> marks (opened mark p q F) k' = None) ->
    out F ++ pending data k (marks (opened mark p q F) k) p ≈ out f ++ pending [ch] k (marks (opened mark 0 q f) k) 0.
Proof.
  intros Hs k Hk. destruct (opened_fields mark p q F) as (_ & _ & HF). destruct (opened_fields mark 0 q f) as (_ & _ & Hf).
  assert (Hother : forall k', k' <> k -> marks F k' = None).
  { intros k' Hne. specialize (Hk k' Hne). rewrite HF in Hk. by case_decide. }
  pose proof (sim_out _ _ _ _ _ Hs k Hother) as Ho. rewrite HF, Hf. case_decide; [|done].
  destruct (marks F k) as [m|] eqn:EF, (marks f k) as [m'|] eqn:Ef; cbn [default pending] in *.
  - done.
  - rewrite app_nil_r in Ho. rewrite <- Ho, slice_empty. by rewrite same_calls_merge, app_nil_r.
  - destruct (sim_marks _ _ _ _ _ Hs k) as [? E]; [by rewrite Ef|]. by rewrite EF in E.
  - rewrite !app_nil_r in Ho. rewrite !slice_empty. by rewrite Ho.
Qed.

Lemma sim_unmarked data ch p F f :
  parser F = parser f -> errno (parser F) = HPE_OK -> (forall k, marks F k = None) -> (forall k, marks f k = None) ->
  (forall k, keeps k (st (parser F)) = false) -> out F ≈ out f -> sim data ch p F f.
Proof.
  intros Hp He HF Hf Hk Ho. split; try done.
  - intros k. rewrite Hf. by intros [].
  - intros k m. by rewrite HF.
  - intros k m. by rewrite Hf.
  - intros k. rewrite HF. by intros [].
  - intros k _. by rewrite Hk.
  - intros k _. by rewrite HF, Hf, !app_nil_r.
Qed.

Section turn.
Context (data : list Z) (ch p avail : Z) (F f : frame) (q : http_parser) (mark : option data_kind) (c : option call) (ctl : control).
Context (Hsim : sim data ch p F f) (Hturn : turn_ok (parser F) avail (Turn q mark 0 c ctl)) (Hch : zget data p = Some ch).
Local Abbreviation F1 := (opened mark p q F).
Local Abbreviation f1 := (opened mark 0 q f).

(** A mark open after the turn, before the call. *)
Lemma turn_open k : is_Some (marks F1 k) -> keeps k (st q) = true \/ exists x a, c = Some (CallData k x a).
Proof using Hsim Hturn.
  destruct Hturn as (_ & _ & _ & _ & Hk & _). intros Hm. apply Hk.
  destruct (opened_fields mark p q F) as (_ & _ & HF). rewrite HF in Hm. case_decide; [by right|left].
  by apply (sim_keeps _ _ _ _ _ Hsim).
Qed.

Lemma turn_sub k : is_Some (marks f1 k) -> is_Some (marks F1 k).
Proof using Hsim.
  destruct (opened_fields mark p q F) as (_ & _ & HF). destruct (opened_fields mark 0 q f) as (_ & _ & Hf).
  rewrite HF, Hf. case_decide; [done|]. apply (sim_marks _ _ _ _ _ Hsim).
Qed.

Lemma turn_at k m : marks F1 k = Some m -> 0 <= m <= p.
Proof using Hsim Hch.
  destruct (opened_fields mark p q F) as (_ & _ & HF). rewrite HF. assert (Hp : 0 <= p) by (apply zget_Some_lt in Hch; lia).
  case_decide; [|by eapply sim_at]. intros [= <-]. destruct (marks F k) eqn:E; cbn; [by eapply sim_at|lia].
Qed.

Lemma turn_zero k m : marks f1 k = Some m -> m = 0.
Proof using Hsim.
  destruct (opened_fields mark 0 q f) as (_ & _ & Hf). rewrite Hf.
  case_decide; [|by eapply sim_zero]. intros [= <-]. destruct (marks f k) eqn:E; cbn; [by eapply sim_zero|done].
Qed.

Lemma turn_without_call :
  c = None -> sim data ch p F1 f1 /\ (forall k, is_Some (marks F1 k) -> is_Some (marks f1 k)).
Proof using Hsim Hturn Hch.
  intros Hc. pose proof turn_open as Hopen. pose proof turn_sub as Hsub. pose proof (opened_out _ _ _ _ _ mark q Hsim) as Ho.
  pose proof Hturn as (Hq & _ & _ & _ & _ & _ & _ & _ & Hkept & _).
  destruct (opened_fields mark p q F) as (EF & OF & HF). destruct (opened_fields mark 0 q f) as (Ef & Of & Hf).
  split; [split|]; rewrite ?EF, ?Ef, ?OF, ?Of; try done.
  - rewrite Hq. apply (sim_errno _ _ _ _ _ Hsim).
  - apply turn_at.
  - apply turn_zero.
  - intros k [H|(x & a & ?)]%Hopen; [by rewrite EF|congruence].
  - intros k Hne [->|H]%Hkept; rewrite Hf.
    + by rewrite decide_True.
    + case_decide; [done|]. destruct k; try done; by apply (sim_kept _ _ _ _ _ Hsim).
  - intros k Hm. destruct (Hopen k Hm) as [H|(x & a & ?)]; [|congruence]. rewrite HF in Hm. rewrite Hf. case_decide; [done|].
    destruct (Hkept k H) as [?|H']; [done|]. pose proof (sim_keeps _ _ _ _ _ Hsim k Hm) as Hk.
    destruct (decide (k = Body)) as [->|]; [congruence|]. by apply (sim_kept _ _ _ _ _ Hsim).
Qed.

Lemma made_closed d k x a o f0 k' :
  (forall k', k' <> k -> marks f0 k' = None) -> marks (made d (Some (CallData k x a)) o f0) k' = None.
Proof.
  intros Hk. cbn [made]. destruct (marks f0 k) eqn:E; [cbn; case_decide; [done|by apply Hk]|].
  destruct (decide (k' = k)) as [->|]; [done|by apply Hk].
Qed.

(** A data callback: the rest of the text. *)
Lemma data_call k x a :
  c = Some (CallData k x a) ->
  (forall k', marks (made data c p F1) k' = None) /\ (forall k', marks (made [ch] c 0 f1) k' = None) /\
  out (made data c p F1) ≈ out (made [ch] c 0 f1).
Proof using Hsim Hturn Hch.
  intros Hc. pose proof turn_open as Hopen. pose proof turn_sub as Hsub. pose proof (opened_out _ _ _ _ _ mark q Hsim k) as Ho.
  pose proof Hturn as (_ & _ & _ & _ & _ & _ & _ & _ & _ & Hno & Hx). rewrite Hc in Hx.
  destruct (opened_fields mark p q F) as (EF & OF & HF). destruct (opened_fields mark 0 q f) as (Ef & Of & Hf).
  assert (Hothers : forall k', k' <> k -> marks F1 k' = None).
  { intros k' Hne. apply eq_None_not_Some. intros [H|(? & ? & ?)]%Hopen; [|congruence]. by rewrite Hno in H by congruence. }
  assert (Hothers' : forall k', k' <> k -> marks f1 k' = None).
  { intros k' Hne. apply eq_None_not_Some. intros H%Hsub. rewrite Hothers in H by done. by destruct H. }
  specialize (Ho Hothers).
  rewrite Hc. split_and!; [intros k'; by apply made_closed..|]. cbn [made].
  destruct (marks F1 k) as [m|] eqn:EM, (marks f1 k) as [m'|] eqn:Em; cbn [out set_mark pending] in *; rewrite ?OF, ?Of.
  - pose proof (turn_at _ _ EM). rewrite (turn_zero _ _ Em) in *. fold (slice data m (p + x)). fold (slice [ch] 0 (0 + x)).
    assert (Hx01 : x = 0 \/ x = 1) by tauto. destruct Hx01 as [-> | ->]; [by rewrite !Z.add_0_r|].
    rewrite (slice_extend _ _ _ _ H Hch), <- same_calls_merge, Ho. by rewrite same_calls_merge.
  - destruct Hx as [[_ ->]|[Hm _]]; [by rewrite Z.add_0_r, Ho, app_nil_r|]. rewrite Hf, decide_True in Em by done. done.
  - destruct (Hsub k) as [? E]; [by rewrite Em|]. by rewrite EM in E.
  - by rewrite !app_nil_r in Ho.
Qed.

Lemma turn_with_call :
  c <> None ->
  sim data ch p (made data c p F1) (made [ch] c 0 f1) /\ (forall k, marks (made data c p F1) k = None).
Proof using Hsim Hturn Hch.
  intros Hc. pose proof turn_open as Hopen. pose proof turn_sub as Hsub. pose proof (opened_out _ _ _ _ _ mark q Hsim) as Ho.
  pose proof data_call as Hdata.
  pose proof Hturn as (Hq & _ & _ & _ & _ & _ & _ & _ & _ & Hno & Hx).
  destruct (opened_fields mark p q F) as (EF & OF & HF). destruct (opened_fields mark 0 q f) as (Ef & Of & Hf).
  assert (He : errno q = HPE_OK) by (rewrite Hq; apply (sim_errno _ _ _ _ _ Hsim)).
  assert (Hnone : (forall k x a, c <> Some (CallData k x a)) -> (forall k, marks F1 k = None) /\ (forall k, marks f1 k = None) /\ out F1 ≈ out f1).
  { intros Hnd. assert (HN : forall k, marks F1 k = None).
    { intros k. apply eq_None_not_Some. intros [H|(? & ? & ?)]%Hopen; [by rewrite Hno in H|by eapply Hnd]. }
    assert (Hn : forall k, marks f1 k = None).
    { intros k. apply eq_None_not_Some. intros H%Hsub. rewrite HN in H. by destruct H. }
    split_and!; try done. specialize (Ho Url (fun k' _ => HN k')). rewrite HN, Hn in Ho. cbn in Ho. by rewrite OF, Of, !app_nil_r in *. }
  destruct c as [[n| |k x a]|]; [| | |done].
  - destruct Hnone as (HN & Hn & Hout); [done|]. split; [|exact HN].
    apply sim_unmarked; cbn; rewrite ?EF, ?Ef; try done; [by intros k; apply Hno|by rewrite Hout].
  - destruct Hnone as (HN & Hn & Hout); [done|]. split; [|exact HN].
    assert (Ha : errno (after_headers q) = errno q /\ st (after_headers q) = st q) by (unfold after_headers; by destruct (skip q)).
    destruct Ha as [Ha1 Ha2].
    apply sim_unmarked; cbn; rewrite ?EF, ?Ef; try done; [congruence|intros k; rewrite Ha2; by apply Hno|by rewrite Hout].
  - destruct (Hdata k x a eq_refl) as (HN & Hn & Hout). split; [|exact HN].
    assert (Hpar : forall d o f0, parser (made d (Some (CallData k x a)) o f0) = parser f0) by (intros; cbn; by destruct (marks _ k)).
    apply sim_unmarked; rewrite ?Hpar, ?EF, ?Ef; try done. intros k'. by apply Hno.
Qed.

Lemma turn_sim :
  let F2 := made data c p F1 in let f2 := made [ch] c 0 f1 in
  sim data ch p F2 f2 /\ (forall k, is_Some (marks F2 k) -> is_Some (marks f2 k)) /\ (c <> None -> forall k, marks F2 k = None).
Proof using Hsim Hturn Hch.
  pose proof turn_with_call as Hw. pose proof turn_without_call as Hwo. destruct c as [c0|]; cbn zeta.
  - destruct (Hw ltac:(done)) as [Hs Hn]. split_and!; [exact Hs| |by intros _]. intros k Hm. rewrite Hn in Hm. by destruct Hm.
  - destruct (Hwo eq_refl) as [Hs Hn]. by split_and!.
Qed.

End turn.

Lemma switch_plain p ch a b : plain (st p) = true -> switch p ch a = switch p ch b.
Proof. unfold switch. destruct (st p) eqn:E; try done; intros _; unfold switch_body; by rewrite E. Qed.

(** The results of a byte in a long buffer and in its own. *)
Definition same_result (data : list Z) (ch p : Z) (R r : step_result) : Prop :=
  match R, r with
  | inl (P, H, N), inl (p', h, n) => P = p' /\ N = p + n /\ 0 <= n <= 1 /\ (errno P = HPE_OK -> H ≈ h)
  | inr F, inr f => sim data ch p F f /\ parser_inv (parser F) /\ (forall k, is_Some (marks F k) -> is_Some (marks f k))
  | _, _ => False
  end.

Lemma made_inv data c p f :
  parser_inv (parser f) -> (c = Some CallHeadersComplete -> st (parser f) = s_headers_done) ->
  parser_inv (parser (made data c p f)) /\ st (parser (made data c p f)) = st (parser f).
Proof.
  intros Hi Hh. destruct c as [[n| |k x a]|]; cbn [made parser]; try done; [|by destruct (marks f k)].
  unfold after_headers. destruct (skip (parser f)); [|done]. split; [|done]. destruct Hi as [_ Hr]. split; [|exact Hr].
  unfold state_ok. cbn [st add_flag set_flags]. by rewrite Hh.
Qed.

Lemma exec_sim data ch p turns : zget data p = Some ch -> forall F f,
  sim data ch p F f -> (rank (st (parser F)) <= turns)%nat -> counted (parser F) ->
  switch (parser F) ch (zlen data - p) = switch (parser F) ch 1 ->
  exists R r, exec_byte on data turns ch p F = Ok (R, p) /\ exec_byte on [ch] turns ch 0 f = Ok (r, 0) /\ same_result data ch p R r.
Proof.
  intros Hch. induction turns as [|turns IH]; intros F f Hsim Hrk Hc Hsw.
  { exfalso. revert Hrk. destruct (st (parser F)); cbn; lia. }
  pose proof (sim_parser _ _ _ _ _ Hsim) as Hpar. pose proof (switch_ok _ Hc ch 1 ltac:(lia)) as Ht.
  cbn [exec_byte]. rewrite <- Hpar. change (zlen [ch] - 0) with 1. rewrite Hsw.
  destruct (switch (parser F) ch 1) as [e q| |q mark sk c ctl]; [|done|].
  { eexists _, _. split; [reflexivity|]. split; [reflexivity|]. unfold fail_at, stop. cbn. split_and!; try done; [lia..|]. by destruct Ht. }
  assert (sk = 0) as -> by (destruct Ht as (_ & _ & ? & _); lia).
  fold (opened mark p q F). fold (opened mark 0 q f). rewrite !Z.add_0_r.
  destruct (opened_fields mark p q F) as (EF & _ & _). destruct (opened_fields mark 0 q f) as (Ef & _ & _).
  pose proof Ht as (Hq & Hi & _ & Hre & _ & Hhc & Hret & _ & _ & _ & Hx).
  assert (He : errno q = HPE_OK) by (rewrite Hq; apply (sim_errno _ _ _ _ _ Hsim)).
  assert (Hallow : forall g, parser g = q -> call_allowed c g = true).
  { intros g Hg. unfold call_allowed. rewrite Hg. destruct c as [[]|]; try done; by rewrite bool_decide_eq_true_2. }
  rewrite (Hallow _ EF), (Hallow _ Ef). cbn [negb].
  assert (Hnh : c <> Some (CallNotify HeadersComplete)) by (intros ->; tauto).
  rewrite !run_call_made by congruence.
  destruct (turn_sim data ch p 1 F f q mark c ctl Hsim Ht Hch) as (Hs2 & Hm2 & Hn2).
  destruct (made_inv data c p (opened mark p q F)) as [Hi2 Hst2]; [by rewrite EF..|]. rewrite EF in Hst2.
  destruct ctl.
  - eexists _, _. split; [reflexivity|]. split; [reflexivity|]. by split_and!.
  - destruct (Hre eq_refl) as [Hpl Hrk2]. apply (IH _ _ Hs2); rewrite ?Hst2; [lia|by apply inv_counted; rewrite ?Hst2|].
    apply switch_plain. by rewrite Hst2.
  - destruct (Hret eq_refl) as [_ Hc0]. eexists _, _. split; [reflexivity|]. split; [reflexivity|].
    cbn. split_and!; try lia; [apply Hs2|]. intros _.
    assert (Hn : forall k, marks (made data c p (opened mark p q F)) k = None) by (apply Hn2; by rewrite Hc0).
    pose proof (sim_out _ _ _ _ _ Hs2 Url (fun k' _ => Hn k')) as Ho. rewrite Hn in Ho.
    destruct (marks (made [ch] c 0 (opened mark 0 q f)) Url) eqn:E.
    + destruct (sim_marks _ _ _ _ _ Hs2 Url) as [? E']; [by rewrite E|]. by rewrite Hn in E'.
    + by rewrite !app_nil_r in Ho.
Qed.

(** ** Byte by byte *)

Definition start_marks (s : state) (k : data_kind) : option Z := if decide (Some k = initial_mark s) then Some 0 else None.

(** The parser with a buffer of one byte: it stops, or goes on. *)
Definition read_byte (ps : http_parser) (h : list event) (ch : Z) : outcome ((http_parser * list event * Z) + (http_parser * list event)) :=
  let q := count_byte ps in
  if PARSING_HEADER (st q) && (HTTP_MAX_HEADER_SIZE <? nread q) then Ok (inl (SET_ERRNO HPE_HEADER_OVERFLOW q, h, 0))
  else
    '(r, _) ← exec_byte on [ch] 5 ch 0 (mk_frame q (start_marks (st ps)) h);
    match r with
    | inl r => Ok (inl r)
    | inr f => match flush_marks on [ch] f with inl r => Ok (inl r) | inr f => Ok (inr (parser f, out f)) end
    end.

Fixpoint bytes (l : list Z) (ps : http_parser) (h : list event) : outcome ((http_parser * list event * Z) + (http_parser * list event)) :=
  match l with
  | [] => Ok (inr (ps, h))
  | ch :: l =>
      r ← read_byte ps h ch;
      match r with
      | inl r => Ok (inl r)
      | inr (ps, h) =>
          r ← bytes l ps h;
          Ok (match r with inl (ps, h, n) => inl (ps, h, n + 1) | inr r => inr r end)
      end
  end.

Lemma one_mark f : marks_ok f -> exists k, forall k', k' <> k -> marks f k' = None.
Proof.
  intros Hm. assert (Hone : forall k k', is_Some (marks f k) -> k' <> k -> marks f k' = None).
  { intros k k' Hk Hne. apply eq_None_not_Some. intros Hk'. apply Hne, (keeps_one _ _ (st (parser f))); by apply Hm. }
  destruct (marks f Url) eqn:E1; [exists Url; eauto|]. destruct (marks f Status) eqn:E2; [exists Status; eauto|].
  destruct (marks f HeaderField) eqn:E3; [exists HeaderField; eauto|].
  destruct (marks f HeaderValue) eqn:E4; [exists HeaderValue; eauto|]. exists Body. by intros [] ?.
Qed.

Lemma flush_obliging data f k :
  errno (parser f) = HPE_OK -> (forall k', k' <> k -> marks f k' = None) ->
  exists f', flush_marks on data f = inr f' /\ parser f' = parser f /\ out f' = out f ++ pending data k (marks f k) (zlen data).
Proof.
  intros He Hk. assert (Hstep : forall j g, errno (parser g) = HPE_OK ->
    CALLBACK_DATA_ on data j (zlen data) (zlen data) g = inr (made data (Some (CallData j 0 0)) (zlen data) g)).
  { intros j g Hg. rewrite <- (run_call_made data (Some (CallData j 0 0)) (zlen data) g Hg ltac:(done)). cbn [run_call]. by rewrite !Z.add_0_r. }
  assert (Hskip : forall j g, marks g j = None -> made data (Some (CallData j 0 0)) (zlen data) g = g) by (intros j g E; cbn; by rewrite E).
  exists (made data (Some (CallData k 0 0)) (zlen data) f).
  assert (Hp : parser (made data (Some (CallData k 0 0)) (zlen data) f) = parser f) by (cbn; by destruct (marks f k)).
  assert (Hc : forall j, marks (made data (Some (CallData k 0 0)) (zlen data) f) j = None) by (intros; by apply made_closed).
  split_and!; [|done|cbn; destruct (marks f k); cbn; [by rewrite Z.add_0_r|by rewrite app_nil_r]].
  unfold flush_marks. destruct k.
  all: repeat (rewrite Hstep by (rewrite ?Hp; done); rewrite ?Hskip by first [apply Hc | by apply Hk]); done.
Qed.

(** The frame of a long buffer, and what has been told byte by byte. *)
Record reads (data : list Z) (p : Z) (F : frame) (H : list event) : Prop := {
  reads_inv : frame_inv F;
  reads_at : forall k m, marks F k = Some m -> 0 <= m <= p;
  reads_kept : forall k, k <> Body -> keeps k (st (parser F)) = true -> is_Some (marks F k);
  reads_out : forall k, (forall k', k' <> k -> marks F k' = None) -> out F ++ pending data k (marks F k) p ≈ H
}.

Lemma start_marks_keeps s k : is_Some (start_marks s k) <-> k <> Body /\ keeps k s = true.
Proof.
  unfold start_marks, keeps. case_decide as Hd.
  - split; [intros _|done]. destruct k; try (by rewrite bool_decide_eq_true_2). by destruct s.
  - split; [by intros []|]. intros [Hk H]. exfalso. destruct k; try done; apply bool_decide_eq_true in H; congruence.
Qed.

Lemma reads_sim data p F H ch q :
  reads data p F H -> st q = st (parser F) -> errno q = HPE_OK ->
  sim data ch p (set_parser q F) (mk_frame q (start_marks (st (parser F))) H).
Proof.
  intros HR Hs Hq. pose proof (start_marks_keeps (st (parser F))) as Hsm.
  destruct (reads_inv _ _ _ _ HR) as (He & Hi & Hm). split; cbn [parser set_parser marks out]; try done.
  - intros k [Hk Hb]%Hsm. by apply (reads_kept _ _ _ _ HR).
  - intros k m. by apply (reads_at _ _ _ _ HR).
  - intros k m. unfold start_marks. case_decide; congruence.
  - intros k Hk. cbn [parser set_parser]. rewrite Hs. by apply Hm.
  - intros k Hk Hb. apply Hsm. by rewrite <- Hs.
  - intros k Hk. pose proof (reads_out _ _ _ _ HR k Hk) as Ho. rewrite Ho.
    destruct (start_marks (st (parser F)) k) as [m|] eqn:E; cbn; [|by rewrite app_nil_r].
    assert (m = 0) as -> by (revert E; unfold start_marks; case_decide; congruence). rewrite slice_empty.
    destruct (proj1 (Hsm k)) as [Hb Hkp]; [by rewrite E|].
    destruct (reads_kept _ _ _ _ HR k Hb Hkp) as [m Em]. rewrite Em in Ho. cbn in Ho.
    rewrite <- Ho. symmetry. apply ended_snoc.
Qed.

(** A byte done in both. *)
Lemma sim_reads data p F f ch :
  zget data p = Some ch -> sim data ch p F f -> parser_inv (parser F) -> (forall k, is_Some (marks F k) -> is_Some (marks f k)) ->
  exists f', flush_marks on [ch] f = inr f' /\ parser f' = parser F /\ reads data (p + 1) F (out f').
Proof.
  intros Hch Hs Hi Hm. pose proof (sim_errno _ _ _ _ _ Hs) as He. pose proof (sim_parser _ _ _ _ _ Hs) as Hp.
  destruct (one_mark F (sim_keeps _ _ _ _ _ Hs)) as [k0 Hk0].
  assert (Hsub : forall k, (forall k', k' <> k -> marks F k' = None) -> forall k', k' <> k -> marks f k' = None).
  { intros k Hk k' Hne. apply eq_None_not_Some. intros H%(sim_marks _ _ _ _ _ Hs). rewrite Hk in H by done. by destruct H. }
  destruct (flush_obliging [ch] f k0) as (f' & Ef & Hpf & _); [congruence|by apply Hsub|].
  exists f'. split_and!; [done|congruence|]. split.
  - split_and!; [done|done|apply Hs].
  - intros k m E. pose proof (sim_at _ _ _ _ _ Hs k m E). lia.
  - intros k Hk Hb. apply (sim_marks _ _ _ _ _ Hs). by apply (sim_kept _ _ _ _ _ Hs).
  - intros k Hk. destruct (flush_obliging [ch] f k) as (f'' & Ef' & _ & Ho'); [congruence|by apply Hsub|].
    rewrite Ef in Ef'. injection Ef' as <-. rewrite Ho'.
    pose proof (sim_out _ _ _ _ _ Hs k Hk) as Ho. change (zlen [ch]) with 1.
    destruct (marks F k) as [m|] eqn:EF.
    + destruct (Hm k) as [m' Em']; [by rewrite EF|]. rewrite Em' in *. rewrite (sim_zero _ _ _ _ _ Hs _ _ Em') in *. cbn in *.
      pose proof (sim_at _ _ _ _ _ Hs _ _ EF). rewrite (slice_extend _ _ _ _ H Hch), <- same_calls_merge, Ho.
      by rewrite same_calls_merge.
    + destruct (marks f k) eqn:E; [|by rewrite !app_nil_r in *].
      destruct (sim_marks _ _ _ _ _ Hs k) as [? E']; [by rewrite E|]. by rewrite EF in E'.
Qed.

(** A byte of the body that is not the last one of the body or of the buffer. *)
Definition in_body (ps : http_parser) : bool :=
  match st ps with
  | s_body_identity_eof => true
  | s_body_identity | s_chunk_data => 2 <=? content_length ps
  | _ => false
  end.

Definition drain (ps : http_parser) : http_parser :=
  match st ps with s_body_identity_eof => ps | _ => set_content_length (content_length ps - 1) ps end.

Lemma switch_drain ps ch ch' avail :
  parser_inv ps -> in_body ps = true -> 2 <= avail ->
  exists q sk c ctl, switch ps ch avail = Turn q (Some Body) sk c ctl /\
    switch (drain ps) ch' (avail - 1) = Turn q (Some Body) (sk - 1) c ctl /\ (ctl = Reexecute -> st q = s_message_done) /\
    c <> Some (CallNotify HeadersComplete).
Proof.
  intros [Hi Hr] Hb Ha. destruct ps as [ty fl s hs ix nr cl mj mn sc me er].
  unfold in_body in Hb. unfold state_ok in Hi. cbn [st content_length] in *.
  assert (Hcases : s = s_body_identity_eof \/ (s = s_body_identity \/ s = s_chunk_data) /\ 2 <= cl < ULLONG_MAX).
  { destruct s; try done; [right|right|by left]; (split; [by auto|]); zbool; lia. }
  destruct Hcases as [->|[Hs Hcl]].
  { exists (mk_http ty fl s_body_identity_eof hs ix nr cl mj mn sc me er), (avail - 1), None, Break. by split_and!. }
  assert (E1 : u64 (cl - 1) = cl - 1) by (apply u64_small; unfold ULLONG_MAX in *; lia).
  assert (E2 : (cl - 1) - Z.min (cl - 1) (avail - 1) = cl - Z.min cl avail) by lia.
  assert (E3 : Z.min (cl - 1) (avail - 1) - 1 = Z.min cl avail - 1 - 1) by lia.
  assert (G : forall x, 0 < x < ULLONG_MAX -> (x =? 0) = false /\ (x =? ULLONG_MAX) = false) by (intros; rewrite !Z.eqb_neq; lia).
  destruct (G cl ltac:(lia)) as [G1 G2], (G (cl - 1) ltac:(lia)) as [G3 G4].
  destruct Hs as [-> | ->]; unfold switch, drain; cbn [st set_content_length]; unfold switch_body, check_that;
    cbn [st content_length set_content_length]; rewrite E1, E2, E3, G1, G2, G3, G4; cbn [negb andb].
  - case_if; eexists _, _, _, _; (split; [reflexivity|]); by split_and!.
  - match goal with |- context [has F_CHUNKED (set_content_length ?a ?p)] =>
      change (has F_CHUNKED (set_content_length a p)) with (has F_CHUNKED p) end.
    rewrite (proj1 Hi). cbn [andb].
    eexists _, _, _, _. split; [reflexivity|]. split_and!; [|done..]. by case_if.
Qed.

Lemma in_body_plain ps : in_body ps = true -> count_byte ps = ps /\ PARSING_HEADER (st ps) = false /\ st (drain ps) = st ps /\
  in_body ps = true /\ forall k, start_marks (st ps) k = None.
Proof. unfold in_body, count_byte, drain. by destruct (st ps) eqn:E; cbn; rewrite ?E. Qed.

Lemma exec_done turns data ch ch' p f :
  st (parser f) = s_message_done -> exec_byte on data turns ch p f = exec_byte on data turns ch' p f.
Proof.
  intros Hd. destruct turns; [done|]. cbn [exec_byte].
  assert (E : forall c, switch (parser f) c (zlen data - p) = notify MessageComplete (set_state (NEW_MESSAGE (parser f)) (parser f))).
  { intros c. unfold switch, switch_body. by rewrite Hd. }
  by rewrite !E.
Qed.

Definition drained (p : Z) (F : frame) : frame := MARK Body p (set_parser (drain (parser F)) F).

Lemma loop_drain data fuel p F ch ch' :
  parser_inv (parser F) -> errno (parser F) = HPE_OK -> in_body (parser F) = true ->
  zget data p = Some ch -> zget data (p + 1) = Some ch' ->
  loop on data (S fuel) p F = loop on data (S fuel) (p + 1) (drained p F).
Proof.
  intros Hi He Hb Hp Hp1. pose proof (zget_Some_lt _ _ _ Hp1) as Hlt.
  destruct (in_body_plain _ Hb) as (Hc & Hph & Hst & _ & _).
  destruct (MARK_frame (Some Body) p (set_parser (drain (parser F)) F)) as (Ed & _ & _). cbn [set_parser parser] in Ed.
  fold (drained p F) in Ed.
  cbn [loop]. rewrite Hp, Hp1, Ed, Hc. assert (Hcd : count_byte (drain (parser F)) = drain (parser F)).
  { unfold count_byte. by rewrite Hst, Hph. }
  rewrite Hcd, Hst, Hph. cbn [andb]. replace (set_parser (parser F) F) with F by (by destruct F).
  replace (set_parser (drain (parser F)) (drained p F)) with (drained p F) by (rewrite <- Ed; by destruct (drained p F)).
  enough (E : exec_byte on data 5 ch p F = exec_byte on data 5 ch' (p + 1) (drained p F)) by by rewrite E.
  assert (Hcnt : counted (parser F)).
  { destruct (counting _ Hi) as [H _]. by rewrite Hc in H. }
  pose proof (switch_ok _ Hcnt ch (zlen data - p) ltac:(lia)) as Ht.
  destruct (switch_drain (parser F) ch ch' (zlen data - p) Hi Hb ltac:(lia)) as (q & sk & c & ctl & E1 & E2 & Hre & Hnh).
  rewrite E1 in Ht. destruct Ht as (Hq & _).
  remember 4%nat as four. cbn [exec_byte]. rewrite E1, Ed. replace (zlen data - (p + 1)) with (zlen data - p - 1) by lia. rewrite E2.
  fold (opened (Some Body) p q F). fold (opened (Some Body) (p + 1) q (drained p F)).
  replace (opened (Some Body) (p + 1) q (drained p F)) with (opened (Some Body) p q F).
  2: { unfold drained, opened, MARK. cbn [set_parser marks]. by destruct (marks F Body) eqn:EB; cbn; rewrite ?EB. }
  replace (p + 1 + (sk - 1)) with (p + sk) by lia. destruct (opened_fields (Some Body) p q F) as (Eq & _ & _).
  rewrite run_call_made by congruence. case_if; [done|]. destruct ctl; [done| |done].
  apply exec_done. specialize (Hre eq_refl). destruct c as [[n| |k x a]|]; cbn [made parser]; rewrite ?Eq; try done.
  - unfold after_headers. by destruct (skip q).
  - destruct (marks (opened (Some Body) p q F) k); cbn [set_mark parser]; by rewrite ?Eq.
Qed.

Lemma switch_single q ch avail :
  counted q -> 0 < avail -> in_body q = false \/ avail = 1 -> switch q ch avail = switch q ch 1.
Proof.
  intros [Hs _] Ha [Hb| ->]; [|done]. unfold in_body, state_ok in *. unfold switch. destruct (st q) eqn:E; try done.
  all: unfold switch_body; rewrite E; try done.
  all: zbool; replace (Z.min (content_length q) avail) with (Z.min (content_length q) 1) by lia; done.
Qed.

Lemma switch_drain_one ps ch :
  parser_inv ps -> in_body ps = true -> switch ps ch 1 = Turn (drain ps) (Some Body) 0 None Break.
Proof.
  intros [Hi Hr] Hb. destruct ps as [ty fl s hs ix nr cl mj mn sc me er]. unfold state_ok, in_body in *. cbn [st content_length] in *.
  destruct s; try done; zbool; unfold switch, switch_body, drain, check_that; cbn [st content_length].
  all: rewrite Z.min_r by lia; cbn [set_content_length content_length]; rewrite u64_small by (unfold ULLONG_MAX in *; lia).
  all: rewrite (proj2 (Z.eqb_neq cl 0)), (proj2 (Z.eqb_neq cl ULLONG_MAX)), (proj2 (Z.eqb_neq (cl - 1) 0)) by lia.
  - by rewrite (proj1 Hi).
  - done.
Qed.

Lemma read_drain ps h ch :
  parser_inv ps -> errno ps = HPE_OK -> in_body ps = true -> read_byte ps h ch = Ok (inr (drain ps, h ++ [Data Body [ch]])).
Proof.
  intros Hi He Hb. destruct (in_body_plain _ Hb) as (Hc & Hph & Hst & _ & Hsm).
  unfold read_byte. rewrite Hc, Hph. cbn [andb]. remember 4%nat as four. cbn [exec_byte parser].
  change (zlen [ch] - 0) with 1. rewrite (switch_drain_one _ _ Hi Hb). cbn [call_allowed negb run_call mbind outcome_bind].
  set (f := MARK Body 0 _).
  assert (Hf : parser f = drain ps /\ out f = h /\ forall k, marks f k = if decide (k = Body) then Some 0 else None).
  { subst f. destruct (opened_fields (Some Body) 0 (drain ps) (mk_frame ps (start_marks (st ps)) h)) as (E1 & E2 & E3).
    split_and!; [exact E1|exact E2|]. intros k. rewrite E3. cbn. rewrite Hsm. repeat case_decide; congruence || done. }
  destruct Hf as (E1 & E2 & E3).
  destruct (flush_obliging [ch] f Body) as (f' & Ef & Ep & Eo).
  - rewrite E1. unfold drain. by destruct (st ps).
  - intros k Hk. rewrite E3. by case_decide.
  - rewrite Ef, Ep, Eo, E1, E2, E3. by rewrite decide_True.
Qed.

Lemma reads_drained data p F H ch :
  reads data p F H -> in_body (parser F) = true -> zget data p = Some ch ->
  reads data (p + 1) (drained p F) (H ++ [Data Body [ch]]).
Proof.
  intros HR Hb Hch. pose proof (zget_Some_lt _ _ _ Hch) as Hlt. destruct (in_body_plain _ Hb) as (_ & _ & Hst & _ & _).
  destruct (reads_inv _ _ _ _ HR) as (He & [Hi Hr] & Hm).
  destruct (opened_fields (Some Body) p (drain (parser F)) F) as (E1 & E2 & E3).
  change (opened (Some Body) p (drain (parser F)) F) with (drained p F) in *.
  assert (Hkeep : keeps Body (st (parser F)) = true) by (unfold in_body in Hb; by destruct (st (parser F))).
  split.
  - split_and!.
    + rewrite E1. unfold drain. by destruct (st (parser F)).
    + rewrite E1. unfold parser_inv, state_ok. rewrite Hst. unfold in_body in Hb. unfold state_ok in Hi.
      unfold drain. destruct (st (parser F)) eqn:Es; try done; cbn [content_length set_content_length]; zbool.
      all: rewrite ?u64_small by (unfold ULLONG_MAX in *; lia). all: split; try split; try lia; apply Hi.
    + intros k Hk. rewrite E1, Hst. rewrite E3 in Hk. case_decide; [congruence|by apply Hm].
  - intros k m. rewrite E3. case_decide; [intros [= <-]; destruct (marks F k) as [m|] eqn:E; cbn; [|lia]|intros E].
    all: pose proof (reads_at _ _ _ _ HR _ _ E); lia.
  - intros k Hk Hb'. rewrite E1, Hst in Hb'. by rewrite (keeps_one _ _ _ Hb' Hkeep) in Hk.
  - intros k Hk. destruct (decide (k = Body)) as [->|Hne]; [|specialize (Hk Body ltac:(done)); by rewrite E3, decide_True in Hk].
    assert (HkF : forall k', k' <> Body -> marks F k' = None).
    { intros k' Hne. specialize (Hk k' Hne). by rewrite E3, decide_False in Hk by congruence. }
    pose proof (reads_out _ _ _ _ HR Body HkF) as Ho. rewrite E2, E3, decide_True by done. rewrite <- Ho.
    destruct (marks F Body) as [m|] eqn:EB; cbn.
    + pose proof (reads_at _ _ _ _ HR _ _ EB). rewrite (slice_extend _ _ _ _ H0 Hch). by rewrite same_calls_merge.
    + rewrite (slice_extend data p p ch ltac:(lia) Hch), slice_empty. by rewrite app_nil_r.
Qed.

(** ** A buffer is read like its bytes *)

Definition agree (data : list Z) (p : Z) (r : (http_parser * list event * Z) + (http_parser * list event)) (R : http_parser * list event * Z) : Prop :=
  let '(ps, h, n) := R in
  match r with
  | inl (ps', h', n') => ps = ps' /\ n = p + n' /\ 0 <= n' <= zlen data - p /\ (errno ps = HPE_OK -> h ≈ h')
  | inr (ps', h') => ps = ps' /\ n = zlen data /\ h ≈ h' /\ errno ps = HPE_OK /\ parser_inv ps /\
      (forall k, is_Some (start_marks (st ps) k) -> ended k h)
  end.

Lemma after_loop_agree data F H :
  reads data (zlen data) F H -> exists R, after_loop on data F = Ok R /\ agree data (zlen data) (inr (parser F, H)) R.
Proof.
  intros HR. destruct (reads_inv _ _ _ _ HR) as (He & Hi & Hm). destruct (one_mark F Hm) as [k Hk].
  destruct (flush_obliging data F k He Hk) as (f' & Ef & Ep & Eo). unfold after_loop.
  rewrite (proj2 (Nat.leb_le _ _)), bool_decide_eq_true_2, Ef by (try done; by apply count_marks_one). cbn [andb].
  eexists. split; [reflexivity|]. pose proof (reads_out _ _ _ _ HR k Hk) as Ho. cbn. rewrite Ep, Eo, Ho. split_and!; try done.
  intros k' [Hb Hkp]%start_marks_keeps. destruct (reads_kept _ _ _ _ HR k' Hb Hkp) as [m Em].
  destruct (decide (k' = k)) as [->|Hne]; [|by rewrite (Hk k' Hne) in Em].
  rewrite Em. apply ended_snoc.
Qed.

Lemma loop_step data fuel p F H ch :
  reads data p F H -> zget data p = Some ch -> in_body (parser F) = false \/ p + 1 = zlen data ->
  (exists ps h' n h, read_byte (parser F) H ch = Ok (inl (ps, h', n)) /\ loop on data (S fuel) p F = Ok (ps, h, p + n) /\
     0 <= n <= 1 /\ (errno ps = HPE_OK -> h ≈ h')) \/
  (exists F' H', read_byte (parser F) H ch = Ok (inr (parser F', H')) /\ loop on data (S fuel) p F = loop on data fuel (p + 1) F' /\
     reads data (p + 1) F' H').
Proof.
  intros HR Hch Hb. pose proof (zget_Some_lt _ _ _ Hch) as Hlt. destruct (reads_inv _ _ _ _ HR) as (He & Hi & Hm).
  destruct (counting _ Hi) as (Hc & Hst & Heq). rewrite He in Heq. cbn [loop]. rewrite Hch. unfold read_byte.
  pose proof (reads_sim data p F H ch (count_byte (parser F)) HR Hst Heq) as Hsim.
  case_if.
  { left. eexists _, _, _, _. split; [reflexivity|]. rewrite Z.add_0_r. split; [reflexivity|]. by split_and!. }
  destruct (exec_sim data ch p 5 Hch _ _ Hsim) as (R & r & ER & Er & Hres); cbn [parser set_parser].
  - destruct (st (count_byte (parser F))); cbn; lia.
  - done.
  - apply switch_single; [done|lia|]. destruct Hb as [Hb|Hb]; [left|right; lia]. revert Hb. unfold in_body. rewrite Hst.
    unfold count_byte. by destruct (PARSING_HEADER (st (parser F))).
  - rewrite ER, Er. cbn [mbind outcome_bind]. destruct R as [[[P h] N]|F'], r as [[[q h'] k]|f']; try done.
    + left. destruct Hres as (-> & -> & Hk & Ho). by eexists _, _, _, _.
    + right. destruct Hres as (Hs' & Hi' & Hm'). destruct (sim_reads data p F' f' ch Hch Hs' Hi' Hm') as (g & -> & Eg & HR').
      exists F', (out g). by rewrite Eg.
Qed.

Lemma loop_bytes data n : forall fuel p F H,
  zlen data - p <= Z.of_nat n -> 0 <= p <= zlen data -> zlen data - p < Z.of_nat fuel -> reads data p F H ->
  exists r R, bytes (zdrop p data) (parser F) H = Ok r /\ loop on data fuel p F = Ok R /\ agree data p r R.
Proof.
  induction n as [|n IH]; intros fuel p F H Hn Hp Hf HR; (destruct fuel as [|fuel]; [lia|]).
  all: destruct (zget data p) as [ch|] eqn:Hch; [|assert (p = zlen data) as ->; [|]].
  all: try (apply Z.le_antisymm; [lia|]; apply Z.nlt_ge; intros Hlt; destruct (zget_lt data p) as [? E]; [lia|congruence]).
  all: try (destruct (after_loop_agree data F H HR) as (R & E & HA); rewrite zdrop_all by lia; cbn [bytes loop]; rewrite Hch; by eauto).
  { apply zget_Some_lt in Hch. lia. }
  pose proof (zget_Some_lt _ _ _ Hch) as Hlt. rewrite (zdrop_cons _ _ _ Hch). cbn [bytes].
  destruct (reads_inv _ _ _ _ HR) as (He & Hi & Hm).
  assert (Hnext : forall F' H' fuel', reads data (p + 1) F' H' -> zlen data - (p + 1) < Z.of_nat fuel' ->
    exists r R, bytes (zdrop (p + 1) data) (parser F') H' = Ok r /\ loop on data fuel' (p + 1) F' = Ok R /\
      agree data p (match r with inl (ps, h, n) => inl (ps, h, n + 1) | inr r => inr r end) R).
  { intros F' H' fuel' HR' Hf'. destruct (IH fuel' (p + 1) F' H') as (r & R & E1 & E2 & HA); [lia|lia|lia|done|].
    exists r, R. split_and!; try done. destruct R as [[P h] N], r as [[[q h'] k]|[q h']]; [|done].
    destruct HA as (-> & -> & Hk & Ho). split_and!; try done; lia. }
  destruct (decide (in_body (parser F) = true /\ p + 1 <> zlen data)) as [[Hb Hne]|Hnb].
  - destruct (zget_lt data (p + 1)) as [ch' Hch']; [lia|].
    rewrite (read_drain _ H ch Hi He Hb), (loop_drain data fuel p F ch ch' Hi He Hb Hch Hch'). cbn [mbind outcome_bind].
    destruct (Hnext (drained p F) (H ++ [Data Body [ch]]) (S fuel)) as (r & R & E1 & E2 & HA); [by apply reads_drained|lia|].
    destruct (opened_fields (Some Body) p (drain (parser F)) F) as (Ed & _ & _).
    change (parser (opened (Some Body) p (drain (parser F)) F)) with (parser (drained p F)) in Ed. rewrite Ed in E1.
    eexists _, R. rewrite E1, E2. cbn [mbind outcome_bind]. by split_and!.
  - destruct (loop_step data fuel p F H ch HR Hch) as [(ps & h' & k & h & -> & -> & Hk & Ho)|(F' & H' & -> & -> & HR')].
    + destruct (in_body (parser F)); [right; lia|by left].
    + cbn [mbind outcome_bind]. eexists _, _. split; [reflexivity|]. split; [reflexivity|]. split_and!; try done; lia.
    + cbn [mbind outcome_bind]. destruct (Hnext F' H' fuel HR' ltac:(lia)) as (r & R & -> & -> & HA).
      eexists _, _. split; [reflexivity|]. by split.
Qed.

(** ** A stream in pieces *)

Lemma execute_bytes data ps h H :
  data <> [] -> errno ps = HPE_OK -> parser_inv ps -> (forall k, is_Some (start_marks (st ps) k) -> ended k h) -> h ≈ H ->
  exists r R, bytes data ps H = Ok r /\ execute on data ps h = Ok R /\ agree data 0 r R.
Proof.
  intros Hne He Hi Hend Hh. unfold execute. rewrite bool_decide_eq_true_2 by done. cbn [negb].
  assert (Hlen : 0 < zlen data) by (destruct data; [done|]; rewrite zlen_cons; pose proof (zlen_nonneg data); lia).
  rewrite (proj2 (Z.eqb_neq _ _)) by lia.
  apply (loop_bytes data (length data) (S (length data)) 0 (mk_frame ps (start_marks (st ps)) h) H); [unfold zlen; lia|lia|unfold zlen; lia|].
  split; cbn [parser marks out].
  - split_and!; [done|done|]. intros k Hk. by apply start_marks_keeps in Hk as [_ Hk].
  - intros k m. unfold start_marks. case_decide; [|done]. intros [= <-]. lia.
  - intros k Hk Hb. by apply start_marks_keeps.
  - intros k _. rewrite <- Hh. destruct (start_marks (st ps) k) as [m|] eqn:E; cbn; [|by rewrite app_nil_r].
    assert (m = 0) as -> by (revert E; unfold start_marks; case_decide; congruence). rewrite slice_empty. apply Hend. by rewrite E.
Qed.

(** Buffers one after the other, until an error or a byte not taken. *)
Fixpoint feed (bufs : list (list Z)) (ps : http_parser) (h : list event) : outcome (http_parser * list event * Z) :=
  match bufs with
  | [] => Ok (ps, h, 0)
  | buf :: bufs =>
      '(ps, h, n) ← execute on buf ps h;
      if bool_decide (errno ps = HPE_OK) && (n =? zlen buf) then
        '(ps, h, m) ← feed bufs ps h; Ok (ps, h, n + m)
      else Ok (ps, h, n)
  end.

Lemma read_bytes_app l1 l2 ps h :
  bytes (l1 ++ l2) ps h =
  (r ← bytes l1 ps h;
   match r with
   | inl r => Ok (inl r)
   | inr (ps, h) => r ← bytes l2 ps h; Ok (match r with inl (ps, h, n) => inl (ps, h, n + zlen l1) | inr r => inr r end)
   end).
Proof.
  revert ps h. induction l1 as [|ch l1 IH]; intros ps h.
  - cbn. destruct (bytes l2 ps h) as [[[[? ?] ?]|?]| |]; cbn; rewrite ?Z.add_0_r; done.
  - cbn. destruct (read_byte ps h ch) as [[r|[q g]]| |]; cbn; try done. rewrite IH.
    destruct (bytes l1 q g) as [[[[? ?] ?]|[q' g']]| |]; cbn; try done.
    destruct (bytes l2 q' g') as [[[[? ?] ?]|?]| |]; cbn; try done. by rewrite zlen_cons, Z.add_assoc.
Qed.

Lemma concat_empty (bufs : list (list Z)) : Forall (fun b => b <> []) bufs -> zlen (concat bufs) = 0 -> bufs = [].
Proof.
  intros [|b bufs' Hb _]; [done|]. cbn. destruct b as [|x b]; [done|]. cbn. rewrite zlen_cons.
  pose proof (zlen_nonneg (b ++ concat bufs')). lia.
Qed.

Definition fed (bufs : list (list Z)) (ps : http_parser) (h : list event) (r : (http_parser * list event * Z) + (http_parser * list event)) : Prop :=
  match r with
  | inl (ps', h', n) => (errno ps' = HPE_OK -> n = zlen (concat bufs)) ->
      exists h2, feed bufs ps h = Ok (ps', h2, n) /\ (errno ps' = HPE_OK -> h2 ≈ h')
  | inr (ps', h') => exists h2, feed bufs ps h = Ok (ps', h2, zlen (concat bufs)) /\ h2 ≈ h'
  end.

Lemma feed_bytes bufs : forall ps h H r,
  Forall (fun b => b <> []) bufs -> errno ps = HPE_OK -> parser_inv ps -> (forall k, is_Some (start_marks (st ps) k) -> ended k h) ->
  h ≈ H -> bytes (concat bufs) ps H = Ok r -> fed bufs ps h r.
Proof.
  induction bufs as [|b bufs IH]; intros ps h H r Hne He Hi Hend Hh; cbn [concat].
  { intros [= <-]. by exists h. }
  apply Forall_cons in Hne as [Hb Hne]. rewrite read_bytes_app. pose proof (zlen_nonneg (concat bufs)) as Hnn.
  destruct (execute_bytes b ps h H Hb He Hi Hend Hh) as (r1 & [[P g] N] & -> & Ex & HA). cbn [mbind outcome_bind].
  destruct r1 as [[[q g'] n]|[q g']].
  - destruct HA as (-> & -> & Hn & Ho). intros [= <-]. cbn. rewrite Ex. cbn [mbind outcome_bind]. rewrite zlen_app. intros Hall.
    exists g. case_bool_decide as Hok; cbn [andb]; [|done]. specialize (Hall Hok). assert (zlen (concat bufs) = 0) as Hz by lia.
    rewrite (concat_empty _ Hne Hz). rewrite (proj2 (Z.eqb_eq _ _)) by lia. cbn. rewrite Z.add_0_r. by split; [|intros; apply Ho].
  - destruct HA as (-> & -> & Ho & Hok & Hi' & Hend').
    destruct (bytes (concat bufs) q g') as [r2| |] eqn:E2; [|done|done]. cbn [mbind outcome_bind]. intros [= <-].
    specialize (IH q g g' r2 Hne Hok Hi' Hend' Ho E2). unfold fed in *. cbn [feed concat]. rewrite Ex, zlen_app. cbn [mbind outcome_bind].
    rewrite bool_decide_eq_true_2, Z.eqb_refl by done. cbn [andb].
    destruct r2 as [[[q' g2] n]|[q' g2]].
    + intros Hall. destruct IH as (h2 & -> & Ho2); [intros Hq; specialize (Hall Hq); lia|].
      exists h2. cbn. by rewrite Z.add_comm.
    + destruct IH as (h2 & -> & Ho2). by exists h2.
Qed.
End split.

(** C8: for a parser just initialised and callbacks that never stop it, a
    stream of bytes is parsed alike however it is cut into buffers.  If
    [http_parser_execute] reads the whole stream in one buffer, with the
    result [ps'] after [n] bytes, and does not stop in its middle after a
    CONNECT request, then fed with any division of it into non-empty buffers
    it ends in the same state after the same number of bytes, and, if there is
    no error, the program has been told the same URL, header names, header
    values and body, in the same order, the parts of a text that crosses
    buffers put together.  [skip] stands for the answer of
    [on_headers_complete] to each message, 0 or 1; every other callback
    returns 0 and pauses nothing. *)
Theorem http_parser_split skip t bufs ps' h' n :
  Forall (fun b => b <> []) bufs -> bufs <> [] ->
  execute (obliging skip) (concat bufs) (http_parser_init t) [] = Ok (ps', h', n) ->
  (errno ps' = HPE_OK -> n = zlen (concat bufs)) ->
  exists h, feed skip bufs (http_parser_init t) [] = Ok (ps', h, n) /\ (errno ps' = HPE_OK -> calls h = calls h').
Proof.
  intros Hne Hb E Hn.
  assert (Hi : parser_inv (http_parser_init t)) by (destruct t; (split; [exact I|cbn; unfold ULLONG_MAX; lia])).
  assert (Hend : forall k, is_Some (start_marks (st (http_parser_init t)) k) -> ended k []) by (destruct t; by intros k []).
  assert (Hc : concat bufs <> []) by (intros Hc; by rewrite (concat_empty bufs Hne) in Hb by by rewrite Hc).
  destruct (execute_bytes skip (concat bufs) (http_parser_init t) [] [] Hc eq_refl Hi Hend ltac:(done)) as (r & R & Er & ER & HA).
  rewrite E in ER. injection ER as <-.
  pose proof (feed_bytes skip bufs (http_parser_init t) [] [] r Hne eq_refl Hi Hend ltac:(done) Er) as Hf.
  destruct r as [[[q g] m]|[q g]].
  - destruct HA as (-> & -> & _ & Ho). destruct (Hf Hn) as (h & Eh & Ho'). exists h. split; [exact Eh|].
    intros Hok. by rewrite (Ho' Hok), (Ho Hok).
  - destruct HA as (-> & -> & Ho & _). destruct Hf as (h & Eh & Ho'). exists h. split; [exact Eh|]. intros _. by rewrite Ho', Ho.
Qed.

(** A chunked request in three buffers, cut in the URL and in a chunk. *)
Lemma http_parser_split_witness :
  let bufs := [bs "POST /ab"; bs "cd HTTP/1.1" ++ [13; 10] ++ bs "Transfer-Encoding: chunked" ++ [13; 10; 13; 10] ++ bs "5" ++ [13; 10] ++ bs "he";
               bs "llo" ++ [13; 10] ++ bs "0" ++ [13; 10; 13; 10]] in
  exists ps' h' n, execute (obliging (fun _ => false)) (concat bufs) (http_parser_init HTTP_BOTH) [] = Ok (ps', h', n) /\
  errno ps' = HPE_OK /\
  exists h, feed (fun _ => false) bufs (http_parser_init HTTP_BOTH) [] = Ok (ps', h, n) /\ (errno ps' = HPE_OK -> calls h = calls h').
Proof.
  cbn zeta. eexists _, _, _. split; [vm_compute; reflexivity|]. split; [reflexivity|].
  apply (http_parser_split (fun _ => false) HTTP_BOTH).
  - repeat constructor; discriminate.
  - discriminate.
  - vm_compute. reflexivity.
  - intros _. vm_compute. reflexivity.
Defined.
