(* ===== verification/ExecqRef.v ===== *)
(** * [flare/fiber/internal/execution_queue]: the life of a queue

    An [ExecutionQueueBase] lives in a slot of a resource pool and is named by
    an id, the version of the slot at its creation and the number of the slot.
    [address] turns an id into a counted reference without locks: it adds one
    to the reference count and looks at the version afterwards, so the count
    of a queue that is stopped, recycled or created again moves up and down
    under the feet of the others, and several threads may see it fall to 0.
    [stop] adds one to the version and drops the reference of the creation;
    whoever sees the count fall to 0 tries to add another one to the version
    and recycle the queue.

    Each access to a shared field is one step of its actor, and any number of
    actors interleave.  Accesses are sequentially consistent.  The tasks of the
    queue are not part of this file: recycling pushes the last task, whose
    execution returns the slot to the pool. *)

From S2P Require Import Prelude Bits.
Local Open Scope Z_scope.

(** ** Ids and versioned references *)

Definition _version_of_id (id : Z) : Z := u32 (Z.shiftr id 32).
Definition _version_of_vref (vref : Z) : Z := u32 (Z.shiftr vref 32).
Definition _ref_of_vref (vref : Z) : Z := s32 (Z.land vref 4294967295).
Definition _make_vref (version ref : Z) : Z := Z.lor (Z.shiftl version 32) (u32 ref).
Definition make_id (version slot : Z) : Z := Z.lor (Z.shiftl version 32) slot.

(** The atomic fields of a queue.  [pooled]: the slot is in the resource pool;
    [stop_task]: the last task has been pushed and not been executed.  [issued]
    are the ids that [create] has returned, the latest first, and [recycled]
    the versions for which [_on_recycle] has run. *)
Record ExecutionQueueBase := mk_queue {
  _versioned_ref : Z;
  _this_id : Z;
  _stopped : bool;
  _join_butex : Z;
  pooled : bool;
  stop_task : bool;
  issued : list Z;
  recycled : list Z
}.

Definition set_vref (v : Z) (q : ExecutionQueueBase) : ExecutionQueueBase :=
  mk_queue v (_this_id q) (_stopped q) (_join_butex q) (pooled q) (stop_task q) (issued q) (recycled q).
Definition set_stopped (b : bool) (q : ExecutionQueueBase) : ExecutionQueueBase :=
  mk_queue (_versioned_ref q) (_this_id q) b (_join_butex q) (pooled q) (stop_task q) (issued q) (recycled q).

(** [_on_recycle], of the queue created with version [ver]. *)
Definition _on_recycle (ver : Z) (q : ExecutionQueueBase) : ExecutionQueueBase :=
  mk_queue (_versioned_ref q) (_this_id q) (_stopped q) (_join_butex q) (pooled q) true (issued q) (ver :: recycled q).

(** The constructor; the slot is in the pool. *)
Definition new_queue : ExecutionQueueBase := mk_queue 0 0 false 0 true false [] [].

(** ** The actors *)

(** Where an actor is, with the local variables it needs.  [keep]: the id of
    the reference that [stop] keeps while it drops the one of the creation. *)
Inductive actor :=
| Idle
| Creating                              (* [create]: has the slot, adds the first reference *)
| Created (version : Z)                 (* stores [_this_id] *)
| Unmatched (ver1 : Z)                  (* [address]: the version did not match, takes the reference back *)
| AddressCas (vref2 : Z)                (* [address]: saw the count fall to 0 *)
| Holding (id : Z)                      (* has a reference *)
| StopLoaded (id id_ver vref : Z)       (* [stop]: compares and swaps *)
| StopMarked (id : Z)                   (* stores [_stopped] *)
| StopRelease (id : Z)                  (* [_release_additional_reference] *)
| DerefRead (keep : option Z) (vref : Z)          (* [dereference]: saw the count fall to 0, loads [_this_id] *)
| DerefCas (keep : option Z) (vref id_ver : Z)    (* tries to set the version *)
| InvalidId (keep : option Z) (ver : Z) (* logs the fatal error [Invalid id], with the version it saw; returns -1 if that returns *)
| OverDereferenced                      (* logs the fatal error [Over dereferenced] *)
| CheckFailed.                          (* a [FLARE_CHECK] failed *)

Inductive command := Create | Address (id : Z) | Stop | Release | Go.

Definition after (keep : option Z) : actor := match keep with Some id => Holding id | None => Idle end.

(** ** The operations *)

(** [fetch_sub] of [dereference]. *)
Definition deref (keep : option Z) (q : ExecutionQueueBase) : ExecutionQueueBase * actor :=
  let vref := _versioned_ref q in
  let q := set_vref (u64 (vref - 1)) q in
  let nref := _ref_of_vref vref in
  (q, if 1 <? nref then after keep else if nref =? 1 then DerefRead keep vref else OverDereferenced).

(** Its load of [_this_id]. *)
Definition deref_read (keep : option Z) (vref : Z) (q : ExecutionQueueBase) : ExecutionQueueBase * actor :=
  let ver := _version_of_vref vref in
  let id_ver := _version_of_id (_this_id q) in
  (q, if (ver =? id_ver) || (ver =? u32 (id_ver + 1)) then DerefCas keep vref id_ver else InvalidId keep ver).

(** Its compare-and-swap. *)
Definition deref_cas (keep : option Z) (vref id_ver : Z) (q : ExecutionQueueBase) : ExecutionQueueBase * actor :=
  if _versioned_ref q =? u64 (vref - 1) then
    (_on_recycle id_ver (set_vref (_make_vref (u32 (id_ver + 2)) 0) q), after keep)
  else (q, after keep).

(** [fetch_add] of [address]. *)
Definition address (id : Z) (q : ExecutionQueueBase) : ExecutionQueueBase * actor :=
  let vref1 := _versioned_ref q in
  let ver1 := _version_of_vref vref1 in
  (set_vref (u64 (vref1 + 1)) q, if ver1 =? _version_of_id id then Holding id else Unmatched ver1).

(** Its [fetch_sub]. *)
Definition address_sub (ver1 : Z) (q : ExecutionQueueBase) : ExecutionQueueBase * actor :=
  let vref2 := _versioned_ref q in
  let nref := _ref_of_vref vref2 in
  let ver2 := _version_of_vref vref2 in
  (set_vref (u64 (vref2 - 1)) q,
   if 1 <? nref then Idle
   else if nref =? 1 then
     if negb (Z.land ver2 1 =? 0) then
       if (ver1 =? ver2) || (u32 (ver1 + 1) =? ver2) then AddressCas vref2 else CheckFailed
     else if ver1 =? ver2 then Idle else CheckFailed
   else CheckFailed).

(** Its compare-and-swap. *)
Definition address_cas (vref2 : Z) (q : ExecutionQueueBase) : ExecutionQueueBase * actor :=
  let ver2 := _version_of_vref vref2 in
  if _versioned_ref q =? u64 (vref2 - 1) then
    (_on_recycle (u32 (ver2 - 1)) (set_vref (_make_vref (u32 (ver2 + 1)) 0) q), Idle)
  else (q, Idle).

(** The loads of [stop]. *)
Definition stop (id : Z) (q : ExecutionQueueBase) : ExecutionQueueBase * actor :=
  (q, StopLoaded id (_version_of_id (_this_id q)) (_versioned_ref q)).

(** One turn of its loop. *)
Definition stop_cas (id id_ver vref : Z) (q : ExecutionQueueBase) : ExecutionQueueBase * actor :=
  if negb (_version_of_vref vref =? id_ver) then (q, Holding id)
  else if _versioned_ref q =? vref then
    (set_vref (_make_vref (u32 (id_ver + 1)) (_ref_of_vref vref)) q, StopMarked id)
  else (q, StopLoaded id id_ver (_versioned_ref q)).

(** [create]: the slot of the pool, the first reference, the id. *)
Definition create (q : ExecutionQueueBase) : ExecutionQueueBase * actor :=
  (mk_queue (_versioned_ref q) (_this_id q) false (_join_butex q) false (stop_task q) (issued q) (recycled q), Creating).

Definition create_add (q : ExecutionQueueBase) : ExecutionQueueBase * actor :=
  (set_vref (u64 (_versioned_ref q + 1)) q, Created (_version_of_vref (_versioned_ref q))).

Definition create_id (slot version : Z) (q : ExecutionQueueBase) : ExecutionQueueBase * actor :=
  let id := make_id version slot in
  (mk_queue (_versioned_ref q) id (_stopped q) (_join_butex q) (pooled q) (stop_task q) (id :: issued q) (recycled q), Idle).

Section slot.
Context (slot : Z).

(** One step of an actor; [None]: it cannot do that.  Ids are addressed that
    [create] has returned. *)
Definition act (c : command) (q : ExecutionQueueBase) (a : actor) : option (ExecutionQueueBase * actor) :=
  match a, c with
  | Idle, Create => if pooled q then Some (create q) else None
  | Creating, Go => Some (create_add q)
  | Created version, Go => Some (create_id slot version q)
  | Idle, Address id => if bool_decide (id ∈ issued q) then Some (address id q) else None
  | Unmatched ver1, Go => Some (address_sub ver1 q)
  | AddressCas vref2, Go => Some (address_cas vref2 q)
  | Holding id, Release => Some (deref None q)
  | Holding id, Stop => Some (stop id q)
  | StopLoaded id id_ver vref, Go => Some (stop_cas id id_ver vref q)
  | StopMarked id, Go => Some (set_stopped true q, StopRelease id)
  | StopRelease id, Go => Some (deref (Some id) q)
  | DerefRead keep vref, Go => Some (deref_read keep vref q)
  | DerefCas keep vref id_ver, Go => Some (deref_cas keep vref id_ver q)
  | InvalidId keep _, Go => Some (q, after keep)
  | _, _ => None
  end.

(** The execution of the last task: [FLARE_CHECK(m->_stopped)], then the joiners
    are woken and the slot is returned. *)
Definition destroy (q : ExecutionQueueBase) : option (outcome ExecutionQueueBase) :=
  if stop_task q then
    Some (if _stopped q then
            Ok (mk_queue (_versioned_ref q) (_this_id q) (_stopped q) (s32 (_join_butex q + 2)) true false (issued q) (recycled q))
          else Abort)
  else None.

(** [join] can return. *)
Definition joined (id : Z) (q : ExecutionQueueBase) : bool := negb (s32 (_version_of_id id) =? _join_butex q).

(** The queue and its actors. *)
Inductive step : ExecutionQueueBase * list actor -> ExecutionQueueBase * list actor -> Prop :=
| step_actor q as_ i a c q' a' :
    as_ !! i = Some a -> act c q a = Some (q', a') -> step (q, as_) (q', <[i := a']> as_)
| step_destroy q as_ q' :
    destroy q = Some (Ok q') -> step (q, as_) (q', as_).

End slot.

(** ** Packed versions *)

Definition packed (v n : Z) : Z := v * 4294967296 + n.

Lemma packed_version v n : 0 <= v < 4294967296 -> 0 <= n < 2147483648 -> _version_of_vref (packed v n) = v.
Proof. intros. unfold _version_of_vref, packed. rewrite Z.shiftr_div_pow2 by lia. unfold u32. dlia. Qed.

Lemma packed_ref v n : 0 <= v -> 0 <= n < 2147483648 -> _ref_of_vref (packed v n) = n.
Proof.
  intros. unfold _ref_of_vref, packed. change 4294967295 with (Z.ones 32). rewrite Z.land_ones by lia.
  rewrite s32_small; [dlia|]. dlia.
Qed.

Lemma make_packed v n : 0 <= v -> 0 <= n < 2147483648 -> _make_vref v n = packed v n.
Proof.
  intros. unfold _make_vref, packed. rewrite u32_small, Z.lor_comm, (lor_fields 32) by lia. lia.
Qed.

Lemma packed_u64 v n : 0 <= v < 4294967296 -> 0 <= n < 2147483648 -> u64 (packed v n) = packed v n.
Proof. intros. apply u64_small. unfold packed. lia. Qed.

Lemma packed_inj v n v' n' : 0 <= n < 2147483648 -> 0 <= n' < 2147483648 -> packed v n = packed v' n' -> v = v' /\ n = n'.
Proof. unfold packed. lia. Qed.

Lemma land_1_odd v : negb (Z.land v 1 =? 0) = Z.odd v.
Proof. change 1 with (Z.ones 1) at 1. rewrite Z.land_ones by lia. change (2 ^ 1) with 2. rewrite Zmod_odd. by destruct (Z.odd v). Qed.

(** ** The invariant *)

(** The phases of a slot; an index is the actor that creates or stops. *)
Inductive life := LPooled | LCreating (i : nat) | LFresh (i : nat) | LRunning | LMarked (i : nat) | LReleasing (i : nat) | LStopped | LRecycled.

Definition alive (l : life) : bool := match l with LRunning | LMarked _ | LReleasing _ | LStopped => true | _ => false end.
Definition stopping (l : life) : bool := match l with LMarked _ | LReleasing _ | LStopped => true | _ => false end.

(** The reference of the creation. *)
Definition extra (l : life) : Z := match l with LFresh _ | LRunning | LMarked _ | LReleasing _ => 1 | _ => 0 end.

(** The version of the slot, [g] being that of the present or next queue. *)
Definition version (l : life) (g : Z) : Z := if stopping l then g + 1 else g.

(** The references of an actor. *)
Definition refs (a : actor) : Z :=
  match a with
  | Unmatched _ | Holding _ | StopLoaded _ _ _ | StopMarked _ | StopRelease _
  | DerefRead (Some _) _ | DerefCas (Some _) _ _ | InvalidId (Some _) _ => 1
  | _ => 0
  end.

Definition total_refs (as_ : list actor) : Z := foldr (fun a n => refs a + n) 0 as_.

Section invariant.
Context (slot : Z) (Hslot : 0 <= slot < 4294967296).

(** It saw the count of a stopped queue fall to 0. *)
Definition saw_zero (l : life) (g vref w : Z) : Prop :=
  vref = packed w 1 /\ Z.odd w = true /\ 0 < w <= version l g.

Definition actor_ok (l : life) (g : Z) (i : nat) (a : actor) : Prop :=
  match a with
  | Idle => True
  | InvalidId None w => Z.odd w = true /\ 0 < w < g
  | Creating => l = LCreating i
  | Created v => l = LFresh i /\ v = g
  | Unmatched v => v = g \/ v = version l g
  | AddressCas vref | DerefRead None vref => exists w, saw_zero l g vref w
  | DerefCas None vref id_ver => saw_zero l g vref (id_ver + 1)
  | Holding id => id = make_id g slot /\ alive l = true
  | StopLoaded id id_ver _ => id = make_id g slot /\ alive l = true /\ id_ver = g
  | StopMarked id => id = make_id g slot /\ l = LMarked i
  | StopRelease id => id = make_id g slot /\ l = LReleasing i
  | _ => False
  end.

(** It will try to recycle the queue of version [w - 1]. *)
Definition will_recycle (w : Z) (a : actor) : Prop :=
  a = AddressCas (packed w 1) \/ a = DerefRead None (packed w 1) \/ a = DerefCas None (packed w 1) (w - 1).

Record inv (l : life) (g : Z) (q : ExecutionQueueBase) (as_ : list actor) : Prop := {
  inv_gen : g = 2 * zlen (recycled q);
  inv_vref : _versioned_ref q = packed (version l g) (total_refs as_ + extra l);
  inv_this : alive l = true -> _this_id q = make_id g slot;
  inv_this_even : Z.even (_version_of_id (_this_id q)) = true;
  inv_stopped : match l with LReleasing _ | LStopped | LRecycled => _stopped q = true | _ => True end;
  inv_butex : _join_butex q = s32 (match l with LRecycled => g - 2 | _ => g end);
  inv_pooled : pooled q = match l with LPooled => true | _ => false end;
  inv_task : stop_task q = match l with LRecycled => true | _ => false end;
  inv_issued : zlen (issued q) = zlen (recycled q) + (if alive l then 1 else 0);
  inv_ids : forall id, id ∈ issued q -> exists w, id = make_id w slot /\ 0 <= w <= g /\ (w = g /\ alive l = true \/ w ∈ recycled q);
  inv_recycled : NoDup (recycled q) /\ forall w, w ∈ recycled q -> 0 <= w < g /\ Z.even w = true;
  inv_actors : forall i a, as_ !! i = Some a -> actor_ok l g i a;
  inv_owner : match l with
              | LCreating i => as_ !! i = Some Creating
              | LFresh i => as_ !! i = Some (Created g)
              | LMarked i => as_ !! i = Some (StopMarked (make_id g slot))
              | LReleasing i => as_ !! i = Some (StopRelease (make_id g slot))
              | _ => True
              end;
  inv_progress : l = LStopped -> total_refs as_ = 0 -> exists i a, as_ !! i = Some a /\ will_recycle (version l g) a
}.

Lemma total_refs_cons a as_ : total_refs (a :: as_) = refs a + total_refs as_.
Proof. done. Qed.

Lemma refs_range a : 0 <= refs a <= 1.
Proof. destruct a as [| | | | | | | | |[]|[]|[]| |]; cbn; lia. Qed.

Lemma total_refs_range as_ : 0 <= total_refs as_ <= zlen as_.
Proof.
  induction as_ as [|a as_ IH]; [unfold zlen; cbn; lia|]. rewrite total_refs_cons, zlen_cons. pose proof (refs_range a). lia.
Qed.

Lemma total_refs_insert as_ i a a' :
  as_ !! i = Some a -> total_refs (<[i := a']> as_) = total_refs as_ - refs a + refs a'.
Proof.
  revert i. induction as_ as [|b as_ IH]; intros [|i]; try done; intros H.
  - injection H as ->. change (<[0%nat := a']> (a :: as_)) with (a' :: as_). rewrite !total_refs_cons. lia.
  - change (<[S i := a']> (b :: as_)) with (b :: <[i := a']> as_). rewrite !total_refs_cons, (IH i H). lia.
Qed.

Lemma total_refs_ge as_ i a : as_ !! i = Some a -> refs a <= total_refs as_.
Proof.
  revert i. induction as_ as [|b as_ IH]; intros [|i]; try done; intros H; rewrite total_refs_cons.
  - injection H as ->. pose proof (total_refs_range as_). lia.
  - specialize (IH i H). pose proof (refs_range b). lia.
Qed.

Lemma actors_insert l g (as_ : list actor) (i : nat) a' :
  (forall j b, as_ !! j = Some b -> j <> i -> actor_ok l g j b) -> actor_ok l g i a' ->
  forall j b, <[i := a']> as_ !! j = Some b -> actor_ok l g j b.
Proof.
  intros Ho Hi j b. destruct (decide (j = i)) as [->|Hne].
  - intros H%list_lookup_insert_Some. destruct H as [(_ & -> & _)|[? _]]; done.
  - rewrite list_lookup_insert_ne by done. intros H. by apply Ho.
Qed.

(** Actors that neither create nor mark. *)
Definition no_owner (a : actor) : bool :=
  match a with Creating | Created _ | StopMarked _ | StopRelease _ => false | _ => true end.

Definition set_vref_like (q q' : ExecutionQueueBase) : Prop := q' = set_vref (_versioned_ref q') q.

(** A step of one actor that only moves the count. *)
Lemma inv_same l g q q' as_ i a a' :
  inv l g q as_ -> as_ !! i = Some a -> no_owner a = true -> set_vref_like q q' ->
  _versioned_ref q' = packed (version l g) (total_refs as_ - refs a + refs a' + extra l) -> actor_ok l g i a' ->
  (l = LStopped -> total_refs as_ - refs a + refs a' = 0 ->
     will_recycle (version l g) a' \/ total_refs as_ = 0 /\ ~ will_recycle (version l g) a) ->
  inv l g q' (<[i := a']> as_).
Proof.
  intros [] Hi Hno -> Hv Ha Hp. pose proof (total_refs_insert as_ i a a' Hi) as Ht.
  assert (Hlt : (i < length as_)%nat) by (by apply lookup_lt_Some in Hi).
  split; cbn; try done.
  - by rewrite Ht.
  - apply actors_insert; [|done]. intros j b Hj _. by apply inv_actors0.
  - destruct l as [|j|j| |j|j| |]; try done; (destruct (decide (j = i)) as [->|]; [|by rewrite list_lookup_insert_ne]);
      rewrite Hi in inv_owner0; injection inv_owner0 as ->; done.
  - intros Hl Hz. rewrite Ht in Hz. destruct (Hp Hl Hz) as [Hw|[Hz0 Hw]].
    + exists i, a'. by rewrite list_lookup_insert_eq.
    + destruct (inv_progress0 Hl Hz0) as (j & b & Hj & Hb). exists j, b.
      rewrite list_lookup_insert_ne; [done|]. intros ->. congruence.
Qed.

(** Fewer actors and queues than the fields can count. *)
Definition bounded (q : ExecutionQueueBase) (as_ : list actor) : Prop :=
  zlen as_ < 2147483640 /\ zlen (issued q) < 2147483640.

Lemma make_id_version w : 0 <= w < 4294967296 -> _version_of_id (make_id w slot) = w.
Proof using Hslot.
  intros. unfold _version_of_id, make_id. rewrite Z.lor_comm, (lor_fields 32), Z.shiftr_div_pow2 by lia. unfold u32. dlia.
Qed.

Lemma even_g g q : g = 2 * zlen (recycled q) -> Z.even g = true.
Proof. intros ->. by rewrite Z.even_mul. Qed.

Lemma inv_bounds l g q as_ :
  inv l g q as_ -> bounded q as_ ->
  0 <= g < 4294967280 /\ Z.even g = true /\ 0 <= total_refs as_ + extra l < 2147483645 /\ 0 <= extra l <= 1.
Proof.
  intros [] [Ha Hi]. pose proof (total_refs_range as_). pose proof (zlen_nonneg (recycled q)).
  assert (0 <= extra l <= 1) by (destruct l; cbn; lia). split_and!; try lia; [destruct (alive l); lia|by eapply even_g].
Qed.

Lemma alive_one l n : alive l = true -> 1 <= n -> n + extra l = 1 -> l = LStopped.
Proof. destruct l; cbn; done || lia. Qed.

Lemma stopping_zero l n : stopping l = true -> 0 <= n -> n + extra l = 0 -> l = LStopped /\ n = 0.
Proof. destruct l; cbn; try done; intros; first [lia | split; [done|lia]]. Qed.

Section step.
Context (l : life) (g : Z) (q : ExecutionQueueBase) (as_ : list actor) (i : nat) (a : actor).
Context (Hinv : inv l g q as_) (Hb : bounded q as_) (Hi : as_ !! i = Some a).

(** A step of the actor keeps the invariant, perhaps in the next phase. *)
Definition keeps_inv (q' : ExecutionQueueBase) (a' : actor) : Prop := exists l' g', inv l' g' q' (<[i := a']> as_).

Lemma version_range : 0 <= version l g < 4294967290.
Proof using Hinv Hb.
  destruct (inv_bounds l g q as_ Hinv Hb) as (? & ? & ?). unfold version. destruct (stopping l); lia.
Qed.

Lemma version_odd : Z.odd (version l g) = stopping l.
Proof using Hinv Hb.
  destruct (inv_bounds l g q as_ Hinv Hb) as (? & He & ?). unfold version. destruct (stopping l).
  - by rewrite Z.odd_add, <- Z.negb_even, He.
  - by rewrite <- Z.negb_even, He.
Qed.

Lemma vref_fields :
  _version_of_vref (_versioned_ref q) = version l g /\ _ref_of_vref (_versioned_ref q) = total_refs as_ + extra l.
Proof using Hinv Hb.
  destruct (inv_bounds l g q as_ Hinv Hb) as (? & ? & ? & ?). pose proof version_range.
  rewrite (inv_vref _ _ _ _ Hinv), packed_version, packed_ref by lia. done.
Qed.

Lemma vref_add : u64 (_versioned_ref q + 1) = packed (version l g) (total_refs as_ + extra l + 1).
Proof using Hinv Hb.
  destruct (inv_bounds l g q as_ Hinv Hb) as (? & ? & ? & ?). pose proof version_range.
  rewrite (inv_vref _ _ _ _ Hinv). replace (packed _ _ + 1) with (packed (version l g) (total_refs as_ + extra l + 1)) by (unfold packed; lia).
  apply packed_u64; lia.
Qed.

Lemma vref_sub : 0 < total_refs as_ + extra l -> u64 (_versioned_ref q - 1) = packed (version l g) (total_refs as_ + extra l - 1).
Proof using Hinv Hb.
  destruct (inv_bounds l g q as_ Hinv Hb) as (? & ? & ? & ?). pose proof version_range. intros.
  rewrite (inv_vref _ _ _ _ Hinv). replace (packed _ _ - 1) with (packed (version l g) (total_refs as_ + extra l - 1)) by (unfold packed; lia).
  apply packed_u64; lia.
Qed.

Lemma address_step id :
  a = Idle -> id ∈ issued q ->
  keeps_inv (set_vref (u64 (_versioned_ref q + 1)) q)
    (if _version_of_vref (_versioned_ref q) =? _version_of_id id then Holding id else Unmatched (_version_of_vref (_versioned_ref q))).
Proof using Hslot Hinv Hb Hi.
  intros Ea Hid. pose proof (total_refs_range as_). exists l, g. destruct vref_fields as [-> _].
  destruct (inv_ids _ _ _ _ Hinv id Hid) as (w & -> & Hw & Hcase).
  destruct (inv_bounds l g q as_ Hinv Hb) as (Hg & ? & ? & ?). rewrite make_id_version by lia.
  apply (inv_same l g q _ as_ i a _ Hinv Hi); rewrite ?Ea; try done.
  - cbn [set_vref _versioned_ref]. rewrite vref_add. case_if; f_equal; cbn; lia.
  - case_if; cbn; [|by right]. zbool. destruct Hcase as [[-> Hal]|Hrec]; [done|].
    destruct (proj2 (inv_recycled _ _ _ _ Hinv) w Hrec) as [Hlt _]. unfold version in *. destruct (stopping l); lia.
  - case_if; cbn; intros; lia.
Qed.

Lemma version_stopping : stopping l = true -> version l g = g + 1.
Proof. unfold version. by intros ->. Qed.
Lemma version_running : stopping l = false -> version l g = g.
Proof. unfold version. by intros ->. Qed.

Lemma unmatched_step ver1 :
  a = Unmatched ver1 ->
  exists a', act slot Go q a = Some (set_vref (u64 (_versioned_ref q - 1)) q, a') /\ keeps_inv (set_vref (u64 (_versioned_ref q - 1)) q) a'.
Proof using Hslot Hinv Hb Hi.
  intros Ea. pose proof (total_refs_range as_). destruct vref_fields as [Ev En].
  destruct (inv_bounds l g q as_ Hinv Hb) as (Hg & Heven & Hn & Hex). pose proof version_stopping as Hvs.
  pose proof (total_refs_ge as_ i a Hi) as Hge. pose proof (inv_actors _ _ _ _ Hinv i a Hi) as Hok. rewrite Ea in Hge, Hok |- *. cbn in Hge, Hok.
  assert (Hm : stopping l = true -> (ver1 =? version l g) || (u32 (ver1 + 1) =? version l g) = true).
  { intros Es. apply orb_true_iff. rewrite !Z.eqb_eq. specialize (Hvs Es). destruct Hok as [-> | ->]; [right|by left]. rewrite u32_small; lia. }
  assert (Hone : total_refs as_ + extra l = 1 -> _versioned_ref q = packed (version l g) 1) by (intros <-; apply Hinv).
  cbn [act]. unfold address_sub. rewrite Ev, En, land_1_odd, version_odd. eexists. split; [reflexivity|]. exists l, g.
  apply (inv_same l g q _ as_ i a _ Hinv Hi); rewrite ?Ea; try done.
  - cbn [set_vref _versioned_ref]. rewrite vref_sub by lia. f_equal. repeat case_if; cbn; lia.
  - case_if; [done|]. zbool. rewrite (proj2 (Z.eqb_eq _ _)) by lia. destruct (stopping l) eqn:Es.
    + rewrite Hm by done. exists (version l g). rewrite (Hone ltac:(lia)). split_and!; [done|by rewrite version_odd|rewrite Hvs; lia|lia].
    + rewrite (version_running Es) in *. rewrite (proj2 (Z.eqb_eq ver1 _)) by tauto. done.
  - intros Hl. assert (Es : stopping l = true) by by rewrite Hl. assert (Ex : extra l = 0) by by rewrite Hl.
    rewrite Es, (Hm Es). case_if; zbool; cbn [refs]; [lia|]. rewrite (proj2 (Z.eqb_eq _ _)) by lia.
    intros _. left. left. by rewrite Hone by lia.
Qed.

Lemma release_step id :
  a = Holding id -> exists a', deref None q = (set_vref (u64 (_versioned_ref q - 1)) q, a') /\ keeps_inv (set_vref (u64 (_versioned_ref q - 1)) q) a'.
Proof using Hslot Hinv Hb Hi.
  intros Ea. pose proof (total_refs_range as_). destruct vref_fields as [Ev En]. pose proof version_odd as Hodd.
  destruct (inv_bounds l g q as_ Hinv Hb) as (Hg & Heven & Hn & Hex). pose proof version_range.
  pose proof (total_refs_ge as_ i a Hi) as Hge. pose proof (inv_actors _ _ _ _ Hinv i a Hi) as Hok. rewrite Ea in Hge, Hok. cbn in Hge, Hok.
  unfold deref. rewrite En. eexists. split; [reflexivity|]. exists l, g.
  assert (Hone : total_refs as_ + extra l = 1 -> _versioned_ref q = packed (version l g) 1) by (intros <-; apply Hinv).
  apply (inv_same l g q _ as_ i a _ Hinv Hi); rewrite ?Ea; try done.
  - cbn [set_vref _versioned_ref]. rewrite vref_sub by lia. f_equal. repeat case_if; cbn; lia.
  - case_if; [done|]. zbool. rewrite (proj2 (Z.eqb_eq _ _)) by lia.
    assert (Hl : l = LStopped) by (apply (alive_one l (total_refs as_)); [tauto|lia|lia]). exists (version l g). rewrite Hone by lia.
    split_and!; [done|by rewrite Hodd, Hl| |lia]. rewrite version_stopping by by rewrite Hl. lia.
  - intros Hl. assert (Ex : extra l = 0) by by rewrite Hl. case_if; zbool; cbn [refs after]; [lia|]. rewrite (proj2 (Z.eqb_eq _ _)) by lia.
    intros _. left. right. left. by rewrite Hone by lia.
Qed.

(** The count of a stopped queue is 0: it is recycled. *)
Lemma recycle_step :
  l = LStopped -> total_refs as_ = 0 -> refs a = 0 -> no_owner a = true ->
  keeps_inv (_on_recycle g (set_vref (packed (g + 2) 0) q)) Idle.
Proof using Hslot Hinv Hb Hi.
  intros Hl Hz Ha Hno. exists LRecycled, (g + 2). pose proof (total_refs_insert as_ i a Idle Hi) as Ht. cbn in Ht.
  destruct (inv_bounds l g q as_ Hinv Hb) as (Hg & Heven & Hn & Hex). pose proof Hinv as []. rewrite Hl in *. cbn in *.
  split; cbn; try done.
  - rewrite zlen_cons. lia.
  - rewrite Ht. f_equal. lia.
  - rewrite inv_butex0. f_equal. lia.
  - rewrite zlen_cons. lia.
  - intros id Hid. destruct (inv_ids0 id Hid) as (w & -> & Hw & Hc). exists w. split_and!; try done; try lia.
    right. apply elem_of_cons. destruct Hc as [[-> _]|Hc]; auto.
  - destruct inv_recycled0 as [Hnd Hall]. split.
    + apply NoDup_cons. split; [|done]. intros [? _]%Hall. lia.
    + intros w [->|[? ?]%Hall]%elem_of_cons; [split; [lia|done]|split; [lia|done]].
  - apply actors_insert; [|done]. intros j b Hj _. specialize (inv_actors0 j b Hj). pose proof (total_refs_ge as_ j b Hj) as Hge.
    destruct b as [| | | | | | | | |[]|[]|[]| |]; cbn in *; try done; try lia; try (by destruct inv_actors0).
    all: try (destruct inv_actors0 as (w & E & Ho & Hw); exists w; unfold saw_zero, version in *; cbn in *; split_and!; try done; lia).
    2: by destruct inv_actors0; split; [done|lia].
    unfold saw_zero, version in *; cbn in *. destruct inv_actors0 as (E & Ho & Hw). split_and!; try done; lia.
Qed.

(** A compare-and-swap after the count was seen at 0: it recycles the queue, or
    another one has moved on. *)
Lemma cas_step w :
  saw_zero l g (packed w 1) w -> refs a = 0 -> no_owner a = true ->
  (if _versioned_ref q =? u64 (packed w 1 - 1) then keeps_inv (_on_recycle (w - 1) (set_vref (packed (w + 1) 0) q)) Idle
   else will_recycle w a -> keeps_inv q Idle).
Proof using Hslot Hinv Hb Hi.
  intros (_ & Hodd & Hw) Ha Hno. destruct (inv_bounds l g q as_ Hinv Hb) as (Hg & Heven & Hn & Hex). pose proof version_range as Hvr.
  replace (packed w 1 - 1) with (packed w 0) by (unfold packed; lia). rewrite packed_u64 by lia.
  pose proof (total_refs_range as_). case_if; zbool.
  - rewrite (inv_vref _ _ _ _ Hinv) in Heqb. apply packed_inj in Heqb as [Hv Hz]; [|lia|lia].
    destruct (stopping_zero l (total_refs as_)) as [Hl Hz']; [by rewrite <- version_odd, Hv|lia|done|].
    rewrite version_stopping in Hv by by rewrite Hl. replace (w - 1) with g by lia. replace (w + 1) with (g + 2) by lia.
    by apply recycle_step.
  - intros Hwill. exists l, g. apply (inv_same l g q _ as_ i a _ Hinv Hi); try done.
    + by destruct q.
    + rewrite (inv_vref _ _ _ _ Hinv), Ha. f_equal. cbn. lia.
    + intros Hl Hz. right. cbn in Hz. split; [lia|]. intros Hwv. apply Heqb. rewrite (inv_vref _ _ _ _ Hinv).
      assert (Ex : extra l = 0) by by rewrite Hl. f_equal; [|lia].
      destruct Hwill as [->|[->| ->]], Hwv as [[=]|[[=]|[=]]]; unfold packed in *; lia.
Qed.

Lemma deref_read_step w :
  a = DerefRead None (packed w 1) -> saw_zero l g (packed w 1) w ->
  let id_ver := _version_of_id (_this_id q) in
  keeps_inv q (if (w =? id_ver) || (w =? u32 (id_ver + 1)) then DerefCas None (packed w 1) id_ver else InvalidId None w).
Proof using Hslot Hinv Hb Hi.
  intros Ea (_ & Hodd & Hw). cbn zeta. set (v := _version_of_id (_this_id q)). exists l, g.
  destruct (inv_bounds l g q as_ Hinv Hb) as (Hg & Heven & Hn & Hex). pose proof (inv_this_even _ _ _ _ Hinv) as Hte. fold v in Hte.
  assert (Hv : 0 <= v < 4294967296) by (unfold v, _version_of_id; apply u32_range).
  assert (Hv1 : v + 1 < 4294967296) by (destruct (Z.eq_dec v 4294967295) as [E|]; [by rewrite E in Hte|lia]).
  assert (Hver : l = LStopped -> v + 1 = version l g).
  { intros Hl. rewrite version_stopping by by rewrite Hl. f_equal. subst v. rewrite (inv_this _ _ _ _ Hinv) by by rewrite Hl.
    apply make_id_version. lia. }
  assert (Hne : w <> v) by (intros ->; by rewrite <- Z.negb_even, Hte in Hodd).
  rewrite (u32_small (v + 1)) by lia. rewrite (proj2 (Z.eqb_neq _ _) Hne). cbn [orb].
  apply (inv_same l g q _ as_ i a _ Hinv Hi); rewrite ?Ea; try done.
  - by destruct q.
  - rewrite (inv_vref _ _ _ _ Hinv). f_equal. case_if; cbn; lia.
  - case_if; zbool; cbn [actor_ok]; [by rewrite <- Heqb|]. split; [done|].
    assert (w <> g) by (intros ->; by rewrite <- Z.negb_even, Heven in Hodd). unfold version in Hw.
    destruct (stopping l) eqn:Est; [|lia]. assert (v = g); [|lia]. subst v. rewrite (inv_this _ _ _ _ Hinv) by (by destruct l).
    apply make_id_version. lia.
  - intros Hl Hz. specialize (Hver Hl). case_if; zbool.
    + left. right. right. rewrite <- Hver, Heqb. f_equal. lia.
    + right. cbn in Hz. split; [lia|]. intros [[=]|[[= E]|[=]]]. apply Heqb. rewrite Hver. unfold packed in E. lia.
Qed.

(** Phases change by the actor that owns them: the others are not concerned. *)
Lemma phase_step l' q' a' :
  (forall j b, as_ !! j = Some b -> j <> i -> actor_ok l' g j b) -> actor_ok l' g i a' ->
  recycled q' = recycled q -> _join_butex q' = _join_butex q -> l' <> LRecycled -> l <> LRecycled ->
  _versioned_ref q' = packed (version l' g) (total_refs as_ - refs a + refs a' + extra l') ->
  (alive l' = true -> _this_id q' = make_id g slot) -> Z.even (_version_of_id (_this_id q')) = true ->
  match l' with LReleasing _ | LStopped => _stopped q' = true | _ => True end ->
  pooled q' = match l' with LPooled => true | _ => false end -> stop_task q' = false ->
  issued q' = (if alive l' && negb (alive l) then [make_id g slot] else []) ++ issued q -> (alive l = true -> alive l' = true) ->
  match l' with
  | LCreating j => j = i /\ a' = Creating | LFresh j => j = i /\ a' = Created g
  | LMarked j => j = i /\ a' = StopMarked (make_id g slot) | LReleasing j => j = i /\ a' = StopRelease (make_id g slot)
  | _ => True
  end ->
  (l' = LStopped -> total_refs as_ - refs a + refs a' <> 0) ->
  keeps_inv q' a'.
Proof using Hslot Hinv Hb Hi.
  intros Hother Hown Hrec Hbx Hl' Hl Hv Hthis Heven Hst Hpl Htask Hiss Hal Howner Hprog. exists l', g.
  pose proof (total_refs_insert as_ i a a' Hi) as Ht. pose proof Hinv as [].
  destruct (inv_bounds l g q as_ Hinv Hb) as (Hg & _ & _ & _).
  assert (Hbl : forall m, m <> LRecycled -> match m with LRecycled => g - 2 | _ => g end = g) by by intros [].
  split; rewrite ?Hrec, ?Hbx; try done.
  - by rewrite Hv, Ht.
  - by destruct l'.
  - rewrite inv_butex0, !Hbl; done.
  - by destruct l'.
  - rewrite Hiss, zlen_app, inv_issued0. destruct (alive l), (alive l'); cbn [andb negb app]; rewrite ?zlen_cons, ?(@zlen_nil Z); try lia.
  - intros id. rewrite Hiss. intros [Hid|Hid]%elem_of_app.
    + destruct (alive l') eqn:E; cbn in Hid; [|by apply elem_of_nil in Hid]. destruct (negb (alive l)); [|by apply elem_of_nil in Hid].
      apply list_elem_of_singleton in Hid as ->. exists g. split_and!; try done; lia.
    + destruct (inv_ids0 id Hid) as (w & -> & Hw & Hc). exists w. split_and!; try done; try lia.
      destruct Hc as [[-> Ha]|Hc]; [left; auto|by right].
  - by apply actors_insert.
  - destruct l'; try done; destruct Howner as [-> ->]; rewrite list_lookup_insert_eq; try done; by apply lookup_lt_Some in Hi.
  - intros E Hz. rewrite Ht in Hz. by destruct (Hprog E).
Qed.

Ltac others El :=
  let j := fresh "j" in let b := fresh "b" in let Hj := fresh "Hj" in let Hne := fresh "Hne" in let Hok := fresh "Hok" in
  intros j b Hj Hne; pose proof (inv_actors _ _ _ _ Hinv j b Hj) as Hok; rewrite El in Hok;
  destruct b as [| | | | | | | | |[]|[]|[]| |]; unfold actor_ok, saw_zero, version in *; cbn [stopping alive] in *;
  try done; try (intuition congruence);
  first [ destruct Hok as (w & ? & ? & ?); exists w; split_and!; (done || lia) | split_and!; (tauto || lia) | lia ].

Lemma create_step :
  a = Idle -> pooled q = true ->
  keeps_inv (mk_queue (_versioned_ref q) (_this_id q) false (_join_butex q) false (stop_task q) (issued q) (recycled q)) Creating.
Proof using Hslot Hinv Hb Hi.
  intros Ea Hp. pose proof (inv_pooled _ _ _ _ Hinv) as Hl. rewrite Hp in Hl. assert (El : l = LPooled) by by destruct l.
  pose proof (inv_vref _ _ _ _ Hinv) as Hv. pose proof (inv_task _ _ _ _ Hinv) as Ht. rewrite El in Hv, Ht.
  apply (phase_step (LCreating i)); cbn; try done.
  - others El.
  - by rewrite El.
  - rewrite Hv, Ea. cbn. f_equal. lia.
  - apply (inv_this_even _ _ _ _ Hinv).
  - by rewrite El.
Qed.

Lemma creating_step :
  a = Creating -> keeps_inv (set_vref (u64 (_versioned_ref q + 1)) q) (Created (_version_of_vref (_versioned_ref q))).
Proof using Hslot Hinv Hb Hi.
  intros Ea. pose proof (inv_actors _ _ _ _ Hinv i a Hi) as El. rewrite Ea in El. cbn in El.
  destruct vref_fields as [Ev _]. rewrite Ev. pose proof vref_add as Hadd.
  pose proof (inv_pooled _ _ _ _ Hinv) as Hp. pose proof (inv_task _ _ _ _ Hinv) as Ht. rewrite El in Hp, Ht, Hadd |- *.
  apply (phase_step (LFresh i)); cbn [set_vref _versioned_ref _this_id _stopped _join_butex pooled stop_task issued recycled]; try done.
  - others El.
  - by rewrite El.
  - rewrite Hadd, Ea. unfold version. cbn. f_equal. lia.
  - apply (inv_this_even _ _ _ _ Hinv).
  - by rewrite El.
Qed.

Lemma created_step v :
  a = Created v ->
  keeps_inv (mk_queue (_versioned_ref q) (make_id v slot) (_stopped q) (_join_butex q) (pooled q) (stop_task q) (make_id v slot :: issued q) (recycled q)) Idle.
Proof using Hslot Hinv Hb Hi.
  intros Ea. pose proof (inv_actors _ _ _ _ Hinv i a Hi) as Hok. rewrite Ea in Hok. destruct Hok as [El ->].
  destruct (inv_bounds l g q as_ Hinv Hb) as (Hg & Heven & Hn & Hex). pose proof (inv_vref _ _ _ _ Hinv) as Hv.
  pose proof (inv_pooled _ _ _ _ Hinv) as Hp. pose proof (inv_task _ _ _ _ Hinv) as Ht. rewrite El in Hp, Ht, Hv.
  apply (phase_step LRunning); cbn; try done.
  - others El.
  - by rewrite El.
  - rewrite Hv, Ea. unfold version. cbn. f_equal. lia.
  - rewrite make_id_version by lia. done.
  - by rewrite El.
Qed.

Lemma mark_step id vref :
  a = StopLoaded id g vref -> _versioned_ref q = vref -> _version_of_vref vref = g ->
  keeps_inv (set_vref (_make_vref (u32 (g + 1)) (_ref_of_vref vref)) q) (StopMarked id).
Proof using Hslot Hinv Hb Hi.
  intros Ea <- Hg'. pose proof (inv_actors _ _ _ _ Hinv i a Hi) as Hok. rewrite Ea in Hok. destruct Hok as (-> & Hal & _).
  destruct vref_fields as [Ev En]. rewrite Ev in Hg'. destruct (inv_bounds l g q as_ Hinv Hb) as (Hg & Heven & Hn & Hex).
  assert (El : l = LRunning).
  { revert Hg' Hal. unfold version. destruct l; cbn; try done; lia. }
  rewrite En, u32_small, make_packed by lia.
  pose proof (inv_pooled _ _ _ _ Hinv) as Hp. pose proof (inv_task _ _ _ _ Hinv) as Ht. rewrite El in Hp, Ht |- *.
  apply (phase_step (LMarked i)); cbn [set_vref _versioned_ref _this_id _stopped _join_butex pooled stop_task issued recycled]; try done.
  - others El.
  - by rewrite El.
  - rewrite Ea. unfold version. cbn. f_equal. lia.
  - intros _. apply (inv_this _ _ _ _ Hinv). by rewrite El.
  - apply (inv_this_even _ _ _ _ Hinv).
  - by rewrite El.
Qed.

Lemma marked_step id : a = StopMarked id -> keeps_inv (set_stopped true q) (StopRelease id).
Proof using Hslot Hinv Hb Hi.
  intros Ea. pose proof (inv_actors _ _ _ _ Hinv i a Hi) as Hok. rewrite Ea in Hok. destruct Hok as [-> El].
  pose proof (inv_vref _ _ _ _ Hinv) as Hv.
  pose proof (inv_pooled _ _ _ _ Hinv) as Hp. pose proof (inv_task _ _ _ _ Hinv) as Ht. rewrite El in Hp, Ht, Hv.
  apply (phase_step (LReleasing i)); cbn [set_stopped _versioned_ref _this_id _stopped _join_butex pooled stop_task issued recycled]; try done.
  - others El.
  - by rewrite El.
  - rewrite Ea, Hv. unfold version. cbn. f_equal. lia.
  - intros _. apply (inv_this _ _ _ _ Hinv). by rewrite El.
  - apply (inv_this_even _ _ _ _ Hinv).
  - by rewrite El.
Qed.

Lemma stop_release_step id :
  a = StopRelease id ->
  exists q', deref (Some id) q = (q', Holding id) /\ keeps_inv q' (Holding id).
Proof using Hslot Hinv Hb Hi.
  intros Ea. pose proof (inv_actors _ _ _ _ Hinv i a Hi) as Hok. rewrite Ea in Hok. destruct Hok as [-> El].
  pose proof (total_refs_ge as_ i a Hi) as Hge. rewrite Ea in Hge. cbn in Hge.
  destruct vref_fields as [_ En]. pose proof vref_sub as Hsub. pose proof (inv_stopped _ _ _ _ Hinv) as Hst.
  pose proof (inv_pooled _ _ _ _ Hinv) as Hp. pose proof (inv_task _ _ _ _ Hinv) as Ht. rewrite El in Hp, Ht, En, Hsub, Hst. cbn in En, Hsub, Hst.
  unfold deref. rewrite En, (proj2 (Z.ltb_lt _ _)) by lia. eexists. split; [reflexivity|].
  apply (phase_step LStopped); cbn [set_vref _versioned_ref _this_id _stopped _join_butex pooled stop_task issued recycled]; try done.
  - others El.
  - by rewrite El.
  - rewrite Ea, Hsub by lia. unfold version. cbn. f_equal. lia.
  - intros _. apply (inv_this _ _ _ _ Hinv). by rewrite El.
  - apply (inv_this_even _ _ _ _ Hinv).
  - by rewrite El.
  - rewrite Ea. cbn. lia.
Qed.

Lemma quiet_step a' :
  refs a' = refs a -> no_owner a = true -> actor_ok l g i a' -> ~ will_recycle (version l g) a -> keeps_inv q a'.
Proof using Hslot Hinv Hb Hi.
  intros Hr Hno Hok Hw. exists l, g. apply (inv_same l g q _ as_ i a _ Hinv Hi); try done.
  - by destruct q.
  - rewrite (inv_vref _ _ _ _ Hinv), Hr. f_equal. lia.
  - intros _ Hz. right. split; [lia|done].
Qed.

End step.

Lemma cas_inv l g q as_ i a w q' :
  inv l g q as_ -> bounded q as_ -> as_ !! i = Some a -> saw_zero l g (packed w 1) w -> refs a = 0 -> no_owner a = true ->
  will_recycle w a ->
  q' = (if _versioned_ref q =? u64 (packed w 1 - 1) then _on_recycle (w - 1) (set_vref (packed (w + 1) 0) q) else q) ->
  exists l' g', inv l' g' q' (<[i := Idle]> as_).
Proof using Hslot.
  intros Hinv Hb Hi Hz Hr Hno Hw ->. pose proof (cas_step l g q as_ i a Hinv Hb Hi w Hz Hr Hno) as H.
  destruct (_versioned_ref q =? u64 (packed w 1 - 1)); [exact H|exact (H Hw)].
Qed.

Lemma taken_pair (q1 q2 : ExecutionQueueBase) (a1 a2 : actor) : (q1, a1) = (q2, a2) -> q1 = q2 /\ a1 = a2.
Proof. by intros [= -> ->]. Qed.
Ltac taken E := apply Some_inj, taken_pair in E as [<- <-].

Lemma act_inv l g q as_ i a c q' a' :
  inv l g q as_ -> bounded q as_ -> as_ !! i = Some a -> act slot c q a = Some (q', a') ->
  exists l' g', inv l' g' q' (<[i := a']> as_).
Proof using Hslot.
  intros Hinv Hb Hi E. pose proof (inv_actors _ _ _ _ Hinv i a Hi) as Hok.
  pose proof (inv_bounds l g q as_ Hinv Hb) as (Hg & Heven & _ & _). pose proof (version_range l g q as_ Hinv Hb) as Hvr.
  destruct a as [| |v|v|vref|id|id idv vref|id|id|[k|] vref|[k|] vref idv|[k|] ver| |]; destruct c; try done; cbn [act] in E; unfold create, create_add, create_id, address, address_cas, stop, stop_cas, deref_read, deref_cas in E; cbn in Hok.
  - destruct (pooled q) eqn:Hp; [|done]. taken E. by eapply create_step.
  - case_bool_decide as Hid; [|done]. taken E. by eapply address_step.
  - taken E. by eapply creating_step.
  - taken E. by eapply created_step.
  - destruct (unmatched_step l g q as_ i _ Hinv Hb Hi v eq_refl) as (a2 & E2 & H). cbn [act] in E2. rewrite E in E2. by apply Some_inj, taken_pair in E2 as [-> ->].
  - destruct Hok as (w & Hz). pose proof Hz as (-> & Hodd & Hw). rewrite packed_version, !u32_small, make_packed in E by lia.
    assert (a' = Idle) as -> by (by case_if_in E; taken E).
    eapply (cas_inv l g q as_ i _ w); [done..|by left|]. by case_if; apply Some_inj, taken_pair in E as [<- _].
  - taken E. eapply quiet_step; try done; [|by intros [|[|]]]. cbn. split_and!; try tauto.
    rewrite (inv_this _ _ _ _ Hinv) by tauto. apply make_id_version. lia.
  - apply Some_inj in E. destruct (release_step l g q as_ i _ Hinv Hb Hi id eq_refl) as (a2 & E2 & H). rewrite E in E2. by apply taken_pair in E2 as [-> ->].
  - destruct Hok as (-> & Hal & ->). destruct (_version_of_vref vref =? g) eqn:Ev; cbn [negb] in E.
    + zbool. case_if_in E; taken E; zbool; [by eapply mark_step|]. by eapply quiet_step; [done..|intros [|[|]]].
    + taken E. by eapply quiet_step; [done..|intros [|[|]]].
  - taken E. by eapply marked_step.
  - apply Some_inj in E. destruct (stop_release_step l g q as_ i _ Hinv Hb Hi id eq_refl) as (q2 & E2 & H). rewrite E in E2. by apply taken_pair in E2 as [-> ->].
  - destruct Hok as (w & Hz). pose proof Hz as (-> & Hodd & Hw). taken E. rewrite packed_version by lia. by eapply deref_read_step.
  - destruct Hok as (-> & Hodd & Hw). assert (a' = Idle) as -> by (by case_if_in E; taken E).
    rewrite u32_small, make_packed in E by lia.
    eapply (cas_inv l g q as_ i _ (idv + 1)); [done..| |].
    + right. right. f_equal. lia.
    + replace (idv + 1 - 1) with idv by lia. replace (idv + 1 + 1) with (idv + 2) by lia. by case_if; apply Some_inj, taken_pair in E as [<- _].
  - taken E. by eapply quiet_step; [done..|intros [|[|]]].
Qed.
Lemma s32_add x y : s32 (s32 x + y) = s32 (x + y).
Proof.
  unfold s32. f_equal. replace ((x + 2147483648) mod 4294967296 - 2147483648 + y + 2147483648) with ((x + 2147483648) mod 4294967296 + y) by lia.
  rewrite Z.add_mod_idemp_l by done. f_equal. lia.
Qed.

Lemma destroy_inv l g q as_ : inv l g q as_ -> bounded q as_ -> forall r, destroy q = Some r ->
  exists q', r = Ok q' /\ inv LPooled g q' as_.
Proof using Hslot.
  intros Hinv Hb r. pose proof (inv_bounds l g q as_ Hinv Hb) as (Hg & _ & _ & _). unfold destroy. pose proof Hinv as [].
  rewrite inv_task0. destruct l; try done. rewrite inv_stopped0. intros [= <-]. eexists. split; [reflexivity|].
  split; cbn [_versioned_ref _this_id _stopped _join_butex pooled stop_task issued recycled]; try done.
  - rewrite inv_butex0, s32_add. f_equal. lia.
  - intros i a Hi. specialize (inv_actors0 i a Hi).
    destruct a as [| | | | | | | | |[]|[]|[]| |]; first [exact inv_actors0 | cbn in inv_actors0; intuition congruence].
Qed.

Lemma execq_step_inv l g q as_ q' as' :
  inv l g q as_ -> bounded q as_ -> step slot (q, as_) (q', as') -> exists l' g', inv l' g' q' as'.
Proof using Hslot.
  intros Hinv Hb Hs. inversion Hs as [? ? i a c ? a' Hi Ha|? ? ? Hd]; subst.
  - by eapply act_inv.
  - destruct (destroy_inv l g q as' Hinv Hb _ Hd) as (q2 & [= <-] & H). eauto.
Qed.

Lemma issued_grows q as_ q' as' : step slot (q, as_) (q', as') -> zlen (issued q) <= zlen (issued q') /\ length as' = length as_.
Proof.
  intros Hs. inversion Hs as [? ? i a c ? a' Hi Ha|? ? ? Hd]; subst.
  - rewrite length_insert. split; [|done]. destruct a as [| | | | | | | | |[]|[]|[]| |], c; try done; cbn [act] in Ha.
    all: unfold deref, create, create_add, create_id, address, address_sub, address_cas, stop, stop_cas, deref_read, deref_cas in Ha; repeat case_if_in Ha; try done; apply Some_inj, taken_pair in Ha as [<- _]; cbn; try lia.
    rewrite zlen_cons. lia.
  - unfold destroy in Hd. repeat case_if_in Hd; try done. injection Hd as <-. done.
Qed.

Lemma start_ok n : inv LPooled 0 new_queue (replicate n Idle).
Proof.
  assert (Hz : forall m, total_refs (replicate m Idle) = 0) by (intros m; induction m as [|m IH]; [done|cbn; exact IH]).
  split; try done; cbn.
  - by rewrite Hz.
  - intros id H. by apply elem_of_nil in H.
  - split; [constructor|]. intros w H. by apply elem_of_nil in H.
  - intros i a [-> _]%lookup_replicate. done.
Qed.

Lemma reachable_inv n q as_ :
  rtc (step slot) (new_queue, replicate n Idle) (q, as_) -> bounded q as_ -> exists l g, inv l g q as_.
Proof using Hslot.
  set (P := fun s : ExecutionQueueBase * list actor => bounded s.1 s.2 -> exists l g, inv l g s.1 s.2).
  assert (H : forall s, rtc (step slot) (new_queue, replicate n Idle) s -> P s); [|exact (H (q, as_))].
  apply rtc_ind_r.
  - intros _. exists LPooled, 0. apply start_ok.
  - intros [q1 as1] [q2 as2] _ Hs IH [Ha Hi]. destruct (issued_grows _ _ _ _ Hs) as [Hg Hl]. cbn in *.
    assert (Hb1 : bounded q1 as1) by (split; [unfold zlen in *; lia|lia]). destruct (IH Hb1) as (l & g & Hinv). by eapply execq_step_inv.
Qed.
End invariant.

(** ** The theorems *)

(** Actors that are not in the middle of an operation. *)
Definition at_rest (a : actor) : bool := match a with Idle | Holding _ => true | _ => false end.

Lemma joined_iff slot l g q as_ w :
  0 <= slot < 4294967296 -> inv slot l g q as_ -> bounded q as_ -> 0 <= w <= g ->
  joined (make_id w slot) q = negb (w =? match l with LRecycled => g - 2 | _ => g end).
Proof.
  intros Hslot Hinv Hb Hw. pose proof (inv_bounds slot l g q as_ Hinv Hb) as (Hg & _ & _ & _).
  unfold joined. rewrite make_id_version, (inv_butex _ _ _ _ _ Hinv) by lia. f_equal.
  set (x := match l with LRecycled => g - 2 | _ => g end). assert (Hx : -2 <= x < 4294967280) by (subst x; destruct l; lia).
  destruct (Z.eqb_spec w x) as [->|Hne]; [apply Z.eqb_refl|]. apply Z.eqb_neq. unfold s32. dlia.
Qed.

(** The queues of all earlier versions have been recycled. *)
Lemma recycled_all slot l g q as_ w : inv slot l g q as_ -> 0 <= w < g -> Z.even w = true -> w ∈ recycled q.
Proof.
  intros Hinv Hw He. pose proof (inv_gen _ _ _ _ _ Hinv) as Hg. destruct (inv_recycled _ _ _ _ _ Hinv) as [Hnd Hall].
  set (evens := map (fun k => 2 * k) (seqZ 0 (zlen (recycled q)))).
  assert (Hin : forall x, 0 <= x < g -> Z.even x = true -> x ∈ evens).
  { intros x Hx [k ->]%Z.even_spec. apply list_elem_of_fmap. exists k. split; [done|]. apply elem_of_seqZ. lia. }
  assert (Hp : recycled q ≡ₚ evens).
  { apply submseteq_length_Permutation.
    - apply NoDup_submseteq; [done|]. intros x [? ?]%Hall. by apply Hin.
    - subst evens. rewrite length_map, length_seqZ. unfold zlen. lia. }
  rewrite Hp. by apply Hin.
Qed.

(** C18: any number of threads, fewer than 2^31 - 8, may create, address, stop and
    release the queue of a slot in any interleaving, as long as fewer than
    2^31 - 8 queues have been created in it (the 32-bit versions do not wrap).  In
    every state they reach, no [FLARE_CHECK] of the source has failed and none is
    about to, and nobody has found the count over-dereferenced; a thread that
    reports an invalid id (which does happen, see
    [dereference_reports_invalid_id]) has given up its reference and its queue has
    been recycled; a thread that has a reference obtained with an id has the queue
    of that id: its slot has not been recycled, nor given to another queue, nor
    returned to the pool, and a joiner is not released; no queue is recycled
    twice; and [join] returns only for queues that have been recycled. *)
Theorem execq_references_safe slot n q as_ :
  0 <= slot < 4294967296 -> rtc (step slot) (new_queue, replicate n Idle) (q, as_) -> bounded q as_ ->
  CheckFailed ∉ as_ /\ OverDereferenced ∉ as_ /\ destroy q <> Some Abort /\
  (forall keep ver, InvalidId keep ver ∈ as_ -> keep = None /\ ver - 1 ∈ recycled q) /\
  (forall id, Holding id ∈ as_ ->
     _this_id q = id /\ pooled q = false /\ stop_task q = false /\ _version_of_id id ∉ recycled q /\ joined id q = false) /\
  NoDup (recycled q) /\
  (forall id, id ∈ issued q -> joined id q = true -> _version_of_id id ∈ recycled q).
Proof.
  intros Hslot H Hb. destruct (reachable_inv slot Hslot n q as_ H Hb) as (l & g & Hinv).
  pose proof (inv_bounds slot l g q as_ Hinv Hb) as (Hg & _ & _ & _). split_and!.
  - intros [i Hi]%list_elem_of_lookup. exact (inv_actors _ _ _ _ _ Hinv i _ Hi).
  - intros [i Hi]%list_elem_of_lookup. exact (inv_actors _ _ _ _ _ Hinv i _ Hi).
  - intros Hd. destruct (destroy_inv slot Hslot l g q as_ Hinv Hb _ Hd) as (q' & [=] & _).
  - intros keep ver [i Hi]%list_elem_of_lookup. pose proof (inv_actors _ _ _ _ _ Hinv i _ Hi) as Hok.
    destruct keep; [done|]. destruct Hok as [Hodd Hv]. split; [done|]. apply (recycled_all slot l g q as_); [done|lia|].
    by rewrite Z.even_sub, <- Z.negb_odd, Hodd.
  - intros id [i Hi]%list_elem_of_lookup. destruct (inv_actors _ _ _ _ _ Hinv i _ Hi) as [-> Hal].
    pose proof (inv_pooled _ _ _ _ _ Hinv). pose proof (inv_task _ _ _ _ _ Hinv).
    rewrite make_id_version, (joined_iff slot l g q as_) by (done || lia). split_and!.
    + by apply (inv_this _ _ _ _ _ Hinv).
    + by destruct l.
    + by destruct l.
    + intros [? _]%(proj2 (inv_recycled _ _ _ _ _ Hinv)). lia.
    + destruct l; try done; by rewrite Z.eqb_refl.
  - apply (inv_recycled _ _ _ _ _ Hinv).
  - intros id Hid. destruct (inv_ids _ _ _ _ _ Hinv id Hid) as (w & -> & Hw & Hc).
    rewrite make_id_version, (joined_iff slot l g q as_) by (done || lia). intros Hj.
    destruct Hc as [[-> Hal]|]; [|done]. destruct l; try done; by rewrite Z.eqb_refl in Hj.
Qed.

(** C37: no queue is left behind.  Every operation in progress can go on, and
    when all threads are done, none of them with a reference, every queue that
    was created has been recycled, except the one that nobody has stopped,
    which has its first reference only. *)
Theorem execq_recycled slot n q as_ :
  0 <= slot < 4294967296 -> rtc (step slot) (new_queue, replicate n Idle) (q, as_) -> bounded q as_ ->
  (forall a, a ∈ as_ -> at_rest a = false -> act slot Go q a <> None) /\
  ((forall a, a ∈ as_ -> a = Idle) -> forall id, id ∈ issued q ->
     _version_of_id id ∈ recycled q \/ _this_id q = id /\ _versioned_ref q = _make_vref (_version_of_id id) 1).
Proof.
  intros Hslot H Hb. destruct (reachable_inv slot Hslot n q as_ H Hb) as (l & g & Hinv).
  pose proof (inv_bounds slot l g q as_ Hinv Hb) as (Hg & _ & _ & _). split.
  - intros a [i Hi]%list_elem_of_lookup. pose proof (inv_actors _ _ _ _ _ Hinv i a Hi) as Hok.
    destruct a as [| |v|v|vref|id|id idv vref|id|id|[k|] vref|[k|] vref idv|[k|] ver| |]; try done; cbn [act]; intros _; repeat case_if; done.
  - intros Hidle id Hid. destruct (inv_ids _ _ _ _ _ Hinv id Hid) as (w & -> & Hw & Hc). rewrite make_id_version by lia.
    destruct Hc as [[-> Hal]|]; [right|by left].
    assert (Hz : total_refs as_ = 0).
    { clear -Hidle. induction as_ as [|a as_ IH]; [done|]. rewrite total_refs_cons, (Hidle a), IH; [done| |by left].
      intros b Hb. apply Hidle. by right. }
    assert (Hno : forall j b, as_ !! j = Some b -> b = Idle) by (intros j b Hj; apply Hidle, list_elem_of_lookup; eauto).
    split; [by apply (inv_this _ _ _ _ _ Hinv)|]. rewrite make_packed by lia. rewrite (inv_vref _ _ _ _ _ Hinv), Hz.
    pose proof (inv_owner _ _ _ _ _ Hinv) as Ho. destruct l as [|j|j| |j|j| |]; try done; try (by apply Hno in Ho).
    destruct (inv_progress _ _ _ _ _ Hinv eq_refl Hz) as (j & b & Hj%Hno & Hw'). subst b. by destruct Hw' as [|[|]].
Qed.

(** ** Schedules *)

(** Actor [i] takes a step, or the last task is executed. *)
Fixpoint run (slot : Z) (sched : list (option (nat * command))) (s : ExecutionQueueBase * list actor) : option (ExecutionQueueBase * list actor) :=
  match sched with
  | [] => Some s
  | Some (i, c) :: sched =>
      match s.2 !! i with
      | Some a => match act slot c s.1 a with Some (q, a') => run slot sched (q, <[i := a']> s.2) | None => None end
      | None => None
      end
  | None :: sched => match destroy s.1 with Some (Ok q) => run slot sched (q, s.2) | _ => None end
  end.

Lemma run_steps slot sched : forall s s', run slot sched s = Some s' -> rtc (step slot) s s'.
Proof.
  induction sched as [|[[i c]|] sched IH]; intros [q as_] s' E; cbn in E.
  - injection E as <-. constructor.
  - destruct (as_ !! i) as [a|] eqn:Ei; [|done]. destruct (act slot c q a) as [[q' a']|] eqn:Ea; [|done].
    eapply rtc_l; [by eapply step_actor|by apply IH].
  - destruct (destroy q) as [[q'| |]|] eqn:Ed; try done. eapply rtc_l; [by apply step_destroy|by apply IH].
Qed.

Definition id_of (version : Z) : Z := make_id version 7.

(** One thread creates a queue, a second stops it and drops its reference; it
    is about to look at the id when a third one, with the old id, recycles the
    queue, and the slot gets a new queue. *)
Definition race : list (option (nat * command)) :=
  [Some (0, Create); Some (0, Go); Some (0, Go); Some (1, Address (id_of 0)); Some (1, Stop); Some (1, Go); Some (1, Go); Some (1, Go);
   Some (1, Release); Some (2, Address (id_of 0)); Some (2, Go); Some (2, Go); None; Some (0, Create); Some (0, Go); Some (0, Go)]%nat.

Lemma execq_references_safe_witness :
  exists q as_, rtc (step 7) (new_queue, replicate 3 Idle) (q, as_) /\ Holding (id_of 2) ∈ as_ /\
    _this_id q = id_of 2 /\ pooled q = false /\ _version_of_id (id_of 2) ∉ recycled q /\ NoDup (recycled q).
Proof.
  assert (E : exists s, run 7 (race ++ [Some (2%nat, Address (id_of 2))]) (new_queue, replicate 3 Idle) = Some s) by (eexists; vm_compute; reflexivity).
  destruct E as [[q as_] E]. exists q, as_. pose proof (run_steps _ _ _ _ E) as H. vm_compute in E.
  assert (Hin : Holding (id_of 2) ∈ as_) by (injection E as <- <-; apply list_elem_of_lookup; by exists 2%nat).
  assert (Hb : bounded q as_) by (injection E as <- <-; split; vm_compute; reflexivity).
  destruct (execq_references_safe 7 3 q as_ ltac:(lia) H Hb) as (_ & _ & _ & _ & Hh & Hnd & _).
  destruct (Hh _ Hin) as (? & ? & _ & ? & _). by split_and!.
Defined.

Lemma execq_recycled_witness :
  exists q as_, rtc (step 7) (new_queue, replicate 3 Idle) (q, as_) /\ (forall a, a ∈ as_ -> a = Idle) /\
    id_of 0 ∈ issued q /\ id_of 2 ∈ issued q /\
    forall id, id ∈ issued q -> _version_of_id id ∈ recycled q \/ _this_id q = id /\ _versioned_ref q = _make_vref (_version_of_id id) 1.
Proof.
  assert (E : exists s, run 7 (race ++ [Some (1%nat, Go); Some (1%nat, Go)]) (new_queue, replicate 3 Idle) = Some s) by (eexists; vm_compute; reflexivity).
  destruct E as [[q as_] E]. exists q, as_. pose proof (run_steps _ _ _ _ E) as H. vm_compute in E.
  assert (Hidle : forall a, a ∈ as_ -> a = Idle).
  { injection E as <- <-. intros a [i Hi]%list_elem_of_lookup. destruct i as [|[|[|]]]; vm_compute in Hi; congruence. }
  assert (Hb : bounded q as_) by (injection E as <- <-; split; vm_compute; reflexivity).
  split_and!; [exact H|exact Hidle|injection E as <- <-; right; left|injection E as <- <-; left|].
  exact (proj2 (execq_recycled 7 3 q as_ ltac:(lia) H Hb) Hidle).
Defined.

(** In that race the second thread, which has done nothing wrong, logs the fatal
    error that the id is invalid: [_this_id] is read after the reference has
    been given up. *)
Lemma dereference_reports_invalid_id :
  exists q as_, run 7 (race ++ [Some (1%nat, Go)]) (new_queue, replicate 3 Idle) = Some (q, as_) /\ as_ !! 1%nat = Some (InvalidId None 1).
Proof. eexists _, _. split; vm_compute; reflexivity. Qed.
