(* ===== verification/ExecqTasks.v ===== *)
(** * [flare/fiber/internal/execution_queue]: the tasks of a queue

    Producers push nodes with one exchange of [_head] and link them to their
    predecessor afterwards; who finds the queue empty becomes the consumer, or
    starts one.  The consumer owns a list of nodes in order, runs the callback
    of the user over it with an iterator, and takes what was pushed meanwhile by
    turning the links around, waiting for those that are not set yet.  Tasks of
    high priority overtake the others, tasks may be cancelled, and the stop task
    comes last.

    Each access to a field that threads share is one step of its actor, and any
    number of actors interleave.  Accesses are sequentially consistent.  Nodes
    come from an object pool and are used again. *)

From S2P Require Import Prelude.
From stdpp Require Import gmap.
Local Open Scope Z_scope.

(** ** Nodes *)

Inductive TaskStatus := UNEXECUTED | EXECUTING | EXECUTED.

#[export] Instance TaskStatus_eq_dec : EqDecision TaskStatus.
Proof. solve_decision. Defined.

(** [TaskNode *]. *)
Inductive link := UNCONNECTED | NULL | Ptr (n : Z).

#[export] Instance link_eq_dec : EqDecision link.
Proof. solve_decision. Defined.

Record TaskNode := mk_node {
  version : Z;
  status : TaskStatus;
  stop_task : bool;
  iterated : bool;
  high_priority : bool;
  in_place : bool;
  next : link
}.

Definition set_status (s : TaskStatus) (d : TaskNode) : TaskNode := mk_node (version d) s (stop_task d) (iterated d) (high_priority d) (in_place d) (next d).
Definition set_iterated (s : TaskStatus) (d : TaskNode) : TaskNode := mk_node (version d) s (stop_task d) true (high_priority d) (in_place d) (next d).
Definition set_next (l : link) (d : TaskNode) : TaskNode := mk_node (version d) (status d) (stop_task d) (iterated d) (high_priority d) (in_place d) l.

(** A task: its node, the version of the node and its priority.  Node and version
    are the [TaskHandle]. *)
Definition task : Type := Z * Z * bool.

(** The queue and the nodes.  [used] are those not in the object pool; [closed]:
    the stop task has been allocated; [destroyed]: the queue has been given back.
    [issued] are the tasks of all calls of [execute], [pushed] those that reached
    [_head], in order, [ran] those given to the callback, in order, [cancelled]
    those for which [cancel] returned 0, and [stops] the calls with
    [is_queue_stopped]. *)
Record queue := mk_queue {
  _head : option Z;
  _high_priority_tasks : Z;
  nodes : gmap Z TaskNode;
  used : gset Z;
  closed : bool;
  destroyed : bool;
  issued : list task;
  pushed : list task;
  ran : list task;
  cancelled : list task;
  stops : Z
}.

Definition empty_queue : queue := mk_queue None 0 ∅ ∅ false false [] [] [] [] 0.

Definition set_head (h : option Z) (q : queue) : queue :=
  mk_queue h (_high_priority_tasks q) (nodes q) (used q) (closed q) (destroyed q) (issued q) (pushed q) (ran q) (cancelled q) (stops q).
Definition add_high (n : Z) (q : queue) : queue :=
  mk_queue (_head q) (_high_priority_tasks q + n) (nodes q) (used q) (closed q) (destroyed q) (issued q) (pushed q) (ran q) (cancelled q) (stops q).
Definition set_node (n : Z) (d : TaskNode) (q : queue) : queue :=
  mk_queue (_head q) (_high_priority_tasks q) (<[n := d]> (nodes q)) (used q) (closed q) (destroyed q) (issued q) (pushed q) (ran q) (cancelled q) (stops q).
Definition log_ran (t : task) (q : queue) : queue :=
  mk_queue (_head q) (_high_priority_tasks q) (nodes q) (used q) (closed q) (destroyed q) (issued q) (pushed q) (ran q ++ [t]) (cancelled q) (stops q).
Definition log_pushed (t : task) (q : queue) : queue :=
  mk_queue (_head q) (_high_priority_tasks q) (nodes q) (used q) (closed q) (destroyed q) (issued q) (pushed q ++ [t]) (ran q) (cancelled q) (stops q).
Definition log_cancelled (t : task) (q : queue) : queue :=
  mk_queue (_head q) (_high_priority_tasks q) (nodes q) (used q) (closed q) (destroyed q) (issued q) (pushed q) (ran q) (t :: cancelled q) (stops q).
Definition log_stop (q : queue) : queue :=
  mk_queue (_head q) (_high_priority_tasks q) (nodes q) (used q) (closed q) (destroyed q) (issued q) (pushed q) (ran q) (cancelled q) (stops q + 1).

Definition task_of (n : Z) (d : TaskNode) : task := (n, version d, high_priority d).

(** ** The actors *)

(** [TaskIteratorBase]; [_head] is that of the consumer until the destructor. *)
Record TaskIterator := mk_iter { _cur_node : option Z; _high_priority : bool; _should_break : bool; _num_iterated : Z }.

(** Where a consumer is: in [_execute_tasks], or in [start_execute] when it runs
    in place. *)
Inductive position :=
| Top                                   (* [for (;;)] *)
| Load                                  (* before the load of [_high_priority_tasks] *)
| Exec (high : bool)                    (* [_execute] *)
| Inc (it : TaskIterator)               (* [operator++] *)
| Scan (it : TaskIterator)              (* its loop *)
| User (it : TaskIterator)              (* in the callback *)
| Dtor (h : option Z) (it : TaskIterator) (* [~TaskIteratorBase] *)
| Sub (n : Z)                           (* [_high_priority_tasks.fetch_sub] *)
| Release                               (* returns the nodes at the front *)
| Tail (t : Z)                          (* looks for [cur_tail] *)
| More                                  (* [_more_tasks] *)
| Reverse (old p : Z) (tail : link) (new_tail : Z).  (* its loop *)

Record consumer := mk_consumer { head : Z; cur_tail : option Z; inplace : bool; destroy_queue : bool }.

Inductive actor :=
| Idle
| Counting (n : Z)                      (* [start_execute]: before [fetch_add] *)
| Pushing (n : Z)                       (* before the exchange *)
| Linking (n prev : Z)                  (* before [node->next = prev_head] *)
| Consuming (c : consumer) (p : position)
| Returning (c : consumer)              (* [_more_tasks] returned false *)
| Finishing (destroy : bool).           (* after the loop of [_execute_tasks] *)

Inductive command := Execute (n : Z) (high in_place : bool) | Recycle (n : Z) | Cancel (t : task) | Next | Return | Go.

(** The queue, the actor and those that were started. *)
Definition result : Type := outcome (queue * actor * list actor).

(** ** The operations *)

Definition node_at (n : Z) (q : queue) : outcome TaskNode := deref (nodes q !! n).

(** A pointer that is followed. *)
Definition as_node (l : link) : outcome (option Z) :=
  match l with UNCONNECTED => Undefined | NULL => Ok None | Ptr n => Ok (Some n) end.

Definition is_null (l : link) : bool := match l with NULL => true | _ => false end.
Definition unexecuted (d : TaskNode) : bool := match status d with UNEXECUTED => true | _ => false end.

(** [allocate_node] and the fields that [execute] and [start_execute] set before
    others see the node. *)
Definition allocate (n : Z) (stop high inpl : bool) (q : queue) : queue :=
  let v := match nodes q !! n with Some d => version d | None => 0 end in
  mk_queue (_head q) (_high_priority_tasks q) (<[n := mk_node v UNEXECUTED stop false high inpl UNCONNECTED]> (nodes q)) ({[n]} ∪ used q)
    (closed q || stop) (destroyed q) (if stop then issued q else (n, v, high) :: issued q) (pushed q) (ran q) (cancelled q) (stops q).

Definition execute (n : Z) (high inpl : bool) (q : queue) : result :=
  Ok (allocate n false high inpl q, if high then Counting n else Pushing n, []).

(** [_on_recycle]. *)
Definition on_recycle (n : Z) (q : queue) : result := Ok (allocate n true false false q, Pushing n, []).

(** [TaskNode::clear_before_return] and [return_object]. *)
Definition return_task_node (n : Z) (q : queue) : outcome queue :=
  d ← node_at n q;
  _ ← check (stop_task d || iterated d);
  _ ← check (negb (unexecuted d));
  Ok (mk_queue (_head q) (_high_priority_tasks q) (<[n := mk_node (version d + 1) UNEXECUTED (stop_task d) (iterated d) (high_priority d) (in_place d) (next d)]> (nodes q))
        (used q ∖ {[n]}) (closed q) (destroyed q) (issued q) (pushed q) (ran q) (cancelled q) (stops q)).

(** [execute], when no memory can be had for the task: the node is returned. *)
Definition execute_out_of_memory (n : Z) (q : queue) : outcome queue := return_task_node n q.

(** [TaskNode::cancel]. *)
Definition cancel (t : task) (q : queue) : outcome (Z * queue) :=
  let '(n, v, _) := t in
  d ← node_at n q;
  if negb (version d =? v) then Ok (-1, q)
  else match status d with
       | UNEXECUTED => Ok (0, log_cancelled t (set_node n (set_status EXECUTED d) q))
       | EXECUTED => Ok (-1, q)
       | EXECUTING => Ok (1, q)
       end.

(** [start_execute]: a new consumer. *)
Definition start_fiber (n : Z) : actor := Consuming (mk_consumer n None false false) Top.

(** The exchange of [start_execute].  Who finds no other node has the right to
    execute. *)
Definition push (n : Z) (q : queue) : result :=
  d ← node_at n q;
  let q1 := set_head (Some n) (if stop_task d then q else log_pushed (task_of n d) q) in
  match _head q with
  | Some prev => Ok (q1, Linking n prev, [])
  | None =>
      let q1 := set_node n (set_next NULL d) q1 in
      if in_place d then Ok (q1, Consuming (mk_consumer n (Some n) true false) (Exec (high_priority d)), [])
      else Ok (q1, Idle, [start_fiber n])
  end.

Definition connect (n prev : Z) (q : queue) : result := d ← node_at n q; Ok (set_node n (set_next (Ptr prev) d) q, Idle, []).

(** [TaskIteratorBase::operator bool]. *)
Definition valid (it : TaskIterator) (q : queue) : outcome bool :=
  if _should_break it then Ok false
  else match _cur_node it with None => Ok false | Some n => d ← node_at n q; Ok (negb (stop_task d)) end.

(** [operator++], up to the check for tasks of high priority. *)
Definition increment (c : consumer) (it : TaskIterator) (q : queue) : result :=
  v ← valid it q;
  match _cur_node it with
  | Some n =>
      if negb v then Ok (q, Consuming c (User it), [])
      else
        d ← node_at n q;
        cur ← (if iterated d then as_node (next d) else Ok (Some n));
        if negb (_high_priority it) && (0 <? _high_priority_tasks q) then
          Ok (q, Consuming c (User (mk_iter cur (_high_priority it) true (_num_iterated it))), [])
        else Ok (q, Consuming c (Scan (mk_iter cur (_high_priority it) (_should_break it) (_num_iterated it))), [])
  | None => Ok (q, Consuming c (User it), [])
  end.

(** One turn of its loop. *)
Definition scan (c : consumer) (it : TaskIterator) (q : queue) : result :=
  match _cur_node it with
  | None => Ok (q, Consuming c (User it), [])
  | Some n =>
      d ← node_at n q;
      if stop_task d then Ok (q, Consuming c (User it), [])
      else if Bool.eqb (_high_priority it) (high_priority d) then
        if negb (iterated d) && unexecuted d then
          Ok (log_ran (task_of n d) (set_node n (set_iterated EXECUTING d) q),
              Consuming c (User (mk_iter (Some n) (_high_priority it) (_should_break it) (_num_iterated it + 1))), [])
        else
          cur ← as_node (next d);
          Ok (set_node n (set_iterated (status d) d) q,
              Consuming c (Scan (mk_iter cur (_high_priority it) (_should_break it) (_num_iterated it + (if iterated d then 0 else 1)))), [])
      else cur ← as_node (next d); Ok (q, Consuming c (Scan (mk_iter cur (_high_priority it) (_should_break it) (_num_iterated it))), [])
  end.

(** After [_execute]: the counter, then the nodes that are done. *)
Definition after_execute (c : consumer) (high : bool) (n : Z) : actor :=
  if high then Consuming c (Sub n) else Consuming c (if inplace c then More else Release).

(** [_execute], up to the iterator. *)
Definition execute_list (c : consumer) (high : bool) (q : queue) : result :=
  d ← node_at (head c) q;
  if stop_task d then
    _ ← check (is_null (next d));
    Ok (log_stop (set_node (head c) (set_iterated EXECUTED d) q), after_execute (mk_consumer (head c) (cur_tail c) (inplace c) true) high 1, [])
  else Ok (q, Consuming c (Inc (mk_iter (Some (head c)) high false 0)), []).

(** One turn of the destructor, and its end. *)
Definition destruct_iterator (c : consumer) (h : option Z) (it : TaskIterator) (q : queue) : result :=
  if bool_decide (h = _cur_node it) then
    q ← (match _cur_node it with
         | Some n => if _should_break it then
                       d ← node_at n q;
                       Ok (if Bool.eqb (high_priority d) (_high_priority it) && iterated d then set_node n (set_status EXECUTED d) q else q)
                     else Ok q
         | None => Ok q
         end);
    Ok (q, after_execute c (_high_priority it) (_num_iterated it), [])
  else
    n ← deref h; d ← node_at n q;
    h ← as_node (next d);
    Ok (if iterated d && Bool.eqb (high_priority d) (_high_priority it) then set_node n (set_status EXECUTED d) q else q,
        Consuming c (Dtor h it), []).

(** The top of the loop of [_execute_tasks]. *)
Definition execute_tasks (c : consumer) (q : queue) : result :=
  d ← node_at (head c) q;
  if iterated d then
    match next d with
    | Ptr n => q ← return_task_node (head c) q; Ok (q, Consuming (mk_consumer n (cur_tail c) (inplace c) (destroy_queue c)) Load, [])
    | _ => Abort
    end
  else Ok (q, Consuming c Load, []).

(** One turn of [while (head->next != NULL && head->iterated)]. *)
Definition release (c : consumer) (q : queue) : result :=
  d ← node_at (head c) q;
  if negb (is_null (next d)) && iterated d then
    n ← as_node (next d); n ← deref n;
    q ← return_task_node (head c) q; Ok (q, Consuming (mk_consumer n (cur_tail c) (inplace c) (destroy_queue c)) Release, [])
  else Ok (q, Consuming c (match cur_tail c with None => Tail (head c) | Some _ => More end), []).

Definition find_tail (c : consumer) (t : Z) (q : queue) : result :=
  d ← node_at t q;
  n ← as_node (next d);
  match n with
  | Some n => Ok (q, Consuming c (Tail n), [])
  | None => Ok (q, Consuming (mk_consumer (head c) (Some t) (inplace c) (destroy_queue c)) More, [])
  end.

(** [_more_tasks] returns true. *)
Definition go_on (c : consumer) (q : queue) : result :=
  if inplace c then Ok (q, Idle, [start_fiber (head c)]) else Ok (q, Consuming c Top, []).

(** It has returned false. *)
Definition no_more (c : consumer) (q : queue) : result :=
  if inplace c then q ← return_task_node (head c) q; Ok (q, Idle, [])
  else
    _ ← check (bool_decide (cur_tail c = Some (head c)));
    d ← node_at (head c) q;
    _ ← check (iterated d);
    q ← return_task_node (head c) q; Ok (q, Finishing (destroy_queue c), []).

(** The compare-and-swap of [_more_tasks]. *)
Definition more_tasks (c : consumer) (q : queue) : result :=
  old_head ← deref (cur_tail c);
  d ← node_at old_head q;
  _ ← check (is_null (next d));
  dh ← node_at (head c) q;
  let has_uniterated := negb (iterated dh) in
  if bool_decide (_head q = Some old_head) then
    if has_uniterated then go_on c (set_head (Some old_head) q) else Ok (set_head None q, Returning c, [])
  else
    new_head ← deref (_head q);
    Ok (q, Consuming c (Reverse old_head new_head NULL new_head), []).

(** One turn of its loop; [None]: [p] is not connected. *)
Definition reverse (c : consumer) (old p : Z) (tail : link) (new_tail : Z) (q : queue) : option result :=
  match nodes q !! p with
  | None => Some Undefined
  | Some d =>
      match next d with
      | UNCONNECTED => None
      | NULL => Some Abort
      | Ptr saved_next =>
          let q := set_node p (set_next tail d) q in
          Some (if saved_next =? old then
                  d_old ← node_at old q;
                  go_on (mk_consumer (head c) (Some new_tail) (inplace c) (destroy_queue c)) (set_node old (set_next (Ptr p) d_old) q)
                else Ok (q, Consuming c (Reverse old saved_next (Ptr p) new_tail), []))
      end
  end.

(** After the loop of [_execute_tasks]. *)
Definition finish (destroy : bool) (q : queue) : result :=
  if destroy then
    _ ← check (bool_decide (_head q = None));
    Ok (mk_queue (_head q) (_high_priority_tasks q) (nodes q) (used q) (closed q) true (issued q) (pushed q) (ran q) (cancelled q) (stops q), Idle, [])
  else Ok (q, Idle, []).

Definition consume (c : consumer) (p : position) (cmd : command) (q : queue) : option result :=
  match p, cmd with
  | Top, Go => Some (execute_tasks c q)
  | Load, Go => Some (Ok (q, Consuming c (Exec (0 <? _high_priority_tasks q)), []))
  | Exec high, Go => Some (execute_list c high q)
  | Inc it, Go => Some (increment c it q)
  | Scan it, Go => Some (scan c it q)
  | User it, Next => match valid it q with Ok true => Some (Ok (q, Consuming c (Inc it), [])) | _ => None end
  | User it, Return => Some (Ok (q, Consuming c (Dtor (Some (head c)) it), []))
  | Dtor h it, Go => Some (destruct_iterator c h it q)
  | Sub n, Go => Some (Ok (add_high (- n) q, Consuming c (if inplace c then More else Release), []))
  | Release, Go => Some (release c q)
  | Tail t, Go => Some (find_tail c t q)
  | More, Go => Some (more_tasks c q)
  | Reverse old p tail new_tail, Go => reverse c old p tail new_tail q
  | _, _ => None
  end.

(** An actor that is in [execute], and has a reference of the queue. *)
Definition in_execute (a : actor) : bool :=
  match a with Counting _ | Pushing _ | Linking _ _ => true | Consuming c _ | Returning c => inplace c | _ => false end.

(** One step of an actor among others.  Nodes come out of the object pool;
    nothing is executed once the queue is recycled, which happens when no
    reference is left. *)
Definition act (cmd : command) (q : queue) (others : list actor) (a : actor) : option result :=
  match a, cmd with
  | Idle, Execute n high inpl => if closed q || bool_decide (n ∈ used q) then None else Some (execute n high inpl q)
  | Idle, Recycle n => if closed q || bool_decide (n ∈ used q) || existsb in_execute others then None else Some (on_recycle n q)
  | Idle, Cancel t => if bool_decide (t ∈ issued q) then Some ('(_, q) ← cancel t q; Ok (q, Idle, [])) else None
  | Counting n, Go => Some (Ok (add_high 1 q, Pushing n, []))
  | Pushing n, Go => Some (push n q)
  | Linking n prev, Go => Some (connect n prev q)
  | Consuming c p, _ => consume c p cmd q
  | Returning c, Go => Some (no_more c q)
  | Finishing destroy, Go => Some (finish destroy q)
  | _, _ => None
  end.

Inductive step : queue * list actor -> queue * list actor -> Prop :=
| step_actor q as_ i a cmd q' a' new :
    as_ !! i = Some a -> act cmd q as_ a = Some (Ok (q', a', new)) -> step (q, as_) (q', <[i := a']> as_ ++ new).

Definition reachable (n : nat) : queue * list actor -> Prop := rtc step (empty_queue, replicate n Idle).

(** ** The shape of the list *)

Definition own (a : actor) : option Z := match a with Counting n | Pushing n => Some n | Returning c => Some (head c) | _ => None end.
Definition lnk (a : actor) : option (Z * Z) := match a with Linking n p => Some (n, p) | _ => None end.
Definition con (a : actor) : option (consumer * position) := match a with Consuming c p => Some (c, p) | _ => None end.

(** The link of the node at [i], turned around already. *)
Definition fwd (Q : list Z) (K M i : nat) : link :=
  if decide (S i = K \/ S i = M) then NULL else match Q !! S i with Some n => Ptr n | None => NULL end.

(** [Q] are the nodes in the order of their exchanges, [K] of them those of the
    consumer; of those up to [M] that it has taken, the ones from [LO] on have been
    turned around.  [OW] are nodes of single actors, [LK] the links that are not
    set yet. *)
Record shape (nx : gmap Z link) (us : gset Z) (hd : option Z) (Q : list Z) (K LO M : nat) (OW : list Z) (LK : list (Z * Z)) : Prop := {
  sh_nodup : NoDup (Q ++ OW);
  sh_used n : n ∈ us <-> n ∈ Q ++ OW;
  sh_dom n : n ∈ us -> is_Some (nx !! n);
  sh_bounds : (K <= LO /\ LO <= M /\ M <= length Q)%nat;
  sh_pos : Q <> [] -> (1 <= K)%nat;
  sh_head : hd = last Q;
  sh_fwd i n : Q !! i = Some n -> (i < K \/ LO <= i < M)%nat -> nx !! n = Some (fwd Q K M i);
  sh_back i n : Q !! S i = Some n -> (K <= S i)%nat -> ~ (LO <= S i < M)%nat ->
    exists p, Q !! i = Some p /\ (nx !! n = Some (Ptr p) \/ nx !! n = Some UNCONNECTED /\ (n, p) ∈ LK);
  sh_link n p : (n, p) ∈ LK ->
    exists i, Q !! i = Some p /\ Q !! S i = Some n /\ (K <= S i)%nat /\ ~ (LO <= S i < M)%nat /\ nx !! n = Some UNCONNECTED;
  sh_lk : NoDup LK
}.

Lemma shape_nodup_q nx us hd Q K LO M OW LK : shape nx us hd Q K LO M OW LK -> NoDup Q.
Proof. intros H. apply sh_nodup in H. by apply NoDup_app in H as [? _]. Qed.

Lemma index_unique (Q : list Z) i j n : NoDup Q -> Q !! i = Some n -> Q !! j = Some n -> i = j.
Proof. intros H Hi Hj. by eapply NoDup_lookup. Qed.

Lemma shape_alloc nx us hd Q K LO M OW LK n :
  shape nx us hd Q K LO M OW LK -> n ∉ us -> shape (<[n := UNCONNECTED]> nx) ({[n]} ∪ us) hd Q K LO M (n :: OW) LK.
Proof.
  intros H Hn. assert (Hq : forall i x, Q !! i = Some x -> x <> n).
  { intros i x Hx ->. apply Hn, (sh_used _ _ _ _ _ _ _ _ _ H), elem_of_app. left. by eapply list_elem_of_lookup_2. }
  destruct H as [Hnd Hus Hdom Hb Hp Hh Hf Hbk Hl Hlk]. split; try done.
  - rewrite <- Permutation_middle. apply NoDup_cons. split; [by rewrite <- Hus|done].
  - intros x. rewrite elem_of_union, elem_of_singleton, <- Permutation_middle, elem_of_cons, Hus. done.
  - intros x [->%elem_of_singleton|Hx]%elem_of_union; [rewrite lookup_insert_eq; eauto|]. destruct (decide (x = n)) as [->|]; [rewrite lookup_insert_eq; eauto|].
    rewrite lookup_insert_ne by done. by apply Hdom.
  - intros i x Hx Hi. rewrite lookup_insert_ne by (apply not_eq_sym; by eapply Hq). by apply Hf.
  - intros i x Hx Hi Hni. rewrite lookup_insert_ne by (apply not_eq_sym; by eapply Hq). by apply Hbk.
  - intros x p Hx. destruct (Hl x p Hx) as (i & Hip & Hin & HK & HM & Hu). exists i. rewrite lookup_insert_ne by (apply not_eq_sym; by eapply Hq). done.
Qed.

(** A node that is returned to the pool. *)
Lemma shape_return nx us hd Q K LO M n OW LK l :
  shape nx us hd Q K LO M (n :: OW) LK -> shape (<[n := l]> nx) (us ∖ {[n]}) hd Q K LO M OW LK.
Proof.
  intros H. assert (Hnd' : (n ∉ Q ++ OW) /\ NoDup (Q ++ OW)) by (pose proof (sh_nodup _ _ _ _ _ _ _ _ _ H) as Hnd; rewrite <- Permutation_middle in Hnd; by apply NoDup_cons in Hnd).
  destruct Hnd' as [Hn Hnd']. assert (Hq : forall i x, Q !! i = Some x -> n <> x).
  { intros i x Hx ->. apply Hn, elem_of_app. left. by eapply list_elem_of_lookup_2. }
  destruct H as [Hnd Hus Hdom Hb Hp Hh Hf Hbk Hl Hlk]. split; try done.
  - intros x. rewrite elem_of_difference, elem_of_singleton, Hus, <- Permutation_middle, elem_of_cons. split; [intuition|].
    intros Hx. split; [by right|]. intros ->. done.
  - intros x [Hx Hne]%elem_of_difference. rewrite lookup_insert_ne by set_solver. by apply Hdom.
  - intros i x Hx Hi. rewrite lookup_insert_ne by (by eapply Hq). by apply Hf.
  - intros i x Hx Hi Hni. rewrite lookup_insert_ne by (by eapply Hq). by apply Hbk.
  - intros x p Hx. destruct (Hl x p Hx) as (i & Hip & Hin & HK & HM & Hu). exists i. rewrite lookup_insert_ne by (by eapply Hq). done.
Qed.

(** The exchange, on an empty queue and on another one. *)
Lemma shape_push_first nx us hd K LO M n OW LK :
  shape nx us hd [] K LO M (n :: OW) LK -> shape (<[n := NULL]> nx) us (Some n) [n] 1 1 1 OW LK.
Proof.
  intros [Hnd Hus Hdom Hb Hp Hh Hf Hbk Hl Hlk]. split; try done.
  - intros x Hx. destruct (decide (x = n)) as [->|]; [rewrite lookup_insert_eq; eauto|]. rewrite lookup_insert_ne by done. by apply Hdom.
  - intros [|i] x; [|done]. intros [= ->] _. rewrite lookup_insert_eq. unfold fwd. rewrite decide_True; [done|by left].
  - intros x p Hx. destruct (Hl x p Hx) as (i & Hip & _). by rewrite lookup_nil in Hip.
Qed.

Lemma fwd_app Q n K M i : (S i <= K \/ S i <= M)%nat -> (K <= length Q)%nat -> (M <= length Q)%nat -> fwd (Q ++ [n]) K M i = fwd Q K M i.
Proof.
  intros Hi HK HM. unfold fwd. destruct (decide _) as [|Hne]; [done|]. rewrite lookup_app_l by lia. done.
Qed.

Lemma shape_push nx us hd Q K LO M n OW LK prev :
  shape nx us hd Q K LO M (n :: OW) LK -> nx !! n = Some UNCONNECTED -> last Q = Some prev ->
  shape nx us (Some n) (Q ++ [n]) K LO M OW ((n, prev) :: LK).
Proof.
  intros H Hun Hlast. pose proof H as [Hnd Hus Hdom Hb Hp Hh Hf Hbk Hl Hlk]. rewrite last_lookup in Hlast.
  assert (Hne : Q <> []) by (by intros ->). assert (HQ : (1 <= length Q)%nat) by (destruct Q; [done|cbn; lia]). specialize (Hp Hne).
  assert (Hn : n ∉ Q) by (intros Hin; rewrite <- Permutation_middle in Hnd; apply NoDup_cons in Hnd as [Hx _]; apply Hx, elem_of_app; by left).
  split; try done.
  - by rewrite <- app_assoc.
  - intros x. by rewrite Hus, <- app_assoc.
  - rewrite length_app. lia.
  - by rewrite last_snoc.
  - intros i x Hx Hi. rewrite fwd_app by lia. apply Hf; [|done]. by rewrite lookup_app_l in Hx by lia.
  - intros i x Hx Hi Hni. rewrite lookup_app in Hx. destruct (Q !! S i) as [y|] eqn:E.
    + injection Hx as ->. destruct (Hbk i x E Hi Hni) as (p & Hp' & Hc). exists p. rewrite lookup_app_l by (apply lookup_lt_Some in Hp'; lia). split; [done|].
      destruct Hc as [|[? ?]]; [by left|right; split; [done|by right]].
    + apply lookup_ge_None in E. destruct (S i - length Q)%nat as [|k] eqn:Ek; [|done]. injection Hx as ->. exists prev. replace i with (pred (length Q)) by lia.
      rewrite lookup_app_l by lia. split; [done|]. right. split; [done|]. by left.
  - intros x p [[= -> ->]|Hx]%elem_of_cons.
    + exists (pred (length Q)). rewrite lookup_app_l, lookup_app_r by lia. replace (S (pred (length Q)) - length Q)%nat with 0%nat by lia. split_and!; [done..|lia|lia|done].
    + destruct (Hl x p Hx) as (i & Hip & Hin & HK & HM & Hu). exists i. rewrite !lookup_app_l by (apply lookup_lt_Some in Hin; lia). done.
  - apply NoDup_cons. split; [|done]. intros Hin. destruct (Hl _ _ Hin) as (i & _ & Hi & _). apply Hn. by eapply list_elem_of_lookup_2.
Qed.

(** The link that was missing. *)
Lemma shape_connect nx us hd Q K LO M OW LK n prev :
  shape nx us hd Q K LO M OW ((n, prev) :: LK) -> shape (<[n := Ptr prev]> nx) us hd Q K LO M OW LK.
Proof.
  intros H. pose proof (shape_nodup_q _ _ _ _ _ _ _ _ _ H) as HndQ. destruct (sh_link _ _ _ _ _ _ _ _ _ H n prev ltac:(by left)) as (j & Hjp & Hjn & HjK & HjM & Hju).
  pose proof H as [Hnd Hus Hdom Hb Hp Hh Hf Hbk Hl Hlk]. apply NoDup_cons in Hlk as [Hnew Hlk]. split; try done.
  - intros x Hx. destruct (decide (x = n)) as [->|]; [rewrite lookup_insert_eq; eauto|]. rewrite lookup_insert_ne by done. by apply Hdom.
  - intros i x Hx Hi. destruct (decide (n = x)) as [<-|]; [|rewrite lookup_insert_ne by done; by apply Hf].
    assert (i = S j) as -> by (by eapply (index_unique Q)). lia.
  - intros i x Hx Hi Hni. destruct (decide (n = x)) as [<-|Hne].
    + assert (S i = S j) as [= ->] by (by eapply (index_unique Q)). exists prev. split; [done|]. left. apply lookup_insert_eq.
    + destruct (Hbk i x Hx Hi Hni) as (p & Hip & Hc). exists p. rewrite lookup_insert_ne by done. split; [done|]. destruct Hc as [|[Hu [[= -> ->]|Hin]%elem_of_cons]]; [by left|done|by right].
  - intros x p Hx. destruct (Hl x p ltac:(by right)) as (i & Hip & Hin & HK & HM & Hu). exists i. split_and!; try done. rewrite lookup_insert_ne; [done|]. intros ->.
    assert (S i = S j) as [= ->] by (by eapply (index_unique Q)). assert (p = prev) as -> by congruence. done.
Qed.

(** The consumer has no list that is turned around. *)
Lemma shape_take nx us hd Q K OW LK : shape nx us hd Q K K K OW LK -> (K < length Q)%nat -> shape nx us hd Q K (length Q) (length Q) OW LK.
Proof.
  intros [Hnd Hus Hdom Hb Hp Hh Hf Hbk Hl Hlk] HK. split; try done.
  - lia.
  - intros i x Hx Hi. assert (Hi' : (i < K)%nat) by lia. rewrite (Hf i x Hx ltac:(by left)). f_equal. unfold fwd. destruct (decide (S i = K)) as [->|].
    + rewrite !decide_True by (by left). done.
    + rewrite !decide_False by lia. done.
  - intros i x Hx Hi Hni. apply Hbk; [done..|lia].
  - intros x p Hx. destruct (Hl x p Hx) as (i & Hip & Hin & HKi & HM & Hu). exists i. split_and!; try done. lia.
Qed.

(** One link is turned around. *)
Lemma shape_reverse nx us hd Q K LO M OW LK p saved :
  shape nx us hd Q K (S LO) M OW LK -> (K <= LO)%nat -> Q !! LO = Some p -> nx !! p = Some (Ptr saved) ->
  Q !! pred LO = Some saved /\ shape (<[p := fwd Q K M LO]> nx) us hd Q K LO M OW LK.
Proof.
  intros H HLO Hp Hs. pose proof (shape_nodup_q _ _ _ _ _ _ _ _ _ H) as HndQ. pose proof H as [Hnd Hus Hdom Hb Hpos Hh Hf Hbk Hl Hlk].
  assert (HK : (1 <= K)%nat) by (apply Hpos; intros ->; by rewrite lookup_nil in Hp). destruct LO as [|lo]; [lia|]. cbn [pred].
  destruct (Hbk lo p Hp ltac:(lia) ltac:(lia)) as (p' & Hp' & [E|[E _]]); rewrite Hs in E; [|done]. injection E as <-. split; [done|]. split; try done.
  - intros x Hx. destruct (decide (p = x)) as [<-|]; [rewrite lookup_insert_eq; eauto|]. rewrite lookup_insert_ne by done. by apply Hdom.
  - lia.
  - intros i x Hx Hi. destruct (decide (p = x)) as [<-|Hne].
    + assert (i = S lo) as -> by (by eapply (index_unique Q)). by rewrite lookup_insert_eq.
    + rewrite lookup_insert_ne by done. apply Hf; [done|]. assert (i <> S lo) by (intros ->; congruence). lia.
  - intros i x Hx Hi Hni. destruct (decide (p = x)) as [<-|Hne].
    + assert (S i = S lo) as [= ->] by (by eapply (index_unique Q)). lia.
    + rewrite lookup_insert_ne by done. apply Hbk; [done..|]. assert (S i <> S lo) by (intros [= ->]; congruence). lia.
  - intros x y Hx. destruct (Hl x y Hx) as (i & Hip & Hin & HKi & HM & Hu). exists i. assert (p <> x) by (intros ->; congruence). rewrite lookup_insert_ne by done.
    split_and!; try done. assert (S i <> S lo) by (intros [= ->]; congruence). lia.
Qed.

(** The list of the consumer and the one that was turned around. *)
Lemma shape_join nx us hd Q K M OW LK old p :
  shape nx us hd Q K K M OW LK -> (K < M)%nat -> Q !! pred K = Some old -> Q !! K = Some p -> shape (<[old := Ptr p]> nx) us hd Q M M M OW LK.
Proof.
  intros H HM Hold Hp. pose proof (shape_nodup_q _ _ _ _ _ _ _ _ _ H) as HndQ. pose proof H as [Hnd Hus Hdom Hb Hpos Hh Hf Hbk Hl Hlk].
  assert (HK : (1 <= K)%nat) by (apply Hpos; intros ->; by rewrite lookup_nil in Hp). split; try done.
  - intros x Hx. destruct (decide (old = x)) as [<-|]; [rewrite lookup_insert_eq; eauto|]. rewrite lookup_insert_ne by done. by apply Hdom.
  - lia.
  - intros _. lia.
  - intros i x Hx Hi. assert (HiM : (i < M)%nat) by lia. destruct (decide (old = x)) as [<-|Hne].
    + assert (i = pred K) as -> by (by eapply (index_unique Q)). rewrite lookup_insert_eq. unfold fwd. rewrite decide_False by lia. replace (S (pred K)) with K by lia. by rewrite Hp.
    + rewrite lookup_insert_ne by done. assert (i <> pred K) by (intros ->; congruence). rewrite (Hf i x Hx) by lia. f_equal. unfold fwd.
      destruct (decide (S i = M)) as [->|]; [rewrite !decide_True by (by right); done|]. rewrite !decide_False by lia. done.
  - intros i x Hx Hi Hni. rewrite lookup_insert_ne; [apply Hbk; [done|lia..]|]. intros ->. assert (S i = pred K) by (by eapply (index_unique Q)). lia.
  - intros x y Hx. destruct (Hl x y Hx) as (i & Hip & Hin & HKi & HMi & Hu). exists i. split_and!; try done; try lia. rewrite lookup_insert_ne; [done|]. intros ->.
    assert (S i = pred K) by (by eapply (index_unique Q)). lia.
Qed.

(** The first node goes: to its actor, or with the others left. *)
Lemma shape_pop nx us hd n Q K OW LK :
  shape nx us hd (n :: Q) (S K) (S K) (S K) OW LK -> (1 <= K)%nat \/ Q = [] -> shape nx us (last Q) Q K K K (n :: OW) LK.
Proof.
  intros H Hcase. pose proof H as [Hnd Hus Hdom Hb Hpos Hh Hf Hbk Hl Hlk]. cbn [length] in Hb. split; try done.
  - by rewrite <- Permutation_middle.
  - intros x. by rewrite Hus, <- Permutation_middle.
  - lia.
  - intros Hne. destruct Hcase; [lia|done].
  - intros i x Hx Hi. rewrite (Hf (S i) x Hx ltac:(lia)). f_equal. unfold fwd. destruct (decide (S i = K)) as [->|].
    + rewrite !decide_True by (by left). done.
    + rewrite !decide_False by lia. done.
  - intros i x Hx Hi Hni. destruct (Hbk (S i) x Hx ltac:(lia) ltac:(lia)) as (p & Hp & Hc). by exists p.
  - intros x y Hx. destruct (Hl x y Hx) as (i & Hip & Hin & HKi & HMi & Hu). destruct i as [|i]; [|exists i; split_and!; try done; lia].
    cbn in Hin. destruct Hcase as [?| ->]; [lia|done].
Qed.

(** ** The tasks *)

(** The fields of the nodes, apart: what a task is, and what changes. *)
Definition ids (m : gmap Z TaskNode) : gmap Z (Z * bool * bool) := (fun d => (version d, stop_task d, high_priority d)) <$> m.
Definition its (m : gmap Z TaskNode) : gmap Z bool := iterated <$> m.
Definition sts (m : gmap Z TaskNode) : gmap Z TaskStatus := status <$> m.
Definition nxt (m : gmap Z TaskNode) : gmap Z link := next <$> m.
Definition ips (m : gmap Z TaskNode) : gmap Z bool := in_place <$> m.

Lemma fmap_same {A B} (f : A -> B) (m : gmap Z A) n d d' : m !! n = Some d -> f d' = f d -> f <$> <[n := d']> m = f <$> m.
Proof. intros Hn E. rewrite fmap_insert, E. apply insert_id. by rewrite lookup_fmap, Hn. Qed.

Definition task_at (im : gmap Z (Z * bool * bool)) (n : Z) : option task :=
  match im !! n with Some (v, false, h) => Some (n, v, h) | _ => None end.
Definition iter_at (im : gmap Z (Z * bool * bool)) (tm : gmap Z bool) (n : Z) : option task :=
  match tm !! n with Some true => task_at im n | _ => None end.
Definition of_prio (b : bool) (ts : list task) : list task := filter (fun t : task => t.2 = b) ts.

(** Those of priority [b] that were not cancelled. *)
Definition kept (b : bool) (cs : list task) (ts : list task) : list task := filter (fun t : task => t.2 = b /\ t ∉ cs) ts.

(** [Ret] are the tasks whose nodes have been returned. *)
Record logs (im : gmap Z (Z * bool * bool)) (tm : gmap Z bool) (sm : gmap Z TaskStatus) (us : gset Z) (Q : list Z) (Ret iss psh rn cs : list task) : Prop := {
  lg_pushed : psh = Ret ++ omap (task_at im) Q;
  lg_ran b : of_prio b rn = kept b cs (Ret ++ omap (iter_at im tm) Q);
  lg_issued n v h : (n, v, h) ∈ iss -> exists v' s' h', im !! n = Some (v', s', h') /\ v <= v' /\ (v = v' -> n ∈ us /\ s' = false /\ h' = h);
  lg_ret n v h : (n, v, h) ∈ Ret -> exists v' s' h', im !! n = Some (v', s', h') /\ (v < v' \/ v = v' /\ n ∈ us /\ (n ∉ Q) /\ tm !! n = Some true);
  lg_cancelled t : t ∈ cs -> t ∈ iss;
  lg_nodup : NoDup psh;
  lg_status n v h : n ∈ us -> im !! n = Some (v, false, h) ->
    match tm !! n, sm !! n with
    | Some true, Some s => s <> UNEXECUTED
    | Some false, Some UNEXECUTED => ((n, v, h) ∉ cs)
    | Some false, Some EXECUTED => (n, v, h) ∈ cs
    | _, _ => False
    end;
  lg_stop n v h : n ∈ us -> im !! n = Some (v, true, h) -> tm !! n = Some true -> sm !! n <> Some UNEXECUTED
}.

(** Tasks of one priority are iterated in order, and only those of the consumer. *)
Record flags (im : gmap Z (Z * bool * bool)) (tm : gmap Z bool) (Q : list Z) (K : nat) : Prop := {
  fl_order i j n n' v v' s' h : (i < j)%nat -> Q !! i = Some n -> Q !! j = Some n' -> im !! n = Some (v, false, h) -> im !! n' = Some (v', s', h) ->
    tm !! n' = Some true -> tm !! n = Some true;
  fl_rest i n : Q !! i = Some n -> (K <= i)%nat -> tm !! n = Some false
}.

(** What the counter of tasks of high priority counts. *)
Definition waits (im : gmap Z (Z * bool * bool)) (tm : gmap Z bool) (n : Z) : Z :=
  match im !! n, tm !! n with Some (_, _, true), Some false => 1 | _, _ => 0 end.
Definition waiting (im : gmap Z (Z * bool * bool)) (tm : gmap Z bool) (Q : list Z) : Z := foldr (fun n z => waits im tm n + z) 0 Q.

Definition iter_weight (it : TaskIterator) : Z := if _high_priority it then _num_iterated it else 0.

Definition weight (im : gmap Z (Z * bool * bool)) (a : actor) : Z :=
  match a with
  | Pushing n => match im !! n with Some (_, _, true) => 1 | _ => 0 end
  | Consuming _ (Inc it) | Consuming _ (Scan it) | Consuming _ (User it) | Consuming _ (Dtor _ it) => iter_weight it
  | Consuming _ (Sub n) => n
  | _ => 0
  end.
Definition total (im : gmap Z (Z * bool * bool)) (as_ : list actor) : Z := foldr (fun a z => weight im a + z) 0 as_.

(** The nodes of single actors. *)
Definition actor_ok (im : gmap Z (Z * bool * bool)) (tm : gmap Z bool) (nx : gmap Z link) (pm : gmap Z bool) (a : actor) : Prop :=
  match a with
  | Counting n => (exists v, im !! n = Some (v, false, true)) /\ tm !! n = Some false /\ nx !! n = Some UNCONNECTED
  | Pushing n => (exists v s h, im !! n = Some (v, s, h) /\ (s = true -> h = false /\ pm !! n = Some false)) /\ tm !! n = Some false /\ nx !! n = Some UNCONNECTED
  | Returning c => (exists v h, im !! head c = Some (v, destroy_queue c, h)) /\ tm !! head c = Some true /\
      (if inplace c then destroy_queue c = false else cur_tail c = Some (head c))
  | _ => True
  end.

(** The position of an iterator. *)
Definition iter_ok (im : gmap Z (Z * bool * bool)) (tm : gmap Z bool) (Q : list Z) (K : nat) (it : TaskIterator) (x : nat) : Prop :=
  (x <= K)%nat /\ _cur_node it = take K Q !! x /\
  forall i n v, (i < x)%nat -> Q !! i = Some n -> im !! n = Some (v, false, _high_priority it) -> tm !! n = Some true.

Definition position_ok (im : gmap Z (Z * bool * bool)) (tm : gmap Z bool) (Q : list Z) (K LO M : nat) (c : consumer) (p : position) : Prop :=
  match p with
  | Reverse old p tail new_tail =>
      (K < LO)%nat /\ Q !! pred K = Some old /\ cur_tail c = Some old /\ Q !! pred LO = Some p /\ tail = fwd Q K M (pred LO) /\ Q !! pred M = Some new_tail /\
      (tm !! head c = Some true -> K = 1%nat)
  | _ =>
      LO = K /\ M = K /\
      match p with
      | Top => inplace c = false /\ (tm !! head c = Some true -> exists n, (2 <= K)%nat /\ Q !! 1%nat = Some n /\ tm !! n = Some false)
      | Load => inplace c = false /\ tm !! head c = Some false
      | Exec high => tm !! head c = Some false /\ (forall v h, im !! head c = Some (v, true, h) -> high = false)
      | Inc it | Scan it | User it => exists x, iter_ok im tm Q K it x
      | Dtor h it => exists x y, iter_ok im tm Q K it x /\ (y <= x)%nat /\ h = take K Q !! y
      | Release => inplace c = false
      | Tail t => inplace c = false /\ (exists y, (y < K)%nat /\ Q !! y = Some t) /\ (tm !! head c = Some true -> K = 1%nat)
      | More => cur_tail c <> None /\ (tm !! head c = Some true -> K = 1%nat)
      | _ => True
      end
  end.

Definition cons_ok (im : gmap Z (Z * bool * bool)) (tm : gmap Z bool) (Q : list Z) (K LO M : nat) (c : consumer) (p : position) : Prop :=
  Q !! 0%nat = Some (head c) /\
  (forall t, cur_tail c = Some t -> Q !! pred K = Some t) /\
  (inplace c = true -> K = 1%nat /\ cur_tail c = Some (head c) /\ exists v h, im !! head c = Some (v, false, h)) /\
  (destroy_queue c = true <-> tm !! head c = Some true /\ exists v h, im !! head c = Some (v, true, h)) /\
  position_ok im tm Q K LO M c p.

(** There is one consumer, unless the list is empty. *)
Definition consumer_ok (im : gmap Z (Z * bool * bool)) (tm : gmap Z bool) (Q : list Z) (K LO M : nat) (cs : list (consumer * position)) : Prop :=
  match cs with [] => Q = [] | [(c, p)] => cons_ok im tm Q K LO M c p | _ => False end.

(** The stop task. *)
Record stage (im : gmap Z (Z * bool * bool)) (tm : gmap Z bool) (us : gset Z) (Q : list Z) (as_ : list actor) (cl de : bool) (st : Z) : Prop := {
  sg_last i n v h : Q !! i = Some n -> im !! n = Some (v, true, h) -> S i = length Q;
  sg_low n v h : n ∈ us -> im !! n = Some (v, true, h) -> h = false;
  sg_open : cl = false -> st = 0 /\ de = false /\ (Finishing true ∉ as_) /\ forall n v h, n ∈ us -> im !! n <> Some (v, true, h);
  sg_exec a : cl = true -> a ∈ as_ -> in_execute a = true -> exists n v h, (a = Pushing n \/ exists p, a = Linking n p) /\ n ∈ us /\ im !! n = Some (v, true, h);
  sg_closed : cl = true ->
    (exists n v h (b : bool), n ∈ us /\ im !! n = Some (v, true, h) /\ tm !! n = Some b /\ st = (if b then 1 else 0) /\ de = false /\ (Finishing true ∉ as_) /\
       (forall n' v' h', n' ∈ us -> im !! n' = Some (v', true, h') -> n' = n) /\ (b = true -> forall x, x ∈ Q -> x = n)) \/
    ((forall n v h, n ∈ us -> im !! n <> Some (v, true, h)) /\ st = 1 /\ Q = [] /\ (de = true \/ Finishing true ∈ as_))
}.

Record ghost := mk_ghost { gQ : list Z; gK : nat; gLO : nat; gM : nat; gRet : list task }.

Record inv (g : ghost) (q : queue) (as_ : list actor) : Prop := {
  i_shape : shape (nxt (nodes q)) (used q) (_head q) (gQ g) (gK g) (gLO g) (gM g) (omap own as_) (omap lnk as_);
  i_logs : logs (ids (nodes q)) (its (nodes q)) (sts (nodes q)) (used q) (gQ g) (gRet g) (issued q) (pushed q) (ran q) (cancelled q);
  i_flags : flags (ids (nodes q)) (its (nodes q)) (gQ g) (gK g);
  i_actors : Forall (actor_ok (ids (nodes q)) (its (nodes q)) (nxt (nodes q)) (ips (nodes q))) as_;
  i_consumer : consumer_ok (ids (nodes q)) (its (nodes q)) (gQ g) (gK g) (gLO g) (gM g) (omap con as_);
  i_count : _high_priority_tasks q = total (ids (nodes q)) as_ + waiting (ids (nodes q)) (its (nodes q)) (gQ g);
  i_stage : stage (ids (nodes q)) (its (nodes q)) (used q) (gQ g) as_ (closed q) (destroyed q) (stops q)
}.

(** ** Actors in any order *)

Lemma shape_perm nx us hd Q K LO M OW LK OW' LK' : OW ≡ₚ OW' -> LK ≡ₚ LK' -> shape nx us hd Q K LO M OW LK -> shape nx us hd Q K LO M OW' LK'.
Proof.
  intros HO HL [Hnd Hus Hdom Hb Hp Hh Hf Hbk Hl Hlk]. split; try done.
  - by rewrite <- HO.
  - intros n. by rewrite <- HO.
  - intros i n Hi HK HM. destruct (Hbk i n Hi HK HM) as (p & Hp' & Hc). exists p. by rewrite <- HL.
  - intros n p. rewrite <- HL. apply Hl.
  - by rewrite <- HL.
Qed.

Lemma total_perm im as_ as' : as_ ≡ₚ as' -> total im as_ = total im as'.
Proof. induction 1; cbn [total foldr] in *; unfold total in *; lia. Qed.

Lemma total_cons im a r : total im (a :: r) = weight im a + total im r.
Proof. done. Qed.

Lemma weights_app im as_ as' : total im (as_ ++ as') = total im as_ + total im as'.
Proof. induction as_ as [|a as_ IH]; [done|]. rewrite <- app_comm_cons, !total_cons. lia. Qed.

Lemma waiting_cons im tm n Q : waiting im tm (n :: Q) = waits im tm n + waiting im tm Q.
Proof. done. Qed.

Lemma stage_perm im tm us Q as_ as' cl de st : as_ ≡ₚ as' -> stage im tm us Q as_ cl de st -> stage im tm us Q as' cl de st.
Proof.
  intros Hp. assert (Hin : forall a, a ∈ as' <-> a ∈ as_) by (intros a; by rewrite Hp). intros [Hl Hlow Ho He Hc]. split; try done.
  - intros Hcl. by rewrite Hin; apply Ho.
  - intros a Hcl Ha. apply He; [done|by apply Hin].
  - intros Hcl. destruct (Hc Hcl) as [(n & v & h & b & H1)|H2]; [left; exists n, v, h, b|right]; by rewrite Hin.
Qed.

Lemma inv_perm g q as_ as' : as_ ≡ₚ as' -> inv g q as_ -> inv g q as'.
Proof.
  intros Hp [Hs Hl Hf Ha Hc Hn Hst]. split; try done.
  - eapply shape_perm; [..|done]; by apply omap_Permutation.
  - by rewrite <- Hp.
  - pose proof (omap_Permutation con _ _ Hp) as Hcp. destruct (omap con as_) as [|[c p] [|]]; [|..|done].
    + apply Permutation_nil_l in Hcp. by rewrite <- Hcp.
    + apply Permutation_singleton_l in Hcp. by rewrite <- Hcp.
  - rewrite Hn. f_equal. by apply total_perm.
  - by eapply stage_perm.
Qed.

(** ** Maps that agree on the list *)

Lemma omap_eq {A B} (f g : A -> option B) (l : list A) : (forall x, x ∈ l -> f x = g x) -> omap f l = omap g l.
Proof.
  induction l as [|x l IH]; intros H; [done|]. cbn. rewrite (H x) by (by left). rewrite IH; [done|]. intros y Hy. apply H. by right.
Qed.

Lemma task_at_ne im n x n' : n <> n' -> task_at (<[n := x]> im) n' = task_at im n'.
Proof. intros. unfold task_at. by rewrite lookup_insert_ne. Qed.

Lemma iter_at_ne im tm n x y n' : n <> n' -> iter_at (<[n := x]> im) (<[n := y]> tm) n' = iter_at im tm n'.
Proof. intros. unfold iter_at. rewrite lookup_insert_ne by done. by rewrite task_at_ne. Qed.

Lemma waiting_eq im tm im' tm' Q : (forall n, n ∈ Q -> im' !! n = im !! n /\ tm' !! n = tm !! n) -> waiting im' tm' Q = waiting im tm Q.
Proof.
  induction Q as [|n Q IH]; intros H; [done|]. unfold waiting in *. cbn [foldr]. rewrite IH by (intros x Hx; apply H; by right).
  unfold waits. by destruct (H n ltac:(by left)) as [-> ->].
Qed.

Lemma waiting_app im tm Q Q' : waiting im tm (Q ++ Q') = waiting im tm Q + waiting im tm Q'.
Proof. induction Q as [|n Q IH]; [done|]. unfold waiting in *. cbn [app foldr]. lia. Qed.

(** The nodes that an actor pushes. *)
Lemma total_eq im im' as_ : (forall n, n ∈ omap own as_ -> im' !! n = im !! n) -> total im' as_ = total im as_.
Proof.
  induction as_ as [|a as_ IH]; intros H; [done|]. unfold total in *. cbn [foldr]. rewrite IH.
  - f_equal. destruct a; try done. cbn in H. unfold weight. by rewrite H by (by left).
  - intros n Hn. apply H. cbn. destruct (own a); [by right|done].
Qed.

Lemma actors_eq im tm nx pm im' tm' nx' pm' as_ :
  (forall n, n ∈ omap own as_ -> im' !! n = im !! n /\ tm' !! n = tm !! n /\ nx' !! n = nx !! n /\ pm' !! n = pm !! n) ->
  Forall (actor_ok im tm nx pm) as_ -> Forall (actor_ok im' tm' nx' pm') as_.
Proof.
  intros H Ha. apply Forall_forall. intros a Hin. pose proof (proj1 (Forall_forall _ _) Ha a Hin) as Hok.
  assert (Hown : forall n, own a = Some n -> n ∈ omap own as_) by (intros n E; apply list_elem_of_omap; by exists a).
  destruct a as [|n|n|n p|c p|c|d]; cbn [actor_ok own] in *; try done; destruct (H _ (Hown _ eq_refl)) as (-> & -> & E & F); by rewrite ?E, ?F.
Qed.

Lemma cons_ok_eq im tm im' tm' Q l K LO M c p :
  (forall n, n ∈ Q -> im' !! n = im !! n /\ tm' !! n = tm !! n) -> (K <= LO /\ LO <= M /\ M <= length Q)%nat ->
  cons_ok im tm Q K LO M c p -> cons_ok im' tm' (Q ++ l) K LO M c p.
Proof.
  intros He Hb (H0 & Ht & Hi & Hd & Hp). assert (Hlen : (1 <= length Q)%nat) by (destruct Q; [done|cbn; lia]).
  destruct (He (head c) ltac:(by eapply list_elem_of_lookup_2)) as [Eh1 Eh2].
  assert (Hit : forall it x, iter_ok im tm Q K it x -> iter_ok im' tm' (Q ++ l) K it x).
  { intros it x (Hx & Hcur & Hit). split_and!; [done|by rewrite take_app_le by lia|]. intros i n v Hix Hn. rewrite lookup_app_l in Hn by lia.
    destruct (He n ltac:(by eapply list_elem_of_lookup_2)) as [-> ->]. by apply Hit with i. }
  split_and!.
  - by rewrite lookup_app_l by lia.
  - intros t Ht'. rewrite lookup_app_l by lia. by apply Ht.
  - by rewrite Eh1.
  - by rewrite Eh1, Eh2.
  - destruct p as [| |high|it|it|it|h it|n| |t| |old p tail nt]; cbn [position_ok] in *; rewrite ?Eh1, ?Eh2.
    + destruct Hp as (? & ? & ? & Hp). split_and!; try done. intros E. destruct (Hp E) as (n & HK & Hn & Hf). exists n. split_and!; [done|by apply lookup_app_l_Some|].
      by destruct (He n ltac:(by eapply list_elem_of_lookup_2)) as [_ ->].
    + done.
    + done.
    + destruct Hp as (? & ? & x & Hp). split_and!; eauto.
    + destruct Hp as (? & ? & x & Hp). split_and!; eauto.
    + destruct Hp as (? & ? & x & Hp). split_and!; eauto.
    + destruct Hp as (? & ? & x & y & Hp & Hy & ->). split_and!; try done. exists x, y. split_and!; eauto. by rewrite take_app_le by lia.
    + done.
    + done.
    + destruct Hp as (? & ? & ? & (y & Hy & Hyt) & Hp). split_and!; try done. exists y. split; [done|]. by apply lookup_app_l_Some.
    + done.
    + destruct Hp as (HKL & Ho & Hct & Hpp & -> & Hnt & Hk). split_and!; try done; try (by apply lookup_app_l_Some).
      destruct l as [|x l']; [by rewrite app_nil_r|]. unfold fwd. destruct (decide _); [done|]. rewrite lookup_app_l by lia. done.
Qed.

(** ** The logs *)

Lemma kept_app b cs ts ts' : kept b cs (ts ++ ts') = kept b cs ts ++ kept b cs ts'.
Proof. apply filter_app. Qed.

Lemma kept_fresh b t cs ts : t ∉ ts -> kept b (t :: cs) ts = kept b cs ts.
Proof.
  unfold kept. induction ts as [|x ts IH]; intros Ht; [done|]. apply not_elem_of_cons in Ht as [Hx Ht]. specialize (IH Ht). rewrite !filter_cons.
  case_decide as Hd; case_decide as Hd'; rewrite not_elem_of_cons in Hd; [by f_equal|naive_solver..|done].
Qed.

Lemma iter_at_task im tm n t : iter_at im tm n = Some t -> tm !! n = Some true /\ task_at im n = Some t.
Proof. unfold iter_at. destruct (tm !! n) as [[]|]; done. Qed.

Lemma task_at_node im n m v h : task_at im n = Some (m, v, h) -> m = n /\ im !! n = Some (v, false, h).
Proof. unfold task_at. destruct (im !! n) as [[[v' []] h']|]; naive_solver. Qed.

Lemma logs_alloc im tm sm us Q Ret iss psh rn cs n v (s h : bool) :
  logs im tm sm us Q Ret iss psh rn cs -> n ∉ us -> n ∉ Q -> (forall v' s' h', im !! n = Some (v', s', h') -> v' = v) ->
  logs (<[n := (v, s, h)]> im) (<[n := false]> tm) (<[n := UNEXECUTED]> sm) ({[n]} ∪ us) Q Ret (if s then iss else (n, v, h) :: iss) psh rn cs.
Proof.
  intros [Hp Hr Hi Hret Hc Hnd Hst Hstop] Hn HQ Hv. assert (Hold : forall v' h', (n, v', h') ∈ iss -> v' < v).
  { intros v' h' Hin. destruct (Hi _ _ _ Hin) as (v0 & s0 & h0 & E & Hle & Heq). apply Hv in E as ->. destruct (decide (v' = v)) as [E|]; [|lia]. by destruct (Heq E). }
  split; try done.
  - rewrite Hp. f_equal. apply omap_eq. intros x Hx. rewrite task_at_ne; [done|]. by intros ->.
  - intros b. rewrite Hr. f_equal. f_equal. apply omap_eq. intros x Hx. rewrite iter_at_ne; [done|]. by intros ->.
  - intros n' v' h' Hin. assert (Hin' : (n', v', h') ∈ iss \/ s = false /\ (n', v', h') = (n, v, h)).
    { destruct s; [by left|]. apply elem_of_cons in Hin as [|]; [by right|by left]. }
    destruct Hin' as [Hin'|(-> & [= -> -> ->])].
    + destruct (decide (n = n')) as [<-|]; [|rewrite lookup_insert_ne by done; destruct (Hi _ _ _ Hin') as (v0 & s0 & h0 & E & Hle & Heq); exists v0, s0, h0; split_and!; try done; set_solver].
      rewrite lookup_insert_eq. exists v, s, h. split; [done|]. pose proof (Hold _ _ Hin'). split; lia.
    + rewrite lookup_insert_eq. exists v, false, h. split_and!; [done|lia|set_solver].
  - intros n' v' h' Hin. destruct (Hret _ _ _ Hin) as (v0 & s0 & h0 & E & Hlt). destruct (decide (n = n')) as [<-|].
    + rewrite lookup_insert_eq. apply Hv in E as ->. exists v, s, h. split; [done|]. left. destruct Hlt as [|(_ & ? & _)]; done.
    + rewrite !lookup_insert_ne by done. exists v0, s0, h0. split; [done|]. destruct Hlt as [|(? & ? & ? & ?)]; [by left|right; split_and!; set_solver].
  - intros t Ht. apply Hc in Ht. destruct s; [done|by right].
  - intros n' v' h' Hin E. destruct (decide (n = n')) as [<-|].
    + rewrite lookup_insert_eq in E. injection E as -> -> ->. rewrite !lookup_insert_eq. intros Hin'. apply Hc, Hold in Hin'. lia.
    + rewrite lookup_insert_ne in E by done. rewrite !lookup_insert_ne by done. apply Hst; [set_solver|done].
  - intros n' v' h' Hin E. destruct (decide (n = n')) as [<-|]; [by rewrite lookup_insert_eq|]. rewrite lookup_insert_ne in E by done. rewrite !lookup_insert_ne by done.
    intros Ht. eapply Hstop; [set_solver|done|done].
Qed.

Lemma logs_cancel im tm sm us Q Ret iss psh rn cs n v h s' h' :
  logs im tm sm us Q Ret iss psh rn cs -> (n, v, h) ∈ iss -> im !! n = Some (v, s', h') -> sm !! n = Some UNEXECUTED ->
  logs im tm (<[n := EXECUTED]> sm) us Q Ret iss psh rn ((n, v, h) :: cs).
Proof.
  intros [Hp Hr Hi Hret Hc Hnd Hst Hstop] Hin E Hs. destruct (Hi _ _ _ Hin) as (v0 & s0 & h0 & E0 & _ & Heq). rewrite E in E0. injection E0 as <- <- <-.
  destruct (Heq eq_refl) as (Hus & -> & ->). assert (Ht : tm !! n = Some false).
  { pose proof (Hst _ _ _ Hus E) as H. rewrite Hs in H. destruct (tm !! n) as [[]|]; done. }
  split; try done.
  - intros b. rewrite Hr, kept_fresh; [done|]. intros [Hx|Hx]%elem_of_app.
    + destruct (Hret _ _ _ Hx) as (v1 & s1 & h1 & E1 & [?|(_ & _ & _ & ?)]); [|congruence]. rewrite E in E1. injection E1 as -> _ _. lia.
    + apply list_elem_of_omap in Hx as (n' & _ & [Hx E']%iter_at_task). apply task_at_node in E' as [<- _]. congruence.
  - intros t [->|Ht']%elem_of_cons; auto.
  - intros n' v' h1 Hin' E'. destruct (decide (n = n')) as [<-|].
    + rewrite lookup_insert_eq, Ht. rewrite E in E'. injection E' as -> ->. by left.
    + rewrite lookup_insert_ne by done. pose proof (Hst _ _ _ Hin' E') as H. destruct (tm !! n') as [[]|], (sm !! n') as [[]|]; try done; [|by right].
      rewrite not_elem_of_cons. split; [congruence|done].
  - intros n' v' h1 Hin' E' Ht'. rewrite lookup_insert_ne by congruence. eauto.
Qed.

Lemma logs_push im tm sm us Q Ret iss psh rn cs n :
  logs im tm sm us Q Ret iss psh rn cs -> n ∉ Q -> tm !! n = Some false -> logs im tm sm us (Q ++ [n]) Ret iss (psh ++ option_list (task_at im n)) rn cs.
Proof.
  intros [Hp Hr Hi Hret Hc Hnd Hst Hstop] HQ Ht. assert (Htask : omap (task_at im) (Q ++ [n]) = omap (task_at im) Q ++ option_list (task_at im n)).
  { rewrite omap_app. cbn. by destruct (task_at im n). }
  split; try done.
  - by rewrite Htask, Hp, app_assoc.
  - intros b. rewrite omap_app. cbn. unfold iter_at at 2. rewrite Ht, app_nil_r. apply Hr.
  - intros n' v' h' Hin. destruct (Hret _ _ _ Hin) as (v0 & s0 & h0 & E & Hlt). exists v0, s0, h0. split; [done|]. destruct Hlt as [|(? & ? & ? & ?)]; [by left|right].
    split_and!; try done. rewrite not_elem_of_app, list_elem_of_singleton. split; [done|congruence].
  - destruct (task_at im n) as [[[m v] h]|] eqn:E; [|by rewrite app_nil_r]. apply NoDup_app. split_and!; [done| |apply NoDup_singleton].
    intros x Hx ->%list_elem_of_singleton. apply task_at_node in E as [-> E]. rewrite Hp in Hx. apply elem_of_app in Hx as [Hx|Hx].
    + destruct (Hret _ _ _ Hx) as (v1 & s1 & h1 & E1 & [?|(_ & _ & _ & ?)]); [|congruence]. rewrite E in E1. injection E1 as -> _ _. lia.
    + apply list_elem_of_omap in Hx as (n' & Hn' & [-> _]%task_at_node). done.
Qed.

Lemma omap_option {A B} (f : A -> option B) x (l : list A) : omap f (x :: l) = option_list (f x) ++ omap f l.
Proof. cbn. by destruct (f x). Qed.

(** The task at [x] is iterated. *)
Lemma iters_mark im tm Q x n : NoDup Q -> Q !! x = Some n -> tm !! n = Some false ->
  omap (iter_at im (<[n := true]> tm)) Q = omap (iter_at im tm) (take x Q) ++ option_list (task_at im n) ++ omap (iter_at im tm) (drop (S x) Q) /\
  omap (iter_at im tm) Q = omap (iter_at im tm) (take x Q) ++ omap (iter_at im tm) (drop (S x) Q).
Proof.
  intros Hnd Hx Ht. pose proof (take_drop_middle _ _ _ Hx) as HQ. rewrite <- HQ in Hnd. apply NoDup_app in Hnd as (_ & Hd & [Hn2 _]%NoDup_cons).
  assert (Hn1 : n ∉ take x Q) by (intros Hin; by apply (Hd n Hin), list_elem_of_here).
  assert (Hne : forall l : list Z, n ∉ l -> omap (iter_at im (<[n := true]> tm)) l = omap (iter_at im tm) l).
  { intros l Hl. apply omap_eq. intros y Hy. unfold iter_at. rewrite lookup_insert_ne; [done|]. by intros ->. }
  assert (H1 : iter_at im (<[n := true]> tm) n = task_at im n) by (unfold iter_at; by rewrite lookup_insert_eq).
  assert (H0 : iter_at im tm n = None) by (unfold iter_at; by rewrite Ht).
  split; rewrite <- HQ at 1; rewrite omap_app, omap_option; [by rewrite !Hne, H1|by rewrite H0].
Qed.

Lemma kept_later im tm Q K x n v h cs : flags im tm Q K -> Q !! x = Some n -> im !! n = Some (v, false, h) -> tm !! n = Some false ->
  kept h cs (omap (iter_at im tm) (drop (S x) Q)) = [].
Proof.
  intros [Ho _] Hx E Ht. destruct (kept h cs _) as [|[[m v'] h'] ts] eqn:Ek; [done|]. exfalso.
  assert (Hin : (m, v', h') ∈ kept h cs (omap (iter_at im tm) (drop (S x) Q))) by (rewrite Ek; by left).
  apply list_elem_of_filter in Hin as [[Eh _] Hin]. cbn in Eh. subst h'. apply list_elem_of_omap in Hin as (n' & Hn' & [Ht' E']%iter_at_task).
  apply task_at_node in E' as [-> E']. apply list_elem_of_lookup in Hn' as [j Hj]. rewrite lookup_drop in Hj. rewrite (Ho x (S x + j)%nat n n' v v' false h) in Ht; [done..|lia| | | | |]; done.
Qed.

Lemma of_prio_snoc b ts t : of_prio b (ts ++ [t]) = of_prio b ts ++ (if Bool.eqb t.2 b then [t] else []).
Proof. unfold of_prio. rewrite filter_app, filter_cons, filter_nil. by destruct (t.2), b. Qed.

Lemma kept_one b cs t : kept b cs [t] = if decide (t ∈ cs) then [] else if Bool.eqb t.2 b then [t] else [].
Proof. unfold kept. rewrite filter_cons, filter_nil. destruct (decide (t ∈ cs)); [by rewrite decide_False by tauto|]. by destruct (t.2) eqn:E, b; case_decide as Hd; try done; destruct Hd. Qed.

Lemma logs_mark im tm sm us Q K Ret iss psh rn cs x n v h s :
  logs im tm sm us Q Ret iss psh rn cs -> flags im tm Q K -> NoDup Q -> Q !! x = Some n -> n ∈ us -> im !! n = Some (v, false, h) -> tm !! n = Some false -> sm !! n = Some s ->
  logs im (<[n := true]> tm) (<[n := if decide (s = UNEXECUTED) then EXECUTING else s]> sm) us Q Ret iss psh (if decide (s = UNEXECUTED) then rn ++ [(n, v, h)] else rn) cs.
Proof.
  intros [Hp Hr Hi Hret Hc Hnd Hst Hstop] Hfl HndQ Hx Hus E Ht Hs. destruct (iters_mark im tm Q x n HndQ Hx Ht) as [E1 E2].
  pose proof (Hst _ _ _ Hus E) as Hcs. rewrite Ht, Hs in Hcs. split; try done.
  - intros b. rewrite E1. unfold task_at. rewrite E, !kept_app. change (option_list (Some (n, v, h))) with [(n, v, h)]. rewrite kept_one.
    assert (Hb : of_prio b rn = kept b cs Ret ++ kept b cs (omap (iter_at im tm) (take x Q)) ++ kept b cs (omap (iter_at im tm) (drop (S x) Q))) by (by rewrite Hr, E2, !kept_app).
    destruct s; try done; [rewrite decide_True, decide_False by done; rewrite of_prio_snoc, Hb|rewrite decide_False, decide_True by done; done].
    cbn [snd]. destruct (Bool.eqb h b) eqn:Eb; [|by rewrite app_nil_r]. apply Bool.eqb_prop in Eb as <-. rewrite (kept_later im tm Q K x n v h) by done. by rewrite !app_nil_r, app_assoc.
  - intros n' v' h' Hin. destruct (Hret _ _ _ Hin) as (v0 & s0 & h0 & E0 & Hlt). exists v0, s0, h0. split; [done|]. destruct Hlt as [|(? & ? & ? & ?)]; [by left|right].
    split_and!; try done. destruct (decide (n = n')) as [<-|]; [by rewrite lookup_insert_eq|]. by rewrite lookup_insert_ne.
  - intros n' v' h' Hin E'. destruct (decide (n = n')) as [<-|]; [|rewrite !lookup_insert_ne by done; by apply Hst].
    rewrite !lookup_insert_eq. by destruct s.
  - intros n' v' h' Hin E'. destruct (decide (n = n')) as [<-|]; [congruence|]. rewrite !lookup_insert_ne by done. eauto.
Qed.

Lemma logs_mark_stop im tm sm us Q Ret iss psh rn cs x n v h :
  logs im tm sm us Q Ret iss psh rn cs -> NoDup Q -> Q !! x = Some n -> im !! n = Some (v, true, h) -> tm !! n = Some false ->
  logs im (<[n := true]> tm) (<[n := EXECUTED]> sm) us Q Ret iss psh rn cs.
Proof.
  intros [Hp Hr Hi Hret Hc Hnd Hst Hstop] HndQ Hx E Ht. destruct (iters_mark im tm Q x n HndQ Hx Ht) as [E1 E2]. split; try done.
  - intros b. rewrite E1. unfold task_at. rewrite E. cbn [option_list app]. by rewrite Hr, E2.
  - intros n' v' h' Hin. destruct (Hret _ _ _ Hin) as (v0 & s0 & h0 & E0 & Hlt). exists v0, s0, h0. split; [done|]. destruct Hlt as [|(? & ? & ? & ?)]; [by left|right].
    split_and!; try done. destruct (decide (n = n')) as [<-|]; [by rewrite lookup_insert_eq|]. by rewrite lookup_insert_ne.
  - intros n' v' h' Hin E'. destruct (decide (n = n')) as [<-|]; [congruence|]. rewrite !lookup_insert_ne by done. by apply Hst.
  - intros n' v' h' Hin E'. destruct (decide (n = n')) as [<-|]; [by rewrite !lookup_insert_eq|]. rewrite !lookup_insert_ne by done. eauto.
Qed.

Lemma logs_status im tm sm us Q Ret iss psh rn cs n :
  logs im tm sm us Q Ret iss psh rn cs -> tm !! n = Some true -> logs im tm (<[n := EXECUTED]> sm) us Q Ret iss psh rn cs.
Proof.
  intros [Hp Hr Hi Hret Hc Hnd Hst Hstop] Ht. split; try done.
  - intros n' v' h' Hin E'. destruct (decide (n = n')) as [<-|]; [|rewrite !lookup_insert_ne by done; by apply Hst]. by rewrite Ht, lookup_insert_eq.
  - intros n' v' h' Hin E'. destruct (decide (n = n')) as [<-|]; [by rewrite lookup_insert_eq|]. rewrite !lookup_insert_ne by done. eauto.
Qed.

Lemma logs_pop im tm sm us n Q Ret iss psh rn cs v s h :
  logs im tm sm us (n :: Q) Ret iss psh rn cs -> NoDup (n :: Q) -> n ∈ us -> im !! n = Some (v, s, h) -> tm !! n = Some true ->
  logs im tm sm us Q (Ret ++ option_list (task_at im n)) iss psh rn cs.
Proof.
  intros [Hp Hr Hi Hret Hc Hnd Hst Hstop] [Hn _]%NoDup_cons Hus E Ht. rewrite omap_option in Hp. split; try done.
  - by rewrite <- app_assoc.
  - intros b. rewrite Hr, omap_option, <- app_assoc. unfold iter_at at 1. by rewrite Ht.
  - intros n' v' h' [Hin|Hin]%elem_of_app.
    + destruct (Hret _ _ _ Hin) as (v0 & s0 & h0 & E0 & Hlt). exists v0, s0, h0. split; [done|]. destruct Hlt as [|(? & ? & Hni & ?)]; [by left|right]. apply not_elem_of_cons in Hni as [_ ?]. done.
    + unfold task_at in Hin. rewrite E in Hin. destruct s; [by apply elem_of_nil in Hin|]. apply list_elem_of_singleton in Hin as [= -> -> ->]. exists v, false, h. split; [done|]. by right.
Qed.

Lemma logs_return im tm sm us n Q Ret iss psh rn cs v s h :
  logs im tm sm us Q Ret iss psh rn cs -> n ∉ Q -> im !! n = Some (v, s, h) ->
  logs (<[n := (v + 1, s, h)]> im) tm (<[n := UNEXECUTED]> sm) (us ∖ {[n]}) Q Ret iss psh rn cs.
Proof.
  intros [Hp Hr Hi Hret Hc Hnd Hst Hstop] Hn E. split; try done.
  - rewrite Hp. f_equal. apply omap_eq. intros y Hy. rewrite task_at_ne; [done|]. by intros ->.
  - intros b. rewrite Hr. f_equal. f_equal. apply omap_eq. intros y Hy. unfold iter_at. rewrite task_at_ne; [done|]. by intros ->.
  - intros n' v' h' Hin. destruct (Hi _ _ _ Hin) as (v0 & s0 & h0 & E0 & Hle & Heq). destruct (decide (n = n')) as [<-|].
    + rewrite lookup_insert_eq. rewrite E in E0. injection E0 as <- <- <-. exists (v + 1), s, h. split_and!; [done|lia|lia].
    + rewrite lookup_insert_ne by done. exists v0, s0, h0. split_and!; [done..|]. intros Ev. destruct (Heq Ev) as (? & ? & ?). set_solver.
  - intros n' v' h' Hin. destruct (Hret _ _ _ Hin) as (v0 & s0 & h0 & E0 & Hlt). destruct (decide (n = n')) as [<-|].
    + rewrite lookup_insert_eq. rewrite E in E0. injection E0 as <- <- <-. exists (v + 1), s, h. split; [done|]. left. destruct Hlt as [|(? & _)]; lia.
    + rewrite lookup_insert_ne by done. exists v0, s0, h0. split; [done|]. destruct Hlt as [|(? & ? & ? & ?)]; [by left|right]. set_solver.
  - intros n' v' h' [Hin Hne]%elem_of_difference. rewrite elem_of_singleton in Hne. rewrite !lookup_insert_ne by done. by apply Hst.
  - intros n' v' h' [Hin Hne]%elem_of_difference. rewrite elem_of_singleton in Hne. rewrite !lookup_insert_ne by done. by apply Hstop.
Qed.

(** ** The flags and the counter *)

Lemma flags_eq im tm im' tm' Q K : (forall n, n ∈ Q -> im' !! n = im !! n /\ tm' !! n = tm !! n) -> flags im tm Q K -> flags im' tm' Q K.
Proof.
  intros He [Ho Hr]. split.
  - intros i j n n' v v' s' h Hij Hi Hj. destruct (He n ltac:(by eapply list_elem_of_lookup_2)) as [-> ->], (He n' ltac:(by eapply list_elem_of_lookup_2)) as [-> ->]. by eapply Ho.
  - intros i n Hi HK. destruct (He n ltac:(by eapply list_elem_of_lookup_2)) as [_ ->]. by eapply Hr.
Qed.

Lemma flags_push im tm Q K n : flags im tm Q K -> tm !! n = Some false -> flags im tm (Q ++ [n]) K.
Proof.
  intros [Ho Hr] Ht. assert (Hl : forall j y, (Q ++ [n]) !! j = Some y -> Q !! j = Some y \/ y = n).
  { intros j y Hy. apply lookup_app_Some in Hy as [|[_ Hy]]; [by left|right]. apply list_lookup_singleton_Some in Hy as [_ ->]. done. }
  split.
  - intros i j x y v v' s' h Hij Hi Hj Ex Ey Hy. destruct (Hl j y Hj) as [Hj'| ->]; [|congruence]. rewrite lookup_app_l in Hi by (apply lookup_lt_Some in Hj'; lia). by eapply (Ho i j).
  - intros i x Hi HK. destruct (Hl i x Hi) as [Hi'| ->]; [by eapply Hr|done].
Qed.

Lemma flags_mark im tm Q K x n v s h :
  flags im tm Q K -> NoDup Q -> Q !! x = Some n -> (x < K)%nat -> im !! n = Some (v, s, h) ->
  (forall i n' v', (i < x)%nat -> Q !! i = Some n' -> im !! n' = Some (v', false, h) -> tm !! n' = Some true) -> flags im (<[n := true]> tm) Q K.
Proof.
  intros [Ho Hr] Hnd Hx HK E Hall. split.
  - intros i j y y' v1 v2 s2 h' Hij Hi Hj Ey Ey' Hy'. destruct (decide (n = y)) as [<-|]; [by rewrite lookup_insert_eq|]. rewrite lookup_insert_ne by done.
    destruct (decide (n = y')) as [<-|]; [|rewrite lookup_insert_ne in Hy' by done; by eapply (Ho i j)]. assert (j = x) as -> by (by eapply (index_unique Q)). rewrite E in Ey'. injection Ey' as -> -> ->. by eapply Hall.
  - intros i y Hi HKi. rewrite lookup_insert_ne; [by eapply Hr|]. intros ->. assert (i = x) by (by eapply (index_unique Q)). lia.
Qed.

Lemma flags_pop im tm n Q K : flags im tm (n :: Q) (S K) -> flags im tm Q K.
Proof. intros [Ho Hr]. split; [intros i j; intros; by apply (Ho (S i) (S j) n0 n' v v' s' h); [lia|..]|intros i; intros; apply (Hr (S i)); [done|lia]]. Qed.

Lemma flags_more im tm Q K M : (K <= M)%nat -> flags im tm Q K -> flags im tm Q M.
Proof. intros HKM [Ho Hr]. split; [done|]. intros i n Hi HM. apply (Hr i); [done|lia]. Qed.

Lemma waiting_mark im tm Q x n : NoDup Q -> Q !! x = Some n -> tm !! n = Some false -> waiting im (<[n := true]> tm) Q = waiting im tm Q - waits im tm n.
Proof.
  intros Hnd Hx Ht. pose proof (take_drop_middle _ _ _ Hx) as HQ. rewrite <- HQ in Hnd. apply NoDup_app in Hnd as (_ & Hd & [Hn2 _]%NoDup_cons).
  assert (Hn1 : n ∉ take x Q) by (intros Hin; by apply (Hd n Hin), list_elem_of_here).
  assert (Hne : forall l, n ∉ l -> waiting im (<[n := true]> tm) l = waiting im tm l).
  { intros l Hl. apply waiting_eq. intros y Hy. split; [done|]. apply lookup_insert_ne. by intros ->. }
  rewrite <- HQ, !waiting_app, Hne by done. change (waiting im (<[n := true]> tm) (n :: drop (S x) Q)) with (waits im (<[n := true]> tm) n + waiting im (<[n := true]> tm) (drop (S x) Q)).
  change (waiting im tm (n :: drop (S x) Q)) with (waits im tm n + waiting im tm (drop (S x) Q)). rewrite Hne by done.
  unfold waits at 1. rewrite lookup_insert_eq. destruct (im !! n) as [[[v s] []]|]; lia.
Qed.

Lemma waiting_nonneg im tm Q : 0 <= waiting im tm Q.
Proof. induction Q as [|n Q IH]; [done|]. unfold waiting in *. cbn [foldr]. assert (0 <= waits im tm n) by (unfold waits; destruct (im !! n) as [[[v s] []]|], (tm !! n) as [[]|]; lia). lia. Qed.

(** ** The stop task *)

Definition pushes (a : actor) (n : Z) : Prop := a = Pushing n \/ exists p, a = Linking n p.

Lemma stage_step im tm us Q a r cl de st im' tm' us' Q' a' new :
  stage im tm us Q (a :: r) cl de st ->
  (forall n, n ∈ us' -> n ∈ us /\ im' !! n = im !! n /\ (forall v h, im !! n = Some (v, true, h) -> tm' !! n = tm !! n)) ->
  (forall n v h, n ∈ us -> im !! n = Some (v, true, h) -> n ∈ us') ->
  (forall i n v h, Q' !! i = Some n -> im' !! n = Some (v, true, h) -> S i = length Q') ->
  (forall x, x ∈ Q' -> x ∈ Q \/ a = Pushing x) ->
  (cl = true -> forall x, x ∈ a' :: new -> in_execute x = true -> in_execute a = true /\ forall n, pushes a n -> pushes x n) ->
  (Finishing true ∈ a' :: new <-> a = Finishing true) ->
  stage im' tm' us' Q' (a' :: new ++ r) cl de st.
Proof.
  intros [Hl Hlow Ho He Hc] Hin Hst Hl' HQ Hex Hfin. assert (Hf : Finishing true ∈ a' :: new ++ r <-> Finishing true ∈ a :: r).
  { rewrite app_comm_cons, elem_of_app, Hfin, elem_of_cons. naive_solver. }
  assert (Hpush : cl = true -> in_execute a = true -> exists n v h, pushes a n /\ n ∈ us /\ im !! n = Some (v, true, h)).
  { intros Hcl Ha. apply (He a); [done|by left|done]. }
  split.
  - done.
  - intros n v h Hn E. destruct (Hin n Hn) as (Hu & E' & _). rewrite E' in E. eauto.
  - intros Hcl. rewrite Hf. destruct (Ho Hcl) as (? & ? & ? & Hno). split_and!; try done. intros n v h Hn. destruct (Hin n Hn) as (Hu & -> & _). auto.
  - intros x Hcl Hx Hxe. rewrite app_comm_cons in Hx. apply elem_of_app in Hx as [Hx|Hx].
    + destruct (Hex Hcl x Hx Hxe) as [Ha Hp]. destruct (Hpush Hcl Ha) as (n & v & h & Hpn & Hu & E). exists n, v, h. assert (Hn' := Hst n v h Hu E). split_and!; [by apply Hp|done|].
      by destruct (Hin n Hn') as (_ & -> & _).
    + destruct (He x Hcl ltac:(by right) Hxe) as (n & v & h & Hpn & Hu & E). exists n, v, h. assert (Hn' := Hst n v h Hu E). split_and!; [done|done|]. by destruct (Hin n Hn') as (_ & -> & _).
  - intros Hcl. destruct (Hc Hcl) as [(n & v & h & b & Hu & E & Ht & Hstn & Hde & Hfi & Huni & Hb)|(Hno & Hst1 & HQ0 & Hd)].
    + left. assert (Hn' := Hst n v h Hu E). destruct (Hin n Hn') as (_ & E1 & Ht1). exists n, v, h, b. rewrite E1, (Ht1 v h E), Hf. split_and!; try done.
      * intros n' v' h' Hn0 E0. destruct (Hin n' Hn0) as (Hu0 & E2 & _). rewrite E2 in E0. eauto.
      * intros Hbt x Hx. destruct (HQ x Hx) as [Hx'|Ha]; [by apply Hb|]. rewrite Ha in Hpush. destruct (Hpush Hcl eq_refl) as (m & v1 & h1 & [[= <-]|[p [=]]] & Hm & Em). eauto.
    + right. rewrite Hf. split_and!; try done.
      * intros n v h Hn. destruct (Hin n Hn) as (Hu & -> & _). auto.
      * destruct Q' as [|x Q']; [done|]. destruct (HQ x ltac:(by left)) as [Hx|Ha]; [rewrite HQ0 in Hx; by apply elem_of_nil in Hx|].
        rewrite Ha in Hpush. destruct (Hpush Hcl eq_refl) as (m & v1 & h1 & _ & Hm & Em). by destruct (Hno m v1 h1 Hm).
Qed.

(** ** The producers *)

Lemma consumer_eq im tm im' tm' Q l K LO M cs :
  (forall n, n ∈ Q -> im' !! n = im !! n /\ tm' !! n = tm !! n) -> (K <= LO /\ LO <= M /\ M <= length Q)%nat -> Q <> [] \/ l = [] ->
  consumer_ok im tm Q K LO M cs -> consumer_ok im' tm' (Q ++ l) K LO M cs.
Proof.
  intros He Hb Hl. destruct cs as [|[c p] [|]]; [|by eapply cons_ok_eq|done]. cbn [consumer_ok]. intros ->. by destruct Hl as [| ->].
Qed.

Lemma consumer_same im tm im' tm' Q K LO M cs :
  (forall n, n ∈ Q -> im' !! n = im !! n /\ tm' !! n = tm !! n) -> (K <= LO /\ LO <= M /\ M <= length Q)%nat ->
  consumer_ok im tm Q K LO M cs -> consumer_ok im' tm' Q K LO M cs.
Proof. intros He Hb H. rewrite <- (app_nil_r Q). eapply consumer_eq; [done|done|by right|done]. Qed.

Lemma inv_nodup g q as_ : inv g q as_ -> NoDup (gQ g).
Proof. intros H. by eapply shape_nodup_q, i_shape. Qed.

Lemma inv_used g q as_ n : inv g q as_ -> n ∈ gQ g \/ n ∈ omap own as_ -> n ∈ used q.
Proof. intros H Hn. apply (sh_used _ _ _ _ _ _ _ _ _ (i_shape _ _ _ H)), elem_of_app. done. Qed.

Lemma inv_own g q a r n : inv g q (a :: r) -> own a = Some n -> n ∈ used q /\ (n ∉ gQ g) /\ (n ∉ omap own r).
Proof.
  intros H Hn. pose proof (sh_nodup _ _ _ _ _ _ _ _ _ (i_shape _ _ _ H)) as Hnd. cbn in Hnd. rewrite Hn, <- Permutation_middle in Hnd. apply NoDup_cons in Hnd as [Hnd _].
  apply not_elem_of_app in Hnd. split; [|done]. eapply inv_used; [done|]. right. cbn. rewrite Hn. by left.
Qed.

Lemma ids_lookup m n v s h : ids m !! n = Some (v, s, h) -> exists d, m !! n = Some d /\ version d = v /\ stop_task d = s /\ high_priority d = h.
Proof. unfold ids. rewrite lookup_fmap. destruct (m !! n) as [d|]; [|done]. intros [= <- <- <-]. by exists d. Qed.

Lemma its_lookup m n d : m !! n = Some d -> its m !! n = Some (iterated d).
Proof. unfold its. by rewrite lookup_fmap; intros ->. Qed.
Lemma ids_at m n d : m !! n = Some d -> ids m !! n = Some (version d, stop_task d, high_priority d).
Proof. unfold ids. by rewrite lookup_fmap; intros ->. Qed.
Lemma sts_at m n d : m !! n = Some d -> sts m !! n = Some (status d).
Proof. unfold sts. by rewrite lookup_fmap; intros ->. Qed.
Lemma nxt_at m n d : m !! n = Some d -> nxt m !! n = Some (next d).
Proof. unfold nxt. by rewrite lookup_fmap; intros ->. Qed.
Lemma ips_at m n d : m !! n = Some d -> ips m !! n = Some (in_place d).
Proof. unfold ips. by rewrite lookup_fmap; intros ->. Qed.

Lemma ids_insert m n d : ids (<[n := d]> m) = <[n := (version d, stop_task d, high_priority d)]> (ids m).
Proof. unfold ids. by rewrite fmap_insert. Qed.
Lemma its_insert m n d : its (<[n := d]> m) = <[n := iterated d]> (its m).
Proof. unfold its. by rewrite fmap_insert. Qed.
Lemma sts_insert m n d : sts (<[n := d]> m) = <[n := status d]> (sts m).
Proof. unfold sts. by rewrite fmap_insert. Qed.
Lemma nxt_insert m n d : nxt (<[n := d]> m) = <[n := next d]> (nxt m).
Proof. unfold nxt. by rewrite fmap_insert. Qed.
Lemma ips_insert m n d : ips (<[n := d]> m) = <[n := in_place d]> (ips m).
Proof. unfold ips. by rewrite fmap_insert. Qed.

Definition allocates (high : bool) (n : Z) : actor := if high then Counting n else Pushing n.

Lemma stage_alloc im tm us Q r de st n v (s h : bool) :
  stage im tm us Q (Idle :: r) false de st -> n ∉ us -> n ∉ Q -> (s = true -> h = false /\ existsb in_execute r = false) ->
  stage (<[n := (v, s, h)]> im) (<[n := false]> tm) ({[n]} ∪ us) Q (allocates h n :: r) s de st.
Proof.
  intros [Hl Hlow Ho He Hc] Hn HQ Hs. destruct (Ho eq_refl) as (-> & -> & Hfi & Hno). apply not_elem_of_cons in Hfi as [_ Hfi].
  assert (Hfi' : Finishing true ∉ allocates h n :: r) by (rewrite not_elem_of_cons; split; [by destruct h|done]).
  assert (Hnew : forall n' v' h', n' ∈ {[n]} ∪ us -> <[n := (v, s, h)]> im !! n' = Some (v', true, h') -> n' = n /\ s = true /\ h' = h).
  { intros n' v' h' Hn' E. destruct (decide (n = n')) as [<-|]; [rewrite lookup_insert_eq in E; by injection E as -> -> ->|]. rewrite lookup_insert_ne in E by done.
    exfalso. eapply Hno; [|done]. set_solver. }
  split.
  - intros i n' v' h' Hi E. eapply Hl; [done|]. rewrite lookup_insert_ne in E; [done|]. intros ->. by apply HQ; eapply list_elem_of_lookup_2.
  - intros n' v' h' Hn' E. destruct (Hnew _ _ _ Hn' E) as (_ & Hst & ->). by apply Hs.
  - intros ->. split_and!; try done. intros n' v' h' Hn' E. by destruct (Hnew _ _ _ Hn' E) as (_ & ? & _).
  - intros a -> [->|Ha]%elem_of_cons Hae.
    + destruct (Hs eq_refl) as [-> _]. exists n, v, false. split_and!; [by left|set_solver|apply lookup_insert_eq].
    + destruct (Hs eq_refl) as [_ Hx]. apply Bool.not_true_iff_false in Hx. destruct Hx. apply existsb_exists. exists a. by rewrite <- list_elem_of_In.
  - intros ->. left. exists n, v, h, false. rewrite !lookup_insert_eq. split_and!; try done; [set_solver|]. intros n' v' h' Hn' E. by destruct (Hnew _ _ _ Hn' E).
Qed.

Lemma inv_allocate g q r n stop high inpl :
  inv g q (Idle :: r) -> closed q = false -> n ∉ used q -> (stop = true -> high = false /\ inpl = false /\ existsb in_execute r = false) ->
  inv g (allocate n stop high inpl q) (allocates high n :: r).
Proof.
  intros H Hcl Hn Hstop. assert (HQ : forall x, x ∈ gQ g -> n <> x) by (intros x Hx ->; apply Hn; eapply inv_used; eauto).
  assert (HO : forall x, x ∈ omap own r -> n <> x) by (intros x Hx ->; apply Hn; eapply inv_used; eauto).
  assert (HnQ : n ∉ gQ g) by (intros Hx; by apply (HQ n Hx)).
  destruct H as [Hs Hl Hf Ha Hc Hcnt Hst]. apply Forall_cons in Ha as [_ Ha].
  set (v := match nodes q !! n with Some d => version d | None => 0 end). cbn [omap list_omap own lnk con] in Hs, Hc.
  assert (Ei : ids (nodes (allocate n stop high inpl q)) = <[n := (v, stop, high)]> (ids (nodes q))) by exact (ids_insert _ _ _).
  assert (Et : its (nodes (allocate n stop high inpl q)) = <[n := false]> (its (nodes q))) by exact (its_insert _ _ _).
  assert (Es : sts (nodes (allocate n stop high inpl q)) = <[n := UNEXECUTED]> (sts (nodes q))) by exact (sts_insert _ _ _).
  assert (En : nxt (nodes (allocate n stop high inpl q)) = <[n := UNCONNECTED]> (nxt (nodes q))) by exact (nxt_insert _ _ _).
  assert (Ep : ips (nodes (allocate n stop high inpl q)) = <[n := inpl]> (ips (nodes q))) by exact (ips_insert _ _ _).
  split; rewrite ?Ei, ?Et, ?Es, ?En, ?Ep; cbn [allocate _head used closed destroyed issued pushed ran cancelled stops _high_priority_tasks].
  - destruct high; by apply shape_alloc.
  - apply logs_alloc; try done. intros v' s' h' E. unfold v. apply ids_lookup in E as (d & -> & <- & _). done.
  - eapply flags_eq; [|done]. intros x Hx. rewrite !lookup_insert_ne by auto. done.
  - apply Forall_cons. split.
    + destruct high; cbn [allocates actor_ok]; rewrite !lookup_insert_eq; split_and!; try done; [|exists v, stop, false; naive_solver]. exists v. destruct stop; [|done]. by destruct (Hstop eq_refl).
    + eapply actors_eq; [|done]. intros x Hx. rewrite !lookup_insert_ne by auto. done.
  - replace (omap con (allocates high n :: r)) with (omap con r) by (by destruct high).
    apply (consumer_same (ids (nodes q)) (its (nodes q))); [|exact (sh_bounds _ _ _ _ _ _ _ _ _ Hs)|done]. intros x Hx. rewrite !lookup_insert_ne by auto. done.
  - rewrite Hcnt. f_equal; [|symmetry; apply waiting_eq; intros x Hx; rewrite !lookup_insert_ne by auto; done].
    change (weight (ids (nodes q)) Idle + total (ids (nodes q)) r = weight (<[n := (v, stop, high)]> (ids (nodes q))) (allocates high n) + total (<[n := (v, stop, high)]> (ids (nodes q))) r).
    rewrite (total_eq (ids (nodes q)) (<[n := (v, stop, high)]> (ids (nodes q)))) by (intros x Hx; rewrite lookup_insert_ne by auto; done).
    destruct high; cbn [weight allocates]; [done|]. by rewrite lookup_insert_eq.
  - rewrite Hcl in *. apply stage_alloc; try done. intros E. by destruct (Hstop E) as (? & _ & ?).
Qed.

(** A step that leaves the nodes and the list alone. *)
Lemma inv_actor g q a r a' k :
  inv g q (a :: r) -> own a' = own a -> lnk a' = lnk a -> con a' = con a -> actor_ok (ids (nodes q)) (its (nodes q)) (nxt (nodes q)) (ips (nodes q)) a' ->
  k = weight (ids (nodes q)) a' - weight (ids (nodes q)) a -> (in_execute a' = true -> in_execute a = true /\ forall n, pushes a n -> pushes a' n) -> (a' = Finishing true <-> a = Finishing true) ->
  inv g (add_high k q) (a' :: r).
Proof.
  intros [Hs Hl Hf Ha Hc Hcnt Hst] Eo El Ec Hok Hk Hex Hfin. split; try done.
  - cbn [omap list_omap add_high nodes used _head] in *. by rewrite Eo, El.
  - apply Forall_cons in Ha as [_ Ha]. by apply Forall_cons.
  - cbn [omap list_omap add_high nodes] in *. by rewrite Ec.
  - cbn [add_high nodes _high_priority_tasks]. cbn [total foldr] in *. unfold total in *. lia.
  - cbn [add_high nodes used closed destroyed stops]. eapply (stage_step _ _ _ _ a r _ _ _ _ _ _ _ a' []); try done.
    + apply Hst.
    + by left.
    + intros _ x ->%list_elem_of_singleton. done.
    + rewrite list_elem_of_singleton, <- Hfin. done.
Qed.

(** A step that does what it should. *)
Definition goes (r : list actor) (res : result) : Prop := exists g q a new, res = Ok (q, a, new) /\ inv g q (a :: new ++ r).

Lemma goes_ok g q a new r : inv g q (a :: new ++ r) -> goes r (Ok (q, a, new)).
Proof. intros H. by exists g, q, a, new. Qed.

Lemma goes_cancel g q r t : inv g q (Idle :: r) -> t ∈ issued q -> goes r ('(_, q) ← cancel t q; Ok (q, Idle, [])).
Proof.
  intros H Ht. destruct t as [[n v] h]. destruct (lg_issued _ _ _ _ _ _ _ _ _ _ (i_logs _ _ _ H) _ _ _ Ht) as (v' & s' & h' & E & _).
  apply ids_lookup in E as (d & Hd & <- & <- & <-). unfold cancel, node_at. rewrite Hd. cbn [deref mbind outcome_bind].
  destruct (Z.eqb_spec (version d) v) as [<-|Hv]; cbn [negb]; [|by eapply goes_ok]. destruct (status d) eqn:Es; cbn [mbind outcome_bind]; [|by eapply goes_ok..].
  apply goes_ok with g. cbn [app]. destruct H as [Hs Hl Hf Ha Hc Hcnt Hst].
  assert (Ei : ids (<[n := set_status EXECUTED d]> (nodes q)) = ids (nodes q)) by (by apply fmap_same with d).
  assert (Et : its (<[n := set_status EXECUTED d]> (nodes q)) = its (nodes q)) by (by apply fmap_same with d).
  assert (En : nxt (<[n := set_status EXECUTED d]> (nodes q)) = nxt (nodes q)) by (by apply fmap_same with d).
  assert (Ep : ips (<[n := set_status EXECUTED d]> (nodes q)) = ips (nodes q)) by (by apply fmap_same with d).
  split; cbn [log_cancelled set_node nodes _head used closed destroyed issued pushed ran cancelled stops _high_priority_tasks]; rewrite ?Ei, ?Et, ?En, ?Ep; try done.
  rewrite sts_insert. eapply logs_cancel; [done..|by apply ids_at|]. by rewrite (sts_at _ _ _ Hd), Es.
Qed.

Lemma goes_count g q r n : inv g q (Counting n :: r) -> goes r (Ok (add_high 1 q, Pushing n, [])).
Proof.
  intros H. apply goes_ok with g. pose proof (i_actors _ _ _ H) as [[(v & E) [Ht Hn]] _]%Forall_cons. apply (inv_actor g q (Counting n)); try done.
  - cbn [actor_ok]. split_and!; try done. exists v, false, true. done.
  - cbn [weight]. by rewrite E.
  - intros _. split; [done|]. intros m [[=]|[? [=]]].
Qed.

Lemma goes_connect g q r n prev : inv g q (Linking n prev :: r) -> goes r (connect n prev q).
Proof.
  intros H. pose proof (i_shape _ _ _ H) as Hs. destruct (sh_link _ _ _ _ _ _ _ _ _ Hs n prev ltac:(by left)) as (i & _ & Hi & _ & _ & Hu).
  unfold connect, node_at. unfold nxt in Hu. rewrite lookup_fmap in Hu. destruct (nodes q !! n) as [d|] eqn:Hd; [|done]. cbn [deref mbind outcome_bind].
  apply goes_ok with g. cbn [app]. assert (HnO : n ∉ omap own r).
  { intros Hx. pose proof (sh_nodup _ _ _ _ _ _ _ _ _ Hs) as Hnd. apply NoDup_app in Hnd as (_ & Hdis & _). eapply Hdis; [by eapply list_elem_of_lookup_2|done]. }
  destruct H as [_ Hl Hf Ha Hc Hcnt Hst].
  assert (Ei : ids (<[n := set_next (Ptr prev) d]> (nodes q)) = ids (nodes q)) by (by apply fmap_same with d).
  assert (Et : its (<[n := set_next (Ptr prev) d]> (nodes q)) = its (nodes q)) by (by apply fmap_same with d).
  assert (Es : sts (<[n := set_next (Ptr prev) d]> (nodes q)) = sts (nodes q)) by (by apply fmap_same with d).
  assert (Ep : ips (<[n := set_next (Ptr prev) d]> (nodes q)) = ips (nodes q)) by (by apply fmap_same with d).
  split; cbn [set_node nodes _head used closed destroyed issued pushed ran cancelled stops _high_priority_tasks]; rewrite ?Ei, ?Et, ?Es, ?Ep, ?nxt_insert; try done.
  - by apply shape_connect.
  - apply Forall_cons in Ha as [_ Ha]. apply Forall_cons. split; [done|]. eapply actors_eq; [|done]. intros x Hx. split_and!; try done. apply lookup_insert_ne. by intros ->.
  - eapply (stage_step _ _ _ _ (Linking n prev) r _ _ _ _ _ _ _ Idle []); try done.
    + apply Hst.
    + by left.
    + intros _ x ->%list_elem_of_singleton. done.
    + by rewrite list_elem_of_singleton.
Qed.

(** A task that is pushed after the stop task would have to be another one. *)
Lemma stop_pushed im tm us Q n r cl de st i m v h :
  stage im tm us Q (Pushing n :: r) cl de st -> n ∉ Q -> (forall x, x ∈ Q -> x ∈ us) -> Q !! i = Some m -> im !! m <> Some (v, true, h).
Proof.
  intros [Hl Hlow Ho He Hc] Hn Hu Hi E. assert (Hm : m ∈ us) by (by eapply Hu, list_elem_of_lookup_2). destruct cl.
  - destruct (He (Pushing n) eq_refl ltac:(by left) eq_refl) as (n' & v' & h' & [[= <-]|[p [=]]] & Hu' & E').
    destruct (Hc eq_refl) as [(m' & _ & _ & _ & _ & _ & _ & _ & _ & _ & Huni & _)|(Hno & _)]; [|by eapply Hno].
    assert (n = m) as -> by (rewrite (Huni n v' h'), (Huni m v h); done). by apply Hn; eapply list_elem_of_lookup_2.
  - destruct (Ho eq_refl) as (_ & _ & _ & Hno). by eapply Hno.
Qed.

Lemma push_logged q n d h : 
  set_head h (if stop_task d then q else log_pushed (task_of n d) q) =
  mk_queue h (_high_priority_tasks q) (nodes q) (used q) (closed q) (destroyed q) (issued q) (pushed q ++ (if stop_task d then [] else [task_of n d])) (ran q) (cancelled q) (stops q).
Proof. destruct (stop_task d); [|done]. unfold set_head. by rewrite app_nil_r. Qed.

Lemma goes_push_next g q r n d prev : inv g q (Pushing n :: r) -> nodes q !! n = Some d -> _head q = Some prev ->
  inv (mk_ghost (gQ g ++ [n]) (gK g) (gLO g) (gM g) (gRet g)) (set_head (Some n) (if stop_task d then q else log_pushed (task_of n d) q)) (Linking n prev :: r).
Proof.
  intros H Hd Hh. destruct (inv_own g q (Pushing n) r n H eq_refl) as (Hu & HnQ & HnO). assert (HQu : forall x, x ∈ gQ g -> x ∈ used q) by (intros x Hx; eapply inv_used; eauto).
  destruct H as [Hs Hl Hf Ha Hc Hcnt Hst]. apply Forall_cons in Ha as [Hok Ha]. cbn [actor_ok] in Hok. destruct Hok as (_ & Ht & Hun).
  pose proof (sh_bounds _ _ _ _ _ _ _ _ _ Hs) as Hb. assert (Hlast : last (gQ g) = Some prev) by (rewrite <- Hh; symmetry; apply (sh_head _ _ _ _ _ _ _ _ _ Hs)).
  assert (Hne : gQ g <> []) by (by intros E; rewrite E in Hlast). rewrite push_logged.
  split; cbn [nodes _head used closed destroyed issued pushed ran cancelled stops _high_priority_tasks gQ gK gLO gM gRet].
  - by eapply shape_push.
  - replace (if stop_task d then [] else [task_of n d]) with (option_list (task_at (ids (nodes q)) n)) by (unfold task_at; rewrite (ids_at _ _ _ Hd); by destruct (stop_task d)).
    by apply logs_push.
  - by apply flags_push.
  - by apply Forall_cons.
  - apply (consumer_eq (ids (nodes q)) (its (nodes q))); [done|done|by left|done].
  - rewrite waiting_app, Hcnt. cbn [total foldr weight waiting]. unfold waits. rewrite (ids_at _ _ _ Hd), Ht. unfold total. destruct (high_priority d); lia.
  - eapply (stage_step _ _ _ _ (Pushing n) r _ _ _ _ _ _ _ (Linking n prev) []); try done.
    + intros i m v h Hi E. apply lookup_app_Some in Hi as [Hi|[Hge Hi]]; [by edestruct stop_pushed|]. apply list_lookup_singleton_Some in Hi as [? ->]. rewrite length_app. cbn. lia.
    + intros x [Hx| ->%list_elem_of_singleton]%elem_of_app; [by left|by right].
    + intros _ x ->%list_elem_of_singleton _. split; [done|]. intros m [[= <-]|[p [=]]]. right. by exists prev.
    + by rewrite list_elem_of_singleton.
Qed.

(** The first node of a list. *)
Lemma inv_empty g q as_ : inv g q as_ -> gQ g = [] -> omap con as_ = [] /\ gK g = 0%nat /\ gLO g = 0%nat /\ gM g = 0%nat.
Proof.
  intros H HQ. pose proof (i_consumer _ _ _ H) as Hc. pose proof (sh_bounds _ _ _ _ _ _ _ _ _ (i_shape _ _ _ H)) as Hb. rewrite HQ in *. cbn [length] in Hb.
  split_and!; [|lia..]. destruct (omap con as_) as [|[c p] [|]]; [done| |done]. by destruct Hc as (? & _).
Qed.

Definition pushed_first (q : queue) (n : Z) (d : TaskNode) : queue :=
  set_node n (set_next NULL d) (set_head (Some n) (if stop_task d then q else log_pushed (task_of n d) q)).

Lemma inv_push_first g q r n d a new : inv g q (Pushing n :: r) -> nodes q !! n = Some d -> _head q = None ->
  omap own (a :: new) = [] -> omap lnk (a :: new) = [] -> Forall (actor_ok (ids (nodes q)) (its (nodes q)) ∅ ∅) (a :: new) ->
  consumer_ok (ids (nodes q)) (its (nodes q)) [n] 1 1 1 (omap con (a :: new)) -> total (ids (nodes q)) (a :: new) = 0 ->
  (forall x, x ∈ a :: new -> in_execute x = true -> stop_task d = false) -> (Finishing true ∉ a :: new) ->
  inv (mk_ghost [n] 1 1 1 (gRet g)) (pushed_first q n d) (a :: new ++ r).
Proof.
  intros H Hd Hh Hown Hlnk Hacts Hcons Htot Hex Hfin. destruct (inv_own g q (Pushing n) r n H eq_refl) as (Hu & HnQ & HnO). assert (HQ : gQ g = []).
  { apply last_None. rewrite <- Hh. symmetry. apply (sh_head _ _ _ _ _ _ _ _ _ (i_shape _ _ _ H)). }
  destruct (inv_empty _ _ _ H HQ) as (Hcon & _). destruct H as [Hs Hl Hf Ha Hc Hcnt Hst]. apply Forall_cons in Ha as [Hok Ha]. cbn [actor_ok] in Hok.
  destruct Hok as (_ & Ht & _). rewrite HQ in *. cbn [omap list_omap own lnk con] in Hs, Hcon.
  assert (Ei : ids (<[n := set_next NULL d]> (nodes q)) = ids (nodes q)) by (by apply fmap_same with d).
  assert (Et : its (<[n := set_next NULL d]> (nodes q)) = its (nodes q)) by (by apply fmap_same with d).
  assert (Es : sts (<[n := set_next NULL d]> (nodes q)) = sts (nodes q)) by (by apply fmap_same with d).
  assert (Ep : ips (<[n := set_next NULL d]> (nodes q)) = ips (nodes q)) by (by apply fmap_same with d).
  unfold pushed_first. rewrite push_logged, app_comm_cons.
  split; cbn [set_node nodes _head used closed destroyed issued pushed ran cancelled stops _high_priority_tasks gQ gK gLO gM gRet]; rewrite ?Ei, ?Et, ?Es, ?Ep, ?nxt_insert.
  - rewrite !omap_app, Hown, Hlnk. by eapply shape_push_first.
  - replace (if stop_task d then [] else [task_of n d]) with (option_list (task_at (ids (nodes q)) n)) by (unfold task_at; rewrite (ids_at _ _ _ Hd); by destruct (stop_task d)).
    by apply (logs_push _ _ _ _ []).
  - split; [intros i j; intros; destruct j; [lia|done]|]. intros i x Hi HK. by destruct i; [lia|].
  - apply Forall_app. split; [|eapply actors_eq; [|done]; intros x Hx; split_and!; try done; apply lookup_insert_ne; by intros ->].
    eapply actors_eq; [|done]. rewrite Hown. intros x Hx. by apply elem_of_nil in Hx.
  - by rewrite omap_app, Hcon, app_nil_r.
  - rewrite Hcnt, weights_app, Htot, total_cons, waiting_cons. cbn [weight]. unfold waits. rewrite (ids_at _ _ _ Hd), Ht. destruct (high_priority d); lia.
  - rewrite <- app_comm_cons. eapply (stage_step _ _ _ _ (Pushing n) r); try done.
    + intros [|i] m v h Hi E; [done|by destruct i].
    + intros x ->%list_elem_of_singleton. by right.
    + intros Hcl x Hx Hxe. destruct (sg_exec _ _ _ _ _ _ _ _ Hst (Pushing n) Hcl ltac:(by left) eq_refl) as (m & v & h & [[= <-]|[p [=]]] & _ & E).
      rewrite (ids_at _ _ _ Hd), (Hex x Hx Hxe) in E. done.
Qed.

Lemma goes_push g q r n : inv g q (Pushing n :: r) -> goes r (push n q).
Proof.
  intros H. pose proof (i_actors _ _ _ H) as [((v & s & h & E & Hstp) & Ht & _) _]%Forall_cons. apply ids_lookup in E as (d & Hd & <- & <- & <-).
  rewrite (ips_at _ _ _ Hd) in Hstp. unfold push, node_at. rewrite Hd. cbn [deref mbind outcome_bind]. destruct (_head q) as [prev|] eqn:Hh; [by eapply goes_ok, goes_push_next|].
  change (goes r (if in_place d then Ok (pushed_first q n d, Consuming (mk_consumer n (Some n) true false) (Exec (high_priority d)), []) else Ok (pushed_first q n d, Idle, [start_fiber n]))).
  destruct (in_place d) eqn:Hip; eapply goes_ok, inv_push_first; try done.
  - by repeat constructor.
  - cbn [consumer_ok omap list_omap con]. unfold cons_ok. cbn [head cur_tail inplace destroy_queue position_ok pred]. rewrite Ht, (ids_at _ _ _ Hd). split_and!; try done; [|by split; [|intros (? & _)]|intros v' h' [= _ Es _]; by destruct (Hstp Es)]. intros _. split_and!; try done.
    destruct (stop_task d) eqn:Es; [by destruct Hstp|eauto].
  - intros x ->%list_elem_of_singleton _. destruct (stop_task d); [by destruct Hstp|done].
  - by rewrite list_elem_of_singleton.
  - by repeat constructor.
  - cbn [consumer_ok omap list_omap con start_fiber]. unfold cons_ok. cbn [head cur_tail inplace destroy_queue position_ok pred]. rewrite Ht, (ids_at _ _ _ Hd). split_and!; try done. by split; [|intros (? & _)].
  - intros x [->|[->|Hx%elem_of_nil]%elem_of_cons]%elem_of_cons; done.
  - rewrite !not_elem_of_cons. split_and!; try done. apply not_elem_of_nil.
Qed.

(** ** The consumer *)

Lemma add_high_0 q : add_high 0 q = q.
Proof. destruct q. unfold add_high. cbn. by rewrite Z.add_0_r. Qed.

Lemma inv_cons g q c p r : inv g q (Consuming c p :: r) -> omap con r = [] /\ cons_ok (ids (nodes q)) (its (nodes q)) (gQ g) (gK g) (gLO g) (gM g) c p.
Proof. intros H. apply i_consumer in H. cbn [omap list_omap con] in H. change (list_omap _ _ con r) with (omap con r) in H. by destruct (omap con r). Qed.

Lemma inv_node g q as_ i n : inv g q as_ -> gQ g !! i = Some n -> n ∈ used q /\ exists d, nodes q !! n = Some d.
Proof.
  intros H Hn. assert (Hu : n ∈ used q) by (eapply inv_used; [done|left; by eapply list_elem_of_lookup_2]). split; [done|].
  destruct (sh_dom _ _ _ _ _ _ _ _ _ (i_shape _ _ _ H) n Hu) as [l Hl]. unfold nxt in Hl. rewrite lookup_fmap in Hl. destruct (nodes q !! n) as [d|]; [by exists d|done].
Qed.

Lemma inv_first g q as_ : inv g q as_ -> gQ g <> [] -> (1 <= gK g <= length (gQ g))%nat.
Proof. intros H Hne. pose proof (sh_bounds _ _ _ _ _ _ _ _ _ (i_shape _ _ _ H)). pose proof (sh_pos _ _ _ _ _ _ _ _ _ (i_shape _ _ _ H) Hne). lia. Qed.

Lemma inv_next g q as_ y n d : inv g q as_ -> gM g = gK g -> gQ g !! y = Some n -> (y < gK g)%nat -> nodes q !! n = Some d ->
  as_node (next d) = Ok (take (gK g) (gQ g) !! S y) /\ (is_null (next d) = true <-> S y = gK g).
Proof.
  intros H HM Hy HK Hd. pose proof (sh_bounds _ _ _ _ _ _ _ _ _ (i_shape _ _ _ H)) as Hb. pose proof (sh_fwd _ _ _ _ _ _ _ _ _ (i_shape _ _ _ H) y n Hy ltac:(by left)) as Hn.
  rewrite (nxt_at _ _ _ Hd), HM in Hn. injection Hn as ->. unfold fwd. destruct (decide (S y = gK g)) as [E|Hne].
  - rewrite decide_True by (by left). rewrite lookup_take_ge by lia. done.
  - rewrite decide_False by lia. rewrite lookup_take_lt by lia. destruct (lookup_lt_is_Some_2 (gQ g) (S y) ltac:(lia)) as [m ->]. done.
Qed.

Lemma inv_move g q c p r c' p' k :
  inv g q (Consuming c p :: r) -> cons_ok (ids (nodes q)) (its (nodes q)) (gQ g) (gK g) (gLO g) (gM g) c' p' -> inplace c' = inplace c ->
  k = weight (ids (nodes q)) (Consuming c' p') - weight (ids (nodes q)) (Consuming c p) -> inv g (add_high k q) (Consuming c' p' :: r).
Proof.
  intros H Hc' Hip Hk. destruct (inv_cons _ _ _ _ _ H) as [Hcon _]. destruct H as [Hs Hl Hf Ha Hc Hcnt Hst]. split; try done.
  - apply Forall_cons in Ha as [_ Ha]. by apply Forall_cons.
  - cbn [omap list_omap con]. change (list_omap _ _ con r) with (omap con r). by rewrite Hcon.
  - cbn [add_high nodes _high_priority_tasks]. rewrite total_cons in *. lia.
  - cbn [add_high nodes used closed destroyed stops]. eapply (stage_step _ _ _ _ (Consuming c p) r _ _ _ _ _ _ _ (Consuming c' p') []); try done.
    + apply Hst.
    + by left.
    + intros _ x ->%list_elem_of_singleton. cbn [in_execute]. rewrite Hip. intros Hx. split; [done|]. intros m [[=]|[? [=]]].
    + by rewrite list_elem_of_singleton.
Qed.

Lemma goes_move g q c p r c' p' :
  inv g q (Consuming c p :: r) -> cons_ok (ids (nodes q)) (its (nodes q)) (gQ g) (gK g) (gLO g) (gM g) c' p' -> inplace c' = inplace c ->
  weight (ids (nodes q)) (Consuming c' p') = weight (ids (nodes q)) (Consuming c p) -> goes r (Ok (q, Consuming c' p', [])).
Proof. intros H Hc Hip Hw. apply goes_ok with g. rewrite <- (add_high_0 q). cbn [app]. eapply inv_move; [done..|lia]. Qed.

(** Nodes whose tasks are done go back to the pool. *)
Lemma return_ok q n d : nodes q !! n = Some d -> iterated d = true -> status d <> UNEXECUTED ->
  return_task_node n q = Ok (mk_queue (_head q) (_high_priority_tasks q)
    (<[n := mk_node (version d + 1) UNEXECUTED (stop_task d) (iterated d) (high_priority d) (in_place d) (next d)]> (nodes q))
    (used q ∖ {[n]}) (closed q) (destroyed q) (issued q) (pushed q) (ran q) (cancelled q) (stops q)).
Proof. intros Hd Hi Hs. unfold return_task_node, node_at. rewrite Hd. cbn [deref mbind outcome_bind]. rewrite Hi, orb_true_r. unfold unexecuted. by destruct (status d). Qed.

Lemma inv_status g q as_ n d : inv g q as_ -> n ∈ used q -> nodes q !! n = Some d -> iterated d = true -> status d <> UNEXECUTED.
Proof.
  intros H Hu Hd Hi. pose proof (i_logs _ _ _ H) as Hl. pose proof (its_lookup _ _ _ Hd) as Ht. rewrite Hi in Ht. pose proof (ids_at _ _ _ Hd) as E. destruct (stop_task d) eqn:Es.
  - pose proof (lg_stop _ _ _ _ _ _ _ _ _ _ Hl _ _ _ Hu E Ht) as Hx. rewrite (sts_at _ _ _ Hd) in Hx. congruence.
  - pose proof (lg_status _ _ _ _ _ _ _ _ _ _ Hl _ _ _ Hu E) as Hx. by rewrite Ht, (sts_at _ _ _ Hd) in Hx.
Qed.

Lemma iterated_waits im tm n : tm !! n = Some true -> waits im tm n = 0.
Proof. intros Ht. unfold waits. rewrite Ht. by destruct (im !! n) as [[[v s] []]|]. Qed.

Lemma inv_pop g q c p r d c' p' n Q' K' :
  inv g q (Consuming c p :: r) -> gQ g = head c :: n :: Q' -> gK g = S K' -> gLO g = S K' -> gM g = S K' -> (1 <= K')%nat -> nodes q !! head c = Some d -> iterated d = true ->
  cons_ok (ids (nodes q)) (its (nodes q)) (n :: Q') K' K' K' c' p' -> inplace c' = inplace c -> weight (ids (nodes q)) (Consuming c' p') = weight (ids (nodes q)) (Consuming c p) ->
  exists g' q', return_task_node (head c) q = Ok q' /\ inv g' q' (Consuming c' p' :: r).
Proof.
  intros H HQ HK HLO HM HK' Hd Hi Hc' Hip Hw. assert (Hu : head c ∈ used q) by (eapply (inv_node g q _ 0%nat); [done|by rewrite HQ]).
  rewrite (return_ok q _ d); [|done|done|by eapply inv_status]. pose proof (inv_nodup _ _ _ H) as Hnd. destruct (inv_cons _ _ _ _ _ H) as [Hcon _].
  destruct H as [Hs Hl Hf Ha _ Hcnt Hst]. rewrite HQ, HK, HLO, HM in *. pose proof Hnd as [HnQ _]%NoDup_cons. pose proof (its_lookup _ _ _ Hd) as Ht. rewrite Hi in Ht.
  set (d' := mk_node _ _ _ _ _ _ _).
  assert (Et : its (<[head c := d']> (nodes q)) = its (nodes q)) by (by apply fmap_same with d).
  assert (Ep : ips (<[head c := d']> (nodes q)) = ips (nodes q)) by (by apply fmap_same with d).
  assert (Hne : forall x, x ∈ n :: Q' -> head c <> x) by (by intros x Hx <-).
  cbn [omap list_omap own lnk] in Hs. change (list_omap _ _ own r) with (omap own r) in Hs. change (list_omap _ _ lnk r) with (omap lnk r) in Hs.
  pose proof (shape_pop _ _ _ _ _ _ _ _ Hs ltac:(by left)) as Hs'.
  assert (HO : forall x, x ∈ omap own r -> head c <> x) by (intros x Hx <-; pose proof (sh_nodup _ _ _ _ _ _ _ _ _ Hs') as Hn'; rewrite <- Permutation_middle in Hn'; apply NoDup_cons in Hn' as [Hn' _]; apply Hn', elem_of_app; by right).
  assert (Hnstop : stop_task d = false).
  { destruct (stop_task d) eqn:Es; [|done]. pose proof (sg_last _ _ _ _ _ _ _ _ Hst 0%nat (head c) (version d) (high_priority d) eq_refl) as Hx. rewrite (ids_at _ _ _ Hd), Es in Hx. by specialize (Hx eq_refl). }
  eexists (mk_ghost (n :: Q') K' K' K' _), _. split; [done|].
  split; cbn [nodes _head used closed destroyed issued pushed ran cancelled stops _high_priority_tasks gQ gK gLO gM gRet]; rewrite ?Et, ?Ep, ?ids_insert, ?nxt_insert, ?sts_insert; cbn [d' version stop_task high_priority next status].
  - eapply shape_return. rewrite (sh_head _ _ _ _ _ _ _ _ _ Hs). exact Hs'.
  - apply logs_return; [eapply logs_pop; [done..|by apply ids_at|done]|done|by apply ids_at].
  - apply flags_pop in Hf. eapply flags_eq; [|done]. intros x Hx. rewrite lookup_insert_ne by auto. done.
  - apply Forall_cons in Ha as [_ Ha]. apply Forall_cons. split; [done|]. eapply actors_eq; [|done]. intros x Hx. rewrite !lookup_insert_ne by auto. done.
  - cbn [omap list_omap con]. change (list_omap _ _ con r) with (omap con r). rewrite Hcon. cbn [consumer_ok]. rewrite <- (app_nil_r (n :: Q')).
    eapply cons_ok_eq; [|exact (sh_bounds _ _ _ _ _ _ _ _ _ Hs')|done]. intros x Hx. rewrite lookup_insert_ne by auto. done.
  - rewrite Hcnt. rewrite !total_cons, waiting_cons, (iterated_waits _ _ (head c)) by done.
    rewrite (total_eq (ids (nodes q)) (<[head c := _]> (ids (nodes q))) r) by (intros x Hx; rewrite lookup_insert_ne by auto; done).
    rewrite (waiting_eq (ids (nodes q)) (its (nodes q)) (<[head c := _]> (ids (nodes q))) (its (nodes q))) by (intros x Hx; rewrite lookup_insert_ne by auto; done).
    replace (weight (<[head c := _]> (ids (nodes q))) (Consuming c' p')) with (weight (ids (nodes q)) (Consuming c' p')) by done. lia.
  - eapply (stage_step _ _ _ _ (Consuming c p) r _ _ _ _ _ _ _ (Consuming c' p') []); [exact Hst|..].
    + intros x [Hx Hxn]%elem_of_difference. rewrite elem_of_singleton in Hxn. rewrite lookup_insert_ne by done. done.
    + intros x v h Hx E. apply elem_of_difference. split; [done|]. rewrite elem_of_singleton. intros ->. rewrite (ids_at _ _ _ Hd), Hnstop in E. done.
    + intros i x v h Hx. rewrite lookup_insert_ne by (apply Hne; by eapply list_elem_of_lookup_2). intros E. pose proof (sg_last _ _ _ _ _ _ _ _ Hst (S i) x v h Hx E) as Hx'. cbn [length] in *. lia.
    + intros x Hx. left. by right.
    + intros _ x ->%list_elem_of_singleton. cbn [in_execute]. rewrite Hip. intros Hx. split; [done|]. intros m [[=]|[? [=]]].
    + by rewrite list_elem_of_singleton.
Qed.

(** The list of a consumer. *)
Lemma inv_list g q c p r : inv g q (Consuming c p :: r) -> exists d Q', gQ g = head c :: Q' /\ nodes q !! head c = Some d /\ head c ∈ used q /\ (1 <= gK g <= length (gQ g))%nat.
Proof.
  intros H. destruct (inv_cons _ _ _ _ _ H) as [_ (H0 & _)]. destruct (inv_node _ _ _ _ _ H H0) as [Hu [d Hd]]. pose proof (inv_first _ _ _ H) as Hf. destruct (gQ g) as [|x Q'] eqn:HQ; [done|]. injection H0 as ->.
  exists d, Q'. split; [done|]. split; [done|]. split; [done|]. by apply Hf.
Qed.

(** The next node of the list follows the first. *)
Lemma inv_second g q c p r d : inv g q (Consuming c p :: r) -> gM g = gK g -> nodes q !! head c = Some d -> is_null (next d) = false ->
  exists n Q', gQ g = head c :: n :: Q' /\ (2 <= gK g)%nat /\ next d = Ptr n.
Proof.
  intros H HM Hd Hn. destruct (inv_list _ _ _ _ _ H) as (d' & Q' & HQ & Hd' & _ & HK). rewrite Hd in Hd'. injection Hd' as <-.
  destruct (inv_next g q _ 0%nat (head c) d H HM ltac:(by rewrite HQ) ltac:(lia) Hd) as [Ha Hnull]. assert (HK2 : gK g <> 1%nat) by (intros E; destruct Hnull as [_ Hx]; rewrite Hx in Hn; done).
  destruct Q' as [|n Q']; [rewrite HQ in HK; cbn [length] in HK; lia|]. exists n, Q'. split_and!; [done|lia|]. rewrite lookup_take_lt in Ha by lia. rewrite HQ in Ha. cbn in Ha.
  destruct (next d); [done..|]. cbn in Ha. congruence.
Qed.

(** Only the last node is the stop task. *)
Lemma inv_not_stop g q as_ n m Q' d : inv g q as_ -> gQ g = n :: m :: Q' -> nodes q !! n = Some d -> stop_task d = false.
Proof.
  intros H HQ Hd. destruct (stop_task d) eqn:Es; [|done]. pose proof (sg_last _ _ _ _ _ _ _ _ (i_stage _ _ _ H) 0%nat n (version d) (high_priority d) ltac:(by rewrite HQ)) as Hx.
  rewrite (ids_at _ _ _ Hd), Es, HQ in Hx. by specialize (Hx eq_refl).
Qed.

Lemma goes_top g q r c : inv g q (Consuming c Top :: r) -> goes r (execute_tasks c q).
Proof.
  intros H. destruct (inv_list _ _ _ _ _ H) as (d & Q' & HQ & Hd & Hu & HK). destruct (inv_cons _ _ _ _ _ H) as [_ (H0 & Ht & Hi & Hde & HLO & HM & Hip & Htop)].
  unfold execute_tasks, node_at. rewrite Hd. cbn [deref mbind outcome_bind]. rewrite (its_lookup _ _ _ Hd) in *. destruct (iterated d) eqn:Ei.
  - destruct (Htop eq_refl) as (n & HK2 & Hn & Hnf). destruct (inv_second g q c _ r d H ltac:(done) Hd) as (n' & Q2 & HQ2 & _ & ->).
    { destruct (is_null (next d)) eqn:En; [|done]. destruct (inv_next g q _ 0%nat (head c) d H ltac:(done) H0 ltac:(lia) Hd) as [_ [Hx _]]. specialize (Hx En). lia. }
    rewrite HQ2 in Hn. injection Hn as ->. destruct (gK g) as [|K'] eqn:EK; [lia|].
    destruct (inv_pop g q c Top r d (mk_consumer n (cur_tail c) (inplace c) (destroy_queue c)) Load n Q2 K') as (g' & q' & -> & Hinv); try done; [lia| |by eapply goes_ok].
    unfold cons_ok. cbn [head cur_tail inplace destroy_queue position_ok]. rewrite HQ2 in Ht. split_and!; try done.
    + intros t Et. specialize (Ht t Et). by destruct K'; [lia|].
    + by rewrite Hip.
    + rewrite Hde, Hnf, (ids_at _ _ _ Hd). rewrite (inv_not_stop g q _ _ _ _ d H HQ2 Hd). naive_solver.
  - eapply goes_move; [done| |done|done]. unfold cons_ok. cbn [position_ok]. rewrite (its_lookup _ _ _ Hd), Ei. done.
Qed.

Lemma total_zero im as_ : omap con as_ = [] -> (forall a, a ∈ as_ -> forall n v s, a = Pushing n -> im !! n <> Some (v, s, true)) -> total im as_ = 0.
Proof.
  induction as_ as [|a as_ IH]; intros Hc H; [done|]. rewrite total_cons, IH.
  - destruct a; try done. cbn [weight]. pose proof (H (Pushing n) ltac:(by left) n) as Hn. destruct (im !! n) as [[[v s] []]|]; naive_solver.
  - cbn in Hc. by destruct (con a).
  - intros x Hx. apply H. by right.
Qed.

Lemma goes_load g q r c : inv g q (Consuming c Load :: r) -> goes r (Ok (q, Consuming c (Exec (0 <? _high_priority_tasks q)), [])).
Proof.
  intros H. destruct (inv_cons _ _ _ _ _ H) as [Hcon Hc]. pose proof Hc as (H0 & Ht & Hi & Hde & HLO & HM & Hip & Hf). eapply goes_move; [done| |done|done].
  unfold cons_ok. cbn [position_ok]. split_and!; try done. intros v h E. destruct (inv_list _ _ _ _ _ H) as (d & Q' & HQ & Hd & Hu & HK).
  pose proof (i_stage _ _ _ H) as Hst. assert (HQ1 : gQ g = [head c]).
  { pose proof (sg_last _ _ _ _ _ _ _ _ Hst 0%nat _ v h H0 E) as Hlen. rewrite HQ in *. destruct Q'; [done|by cbn in Hlen]. }
  assert (h = false) as -> by (by eapply (sg_low _ _ _ _ _ _ _ _ Hst)). assert (Hcl : closed q = true).
  { destruct (closed q) eqn:Ecl; [done|]. destruct (sg_open _ _ _ _ _ _ _ _ Hst eq_refl) as (_ & _ & _ & Hno). by edestruct Hno. }
  rewrite (i_count _ _ _ H), HQ1, total_cons, total_zero; [|done|].
  - cbn [weight waiting foldr]. unfold waits. rewrite E. done.
  - intros a Ha n v' s -> En. destruct (sg_exec _ _ _ _ _ _ _ _ Hst (Pushing n) Hcl ltac:(by right) eq_refl) as (m & v1 & h1 & [[= <-]|[p [=]]] & Hm & Em).
    pose proof (sg_low _ _ _ _ _ _ _ _ Hst _ _ _ Hm Em). congruence.
Qed.

(** A task is iterated. *)
Lemma inv_mark g q c p r x n d s' rn st c' p' :
  inv g q (Consuming c p :: r) -> gQ g !! x = Some n -> (x < gK g)%nat -> nodes q !! n = Some d -> iterated d = false ->
  logs (ids (nodes q)) (<[n := true]> (its (nodes q))) (<[n := s']> (sts (nodes q))) (used q) (gQ g) (gRet g) (issued q) (pushed q) rn (cancelled q) ->
  (forall i n' v', (i < x)%nat -> gQ g !! i = Some n' -> ids (nodes q) !! n' = Some (v', false, high_priority d) -> its (nodes q) !! n' = Some true) ->
  cons_ok (ids (nodes q)) (<[n := true]> (its (nodes q))) (gQ g) (gK g) (gLO g) (gM g) c' p' ->
  weight (ids (nodes q)) (Consuming c' p') = weight (ids (nodes q)) (Consuming c p) + waits (ids (nodes q)) (its (nodes q)) n ->
  stage (ids (nodes q)) (<[n := true]> (its (nodes q))) (used q) (gQ g) (Consuming c' p' :: r) (closed q) (destroyed q) st ->
  inv g (mk_queue (_head q) (_high_priority_tasks q) (<[n := set_iterated s' d]> (nodes q)) (used q) (closed q) (destroyed q) (issued q) (pushed q) rn (cancelled q) st)
    (Consuming c' p' :: r).
Proof.
  intros H Hx HK Hd Hi Hl Hall Hc' Hw Hst. pose proof (inv_nodup _ _ _ H) as Hnd. destruct (inv_cons _ _ _ _ _ H) as [Hcon _]. destruct H as [Hs _ Hf Ha _ Hcnt _].
  assert (Ei : ids (<[n := set_iterated s' d]> (nodes q)) = ids (nodes q)) by (by apply fmap_same with d).
  assert (En : nxt (<[n := set_iterated s' d]> (nodes q)) = nxt (nodes q)) by (by apply fmap_same with d).
  assert (Ep : ips (<[n := set_iterated s' d]> (nodes q)) = ips (nodes q)) by (by apply fmap_same with d).
  pose proof (its_lookup _ _ _ Hd) as Ht. rewrite Hi in Ht. apply Forall_cons in Ha as [_ Ha].
  split; cbn [nodes _head used closed destroyed issued pushed ran cancelled stops _high_priority_tasks]; rewrite ?Ei, ?En, ?Ep, ?its_insert, ?sts_insert; cbn [set_iterated iterated status]; try done.
  - by eapply flags_mark; [..|by apply ids_at|].
  - apply Forall_cons. split; [done|]. eapply actors_eq; [|done]. intros y Hy. split_and!; try done. apply lookup_insert_ne. intros ->.
    pose proof (sh_nodup _ _ _ _ _ _ _ _ _ Hs) as Hn. apply NoDup_app in Hn as (_ & Hdis & _). eapply Hdis; [by eapply list_elem_of_lookup_2|done].
  - cbn [omap list_omap con]. change (list_omap _ _ con r) with (omap con r). by rewrite Hcon.
  - rewrite Hcnt, (waiting_mark _ _ _ x) by done. rewrite !total_cons. lia.
Qed.

Lemma stage_stop im tm us n c p r cl de st c' p' v h :
  stage im tm us [n] (Consuming c p :: r) cl de st -> n ∈ us -> im !! n = Some (v, true, h) -> tm !! n = Some false -> inplace c = false -> inplace c' = false ->
  stage im (<[n := true]> tm) us [n] (Consuming c' p' :: r) cl de (st + 1).
Proof.
  intros [Hl Hlow Ho He Hc] Hu E Ht Hip Hip'. assert (cl = true) as ->.
  { destruct cl; [done|]. destruct (Ho eq_refl) as (_ & _ & _ & Hno). by edestruct Hno. }
  split; try done.
  - intros a _ [->|Ha]%elem_of_cons Hx; [cbn in Hx; congruence|]. by apply He; [|right|].
  - intros _. left. destruct (Hc eq_refl) as [(m & v1 & h1 & b & Hm & Em & Htm & Hst & Hde & Hfi & Huni & _)|(Hno & _)]; [|by edestruct Hno].
    assert (n = m) as <- by (by eapply Huni). rewrite Ht in Htm. injection Htm as <-. exists n, v, h, true. rewrite lookup_insert_eq. split_and!; try done.
    + lia.
    + apply not_elem_of_cons in Hfi as [_ Hfi]. by apply not_elem_of_cons.
    + by intros _ x ->%list_elem_of_singleton.
Qed.

Lemma goes_exec g q r c high : inv g q (Consuming c (Exec high) :: r) -> goes r (execute_list c high q).
Proof.
  intros H. destruct (inv_list _ _ _ _ _ H) as (d & Q' & HQ & Hd & Hu & HK). destruct (inv_cons _ _ _ _ _ H) as [_ Hc]. pose proof Hc as (H0 & Ht & Hi & Hde & HLO & HM & Hf & Hh).
  unfold execute_list, node_at. rewrite Hd. cbn [deref mbind outcome_bind]. rewrite (its_lookup _ _ _ Hd) in Hf. injection Hf as Hf. rewrite (ids_at _ _ _ Hd) in *. destruct (stop_task d) eqn:Es.
  - assert (HQ1 : gQ g = [head c]).
    { pose proof (sg_last _ _ _ _ _ _ _ _ (i_stage _ _ _ H) 0%nat _ (version d) (high_priority d) H0) as Hlen. rewrite (ids_at _ _ _ Hd), Es, HQ in *. destruct Q'; [done|]. by specialize (Hlen eq_refl). }
    assert (Hip : inplace c = false) by (destruct (inplace c); [destruct (Hi eq_refl) as (_ & _ & ? & ? & [=])|done]).
    assert (Hh0 : high_priority d = false) by (by eapply (sg_low _ _ _ _ _ _ _ _ (i_stage _ _ _ H)); [|rewrite (ids_at _ _ _ Hd), Es]).
    rewrite HQ1 in HK. cbn [length] in HK. destruct (inv_next g q _ 0%nat (head c) d H HM H0 ltac:(lia) Hd) as [_ [_ Hnull]]. rewrite Hnull by lia. cbn [check mbind outcome_bind].
    rewrite (Hh _ _ eq_refl). unfold after_execute. cbn [inplace]. rewrite Hip. apply goes_ok with g.
    apply (inv_mark g q c (Exec high) r 0%nat (head c) d EXECUTED (ran q) (stops q + 1)); try done; [lia|..].
    + eapply logs_mark_stop; [by eapply i_logs|by eapply inv_nodup|done|by rewrite (ids_at _ _ _ Hd), Es|by rewrite (its_lookup _ _ _ Hd), Hf].
    + lia.
    + unfold cons_ok. cbn [head cur_tail inplace destroy_queue position_ok]. rewrite lookup_insert_eq, (ids_at _ _ _ Hd), Es. split_and!; try done. split; [|done]. intros _. eauto.
    + cbn [weight]. unfold waits. by rewrite (ids_at _ _ _ Hd), Hh0.
    + rewrite HQ1. pose proof (i_stage _ _ _ H) as Hst. rewrite HQ1 in Hst. eapply stage_stop; [done|done|by rewrite (ids_at _ _ _ Hd), Es|by rewrite (its_lookup _ _ _ Hd), Hf|done|done].
  - eapply goes_move; [done| |done|cbn [weight]; unfold iter_weight; by destruct high]. unfold cons_ok. cbn [position_ok]. rewrite (ids_at _ _ _ Hd), Es. split_and!; try done. exists 0%nat.
    split_and!; [lia| |lia]. rewrite lookup_take_lt by lia. done.
Qed.

Lemma cons_position im tm Q K LO M c p p' : cons_ok im tm Q K LO M c p -> position_ok im tm Q K LO M c p' -> cons_ok im tm Q K LO M c p'.
Proof. by intros (? & ? & ? & ? & _). Qed.

(** The iterator moves on. *)
Lemma iter_next g q c p r it x n d : inv g q (Consuming c p :: r) -> gM g = gK g -> iter_ok (ids (nodes q)) (its (nodes q)) (gQ g) (gK g) it x -> _cur_node it = Some n ->
  nodes q !! n = Some d -> (stop_task d = false -> high_priority d = _high_priority it -> iterated d = true) ->
  exists cur, as_node (next d) = Ok cur /\ forall it', _cur_node it' = cur -> _high_priority it' = _high_priority it -> iter_ok (ids (nodes q)) (its (nodes q)) (gQ g) (gK g) it' (S x).
Proof.
  intros H HM (Hx & Hcur & Hall) Hn Hd Hdone. rewrite Hn in Hcur. symmetry in Hcur. apply lookup_take_Some in Hcur as [Hq HxK].
  destruct (inv_next g q _ x n d H HM Hq HxK Hd) as [Ha _]. eexists. split; [done|]. intros it' Hc' Hh'. split_and!; [lia|done|]. rewrite Hh'. intros i m v Hi Hm E.
  destruct (decide (i = x)) as [->|]; [|apply (Hall i m v); [lia|done..]]. rewrite Hq in Hm. injection Hm as <-. rewrite (ids_at _ _ _ Hd) in E. injection E as _ Es Eh.
  by rewrite (its_lookup _ _ _ Hd), Hdone.
Qed.

Lemma iter_same im tm Q K it it' x : iter_ok im tm Q K it x -> _cur_node it' = _cur_node it -> _high_priority it' = _high_priority it -> iter_ok im tm Q K it' x.
Proof. unfold iter_ok. by intros H -> ->. Qed.

Lemma iter_node g q as_ it x n : inv g q as_ -> iter_ok (ids (nodes q)) (its (nodes q)) (gQ g) (gK g) it x -> _cur_node it = Some n ->
  gQ g !! x = Some n /\ (x < gK g)%nat /\ n ∈ used q /\ exists d, nodes q !! n = Some d.
Proof.
  intros H (Hx & Hcur & _) Hn. rewrite Hn in Hcur. symmetry in Hcur. apply lookup_take_Some in Hcur as [Hq HxK]. destruct (inv_node _ _ _ _ _ H Hq) as [? ?]. done.
Qed.

Lemma valid_ok g q as_ it x : inv g q as_ -> iter_ok (ids (nodes q)) (its (nodes q)) (gQ g) (gK g) it x -> exists b, valid it q = Ok b.
Proof.
  intros H Hit. unfold valid. destruct (_should_break it); [eauto|]. destruct (_cur_node it) as [n|] eqn:Hn; [|eauto].
  destruct (iter_node _ _ _ _ _ _ H Hit Hn) as (_ & _ & _ & d & Hd). unfold node_at. rewrite Hd. cbn. eauto.
Qed.

Lemma goes_inc g q r c it : inv g q (Consuming c (Inc it) :: r) -> goes r (increment c it q).
Proof.
  intros H. destruct (inv_cons _ _ _ _ _ H) as [_ Hc]. pose proof Hc as (_ & _ & _ & _ & HLO & HM & x & Hit). destruct (valid_ok _ _ _ _ _ H Hit) as [b Hb]. unfold increment. rewrite Hb. cbn [mbind outcome_bind].
  assert (Hstay : goes r (Ok (q, Consuming c (User it), []))).
  { eapply goes_move; [done| |done|done]. eapply cons_position; [done|]. cbn [position_ok]. eauto. }
  destruct (_cur_node it) as [n|] eqn:Hn; [|done]. destruct b; [|done]. cbn [negb].
  destruct (iter_node _ _ _ _ _ _ H Hit Hn) as (Hq & HxK & Hu & d & Hd). unfold node_at. rewrite Hd. cbn [deref mbind outcome_bind].
  assert (Hcur : exists cur y, (if iterated d then as_node (next d) else Ok (Some n)) = Ok cur /\
    forall it', _cur_node it' = cur -> _high_priority it' = _high_priority it -> iter_ok (ids (nodes q)) (its (nodes q)) (gQ g) (gK g) it' y).
  { destruct (iterated d) eqn:Ei.
    - destruct (iter_next g q c _ r it x n d H ltac:(done) Hit Hn Hd ltac:(done)) as (cur & Ha & Hnext). eauto.
    - exists (Some n), x. split; [done|]. intros it' E1 E2. eapply iter_same; [done|congruence|done]. }
  destruct Hcur as (cur & y & -> & Hy). case_if; (eapply goes_move; [done| |done|done]); (eapply cons_position; [done|]); cbn [position_ok]; split_and!; try done; exists y; by apply Hy.
Qed.

Lemma goes_user_next g q r c it : inv g q (Consuming c (User it) :: r) -> goes r (Ok (q, Consuming c (Inc it), [])).
Proof. intros H. destruct (inv_cons _ _ _ _ _ H) as [_ Hc]. eapply goes_move; [done| |done|done]. eapply cons_position; [done|]. by destruct Hc as (_ & _ & _ & _ & Hp). Qed.

Lemma goes_user_return g q r c it : inv g q (Consuming c (User it) :: r) -> goes r (Ok (q, Consuming c (Dtor (Some (head c)) it), [])).
Proof.
  intros H. destruct (inv_cons _ _ _ _ _ H) as [_ Hc]. pose proof Hc as (H0 & _ & _ & _ & HLO & HM & x & Hit). destruct (inv_list _ _ _ _ _ H) as (d & Q' & HQ & Hd & Hu & HK).
  eapply goes_move; [done| |done|done]. eapply cons_position; [done|]. cbn [position_ok]. split_and!; try done. exists x, 0%nat. split_and!; [done|lia|]. by rewrite lookup_take_lt by lia.
Qed.

Lemma goes_sub g q r c n : inv g q (Consuming c (Sub n) :: r) -> goes r (Ok (add_high (- n) q, Consuming c (if inplace c then More else Release), [])).
Proof.
  intros H. destruct (inv_cons _ _ _ _ _ H) as [_ Hc]. pose proof Hc as (H0 & _ & Hi & _ & HLO & HM & _). apply goes_ok with g. cbn [app]. eapply inv_move; [done| |done|by destruct (inplace c); cbn [weight]; lia].
  eapply cons_position; [done|]. destruct (inplace c) eqn:Hip; [|done]. destruct (Hi eq_refl) as (HK & Ht & _). cbn [position_ok]. rewrite Ht. done.
Qed.

Lemma set_node_same q n d : nodes q !! n = Some d -> set_node n d q = q.
Proof. intros Hd. destruct q. unfold set_node. cbn in *. by rewrite insert_id. Qed.

Lemma cons_mark im tm Q K LO M c p p' n v h : cons_ok im tm Q K LO M c p -> im !! n = Some (v, false, h) -> position_ok im (<[n := true]> tm) Q K LO M c p' -> cons_ok im (<[n := true]> tm) Q K LO M c p'.
Proof.
  intros (? & ? & ? & Hd & _) E Hp. split_and!; try done. rewrite Hd. destruct (decide (n = head c)) as [->|]; [|by rewrite lookup_insert_ne].
  rewrite E. naive_solver.
Qed.

Lemma iter_mark im tm Q K it x n : iter_ok im tm Q K it x -> iter_ok im (<[n := true]> tm) Q K it x.
Proof.
  intros (? & ? & Hall). split_and!; try done. intros i m v Hi Hm E. destruct (decide (n = m)) as [<-|]; [by rewrite lookup_insert_eq|]. rewrite lookup_insert_ne by done. by eapply Hall.
Qed.

(** The task at the iterator is given to the callback, or passed over. *)
Lemma inv_task g q c r it x n d p' :
  inv g q (Consuming c (Scan it) :: r) -> iter_ok (ids (nodes q)) (its (nodes q)) (gQ g) (gK g) it x -> _cur_node it = Some n -> nodes q !! n = Some d -> iterated d = false ->
  stop_task d = false -> high_priority d = _high_priority it -> position_ok (ids (nodes q)) (<[n := true]> (its (nodes q))) (gQ g) (gK g) (gLO g) (gM g) c p' ->
  weight (ids (nodes q)) (Consuming c p') = iter_weight it + (if _high_priority it then 1 else 0) ->
  inv g (mk_queue (_head q) (_high_priority_tasks q) (<[n := set_iterated (if decide (status d = UNEXECUTED) then EXECUTING else status d) d]> (nodes q)) (used q) (closed q) (destroyed q)
    (issued q) (pushed q) (if decide (status d = UNEXECUTED) then ran q ++ [task_of n d] else ran q) (cancelled q) (stops q)) (Consuming c p' :: r).
Proof.
  intros H Hit Hn Hd Hi Hs Hh Hp' Hw. destruct (iter_node _ _ _ _ _ _ H Hit Hn) as (Hq & HxK & Hu & _). destruct (inv_cons _ _ _ _ _ H) as [_ Hc].
  pose proof (ids_at _ _ _ Hd) as E. rewrite Hs in E. pose proof (its_lookup _ _ _ Hd) as Ht. rewrite Hi in Ht.
  apply (inv_mark g q c (Scan it) r x); try done.
  - eapply logs_mark; [by eapply i_logs|by eapply i_flags|by eapply inv_nodup|done|done|done|done|by apply sts_at].
  - rewrite Hh. by apply Hit.
  - by eapply cons_mark.
  - rewrite Hw. cbn [weight]. f_equal. unfold waits. rewrite E, Ht, Hh. done.
  - eapply (stage_step _ _ _ _ (Consuming c (Scan it)) r _ _ _ _ _ _ _ (Consuming c p') []); [by eapply i_stage|..].
    + intros y Hy. split_and!; try done. intros v h Ey. apply lookup_insert_ne. intros ->. congruence.
    + done.
    + by apply (sg_last _ _ _ _ _ _ _ _ (i_stage _ _ _ H)).
    + by left.
    + intros _ y ->%list_elem_of_singleton Hy. split; [done|]. intros m [[=]|[? [=]]].
    + by rewrite list_elem_of_singleton.
Qed.

Lemma goes_scan g q r c it : inv g q (Consuming c (Scan it) :: r) -> goes r (scan c it q).
Proof.
  intros H. destruct (inv_cons _ _ _ _ _ H) as [_ Hc]. pose proof Hc as (_ & _ & _ & _ & HLO & HM & x & Hit). unfold scan.
  assert (Hstay : goes r (Ok (q, Consuming c (User it), []))).
  { eapply goes_move; [done| |done|done]. eapply cons_position; [done|]. cbn [position_ok]. eauto. }
  destruct (_cur_node it) as [n|] eqn:Hn; [|done]. destruct (iter_node _ _ _ _ _ _ H Hit Hn) as (Hq & HxK & Hu & d & Hd). unfold node_at. rewrite Hd. cbn [deref mbind outcome_bind].
  destruct (stop_task d) eqn:Es; [done|]. destruct (Bool.eqb _ _) eqn:Eh.
  - apply Bool.eqb_prop in Eh. destruct (iterated d) eqn:Ei; cbn [negb andb].
    + destruct (iter_next g q c _ r it x n d H HM Hit Hn Hd ltac:(done)) as (cur & -> & Hnext). cbn [mbind outcome_bind].
      replace (set_iterated (status d) d) with d by (destruct d; cbn in *; by subst). rewrite set_node_same, Z.add_0_r by done.
      eapply goes_move; [done| |done|done]. eapply cons_position; [done|]. cbn [position_ok]. split_and!; try done. exists (S x). by apply Hnext.
    + pose proof (lg_status _ _ _ _ _ _ _ _ _ _ (i_logs _ _ _ H) n (version d) (high_priority d) Hu) as Hst. rewrite (ids_at _ _ _ Hd), (its_lookup _ _ _ Hd), (sts_at _ _ _ Hd), Es, Ei in Hst.
      specialize (Hst eq_refl). destruct (unexecuted d) eqn:Eu.
      * assert (Eu' : status d = UNEXECUTED) by (unfold unexecuted in Eu; by destruct (status d)). apply goes_ok with g.
        pose proof (inv_task g q c r it x n d (User (mk_iter (Some n) (_high_priority it) (_should_break it) (_num_iterated it + 1))) H Hit Hn Hd Ei Es (eq_sym Eh)) as Hinv.
        rewrite !decide_True in Hinv by done. apply Hinv; [|cbn [weight]; unfold iter_weight; cbn; by destruct (_high_priority it)].
        split_and!; try done. exists x. eapply iter_same; [by apply iter_mark|by rewrite Hn|done].
      * assert (Eu' : status d <> UNEXECUTED) by (unfold unexecuted in Eu; by destruct (status d)).
        destruct (inv_next g q _ x n d H HM Hq HxK Hd) as [-> _]. cbn [mbind outcome_bind]. apply goes_ok with g.
        pose proof (inv_task g q c r it x n d (Scan (mk_iter (take (gK g) (gQ g) !! S x) (_high_priority it) (_should_break it) (_num_iterated it + 1))) H Hit Hn Hd Ei Es (eq_sym Eh)) as Hinv.
        rewrite !decide_False in Hinv by done. apply Hinv; [|cbn [weight]; unfold iter_weight; cbn; by destruct (_high_priority it)].
        split_and!; try done. exists (S x). destruct Hit as (Hx & _ & Hall). split_and!; [lia|done|]. intros i m v Hi Hm E. destruct (decide (n = m)) as [<-|]; [by rewrite lookup_insert_eq|].
        rewrite lookup_insert_ne by done. apply (Hall i m v); [|done..]. assert (i <> x) by (intros ->; congruence). lia.
  - destruct (iter_next g q c _ r it x n d H HM Hit Hn Hd) as (cur & -> & Hnext). { intros _ E. by rewrite E, Bool.eqb_reflx in Eh. }
    cbn [mbind outcome_bind]. eapply goes_move; [done| |done|done]. eapply cons_position; [done|]. cbn [position_ok]. split_and!; try done. exists (S x). by apply Hnext.
Qed.

Lemma inv_executed g q as_ n d : inv g q as_ -> nodes q !! n = Some d -> iterated d = true -> inv g (set_node n (set_status EXECUTED d) q) as_.
Proof.
  intros [Hs Hl Hf Ha Hc Hcnt Hst] Hd Hi.
  assert (Ei : ids (<[n := set_status EXECUTED d]> (nodes q)) = ids (nodes q)) by (by apply fmap_same with d).
  assert (Et : its (<[n := set_status EXECUTED d]> (nodes q)) = its (nodes q)) by (by apply fmap_same with d).
  assert (En : nxt (<[n := set_status EXECUTED d]> (nodes q)) = nxt (nodes q)) by (by apply fmap_same with d).
  assert (Ep : ips (<[n := set_status EXECUTED d]> (nodes q)) = ips (nodes q)) by (by apply fmap_same with d).
  split; cbn [set_node nodes _head used closed destroyed issued pushed ran cancelled stops _high_priority_tasks]; rewrite ?Ei, ?Et, ?En, ?Ep, ?sts_insert; try done.
  apply logs_status; [done|]. by rewrite (its_lookup _ _ _ Hd), Hi.
Qed.

Lemma after_ok g q r c h it : inv g q (Consuming c (Dtor h it) :: r) -> goes r (Ok (q, after_execute c (_high_priority it) (_num_iterated it), [])).
Proof.
  intros H. destruct (inv_cons _ _ _ _ _ H) as [_ Hc]. pose proof Hc as (_ & _ & Hi & _ & HLO & HM & _). unfold after_execute.
  destruct (_high_priority it) eqn:Eh; (eapply goes_move; [done| |done|]).
  - by eapply cons_position.
  - cbn [weight]. unfold iter_weight. by rewrite Eh.
  - eapply cons_position; [done|]. destruct (inplace c) eqn:Hip; [|done]. destruct (Hi eq_refl) as (HK & Ht & _). cbn [position_ok]. rewrite Ht. done.
  - cbn [weight]. unfold iter_weight. rewrite Eh. by destruct (inplace c).
Qed.

Lemma goes_dtor g q r c h it : inv g q (Consuming c (Dtor h it) :: r) -> goes r (destruct_iterator c h it q).
Proof.
  intros H. destruct (inv_cons _ _ _ _ _ H) as [_ Hc]. pose proof Hc as (_ & _ & _ & _ & HLO & HM & x & y & Hit & Hyx & ->). unfold destruct_iterator. case_bool_decide as Eh.
  - destruct (_cur_node it) as [n|] eqn:Hn; [|by eapply after_ok]. destruct (_should_break it); [|by eapply after_ok].
    destruct (iter_node _ _ _ _ _ _ H Hit Hn) as (_ & _ & _ & d & Hd). unfold node_at. rewrite Hd. cbn [deref mbind outcome_bind].
    case_if; [|by eapply after_ok]. eapply after_ok, inv_executed; [done..|]. by destruct (iterated d), (Bool.eqb _ _).
  - destruct (take (gK g) (gQ g) !! y) as [n|] eqn:Hy.
    + apply lookup_take_Some in Hy as [Hy HyK]. destruct (inv_node _ _ _ _ _ H Hy) as [Hu [d Hd]]. unfold node_at. cbn [deref mbind outcome_bind]. rewrite Hd. cbn [deref mbind outcome_bind].
      destruct (inv_next g q _ y n d H HM Hy HyK Hd) as [-> _]. cbn [mbind outcome_bind].
      assert (Hmove : inv g q (Consuming c (Dtor (take (gK g) (gQ g) !! S y) it) :: r)).
      { rewrite <- (add_high_0 q). eapply inv_move; [done| |done|cbn [weight]; lia]. eapply cons_position; [done|]. cbn [position_ok]. split_and!; try done. exists x, (S y). split_and!; try done.
        assert (y <> x); [|lia]. intros ->. apply Eh. destruct Hit as (_ & -> & _). symmetry. by apply lookup_take_Some. }
      case_if; eapply goes_ok; [|done]. apply inv_executed; [done..|]. by destruct (iterated d).
    + exfalso. apply Eh. destruct Hit as (Hx & -> & _). apply lookup_ge_None in Hy. symmetry. apply lookup_ge_None. lia.
Qed.

Lemma goes_release g q r c : inv g q (Consuming c Release :: r) -> goes r (release c q).
Proof.
  intros H. destruct (inv_cons _ _ _ _ _ H) as [_ Hc]. pose proof Hc as (H0 & Ht & Hi & Hde & HLO & HM & Hip). destruct (inv_list _ _ _ _ _ H) as (d & Q' & HQ & Hd & Hu & HK).
  unfold release, node_at. rewrite Hd. cbn [deref mbind outcome_bind]. destruct (negb (is_null (next d)) && iterated d) eqn:Eb.
  - apply andb_true_iff in Eb as [En Ei]. apply negb_true_iff in En. destruct (inv_second g q c _ r d H HM Hd En) as (n & Q2 & HQ2 & HK2 & ->). cbn [as_node deref mbind outcome_bind].
    destruct (gK g) as [|K'] eqn:EK; [lia|]. pose proof (inv_not_stop g q _ _ _ _ d H HQ2 Hd) as Hns. rewrite (ids_at _ _ _ Hd), Hns in Hde.
    destruct (inv_pop g q c Release r d (mk_consumer n (cur_tail c) (inplace c) (destroy_queue c)) Release n Q2 K') as (g' & q' & -> & Hinv); try done; [lia| |by eapply goes_ok].
    unfold cons_ok. cbn [head cur_tail inplace destroy_queue position_ok]. rewrite HQ2 in Ht. split_and!; try done.
    + intros t Et. specialize (Ht t Et). by destruct K'; [lia|].
    + by rewrite Hip.
    + assert (Hd0 : destroy_queue c = false) by (destruct (destroy_queue c); [destruct (proj1 Hde eq_refl) as (_ & ? & ? & [=])|done]). rewrite Hd0. split; [done|]. intros [Htn (v & h & En')]. exfalso.
      assert (Hn1 : gQ g !! 1%nat = Some n) by (by rewrite HQ2). destruct (inv_node _ _ _ _ _ H Hn1) as [Hun _].
      destruct (sg_closed _ _ _ _ _ _ _ _ (i_stage _ _ _ H)) as [(m & v1 & h1 & b & Hm & Em & Htm & _ & _ & _ & Huni & Hb)|(Hno & _)]; [| |by edestruct Hno].
      { destruct (closed q) eqn:Ecl; [done|]. destruct (sg_open _ _ _ _ _ _ _ _ (i_stage _ _ _ H) Ecl) as (_ & _ & _ & Hno). by edestruct Hno. }
      assert (n = m) as <- by (by eapply Huni). rewrite Htn in Htm. injection Htm as <-. pose proof (inv_nodup _ _ _ H) as Hnd. rewrite HQ2 in Hnd, Hb.
      assert (head c = n) as Ehn by (apply Hb; [done|by left]). apply NoDup_cons in Hnd as [Hnd _]. apply Hnd. rewrite Ehn. by left.
  - assert (HK1 : its (nodes q) !! head c = Some true -> gK g = 1%nat).
    { rewrite (its_lookup _ _ _ Hd). intros [= Ei]. rewrite Ei, andb_true_r in Eb. apply negb_false_iff in Eb. destruct (inv_next g q _ 0%nat (head c) d H HM H0 ltac:(lia) Hd) as [_ [Hx _]]. by rewrite Hx. }
    eapply goes_move; [done| |done|by destruct (cur_tail c)]. eapply cons_position; [done|]. destruct (cur_tail c) as [t|] eqn:Et; cbn [position_ok]; split_and!; try done; [by rewrite Et|].
    exists 0%nat. split; [lia|done].
Qed.

Lemma goes_tail g q r c t : inv g q (Consuming c (Tail t) :: r) -> goes r (find_tail c t q).
Proof.
  intros H. destruct (inv_cons _ _ _ _ _ H) as [_ Hc]. pose proof Hc as (H0 & Ht & Hi & Hde & HLO & HM & Hip & (y & HyK & Hy) & H1). destruct (inv_node _ _ _ _ _ H Hy) as [Hu [d Hd]].
  unfold find_tail, node_at. rewrite Hd. cbn [deref mbind outcome_bind]. destruct (inv_next g q _ y t d H HM Hy HyK Hd) as [-> _]. cbn [mbind outcome_bind].
  destruct (take (gK g) (gQ g) !! S y) as [n|] eqn:En; (eapply goes_move; [done| |done|done]).
  - apply lookup_take_Some in En as [En HnK]. eapply cons_position; [done|]. cbn [position_ok]. eauto 10.
  - assert (S y = gK g) as EK. { apply lookup_ge_None in En. rewrite length_take in En. apply lookup_lt_Some in Hy. pose proof (sh_bounds _ _ _ _ _ _ _ _ _ (i_shape _ _ _ H)). lia. }
    unfold cons_ok. cbn [head cur_tail inplace destroy_queue position_ok]. split_and!; try done; [|by rewrite Hip]. intros t' [= <-]. by rewrite <- EK.
Qed.

(** The consumer changes links. *)
Lemma inv_relink g q c p r m K LO M a new :
  inv g q (Consuming c p :: r) -> ids m = ids (nodes q) -> its m = its (nodes q) -> sts m = sts (nodes q) -> ips m = ips (nodes q) ->
  (forall n, n ∉ gQ g -> nxt m !! n = nxt (nodes q) !! n) -> shape (nxt m) (used q) (_head q) (gQ g) K LO M (omap own r) (omap lnk r) -> (gK g <= K)%nat ->
  omap own (a :: new) = [] -> omap lnk (a :: new) = [] -> consumer_ok (ids (nodes q)) (its (nodes q)) (gQ g) K LO M (omap con (a :: new)) ->
  total (ids (nodes q)) (a :: new) = weight (ids (nodes q)) (Consuming c p) -> (forall x, x ∈ a :: new -> in_execute x = true -> inplace c = true) -> (Finishing true ∉ a :: new) ->
  inv (mk_ghost (gQ g) K LO M (gRet g)) (mk_queue (_head q) (_high_priority_tasks q) m (used q) (closed q) (destroyed q) (issued q) (pushed q) (ran q) (cancelled q) (stops q)) (a :: new ++ r).
Proof.
  intros H Ei Et Es Ep En Hs' HK Hown Hlnk Hcons Hw Hex Hfin. destruct (inv_cons _ _ _ _ _ H) as [Hcon _]. destruct H as [Hs Hl Hf Ha _ Hcnt Hst]. apply Forall_cons in Ha as [_ Ha].
  rewrite app_comm_cons. split; cbn [nodes _head used closed destroyed issued pushed ran cancelled stops _high_priority_tasks gQ gK gLO gM gRet]; rewrite ?Ei, ?Et, ?Es, ?Ep; try done.
  - by rewrite !omap_app, Hown, Hlnk.
  - by eapply flags_more.
  - apply Forall_app. split.
    + apply Forall_forall. intros x Hx. assert (Hno : own x = None).
      { destruct (own x) as [n|] eqn:E; [|done]. assert (Hn : n ∈ omap own (a :: new)) by (apply list_elem_of_omap; eauto). rewrite Hown in Hn. by apply elem_of_nil in Hn. }
      by destruct x.
    + eapply actors_eq; [|done]. intros x Hx. split_and!; try done. apply En. intros HxQ. pose proof (sh_nodup _ _ _ _ _ _ _ _ _ Hs) as Hn. apply NoDup_app in Hn as (_ & Hdis & _). by eapply Hdis.
  - by rewrite omap_app, Hcon, app_nil_r.
  - rewrite Hcnt, weights_app, Hw, total_cons. done.
  - eapply (stage_step _ _ _ _ (Consuming c p) r); try done.
    + by apply Hst.
    + by left.
    + intros _ x Hx Hxe. split; [by eapply Hex|]. intros n [[=]|[? [=]]].
Qed.

(** [_more_tasks] returned true. *)
Lemma inv_go_on g q c p r m K c' : 
  inv g q (Consuming c p :: r) -> ids m = ids (nodes q) -> its m = its (nodes q) -> sts m = sts (nodes q) -> ips m = ips (nodes q) ->
  (forall n, n ∉ gQ g -> nxt m !! n = nxt (nodes q) !! n) -> shape (nxt m) (used q) (_head q) (gQ g) K K K (omap own r) (omap lnk r) -> (gK g <= K)%nat ->
  weight (ids (nodes q)) (Consuming c p) = 0 -> head c' = head c -> inplace c' = inplace c -> destroy_queue c' = destroy_queue c ->
  (inplace c = false -> forall t, cur_tail c' = Some t -> gQ g !! pred K = Some t) ->
  (its (nodes q) !! head c = Some true -> exists n, (2 <= K)%nat /\ gQ g !! 1%nat = Some n /\ its (nodes q) !! n = Some false) ->
  goes r (go_on c' (mk_queue (_head q) (_high_priority_tasks q) m (used q) (closed q) (destroyed q) (issued q) (pushed q) (ran q) (cancelled q) (stops q))).
Proof.
  intros H Ei Et Es Ep En Hs' HK Hw Eh Eip Ede Htl Htop. destruct (inv_cons _ _ _ _ _ H) as [_ (H0 & Ht & Hi & Hde & _)]. unfold go_on. rewrite Eip, Eh. destruct (inplace c) eqn:Hip.
  - apply goes_ok with (mk_ghost (gQ g) K K K (gRet g)). eapply inv_relink; try done.
    + cbn [omap list_omap con start_fiber consumer_ok]. unfold cons_ok. cbn [head cur_tail inplace destroy_queue position_ok]. split_and!; try done. split; [done|].
      destruct (Hi eq_refl) as (_ & _ & v & h & ->). intros (_ & ? & ? & [=]).
    + rewrite !not_elem_of_cons. split_and!; try done. apply not_elem_of_nil.
  - apply goes_ok with (mk_ghost (gQ g) K K K (gRet g)). eapply inv_relink; try done.
    + cbn [omap list_omap con consumer_ok]. unfold cons_ok. cbn [position_ok]. rewrite Eh, Eip, Ede. split_and!; try done. by apply Htl.
    + intros x ->%list_elem_of_singleton. cbn [in_execute]. congruence.
    + by rewrite list_elem_of_singleton.
Qed.

Lemma queue_eta q : mk_queue (_head q) (_high_priority_tasks q) (nodes q) (used q) (closed q) (destroyed q) (issued q) (pushed q) (ran q) (cancelled q) (stops q) = q.
Proof. by destruct q. Qed.

Lemma inv_last g q as_ : inv g q as_ -> _head q = last (gQ g).
Proof. intros H. apply (sh_head _ _ _ _ _ _ _ _ _ (i_shape _ _ _ H)). Qed.

Lemma inv_shape g q c p r : inv g q (Consuming c p :: r) -> shape (nxt (nodes q)) (used q) (_head q) (gQ g) (gK g) (gLO g) (gM g) (omap own r) (omap lnk r).
Proof. intros H. exact (i_shape _ _ _ H). Qed.

(** The last node: the queue is empty. *)
Lemma goes_empty g q r c d : inv g q (Consuming c More :: r) -> gQ g = [head c] -> nodes q !! head c = Some d -> iterated d = true -> cur_tail c = Some (head c) ->
  goes r (Ok (set_head None q, Returning c, [])).
Proof.
  intros H HQ Hd Hi Ht. destruct (inv_cons _ _ _ _ _ H) as [Hcon (H0 & _ & Hip & Hde & HLO & HM & _)]. pose proof (inv_nodup _ _ _ H) as Hnd. pose proof (inv_shape _ _ _ _ _ H) as Hs.
  assert (HK : gK g = 1%nat) by (destruct (inv_list _ _ _ _ _ H) as (_ & _ & _ & _ & _ & Hb); rewrite HQ in Hb; cbn [length] in Hb; lia).
  destruct (inv_node _ _ _ _ _ H H0) as [Hu _]. destruct H as [_ Hl Hf Ha _ Hcnt Hst]. rewrite HQ, HK, HLO, HM in *. pose proof (shape_pop _ _ _ _ _ _ _ _ Hs ltac:(by right)) as Hs'.
  pose proof (its_lookup _ _ _ Hd) as Htt. rewrite Hi in Htt. pose proof (ids_at _ _ _ Hd) as E. apply Forall_cons in Ha as [_ Ha].
  apply goes_ok with (mk_ghost [] 0 0 0 (gRet g ++ option_list (task_at (ids (nodes q)) (head c)))).
  split; cbn [app set_head nodes _head used closed destroyed issued pushed ran cancelled stops _high_priority_tasks gQ gK gLO gM gRet]; try done.
  - by eapply logs_pop.
  - apply Forall_cons. split; [|done]. cbn [actor_ok]. rewrite Htt, E in *. split_and!; try done.
    + exists (version d), (high_priority d). do 3 f_equal. destruct (destroy_queue c); [destruct (proj1 Hde eq_refl) as (_ & ? & ? & [= _ -> _]); done|].
      destruct (stop_task d) eqn:Es; [|done]. symmetry. apply Hde. eauto.
    + destruct (inplace c); [|done]. destruct (Hip eq_refl) as (_ & _ & v & h & [= _ Es _]). destruct (destroy_queue c); [|done]. destruct (proj1 Hde eq_refl) as (_ & ? & ? & [= _ Es' _]). congruence.
  - cbn [omap list_omap con]. change (list_omap _ _ con r) with (omap con r). by rewrite Hcon.
  - rewrite Hcnt, !total_cons, waiting_cons, iterated_waits by done. done.
  - eapply (stage_step _ _ _ _ (Consuming c More) r _ _ _ _ _ _ _ (Returning c) []); [exact Hst|..]; try done.
    + intros x Hx. by apply elem_of_nil in Hx.
    + intros _ x ->%list_elem_of_singleton. intros Hx. split; [done|]. intros n [[=]|[? [=]]].
    + by rewrite list_elem_of_singleton.
Qed.

Lemma goes_more g q r c : inv g q (Consuming c More :: r) -> goes r (more_tasks c q).
Proof.
  intros H. destruct (inv_cons _ _ _ _ _ H) as [_ Hc]. pose proof Hc as (H0 & Ht & Hi & Hde & HLO & HM & Hct & H1). destruct (inv_list _ _ _ _ _ H) as (dh & Q' & HQ & Hdh & Hu & HK).
  destruct (cur_tail c) as [old|] eqn:Et; [|done]. specialize (Ht old eq_refl). destruct (inv_node _ _ _ _ _ H Ht) as [_ [d Hd]]. unfold more_tasks, node_at. rewrite Et, Hdh. cbn [deref mbind outcome_bind].
  rewrite Hd. cbn [deref mbind outcome_bind]. destruct (inv_next g q _ (pred (gK g)) old d H HM Ht ltac:(lia) Hd) as [_ [_ ->]]; [|lia]. cbn [check mbind outcome_bind].
  pose proof (inv_last _ _ _ H) as Hl. pose proof (inv_nodup _ _ _ H) as Hnd. pose proof (inv_shape _ _ _ _ _ H) as Hs. rewrite HLO, HM in Hs. case_bool_decide as Eh.
  - assert (EK : gK g = length (gQ g)).
    { rewrite Eh, last_lookup in Hl. symmetry in Hl. assert (pred (length (gQ g)) = pred (gK g)) by (by eapply (index_unique (gQ g))). lia. }
    destruct (iterated dh) eqn:Ei; cbn [negb].
    + assert (EK1 : gK g = 1%nat) by (apply H1; by rewrite (its_lookup _ _ _ Hdh), Ei). assert (HQ1 : gQ g = [head c]) by (rewrite HQ in EK; destruct Q'; [done|cbn in EK; lia]).
      eapply goes_empty; try done. rewrite HQ1, EK1 in Ht. cbn in Ht. congruence.
    + replace (set_head (Some old) q) with q by (rewrite <- Eh; by destruct q). rewrite <- (queue_eta q) at 1. eapply inv_go_on; try done.
      * intros _ t. rewrite Et. by intros [= <-].
      * by rewrite (its_lookup _ _ _ Hdh), Ei.
  - assert (HKl : (gK g < length (gQ g))%nat).
    { destruct (decide (gK g = length (gQ g))) as [E|]; [|lia]. exfalso. apply Eh. by rewrite Hl, last_lookup, <- E. }
    destruct (_head q) as [new|] eqn:En; [|symmetry in Hl; apply last_None in Hl; by rewrite Hl in HQ]. symmetry in Hl. rewrite last_lookup in Hl. cbn [deref mbind outcome_bind].
    pose proof (shape_take _ _ _ _ _ _ _ Hs HKl) as Hs'. rewrite <- (queue_eta q) at 1. apply goes_ok with (mk_ghost (gQ g) (gK g) (length (gQ g)) (length (gQ g)) (gRet g)). eapply inv_relink; try done.
    + by rewrite En.
    + cbn [omap list_omap con consumer_ok]. split_and!; try done; [by rewrite Et; intros t [= <-]|by rewrite Et|]. cbn [position_ok]. split_and!; try done.
      unfold fwd. rewrite decide_True; [done|]. right. lia.
    + by intros x ->%list_elem_of_singleton.
    + by rewrite list_elem_of_singleton.
Qed.

(** The links that the consumer turns around. *)
Lemma reverse_link g q r c old p tl nt : inv g q (Consuming c (Reverse old p tl nt) :: r) ->
  exists d lo s, nodes q !! p = Some d /\ gLO g = S lo /\ (gK g <= lo)%nat /\ gQ g !! lo = Some p /\ gQ g !! pred lo = Some s /\ (next d = Ptr s \/ next d = UNCONNECTED /\ (p, s) ∈ omap lnk r).
Proof.
  intros H. destruct (inv_cons _ _ _ _ _ H) as [_ (H0 & Ht & Hi & Hde & HKL & Ho & Hct & Hp & -> & Hnt & H1)]. destruct (inv_list _ _ _ _ _ H) as (dh & Q' & HQ & Hdh & Hu & HK).
  destruct (inv_node _ _ _ _ _ H Hp) as [_ [d Hd]]. destruct (gLO g) as [|[|lo]] eqn:EL; [lia..|]. cbn [pred] in *. pose proof (inv_shape _ _ _ _ _ H) as Hs.
  destruct (sh_back _ _ _ _ _ _ _ _ _ Hs lo p Hp ltac:(lia) ltac:(lia)) as (s & Hsq & Hnx). rewrite (nxt_at _ _ _ Hd) in Hnx. exists d, (S lo), s. split_and!; try done; [lia|].
  destruct Hnx as [[= ?]|[[= ?] ?]]; [by left|by right].
Qed.

Lemma goes_reverse g q r c old p tl nt res : inv g q (Consuming c (Reverse old p tl nt) :: r) -> reverse c old p tl nt q = Some res -> goes r res.
Proof.
  intros H Hres. destruct (reverse_link _ _ _ _ _ _ _ _ H) as (d & lo & s & Hd & EL & HKlo & Hp & Hsq & Hnx). unfold reverse in Hres. rewrite Hd in Hres.
  destruct Hnx as [Hnx|[Hnx _]]; rewrite Hnx in Hres; [|done]. injection Hres as <-. destruct (inv_cons _ _ _ _ _ H) as [_ Hc]. pose proof Hc as (H0 & Ht & Hi & Hde & HKL & Ho & Hct & _ & Htl & Hnt & H1).
  pose proof (inv_shape _ _ _ _ _ H) as Hs. pose proof (inv_nodup _ _ _ H) as Hnd. pose proof (sh_bounds _ _ _ _ _ _ _ _ _ Hs) as Hb. rewrite EL in *. cbn [pred] in Htl. subst tl.
  destruct (shape_reverse _ _ _ _ _ _ _ _ _ p s Hs HKlo Hp) as [_ Hs']; [by rewrite (nxt_at _ _ _ Hd), Hnx|]. set (d' := set_next (fwd (gQ g) (gK g) (gM g) lo) d) in *.
  assert (HK1 : (1 <= gK g)%nat) by (destruct (inv_list _ _ _ _ _ H) as (_ & _ & _ & _ & _ & ?); lia).
  assert (Ei : ids (<[p := d']> (nodes q)) = ids (nodes q)) by (by apply fmap_same with d).
  assert (Et : its (<[p := d']> (nodes q)) = its (nodes q)) by (by apply fmap_same with d).
  assert (Es : sts (<[p := d']> (nodes q)) = sts (nodes q)) by (by apply fmap_same with d).
  assert (Ep : ips (<[p := d']> (nodes q)) = ips (nodes q)) by (by apply fmap_same with d).
  assert (HpQ : forall n, n ∉ gQ g -> nxt (<[p := d']> (nodes q)) !! n = nxt (nodes q) !! n).
  { intros n Hn. rewrite nxt_insert. apply lookup_insert_ne. intros ->. by apply Hn; eapply list_elem_of_lookup_2. }
  destruct (Z.eqb_spec s old) as [->|Hne].
  - assert (lo = gK g) as -> by (assert (pred lo = pred (gK g)) by (by eapply (index_unique (gQ g))); lia).
    assert (Hpo : p <> old) by (intros ->; assert (gK g = pred (gK g)) by (by eapply (index_unique (gQ g))); lia).
    destruct (inv_node _ _ _ _ _ H Hsq) as [_ [do_ Hdo]]. unfold node_at. cbn [set_node nodes]. rewrite lookup_insert_ne by done. rewrite Hdo. cbn [deref mbind outcome_bind].
    assert (Hdo' : <[p := d']> (nodes q) !! old = Some do_) by (by rewrite lookup_insert_ne). unfold set_node. cbn [nodes _head used closed destroyed issued pushed ran cancelled stops _high_priority_tasks].
    apply (inv_go_on g q c (Reverse old p (fwd (gQ g) (gK g) (gM g) (gK g)) nt) r _ (gM g)); try done.
    + unfold ids in *. by rewrite (fmap_same _ _ _ do_).
    + unfold its in *. by rewrite (fmap_same _ _ _ do_).
    + unfold sts in *. by rewrite (fmap_same _ _ _ do_).
    + unfold ips in *. by rewrite (fmap_same _ _ _ do_).
    + intros n Hn. rewrite nxt_insert, lookup_insert_ne; [by apply HpQ|]. intros ->. by apply Hn; eapply list_elem_of_lookup_2.
    + rewrite !nxt_insert. eapply shape_join; [done|lia|done|done].
    + lia.
    + cbn [cur_tail]. by intros _ t [= <-].
    + intros Hit. specialize (H1 Hit). exists p. rewrite H1 in Hp. split_and!; [lia|done|]. by apply (fl_rest _ _ _ _ (i_flags _ _ _ H) 1%nat); [|lia].
  - assert (lo <> gK g) by (intros ->; congruence). apply goes_ok with (mk_ghost (gQ g) (gK g) lo (gM g) (gRet g)). eapply inv_relink; try done.
    + by rewrite nxt_insert.
    + cbn [omap list_omap con consumer_ok]. split_and!; try done. cbn [position_ok]. split_and!; try done; [lia|]. unfold fwd. rewrite decide_False by lia. replace (S (pred lo)) with lo by lia. by rewrite Hp.
    + by intros x ->%list_elem_of_singleton.
    + by rewrite list_elem_of_singleton.
Qed.

(** ** The end *)

Lemma stage_returned im tm nx us Q hd K LO M OW LK c a r cl de st v h :
  stage im tm us Q (Returning c :: r) cl de st -> shape nx us hd Q K LO M (head c :: OW) LK -> OW = omap own r -> LK = omap lnk r -> im !! head c = Some (v, destroy_queue c, h) -> tm !! head c = Some true ->
  in_execute a = false -> (a = Finishing true <-> destroy_queue c = true) -> stage (<[head c := (v + 1, destroy_queue c, h)]> im) tm (us ∖ {[head c]}) Q (a :: r) cl de st.
Proof.
  intros [Hl Hlow Ho He Hc] Hs -> -> E Ht Ha Hfin. pose proof (sh_nodup _ _ _ _ _ _ _ _ _ Hs) as Hnd. rewrite <- Permutation_middle in Hnd. apply NoDup_cons in Hnd as [Hn _]. apply not_elem_of_app in Hn as [HnQ HnO].
  assert (Hin : forall x, x ∈ us ∖ {[head c]} -> x ∈ us /\ x <> head c) by set_solver.
  assert (Hu : head c ∈ us) by (apply (sh_used _ _ _ _ _ _ _ _ _ Hs), elem_of_app; right; by left).
  assert (Hex : forall x n, x ∈ r -> pushes x n -> n <> head c).
  { intros x n Hx [->|[p ->]] ->; [apply HnO, list_elem_of_omap; by exists (Pushing (head c))|].
    destruct (sh_link _ _ _ _ _ _ _ _ _ Hs (head c) p) as (i & _ & Hi & _); [apply list_elem_of_omap; by exists (Linking (head c) p)|]. by apply HnQ; eapply list_elem_of_lookup_2. }
  split.
  - intros i x w k Hi. rewrite lookup_insert_ne; [by apply Hl|]. intros <-. by apply HnQ; eapply list_elem_of_lookup_2.
  - intros x w k [Hx Hne]%Hin. rewrite lookup_insert_ne by done. by apply Hlow.
  - intros Hcl. destruct (Ho Hcl) as (? & ? & Hf & Hno). split_and!; try done.
    + apply not_elem_of_cons in Hf as [_ Hf]. apply not_elem_of_cons. split; [|done]. intros Hx. symmetry in Hx. apply Hfin in Hx. rewrite Hx in E. by edestruct Hno.
    + intros x w k [Hx Hne]%Hin. rewrite lookup_insert_ne by done. by apply Hno.
  - intros x Hcl [->|Hx]%elem_of_cons Hxe; [congruence|]. destruct (He x Hcl ltac:(by right) Hxe) as (n & w & k & Hp & Hun & En). exists n, w, k. pose proof (Hex x n Hx Hp). rewrite lookup_insert_ne by done. set_solver.
  - intros Hcl. destruct (Hc Hcl) as [(n & w & k & b & Hun & En & Htn & Hst & Hde & Hf & Huni & Hb)|(Hno & ? & ? & Hd)].
    + destruct (decide (n = head c)) as [->|Hne].
      * right. rewrite E in En. injection En as -> Edq ->. rewrite Ht in Htn. injection Htn as <-. split_and!; [|done| |right; rewrite (proj2 Hfin Edq); by left].
        -- intros x w' k' [Hx Hne]%Hin. rewrite lookup_insert_ne by done. intros Ex. by eapply Hne, Huni.
        -- destruct Q as [|x Q]; [done|]. exfalso. apply HnQ. rewrite (Hb eq_refl x) by (by left). by left.
      * left. exists n, w, k, b. rewrite lookup_insert_ne by done. apply not_elem_of_cons in Hf as [_ Hf]. split_and!; try done.
        -- set_solver.
        -- apply not_elem_of_cons. split; [|done]. intros Hx. symmetry in Hx. apply Hfin in Hx. rewrite Hx in E. by rewrite (Huni (head c) v h) in Hne.
        -- intros x w' k' [Hx Hnx]%Hin. rewrite lookup_insert_ne by done. by apply Huni.
    + right. split_and!; try done.
      * intros x w k [Hx Hne]%Hin. rewrite lookup_insert_ne by done. by apply Hno.
      * destruct Hd as [|[Hd|Hd]%elem_of_cons]; [by left|done|right; by right].
Qed.

Lemma inv_returned g q r c d a : inv g q (Returning c :: r) -> nodes q !! head c = Some d -> iterated d = true -> own a = None -> lnk a = None -> con a = None -> weight (ids (nodes q)) a = 0 ->
  in_execute a = false -> (a = Finishing true <-> destroy_queue c = true) -> exists q', return_task_node (head c) q = Ok q' /\ inv g q' (a :: r).
Proof.
  intros H Hd Hi Eo El Ec Hw Hae Hfin. destruct (inv_own g q (Returning c) r _ H eq_refl) as (Hu & HnQ & HnO). rewrite (return_ok q _ d); [|done|done|by eapply inv_status]. eexists. split; [done|].
  destruct H as [Hs Hl Hf Ha Hc Hcnt Hst]. pose proof (its_lookup _ _ _ Hd) as Ht. rewrite Hi in Ht. apply Forall_cons in Ha as [Hok Ha].
  assert (Es : stop_task d = destroy_queue c) by (cbn [actor_ok] in Hok; destruct Hok as ((v & h & E) & _); rewrite (ids_at _ _ _ Hd) in E; by injection E).
  set (d' := mk_node _ _ _ _ _ _ _).
  assert (Et : its (<[head c := d']> (nodes q)) = its (nodes q)) by (by apply fmap_same with d).
  assert (Ep : ips (<[head c := d']> (nodes q)) = ips (nodes q)) by (by apply fmap_same with d).
  assert (HQ : forall x, x ∈ gQ g -> head c <> x) by (by intros x Hx <-). assert (HO : forall x, x ∈ omap own r -> head c <> x) by (by intros x Hx <-).
  assert (Eo' : omap own (a :: r) = omap own r) by (cbn; by rewrite Eo). assert (El' : omap lnk (a :: r) = omap lnk r) by (cbn; by rewrite El). assert (Ec' : omap con (a :: r) = omap con r) by (cbn; by rewrite Ec).
  split; cbn [nodes _head used closed destroyed issued pushed ran cancelled stops _high_priority_tasks]; rewrite ?Et, ?Ep, ?ids_insert, ?nxt_insert, ?sts_insert, ?Eo', ?El', ?Ec'; cbn [d' version stop_task high_priority next status].
  - by apply shape_return.
  - apply logs_return; [done|done|by apply ids_at].
  - eapply flags_eq; [|done]. intros x Hx. rewrite lookup_insert_ne by auto. done.
  - apply Forall_cons. split; [by destruct a|]. eapply actors_eq; [|done]. intros x Hx. rewrite !lookup_insert_ne by auto. done.
  - eapply consumer_same; [|exact (sh_bounds _ _ _ _ _ _ _ _ _ Hs)|exact Hc]. intros x Hx. rewrite lookup_insert_ne by auto. done.
  - rewrite Hcnt, !total_cons. rewrite (total_eq (ids (nodes q)) (<[head c := _]> (ids (nodes q))) r) by (intros x Hx; rewrite lookup_insert_ne by auto; done).
    rewrite (waiting_eq (ids (nodes q)) (its (nodes q)) (<[head c := _]> (ids (nodes q))) (its (nodes q))) by (intros x Hx; rewrite lookup_insert_ne by auto; done).
    replace (weight (<[head c := _]> (ids (nodes q))) a) with 0 by (destruct a; done). done.
  - rewrite Es. eapply stage_returned; [exact Hst|exact Hs|done|done| |done|done|done]. by rewrite (ids_at _ _ _ Hd), Es.
Qed.

Lemma goes_no_more g q r c : inv g q (Returning c :: r) -> goes r (no_more c q).
Proof.
  intros H. pose proof (i_actors _ _ _ H) as [((v & h & E) & Ht & Hc) _]%Forall_cons. apply ids_lookup in E as (d & Hd & <- & Es & <-). rewrite (its_lookup _ _ _ Hd) in Ht. injection Ht as Hi.
  unfold no_more. destruct (inplace c).
  - destruct (inv_returned g q r c d Idle H Hd Hi) as (q' & -> & H'); try done; [by rewrite Hc|by eapply goes_ok].
  - rewrite bool_decide_eq_true_2 by done. unfold node_at. rewrite Hd. cbn [check deref mbind outcome_bind]. rewrite Hi. cbn [check mbind outcome_bind].
    destruct (inv_returned g q r c d (Finishing (destroy_queue c)) H Hd Hi) as (q' & -> & H'); try done; [|by eapply goes_ok]. split; [by intros [= ->]|by intros ->].
Qed.

Lemma goes_finish g q r b : inv g q (Finishing b :: r) -> goes r (finish b q).
Proof.
  intros H. unfold finish. destruct b.
  - assert (Hx : closed q = true /\ gQ g = []).
    { destruct (closed q) eqn:Ecl.
      - split; [done|]. destruct (sg_closed _ _ _ _ _ _ _ _ (i_stage _ _ _ H) Ecl) as [(n & v & h & b & _ & _ & _ & _ & _ & Hf & _)|(_ & _ & -> & _)]; [|done]. by destruct Hf; left.
      - destruct (sg_open _ _ _ _ _ _ _ _ (i_stage _ _ _ H) Ecl) as (_ & _ & Hf & _). by destruct Hf; left. }
    destruct Hx as [Hcl HQ]. rewrite bool_decide_eq_true_2 by (by rewrite (inv_last _ _ _ H), HQ). cbn [check mbind outcome_bind]. apply goes_ok with g.
    destruct H as [Hs Hl Hf Ha Hc Hcnt [Sl Slow So Se Sc]]. split; try done.
    + apply Forall_cons in Ha as [_ Ha]. by apply Forall_cons.
    + cbn [used closed destroyed stops nodes]. split; try done; [congruence|..].
      * intros a _ [->|Hx]%elem_of_cons Hxe; [done|]. apply Se; [done|by right|done].
      * intros _. right. destruct (Sc Hcl) as [(n & v & h & b & _ & _ & _ & _ & _ & Hfi & _)|(? & ? & ? & _)]; [by destruct Hfi; left|]. split_and!; try done. by left.
  - apply goes_ok with g. rewrite <- (add_high_0 q). by apply (inv_actor g q (Finishing false)).
Qed.

(** ** All steps *)

Lemma goes_idle g q r cmd others res : inv g q (Idle :: r) -> others ≡ₚ Idle :: r -> act cmd q others Idle = Some res -> goes r res.
Proof.
  intros H Hp Hres. destruct cmd as [n high inpl|n|t| | |]; cbn [act] in Hres; try done.
  - destruct (closed q) eqn:Hcl; [done|]. case_bool_decide as Hn; [done|]. injection Hres as <-. apply goes_ok with g. by apply inv_allocate.
  - destruct (closed q) eqn:Hcl; [done|]. case_bool_decide as Hn; [done|]. cbn [orb] in Hres. destruct (existsb in_execute others) eqn:He; [done|]. injection Hres as <-. apply goes_ok with g.
    apply (inv_allocate g q r n true false false); try done. intros _. split_and!; try done. apply Bool.not_true_iff_false in He. apply Bool.not_true_iff_false. intros Hr. apply He.
    apply existsb_exists in Hr as (x & Hx & Hxe). apply existsb_exists. exists x. split; [|done]. apply list_elem_of_In. rewrite Hp. right. by apply list_elem_of_In.
  - case_bool_decide as Ht; [|done]. injection Hres as <-. by eapply goes_cancel.
Qed.

Lemma goes_consume g q r c p cmd res : inv g q (Consuming c p :: r) -> consume c p cmd q = Some res -> goes r res.
Proof.
  intros H Hres. destruct p, cmd; cbn [consume] in Hres; try done; try (injection Hres as <-).
  - by eapply goes_top.
  - by eapply goes_load.
  - by eapply goes_exec.
  - by eapply goes_inc.
  - by eapply goes_scan.
  - destruct (valid it q) as [[]| |]; try done. injection Hres as <-. by eapply goes_user_next.
  - by eapply goes_user_return.
  - by eapply goes_dtor.
  - by eapply goes_sub.
  - by eapply goes_release.
  - by eapply goes_tail.
  - by eapply goes_more.
  - by eapply goes_reverse.
Qed.

Lemma goes_act g q r cmd others a res : inv g q (a :: r) -> others ≡ₚ a :: r -> act cmd q others a = Some res -> goes r res.
Proof.
  intros H Hp Hres. destruct a as [|n|n|n p|c p|c|b]; [by eapply goes_idle| | | |by eapply goes_consume| |]; destruct cmd; cbn [act] in Hres; try done; injection Hres as <-.
  - by eapply goes_count.
  - by eapply goes_push.
  - by eapply goes_connect.
  - by eapply goes_no_more.
  - by eapply goes_finish.
Qed.

Lemma insert_permutation (as_ : list actor) i a a' : as_ !! i = Some a -> <[i := a']> as_ ≡ₚ a' :: delete i as_.
Proof. revert i. induction as_ as [|x as_ IH]; intros [|i] Hi; try done. cbn in *. rewrite (IH i Hi). apply Permutation_swap. Qed.

Lemma act_ok g q as_ i a cmd res : inv g q as_ -> as_ !! i = Some a -> act cmd q as_ a = Some res ->
  exists g' q' a' new, res = Ok (q', a', new) /\ inv g' q' (<[i := a']> as_ ++ new).
Proof.
  intros H Hi Hres. pose proof (delete_Permutation _ _ _ Hi) as Hp. destruct (goes_act g q (delete i as_) cmd as_ a res) as (g' & q' & a' & new & -> & H'); [by eapply inv_perm|done|done|].
  exists g', q', a', new. split; [done|]. eapply inv_perm; [|done]. rewrite (insert_permutation _ _ _ a' Hi). cbn. by rewrite (Permutation_app_comm new).
Qed.

Lemma inv_init n : inv (mk_ghost [] 0 0 0 []) empty_queue (replicate n Idle).
Proof.
  assert (Hall : forall a, a ∈ replicate n Idle -> a = Idle) by (intros a Ha; by apply elem_of_replicate in Ha as [-> _]).
  assert (Ho : forall A (f : actor -> option A), f Idle = None -> omap f (replicate n Idle) = []) by (intros A f Hf; induction n as [|n IH]; [done|]; cbn; rewrite Hf; apply IH; intros a Ha; apply Hall; by right).
  split; cbn [gQ gK gLO gM gRet empty_queue nodes _head used closed destroyed issued pushed ran cancelled stops _high_priority_tasks].
  - rewrite !Ho by done. split; try done; try lia; [apply NoDup_nil_2|set_solver|intros n' p Hx; by apply elem_of_nil in Hx|apply NoDup_nil_2].
  - split; try done; try set_solver; apply NoDup_nil_2.
  - split; done.
  - apply Forall_forall. intros a Ha. by rewrite (Hall a Ha).
  - by rewrite Ho.
  - rewrite total_zero; [done|by apply Ho|]. intros a Ha m v s ->. by specialize (Hall _ Ha).
  - split; try done; try set_solver.
Qed.

Lemma tasks_reachable_inv n s : reachable n s -> exists g, inv g s.1 s.2.
Proof.
  apply (rtc_ind_r (fun s => exists g, inv g s.1 s.2)); [eexists; apply inv_init|]. intros y z _ Hstep [g H]. destruct Hstep as [q as_ i a cmd q' a' new Hi Hact]. cbn [fst snd] in *.
  destruct (act_ok g q as_ i a cmd _ H Hi Hact) as (g' & q1 & a1 & new1 & [= <- <- <-] & H'). by exists g'.
Qed.

(** ** What the logs say *)

Lemma kept_cons b cs t ts : kept b cs (t :: ts) = kept b cs [t] ++ kept b cs ts.
Proof. exact (kept_app b cs [t] ts). Qed.

Lemma iters_prefix im tm cs Q K b : flags im tm Q K -> exists k, kept b cs (omap (iter_at im tm) Q) = kept b cs (take k (omap (task_at im) Q)).
Proof.
  revert K. induction Q as [|n Q IH]; intros K Hf; [by exists 0%nat|]. rewrite !omap_option. unfold iter_at at 1. destruct (IH (pred K)) as [k Hk].
  { destruct Hf as [Ho Hr]. split; [intros i j; intros; by apply (Ho (S i) (S j) n0 n' v v' s' h); [lia|..]|intros i x Hx HK; apply (Hr (S i)); [done|lia]]. }
  destruct (task_at im n) as [[[m v] h]|] eqn:E; [|by exists k; destruct (tm !! n) as [[]|]].
  assert (Hskip : Bool.eqb h b = false -> kept b cs [(m, v, h)] = []) by (intros Hb; rewrite kept_one; cbn [snd]; rewrite Hb; by destruct (decide _)).
  destruct (Bool.eqb h b) eqn:Eb.
  - apply Bool.eqb_prop in Eb as ->. apply task_at_node in E as [-> E]. destruct (tm !! n) as [[]|] eqn:Et.
    + exists (S k). change (option_list (Some ?x)) with [x]; cbn [app take]. rewrite (kept_cons b cs _ (omap _ Q)), (kept_cons b cs _ (take _ _)), Hk. done.
    + exists 0%nat. cbn [option_list app take]. exact (kept_later im tm (n :: Q) K 0%nat n v b cs Hf eq_refl E Et).
    + exists 0%nat. change (option_list (Some ?x)) with [x]; cbn [app take]. destruct (kept b cs _) as [|[[m v'] h'] ts] eqn:Ek; [done|]. exfalso.
      assert (Hin : (m, v', h') ∈ kept b cs (omap (iter_at im tm) Q)) by (rewrite Ek; by left). apply list_elem_of_filter in Hin as [[Eh _] Hin]. cbn in Eh. subst h'.
      apply list_elem_of_omap in Hin as (n' & Hn' & [Ht' E']%iter_at_task). apply task_at_node in E' as [-> E']. apply list_elem_of_lookup in Hn' as [j Hj].
      pose proof (fl_order _ _ _ _ Hf 0%nat (S j) n n' v v' false b ltac:(lia) eq_refl Hj E E' Ht'). congruence.
  - exists (S k). change (option_list (Some ?x)) with [x]. cbn [app take]. rewrite (kept_cons b cs (m, v, h) (take _ _)). unfold task in *. rewrite (Hskip eq_refl), <- Hk.
    destruct (tm !! n) as [[]|]; [|done..]. change (option_list (Some ?x)) with [x]. by rewrite kept_app, Hskip.
Qed.

Lemma inv_ran g q as_ b : inv g q as_ -> exists k, of_prio b (ran q) = kept b (cancelled q) (take k (pushed q)).
Proof.
  intros H. destruct (iters_prefix _ _ (cancelled q) _ _ b (i_flags _ _ _ H)) as [k Hk]. exists (length (gRet g) + k)%nat.
  rewrite (lg_ran _ _ _ _ _ _ _ _ _ _ (i_logs _ _ _ H)), (lg_pushed _ _ _ _ _ _ _ _ _ _ (i_logs _ _ _ H)), kept_app, Hk, take_app_add, kept_app. done.
Qed.

Lemma of_prio_nodup ts : NoDup (of_prio true ts) -> NoDup (of_prio false ts) -> NoDup ts.
Proof.
  unfold of_prio. induction ts as [|t ts IH]; intros Ht Hf; [constructor|]. rewrite filter_cons in Ht, Hf. destruct t as [[n v] h]. cbn [snd] in *.
  destruct h; [rewrite decide_True in Ht by done; rewrite decide_False in Hf by done; apply NoDup_cons in Ht as [Hn Ht]|
               rewrite decide_False in Ht by done; rewrite decide_True in Hf by done; apply NoDup_cons in Hf as [Hn Hf]];
    apply NoDup_cons; (split; [|by apply IH]); intros Hin; apply Hn; by apply list_elem_of_filter.
Qed.

Lemma ran_pushed q t : (forall b, exists k, of_prio b (ran q) = kept b (cancelled q) (take k (pushed q))) -> t ∈ ran q -> t ∈ pushed q /\ (t ∉ cancelled q).
Proof.
  intros H Ht. destruct (H t.2) as [k Hk]. assert (Hin : t ∈ of_prio t.2 (ran q)) by (by apply list_elem_of_filter). rewrite Hk in Hin. apply list_elem_of_filter in Hin as [[_ Hc] Hin].
  split; [|done]. by eapply elem_of_take in Hin as (i & Hi & _); eapply list_elem_of_lookup_2.
Qed.

(** The stop task ends the list. *)
Lemma inv_stopped g q as_ b : inv g q as_ -> stops q = 1 -> of_prio b (ran q) = kept b (cancelled q) (pushed q).
Proof.
  intros H Hst. rewrite (lg_ran _ _ _ _ _ _ _ _ _ _ (i_logs _ _ _ H)), (lg_pushed _ _ _ _ _ _ _ _ _ _ (i_logs _ _ _ H)). f_equal. f_equal.
  assert (Hcl : closed q = true) by (destruct (closed q) eqn:E; [done|]; destruct (sg_open _ _ _ _ _ _ _ _ (i_stage _ _ _ H) E); lia).
  destruct (sg_closed _ _ _ _ _ _ _ _ (i_stage _ _ _ H) Hcl) as [(n & v & h & s & _ & E & Ht & Hs & _ & _ & _ & Hall)|(_ & _ & -> & _)]; [|done].
  apply omap_eq. intros x Hx. destruct s; [|lia]. rewrite (Hall eq_refl x Hx). unfold iter_at, task_at. by rewrite Ht, E.
Qed.

Lemma inv_stops g q as_ : inv g q as_ -> 0 <= stops q <= 1.
Proof.
  intros H. pose proof (i_stage _ _ _ H) as Hst. destruct (closed q) eqn:E; [|destruct (sg_open _ _ _ _ _ _ _ _ Hst eq_refl); lia].
  destruct (sg_closed _ _ _ _ _ _ _ _ Hst eq_refl) as [(n & v & h & s & _ & _ & _ & Hs & _)|(_ & Hs & _)]; [destruct s|]; lia.
Qed.

Lemma inv_one_consumer g q as_ : inv g q as_ -> (length (omap con as_) <= 1)%nat.
Proof. intros H. pose proof (i_consumer _ _ _ H) as Hc. destruct (omap con as_) as [|[c p] [|]]; cbn; [lia..|done]. Qed.

(** Without a consumer the list is empty; without producers its links are set. *)
Lemma inv_blocked g q as_ c p : inv g q as_ -> Consuming c p ∈ as_ -> (exists a cmd res, a ∈ as_ /\ a <> Idle /\ act cmd q as_ a = Some res).
Proof.
  intros H Hin. assert (Hperm : exists r, as_ ≡ₚ Consuming c p :: r) by (by apply elem_of_Permutation). destruct Hperm as [r Hr]. pose proof (inv_perm _ _ _ _ Hr H) as H'.
  assert (Hgo : forall cmd res, consume c p cmd q = Some res -> exists a cmd res, a ∈ as_ /\ a <> Idle /\ act cmd q as_ a = Some res) by (intros cmd res E; by exists (Consuming c p), cmd, res).
  destruct p as [| |high|it|it|it|h it|n| |t| |old p tl nt]; try (by eapply (Hgo Go)); [by eapply (Hgo Return)|]. cbn [consume] in Hgo. specialize (Hgo Go).
  destruct (reverse_link _ _ _ _ _ _ _ _ H') as (d & lo & s & Hd & _ & _ & _ & _ & Hnx). unfold reverse in Hgo. rewrite Hd in Hgo. destruct Hnx as [Hnx|[_ Hlk]].
  - rewrite Hnx in Hgo. by eapply Hgo.
  - apply list_elem_of_omap in Hlk as (a & Ha & El). destruct a; try done. exists (Linking n prev), Go. eexists. split_and!; [rewrite Hr; by right|done|done].
Qed.

Lemma inv_progress g q as_ a : inv g q as_ -> a ∈ as_ -> a <> Idle -> exists i a cmd q' a' new, as_ !! i = Some a /\ a <> Idle /\ act cmd q as_ a = Some (Ok (q', a', new)).
Proof.
  intros H Ha Hne. assert (Hex : exists a cmd res, a ∈ as_ /\ a <> Idle /\ act cmd q as_ a = Some res).
  { destruct a as [|n|n|n p|c p|c|b]; [done|..]; [| | |by eapply inv_blocked| |]; (eexists _, Go, _; split_and!; [exact Ha|done|reflexivity]). }
  destruct Hex as (x & cmd & res & Hx & Hnx & Hact). apply list_elem_of_lookup in Hx as [i Hi]. destruct (act_ok _ _ _ _ _ _ _ H Hi Hact) as (g' & q' & a' & new & -> & _).
  by exists i, x, cmd, q', a', new.
Qed.

Lemma inv_idle g q as_ b : inv g q as_ -> (forall a, a ∈ as_ -> a = Idle) ->
  of_prio b (ran q) = kept b (cancelled q) (pushed q) /\ _head q = None /\ _high_priority_tasks q = 0 /\ used q = ∅ /\ (closed q = true -> stops q = 1 /\ destroyed q = true).
Proof.
  intros H Hall. assert (Ho : forall A (f : actor -> option A), f Idle = None -> omap f as_ = []).
  { intros A f Hf. clear H. induction as_ as [|a as_ IH]; [done|]. cbn. rewrite (Hall a ltac:(by left)), Hf. apply IH. intros x Hx. apply Hall. by right. }
  pose proof (i_consumer _ _ _ H) as HQ. rewrite Ho in HQ by done. cbn in HQ. pose proof (i_shape _ _ _ H) as Hs. rewrite !Ho, HQ in Hs by done.
  assert (Hu : used q = ∅) by (apply set_eq; intros x; rewrite (sh_used _ _ _ _ _ _ _ _ _ Hs); set_solver). split_and!.
  - rewrite (lg_ran _ _ _ _ _ _ _ _ _ _ (i_logs _ _ _ H)), (lg_pushed _ _ _ _ _ _ _ _ _ _ (i_logs _ _ _ H)), HQ. done.
  - apply (sh_head _ _ _ _ _ _ _ _ _ Hs).
  - rewrite (i_count _ _ _ H), HQ, total_zero; [done|by apply Ho|]. intros a Ha n v s ->. by specialize (Hall _ Ha).
  - done.
  - intros Hcl. destruct (sg_closed _ _ _ _ _ _ _ _ (i_stage _ _ _ H) Hcl) as [(n & v & h & s & Hn & _)|(_ & Hst & _ & Hd)]; [rewrite Hu in Hn; by apply elem_of_empty in Hn|].
    split; [done|]. destruct Hd as [|Hd]; [done|]. by specialize (Hall _ Hd).
Qed.

(** ** Schedules *)

(** The steps of the given actors. *)
Fixpoint run (l : list (nat * command)) (s : queue * list actor) : option (queue * list actor) :=
  match l with
  | [] => Some s
  | (i, cmd) :: l =>
      match s.2 !! i with
      | Some a => match act cmd s.1 s.2 a with Some (Ok (q, a', new)) => run l (q, <[i := a']> s.2 ++ new) | _ => None end
      | None => None
      end
  end.

Lemma tasks_run_steps l s s' : run l s = Some s' -> rtc step s s'.
Proof.
  revert s. induction l as [|[i cmd] l IH]; intros [q as_] Hr; cbn [run fst snd] in Hr; [by injection Hr as ->|]. destruct (as_ !! i) as [a|] eqn:Hi; [|done].
  destruct (act cmd q as_ a) as [[[[q' a'] new]| |]|] eqn:Ha; try done. eapply rtc_l; [by econstructor|]. by apply IH.
Qed.

Definition gos (i n : nat) : list (nat * command) := replicate n (i, Go).

(** Two producers execute a task of low priority each, and one of them another of
    high priority; the second task is cancelled; the consumer starts, and breaks
    its first iteration for the task of high priority. *)
Definition overtaking : list (nat * command) :=
  [(0%nat, Execute 1 false false); (0%nat, Go); (0%nat, Execute 2 false false); (0%nat, Go); (1%nat, Execute 3 true false); (1%nat, Go); (1%nat, Go); (1%nat, Go); (0%nat, Go);
   (0%nat, Cancel (2, 0, false))] ++
  gos 2 6 ++ [(2%nat, Return)] ++ gos 2 15 ++ [(2%nat, Next)] ++ gos 2 2 ++ [(2%nat, Return)] ++ gos 2 12 ++ [(2%nat, Next)] ++ gos 2 4 ++ [(2%nat, Return)] ++ gos 2 10.

(** The queue is recycled, its stop task executed, and the queue destroyed. *)
Definition stopping : list (nat * command) := [(0%nat, Recycle 2); (0%nat, Go)] ++ gos 3 8.

Lemma overtaking_result :
  (fun s => (s.2, _head s.1, ran s.1, cancelled s.1, stops s.1)) <$> run overtaking (empty_queue, replicate 2 Idle) =
    Some ([Idle; Idle; Idle], None, [(3, 0, true); (1, 0, false)], [(2, 0, false)], 0) /\
  (fun s => (s.2, destroyed s.1, stops s.1)) <$> run (overtaking ++ stopping) (empty_queue, replicate 2 Idle) = Some ([Idle; Idle; Idle; Idle], true, 1) /\
  (fun s => (ran s.1, stops s.1)) <$> run (overtaking ++ stopping) (empty_queue, replicate 2 Idle) = Some ([(3, 0, true); (1, 0, false)], 1).
Proof. split_and!; vm_compute; reflexivity. Qed.

(** ** Theorems *)

(** C10: Any number of actors that execute tasks of both priorities, cancel tasks
    and recycle the queue, interleaved with the consumer in any way, never make
    the execution queue follow a link that is not set, use a node that is not
    there or fail one of its checks.  At most one consumer is active.  No task is
    given to the callback twice, none that was not pushed, none that was
    cancelled; within each priority the tasks are given in the order in which
    they were pushed, without gaps other than cancelled ones.  The callback is told once at most that
    the queue is stopped, and by then has been given all tasks. *)
Theorem execq_tasks_in_order n q as_ : reachable n (q, as_) ->
  (forall i a cmd, as_ !! i = Some a -> act cmd q as_ a <> Some Abort /\ act cmd q as_ a <> Some Undefined) /\
  (length (omap con as_) <= 1)%nat /\
  NoDup (ran q) /\ (forall t, t ∈ ran q -> t ∈ pushed q /\ (t ∉ cancelled q)) /\
  (forall b, exists k, of_prio b (ran q) = kept b (cancelled q) (take k (pushed q))) /\
  0 <= stops q <= 1 /\ (stops q = 1 -> forall b, of_prio b (ran q) = kept b (cancelled q) (pushed q)).
Proof.
  intros [g H]%tasks_reachable_inv. cbn [fst snd] in H. assert (Hk : forall b, exists k, of_prio b (ran q) = kept b (cancelled q) (take k (pushed q))) by (intros b; by eapply inv_ran).
  assert (Hnd : NoDup (pushed q)) by (eapply lg_nodup, i_logs; done). split_and!.
  - intros i a cmd Hi. split; intros Hact; by destruct (act_ok _ _ _ _ _ _ _ H Hi Hact) as (? & ? & ? & ? & [=] & _).
  - by eapply inv_one_consumer.
  - apply of_prio_nodup; [destruct (Hk true) as [k ->]|destruct (Hk false) as [k ->]]; apply NoDup_filter; (eapply sublist_NoDup; [done|apply sublist_take]).
  - intros t. by apply ran_pushed.
  - done.
  - by eapply inv_stops.
  - by eapply inv_stops.
  - intros Hs b. by eapply inv_stopped.
Qed.

Lemma execq_tasks_in_order_witness : exists q as_, reachable 2 (q, as_) /\ ran q = [(3, 0, true); (1, 0, false)] /\ stops q = 1 /\ of_prio false (ran q) = kept false (cancelled q) (pushed q).
Proof.
  destruct overtaking_result as (_ & _ & Hres). destruct (run (overtaking ++ stopping) _) as [[q as_]|] eqn:E; [|done]. injection Hres as Hq1 Hq2.
  exists q, as_. assert (Hr : reachable 2 (q, as_)) by (exact (tasks_run_steps _ _ _ E)). clear E. split; [exact Hr|]. split; [exact Hq1|]. split; [exact Hq2|].
  destruct (execq_tasks_in_order 2 q as_ Hr) as (_ & _ & _ & _ & _ & _ & Hs). by apply Hs.
Defined.

(** C21: The execution queue does not get stuck: as long as some actor is not
    idle, some actor that is not idle can take a step, and it succeeds.  When all
    are idle nothing is left behind: every task that was pushed has been given to
    the callback, unless it was cancelled; the list is empty, the counter of
    tasks of high priority is 0, all nodes are back in the pool, and a queue that
    was recycled has stopped and has been destroyed. *)
Theorem execq_tasks_drained n q as_ : reachable n (q, as_) ->
  (forall a, a ∈ as_ -> a <> Idle -> exists i a cmd q' a' new, as_ !! i = Some a /\ a <> Idle /\ act cmd q as_ a = Some (Ok (q', a', new))) /\
  ((forall a, a ∈ as_ -> a = Idle) ->
   (forall b, of_prio b (ran q) = kept b (cancelled q) (pushed q)) /\ _head q = None /\ _high_priority_tasks q = 0 /\ used q = ∅ /\ (closed q = true -> stops q = 1 /\ destroyed q = true)).
Proof.
  intros [g H]%tasks_reachable_inv. cbn [fst snd] in H. split; [intros a; by eapply inv_progress|]. intros Hall. split; [intros b; by destruct (inv_idle g q as_ b H Hall)|]. by destruct (inv_idle g q as_ true H Hall).
Qed.

Lemma execq_tasks_drained_witness : exists q as_, reachable 2 (q, as_) /\ Forall (eq Idle) as_ /\ cancelled q = [(2, 0, false)] /\ of_prio false (ran q) = kept false [(2, 0, false)] (pushed q) /\ used q = ∅.
Proof.
  destruct overtaking_result as (Hres & _). destruct (run overtaking _) as [[q as_]|] eqn:E; [|done]. injection Hres as Has _ _ Hc _. cbn [fst snd] in *. subst as_.
  exists q, [Idle; Idle; Idle]. assert (Hr : reachable 2 (q, [Idle; Idle; Idle])) by (exact (tasks_run_steps _ _ _ E)). clear E. rewrite <- Hc. destruct (execq_tasks_drained 2 q _ Hr) as [_ Hall]. destruct Hall as (Hk & _ & _ & Hu & _); [set_solver|]. split_and!; try done. by repeat constructor.
Defined.

(** [execute] that cannot have memory for the task returns the node of the pool;
    the status of that node is [UNEXECUTED], and the check of
    [clear_before_return] fails. *)
Lemma execute_out_of_memory_aborts n q d : nodes q !! n = Some d -> status d = UNEXECUTED -> execute_out_of_memory n q = Abort.
Proof. intros Hd Hs. unfold execute_out_of_memory, return_task_node, node_at. rewrite Hd. cbn [deref mbind outcome_bind]. unfold unexecuted. rewrite Hs. by destruct (stop_task d || iterated d). Qed.
