(* ===== verification/CivilTime.v ===== *)
(** * [flare/times/internal/chrono_time_detail.h]: civil times

    A civil time is six fields, year to second, of the proleptic Gregorian
    calendar.  The constructor takes any six integers and normalizes them; times
    are stepped and subtracted in the unit they are aligned to; days of the week
    and of the year are computed from the fields.  [year_t] and [diff_t] are 64-bit
    integers: where a sum can leave them the model checks it with [int64], and the
    behaviour is [Undefined].  The other sums are of remainders and quotients and
    stay far inside; [/] and [%] are [Z.quot] and [Z.rem]. *)

From S2P Require Import Prelude Bits.
Local Open Scope Z_scope.

Definition INT64_MIN : Z := -9223372036854775808.
Definition INT64_MAX : Z := 9223372036854775807.

(** The value of a signed 64-bit sum. *)
Definition int64 (z : Z) : outcome Z := if (INT64_MIN <=? z) && (z <=? INT64_MAX) then Ok z else Undefined.

(** ** Fields *)

Record fields := mk_fields { f_y : Z; f_m : Z; f_d : Z; f_hh : Z; f_mm : Z; f_ss : Z }.

Inductive tag := second_tag | minute_tag | hour_tag | day_tag | month_tag | year_tag.

Definition is_leap_year (y : Z) : bool := (Z.rem y 4 =? 0) && (negb (Z.rem y 100 =? 0) || (Z.rem y 400 =? 0)).

Definition year_index (y m : Z) : outcome Z :=
  y1 ← int64 (y + Z.b2z (2 <? m));
  Ok (Z.rem (Z.rem y1 400 + 400) 400).

Definition days_per_century (y m : Z) : outcome Z :=
  yi ← year_index y m;
  Ok (36524 + Z.b2z ((yi =? 0) || (300 <? yi))).

Definition days_per_4years (y m : Z) : outcome Z :=
  yi ← year_index y m;
  Ok (1460 + Z.b2z ((yi =? 0) || (300 <? yi) || (Z.rem (yi - 1) 100 <? 96))).

Definition days_per_year (y m : Z) : outcome Z :=
  y1 ← int64 (y + Z.b2z (2 <? m));
  Ok (if is_leap_year y1 then 366 else 365).

Definition k_days_per_month : list Z := [-1; 31; 28; 31; 30; 31; 30; 31; 31; 30; 31; 30; 31].

Definition days_per_month (y m : Z) : outcome Z :=
  n ← deref (zget k_days_per_month m);
  Ok (n + Z.b2z ((m =? 2) && is_leap_year y)).

(** ** Normalization *)

(** The loops of [n_day]; [fuel] bounds their turns.  Three of them skip [k] years
    at a time while more days are left than these have. *)
Fixpoint spans (days_per : Z -> Z -> outcome Z) (k : Z) (fuel : nat) (y m d : Z) : outcome (Z * Z) :=
  match fuel with
  | O => Undefined
  | S fuel => n ← days_per y m; if n <? d then y ← int64 (y + k); spans days_per k fuel y m (d - n) else Ok (y, d)
  end.

Definition centuries := spans days_per_century 100.
Definition quads := spans days_per_4years 4.
Definition years := spans days_per_year 1.

Fixpoint months (fuel : nat) (y m d : Z) : outcome (Z * Z * Z) :=
  match fuel with
  | O => Undefined
  | S fuel =>
      n ← days_per_month y m;
      if n <? d then
        if 12 <? m + 1 then y ← int64 (y + 1); months fuel y 1 (d - n)
        else months fuel y (m + 1) (d - n)
      else Ok (y, m, d)
  end.

(** [n_day]: whole cycles of 400 years, up to a positive rest of days of at most
    one cycle; whole years of the rest; months. *)
Definition cycles (y m d cd : Z) : outcome (Z * Z) :=
  y ← int64 (y + Z.quot cd 146097 * 400);
  let cd := Z.rem cd 146097 in
  '(y, cd) ← (if cd <? 0 then y ← int64 (y - 400); Ok (y, cd + 146097) else Ok (y, cd));
  y ← int64 (y + Z.quot d 146097 * 400);
  let d := Z.rem d 146097 + cd in
  (if 0 <? d then
     if 146097 <? d then y ← int64 (y + 400); Ok (y, d - 146097) else Ok (y, d)
   else if -365 <? d then
     y ← int64 (y - 1); n ← days_per_year y m; Ok (y, d + n)
   else y ← int64 (y - 400); Ok (y, d + 146097)).

Definition whole_years (y m d : Z) : outcome (Z * Z) :=
  if 365 <? d then
    '(y, d) ← centuries 4 y m d;
    '(y, d) ← quads 25 y m d;
    years 4 y m d
  else Ok (y, d).

Definition n_day (y m d cd hh mm ss : Z) : outcome fields :=
  '(y, d) ← cycles y m d cd;
  '(y, d) ← whole_years y m d;
  '(y, m, d) ← (if 28 <? d then months 12 y m d else Ok (y, m, d));
  Ok (mk_fields y m d hh mm ss).

Definition n_mon (y m d cd hh mm ss : Z) : outcome fields :=
  if negb (m =? 12) then
    y ← int64 (y + Z.quot m 12);
    let m := Z.rem m 12 in
    if m <=? 0 then y ← int64 (y - 1); n_day y (m + 12) d cd hh mm ss
    else n_day y m d cd hh mm ss
  else n_day y m d cd hh mm ss.

Definition n_hour (y m d cd hh mm ss : Z) : outcome fields :=
  cd ← int64 (cd + Z.quot hh 24);
  let hh := Z.rem hh 24 in
  if hh <? 0 then cd ← int64 (cd - 1); n_mon y m d cd (hh + 24) mm ss
  else n_mon y m d cd hh mm ss.

Definition n_min (y m d hh ch mm ss : Z) : outcome fields :=
  ch ← int64 (ch + Z.quot mm 60);
  let mm := Z.rem mm 60 in
  '(ch, mm) ← (if mm <? 0 then ch ← int64 (ch - 1); Ok (ch, mm + 60) else Ok (ch, mm));
  n_hour y m d (Z.quot hh 24 + Z.quot ch 24) (Z.rem hh 24 + Z.rem ch 24) mm ss.

Definition n_sec (y m d hh mm ss : Z) : outcome fields :=
  if (0 <=? ss) && (ss <? 60) then
    if (0 <=? mm) && (mm <? 60) then
      if (0 <=? hh) && (hh <? 24) then
        if (1 <=? d) && (d <=? 28) && (1 <=? m) && (m <=? 12) then Ok (mk_fields y m d hh mm ss)
        else n_mon y m d 0 hh mm ss
      else n_hour y m d (Z.quot hh 24) (Z.rem hh 24) mm ss
    else n_min y m d hh (Z.quot mm 60) (Z.rem mm 60) ss
  else
    let cm := Z.quot ss 60 in
    let ss := Z.rem ss 60 in
    '(cm, ss) ← (if ss <? 0 then cm ← int64 (cm - 1); Ok (cm, ss + 60) else Ok (cm, ss));
    n_min y m d hh (Z.quot mm 60 + Z.quot cm 60) (Z.rem mm 60 + Z.rem cm 60) ss.

(** ** Steps and differences *)

Definition step (t : tag) (f : fields) (n : Z) : outcome fields :=
  match t with
  | second_tag => mm ← int64 (f_mm f + Z.quot n 60); n_sec (f_y f) (f_m f) (f_d f) (f_hh f) mm (f_ss f + Z.rem n 60)
  | minute_tag => hh ← int64 (f_hh f + Z.quot n 60); n_min (f_y f) (f_m f) (f_d f) hh 0 (f_mm f + Z.rem n 60) (f_ss f)
  | hour_tag => d ← int64 (f_d f + Z.quot n 24); n_hour (f_y f) (f_m f) d 0 (f_hh f + Z.rem n 24) (f_mm f) (f_ss f)
  | day_tag => n_day (f_y f) (f_m f) (f_d f) n (f_hh f) (f_mm f) (f_ss f)
  | month_tag => y ← int64 (f_y f + Z.quot n 12); n_mon y (f_m f + Z.rem n 12) (f_d f) 0 (f_hh f) (f_mm f) (f_ss f)
  | year_tag => y ← int64 (f_y f + n); Ok (mk_fields y (f_m f) (f_d f) (f_hh f) (f_mm f) (f_ss f))
  end.

Definition scale_add (v f a : Z) : outcome Z :=
  if v <? 0 then
    w ← int64 ((v + 1) * f); w ← int64 (w + a); int64 (w - f)
  else
    w ← int64 ((v - 1) * f); w ← int64 (w + a); int64 (w + f).

Definition ymd_ord (y m d : Z) : outcome Z :=
  eyear ← (if m <=? 2 then int64 (y - 1) else Ok y);
  e ← (if 0 <=? eyear then Ok eyear else int64 (eyear - 399));
  let era := Z.quot e 400 in
  let yoe := eyear - era * 400 in
  let doy := Z.quot (153 * (m + (if 2 <? m then -3 else 9)) + 2) 5 + d - 1 in
  let doe := yoe * 365 + Z.quot yoe 4 - Z.quot yoe 100 + doy in
  a ← int64 (era * 146097); b ← int64 (a + doe); int64 (b - 719468).

Definition day_difference (y1 m1 d1 y2 m2 d2 : Z) : outcome Z :=
  let a_c4_off := Z.rem y1 400 in
  let b_c4_off := Z.rem y2 400 in
  c4_diff ← int64 ((y1 - a_c4_off) - (y2 - b_c4_off));
  o1 ← ymd_ord a_c4_off m1 d1;
  o2 ← ymd_ord b_c4_off m2 d2;
  let delta := o1 - o2 in
  '(c4_diff, delta) ←
    (if (0 <? c4_diff) && (delta <? 0) then Ok (c4_diff - 2 * 400, delta + 2 * 146097)
     else if (c4_diff <? 0) && (0 <? delta) then Ok (c4_diff + 2 * 400, delta - 2 * 146097)
     else Ok (c4_diff, delta));
  p ← int64 (Z.quot c4_diff 400 * 146097);
  int64 (p + delta).

Definition difference_year (f1 f2 : fields) : outcome Z := int64 (f_y f1 - f_y f2).
Definition difference_month (f1 f2 : fields) : outcome Z := v ← difference_year f1 f2; scale_add v 12 (f_m f1 - f_m f2).
Definition difference_day (f1 f2 : fields) : outcome Z := day_difference (f_y f1) (f_m f1) (f_d f1) (f_y f2) (f_m f2) (f_d f2).
Definition difference_hour (f1 f2 : fields) : outcome Z := v ← difference_day f1 f2; scale_add v 24 (f_hh f1 - f_hh f2).
Definition difference_minute (f1 f2 : fields) : outcome Z := v ← difference_hour f1 f2; scale_add v 60 (f_mm f1 - f_mm f2).
Definition difference_second (f1 f2 : fields) : outcome Z := v ← difference_minute f1 f2; scale_add v 60 (f_ss f1 - f_ss f2).

Definition difference (t : tag) (f1 f2 : fields) : outcome Z :=
  match t with
  | year_tag => difference_year f1 f2
  | month_tag => difference_month f1 f2
  | day_tag => difference_day f1 f2
  | hour_tag => difference_hour f1 f2
  | minute_tag => difference_minute f1 f2
  | second_tag => difference_second f1 f2
  end.

(** ** [civil_time<T>] *)

Definition align (t : tag) (f : fields) : fields :=
  match t with
  | second_tag => f
  | minute_tag => mk_fields (f_y f) (f_m f) (f_d f) (f_hh f) (f_mm f) 0
  | hour_tag => mk_fields (f_y f) (f_m f) (f_d f) (f_hh f) 0 0
  | day_tag => mk_fields (f_y f) (f_m f) (f_d f) 0 0 0
  | month_tag => mk_fields (f_y f) (f_m f) 1 0 0 0
  | year_tag => mk_fields (f_y f) 1 1 0 0 0
  end.

Definition civil_time (t : tag) (y m d hh mm ss : Z) : outcome fields := f ← n_sec y m d hh mm ss; Ok (align t f).
Definition civil_max (t : tag) : outcome fields := civil_time t INT64_MAX 12 31 23 59 59.
Definition civil_min (t : tag) : outcome fields := civil_time t INT64_MIN 1 1 0 0 0.

Definition plus (t : tag) (f : fields) (n : Z) : outcome fields := step t f n.
Definition minus (t : tag) (f : fields) (n : Z) : outcome fields :=
  if negb (n =? INT64_MIN) then step t f (- n) else f1 ← step t f (- (n + 1)); step t f1 1.

(** [operator<] and [operator==]. *)
Definition before (f1 f2 : fields) : bool :=
  (f_y f1 <? f_y f2) || ((f_y f1 =? f_y f2) &&
  ((f_m f1 <? f_m f2) || ((f_m f1 =? f_m f2) &&
  ((f_d f1 <? f_d f2) || ((f_d f1 =? f_d f2) &&
  ((f_hh f1 <? f_hh f2) || ((f_hh f1 =? f_hh f2) &&
  ((f_mm f1 <? f_mm f2) || ((f_mm f1 =? f_mm f2) && (f_ss f1 <? f_ss f2)))))))))).
Definition equal (f1 f2 : fields) : bool :=
  (f_y f1 =? f_y f2) && (f_m f1 =? f_m f2) && (f_d f1 =? f_d f2) && (f_hh f1 =? f_hh f2) && (f_mm f1 =? f_mm f2) && (f_ss f1 =? f_ss f2).

(** ** Days of the week and of the year *)

Inductive weekday := monday | tuesday | wednesday | thursday | friday | saturday | sunday.

#[export] Instance weekday_eq_dec : EqDecision weekday.
Proof. solve_decision. Defined.

Definition k_weekday_by_mon_off : list weekday :=
  [monday; tuesday; wednesday; thursday; friday; saturday; sunday; monday; tuesday; wednesday; thursday; friday; saturday].
Definition k_weekday_offsets : list Z := [-1; 0; 3; 2; 5; 0; 3; 5; 1; 4; 6; 2; 4].

Definition get_weekday (f : fields) : outcome weekday :=
  let wd := 2400 + Z.rem (f_y f) 400 - Z.b2z (f_m f <? 3) in
  let wd := wd + (Z.quot wd 4 - Z.quot wd 100 + Z.quot wd 400) in
  o ← deref (zget k_weekday_offsets (f_m f));
  let wd := wd + (o + f_d f) in
  deref (zget k_weekday_by_mon_off (Z.rem wd 7 + 6)).

Definition k_weekdays_forw : list weekday :=
  [monday; tuesday; wednesday; thursday; friday; saturday; sunday; monday; tuesday; wednesday; thursday; friday; saturday; sunday].
Definition k_weekdays_back : list weekday :=
  [sunday; saturday; friday; thursday; wednesday; tuesday; monday; sunday; saturday; friday; thursday; wednesday; tuesday; monday].

(** [for (int i = ...;; ++i)] over the rest of a table. *)
Fixpoint index_from (x : weekday) (l : list weekday) (i : Z) : outcome Z :=
  match l with [] => Undefined | w :: l => if bool_decide (x = w) then Ok i else index_from x l (i + 1) end.

Definition weekday_distance (table : list weekday) (base wd : weekday) : outcome Z :=
  i ← index_from base table 0;
  j ← index_from wd (zdrop (i + 1) table) (i + 1);
  Ok (j - i).

Definition next_weekday (cd : fields) (wd : weekday) : outcome fields :=
  base ← get_weekday cd; n ← weekday_distance k_weekdays_forw base wd; plus day_tag cd n.
Definition prev_weekday (cd : fields) (wd : weekday) : outcome fields :=
  base ← get_weekday cd; n ← weekday_distance k_weekdays_back base wd; minus day_tag cd n.

Definition k_month_offsets : list Z := [-1; 0; 31; 59; 90; 120; 151; 181; 212; 243; 273; 304; 334].

Definition get_yearday (f : fields) : outcome Z :=
  o ← deref (zget k_month_offsets (f_m f));
  Ok (o + Z.b2z ((2 <? f_m f) && is_leap_year (f_y f)) + f_d f).

(** ** The calendar *)

(** The Gregorian rules: the months, leap years and the next day. *)
Definition leap (y : Z) : bool := (y mod 400 =? 0) || ((y mod 4 =? 0) && negb (y mod 100 =? 0)).
Definition month_length (y m : Z) : Z :=
  if m =? 2 then (if leap y then 29 else 28) else if (m =? 4) || (m =? 6) || (m =? 9) || (m =? 11) then 30 else 31.
Definition tomorrow (f : fields) : fields :=
  if f_d f <? month_length (f_y f) (f_m f) then mk_fields (f_y f) (f_m f) (f_d f + 1) (f_hh f) (f_mm f) (f_ss f)
  else if f_m f <? 12 then mk_fields (f_y f) (f_m f + 1) 1 (f_hh f) (f_mm f) (f_ss f)
  else mk_fields (f_y f + 1) 1 1 (f_hh f) (f_mm f) (f_ss f).

Record valid (f : fields) : Prop := {
  v_m : 1 <= f_m f <= 12;
  v_d : 1 <= f_d f <= month_length (f_y f) (f_m f);
  v_hh : 0 <= f_hh f < 24;
  v_mm : 0 <= f_mm f < 60;
  v_ss : 0 <= f_ss f < 60
}.

(** Days up to a year that starts in March, to a month of it, and to a date;
    1970-01-01 is day 0. *)
Definition march_days (e : Z) : Z := 365 * e + e / 4 - e / 100 + e / 400.
Definition eyear (y m : Z) : Z := if m <=? 2 then y - 1 else y.
Definition month_days (m : Z) : Z := (153 * (if m <=? 2 then m + 9 else m - 3) + 2) / 5.
Definition month_start (y m : Z) : Z := march_days (eyear y m) + month_days m - 719468.
Definition day_number (f : fields) : Z := month_start (f_y f) (f_m f) + f_d f - 1.

(** The number of the time in its unit. *)
Definition hour_number (f : fields) : Z := day_number f * 24 + f_hh f.
Definition minute_number (f : fields) : Z := hour_number f * 60 + f_mm f.
Definition second_number (f : fields) : Z := minute_number f * 60 + f_ss f.

Definition number (t : tag) (f : fields) : Z :=
  match t with
  | second_tag => second_number f
  | minute_tag => minute_number f
  | hour_tag => hour_number f
  | day_tag => day_number f
  | month_tag => f_y f * 12 + f_m f - 1
  | year_tag => f_y f
  end.

Lemma hour_number_eq f : hour_number f = day_number f * 24 + f_hh f.
Proof. reflexivity. Qed.
Lemma minute_number_eq f : minute_number f = hour_number f * 60 + f_mm f.
Proof. reflexivity. Qed.
Lemma second_number_eq f : second_number f = minute_number f * 60 + f_ss f.
Proof. reflexivity. Qed.
Lemma day_number_eq f : day_number f = month_start (f_y f) (f_m f) + f_d f - 1.
Proof. reflexivity. Qed.

(** ** The tables against the calendar *)

Lemma rem_zero y k : 0 < k -> (Z.rem y k =? 0) = (y mod k =? 0).
Proof.
  intros Hk. apply Bool.eq_iff_eq_true. rewrite !Z.eqb_eq. rewrite Z.rem_divide, Z.mod_divide by lia. done.
Qed.

Lemma is_leap_year_leap y : is_leap_year y = leap y.
Proof.
  unfold is_leap_year, leap. rewrite !rem_zero by lia. destruct (Z.eqb_spec (y mod 400) 0) as [E|E]; [|by rewrite orb_false_r].
  assert (y mod 4 = 0) as -> by dlia. by rewrite orb_true_r.
Qed.

(** Every year is [400 q + r]. *)
Lemma march_parts q r : 0 <= r < 400 -> march_days (400 * q + r) = 146097 * q + 365 * r + r / 4 - r / 100.
Proof. intros Hr. unfold march_days. dlia. Qed.

Lemma march_400 e : march_days (e + 400) = march_days e + 146097.
Proof. unfold march_days. dlia. Qed.

Lemma march_year e : march_days (e + 1) - march_days e = if leap (e + 1) then 366 else 365.
Proof.
  unfold leap. pose proof (Z.div_mod e 400 ltac:(lia)) as He. pose proof (Z.mod_pos_bound e 400 ltac:(lia)) as Hr. set (q := e / 400) in *. set (r := e mod 400) in *. rewrite He.
  destruct (Z.eqb_spec ((400 * q + r + 1) mod 400) 0) as [E|E]; cbn [orb].
  - assert (r = 399) as -> by dlia. replace (400 * q + 399 + 1) with (400 * (q + 1) + 0) by lia. rewrite !march_parts by lia. dlia.
  - assert (r < 399) by dlia. replace (400 * q + r + 1) with (400 * q + (r + 1)) by lia. rewrite !march_parts by lia.
    replace ((400 * q + (r + 1)) mod 4) with ((r + 1) mod 4) by dlia. replace ((400 * q + (r + 1)) mod 100) with ((r + 1) mod 100) by dlia.
    destruct (Z.eqb_spec ((r + 1) mod 4) 0), (Z.eqb_spec ((r + 1) mod 100) 0); cbn [andb negb]; dlia.
Qed.

Lemma march_century e : march_days (e + 100) - march_days e = 36524 + Z.b2z (300 <=? e mod 400).
Proof.
  pose proof (Z.div_mod e 400 ltac:(lia)) as He. pose proof (Z.mod_pos_bound e 400 ltac:(lia)) as Hr. set (q := e / 400) in *. set (r := e mod 400) in *. rewrite He.
  destruct (Z.leb_spec 300 r); cbn [Z.b2z].
  - replace (400 * q + r + 100) with (400 * (q + 1) + (r - 300)) by lia. rewrite !march_parts by lia. dlia.
  - replace (400 * q + r + 100) with (400 * q + (r + 100)) by lia. rewrite !march_parts by lia. dlia.
Qed.

Lemma march_quad e : march_days (e + 4) - march_days e = 1460 + Z.b2z ((396 <=? e mod 400) || (e mod 100 <? 96)).
Proof.
  pose proof (Z.div_mod e 400 ltac:(lia)) as He. pose proof (Z.mod_pos_bound e 400 ltac:(lia)) as Hr. replace (e mod 100) with (e mod 400 mod 100) by dlia.
  set (q := e / 400) in *. set (r := e mod 400) in *. rewrite He.
  destruct (Z.leb_spec 396 r); cbn [Z.b2z orb].
  - replace (400 * q + r + 4) with (400 * (q + 1) + (r - 396)) by lia. rewrite !march_parts by lia. dlia.
  - replace (400 * q + r + 4) with (400 * q + (r + 4)) by lia. rewrite !march_parts by lia. destruct (Z.ltb_spec (r mod 100) 96); cbn [Z.b2z]; dlia.
Qed.

(** Years for which no sum of the normalization overflows. *)
Definition year_ok (y : Z) : Prop := -9200000000000000000 <= y <= 9200000000000000000.

Lemma int64_ok z : INT64_MIN <= z <= INT64_MAX -> int64 z = Ok z.
Proof. intros [H1 H2]. unfold int64. by rewrite (proj2 (Z.leb_le _ _) H1), (proj2 (Z.leb_le _ _) H2). Qed.

Ltac in64 := unfold year_ok, INT64_MIN, INT64_MAX in *; try lia.
Ltac int64 := rewrite int64_ok by in64; cbn [mbind outcome_bind].

Lemma eyear_next y m : 1 <= m <= 12 -> eyear y m + 1 = y + Z.b2z (2 <? m).
Proof. intros. unfold eyear. destruct (Z.leb_spec m 2), (Z.ltb_spec 2 m); cbn [Z.b2z]; lia. Qed.

Lemma eyear_add y k m : eyear (y + k) m = eyear y m + k.
Proof. unfold eyear. destruct (m <=? 2); lia. Qed.

Lemma year_index_ok y m : year_ok y -> 1 <= m <= 12 -> year_index y m = Ok ((eyear y m + 1) mod 400).
Proof.
  intros Hy Hm. unfold year_index. rewrite <- eyear_next by done. assert (y - 1 <= eyear y m <= y) by (unfold eyear; destruct (m <=? 2); lia). int64. f_equal. dlia.
Qed.

Lemma days_per_century_ok y m : year_ok y -> 1 <= m <= 12 -> days_per_century y m = Ok (march_days (eyear y m + 100) - march_days (eyear y m)).
Proof.
  intros Hy Hm. unfold days_per_century. rewrite year_index_ok, march_century by done. cbn [mbind outcome_bind]. do 2 f_equal. set (e := eyear y m). f_equal.
  apply Bool.eq_iff_eq_true. rewrite orb_true_iff, Z.eqb_eq, Z.ltb_lt, Z.leb_le. dlia.
Qed.

Lemma days_per_4years_ok y m : year_ok y -> 1 <= m <= 12 -> days_per_4years y m = Ok (march_days (eyear y m + 4) - march_days (eyear y m)).
Proof.
  intros Hy Hm. unfold days_per_4years. rewrite year_index_ok, march_quad by done. cbn [mbind outcome_bind]. do 2 f_equal. set (e := eyear y m). f_equal.
  pose proof (Z.mod_pos_bound e 400 ltac:(lia)) as Hr. replace (e mod 100) with (e mod 400 mod 100) by dlia. replace ((e + 1) mod 400) with (if e mod 400 =? 399 then 0 else e mod 400 + 1) by (destruct (Z.eqb_spec (e mod 400) 399); dlia).
  set (r := e mod 400) in *. apply Bool.eq_iff_eq_true. rewrite !orb_true_iff, Z.eqb_eq, !Z.ltb_lt, Z.leb_le. destruct (Z.eqb_spec r 399); dlia.
Qed.

Lemma days_per_year_ok y m : year_ok y -> 1 <= m <= 12 -> days_per_year y m = Ok (march_days (eyear y m + 1) - march_days (eyear y m)).
Proof.
  intros Hy Hm. unfold days_per_year. rewrite <- eyear_next by done. assert (y - 1 <= eyear y m <= y) by (unfold eyear; destruct (m <=? 2); lia). int64. by rewrite is_leap_year_leap, march_year.
Qed.

(** A month from 1 to 12, by cases. *)
Ltac months m Hm :=
  assert (m = 1 \/ m = 2 \/ m = 3 \/ m = 4 \/ m = 5 \/ m = 6 \/ m = 7 \/ m = 8 \/ m = 9 \/ m = 10 \/ m = 11 \/ m = 12) as Hm' by (clear - Hm; lia);
  destruct Hm' as [->|[->|[->|[->|[->|[->|[->|[->|[->|[->|[->| ->]]]]]]]]]]].

(** Comparisons of numerals. *)
Ltac compare_numerals :=
  repeat match goal with
  | |- context [?a <? ?b] => let v := eval vm_compute in (a <? b) in first [constr_eq v true | constr_eq v false]; change (a <? b) with v
  | |- context [?a <=? ?b] => let v := eval vm_compute in (a <=? b) in first [constr_eq v true | constr_eq v false]; change (a <=? b) with v
  | |- context [?a =? ?b] => let v := eval vm_compute in (a =? b) in first [constr_eq v true | constr_eq v false]; change (a =? b) with v
  end; cbn [fst snd orb andb negb Z.b2z].

Lemma days_per_month_ok y m : 1 <= m <= 12 -> days_per_month y m = Ok (month_length y m).
Proof. intros Hm. unfold days_per_month, month_length. rewrite is_leap_year_leap. months m Hm; cbn; try done. by destruct (leap y). Qed.

(** The month after. *)
Definition next_month (y m : Z) : Z * Z := if 12 <? m + 1 then (y + 1, 1) else (y, m + 1).

Lemma month_length_start y m : 1 <= m <= 12 -> month_start (next_month y m).1 (next_month y m).2 - month_start y m = month_length y m.
Proof.
  intros Hm. unfold month_start, month_length, next_month, eyear, month_days. pose proof (march_year (y - 1)) as Hy. replace (y - 1 + 1) with y in Hy by lia.
  destruct (leap y); months m Hm; compare_numerals; try (replace (y + 1 - 1) with y by lia); dlia.
Qed.

(** ** The loops *)

Lemma spans_ok days_per k fuel y m d :
  (forall y, year_ok y -> days_per y m = Ok (march_days (eyear y m + k) - march_days (eyear y m))) -> 0 <= k ->
  (1 <= fuel)%nat -> year_ok y -> year_ok (y + k * Z.of_nat fuel) -> 1 <= d <= march_days (eyear y m + k * Z.of_nat fuel) - march_days (eyear y m) ->
  exists y' d', spans days_per k fuel y m d = Ok (y', d') /\ y <= y' <= y + k * Z.of_nat fuel /\ 1 <= d' <= march_days (eyear y' m + k) - march_days (eyear y' m) /\
    march_days (eyear y' m) + d' = march_days (eyear y m) + d.
Proof.
  intros Hper Hk. revert y d. induction fuel as [|fuel IH]; intros y d HF Hy Hy' Hd; [lia|]. cbn [spans]. rewrite Hper by done. cbn [mbind outcome_bind].
  replace (k * Z.of_nat (S fuel)) with (k + k * Z.of_nat fuel) in * by lia. assert (0 <= k * Z.of_nat fuel) by nia.
  destruct (Z.ltb_spec (march_days (eyear y m + k) - march_days (eyear y m)) d) as [Hlt|Hge]; [|exists y, d; split_and!; try done; lia].
  assert (year_ok (y + k)) by in64. int64. destruct fuel as [|fuel]; [replace (k + k * Z.of_nat 0) with k in Hd by lia; lia|].
  destruct (IH (y + k) (d - (march_days (eyear y m + k) - march_days (eyear y m)))) as (y' & d' & -> & H1 & H2 & H3); try done; [lia|by rewrite <- Z.add_assoc|..].
  - rewrite eyear_add, <- Z.add_assoc. lia.
  - exists y', d'. rewrite eyear_add in H3. split_and!; try done; lia.
Qed.

(** [k] months later. *)
Fixpoint later (k : nat) (ym : Z * Z) : Z * Z := match k with O => ym | S k => later k (next_month ym.1 ym.2) end.

Lemma next_month_ok y m : 1 <= m <= 12 -> 1 <= (next_month y m).2 <= 12 /\ y <= (next_month y m).1 <= y + 1.
Proof. intros Hm. unfold next_month. destruct (Z.ltb_spec 12 (m + 1)); cbn [fst snd]; lia. Qed.

Lemma later_year y m : 1 <= m <= 12 -> later 12 (y, m) = (y + 1, m).
Proof. intros Hm. months m Hm; vm_compute; reflexivity. Qed.

Lemma month_start_year y m : month_start (y + 1) m - month_start y m = march_days (eyear y m + 1) - march_days (eyear y m).
Proof. unfold month_start. rewrite eyear_add. lia. Qed.

Lemma months_ok fuel y m d : (1 <= fuel)%nat -> 1 <= m <= 12 -> year_ok y -> year_ok (y + Z.of_nat fuel) ->
  1 <= d <= month_start (later fuel (y, m)).1 (later fuel (y, m)).2 - month_start y m ->
  exists y' m' d', months fuel y m d = Ok (y', m', d') /\ 1 <= m' <= 12 /\ y <= y' <= y + Z.of_nat fuel /\ 1 <= d' <= month_length y' m' /\
    month_start y' m' + d' = month_start y m + d.
Proof.
  revert y m d. induction fuel as [|fuel IH]; intros y m d HF Hm Hy Hy' Hd; [lia|]. cbn [months]. rewrite days_per_month_ok by done. cbn [mbind outcome_bind].
  pose proof (month_length_start y m Hm) as Hl. destruct (next_month_ok y m Hm) as [Hm1 Hy1]. cbn [later fst snd] in Hd.
  destruct (Z.ltb_spec (month_length y m) d) as [Hlt|Hge]; [|exists y, m, d; split_and!; try done; lia].
  destruct fuel as [|fuel]; [cbn [later] in Hd; lia|].
  assert (Hnext : forall y1 m1, next_month y m = (y1, m1) -> exists y' m' d', months (S fuel) y1 m1 (d - month_length y m) = Ok (y', m', d') /\ 1 <= m' <= 12 /\
    y <= y' <= y + Z.of_nat (S (S fuel)) /\ 1 <= d' <= month_length y' m' /\ month_start y' m' + d' = month_start y m + d).
  { intros y1 m1 E. rewrite E in *. cbn [fst snd] in *. destruct (IH y1 m1 (d - month_length y m)) as (y' & m' & d' & -> & H1 & H2 & H3 & H4); try done; [lia|in64|in64|lia|].
    exists y', m', d'. split_and!; try done; lia. }
  unfold next_month in Hnext, Hy1. destruct (Z.ltb_spec 12 (m + 1)); [int64|]; by apply Hnext.
Qed.

(** ** [n_day] *)

Lemma march_cycles e k : march_days (e + 400 * k) = march_days e + 146097 * k.
Proof. unfold march_days. dlia. Qed.

Definition within (k y y' : Z) : Prop := y - k <= y' <= y + k.

Lemma cycles_ok y m d cd : 1 <= m <= 12 -> -9100000000000000000 <= y <= 9100000000000000000 -> INT64_MIN <= d <= INT64_MAX -> INT64_MIN <= cd <= INT64_MAX ->
  exists y' d', cycles y m d cd = Ok (y', d') /\ within 60000000000000000 y y' /\ 1 <= d' <= 146097 /\ march_days (eyear y' m) + d' = march_days (eyear y m) + d + cd.
Proof.
  intros Hm Hy Hd Hcd. unfold cycles, within. pose proof (Z.quot_rem' cd 146097) as Ec. pose proof (Z.quot_rem' d 146097) as Ed. set (qc := Z.quot cd 146097) in *. set (qd := Z.quot d 146097) in *.
  assert (Hc : -146097 < Z.rem cd 146097 < 146097) by dlia. assert (Hr : -146097 < Z.rem d 146097 < 146097) by dlia. set (rc := Z.rem cd 146097) in *. set (rd := Z.rem d 146097) in *. clearbody qc qd rc rd.
  assert (Hqc : -63500000000000 <= qc <= 63500000000000) by in64. assert (Hqd : -63500000000000 <= qd <= 63500000000000) by in64. int64.
  assert (Hsplit : exists k r, (if rc <? 0 then y ← int64 (y + qc * 400 - 400); Ok (y, rc + 146097) else Ok (y + qc * 400, rc)) = Ok (y + 400 * k, r) /\ 0 <= r < 146097 /\
    cd = 146097 * k + r /\ -63500000000001 <= k <= 63500000000000).
  { destruct (Z.ltb_spec rc 0).
    - exists (qc - 1), (rc + 146097). int64. split_and!; try lia. do 2 f_equal. lia.
    - exists qc, rc. split_and!; try lia. do 2 f_equal. lia. }
  destruct Hsplit as (k & r & -> & Hr1 & Hk & Hk1). cbn [mbind outcome_bind]. int64. replace (y + 400 * k + qd * 400) with (y + 400 * (k + qd)) by lia.
  pose proof (march_cycles (eyear y m) (k + qd)) as Hm1. pose proof (march_cycles (eyear y m) (k + qd + 1)) as Hm2. pose proof (march_cycles (eyear y m) (k + qd - 1)) as Hm3.
  destruct (Z.ltb_spec 0 (rd + r)) as [Hpos|Hneg]; [destruct (Z.ltb_spec 146097 (rd + r))|destruct (Z.ltb_spec (-365) (rd + r))].
  - int64. eexists _, _. split; [done|]. replace (y + 400 * (k + qd) + 400) with (y + 400 * (k + qd + 1)) by lia. rewrite eyear_add, Hm2. split_and!; lia.
  - eexists _, _. split; [done|]. rewrite eyear_add, Hm1. split_and!; lia.
  - int64. rewrite days_per_year_ok by (done || in64). cbn [mbind outcome_bind]. eexists _, _. split; [done|].
    pose proof (march_year (eyear (y + 400 * (k + qd) - 1) m)) as Hyr. replace (y + 400 * (k + qd) - 1) with (y + (400 * (k + qd) - 1)) in * by lia. rewrite eyear_add in *.
    replace (eyear y m + (400 * (k + qd) - 1) + 1) with (eyear y m + 400 * (k + qd)) in * by lia. destruct (leap _); split_and!; lia.
  - int64. eexists _, _. split; [done|]. replace (y + 400 * (k + qd) - 400) with (y + 400 * (k + qd - 1)) by lia. rewrite eyear_add, Hm3. split_and!; lia.
Qed.

Lemma whole_years_ok y m d : 1 <= m <= 12 -> -9160000000000000000 <= y <= 9160000000000000000 -> 1 <= d <= 146097 ->
  exists y' d', whole_years y m d = Ok (y', d') /\ within 1000 y y' /\ 1 <= d' <= march_days (eyear y' m + 1) - march_days (eyear y' m) /\
    march_days (eyear y' m) + d' = march_days (eyear y m) + d.
Proof.
  intros Hm Hy Hd. unfold whole_years, within. destruct (Z.ltb_spec 365 d).
  - destruct (spans_ok days_per_century 100 4 y m d) as (y1 & d1 & E1 & Hy1 & Hd1 & Hv1); try lia; [intros; by apply days_per_century_ok|in64|in64|change (100 * Z.of_nat 4) with 400; rewrite march_400; lia|].
    destruct (spans_ok days_per_4years 4 25 y1 m d1) as (y2 & d2 & E2 & Hy2 & Hd2 & Hv2); try lia; [intros; by apply days_per_4years_ok|in64|in64|done|].
    destruct (spans_ok days_per_year 1 4 y2 m d2) as (y3 & d3 & E3 & Hy3 & Hd3 & Hv3); try lia; [intros; by apply days_per_year_ok|in64|in64|done|].
    unfold centuries, quads, years. rewrite E1. cbn [mbind outcome_bind]. rewrite E2. cbn [mbind outcome_bind]. rewrite E3. exists y3, d3. split_and!; try done; lia.
  - exists y, d. pose proof (march_year (eyear y m)). split_and!; try done; destruct (leap _); lia.
Qed.

Lemma month_length_28 y m : 28 <= month_length y m.
Proof. unfold month_length. repeat case_if; lia. Qed.

Lemma n_day_ok y m d cd hh mm ss : 1 <= m <= 12 -> -9100000000000000000 <= y <= 9100000000000000000 -> INT64_MIN <= d <= INT64_MAX -> INT64_MIN <= cd <= INT64_MAX ->
  exists y' m' d', n_day y m d cd hh mm ss = Ok (mk_fields y' m' d' hh mm ss) /\ 1 <= m' <= 12 /\ 1 <= d' <= month_length y' m' /\ within 70000000000000000 y y' /\
    month_start y' m' + d' = month_start y m + d + cd.
Proof.
  intros Hm Hy Hd Hcd. unfold n_day. destruct (cycles_ok y m d cd) as (y1 & d1 & -> & Hy1 & Hd1 & Hv1); try done. cbn [mbind outcome_bind]. unfold within in *.
  destruct (whole_years_ok y1 m d1) as (y2 & d2 & -> & Hy2 & Hd2 & Hv2); try done; [lia|]. cbn [mbind outcome_bind]. unfold within in *.
  destruct (Z.ltb_spec 28 d2).
  - destruct (months_ok 12 y2 m d2) as (y3 & m3 & d3 & -> & Hm3 & Hy3 & Hd3 & Hv3); try done; [lia|in64|in64|rewrite later_year by done; cbn [fst snd]; rewrite month_start_year; lia|].
    cbn [mbind outcome_bind]. exists y3, m3, d3. split_and!; try done; try lia. rewrite Hv3. unfold month_start. lia.
  - cbn [mbind outcome_bind]. exists y2, m, d2. pose proof (month_length_28 y2 m). split_and!; try done; try lia. unfold month_start. lia.
Qed.

(** ** The other units *)

(** Where a month is that need not be from 1 to 12. *)
Definition civil_start (y m : Z) : Z := month_start (y + (m - 1) / 12) ((m - 1) mod 12 + 1).

(** The second that six fields stand for. *)
Definition civil_second (y m d hh mm ss : Z) : Z := (((civil_start y m + d - 1) * 24 + hh) * 60 + mm) * 60 + ss.

Lemma civil_second_eq y m d hh mm ss : civil_second y m d hh mm ss = (((civil_start y m + d - 1) * 24 + hh) * 60 + mm) * 60 + ss.
Proof. reflexivity. Qed.

(** The result of a normalization of the year [y] that stands for the second [v]. *)
Definition lands (y v : Z) (r : outcome fields) : Prop := exists f, r = Ok f /\ valid f /\ within 900000000000000000 y (f_y f) /\ second_number f = v.

Lemma n_day_lands y m d cd hh mm ss v : 1 <= m <= 12 -> -9100000000000000000 <= y <= 9100000000000000000 -> INT64_MIN <= d <= INT64_MAX -> INT64_MIN <= cd <= INT64_MAX ->
  0 <= hh < 24 -> 0 <= mm < 60 -> 0 <= ss < 60 -> v = (((month_start y m + d + cd - 1) * 24 + hh) * 60 + mm) * 60 + ss ->
  exists f, n_day y m d cd hh mm ss = Ok f /\ valid f /\ within 70000000000000000 y (f_y f) /\ second_number f = v.
Proof.
  intros Hm Hy Hd Hcd Hhh Hmm Hss ->. destruct (n_day_ok y m d cd hh mm ss) as (y' & m' & d' & -> & Hm' & Hd' & Hy' & Hv); try done.
  eexists. split; [done|]. split; [by split|]. split; [done|]. unfold second_number, minute_number, hour_number, day_number. cbn [f_y f_m f_d f_hh f_mm f_ss]. lia.
Qed.

Lemma n_mon_lands y m d cd hh mm ss v : -8200000000000000000 <= y <= 8200000000000000000 -> INT64_MIN <= m <= INT64_MAX -> INT64_MIN <= d <= INT64_MAX -> INT64_MIN <= cd <= INT64_MAX ->
  0 <= hh < 24 -> 0 <= mm < 60 -> 0 <= ss < 60 -> v = civil_second y m (d + cd) hh mm ss -> lands y v (n_mon y m d cd hh mm ss).
Proof.
  intros Hy Hm Hd Hcd Hhh Hmm Hss ->. unfold n_mon, civil_second, lands.
  assert (Hday : forall y1 m1, y1 = y + (m - 1) / 12 -> m1 = (m - 1) mod 12 + 1 ->
    exists f, n_day y1 m1 d cd hh mm ss = Ok f /\ valid f /\ within 900000000000000000 y (f_y f) /\ second_number f = (((civil_start y m + (d + cd) - 1) * 24 + hh) * 60 + mm) * 60 + ss).
  { intros y1 m1 -> ->. assert (-770000000000000000 <= (m - 1) / 12 <= 770000000000000000) by (unfold INT64_MIN, INT64_MAX in *; dlia). pose proof (Z.mod_pos_bound (m - 1) 12 ltac:(lia)).
    destruct (n_day_lands (y + (m - 1) / 12) ((m - 1) mod 12 + 1) d cd hh mm ss _ ltac:(lia) ltac:(lia) Hd Hcd Hhh Hmm Hss eq_refl) as (f & -> & Hf & Hw & Hn).
    exists f. unfold within in *. split_and!; try done; try lia. rewrite Hn. unfold civil_start. f_equal. lia. }
  assert (-770000000000000000 <= Z.quot m 12 <= 770000000000000000) by (unfold INT64_MIN, INT64_MAX in *; dlia).
  destruct (Z.eqb_spec m 12); cbn [negb]; [subst m; apply Hday; [change ((12 - 1) / 12) with 0; lia|done]|]. int64. destruct (Z.leb_spec (Z.rem m 12) 0); [int64|]; apply Hday; unfold INT64_MIN, INT64_MAX in *; dlia.
Qed.

Lemma n_hour_lands y m d cd hh mm ss v : -8200000000000000000 <= y <= 8200000000000000000 -> INT64_MIN <= m <= INT64_MAX -> INT64_MIN <= d <= INT64_MAX ->
  -8000000000000000000 <= cd <= 8000000000000000000 -> INT64_MIN <= hh <= INT64_MAX -> 0 <= mm < 60 -> 0 <= ss < 60 -> v = civil_second y m (d + cd) hh mm ss ->
  lands y v (n_hour y m d cd hh mm ss).
Proof.
  intros Hy Hm Hd Hcd Hhh Hmm Hss ->. unfold n_hour. pose proof (Z.quot_rem' hh 24). assert (-24 < Z.rem hh 24 < 24) by dlia. set (q := Z.quot hh 24) in *. set (r := Z.rem hh 24) in *. clearbody q r.
  assert (-400000000000000000 <= q <= 400000000000000000) by in64. int64. destruct (Z.ltb_spec r 0); [int64|]; apply n_mon_lands; try done; try (in64; lia); unfold civil_second; lia.
Qed.

Lemma n_min_lands y m d hh ch mm ss v : -8200000000000000000 <= y <= 8200000000000000000 -> INT64_MIN <= m <= INT64_MAX -> INT64_MIN <= d <= INT64_MAX -> INT64_MIN <= hh <= INT64_MAX ->
  -8000000000000000000 <= ch <= 8000000000000000000 -> INT64_MIN <= mm <= INT64_MAX -> 0 <= ss < 60 -> v = civil_second y m d (hh + ch) mm ss ->
  lands y v (n_min y m d hh ch mm ss).
Proof.
  intros Hy Hm Hd Hhh Hch Hmm Hss ->. unfold n_min. pose proof (Z.quot_rem' mm 60). assert (-60 < Z.rem mm 60 < 60) by dlia. set (q := Z.quot mm 60) in *. set (r := Z.rem mm 60) in *. clearbody q r.
  assert (-160000000000000000 <= q <= 160000000000000000) by in64. int64.
  assert (Hgo : forall c r1, -8200000000000000000 <= c <= 8200000000000000000 -> 0 <= r1 < 60 -> c * 60 + r1 = ch * 60 + mm ->
    lands y (civil_second y m d (hh + ch) mm ss) (n_hour y m d (Z.quot hh 24 + Z.quot c 24) (Z.rem hh 24 + Z.rem c 24) r1 ss)).
  { intros c r1 Hc Hr1 E. pose proof (Z.quot_rem' hh 24). pose proof (Z.quot_rem' c 24). assert (-24 < Z.rem hh 24 < 24) by dlia. assert (-24 < Z.rem c 24 < 24) by dlia.
    apply n_hour_lands; try done; try (in64; lia). rewrite !civil_second_eq. lia. }
  destruct (Z.ltb_spec r 0); [int64|cbn [mbind outcome_bind]]; apply Hgo; lia.
Qed.

Lemma n_sec_lands y m d hh mm ss : -8200000000000000000 <= y <= 8200000000000000000 -> INT64_MIN <= m <= INT64_MAX -> INT64_MIN <= d <= INT64_MAX -> INT64_MIN <= hh <= INT64_MAX ->
  INT64_MIN <= mm <= INT64_MAX -> INT64_MIN <= ss <= INT64_MAX -> lands y (civil_second y m d hh mm ss) (n_sec y m d hh mm ss).
Proof.
  intros Hy Hm Hd Hhh Hmm Hss. unfold n_sec. pose proof (Z.quot_rem' hh 24). pose proof (Z.quot_rem' mm 60). pose proof (Z.quot_rem' ss 60).
  assert (-24 < Z.rem hh 24 < 24) by dlia. assert (-60 < Z.rem mm 60 < 60) by dlia. assert (-60 < Z.rem ss 60 < 60) by dlia.
  destruct ((0 <=? ss) && (ss <? 60)) eqn:Es; zbool; [destruct ((0 <=? mm) && (mm <? 60)) eqn:Em; zbool; [destruct ((0 <=? hh) && (hh <? 24)) eqn:Eh; zbool; [destruct (_ && _ && _ && _) eqn:Ed; zbool|]|]|].
  - eexists. split; [done|]. assert (Em1 : (m - 1) / 12 = 0) by (apply Z.div_small; lia). assert (Em2 : (m - 1) mod 12 = m - 1) by (apply Z.mod_small; lia). split_and!.
    + split; cbn [f_y f_m f_d f_hh f_mm f_ss]; try lia. pose proof (month_length_28 y m). lia.
    + unfold within. cbn. lia.
    + unfold second_number, minute_number, hour_number, day_number, civil_second, civil_start. cbn [f_y f_m f_d f_hh f_mm f_ss]. rewrite Em1, Em2. replace (y + 0) with y by lia. replace (m - 1 + 1) with m by lia. lia.
  - apply n_mon_lands; try done; try (in64; lia). rewrite !civil_second_eq. lia.
  - apply n_hour_lands; try done; try (in64; lia). rewrite !civil_second_eq. lia.
  - apply n_min_lands; try done; try (in64; lia). rewrite !civil_second_eq. lia.
  - assert (Hgo : forall c r1, -200000000000000000 <= c <= 200000000000000000 -> 0 <= r1 < 60 -> c * 60 + r1 = ss ->
      lands y (civil_second y m d hh mm ss) (n_min y m d hh (Z.quot mm 60 + Z.quot c 60) (Z.rem mm 60 + Z.rem c 60) r1)).
    { intros c r1 Hc Hr1 E. pose proof (Z.quot_rem' c 60). assert (-60 < Z.rem c 60 < 60) by dlia. apply n_min_lands; try done; try (in64; lia). rewrite !civil_second_eq. lia. }
    cbn zeta. assert (-160000000000000000 <= Z.quot ss 60 <= 160000000000000000) by in64. destruct (Z.ltb_spec (Z.rem ss 60) 0); [int64|cbn [mbind outcome_bind]]; apply Hgo; lia.
Qed.

(** ** Dates are their numbers *)

(** Months, counted. *)
Definition month_index (y m : Z) : Z := y * 12 + m - 1.
Definition start_at (t : Z) : Z := month_start (t / 12) (t mod 12 + 1).

Lemma start_at_index y m : 1 <= m <= 12 -> start_at (month_index y m) = month_start y m.
Proof. intros Hm. unfold start_at, month_index. f_equal; dlia. Qed.

Lemma start_at_next y m : 1 <= m <= 12 -> start_at (month_index y m + 1) = month_start y m + month_length y m.
Proof.
  intros Hm. rewrite <- (month_length_start y m Hm). destruct (next_month_ok y m Hm) as [Hm1 _]. rewrite <- (start_at_index (next_month y m).1 (next_month y m).2) by done.
  replace (month_index (next_month y m).1 (next_month y m).2) with (month_index y m + 1); [lia|]. unfold month_index, next_month. destruct (12 <? m + 1) eqn:E; zbool; cbn [fst snd]; lia.
Qed.

Lemma start_at_mono t k : 0 <= k -> start_at t <= start_at (t + k).
Proof.
  intros Hk. revert k Hk. apply natlike_ind; [by rewrite Z.add_0_r|]. intros k Hk IH. etrans; [exact IH|]. pose proof (Z.div_mod (t + k) 12 ltac:(lia)) as E. pose proof (Z.mod_pos_bound (t + k) 12 ltac:(lia)) as Hr.
  pose proof (start_at_next ((t + k) / 12) ((t + k) mod 12 + 1) ltac:(lia)) as Hn. pose proof (month_length_28 ((t + k) / 12) ((t + k) mod 12 + 1)).
  replace (month_index _ _) with (t + k) in Hn by (unfold month_index; lia). replace (t + Z.succ k) with (t + k + 1) by lia. unfold start_at at 1. lia.
Qed.

Lemma day_number_lt f1 f2 : valid f1 -> valid f2 -> month_index (f_y f1) (f_m f1) < month_index (f_y f2) (f_m f2) -> day_number f1 < day_number f2.
Proof.
  intros [Hm1 Hd1 _ _ _] [Hm2 Hd2 _ _ _] Hlt. pose proof (start_at_mono (month_index (f_y f1) (f_m f1) + 1) (month_index (f_y f2) (f_m f2) - month_index (f_y f1) (f_m f1) - 1) ltac:(lia)) as H.
  replace (_ + 1 + _) with (month_index (f_y f2) (f_m f2)) in H by lia. rewrite start_at_next, start_at_index in H by done. unfold day_number. lia.
Qed.

Lemma fields_eta f : f = mk_fields (f_y f) (f_m f) (f_d f) (f_hh f) (f_mm f) (f_ss f).
Proof. by destruct f. Qed.

Lemma valid_unique f1 f2 : valid f1 -> valid f2 -> second_number f1 = second_number f2 -> f1 = f2.
Proof.
  intros H1 H2 E. pose proof H1 as [Hm1 Hd1 ? ? ?]. pose proof H2 as [Hm2 Hd2 ? ? ?]. rewrite !second_number_eq, !minute_number_eq, !hour_number_eq in E. assert (Ed : day_number f1 = day_number f2) by lia.
  assert (Ei : month_index (f_y f1) (f_m f1) = month_index (f_y f2) (f_m f2)).
  { destruct (Z.lt_trichotomy (month_index (f_y f1) (f_m f1)) (month_index (f_y f2) (f_m f2))) as [Hl|[|Hl]]; [|done|]; [pose proof (day_number_lt f1 f2 H1 H2 Hl)|pose proof (day_number_lt f2 f1 H2 H1 Hl)]; lia. }
  unfold month_index in Ei. assert (Ey : f_y f1 = f_y f2) by lia. assert (Em : f_m f1 = f_m f2) by lia. assert (f_d f1 = f_d f2) by (rewrite !day_number_eq, Ey, Em in Ed; lia).
  rewrite (fields_eta f1), (fields_eta f2). f_equal; lia.
Qed.

Lemma before_number f1 f2 : valid f1 -> valid f2 -> before f1 f2 = (second_number f1 <? second_number f2).
Proof.
  intros H1 H2. pose proof H1 as [Hm1 Hd1 ? ? ?]. pose proof H2 as [Hm2 Hd2 ? ? ?]. apply Bool.eq_iff_eq_true. rewrite Z.ltb_lt. unfold before. rewrite !second_number_eq, !minute_number_eq, !hour_number_eq.
  repeat rewrite ?orb_true_iff, ?andb_true_iff, ?Z.ltb_lt, ?Z.eqb_eq. pose proof (day_number_lt f1 f2 H1 H2) as Hl. pose proof (day_number_lt f2 f1 H2 H1) as Hg. unfold month_index in *.
  destruct (decide (f_y f1 = f_y f2 /\ f_m f1 = f_m f2)) as [[Ey Em]|Hne].
  - assert (Ed : day_number f1 - day_number f2 = f_d f1 - f_d f2) by (unfold day_number; rewrite Ey, Em; lia). lia.
  - destruct (Z.lt_ge_cases (f_y f1 * 12 + f_m f1 - 1) (f_y f2 * 12 + f_m f2 - 1)); [|assert (f_y f2 * 12 + f_m f2 - 1 < f_y f1 * 12 + f_m f1 - 1) by lia]; lia.
Qed.

(** ** Differences *)

Lemma month_days_quot m : 1 <= m <= 12 -> Z.quot (153 * (m + (if 2 <? m then -3 else 9)) + 2) 5 = month_days m /\ 0 <= month_days m <= 337.
Proof. intros Hm. unfold month_days. months m Hm; compare_numerals; dlia. Qed.

Lemma ymd_ord_ok y m d : -10000000000000000 <= y <= 10000000000000000 -> 1 <= m <= 12 -> 1 <= d <= 31 -> ymd_ord y m d = Ok (month_start y m + d - 1).
Proof.
  intros Hy Hm Hd. unfold ymd_ord. destruct (month_days_quot m Hm) as [-> Hmd]. replace (if m <=? 2 then int64 (y - 1) else Ok y) with (@Ok Z (eyear y m)).
  2:{ unfold eyear. destruct (m <=? 2); [|done]. by rewrite int64_ok by in64. }
  cbn [mbind outcome_bind]. unfold month_start. assert (He : -10000000000000001 <= eyear y m <= 10000000000000000) by (unfold eyear; destruct (m <=? 2); lia). set (e := eyear y m) in *. clearbody e.
  assert (Hera : exists e', (if 0 <=? e then Ok e else int64 (e - 399)) = Ok e' /\ Z.quot e' 400 = e / 400).
  { destruct (Z.leb_spec 0 e); [exists e; split; [done|dlia]|]. exists (e - 399). split; [by rewrite int64_ok by in64|dlia]. }
  destruct Hera as (e' & -> & Eq). cbn [mbind outcome_bind]. rewrite Eq. pose proof (Z.div_mod e 400 ltac:(lia)) as E. pose proof (Z.mod_pos_bound e 400 ltac:(lia)) as Hr. replace (e - e / 400 * 400) with (e mod 400) by lia.
  pose proof (march_parts (e / 400) (e mod 400) Hr) as Hp. rewrite <- E in Hp. set (q := e / 400) in *. set (r := e mod 400) in *. clearbody q r.
  assert (0 <= r / 4 <= 100 /\ 0 <= r / 100 <= 4) as [? ?] by dlia. rewrite (Z.quot_div_nonneg r 4), (Z.quot_div_nonneg r 100) by lia. set (r4 := r / 4) in *. set (r100 := r / 100) in *. clearbody r4 r100.
  rewrite int64_ok by in64. cbn [mbind outcome_bind]. rewrite int64_ok by in64. cbn [mbind outcome_bind]. rewrite int64_ok by in64. f_equal. lia.
Qed.

Lemma month_start_bounds a m : -400 < a < 400 -> 1 <= m <= 12 -> -145791 <= month_start a m + 719468 <= 146006.
Proof. intros Ha Hm. unfold month_start, eyear, month_days, march_days. months m Hm; compare_numerals; dlia. Qed.

Lemma month_start_rem y m : month_start y m = month_start (Z.rem y 400) m + 146097 * Z.quot y 400.
Proof.
  pose proof (Z.quot_rem' y 400) as E. rewrite E at 1. replace (400 * Z.quot y 400 + Z.rem y 400) with (Z.rem y 400 + 400 * Z.quot y 400) by lia. unfold month_start. rewrite eyear_add, march_cycles. lia.
Qed.

Lemma day_difference_ok f1 f2 : valid f1 -> valid f2 -> INT64_MIN <= f_y f1 - f_y f2 <= INT64_MAX - 1000 -> INT64_MIN + 1000 <= f_y f1 - f_y f2 ->
  INT64_MIN <= day_number f1 - day_number f2 <= INT64_MAX -> difference_day f1 f2 = Ok (day_number f1 - day_number f2).
Proof.
  intros [Hm1 Hd1 _ _ _] [Hm2 Hd2 _ _ _] Hy Hy' HD. assert (f_d f1 <= 31 /\ f_d f2 <= 31) as [? ?] by (unfold month_length in *; repeat case_if_in Hd1; repeat case_if_in Hd2; lia).
  unfold difference_day, day_difference, day_number in *. rewrite (month_start_rem (f_y f1)), (month_start_rem (f_y f2)) in *.
  pose proof (Z.quot_rem' (f_y f1) 400). pose proof (Z.quot_rem' (f_y f2) 400). assert (Ha : -400 < Z.rem (f_y f1) 400 < 400) by dlia. assert (Hb : -400 < Z.rem (f_y f2) 400 < 400) by dlia.
  pose proof (month_start_bounds _ _ Ha Hm1). pose proof (month_start_bounds _ _ Hb Hm2). cbn zeta. rewrite (ymd_ord_ok (Z.rem (f_y f1) 400)), (ymd_ord_ok (Z.rem (f_y f2) 400)) by lia.
  set (s1 := month_start (Z.rem (f_y f1) 400) (f_m f1)) in *. set (s2 := month_start (Z.rem (f_y f2) 400) (f_m f2)) in *. set (q1 := Z.quot (f_y f1) 400) in *. set (q2 := Z.quot (f_y f2) 400) in *.
  replace (f_y f1 - Z.rem (f_y f1) 400 - (f_y f2 - Z.rem (f_y f2) 400)) with (400 * (q1 - q2)) by lia. int64.
  set (k := q1 - q2). set (delta := s1 + f_d f1 - 1 - (s2 + f_d f2 - 1)).
  replace (s1 + 146097 * q1 + f_d f1 - 1 - (s2 + 146097 * q2 + f_d f2 - 1)) with (146097 * k + delta) in * by lia. assert (-291857 <= delta <= 291857) by lia. clearbody k delta s1 s2 q1 q2.
  assert (Hgo : forall j e, 146097 * j + e = 146097 * k + delta -> INT64_MIN <= 146097 * j <= INT64_MAX -> (p ← int64 (Z.quot (400 * j) 400 * 146097); int64 (p + e)) = Ok (146097 * k + delta)).
  { intros j e Ej Hj. replace (Z.quot (400 * j) 400) with j by dlia. rewrite int64_ok by lia. cbn [mbind outcome_bind]. rewrite int64_ok by lia. f_equal. lia. }
  destruct ((0 <? 400 * k) && (delta <? 0)) eqn:E1; [|destruct ((400 * k <? 0) && (0 <? delta)) eqn:E2]; cbn [mbind outcome_bind].
  - zbool. replace (400 * k - 2 * 400) with (400 * (k - 2)) by lia. apply Hgo; in64.
  - zbool. replace (400 * k + 2 * 400) with (400 * (k + 2)) by lia. apply Hgo; in64.
  - apply Hgo; [done|]. apply andb_false_iff in E1, E2. destruct E1, E2; zbool; in64.
Qed.

Lemma scale_add_ok v f a : 0 < f <= 60 -> - f < a < f -> INT64_MIN <= v * f + a <= INT64_MAX -> scale_add v f a = Ok (v * f + a).
Proof.
  intros Hf Ha Hv. unfold scale_add. destruct (Z.ltb_spec v 0).
  - assert ((v + 1) * f <= 0) by nia. rewrite int64_ok by in64. cbn [mbind outcome_bind]. rewrite int64_ok by in64. cbn [mbind outcome_bind]. rewrite int64_ok by in64. f_equal. lia.
  - assert (- f <= (v - 1) * f) by nia. rewrite int64_ok by in64. cbn [mbind outcome_bind]. rewrite int64_ok by in64. cbn [mbind outcome_bind]. rewrite int64_ok by in64. f_equal. lia.
Qed.

(** A difference and the next smaller unit. *)
Lemma scaled v1 v2 k a1 a2 (r : outcome Z) : 0 < k <= 60 -> 0 <= a1 < k -> 0 <= a2 < k -> (INT64_MIN <= v1 - v2 <= INT64_MAX -> r = Ok (v1 - v2)) ->
  INT64_MIN <= v1 * k + a1 - (v2 * k + a2) <= INT64_MAX -> (v ← r; scale_add v k (a1 - a2)) = Ok (v1 * k + a1 - (v2 * k + a2)).
Proof.
  intros Hk Ha1 Ha2 Hr HD. assert (E : v1 * k + a1 - (v2 * k + a2) = (v1 - v2) * k + (a1 - a2)) by lia. rewrite E in *. rewrite Hr by (unfold INT64_MIN, INT64_MAX in *; nia).
  cbn [mbind outcome_bind]. apply scale_add_ok; lia.
Qed.

Lemma month_number_eq f : number month_tag f = f_y f * 12 + (f_m f - 1).
Proof. unfold number. lia. Qed.

Section difference.
Context (f1 f2 : fields) (H1 : valid f1) (H2 : valid f2) (Hy : INT64_MIN + 1000 <= f_y f1 - f_y f2 <= INT64_MAX - 1000).

Lemma day_difference_number : INT64_MIN <= day_number f1 - day_number f2 <= INT64_MAX -> difference_day f1 f2 = Ok (day_number f1 - day_number f2).
Proof using All. intros. apply day_difference_ok; [done..|lia|lia|done]. Qed.

Lemma hour_difference_number : INT64_MIN <= hour_number f1 - hour_number f2 <= INT64_MAX -> difference_hour f1 f2 = Ok (hour_number f1 - hour_number f2).
Proof using All. rewrite !hour_number_eq. apply scaled; [lia|apply H1|apply H2|apply day_difference_number]. Qed.

Lemma minute_difference_number : INT64_MIN <= minute_number f1 - minute_number f2 <= INT64_MAX -> difference_minute f1 f2 = Ok (minute_number f1 - minute_number f2).
Proof using All. rewrite !minute_number_eq. apply scaled; [lia|apply H1|apply H2|apply hour_difference_number]. Qed.

Lemma second_difference_number : INT64_MIN <= second_number f1 - second_number f2 <= INT64_MAX -> difference_second f1 f2 = Ok (second_number f1 - second_number f2).
Proof using All. rewrite !second_number_eq. apply scaled; [lia|apply H1|apply H2|apply minute_difference_number]. Qed.

Lemma month_difference_number : INT64_MIN <= number month_tag f1 - number month_tag f2 <= INT64_MAX -> difference_month f1 f2 = Ok (number month_tag f1 - number month_tag f2).
Proof using All.
  rewrite !month_number_eq. unfold difference_month. replace (f_m f1 - f_m f2) with (f_m f1 - 1 - (f_m f2 - 1)) by lia. pose proof (v_m _ H1). pose proof (v_m _ H2). apply scaled; [lia..|]. apply int64_ok.
Qed.
End difference.

Lemma difference_ok t f1 f2 : valid f1 -> valid f2 -> INT64_MIN + 1000 <= f_y f1 - f_y f2 <= INT64_MAX - 1000 \/ t = year_tag ->
  INT64_MIN <= number t f1 - number t f2 <= INT64_MAX -> difference t f1 f2 = Ok (number t f1 - number t f2).
Proof.
  intros H1 H2 Hy. destruct Hy as [Hy| ->]; [|apply int64_ok]. destruct t; cbn [number difference].
  - by apply second_difference_number.
  - by apply minute_difference_number.
  - by apply hour_difference_number.
  - by apply day_difference_number.
  - by apply (month_difference_number f1 f2).
  - apply int64_ok.
Qed.

(** ** Steps *)

Lemma civil_start_valid f : valid f -> civil_start (f_y f) (f_m f) = month_start (f_y f) (f_m f).
Proof.
  intros [Hm _ _ _ _]. unfold civil_start. rewrite Z.div_small, Z.mod_small by lia. f_equal; lia.
Qed.

Lemma civil_second_valid f : valid f -> civil_second (f_y f) (f_m f) (f_d f) (f_hh f) (f_mm f) (f_ss f) = second_number f.
Proof. intros H. unfold civil_second. rewrite civil_start_valid by done. unfold second_number, minute_number, hour_number, day_number. lia. Qed.

(** Parts of a second number. *)
Lemma second_parts f : valid f -> minute_number f = second_number f / 60 /\ f_ss f = second_number f mod 60 /\ hour_number f = minute_number f / 60 /\ f_mm f = minute_number f mod 60 /\
  day_number f = hour_number f / 24 /\ f_hh f = hour_number f mod 24.
Proof.
  intros [_ _ Hh Hm Hs]. rewrite second_number_eq, minute_number_eq, hour_number_eq. split_and!; dlia.
Qed.

(** The first of a month. *)
Lemma first_of_month f y m : valid f -> 1 <= m <= 12 -> day_number f = month_start y m -> f_y f = y /\ f_m f = m /\ f_d f = 1.
Proof.
  intros Hf Hm E. set (g := mk_fields y m 1 (f_hh f) (f_mm f) (f_ss f)). assert (Hg : valid g).
  { destruct Hf. split; cbn [g f_y f_m f_d f_hh f_mm f_ss]; try done. pose proof (month_length_28 y m). lia. }
  assert (Efg : f = g); [|by pose proof (f_equal f_y Efg); pose proof (f_equal f_m Efg); pose proof (f_equal f_d Efg)]. apply valid_unique; try done. rewrite !second_number_eq, !minute_number_eq, !hour_number_eq. rewrite E. unfold day_number. cbn [g f_y f_m f_d f_hh f_mm f_ss]. lia.
Qed.

Definition aligned (t : tag) (f : fields) : Prop := align t f = f.

Lemma aligned_iff t f : aligned t f <->
  match t with
  | second_tag => True
  | minute_tag => f_ss f = 0
  | hour_tag => f_ss f = 0 /\ f_mm f = 0
  | day_tag => f_ss f = 0 /\ f_mm f = 0 /\ f_hh f = 0
  | month_tag => f_ss f = 0 /\ f_mm f = 0 /\ f_hh f = 0 /\ f_d f = 1
  | year_tag => f_ss f = 0 /\ f_mm f = 0 /\ f_hh f = 0 /\ f_d f = 1 /\ f_m f = 1
  end.
Proof. unfold aligned. destruct f, t; cbn; naive_solver. Qed.

Lemma step_lands t f n : valid f -> -7400000000000000000 <= f_y f <= 7400000000000000000 -> INT64_MIN <= n <= INT64_MAX ->
  match t with
  | second_tag => lands (f_y f) (second_number f + n) (step t f n)
  | minute_tag => lands (f_y f) (second_number f + n * 60) (step t f n)
  | hour_tag => lands (f_y f) (second_number f + n * 3600) (step t f n)
  | day_tag => lands (f_y f) (second_number f + n * 86400) (step t f n)
  | month_tag => exists y y0 m, 1 <= m <= 12 /\ month_index y m = month_index (f_y f) (f_m f) + n /\ within 800000000000000000 (f_y f) y0 /\
                   lands y0 ((((month_start y m + f_d f - 1) * 24 + f_hh f) * 60 + f_mm f) * 60 + f_ss f) (step t f n)
  | year_tag => True
  end.
Proof.
  intros Hf Hy Hn. pose proof Hf as [Hm Hd Hhh Hmm Hss]. pose proof (civil_second_valid f Hf) as Hcs. assert (f_d f <= 31) by (unfold month_length in Hd; repeat case_if_in Hd; lia). unfold step. rewrite civil_second_eq in Hcs.
  pose proof (Z.quot_rem' n 60). assert (-60 < Z.rem n 60 < 60) by dlia. pose proof (Z.quot_rem' n 24). assert (-24 < Z.rem n 24 < 24) by dlia. pose proof (Z.quot_rem' n 12). assert (-12 < Z.rem n 12 < 12) by dlia.
  destruct t; [| | | | |done].
  - int64. replace (second_number f + n) with (civil_second (f_y f) (f_m f) (f_d f) (f_hh f) (f_mm f + Z.quot n 60) (f_ss f + Z.rem n 60)) by (rewrite !civil_second_eq; lia). apply n_sec_lands; in64.
  - int64. apply n_min_lands; try (in64; lia). rewrite !civil_second_eq. lia.
  - int64. apply n_hour_lands; try (in64; lia). rewrite !civil_second_eq. lia.
  - destruct (n_day_lands (f_y f) (f_m f) (f_d f) n (f_hh f) (f_mm f) (f_ss f) (second_number f + n * 86400)) as (f' & -> & Hv & Hw & E); try done; try (in64; lia).
    + rewrite (civil_start_valid f Hf) in Hcs. lia.
    + exists f'. unfold within in *. split_and!; try done; lia.
  - set (t := f_m f + Z.rem n 12 - 1). exists (f_y f + Z.quot n 12 + t / 12), (f_y f + Z.quot n 12), (t mod 12 + 1). pose proof (Z.div_mod t 12 ltac:(lia)). pose proof (Z.mod_pos_bound t 12 ltac:(lia)).
    assert (Hq : -770000000000000000 <= Z.quot n 12 <= 770000000000000000) by in64. split; [lia|]. split; [unfold month_index; lia|]. split; [unfold within; lia|]. int64.
    apply n_mon_lands; try done; try (in64; lia). rewrite civil_second_eq. unfold civil_start. fold t. lia.
Qed.

Lemma civil_step_ok t f n : valid f -> aligned t f -> -7400000000000000000 <= f_y f <= 7400000000000000000 -> INT64_MIN <= n <= INT64_MAX -> (t = year_tag -> INT64_MIN <= f_y f + n <= INT64_MAX) ->
  exists f', step t f n = Ok f' /\ valid f' /\ aligned t f' /\ number t f' = number t f + n /\ (t = year_tag \/ within 1700000000000000000 (f_y f) (f_y f')).
Proof.
  intros Hf Hal Hy Hn Hyear. pose proof (step_lands t f n Hf Hy Hn) as Hl. rewrite aligned_iff in Hal. pose proof (second_parts f Hf) as Hp. destruct t.
  - destruct Hl as (f' & -> & Hv & Hw & E). exists f'. unfold within in *. cbn [number]. split; [done|]. split; [done|]. split; [done|]. split; [done|]. right. lia.
  - destruct Hl as (f' & -> & Hv & Hw & E). exists f'. pose proof (second_parts f' Hv) as Hp'. unfold within in *. cbn [number]. rewrite aligned_iff. split_and!; try done; [dlia..|right; lia].
  - destruct Hl as (f' & -> & Hv & Hw & E). exists f'. pose proof (second_parts f' Hv) as Hp'. unfold within in *. cbn [number]. rewrite aligned_iff. split_and!; try done; [dlia..|right; lia].
  - destruct Hl as (f' & -> & Hv & Hw & E). exists f'. pose proof (second_parts f' Hv) as Hp'. unfold within in *. cbn [number]. rewrite aligned_iff. split_and!; try done; [dlia..|right; lia].
  - destruct Hl as (y & y0 & m & Hm & Ei & Hw0 & f' & -> & Hv & Hw & E). exists f'. pose proof (second_parts f' Hv) as Hp'. destruct Hal as (Es & Emm & Ehh & Ed). rewrite Es, Emm, Ehh, Ed in E.
    assert (Efm : f_y f' = y /\ f_m f' = m /\ f_d f' = 1) by (apply first_of_month; [done..|dlia]). destruct Efm as (Ey & Em & Edd). unfold within in *. rewrite aligned_iff.
    split; [done|]. split; [done|]. split; [split_and!; [dlia..|done]|]. split; [rewrite !month_number_eq; unfold month_index in Ei; lia|]. right. lia.
  - specialize (Hyear eq_refl). unfold step. rewrite int64_ok by done. cbn [mbind outcome_bind]. eexists. split; [done|]. destruct Hal as (Es & Emm & Ehh & Ed & Em). rewrite Es, Emm, Ehh, Ed, Em.
    split; [split; cbn; try lia; pose proof (month_length_28 (f_y f + n) 1); lia|]. rewrite aligned_iff. cbn. split_and!; try done. by left.
Qed.

Lemma civil_number_unique t f g : valid f -> valid g -> aligned t f -> aligned t g -> number t f = number t g -> f = g.
Proof.
  intros Hf Hg Af Ag E. rewrite aligned_iff in Af, Ag. apply valid_unique; try done. destruct t; cbn [number] in E; rewrite ?second_number_eq, ?minute_number_eq, ?hour_number_eq in *; try lia.
  - pose proof (v_m _ Hf). pose proof (v_m _ Hg). assert (Ey : f_y f = f_y g) by lia. assert (Em : f_m f = f_m g) by lia. rewrite !day_number_eq, Ey, Em. lia.
  - rewrite !day_number_eq. destruct Af as (? & ? & ? & ? & ->), Ag as (? & ? & ? & ? & ->). rewrite E. lia.
Qed.

(** ** The days *)

Lemma tomorrow_ok f : valid f -> valid (tomorrow f) /\ day_number (tomorrow f) = day_number f + 1 /\ f_hh (tomorrow f) = f_hh f /\ f_mm (tomorrow f) = f_mm f /\ f_ss (tomorrow f) = f_ss f.
Proof.
  intros [Hm Hd Hhh Hmm Hss]. unfold tomorrow. pose proof (month_length_start (f_y f) (f_m f) Hm) as Hl. unfold next_month in Hl. rewrite day_number_eq.
  destruct (Z.ltb_spec (f_d f) (month_length (f_y f) (f_m f))); [|destruct (Z.ltb_spec (f_m f) 12), (Z.ltb_spec 12 (f_m f + 1)); try lia; cbn [fst snd] in Hl];
    (split; [split; cbn [f_y f_m f_d f_hh f_mm f_ss]; try lia|rewrite day_number_eq; cbn [f_y f_m f_d f_hh f_mm f_ss]; split_and!; try done; lia]).
  - pose proof (month_length_28 (f_y f) (f_m f + 1)). lia.
  - pose proof (month_length_28 (f_y f + 1) 1). lia.
Qed.

Definition weekday_index (w : weekday) : Z :=
  match w with monday => 0 | tuesday => 1 | wednesday => 2 | thursday => 3 | friday => 4 | saturday => 5 | sunday => 6 end.

Lemma weekday_index_inj w w' : weekday_index w = weekday_index w' -> w = w'.
Proof. by destruct w, w'. Qed.

Lemma weekday_table z : 0 <= z -> exists w, deref (zget k_weekday_by_mon_off (Z.rem z 7 + 6)) = Ok w /\ weekday_index w = (z + 6) mod 7.
Proof.
  intros Hz. rewrite Z.rem_mod_nonneg by lia. pose proof (Z.mod_pos_bound z 7 ltac:(lia)) as Hr. replace ((z + 6) mod 7) with ((z mod 7 + 6) mod 7) by (by rewrite Zplus_mod_idemp_l).
  set (r := z mod 7) in *. clearbody r. assert (r = 0 \/ r = 1 \/ r = 2 \/ r = 3 \/ r = 4 \/ r = 5 \/ r = 6) as Hc by lia.
  destruct Hc as [->|[->|[->|[->|[->|[->| ->]]]]]]; eexists; split; reflexivity.
Qed.

(** The offsets of the months, up to whole weeks. *)
Lemma weekday_offset m : 1 <= m <= 12 -> exists o, deref (zget k_weekday_offsets m) = Ok o /\ 0 <= o <= 6 /\ (month_days m + 2) mod 7 = o mod 7.
Proof. intros Hm. months m Hm; eexists; (split; [reflexivity|split; [lia|reflexivity]]). Qed.

Lemma get_weekday_ok f : valid f -> exists w, get_weekday f = Ok w /\ weekday_index w = (day_number f + 3) mod 7.
Proof.
  intros [Hm Hd _ _ _]. unfold get_weekday. destruct (weekday_offset (f_m f) Hm) as (o & -> & Ho & Hmo). cbn [mbind outcome_bind]. rewrite day_number_eq, month_start_rem. unfold month_start.
  assert (Ha : -400 < Z.rem (f_y f) 400 < 400) by dlia. set (a := Z.rem (f_y f) 400) in *. set (q := Z.quot (f_y f) 400). clearbody a q.
  assert (Ee : 2400 + a - Z.b2z (f_m f <? 3) = eyear a (f_m f) + 400 * 6) by (unfold eyear; destruct (Z.ltb_spec (f_m f) 3), (Z.leb_spec (f_m f) 2); cbn [Z.b2z]; lia). rewrite Ee.
  pose proof (march_cycles (eyear a (f_m f)) 6) as Hc. assert (0 <= eyear a (f_m f) + 400 * 6) by (unfold eyear; destruct (f_m f <=? 2); lia). set (e := eyear a (f_m f) + 400 * 6) in *.
  rewrite !Z.quot_div_nonneg by lia. assert (Hmarch : e + (e / 4 - e / 100 + e / 400) = march_days e - 364 * e) by (unfold march_days; lia). rewrite Hmarch.
  destruct (weekday_table (march_days e - 364 * e + (o + f_d f))) as (w & -> & Hw); [unfold march_days in *; dlia|]. exists w. split; [done|]. rewrite Hw. rewrite Hc. clear - Hmo. set (md := month_days (f_m f)) in *. set (me := march_days _). clearbody md me. dlia.
Qed.

Lemma weekday_forward base wd : exists n, weekday_distance k_weekdays_forw base wd = Ok n /\ 1 <= n <= 7 /\ (weekday_index base + n) mod 7 = weekday_index wd.
Proof. destruct base, wd; eexists; (split; [vm_compute; reflexivity|split; [lia|reflexivity]]). Qed.

Lemma weekday_backward base wd : exists n, weekday_distance k_weekdays_back base wd = Ok n /\ 1 <= n <= 7 /\ (weekday_index base - n) mod 7 = weekday_index wd.
Proof. destruct base, wd; eexists; (split; [vm_compute; reflexivity|split; [lia|reflexivity]]). Qed.

Lemma get_yearday_ok f : valid f -> get_yearday f = Ok (day_number f - day_number (mk_fields (f_y f) 1 1 0 0 0) + 1).
Proof.
  intros [Hm Hd _ _ _]. unfold get_yearday. rewrite is_leap_year_leap, !day_number_eq. cbn [f_y f_m f_d]. unfold month_start, eyear, month_days. pose proof (march_year (f_y f - 1)) as Hy. replace (f_y f - 1 + 1) with (f_y f) in Hy by lia.
  set (y := f_y f) in *. set (d := f_d f). set (m := f_m f) in *. clearbody y m d. destruct (leap y); months m Hm; compare_numerals; cbn [deref zget mbind outcome_bind]; match goal with |- context [deref ?x] => let v := eval vm_compute in x in change x with v end; cbn [deref mbind outcome_bind]; f_equal; compare_numerals; dlia.
Qed.

Lemma month_length_31 y m : month_length y m <= 31.
Proof. unfold month_length. repeat case_if; lia. Qed.

Lemma ymd_ord_valid f : valid f -> -10000000000000000 <= f_y f <= 10000000000000000 -> ymd_ord (f_y f) (f_m f) (f_d f) = Ok (day_number f).
Proof. intros [Hm Hd _ _ _] Hy. pose proof (month_length_31 (f_y f) (f_m f)). by rewrite ymd_ord_ok by lia. Qed.

Lemma plus_tomorrow f : valid f -> -7400000000000000000 <= f_y f <= 7400000000000000000 -> plus day_tag f 1 = Ok (tomorrow f).
Proof.
  intros Hf Hy. destruct (step_lands day_tag f 1 Hf Hy ltac:(in64)) as (f' & E & Hf' & _ & En). unfold plus. rewrite E. f_equal. destruct (tomorrow_ok f Hf) as (Hv & Hd & Eh & Em & Es).
  apply valid_unique; try done. rewrite En, !second_number_eq, !minute_number_eq, !hour_number_eq. lia.
Qed.

(** A step to the day of the week [wd]. *)
Lemma weekday_step f f' wd w n : valid f -> valid f' -> get_weekday f = Ok w -> day_number f' = day_number f + n -> (weekday_index w + n) mod 7 = weekday_index wd -> get_weekday f' = Ok wd.
Proof.
  intros Hf Hf' Ew En Hi. destruct (get_weekday_ok f Hf) as (w0 & E0 & H0). destruct (get_weekday_ok f' Hf') as (w1 & E1 & H1). rewrite Ew in E0. injection E0 as <-. rewrite E1. f_equal.
  apply weekday_index_inj. rewrite H1, En, <- Hi, H0. rewrite Zplus_mod_idemp_l. f_equal. lia.
Qed.

Section weekdays.
Context (f : fields) (wd : weekday) (Hf : valid f) (Hal : aligned day_tag f) (Hy : -7400000000000000000 <= f_y f <= 7400000000000000000).

(** A step of some days, and the difference. *)
Lemma day_step n : -7 <= n <= 7 -> exists f', step day_tag f n = Ok f' /\ valid f' /\ day_number f' = day_number f + n /\ difference day_tag f' f = Ok n /\ difference day_tag f f' = Ok (- n).
Proof using All.
  intros Hn. destruct (civil_step_ok day_tag f n) as (f' & E & Hf' & _ & En & Hw); [done|done|done|in64|done|]. destruct Hw as [|Hw]; [done|]. unfold within in Hw. cbn [number] in En. exists f'. split_and!; try done.
  - rewrite difference_ok; [cbn [number]; f_equal; lia|done|done|left; in64|cbn [number]; in64].
  - rewrite difference_ok; [cbn [number]; f_equal; lia|done|done|left; in64|cbn [number]; in64].
Qed.

Lemma next_weekday_ok : exists f' n, next_weekday f wd = Ok f' /\ difference day_tag f' f = Ok n /\ 1 <= n <= 7 /\ get_weekday f' = Ok wd.
Proof using All.
  destruct (get_weekday_ok f Hf) as (w & Ew & _). destruct (weekday_forward w wd) as (n & En & Hn & Hi). destruct (day_step n ltac:(lia)) as (f' & E & Hf' & Hd & Hdiff & _). exists f', n.
  unfold next_weekday, plus. rewrite Ew. cbn [mbind outcome_bind]. rewrite En. cbn [mbind outcome_bind]. split_and!; try done; try lia. by apply (weekday_step f f' wd w n).
Qed.

Lemma prev_weekday_ok : exists f' n, prev_weekday f wd = Ok f' /\ difference day_tag f f' = Ok n /\ 1 <= n <= 7 /\ get_weekday f' = Ok wd.
Proof using All.
  destruct (get_weekday_ok f Hf) as (w & Ew & _). destruct (weekday_backward w wd) as (n & En & Hn & Hi). destruct (day_step (- n) ltac:(lia)) as (f' & E & Hf' & Hd & _ & Hdiff). exists f', n. rewrite Z.opp_involutive in Hdiff.
  unfold prev_weekday, minus. rewrite Ew. cbn [mbind outcome_bind]. rewrite En. cbn [mbind outcome_bind]. rewrite (proj2 (Z.eqb_neq n INT64_MIN)) by in64. cbn [negb]. split_and!; try done; try lia. by apply (weekday_step f f' wd w (- n)).
Qed.
End weekdays.

(** ** Theorems *)

(** C30: The constructor of a civil time ends without overflow for any 64-bit month,
    day, hour, minute and second, unless the year is within 13 per cent of the ends
    of its type: no loop of the normalization takes more turns than it may
    (4 centuries, 25 spans of four years, 4 years, 12 months), the six fields it
    returns are a date of the Gregorian calendar and a time of the day, they stand
    for exactly the second that the arguments stand for, and no other fields do. *)
Theorem civil_normalization t y m d hh mm ss :
  -8000000000000000000 <= y <= 8000000000000000000 -> INT64_MIN <= m <= INT64_MAX -> INT64_MIN <= d <= INT64_MAX -> INT64_MIN <= hh <= INT64_MAX ->
  INT64_MIN <= mm <= INT64_MAX -> INT64_MIN <= ss <= INT64_MAX ->
  exists f, n_sec y m d hh mm ss = Ok f /\ civil_time t y m d hh mm ss = Ok (align t f) /\ valid f /\ second_number f = civil_second y m d hh mm ss /\
    forall g, valid g -> second_number g = civil_second y m d hh mm ss -> g = f.
Proof.
  intros Hy Hm Hd Hhh Hmm Hss. destruct (n_sec_lands y m d hh mm ss) as (f & E & Hf & _ & Hv); try done; [lia|]. exists f. unfold civil_time. rewrite E. split_and!; try done.
  intros g Hg Eg. apply valid_unique; try done. congruence.
Qed.

(** 2022-10-31 plus 10^18 days and minus 10^18 hours. *)
Lemma civil_normalization_witness : exists f, n_sec 2022 10 1000000000000000031 (-1000000000000000000) 61 3601 = Ok f /\ valid f /\ f_mm f = 1 /\ f_ss f = 1.
Proof.
  destruct (civil_normalization second_tag 2022 10 1000000000000000031 (-1000000000000000000) 61 3601) as (f & E & _ & Hf & _); [unfold INT64_MIN, INT64_MAX; lia..|].
  exists f. split; [exact E|]. split; [exact Hf|]. assert (Ef : n_sec 2022 10 1000000000000000031 (-1000000000000000000) 61 3601 = Ok f) by exact E. revert Ef. vm_compute. intros [= <-]. by split.
Defined.

(** C31: Adding [n] units to a civil time and subtracting gives back [n] and the
    time: for every unit, every 64-bit [n] (the smallest one included) and every
    aligned civil time of a year within 3*10^18, the step does not overflow, its
    result is aligned and valid, the difference of the two is [n], and subtracting
    [n] returns to the time.  For years the sum has to be a year. *)
Theorem civil_step_difference t f n :
  valid f -> aligned t f -> -3000000000000000000 <= f_y f <= 3000000000000000000 -> INT64_MIN <= n <= INT64_MAX -> (t = year_tag -> -3000000000000000000 <= f_y f + n <= 3000000000000000000) ->
  exists f', plus t f n = Ok f' /\ valid f' /\ aligned t f' /\ difference t f' f = Ok n /\ minus t f' n = Ok f.
Proof.
  intros Hf Hal Hy Hn Hyear. destruct (civil_step_ok t f n) as (f' & E & Hf' & Hal' & En & Hw); [done|done|lia|done|intros ->; specialize (Hyear eq_refl); in64|].
  exists f'. assert (Hy' : -4700000000000000000 <= f_y f' <= 4700000000000000000) by (destruct Hw as [->|Hw]; [specialize (Hyear eq_refl); cbn [number] in En|unfold within in Hw]; lia).
  split; [done|]. split; [done|]. split; [done|]. split; [rewrite difference_ok; [f_equal; lia|done|done|left; in64|lia]|]. unfold minus. destruct (Z.eqb_spec n INT64_MIN) as [->|Hne]; cbn [negb].
  - destruct (civil_step_ok t f' (- (INT64_MIN + 1))) as (f1 & -> & Hf1 & Hal1 & E1 & Hw1); [done|done|lia|in64|intros ->; specialize (Hyear eq_refl); cbn [number] in En; in64|]. cbn [mbind outcome_bind].
    assert (Hy1 : -6400000000000000000 <= f_y f1 <= 6400000000000000000) by (destruct Hw1 as [->|Hw1]; [cbn [number] in E1, En; in64|unfold within in Hw1; lia]).
    destruct (civil_step_ok t f1 1) as (f2 & -> & Hf2 & Hal2 & E2 & _); [done|done|lia|in64|intros ->; cbn [number] in E1, En; in64|]. f_equal. by apply (civil_number_unique t); [..|in64].
  - destruct (civil_step_ok t f' (- n)) as (f1 & -> & Hf1 & Hal1 & E1 & Hw1); [done|done|lia|in64|intros ->; specialize (Hyear eq_refl); cbn [number] in En; in64|]. f_equal. by apply (civil_number_unique t); [..|lia].
Qed.

Lemma civil_step_difference_witness : exists f', plus day_tag (mk_fields 2020 2 28 0 0 0) (-9223372036854775808) = Ok f' /\ minus day_tag f' (-9223372036854775808) = Ok (mk_fields 2020 2 28 0 0 0).
Proof.
  destruct (civil_step_difference day_tag (mk_fields 2020 2 28 0 0 0) (-9223372036854775808)) as (f' & H1 & _ & _ & _ & H2).
  - split; cbn [f_y f_m f_d f_hh f_mm f_ss]; try lia. vm_compute. split; discriminate.
  - reflexivity.
  - cbn [f_y]. lia.
  - unfold INT64_MIN, INT64_MAX. lia.
  - discriminate.
  - exists f'. by split.
Defined.

(** C32: The day arithmetic is that of the Gregorian calendar.  For every valid
    civil time of a year within 10^15: [ymd_ord] counts the days from 1970-01-01,
    that is 0 there and 1 more on the next day of the calendar; a step of one day
    is the next day of the calendar; comparing the fields compares the times; the
    day of the week is that of the count, 1970-01-01 being a Thursday; the day of
    the year counts from the first of January; and the next and the previous given
    day of the week are found within the tables of the code, at most seven days
    away. *)
Theorem civil_calendar f g wd : valid f -> valid g -> -1000000000000000 <= f_y f <= 1000000000000000 ->
  ymd_ord 1970 1 1 = Ok 0 /\
  (exists k, ymd_ord (f_y f) (f_m f) (f_d f) = Ok k /\ ymd_ord (f_y (tomorrow f)) (f_m (tomorrow f)) (f_d (tomorrow f)) = Ok (k + 1) /\
     (exists w, get_weekday f = Ok w /\ weekday_index w = (k + 3) mod 7) /\
     (exists j, ymd_ord (f_y f) 1 1 = Ok j /\ get_yearday f = Ok (k - j + 1))) /\
  plus day_tag f 1 = Ok (tomorrow f) /\
  before f g = (second_number f <? second_number g) /\
  (aligned day_tag f ->
   (exists f' n, next_weekday f wd = Ok f' /\ difference day_tag f' f = Ok n /\ 1 <= n <= 7 /\ get_weekday f' = Ok wd) /\
   (exists f' n, prev_weekday f wd = Ok f' /\ difference day_tag f f' = Ok n /\ 1 <= n <= 7 /\ get_weekday f' = Ok wd)).
Proof.
  intros Hf Hg Hy. destruct (tomorrow_ok f Hf) as (Hv & Hd & _). split; [reflexivity|]. split; [|split; [apply plus_tomorrow; [done|lia]|split; [by apply before_number|]]].
  - exists (day_number f). rewrite <- Hd. split; [apply ymd_ord_valid; [done|lia]|]. split.
    + apply ymd_ord_valid; [done|]. unfold tomorrow. repeat case_if; cbn [f_y]; lia.
    + split; [by apply get_weekday_ok|]. exists (day_number (mk_fields (f_y f) 1 1 0 0 0)). split; [|by apply get_yearday_ok]. apply (ymd_ord_valid (mk_fields (f_y f) 1 1 0 0 0)); [|cbn [f_y]; lia].
      split; cbn [f_y f_m f_d f_hh f_mm f_ss]; try lia. pose proof (month_length_28 (f_y f) 1). lia.
  - intros Hal. split; [apply next_weekday_ok|apply prev_weekday_ok]; try done; lia.
Qed.

Lemma civil_calendar_witness :
  get_weekday (mk_fields 2024 2 29 0 0 0) = Ok thursday /\ plus day_tag (mk_fields 2024 2 29 0 0 0) 1 = Ok (mk_fields 2024 3 1 0 0 0) /\
  exists f' n, next_weekday (mk_fields 2024 2 29 0 0 0) thursday = Ok f' /\ difference day_tag f' (mk_fields 2024 2 29 0 0 0) = Ok n /\ 1 <= n <= 7 /\ get_weekday f' = Ok thursday.
Proof.
  assert (Hv : valid (mk_fields 2024 2 29 0 0 0)) by (split; cbn [f_y f_m f_d f_hh f_mm f_ss]; try lia; vm_compute; split; discriminate).
  destruct (civil_calendar (mk_fields 2024 2 29 0 0 0) (mk_fields 2024 2 29 0 0 0) thursday Hv Hv ltac:(cbn [f_y]; lia)) as (_ & _ & Hp & _ & Hw).
  split; [reflexivity|]. split; [exact Hp|]. apply Hw. reflexivity.
Defined.

(** The normalization of a date that could be represented does overflow: 30 days
    before the first month of the year after the last one. *)
Example overflow_is_avoidable : n_sec INT64_MAX 13 (-30) 0 0 0 = Undefined /\ valid (mk_fields INT64_MAX 12 1 0 0 0) /\
  second_number (mk_fields INT64_MAX 12 1 0 0 0) = civil_second INT64_MAX 13 (-30) 0 0 0.
Proof. split; [reflexivity|]. split; [|vm_compute; reflexivity]. split; cbn [f_y f_m f_d f_hh f_mm f_ss]; try lia. vm_compute. split; discriminate. Qed.

(** The ends of the type. *)
Example civil_ends : civil_max second_tag = Ok (mk_fields INT64_MAX 12 31 23 59 59) /\ civil_min second_tag = Ok (mk_fields INT64_MIN 1 1 0 0 0).
Proof. split; reflexivity. Qed.

(** [ymd_ord] does not overflow for years far outside of the interval that its
    comment names, but it does for years of 17 digits. *)
Example ymd_ord_range :
  ymd_ord 292277026596 1 1 = Ok 106751991166962 /\ ymd_ord (-25000000000000000) 1 1 = Ok (-9131062500000719528) /\
  ymd_ord 30000000000000000 1 1 = Undefined.
Proof. split_and!; vm_compute; reflexivity. Qed.
