(* ===== verification/Ascii.v ===== *)
(** * Character classes

    [ascii] of [flare/strings/ascii.h]: the property table of [ascii.cc] and
    the predicates that read it.  A class of flags is its [uint32_t] value. *)

From S2P Require Import Prelude.
Local Open Scope Z_scope.

Definition eNone : Z := 0x0.
Definition eControl : Z := 0x1.
Definition eSpace : Z := 0x2.
Definition ePunct : Z := 0x4.
Definition eDigit : Z := 0x8.
Definition eHexDigit : Z := 0x10.
Definition eAlpha : Z := 0x20.
Definition eLower : Z := 0x40.
Definition eUpper : Z := 0x80.
Definition eGraph : Z := 0x100.
Definition ePrint : Z := 0x200.

Definition kCtrlOrSpace : Z := Z.lor eControl eSpace.
Definition kPPG : Z := Z.lor (Z.lor ePunct ePrint) eGraph.
Definition kDHGP : Z := Z.lor (Z.lor (Z.lor eHexDigit ePrint) eGraph) eDigit.
Definition kHAUGP : Z := Z.lor (Z.lor (Z.lor (Z.lor eHexDigit eAlpha) eUpper) eGraph) ePrint.
Definition kHALGP : Z := Z.lor (Z.lor (Z.lor (Z.lor eHexDigit eAlpha) eLower) eGraph) ePrint.
Definition kAUGP : Z := Z.lor (Z.lor (Z.lor eAlpha eUpper) eGraph) ePrint.
Definition kALGP : Z := Z.lor (Z.lor (Z.lor eAlpha eLower) eGraph) ePrint.

Definition kCharacterProperties : list Z :=
  [eControl; eControl; eControl; eControl; eControl; eControl; eControl; eControl;
   eControl; kCtrlOrSpace; kCtrlOrSpace; kCtrlOrSpace; kCtrlOrSpace; kCtrlOrSpace; eControl; eControl;
   eControl; eControl; eControl; eControl; eControl; eControl; eControl; eControl;
   eControl; eControl; eControl; eControl; eControl; eControl; eControl; eControl;
   Z.lor eSpace ePrint; kPPG; kPPG; kPPG; kPPG; kPPG; kPPG; kPPG;
   kPPG; kPPG; kPPG; kPPG; kPPG; kPPG; kPPG; kPPG;
   kDHGP; kDHGP; kDHGP; kDHGP; kDHGP; kDHGP; kDHGP; kDHGP;
   kDHGP; kDHGP; kPPG; kPPG; kPPG; kPPG; kPPG; kPPG;
   kPPG; kHAUGP; kHAUGP; kHAUGP; kHAUGP; kHAUGP; kHAUGP; kAUGP;
   kAUGP; kAUGP; kAUGP; kAUGP; kAUGP; kAUGP; kAUGP; kAUGP;
   kAUGP; kAUGP; kAUGP; kAUGP; kAUGP; kAUGP; kAUGP; kAUGP;
   kAUGP; kAUGP; kAUGP; kPPG; kPPG; kPPG; kPPG; kPPG;
   kPPG; kHALGP; kHALGP; kHALGP; kHALGP; kHALGP; kHALGP; kALGP;
   kALGP; kALGP; kALGP; kALGP; kALGP; kALGP; kALGP; kALGP;
   kALGP; kALGP; kALGP; kALGP; kALGP; kALGP; kALGP; kALGP;
   kALGP; kALGP; kALGP; kPPG; kPPG; kPPG; kPPG; eControl].

(** The argument of every function is an [unsigned char]. *)
Definition is_ascii (ch : Z) : bool := Z.land ch 0xFFFFFF80 =? 0.

Definition properties (ch : Z) : Z :=
  if is_ascii ch then default eNone (zget kCharacterProperties ch) else eNone.

Definition has_properties (ch prop : Z) : bool := Z.land (properties ch) prop =? prop.
Definition has_some_properties (ch prop : Z) : bool := negb (Z.land (properties ch) prop =? eNone).

Definition is_white (ch : Z) : bool := (ch =? 32) || (ch =? 10) || (ch =? 9) || (ch =? 13).
Definition is_blank (ch : Z) : bool := (ch =? 32) || (ch =? 9).
Definition is_space (ch : Z) : bool := has_properties ch eSpace.
Definition is_print (ch : Z) : bool := has_properties ch ePrint.
Definition is_graph (ch : Z) : bool := has_properties ch eGraph.
Definition is_digit (ch : Z) : bool := has_properties ch eDigit.
Definition is_hex_digit (ch : Z) : bool := has_properties ch eHexDigit.
Definition is_punct (ch : Z) : bool := has_properties ch ePunct.
Definition is_alpha (ch : Z) : bool := has_properties ch eAlpha.
Definition is_control (ch : Z) : bool := has_properties ch eControl.
Definition is_alpha_numeric (ch : Z) : bool := has_some_properties ch (Z.lor eAlpha eDigit).
Definition is_lower (ch : Z) : bool := has_properties ch eLower.
Definition is_upper (ch : Z) : bool := has_properties ch eUpper.

(** ** The classes as ranges of characters *)

Definition between (a b c : Z) : bool := (a <=? c) && (c <=? b).

(** [by_bytes]: an equation of booleans about a byte, checked on all bytes. *)
Ltac by_bytes :=
  match goal with
  | H : 0 <= ?c < 256 |- @eq bool _ _ => apply eqb_prop; revert c H; apply byte_check; vm_compute; reflexivity
  end.

Lemma is_space_spec c : 0 <= c < 256 -> is_space c = between 9 13 c || (c =? 32).
Proof. intros. by_bytes. Qed.

Lemma is_hex_digit_spec c : 0 <= c < 256 -> is_hex_digit c = between 48 57 c || between 65 70 c || between 97 102 c.
Proof. intros. by_bytes. Qed.

Lemma is_print_spec c : 0 <= c < 256 -> is_print c = between 32 126 c.
Proof. intros. by_bytes. Qed.
