(* ===== verification/Numbers.v ===== *)
(** * Integers as text

    [flare/strings/numbers.cc] and [numbers.h]: the parsers behind
    [simple_atoi] for every integer type and base, and the printers
    [fast_int_to_buffer] and [fast_hex_to_buffer_zero_pad16].  The arithmetic
    of the parsers is that of their [IntType]: a signed operation whose result
    does not fit is undefined, an unsigned one wraps around.  The printers
    write to a buffer of the caller; a write outside of it is undefined. *)

From S2P Require Import Prelude Bits Buffers Ascii.
Local Open Scope Z_scope.

(** ** Parsing *)

Definition kAsciiToInt : list Z :=
  [36; 36; 36; 36; 36; 36; 36; 36; 36; 36; 36; 36; 36; 36; 36; 36;
   36; 36; 36; 36; 36; 36; 36; 36; 36; 36; 36; 36; 36; 36; 36; 36;
   36; 36; 36; 36; 36; 36; 36; 36; 36; 36; 36; 36; 36; 36; 36; 36;
   0; 1; 2; 3; 4; 5; 6; 7; 8; 9; 36; 36; 36; 36; 36; 36;
   36; 10; 11; 12; 13; 14; 15; 16; 17; 18; 19; 20; 21; 22; 23; 24;
   25; 26; 27; 28; 29; 30; 31; 32; 33; 34; 35; 36; 36; 36; 36; 36;
   36; 10; 11; 12; 13; 14; 15; 16; 17; 18; 19; 20; 21; 22; 23; 24;
   25; 26; 27; 28; 29; 30; 31; 32; 33; 34; 35; 36; 36; 36; 36; 36;
   36; 36; 36; 36; 36; 36; 36; 36; 36; 36; 36; 36; 36; 36; 36; 36;
   36; 36; 36; 36; 36; 36; 36; 36; 36; 36; 36; 36; 36; 36; 36; 36;
   36; 36; 36; 36; 36; 36; 36; 36; 36; 36; 36; 36; 36; 36; 36; 36;
   36; 36; 36; 36; 36; 36; 36; 36; 36; 36; 36; 36; 36; 36; 36; 36;
   36; 36; 36; 36; 36; 36; 36; 36; 36; 36; 36; 36; 36; 36; 36; 36;
   36; 36; 36; 36; 36; 36; 36; 36; 36; 36; 36; 36; 36; 36; 36; 36;
   36; 36; 36; 36; 36; 36; 36; 36; 36; 36; 36; 36; 36; 36; 36; 36;
   36; 36; 36; 36; 36; 36; 36; 36; 36; 36; 36; 36; 36; 36; 36; 36].

(** [kAsciiToInt[c]]; the index is an [unsigned char]. *)
Definition ascii_to_int (c : Z) : Z := default 36 (zget kAsciiToInt c).

(** [std::numeric_limits<IntType>]. *)
Record IntType := { vmin : Z; vmax : Z; is_signed : bool }.

Definition int32_t : IntType := {| vmin := -2147483648; vmax := 2147483647; is_signed := true |}.
Definition int64_t : IntType :=
  {| vmin := -9223372036854775808; vmax := 9223372036854775807; is_signed := true |}.
Definition uint32_t : IntType := {| vmin := 0; vmax := 4294967295; is_signed := false |}.
Definition uint64_t : IntType := {| vmin := 0; vmax := 18446744073709551615; is_signed := false |}.
Definition uint128 : IntType :=
  {| vmin := 0; vmax := 340282366920938463463374607431768211455; is_signed := false |}.

(** The result of an operation of an [IntType]. *)
Definition arith (T : IntType) (z : Z) : outcome Z :=
  if is_signed T then (if (vmin T <=? z) && (z <=? vmax T) then Ok z else Undefined)
  else Ok (z `mod` (vmax T + 1)).

(** [while (start < end && is_space(start[0])) ++start;] *)
Fixpoint skip_spaces (s : list Z) : list Z :=
  match s with
  | c :: s' => if is_space c then skip_spaces s' else s
  | [] => []
  end.

(** [while (start < end && is_space(end[-1])) --end;] *)
Definition skip_spaces_back (s : list Z) : list Z := rev (skip_spaces (rev s)).

(** [end - start >= 2 && start[0] == '0' && (start[1] == 'x' || start[1] == 'X')] *)
Definition hex_prefix (s : list Z) : bool :=
  match s with
  | c0 :: c1 :: _ => (c0 =? 48) && ((c1 =? 120) || (c1 =? 88))
  | _ => false
  end.

(** The base-dependent prefix: the digits left and their base. *)
Definition parse_base (s : list Z) (base : Z) : option (list Z * Z) :=
  if base =? 0 then
    if hex_prefix s then (match zdrop 2 s with [] => None | s' => Some (s', 16) end)
    else match s with
         | c :: s' => if c =? 48 then Some (s', 8) else Some (s, 10)
         | [] => Some (s, 10)
         end
  else if base =? 16 then
    if hex_prefix s then (match zdrop 2 s with [] => None | s' => Some (s', 16) end)
    else Some (s, 16)
  else if (2 <=? base) && (base <=? 36) then Some (s, base)
  else None.

(** [None]: the function returns false.  [text] is [None] when the view has
    no data.  Returns the digits, their base and whether the sign is minus. *)
Definition safe_parse_sign_and_base (text : option (list Z)) (base : Z) : option (list Z * Z * bool) :=
  s ← text;
  match skip_spaces_back (skip_spaces s) with
  | [] => None
  | c :: s' =>
      let negative := c =? 45 in
      s ← (if negative || (c =? 43) then match s' with [] => None | _ => Some s' end
           else Some (c :: s'));
      '(ds, b) ← parse_base s base;
      Some (ds, b, negative)
  end.

(** [X_OVER_BASE_INITIALIZER(X)]: X / base for base in [0, 36]. *)
Definition X_OVER_BASE (X : Z) : list Z := 0 :: 0 :: map (fun b => Z.quot X b) (seqZ 2 35).
Definition kVmaxOverBase (T : IntType) : list Z := X_OVER_BASE (vmax T).
Definition kVminOverBase (T : IntType) : list Z := X_OVER_BASE (vmin T).

(** The loops over the digits: what is returned and what is stored through
    [value_p]. *)
Fixpoint positive_loop (T : IntType) (base vmax_over_base value : Z) (text : list Z) : outcome (bool * Z) :=
  match text with
  | [] => Ok (true, value)
  | c :: text =>
      let digit := ascii_to_int c in
      if base <=? digit then Ok (false, value) else
      if vmax_over_base <? value then Ok (false, vmax T) else
      value ← arith T (value * base);
      limit ← arith T (vmax T - digit);
      if limit <? value then Ok (false, vmax T) else
      value ← arith T (value + digit);
      positive_loop T base vmax_over_base value text
  end.

Definition safe_parse_positive_int (T : IntType) (text : list Z) (base : Z) : outcome (bool * Z) :=
  _ ← check (0 <? vmax T);
  _ ← check (0 <=? base);
  _ ← check (base <=? vmax T);
  vmax_over_base ← deref (zget (kVmaxOverBase T) base);
  positive_loop T base vmax_over_base 0 text.

Fixpoint negative_loop (T : IntType) (base vmin_over_base value : Z) (text : list Z) : outcome (bool * Z) :=
  match text with
  | [] => Ok (true, value)
  | c :: text =>
      let digit := ascii_to_int c in
      if base <=? digit then Ok (false, value) else
      if value <? vmin_over_base then Ok (false, vmin T) else
      value ← arith T (value * base);
      limit ← arith T (vmin T + digit);
      if value <? limit then Ok (false, vmin T) else
      value ← arith T (value - digit);
      negative_loop T base vmin_over_base value text
  end.

Definition safe_parse_negative_int (T : IntType) (text : list Z) (base : Z) : outcome (bool * Z) :=
  _ ← check (vmin T <? 0);
  _ ← check (vmin T <=? 0 - base);
  vmin_over_base ← deref (zget (kVminOverBase T) base);
  vmin_over_base ← (if 0 <? Z.rem (vmin T) base then arith T (vmin_over_base + 1) else Ok vmin_over_base);
  negative_loop T base vmin_over_base 0 text.

(** [*value_p] is 0 when the sign or the base is refused. *)
Definition safe_int_internal (T : IntType) (text : option (list Z)) (base : Z) : outcome (bool * Z) :=
  match safe_parse_sign_and_base text base with
  | None => Ok (false, 0)
  | Some (text, base, negative) =>
      if negb negative then safe_parse_positive_int T text base
      else safe_parse_negative_int T text base
  end.

Definition safe_uint_internal (T : IntType) (text : option (list Z)) (base : Z) : outcome (bool * Z) :=
  match safe_parse_sign_and_base text base with
  | None => Ok (false, 0)
  | Some (text, base, negative) =>
      if negative then Ok (false, 0) else safe_parse_positive_int T text base
  end.

Definition safe_strto32_base := safe_int_internal int32_t.
Definition safe_strto64_base := safe_int_internal int64_t.
Definition safe_strtou32_base := safe_uint_internal uint32_t.
Definition safe_strtou64_base := safe_uint_internal uint64_t.
Definition safe_strtou128_base := safe_uint_internal uint128.

(** The integer types the templates of [numbers.h] are used with: their
    signedness and [sizeof]. *)
Record int_type := { int_signed : bool; int_size : Z }.

(** [safe_strtoi_base]; the conversion of [val] to [int_type] is between types
    of one width and signedness. *)
Definition safe_strtoi_base (t : int_type) (s : option (list Z)) (base : Z) : outcome (bool * Z) :=
  if int_signed t then
    if int_size t =? 8 then safe_strto64_base s base else safe_strto32_base s base
  else
    if int_size t =? 8 then safe_strtou64_base s base else safe_strtou32_base s base.

Definition simple_atoi (t : int_type) (str : option (list Z)) : outcome (bool * Z) :=
  safe_strtoi_base t str 10.

(** [simple_atoi] for [uint128]. *)
Definition simple_atoi128 (str : option (list Z)) : outcome (bool * Z) := safe_strtou128_base str 10.

(** ** Printing *)

Definition kFastToBufferSize : Z := 32.

Definition two_ASCII_digits : list (list Z) :=
  [bs "00"; bs "01"; bs "02"; bs "03"; bs "04"; bs "05"; bs "06"; bs "07"; bs "08"; bs "09";
   bs "10"; bs "11"; bs "12"; bs "13"; bs "14"; bs "15"; bs "16"; bs "17"; bs "18"; bs "19";
   bs "20"; bs "21"; bs "22"; bs "23"; bs "24"; bs "25"; bs "26"; bs "27"; bs "28"; bs "29";
   bs "30"; bs "31"; bs "32"; bs "33"; bs "34"; bs "35"; bs "36"; bs "37"; bs "38"; bs "39";
   bs "40"; bs "41"; bs "42"; bs "43"; bs "44"; bs "45"; bs "46"; bs "47"; bs "48"; bs "49";
   bs "50"; bs "51"; bs "52"; bs "53"; bs "54"; bs "55"; bs "56"; bs "57"; bs "58"; bs "59";
   bs "60"; bs "61"; bs "62"; bs "63"; bs "64"; bs "65"; bs "66"; bs "67"; bs "68"; bs "69";
   bs "70"; bs "71"; bs "72"; bs "73"; bs "74"; bs "75"; bs "76"; bs "77"; bs "78"; bs "79";
   bs "80"; bs "81"; bs "82"; bs "83"; bs "84"; bs "85"; bs "86"; bs "87"; bs "88"; bs "89";
   bs "90"; bs "91"; bs "92"; bs "93"; bs "94"; bs "95"; bs "96"; bs "97"; bs "98"; bs "99"].

Definition one_ASCII_final_digits : list (list Z) :=
  [[48; 0]; [49; 0]; [50; 0]; [51; 0]; [52; 0]; [53; 0]; [54; 0]; [55; 0]; [56; 0]; [57; 0]].

Definition kHexChar : list Z := bs "0123456789abcdef".

Definition kHexTable : list Z :=
  (bs "000102030405060708090a0b0c0d0e0f" ++
   bs "101112131415161718191a1b1c1d1e1f" ++
   bs "202122232425262728292a2b2c2d2e2f" ++
   bs "303132333435363738393a3b3c3d3e3f" ++
   bs "404142434445464748494a4b4c4d4e4f" ++
   bs "505152535455565758595a5b5c5d5e5f" ++
   bs "606162636465666768696a6b6c6d6e6f" ++
   bs "707172737475767778797a7b7c7d7e7f" ++
   bs "808182838485868788898a8b8c8d8e8f" ++
   bs "909192939495969798999a9b9c9d9e9f" ++
   bs "a0a1a2a3a4a5a6a7a8a9aaabacadaeaf" ++
   bs "b0b1b2b3b4b5b6b7b8b9babbbcbdbebf" ++
   bs "c0c1c2c3c4c5c6c7c8c9cacbcccdcecf" ++
   bs "d0d1d2d3d4d5d6d7d8d9dadbdcdddedf" ++
   bs "e0e1e2e3e4e5e6e7e8e9eaebecedeeef" ++
   bs "f0f1f2f3f4f5f6f7f8f9fafbfcfdfeff").

(** A buffer and the position of [buffer] in it. *)
Definition cursor : Type := list Z * Z.

(** [memcpy(buffer, s, sizeof s)] and [*buffer = c]: the pointer stays. *)
Definition store (s : list Z) (c : cursor) : outcome cursor :=
  let '(m, p) := c in m ← mwrite p s m; Ok (m, p).

Definition advance (n : Z) (c : cursor) : cursor := let '(m, p) := c in (m, p + n).

Definition put_two_digits (i : Z) (c : cursor) : outcome cursor :=
  _ ← check (i <? 100);
  s ← deref (zget two_ASCII_digits i);
  store s c.

(** [put_two_digits(digits, buffer); buffer += 2;] *)
Definition two_digits (digits : Z) (c : cursor) : outcome cursor :=
  c ← put_two_digits digits c; Ok (advance 2 c).

(** [*buffer++ = '0' + digits;] *)
Definition one_digit (digits : Z) (c : cursor) : outcome cursor :=
  c ← store [u8 (48 + digits)] c; Ok (advance 1 c).

(** [memcpy(buffer, one_ASCII_final_digits[i], 2); return buffer + 1;] *)
Definition final_digit (i : Z) (c : cursor) : outcome cursor :=
  s ← deref (zget one_ASCII_final_digits i);
  c ← store s c; Ok (advance 1 c).

(** The tail of [fast_int_to_buffer(uint32_t)], one definition per label. *)
Definition lt100 (i : Z) (c : cursor) : outcome cursor :=
  let digits := i in
  c ← two_digits digits c;
  store [0] c.

Definition lt10_000 (i : Z) (c : cursor) : outcome cursor :=
  let digits := i `div` 100 in
  let i := u32 (i - u32 (digits * 100)) in
  c ← two_digits digits c;
  lt100 i c.

Definition lt1_000_000 (i : Z) (c : cursor) : outcome cursor :=
  let digits := i `div` 10000 in
  let i := u32 (i - u32 (digits * 10000)) in
  c ← two_digits digits c;
  lt10_000 i c.

Definition lt100_000_000 (i : Z) (c : cursor) : outcome cursor :=
  let digits := i `div` 1000000 in
  let i := u32 (i - u32 (digits * 1000000)) in
  c ← two_digits digits c;
  lt1_000_000 i c.

Definition fast_uint32_to_buffer (i : Z) (c : cursor) : outcome cursor :=
  if 1000000000 <=? i then
    let digits := i `div` 100000000 in
    let i := u32 (i - u32 (digits * 100000000)) in
    c ← two_digits digits c;
    lt100_000_000 i c
  else if i <? 100 then
    if 10 <=? i then lt100 i c else final_digit i c
  else if i <? 10000 then
    if 1000 <=? i then lt10_000 i c else
    let digits := i `div` 100 in
    let i := u32 (i - u32 (digits * 100)) in
    c ← one_digit digits c;
    lt100 i c
  else if i <? 1000000 then
    if 100000 <=? i then lt1_000_000 i c else
    let digits := i `div` 10000 in
    let i := u32 (i - u32 (digits * 10000)) in
    c ← one_digit digits c;
    lt10_000 i c
  else if i <? 100000000 then
    if 10000000 <=? i then lt100_000_000 i c else
    let digits := i `div` 1000000 in
    let i := u32 (i - u32 (digits * 1000000)) in
    c ← one_digit digits c;
    lt1_000_000 i c
  else
    let digits := i `div` 100000000 in
    let i := u32 (i - u32 (digits * 100000000)) in
    c ← one_digit digits c;
    lt100_000_000 i c.

(** [*buffer++ = '-'] *)
Definition put_minus (c : cursor) : outcome cursor := c ← store [45] c; Ok (advance 1 c).

Definition fast_int32_to_buffer (i : Z) (c : cursor) : outcome cursor :=
  let u := u32 i in
  if i <? 0 then c ← put_minus c; fast_uint32_to_buffer (u32 (0 - u)) c
  else fast_uint32_to_buffer u c.

Definition fast_uint64_to_buffer (i : Z) (c : cursor) : outcome cursor :=
  let u := u32 i in
  if u =? i then fast_uint32_to_buffer u c else
  let top_1to11 := i `div` 1000000000 in
  let u := u32 (u64 (i - u64 (top_1to11 * 1000000000))) in
  let top_1to11_32 := u32 top_1to11 in
  c ← (if top_1to11_32 =? top_1to11 then fast_uint32_to_buffer top_1to11_32 c
       else
         let top_8to9 := u32 (top_1to11 `div` 100) in
         let mid_2 := u32 (u64 (top_1to11 - u32 (top_8to9 * 100))) in
         c ← fast_uint32_to_buffer top_8to9 c;
         two_digits mid_2 c);
  let digits := u `div` 10000000 in
  let u := u32 (u - u32 (digits * 10000000)) in
  c ← two_digits digits c;
  let digits := u `div` 100000 in
  let u := u32 (u - u32 (digits * 100000)) in
  c ← two_digits digits c;
  let digits := u `div` 1000 in
  let u := u32 (u - u32 (digits * 1000)) in
  c ← two_digits digits c;
  let digits := u `div` 10 in
  let u := u32 (u - u32 (digits * 10)) in
  c ← two_digits digits c;
  final_digit u c.

Definition fast_int64_to_buffer (i : Z) (c : cursor) : outcome cursor :=
  let u := u64 i in
  if i <? 0 then c ← put_minus c; fast_uint64_to_buffer (u64 (0 - u)) c
  else fast_uint64_to_buffer u c.

(** The overload a type selects; the conversions preserve the value. *)
Definition fast_int_to_buffer (t : int_type) (i : Z) (c : cursor) : outcome cursor :=
  if int_signed t then
    if 4 <? int_size t then fast_int64_to_buffer i c else fast_int32_to_buffer i c
  else
    if 4 <? int_size t then fast_uint64_to_buffer i c else fast_uint32_to_buffer i c.

(** The loop that stores eight pairs of hexadecimal digits, and the number of
    digits without padding. *)
Fixpoint hex_loop (n : nat) (i val : Z) (c : cursor) : outcome cursor :=
  match n with
  | O => Ok c
  | S n =>
      let byte := Z.land (Z.shiftr val (56 - 8 * i)) 0xFF in
      hex ← mread kHexTable (byte * 2) 2;
      c' ← store hex (advance (2 * i) c);
      hex_loop n (i + 1) val (fst c', snd c)
  end.

(** [countl_zero_template] for [uint64_t]: shifts until the top bit is set. *)
Fixpoint countl_zero_loop (n : nat) (x r : Z) : outcome Z :=
  match n with
  | O => Undefined
  | S n => if Z.land x (Z.shiftl 1 63) =? 0 then countl_zero_loop n (u64 (Z.shiftl x 1)) (r + 1) else Ok r
  end.

Definition countl_zero (x : Z) : outcome Z :=
  if x =? 0 then Ok 64 else countl_zero_loop 64 x 0.

Definition fast_hex_to_buffer_zero_pad16 (val : Z) (c : cursor) : outcome (cursor * Z) :=
  c ← hex_loop 8 0 val c;
  z ← countl_zero (Z.lor val 0x1);
  Ok (c, 16 - z `div` 4).

(** ** What a numeral is

    [numeral signed base text w]: [text] is white space, a sign, the prefix of
    the base, digits and white space, and denotes [w]. *)

Definition is_digit_of (b c : Z) : bool := ascii_to_int c <? b.
Definition spaces (s : list Z) : Prop := Forall (fun c => is_space c = true) s.
Definition digits_of (b : Z) (ds : list Z) : Prop := Forall (fun c => is_digit_of b c = true) ds.

Definition value_from (b v : Z) (ds : list Z) : Z := fold_left (fun v c => v * b + ascii_to_int c) ds v.

Definition hex_mark (pre : list Z) : Prop := pre = bs "0x" \/ pre = bs "0X".

(** The prefix [pre] makes the digits [ds] digits of base [b]; a numeral of
    base 0 that starts with a zero is octal, and that zero is its prefix. *)
Inductive base_prefix : Z -> list Z -> Z -> list Z -> Prop :=
| prefix_auto_hex pre ds : hex_mark pre -> ds <> [] -> base_prefix 0 pre 16 ds
| prefix_auto_octal ds : base_prefix 0 (bs "0") 8 ds
| prefix_auto_decimal c ds : c <> 48 -> base_prefix 0 [] 10 (c :: ds)
| prefix_hex pre ds : hex_mark pre -> ds <> [] -> base_prefix 16 pre 16 ds
| prefix_none b ds : 2 <= b <= 36 -> ds <> [] -> base_prefix b [] b ds.

Definition sign (negative : bool) (sgn : list Z) : Prop :=
  if negative then sgn = bs "-" else sgn = [] \/ sgn = bs "+".

Definition numeral (signed : bool) (base : Z) (text : list Z) (w : Z) : Prop :=
  exists ws sgn pre ds ws' b negative,
    text = ws ++ sgn ++ pre ++ ds ++ ws' /\ spaces ws /\ spaces ws' /\
    sign negative sgn /\ (negative = true -> signed = true) /\
    base_prefix base pre b ds /\ digits_of b ds /\
    w = (if negative then - value_from b 0 ds else value_from b 0 ds).

(** The longest prefix of digits. *)
Fixpoint digit_prefix (b : Z) (s : list Z) : list Z :=
  match s with
  | c :: s' => if is_digit_of b c then c :: digit_prefix b s' else []
  | [] => []
  end.

Lemma ascii_to_int_byte c : 0 <= c < 256 \/ ascii_to_int c = 36.
Proof.
  unfold ascii_to_int, zget. case_if; [by right|zbool].
  destruct (Z.lt_ge_cases c 256); [by left|right]. rewrite lookup_ge_None_2; [done|]. cbn [kAsciiToInt length]. lia.
Qed.

Lemma ascii_to_int_range c : 0 <= ascii_to_int c <= 36.
Proof.
  destruct (ascii_to_int_byte c) as [H| ->]; [|lia].
  assert (between 0 36 (ascii_to_int c) = true) as Hb by (revert c H; apply byte_check; vm_compute; reflexivity).
  unfold between in Hb. zbool. lia.
Qed.

(** A digit is not white space and not a sign. *)
Lemma digit_not_mark b c : b <= 36 -> is_digit_of b c = true ->
  is_space c = false /\ (c =? 45) = false /\ (c =? 43) = false.
Proof.
  intros Hb. unfold is_digit_of. rewrite Z.ltb_lt. intros Hc. destruct (ascii_to_int_byte c) as [H|H]; [|lia].
  assert (negb (ascii_to_int c <? 36) || negb (is_space c || (c =? 45) || (c =? 43)) = true) as Hd
    by (revert c H Hc; intros c H _; revert c H; apply byte_check; vm_compute; reflexivity).
  rewrite (proj2 (Z.ltb_lt _ _)) in Hd by lia. cbn [negb orb] in Hd.
  destruct (is_space c), (c =? 45), (c =? 43); done.
Qed.

(** ** The loops over digits *)

Lemma value_from_mono b ds v : 1 <= b -> 0 <= v -> v <= value_from b v ds.
Proof.
  revert v. induction ds as [|c ds IH]; intros v Hb Hv; [done|]. unfold value_from. cbn [fold_left].
  pose proof (ascii_to_int_range c). etrans; [|apply IH]; nia.
Qed.

Lemma digit_prefix_all b s : digits_of b s -> digit_prefix b s = s.
Proof. induction 1 as [|c s Hc _ IH]; [done|]. cbn [digit_prefix]. by rewrite Hc, IH. Qed.

Lemma digits_forallb b s : forallb (is_digit_of b) s = true <-> digits_of b s.
Proof.
  unfold digits_of. rewrite forallb_forall, Forall_forall. split; intros H x Hx; apply H; by apply list_elem_of_In.
Qed.

(** What the parsers rely on of their integer type. *)
Definition int_ok (T : IntType) : Prop :=
  36 <= vmax T /\ if is_signed T then vmin T <= -36 else vmin T = 0.

Lemma arith_ok T z : int_ok T -> vmin T <= z <= vmax T -> arith T z = Ok z.
Proof.
  unfold int_ok, arith. intros [??] ?. destruct (is_signed T).
  - by rewrite !(proj2 (Z.leb_le _ _)) by lia.
  - rewrite Z.mod_small; [done|lia].
Qed.

Lemma le_div a b q : 0 < b -> (q <= a `div` b <-> q * b <= a).
Proof.
  intros Hb. split; intros H.
  - pose proof (Z.mul_div_le a b Hb). nia.
  - apply Z.div_le_lower_bound; lia.
Qed.

Lemma div_lt a b q : 0 < b -> a `div` b < q -> a < q * b.
Proof. intros Hb Hq. apply Z.nle_gt. rewrite <- le_div by done. lia. Qed.

Lemma over_max b v ds d m : 1 <= b -> 0 <= v -> m < v ->
  Ok (false, m) = Ok (d && (value_from b v ds <=? m), Z.min m (value_from b v ds)).
Proof.
  intros. pose proof (value_from_mono b ds v). rewrite (proj2 (Z.leb_gt _ _)), Z.min_l by lia. by destruct d.
Qed.

Lemma under_min b v ds d m : 1 <= b -> 0 <= v -> - v < m ->
  Ok (false, m) = Ok (d && (m <=? - value_from b v ds), Z.max m (- value_from b v ds)).
Proof.
  intros. pose proof (value_from_mono b ds v). rewrite (proj2 (Z.leb_gt _ _)), Z.max_l by lia. by destruct d.
Qed.

Lemma positive_loop_spec T b v text : int_ok T -> 2 <= b <= 36 -> 0 <= v <= vmax T ->
  let w := value_from b v (digit_prefix b text) in
  positive_loop T b (vmax T `div` b) v text = Ok (forallb (is_digit_of b) text && (w <=? vmax T), Z.min (vmax T) w).
Proof.
  intros HT Hb. pose proof HT as [HT1 HT2]. assert (vmin T <= 0) by (destruct (is_signed T); lia).
  revert v. induction text as [|c text IH]; intros v Hv; cbn [positive_loop digit_prefix forallb].
  { unfold value_from. cbn. rewrite (proj2 (Z.leb_le _ _)), Z.min_r by lia. done. }
  pose proof (ascii_to_int_range c) as Hd. destruct (is_digit_of b c) eqn:Ec; unfold is_digit_of in Ec; zbool.
  2: { decide_if. unfold value_from. cbn. by rewrite Z.min_r by lia. }
  decide_if. unfold value_from. cbn [fold_left andb]. fold (value_from b (v * b + ascii_to_int c) (digit_prefix b text)).
  case_if; zbool.
  { assert (vmax T < v * b) by (apply div_lt; lia).
    apply over_max; nia. }
  assert (v * b <= vmax T) by (apply le_div; lia).
  rewrite (arith_ok T (v * b)) by (done || nia). cbn [mbind outcome_bind].
  rewrite (arith_ok T (_ - _)) by (done || lia). cbn [mbind outcome_bind].
  case_if; zbool; [apply over_max; nia|].
  rewrite (arith_ok T (_ + _)) by (done || nia). cbn [mbind outcome_bind]. apply IH. nia.
Qed.

Lemma negative_loop_spec T b v text : int_ok T -> vmin T <= -36 -> 2 <= b <= 36 -> vmin T <= v <= 0 ->
  let w := value_from b (- v) (digit_prefix b text) in
  negative_loop T b (- ((- vmin T) `div` b)) v text =
    Ok (forallb (is_digit_of b) text && (vmin T <=? - w), Z.max (vmin T) (- w)).
Proof.
  intros HT Hmin Hb. pose proof HT as [HT1 _].
  revert v. induction text as [|c text IH]; intros v Hv; cbn [negative_loop digit_prefix forallb].
  { unfold value_from. cbn. rewrite (proj2 (Z.leb_le _ _)), Z.max_r by lia. by rewrite Z.opp_involutive. }
  pose proof (ascii_to_int_range c) as Hd. destruct (is_digit_of b c) eqn:Ec; unfold is_digit_of in Ec; zbool.
  2: { decide_if. unfold value_from. cbn. by rewrite Z.max_r, Z.opp_involutive by lia. }
  decide_if. unfold value_from. cbn [fold_left andb]. fold (value_from b (- v * b + ascii_to_int c) (digit_prefix b text)).
  case_if; zbool.
  { assert (- vmin T < - v * b) by (apply div_lt; lia).
    apply under_min; nia. }
  assert (- v * b <= - vmin T) by (apply le_div; lia).
  rewrite (arith_ok T (v * b)) by (done || nia). cbn [mbind outcome_bind].
  rewrite (arith_ok T (_ + _)) by (done || lia). cbn [mbind outcome_bind].
  case_if; zbool; [apply under_min; nia|].
  rewrite (arith_ok T (_ - _)) by (done || nia). cbn [mbind outcome_bind].
  replace (- v * b + ascii_to_int c) with (- (v * b - ascii_to_int c)) by lia. apply IH. nia.
Qed.

Lemma zget_over_base X b : 2 <= b <= 36 -> zget (X_OVER_BASE X) b = Some (Z.quot X b).
Proof.
  intros Hb. unfold X_OVER_BASE, zget. decide_if.
  replace (Z.to_nat b) with (S (S (Z.to_nat (b - 2)))) by lia. 
  change (((fun b => Z.quot X b) <$> seqZ 2 35) !! Z.to_nat (b - 2) = Some (Z.quot X b)).
  rewrite list_lookup_fmap, lookup_seqZ_lt by lia. cbn. do 2 f_equal. lia.
Qed.

Lemma parse_positive_spec T b text : int_ok T -> 2 <= b <= 36 ->
  let w := value_from b 0 (digit_prefix b text) in
  safe_parse_positive_int T text b = Ok (forallb (is_digit_of b) text && (w <=? vmax T), Z.min (vmax T) w).
Proof.
  intros HT Hb w. pose proof HT as [??]. unfold safe_parse_positive_int, check, kVmaxOverBase.
  rewrite zget_over_base, Z.quot_div_nonneg by lia.
  rewrite !(proj2 (Z.leb_le _ _)), (proj2 (Z.ltb_lt _ _)) by lia. cbn [mbind outcome_bind deref].
  apply positive_loop_spec; [done..|lia].
Qed.

Lemma parse_negative_spec T b text : int_ok T -> vmin T <= -36 -> 2 <= b <= 36 ->
  let w := value_from b 0 (digit_prefix b text) in
  safe_parse_negative_int T text b = Ok (forallb (is_digit_of b) text && (vmin T <=? - w), Z.max (vmin T) (- w)).
Proof.
  intros HT Hm Hb w. pose proof HT as [??]. unfold safe_parse_negative_int, check, kVminOverBase.
  rewrite zget_over_base by lia.
  rewrite (proj2 (Z.leb_le _ _)), (proj2 (Z.ltb_lt (vmin T) 0)) by lia. cbn [mbind outcome_bind deref].
  assert (Z.rem (vmin T) b <= 0) by (apply Z.rem_nonpos; lia).
  rewrite (proj2 (Z.ltb_ge 0 (Z.rem (vmin T) b))) by lia. cbn [mbind outcome_bind].
  replace (vmin T ÷ b) with (- ((- vmin T) `div` b)).
  2: { rewrite <- Z.quot_div_nonneg, Z.quot_opp_l by lia. lia. }
  apply negative_loop_spec; [done..|lia].
Qed.

(** ** Signs, prefixes and white space *)

Lemma skip_spaces_split s : exists ws, s = ws ++ skip_spaces s /\ spaces ws.
Proof.
  induction s as [|c s (ws & E & Hws)]; [by exists []; repeat constructor|]. cbn [skip_spaces].
  destruct (is_space c) eqn:Hc.
  - exists (c :: ws). split; [by rewrite <- app_comm_cons, <- E|by constructor].
  - exists []. split; [done|constructor].
Qed.

Lemma trim_split s : exists ws ws', s = ws ++ skip_spaces_back (skip_spaces s) ++ ws' /\ spaces ws /\ spaces ws'.
Proof.
  destruct (skip_spaces_split s) as (ws & E & Hws). destruct (skip_spaces_split (rev (skip_spaces s))) as (ws' & E' & Hws').
  exists ws, (rev ws'). split_and!; [|done|by apply Forall_rev].
  rewrite E at 1. f_equal. unfold skip_spaces_back. rewrite <- rev_app_distr, <- E'. by rewrite rev_involutive.
Qed.

Definition no_space (s : list Z) : Prop := Forall (fun c => is_space c = false) s.

Lemma skip_spaces_app ws s c : spaces ws -> is_space c = false -> skip_spaces (ws ++ c :: s) = c :: s.
Proof.
  induction 1 as [|w ws Hw _ IH]; intros Hc; cbn [app skip_spaces]; [by rewrite Hc|]. rewrite Hw. by apply IH.
Qed.

Lemma trim_app ws s ws' : spaces ws -> spaces ws' -> no_space s -> s <> [] ->
  skip_spaces_back (skip_spaces (ws ++ s ++ ws')) = s.
Proof.
  intros Hws Hws' Hs Hne. destruct s as [|c s]; [done|]. apply Forall_cons in Hs as [Hc Hs].
  rewrite <- app_comm_cons, skip_spaces_app by done. unfold skip_spaces_back. rewrite app_comm_cons, rev_app_distr.
  destruct (rev (c :: s)) as [|d r] eqn:E; [by apply (f_equal length) in E; rewrite length_rev in E|].
  rewrite skip_spaces_app; [by rewrite <- E, rev_involutive|by apply Forall_rev|].
  assert (no_space (rev (c :: s))) as Hr by (by apply Forall_rev; constructor). rewrite E in Hr. by apply Forall_cons in Hr as [? _].
Qed.

Lemma parse_base_sound s base ds b : s <> [] -> parse_base s base = Some (ds, b) ->
  exists pre, s = pre ++ ds /\ base_prefix base pre b ds /\ 2 <= b <= 36.
Proof.
  intros Hne.
  assert (Hhex : hex_prefix s = true -> forall d ds' , zdrop 2 s = d :: ds' -> exists pre, s = pre ++ d :: ds' /\ hex_mark pre).
  { destruct s as [|c0 [|c1 s]]; [done..|]. cbn [hex_prefix]. intros H d ds' E. zbool. subst c0.
    change (zdrop 2 (48 :: c1 :: s)) with s in E. subst s. exists [48; c1]. split; [done|].
    apply orb_true_iff in H0 as [H|H]; zbool; subst c1; [by left|by right]. }
  unfold parse_base. case_if; zbool; [subst base|case_if; zbool; [subst base|]].
  - destruct (hex_prefix s) eqn:Eh.
    { destruct (zdrop 2 s) as [|d ds'] eqn:E; [done|]. intros [= <- <-]. destruct (Hhex eq_refl d ds' eq_refl) as (pre & -> & Hp).
      exists pre. split_and!; [done|by constructor|lia..]. }
    destruct s as [|c s]; [done|]. case_if; zbool; intros [= <- <-].
    + subst c. exists (bs "0"). split_and!; [done|constructor|lia..].
    + exists []. split_and!; [done|by constructor|lia..].
  - destruct (hex_prefix s) eqn:Eh.
    { destruct (zdrop 2 s) as [|d ds'] eqn:E; [done|]. intros [= <- <-]. destruct (Hhex eq_refl d ds' eq_refl) as (pre & -> & Hp).
      exists pre. split_and!; [done|by constructor|lia..]. }
    intros [= <- <-]. exists []. split_and!; [done|by constructor|lia..].
  - case_if; [|done]. zbool. intros [= <- <-]. exists []. split_and!; [done|by constructor|lia..].
Qed.

Lemma sign_and_base_sound text base ds b negative :
  safe_parse_sign_and_base (Some text) base = Some (ds, b, negative) ->
  exists ws sgn pre ws', text = ws ++ sgn ++ pre ++ ds ++ ws' /\ spaces ws /\ spaces ws' /\
    sign negative sgn /\ base_prefix base pre b ds /\ 2 <= b <= 36.
Proof.
  unfold safe_parse_sign_and_base. cbn [mbind option_bind]. destruct (trim_split text) as (ws & ws' & E & Hws & Hws').
  destruct (skip_spaces_back (skip_spaces text)) as [|c s]; [done|].
  intros H. apply bind_Some in H as (s' & Es & H). apply bind_Some in H as ([ds' b'] & Eb & [= -> -> <-]).
  assert (exists sgn, c :: s = sgn ++ s' /\ sign (c =? 45) sgn /\ s' <> []) as (sgn & Esg & Hsg & Hne).
  { destruct (c =? 45) eqn:Em; [|destruct (c =? 43) eqn:Ep]; zbool; cbn in Es; subst.
    - destruct s; [done|]. injection Es as <-. by exists (bs "-").
    - destruct s; [done|]. injection Es as <-. exists (bs "+"). split_and!; [done|by right|done].
    - injection Es as <-. exists []. split_and!; [done|by left|done]. }
  destruct (parse_base_sound s' base ds b) as (pre & -> & Hp & Hb); [done..|].
  exists ws, sgn, pre, ws'. split_and!; [|done..|lia|lia]. rewrite E, Esg, <- !app_assoc. done.
Qed.

Lemma parse_base_complete base pre b ds : base_prefix base pre b ds -> digits_of b ds ->
  parse_base (pre ++ ds) base = Some (ds, b) /\ 2 <= b <= 36 /\ pre ++ ds <> [] /\
  Forall (fun c => is_digit_of 36 c = true) (pre ++ ds).
Proof.
  assert (Hup : forall b ds, b <= 36 -> digits_of b ds -> digits_of 36 ds).
  { intros b' ds' Hb Hd. eapply Forall_impl; [exact Hd|]. unfold is_digit_of. intros c ?. zbool. apply Z.ltb_lt. lia. }
  assert (Hx : forall c s, digits_of 16 (c :: s) -> hex_prefix (48 :: c :: s) = false /\ hex_prefix (c :: s) = false).
  { intros c s Hd. apply Forall_cons in Hd as [Hc Hd].
    assert (forall c, is_digit_of 16 c = true -> (c =? 120) || (c =? 88) = false) as Hno.
    { intros d Hd'. destruct (d =? 120) eqn:E1, (d =? 88) eqn:E2; zbool; subst; done. }
    cbn [hex_prefix]. rewrite Hno by done. split; [done|]. destruct s as [|d s]; [done|].
    apply Forall_cons in Hd as [Hd _]. rewrite Hno by done. by destruct (c =? 48). }
  intros [pre' ds' Hm Hne|ds'|c ds' Hc|pre' ds' Hm Hne|b' ds' Hb Hne] Hd; pose proof (fun H => Hup _ _ H Hd) as Hu.
  - destruct ds' as [|d ds']; [done|]. destruct Hm as [-> | ->]; (split_and!; [reflexivity|lia|lia|done|]);
      (apply Forall_app; split; [by repeat constructor|apply Hu; lia]).
  - split_and!; [|lia|lia|done|constructor; [done|by apply Hu]].
    unfold parse_base. destruct ds' as [|d ds']; [done|].
    assert (digits_of 16 (d :: ds')) as H16.
    { eapply Forall_impl; [exact Hd|]. unfold is_digit_of. intros x ?. zbool. apply Z.ltb_lt. lia. }
    change (bs "0" ++ d :: ds') with (48 :: d :: ds'). destruct (Hx d ds' H16) as [-> _]. done.
  - split_and!; [|lia|lia|done|by apply Hu]. unfold parse_base. cbn [app]. rewrite (proj2 (Z.eqb_neq c 48)) by done.
    assert (hex_prefix (c :: ds') = false) as ->; [|done].
    destruct ds'; [done|]. cbn [hex_prefix]. by rewrite (proj2 (Z.eqb_neq c 48)).
  - destruct ds' as [|d ds']; [done|]. destruct Hm as [-> | ->]; (split_and!; [reflexivity|lia|lia|done|]);
      (apply Forall_app; split; [by repeat constructor|apply Hu; lia]).
  - split_and!; [|lia|lia|done|apply Hu; lia]. unfold parse_base. cbn [app]. decide_if.
    case_if; zbool.
    + subst b'. destruct ds' as [|d ds']; [done|]. destruct (Hx d ds' Hd) as [_ ->]. done.
    + by rewrite !(proj2 (Z.leb_le _ _)) by lia.
Qed.

Lemma sign_and_base_complete ws sgn pre ds ws' base b negative :
  spaces ws -> spaces ws' -> sign negative sgn -> base_prefix base pre b ds -> digits_of b ds ->
  safe_parse_sign_and_base (Some (ws ++ sgn ++ pre ++ ds ++ ws')) base = Some (ds, b, negative) /\ 2 <= b <= 36.
Proof.
  intros Hws Hws' Hsg Hp Hd. destruct (parse_base_complete _ _ _ _ Hp Hd) as (Eb & Hb & Hne & Hd36). split; [|done].
  unfold safe_parse_sign_and_base. cbn [mbind option_bind].
  replace (ws ++ sgn ++ pre ++ ds ++ ws') with (ws ++ (sgn ++ pre ++ ds) ++ ws') by (by rewrite <- !app_assoc).
  rewrite trim_app; [|done..| |].
  2: { apply Forall_app. split.
    - destruct negative; [rewrite Hsg; by repeat constructor|]. destruct Hsg as [-> | ->]; by repeat constructor.
    - eapply Forall_impl; [exact Hd36|]. intros c Hc. by apply (digit_not_mark 36 c) in Hc as [? _]. }
  2: { destruct sgn; [done|by destruct (pre ++ ds)]. }
  destruct (pre ++ ds) as [|c s] eqn:E; [done|]. apply Forall_cons in Hd36 as [Hc _].
  destruct (digit_not_mark 36 c) as (_ & Hm & Hpl); [lia|done|].
  destruct negative; [rewrite Hsg|destruct Hsg as [-> | ->]]; cbn [app].
  - change (bs "-" ++ c :: s) with (45 :: c :: s). cbn. by rewrite Eb.
  - rewrite Hm, Hpl. cbn. by rewrite Eb.
  - change (bs "+" ++ c :: s) with (43 :: c :: s). cbn. by rewrite Eb.
Qed.

(** ** The parsers accept exactly the numerals in range *)

Definition safe_strto (T : IntType) : option (list Z) -> Z -> outcome (bool * Z) :=
  if is_signed T then safe_int_internal T else safe_uint_internal T.

Definition clamp (T : IntType) (w : Z) : Z := Z.max (vmin T) (Z.min (vmax T) w).

Definition parses (T : IntType) (text : list Z) (base : Z) (r : outcome (bool * Z)) : Prop :=
  exists ok v, r = Ok (ok, v) /\ vmin T <= v <= vmax T /\
    (ok = true <-> exists w, numeral (is_signed T) base text w /\ vmin T <= w <= vmax T) /\
    (forall w, numeral (is_signed T) base text w -> v = clamp T w).

(** The digits [ds] that follow a sign and a prefix. *)
Lemma parse_digits T ds b (negative : bool) : int_ok T -> 2 <= b <= 36 -> (negative = true -> is_signed T = true) ->
  let w := if negative then - value_from b 0 (digit_prefix b ds) else value_from b 0 (digit_prefix b ds) in
  (if negative then safe_parse_negative_int T ds b else safe_parse_positive_int T ds b) =
    Ok (forallb (is_digit_of b) ds && ((vmin T <=? w) && (w <=? vmax T)), clamp T w).
Proof.
  intros HT Hb Hn w. pose proof (value_from_mono b (digit_prefix b ds) 0). pose proof HT as [? HT2]. unfold clamp.
  destruct negative.
  - rewrite (Hn eq_refl) in HT2. rewrite parse_negative_spec by done. subst w. do 2 f_equal; [|lia].
    by rewrite (proj2 (Z.leb_le (- _) (vmax T))), andb_true_r by lia.
  - rewrite parse_positive_spec by done. subst w. do 2 f_equal; [|destruct (is_signed T); lia].
    by rewrite (proj2 (Z.leb_le (vmin T) _)) by (destruct (is_signed T); lia).
Qed.

Lemma safe_strto_parses T text base : int_ok T -> parses T text base (safe_strto T (Some text) base).
Proof.
  intros HT. pose proof HT as [? HT2].
  assert (Hrun : safe_strto T (Some text) base =
    match safe_parse_sign_and_base (Some text) base with
    | None => Ok (false, 0)
    | Some (ds, b, negative) =>
        if negative && negb (is_signed T) then Ok (false, 0)
        else if negative then safe_parse_negative_int T ds b else safe_parse_positive_int T ds b
    end).
  { unfold safe_strto, safe_int_internal, safe_uint_internal.
    by destruct (is_signed T), (safe_parse_sign_and_base _ _) as [[[ds b] []]|]. }
  rewrite Hrun. clear Hrun.
  assert (Hc : forall w, numeral (is_signed T) base text w -> exists ds b negative,
    safe_parse_sign_and_base (Some text) base = Some (ds, b, negative) /\ (negative = true -> is_signed T = true) /\
    digits_of b ds /\ w = (if negative then - value_from b 0 ds else value_from b 0 ds)).
  { intros w (ws & sgn & pre & ds & ws' & b & negative & -> & Hws & Hws' & Hsg & Hn & Hp & Hd & Hw).
    exists ds, b, negative. split_and!; [|done..]. by apply sign_and_base_complete. }
  destruct (safe_parse_sign_and_base (Some text) base) as [[[ds b] negative]|] eqn:E.
  2: { exists false, 0. split_and!; [done|destruct (is_signed T); lia..| |].
       - split; [done|]. by intros (w & (? & ? & ? & ? & _)%Hc & _).
       - by intros w (? & ? & ? & ? & _)%Hc. }
  apply sign_and_base_sound in E as Hs. destruct Hs as (ws & sgn & pre & ws' & Et & Hws & Hws' & Hsg & Hp & Hb).
  destruct (negative && negb (is_signed T)) eqn:En.
  { apply andb_true_iff in En as [-> Hu%negb_true_iff]. exists false, 0. rewrite Hu in *. split_and!; [done|lia..| |].
    - split; [done|]. intros (w & (? & ? & ? & [= <- <- <-] & Hn & _)%Hc & _). by specialize (Hn eq_refl).
    - intros w (? & ? & ? & [= <- <- <-] & Hn & _)%Hc. by specialize (Hn eq_refl). }
  assert (Hn : negative = true -> is_signed T = true) by (intros ->; by destruct (is_signed T)).
  rewrite parse_digits by done. eexists _, _. split_and!; [reflexivity|unfold clamp; destruct (is_signed T); lia..| |].
  - rewrite !andb_true_iff, digits_forallb, !Z.leb_le. split.
    + intros (Hd & Hw1 & Hw2). rewrite digit_prefix_all in Hw1, Hw2 by done. eexists. split; [|split; [exact Hw1|exact Hw2]].
      exists ws, sgn, pre, ds, ws', b, negative. by split_and!.
    + intros (w & (? & ? & ? & [= <- <- <-] & _ & Hd & Hw)%Hc & Hr). rewrite digit_prefix_all by done. subst w. by split.
  - intros w (? & ? & ? & [= <- <- <-] & _ & Hd & Hw)%Hc. rewrite digit_prefix_all by done. by subst w.
Qed.

(** The parsers and their result types. *)
Definition parsers : list (IntType * (option (list Z) -> Z -> outcome (bool * Z))) :=
  [(int32_t, safe_strto32_base); (int64_t, safe_strto64_base); (uint32_t, safe_strtou32_base);
   (uint64_t, safe_strtou64_base); (uint128, safe_strtou128_base)].

(** C25: in every base and for every text each of the five parsers behind
    [simple_atoi] terminates without an overflow of its integer type, stores
    a value of that type, and returns true exactly if the text is a numeral
    (white space, sign, prefix of the base, digits, white space) whose value
    the type can represent; for every numeral the stored value is the value
    clamped to the range of the type.  No text is accepted for a base that is
    neither 0 nor in [2, 36]. *)
Theorem numbers_parse_numerals T strto base text : (T, strto) ∈ parsers ->
  parses T text base (strto (Some text) base) /\ strto None base = Ok (false, 0) /\
  (base < 0 \/ base = 1 \/ 36 < base -> exists v, strto (Some text) base = Ok (false, v)).
Proof.
  intros HT.
  assert (int_ok T /\ strto = safe_strto T) as [HT' ->].
  { unfold parsers in HT. rewrite !elem_of_cons in HT.
    destruct HT as [H|[H|[H|[H|[H|H%elem_of_nil]]]]]; [injection H as -> ->; split; [split; cbn; lia|done]..|done]. }
  split_and!; [by apply safe_strto_parses|by unfold safe_strto; destruct (is_signed T)|].
  intros Hb. destruct (safe_strto_parses T text base HT') as ([] & v & E & _ & [H _] & _); [|by exists v].
  destruct H as (w & (? & ? & ? & ? & ? & ? & ? & _ & _ & _ & _ & _ & Hp & _) & _); [done|]. destruct Hp; lia.
Qed.

Lemma numbers_parse_numerals_witness :
  let text := bs " -0x80000001 " in
  safe_strto32_base (Some text) 0 = Ok (false, -2147483648) /\
  parses int32_t text 0 (safe_strto32_base (Some text) 0) /\ safe_strto32_base None 0 = Ok (false, 0) /\
  (0 < 0 \/ 0 = 1 \/ 36 < 0 -> exists v, safe_strto32_base (Some text) 0 = Ok (false, v)).
Proof.
  split; [vm_compute; reflexivity|].
  apply (numbers_parse_numerals int32_t safe_strto32_base 0 (bs " -0x80000001 ")). apply list_elem_of_here.
Defined.

Ltac zl := repeat first [rewrite zlen_app | rewrite zlen_cons | rewrite (@zlen_nil Z)]; lia.

(** ** Text of numbers *)

(** The digit [d] of a base up to 16. *)
Definition digit_char (d : Z) : Z := default 48 (zget kHexChar d).

(** The [k] last digits of [n] in base [b]. *)
Fixpoint radix (b : Z) (k : nat) (n : Z) : list Z :=
  match k with
  | O => []
  | S k => radix b k (n `div` b) ++ [digit_char (n `mod` b)]
  end.

(** The text of [n] in base [b] without leading zeros; [fuel] bounds its
    length. *)
Fixpoint radix_text (b : Z) (fuel : nat) (n : Z) : list Z :=
  match fuel with
  | O => []
  | S fuel => if n <? b then [digit_char n] else radix_text b fuel (n `div` b) ++ [digit_char (n `mod` b)]
  end.

Definition to_decimal (n : Z) : list Z := radix_text 10 20 n.

Definition to_text (v : Z) : list Z := (if v <? 0 then bs "-" else []) ++ to_decimal (Z.abs v).

(** Text [s] of [n] in base [b] has no leading zero. *)
Definition canonical (b n : Z) (s : list Z) : Prop :=
  exists k, s = radix b (S k) n /\ 0 <= n < b ^ Z.of_nat (S k) /\ (k = O \/ b ^ Z.of_nat k <= n).

Lemma digit_char_value d : 0 <= d < 16 -> ascii_to_int (digit_char d) = d.
Proof.
  intros Hd. apply Z.eqb_eq. assert (H : 0 <= d < 256) by lia.
  assert (negb (d <? 16) || (ascii_to_int (digit_char d) =? d) = true) as Hc
    by (clear Hd; revert d H; apply byte_check; vm_compute; reflexivity).
  by rewrite (proj2 (Z.ltb_lt _ _)) in Hc by lia.
Qed.

Lemma digit_char_decimal d : 0 <= d < 10 -> digit_char d = 48 + d.
Proof.
  intros Hd. assert (d = 0 \/ d = 1 \/ d = 2 \/ d = 3 \/ d = 4 \/ d = 5 \/ d = 6 \/ d = 7 \/ d = 8 \/ d = 9) as Hc by lia.
  by destruct_or! Hc; subst d.
Qed.

Section radix.
Context (b : Z) (Hb : 2 <= b <= 16).

Lemma pow_pos k : 0 < b ^ Z.of_nat k.
Proof using All. apply Z.pow_pos_nonneg; lia. Qed.

Lemma pow_S k : b ^ Z.of_nat (S k) = b * b ^ Z.of_nat k.
Proof using All. rewrite Nat2Z.inj_succ, Z.pow_succ_r by lia. done. Qed.

Lemma zlen_radix k n : zlen (radix b k n) = Z.of_nat k.
Proof. revert n. induction k as [|k IH]; intros n; [done|]. cbn [radix]. rewrite zlen_app, IH. unfold zlen. cbn [length]. lia. Qed.

Lemma radix_mod k n : radix b k (n `mod` b ^ Z.of_nat k) = radix b k n.
Proof using All.
  revert n. induction k as [|k IH]; intros n; [done|]. cbn [radix]. pose proof (pow_pos k).
  rewrite pow_S. rewrite Z.rem_mul_r by lia. f_equal; [|f_equal; f_equal].
  - rewrite <- (IH (n `div` b)). f_equal.
    rewrite (Z.add_comm (n `mod` b)), Z.mul_comm, Z.div_add_l, (Z.div_small (n `mod` b)) by (try apply Z.mod_pos_bound; lia). lia.
  - rewrite Z.mul_comm, Z.mod_add, Z.mod_mod by lia. done.
Qed.

Lemma radix_app k l n : radix b (k + l) n = radix b k (n `div` b ^ Z.of_nat l) ++ radix b l (n `mod` b ^ Z.of_nat l).
Proof using All.
  rewrite radix_mod. revert n. induction l as [|l IH]; intros n.
  - rewrite Nat.add_0_r, app_nil_r. cbn [Z.of_nat]. by rewrite Z.pow_0_r, Z.div_1_r.
  - rewrite Nat.add_succ_r. cbn [radix]. rewrite IH, app_assoc. do 2 f_equal.
    pose proof (pow_pos l). rewrite Z.div_div, pow_S by lia. done.
Qed.

Lemma radix_1 d : 0 <= d < b -> radix b 1 d = [digit_char d].
Proof. intros. cbn [radix app]. by rewrite Z.mod_small by lia. Qed.

Lemma canonical_text n s fuel : canonical b n s -> n < b ^ Z.of_nat fuel -> (0 < fuel)%nat -> s = radix_text b fuel n.
Proof using All.
  intros (k & -> & Hn & Hk). revert n k Hn Hk. induction fuel as [|fuel IH]; intros n k Hn Hk Hf Hpos; [lia|].
  cbn [radix_text]. destruct k as [|k].
  - rewrite pow_S in Hn. change (b ^ Z.of_nat 0) with 1 in Hn. decide_if. apply radix_1. lia.
  - destruct Hk as [Hk|Hk]; [done|]. rewrite !pow_S in *. pose proof (pow_pos k).
    assert (b <= n) by nia. decide_if.
    change (radix b (S (S k)) n) with (radix b (S k) (n `div` b) ++ [digit_char (n `mod` b)]). f_equal.
    assert (0 < fuel)%nat by (destruct fuel; [cbn in Hf; lia|lia]).
    apply IH; [|destruct k; [by left|right]|apply Z.div_lt_upper_bound; lia|done].
    + rewrite pow_S. split; [apply Z.div_pos; lia|apply Z.div_lt_upper_bound; lia].
    + apply Z.div_le_lower_bound; lia.
Qed.

Lemma canonical_app n s k : canonical b (n `div` b ^ Z.of_nat k) s -> b ^ Z.of_nat k <= n ->
  canonical b n (s ++ radix b k (n `mod` b ^ Z.of_nat k)).
Proof using All.
  intros (l & -> & Hn & Hl) Hk. pose proof (pow_pos k). pose proof (pow_pos l). exists (l + k)%nat.
  split_and!; [by rewrite <- radix_app|lia| |right].
  - rewrite (Nat2Z.inj_add (S l) k : Z.of_nat (S (l + k)) = _), Z.pow_add_r by lia.
    apply Z.nle_gt. rewrite <- le_div by lia. lia.
  - destruct Hl as [-> |Hl]; [done|]. rewrite Nat2Z.inj_add, Z.pow_add_r by lia. apply le_div; lia.
Qed.

Lemma canonical_radix k n : b ^ Z.of_nat k <= n < b ^ Z.of_nat (S k) -> canonical b n (radix b (S k) n).
Proof using All. intros Hn. pose proof (pow_pos k). exists k. split_and!; [done|lia..|]. right. lia. Qed.

(** The value of the text. *)
Lemma value_from_app v s t : value_from b v (s ++ t) = value_from b (value_from b v s) t.
Proof. apply fold_left_app. Qed.

Lemma radix_digits k n : digits_of b (radix b k n).
Proof using All.
  revert n. induction k as [|k IH]; intros n; [constructor|]. apply Forall_app. split; [apply IH|].
  repeat constructor. unfold is_digit_of. pose proof (Z.mod_pos_bound n b). rewrite digit_char_value by lia. apply Z.ltb_lt. lia.
Qed.

Lemma radix_value k n : 0 <= n < b ^ Z.of_nat k -> value_from b 0 (radix b k n) = n.
Proof using All.
  revert n. induction k as [|k IH]; intros n Hn; [cbn in Hn |- *; lia|]. cbn [radix]. rewrite value_from_app, IH.
  - unfold value_from. cbn [fold_left]. pose proof (Z.mod_pos_bound n b). rewrite digit_char_value by lia.
    pose proof (Z.div_mod n b). lia.
  - rewrite pow_S in Hn. split; [apply Z.div_pos; lia|apply Z.div_lt_upper_bound; lia].
Qed.

Lemma radix_head k n : b ^ Z.of_nat k <= n < b ^ Z.of_nat (S k) -> exists c s, radix b (S k) n = c :: s /\ c <> 48.
Proof using All.
  intros Hn. pose proof (pow_pos k). change (S k) with (1 + k)%nat. rewrite radix_app. rewrite pow_S in Hn.
  assert (1 <= n `div` b ^ Z.of_nat k < b) by (split; [apply Z.div_le_lower_bound|apply Z.div_lt_upper_bound]; lia).
  rewrite radix_1 by lia. cbn [app]. eexists _, _. split; [reflexivity|]. intros E.
  apply (f_equal ascii_to_int) in E. rewrite digit_char_value in E by lia. change (ascii_to_int 48) with 0 in E. lia.
Qed.

Lemma zlen_radix_text fuel n : zlen (radix_text b fuel n) <= Z.of_nat fuel.
Proof.
  revert n. induction fuel as [|fuel IH]; intros n; [done|]. cbn [radix_text]. case_if.
  - zl.
  - rewrite zlen_app. specialize (IH (n `div` b)). zl.
Qed.

End radix.

(** ** The printers *)

(** [puts f s]: [f] writes [s] and leaves the pointer behind it.
    [prints f s]: [f] also writes the zero that ends the text. *)
Definition puts (f : cursor -> outcome cursor) (s : list Z) : Prop :=
  forall m p, 0 <= p -> p + zlen s <= zlen m -> f (m, p) = Ok (splice p s m, p + zlen s).
Definition prints (f : cursor -> outcome cursor) (s : list Z) : Prop :=
  forall m p, 0 <= p -> p + zlen s < zlen m -> f (m, p) = Ok (splice p (s ++ [0]) m, p + zlen s).

(** A write at the end of, or over the end of, an earlier one. *)
Lemma splice_over p s e t m : 0 <= p -> zlen e <= zlen t -> p + zlen s + zlen t <= zlen m ->
  splice (p + zlen s) t (splice p (s ++ e) m) = splice p (s ++ t) m.
Proof.
  intros Hp He Hl. pose proof (zlen_nonneg s). pose proof (zlen_nonneg e).
  apply zget_eq; [rewrite !zlen_splice; rewrite ?zlen_app; rewrite ?zlen_splice; rewrite ?zlen_app; lia|].
  intros i _. assert (zlen (splice p (s ++ e) m) = zlen m) as Hz by (rewrite zlen_splice; rewrite ?zlen_app; lia).
  destruct (Z.lt_ge_cases i p); [|destruct (Z.lt_ge_cases i (p + zlen s)); [|destruct (Z.lt_ge_cases i (p + zlen s + zlen t))]].
  - rewrite !zget_splice_l by (rewrite ?zlen_app; lia). done.
  - rewrite zget_splice_l, !zget_splice_in by (rewrite ?zlen_app; lia). rewrite !zget_app_l by lia. done.
  - rewrite !zget_splice_in by (rewrite ?zlen_app; lia). rewrite zget_app_r by lia. f_equal. lia.
  - rewrite !zget_splice_r by (rewrite ?zlen_app; lia). done.
Qed.

Lemma puts_prints f g s t : puts f s -> prints g t -> prints (fun c => c ← f c; g c) (s ++ t).
Proof.
  intros Hf Hg m p Hp Hl. rewrite zlen_app in *. pose proof (zlen_nonneg t). pose proof (zlen_nonneg s). rewrite Hf by lia. cbn [mbind outcome_bind].
  rewrite Hg by (rewrite ?zlen_splice; zl).
  rewrite <- (app_nil_r s) at 2. rewrite splice_over by zl. do 2 f_equal; [by rewrite app_assoc|lia].
Qed.

Lemma prints_over f g s t : prints f s -> prints g t -> prints (fun c => c ← f c; g c) (s ++ t).
Proof.
  intros Hf Hg m p Hp Hl. rewrite zlen_app in *. pose proof (zlen_nonneg t). pose proof (zlen_nonneg s).
  rewrite Hf by lia. cbn [mbind outcome_bind].
  rewrite Hg by (rewrite ?zlen_splice; zl).
  rewrite splice_over by zl. do 2 f_equal; [by rewrite app_assoc|lia].
Qed.

Lemma prints_puts f g h s t u : t <> [] -> prints f s -> puts g t -> prints h u ->
  prints (fun c => c ← (c ← f c; g c); h c) (s ++ t ++ u).
Proof.
  intros Ht Hf Hg Hh m p Hp Hl. rewrite !zlen_app in *. pose proof (zlen_nonneg t). pose proof (zlen_nonneg s). pose proof (zlen_nonneg u).
  assert (1 <= zlen t) by (destruct t; [done|rewrite zlen_cons; pose proof (zlen_nonneg t); lia]).
  rewrite Hf by lia. cbn [mbind outcome_bind].
  rewrite Hg by (rewrite ?zlen_splice; zl). cbn [mbind outcome_bind].
  rewrite splice_over by zl.
  rewrite Hh by (rewrite ?zlen_splice; rewrite ?zlen_app; lia).
  replace (p + zlen s + zlen t) with (p + zlen (s ++ t)) by (rewrite zlen_app; lia).
  rewrite <- (app_nil_r (s ++ t)) at 2. rewrite splice_over by zl.
  do 2 f_equal; [by rewrite <- !app_assoc|rewrite zlen_app; lia].
Qed.

Lemma store_puts s : puts (fun c => c ← store s c; Ok (advance (zlen s) c)) s.
Proof. intros m p Hp Hl. unfold store. rewrite mwrite_ok by lia. done. Qed.

Lemma two_digits_puts d : 0 <= d < 100 -> puts (two_digits d) (radix 10 2 d).
Proof.
  intros Hd.
  assert (H : zget two_ASCII_digits d = Some (radix 10 2 d)).
  { apply (bool_decide_eq_true_1 _). assert (H : 0 <= d < 256) by lia.
    assert (negb (d <? 100) || bool_decide (zget two_ASCII_digits d = Some (radix 10 2 d)) = true) as Hc
      by (clear Hd; revert d H; apply byte_check; vm_compute; reflexivity).
    by rewrite (proj2 (Z.ltb_lt _ _)) in Hc by lia. }
  intros m p Hp Hl. unfold two_digits, put_two_digits, check. decide_if. cbn [mbind outcome_bind]. rewrite H. cbn [deref mbind outcome_bind].
  rewrite zlen_radix in *. unfold store. rewrite mwrite_ok by (rewrite ?zlen_radix; lia). done.
Qed.

Lemma one_digit_puts d : 0 <= d < 10 -> puts (one_digit d) (radix 10 1 d).
Proof. intros Hd. rewrite radix_1, digit_char_decimal by done. unfold one_digit. rewrite u8_small by lia. apply store_puts. Qed.

Lemma final_digit_prints d : 0 <= d < 10 -> prints (final_digit d) (radix 10 1 d).
Proof.
  intros Hd m p Hp Hl. rewrite radix_1, digit_char_decimal in * by done. unfold final_digit.
  assert (zget one_ASCII_final_digits d = Some [48 + d; 0]) as ->.
  { assert (d = 0 \/ d = 1 \/ d = 2 \/ d = 3 \/ d = 4 \/ d = 5 \/ d = 6 \/ d = 7 \/ d = 8 \/ d = 9) as Hc by lia.
    by destruct_or! Hc; subst d. }
  cbn [deref mbind outcome_bind]. unfold store. rewrite mwrite_ok by (rewrite ?zlen_cons, ?zlen_nil in *; lia). done.
Qed.

Lemma minus_puts : puts put_minus (bs "-").
Proof. apply store_puts. Qed.

Lemma end_prints : prints (store [0]) [].
Proof.
  intros m p Hp Hl. rewrite (@zlen_nil Z) in *. unfold store. rewrite mwrite_ok by zl. cbn [mbind outcome_bind app]. do 2 f_equal. lia.
Qed.

Lemma rem32 k i : 0 < k -> 0 <= i < 4294967296 -> u32 (i - u32 (i `div` k * k)) = i `mod` k.
Proof.
  intros Hk Hi. pose proof (Z.mul_div_le i k Hk). pose proof (Z.div_pos i k). pose proof (Z.mod_pos_bound i k Hk).
  rewrite Z.mod_eq in * by lia. rewrite (u32_small (_ * _)), u32_small by lia. lia.
Qed.

(** Two more digits in front of [k] digits. *)
Lemma two_more k q i rest : q = 10 ^ Z.of_nat k -> 0 <= i < 100 * q -> i < 4294967296 ->
  prints (rest (i `mod` q)) (radix 10 k (i `mod` q)) ->
  prints (fun c => c ← two_digits (i `div` q) c; rest (u32 (i - u32 (i `div` q * q))) c) (radix 10 (S (S k)) i).
Proof.
  intros Hq Hi Hl Hr. pose proof (Z.pow_pos_nonneg 10 (Z.of_nat k)). rewrite rem32 by lia.
  change (S (S k)) with (2 + k)%nat. rewrite radix_app, <- Hq by lia. apply puts_prints; [|done].
  apply two_digits_puts. split; [apply Z.div_pos; lia|apply Z.div_lt_upper_bound; lia].
Qed.

(** One digit in front of [k] digits: there is no leading zero. *)
Lemma one_more k q i rest : q = 10 ^ Z.of_nat k -> q <= i < 10 * q -> i < 4294967296 ->
  (forall j, 0 <= j < q -> prints (rest j) (radix 10 k j)) ->
  prints (fun c => c ← one_digit (i `div` q) c; rest (u32 (i - u32 (i `div` q * q))) c) (radix 10 (S k) i).
Proof.
  intros Hq Hi Hl Hr. pose proof (Z.pow_pos_nonneg 10 (Z.of_nat k)). rewrite rem32 by lia.
  change (S k) with (1 + k)%nat. rewrite radix_app, <- Hq by lia. apply puts_prints; [|apply Hr, Z.mod_pos_bound; lia].
  apply one_digit_puts. split; [apply Z.div_pos; lia|apply Z.div_lt_upper_bound; lia].
Qed.

Lemma lt100_prints i : 0 <= i < 100 -> prints (lt100 i) (radix 10 2 i).
Proof. intros Hi. rewrite <- (app_nil_r (radix 10 2 i)). apply puts_prints; [by apply two_digits_puts|apply end_prints]. Qed.

Lemma lt10_000_prints i : 0 <= i < 10000 -> prints (lt10_000 i) (radix 10 4 i).
Proof. intros Hi. apply (two_more 2 100 i lt100); [done|lia..|]. apply lt100_prints, Z.mod_pos_bound. lia. Qed.

Lemma lt1_000_000_prints i : 0 <= i < 1000000 -> prints (lt1_000_000 i) (radix 10 6 i).
Proof. intros Hi. apply (two_more 4 10000 i lt10_000); [done|lia..|]. apply lt10_000_prints, Z.mod_pos_bound. lia. Qed.

Lemma lt100_000_000_prints i : 0 <= i < 100000000 -> prints (lt100_000_000 i) (radix 10 8 i).
Proof. intros Hi. apply (two_more 6 1000000 i lt1_000_000); [done|lia..|]. apply lt1_000_000_prints, Z.mod_pos_bound. lia. Qed.

Lemma fast_uint32_prints i : 0 <= i < 4294967296 -> exists s, canonical 10 i s /\ prints (fast_uint32_to_buffer i) s.
Proof.
  intros Hi. unfold fast_uint32_to_buffer. repeat (case_if; zbool); try lia.
  - exists (radix 10 10 i). split; [apply (canonical_radix 10 ltac:(lia) 9); cbn; lia|].
    apply (two_more 8 100000000 i lt100_000_000); [done|lia..|]. apply lt100_000_000_prints, Z.mod_pos_bound. lia.
  - exists (radix 10 2 i). split; [apply (canonical_radix 10 ltac:(lia) 1); cbn; lia|apply lt100_prints; lia].
  - exists (radix 10 1 i). split; [|apply final_digit_prints; lia]. exists O. split_and!; [done|cbn; lia..|by left].
  - exists (radix 10 4 i). split; [apply (canonical_radix 10 ltac:(lia) 3); cbn; lia|apply lt10_000_prints; lia].
  - exists (radix 10 3 i). split; [apply (canonical_radix 10 ltac:(lia) 2); cbn; lia|].
    apply (one_more 2 100 i lt100); [done|lia..|apply lt100_prints].
  - exists (radix 10 6 i). split; [apply (canonical_radix 10 ltac:(lia) 5); cbn; lia|apply lt1_000_000_prints; lia].
  - exists (radix 10 5 i). split; [apply (canonical_radix 10 ltac:(lia) 4); cbn; lia|].
    apply (one_more 4 10000 i lt10_000); [done|lia..|apply lt10_000_prints].
  - exists (radix 10 8 i). split; [apply (canonical_radix 10 ltac:(lia) 7); cbn; lia|apply lt100_000_000_prints; lia].
  - exists (radix 10 7 i). split; [apply (canonical_radix 10 ltac:(lia) 6); cbn; lia|].
    apply (one_more 6 1000000 i lt1_000_000); [done|lia..|apply lt1_000_000_prints].
  - exists (radix 10 9 i). split; [apply (canonical_radix 10 ltac:(lia) 8); cbn; lia|].
    apply (one_more 8 100000000 i lt100_000_000); [done|lia..|apply lt100_000_000_prints].
Qed.

(** The last nine digits of [fast_int_to_buffer(uint64_t)], from the right. *)
Definition tail3 (u : Z) (c : cursor) : outcome cursor :=
  c ← two_digits (u `div` 10) c; final_digit (u32 (u - u32 (u `div` 10 * 10))) c.
Definition tail5 (u : Z) (c : cursor) : outcome cursor :=
  c ← two_digits (u `div` 1000) c; tail3 (u32 (u - u32 (u `div` 1000 * 1000))) c.
Definition tail7 (u : Z) (c : cursor) : outcome cursor :=
  c ← two_digits (u `div` 100000) c; tail5 (u32 (u - u32 (u `div` 100000 * 100000))) c.
Definition tail9 (u : Z) (c : cursor) : outcome cursor :=
  c ← two_digits (u `div` 10000000) c; tail7 (u32 (u - u32 (u `div` 10000000 * 10000000))) c.

Lemma tail9_prints u : 0 <= u < 1000000000 -> prints (tail9 u) (radix 10 9 u).
Proof.
  intros Hu. apply (two_more 7 10000000 u tail7); [done|lia..|]. pose proof (Z.mod_pos_bound u 10000000 ltac:(lia)) as H7.
  set (v := u `mod` 10000000) in *. apply (two_more 5 100000 v tail5); [done|lia..|].
  pose proof (Z.mod_pos_bound v 100000 ltac:(lia)) as H5. set (w := v `mod` 100000) in *.
  apply (two_more 3 1000 w tail3); [done|lia..|]. pose proof (Z.mod_pos_bound w 1000 ltac:(lia)) as H3.
  set (x := w `mod` 1000) in *. apply (two_more 1 10 x final_digit); [done|lia..|].
  apply final_digit_prints, Z.mod_pos_bound. lia.
Qed.

Lemma fast_uint64_eq i c : fast_uint64_to_buffer i c =
  if u32 i =? i then fast_uint32_to_buffer (u32 i) c else
  let top := i `div` 1000000000 in
  c ← (if u32 top =? top then fast_uint32_to_buffer (u32 top) c
       else c ← fast_uint32_to_buffer (u32 (top `div` 100)) c;
            two_digits (u32 (u64 (top - u32 (u32 (top `div` 100) * 100)))) c);
  tail9 (u32 (u64 (i - u64 (top * 1000000000)))) c.
Proof. reflexivity. Qed.

(** The digits between the top and the last nine; the product exceeds 32 bits. *)
Lemma mid_digits top : 0 <= top < 18446744074 ->
  u32 (u64 (top - u32 (top `div` 100 * 100))) = top `mod` 100.
Proof. intros. unfold u32, u64. dlia. Qed.

Lemma fast_uint64_prints i : 0 <= i < 18446744073709551616 -> exists s, canonical 10 i s /\ prints (fast_uint64_to_buffer i) s.
Proof.
  intros Hi. enough (exists s, canonical 10 i s /\ prints (fun c => fast_uint64_to_buffer i c) s) as H by exact H.
  assert (Hx : forall f g s, (forall c, f c = g c) -> prints g s -> prints f s).
  { intros f g s E H m p ??. rewrite E. by apply H. }
  destruct (u32 i =? i) eqn:E32; zbool.
  { destruct (fast_uint32_prints i) as (s & Hs & Hp); [rewrite <- E32; apply u32_range|]. exists s. split; [done|].
    eapply Hx; [|exact Hp]. intros c. rewrite fast_uint64_eq, E32. decide_if. done. }
  assert (4294967296 <= i) by (apply Z.nlt_ge; intros ?; apply E32, u32_small; lia).
  set (top := i `div` 1000000000). assert (0 <= top < 18446744074) as Ht by (subst top; split; [apply Z.div_pos|apply Z.div_lt_upper_bound]; lia).
  assert (u32 (u64 (i - u64 (top * 1000000000))) = i `mod` 1000000000) as Hlow.
  { pose proof (Z.mod_pos_bound i 1000000000 ltac:(lia)). pose proof (Z.mul_div_le i 1000000000 ltac:(lia)). fold top in H1.
    rewrite Z.mod_eq in * by lia. fold top in H0 |- *. rewrite (u64_small (top * _)), u64_small, u32_small by lia. lia. }
  destruct (u32 top =? top) eqn:Et; zbool.
  - destruct (fast_uint32_prints top) as (s & Hs & Hp); [rewrite <- Et; apply u32_range|].
    exists (s ++ radix 10 9 (i `mod` 1000000000)). split; [apply (canonical_app 10 ltac:(lia) i s 9); [exact Hs|cbn; lia]|].
    eapply Hx; [|apply (prints_over (fast_uint32_to_buffer top) (tail9 (i `mod` 1000000000)) s); [exact Hp|apply tail9_prints, Z.mod_pos_bound; lia]].
    intros c. rewrite fast_uint64_eq. fold top. decide_if. cbv zeta. rewrite Hlow, Et. decide_if. done.
  - assert (4294967296 <= top) by (apply Z.nlt_ge; intros ?; apply Et, u32_small; lia).
    assert (0 <= top `div` 100 < 184467441) by (split; [apply Z.div_pos|apply Z.div_lt_upper_bound]; lia).
    assert (u32 (u64 (top - u32 (u32 (top `div` 100) * 100))) = top `mod` 100) as Hmid.
    { rewrite (u32_small (top `div` 100)) by lia. apply mid_digits. lia. }
    destruct (fast_uint32_prints (top `div` 100)) as (s & Hs & Hp); [lia|].
    exists (s ++ radix 10 2 (top `mod` 100) ++ radix 10 9 (i `mod` 1000000000)). split.
    { rewrite app_assoc. apply (canonical_app 10 ltac:(lia) i _ 9); [apply (canonical_app 10 ltac:(lia) top s 2); [exact Hs|cbn; lia]|cbn; lia]. }
    eapply Hx; [|apply (prints_puts (fast_uint32_to_buffer (top `div` 100)) (two_digits (top `mod` 100)) (tail9 (i `mod` 1000000000)) s);
      [done|exact Hp|apply two_digits_puts, Z.mod_pos_bound; lia|apply tail9_prints, Z.mod_pos_bound; lia]].
    intros c. rewrite fast_uint64_eq. fold top. decide_if. cbv zeta. rewrite Hlow, Hmid. decide_if.
    by rewrite (u32_small (top `div` 100)) by lia.
Qed.

Lemma to_decimal_canonical n s : canonical 10 n s -> n < 18446744073709551616 -> s = to_decimal n.
Proof. intros Hc Hn. apply (canonical_text 10 ltac:(lia)); [done|cbn; lia|lia]. Qed.

(** The values of a type. *)
Definition in_type (t : int_type) (v : Z) : Prop :=
  let bits := 8 * int_size t in
  if int_signed t then - 2 ^ (bits - 1) <= v < 2 ^ (bits - 1) else 0 <= v < 2 ^ bits.

Lemma fast_uint32_text i : 0 <= i < 4294967296 -> prints (fast_uint32_to_buffer i) (to_decimal i).
Proof.
  intros Hi. destruct (fast_uint32_prints i Hi) as (s & Hs & Hp). by rewrite <- (to_decimal_canonical i s) by (done || lia).
Qed.

Lemma fast_uint64_text i : 0 <= i < 18446744073709551616 -> prints (fast_uint64_to_buffer i) (to_decimal i).
Proof.
  intros Hi. destruct (fast_uint64_prints i Hi) as (s & Hs & Hp). by rewrite <- (to_decimal_canonical i s) by (done || lia).
Qed.

Lemma fast_int32_text v : -2147483648 <= v < 2147483648 -> prints (fast_int32_to_buffer v) (to_text v).
Proof.
  intros Hv. unfold fast_int32_to_buffer, to_text. case_if; zbool.
  - replace (u32 (0 - u32 v)) with (Z.abs v) by (unfold u32; dlia). apply puts_prints; [apply minus_puts|apply fast_uint32_text; lia].
  - rewrite u32_small, Z.abs_eq by lia. apply fast_uint32_text. lia.
Qed.

Lemma fast_int64_text v : -9223372036854775808 <= v < 9223372036854775808 -> prints (fast_int64_to_buffer v) (to_text v).
Proof.
  intros Hv. unfold fast_int64_to_buffer, to_text. case_if; zbool.
  - replace (u64 (0 - u64 v)) with (Z.abs v) by (unfold u64; dlia). apply puts_prints; [apply minus_puts|apply fast_uint64_text; lia].
  - rewrite u64_small, Z.abs_eq by lia. apply fast_uint64_text. lia.
Qed.

Lemma to_text_nonneg v : 0 <= v -> to_text v = to_decimal v.
Proof. intros Hv. unfold to_text. decide_if. by rewrite Z.abs_eq. Qed.

Lemma fast_int_text t v : int_size t ∈ [1; 2; 4; 8] -> in_type t v -> prints (fast_int_to_buffer t v) (to_text v).
Proof.
  intros Ht. unfold in_type, fast_int_to_buffer. rewrite !elem_of_cons, elem_of_nil in Ht.
  destruct (int_signed t); destruct_or? Ht; try done; rewrite Ht; cbn [Z.ltb Z.compare Pos.compare Pos.compare_cont Z.mul Pos.mul Z.sub];
    intros Hv; cbn in Hv; first [apply fast_int32_text; lia|apply fast_int64_text; lia|idtac];
    rewrite to_text_nonneg by lia; first [apply fast_uint32_text; lia|apply fast_uint64_text; lia].
Qed.

Lemma zlen_to_text v : zlen (to_text v) <= 21.
Proof. unfold to_text. pose proof (zlen_radix_text 10 20 (Z.abs v)). rewrite zlen_app. unfold to_decimal. case_if; cbn [bs]; zl. Qed.

(** Decimal text is a numeral of base 10, and of base 0 since it has no
    leading zero: the text of 0 is octal without digits. *)
Lemma decimal_numeral base n : base = 0 \/ base = 10 -> 0 <= n < 18446744073709551616 ->
  exists pre b ds, to_decimal n = pre ++ ds /\ base_prefix base pre b ds /\ digits_of b ds /\ value_from b 0 ds = n.
Proof.
  intros Hb Hn. destruct (fast_uint64_prints n Hn) as (s & Hs & _). rewrite <- (to_decimal_canonical n s) by (done || lia).
  destruct Hs as (k & -> & Hk & Hz). destruct Hb as [-> | ->].
  - destruct (Z.eq_dec n 0) as [-> |].
    { exists (bs "0"), 8, []. split_and!; [|constructor|constructor|done].
      destruct Hz as [-> |Hz]; [done|]. pose proof (Z.pow_pos_nonneg 10 (Z.of_nat k)). lia. }
    destruct (radix_head 10 ltac:(lia) k n) as (c & s & E & Hc); [destruct Hz as [-> |Hz]; [cbn in *; lia|lia]|].
    exists [], 10, (c :: s). rewrite <- E. split_and!; [done|rewrite E; by constructor|apply radix_digits; lia|apply radix_value; lia].
  - exists [], 10, (radix 10 (S k) n). split_and!; [done| |apply radix_digits; lia|apply radix_value; lia].
    constructor; [lia|]. by cbn [radix]; destruct (radix 10 k (n `div` 10)).
Qed.

(** The result type of [safe_strtoi_base]. *)
Definition result_type (t : int_type) : IntType :=
  if int_signed t then (if int_size t =? 8 then int64_t else int32_t)
  else (if int_size t =? 8 then uint64_t else uint32_t).

Lemma safe_strtoi_base_eq t : safe_strtoi_base t = safe_strto (result_type t).
Proof. unfold safe_strtoi_base, result_type. by destruct (int_signed t), (int_size t =? 8). Qed.

Lemma in_type_range t v : int_size t = 4 \/ int_size t = 8 -> in_type t v ->
  vmin (result_type t) <= v <= vmax (result_type t) /\ int_ok (result_type t) /\
  is_signed (result_type t) = int_signed t /\ Z.abs v < 18446744073709551616.
Proof.
  unfold in_type, result_type, int_ok. intros [Ht|Ht]; rewrite Ht; destruct (int_signed t); cbn; lia.
Qed.

Lemma text_numeral (signed : bool) base v ws ws' : base = 0 \/ base = 10 -> Z.abs v < 18446744073709551616 ->
  (v < 0 -> signed = true) -> spaces ws -> spaces ws' -> numeral signed base (ws ++ to_text v ++ ws') v.
Proof.
  intros Hb Hv Hs Hws Hws'. destruct (decimal_numeral base (Z.abs v)) as (pre & b & ds & E & Hp & Hd & Hval); [done|lia|].
  unfold to_text. rewrite E. destruct (v <? 0) eqn:Hneg; zbool.
  - exists ws, (bs "-"), pre, ds, ws', b, true. rewrite <- !app_assoc. split_and!; [done..|intros _; by apply Hs|done|done|lia].
  - exists ws, [], pre, ds, ws', b, false. rewrite <- !app_assoc. split_and!; [done..|by left|done|done|done|lia].
Qed.

(** C26: for every value of every integer type the printer writes, inside of
    a buffer of [kFastToBufferSize] bytes, the decimal text of the value
    without leading zeros and the zero that ends it, and returns a pointer to
    that zero; the parser of the same type, in base 10 and in base 0, returns
    the value from that text, whatever white space surrounds it. *)
Theorem numbers_roundtrip t v base ws ws' m p :
  int_size t = 4 \/ int_size t = 8 -> in_type t v -> base = 0 \/ base = 10 -> spaces ws -> spaces ws' ->
  0 <= p -> p + kFastToBufferSize <= zlen m ->
  fast_int_to_buffer t v (m, p) = Ok (splice p (to_text v ++ [0]) m, p + zlen (to_text v)) /\
  zlen (to_text v ++ [0]) <= kFastToBufferSize /\
  safe_strtoi_base t (Some (ws ++ to_text v ++ ws')) base = Ok (true, v).
Proof.
  unfold kFastToBufferSize. intros Ht Hv Hb Hws Hws' Hp Hm. pose proof (zlen_to_text v). split_and!.
  - apply fast_int_text; [rewrite !elem_of_cons; tauto|done|done|lia].
  - zl.
  - destruct (in_type_range t v Ht Hv) as (Hr & HT & Hsg & Ha). rewrite safe_strtoi_base_eq.
    assert (numeral (is_signed (result_type t)) base (ws ++ to_text v ++ ws') v) as Hn.
    { apply text_numeral; try done. rewrite Hsg. unfold in_type in Hv. destruct (int_signed t); [done|lia]. }
    destruct (safe_strto_parses (result_type t) (ws ++ to_text v ++ ws') base HT) as (ok & w & -> & _ & Hok & Hcl).
    rewrite (Hcl v Hn). rewrite (proj2 Hok) by (by exists v). unfold clamp. do 2 f_equal. lia.
Qed.

Lemma numbers_roundtrip_witness :
  let t := {| int_signed := true; int_size := 4 |} in
  let v := -2147483648 in
  let m := repeat 7 40 in
  fast_int_to_buffer t v (m, 3) = Ok (splice 3 (to_text v ++ [0]) m, 3 + zlen (to_text v)) /\
  zlen (to_text v ++ [0]) <= kFastToBufferSize /\
  safe_strtoi_base t (Some ([32] ++ to_text v ++ [10])) 0 = Ok (true, v).
Proof.
  apply (numbers_roundtrip {| int_signed := true; int_size := 4 |} (-2147483648) 0 [32] [10] (repeat 7 40) 3).
  - by left.
  - vm_compute. by split.
  - by left.
  - by repeat constructor.
  - by repeat constructor.
  - lia.
  - vm_compute. done.
Defined.
