(* ===== verification/StrCat.v ===== *)
(** * Concatenation of texts and numbers

    [alpha_num], [string_cat] and [string_append] of
    [flare/strings/str_cat.cc] and [str_cat.h], over the printers of
    [Numbers].  An argument is a text, an integer, or a padded hexadecimal or
    decimal number; its [digits_] are a buffer of [kFastToBufferSize] bytes
    whose initial contents are arbitrary, and its [piece_] is either a text of
    the caller or a range of [digits_].  Texts of the caller do not overlap
    the string that is appended to, which is what [ASSERT_NO_OVERLAP] asserts. *)

From S2P Require Import Prelude Bits Buffers Ascii Numbers.
Local Open Scope Z_scope.

(** ** Padding *)

(** The values of the enumeration [pad_spec]. *)
Definition kNoPad : Z := 1.
Definition kZeroPad2 : Z := 2.
Definition kZeroPad20 : Z := 20.
Definition kSpacePad2 : Z := kZeroPad2 + 64.
Definition kSpacePad20 : Z := kSpacePad2 + 18.

Definition is_pad_spec (spec : Z) : bool :=
  (spec =? kNoPad) || between kZeroPad2 kZeroPad20 spec || between kSpacePad2 kSpacePad20 spec.

(** The initializers of [width] and [fill]. *)
Definition pad_width (spec : Z) : Z :=
  u8 (if spec =? kNoPad then 1 else if kSpacePad2 <=? spec then spec - kSpacePad2 + 2 else spec - kZeroPad2 + 2).
Definition pad_fill (spec : Z) : Z := if kSpacePad2 <=? spec then 32 else 48.

Record hex := { hex_value : Z; hex_width : Z; hex_fill : Z }.

(** [hex(v, spec)]: [v] is converted to the unsigned type of its size. *)
Definition new_hex (t : int_type) (v spec : Z) : hex :=
  {| hex_value := wrap (8 * int_size t) v; hex_width := pad_width spec; hex_fill := pad_fill spec |}.

Record dec := { dec_value : Z; dec_width : Z; dec_fill : Z; dec_neg : bool }.

Definition new_dec (v spec : Z) : dec :=
  {| dec_value := if 0 <=? v then u64 v else u64 (0 - u64 v);
     dec_width := pad_width spec; dec_fill := pad_fill spec; dec_neg := v <? 0 |}.

(** ** [alpha_num] *)

(** [piece_]: a text of the caller, or [len] bytes at [pos] of [digits_]. *)
Inductive view : Type :=
| Outside (s : list Z)
| Digits (pos len : Z).

Record alpha_num := { piece_ : view; digits_ : list Z }.

Definition alpha_num_int (t : int_type) (x : Z) (digits : list Z) : outcome alpha_num :=
  '(digits, p) ← fast_int_to_buffer t x (digits, 0);
  Ok {| piece_ := Digits 0 p; digits_ := digits |}.

Definition alpha_num_hex (h : hex) (digits : list Z) : outcome alpha_num :=
  let end_ := kFastToBufferSize in
  '(c, real_width) ← fast_hex_to_buffer_zero_pad16 (hex_value h) (digits, end_ - 16);
  let digits := fst c in
  if hex_width h <=? real_width then
    Ok {| piece_ := Digits (end_ - real_width) real_width; digits_ := digits |}
  else
    digits ← mwrite (end_ - 32) (repeat (hex_fill h) 16) digits;
    digits ← mwrite (end_ - real_width - 16) (repeat (hex_fill h) 16) digits;
    Ok {| piece_ := Digits (end_ - hex_width h) (hex_width h); digits_ := digits |}.

(** [while (value > 9) { *--writer = '0' + (value % 10); value /= 10; }]; a
    [uint64_t] has at most twenty digits. *)
Fixpoint dec_loop (n : nat) (value writer : Z) (digits : list Z) : outcome (Z * Z * list Z) :=
  match n with
  | O => Undefined
  | S n =>
      if 9 <? value then
        digits ← mwrite (writer - 1) [48 + value `mod` 10] digits;
        dec_loop n (value `div` 10) (writer - 1) digits
      else Ok (value, writer, digits)
  end.

Definition alpha_num_dec (d : dec) (digits : list Z) : outcome alpha_num :=
  _ ← check (dec_width d <=? kFastToBufferSize);
  let end_ := kFastToBufferSize in
  let minfill := end_ - dec_width d in
  let neg := dec_neg d in
  '(value, writer, digits) ← dec_loop 20 (dec_value d) end_ digits;
  digits ← mwrite (writer - 1) [48 + value] digits;
  let writer := writer - 1 in
  '(writer, digits) ← (if neg then digits ← mwrite (writer - 1) [45] digits; Ok (writer - 1, digits)
                       else Ok (writer, digits));
  let fillers := writer - minfill in
  '(writer, digits) ←
    (if 0 <? fillers then
       let add_sign_again := neg && (dec_fill d =? 48) in
       let writer := if add_sign_again then writer + 1 else writer in
       let writer := writer - fillers in
       digits ← mwrite writer (repeat (dec_fill d) (Z.to_nat fillers)) digits;
       if add_sign_again then digits ← mwrite (writer - 1) [45] digits; Ok (writer - 1, digits)
       else Ok (writer, digits)
     else Ok (writer, digits));
  Ok {| piece_ := Digits writer (end_ - writer); digits_ := digits |}.

Definition size (a : alpha_num) : Z :=
  match piece_ a with Outside s => zlen s | Digits _ len => len end.

(** The bytes at [data()]. *)
Definition bytes (a : alpha_num) : outcome (list Z) :=
  match piece_ a with Outside s => Ok s | Digits pos len => mread (digits_ a) pos len end.

(** ** [string_cat] and [string_append] *)

(** [Append]: copies the piece and returns the address behind it. *)
Definition Append (out : Z) (x : alpha_num) (m : list Z) : outcome (Z * list Z) :=
  let after := out + size x in
  if negb (size x =? 0) then
    s ← bytes x; m ← mwrite out s m; Ok (after, m)
  else Ok (after, m).

Fixpoint append_all (out : Z) (l : list alpha_num) (m : list Z) : outcome (Z * list Z) :=
  match l with
  | [] => Ok (out, m)
  | x :: l => '(out, m) ← Append out x m; append_all out l m
  end.

Definition total_size (l : list alpha_num) : Z := foldr (fun a n => size a + n) 0 l.

(** [append_pieces], and [string_append] with two to four arguments: grows
    the string to its final size and copies the pieces.  [fresh] is what the
    bytes that [string_resize_uninitialized] adds contain. *)
Definition append_pieces (fresh : Z -> list Z) (dest : list Z) (l : list alpha_num) : outcome (list Z) :=
  let old_size := zlen dest in
  let total := old_size + total_size l in
  '(out, m) ← append_all old_size l (dest ++ fresh (total - old_size));
  _ ← check (out =? zlen m);
  Ok m.

(** [string_append]; with one argument it is [std::string::append]. *)
Definition string_append (fresh : Z -> list Z) (dest : list Z) (l : list alpha_num) : outcome (list Z) :=
  match l with
  | [] => Ok dest
  | [a] => s ← bytes a; Ok (dest ++ s)
  | _ => append_pieces fresh dest l
  end.

(** [string_cat]; with one argument it is a constructor of [std::string]. *)
Definition string_cat (fresh : Z -> list Z) (l : list alpha_num) : outcome (list Z) :=
  match l with
  | [] => Ok []
  | [a] => bytes a
  | _ => append_pieces fresh [] l
  end.

(** ** Sixteen hexadecimal digits *)

Lemma kHexTable_get c : 0 <= c < 256 -> mread kHexTable (c * 2) 2 = Ok (radix 16 2 c).
Proof.
  intros Hc.
  assert (match mread kHexTable (c * 2) 2 with Ok s => bool_decide (s = radix 16 2 c) | _ => false end = true) as H
    by (revert c Hc; apply byte_check; vm_compute; reflexivity).
  destruct (mread kHexTable (c * 2) 2); [|done..]. by apply bool_decide_eq_true in H as ->.
Qed.

Lemma hex_loop_ok n i val m p : i + Z.of_nat n = 8 -> 0 <= i -> 0 <= p -> p + 16 <= zlen m ->
  hex_loop n i val (m, p) = Ok (splice (p + 2 * i) (radix 16 (2 * n) val) m, p).
Proof.
  revert i m. induction n as [|n IH]; intros i m Hi Hi0 Hp Hm; cbn [hex_loop].
  { change (radix 16 (2 * 0) val) with (@nil Z). unfold splice. cbn [app]. rewrite (@zlen_nil Z), Z.add_0_r, ztake_zdrop. done. }
  rewrite land_255, Z.shiftr_div_pow2 by lia.
  rewrite kHexTable_get by (apply Z.mod_pos_bound; lia). cbn [mbind outcome_bind].
  unfold store, advance. rewrite mwrite_ok by (rewrite ?zlen_radix; lia). cbn [mbind outcome_bind fst snd].
  rewrite IH by (rewrite ?zlen_splice; rewrite ?zlen_radix; lia). f_equal. f_equal.
  replace (2 * S n)%nat with (2 + 2 * n)%nat by lia. rewrite (radix_app 16 ltac:(lia) 2 (2 * n) val), (radix_mod 16 ltac:(lia) (2 * n) val).
  replace (56 - 8 * i) with (8 * Z.of_nat n) by lia.
  replace (16 ^ Z.of_nat (2 * n)) with (2 ^ (8 * Z.of_nat n)).
  2: { rewrite Nat2Z.inj_mul. change 16 with (2 ^ 4). rewrite <- Z.pow_mul_r by lia. f_equal. lia. }
  change 256 with (16 ^ Z.of_nat 2). rewrite (radix_mod 16 ltac:(lia) 2).
  set (a := radix 16 2 _). replace (p + 2 * (i + 1)) with (p + 2 * i + zlen a) by (subst a; rewrite zlen_radix; lia).
  rewrite <- (app_nil_r a) at 2. apply splice_over; [lia|rewrite (@zlen_nil Z); apply zlen_nonneg|].
  subst a. rewrite !zlen_radix. lia.
Qed.

Lemma countl_zero_loop_ok n x r : 2 ^ (64 - Z.of_nat n) <= x < 2 ^ 64 -> (0 < n <= 64)%nat ->
  countl_zero_loop n x r = Ok (r + 63 - Z.log2 x).
Proof.
  revert x r. induction n as [|n IH]; intros x r Hx Hn; [lia|]. cbn [countl_zero_loop].
  assert (0 < x) by (pose proof (Z.pow_pos_nonneg 2 (64 - Z.of_nat (S n))); lia).
  destruct (Z.lt_ge_cases x (2 ^ 63)) as [Hlt|Hge].
  - assert (Z.land x (Z.shiftl 1 63) = 0) as ->.
    { rewrite Z.shiftl_1_l. by_bits i. rewrite Z.pow2_bits_eqb by lia. destruct (Z.eqb_spec 63 i) as [<-|]; [|by rewrite andb_false_r].
      rewrite (testbit_high 63 x 63) by lia. done. }
    cbn [Z.eqb]. rewrite Z.shiftl_mul_pow2 by lia. change (2 ^ 1) with 2. rewrite u64_small by lia.
    assert (Z.log2 (x * 2) = Z.log2 x + 1) as Hl by (rewrite (Z.mul_comm x 2), Z.log2_double by lia; lia).
    destruct n as [|n].
    { exfalso. change (64 - Z.of_nat 1) with 63 in Hx. lia. }
    rewrite IH; [f_equal; lia| |lia]. split; [|lia].
    replace (64 - Z.of_nat (S n)) with (64 - Z.of_nat (S (S n)) + 1) by lia. rewrite Z.pow_add_r by lia. lia.
  - assert (Z.log2 x = 63) by (apply Z.log2_unique; lia).
    assert (Z.testbit x 63 = true) as Ht by (rewrite <- H0; apply Z.bit_log2; lia).
    rewrite (proj2 (Z.eqb_neq _ 0)); [f_equal; lia|].
    intros E. apply (f_equal (fun z => Z.testbit z 63)) in E. rewrite Z.land_spec, Ht, Z.bits_0 in E. by vm_compute in E.
Qed.

Lemma countl_zero_ok x : 0 < x < 2 ^ 64 -> countl_zero x = Ok (63 - Z.log2 x).
Proof.
  intros Hx. unfold countl_zero. decide_if. rewrite countl_zero_loop_ok; [f_equal; lia|cbn; lia|lia].
Qed.

Lemma lor_1 v : 0 <= v -> Z.lor v 1 = v + 1 - v `mod` 2.
Proof.
  intros Hv. pose proof (Z.mod_pos_bound v 2).
  replace v with (v `mod` 2 + 2 * (v `div` 2)) at 1 by (pose proof (Z.div_mod v 2); lia).
  assert (Z.lor (v `mod` 2 + 2 * (v `div` 2)) 1 = 1 + 2 * (v `div` 2)) as ->; [|pose proof (Z.div_mod v 2); lia].
  assert (v `mod` 2 = 0 \/ v `mod` 2 = 1) as [-> | ->] by lia; by_bits i.
  all: destruct (Z.eq_dec i 0) as [-> |]; [by rewrite ?Z.add_0_l, ?Z.testbit_odd_0, ?Z.testbit_even_0, ?(Z.add_comm 1), ?Z.testbit_odd_0|].
  all: replace i with (Z.succ (i - 1)) by lia.
  all: rewrite ?Z.add_0_l, ?(Z.add_comm 1), ?Z.testbit_odd_succ, ?Z.testbit_even_succ by lia.
  all: rewrite (testbit_high 1 1) by lia; by rewrite orb_false_r.
Qed.

(** The number of digits that [fast_hex_to_buffer_zero_pad16] returns. *)
Lemma hex_width_ok val : 0 <= val < 2 ^ 64 ->
  exists k, countl_zero (Z.lor val 1) = Ok (63 - Z.log2 (Z.lor val 1)) /\ (k <= 15)%nat /\
    16 - (63 - Z.log2 (Z.lor val 1)) `div` 4 = Z.of_nat (S k) /\ canonical 16 val (radix 16 (S k) val).
Proof.
  intros Hv. rewrite lor_1 by lia. set (w := val + 1 - val `mod` 2). pose proof (Z.mod_pos_bound val 2 ltac:(lia)) as Hm.
  assert (0 < w < 2 ^ 64) as Hw by (subst w; pose proof (Z.div_mod val 2); change (2 ^ 64) with (2 * 2 ^ 63) in *; lia).
  pose proof (Z.log2_nonneg w). assert (Z.log2 w < 64) as Hl by (apply Z.log2_lt_pow2; lia).
  pose proof (Z.log2_spec w) as Hs. exists (Z.to_nat (Z.log2 w `div` 4)).
  assert (0 <= Z.log2 w `div` 4 <= 15) as Hk by (Z.to_euclidean_division_equations; lia).
  set (k := Z.log2 w `div` 4) in *. split_and!; [by apply countl_zero_ok|lia|subst k; Z.to_euclidean_division_equations; lia|].
  assert (4 * k <= Z.log2 w < 4 * (k + 1)) as Hkw by (subst k; Z.to_euclidean_division_equations; lia).
  assert (16 ^ k <= w < 16 ^ (k + 1)) as Hr.
  { change 16 with (2 ^ 4). rewrite <- !Z.pow_mul_r by lia. destruct Hs as [Hs1 Hs2]; [lia|]. split.
    - etrans; [|exact Hs1]. apply Z.pow_le_mono_r; lia.
    - eapply Z.lt_le_trans; [exact Hs2|]. apply Z.pow_le_mono_r; lia. }
  exists (Z.to_nat k). split_and!; [done|lia| |].
  - rewrite Nat2Z.inj_succ, Z2Nat.id by lia. rewrite <- Z.add_1_r. lia.
  - destruct (Z.eq_dec k 0) as [-> |]; [by left|right]. rewrite Z2Nat.id by lia.
    replace (16 ^ k) with (2 * (8 * 16 ^ (k - 1))) in * by (replace k with (k - 1 + 1) at 2 by lia; rewrite Z.pow_add_r by lia; lia).
    pose proof (Z.div_mod val 2). lia.
Qed.

Lemma fast_hex_ok val m p : 0 <= val < 2 ^ 64 -> 0 <= p -> p + 16 <= zlen m ->
  exists k, (k <= 15)%nat /\ canonical 16 val (radix 16 (S k) val) /\
    fast_hex_to_buffer_zero_pad16 val (m, p) =
      Ok ((splice p (repeat 48 (15 - k) ++ radix 16 (S k) val) m, p), Z.of_nat (S k)).
Proof.
  intros Hv Hp Hm. destruct (hex_width_ok val Hv) as (k & Ec & Hk & Ew & Hc). exists k. split_and!; [done..|].
  unfold fast_hex_to_buffer_zero_pad16. rewrite hex_loop_ok by lia. cbn [mbind outcome_bind]. rewrite Ec. cbn [mbind outcome_bind].
  rewrite Ew, Z.add_0_r. do 4 f_equal. change (2 * 8)%nat with 16%nat. replace 16%nat with ((15 - k) + S k)%nat by lia.
  destruct Hc as (k' & E & Hn & _). apply (f_equal zlen) in E. rewrite !zlen_radix in E. assert (k' = k) as -> by lia.
  rewrite (radix_app 16 ltac:(lia) (15 - k) (S k)), radix_mod, Z.div_small by lia. f_equal.
  replace (15 - k + S k - S k)%nat with (15 - k)%nat by lia.
  generalize (15 - k)%nat as n. clear. induction n as [|n IH]; [done|]. cbn [radix]. rewrite Z.div_0_l, Z.mod_0_l, IH by lia.
  change (digit_char 0) with 48. by rewrite <- repeat_cons.
Qed.

(** ** The text of an argument *)

(** [s] filled up on the left to [w] bytes. *)
Definition pad (w c : Z) (s : list Z) : list Z := repeat c (Z.to_nat (w - zlen s)) ++ s.

Definition to_hex (n : Z) : list Z := radix_text 16 16 n.

(** Zeros go between the sign and the digits, spaces before the sign. *)
Definition padded_decimal (w c v : Z) : list Z :=
  if (v <? 0) && (c =? 48) then bs "-" ++ pad (w - 1) c (to_decimal (Z.abs v)) else pad w c (to_text v).

(** [piece_] shows the bytes [s]. *)
Definition shows (a : alpha_num) (s : list Z) : Prop := bytes a = Ok s /\ size a = zlen s.

Lemma pad_long w c s : w <= zlen s -> pad w c s = s.
Proof. intros. unfold pad. by rewrite Z2Nat.nonpos by lia. Qed.

Lemma zlen_repeat {A} (x : A) n : zlen (repeat x n) = Z.of_nat n.
Proof. unfold zlen. by rewrite repeat_length. Qed.

(** A write over the middle of a buffer. *)
Lemma mwrite_mid a b c t i : i = zlen a -> zlen t = zlen b -> mwrite i t (a ++ b ++ c) = Ok (a ++ t ++ c).
Proof.
  intros -> Ht. pose proof (zlen_nonneg a). pose proof (zlen_nonneg c). rewrite mwrite_ok by (rewrite ?zlen_app; lia).
  unfold splice. rewrite ztake_app_exact by done. rewrite Ht, (app_assoc a b c), zdrop_app_exact by (rewrite zlen_app; lia). done.
Qed.

Lemma shows_suffix a b pos len :
  pos = zlen a -> len = zlen b -> shows {| piece_ := Digits pos len; digits_ := a ++ b |} b.
Proof.
  intros -> ->. split; [|done]. unfold bytes. cbn [piece_ digits_]. pose proof (zlen_nonneg a). pose proof (zlen_nonneg b).
  rewrite mread_ok by (rewrite ?zlen_app; lia). f_equal. unfold part. rewrite zdrop_app_exact by done. by apply ztake_all.
Qed.

(** Split a buffer behind its first [n] bytes. *)
Lemma split_at n (m : list Z) : 0 <= n <= zlen m -> exists a b, m = a ++ b /\ zlen a = n /\ zlen b = zlen m - n.
Proof. intros Hn. exists (ztake n m), (zdrop n m). by rewrite ztake_zdrop, zlen_ztake, zlen_zdrop. Qed.

Lemma pad_width_range spec : is_pad_spec spec = true -> 1 <= pad_width spec <= 20 /\ (pad_fill spec = 32 \/ pad_fill spec = 48).
Proof.
  intros H. assert (0 <= spec < 256) as Hs.
  { unfold is_pad_spec, between, kNoPad, kZeroPad20, kSpacePad20, kSpacePad2, kZeroPad2 in H. apply orb_true_iff in H as [H|H]; [apply orb_true_iff in H as [H|H]|]; zbool; lia. }
  assert (negb (is_pad_spec spec) || between 1 20 (pad_width spec) && ((pad_fill spec =? 32) || (pad_fill spec =? 48)) = true) as Hc
    by (clear H; revert spec Hs; apply byte_check; vm_compute; reflexivity).
  rewrite H in Hc. cbn [negb orb] in Hc. unfold between in Hc. apply andb_true_iff in Hc as [Hc1 Hc2]. zbool. split; [lia|].
  apply orb_true_iff in Hc2 as [?|?]; zbool; tauto.
Qed.

Lemma alpha_num_hex_ok h digits : 0 <= hex_value h < 2 ^ 64 -> 1 <= hex_width h <= 20 -> zlen digits = kFastToBufferSize ->
  exists a, alpha_num_hex h digits = Ok a /\ shows a (pad (hex_width h) (hex_fill h) (to_hex (hex_value h))).
Proof.
  unfold kFastToBufferSize. intros Hv Hw Hd. destruct h as [v w c]. cbn [hex_value hex_width hex_fill] in *.
  destruct (fast_hex_ok v digits 16) as (k & Hk & Hc & E); [lia..|]. unfold alpha_num_hex, kFastToBufferSize.
  cbn [hex_value hex_width hex_fill]. change (32 - 16) with 16. change (32 - 32) with 0. rewrite E. cbn [mbind outcome_bind fst].
  assert (radix 16 (S k) v = to_hex v) as Et by (apply (canonical_text 16 ltac:(lia)); [done|cbn; lia|lia]).
  pose proof (zlen_radix 16 (S k) v) as Hl. rewrite Et in *. clear E Et Hc. set (s := to_hex v) in *.
  destruct (split_at 16 digits) as (a & b & -> & Ha & Hb); [lia|]. rewrite Hd in Hb.
  assert (splice 16 (repeat 48 (15 - k) ++ s) (a ++ b) = a ++ repeat 48 (15 - k) ++ s) as ->.
  { unfold splice. rewrite ztake_app_exact, zlen_app, zlen_repeat, zdrop_all by (rewrite ?zlen_app; lia). by rewrite app_nil_r. }
  case_if; zbool.
  - eexists. split; [reflexivity|]. rewrite pad_long by lia. rewrite app_assoc. apply shows_suffix; [|lia].
    rewrite zlen_app, zlen_repeat. lia.
  - pose proof (mwrite_mid [] a (repeat 48 (15 - k) ++ s) (repeat c 16) 0) as E. cbn [app] in E.
    rewrite E by (rewrite ?zlen_repeat; done || lia). cbn [mbind outcome_bind].
    assert (mwrite (32 - Z.of_nat (S k) - 16) (repeat c 16) (repeat c 16 ++ repeat 48 (15 - k) ++ s) =
      Ok (repeat c (15 - k) ++ repeat c 16 ++ s)) as ->.
    { pose proof (mwrite_mid (repeat c (15 - k)) (repeat c (S k) ++ repeat 48 (15 - k)) s (repeat c 16) (32 - Z.of_nat (S k) - 16)) as E2.
      rewrite !app_assoc, <- repeat_app in E2. replace (15 - k + S k)%nat with 16%nat in E2 by lia.
      rewrite <- !app_assoc in E2. apply E2; rewrite ?zlen_app, ?zlen_repeat; lia. }
    cbn [mbind outcome_bind]. eexists. split; [reflexivity|]. unfold pad.
    replace (repeat c (15 - k) ++ repeat c 16 ++ s) with
      (repeat c (Z.to_nat (32 - w)) ++ repeat c (Z.to_nat (w - zlen s)) ++ s).
    + apply shows_suffix; rewrite ?zlen_app, ?zlen_repeat; lia.
    + rewrite !app_assoc, <- !repeat_app. do 2 f_equal. lia.
Qed.

(** The loop writes all digits but the first, from the right. *)
Lemma dec_loop_ok k n value x c y s : (k < n)%nat -> zlen y = Z.of_nat k ->
  0 <= value < 10 ^ Z.of_nat (S k) -> (k = O \/ 10 ^ Z.of_nat k <= value) ->
  dec_loop n value (zlen (x ++ c :: y)) (x ++ c :: y ++ s) =
    Ok (value `div` 10 ^ Z.of_nat k, zlen x + 1, x ++ c :: radix 10 k value ++ s).
Proof.
  revert n value y s. induction k as [|k IH]; intros n value y s Hn Hy Hv Hk; (destruct n as [|n]; [lia|]); cbn [dec_loop].
  - destruct y; [|rewrite zlen_cons in Hy; pose proof (zlen_nonneg y); lia]. change (10 ^ Z.of_nat 1) with 10 in Hv.
    decide_if. change (10 ^ Z.of_nat 0) with 1. rewrite Z.div_1_r. do 3 f_equal. zl.
  - destruct Hk as [|Hk]; [done|]. rewrite !pow_S in Hv, Hk |- * by lia. pose proof (pow_pos 10 ltac:(lia) k). decide_if.
    destruct (split_at (Z.of_nat k) y) as (y' & z & -> & Hy' & Hz); [lia|].
    destruct z as [|d [|? z]]; [|clear Hz|rewrite !zlen_cons in Hz; pose proof (zlen_nonneg z)]; [rewrite (@zlen_nil Z) in Hz; lia| |lia].
    pose proof (mwrite_mid (x ++ c :: y') [d] s [48 + value `mod` 10] (zlen (x ++ c :: y' ++ [d]) - 1)) as E.
    rewrite <- !app_assoc in E. cbn [app] in E |- *. rewrite <- !app_assoc. cbn [app].
    rewrite E; [|zl..]. cbn [mbind outcome_bind].
    replace (zlen (x ++ c :: y' ++ [d]) - 1) with (zlen (x ++ c :: y')) by zl.
    rewrite IH; [|lia|done|split; [apply Z.div_pos; lia|apply Z.div_lt_upper_bound; lia]|].
    + rewrite Z.div_div by lia. do 3 f_equal. cbn [radix]. rewrite <- app_assoc. cbn [app].
      rewrite digit_char_decimal by (apply Z.mod_pos_bound; lia). done.
    + destruct k; [by left|right]. apply Z.div_le_lower_bound; lia.
Qed.

(** A view of the last bytes of a buffer of 32 bytes. *)
Lemma shows_tail (a b : list Z) pos : zlen (a ++ b) = 32 -> pos = zlen a ->
  shows {| piece_ := Digits pos (32 - pos); digits_ := a ++ b |} b.
Proof. intros Hl ->. rewrite zlen_app in Hl. apply shows_suffix; lia. Qed.

(** One byte before position [i], or [n] of them. *)
Lemma split_before n (x : list Z) : 0 <= n <= zlen x -> exists a b, x = a ++ b /\ zlen a = zlen x - n /\ zlen b = n.
Proof. intros Hn. destruct (split_at (zlen x - n) x) as (a & b & -> & Ha & Hb); [lia|]. exists a, b. split_and!; [done..|lia]. Qed.

Lemma mwrite_before x n t s i : i = zlen x - n -> zlen t = n -> n <= zlen x ->
  exists a, zlen a = zlen x - n /\ mwrite i t (x ++ s) = Ok (a ++ t ++ s).
Proof.
  intros -> Ht Hn. pose proof (zlen_nonneg t). destruct (split_before n x) as (a & b & -> & Ha & Hb); [lia|]. exists a. split; [done|].
  rewrite <- app_assoc. apply mwrite_mid; lia.
Qed.

(** The digits at the end of the buffer; the loop leaves the first of them. *)
Lemma dec_digits_ok value digits : 0 <= value < 2 ^ 64 -> zlen digits = 32 ->
  exists v0 x m, zlen x = 32 - zlen (to_decimal value) /\ zlen (to_decimal value) <= 20 /\
    dec_loop 20 value 32 digits = Ok (v0, zlen x + 1, m) /\ mwrite (zlen x) [48 + v0] m = Ok (x ++ to_decimal value).
Proof.
  intros Hv Hd. destruct (fast_uint64_prints value) as (s & Hs & _); [done|].
  assert (s = to_decimal value) as <- by (apply to_decimal_canonical; [done|lia]).
  destruct Hs as (k & -> & Hn & Hk). rewrite zlen_radix.
  assert (k <= 19)%nat as Hk19.
  { destruct Hk as [-> |Hk]; [lia|]. apply Nat.nlt_ge. intros Hlt.
    assert (10 ^ 20 <= 10 ^ Z.of_nat k) by (apply Z.pow_le_mono_r; lia). cbn in *. lia. }
  destruct (split_at (31 - Z.of_nat k) digits) as (x & y & -> & Hx & Hy); [lia|].
  destruct y as [|c y]; [rewrite (@zlen_nil Z) in Hy; lia|]. rewrite zlen_cons in Hy.
  pose proof (dec_loop_ok k 20 value x c y [] ltac:(lia) ltac:(lia) Hn Hk) as E. rewrite !app_nil_r, Hd in E.
  eexists _, x, _. split_and!; [lia..|exact E|].
  replace (radix 10 (S k) value) with ([48 + value `div` 10 ^ Z.of_nat k] ++ radix 10 k value).
  - apply (mwrite_mid x [c] (radix 10 k value) [_]); done.
  - change (S k) with (1 + k)%nat. rewrite (radix_app 10 ltac:(lia)), radix_mod by lia. f_equal.
    rewrite pow_S in Hn by lia. pose proof (pow_pos 10 ltac:(lia) k).
    assert (0 <= value `div` 10 ^ Z.of_nat k < 10) by (split; [apply Z.div_pos; lia|apply Z.div_lt_upper_bound; lia]).
    by rewrite radix_1, digit_char_decimal by lia.
Qed.

(** The sign, in front of the digits. *)
Lemma dec_sign_ok (neg : bool) x s : 1 <= zlen x ->
  exists x', zlen x' = zlen x - (if neg then 1 else 0) /\
    (if neg then digits ← mwrite (zlen x - 1) [45] (x ++ s); Ok (zlen x - 1, digits) else Ok (zlen x, x ++ s)) =
      Ok (zlen x', x' ++ (if neg then bs "-" else []) ++ s).
Proof.
  intros Hx. destruct neg.
  - destruct (mwrite_before x 1 [45] s (zlen x - 1)) as (a & Ha & ->); [done..|lia|]. exists a. split; [done|].
    cbn [mbind outcome_bind]. by rewrite Ha.
  - exists x. split; [lia|done].
Qed.

Lemma alpha_num_dec_ok v spec digits : - 2 ^ 63 <= v < 2 ^ 64 -> is_pad_spec spec = true -> zlen digits = kFastToBufferSize ->
  exists a, alpha_num_dec (new_dec v spec) digits = Ok a /\ shows a (padded_decimal (pad_width spec) (pad_fill spec) v).
Proof.
  unfold kFastToBufferSize. intros Hv Hs Hd. apply pad_width_range in Hs as [Hw Hf].
  assert (Eabs : (if 0 <=? v then u64 v else u64 (0 - u64 v)) = Z.abs v).
  { case_if; zbool; unfold u64; dlia. }
  unfold alpha_num_dec, new_dec, kFastToBufferSize, check. cbn [dec_value dec_width dec_fill dec_neg].
  rewrite Eabs. decide_if. cbn [mbind outcome_bind].
  destruct (dec_digits_ok (Z.abs v) digits) as (v0 & x & m & Hx & Hl & -> & Ew); [lia|done|]. cbn [mbind outcome_bind].
  replace (zlen x + 1 - 1) with (zlen x) by lia. rewrite Ew. cbn [mbind outcome_bind].
  set (s := to_decimal (Z.abs v)) in *. set (w := pad_width spec) in *. set (c := pad_fill spec) in *.
  destruct (dec_sign_ok (v <? 0) x s) as (x' & Hx' & ->); [lia|]. cbn [mbind outcome_bind].
  rewrite Z.sub_sub_distr. unfold padded_decimal, to_text. fold s. set (t := (if v <? 0 then bs "-" else []) ++ s).
  assert (zlen x' + zlen t = 32) as Ht by (subst t; rewrite zlen_app; destruct (v <? 0); cbn [bs]; zl).
  destruct (Z.lt_ge_cases (zlen t) w) as [Hfill|Hfull].
  - rewrite (proj2 (Z.ltb_lt 0 _)) by lia. destruct ((v <? 0) && (c =? 48)) eqn:Eadd.
    + apply andb_true_iff in Eadd as [En _]. subst t. rewrite En in *. rewrite zlen_app in Ht, Hfill. change (zlen (bs "-")) with 1 in *.
      set (n := zlen x' - 32 + w) in *.
      destruct (mwrite_before (x' ++ bs "-") n (repeat c (Z.to_nat n)) s (zlen x' + 1 - n)) as (a & Ha & E);
        [rewrite zlen_app; change (zlen (bs "-")) with 1; lia|rewrite zlen_repeat; lia|rewrite zlen_app; change (zlen (bs "-")) with 1; lia|].
      rewrite <- app_assoc in E. rewrite E. clear E. cbn [mbind outcome_bind].
      rewrite zlen_app in Ha. change (zlen (bs "-")) with 1 in Ha.
      destruct (mwrite_before a 1 [45] (repeat c (Z.to_nat n) ++ s) (zlen x' + 1 - n - 1)) as (a' & Ha' & ->); [lia|done|lia|].
      cbn [mbind outcome_bind]. eexists. split; [reflexivity|]. unfold pad.
      replace (w - 1 - zlen s) with n by lia. change (bs "-") with [45]. apply shows_tail; [rewrite !zlen_app, zlen_repeat; change (zlen [45]) with 1; lia|lia].
    + set (n := zlen x' - 32 + w) in *.
      destruct (mwrite_before x' n (repeat c (Z.to_nat n)) t (zlen x' - n)) as (a & Ha & ->); [done|rewrite zlen_repeat; lia|lia|].
      cbn [mbind outcome_bind]. eexists. split; [reflexivity|]. unfold pad. replace (w - zlen t) with n by lia.
      apply shows_tail; [rewrite !zlen_app, zlen_repeat; lia|lia].
  - rewrite (proj2 (Z.ltb_ge 0 _)) by lia. cbn [mbind outcome_bind]. eexists. split; [reflexivity|].
    assert ((if (v <? 0) && (c =? 48) then bs "-" ++ pad (w - 1) c s else pad w c t) = t) as ->.
    { case_if; [|by apply pad_long]. apply andb_true_iff in Heqb as [En _]. subst t. rewrite En in *. rewrite zlen_app in Hfull.
      change (zlen (bs "-")) with 1 in *. by rewrite pad_long by lia. }
    apply shows_tail; [rewrite zlen_app; lia|done].
Qed.

(** ** Concatenation *)

Lemma Append_ok x s a r : shows x s -> zlen s <= zlen r ->
  exists r', zlen r' = zlen r - zlen s /\ Append (zlen a) x (a ++ r) = Ok (zlen (a ++ s), (a ++ s) ++ r').
Proof.
  intros [Hb Hs] Hr. pose proof (zlen_nonneg s). unfold Append. rewrite Hs, Hb.
  destruct (split_at (zlen s) r) as (r1 & r2 & -> & H1 & H2); [lia|]. exists r2. split; [done|]. rewrite zlen_app.
  destruct (Z.eqb_spec (zlen s) 0) as [E|]; cbn [negb mbind outcome_bind].
  - assert (s = []) as -> by (by destruct s; [|rewrite zlen_cons in E; pose proof (zlen_nonneg s); lia]).
    assert (r1 = []) as -> by (by destruct r1; [|rewrite zlen_cons in H1; pose proof (zlen_nonneg r1); lia]). by rewrite app_nil_r.
  - rewrite mwrite_mid by lia. cbn [mbind outcome_bind]. by rewrite app_assoc.
Qed.

Lemma total_size_ok l ss : Forall2 shows l ss -> total_size l = zlen (concat ss).
Proof. induction 1 as [|x s l ss [_ Hx] _ IH]; [done|]. cbn [total_size foldr concat]. fold (total_size l). rewrite IH, Hx. zl. Qed.

Lemma append_all_ok l ss a r : Forall2 shows l ss -> zlen r = zlen (concat ss) ->
  append_all (zlen a) l (a ++ r) = Ok (zlen (a ++ concat ss), a ++ concat ss).
Proof.
  intros Hl. revert a r. induction Hl as [|x s l ss Hx _ IH]; intros a r Hr; cbn [append_all concat] in *.
  - destruct r; [by rewrite !app_nil_r|]. rewrite zlen_cons, (@zlen_nil Z) in Hr. pose proof (zlen_nonneg r). lia.
  - rewrite zlen_app in Hr. pose proof (zlen_nonneg (concat ss)).
    destruct (Append_ok x s a r Hx) as (r' & Hr' & ->); [lia|]. cbn [mbind outcome_bind]. rewrite IH by lia. by rewrite app_assoc.
Qed.

Section concatenation.
Context (fresh : Z -> list Z) (fresh_len : forall n, 0 <= n -> zlen (fresh n) = n).

Lemma append_pieces_ok dest l ss : Forall2 shows l ss -> append_pieces fresh dest l = Ok (dest ++ concat ss).
Proof using All.
  intros Hl. unfold append_pieces. rewrite (total_size_ok l ss) by done. pose proof (zlen_nonneg (concat ss)).
  rewrite (append_all_ok l ss) by (done || rewrite fresh_len; lia). cbn [mbind outcome_bind]. unfold check. by rewrite Z.eqb_refl.
Qed.

Lemma string_append_ok dest l ss : Forall2 shows l ss -> string_append fresh dest l = Ok (dest ++ concat ss).
Proof using All.
  intros Hl. pose proof (append_pieces_ok dest l ss Hl) as H. unfold string_append.
  destruct Hl as [|x s l ss [Hx _] [|]]; [by rewrite app_nil_r| |done]. rewrite Hx. cbn. by rewrite app_nil_r.
Qed.

Lemma string_cat_ok l ss : Forall2 shows l ss -> string_cat fresh l = Ok (concat ss).
Proof using All.
  intros Hl. pose proof (append_pieces_ok [] l ss Hl) as H. unfold string_cat.
  destruct Hl as [|x s l ss [Hx _] [|]]; [done| |done]. rewrite Hx. cbn. by rewrite app_nil_r.
Qed.

End concatenation.

(** What a caller passes, with the type of an integer. *)
Inductive arg : Type :=
| Text (s : list Z)
| Int (t : int_type) (x : Z)
| Hex (t : int_type) (v spec : Z)
| Dec (t : int_type) (v spec : Z).

(** The constructor of [alpha_num] that the argument selects. *)
Definition new_alpha_num (x : arg) (digits : list Z) : outcome alpha_num :=
  match x with
  | Text s => Ok {| piece_ := Outside s; digits_ := digits |}
  | Int t x => alpha_num_int t x digits
  | Hex t v spec => alpha_num_hex (new_hex t v spec) digits
  | Dec t v spec => alpha_num_dec (new_dec v spec) digits
  end.

Definition is_int_type (t : int_type) : Prop := int_size t ∈ [1; 2; 4; 8].

Definition arg_ok (x : arg) : Prop :=
  match x with
  | Text _ => True
  | Int t x => is_int_type t /\ in_type t x
  | Hex t v spec | Dec t v spec => is_int_type t /\ in_type t v /\ is_pad_spec spec = true
  end.

(** The text an argument stands for; a negative number in hexadecimal is its
    two's complement. *)
Definition arg_text (x : arg) : list Z :=
  match x with
  | Text s => s
  | Int t x => to_text x
  | Hex t v spec => pad (pad_width spec) (pad_fill spec) (to_hex (v `mod` 2 ^ (8 * int_size t)))
  | Dec t v spec => padded_decimal (pad_width spec) (pad_fill spec) v
  end.

Lemma in_type_64 t v : is_int_type t -> in_type t v -> - 2 ^ 63 <= v < 2 ^ 64.
Proof.
  unfold is_int_type, in_type. rewrite !elem_of_cons, elem_of_nil. intros Ht.
  destruct_or? Ht; try done; rewrite Ht; destruct (int_signed t); cbn; lia.
Qed.

Lemma new_alpha_num_ok x digits : arg_ok x -> zlen digits = kFastToBufferSize ->
  exists a, new_alpha_num x digits = Ok a /\ shows a (arg_text x).
Proof.
  intros Hx Hd. destruct x as [s|t x|t v spec|t v spec]; cbn [new_alpha_num arg_text arg_ok] in *.
  - eexists. split; [reflexivity|]. by split.
  - destruct Hx as [Ht Hx]. pose proof (zlen_to_text x). pose proof (zlen_nonneg (to_text x)). unfold kFastToBufferSize in Hd.
    unfold alpha_num_int. rewrite (fast_int_text t x Ht Hx) by lia. cbn [mbind outcome_bind]. eexists. split; [reflexivity|].
    split; [|done]. unfold bytes. cbn [piece_ digits_]. rewrite mread_ok by (rewrite ?zlen_splice; zl). f_equal. unfold part.
    rewrite Z.add_0_l. unfold splice. cbn [app]. change (ztake 0 digits) with (@nil Z). cbn [app].
    rewrite <- app_assoc. by apply ztake_app_exact.
  - destruct Hx as (Ht & Hv & Hs). pose proof (pad_width_range spec Hs) as [Hw _]. apply alpha_num_hex_ok; [|cbn; lia|done].
    cbn [hex_value new_hex]. unfold wrap. pose proof (Z.mod_pos_bound v (2 ^ (8 * int_size t))) as Hm.
    unfold is_int_type in Ht. rewrite !elem_of_cons, elem_of_nil in Ht.
    destruct_or? Ht; try done; rewrite Ht in *; cbn in *; lia.
  - destruct Hx as (Ht & Hv & Hs). apply alpha_num_dec_ok; [|done..]. by eapply in_type_64.
Qed.

(** C38: whatever the [digits_] buffers and the memory a string grows into
    contain, every argument (a text, an integer of any type, a padded
    hexadecimal or decimal number) is converted without a write outside of its
    buffer, and [string_append] and [string_cat] of any number of arguments
    return the concatenation of their texts: decimal numbers have no leading
    zeros, padding fills up to the width, zeros go behind the sign and spaces
    before it. *)
Theorem string_cat_texts fresh args digits dest :
  (forall n, 0 <= n -> zlen (fresh n) = n) ->
  Forall arg_ok args -> Forall2 (fun _ d => zlen d = kFastToBufferSize) args digits ->
  exists l, Forall2 (fun '(x, d) a => new_alpha_num x d = Ok a) (zip args digits) l /\
    string_append fresh dest l = Ok (dest ++ concat (map arg_text args)) /\
    string_cat fresh l = Ok (concat (map arg_text args)).
Proof.
  intros Hfresh Hargs Hdigits.
  assert (exists l, Forall2 (fun '(x, d) a => new_alpha_num x d = Ok a) (zip args digits) l /\ Forall2 shows l (map arg_text args)) as (l & Hl & Hs).
  { induction Hdigits as [|x d args digits Hd _ IH]; [by exists []; repeat constructor|].
    apply Forall_cons in Hargs as [Hx Hargs]. destruct (IH Hargs) as (l & Hl & Hs).
    destruct (new_alpha_num_ok x d Hx Hd) as (a & Ea & Ha). exists (a :: l). split; by constructor. }
  exists l. split_and!; [done|by apply string_append_ok|by apply string_cat_ok].
Qed.

Lemma string_cat_texts_witness :
  let i32 := {| int_signed := true; int_size := 4 |} in
  let args := [Text (bs "x="); Int i32 (-17); Hex i32 (-1) 12; Dec i32 (-42) 6; Dec i32 (-42) 70] in
  let buffers := repeat (repeat 7 32) 5 in
  let fresh n := repeat 9 (Z.to_nat n) in
  concat (map arg_text args) = bs "x=-170000ffffffff-00042   -42" /\
  exists l, Forall2 (fun '(x, d) a => new_alpha_num x d = Ok a) (zip args buffers) l /\
    string_append fresh (bs "> ") l = Ok (bs "> " ++ concat (map arg_text args)) /\
    string_cat fresh l = Ok (concat (map arg_text args)).
Proof.
  split; [vm_compute; reflexivity|].
  apply (string_cat_texts (fun n => repeat 9 (Z.to_nat n)) _ (repeat (repeat 7 32) 5) (bs "> ")).
  - intros n Hn. rewrite zlen_repeat. lia.
  - repeat constructor; vm_compute; try done; by repeat constructor.
  - repeat constructor.
Defined.
