(* ===== verification/Escaping.v ===== *)
(** * C escape sequences

    [escape], [hex_escape], [utf8_safe_escape], [utf8_safe_hex_escape],
    [unescape], [bytes_to_hex_string] and [hex_string_to_bytes] of
    [flare/strings/escaping.cc], with [EncodeUTF8Char] of
    [flare/strings/internal/utf8.cc].  [unescape] reads its source and writes
    its result through pointers, and source and result may be the same
    memory; the model keeps both, so that a write can change what is read
    later. *)

From S2P Require Import Prelude Bits Buffers Ascii Numbers StrCat.
Local Open Scope Z_scope.

Definition is_octal_digit (c : Z) : bool := (48 <=? c) && (c <=? 55).

Definition hex_digit_to_int (c : Z) : outcome Z :=
  _ ← check (is_hex_digit c);
  let x := if 57 <? c then c + 9 else c in
  Ok (Z.land x 0xF).

Definition IsSurrogate (c : Z) : bool := (0xD800 <=? c) && (c <=? 0xDFFF).

(** The bytes [EncodeUTF8Char] stores in [buffer[0]], [buffer[1]], ... *)
Definition EncodeUTF8Char (c : Z) : list Z :=
  let low c := u8 (Z.lor 0x80 (Z.land c 0x3F)) in
  if c <=? 0x7F then [u8 c]
  else if c <=? 0x7FF then [u8 (Z.lor 0xC0 (Z.shiftr c 6)); low c]
  else if c <=? 0xFFFF then [u8 (Z.lor 0xE0 (Z.shiftr (Z.shiftr c 6) 6)); low (Z.shiftr c 6); low c]
  else [u8 (Z.lor 0xF0 (Z.shiftr (Z.shiftr (Z.shiftr c 6) 6) 6)); low (Z.shiftr (Z.shiftr c 6) 6);
        low (Z.shiftr c 6); low c].

(** ** [CUnescapeInternal] *)

(** What an escape sequence does: it fails with the text stored in [*error],
    or leaves [p] at its last byte and [d] behind what it wrote; [m] is the
    memory of the result. *)
Inductive escape_result : Type :=
| Failed (error m : list Z)
| Wrote (p d : Z) (m : list Z).

Section unescape.
(** The source, whether the result is stored over it, and
    [leave_nulls_escaped]. *)
Context (source : list Z) (shared leave_nulls_escaped : bool).

Definition end_ : Z := zlen source.
Definition last_byte : Z := end_ - 1.

(** [*p]: the source, or the memory of the result if that is the same. *)
Definition fetch (m : list Z) (p : Z) : outcome Z := mget (if shared then m else source) p.

(** [std::string(start, p + 1 - start)] *)
Definition text_between (m : list Z) (start p : Z) : outcome (list Z) :=
  mread (if shared then m else source) start (p + 1 - start).

(** [*d++ = c] *)
Definition emit (c p d : Z) (m : list Z) : outcome escape_result :=
  m ← mwrite d [c] m; Ok (Wrote p (d + 1) m).

(** The copy of an escape sequence of a zero byte.  [memcpy] is undefined on
    ranges that overlap. *)
Definition copy_escape (start n p d : Z) (m : list Z) : outcome escape_result :=
  m ← mwrite d [92] m;
  let d := d + 1 in
  s ← mread (if shared then m else source) start n;
  _ ← (if shared && (d <? start + n) && (start <? d + n) then Undefined else Ok tt);
  m ← mwrite d s m;
  Ok (Wrote p (d + n) m).

(** [if (p < last_byte && is_octal_digit(p[1])) ch = ch * 8 + *++p - '0';] *)
Definition octal_step (m : list Z) (s : Z * Z) : outcome (Z * Z) :=
  let '(p, ch) := s in
  if p <? last_byte then
    c ← fetch m (p + 1);
    if is_octal_digit c then Ok (p + 1, u32 (ch * 8 + c - 48)) else Ok (p, ch)
  else Ok (p, ch).

Definition octal (c p d : Z) (m : list Z) : outcome escape_result :=
  let octal_start := p in
  s ← octal_step m (p, u32 (c - 48));
  '(p, ch) ← octal_step m s;
  if 0xff <? ch then
    t ← text_between m octal_start p;
    Ok (Failed (bs "Value of \" ++ t ++ bs " exceeds 0xff") m)
  else if (ch =? 0) && leave_nulls_escaped then copy_escape octal_start (p + 1 - octal_start) p d m
  else emit (u8 ch) p d m.

(** [while (p < last_byte && is_hex_digit(p[1])) ch = (ch << 4) + hex_digit_to_int( *++p);] *)
Fixpoint hex_digits (n : nat) (m : list Z) (p ch : Z) : outcome (Z * Z) :=
  match n with
  | O => Undefined
  | S n =>
      if p <? last_byte then
        c ← fetch m (p + 1);
        if is_hex_digit c then
          h ← hex_digit_to_int c;
          hex_digits n m (p + 1) (u32 (u32 (Z.shiftl ch 4) + h))
        else Ok (p, ch)
      else Ok (p, ch)
  end.

Definition hexadecimal (p d : Z) (m : list Z) : outcome escape_result :=
  if last_byte <=? p then Ok (Failed (bs "String cannot end with \x") m) else
  c ← fetch m (p + 1);
  if negb (is_hex_digit c) then Ok (Failed (bs "\x cannot be followed by a non-hex digit") m) else
  let hex_start := p in
  '(p, ch) ← hex_digits (length source) m p 0;
  if 0xFF <? ch then
    t ← text_between m hex_start p;
    Ok (Failed (bs "Value of \" ++ t ++ bs " exceeds 0xff") m)
  else if (ch =? 0) && leave_nulls_escaped then copy_escape hex_start (p + 1 - hex_start) p d m
  else emit (u8 ch) p d m.

(** The digits of a code point: [inl] an error, [inr] the code point. *)
Fixpoint u_digits (n : nat) (m : list Z) (hex_start p rune : Z) : outcome (list Z + Z * Z) :=
  match n with
  | O => Ok (inr (p, rune))
  | S n =>
      c ← fetch m (p + 1);
      if is_hex_digit c then
        h ← hex_digit_to_int c;
        u_digits n m hex_start (p + 1) (u32 (u32 (Z.shiftl rune 4) + h))
      else
        t ← text_between m hex_start p;
        Ok (inl (bs "\u must be followed by 4 hex digits: \" ++ t))
  end.

Fixpoint U_digits (n : nat) (m : list Z) (hex_start p rune : Z) : outcome (list Z + Z * Z) :=
  match n with
  | O => Ok (inr (p, rune))
  | S n =>
      c ← fetch m (p + 1);
      if is_hex_digit c then
        h ← hex_digit_to_int c;
        let newrune := u32 (u32 (Z.shiftl rune 4) + h) in
        let p := p + 1 in
        if 0x10FFFF <? newrune then
          t ← text_between m hex_start p;
          Ok (inl (bs "Value of \" ++ t ++ bs " exceeds Unicode limit (0x10FFFF)"))
        else U_digits n m hex_start p newrune
      else
        t ← text_between m hex_start p;
        Ok (inl (bs "\U must be followed by 8 hex digits: \" ++ t))
  end.

(** What follows the digits of a code point; [n] is the length of the
    sequence behind the backslash. *)
Definition code_point (hex_start n p rune d : Z) (m : list Z) : outcome escape_result :=
  if (rune =? 0) && leave_nulls_escaped then copy_escape hex_start n p d m
  else if IsSurrogate rune then
    t ← mread (if shared then m else source) hex_start n;
    Ok (Failed (bs "invalid surrogate character (0xD800-DFFF): \" ++ t) m)
  else
    let s := EncodeUTF8Char rune in
    m ← mwrite d s m; Ok (Wrote p (d + zlen s) m).

Definition unicode4 (p d : Z) (m : list Z) : outcome escape_result :=
  let hex_start := p in
  if end_ <=? p + 4 then
    t ← text_between m hex_start p;
    Ok (Failed (bs "\u must be followed by 4 hex digits: \" ++ t) m)
  else
    r ← u_digits 4 m hex_start p 0;
    match r with
    | inl e => Ok (Failed e m)
    | inr (p, rune) => code_point hex_start 5 p rune d m
    end.

Definition unicode8 (p d : Z) (m : list Z) : outcome escape_result :=
  let hex_start := p in
  if end_ <=? p + 8 then
    t ← text_between m hex_start p;
    Ok (Failed (bs "\U must be followed by 8 hex digits: \" ++ t) m)
  else
    r ← U_digits 8 m hex_start p 0;
    match r with
    | inl e => Ok (Failed e m)
    | inr (p, rune) => code_point hex_start 9 p rune d m
    end.

(** The letters that stand for one byte. *)
Definition simple_escape (c : Z) : option Z :=
  if c =? 97 then Some 7 else if c =? 98 then Some 8 else if c =? 102 then Some 12
  else if c =? 110 then Some 10 else if c =? 114 then Some 13 else if c =? 116 then Some 9
  else if c =? 118 then Some 11 else if c =? 92 then Some 92 else if c =? 63 then Some 63
  else if c =? 39 then Some 39 else if c =? 34 then Some 34 else None.

(** The [switch] behind a backslash, [p] at the letter. *)
Definition escape_sequence (p d : Z) (m : list Z) : outcome escape_result :=
  c ← fetch m p;
  match simple_escape c with
  | Some b => emit b p d m
  | None =>
      if is_octal_digit c then octal c p d m
      else if (c =? 120) || (c =? 88) then hexadecimal p d m
      else if c =? 117 then unicode4 p d m
      else if c =? 85 then unicode8 p d m
      else Ok (Failed (bs "Unknown escape sequence: \" ++ [c]) m)
  end.

(** [while (p == d && p < end && *p != '\\') p++, d++;] *)
Fixpoint skip_plain (n : nat) (m : list Z) (p d : Z) : outcome (Z * Z) :=
  match n with
  | O => Undefined
  | S n =>
      if shared && (p =? d) && (p <? end_) then
        c ← fetch m p;
        if c =? 92 then Ok (p, d) else skip_plain n m (p + 1) (d + 1)
      else Ok (p, d)
  end.

Fixpoint unescape_loop (n : nat) (p d : Z) (m : list Z) : outcome escape_result :=
  match n with
  | O => Undefined
  | S n =>
      if p <? end_ then
        c ← fetch m p;
        if negb (c =? 92) then
          m ← mwrite d [c] m; unescape_loop n (p + 1) (d + 1) m
        else
          let p := p + 1 in
          if last_byte <? p then Ok (Failed (bs "String cannot end with \") m) else
          r ← escape_sequence p d m;
          match r with
          | Failed e m => Ok (Failed e m)
          | Wrote p d m => unescape_loop n (p + 1) d m
          end
      else Ok (Wrote p d m)
  end.

(** [dest] points to the start of the memory [m]; every turn of the loops
    reads at least one byte of the source. *)
Definition CUnescapeInternal (m : list Z) : outcome escape_result :=
  '(p, d) ← skip_plain (S (length source)) m 0 0;
  unescape_loop (S (length source)) p d m.

End unescape.

Definition kUnescapeNulls : bool := false.

(** [CUnescapeInternal] on a string: whether it succeeds, [*dest] and [*error].
    [fresh] is what [string_resize_uninitialized] leaves in a string of the
    size of the source; a string that is the source itself keeps its
    contents. *)
Definition CUnescapeInternal_string (source : list Z) (shared leave_nulls_escaped : bool) (fresh : Z -> list Z)
    : outcome (bool * list Z * list Z) :=
  let dest := if shared then source else fresh (zlen source) in
  r ← CUnescapeInternal source shared leave_nulls_escaped dest;
  match r with
  | Failed error m => Ok (false, m, error)
  | Wrote _ dest_size m => Ok (true, ztake dest_size m, [])
  end.

Definition unescape (source : list Z) (shared : bool) (fresh : Z -> list Z) : outcome (bool * list Z * list Z) :=
  CUnescapeInternal_string source shared kUnescapeNulls fresh.

(** ** [CEscapeInternal] *)

Definition hex_char (i : Z) : outcome Z := mget kHexChar i.

Definition escape_byte (use_hex utf8_safe last_hex_escape : bool) (c : Z) : outcome (list Z * bool) :=
  if c =? 10 then Ok (bs "\n", false)
  else if c =? 13 then Ok (bs "\r", false)
  else if c =? 9 then Ok (bs "\t", false)
  else if c =? 34 then Ok ([92; 34], false)
  else if c =? 39 then Ok (bs "\'", false)
  else if c =? 92 then Ok (bs "\\", false)
  else if (negb utf8_safe || (c <? 0x80)) && (negb (is_print c) || (last_hex_escape && is_hex_digit c)) then
    if use_hex then
      h ← hex_char (c `div` 16); l ← hex_char (c `mod` 16);
      Ok (bs "\x" ++ [h] ++ [l], true)
    else
      a ← hex_char (c `div` 64); b ← hex_char (c `mod` 64 `div` 8); e ← hex_char (c `mod` 8);
      Ok (bs "\" ++ [a] ++ [b] ++ [e], false)
  else Ok ([c], false).

Fixpoint escape_loop (use_hex utf8_safe last_hex_escape : bool) (src dest : list Z) : outcome (list Z) :=
  match src with
  | [] => Ok dest
  | c :: src =>
      '(s, is_hex_escape) ← escape_byte use_hex utf8_safe last_hex_escape c;
      escape_loop use_hex utf8_safe is_hex_escape src (dest ++ s)
  end.

Definition CEscapeInternal (src : list Z) (use_hex utf8_safe : bool) : outcome (list Z) :=
  escape_loop use_hex utf8_safe false src [].

Definition c_escaped_len : list Z :=
  [4; 4; 4; 4; 4; 4; 4; 4; 4; 2; 2; 4; 4; 2; 4; 4;
   4; 4; 4; 4; 4; 4; 4; 4; 4; 4; 4; 4; 4; 4; 4; 4;
   1; 1; 2; 1; 1; 1; 1; 2; 1; 1; 1; 1; 1; 1; 1; 1;
   1; 1; 1; 1; 1; 1; 1; 1; 1; 1; 1; 1; 1; 1; 1; 1;
   1; 1; 1; 1; 1; 1; 1; 1; 1; 1; 1; 1; 1; 1; 1; 1;
   1; 1; 1; 1; 1; 1; 1; 1; 1; 1; 1; 1; 2; 1; 1; 1;
   1; 1; 1; 1; 1; 1; 1; 1; 1; 1; 1; 1; 1; 1; 1; 1;
   1; 1; 1; 1; 1; 1; 1; 1; 1; 1; 1; 1; 1; 1; 1; 4;
   4; 4; 4; 4; 4; 4; 4; 4; 4; 4; 4; 4; 4; 4; 4; 4;
   4; 4; 4; 4; 4; 4; 4; 4; 4; 4; 4; 4; 4; 4; 4; 4;
   4; 4; 4; 4; 4; 4; 4; 4; 4; 4; 4; 4; 4; 4; 4; 4;
   4; 4; 4; 4; 4; 4; 4; 4; 4; 4; 4; 4; 4; 4; 4; 4;
   4; 4; 4; 4; 4; 4; 4; 4; 4; 4; 4; 4; 4; 4; 4; 4;
   4; 4; 4; 4; 4; 4; 4; 4; 4; 4; 4; 4; 4; 4; 4; 4;
   4; 4; 4; 4; 4; 4; 4; 4; 4; 4; 4; 4; 4; 4; 4; 4;
   4; 4; 4; 4; 4; 4; 4; 4; 4; 4; 4; 4; 4; 4; 4; 4].

Fixpoint CEscapedLength (src : list Z) (escaped_len : Z) : outcome Z :=
  match src with
  | [] => Ok escaped_len
  | c :: src => n ← mget c_escaped_len c; CEscapedLength src (u64 (escaped_len + n))
  end.

(** The bytes stored for [c], by [char_len]; the [switch] of the middle case
    stores nothing for other bytes. *)
Definition escaped_bytes (char_len c : Z) : list Z :=
  if char_len =? 1 then [c]
  else if char_len =? 2 then
    if c =? 10 then [92; 110] else if c =? 13 then [92; 114] else if c =? 9 then [92; 116]
    else if c =? 34 then [92; 34] else if c =? 39 then [92; 39] else if c =? 92 then [92; 92]
    else []
  else [92; u8 (48 + c `div` 64); u8 (48 + c `mod` 64 `div` 8); u8 (48 + c `mod` 8)].

Fixpoint append_escaped (src : list Z) (append_ptr : Z) (m : list Z) : outcome (list Z) :=
  match src with
  | [] => Ok m
  | c :: src =>
      char_len ← mget c_escaped_len c;
      let s := escaped_bytes char_len c in
      m ← mwrite append_ptr s m;
      append_escaped src (append_ptr + zlen s) m
  end.

Definition CEscapeAndAppendInternal (fresh : Z -> list Z) (src dest : list Z) : outcome (list Z) :=
  escaped_len ← CEscapedLength src 0;
  if escaped_len =? zlen src then Ok (dest ++ src) else
  let cur_dest_len := zlen dest in
  append_escaped src cur_dest_len (dest ++ fresh escaped_len).

Definition escape (fresh : Z -> list Z) (src : list Z) : outcome (list Z) := CEscapeAndAppendInternal fresh src [].
Definition hex_escape (src : list Z) : outcome (list Z) := CEscapeInternal src true false.
Definition utf8_safe_escape (src : list Z) : outcome (list Z) := CEscapeInternal src false true.
Definition utf8_safe_hex_escape (src : list Z) : outcome (list Z) := CEscapeInternal src true true.

(** ** Bytes as hexadecimal text *)

Definition kHexValueLenient : list Z :=
  [0; 0; 0; 0; 0; 0; 0; 0; 0; 0; 0; 0; 0; 0; 0; 0;
   0; 0; 0; 0; 0; 0; 0; 0; 0; 0; 0; 0; 0; 0; 0; 0;
   0; 0; 0; 0; 0; 0; 0; 0; 0; 0; 0; 0; 0; 0; 0; 0;
   0; 1; 2; 3; 4; 5; 6; 7; 8; 9; 0; 0; 0; 0; 0; 0;
   0; 10; 11; 12; 13; 14; 15; 0; 0; 0; 0; 0; 0; 0; 0; 0;
   0; 0; 0; 0; 0; 0; 0; 0; 0; 0; 0; 0; 0; 0; 0; 0;
   0; 10; 11; 12; 13; 14; 15; 0; 0; 0; 0; 0; 0; 0; 0; 0;
   0; 0; 0; 0; 0; 0; 0; 0; 0; 0; 0; 0; 0; 0; 0; 0;
   0; 0; 0; 0; 0; 0; 0; 0; 0; 0; 0; 0; 0; 0; 0; 0;
   0; 0; 0; 0; 0; 0; 0; 0; 0; 0; 0; 0; 0; 0; 0; 0;
   0; 0; 0; 0; 0; 0; 0; 0; 0; 0; 0; 0; 0; 0; 0; 0;
   0; 0; 0; 0; 0; 0; 0; 0; 0; 0; 0; 0; 0; 0; 0; 0;
   0; 0; 0; 0; 0; 0; 0; 0; 0; 0; 0; 0; 0; 0; 0; 0;
   0; 0; 0; 0; 0; 0; 0; 0; 0; 0; 0; 0; 0; 0; 0; 0;
   0; 0; 0; 0; 0; 0; 0; 0; 0; 0; 0; 0; 0; 0; 0; 0;
   0; 0; 0; 0; 0; 0; 0; 0; 0; 0; 0; 0; 0; 0; 0; 0].

(** [to[i] = ...] for [i] below [num].  [i] is an [int], and so are [i * 2] and
    [i * 2 + 1]. *)
Fixpoint HexStringToBytesInternal (n : nat) (from : list Z) (i : Z) (m : list Z) : outcome (list Z) :=
  match n with
  | O => Ok m
  | S n =>
      _ ← (if 0x7FFFFFFF <? i * 2 + 1 then Undefined else Ok tt);
      a ← mget from (i * 2); h ← mget kHexValueLenient (Z.land a 0xFF);
      b ← mget from (i * 2 + 1); l ← mget kHexValueLenient (Z.land b 0xFF);
      m ← mwrite i [u8 (Z.shiftl h 4 + l)] m;
      HexStringToBytesInternal n from (i + 1) m
  end.

Definition hex_string_to_bytes (fresh : Z -> list Z) (from : list Z) : outcome (list Z) :=
  let num := zlen from `div` 2 in
  HexStringToBytesInternal (Z.to_nat num) from 0 (fresh num).

Fixpoint BytesToHexStringInternal (src : list Z) (dest_ptr : Z) (m : list Z) : outcome (list Z) :=
  match src with
  | [] => Ok m
  | c :: src =>
      s ← mread kHexTable (c * 2) 2;
      m ← mwrite dest_ptr s m;
      BytesToHexStringInternal src (dest_ptr + 2) m
  end.

Definition bytes_to_hex_string (fresh : Z -> list Z) (from : list Z) : outcome (list Z) :=
  BytesToHexStringInternal from 0 (fresh (2 * zlen from)).

(** ** What escape sequences stand for

    [decode_sequence s] reads the text behind a backslash: the bytes the
    sequence stands for and the text behind it, or why it is refused.  Octal
    digits are up to three, hexadecimal ones as many as follow; the value has
    to be that of a byte.  The code accumulates the latter in 32 bits, which is
    the same with the function [u32] applied to the value. *)

Inductive decoded : Type :=
| Bad (error : list Z)
| Good (out rest : list Z).

(** The longest prefix of at most [n] characters of a class. *)
Fixpoint run (P : Z -> bool) (n : nat) (s : list Z) : list Z :=
  match n, s with
  | S n, c :: s => if P c then c :: run P n s else []
  | _, _ => []
  end.

(** The shortest prefix whose value, after [v], exceeds the largest code
    point. *)
Fixpoint over_limit (v : Z) (ds : list Z) : option (list Z) :=
  match ds with
  | [] => None
  | c :: ds =>
      let v := v * 16 + ascii_to_int c in
      if 0x10FFFF <? v then Some [c] else (cons c) <$> over_limit v ds
  end.

(** The [n] digits of a code point behind the letter [c]. *)
Definition decode_point (c n : Z) (message s : list Z) : decoded :=
  let ds := run is_hex_digit (Z.to_nat n) s in
  let v := value_from 16 0 ds in
  if zlen s <? n then Bad (message ++ [c])
  else match over_limit 0 ds with
       | Some ds => Bad (bs "Value of \" ++ c :: ds ++ bs " exceeds Unicode limit (0x10FFFF)")
       | None =>
           if zlen ds <? n then Bad (message ++ c :: ds)
           else if IsSurrogate v then Bad (bs "invalid surrogate character (0xD800-DFFF): \" ++ c :: ds)
           else Good (EncodeUTF8Char v) (zdrop n s)
       end.

Definition decode_sequence_with (f : Z -> Z) (s : list Z) : decoded :=
  match s with
  | [] => Bad (bs "String cannot end with \")
  | c :: s' =>
      match simple_escape c with
      | Some b => Good [b] s'
      | None =>
          if is_octal_digit c then
            let ds := run is_octal_digit 3 s in
            let v := value_from 8 0 ds in
            if 0xff <? v then Bad (bs "Value of \" ++ ds ++ bs " exceeds 0xff") else Good [v] (zdrop (zlen ds) s)
          else if (c =? 120) || (c =? 88) then
            let ds := run is_hex_digit (length s') s' in
            let v := f (value_from 16 0 ds) in
            match s', ds with
            | [], _ => Bad (bs "String cannot end with \x")
            | _, [] => Bad (bs "\x cannot be followed by a non-hex digit")
            | _, _ => if 0xff <? v then Bad (bs "Value of \" ++ c :: ds ++ bs " exceeds 0xff") else Good [v] (zdrop (zlen ds) s')
            end
          else if c =? 117 then decode_point 117 4 (bs "\u must be followed by 4 hex digits: \") s'
          else if c =? 85 then decode_point 85 8 (bs "\U must be followed by 8 hex digits: \") s'
          else Bad (bs "Unknown escape sequence: \" ++ [c])
      end
  end.

(** A text and what it stands for: the error of its first bad sequence, or
    its bytes. *)
Inductive decodes_with (f : Z -> Z) : list Z -> list Z + list Z -> Prop :=
| decodes_nil : decodes_with f [] (inr [])
| decodes_plain c s r : c <> 92 -> decodes_with f s r -> decodes_with f (c :: s) (match r with inr out => inr (c :: out) | inl e => inl e end)
| decodes_bad s e : decode_sequence_with f s = Bad e -> decodes_with f (92 :: s) (inl e)
| decodes_good s out rest r : decode_sequence_with f s = Good out rest -> decodes_with f rest r ->
    decodes_with f (92 :: s) (match r with inr out' => inr (out ++ out') | inl e => inl e end).

Definition decode_sequence : list Z -> decoded := decode_sequence_with (fun v => v).
Definition decodes : list Z -> list Z + list Z -> Prop := decodes_with (fun v => v).

Lemma decodes_functional f s r r' : decodes_with f s r -> decodes_with f s r' -> r = r'.
Proof.
  intros H. revert r'. induction H as [|c s r Hc _ IH|s e He|s out rest r Hs _ IH]; intros r' H'.
  - by inversion H'.
  - inversion H'; subst; [|done..]. by rewrite (IH r0).
  - inversion H'; subst; [done|congruence|congruence].
  - inversion H'; subst; [done|congruence|]. assert (out0 = out /\ rest0 = rest) as [-> ->] by (split; congruence). by rewrite (IH r0).
Qed.

(** The first bad sequence of a text is a hexadecimal one whose value is no byte
    but has a byte as its lower 32 bits. *)
Inductive wraps : list Z -> Prop :=
| wraps_here c s : c = 120 \/ c = 88 -> 0xff < value_from 16 0 (run is_hex_digit (length s) s) -> u32 (value_from 16 0 (run is_hex_digit (length s) s)) <= 0xff ->
    wraps (92 :: c :: s)
| wraps_plain c s : c <> 92 -> wraps s -> wraps (c :: s)
| wraps_after s out rest : decode_sequence s = Good out rest -> wraps rest -> wraps (92 :: s).

(** ** Digits *)

Lemma run_split P n s : s = run P n s ++ zdrop (zlen (run P n s)) s.
Proof.
  revert s. induction n as [|n IH]; intros [|c s]; cbn [run]; try done. destruct (P c); [|done].
  rewrite zlen_cons. cbn [app]. f_equal. rewrite (IH s) at 1. f_equal.
  unfold zdrop. replace (Z.to_nat (zlen (run P n s) + 1)) with (S (Z.to_nat (zlen (run P n s)))) by (pose proof (zlen_nonneg (run P n s)); lia). done.
Qed.

Lemma run_forall P n s : Forall (fun c => P c = true) (run P n s).
Proof. revert s. induction n as [|n IH]; intros [|c s]; cbn [run]; try constructor. destruct (P c) eqn:E; by constructor. Qed.

Lemma run_length P n s : zlen (run P n s) <= Z.of_nat n.
Proof.
  revert s. induction n as [|n IH]; intros [|c s]; cbn [run]; rewrite ?(@zlen_nil Z); try lia.
  destruct (P c); rewrite ?zlen_cons, ?(@zlen_nil Z); [specialize (IH s)|]; lia.
Qed.

Lemma hex_digit_ok c : is_hex_digit c = true -> 0 <= c < 256 -> hex_digit_to_int c = Ok (ascii_to_int c) /\ 0 <= ascii_to_int c < 16.
Proof.
  intros Hc Hb. unfold hex_digit_to_int, check. rewrite Hc. cbn [mbind outcome_bind].
  assert (negb (is_hex_digit c) || ((Z.land (if 57 <? c then c + 9 else c) 15 =? ascii_to_int c) && (ascii_to_int c <? 16)) = true) as H
    by (clear Hc; revert c Hb; apply byte_check; vm_compute; reflexivity).
  rewrite Hc in H. cbn [negb orb] in H. pose proof (ascii_to_int_range c). zbool. split; [by f_equal|lia].
Qed.

Lemma octal_digit_ok c : is_octal_digit c = true -> 0 <= c - 48 < 8 /\ ascii_to_int c = c - 48 /\ (c =? 92) = false.
Proof.
  unfold is_octal_digit. intros H. zbool.
  assert (c = 48 \/ c = 49 \/ c = 50 \/ c = 51 \/ c = 52 \/ c = 53 \/ c = 54 \/ c = 55) as Hc by lia.
  by destruct_or! Hc; subst c.
Qed.

(** One more digit of a 32-bit value. *)
Lemma shift_in v h : u32 (u32 (Z.shiftl v 4) + h) = u32 (v * 16 + h).
Proof. rewrite Z.shiftl_mul_pow2 by lia. unfold u32. change (2 ^ 4) with 16. by rewrite Zplus_mod_idemp_l. Qed.

Lemma u32_fold ds v : u32 (value_from 16 (u32 v) ds) = u32 (value_from 16 v ds).
Proof.
  revert v. induction ds as [|c ds IH]; intros v; unfold value_from; cbn [fold_left].
  - unfold u32. by rewrite Zmod_mod.
  - fold (value_from 16 (u32 v * 16 + ascii_to_int c) ds). fold (value_from 16 (v * 16 + ascii_to_int c) ds).
    rewrite <- (IH (u32 v * 16 + _)), <- (IH (v * 16 + _)). f_equal. f_equal. unfold u32.
    by rewrite <- Zplus_mod_idemp_l, Zmult_mod_idemp_l, Zplus_mod_idemp_l.
Qed.

(** ** Reading and writing in one memory *)

Lemma zdrop_splice_ge q d s m : 0 <= d -> d + zlen s <= q -> q <= zlen m -> zdrop q (splice d s m) = zdrop q m.
Proof.
  intros Hd Hq Hm. pose proof (zlen_nonneg s). unfold splice.
  rewrite app_assoc, zdrop_app_ge; rewrite zlen_app, zlen_ztake; try lia.
  rewrite zdrop_zdrop by lia. f_equal. lia.
Qed.

Lemma zdrop_head {A} p (s : list A) c rest : 0 <= p -> zdrop p s = c :: rest ->
  zget s p = Some c /\ zdrop (p + 1) s = rest /\ p + 1 + zlen rest = zlen s.
Proof.
  intros Hp E. assert (p < zlen s).
  { apply Z.nle_gt. intros H. by rewrite zdrop_all in E. }
  assert (s = ztake p s ++ c :: rest) as Es by (rewrite <- E; symmetry; apply ztake_zdrop).
  assert (zlen (ztake p s) = p) as Hl by (apply zlen_ztake; lia).
  split_and!.
  - rewrite Es, zget_app_r by lia. rewrite Hl, Z.sub_diag. done.
  - rewrite <- zdrop_zdrop, E by lia. done.
  - rewrite Es at 1. rewrite zlen_app, zlen_cons, Hl. lia.
Qed.

Lemma zdrop_nil {A} p (s : list A) : 0 <= p <= zlen s -> zdrop p s = [] -> zlen s = p.
Proof. intros Hp E. apply (f_equal zlen) in E. rewrite zlen_zdrop in E by lia. change (zlen (@nil A)) with 0 in E. lia. Qed.

Lemma part_prefix start (s a b : list Z) : zdrop start s = a ++ b -> part start (zlen a) s = a.
Proof. intros E. unfold part. rewrite E. by apply ztake_app_exact. Qed.

Section refinement.
Context (source : list Z) (shared : bool) (Hbytes : bytes_ok source).

Notation fetch := (fetch source shared).

(** The bytes from [p] on have not been overwritten. *)
Record inv (p d : Z) (m : list Z) : Prop := {
  inv_d : 0 <= d <= p;
  inv_p : p <= zlen source;
  inv_m : zlen m = zlen source;
  inv_tail : shared = true -> zdrop p m = zdrop p source }.

Lemma inv_fetch p d m q c rest : inv p d m -> p <= q -> zdrop q source = c :: rest ->
  fetch m q = Ok c /\ zdrop (q + 1) source = rest /\ q + 1 + zlen rest = zlen source /\ byte_ok c.
Proof using All.
  intros [Hd Hp Hm Ht] Hq E. destruct (zdrop_head q source c rest) as (Hg & Hr & Hl); [lia|done|].
  split_and!; [|done..|by eapply bytes_ok_get].
  apply mget_ok. destruct shared; [|done].
  assert (zdrop q m = c :: rest) as Em.
  { rewrite <- E. replace q with (p + (q - p)) by lia. rewrite <- !zdrop_zdrop, Ht by lia. done. }
  by apply zdrop_head in Em as [? _]; [|lia].
Qed.

Lemma inv_text p d m a b : inv p d m -> zdrop p source = a ++ b -> mread (if shared then m else source) p (zlen a) = Ok a.
Proof.
  intros [Hd Hp Hm Ht] E. pose proof (zlen_nonneg a). assert (p + zlen a <= zlen source).
  { apply (f_equal zlen) in E. rewrite zlen_zdrop, zlen_app in E by lia. pose proof (zlen_nonneg b). lia. }
  destruct shared; rewrite mread_ok by lia; f_equal; eapply part_prefix; [|exact E]. by rewrite Ht.
Qed.

Lemma inv_text_between p d m a b q : inv p d m -> zdrop p source = a ++ b -> q = p + zlen a - 1 -> text_between source shared m p q = Ok a.
Proof. intros Hi E ->. unfold text_between. replace (p + zlen a - 1 + 1 - p) with (zlen a) by lia. by eapply inv_text. Qed.

Lemma inv_wrote p d m q s : inv p d m -> p <= q <= zlen source -> d + zlen s <= q ->
  mwrite d s m = Ok (splice d s m) /\ inv q (d + zlen s) (splice d s m).
Proof.
  intros [Hd Hp Hm Ht] Hq Hs. pose proof (zlen_nonneg s). split; [apply mwrite_ok; lia|]. split; [lia..|rewrite zlen_splice; lia|].
  intros Hsh. rewrite zdrop_splice_ge by lia. replace q with (p + (q - p)) by lia. rewrite <- !zdrop_zdrop, Ht by (done || lia). done.
Qed.

(** ** The loops over digits *)

Lemma hex_digits_ok p0 d m n p ch t : inv p0 d m -> p0 <= p -> zdrop (p + 1) source = t -> p < zlen source ->
  zlen t < Z.of_nat n -> ch = u32 ch ->
  let ds := run is_hex_digit (length t) t in
  hex_digits source shared n m p ch = Ok (p + zlen ds, u32 (value_from 16 ch ds)).
Proof using All.
  intros Hi. revert p ch t. induction n as [|n IH]; intros p ch t Hp Et Hpe Hn Hch; [pose proof (zlen_nonneg t); lia|].
  cbn [hex_digits]. unfold last_byte, end_. destruct t as [|c t]; cbn [run length].
  - assert (zlen source = p + 1) as Hl by (apply (zdrop_nil (p + 1)); [destruct Hi; lia|done]).
    rewrite (proj2 (Z.ltb_ge _ _)) by lia. rewrite (@zlen_nil Z), Z.add_0_r. unfold value_from. cbn. by rewrite <- Hch.
  - destruct (inv_fetch p0 d m (p + 1) c t Hi) as (Ef & Er & Hl & Hb); [lia|done|]. pose proof (zlen_nonneg t).
    rewrite (proj2 (Z.ltb_lt _ _)) by lia. rewrite Ef. cbn [mbind outcome_bind].
    destruct (is_hex_digit c) eqn:Ec.
    + destruct (hex_digit_ok c Ec Hb) as [-> _]. cbn [mbind outcome_bind]. rewrite shift_in.
      rewrite zlen_cons in Hn. rewrite (IH (p + 1) _ t) by (done || lia || (unfold u32; by rewrite Zmod_mod)).
      rewrite u32_fold, zlen_cons. do 2 f_equal. lia.
    + rewrite (@zlen_nil Z), Z.add_0_r. unfold value_from. cbn. by rewrite <- Hch.
Qed.

(** The two optional digits of an octal sequence. *)
Lemma octal_step_ok p0 d m p ch t : inv p0 d m -> p0 <= p -> zdrop (p + 1) source = t -> p < zlen source -> 0 <= ch < 64 ->
  let ds := run is_octal_digit 1 t in
  octal_step source shared m (p, ch) = Ok (p + zlen ds, value_from 8 ch ds) /\ 0 <= value_from 8 ch ds < 8 * ch + 8.
Proof using All.
  intros Hi Hp Et Hpe Hch. unfold octal_step, last_byte, end_. destruct t as [|c t]; cbn [run].
  - assert (zlen source = p + 1) as Hl by (apply (zdrop_nil (p + 1)); [destruct Hi; lia|done]).
    rewrite (proj2 (Z.ltb_ge _ _)) by lia. rewrite (@zlen_nil Z), Z.add_0_r. unfold value_from. cbn. split; [done|lia].
  - destruct (inv_fetch p0 d m (p + 1) c t Hi) as (Ef & Er & Hl & Hb); [lia|done|]. pose proof (zlen_nonneg t).
    rewrite (proj2 (Z.ltb_lt _ _)) by lia. rewrite Ef. cbn [mbind outcome_bind].
    destruct (is_octal_digit c) eqn:Ec; unfold value_from; cbn [fold_left].
    + destruct (octal_digit_ok c Ec) as (Hc & -> & _). rewrite u32_small by lia. rewrite zlen_cons, (@zlen_nil Z). split; [do 2 f_equal; lia|lia].
    + rewrite (@zlen_nil Z), Z.add_0_r. split; [done|lia].
Qed.

Lemma u_digits_ok p0 d m n p rune t pre : inv p0 d m -> zdrop p0 source = pre ++ t -> p = p0 + zlen pre - 1 -> 1 <= zlen pre ->
  Z.of_nat n <= zlen t -> 0 <= rune -> (rune + 1) * 16 ^ Z.of_nat n <= 65536 ->
  let ds := run is_hex_digit n t in
  u_digits source shared n m p0 p rune =
    Ok (if zlen ds <? Z.of_nat n then inl (bs "\u must be followed by 4 hex digits: \" ++ pre ++ ds)
        else inr (p + Z.of_nat n, value_from 16 rune ds)).
Proof using All.
  intros Hi. revert p rune t pre. induction n as [|n IH]; intros p rune t pre Et Hp Hpre Hn Hr Hb; cbn [u_digits run].
  { unfold value_from. cbn. by rewrite Z.add_0_r. }
  destruct t as [|c t]; [rewrite (@zlen_nil Z) in Hn; lia|]. rewrite zlen_cons in Hn. rewrite pow_S in Hb by lia. pose proof (pow_pos 16 ltac:(lia) n).
  assert (zdrop (p + 1) source = c :: t) as Ec.
  { destruct Hi. replace (p + 1) with (p0 + zlen pre) by lia. rewrite <- zdrop_zdrop, Et by lia. by apply zdrop_app_exact. }
  destruct (inv_fetch p0 d m (p + 1) c t Hi) as (-> & _ & _ & Hc); [lia|done|]. cbn [mbind outcome_bind].
  destruct (is_hex_digit c) eqn:Eh.
  - destruct (hex_digit_ok c Eh Hc) as [-> Hd]. cbn [mbind outcome_bind]. rewrite shift_in, u32_small by nia.
    rewrite (IH (p + 1) _ t (pre ++ [c])); [|by rewrite <- app_assoc|zl|zl|lia|nia|nia]. rewrite zlen_cons, Nat2Z.inj_succ, <- app_assoc.
    f_equal. destruct (Z.ltb_spec (zlen (run is_hex_digit n t)) (Z.of_nat n)); [by rewrite (proj2 (Z.ltb_lt _ _)) by lia|].
    rewrite (proj2 (Z.ltb_ge _ _)) by lia. unfold value_from. cbn [fold_left]. do 2 f_equal. lia.
  - rewrite (inv_text_between p0 d m pre (c :: t)) by done. cbn [mbind outcome_bind]. rewrite (@zlen_nil Z), app_nil_r.
    rewrite (proj2 (Z.ltb_lt _ _)) by lia. done.
Qed.

Lemma U_digits_ok p0 d m n p rune t pre : inv p0 d m -> zdrop p0 source = pre ++ t -> p = p0 + zlen pre - 1 -> 1 <= zlen pre ->
  Z.of_nat n <= zlen t -> 0 <= rune <= 0x10FFFF ->
  let ds := run is_hex_digit n t in
  U_digits source shared n m p0 p rune =
    Ok (match over_limit rune ds with
        | Some o => inl (bs "Value of \" ++ (pre ++ o) ++ bs " exceeds Unicode limit (0x10FFFF)")
        | None => if zlen ds <? Z.of_nat n then inl (bs "\U must be followed by 8 hex digits: \" ++ pre ++ ds)
                  else inr (p + Z.of_nat n, value_from 16 rune ds)
        end).
Proof using All.
  intros Hi. revert p rune t pre. induction n as [|n IH]; intros p rune t pre Et Hp Hpre Hn Hr; cbn [U_digits run over_limit].
  { unfold value_from. cbn. by rewrite Z.add_0_r. }
  destruct t as [|c t]; [rewrite (@zlen_nil Z) in Hn; lia|]. rewrite zlen_cons in Hn.
  assert (zdrop (p + 1) source = c :: t) as Ec.
  { destruct Hi. replace (p + 1) with (p0 + zlen pre) by lia. rewrite <- zdrop_zdrop, Et by lia. by apply zdrop_app_exact. }
  destruct (inv_fetch p0 d m (p + 1) c t Hi) as (-> & _ & _ & Hc); [lia|done|]. cbn [mbind outcome_bind].
  destruct (is_hex_digit c) eqn:Eh; cbn [over_limit].
  - destruct (hex_digit_ok c Eh Hc) as [-> Hd]. cbn [mbind outcome_bind]. rewrite shift_in, u32_small by lia.
    destruct (0x10FFFF <? rune * 16 + ascii_to_int c) eqn:El; zbool.
    { rewrite (inv_text_between p0 d m (pre ++ [c]) t); [done|done|by rewrite <- app_assoc|zl]. }
    rewrite (IH (p + 1) _ t (pre ++ [c])); [|by rewrite <- app_assoc|zl|zl|lia|lia]. rewrite zlen_cons, Nat2Z.inj_succ, <- app_assoc.
    f_equal. destruct (over_limit _ _) as [o|]; cbn [fmap option_fmap option_map]; [by rewrite <- !app_assoc|].
    destruct (Z.ltb_spec (zlen (run is_hex_digit n t)) (Z.of_nat n)); [by rewrite (proj2 (Z.ltb_lt _ _)) by lia|].
    rewrite (proj2 (Z.ltb_ge _ _)) by lia. unfold value_from. cbn [fold_left]. do 2 f_equal. lia.
  - rewrite (inv_text_between p0 d m pre (c :: t)) by done. cbn [mbind outcome_bind]. rewrite (@zlen_nil Z), app_nil_r.
    rewrite (proj2 (Z.ltb_lt _ _)) by lia. done.
Qed.

(** ** The escape sequences *)

(** The code at the letter behind a backslash, at [p], does what the sequence
    stands for; the backslash leaves [d] before [p]. *)
Definition does (p d : Z) (m : list Z) (r : outcome escape_result) (x : decoded) : Prop :=
  match x with
  | Bad e => r = Ok (Failed e m)
  | Good out rest =>
      exists p', r = Ok (Wrote p' (d + zlen out) (splice d out m)) /\ p <= p' < zlen source /\
        zdrop (p' + 1) source = rest /\ d + zlen out <= p' + 1
  end.

Lemma emit_does p d m p' c rest : inv p d m -> d < p -> p <= p' < zlen source -> zdrop (p' + 1) source = rest ->
  does p d m (emit c p' d m) (Good [c] rest).
Proof.
  intros Hi Hd Hp' Hr. destruct (inv_wrote p d m p [c] Hi) as [Ew _]; [lia|change (zlen [c]) with 1; lia|].
  exists p'. unfold emit. rewrite Ew. split_and!; [done|lia..|done|change (zlen [c]) with 1; lia].
Qed.

Lemma octal_run c s : is_octal_digit c = true ->
  let ds1 := run is_octal_digit 1 s in
  let ds2 := run is_octal_digit 1 (zdrop (zlen ds1) s) in
  run is_octal_digit 3 (c :: s) = c :: ds1 ++ ds2.
Proof.
  intros Hc. cbn [run]. rewrite Hc. f_equal. destruct s as [|c1 s]; [done|]. destruct (is_octal_digit c1) eqn:E1.
  - change (zdrop (zlen [c1]) (c1 :: s)) with s. done.
  - change (zdrop (zlen []) (c1 :: s)) with (c1 :: s). cbn [run app]. by rewrite E1.
Qed.

Lemma octal_does p d m c s : inv p d m -> d < p -> zdrop p source = c :: s -> is_octal_digit c = true ->
  does p d m (octal source shared false c p d m)
    (let ds := run is_octal_digit 3 (c :: s) in
     let v := value_from 8 0 ds in
     if 0xff <? v then Bad (bs "Value of \" ++ ds ++ bs " exceeds 0xff") else Good [v] (zdrop (zlen ds) (c :: s))).
Proof using All.
  intros Hi Hd Ec Hc. rewrite octal_run by done. set (ds1 := run is_octal_digit 1 s). set (ds2 := run is_octal_digit 1 (zdrop (zlen ds1) s)).
  pose proof (zlen_nonneg ds1). pose proof (zlen_nonneg ds2). pose proof (octal_digit_ok c Hc) as (Hv & Hval & _).
  destruct (inv_fetch p d m p c s Hi) as (_ & Es & Hl & _); [lia|done|]. pose proof (inv_d _ _ _ Hi).
  assert (s = ds1 ++ zdrop (zlen ds1) s) as Es1 by apply run_split.
  assert (zdrop (zlen ds1) s = ds2 ++ zdrop (zlen ds2) (zdrop (zlen ds1) s)) as Es2 by apply run_split.
  assert (zlen ds1 + zlen ds2 <= zlen s) as Hlen.
  { apply (f_equal zlen) in Es1, Es2. rewrite zlen_app in Es1, Es2. pose proof (zlen_nonneg (zdrop (zlen ds2) (zdrop (zlen ds1) s))). lia. }
  unfold octal. rewrite u32_small by lia.
  destruct (octal_step_ok p d m p (c - 48) s Hi) as [E1 R1]; [lia|done|lia..|]. fold ds1 in E1, R1. rewrite E1. cbn [mbind outcome_bind].
  assert (zdrop (p + zlen ds1 + 1) source = zdrop (zlen ds1) s) as Et by (rewrite <- Es, zdrop_zdrop by lia; f_equal; lia).
  destruct (octal_step_ok p d m (p + zlen ds1) (value_from 8 (c - 48) ds1) (zdrop (zlen ds1) s) Hi) as [E2 R2]; [lia|done|lia..|].
  fold ds2 in E2, R2. rewrite E2. cbn [mbind outcome_bind].
  assert (value_from 8 0 (c :: ds1 ++ ds2) = value_from 8 (value_from 8 (c - 48) ds1) ds2) as ->.
  { rewrite <- value_from_app. unfold value_from at 1. cbn [fold_left]. by rewrite Hval. }
  cbv zeta. set (v := value_from 8 (value_from 8 (c - 48) ds1) ds2) in *. rewrite andb_false_r.
  case_if; zbool.
  - rewrite (inv_text_between p d m (c :: ds1 ++ ds2) (zdrop (zlen ds2) (zdrop (zlen ds1) s))); [done|done| |zl].
    rewrite Ec. cbn [app]. f_equal. rewrite <- app_assoc, <- Es2. done.
  - rewrite u8_small by lia. apply emit_does; [done..|lia|]. rewrite <- Ec, zdrop_zdrop by (pose proof (zlen_nonneg (c :: ds1 ++ ds2)); lia).
    f_equal. rewrite zlen_cons, zlen_app. lia.
Qed.

Lemma hexadecimal_does p d m c s : inv p d m -> d < p -> zdrop p source = c :: s ->
  does p d m (hexadecimal source shared false p d m)
    (let ds := run is_hex_digit (length s) s in
     let v := u32 (value_from 16 0 ds) in
     match s, ds with
     | [], _ => Bad (bs "String cannot end with \x")
     | _, [] => Bad (bs "\x cannot be followed by a non-hex digit")
     | _, _ => if 0xff <? v then Bad (bs "Value of \" ++ c :: ds ++ bs " exceeds 0xff") else Good [v] (zdrop (zlen ds) s)
     end).
Proof using All.
  intros Hi Hd Ec. destruct (inv_fetch p d m p c s Hi) as (_ & Es & Hl & _); [lia|done|]. pose proof (inv_d _ _ _ Hi).
  unfold hexadecimal, last_byte, end_. pose proof (hex_digits_ok p d m (length source) p 0 s Hi) as Hh.
  assert (s = run is_hex_digit (length s) s ++ zdrop (zlen (run is_hex_digit (length s) s)) s) as Esp by apply run_split.
  destruct s as [|c1 s]; [rewrite (@zlen_nil Z) in Hl; by rewrite (proj2 (Z.leb_le _ _)) by lia|].
  pose proof (zlen_nonneg s). rewrite zlen_cons in Hl. rewrite (proj2 (Z.leb_gt _ _)) by lia.
  destruct (inv_fetch p d m (p + 1) c1 s Hi) as (Ef & _); [lia|done|]. rewrite Ef. cbn [mbind outcome_bind].
  destruct (is_hex_digit c1) eqn:E1; [|by cbn [run length]; rewrite E1].
  cbn [negb]. rewrite Hh by (done || lia || (rewrite zlen_cons; unfold zlen in *; lia)). clear Hh. cbn [mbind outcome_bind].
  set (ds := run is_hex_digit (length (c1 :: s)) (c1 :: s)) in *.
  destruct ds as [|c1' ds'] eqn:Eds; [by subst ds; cbn [run length] in Eds; rewrite E1 in Eds|]. rewrite <- Eds in *. clear Eds.
  pose proof (zlen_nonneg ds). pose proof (u32_range (value_from 16 0 ds)).
  assert (zlen ds <= zlen s + 1).
  { apply (f_equal zlen) in Esp. rewrite zlen_cons, zlen_app in Esp. pose proof (zlen_nonneg (zdrop (zlen ds) (c1 :: s))). lia. }
  rewrite andb_false_r. case_if; zbool.
  - rewrite (inv_text_between p d m (c :: ds) (zdrop (zlen ds) (c1 :: s))); [done|done|rewrite Ec; cbn [app]; by rewrite <- Esp|zl].
  - rewrite u8_small by lia. apply emit_does; [done..|lia|]. rewrite <- Es, zdrop_zdrop by lia. f_equal. lia.
Qed.

Lemma zlen_utf8 v : zlen (EncodeUTF8Char v) <= 4.
Proof. unfold EncodeUTF8Char. repeat case_if; cbn [zlen]; zl. Qed.

Lemma code_point_does p d m c ds rest n v : inv p d m -> d < p -> zdrop p source = (c :: ds) ++ rest -> zlen ds = n -> 4 <= n ->
  does p d m (code_point source shared false p (n + 1) (p + n) v d m)
    (if IsSurrogate v then Bad (bs "invalid surrogate character (0xD800-DFFF): \" ++ c :: ds) else Good (EncodeUTF8Char v) rest).
Proof using All.
  intros Hi Hd Ec Hn H4. pose proof (inv_d _ _ _ Hi). pose proof (zlen_nonneg rest). unfold code_point. rewrite andb_false_r.
  assert (p + (n + 1) + zlen rest = zlen source) as Hl.
  { apply (f_equal zlen) in Ec. rewrite zlen_zdrop, zlen_app, zlen_cons in Ec by (destruct Hi; lia). lia. }
  case_if.
  - replace (n + 1) with (zlen (c :: ds)) by zl. by rewrite (inv_text p d m (c :: ds) rest).
  - pose proof (zlen_utf8 v). destruct (inv_wrote p d m (p + n + 1) (EncodeUTF8Char v) Hi) as [-> _]; [lia..|].
    exists (p + n). split_and!; [done|lia..| |lia].
    replace (p + n + 1) with (p + zlen (c :: ds)) by zl. rewrite <- zdrop_zdrop, Ec by (lia || apply zlen_nonneg). by apply zdrop_app_exact.
Qed.

Lemma over_limit_small v ds : 0 <= v -> Forall (fun c => is_hex_digit c = true /\ byte_ok c) ds ->
  (v + 1) * 16 ^ zlen ds <= 0x110000 -> over_limit v ds = None.
Proof.
  intros Hv H. revert v Hv. induction H as [|c ds [Hc Hb] _ IH]; intros v Hv Hle; [done|]. cbn [over_limit].
  destruct (hex_digit_ok c Hc Hb) as [_ Hd]. rewrite zlen_cons, Z.pow_add_r in Hle by (pose proof (zlen_nonneg ds); lia).
  pose proof (zlen_nonneg ds). pose proof (Z.pow_pos_nonneg 16 (zlen ds)). rewrite (proj2 (Z.ltb_ge _ _)) by nia.
  rewrite IH by nia. done.
Qed.

Lemma run_bytes P n t : bytes_ok t -> Forall (fun c => P c = true /\ byte_ok c) (run P n t).
Proof.
  intros H. revert n. induction H as [|c t Hc _ IH]; intros [|n]; cbn [run]; try constructor. destruct (P c) eqn:E; [|constructor].
  constructor; [done|apply IH].
Qed.

(** What is common to the sequences of code points. *)
Lemma point_short p d m c s n message : inv p d m -> zdrop p source = c :: s -> zlen s < n ->
  does p d m (t ← text_between source shared m p p; Ok (Failed (message ++ t) m)) (decode_point c n message s).
Proof.
  intros Hi Ec Hs. unfold decode_point. rewrite (proj2 (Z.ltb_lt (zlen s) n)) by done.
  by rewrite (inv_text_between p d m [c] s) by (done || change (zlen [c]) with 1; lia).
Qed.

Lemma decode_point_long c n message s : n <= zlen s ->
  let ds := run is_hex_digit (Z.to_nat n) s in
  decode_point c n message s =
    match over_limit 0 ds with
    | Some ds => Bad (bs "Value of \" ++ c :: ds ++ bs " exceeds Unicode limit (0x10FFFF)")
    | None =>
        if zlen ds <? n then Bad (message ++ c :: ds)
        else if IsSurrogate (value_from 16 0 ds) then Bad (bs "invalid surrogate character (0xD800-DFFF): \" ++ c :: ds)
        else Good (EncodeUTF8Char (value_from 16 0 ds)) (zdrop n s)
    end.
Proof. intros Hs ds. unfold decode_point. rewrite (proj2 (Z.ltb_ge _ _)) by done. done. Qed.

Lemma unicode4_does p d m s : inv p d m -> d < p -> zdrop p source = 117 :: s ->
  does p d m (unicode4 source shared false p d m) (decode_point 117 4 (bs "\u must be followed by 4 hex digits: \") s).
Proof using All.
  intros Hi Hd Ec. destruct (inv_fetch p d m p 117 s Hi) as (_ & Es & Hl & _); [lia|done|].
  unfold unicode4, end_. case_if; zbool; [apply point_short; [done..|lia]|].
  rewrite decode_point_long by lia. change (Z.to_nat 4) with 4%nat. set (ds := run is_hex_digit 4 s).
  rewrite (u_digits_ok p d m 4 p 0 s [117] Hi) by (done || change (zlen [117]) with 1; lia). fold ds. cbn [mbind outcome_bind].
  assert (zlen ds <= 4) as Hds by apply run_length.
  rewrite over_limit_small.
  - change (Z.of_nat 4) with 4. destruct (Z.ltb_spec (zlen ds) 4) as [|H4]; [done|].
    apply (code_point_does p d m 117 ds (zdrop 4 s) 4); [done..| |lia|lia].
    rewrite Ec. cbn [app]. f_equal. rewrite (run_split is_hex_digit 4 s) at 1. fold ds. do 2 f_equal. lia.
  - lia.
  - apply run_bytes. rewrite <- Es. by apply Forall_drop.
  - pose proof (Z.pow_le_mono_r 16 (zlen ds) 4). lia.
Qed.

Lemma unicode8_does p d m s : inv p d m -> d < p -> zdrop p source = 85 :: s ->
  does p d m (unicode8 source shared false p d m) (decode_point 85 8 (bs "\U must be followed by 8 hex digits: \") s).
Proof using All.
  intros Hi Hd Ec. destruct (inv_fetch p d m p 85 s Hi) as (_ & Es & Hl & _); [lia|done|].
  unfold unicode8, end_. case_if; zbool; [apply point_short; [done..|lia]|].
  rewrite decode_point_long by lia. change (Z.to_nat 8) with 8%nat. set (ds := run is_hex_digit 8 s).
  rewrite (U_digits_ok p d m 8 p 0 s [85] Hi) by (done || change (zlen [85]) with 1; lia). fold ds. cbn [mbind outcome_bind].
  assert (zlen ds <= 8) as Hds by apply run_length.
  destruct (over_limit 0 ds) as [o|]; [done|]. change (Z.of_nat 8) with 8. destruct (Z.ltb_spec (zlen ds) 8) as [|H8]; [done|].
  apply (code_point_does p d m 85 ds (zdrop 8 s) 8); [done..| |lia|lia].
  rewrite Ec. cbn [app]. f_equal. rewrite (run_split is_hex_digit 8 s) at 1. fold ds. do 2 f_equal. lia.
Qed.

Lemma sequence_does p d m c s : inv p d m -> d < p -> zdrop p source = c :: s ->
  does p d m (escape_sequence source shared false p d m) (decode_sequence_with u32 (c :: s)).
Proof using All.
  intros Hi Hd Ec. destruct (inv_fetch p d m p c s Hi) as (Ef & Es & Hl & _); [lia|done|]. pose proof (zlen_nonneg s).
  unfold escape_sequence. rewrite Ef. cbn [mbind outcome_bind]. unfold decode_sequence_with. destruct (simple_escape c) as [b|].
  { apply emit_does; [done..|lia|done]. }
  destruct (is_octal_digit c) eqn:Eo; [by apply octal_does|].
  destruct ((c =? 120) || (c =? 88)); [by apply hexadecimal_does|].
  case_if; zbool; [subst c; by apply unicode4_does|]. case_if; zbool; [subst c; by apply unicode8_does|]. done.
Qed.

(** ** The whole text *)

(** The result [r] of the loop at [p], [d], [m], for the text from [p] on. *)
Definition finishes (d : Z) (m : list Z) (r : outcome escape_result) (x : list Z + list Z) : Prop :=
  match x with
  | inl e => exists m', r = Ok (Failed e m') /\ zlen m' = zlen source
  | inr out =>
      exists m', r = Ok (Wrote (zlen source) (d + zlen out) m') /\ zlen m' = zlen source /\
        ztake (d + zlen out) m' = ztake d m ++ out
  end.

(** Bytes written before the rest of the text is decoded. *)
Lemma finishes_after p d m s r x : inv p d m -> d + zlen s <= zlen source ->
  finishes (d + zlen s) (splice d s m) r x ->
  finishes d m r (match x with inr out => inr (s ++ out) | inl e => inl e end).
Proof.
  intros Hi Hs. destruct x as [e|out]; [done|]. intros (m' & -> & Hm' & Ht). exists m'. destruct Hi as [Hd Hp Hm _].
  rewrite zlen_app, Z.add_assoc. split_and!; [done..|]. by rewrite Ht, ztake_splice, <- app_assoc by lia.
Qed.

Lemma unescape_loop_ok n p d m : inv p d m -> zlen source - p < Z.of_nat n ->
  exists x, decodes_with u32 (zdrop p source) x /\ finishes d m (unescape_loop source shared false n p d m) x.
Proof using All.
  revert p d m. induction n as [|n IH]; intros p d m Hi Hn; [destruct Hi; lia|]. cbn [unescape_loop]. unfold last_byte, end_.
  destruct (zdrop p source) as [|c s] eqn:Ec.
  { assert (zlen source = p) as Hl by (apply zdrop_nil; [destruct Hi; lia|done]).
    exists (inr []). split; [constructor|]. rewrite (proj2 (Z.ltb_ge _ _)) by lia. exists m.
    rewrite (@zlen_nil Z), Z.add_0_r, app_nil_r. rewrite Hl. split_and!; [done|destruct Hi; lia|done]. }
  destruct (inv_fetch p d m p c s Hi) as (Ef & Es & Hl & _); [lia|done|]. pose proof (zlen_nonneg s).
  rewrite (proj2 (Z.ltb_lt _ _)) by lia. rewrite Ef. cbn [mbind outcome_bind]. destruct (Z.eqb_spec c 92) as [-> |Hc]; cbn [negb].
  - assert (inv (p + 1) d m) as Hi1.
    { destruct (inv_wrote p d m (p + 1) [] Hi) as [_ H']; [lia|rewrite (@zlen_nil Z); destruct Hi; lia|].
      rewrite (@zlen_nil Z), Z.add_0_r in H'. unfold splice in H'. cbn [app] in H'. by rewrite (@zlen_nil Z), Z.add_0_r, ztake_zdrop in H'. }
    destruct s as [|c1 s].
    + rewrite (@zlen_nil Z) in Hl. rewrite (proj2 (Z.ltb_lt _ _)) by lia. exists (inl (bs "String cannot end with \")).
      split; [by apply decodes_bad|]. exists m. split; [done|by destruct Hi].
    + rewrite zlen_cons in Hl. pose proof (zlen_nonneg s). rewrite (proj2 (Z.ltb_ge _ _)) by lia.
      pose proof (sequence_does (p + 1) d m c1 s Hi1 ltac:(destruct Hi; lia) Es) as Hs.
      destruct (decode_sequence_with u32 (c1 :: s)) as [e|out rest] eqn:Ed.
      { rewrite Hs. exists (inl e). split; [by apply decodes_bad|]. exists m. split; [done|by destruct Hi]. }
      destruct Hs as (p' & -> & Hp' & Er & Ho). cbn [mbind outcome_bind].
      destruct (inv_wrote (p + 1) d m (p' + 1) out Hi1) as [_ Hi']; [lia..|].
      destruct (IH (p' + 1) _ _ Hi') as (x & Hx & Hf); [lia|]. rewrite Er in Hx.
      eexists. split; [by eapply decodes_good|]. eapply finishes_after; [done|lia|done].
  - destruct (inv_wrote p d m (p + 1) [c] Hi) as [-> Hi']; [lia|change (zlen [c]) with 1; destruct Hi; lia|]. cbn [mbind outcome_bind].
    destruct (IH (p + 1) _ _ Hi') as (x & Hx & Hf); [lia|]. rewrite Es in Hx.
    eexists. split; [by apply decodes_plain|]. apply (finishes_after p d m [c] _ x); [done|change (zlen [c]) with 1; destruct Hi; lia|done].
Qed.

(** The loop that skips what stays in place. *)
Lemma skip_plain_ok n p m : inv p p m -> zlen source - p < Z.of_nat n -> shared = true ->
  exists q, skip_plain source shared n m p p = Ok (q, q) /\ inv q q m /\ p <= q /\
    forall x, decodes_with u32 (zdrop q source) x -> decodes_with u32 (zdrop p source) (match x with inr out => inr (part p (q - p) source ++ out) | inl e => inl e end).
Proof using All.
  intros Hi Hn Hsh. revert p Hi Hn. induction n as [|n IH]; intros p Hi Hn; [destruct Hi; lia|]. cbn [skip_plain]. rewrite Hsh, Z.eqb_refl.
  unfold end_. cbn [andb]. assert (Hhere : forall x, decodes_with u32 (zdrop p source) x ->
    decodes_with u32 (zdrop p source) (match x with inr out => inr (part p (p - p) source ++ out) | inl e => inl e end)).
  { intros [e|out]; [done|by rewrite Z.sub_diag]. }
  case_if; zbool; [|exists p; by split_and!].
  destruct (zdrop p source) as [|c s] eqn:Ec.
  { apply zdrop_nil in Ec; [lia|destruct Hi; lia]. }
  destruct (inv_fetch p p m p c s Hi) as (Ef & Es & Hl & _); [lia|done|]. pose proof (zlen_nonneg s). rewrite <- Hsh, Ef. cbn [mbind outcome_bind].
  case_if; zbool; [exists p; rewrite <- Ec in *; by split_and!|].
  destruct (IH (p + 1)) as (q & Eq & Hq & Hle & Hdec); [|lia|].
  { destruct Hi as [? ? ? Ht]. split; [lia..|]. intros _. rewrite <- !zdrop_zdrop, Ht by (done || lia). done. }
  exists q. split_and!; [done|done|lia|]. intros x Hx. apply Hdec in Hx. rewrite Es in Hx. apply (decodes_plain u32 c) in Hx; [|done].
  destruct x as [e|out]; [done|]. replace (part p (q - p) source) with (c :: part (p + 1) (q - (p + 1)) source); [done|].
  replace (q - p) with (1 + (q - (p + 1))) by lia. rewrite part_add by (destruct Hi; lia).
  unfold part at 2. rewrite Ec. done.
Qed.

End refinement.

Section whole.
Context (source : list Z) (Hbytes : bytes_ok source).

Lemma CUnescapeInternal_ok (shared : bool) m : zlen m = zlen source -> (shared = true -> m = source) ->
  exists x, decodes_with u32 source x /\
    match x with
    | inl e => exists m', CUnescapeInternal source shared false m = Ok (Failed e m')
    | inr out => exists m', CUnescapeInternal source shared false m = Ok (Wrote (zlen source) (zlen out) m') /\
                   zlen m' = zlen source /\ ztake (zlen out) m' = out
    end.
Proof using All.
  intros Hm Hsh. pose proof (zlen_nonneg source). unfold CUnescapeInternal.
  assert (inv source shared 0 0 m) as Hi by (split; [lia..|intros E; by rewrite Hsh]).
  assert (exists q, skip_plain source shared (S (length source)) m 0 0 = Ok (q, q) /\ inv source shared q q m /\
    ztake q m = part 0 q source /\
    forall x, decodes_with u32 (zdrop q source) x -> decodes_with u32 source (match x with inr out => inr (part 0 q source ++ out) | inl e => inl e end)) as (q & Eq & Hq & Et & Hdec).
  { destruct shared eqn:E.
    - destruct (skip_plain_ok source true Hbytes (S (length source)) 0 m Hi) as (q & Eq & Hq & _ & Hd); [unfold zlen; lia|done|].
      exists q. rewrite Z.sub_0_r in Hd. split_and!; [done..|by rewrite Hsh|done].
    - exists 0. split_and!; [done..|]. by intros [e|out]. }
  rewrite Eq. cbn [mbind outcome_bind].
  destruct (unescape_loop_ok source shared Hbytes (S (length source)) q q m Hq) as (x & Hx & Hf); [unfold zlen; destruct Hq; unfold zlen in *; lia|].
  eexists. split; [by apply Hdec|]. destruct x as [e|out]; [destruct Hf as (m' & -> & _); by exists m'|].
  destruct Hf as (m' & -> & Hm' & Ht). exists m'.
  assert (zlen (part 0 q source) = q) as Hl by (apply zlen_part; destruct Hq; lia).
  rewrite zlen_app, Hl. split_and!; [done..|]. by rewrite Ht, Et.
Qed.

End whole.

Lemma unescape_decodes source shared fresh out : bytes_ok source -> (forall n, 0 <= n -> zlen (fresh n) = n) ->
  decodes_with u32 source (inr out) -> unescape source shared fresh = Ok (true, out, []).
Proof.
  intros Hb Hf Hd. destruct (CUnescapeInternal_ok source Hb shared (if shared then source else fresh (zlen source))) as (x & Hx & Hr).
  { destruct shared; [done|apply Hf, zlen_nonneg]. }
  { by intros ->. }
  rewrite (decodes_functional _ _ _ _ Hx Hd) in Hr. destruct Hr as (m' & E & _ & Ht). unfold unescape, CUnescapeInternal_string, kUnescapeNulls. rewrite E.
  cbn [mbind outcome_bind]. by rewrite Ht.
Qed.

(** ** The lower 32 bits *)

Lemma value_from_nonneg ds : Forall (fun c => is_hex_digit c = true /\ byte_ok c) ds -> forall v, 0 <= v -> 0 <= value_from 16 v ds.
Proof.
  induction 1 as [|c ds [Hd Hc] _ IH]; intros v Hv; [done|]. cbn. apply IH. destruct (hex_digit_ok c Hd Hc). lia.
Qed.

(** Where the value is a byte, or its lower 32 bits are none, the 32 bits make no
    difference. *)
Lemma decode_sequence_u32 s : bytes_ok s ->
  decode_sequence_with u32 s = decode_sequence s \/ ((exists e, decode_sequence s = Bad e) /\ wraps (92 :: s)).
Proof.
  intros Hs. destruct s as [|c s]; [by left|]. unfold decode_sequence, decode_sequence_with. destruct (simple_escape c); [by left|].
  destruct (is_octal_digit c); [by left|]. destruct ((c =? 120) || (c =? 88)) eqn:Ec; [|by left].
  assert (c = 120 \/ c = 88) as Hx by (apply orb_true_iff in Ec as [E|E]; zbool; lia).
  assert (0 <= value_from 16 0 (run is_hex_digit (length s) s)) as H0 by (apply value_from_nonneg; [apply run_bytes; by inversion Hs|lia]).
  pose proof (wraps_here c s Hx) as Hw. set (v := value_from 16 0 (run is_hex_digit (length s) s)) in *. set (ds := run is_hex_digit (length s) s) in *.
  destruct s as [|c1 s]; [by left|]. destruct ds as [|d1 ds]; [by left|].
  destruct (decide (v <= 0xff)); [left; by rewrite u32_small by lia|]. rewrite (proj2 (Z.ltb_lt 0xff v)) by lia.
  case_if; zbool; [by left|]. right. split; [by eexists|]. apply Hw; lia.
Qed.

Lemma sequence_rest f s out rest : bytes_ok s -> decode_sequence_with f s = Good out rest -> bytes_ok rest.
Proof.
  intros Hs. assert (forall n l, bytes_ok l -> bytes_ok (zdrop n l)) as Hd by (intros n l Hl; by apply Forall_drop).
  destruct s as [|c s]; [done|]. inversion Hs; subst. unfold decode_sequence_with, decode_point.
  repeat (case_match; try done); intros [= <- <-]; first [done|by apply Hd|by apply Hd; constructor].
Qed.

(** What the code reads and what the text stands for. *)
Lemma decodes_u32 s y : bytes_ok s -> decodes_with u32 s y ->
  exists x, decodes s x /\ (y = x \/ ((exists e, x = inl e) /\ wraps s)).
Proof.
  intros Hs H. induction H as [|c s r Hc _ IH|s e He|s out rest r Hg _ IH].
  - exists (inr []). split; [constructor|by left].
  - destruct IH as (x & Hx & Hy); [by inversion Hs|]. eexists. split; [by apply decodes_plain|].
    destruct Hy as [->|((e & ->) & Hw)]; [by left|]. right. split; [by exists e|by apply wraps_plain].
  - assert (bytes_ok s) as Hb by by inversion Hs. destruct (decode_sequence_u32 s Hb) as [E|((e' & E) & Hw)].
    + exists (inl e). split; [apply decodes_bad; change (decode_sequence s = Bad e); by rewrite <- E|by left].
    + exists (inl e'). split; [by apply decodes_bad|]. right. split; [by exists e'|done].
  - assert (bytes_ok s) as Hb by by inversion Hs. destruct (decode_sequence_u32 s Hb) as [E|((e' & E) & Hw)].
    + rewrite Hg in E. destruct IH as (x & Hx & Hy).
      { apply (sequence_rest u32 s out rest Hb Hg). }
      eexists. split; [apply (decodes_good _ s out rest); [exact (eq_sym E)|exact Hx]|].
      destruct Hy as [->|((e & ->) & Hw)]; [by left|]. right. split; [by exists e|by apply (wraps_after s out rest)].
    + exists (inl e'). split; [by apply decodes_bad|]. right. split; [by exists e'|done].
Qed.

(** C27: [unescape] never reads or writes outside of the source and of a
    string of its size, also when both are the same memory.  A text without a
    bad sequence is turned into the bytes it stands for.  For any other text
    the result is false, with the error of the first bad sequence, unless that
    is a hexadecimal sequence of more than 32 bits whose lower 32 bits are a
    byte, which the code takes for that byte.  What a text stands for is
    unique. *)
Theorem unescape_meaning source shared fresh :
  bytes_ok source -> (forall n, 0 <= n -> zlen (fresh n) = n) ->
  exists x, decodes source x /\ (forall y, decodes source y -> y = x) /\
    match x with
    | inr out => unescape source shared fresh = Ok (true, out, []) /\ zlen out <= zlen source
    | inl error => exists ok dest error', unescape source shared fresh = Ok (ok, dest, error') /\
        (~ wraps source -> ok = false /\ error' = error)
    end.
Proof.
  intros Hb Hf. pose proof (zlen_nonneg source).
  destruct (CUnescapeInternal_ok source Hb shared (if shared then source else fresh (zlen source))) as (y & Hy & Hr).
  { destruct shared; [done|by apply Hf]. }
  { by intros ->. }
  destruct (decodes_u32 source y Hb Hy) as (x & Hx & Hxy). exists x. split_and!; [done|intros z Hz; by eapply decodes_functional|].
  unfold unescape, CUnescapeInternal_string, kUnescapeNulls.
  assert (y = x -> match x with inr out => zlen out <= zlen source | _ => True end) as Hl.
  { intros <-. destruct y as [e|out]; [done|]. destruct Hr as (m' & _ & Hm' & Ht). apply (f_equal zlen) in Ht. unfold ztake, zlen in *. rewrite length_take in Ht. lia. }
  destruct y as [e|out].
  - destruct Hr as (m' & ->). cbn [mbind outcome_bind]. destruct Hxy as [<-|((e' & ->) & Hw)]; by eexists _, _, _.
  - destruct Hr as (m' & -> & Hm' & Ht). cbn [mbind outcome_bind]. rewrite Ht. destruct Hxy as [<-|((e' & ->) & Hw)]; [by split; [|apply Hl]|].
    eexists _, _, _. split; [done|]. by intros [].
Qed.

Lemma unescape_meaning_witness :
  let source := bs "a\x41\u20ac\U0001F600\101" in
  let fresh n := repeat 7 (Z.to_nat n) in
  let out := [97; 65; 226; 130; 172; 240; 159; 152; 128; 65] in
  unescape source true fresh = Ok (true, out, []) /\
  exists x, decodes source x /\ (forall y, decodes source y -> y = x) /\
    match x with
    | inr out => unescape source true fresh = Ok (true, out, []) /\ zlen out <= zlen source
    | inl error => exists ok dest error', unescape source true fresh = Ok (ok, dest, error') /\
        (~ wraps source -> ok = false /\ error' = error)
    end.
Proof.
  split; [vm_compute; reflexivity|].
  apply (unescape_meaning (bs "a\x41\u20ac\U0001F600\101") true (fun n => repeat 7 (Z.to_nat n))).
  - repeat constructor; vm_compute; done.
  - intros n Hn. rewrite zlen_repeat. lia.
Defined.

(** A value of more than 32 bits wraps around: nine digits that do not
    resolve to a byte are accepted, although the text stands for nothing. *)
Example long_hex_accepted :
  unescape (bs "\x100000041") true (fun n => repeat 0 (Z.to_nat n)) = Ok (true, bs "A", []) /\
  decodes (bs "\x100000041") (inl (bs "Value of \x100000041 exceeds 0xff")) /\ wraps (bs "\x100000041").
Proof.
  split_and!; [vm_compute; reflexivity|apply decodes_bad; vm_compute; reflexivity|].
  apply wraps_here; [by left|vm_compute; reflexivity|vm_compute; congruence].
Qed.

(** ** Escaping *)

Definition no_hex_head (s : list Z) : Prop := match s with c :: _ => is_hex_digit c = false | [] => True end.

Lemma decode_octal a b e rest :
  is_octal_digit a = true -> is_octal_digit b = true -> is_octal_digit e = true -> value_from 8 0 [a; b; e] <= 255 ->
  decode_sequence_with u32 (a :: b :: e :: rest) = Good [value_from 8 0 [a; b; e]] rest.
Proof.
  intros Ha Hb He Hv. unfold decode_sequence_with. assert (simple_escape a = None) as ->.
  { unfold is_octal_digit in Ha. zbool. unfold simple_escape. by rewrite !(proj2 (Z.eqb_neq _ _)) by lia. }
  rewrite Ha. assert (run is_octal_digit 3 (a :: b :: e :: rest) = [a; b; e]) as -> by (cbn [run]; by rewrite Ha, Hb, He).
  rewrite (proj2 (Z.ltb_ge _ _)) by lia. done.
Qed.

Lemma decode_hex a b rest : is_hex_digit a = true -> is_hex_digit b = true -> 0 <= value_from 16 0 [a; b] <= 255 -> no_hex_head rest ->
  decode_sequence_with u32 (120 :: a :: b :: rest) = Good [value_from 16 0 [a; b]] rest.
Proof.
  intros Ha Hb Hv Hr.
  assert (run is_hex_digit (length (a :: b :: rest)) (a :: b :: rest) = [a; b]) as E.
  { cbn [run length]. rewrite Ha, Hb. destruct rest as [|c rest]; [done|]. cbn [length run]. cbn in Hr. by rewrite Hr. }
  change (decode_sequence_with u32 (120 :: a :: b :: rest)) with
    (let ds := run is_hex_digit (length (a :: b :: rest)) (a :: b :: rest) in
     match ds with
     | [] => Bad (bs "\x cannot be followed by a non-hex digit")
     | _ => if 0xff <? u32 (value_from 16 0 ds) then Bad (bs "Value of \" ++ 120 :: ds ++ bs " exceeds 0xff")
            else Good [u32 (value_from 16 0 ds)] (zdrop (zlen ds) (a :: b :: rest))
     end).
  rewrite E. cbv zeta. rewrite u32_small by lia. rewrite (proj2 (Z.ltb_ge _ _)) by lia. done.
Qed.

(** What [escape_byte] returns for [c], as a check over all bytes. *)
Definition escaped_ok (utf8_safe last : bool) (c : Z) (r : outcome (list Z * bool)) : bool :=
  match r with
  | Ok (s, is_hex) =>
      (utf8_safe || forallb is_print s) && forallb (between 0 255) s &&
      match s with
      | [x] => (x =? c) && negb (c =? 92) && negb is_hex && (negb last || negb (is_hex_digit c))
      | [b; x] => (b =? 92) && bool_decide (simple_escape x = Some c) && negb is_hex
      | [b; x; y; z] =>
          (b =? 92) &&
          (if x =? 120 then is_hex && is_hex_digit y && is_hex_digit z && (value_from 16 0 [y; z] =? c)
           else negb is_hex && is_octal_digit x && is_octal_digit y && is_octal_digit z && (value_from 8 0 [x; y; z] =? c))
      | _ => false
      end
  | _ => false
  end.

Lemma escape_byte_check use_hex utf8_safe last c : byte_ok c ->
  escaped_ok utf8_safe last c (escape_byte use_hex utf8_safe last c) = true.
Proof.
  revert c. destruct use_hex, utf8_safe, last; apply byte_check; vm_compute; reflexivity.
Qed.

Lemma escape_byte_ok use_hex utf8_safe last c : byte_ok c ->
  exists s is_hex, escape_byte use_hex utf8_safe last c = Ok (s, is_hex) /\ s <> [] /\
    (utf8_safe = false -> Forall (fun b => is_print b = true) s) /\ (last = true -> no_hex_head s) /\ bytes_ok s /\
    (forall t out, (is_hex = true -> no_hex_head t) -> decodes_with u32 t (inr out) -> decodes_with u32 (s ++ t) (inr (c :: out))).
Proof.
  intros Hc. pose proof (escape_byte_check use_hex utf8_safe last c Hc) as H.
  destruct (escape_byte use_hex utf8_safe last c) as [[s is_hex]| |]; [|done..]. exists s, is_hex.
  unfold escaped_ok in H. apply andb_true_iff in H as [Hp H]. apply andb_true_iff in Hp as [Hp Hb].
  assert (bytes_ok s) as Hbs.
  { rewrite forallb_forall in Hb. apply Forall_forall. intros x Hx%list_elem_of_In%Hb. unfold between in Hx. zbool. unfold byte_ok. lia. }
  assert (Hprint : utf8_safe = false -> Forall (fun b => is_print b = true) s).
  { intros ->. cbn [orb] in Hp. rewrite forallb_forall in Hp. apply Forall_forall. intros x Hx. apply Hp. by apply list_elem_of_In. }
  destruct s as [|x [|y [|z [|w [|? ?]]]]]; try done.
  - zbool. subst x. split_and!; [done..| | |].
    + intros ->. cbn in *. by destruct (is_hex_digit c).
    + done.
    + intros t out _ Ht. by apply (decodes_plain u32 c t (inr out)).
  - rewrite !andb_true_iff in H. destruct H as [[Hx Hs%bool_decide_eq_true] _]. zbool. subst x. split_and!; [done..|].
    intros t out _ Ht. apply (decodes_good u32 (y :: t) [c] t (inr out)); [|done]. cbn [decode_sequence_with u32]. by rewrite Hs.
  - apply andb_true_iff in H as [Hx H]. zbool. subst x. split_and!; [done..|]. intros t out Hh Ht. destruct (y =? 120) eqn:Ey; zbool.
    + subst y c. apply (decodes_good u32 (120 :: z :: w :: t) [value_from 16 0 [z; w]] t (inr out)); [|done].
      apply decode_hex; [done..|unfold byte_ok in Hc; lia|by apply Hh].
    + subst c. apply (decodes_good u32 (y :: z :: w :: t) [value_from 8 0 [y; z; w]] t (inr out)); [|done].
      apply decode_octal; [done..|unfold byte_ok in Hc; lia].
Qed.

Lemma escape_loop_ok use_hex utf8_safe last src dest : bytes_ok src ->
  exists t, escape_loop use_hex utf8_safe last src dest = Ok (dest ++ t) /\ decodes_with u32 t (inr src) /\
    (utf8_safe = false -> Forall (fun b => is_print b = true) t) /\ (last = true -> no_hex_head t) /\ bytes_ok t.
Proof.
  intros H. revert last dest. induction H as [|c src Hc _ IH]; intros last dest; cbn [escape_loop].
  { exists []. rewrite app_nil_r. split_and!; [done|constructor|by constructor|done|constructor]. }
  destruct (escape_byte_ok use_hex utf8_safe last c Hc) as (s & is_hex & -> & Hne & Hp & Hl & Hb & Hd). cbn [mbind outcome_bind].
  destruct (IH is_hex (dest ++ s)) as (t & -> & Ht & Hpt & Hlt & Hbt). exists (s ++ t). rewrite app_assoc. split_and!; [done| | | |].
  - by apply Hd.
  - intros Hu. apply Forall_app. split; [by apply Hp|by apply Hpt].
  - intros Hlast. specialize (Hl Hlast). by destruct s.
  - by apply Forall_app.
Qed.

(** ** The table-driven version *)

Lemma zlen_empty {A} (l : list A) : zlen l = 0 -> l = [].
Proof. unfold zlen. intros H. apply nil_length_inv. lia. Qed.

(** The table and the stores agree with [escape_byte], octal. *)
Lemma escaped_bytes_ok c : byte_ok c ->
  exists n, mget c_escaped_len c = Ok n /\ zlen (escaped_bytes n c) = n /\ 1 <= n <= 4 /\ (n = 1 -> escaped_bytes n c = [c]) /\
    escape_byte false false false c = Ok (escaped_bytes n c, false).
Proof.
  intros Hc.
  assert (match mget c_escaped_len c, escape_byte false false false c with
    | Ok n, Ok (s, b) => (zlen (escaped_bytes n c) =? n) && between 1 4 n && bool_decide (s = escaped_bytes n c) && negb b
    | _, _ => false end = true) as H by (revert c Hc; apply byte_check; vm_compute; reflexivity).
  destruct (mget c_escaped_len c) as [n| |]; [|done..]. destruct (escape_byte false false false c) as [[s b]| |]; [|done..].
  rewrite !andb_true_iff in H. destruct H as [[[Hl Hb] Hs%bool_decide_eq_true] Hn]. unfold between in Hb. zbool.
  exists n. split_and!; [done..|lia|lia| |by subst s b]. intros ->. done.
Qed.

(** The text [CEscapeInternal] returns, by concatenation. *)
Definition octal_text (src : list Z) : list Z := concat (map (fun c => escaped_bytes (default 0 (zget c_escaped_len c)) c) src).

Lemma octal_text_cons c src n : mget c_escaped_len c = Ok n -> octal_text (c :: src) = escaped_bytes n c ++ octal_text src.
Proof.
  unfold mget. intros H. unfold octal_text. cbn [map concat]. destruct (zget c_escaped_len c); [|done]. by injection H as ->.
Qed.

Lemma escape_loop_octal src dest : bytes_ok src -> escape_loop false false false src dest = Ok (dest ++ octal_text src).
Proof.
  intros H. revert dest. induction H as [|c src Hc _ IH]; intros dest; cbn [escape_loop]; [by rewrite app_nil_r|].
  destruct (escaped_bytes_ok c Hc) as (n & En & _ & _ & _ & ->). cbn [mbind outcome_bind]. rewrite IH, (octal_text_cons c src n) by done.
  by rewrite app_assoc.
Qed.

Lemma CEscapedLength_ok src acc : bytes_ok src -> 0 <= acc -> acc + 4 * zlen src < 2 ^ 64 ->
  CEscapedLength src acc = Ok (acc + zlen (octal_text src)) /\ zlen src <= zlen (octal_text src) <= 4 * zlen src /\
  (zlen (octal_text src) = zlen src -> octal_text src = src).
Proof.
  intros H. revert acc. induction H as [|c src Hc _ IH]; intros acc Ha Hb; cbn [CEscapedLength].
  { unfold octal_text. cbn. rewrite Z.add_0_r. by split_and!. }
  destruct (escaped_bytes_ok c Hc) as (n & En & Hl & Hn & H1 & _). rewrite En. cbn [mbind outcome_bind].
  rewrite zlen_cons in *. pose proof (zlen_nonneg src). rewrite u64_small by lia.
  destruct (IH (acc + n)) as (-> & Hlen & Hsame); [lia..|]. rewrite (octal_text_cons c src n), zlen_app, Hl by done.
  split_and!; [f_equal; lia|lia|lia|]. intros E. rewrite H1, Hsame by lia. done.
Qed.

Lemma append_escaped_ok src a r : bytes_ok src -> zlen r = zlen (octal_text src) ->
  append_escaped src (zlen a) (a ++ r) = Ok (a ++ octal_text src).
Proof.
  intros H. revert a r. induction H as [|c src Hc _ IH]; intros a r Hr; cbn [append_escaped].
  { change (octal_text []) with (@nil Z) in *. apply zlen_empty in Hr as ->. done. }
  destruct (escaped_bytes_ok c Hc) as (n & En & Hl & Hn & _). rewrite En. cbn [mbind outcome_bind].
  rewrite (octal_text_cons c src n) in * by done. rewrite zlen_app in Hr. pose proof (zlen_nonneg (octal_text src)).
  destruct (split_at (zlen (escaped_bytes n c)) r) as (r1 & r2 & -> & H1 & H2); [lia|].
  rewrite mwrite_mid by done. cbn [mbind outcome_bind]. rewrite <- zlen_app, app_assoc, IH by lia. by rewrite <- app_assoc.
Qed.

Lemma CEscapeAndAppendInternal_ok fresh src dest : (forall n, 0 <= n -> zlen (fresh n) = n) -> bytes_ok src -> 4 * zlen src < 2 ^ 64 ->
  CEscapeAndAppendInternal fresh src dest = Ok (dest ++ octal_text src).
Proof.
  intros Hf Hs Hl. destruct (CEscapedLength_ok src 0 Hs) as (E & Hlen & Hsame); [lia..|]. unfold CEscapeAndAppendInternal. rewrite E. cbn [mbind outcome_bind].
  rewrite Z.add_0_l. case_if; zbool; [by rewrite Hsame|]. apply append_escaped_ok; [done|]. apply Hf, zlen_nonneg.
Qed.

(** ** Hexadecimal text *)

Definition hex_text (src : list Z) : list Z := concat (map (radix 16 2) src).

Lemma BytesToHexStringInternal_ok src a r : bytes_ok src -> zlen r = 2 * zlen src ->
  BytesToHexStringInternal src (zlen a) (a ++ r) = Ok (a ++ hex_text src).
Proof.
  intros H. revert a r. induction H as [|c src Hc _ IH]; intros a r Hr; cbn [BytesToHexStringInternal].
  { apply zlen_empty in Hr as ->. done. }
  rewrite kHexTable_get by done. cbn [mbind outcome_bind]. rewrite zlen_cons in Hr. pose proof (zlen_nonneg src).
  destruct (split_at 2 r) as (r1 & r2 & -> & H1 & H2); [lia|].
  rewrite mwrite_mid by (done || rewrite zlen_radix; lia). cbn [mbind outcome_bind].
  replace (zlen a + 2) with (zlen (a ++ radix 16 2 c)) by (rewrite zlen_app, zlen_radix; lia). rewrite app_assoc, IH by lia.
  by rewrite <- app_assoc.
Qed.

Lemma hex_pair c : byte_ok c -> exists h l, radix 16 2 c = [h; l] /\
  (x ← mget kHexValueLenient (Z.land h 0xFF); y ← mget kHexValueLenient (Z.land l 0xFF); Ok (u8 (Z.shiftl x 4 + y))) = Ok c.
Proof.
  intros Hc. destruct (radix 16 2 c) as [|h [|l [|? ?]]] eqn:E; try (apply (f_equal zlen) in E; rewrite zlen_radix in E; unfold zlen in E; cbn in E; lia).
  exists h, l. split; [done|].
  assert (match radix 16 2 c with
    | [h; l] => match (x ← mget kHexValueLenient (Z.land h 0xFF); y ← mget kHexValueLenient (Z.land l 0xFF); Ok (u8 (Z.shiftl x 4 + y))) with
                | Ok v => v =? c | _ => false end
    | _ => false end = true) as H.
  { clear E. revert c Hc. apply byte_check. vm_compute. reflexivity. }
  rewrite E in H. destruct (mbind _ _) as [v| |]; [|done..]. zbool. by subst v.
Qed.

Lemma HexStringToBytesInternal_ok src pre a r n : bytes_ok src -> n = length src -> zlen r = zlen src -> zlen pre = 2 * zlen a -> zlen a + zlen src <= 2 ^ 30 ->
  HexStringToBytesInternal n (pre ++ hex_text src) (zlen a) (a ++ r) = Ok (a ++ src).
Proof.
  intros H. revert pre a r n. induction H as [|c src Hc _ IH]; intros pre a r n -> Hr Hp Hb; cbn [length HexStringToBytesInternal].
  { apply zlen_empty in Hr as ->. done. }
  destruct (hex_pair c Hc) as (h & l & Er & Ec). unfold hex_text. cbn [map concat]. fold (hex_text src). rewrite Er. pose proof (zlen_nonneg a).
  rewrite zlen_cons in Hb. pose proof (zlen_nonneg src). rewrite (proj2 (Z.ltb_ge _ _)) by lia. cbn [mbind outcome_bind].
  assert (mget (pre ++ [h; l] ++ hex_text src) (zlen a * 2) = Ok h) as ->.
  { apply mget_ok. rewrite zget_app_r by lia. replace (zlen a * 2 - zlen pre) with 0 by lia. done. }
  assert (mget (pre ++ [h; l] ++ hex_text src) (zlen a * 2 + 1) = Ok l) as ->.
  { apply mget_ok. rewrite zget_app_r by lia. replace (zlen a * 2 + 1 - zlen pre) with 1 by lia. done. }
  cbn [mbind outcome_bind] in Ec |- *. destruct (mget kHexValueLenient (Z.land h 255)) as [x| |]; [|done..]. cbn [mbind outcome_bind] in Ec |- *.
  destruct (mget kHexValueLenient (Z.land l 255)) as [y| |]; [|done..]. cbn [mbind outcome_bind] in Ec |- *. injection Ec as ->.
  rewrite zlen_cons in Hr. destruct (split_at 1 r) as (r1 & r2 & -> & H1 & H2); [lia|].
  rewrite mwrite_mid by done. cbn [mbind outcome_bind].
  replace (zlen a + 1) with (zlen (a ++ [c])) by zl. rewrite !app_assoc. rewrite (IH (pre ++ [h; l]) (a ++ [c])) by (done || lia || zl).
  by rewrite <- app_assoc.
Qed.

(** C28: what each of the four escaping functions returns, [unescape] turns
    back into the bytes, also in place; the table-driven [escape], which sizes
    its result in advance and stores through a pointer, returns the octal
    text, and without the UTF-8 option every byte of the text is printable.
    Up to 2^30 bytes as hexadecimal text are read back too (the index of the
    reading loop is an [int]).  The text is shorter than 2^64 bytes. *)
Theorem escape_roundtrip fresh src use_hex utf8_safe shared :
  (forall n, 0 <= n -> zlen (fresh n) = n) -> bytes_ok src -> 4 * zlen src < 2 ^ 64 ->
  (exists text, CEscapeInternal src use_hex utf8_safe = Ok text /\ unescape text shared fresh = Ok (true, src, []) /\
     (utf8_safe = false -> Forall (fun b => is_print b = true) text)) /\
  escape fresh src = CEscapeInternal src false false /\
  (zlen src <= 2 ^ 30 -> exists text, bytes_to_hex_string fresh src = Ok text /\ hex_string_to_bytes fresh text = Ok src).
Proof.
  intros Hf Hs Hl. split_and!.
  - destruct (escape_loop_ok use_hex utf8_safe false src [] Hs) as (t & E & Hd & Hp & _ & Hb). exists t. split_and!; [done| |done].
    by apply unescape_decodes.
  - unfold escape, CEscapeInternal. by rewrite CEscapeAndAppendInternal_ok, escape_loop_octal.
  - intros Hb. pose proof (zlen_nonneg src). exists (hex_text src). unfold bytes_to_hex_string, hex_string_to_bytes. split.
    + apply (BytesToHexStringInternal_ok src []); [done|]. apply Hf. lia.
    + assert (zlen (hex_text src) = 2 * zlen src) as ->.
      { clear. unfold hex_text. induction src as [|c src IH]; [done|]. cbn [map concat]. rewrite zlen_app, zlen_radix, zlen_cons, IH. lia. }
      rewrite Z.mul_comm, Z.div_mul by lia. apply (HexStringToBytesInternal_ok src [] []); [done|unfold zlen; lia|apply Hf; lia|done|rewrite (@zlen_nil Z); lia].
Qed.

Lemma escape_roundtrip_witness :
  let src := [0; 49; 200; 92; 65; 10; 255] in
  let fresh n := repeat 7 (Z.to_nat n) in
  (exists text, CEscapeInternal src true false = Ok text /\ unescape text true fresh = Ok (true, src, []) /\
     (false = false -> Forall (fun b => is_print b = true) text)) /\
  escape fresh src = CEscapeInternal src false false /\
  (zlen src <= 2 ^ 30 -> exists text, bytes_to_hex_string fresh src = Ok text /\ hex_string_to_bytes fresh text = Ok src).
Proof.
  apply (escape_roundtrip (fun n => repeat 7 (Z.to_nat n)) [0; 49; 200; 92; 65; 10; 255] true false true).
  - intros n Hn. rewrite zlen_repeat. lia.
  - repeat constructor; vm_compute; done.
  - vm_compute. reflexivity.
Defined.
