(* ===== verification/EscapingBase64.v ===== *)
(** * Base64 of [flare/strings/escaping.cc]

    [base64_escape] and [web_safe_base64_escape], which encode three bytes at
    a time through a 32-bit load, and [base64_unescape] and
    [web_safe_base64_unescape], which decode four characters at once where
    none of them is special and fall back to one character at a time.  The
    source pointer and the size left, which move together, are the list of the
    bytes left.  Decoding into a null pointer, which only validates the text
    and which no caller of the file asks for, is left out. *)

From S2P Require Import Prelude Bits Buffers Ascii Numbers StrCat Escaping.
Local Open Scope Z_scope.

Definition kUnBase64 : list Z :=
  [-1; -1; -1; -1; -1; -1; -1; -1; -1; -1; -1; -1; -1; -1; -1; -1;
   -1; -1; -1; -1; -1; -1; -1; -1; -1; -1; -1; -1; -1; -1; -1; -1;
   -1; -1; -1; -1; -1; -1; -1; -1; -1; -1; -1; 62; -1; -1; -1; 63;
   52; 53; 54; 55; 56; 57; 58; 59; 60; 61; -1; -1; -1; -1; -1; -1;
   -1; 0; 1; 2; 3; 4; 5; 6; 07; 8; 9; 10; 11; 12; 13; 14;
   15; 16; 17; 18; 19; 20; 21; 22; 23; 24; 25; -1; -1; -1; -1; -1;
   -1; 26; 27; 28; 29; 30; 31; 32; 33; 34; 35; 36; 37; 38; 39; 40;
   41; 42; 43; 44; 45; 46; 47; 48; 49; 50; 51; -1; -1; -1; -1; -1;
   -1; -1; -1; -1; -1; -1; -1; -1; -1; -1; -1; -1; -1; -1; -1; -1;
   -1; -1; -1; -1; -1; -1; -1; -1; -1; -1; -1; -1; -1; -1; -1; -1;
   -1; -1; -1; -1; -1; -1; -1; -1; -1; -1; -1; -1; -1; -1; -1; -1;
   -1; -1; -1; -1; -1; -1; -1; -1; -1; -1; -1; -1; -1; -1; -1; -1;
   -1; -1; -1; -1; -1; -1; -1; -1; -1; -1; -1; -1; -1; -1; -1; -1;
   -1; -1; -1; -1; -1; -1; -1; -1; -1; -1; -1; -1; -1; -1; -1; -1;
   -1; -1; -1; -1; -1; -1; -1; -1; -1; -1; -1; -1; -1; -1; -1; -1;
   -1; -1; -1; -1; -1; -1; -1; -1; -1; -1; -1; -1; -1; -1; -1; -1].

Definition kUnWebSafeBase64 : list Z :=
  [-1; -1; -1; -1; -1; -1; -1; -1; -1; -1; -1; -1; -1; -1; -1; -1;
   -1; -1; -1; -1; -1; -1; -1; -1; -1; -1; -1; -1; -1; -1; -1; -1;
   -1; -1; -1; -1; -1; -1; -1; -1; -1; -1; -1; -1; -1; 62; -1; -1;
   52; 53; 54; 55; 56; 57; 58; 59; 60; 61; -1; -1; -1; -1; -1; -1;
   -1; 0; 1; 2; 3; 4; 5; 6; 07; 8; 9; 10; 11; 12; 13; 14;
   15; 16; 17; 18; 19; 20; 21; 22; 23; 24; 25; -1; -1; -1; -1; 63;
   -1; 26; 27; 28; 29; 30; 31; 32; 33; 34; 35; 36; 37; 38; 39; 40;
   41; 42; 43; 44; 45; 46; 47; 48; 49; 50; 51; -1; -1; -1; -1; -1;
   -1; -1; -1; -1; -1; -1; -1; -1; -1; -1; -1; -1; -1; -1; -1; -1;
   -1; -1; -1; -1; -1; -1; -1; -1; -1; -1; -1; -1; -1; -1; -1; -1;
   -1; -1; -1; -1; -1; -1; -1; -1; -1; -1; -1; -1; -1; -1; -1; -1;
   -1; -1; -1; -1; -1; -1; -1; -1; -1; -1; -1; -1; -1; -1; -1; -1;
   -1; -1; -1; -1; -1; -1; -1; -1; -1; -1; -1; -1; -1; -1; -1; -1;
   -1; -1; -1; -1; -1; -1; -1; -1; -1; -1; -1; -1; -1; -1; -1; -1;
   -1; -1; -1; -1; -1; -1; -1; -1; -1; -1; -1; -1; -1; -1; -1; -1;
   -1; -1; -1; -1; -1; -1; -1; -1; -1; -1; -1; -1; -1; -1; -1; -1].

Definition kBase64Chars : list Z := bs "ABCDEFGHIJKLMNOPQRSTUVWXYZabcdefghijklmnopqrstuvwxyz0123456789+/".
Definition kWebSafeBase64Chars : list Z := bs "ABCDEFGHIJKLMNOPQRSTUVWXYZabcdefghijklmnopqrstuvwxyz0123456789-_".

(** ** Decoding *)

Definition is_pad (c : Z) : bool := (c =? 61) || (c =? 46).

(** [GET_INPUT]: the next character that is not skipped, its value and what is
    left; [Stop] leaves the loop of the caller. *)
Inductive input : Type :=
| Got (ch decode : Z) (src : list Z)
| Stop (ch decode : Z) (src : list Z).

Section unescape64.
Context (unbase64 : list Z).

Fixpoint GET_INPUT (src : list Z) (remain : Z) : outcome input :=
  match src with
  | [] => Undefined
  | ch :: src =>
      decode ← mget unbase64 ch;
      if decode <? 0 then
        if is_space ch && (remain <=? zlen src) then GET_INPUT src remain
        else Ok (Stop ch decode src)
      else Ok (Got ch decode src)
  end.

(** The variables at the end of the first loop. *)
Record loop_end := { le_src : list Z; le_destidx : Z; le_decode : Z; le_ch : Z; le_temp : Z; le_state : Z; le_m : list Z }.

(** [unsigned(unbase64[c]) << n] *)
Definition shifted (n : Z) (c : Z) : outcome Z := v ← mget unbase64 c; Ok (u32 (Z.shiftl (u32 v) n)).

(** [temp] of four characters; [None] when one of the first three is zero, so
    that [temp] is not assigned. *)
Definition four_at_once (c0 c1 c2 c3 : Z) : outcome (option Z) :=
  if (c0 =? 0) || (c1 =? 0) || (c2 =? 0) then Ok None
  else
    a ← shifted 18 c0; b ← shifted 12 c1; c ← shifted 6 c2; d ← shifted 0 c3;
    Ok (Some (Z.lor (Z.lor (Z.lor a b) c) d)).

(** Three bytes of [temp]; [None]: the buffer is too small. *)
Definition put3 (szdest destidx temp : Z) (m : list Z) : outcome (option (list Z)) :=
  if szdest <? destidx + 3 then Ok None
  else
    m ← mwrite (destidx + 2) [u8 temp] m;
    let temp := Z.shiftr temp 8 in
    m ← mwrite (destidx + 1) [u8 temp] m;
    let temp := Z.shiftr temp 8 in
    m ← mwrite destidx [u8 temp] m;
    Ok (Some m).

(** [temp = (temp << 6) | decode] *)
Definition shift6 (temp decode : Z) : Z := Z.lor (u32 (Z.shiftl temp 6)) (u32 decode).

(** Four characters one by one: [inl] leaves the loop, [inr] goes on with the
    last character, its value, what is left and [temp]. *)
Definition one_by_one (src : list Z) (temp : Z) : outcome ((Z * Z * list Z * Z * Z) + (Z * Z * list Z * Z)) :=
  r ← GET_INPUT src 4;
  match r with
  | Stop ch decode src => Ok (inl (ch, decode, src, temp, 0))
  | Got ch decode src =>
      let temp := u32 decode in
      r ← GET_INPUT src 3;
      match r with
      | Stop ch decode src => Ok (inl (ch, decode, src, temp, 1))
      | Got ch decode src =>
          let temp := shift6 temp decode in
          r ← GET_INPUT src 2;
          match r with
          | Stop ch decode src => Ok (inl (ch, decode, src, temp, 2))
          | Got ch decode src =>
              let temp := shift6 temp decode in
              r ← GET_INPUT src 1;
              match r with
              | Stop ch decode src => Ok (inl (ch, decode, src, temp, 3))
              | Got ch decode src => Ok (inr (ch, decode, src, shift6 temp decode))
              end
          end
      end
  end.

(** [while (szsrc >= 4)]; [None]: the function returns false. *)
Fixpoint loop4 (n : nat) (szdest : Z) (src : list Z) (destidx decode ch temp : Z) (m : list Z) : outcome (option loop_end) :=
  match n with
  | O => Undefined
  | S n =>
      match src with
      | c0 :: c1 :: c2 :: c3 :: rest =>
          t ← four_at_once c0 c1 c2 c3;
          let temp := default temp t in
          let bad := match t with None => true | Some t => negb (Z.land t 0x80000000 =? 0) end in
          r ← (if bad then one_by_one src temp else Ok (inr (ch, decode, rest, temp)));
          match r with
          | inl (ch, decode, src, temp, state) =>
              Ok (Some {| le_src := src; le_destidx := destidx; le_decode := decode; le_ch := ch; le_temp := temp;
                          le_state := state; le_m := m |})
          | inr (ch, decode, src, temp) =>
              r ← put3 szdest destidx temp m;
              match r with
              | None => Ok None
              | Some m => loop4 n szdest src (destidx + 3) decode ch (Z.shiftr (Z.shiftr temp 8) 8) m
              end
          end
      | _ =>
          Ok (Some {| le_src := src; le_destidx := destidx; le_decode := decode; le_ch := ch; le_temp := temp;
                      le_state := 0; le_m := m |})
      end
  end.

(** The loop over the characters that are left: [None] if the function
    returns false, else the characters from the first pad on, the position in
    the result, [temp], [state] and the memory. *)
Fixpoint loop1 (szdest : Z) (src : list Z) (destidx temp state : Z) (m : list Z) : outcome (option (list Z * Z * Z * Z * list Z)) :=
  match src with
  | [] => Ok (Some ([], destidx, temp, state, m))
  | ch :: rest =>
      decode ← mget unbase64 ch;
      if decode <? 0 then
        if is_space ch then loop1 szdest rest destidx temp state m
        else if is_pad ch then Ok (Some (src, destidx, temp, state, m))
        else Ok None
      else
        let temp := shift6 temp decode in
        let state := state + 1 in
        if state =? 4 then
          r ← put3 szdest destidx temp m;
          match r with
          | None => Ok None
          | Some m => loop1 szdest rest (destidx + 3) 0 0 m
          end
        else loop1 szdest rest destidx temp state m
  end.

(** What is left over: the position behind the result, the number of pads
    that is expected and the memory. *)
Definition leftover (szdest destidx temp state : Z) (m : list Z) : outcome (option (Z * Z * list Z)) :=
  if state =? 0 then Ok (Some (destidx, 0, m))
  else if state =? 1 then Ok None
  else if state =? 2 then
    if szdest <? destidx + 1 then Ok None
    else m ← mwrite destidx [u8 (Z.shiftr temp 4)] m; Ok (Some (destidx + 1, 2, m))
  else if state =? 3 then
    if szdest <? destidx + 2 then Ok None
    else
      let temp := Z.shiftr temp 2 in
      m ← mwrite (destidx + 1) [u8 temp] m;
      let temp := Z.shiftr temp 8 in
      m ← mwrite destidx [u8 temp] m;
      Ok (Some (destidx + 2, 1, m))
  else Abort.

(** The pads of the rest; [None]: another character that is not a space.  The
    counter of the source is an [int], which 2^31 pads would overflow. *)
Fixpoint count_pads (src : list Z) (equals : Z) : option Z :=
  match src with
  | [] => Some equals
  | c :: src => if is_pad c then count_pads src (equals + 1) else if is_space c then count_pads src equals else None
  end.

(** From the [switch] on: the length of the result and the memory, or [None]
    if the function returns false. *)
Definition finish (szdest : Z) (src : list Z) (destidx temp state : Z) (m : list Z) : outcome (option (Z * list Z)) :=
  r ← leftover szdest destidx temp state m;
  match r with
  | None => Ok None
  | Some (destidx, expected_equals, m) =>
      match count_pads src 0 with
      | None => Ok None
      | Some equals =>
          if (equals =? 0) || (equals =? expected_equals) then Ok (Some (destidx, m)) else Ok None
      end
  end.

Definition after_loop4 (szdest : Z) (e : loop_end) : outcome (option (Z * list Z)) :=
  let '(Build_loop_end src destidx decode ch temp state m) := e in
  if (decode <? 0) && negb (is_pad ch) && negb (is_space ch) then Ok None else
  if is_pad ch then finish szdest (ch :: src) destidx temp state m
  else
    r ← loop1 szdest src destidx temp state m;
    match r with
    | None => Ok None
    | Some (src, destidx, temp, state, m) => finish szdest src destidx temp state m
    end.

Definition Base64UnescapeInternal (src : list Z) (szdest : Z) (m : list Z) : outcome (option (Z * list Z)) :=
  r ← loop4 (S (length src)) szdest src 0 0 0 0 m;
  match r with
  | None => Ok None
  | Some e => after_loop4 szdest e
  end.

(** The version for strings: whether it succeeds, and [*dest]. *)
Definition Base64UnescapeInternal_string (fresh : Z -> list Z) (src : list Z) : outcome (bool * list Z) :=
  let slen := zlen src in
  let dest_len := 3 * (slen `div` 4) + slen `mod` 4 in
  r ← Base64UnescapeInternal src dest_len (fresh dest_len);
  match r with
  | None => Ok (false, [])
  | Some (len, m) => _ ← check (len <=? dest_len); Ok (true, ztake len m)
  end.

End unescape64.

Definition base64_unescape := Base64UnescapeInternal_string kUnBase64.
Definition web_safe_base64_unescape := Base64UnescapeInternal_string kUnWebSafeBase64.

(** ** Encoding *)

Definition CalculateBase64EscapedLenInternal (input_len : Z) (do_padding : bool) : outcome Z :=
  let len := u64 (input_len `div` 3 * 4) in
  let len :=
    if input_len `mod` 3 =? 0 then len
    else if input_len `mod` 3 =? 1 then (let len := u64 (len + 2) in if do_padding then u64 (len + 2) else len)
    else (let len := u64 (len + 3) in if do_padding then u64 (len + 1) else len) in
  _ ← check (input_len <=? len);
  Ok len.

Section escape64.
Context (base64 : list Z).

(** [cur_dest[0]] to [cur_dest[3]] of 24 bits. *)
Definition put4 (cur_dest in_ : Z) (m : list Z) : outcome (list Z) :=
  c ← mget base64 (Z.shiftr in_ 18); m ← mwrite cur_dest [c] m;
  let in_ := Z.land in_ 0x3FFFF in
  c ← mget base64 (Z.shiftr in_ 12); m ← mwrite (cur_dest + 1) [c] m;
  let in_ := Z.land in_ 0xFFF in
  c ← mget base64 (Z.shiftr in_ 6); m ← mwrite (cur_dest + 2) [c] m;
  let in_ := Z.land in_ 0x3F in
  c ← mget base64 in_; mwrite (cur_dest + 3) [c] m.

(** [while (cur_src < limit_src - 3)]: at least four bytes are left. *)
Fixpoint escape_loop4 (cur_src : list Z) (cur_dest : Z) (m : list Z) : outcome (list Z * Z * list Z) :=
  match cur_src with
  | a :: b :: c :: ((d :: _) as rest) =>
      let in_ := Z.shiftr (Z.lor (Z.lor (Z.lor (Z.shiftl a 24) (Z.shiftl b 16)) (Z.shiftl c 8)) d) 8 in
      m ← put4 cur_dest in_ m;
      escape_loop4 rest (cur_dest + 4) m
  | _ => Ok (cur_src, cur_dest, m)
  end.

(** The last bytes, up to three, with [szdest] bytes of room: what the function
    returns and the memory. *)
Definition escape_tail (cur_src : list Z) (cur_dest szdest : Z) (do_padding : bool) (m : list Z) : outcome (Z * list Z) :=
  match cur_src with
  | [] => Ok (cur_dest, m)
  | [a] =>
      if szdest <? 2 then Ok (0, m) else
      let in_ := a in
      c ← mget base64 (Z.shiftr in_ 2); m ← mwrite cur_dest [c] m;
      let in_ := Z.land in_ 0x3 in
      c ← mget base64 (Z.shiftl in_ 4); m ← mwrite (cur_dest + 1) [c] m;
      let cur_dest := cur_dest + 2 in
      let szdest := szdest - 2 in
      if do_padding then
        if szdest <? 2 then Ok (0, m)
        else m ← mwrite cur_dest [61] m; m ← mwrite (cur_dest + 1) [61] m; Ok (cur_dest + 2, m)
      else Ok (cur_dest, m)
  | [a; b] =>
      if szdest <? 3 then Ok (0, m) else
      let in_ := Z.lor (Z.shiftl a 8) b in
      c ← mget base64 (Z.shiftr in_ 10); m ← mwrite cur_dest [c] m;
      let in_ := Z.land in_ 0x3FF in
      c ← mget base64 (Z.shiftr in_ 4); m ← mwrite (cur_dest + 1) [c] m;
      let in_ := Z.land in_ 0x00F in
      c ← mget base64 (Z.shiftl in_ 2); m ← mwrite (cur_dest + 2) [c] m;
      let cur_dest := cur_dest + 3 in
      let szdest := szdest - 3 in
      if do_padding then
        if szdest <? 1 then Ok (0, m)
        else m ← mwrite cur_dest [61] m; Ok (cur_dest + 1, m)
      else Ok (cur_dest, m)
  | [a; b; c] =>
      if szdest <? 4 then Ok (0, m) else
      let in_ := Z.shiftl a 16 + Z.lor (Z.shiftl b 8) c in
      m ← put4 cur_dest in_ m;
      Ok (cur_dest + 4, m)
  | _ => Abort
  end.

Definition Base64EscapeInternal (src : list Z) (szdest : Z) (do_padding : bool) (m : list Z) : outcome (Z * list Z) :=
  if u64 (szdest * 3) <? u64 (zlen src * 4) then Ok (0, m) else
  let limit_dest := szdest in
  '(cur_src, cur_dest, m) ← escape_loop4 src 0 m;
  escape_tail cur_src cur_dest (limit_dest - cur_dest) do_padding m.

Definition Base64EscapeInternal_string (fresh : Z -> list Z) (src : list Z) (do_padding : bool) : outcome (list Z) :=
  calc_escaped_size ← CalculateBase64EscapedLenInternal (zlen src) do_padding;
  '(escaped_len, m) ← Base64EscapeInternal src calc_escaped_size do_padding (fresh calc_escaped_size);
  _ ← check (calc_escaped_size =? escaped_len);
  Ok (ztake escaped_len m).

End escape64.

Definition base64_escape (fresh : Z -> list Z) (src : list Z) : outcome (list Z) :=
  Base64EscapeInternal_string kBase64Chars fresh src true.
Definition web_safe_base64_escape (fresh : Z -> list Z) (src : list Z) : outcome (list Z) :=
  Base64EscapeInternal_string kWebSafeBase64Chars fresh src false.

(** ** What base64 text stands for *)

(** The bytes of a list of six-bit values; bits that do not fill a byte are
    dropped. *)
Fixpoint sextets (vs : list Z) : list Z :=
  match vs with
  | v0 :: v1 :: v2 :: v3 :: vs =>
      [v0 * 4 + v1 `div` 16; v1 `mod` 16 * 16 + v2 `div` 4; v2 `mod` 4 * 64 + v3] ++ sextets vs
  | [v0; v1; v2] => [v0 * 4 + v1 `div` 16; v1 `mod` 16 * 16 + v2 `div` 4]
  | [v0; v1] => [v0 * 4 + v1 `div` 16]
  | _ => []
  end.

Definition expected_pads (n : Z) : Z := if n `mod` 4 =? 2 then 2 else if n `mod` 4 =? 3 then 1 else 0.

Section meaning.
Context (unbase64 : list Z).

Definition value (c : Z) : Z := default (-1) (zget unbase64 c).
Definition is_letter (c : Z) : bool := 0 <=? value c.

(** White space is ignored.  The text is letters and then pads: none, or as
    many as complete the last group of four; a group of one letter has no
    meaning.  [vs] are the values of letters before the text. *)
Definition meaning_from (vs s : list Z) : option (list Z) :=
  let t := List.filter (fun c => negb (is_space c)) s in
  let letters := run is_letter (length t) t in
  let pads := zdrop (zlen letters) t in
  let vs := vs ++ map value letters in
  if forallb is_pad pads && ((zlen pads =? 0) || (zlen pads =? expected_pads (zlen vs))) && negb (zlen vs `mod` 4 =? 1)
  then Some (sextets vs) else None.

Definition meaning (s : list Z) : option (list Z) := meaning_from [] s.

End meaning.

(** The text of [src] in an alphabet. *)
Fixpoint base64_text (letter : Z -> Z) (padding : bool) (src : list Z) : list Z :=
  match src with
  | a :: b :: c :: src =>
      [letter (a `div` 4); letter (a `mod` 4 * 16 + b `div` 16); letter (b `mod` 16 * 4 + c `div` 64); letter (c `mod` 64)]
      ++ base64_text letter padding src
  | [a; b] =>
      [letter (a `div` 4); letter (a `mod` 4 * 16 + b `div` 16); letter (b `mod` 16 * 4)] ++ (if padding then [61] else [])
  | [a] => [letter (a `div` 4); letter (a `mod` 4 * 16)] ++ (if padding then [61; 61] else [])
  | [] => []
  end.

(** An alphabet and the table of its values. *)
Class Codec (unbase64 base64 : list Z) : Prop := {
  codec_value : forall c, byte_ok c -> mget unbase64 c = Ok (value unbase64 c) /\ -1 <= value unbase64 c < 64;
  codec_letter : forall c, byte_ok c -> 0 <= value unbase64 c -> is_space c = false /\ is_pad c = false /\ c <> 0;
  codec_inverse : forall v, 0 <= v < 64 -> exists c, mget base64 v = Ok c /\ byte_ok c /\ value unbase64 c = v }.

(** The laws, checked on all bytes. *)
Definition codec_check (unbase64 base64 : list Z) (c : Z) : bool :=
  match zget unbase64 c with
  | Some v => between (-1) 63 v && (negb (0 <=? v) || (negb (is_space c) && negb (is_pad c) && negb (c =? 0)))
  | None => false
  end &&
  (negb (c <? 64) || match zget base64 c with Some l => between 0 255 l && (value unbase64 l =? c) | None => false end).

Lemma codec_checked unbase64 base64 : forallb (codec_check unbase64 base64) (seqZ 0 256) = true -> Codec unbase64 base64.
Proof.
  intros H. pose proof (byte_check _ H) as Hc. clear H.
  assert (Hv : forall c, byte_ok c -> zget unbase64 c = Some (value unbase64 c) /\ -1 <= value unbase64 c < 64 /\
    (0 <= value unbase64 c -> is_space c = false /\ is_pad c = false /\ c <> 0)).
  { intros c Hb. specialize (Hc c Hb). unfold codec_check in Hc. apply andb_true_iff in Hc as [Hc _].
    unfold value. destruct (zget unbase64 c) as [v|]; [|done]. cbn [default from_option]. unfold id. apply andb_true_iff in Hc as [H1 H2].
    unfold between in H1. zbool. split_and!; [done|lia|lia|]. intros Hv0. rewrite (proj2 (Z.leb_le _ _)) in H2 by done. cbn [negb orb] in H2.
    rewrite !andb_true_iff, !negb_true_iff in H2. destruct H2 as [[? ?] ?]. zbool. done. }
  split.
  - intros c Hb. destruct (Hv c Hb) as (E & Hr & _). unfold mget. by rewrite E.
  - intros c Hb H0. by apply Hv.
  - intros v Hr. specialize (Hc v ltac:(lia)). unfold codec_check in Hc. apply andb_true_iff in Hc as [_ Hc].
    rewrite (proj2 (Z.ltb_lt _ _)) in Hc by lia. cbn [negb orb] in Hc. unfold mget. destruct (zget base64 v) as [c|]; [|done].
    apply andb_true_iff in Hc as [H1 H2]. unfold between in H1. zbool. exists c. split; [done|]. split; [unfold byte_ok; lia|done].
Qed.

#[export] Instance standard_codec : Codec kUnBase64 kBase64Chars.
Proof. apply codec_checked. vm_compute. reflexivity. Qed.

#[export] Instance web_safe_codec : Codec kUnWebSafeBase64 kWebSafeBase64Chars.
Proof. apply codec_checked. vm_compute. reflexivity. Qed.

(** ** One character more *)

Lemma pad_not_space c : is_pad c = true -> is_space c = false.
Proof. unfold is_pad. intros H. apply orb_true_iff in H as [H|H]; zbool; by subst c. Qed.

Section decoding.
Context (unbase64 base64 : list Z) {HC : Codec unbase64 base64}.

Notation val := (value unbase64).
Notation lett := (is_letter unbase64).
Notation mean := (meaning_from unbase64).

Lemma letter_facts c : byte_ok c -> (0 <= val c -> lett c = true /\ is_space c = false /\ is_pad c = false) /\
  (val c < 0 -> lett c = false).
Proof using HC.
  intros Hc. unfold is_letter. split; intros H.
  - destruct (codec_letter c Hc H) as (? & ? & _). rewrite (proj2 (Z.leb_le _ _)) by done. done.
  - by apply Z.leb_gt.
Qed.

Lemma meaning_space vs c s : is_space c = true -> mean vs (c :: s) = mean vs s.
Proof. intros H. unfold meaning_from. cbn [List.filter]. by rewrite H. Qed.

Lemma meaning_letter vs c s : byte_ok c -> 0 <= val c -> mean vs (c :: s) = mean (vs ++ [val c]) s.
Proof using HC.
  intros Hc Hv. destruct (proj1 (letter_facts c Hc) Hv) as (Hl & Hs & _). unfold meaning_from. cbn [List.filter].
  rewrite Hs. cbn [negb length run]. rewrite Hl. cbn [map]. set (t := List.filter _ s). set (l := run _ _ _).
  assert (zdrop (zlen (c :: l)) (c :: t) = zdrop (zlen l) t) as ->.
  { rewrite zlen_cons. unfold zdrop. replace (Z.to_nat (zlen l + 1)) with (S (Z.to_nat (zlen l))) by (pose proof (zlen_nonneg l); lia). done. }
  by rewrite <- app_assoc.
Qed.

Lemma meaning_other vs c s : byte_ok c -> val c < 0 -> is_space c = false ->
  mean vs (c :: s) =
    if is_pad c then
      match count_pads (c :: s) 0 with
      | Some n => if ((n =? 0) || (n =? expected_pads (zlen vs))) && negb (zlen vs `mod` 4 =? 1) then Some (sextets vs) else None
      | None => None
      end
    else None.
Proof using HC.
  intros Hc Hv Hs. pose proof (proj2 (letter_facts c Hc) Hv) as Hl. unfold meaning_from. cbn [List.filter]. rewrite Hs.
  cbn [negb length run]. rewrite Hl. cbn [map]. rewrite app_nil_r. set (t := List.filter _ s). change (zdrop (zlen []) (c :: t)) with (c :: t). cbn [forallb].
  destruct (is_pad c) eqn:Hp; cbn [andb count_pads]; [|done]. rewrite Hp.
  assert (H : forall s n, count_pads s n =
    let t := List.filter (fun c => negb (is_space c)) s in if forallb is_pad t then Some (n + zlen t) else None).
  { clear. induction s as [|c s IH]; intros n; cbn [count_pads List.filter]; [cbn [forallb]; by rewrite (@zlen_nil Z), Z.add_0_r|].
    pose proof (pad_not_space c) as Hps.
    destruct (is_pad c) eqn:Hp; [rewrite (Hps eq_refl)|destruct (is_space c)]; cbn [negb forallb]; rewrite ?Hp, ?IH; [|done|done].
    cbv zeta. cbn [andb]. case_if; [|done]. rewrite zlen_cons. f_equal. lia. }
  rewrite H. cbv zeta. fold t. destruct (forallb is_pad t); [|done]. rewrite zlen_cons.
  replace (0 + 1 + zlen t) with (zlen t + 1) by lia. done.
Qed.

Lemma meaning_nil vs : mean vs [] = if negb (zlen vs `mod` 4 =? 1) then Some (sextets vs) else None.
Proof. unfold meaning_from. cbn. by rewrite app_nil_r. Qed.

Lemma meaning_four v0 v1 v2 v3 s :
  mean [v0; v1; v2; v3] s = (fun out => sextets [v0; v1; v2; v3] ++ out) <$> mean [] s.
Proof.
  unfold meaning_from. set (t := List.filter _ s). set (l := run _ _ _). cbn [app].
  assert (zlen (v0 :: v1 :: v2 :: v3 :: map val l) = zlen (map val l) + 1 * 4) as -> by (rewrite !zlen_cons; lia).
  unfold expected_pads. rewrite Z.mod_add by lia. case_if; done.
Qed.

(** ** [GET_INPUT] *)

Lemma get_input_ok s remain : bytes_ok s -> 1 <= remain <= zlen s ->
  exists ch s', bytes_ok s' /\ byte_ok ch /\ zlen s' + 1 <= zlen s /\
    ((GET_INPUT unbase64 s remain = Ok (Got ch (val ch) s') /\ 0 <= val ch /\ remain - 1 <= zlen s' /\
        forall vs, mean vs s = mean (vs ++ [val ch]) s') \/
     (GET_INPUT unbase64 s remain = Ok (Stop ch (val ch) s') /\ val ch < 0 /\
        forall vs, mean vs s = mean vs (ch :: s'))).
Proof using HC.
  intros H. induction H as [|c s Hc Hs IH]; intros Hr; [rewrite (@zlen_nil Z) in Hr; lia|]. rewrite zlen_cons in *. cbn [GET_INPUT].
  destruct (codec_value c Hc) as [-> Hv]. cbn [mbind outcome_bind]. destruct (val c <? 0) eqn:Ev; zbool.
  - destruct (is_space c) eqn:Es; cbn [andb].
    + destruct (remain <=? zlen s) eqn:Er; zbool.
      * destruct IH as (ch & s' & Hb & Hch & Hl & Hor); [lia|]. exists ch, s'. split_and!; [done..|lia|].
        destruct Hor as [(E & H0 & H1 & H2)|(E & H0 & H1)]; [left|right]; split_and!; try done; intros vs; by rewrite meaning_space.
      * exists c, s. split_and!; [done..|lia|]. right. by split_and!.
    + exists c, s. split_and!; [done..|lia|]. right. by split_and!.
  - exists c, s. split_and!; [done..|lia|]. left. split_and!; [done|lia|lia|]. intros vs. by apply meaning_letter.
Qed.

(** ** Six bits at a time *)

Definition num (vs : list Z) : Z := fold_left (fun n v => n * 64 + v) vs 0.
Definition six_bits (vs : list Z) : Prop := Forall (fun v => 0 <= v < 64) vs.

(** The low bits of [temp] are the values [vs]. *)
Definition holds (temp : Z) (vs : list Z) : Prop :=
  0 <= temp < 2 ^ 32 /\ six_bits vs /\ temp `mod` 2 ^ (6 * zlen vs) = num vs.

Lemma shift6_eq temp d : 0 <= temp < 2 ^ 32 -> 0 <= d < 64 -> shift6 temp d = u32 (temp * 64) + d.
Proof.
  intros Ht Hd. unfold shift6. rewrite Z.shiftl_mul_pow2 by lia. change (2 ^ 6) with 64. rewrite (u32_small d) by lia.
  replace (u32 (temp * 64)) with (Z.shiftl (u32 (temp * 64) `div` 64) 6).
  - rewrite Z.lor_comm, lor_fields by lia. change (2 ^ 6) with 64. rewrite Z.shiftl_mul_pow2 by lia. change (2 ^ 6) with 64. lia.
  - rewrite Z.shiftl_mul_pow2 by lia. change (2 ^ 6) with 64. unfold u32. dlia.
Qed.

Lemma shift6_holds temp vs d : holds temp vs -> zlen vs < 4 -> 0 <= d < 64 -> holds (shift6 temp d) (vs ++ [d]).
Proof.
  intros (Ht & Hvs & Hn) Hk Hd. rewrite shift6_eq by done. split_and!.
  - pose proof (u32_range (temp * 64)). lia.
  - unfold u32. change (2 ^ 32) with 4294967296. dlia.
  - apply Forall_app. split; [done|constructor; [lia|constructor]].
  - unfold num. rewrite fold_left_app. cbn [fold_left]. fold (num vs). rewrite <- Hn, zlen_app. change (zlen [d]) with 1.
    pose proof (zlen_nonneg vs). unfold u32.
    assert (zlen vs = 0 \/ zlen vs = 1 \/ zlen vs = 2 \/ zlen vs = 3) as [E|[E|[E|E]]] by lia; rewrite E; cbn; dlia.
Qed.

Lemma holds_nil temp : 0 <= temp < 2 ^ 32 -> holds temp [].
Proof. intros Ht. split_and!; [lia..|constructor|]. cbn. by rewrite Z.mod_1_r. Qed.

(** The bytes of four values in [temp]. *)
Lemma four_bytes temp v0 v1 v2 v3 : holds temp [v0; v1; v2; v3] ->
  [u8 (Z.shiftr (Z.shiftr temp 8) 8); u8 (Z.shiftr temp 8); u8 temp] = sextets [v0; v1; v2; v3].
Proof.
  intros (Ht & Hvs & Hn). unfold six_bits in Hvs. rewrite !Forall_cons in Hvs. destruct Hvs as (H0 & H1 & H2 & H3 & _).
  rewrite !Z.shiftr_div_pow2 by lia. change (2 ^ 8) with 256. unfold num in Hn. cbn [fold_left] in Hn.
  change (2 ^ (6 * zlen [v0; v1; v2; v3])) with 16777216 in Hn. cbn [sextets app]. unfold u8.
  f_equal; [dlia|f_equal; [dlia|f_equal; dlia]].
Qed.

Lemma three_writes d a b c m : 0 <= d -> d + 3 <= zlen m ->
  (m ← mwrite (d + 2) [c] m; m ← mwrite (d + 1) [b] m; mwrite d [a] m) = Ok (splice d [a; b; c] m).
Proof.
  intros Hd Hm. destruct (split_at d m) as (x & y & -> & Hx & Hy); [lia|]. rewrite zlen_app in Hm.
  destruct (split_at 3 y) as (w & z & -> & Hw & _); [lia|]. destruct w as [|w0 [|w1 [|w2 [|? w]]]]; try (unfold zlen in Hw; cbn in Hw; lia).
  pose proof (mwrite_mid (x ++ [w0; w1]) [w2] z [c] (d + 2)) as E1. pose proof (mwrite_mid (x ++ [w0]) [w1] ([c] ++ z) [b] (d + 1)) as E2.
  pose proof (mwrite_mid x [w0] ([b] ++ [c] ++ z) [a] d) as E3. rewrite <- !app_assoc in E1, E2. cbn [app] in *.
  rewrite E1 by zl. cbn [mbind outcome_bind]. rewrite E2 by zl. cbn [mbind outcome_bind]. rewrite E3 by (done || lia). f_equal.
  unfold splice. rewrite ztake_app_exact by done. f_equal. cbn [app]. do 3 f_equal.
  change (w0 :: w1 :: w2 :: z) with ([w0; w1; w2] ++ z). rewrite app_assoc. symmetry. apply zdrop_app_exact.
  rewrite zlen_app, Hx. done.
Qed.

Lemma two_writes d a b m : 0 <= d -> d + 2 <= zlen m -> (m ← mwrite (d + 1) [b] m; mwrite d [a] m) = Ok (splice d [a; b] m).
Proof.
  intros Hd Hm. destruct (split_at d m) as (x & y & -> & Hx & Hy); [lia|]. rewrite zlen_app in Hm.
  destruct (split_at 2 y) as (w & z & -> & Hw & _); [lia|]. destruct w as [|w0 [|w1 [|? w]]]; try (unfold zlen in Hw; cbn in Hw; lia).
  pose proof (mwrite_mid (x ++ [w0]) [w1] z [b] (d + 1)) as E2. pose proof (mwrite_mid x [w0] ([b] ++ z) [a] d) as E3.
  rewrite <- !app_assoc in E2. cbn [app] in *. rewrite E2 by zl. cbn [mbind outcome_bind]. rewrite E3 by (done || lia). f_equal.
  unfold splice. rewrite ztake_app_exact by done. f_equal. cbn [app]. do 2 f_equal.
  change (w0 :: w1 :: z) with ([w0; w1] ++ z). rewrite app_assoc. symmetry. apply zdrop_app_exact. rewrite zlen_app, Hx. done.
Qed.

Lemma put3_ok szdest destidx temp m v0 v1 v2 v3 : holds temp [v0; v1; v2; v3] -> 0 <= destidx -> destidx + 3 <= szdest -> szdest = zlen m ->
  put3 szdest destidx temp m = Ok (Some (splice destidx (sextets [v0; v1; v2; v3]) m)).
Proof.
  intros Ht Hd Hs Hm. unfold put3. rewrite (proj2 (Z.ltb_ge _ _)) by lia. cbv zeta.
  pose proof (three_writes destidx (u8 (Z.shiftr (Z.shiftr temp 8) 8)) (u8 (Z.shiftr temp 8)) (u8 temp) m Hd ltac:(lia)) as E.
  rewrite (four_bytes temp v0 v1 v2 v3 Ht) in E. destruct (mwrite (destidx + 2) _ m) as [m1| |]; [|done..]. cbn [mbind outcome_bind] in *.
  destruct (mwrite (destidx + 1) _ m1) as [m2| |]; [|done..]. cbn [mbind outcome_bind] in *. by rewrite E.
Qed.

(** ** The end of the text *)

(** The result [r] of the code that goes on at position [destidx] of the
    result [m], for text that means [x]. *)
Definition yields (destidx : Z) (m : list Z) (r : outcome (option (Z * list Z))) (x : option (list Z)) : Prop :=
  match x with
  | None => r = Ok None
  | Some out =>
      exists m', r = Ok (Some (destidx + zlen out, m')) /\ zlen m' = zlen m /\ ztake (destidx + zlen out) m' = ztake destidx m ++ out
  end.

Lemma yields_splice destidx m s : 0 <= destidx -> destidx + zlen s <= zlen m ->
  yields destidx m (Ok (Some (destidx + zlen s, splice destidx s m))) (Some s).
Proof. intros Hd Hs. eexists. split_and!; [reflexivity|by apply zlen_splice|by apply ztake_splice]. Qed.

Lemma yields_after destidx m s r x : 0 <= destidx -> destidx + zlen s <= zlen m ->
  yields (destidx + zlen s) (splice destidx s m) r x -> yields destidx m r ((fun out => s ++ out) <$> x).
Proof.
  intros Hd Hs. destruct x as [out|]; [|done]. cbn. intros (m' & -> & Hm & Ht). exists m'. rewrite zlen_app, Z.add_assoc.
  split_and!; [done|by rewrite Hm, zlen_splice|]. by rewrite Ht, ztake_splice, <- app_assoc by done.
Qed.

(** [N] characters and a result of the size that is computed from it. *)
Context (N : Z).
Definition dest_size : Z := 3 * (N `div` 4) + N `mod` 4.

Lemma finish64_ok s vs j temp m : holds temp vs -> zlen vs < 4 -> 0 <= j -> 4 * j + zlen vs <= N -> zlen m = dest_size ->
  yields (3 * j) m (finish dest_size s (3 * j) temp (zlen vs) m)
    match count_pads s 0 with
    | Some n => if ((n =? 0) || (n =? expected_pads (zlen vs))) && negb (zlen vs `mod` 4 =? 1) then Some (sextets vs) else None
    | None => None
    end.
Proof.
  intros (Ht & Hvs & Hn) Hk Hj HN Hm. unfold finish, leftover, expected_pads. unfold six_bits in Hvs.
  assert (3 * j + (if zlen vs =? 2 then 1 else if zlen vs =? 3 then 2 else 0) <= dest_size) as Hsize.
  { unfold dest_size. pose proof (zlen_nonneg vs). repeat case_if; zbool; dlia. }
  destruct vs as [|v0 [|v1 [|v2 [|v3 vs]]]]; [| | | |rewrite !zlen_cons in Hk; pose proof (zlen_nonneg vs); lia].
  - change (zlen []) with 0. cbn [Z.eqb mbind outcome_bind]. destruct (count_pads s 0) as [n|]; [|done].
    change (0 `mod` 4) with 0. cbn [Z.eqb negb]. rewrite andb_true_r. case_if; [|done]. exists m. rewrite Z.add_0_r, app_nil_r. done.
  - change (zlen [v0]) with 1. cbn [Z.eqb Pos.eqb mbind outcome_bind]. change (1 `mod` 4 =? 1) with true. cbn [negb].
    destruct (count_pads s 0); [|done]. by rewrite andb_false_r.
  - rewrite !Forall_cons in Hvs. destruct Hvs as (H0 & H1 & _). change (zlen [v0; v1]) with 2 in *. cbn [Z.eqb Pos.eqb] in *.
    rewrite (proj2 (Z.ltb_ge _ _)) by lia. rewrite mwrite_ok by (change (zlen [_]) with 1; lia). cbn [mbind outcome_bind].
    change (2 `mod` 4) with 2. cbn [Z.eqb Pos.eqb negb]. destruct (count_pads s 0) as [n|]; [|done]. rewrite andb_true_r. case_if; [|done].
    replace [u8 (Z.shiftr temp 4)] with (sextets [v0; v1]); [apply (yields_splice (3 * j) m (sextets [v0; v1])); [lia|change (zlen (sextets [v0; v1])) with 1; lia]|].
    cbn [sextets]. f_equal. rewrite Z.shiftr_div_pow2 by lia. unfold u8. cbn in Hn |- *. dlia.
  - rewrite !Forall_cons in Hvs. destruct Hvs as (H0 & H1 & H2 & _). change (zlen [v0; v1; v2]) with 3 in *. cbn [Z.eqb Pos.eqb] in *.
    rewrite (proj2 (Z.ltb_ge _ _)) by lia. cbv zeta.
    pose proof (two_writes (3 * j) (u8 (Z.shiftr (Z.shiftr temp 2) 8)) (u8 (Z.shiftr temp 2)) m ltac:(lia) ltac:(lia)) as E.
    destruct (mwrite (3 * j + 1) _ m) as [m1| |]; [|done..]. cbn [mbind outcome_bind] in *. rewrite E. cbn [mbind outcome_bind].
    change (3 `mod` 4) with 3. cbn [Z.eqb Pos.eqb negb]. destruct (count_pads s 0) as [n|]; [|done]. rewrite andb_true_r. case_if; [|done].
    replace [u8 (Z.shiftr (Z.shiftr temp 2) 8); u8 (Z.shiftr temp 2)] with (sextets [v0; v1; v2]).
    { apply (yields_splice (3 * j) m (sextets [v0; v1; v2])); [lia|change (zlen (sextets [v0; v1; v2])) with 2; lia]. }
    cbn [sextets]. rewrite !Z.shiftr_div_pow2 by lia. unfold u8. cbn in Hn |- *. f_equal; [dlia|f_equal; dlia].
Qed.

(** ** The loop over single characters *)

Definition after1 (s : list Z) (destidx temp state : Z) (m : list Z) : outcome (option (Z * list Z)) :=
  r ← loop1 unbase64 dest_size s destidx temp state m;
  match r with
  | None => Ok None
  | Some (src, destidx, temp, state, m) => finish dest_size src destidx temp state m
  end.

Lemma loop1_ok s vs j temp m : bytes_ok s -> holds temp vs -> zlen vs < 4 -> 0 <= j -> 4 * j + zlen vs + zlen s <= N -> zlen m = dest_size ->
  yields (3 * j) m (after1 s (3 * j) temp (zlen vs) m) (mean vs s).
Proof using HC.
  intros Hs. revert vs j temp m. induction Hs as [|c s Hc Hs IH]; intros vs j temp m Ht Hk Hj HN Hm; unfold after1; cbn [loop1 mbind outcome_bind].
  { rewrite (@zlen_nil Z) in HN. rewrite meaning_nil. apply (finish64_ok [] vs j temp m); (done || lia). }
  rewrite zlen_cons in HN. pose proof (zlen_nonneg s). destruct (codec_value c Hc) as [-> Hv]. cbn [mbind outcome_bind].
  destruct (val c <? 0) eqn:Ev; zbool.
  - destruct (is_space c) eqn:Es.
    { rewrite meaning_space by done. apply IH; (done || lia). }
    rewrite meaning_other by done. destruct (is_pad c); [|done]. cbn [mbind outcome_bind]. apply finish64_ok; (done || lia).
  - assert (holds (shift6 temp (val c)) (vs ++ [val c])) as Ht' by (apply shift6_holds; (done || lia)).
    rewrite meaning_letter by (done || lia). assert (zlen (vs ++ [val c]) = zlen vs + 1) as Hl by zl.
    destruct (zlen vs + 1 =? 4) eqn:E4; zbool.
    + set (ws := vs ++ [val c]) in *. destruct ws as [|v0 [|v1 [|v2 [|v3 [|? ws]]]]];
        try (exfalso; rewrite ?zlen_cons, ?(@zlen_nil Z) in Hl; try pose proof (zlen_nonneg ws); lia).
      assert (3 * j + 3 <= dest_size) by (unfold dest_size; dlia).
      rewrite (put3_ok dest_size (3 * j) _ m v0 v1 v2 v3) by (done || lia). cbn [mbind outcome_bind].
      rewrite meaning_four. apply yields_after; [lia|change (zlen (sextets [v0; v1; v2; v3])) with 3; lia|].
      change (zlen (sextets [v0; v1; v2; v3])) with 3. replace (3 * j + 3) with (3 * (j + 1)) by lia.
      apply (IH [] (j + 1) 0); [apply holds_nil; lia|done|lia|rewrite (@zlen_nil Z); lia|].
      rewrite zlen_splice; [done|lia|change (zlen (sextets [v0; v1; v2; v3])) with 3; lia].
    + rewrite <- Hl. apply IH; (done || lia).
Qed.

(** The result of a step that may return false, and what follows it. *)
Lemma option_outcome {A B} (r : outcome (option A)) (f : A -> outcome (option B)) (k : B -> outcome (option (Z * list Z))) :
  (x ← (y ← r; match y with None => Ok None | Some a => f a end); match x with None => Ok None | Some b => k b end) =
  (y ← r; match y with None => Ok None | Some a => (x ← f a; match x with None => Ok None | Some b => k b end) end).
Proof. destruct r as [[a|]| |]; done. Qed.

(** ** Four characters at once *)

Lemma shifted_ok n c : byte_ok c -> 0 <= n <= 18 ->
  exists x, shifted unbase64 n c = Ok x /\ 0 <= x < 2 ^ 32 /\ (0 <= val c -> x = Z.shiftl (val c) n) /\ (val c < 0 -> Z.testbit x 31 = true).
Proof using HC.
  intros Hc Hn. destruct (codec_value c Hc) as [E Hv]. unfold shifted. rewrite E. cbn [mbind outcome_bind]. eexists. split; [reflexivity|].
  split; [change (2 ^ 32) with 4294967296; apply u32_range|]. split.
  - intros H. rewrite (u32_small (val c)) by lia. apply u32_small. rewrite Z.shiftl_mul_pow2 by lia.
    pose proof (Z.pow_le_mono_r 2 n 18). change (2 ^ 18) with 262144 in *. pose proof (Z.pow_pos_nonneg 2 n). nia.
  - intros H. assert (val c = -1) as -> by lia. unfold u32 at 1. change 4294967296 with (2 ^ 32).
    rewrite Z.mod_pow2_bits_low, Z.shiftl_spec by lia. change (u32 (-1)) with (Z.ones 32). apply Z.ones_spec_low. lia.
Qed.

Lemma pack v0 v1 v2 v3 : 0 <= v0 < 64 -> 0 <= v1 < 64 -> 0 <= v2 < 64 -> 0 <= v3 < 64 ->
  Z.lor (Z.lor (Z.lor (Z.shiftl v0 18) (Z.shiftl v1 12)) (Z.shiftl v2 6)) (Z.shiftl v3 0) = num [v0; v1; v2; v3].
Proof.
  intros H0 H1 H2 H3. assert (forall a b, 0 <= b < 64 -> Z.lor (Z.shiftl a 6) b = a * 64 + b) as Hl.
  { intros a b Hb. rewrite Z.lor_comm, lor_fields by lia. change (2 ^ 6) with 64. lia. }
  rewrite Z.shiftl_0_r. replace 18 with (6 + 12) by lia. rewrite <- Z.shiftl_shiftl, <- Z.shiftl_lor, Hl by lia.
  replace 12 with (6 + 6) by lia. rewrite <- Z.shiftl_shiftl, <- Z.shiftl_lor by lia. rewrite !Hl by lia. done.
Qed.

Lemma four_at_once_ok c0 c1 c2 c3 temp : byte_ok c0 -> byte_ok c1 -> byte_ok c2 -> byte_ok c3 -> 0 <= temp < 2 ^ 32 ->
  exists t, four_at_once unbase64 c0 c1 c2 c3 = Ok t /\ 0 <= default temp t < 2 ^ 32 /\
    (match t with None => true | Some t => negb (Z.land t 0x80000000 =? 0) end = false ->
     (0 <= val c0 /\ 0 <= val c1 /\ 0 <= val c2 /\ 0 <= val c3) /\ holds (default temp t) [val c0; val c1; val c2; val c3]).
Proof using HC.
  intros B0 B1 B2 B3 Ht. unfold four_at_once. case_if; [by exists None|].
  destruct (shifted_ok 18 c0 B0) as (x0 & -> & R0 & P0 & N0); [lia|]. destruct (shifted_ok 12 c1 B1) as (x1 & -> & R1 & P1 & N1); [lia|].
  destruct (shifted_ok 6 c2 B2) as (x2 & -> & R2 & P2 & N2); [lia|]. destruct (shifted_ok 0 c3 B3) as (x3 & -> & R3 & P3 & N3); [lia|].
  cbn [mbind outcome_bind]. eexists. split; [reflexivity|]. cbn [default from_option id]. unfold id.
  assert (0 <= Z.lor (Z.lor (Z.lor x0 x1) x2) x3 < 2 ^ 32) as Hr by (repeat apply lor_range; lia). split; [done|]. intros Hb.
  apply negb_false_iff in Hb. zbool. set (T := Z.lor (Z.lor (Z.lor x0 x1) x2) x3) in *.
  assert (Z.testbit T 31 = false) as Hbit.
  { apply (f_equal (fun z => Z.testbit z 31)) in Hb. rewrite Z.land_spec, Z.bits_0 in Hb. change (Z.testbit 0x80000000 31) with true in Hb.
    by rewrite andb_true_r in Hb. }
  subst T. rewrite !Z.lor_spec, !orb_false_iff in Hbit. destruct Hbit as [[[T0 T1] T2] T3].
  assert (0 <= val c0 /\ 0 <= val c1 /\ 0 <= val c2 /\ 0 <= val c3) as (V0 & V1 & V2 & V3).
  { split_and!; apply Z.nlt_ge; intros Hx; [apply N0 in Hx|apply N1 in Hx|apply N2 in Hx|apply N3 in Hx]; congruence. }
  split; [done|]. pose proof (codec_value c0 B0) as [_ ?]. pose proof (codec_value c1 B1) as [_ ?]. pose proof (codec_value c2 B2) as [_ ?].
  pose proof (codec_value c3 B3) as [_ ?]. rewrite (P0 V0), (P1 V1), (P2 V2), (P3 V3) in *. rewrite pack in * by lia.
  split_and!; [lia..| |]; [repeat (constructor; [lia|]); constructor|].
  change (2 ^ (6 * zlen [val c0; val c1; val c2; val c3])) with 16777216. unfold num. cbn [fold_left]. apply Z.mod_small. lia.
Qed.

(** ** Four characters one by one *)

Definition one_by_one_spec (s : list Z) (r : outcome ((Z * Z * list Z * Z * Z) + (Z * Z * list Z * Z))) : Prop :=
  (exists ch s' temp v0 v1 v2 v3, r = Ok (inr (ch, v3, s', temp)) /\ holds temp [v0; v1; v2; v3] /\ 0 <= v3 /\ is_pad ch = false /\
     bytes_ok s' /\ zlen s' + 4 <= zlen s /\ mean [] s = mean [v0; v1; v2; v3] s') \/
  (exists ch s' temp vs, r = Ok (inl (ch, val ch, s', temp, zlen vs)) /\ holds temp vs /\ zlen vs < 4 /\ byte_ok ch /\ val ch < 0 /\
     bytes_ok s' /\ zlen vs + 1 + zlen s' <= zlen s /\ mean [] s = mean vs (ch :: s')).

Lemma one_by_one_ok s temp : bytes_ok s -> 4 <= zlen s -> 0 <= temp < 2 ^ 32 -> one_by_one_spec s (one_by_one unbase64 s temp).
Proof using HC.
  intros Hs Hl Ht. unfold one_by_one, one_by_one_spec.
  destruct (get_input_ok s 4 Hs) as (c0 & s0 & Hs0 & B0 & L0 & [(-> & V0 & R0 & M0)|(-> & V0 & M0)]); [lia|..]; cbn [mbind outcome_bind].
  2: { right. exists c0, s0, temp, []. specialize (M0 []). split_and!; try done; [by apply holds_nil|rewrite (@zlen_nil Z); lia]. }
  pose proof (codec_value c0 B0) as [_ W0].
  assert (holds (u32 (val c0)) [val c0]) as H0.
  { rewrite u32_small by lia. change (2 ^ 32) with 4294967296. split_and!; [lia..|constructor; [lia|constructor]|]. change (2 ^ (6 * zlen [val c0])) with 64. unfold num. cbn [fold_left]. rewrite Z.mod_small by lia. lia. }
  destruct (get_input_ok s0 3 Hs0) as (c1 & s1 & Hs1 & B1 & L1 & [(-> & V1 & R1 & M1)|(-> & V1 & M1)]); [lia|..]; cbn [mbind outcome_bind].
  2: { right. exists c1, s1, (u32 (val c0)), [val c0]. split_and!; try done; [change (zlen [val c0]) with 1; lia|]. by rewrite M0, <- M1. }
  pose proof (codec_value c1 B1) as [_ W1]. pose proof (shift6_holds _ _ (val c1) H0 ltac:(done) ltac:(lia)) as H1.
  destruct (get_input_ok s1 2 Hs1) as (c2 & s2 & Hs2 & B2 & L2 & [(-> & V2 & R2 & M2)|(-> & V2 & M2)]); [lia|..]; cbn [mbind outcome_bind].
  2: { right. exists c2, s2, (shift6 (u32 (val c0)) (val c1)), [val c0; val c1]. split_and!; try done; [change (zlen [val c0; val c1]) with 2; lia|].
       by rewrite M0, M1, <- M2. }
  pose proof (codec_value c2 B2) as [_ W2]. pose proof (shift6_holds _ _ (val c2) H1 ltac:(done) ltac:(lia)) as H2.
  destruct (get_input_ok s2 1 Hs2) as (c3 & s3 & Hs3 & B3 & L3 & [(-> & V3 & R3 & M3)|(-> & V3 & M3)]); [lia|..]; cbn [mbind outcome_bind].
  2: { right. eexists c3, s3, _, [val c0; val c1; val c2]. split_and!; try done; [change (zlen [val c0; val c1; val c2]) with 3; lia|].
       by rewrite M0, M1, M2, <- M3. }
  pose proof (codec_value c3 B3) as [_ W3]. pose proof (shift6_holds _ _ (val c3) H2 ltac:(done) ltac:(lia)) as H3.
  left. eexists c3, s3, _, (val c0), (val c1), (val c2), (val c3). split_and!; try done; [by apply letter_facts|lia|].
  by rewrite M0, M1, M2, M3.
Qed.

(** ** The whole decoder *)

Definition after4 (n : nat) (s : list Z) (destidx decode ch temp : Z) (m : list Z) : outcome (option (Z * list Z)) :=
  r ← loop4 unbase64 n dest_size s destidx decode ch temp m;
  match r with
  | None => Ok None
  | Some e => after_loop4 unbase64 dest_size e
  end.

(** The first loop stops in front of [ch]. *)
Lemma stop64_ok ch s temp vs j m : holds temp vs -> zlen vs < 4 -> byte_ok ch -> val ch < 0 -> bytes_ok s -> 0 <= j ->
  4 * j + zlen vs + 1 + zlen s <= N -> zlen m = dest_size ->
  yields (3 * j) m (after_loop4 unbase64 dest_size
    {| le_src := s; le_destidx := 3 * j; le_decode := val ch; le_ch := ch; le_temp := temp; le_state := zlen vs; le_m := m |})
    (mean vs (ch :: s)).
Proof using HC.
  intros Ht Hk Hc Hv Hs Hj HN Hm. pose proof (zlen_nonneg s). unfold after_loop4. rewrite (proj2 (Z.ltb_lt _ _)) by done. cbn [andb].
  destruct (is_space ch) eqn:Es.
  - rewrite meaning_space, andb_false_r by done.
    assert (is_pad ch = false) as -> by (destruct (is_pad ch) eqn:Ep; [apply pad_not_space in Ep; congruence|done]).
    apply loop1_ok; (done || lia).
  - rewrite meaning_other by done. destruct (is_pad ch); cbn [negb andb]; [|done]. apply finish64_ok; (done || lia).
Qed.

(** Four values have been read. *)
Lemma four_read_ok temp v0 v1 v2 v3 j m r s : holds temp [v0; v1; v2; v3] -> 0 <= j -> 4 * j + 4 <= N -> zlen m = dest_size ->
  (forall m', zlen m' = dest_size -> yields (3 * (j + 1)) m' (r m') (mean [] s)) ->
  yields (3 * j) m (x ← put3 dest_size (3 * j) temp m; match x with None => Ok None | Some m => r m end) (mean [v0; v1; v2; v3] s).
Proof.
  intros Ht Hj HN Hm Hr. assert (3 * j + 3 <= dest_size) by (unfold dest_size; dlia).
  rewrite (put3_ok dest_size (3 * j) _ m v0 v1 v2 v3) by (done || lia). cbn [mbind outcome_bind]. rewrite meaning_four.
  apply yields_after; [lia|change (zlen (sextets [v0; v1; v2; v3])) with 3; lia|]. change (zlen (sextets [v0; v1; v2; v3])) with 3.
  replace (3 * j + 3) with (3 * (j + 1)) by lia. apply Hr. rewrite zlen_splice; [done|lia|change (zlen (sextets [v0; v1; v2; v3])) with 3; lia].
Qed.

(** What three bytes leave in [temp]. *)
Lemma shifted_range temp : 0 <= temp < 2 ^ 32 -> 0 <= Z.shiftr (Z.shiftr temp 8) 8 < 2 ^ 32.
Proof. intros Ht. rewrite !Z.shiftr_div_pow2 by lia. change (2 ^ 8) with 256. dlia. Qed.

Lemma loop4_ok n s j decode ch temp m : bytes_ok s -> zlen s < Z.of_nat n -> 0 <= temp < 2 ^ 32 -> 0 <= decode -> is_pad ch = false -> 0 <= j ->
  4 * j + zlen s <= N -> zlen m = dest_size ->
  yields (3 * j) m (after4 n s (3 * j) decode ch temp m) (mean [] s).
Proof using HC.
  revert s j decode ch temp m. induction n as [|n IH]; intros s j decode ch temp m Hs Hn Ht Hd Hc Hj HN Hm; [pose proof (zlen_nonneg s); lia|].
  assert (Hend : zlen s < 4 -> yields (3 * j) m (after_loop4 unbase64 dest_size
    {| le_src := s; le_destidx := 3 * j; le_decode := decode; le_ch := ch; le_temp := temp; le_state := 0; le_m := m |}) (mean [] s)).
  { intros _. unfold after_loop4. rewrite (proj2 (Z.ltb_ge _ _)) by done. cbn [andb]. rewrite Hc.
    apply (loop1_ok s [] j temp m); [done|by apply holds_nil|done|done|rewrite (@zlen_nil Z); lia|done]. }
  unfold after4. cbn [loop4]. destruct s as [|c0 [|c1 [|c2 [|c3 rest]]]]; [by apply Hend..|]. clear Hend.
  pose proof Hs as Hs'. unfold bytes_ok in Hs'. rewrite !Forall_cons in Hs'. destruct Hs' as (B0 & B1 & B2 & B3 & Hrest).
  rewrite !zlen_cons in Hn, HN. pose proof (zlen_nonneg rest).
  destruct (four_at_once_ok c0 c1 c2 c3 temp B0 B1 B2 B3 Ht) as (t & -> & Ht' & Hgood). cbn [mbind outcome_bind].
  destruct (match t with None => true | Some t => negb (Z.land t 0x80000000 =? 0) end).
  - destruct (one_by_one_ok (c0 :: c1 :: c2 :: c3 :: rest) (default temp t) Hs) as [Hr|Hr]; [rewrite !zlen_cons; lia|done|..].
    + destruct Hr as (ch' & s' & temp' & v0 & v1 & v2 & v3 & -> & Hh & Hv3 & Hp & Hs' & Hl & ->). cbn [mbind outcome_bind]. rewrite !zlen_cons in Hl.
      rewrite option_outcome. apply (four_read_ok temp' v0 v1 v2 v3 j m (fun m => after4 n s' (3 * j + 3) v3 ch' (Z.shiftr (Z.shiftr temp' 8) 8) m)); [done|done|lia|done|].
      intros m' Hm'. replace (3 * j + 3) with (3 * (j + 1)) by lia. destruct Hh as (? & _). apply IH; (by apply shifted_range || done || lia).
    + destruct Hr as (ch' & s' & temp' & vs & -> & Hh & Hk & Hch & Hv & Hs' & Hl & ->). cbn [mbind outcome_bind]. rewrite !zlen_cons in Hl.
      apply stop64_ok; (done || lia).
  - destruct (Hgood eq_refl) as ((V0 & V1 & V2 & V3) & Hh). cbn [mbind outcome_bind].
    assert (mean [] (c0 :: c1 :: c2 :: c3 :: rest) = mean [val c0; val c1; val c2; val c3] rest) as -> by (by rewrite !meaning_letter).
    rewrite option_outcome. apply (four_read_ok (default temp t) _ _ _ _ j m (fun m => after4 n rest (3 * j + 3) decode ch (Z.shiftr (Z.shiftr (default temp t) 8) 8) m)); [done|done|lia|done|].
    intros m' Hm'. replace (3 * j + 3) with (3 * (j + 1)) by lia. apply IH; (by apply shifted_range || done || lia).
Qed.

End decoding.

Section codec.
Context (unbase64 base64 : list Z) {HC : Codec unbase64 base64} (fresh : Z -> list Z) (fresh_len : forall n, 0 <= n -> zlen (fresh n) = n).

Lemma unescape_string_ok src : bytes_ok src ->
  Base64UnescapeInternal_string unbase64 fresh src =
    Ok (match meaning unbase64 src with Some out => (true, out) | None => (false, []) end).
Proof using All.
  intros Hs. pose proof (zlen_nonneg src). unfold Base64UnescapeInternal_string. cbv zeta.
  change (3 * (zlen src `div` 4) + zlen src `mod` 4) with (dest_size (zlen src)). set (size := dest_size (zlen src)).
  assert (0 <= size) by (subst size; unfold dest_size; dlia).
  pose proof (loop4_ok unbase64 base64 (zlen src) (S (length src)) src 0 0 0 0 (fresh size) Hs ltac:(unfold zlen; lia) ltac:(lia) ltac:(lia) eq_refl
    ltac:(lia) ltac:(lia) (fresh_len size ltac:(lia))) as Hy.
  change (after4 unbase64 (zlen src) (S (length src)) src (3 * 0) 0 0 0 (fresh size)) with
    (Base64UnescapeInternal unbase64 src size (fresh size)) in Hy.
  fold (meaning unbase64 src) in Hy. destruct (meaning unbase64 src) as [out|]; cbn [yields] in Hy; [|by rewrite Hy].
  destruct Hy as (m' & -> & Hm & Ht). cbn [mbind outcome_bind]. rewrite Z.add_0_l in *. rewrite Ht, fresh_len in * by lia.
  assert (zlen out <= size) as Hle.
  { apply (f_equal zlen) in Ht. change (ztake (3 * 0) (fresh size)) with (@nil Z) in Ht. cbn [app] in Ht.
    unfold ztake, zlen in Ht. rewrite length_take in Ht. unfold zlen in *. lia. }
  unfold check. rewrite (proj2 (Z.leb_le _ _)) by done. done.
Qed.

(** ** Encoding *)

Definition letter (v : Z) : Z := default 0 (zget base64 v).

Lemma letter_ok v : 0 <= v < 64 -> mget base64 v = Ok (letter v) /\ byte_ok (letter v) /\ value unbase64 (letter v) = v.
Proof using HC.
  intros Hv. destruct (codec_inverse v Hv) as (c & E & Hc & Hi). unfold letter. unfold mget in *. destruct (zget base64 v); [|done].
  injection E as ->. done.
Qed.

Lemma put4_ok a w0 w1 w2 w3 r x : 0 <= x < 2 ^ 24 ->
  put4 base64 (zlen a) x (a ++ [w0; w1; w2; w3] ++ r) =
    Ok (a ++ [letter (x `div` 262144); letter (x `div` 4096 `mod` 64); letter (x `div` 64 `mod` 64); letter (x `mod` 64)] ++ r).
Proof using HC.
  intros Hx. unfold put4. rewrite !Z.shiftr_div_pow2 by lia.
  change 0x3FFFF with (Z.ones 18). change 0xFFF with (Z.ones 12). change 0x3F with (Z.ones 6). rewrite !Z.land_ones by lia.
  change (2 ^ 24) with 16777216 in Hx. change (2 ^ 18) with 262144. change (2 ^ 12) with 4096. change (2 ^ 6) with 64.
  replace (x `mod` 262144 `div` 4096) with (x `div` 4096 `mod` 64) by dlia.
  replace (x `mod` 262144 `mod` 4096 `div` 64) with (x `div` 64 `mod` 64) by dlia.
  replace (x `mod` 262144 `mod` 4096 `mod` 64) with (x `mod` 64) by dlia.
  set (y0 := x `div` 262144). set (y1 := x `div` 4096 `mod` 64). set (y2 := x `div` 64 `mod` 64). set (y3 := x `mod` 64).
  assert (0 <= y0 < 64) by (subst y0; dlia). assert (0 <= y1 < 64) by (subst y1; dlia). assert (0 <= y2 < 64) by (subst y2; dlia).
  assert (0 <= y3 < 64) by (subst y3; dlia).
  rewrite (proj1 (letter_ok y0 ltac:(lia))), (proj1 (letter_ok y1 ltac:(lia))), (proj1 (letter_ok y2 ltac:(lia))), (proj1 (letter_ok y3 ltac:(lia))).
  cbn [mbind outcome_bind].
  pose proof (mwrite_mid a [w0] ([w1; w2; w3] ++ r) [letter y0] (zlen a)) as E0.
  pose proof (mwrite_mid (a ++ [letter y0]) [w1] ([w2; w3] ++ r) [letter y1] (zlen a + 1)) as E1.
  pose proof (mwrite_mid (a ++ [letter y0; letter y1]) [w2] ([w3] ++ r) [letter y2] (zlen a + 2)) as E2.
  pose proof (mwrite_mid (a ++ [letter y0; letter y1; letter y2]) [w3] r [letter y3] (zlen a + 3)) as E3.
  rewrite <- !app_assoc in E1, E2, E3. cbn [app] in *. rewrite E0 by done. cbn [mbind outcome_bind].
  rewrite E1 by (done || zl). cbn [mbind outcome_bind]. rewrite E2 by (done || zl). cbn [mbind outcome_bind]. rewrite E3 by (done || zl). done.
Qed.

(** The letters of three bytes. *)
Definition group (a b c : Z) : list Z :=
  [letter (a `div` 4); letter (a `mod` 4 * 16 + b `div` 16); letter (b `mod` 16 * 4 + c `div` 64); letter (c `mod` 64)].

Lemma put4_group x w0 w1 w2 w3 r a b c : byte_ok a -> byte_ok b -> byte_ok c ->
  put4 base64 (zlen x) (a * 65536 + b * 256 + c) (x ++ [w0; w1; w2; w3] ++ r) = Ok (x ++ group a b c ++ r).
Proof using HC.
  unfold byte_ok. intros Ha Hb Hc. rewrite put4_ok by lia. unfold group. set (n := a * 65536 + b * 256 + c).
  assert (n `div` 262144 = a `div` 4) as -> by (subst n; dlia).
  assert (n `div` 4096 `mod` 64 = a `mod` 4 * 16 + b `div` 16) as -> by (subst n; dlia).
  assert (n `div` 64 `mod` 64 = b `mod` 16 * 4 + c `div` 64) as -> by (subst n; dlia).
  assert (n `mod` 64 = c `mod` 64) as -> by (subst n; dlia). done.
Qed.

(** A 32-bit load without its last byte. *)
Lemma load_24 a b c d : byte_ok a -> byte_ok b -> byte_ok c -> byte_ok d ->
  Z.shiftr (Z.lor (Z.lor (Z.lor (Z.shiftl a 24) (Z.shiftl b 16)) (Z.shiftl c 8)) d) 8 = a * 65536 + b * 256 + c.
Proof.
  unfold byte_ok. intros Ha Hb Hc Hd. assert (forall x y, 0 <= y < 256 -> Z.lor (Z.shiftl x 8) y = x * 256 + y) as Hl.
  { intros x y Hy. rewrite Z.lor_comm, lor_fields by lia. change (2 ^ 8) with 256. lia. }
  replace 24 with (8 + 16) by lia. rewrite <- Z.shiftl_shiftl, <- Z.shiftl_lor, Hl by lia.
  replace 16 with (8 + 8) by lia. rewrite <- Z.shiftl_shiftl, <- Z.shiftl_lor by lia. rewrite !Hl by lia.
  rewrite Z.shiftr_div_pow2 by lia. change (2 ^ 8) with 256. dlia.
Qed.

Lemma load_16 a b : byte_ok b -> Z.lor (Z.shiftl a 8) b = a * 256 + b.
Proof. unfold byte_ok. intros Hb. rewrite Z.lor_comm, lor_fields by lia. change (2 ^ 8) with 256. lia. Qed.

(** Four bytes of a buffer. *)
Lemma split_four (r : list Z) : 4 <= zlen r -> exists w0 w1 w2 w3 r', r = [w0; w1; w2; w3] ++ r' /\ zlen r' = zlen r - 4.
Proof.
  intros Hr. destruct (split_at 4 r) as (w & r' & -> & Hw & Hr'); [lia|].
  destruct w as [|w0 [|w1 [|w2 [|w3 [|? w]]]]]; try (unfold zlen in Hw; cbn in Hw; lia). by exists w0, w1, w2, w3, r'.
Qed.

Notation text := (base64_text letter).

Lemma escape_loop4_eq x y z w src d m :
  escape_loop4 base64 (x :: y :: z :: w :: src) d m =
    (m ← put4 base64 d (Z.shiftr (Z.lor (Z.lor (Z.lor (Z.shiftl x 24) (Z.shiftl y 16)) (Z.shiftl z 8)) w) 8) m;
     escape_loop4 base64 (w :: src) (d + 4) m).
Proof. reflexivity. Qed.

Lemma escape_loop4_ok n src padding a r : (length src <= n)%nat -> bytes_ok src -> zlen (text padding src) <= zlen r ->
  exists tl t r', escape_loop4 base64 src (zlen a) (a ++ r) = Ok (tl, zlen (a ++ t), (a ++ t) ++ r') /\
    text padding src = t ++ text padding tl /\ bytes_ok tl /\ (length tl <= 3)%nat /\ zlen r' = zlen r - zlen t.
Proof using HC.
  revert src a r. induction n as [|n IH]; intros src a r Hn Hs Hr.
  { destruct src; [|cbn in Hn; lia]. exists [], [], r. rewrite app_nil_r, (@zlen_nil Z). split_and!; (done || cbn; lia || lia). }
  assert (Hstop : (length src <= 3)%nat -> escape_loop4 base64 src (zlen a) (a ++ r) = Ok (src, zlen a, a ++ r) ->
    exists tl t r', escape_loop4 base64 src (zlen a) (a ++ r) = Ok (tl, zlen (a ++ t), (a ++ t) ++ r') /\
    text padding src = t ++ text padding tl /\ bytes_ok tl /\ (length tl <= 3)%nat /\ zlen r' = zlen r - zlen t).
  { intros Hl E. exists src, [], r. rewrite app_nil_r, (@zlen_nil Z). split_and!; (done || lia). }
  destruct src as [|x [|y [|z [|w src]]]]; [apply Hstop; (done || cbn; lia)..|]. clear Hstop.
  pose proof Hs as Hs'. unfold bytes_ok in Hs'. rewrite !Forall_cons in Hs'. destruct Hs' as (Bx & By & Bz & Hs'). pose proof Hs' as [Bw _].
  assert (text padding (x :: y :: z :: w :: src) = group x y z ++ text padding (w :: src)) as Et by done.
  rewrite Et, zlen_app in Hr. change (zlen (group x y z)) with 4 in Hr. pose proof (zlen_nonneg (text padding (w :: src))).
  destruct (split_four r) as (w0 & w1 & w2 & w3 & r1 & -> & Hr1); [lia|].
  rewrite escape_loop4_eq, load_24 by done. rewrite put4_group by done. cbn [mbind outcome_bind].
  destruct (IH (w :: src) (a ++ group x y z) r1) as (tl & t & r' & E & Ht & Htl & Hlen & Hr'); [cbn in *; lia|by apply Forall_cons|lia|].
  rewrite zlen_app in E. change (zlen (group x y z)) with 4 in E. rewrite <- !app_assoc in E. rewrite E.
  exists tl, (group x y z ++ t), r'. rewrite Et, Ht, <- !app_assoc. split_and!; [done..|].
  rewrite !zlen_app in *. change (zlen (group x y z)) with 4. lia.
Qed.

Lemma mwrite_next i (a : list Z) w r c : i = zlen a -> mwrite i [c] (a ++ w :: r) = Ok ((a ++ [c]) ++ r).
Proof. intros ->. rewrite <- app_assoc. by apply (mwrite_mid a [w] r [c]). Qed.

Ltac put_next :=
  match goal with
  | |- context [mwrite ?i [?c] (?a ++ ?w :: ?r)] => rewrite (mwrite_next i a w r c) by zl; cbn [mbind outcome_bind]
  end.

(** The last bytes; the buffer ends where the text does. *)
Lemma escape_tail_ok tl padding a r : bytes_ok tl -> (length tl <= 3)%nat -> zlen r = zlen (text padding tl) ->
  escape_tail base64 tl (zlen a) (zlen r) padding (a ++ r) = Ok (zlen (a ++ text padding tl), a ++ text padding tl).
Proof using HC.
  intros Hs Hl Hr. destruct tl as [|x [|y [|z [|? tl]]]]; [| | | |cbn in Hl; lia].
  - apply zlen_empty in Hr as ->. cbn. by rewrite !app_nil_r.
  - apply Forall_cons in Hs as [Hx _]. unfold byte_ok in Hx. cbn [escape_tail base64_text] in *.
    rewrite Z.shiftr_div_pow2, Z.shiftl_mul_pow2 by lia. change 0x3 with (Z.ones 2). rewrite Z.land_ones by lia.
    change (2 ^ 2) with 4. change (2 ^ 4) with 16.
    rewrite (proj1 (letter_ok (x `div` 4) ltac:(dlia))), (proj1 (letter_ok (x `mod` 4 * 16) ltac:(dlia))).
    destruct padding; rewrite Hr; cbn [app] in *.
    + destruct r as [|w0 [|w1 [|w2 [|w3 [|? r]]]]]; try (unfold zlen in Hr; cbn in Hr; lia). cbn [zlen length]. cbn [mbind outcome_bind].
      change (Z.of_nat 4 <? 2) with false. change (Z.of_nat 4 - 2 <? 2) with false. cbn iota.
      do 4 put_next. rewrite <- !app_assoc. cbn [app]. do 3 f_equal. zl.
    + destruct r as [|w0 [|w1 [|? r]]]; try (unfold zlen in Hr; cbn in Hr; lia). cbn [zlen length]. cbn [mbind outcome_bind].
      change (Z.of_nat 2 <? 2) with false. cbn iota.
      do 2 put_next. rewrite <- !app_assoc. cbn [app]. do 3 f_equal. zl.
  - unfold bytes_ok in Hs. rewrite !Forall_cons in Hs. destruct Hs as (Hx & Hy & _). cbn [escape_tail base64_text] in *.
    rewrite load_16 by done. unfold byte_ok in Hx, Hy.
    rewrite !Z.shiftr_div_pow2, Z.shiftl_mul_pow2 by lia. change 0x3FF with (Z.ones 10). change 0x00F with (Z.ones 4). rewrite !Z.land_ones by lia.
    change (2 ^ 10) with 1024. change (2 ^ 4) with 16. change (2 ^ 2) with 4.
    replace ((x * 256 + y) `div` 1024) with (x `div` 4) by dlia.
    replace ((x * 256 + y) `mod` 1024 `div` 16) with (x `mod` 4 * 16 + y `div` 16) by dlia.
    replace ((x * 256 + y) `mod` 1024 `mod` 16 * 4) with (y `mod` 16 * 4) by dlia.
    rewrite (proj1 (letter_ok (x `div` 4) ltac:(dlia))), (proj1 (letter_ok (x `mod` 4 * 16 + y `div` 16) ltac:(dlia))),
      (proj1 (letter_ok (y `mod` 16 * 4) ltac:(dlia))).
    destruct padding; rewrite Hr; cbn [app] in *.
    + destruct r as [|w0 [|w1 [|w2 [|w3 [|? r]]]]]; try (unfold zlen in Hr; cbn in Hr; lia). cbn [zlen length]. cbn [mbind outcome_bind].
      change (Z.of_nat 4 <? 3) with false. change (Z.of_nat 4 - 3 <? 1) with false. cbn iota.
      do 4 put_next. rewrite <- !app_assoc. cbn [app]. do 3 f_equal. zl.
    + destruct r as [|w0 [|w1 [|w2 [|? r]]]]; try (unfold zlen in Hr; cbn in Hr; lia). cbn [zlen length]. cbn [mbind outcome_bind].
      change (Z.of_nat 3 <? 3) with false. cbn iota.
      do 3 put_next. rewrite <- !app_assoc. cbn [app]. do 3 f_equal. zl.
  - unfold bytes_ok in Hs. rewrite !Forall_cons in Hs. destruct Hs as (Hx & Hy & Hz & _).
    change (text padding [x; y; z]) with (group x y z ++ []) in *. rewrite app_nil_r in *. cbn [escape_tail]. rewrite Hr.
    change (zlen (group x y z) <? 4) with false. cbn iota. rewrite load_16, Z.shiftl_mul_pow2 by (done || lia).
    change (zlen (group x y z)) with 4 in Hr. destruct (split_four r) as (w0 & w1 & w2 & w3 & r' & -> & Hr'); [lia|].
    rewrite Hr in Hr'. apply zlen_empty in Hr' as ->. change (2 ^ 16) with 65536.
    replace (x * 65536 + (y * 256 + z)) with (x * 65536 + y * 256 + z) by lia. rewrite put4_group by done. cbn [mbind outcome_bind].
    rewrite app_nil_r, zlen_app. done.
Qed.

(** The size is computed in advance. *)
Lemma escaped_len_ok n src padding : (length src <= n)%nat -> 4 * zlen src + 8 < 2 ^ 64 ->
  zlen (text padding src) = zlen src `div` 3 * 4 +
    (if zlen src `mod` 3 =? 0 then 0 else if zlen src `mod` 3 =? 1 then (if padding then 4 else 2) else (if padding then 4 else 3)).
Proof.
  revert src. induction n as [|n IH]; intros src Hn Hb; [by destruct src; [|cbn in Hn; lia]|].
  destruct src as [|x [|y [|z src]]]; [done|by destruct padding..|].
  change (text padding (x :: y :: z :: src)) with (group x y z ++ text padding src). rewrite zlen_app. change (zlen (group x y z)) with 4.
  rewrite IH by (cbn in Hn; lia || (rewrite !zlen_cons in Hb; lia)). rewrite !zlen_cons.
  replace (zlen src + 1 + 1 + 1) with (zlen src + 1 * 3) by lia. rewrite Z.div_add, Z.mod_add by lia. lia.
Qed.

Lemma escape_string_ok src padding : bytes_ok src -> 4 * zlen src + 8 < 2 ^ 64 ->
  Base64EscapeInternal_string base64 fresh src padding = Ok (text padding src).
Proof using All.
  intros Hs Hb. pose proof (zlen_nonneg src). pose proof (escaped_len_ok (length src) src padding ltac:(lia) Hb) as Hlen.
  unfold Base64EscapeInternal_string.
  assert (CalculateBase64EscapedLenInternal (zlen src) padding = Ok (zlen (text padding src))) as ->.
  { unfold CalculateBase64EscapedLenInternal. cbv zeta. rewrite !u64_small by (try rewrite u64_small by dlia; destruct padding; dlia).
    assert (zlen src <= zlen (text padding src)) by (rewrite Hlen; repeat case_if; zbool; dlia).
    rewrite Hlen in *. unfold check. repeat case_if; zbool; cbn [mbind outcome_bind]; (f_equal; lia) || lia. }
  cbn [mbind outcome_bind]. set (t := text padding src) in *. pose proof (zlen_nonneg t).
  assert (zlen src * 4 <= zlen t * 3 < 2 ^ 64) as Hsz by (rewrite Hlen; repeat case_if; zbool; dlia).
  unfold Base64EscapeInternal. rewrite !u64_small by lia. rewrite (proj2 (Z.ltb_ge _ _)) by lia. cbv zeta.
  destruct (escape_loop4_ok (length src) src padding [] (fresh (zlen t))) as (tl & t1 & r' & E & Ht & Htl & Hl & Hr');
    [lia|done|rewrite fresh_len by lia; done|]. rewrite fresh_len in Hr' by lia. cbn [app] in E. change (zlen []) with 0 in E. rewrite E. cbn [mbind outcome_bind].
  fold t in Ht. assert (zlen r' = zlen (text padding tl)) as Hrt by (rewrite Hr', Ht, zlen_app; lia).
  replace (zlen t - zlen t1) with (zlen r') by lia. rewrite escape_tail_ok by done. cbn [mbind outcome_bind]. rewrite <- Ht.
  unfold check. rewrite Z.eqb_refl. cbn [mbind outcome_bind]. by rewrite ztake_all by lia.
Qed.

(** ** The text means the bytes *)

Lemma text_bytes n src padding : (length src <= n)%nat -> bytes_ok src -> bytes_ok (text padding src).
Proof using HC.
  assert (Hlet : forall v, 0 <= v < 64 -> byte_ok (letter v)) by (intros v Hv; by apply letter_ok).
  revert src. induction n as [|n IH]; intros src Hn Hs; [by destruct src; [constructor|cbn in Hn; lia]|].
  destruct src as [|x [|y [|z src]]]; [constructor| | |]; unfold bytes_ok in *; rewrite !Forall_cons in Hs; cbn [base64_text].
  - destruct Hs as (Hx & _). unfold byte_ok in Hx. apply Forall_app. split; [repeat constructor; apply Hlet; dlia|].
    destruct padding; repeat constructor; done.
  - destruct Hs as (Hx & Hy & _). unfold byte_ok in Hx, Hy. apply Forall_app. split; [repeat constructor; apply Hlet; dlia|].
    destruct padding; repeat constructor; done.
  - destruct Hs as (Hx & Hy & Hz & Hs). unfold byte_ok in Hx, Hy, Hz. apply Forall_app. split; [repeat constructor; apply Hlet; dlia|].
    apply IH; [cbn in Hn; lia|done].
Qed.

Lemma pad_value : value unbase64 61 < 0.
Proof using HC.
  apply Z.nle_gt. intros H. destruct (codec_letter (base64 := base64) 61 ltac:(unfold byte_ok; lia) H) as (_ & Hp & _). done.
Qed.

Lemma meaning_letters vs v s : 0 <= v < 64 -> meaning_from unbase64 vs (letter v :: s) = meaning_from unbase64 (vs ++ [v]) s.
Proof using HC. intros Hv. destruct (letter_ok v Hv) as (_ & Hb & E). rewrite (meaning_letter unbase64 base64) by (done || lia). by rewrite E. Qed.

Lemma meaning_text n src padding : (length src <= n)%nat -> bytes_ok src -> meaning unbase64 (text padding src) = Some src.
Proof using HC.
  revert src. induction n as [|n IH]; intros src Hn Hs; [by destruct src; [|cbn in Hn; lia]|]. unfold meaning.
  destruct src as [|x [|y [|z src]]]; [done| | |]; unfold bytes_ok in Hs; rewrite !Forall_cons in Hs.
  - destruct Hs as (Hx & _). unfold byte_ok in Hx. cbn [base64_text app]. rewrite !meaning_letters by dlia. cbn [app].
    assert (sextets [x `div` 4; x `mod` 4 * 16] = [x]) as Es by (cbn [sextets]; f_equal; dlia).
    destruct padding; [rewrite (meaning_other unbase64 base64) by (done || apply pad_value)|rewrite meaning_nil];
      (transitivity (Some (sextets [x `div` 4; x `mod` 4 * 16])); [reflexivity|by rewrite Es]).
  - destruct Hs as (Hx & Hy & _). unfold byte_ok in Hx, Hy. cbn [base64_text app]. rewrite !meaning_letters by dlia. cbn [app].
    assert (sextets [x `div` 4; x `mod` 4 * 16 + y `div` 16; y `mod` 16 * 4] = [x; y]) as Es by (cbn [sextets]; f_equal; [dlia|f_equal; dlia]).
    destruct padding; [rewrite (meaning_other unbase64 base64) by (done || apply pad_value)|rewrite meaning_nil];
      (transitivity (Some (sextets [x `div` 4; x `mod` 4 * 16 + y `div` 16; y `mod` 16 * 4])); [reflexivity|by rewrite Es]).
  - destruct Hs as (Hx & Hy & Hz & Hs). unfold byte_ok in Hx, Hy, Hz. cbn [base64_text app]. rewrite !meaning_letters by dlia. cbn [app].
    rewrite meaning_four. fold (meaning unbase64 (text padding src)). rewrite IH by (done || cbn in Hn; lia). cbn [fmap option_fmap option_map].
    f_equal. cbn [sextets app]. f_equal; [dlia|f_equal; [dlia|f_equal; dlia]].
Qed.

End codec.

(** C29: for the standard and the web-safe alphabet, decoding, four
    characters at once or one by one, ends inside of its buffers and returns
    exactly what the text means, or fails for text without meaning; encoding
    writes the text of the bytes into exactly the size computed in advance,
    and decoding it returns the bytes. *)
Theorem base64_escaping fresh (web : bool) :
  (forall n, 0 <= n -> zlen (fresh n) = n) ->
  let esc := if web then web_safe_base64_escape else base64_escape in
  let unesc := if web then web_safe_base64_unescape else base64_unescape in
  let table := if web then kUnWebSafeBase64 else kUnBase64 in
  let chars := if web then kWebSafeBase64Chars else kBase64Chars in
  forall src, bytes_ok src ->
    unesc fresh src = Ok (match meaning table src with Some out => (true, out) | None => (false, []) end) /\
    (4 * zlen src + 8 < 2 ^ 64 ->
     esc fresh src = Ok (base64_text (letter chars) (negb web) src) /\
     unesc fresh (base64_text (letter chars) (negb web) src) = Ok (true, src)).
Proof.
  intros Hf esc unesc table chars src Hs.
  assert (Hdec : forall s, bytes_ok s -> unesc fresh s = Ok (match meaning table s with Some out => (true, out) | None => (false, []) end)).
  { intros s Hb. subst unesc table. destruct web.
    - by apply (unescape_string_ok _ kWebSafeBase64Chars).
    - by apply (unescape_string_ok _ kBase64Chars). }
  split; [by apply Hdec|]. intros Hl.
  assert (Hb : bytes_ok (base64_text (letter chars) (negb web) src)).
  { subst chars. destruct web; [apply (text_bytes kUnWebSafeBase64 _ (length src))|apply (text_bytes kUnBase64 _ (length src))]; done. }
  rewrite Hdec by done. subst esc table chars. destruct web.
  - rewrite (meaning_text _ kWebSafeBase64Chars (length src)) by done. split; [|done]. by apply (escape_string_ok kUnWebSafeBase64 kWebSafeBase64Chars fresh Hf src false).
  - rewrite (meaning_text _ kBase64Chars (length src)) by done. split; [|done]. by apply (escape_string_ok kUnBase64 kBase64Chars fresh Hf src true).
Qed.

Lemma base64_escaping_witness :
  let fresh n := repeat 7 (Z.to_nat n) in
  let src := bs "any bytes!" in
  base64_escape fresh src = Ok (bs "YW55IGJ5dGVzIQ==") /\
  base64_unescape fresh (bs "YW55 IGJ5dGVz IQ.=") = Ok (true, src) /\
  base64_unescape fresh src = Ok (match meaning kUnBase64 src with Some out => (true, out) | None => (false, []) end).
Proof.
  split; [vm_compute; reflexivity|]. split; [vm_compute; reflexivity|].
  apply (base64_escaping (fun n => repeat 7 (Z.to_nat n)) false).
  - intros n Hn. rewrite zlen_repeat. lia.
  - repeat constructor; vm_compute; done.
Defined.
